(* ===== verification/_CoqProject ===== *)
-Q . S2P
Prelude.v
PyList.v
PyDict.v
Ring.v
Migration.v
VectorClock.v
Records.v
Coordinator.v
MemTable.v
Bloom.v
Merkle.v
Gossip.v
Snowflake.v
Base62.v
Shortener.v
Trie.v
Checks.v
OrderBook.v
Exchange.v
ExchangeInv.v
ExchangeSteps.v
ExchangeProps.v
ExchangeAudit.v
Effects.v
Wallet.v
Transfers.v
TransferInv.v
TransferWork.v
TransferWorker.v
TransferProps.v
Frontier.v
Messages.v
BrokerLog.v
BrokerLogInv.v
Chain.v
BrokerLogSteps.v
BrokerLogRetain.v
BrokerLogProps.v
QueueState.v
QueueGroups.v
QueueReplication.v
QueueCoordinator.v
QueueInv.v
QueueSteps.v
QueueRun.v
QueueProcess.v
QueueMembers.v
QueueDelivery.v
QueueCluster.v
QueueProps.v
QueueQuorum.v
QueueDurable.v
Codec.v
SSTable.v
SSTableRead.v
SSTableOpen.v
Wal.v
Compaction.v
Engine.v
EngineInv.v
EngineRun.v
EngineProps.v
HotelStore.v
HotelSaga.v
HotelPayment.v
HotelStock.v
HotelSteps.v
HotelWorld.v
HotelProps.v
HotelReads.v
HotelCalendar.v
PayBooks.v
PayJobs.v
PayProvider.v
PayWork.v
PayInv.v
PaySteps.v
PayWorld.v
PayRound.v
PayProps.v
