(* ===== verification/Prelude.v ===== *)
(** * Verification of the core algorithms of the system-design repository

    The repository (src/) is a collection of independent Python systems.  This
    library models the parts whose correctness is an algorithm rather than I/O,
    as executable definitions, and proves what each promises.  A definition
    follows its Python function statement by statement: guards in their order,
    exceptions as values of [result] (this file), loops that are not structural
    with fuel.  A mutable object is a record that every operation takes and
    returns; where a call may raise after a mutation, the state it leaves behind
    is part of the result (Gossip.v, Snowflake.v), unless the code works on a
    copy that it then drops.

    ** Shared files

    - Prelude.v: exceptions and [result], the order class [PyOrd] of the values
      that are sorted, bisected or kept in a heap, with the hint base [pyord].
    - PyList.v: [sorted], [bisect] and [heapq] of the Python library, filters.
    - PyDict.v: the insertion-ordered [dict] as its list of items.
    - Effects.v: stateful computations that may raise, with their weakest
      precondition [wp].

    ** Consistent hashing (src/consistent-hashing, its use by the key-value store)

    - Ring.v: the hash ring of hash_ring.py.  A ring [represents] a table of
      weights; every history of writers refines the table
      ([ring_history_refines_weights]), adding or removing a node moves only its
      own keys ([ring_minimal_disruption]), removal undoes addition, and the
      preference list is the clockwise walk without repetition.  The hash is a
      parameter.
    - Migration.v: the plans between two ring states.  [affected_ranges] and
      [iter_migrations] cover exactly the keys whose owner changes.

    ** The key-value store (src/key-value-store)

    - VectorClock.v (vector_clock.py): dominance decides the causal order, merge
      is the least upper bound, increments stay bounded.
    - Records.v (records.py): reconciliation keeps exactly the maximal versions,
      in any order and grouping.
    - Coordinator.v (coordinator.py, quorum.py, placement.py): replica sets over
      the interface [PreferenceRing], which the ring and the placement implement;
      quorum intersection, substitution of failed replicas, read resolution.
    - MemTable.v (memtable.py): newest write wins, sizes are exact.
    - Bloom.v (bloom_filter.py): no false negatives, byte-exact round trip.
    - Merkle.v (merkle_tree.py): incremental updates equal a rebuild, equal roots
      mean equal buckets under collision resistance, comparison is exact.
    - Gossip.v (gossip.py, membership.py): any history of events is safe, merging
      is a join, the failure detector follows its timeouts, and membership
      refines a view over the interface [HashRing].

    The storage engine (src/key-value-store/src/kv_store/storage).  Codec.v has
    UTF-8, fields of bytes and the class [Time] of timestamps with their eight
    bytes; SSTable.v models sstable.py, SSTableRead.v proves lookups in a table
    that [represents] its entries and SSTableOpen.v that the bytes of a table open
    to it ([sstable_lookup]), for keys without zero bytes: [zero_byte_key_lost]
    shows why.  Wal.v models the bytes of wal.py and their replay, Compaction.v
    compaction.py with the merge by a heap ([compaction_newest]).  Engine.v models
    engine.py and what the other files do with the disk: an [Env] says how each
    call to the operating system of one operation ends, [Crash] loses the
    process.  EngineInv.v states the invariant [inv] of disk and memory with the
    writes submitted and acknowledged, EngineRun.v proves with its
    triples [triple] that each computation keeps it, also at each [await], and
    EngineProps.v concludes for all runs: acknowledged writes are read, recovery
    succeeds, a scan agrees with lookups.

    ** Identifiers and short codes

    - Snowflake.v (src/unique-id-generator: config.py, snowflake.py, parser.py,
      strategies.py): any history of calls gives increasing identifiers that
      parse back, nodes never collide, bursts, exactness of the parser.
    - Base62.v, Shortener.v (src/url-shortener: strategies.py, storage.py,
      shortener.py): the code is a bijection; shortening and resolving under
      every interleaving of their lock regions, against the class
      [HashStrategyLaws] that both strategies implement.

    ** Autocomplete (src/search-autocomplete-system)

    - Trie.v (trie.py): normalisation is idempotent; the cached and bounded
      best-first search equals filtering and sorting the whole list.

    ** The exchange (src/stock-exchange-system)

    OrderBook.v models stock_exchange/order_book.py: one side of one symbol's
    book is a dictionary of price levels, a doubly linked FIFO of nodes and a
    heap of prices that may be stale.  Its specification is the list of
    entries in the order of their arrival; [side_rep] relates the two, and
    [order_book_refines_arrivals] is the refinement, errors included.

    Exchange.v models contracts.py (settings and order bodies), policies.py
    (session and volume policies), the checks of common.py and the reducer of
    matching.py: [reduce_command] is [genesis], or the checks of a sequenced
    command followed by [expire] and [cancel] or [submit]; [submit] is
    admission, [reserve_funds], the loop [match_loop] over [best] and
    [execute] (with [settle] on the accounts), and [rest_order].
    ExchangeInv.v states the invariant [inv ex st] of a state in which the order
    [ex] is being matched: the books are the queues of the active orders (by
    the representation of OrderBook.v), holds are the reservations, balances
    are the opening ones plus the flows of the trades, no bid reaches an ask;
    it proves release, execution and the loop, whose trades are the greedy
    sequence [due].  ExchangeSteps.v proves the handlers, ExchangeProps.v the
    reachable states and the theorems: conservation, price-time priority, the
    book against the scan of the orders, the errors and the volume limit.

    ExchangeAudit.v models audit.py and proves that it finds nothing.
    Checks.v holds the checks of identifiers and integers that the exchange
    and the wallet share.

    ** The digital wallet (src/digital-wallet-system)

    Wallet.v models a shard: contracts.py (transfers, receipts), projection.py
    ([reduce_event]), the fence of common.py and shard.py ([new_shard],
    [action], views).  Its invariant [shard_ok] says that the projection is the
    replay of the log and that balances are accounted for by the recorded
    participants; [shard_history] and [action_once] are its contract.

    Transfers.v models coordinator.py and coordinator_projection.py over a
    [World]: the journal with the row a failed append leaves behind, the shards,
    and the network with delayed calls.  Operations are computations of the
    monad [M]; every call outside consumes one fault of the oracle.  [step] is
    the worker with its round robin, table of retries and dead transfers, and an
    [event] whatever happens to a [Coordinator].  A [move], for the safety
    theorems, is a request, an attempt on any pending transfer or a (repeated)
    delivery of a delayed call.  [cross_ok] and [local_ok] are the reference state machines
    of a transfer's decision, status and participants.  TransferInv.v states
    the invariant [winv] and proves it for a call served by a shard;
    TransferWork.v proves postconditions ([wp]) of every operation, with the
    [rank] of a transfer that each fault-free attempt lowers.  TransferWorker.v
    shows that an event makes one move ([handle_move]), that an attempt leaves
    other transfers alone, and by the sum of the ranks that steps without faults
    settle every transfer the table of retries does not block.  TransferProps.v
    concludes for all runs: atomicity, final outcomes, conservation of money,
    completion (of dead transfers after a retry), durable replies.

    ** The web crawler (src/web-crawler)

    Frontier.v models frontier.py, the heaps of a polite priority frontier, and
    proves by the representation [rep] that they answer as one list of which
    the first eligible item is served, and that hosts are not visited early.

    ** The message queue (src/distributed-message-queue)

    A broker.  Messages.v models messages.py, the hash envelope of common.py and
    the tag filter; BrokerLog.v models log.py (segment files, index of entries,
    manifest) and the requests of broker.py, where every step on the disk
    consumes one fault of an oracle.  Chain.v is the specification, one list of
    linked envelopes; BrokerLogInv.v, BrokerLogSteps.v and BrokerLogRetain.v
    hold the invariant and the methods, BrokerLogProps.v the refinement, the
    durability of what is committed under disk faults, and recovery.
    Durability holds after histories in which no alignment stopped after it
    removed some but not all of the files behind its cut ([undivided]):
    [align_crash_leaves_gap] shows why.

    The coordinator.  QueueState.v holds the tables of coordinator_schema.py
    with topics and producers, QueueGroups.v the members of coordinator_groups.py,
    QueueReplication.v coordinator_replication.py over an arbitrary call
    of a broker, and QueueCoordinator.v producing, fetching, cursors, transactions
    and retention; [step] is an operation with its answer, [run] a history.
    QueueInv.v states the invariant [logs_ok] and what only grows ([grows]), with
    the reasons for which retention removes a row ([removed_for]); a producer may carry
    the identity of a transaction's outputs, so what tells batches apart by their
    identity is stated for the others ([ordinary], [transaction_name_shared]).
    QueueSteps.v proves each transaction on the tables, QueueRun.v the
    operations (by the triples [tri]), QueueProcess.v transactions of outputs and
    a cursor, and pages.  QueueMembers.v shows that each operation
    is a step of the relation [group_step] on the tables of groups, from which
    QueueDelivery.v derives fencing and the delivery guarantees.
    QueueProps.v has the theorems over all histories, whatever the brokers do.
    QueueCluster.v is a world of real brokers behind a lossy network; over it
    QueueQuorum.v states what tables and brokers have in common ([safe]) and
    proves that replication keeps it (by the triples [keeps]), QueueDurable.v
    the other operations and the durability of committed records on a quorum.

    ** The hotel reservations (src/hotel-reservation-system)

    HotelStore.v models the tables of schema.py and the transactions of
    bookings.py, catalog.py and store.py on them, HotelSaga.v the contracts of
    payment_contracts.py and the jobs of saga.py, HotelPayment.v the provider
    of payment.py and a round of worker.py whose calls are lost before or after
    they take effect.  A [World] is one shard with the provider; a [move] is a
    request, a call of any worker with any job it was ever given, or an
    operation of another shard on the provider.  HotelStock.v states that the
    inventory is what the held bookings take ([stock_ok]) and that a release
    succeeds.  HotelSteps.v has the specification, the [turn]s of one booking with
    its two jobs, and proves that each operation makes turns.
    HotelWorld.v states the phase of every booking ([phase_ok]) with what the
    provider recorded for it ([entry_ok]), and proves that every move keeps
    them.  HotelProps.v concludes: nothing is oversold, the money follows the
    bookings, no call is refused, undisturbed work settles every booking,
    requests are idempotent.  HotelReads.v models cache.py and the reads of
    catalog.py and catalog_queries.py: the revision stands for the tables
    ([advances]), so that cached answers are fresh and availability is exact.
    HotelCalendar.v models calendar_policy.py: rounds fill the horizons.

    ** The payments (src/payment-system)

    PayBooks.v models the tables of schema.py with operations.py and the postings
    of ledger.py, PayJobs.v jobs.py, reconciliation.py, checkouts.py and the
    audit, PayProvider.v the simulated provider, its callbacks and the receiver,
    PayWork.v a round of worker.py and the delivery of a callback, call by call.
    The [books_step]s are all that can happen to the books, receipts from anyone
    included; the [move]s of a [World] put them with the provider, whose messages
    may be late, lost or repeated.  PayInv.v states that the wallets are the
    totals of the ledger ([money_ok]), which postings an operation has
    and what is held for it ([books_ok]), PaySteps.v that every operation keeps
    this, takes nothing back ([grows]) and never lacks funds.  PayWorld.v states
    that the rows of the provider answer to operations ([psp_ok]) and that a
    receipt ever sent is one of two versions of its row ([issued]); it
    joins the two sides ([world_ok]) and proves that every move keeps them
    ([passes]).  PayRound.v follows an undisturbed round and a
    reconciliation and shows that rounds are moves, and PayProps.v
    concludes: the books balance, outcomes are final, receipts are accepted,
    requests are idempotent, the provider agrees, work ends, reports are exact.

    ** Bounds and fuel

    Integers are unbounded, as in Python; widths appear where the code has them
    (identifiers of 63 bits, CRC32, the fields of a Bloom filter's header).  The
    loops with fuel are the search of the trie (fuel: the size of the subtree,
    each visit removes a node), base-62 encoding (one more than the binary
    logarithm, every step divides by 62), the
    matching loop of the exchange (one more than the number of orders: each
    execution that leaves the order unfilled removes a resting one),
    the loops over the bytes of a table or a log (their length: every round
    reads at least one byte, and the theorems show that they end before), and
    the merge of a compaction (the number of entries of its tables); their theorems state the
    result of the call with that fuel, so the fuel suffices.  The waiting loop of
    the identifier generator runs on the clock readings it is given.

    ** Not modelled

    Files, sockets, SQL, Redis and asynchronous tasks (but for the logs and tables
    that carry a protocol: the wallet, the message queue, the hotel, the payments, the storage engine): the handlers of the
    systems that are glue around them (chat, feeds, notifications, storage
    services, the web applications) are components of the manifest with that
    reason.  Strings are ASCII where characters are inspected (normalisation of
    queries); Unicode tables and URL syntax come from the Python library.
    Floating-point quantities (capacity estimation, geography, metrics) are left
    out, and where a modelled function takes one it is a parameter.  What the
    models leave out of a modelled file is said in its opening comment and in
    the component's note. *)
From stdpp Require Export base list sets strings gmap sorting pretty.
From Stdlib Require Export ZArith Lia.

(** ** Exceptions and results

    A Python function that may raise is a function into [result]. *)

Inductive exn : Type :=
| ValueError
| KeyError
| IndexError
| RuntimeError
| TypeError
| CollisionLimitExceededError
| ShortCodeNotFoundError
| URLValidationError
| InvalidConfigError
| ClockMovedBackwardsError
| SequenceOverflowError
| StructError
| OverflowError
| StatusError (status : Z)
| IntegrityError
| OSError
| OutOfFuel.

#[export] Instance exn_eq_dec : EqDecision exn.
Proof. solve_decision. Defined.

Inductive result (A : Type) : Type :=
| Ok (a : A)
| Raise (e : exn).
Arguments Ok {A} a.
Arguments Raise {A} e.

Definition rbind {A B} (r : result A) (f : A → result B) : result B :=
  match r with Ok a => f a | Raise e => Raise e end.
Definition rmap {A B} (f : A → B) (r : result A) : result B :=
  match r with Ok a => Ok (f a) | Raise e => Raise e end.

Notation "'let*' x ':=' r 'in' k" := (rbind r (λ x, k))
  (at level 200, x binder, r at level 100, k at level 200,
   format "'[v' 'let*'  x  ':='  r  'in' '/' k ']'").
#[export] Instance result_eq_dec {A} `{EqDecision A} : EqDecision (result A).
Proof. solve_decision. Defined.

Definition is_ok {A} (r : result A) : bool :=
  match r with Ok _ => true | Raise _ => false end.

(** [raise_if c e k]: the guard [if c: raise e] in front of [k]. *)
Definition raise_if {A} (c : bool) (e : exn) (k : result A) : result A :=
  if c then Raise e else k.

(** A Python list comprehension whose body may raise. *)
Fixpoint mapR {A B} (f : A → result B) (l : list A) : result (list B) :=
  match l with
  | [] => Ok []
  | x :: l' => let* y := f x in let* ys := mapR f l' in Ok (y :: ys)
  end.

Lemma mapR_total {A B} (f : A → result B) (g : A → B) (l : list A) :
  (∀ x, x ∈ l → f x = Ok (g x)) → mapR f l = Ok (g <$> l).
Proof.
  induction l as [|x l IH]; intros Hf; simpl; [done|].
  rewrite Hf by left. simpl. rewrite IH; [done|]. intros y Hy. apply Hf. by right.
Qed.

Lemma mapR_Ok_inv {A B} (f : A → result B) (l : list A) (ys : list B) :
  mapR f l = Ok ys → Forall2 (λ x y, f x = Ok y) l ys.
Proof.
  revert ys. induction l as [|x l IH]; intros ys; simpl.
  - intros [= <-]. constructor.
  - destruct (f x) as [y|e] eqn:Hy; simpl; [|done].
    destruct (mapR f l) as [ys'|e] eqn:Hys; simpl; [|done]. intros [= <-].
    constructor; [done|]. by apply IH.
Qed.

(** ** Python's total orders

    The order of the values the code sorts, bisects or keeps in a heap:
    integers, strings by code point, and tuples lexicographically. *)

Class PyOrd (A : Type) : Type := {
  pyle : A → A → bool;
  pyle_total : ∀ x y, pyle x y = true ∨ pyle y x = true;
  pyle_trans : ∀ x y z, pyle x y = true → pyle y z = true → pyle x z = true;
  pyle_antisym : ∀ x y, pyle x y = true → pyle y x = true → x = y;
}.

Definition pylt {A} `{PyOrd A} (x y : A) : bool := negb (pyle y x).

Declare Scope py_scope.
Delimit Scope py_scope with py.
Infix "<=?" := pyle : py_scope.
Infix "<?" := pylt : py_scope.

(** [min] and [max] of two comparable values, the first argument on a tie. *)
Definition pymin {A} `{PyOrd A} (x y : A) : A := if pylt y x then y else x.
Definition pymax {A} `{PyOrd A} (x y : A) : A := if pylt x y then y else x.

Section py_ord.
Context {A : Type} `{PyOrd A}.
Implicit Types x y z : A.

Lemma pyle_refl x : pyle x x = true.
Proof. destruct (pyle_total x x); done. Qed.

Lemma pylt_spec x y : pylt x y = true ↔ pyle x y = true ∧ x ≠ y.
Proof.
  unfold pylt. split.
  - intros Hn%negb_true_iff. destruct (pyle_total x y) as [Hxy|Hyx]; [|congruence].
    split; [done|]. intros ->. rewrite pyle_refl in Hn. done.
  - intros [Hle Hne]. apply negb_true_iff.
    destruct (pyle y x) eqn:E; [|done]. exfalso. eauto using pyle_antisym.
Qed.

Lemma pylt_irrefl x : pylt x x = false.
Proof. unfold pylt. by rewrite pyle_refl. Qed.

Lemma pylt_trans x y z : pylt x y = true → pylt y z = true → pylt x z = true.
Proof.
  rewrite !pylt_spec. intros [H1 N1] [H2 N2]. split; [by eapply pyle_trans|].
  intros ->. apply N1. by apply pyle_antisym.
Qed.

Lemma pyle_lt_trans x y z : pyle x y = true → pylt y z = true → pylt x z = true.
Proof.
  rewrite !pylt_spec. intros H1 [H2 N2]. split; [by eapply pyle_trans|].
  intros ->. apply N2. by apply pyle_antisym.
Qed.

Lemma pylt_le_trans x y z : pylt x y = true → pyle y z = true → pylt x z = true.
Proof.
  rewrite !pylt_spec. intros [H1 N1] H2. split; [by eapply pyle_trans|].
  intros ->. apply N1. by apply pyle_antisym.
Qed.

Lemma pylt_le x y : pylt x y = true → pyle x y = true.
Proof. rewrite pylt_spec. tauto. Qed.

Lemma pylt_not_le x y : pylt x y = negb (pyle y x).
Proof. done. Qed.

Lemma pyle_false x y : pyle x y = false → pylt y x = true.
Proof. unfold pylt. intros ->. done. Qed.

Lemma pylt_false x y : pylt x y = false → pyle y x = true.
Proof. unfold pylt. intros E%negb_false_iff. done. Qed.

Lemma pylt_not_eq x y : pylt x y = true → x ≠ y.
Proof. rewrite pylt_spec. tauto. Qed.

Lemma pylt_antisym x y : pylt x y = true → pylt y x = true → False.
Proof. intros H1 H2. pose proof (pylt_trans _ _ _ H1 H2) as H3.
  rewrite pylt_irrefl in H3. done. Qed.

#[export] Instance pyord_eq_dec : EqDecision A.
Proof.
  intros x y. destruct (pyle x y) eqn:E1, (pyle y x) eqn:E2.
  - left. by apply pyle_antisym.
  - right. intros ->. congruence.
  - right. intros ->. congruence.
  - exfalso. destruct (pyle_total x y); congruence.
Defined.
End py_ord.

(* The decision procedure of an order is only a fall back: the concrete types
   bring their own. *)
#[export] Remove Hints pyord_eq_dec : typeclass_instances.

#[export] Hint Resolve pyle_refl : core.

Create HintDb pyord discriminated.
#[export] Hint Resolve pyle_refl pylt_le pylt_trans pyle_lt_trans pylt_le_trans
  pyle_trans pyle_false pylt_false : pyord.

#[export] Program Instance Z_pyord : PyOrd Z := {| pyle := Z.leb |}.
Next Obligation. intros. lia. Qed.
Next Obligation. intros. lia. Qed.
Next Obligation. intros. lia. Qed.

#[export] Program Instance nat_pyord : PyOrd nat := {| pyle := Nat.leb |}.
Next Obligation. intros x y. destruct (Nat.leb_spec x y), (Nat.leb_spec y x); auto; lia. Qed.
Next Obligation. intros x y z ?%Nat.leb_le ?%Nat.leb_le. apply Nat.leb_le. lia. Qed.
Next Obligation. intros x y ?%Nat.leb_le ?%Nat.leb_le. lia. Qed.

Lemma pyleZ (x y : Z) : pyle x y = (x <=? y)%Z.
Proof. done. Qed.

Lemma pyltZ (x y : Z) : pylt x y = (x <? y)%Z.
Proof. unfold pylt. simpl. lia. Qed.


(** Strings compare by code point; on UTF-8 bytes that is byte order. *)
Fixpoint str_leb (s t : string) : bool :=
  match s, t with
  | EmptyString, _ => true
  | String _ _, EmptyString => false
  | String a s', String b t' =>
      if decide (a = b) then str_leb s' t'
      else N.leb (Ascii.N_of_ascii a) (Ascii.N_of_ascii b)
  end.

Lemma N_of_ascii_inj (a b : Ascii.ascii) :
  Ascii.N_of_ascii a = Ascii.N_of_ascii b → a = b.
Proof. intros E. by rewrite <- (Ascii.ascii_N_embedding a), E, Ascii.ascii_N_embedding. Qed.

#[export] Program Instance string_pyord : PyOrd string := {| pyle := str_leb |}.
Next Obligation.
  intros s. induction s as [|a s IH]; intros [|b t]; simpl; auto.
  destruct (decide (a = b)) as [->|Hn].
  - destruct (decide (b = b)); [apply IH|done].
  - destruct (decide (b = a)) as [->|]; [done|].
    destruct (N.leb_spec (Ascii.N_of_ascii a) (Ascii.N_of_ascii b)); [by left|].
    right. apply N.leb_le. lia.
Qed.
Next Obligation.
  intros s. induction s as [|a s IH]; intros [|b t] [|c u]; simpl; try done.
  destruct (decide (a = b)) as [->|Hn1], (decide (b = c)) as [->|Hn2].
  - destruct (decide (c = c)); [apply IH|done].
  - destruct (decide (b = c)); done.
  - destruct (decide (a = c)); done.
  - intros L1%N.leb_le L2%N.leb_le. destruct (decide (a = c)) as [->|].
    + exfalso. apply Hn1, N_of_ascii_inj. lia.
    + apply N.leb_le. lia.
Qed.
Next Obligation.
  intros s. induction s as [|a s IH]; intros [|b t]; simpl; try done.
  destruct (decide (a = b)) as [->|Hn].
  - destruct (decide (b = b)); [|done]. intros. f_equal. by apply IH.
  - destruct (decide (b = a)) as [->|]; [done|]. intros L1%N.leb_le L2%N.leb_le.
    exfalso. apply Hn, N_of_ascii_inj. lia.
Qed.

(** Tuples compare lexicographically: the first unequal component decides. *)
Definition pair_leb {A B} `{PyOrd A, PyOrd B} (p q : A * B) : bool :=
  if pylt p.1 q.1 then true
  else if pylt q.1 p.1 then false
  else pyle p.2 q.2.

Section pair_ord.
Context {A B : Type} `{PyOrd A, PyOrd B}.

Lemma pair_leb_spec (p q : A * B) :
  pair_leb p q = true ↔ pylt p.1 q.1 = true ∨ p.1 = q.1 ∧ pyle p.2 q.2 = true.
Proof.
  unfold pair_leb. destruct (pylt p.1 q.1) eqn:E1.
  - split; [by left|done].
  - destruct (pylt q.1 p.1) eqn:E2.
    + split; [done|]. intros [?|[Heq _]]; [done|].
      rewrite Heq, pylt_irrefl in E2. done.
    + split; [|intros [?|[_ ?]]; done]. intros ?. right. split; [|done].
      apply pyle_antisym; by apply pylt_false.
Qed.

#[export] Program Instance pair_pyord : PyOrd (A * B) := {| pyle := pair_leb |}.
Next Obligation.
  intros x y. rewrite !pair_leb_spec.
  destruct (pylt x.1 y.1) eqn:E1; [auto|]. destruct (pylt y.1 x.1) eqn:E2; [auto|].
  assert (x.1 = y.1) as -> by (apply pyle_antisym; by apply pylt_false).
  destruct (pyle_total x.2 y.2); auto.
Qed.
Next Obligation.
  intros x y z. rewrite !pair_leb_spec. intros [L1|[E1 L1]] [L2|[E2 L2]].
  - left. by eapply pylt_trans.
  - left. by rewrite <- E2.
  - left. by rewrite E1.
  - right. split; [congruence|by eapply pyle_trans].
Qed.
Next Obligation.
  intros [x1 x2] [y1 y2]. rewrite !pair_leb_spec. simpl.
  intros [L1|[E1 L1]] [L2|[E2 L2]].
  - exfalso. by apply (pylt_antisym x1 y1).
  - exfalso. by apply (pylt_not_eq _ _ L1).
  - exfalso. by apply (pylt_not_eq _ _ L2).
  - subst. f_equal. by apply pyle_antisym.
Qed.

Lemma pair_pyle (p q : A * B) :
  pyle p q = true ↔ pylt p.1 q.1 = true ∨ p.1 = q.1 ∧ pyle p.2 q.2 = true.
Proof. apply pair_leb_spec. Qed.
End pair_ord.

(** A small concrete hash of strings, at which parameters that stand for hash
    functions are instantiated. *)
Fixpoint poly_hash (acc : Z) (s : string) : Z :=
  match s with
  | EmptyString => acc
  | String c s' => poly_hash ((acc * 31 + Z.of_N (Ascii.N_of_ascii c)) mod 1009)%Z s'
  end.
Definition demo_h (s : string) : Z := poly_hash 7 s.
