(* ===== verification/PyList.v ===== *)
(** * Sorting, bisection and heaps of the Python standard library

    [sorted]/[list.sort] are stable sorts, [bisect] works on sorted lists and
    [heapq] keeps its least element at index 0.  A heap is modelled by the
    sorted list of its elements: [heap[0]] is the head, [heappop] removes it and
    [heappush] inserts; the layout of the other cells cannot be observed. *)
From S2P Require Import Prelude.

Lemma filter_all {A} (P : A → Prop) `{∀ x, Decision (P x)} (l : list A) :
  (∀ x, x ∈ l → P x) → filter P l = l.
Proof.
  induction l as [|x l IH]; intros Hall; [done|].
  rewrite filter_cons_True by (apply Hall; left). f_equal.
  apply IH. intros y Hy. apply Hall. by right.
Qed.

Lemma filter_none {A} (P : A → Prop) `{∀ x, Decision (P x)} (l : list A) :
  (∀ x, x ∈ l → ¬ P x) → filter P l = [].
Proof.
  induction l as [|x l IH]; intros Hall; [done|].
  rewrite filter_cons_False by (apply Hall; left).
  apply IH. intros y Hy. apply Hall. by right.
Qed.

Lemma filter_ext_in {A} (P Q : A → Prop) `{∀ x, Decision (P x), ∀ x, Decision (Q x)}
    (l : list A) :
  (∀ x, x ∈ l → P x ↔ Q x) → filter P l = filter Q l.
Proof.
  induction l as [|x l IH]; intros Hext; [done|].
  assert (filter P l = filter Q l) as E by (apply IH; intros y Hy; apply Hext; by right).
  pose proof (Hext x (list_elem_of_here _ _)) as Hx. destruct (decide (P x)) as [Hp|Hp].
  - rewrite !filter_cons_True by tauto. by rewrite E.
  - rewrite !filter_cons_False by tauto. done.
Qed.

Lemma filter_fmap {A B} (f : A → B) (P : B → Prop) `{∀ x, Decision (P x)} (l : list A) :
  filter P (f <$> l) = f <$> filter (λ x, P (f x)) l.
Proof.
  induction l as [|x l IH]; [done|]. rewrite fmap_cons. destruct (decide (P (f x))).
  - rewrite !filter_cons_True by done. by rewrite IH.
  - rewrite !filter_cons_False by done. done.
Qed.

Lemma filter_length_lt {A} (P Q : A → Prop) `{∀ x, Decision (P x), ∀ x, Decision (Q x)}
    (l : list A) x :
  x ∈ l → P x → ¬ Q x → (∀ y, y ∈ l → Q y → P y) →
  length (filter Q l) < length (filter P l).
Proof.
  intros Hx HP HQ Hsub.
  assert (∀ l', (∀ y, y ∈ l' → Q y → P y) → length (filter Q l') ≤ length (filter P l')) as Hle.
  { clear. induction l' as [|y l' IH]; intros Hsub; [done|].
    assert (length (filter Q l') ≤ length (filter P l')) as IH'
      by (apply IH; intros z Hz; apply Hsub; by right).
    pose proof (Hsub y (list_elem_of_here _ _)) as Hy.
    rewrite !filter_cons. repeat case_decide; simpl; try lia. exfalso. auto. }
  apply list_elem_of_split in Hx as (l1&l2&->). rewrite !filter_app, !length_app.
  rewrite (filter_cons_True P), (filter_cons_False Q) by done. simpl.
  pose proof (Hle l1) as Hl1. pose proof (Hle l2) as Hl2.
  specialize (Hl1 ltac:(intros y Hy; apply Hsub; set_solver)).
  specialize (Hl2 ltac:(intros y Hy; apply Hsub; set_solver)). lia.
Qed.

Lemma NoDup_fmap_filter {A B} (f : A → B) (P : A → Prop) `{∀ x, Decision (P x)} (l : list A) :
  NoDup (f <$> l) → NoDup (f <$> filter P l).
Proof.
  induction l as [|x l IH]; [done|]. rewrite fmap_cons, NoDup_cons. intros [Hx Hl].
  rewrite filter_cons. case_decide; [|auto]. rewrite fmap_cons, NoDup_cons.
  split; [|auto]. intros (y&E&Hy)%list_elem_of_fmap.
  apply list_elem_of_filter in Hy as [_ Hy]. apply Hx, list_elem_of_fmap. eauto.
Qed.

(** Two subsets of a list that are together larger than it meet. *)
Lemma filter_overlap {A} (P Q : A → Prop) `{∀ x, Decision (P x), ∀ x, Decision (Q x)} (l : list A) :
  length l < length (filter P l) + length (filter Q l) → ∃ x, x ∈ l ∧ P x ∧ Q x.
Proof.
  induction l as [|x l IH]; simpl; [lia|]. rewrite !filter_cons. intros Hlen.
  destruct (decide (P x)), (decide (Q x)); simpl in Hlen.
  - exists x. split; [left|done].
  - destruct IH as (y&Hy&?); [lia|]. exists y. split; [by right|done].
  - destruct IH as (y&Hy&?); [lia|]. exists y. split; [by right|done].
  - destruct IH as (y&Hy&?); [lia|]. exists y. split; [by right|done].
Qed.

Lemma list_neq_witness {A} `{EqDecision A} (l1 l2 : list A) :
  l1 ≠ l2 → ∃ i, l1 !! i ≠ l2 !! i.
Proof.
  revert l2. induction l1 as [|x l1 IH]; intros [|y l2] Hne; [done|by exists 0..|].
  destruct (decide (x = y)) as [->|Hxy]; [|exists 0; simpl; congruence].
  destruct (IH l2) as [i Hi]; [congruence|]. by exists (S i).
Qed.

(** A disjunct common to finitely many cases. *)
Lemma finite_or (n : nat) (C : Prop) (P : nat → Prop) :
  (∀ i, i < n → C ∨ P i) → C ∨ ∀ i, i < n → P i.
Proof.
  induction n as [|n IH]; intros Hall; [right; lia|].
  destruct (Hall n) as [|Hn]; [lia|by left|].
  destruct IH as [|IH]; [intros i Hi; apply Hall; lia|by left|]. right. intros i Hi.
  destruct (decide (i = n)) as [->|]; [done|]. apply IH. lia.
Qed.

Section sorting.
Context {A K : Type} `{PyOrd K}.
Implicit Types (key : A → K) (x y : A) (l : list A).

Fixpoint insert_by key x l : list A :=
  match l with
  | [] => [x]
  | y :: l' => if pyle (key x) (key y) then x :: l else y :: insert_by key x l'
  end.

(** [sorted(l, key=key)]; the insertion is in front of equal keys and runs
    from the right, so equal keys keep their order. *)
Definition sort_by key l : list A := foldr (insert_by key) [] l.

Definition ordered key l : Prop :=
  StronglySorted (λ x y, pyle (key x) (key y) = true) l.

Lemma insert_by_perm key x l : insert_by key x l ≡ₚ x :: l.
Proof.
  induction l as [|y l IH]; simpl; [done|].
  destruct (pyle _ _); [done|]. rewrite IH. apply Permutation_swap.
Qed.

Lemma sort_by_perm key l : sort_by key l ≡ₚ l.
Proof. induction l as [|x l IH]; simpl; [done|]. by rewrite insert_by_perm, IH. Qed.

Lemma insert_by_length key x l : length (insert_by key x l) = S (length l).
Proof. by rewrite insert_by_perm. Qed.

Lemma sort_by_length key l : length (sort_by key l) = length l.
Proof. by rewrite sort_by_perm. Qed.

Lemma elem_of_insert_by key x y l : y ∈ insert_by key x l ↔ y = x ∨ y ∈ l.
Proof. by rewrite insert_by_perm, elem_of_cons. Qed.

Lemma elem_of_sort_by key y l : y ∈ sort_by key l ↔ y ∈ l.
Proof. by rewrite sort_by_perm. Qed.

Lemma insert_by_ordered key x l : ordered key l → ordered key (insert_by key x l).
Proof.
  induction 1 as [|y l Hs IH Hall]; simpl; [by repeat constructor|].
  destruct (pyle (key x) (key y)) eqn:E.
  - constructor; [by constructor|]. constructor; [done|].
    eapply Forall_impl; [exact Hall|]. intros z Hz. by eapply pyle_trans.
  - constructor; [done|]. rewrite insert_by_perm. constructor; [|done].
    by apply pylt_le, pyle_false.
Qed.

Lemma sort_by_ordered key l : ordered key (sort_by key l).
Proof. induction l; simpl; [constructor|]. by apply insert_by_ordered. Qed.

Lemma ordered_cons key x l :
  ordered key (x :: l) ↔ ordered key l ∧ ∀ y, y ∈ l → pyle (key x) (key y) = true.
Proof.
  split.
  - intros Hs. apply StronglySorted_inv in Hs as [Hs Hall]. split; [done|].
    by apply Forall_forall.
  - intros [Hs Hall]. constructor; [done|]. by apply Forall_forall.
Qed.

Lemma ordered_app key l1 l2 :
  ordered key (l1 ++ l2) ↔ ordered key l1 ∧ ordered key l2 ∧
    ∀ x y, x ∈ l1 → y ∈ l2 → pyle (key x) (key y) = true.
Proof.
  induction l1 as [|x l1 IH]; simpl.
  - split; [|tauto]. intros. split; [constructor|]. split; [done|]. set_solver.
  - rewrite !ordered_cons, IH. split.
    + intros [(H1&H2&H3) H4]. repeat split; try done; set_solver.
    + intros ([H1 H2]&H3&H4). split; [split; [done|split; [done|]]|]; set_solver.
Qed.

Lemma ordered_sublist key l1 l2 : sublist l1 l2 → ordered key l2 → ordered key l1.
Proof.
  induction 1 as [|x l1 l2 Hsub IH|x l1 l2 Hsub IH]; [done|..].
  - rewrite !ordered_cons. intros [H1 H2]. split; [by apply IH|].
    intros y Hy. apply H2. by eapply elem_of_sublist.
  - rewrite ordered_cons. intros [H1 _]. by apply IH.
Qed.

Lemma ordered_filter key (P : A → Prop) `{∀ x, Decision (P x)} l :
  ordered key l → ordered key (filter P l).
Proof. intros Hs. eapply ordered_sublist; [|exact Hs]. apply sublist_filter. Qed.

Lemma insert_by_min key x l :
  (∀ y, y ∈ l → pyle (key x) (key y) = true) → insert_by key x l = x :: l.
Proof. intros Hl. destruct l as [|y l]; simpl; [done|]. by rewrite Hl by set_solver. Qed.

Lemma sort_by_id key l : ordered key l → sort_by key l = l.
Proof.
  induction l as [|x l IH]; simpl; [done|]. intros [Hs Hall]%ordered_cons.
  rewrite IH by done. by apply insert_by_min.
Qed.

(** Two ordered lists with the same elements are equal when the keys tell the
    elements apart. *)
Lemma ordered_unique key l1 l2 :
  (∀ x y, x ∈ l1 → y ∈ l1 → key x = key y → x = y) →
  ordered key l1 → ordered key l2 → l1 ≡ₚ l2 → l1 = l2.
Proof.
  intros Hinj H1 H2 Hp. eapply StronglySorted_unique_strong; [|done..].
  simpl. intros x y Hx Hy L1 L2. apply Hinj; [done| |by apply pyle_antisym].
  by rewrite Hp.
Qed.

Lemma sort_by_perm_eq key l1 l2 :
  (∀ x y, x ∈ l1 → y ∈ l1 → key x = key y → x = y) →
  l1 ≡ₚ l2 → sort_by key l1 = sort_by key l2.
Proof.
  intros Hinj Hp. apply (ordered_unique key).
  - setoid_rewrite elem_of_sort_by. done.
  - apply sort_by_ordered.
  - apply sort_by_ordered.
  - by rewrite !sort_by_perm.
Qed.

Lemma ordered_lookup key l i j x y :
  ordered key l → i ≤ j → l !! i = Some x → l !! j = Some y →
  pyle (key x) (key y) = true.
Proof.
  revert i j. induction l as [|z l IH]; intros i j; [done|].
  intros [Hs Hall]%ordered_cons Hij Hx Hy.
  destruct i as [|i], j as [|j]; simplify_eq/=; [done| |lia|eapply (IH i j); [done|lia|done..]].
  apply Hall. by eapply list_elem_of_lookup_2.
Qed.

Lemma ordered_filter_sort key (P : A → Prop) `{∀ x, Decision (P x)} l :
  (∀ x y, x ∈ l → y ∈ l → key x = key y → x = y) →
  filter P (sort_by key l) = sort_by key (filter P l).
Proof.
  intros Hinj. apply (ordered_unique key).
  - intros x y. rewrite !list_elem_of_filter, !elem_of_sort_by. naive_solver.
  - apply ordered_filter, sort_by_ordered.
  - apply sort_by_ordered.
  - by rewrite !sort_by_perm.
Qed.

Lemma ordered_head_min key x l y :
  ordered key (x :: l) → y ∈ x :: l → pyle (key x) (key y) = true.
Proof. intros [_ Hall]%ordered_cons [->|Hy]%elem_of_cons; auto. Qed.
End sorting.

(** [sorted(l)] *)
Definition py_sorted {A} `{PyOrd A} (l : list A) : list A := sort_by id l.

Lemma py_sorted_perm_eq {A} `{PyOrd A} (l1 l2 : list A) :
  l1 ≡ₚ l2 → py_sorted l1 = py_sorted l2.
Proof. apply sort_by_perm_eq. done. Qed.

Lemma py_sorted_unique {A} `{PyOrd A} (l1 l2 : list A) :
  ordered id l1 → ordered id l2 → l1 ≡ₚ l2 → l1 = l2.
Proof. apply ordered_unique. done. Qed.

Lemma py_sorted_filter {A} `{PyOrd A} (P : A → Prop) `{∀ x, Decision (P x)} (l : list A) :
  filter P (py_sorted l) = py_sorted (filter P l).
Proof. by apply ordered_filter_sort. Qed.

Lemma py_sorted_perm {A} `{PyOrd A} (l : list A) : py_sorted l ≡ₚ l.
Proof. apply sort_by_perm. Qed.

Lemma py_sorted_length {A} `{PyOrd A} (l : list A) : length (py_sorted l) = length l.
Proof. apply sort_by_length. Qed.

Lemma py_sorted_ordered {A} `{PyOrd A} (l : list A) : ordered id (py_sorted l).
Proof. apply sort_by_ordered. Qed.

(** [heapq] on values with a key that orders them. *)
Definition heappush {A K} `{PyOrd K} (key : A → K) (x : A) (h : list A) : list A :=
  insert_by key x h.
Definition heappop {A} (h : list A) : option (A * list A) :=
  match h with [] => None | x :: h' => Some (x, h') end.
Definition heapify {A K} `{PyOrd K} (key : A → K) (h : list A) : list A := sort_by key h.

(** [bisect.bisect_right]: how many elements of the sorted list are [<= x];
    [bisect.bisect_left]: how many are [< x]. *)
Section bisect.
Context {A : Type} `{PyOrd A}.
Implicit Types (x y : A) (l : list A).

Fixpoint bisect_right l x : nat :=
  match l with
  | [] => 0
  | y :: l' => if pyle y x then S (bisect_right l' x) else 0
  end.

Fixpoint bisect_left l x : nat :=
  match l with
  | [] => 0
  | y :: l' => if pylt y x then S (bisect_left l' x) else 0
  end.

Lemma bisect_right_le l x : bisect_right l x ≤ length l.
Proof. induction l as [|y l IH]; simpl; [done|]. destruct (pyle y x); lia. Qed.

Lemma bisect_left_le l x : bisect_left l x ≤ length l.
Proof. induction l as [|y l IH]; simpl; [done|]. destruct (pylt y x); lia. Qed.

Lemma bisect_right_before l x i y :
  i < bisect_right l x → l !! i = Some y → pyle y x = true.
Proof.
  revert i. induction l as [|z l IH]; intros i; simpl; [lia|].
  destruct (pyle z x) eqn:E; [|lia]. destruct i as [|i]; simpl.
  - intros _ [= ->]. done.
  - intros Hi. apply IH. lia.
Qed.

Lemma bisect_right_at l x y :
  l !! bisect_right l x = Some y → pylt x y = true.
Proof.
  induction l as [|z l IH]; simpl; [done|].
  destruct (pyle z x) eqn:E; simpl; [done|]. intros [= ->]. by apply pyle_false.
Qed.

Lemma bisect_right_after l x i y :
  ordered id l → bisect_right l x ≤ i → l !! i = Some y → pylt x y = true.
Proof.
  revert i. induction l as [|z l IH]; intros i; simpl; [done|].
  intros [Hs Hall]%ordered_cons. destruct (pyle z x) eqn:E.
  - destruct i as [|i]; [lia|]. simpl. intros. eapply IH; [done| |done]. lia.
  - intros _ Hy. eapply pylt_le_trans; [by apply pyle_false|].
    destruct i as [|i]; simpl in Hy; [by simplify_eq|].
    apply Hall. by eapply list_elem_of_lookup_2.
Qed.

Lemma bisect_right_ext l x x' :
  (∀ y, y ∈ l → pyle y x = pyle y x') → bisect_right l x = bisect_right l x'.
Proof.
  induction l as [|y l IH]; intros Hext; simpl; [done|]. rewrite <- Hext by left.
  destruct (pyle y x); [|done]. f_equal. apply IH. intros z Hz. apply Hext. by right.
Qed.

Lemma bisect_right_all l x :
  (∀ y, y ∈ l → pyle y x = true) → bisect_right l x = length l.
Proof.
  induction l as [|y l IH]; intros Hall; simpl; [done|]. rewrite Hall by left.
  f_equal. apply IH. intros z Hz. apply Hall. by right.
Qed.

Lemma bisect_right_mono l x x' :
  pyle x x' = true → bisect_right l x ≤ bisect_right l x'.
Proof.
  intros Hx. induction l as [|y l IH]; simpl; [lia|]. destruct (pyle y x) eqn:E; [|lia].
  rewrite (pyle_trans _ _ _ E Hx). lia.
Qed.

Lemma bisect_left_before l x i y :
  i < bisect_left l x → l !! i = Some y → pylt y x = true.
Proof.
  revert i. induction l as [|z l IH]; intros i; simpl; [lia|].
  destruct (pylt z x) eqn:E; [|lia]. destruct i as [|i]; simpl.
  - intros _ [= ->]. done.
  - intros Hi. apply IH. lia.
Qed.

Lemma bisect_left_after l x i y :
  ordered id l → bisect_left l x ≤ i → l !! i = Some y → pyle x y = true.
Proof.
  revert i. induction l as [|z l IH]; intros i; simpl; [done|].
  intros [Hs Hall]%ordered_cons. destruct (pylt z x) eqn:E.
  - destruct i as [|i]; [lia|]. simpl. intros. eapply IH; [done| |done]. lia.
  - intros _ Hy. eapply pyle_trans; [by apply pylt_false|].
    destruct i as [|i]; simpl in Hy; [by simplify_eq|].
    apply Hall. by eapply list_elem_of_lookup_2.
Qed.
End bisect.

(** [insort] and its inverse on a sorted list. *)
Section insort.
Context {A : Type} `{PyOrd A}.
Implicit Types (x y : A) (l : list A).

Lemma bisect_left_elem l x : ordered id l → x ∈ l → l !! bisect_left l x = Some x.
Proof.
  intros Hs [j Hj]%list_elem_of_lookup.
  assert (bisect_left l x ≤ j) as Hle.
  { destruct (decide (bisect_left l x ≤ j)) as [|Hn]; [done|]. exfalso.
    assert (j < bisect_left l x) as Hlt by lia.
    pose proof (bisect_left_before l x j x Hlt Hj) as E. by rewrite pylt_irrefl in E. }
  pose proof (lookup_lt_Some _ _ _ Hj).
  destruct (lookup_lt_is_Some_2 l (bisect_left l x)) as [y Hy]; [lia|]. rewrite Hy. f_equal.
  apply pyle_antisym.
  - by apply (ordered_lookup id l (bisect_left l x) j).
  - by apply (bisect_left_after l x (bisect_left l x)).
Qed.

Lemma insort_ordered l x :
  ordered id l → ordered id (take (bisect_left l x) l ++ x :: drop (bisect_left l x) l).
Proof.
  intros Hs. set (i := bisect_left l x).
  assert (ordered id (take i l ++ drop i l)) as Hs' by (by rewrite take_drop).
  apply ordered_app in Hs' as (H1&H2&H3). apply ordered_app. split; [done|].
  assert (∀ y, y ∈ drop i l → pyle x y = true) as Hafter.
  { intros y [j Hj]%list_elem_of_lookup. rewrite lookup_drop in Hj.
    eapply (bisect_left_after l x (i + j)); [done|unfold i; lia|done]. }
  split; [by apply ordered_cons|]. intros y z Hy [->|Hz]%elem_of_cons; [|by apply H3].
  apply list_elem_of_lookup in Hy as [j Hj]. apply lookup_take_Some in Hj as [Hj Hlt].
  apply pylt_le. by apply (bisect_left_before l x j).
Qed.

Lemma insort_sorted l x l' :
  ordered id l → l' ≡ₚ x :: l →
  take (bisect_left l x) l ++ x :: drop (bisect_left l x) l = py_sorted l'.
Proof.
  intros Hs Hp. apply py_sorted_unique; [by apply insort_ordered|apply py_sorted_ordered|].
  by rewrite py_sorted_perm, Hp, <- Permutation_middle, take_drop.
Qed.

Lemma pop_sorted l x l' :
  ordered id l → l ≡ₚ x :: l' →
  bisect_left l x < length l ∧
  take (bisect_left l x) l ++ drop (S (bisect_left l x)) l = py_sorted l'.
Proof.
  intros Hs Hp. assert (l !! bisect_left l x = Some x) as Hx
    by (apply bisect_left_elem; [done|]; rewrite Hp; left).
  split; [by eapply lookup_lt_Some|].
  pose proof (take_drop_middle l (bisect_left l x) x Hx) as Hmid.
  set (i := bisect_left l x) in *. clearbody i.
  assert (take i l ++ drop (S i) l `sublist_of` l) as Hsub.
  { assert (take i l ++ drop (S i) l `sublist_of` take i l ++ x :: drop (S i) l) as Hs'
      by (apply sublist_app; [done|]; by apply sublist_cons).
    by rewrite Hmid in Hs'. }
  apply py_sorted_unique; [by eapply ordered_sublist|apply py_sorted_ordered|].
  rewrite py_sorted_perm. apply (Permutation_cons_inv (a := x)). rewrite <- Hp.
  transitivity (take i l ++ x :: drop (S i) l); [apply Permutation_middle|by rewrite Hmid].
Qed.
End insort.

(** [l[:n]]: a negative bound counts from the end. *)
Definition slice_to {A} (n : Z) (l : list A) : list A :=
  if (n <? 0)%Z then take (Z.to_nat (Z.of_nat (length l) + n)) l else take (Z.to_nat n) l.

(** [l[i]] with Python's negative indices; [None] is [IndexError]. *)
Definition py_index {A} (l : list A) (i : Z) : option A :=
  let j := if (i <? 0)%Z then (Z.of_nat (length l) + i)%Z else i in
  if (j <? 0)%Z then None else l !! Z.to_nat j.

(** [any] and [all] over a list, as boolean functions. *)
Lemma existsb_elem {A} (f : A → bool) l :
  existsb f l = true ↔ ∃ x, x ∈ l ∧ f x = true.
Proof. rewrite existsb_exists. by setoid_rewrite list_elem_of_In. Qed.

Lemma existsb_false {A} (f : A → bool) l :
  existsb f l = false ↔ ∀ x, x ∈ l → f x = false.
Proof.
  rewrite <- not_true_iff_false, existsb_elem. split.
  - intros Hn x Hx. destruct (f x) eqn:E; [|done]. exfalso. eauto.
  - intros Hall (x&Hx&E). by rewrite Hall in E.
Qed.

Lemma forallb_elem {A} (f : A → bool) l :
  forallb f l = true ↔ ∀ x, x ∈ l → f x = true.
Proof. rewrite forallb_forall. by setoid_rewrite list_elem_of_In. Qed.

(** ** Sums of integers *)

Section sums.
Local Open Scope Z_scope.

Definition zsum {A} (f : A → Z) (l : list A) : Z := foldr (λ x a, f x + a) 0 l.

Lemma zsum_app {A} (f : A → Z) l1 l2 : zsum f (l1 ++ l2) = zsum f l1 + zsum f l2.
Proof. induction l1; simpl; lia. Qed.

Lemma zsum_nonneg {A} (f : A → Z) l : (∀ x, x ∈ l → 0 <= f x) → 0 <= zsum f l.
Proof.
  induction l as [|x l IH]; intros Hf; simpl; [lia|].
  pose proof (Hf x ltac:(left)). assert (0 <= zsum f l) by (apply IH; intros y Hy; apply Hf; by right). lia.
Qed.

Lemma zsum_zero {A} (f : A → Z) l : (∀ x, x ∈ l → f x = 0) → zsum f l = 0.
Proof.
  induction l as [|x l IH]; intros Hf; simpl; [done|].
  rewrite Hf by left. rewrite IH; [done|]. intros y Hy. apply Hf. by right.
Qed.

Lemma zsum_fmap {A B} (f : B → Z) (g : A → B) l : zsum f (g <$> l) = zsum (λ x, f (g x)) l.
Proof. induction l as [|x l IH]; [done|]. rewrite fmap_cons. simpl. by rewrite IH. Qed.

Lemma zsum_ext {A} (f g : A → Z) l : (∀ x, x ∈ l → f x = g x) → zsum f l = zsum g l.
Proof.
  induction l as [|x l IH]; intros Hf; simpl; [done|].
  rewrite Hf by left. rewrite IH; [done|]. intros y Hy. apply Hf. by right.
Qed.

Lemma zsum_plus {A} (f g : A → Z) l : zsum (λ x, f x + g x) l = zsum f l + zsum g l.
Proof. induction l as [|x l IH]; simpl; lia. Qed.

Lemma zsum_swap {A B} (f : A → B → Z) la lb :
  zsum (λ a, zsum (f a) lb) la = zsum (λ b, zsum (λ a, f a b) la) lb.
Proof.
  induction la as [|a la IH]; simpl.
  - symmetry. by apply zsum_zero.
  - by rewrite IH, zsum_plus.
Qed.

#[export] Instance zsum_perm {A} (f : A → Z) : Proper ((≡ₚ) ==> eq) (zsum f).
Proof. induction 1; simpl; lia. Qed.

Definition when (b : bool) (x : Z) : Z := if b then x else 0.

Lemma zsum_when {A} `{EqDecision A} (x : A) n l : NoDup l → zsum (λ o, when (bool_decide (x = o)) n) l = when (bool_decide (x ∈ l)) n.
Proof.
  induction 1 as [|y l Hn Hnd IH]; simpl; [done|]. rewrite IH. unfold when.
  repeat case_bool_decide; subst; try set_solver; lia.
Qed.

Lemma zsum_filter {A} (f : A → Z) (P : A → Prop) `{∀ x, Decision (P x)} l :
  zsum f (filter P l) = zsum (λ x, if decide (P x) then f x else 0) l.
Proof.
  induction l as [|x l IH]; [done|]. rewrite filter_cons. simpl. rewrite <- IH. by case_decide.
Qed.
End sums.
