(* ===== verification/PyDict.v ===== *)
(** * Python dictionaries

    A [dict] remembers the order of insertion: assigning to a new key appends
    it, assigning to a present key keeps its place, [del] removes it.  It is
    modelled by its list of items; the invariant [dict_ok] (no key twice) holds
    of every dictionary built by the operations. *)
From S2P Require Import Prelude PyList.

Definition dict (K V : Type) : Type := list (K * V).

Section dict.
Context {K V : Type} `{EqDecision K}.
Implicit Types (k : K) (v : V) (d : dict K V).

(** [d.get(k)] *)
Fixpoint dget k d : option V :=
  match d with
  | [] => None
  | (k', v) :: d' => if decide (k = k') then Some v else dget k d'
  end.

(** [d[k] = v] *)
Fixpoint dset k v d : dict K V :=
  match d with
  | [] => [(k, v)]
  | (k', v') :: d' => if decide (k = k') then (k', v) :: d' else (k', v') :: dset k v d'
  end.

(** [del d[k]] / [d.pop(k, None)] *)
Fixpoint ddel k d : dict K V :=
  match d with
  | [] => []
  | (k', v') :: d' => if decide (k = k') then d' else (k', v') :: ddel k d'
  end.

(** [k in d] *)
Definition dmem k d : bool := match dget k d with Some _ => true | None => false end.

(** [d.get(k, v)] *)
Definition dget_or (v : V) k d : V := match dget k d with Some w => w | None => v end.

Definition dkeys d : list K := d.*1.
Definition dvalues d : list V := d.*2.
Definition dict_ok d : Prop := NoDup (dkeys d).

Lemma dget_dset_eq k v d : dget k (dset k v d) = Some v.
Proof.
  induction d as [|[k' v'] d IH]; simpl; [by rewrite decide_True|].
  destruct (decide (k = k')) as [->|Hn]; simpl.
  - by rewrite decide_True.
  - by rewrite decide_False.
Qed.

Lemma dget_dset_ne k k' v d : k ≠ k' → dget k' (dset k v d) = dget k' d.
Proof.
  intros Hne. induction d as [|[k0 v0] d IH]; simpl; [by rewrite decide_False|].
  destruct (decide (k = k0)) as [->|Hn]; simpl.
  - by rewrite !decide_False.
  - destruct (decide (k' = k0)); [done|apply IH].
Qed.

Lemma dget_dset k k' v d :
  dget k' (dset k v d) = if decide (k = k') then Some v else dget k' d.
Proof.
  destruct (decide (k = k')) as [->|]; [apply dget_dset_eq|by apply dget_dset_ne].
Qed.

Lemma dget_None k d : dget k d = None ↔ k ∉ dkeys d.
Proof.
  induction d as [|[k' v'] d IH]; simpl; [set_solver|].
  destruct (decide (k = k')) as [->|Hn]; set_solver.
Qed.

Lemma dget_Some_elem k v d : dget k d = Some v → (k, v) ∈ d.
Proof.
  induction d as [|[k' v'] d IH]; simpl; [done|].
  destruct (decide (k = k')) as [->|Hn]; set_solver.
Qed.

Lemma dget_Some k v d : dict_ok d → dget k d = Some v ↔ (k, v) ∈ d.
Proof.
  intros Hd. split; [apply dget_Some_elem|]. unfold dict_ok in Hd.
  induction d as [|[k' v'] d IH]; simpl in *; [set_solver|].
  apply NoDup_cons in Hd as [Hk Hd]. intros [E|Hin]%elem_of_cons.
  - injection E as -> ->. by rewrite decide_True.
  - rewrite decide_False; [by apply IH|]. intros ->. apply Hk.
    apply list_elem_of_fmap. by exists (k', v).
Qed.

Lemma dmem_spec k d : dmem k d = true ↔ k ∈ dkeys d.
Proof.
  unfold dmem. pose proof (dget_None k d) as Hn. destruct (dget k d) eqn:E.
  - split; [|done]. intros _. apply dget_Some_elem in E.
    apply list_elem_of_fmap. by eexists (_, _).
  - split; [done|]. intros Hk. exfalso. by apply Hn.
Qed.

Lemma dmem_false k d : dmem k d = false ↔ dget k d = None.
Proof. unfold dmem. by destruct (dget k d). Qed.

Lemma dmem_true k d : dmem k d = true ↔ is_Some (dget k d).
Proof.
  unfold dmem. destruct (dget k d) as [v|]; split; [by eexists|done..|].
  intros [v Hv]. congruence.
Qed.

Lemma dkeys_dset_in k v d : k ∈ dkeys d → dkeys (dset k v d) = dkeys d.
Proof.
  induction d as [|[k' v'] d IH]; simpl; [set_solver|].
  destruct (decide (k = k')) as [->|Hn]; simpl; [done|].
  intros [|]%elem_of_cons; [done|]. f_equal. by apply IH.
Qed.

Lemma dset_new k v d : k ∉ dkeys d → dset k v d = d ++ [(k, v)].
Proof.
  induction d as [|[k' v'] d IH]; simpl; [done|]. intros Hk.
  rewrite decide_False by set_solver. f_equal. apply IH. set_solver.
Qed.

Lemma elem_of_dkeys_dset k k' v d : k' ∈ dkeys (dset k v d) ↔ k' = k ∨ k' ∈ dkeys d.
Proof.
  induction d as [|[k0 v0] d IH]; simpl; [set_solver|].
  destruct (decide (k = k0)) as [->|Hn]; simpl; set_solver.
Qed.

Lemma dset_ok k v d : dict_ok d → dict_ok (dset k v d).
Proof.
  unfold dict_ok. intros Hd. destruct (decide (k ∈ dkeys d)) as [Hin|Hn].
  - by rewrite dkeys_dset_in.
  - rewrite dset_new by done. unfold dkeys. rewrite fmap_app. simpl.
    apply NoDup_app. split; [done|]. split; [set_solver|apply NoDup_singleton].
Qed.

Lemma dkeys_ddel k d : dict_ok d → dkeys (ddel k d) = filter (λ k', k' ≠ k) (dkeys d).
Proof.
  unfold dict_ok. induction d as [|[k' v'] d IH]; simpl; [done|].
  intros [Hk Hd]%NoDup_cons. destruct (decide (k = k')) as [->|Hn].
  - rewrite filter_cons_False by (intros E; congruence).
    rewrite filter_all; [done|]. intros x Hx ->. done.
  - rewrite filter_cons_True by done. simpl. f_equal. by apply IH.
Qed.

Lemma ddel_ok k d : dict_ok d → dict_ok (ddel k d).
Proof. intros Hd. unfold dict_ok. rewrite dkeys_ddel by done. by apply NoDup_filter. Qed.

Lemma dget_ddel_eq k d : dict_ok d → dget k (ddel k d) = None.
Proof.
  intros Hd. apply dget_None. rewrite dkeys_ddel by done.
  rewrite list_elem_of_filter. tauto.
Qed.

Lemma dget_ddel_ne k k' d : k ≠ k' → dget k' (ddel k d) = dget k' d.
Proof.
  intros Hne. induction d as [|[k0 v0] d IH]; simpl; [done|].
  destruct (decide (k = k0)) as [->|Hn]; simpl.
  - by rewrite decide_False.
  - destruct (decide (k' = k0)); [done|apply IH].
Qed.

Lemma dget_ddel k k' d :
  dict_ok d → dget k' (ddel k d) = if decide (k = k') then None else dget k' d.
Proof.
  intros Hd. destruct (decide (k = k')) as [->|];
    [by apply dget_ddel_eq|by apply dget_ddel_ne].
Qed.

Lemma dget_or_dset x k k' v d :
  dget_or x k' (dset k v d) = if decide (k = k') then v else dget_or x k' d.
Proof. unfold dget_or. rewrite dget_dset. by case_decide. Qed.

Lemma dget_or_cons x k k' v d :
  dget_or x k' ((k, v) :: d) = if decide (k' = k) then v else dget_or x k' d.
Proof. unfold dget_or. simpl. by case_decide. Qed.

Lemma dget_or_absent x k d : k ∉ dkeys d → dget_or x k d = x.
Proof. intros Hk%dget_None. unfold dget_or. by rewrite Hk. Qed.

Lemma dget_or_Some x k v d : dget k d = Some v → dget_or x k d = v.
Proof. unfold dget_or. by intros ->. Qed.

Lemma dict_nil_ok : dict_ok [].
Proof. apply NoDup_nil_2. Qed.

Lemma dset_length k v d :
  length (dset k v d) = if dmem k d then length d else S (length d).
Proof.
  unfold dmem. induction d as [|[k' v'] d IH]; simpl; [done|].
  destruct (decide (k = k')); simpl; [done|]. rewrite IH. by destruct (dget k d).
Qed.

Lemma ddel_length k d :
  length (ddel k d) = if dmem k d then pred (length d) else length d.
Proof.
  unfold dmem. induction d as [|[k' v'] d IH]; simpl; [done|].
  destruct (decide (k = k')); simpl; [done|]. rewrite IH.
  destruct (dget k d) eqn:E; [|done]. destruct d; [done|]. done.
Qed.

Lemma dset_same k v d : dget k d = Some v → dset k v d = d.
Proof.
  induction d as [|[k' v'] d IH]; simpl; [done|].
  destruct (decide (k = k')) as [->|Hn]; [congruence|]. intros. f_equal. by apply IH.
Qed.

Lemma ddel_not_in k d : dget k d = None → ddel k d = d.
Proof.
  induction d as [|[k' v'] d IH]; simpl; [done|].
  destruct (decide (k = k')) as [->|Hn]; [done|]. intros. f_equal. by apply IH.
Qed.

Lemma ddel_dset_new k v d : k ∉ dkeys d → ddel k (dset k v d) = d.
Proof.
  induction d as [|[k' v'] d IH]; simpl; [by rewrite decide_True|]. intros Hk.
  rewrite decide_False by set_solver. simpl. rewrite decide_False by set_solver.
  f_equal. apply IH. set_solver.
Qed.

(** A present key splits the dictionary; the standard way to reason about a
    sum over the values when one entry changes. *)
Lemma dget_split k v d :
  dict_ok d → dget k d = Some v →
  ∃ d1 d2, d = d1 ++ (k, v) :: d2 ∧ k ∉ dkeys d1 ∧ k ∉ dkeys d2 ∧
    (∀ w, dset k w d = d1 ++ (k, w) :: d2) ∧ ddel k d = d1 ++ d2.
Proof.
  unfold dict_ok. induction d as [|[k' v'] d IH]; simpl; [done|].
  intros [Hk Hd]%NoDup_cons. destruct (decide (k = k')) as [->|Hn].
  - intros [= ->]. exists [], d. repeat split; try done. set_solver.
  - intros Hv. destruct (IH Hd Hv) as (d1&d2&->&H1&H2&H3&H4).
    exists ((k', v') :: d1), d2. repeat split; try done; [set_solver|..].
    + intros w. simpl. by rewrite H3.
    + simpl. by rewrite H4.
Qed.
End dict.

Arguments dict_ok : simpl never.

(** Python's [==] on dictionaries: the same items, in any order. *)
Section dict_eq.
Context {K V : Type} `{EqDecision K, EqDecision V}.
Implicit Types d : dict K V.

Definition dict_eqb d1 d2 : bool :=
  Nat.eqb (length d1) (length d2) &&
  forallb (λ kv, bool_decide (dget kv.1 d2 = Some kv.2)) d1.

Definition dict_equiv d1 d2 : Prop := ∀ k, dget k d1 = dget k d2.

#[export] Instance dict_equiv_equivalence : Equivalence dict_equiv.
Proof.
  split.
  - intros d k. done.
  - intros d1 d2 E k. by rewrite E.
  - intros d1 d2 d3 E1 E2 k. by rewrite E1, E2.
Qed.

#[export] Instance dset_proper k v : Proper (dict_equiv ==> dict_equiv) (dset k v).
Proof. intros d1 d2 E k'. rewrite !dget_dset. by destruct (decide (k = k')). Qed.

Lemma dict_perm d1 d2 : dict_ok d1 → dict_ok d2 → dict_equiv d1 d2 → d1 ≡ₚ d2.
Proof.
  intros H1 H2 E. apply NoDup_Permutation; [by eapply NoDup_fmap_1|by eapply NoDup_fmap_1|].
  intros [k v]. by rewrite <- !dget_Some, E by done.
Qed.

Lemma dict_eqb_spec d1 d2 :
  dict_ok d1 → dict_ok d2 → dict_eqb d1 d2 = true ↔ dict_equiv d1 d2.
Proof.
  intros H1 H2. unfold dict_eqb. rewrite andb_true_iff, Nat.eqb_eq, forallb_elem. split.
  - intros [Hlen Hall].
    assert (Hsub : d1 ⊆+ d2).
    { apply NoDup_submseteq; [by eapply NoDup_fmap_1|]. intros [k v] Hin.
      apply Hall in Hin. apply bool_decide_eq_true in Hin. by apply dget_Some_elem. }
    assert (Hp : d1 ≡ₚ d2) by (apply submseteq_length_Permutation; [done|lia]).
    intros k. destruct (dget k d1) as [v|] eqn:E.
    + symmetry. apply dget_Some; [done|]. rewrite <- Hp. by apply dget_Some_elem.
    + symmetry. apply dget_None. apply dget_None in E. unfold dkeys in *.
      by rewrite <- Hp.
  - intros E. split; [by apply Permutation_length, dict_perm|].
    intros [k v] Hin. apply bool_decide_eq_true. simpl. rewrite <- E.
    by apply dget_Some.
Qed.
End dict_eq.

(** Maps, tables and replaced items. *)
Section dict_more.
Local Open Scope Z_scope.
Context {K : Type} `{EqDecision K}.

Lemma dget_map {A B} (f : A → B) k (d : dict K A) :
  dget k (map (λ p, (p.1, f p.2)) d) = f <$> dget k d.
Proof. induction d as [|[k' v] d IH]; simpl; [done|]. by case_decide. Qed.

Lemma dkeys_map {A B} (f : A → B) (d : dict K A) : dkeys (map (λ p, (p.1, f p.2)) d) = dkeys d.
Proof. unfold dkeys. rewrite <- list_fmap_compose. by apply list_fmap_ext; intros i [? ?]. Qed.

Lemma dict_ext {V} (d1 d2 : dict K V) :
  dict_ok d1 → dkeys d1 = dkeys d2 → (∀ k, dget k d1 = dget k d2) → d1 = d2.
Proof.
  intros Hok Hk Hd. revert d2 Hok Hk Hd. induction d1 as [|[k v] d1 IH]; intros [|[k2 v2] d2] Hok Hk Hd; try done.
  unfold dict_ok, dkeys in *. simpl in Hk. injection Hk as <- Hk. apply NoDup_cons in Hok as [Hn Hok].
  pose proof (Hd k) as Hv. simpl in Hv. rewrite !decide_True in Hv by done. injection Hv as <-. f_equal.
  apply IH; [done|done|]. intros x. specialize (Hd x). simpl in Hd. case_decide; [|done]. subst x.
  transitivity (@None V); [by apply dget_None|]. symmetry. apply dget_None. unfold dkeys.
  intros Hx. exact (Hn (eq_ind_r (λ l, k ∈ l) Hx Hk)).
Qed.

Lemma dset_split {V} k (v v' : V) (d : dict K V) :
  dget k d = Some v → ∃ d1 d2, d = d1 ++ (k, v) :: d2 ∧ dset k v' d = d1 ++ (k, v') :: d2.
Proof.
  induction d as [|[k0 v0] d IH]; simpl; [done|]. case_decide as Hk.
  - intros [= <-]. subst. by exists [], d.
  - intros Hd. destruct (IH Hd) as (d1 & d2 & -> & ->). by exists ((k0, v0) :: d1), d2.
Qed.

Lemma dget_key {V} k (d : dict K V) : k ∈ dkeys d → ∃ v, dget k d = Some v.
Proof. intros Hk. destruct (dget k d) eqn:E; [eauto|]. by apply dget_None in E. Qed.

Lemma dget_in_key {V} k v (d : dict K V) : dget k d = Some v → k ∈ dkeys d.
Proof. intros Hd. apply dmem_spec. unfold dmem. by rewrite Hd. Qed.

Lemma dset_dset {V} k (v w : V) (d : dict K V) : dset k v (dset k w d) = dset k v d.
Proof.
  induction d as [|[k' x] d IH]; simpl; [by rewrite decide_True|].
  case_decide as Hk; simpl; [by rewrite decide_True|]. rewrite decide_False by done. by rewrite IH.
Qed.

Lemma elem_dvalues {V} (v : V) (d : dict K V) :
  dict_ok d → v ∈ dvalues d ↔ ∃ k, dget k d = Some v.
Proof.
  intros Hok. unfold dvalues. rewrite list_elem_of_fmap. split.
  - intros ([k x] & -> & Hx). exists k. by apply dget_Some.
  - intros [k Hk]. exists (k, v). split; [done|]. by apply dget_Some_elem.
Qed.

Lemma dict_ok_perm {V} (d d' : dict K V) : d ≡ₚ d' → dict_ok d → dict_ok d'.
Proof. unfold dict_ok, dkeys. by intros ->. Qed.

Lemma dget_tabulate {V} (f : K → V) s (syms : list K) :
  dget s (map (λ x, (x, f x)) syms) = if decide (s ∈ syms) then Some (f s) else None.
Proof.
  induction syms as [|x syms IH]; simpl; [done|]. rewrite IH. clear IH.
  repeat case_decide; subst; set_solver.
Qed.

Lemma dkeys_tabulate {V} (f : K → V) (syms : list K) : dkeys (map (λ x, (x, f x)) syms) = syms.
Proof. unfold dkeys. rewrite <- list_fmap_compose. by apply list_fmap_id. Qed.

(** Sums over the values. *)
Lemma zsum_dset {V} (f : V → Z) k v v' (d : dict K V) :
  dget k d = Some v → zsum f (dvalues (dset k v' d)) = zsum f (dvalues d) - f v + f v'.
Proof.
  intros Hd. destruct (dset_split k v v' d Hd) as (d1 & d2 & -> & ->).
  unfold dvalues. rewrite !fmap_app, !fmap_cons, !zsum_app. simpl. lia.
Qed.

Lemma zsum_dset_new {V} (f : V → Z) k v (d : dict K V) :
  dget k d = None → zsum f (dvalues (dset k v d)) = zsum f (dvalues d) + f v.
Proof.
  intros Hd%dget_None. rewrite dset_new by done. unfold dvalues. rewrite fmap_app, zsum_app. simpl. lia.
Qed.

(** A sum over the values of a dictionary is one over its keys. *)
Lemma zsum_keys {V} (f : V → Z) (g : K → Z) (d : dict K V) :
  dict_ok d → (∀ k v, dget k d = Some v → f v = g k) → zsum f (dvalues d) = zsum g (dkeys d).
Proof.
  intros Hok Hf. unfold dvalues, dkeys. rewrite !zsum_fmap. apply zsum_ext. intros [k v] Hin. simpl.
  by apply Hf, dget_Some.
Qed.

(** ... and over any keys that include them. *)
Lemma zsum_over {V} (f : V → Z) (d : dict K V) (ks : list K) :
  dict_ok d → NoDup ks → dkeys d ⊆ ks →
  zsum f (dvalues d) = zsum (λ k, match dget k d with Some v => f v | None => 0 end) ks.
Proof.
  intros Hok Hnd Hsub. destruct (submseteq_Permutation (dkeys d) ks) as [rest Hp]; [by apply NoDup_submseteq|].
  rewrite Hp, zsum_app, (zsum_keys f (λ k, match dget k d with Some v => f v | None => 0 end)); [|done|by intros k v ->].
  rewrite (zsum_zero _ rest); [lia|]. intros k Hk. destruct (dget k d) as [v|] eqn:E; [|done].
  rewrite Hp in Hnd. apply NoDup_app in Hnd as (_ & Hd & _). destruct (Hd k (dget_in_key _ _ _ E) Hk).
Qed.
End dict_more.

(** [d[k]] *)
Definition dlookup {K V} `{EqDecision K} (k : K) (d : dict K V) : result V :=
  match dget k d with Some v => Ok v | None => Raise KeyError end.

Create HintDb pydict discriminated.
#[export] Hint Resolve dset_ok ddel_ok dict_nil_ok : pydict.

(** Case analysis on the lookups of the goal after updates. *)
Ltac dict_simpl :=
  repeat match goal with
  | |- context [dget _ (dset _ _ _)] => rewrite dget_dset
  | H : context [dget _ (dset _ _ _)] |- _ => rewrite dget_dset in H
  | |- context [dget _ (ddel _ _)] => rewrite dget_ddel by eauto with pydict
  | H : context [dget _ (ddel _ _)] |- _ => rewrite dget_ddel in H by eauto with pydict
  | |- context [decide (?x = ?x)] => rewrite (decide_True (P := x = x)) by done
  end.
