(* ===== verification/Ring.v ===== *)
(** * The consistent-hash ring

    Models src/consistent-hashing/src/consistent_hashing/ring.py: the published
    topology ([_RingState]), the read view ([RingSnapshot]) and the writers of
    [ConsistentHashRing].  A hash function is a parameter that may raise; the
    state and the hash callable carry an identity because the code compares them
    with [is].  The abstract state of a ring is the dictionary of its weights
    (node to number of virtual nodes): every writer refines an operation on it. *)
From S2P Require Import Prelude PyList PyDict.
Local Open Scope Z_scope.

(** A virtual node: (position, node, index), compared as a tuple. *)
Notation entry := (Z * string * Z)%type.
Definition e_pos (e : entry) : Z := e.1.1.
Definition e_node (e : entry) : string := e.1.2.
Definition e_index (e : entry) : Z := e.2.

Record RingState := mk_state {
  entries : list entry;
  positions : list Z;
  nodes : list string;
}.

Definition empty_state : RingState := mk_state [] [] [].

Definition from_ordered (es : list entry) (ns : list string) : RingState :=
  mk_state es (e_pos <$> es) ns.

Definition build (es : list entry) (ns : list string) : RingState :=
  from_ordered (py_sorted es) ns.

Definition _positive_count (value : Z) : result Z :=
  raise_if (value <=? 0) ValueError (Ok value).

(** ** Read views *)

Record RingSnapshot := mk_snapshot {
  snap_state : RingState;
  snap_state_id : nat;
  snap_hash : string → result Z;
  snap_hash_id : nat;
}.

Definition total_virtual_nodes (s : RingSnapshot) : nat := length (entries (snap_state s)).

Definition _start (s : RingSnapshot) (key : string) : result nat :=
  match entries (snap_state s) with
  | [] => Raise RuntimeError
  | _ => let* p := snap_hash s key in
         Ok (bisect_right (positions (snap_state s)) p `mod` length (entries (snap_state s)))%nat
  end.

(** Tuple indexing, [IndexError] out of range. *)
Definition entry_at (es : list entry) (i : nat) : result entry :=
  match es !! i with Some e => Ok e | None => Raise IndexError end.

Definition get_node (s : RingSnapshot) (key : string) : result string :=
  let* i := _start s key in let* e := entry_at (entries (snap_state s)) i in Ok (e_node e).

Definition iter_assignments (s : RingSnapshot) (keys : list string)
    : result (list (string * string)) :=
  match entries (snap_state s) with
  | [] => Raise RuntimeError
  | _ => mapR (λ key, let* o := get_node s key in Ok (key, o)) keys
  end.

Definition get_keys (s : RingSnapshot) (node : string) (keys : list string)
    : result (list string) :=
  if decide (node ∈ nodes (snap_state s)) then
    let* pairs := iter_assignments s keys in
    Ok (fst <$> filter (λ kv, kv.2 = node) pairs)
  else Raise KeyError.

(** The loop of [get_nodes] over the clockwise offsets. *)
Fixpoint collect_nodes (es : list entry) (start target : nat) (offsets : list nat)
    (seen res : list string) : result (list string) :=
  match offsets with
  | [] => Ok res
  | off :: offsets' =>
      let* e := entry_at es ((start + off) `mod` length es)%nat in
      if decide (e_node e ∈ seen) then collect_nodes es start target offsets' seen res
      else
        let res' := res ++ [e_node e] in
        if (length res' =? target)%nat then Ok res'
        else collect_nodes es start target offsets' (e_node e :: seen) res'
  end.

Definition get_nodes (s : RingSnapshot) (key : string) (count : Z) : result (list string) :=
  if count <? 0 then Raise ValueError
  else if count =? 0 then Ok []
  else
    let* start := _start s key in
    let es := entries (snap_state s) in
    let target := Nat.min (Z.to_nat count) (length (nodes (snap_state s))) in
    collect_nodes es start target (seq 0 (length es)) [] [].

(** ** Writers *)

Record ConsistentHashRing := mk_ring {
  _hash_function : string → result Z;
  _hash_id : nat;
  _default_num_virtual_nodes : Z;
  _max_virtual_nodes : Z;
  _state : RingState;
  _state_id : nat;
}.

(** [_publish]: the new state is a new object. *)
Definition _publish (r : ConsistentHashRing) (st : RingState) : ConsistentHashRing :=
  mk_ring (_hash_function r) (_hash_id r) (_default_num_virtual_nodes r)
    (_max_virtual_nodes r) st (S (_state_id r)).

Definition snapshot (r : ConsistentHashRing) : RingSnapshot :=
  mk_snapshot (_state r) (_state_id r) (_hash_function r) (_hash_id r).

Definition _validate_node (node : string) : result unit :=
  raise_if (bool_decide (node = "")) ValueError (Ok tt).

Definition _ensure_capacity (max_virtual_nodes count : Z) : result unit :=
  raise_if (max_virtual_nodes <? count) ValueError (Ok tt).

Definition vnode_key (node : string) (index : Z) : string := node +:+ "#" +:+ pretty index.

Definition _entries (hash : string → result Z) (node : string) (start stop : Z)
    : result (list entry) :=
  mapR (λ index, let* p := hash (vnode_key node index) in Ok (p, node, index))
       (seqZ start (stop - start)).

Definition init (names : list string) (num_virtual_nodes : Z)
    (hash : string → result Z) (hash_id : nat) (max_virtual_nodes : Z)
    : result ConsistentHashRing :=
  let* d := _positive_count num_virtual_nodes in
  let* m := _positive_count max_virtual_nodes in
  let* _ := _ensure_capacity m d in
  let* _ := _ensure_capacity m (Z.of_nat (length names) * d) in
  let* _ := mapR _validate_node names in
  if bool_decide (NoDup names) then
    let* ess := mapR (λ node, _entries hash node 0 d) names in
    Ok (mk_ring hash hash_id d m (build (concat ess) names) 0)
  else Raise ValueError.

Definition add_node (r : ConsistentHashRing) (node : string) (num_virtual_nodes : option Z)
    : result (list Z * ConsistentHashRing) :=
  let* _ := _validate_node node in
  let* count := _positive_count (default (_default_num_virtual_nodes r) num_virtual_nodes) in
  let st := _state r in
  if decide (node ∈ nodes st) then Raise ValueError
  else
    let* _ := _ensure_capacity (_max_virtual_nodes r) (Z.of_nat (length (entries st)) + count) in
    let* added := _entries (_hash_function r) node 0 count in
    Ok (e_pos <$> added,
        _publish r (from_ordered (py_sorted (entries st ++ py_sorted added))
                                 (nodes st ++ [node]))).

Definition remove_node (r : ConsistentHashRing) (node : string)
    : result (list Z * ConsistentHashRing) :=
  let* _ := _validate_node node in
  let st := _state r in
  if decide (node ∈ nodes st) then
    let removed := sort_by e_index (filter (λ e, e_node e = node) (entries st)) in
    let retained := filter (λ e, e_node e ≠ node) (entries st) in
    let ns := filter (λ name, name ≠ node) (nodes st) in
    Ok (e_pos <$> removed, _publish r (from_ordered retained ns))
  else Raise KeyError.

Definition set_virtual_nodes (r : ConsistentHashRing) (node : string) (count : Z)
    : result ConsistentHashRing :=
  let* _ := _validate_node node in
  let* count := _positive_count count in
  let st := _state r in
  if decide (node ∈ nodes st) then
    let old_count := Z.of_nat (length (filter (λ e, e_node e = node) (entries st))) in
    let* _ := _ensure_capacity (_max_virtual_nodes r)
          (Z.of_nat (length (entries st)) - old_count + count) in
    if old_count =? count then Ok r
    else if old_count <? count then
      let* added := _entries (_hash_function r) node old_count count in
      Ok (_publish r (from_ordered (py_sorted (entries st ++ py_sorted added)) (nodes st)))
    else
      Ok (_publish r (from_ordered
            (filter (λ e, e_node e ≠ node ∨ e_index e < count) (entries st)) (nodes st)))
  else Raise KeyError.

(** The commands a ring serves, for statements about histories of writers. *)
Inductive ring_op :=
| AddNode (node : string) (num_virtual_nodes : option Z)
| RemoveNode (node : string)
| SetVirtualNodes (node : string) (count : Z).

Definition ring_step (r : ConsistentHashRing) (op : ring_op) : result ConsistentHashRing :=
  match op with
  | AddNode node n => rmap snd (add_node r node n)
  | RemoveNode node => rmap snd (remove_node r node)
  | SetVirtualNodes node n => set_virtual_nodes r node n
  end.

(** ** The abstract ring: weights *)

Definition weights : Type := dict string Z.

Definition total_weight (w : weights) : Z := foldr Z.add 0 (dvalues w).

Definition weights_step (default_n max_n : Z) (w : weights) (op : ring_op) : result weights :=
  match op with
  | AddNode node n =>
      let c := default default_n n in
      if bool_decide (node = "") || (c <=? 0) || dmem node w || (max_n <? total_weight w + c)
      then Raise ValueError else Ok (dset node c w)
  | RemoveNode node =>
      if bool_decide (node = "") then Raise ValueError
      else if dmem node w then Ok (ddel node w) else Raise KeyError
  | SetVirtualNodes node c =>
      if bool_decide (node = "") || (c <=? 0) then Raise ValueError
      else if dmem node w then
        if max_n <? total_weight w - dget_or 0 node w + c then Raise ValueError
        else Ok (dset node c w)
      else Raise KeyError
  end.

(** The virtual nodes a node of weight [n] owns under the hash [h]. *)
Definition vnodes (h : string → Z) (node : string) (start stop : Z) : list entry :=
  (λ index, (h (vnode_key node index), node, index)) <$> seqZ start (stop - start).

Definition all_vnodes (h : string → Z) (w : weights) : list entry :=
  concat ((λ nw, vnodes h nw.1 0 nw.2) <$> w).

(** [r] publishes the topology that the weights [w] describe. *)
Record represents (h : string → Z) (r : ConsistentHashRing) (w : weights) : Prop := {
  rep_hash : ∀ k, _hash_function r k = Ok (h k);
  rep_ok : dict_ok w;
  rep_pos : ∀ node c, dget node w = Some c → 0 < c;
  rep_cap : total_weight w ≤ _max_virtual_nodes r;
  rep_state : _state r = build (all_vnodes h w) (dkeys w);
}.

(** The owner of position [p]: the first entry at a strictly greater position,
    and the first entry of the ring when there is none. *)
Definition rot_key (p : Z) (e : entry) : nat * entry :=
  (if e_pos e <=? p then 1%nat else 0%nat, e).

Definition owner_entry (es : list entry) (p : Z) : option entry :=
  es !! (bisect_right (e_pos <$> es) p `mod` length es)%nat.

(** The distinct elements of a list in the order of their first occurrence. *)
Fixpoint nub (seen l : list string) : list string :=
  match l with
  | [] => []
  | x :: l' => if decide (x ∈ seen) then nub seen l' else x :: nub (x :: seen) l'
  end.

(** ** Routing *)

Lemma entry_le_pos (e e' : entry) : pyle e e' = true → e_pos e <= e_pos e'.
Proof.
  destruct e as [[p n] i], e' as [[p' n'] i']. rewrite !pair_pyle. simpl.
  intros [Hlt|[Heq _]].
  - apply pylt_spec in Hlt as [Hle _]. apply pair_pyle in Hle. simpl in Hle.
    destruct Hle as [Hl|[-> _]]; [|done]. rewrite pyltZ in Hl. unfold e_pos. simpl. lia.
  - injection Heq as -> ->. done.
Qed.

Lemma positions_ordered (es : list entry) : ordered id es → ordered id (e_pos <$> es).
Proof.
  induction es as [|e es IH]; simpl; [constructor|].
  rewrite !ordered_cons. intros [Hs Hall]. split; [by apply IH|].
  intros q (e'&->&Hin)%list_elem_of_fmap. apply Hall, entry_le_pos in Hin.
  apply Z.leb_le, Hin.
Qed.

Lemma rot_key_le p (e e' : entry) :
  pyle (rot_key p e) (rot_key p e') = true ↔
  (p < e_pos e ∧ e_pos e' <= p) ∨ ((e_pos e <= p ↔ e_pos e' <= p) ∧ pyle e e' = true).
Proof.
  unfold rot_key. rewrite pair_pyle. simpl.
  destruct (Z.leb_spec (e_pos e) p), (Z.leb_spec (e_pos e') p); simpl; unfold pylt; simpl;
    intuition (try lia; try done).
Qed.

(** The entry that [bisect_right] selects is the least one in clockwise order
    from the key, so it depends on the set of entries only. *)
Lemma owner_entry_spec (es : list entry) p :
  ordered id es → es ≠ [] →
  ∃ e, owner_entry es p = Some e ∧ e ∈ es ∧
    ∀ e', e' ∈ es → pyle (rot_key p e) (rot_key p e') = true.
Proof.
  intros Hs Hne. unfold owner_entry. set (i := bisect_right _ p).
  pose proof (bisect_right_le (e_pos <$> es) p) as Hi. fold i in Hi.
  rewrite length_fmap in Hi. pose proof (positions_ordered _ Hs) as Hpos.
  assert (Hat : ∀ j e', es !! j = Some e' → (i <= j)%nat ↔ p < e_pos e').
  { intros j e' He'. assert ((e_pos <$> es) !! j = Some (e_pos e')) as Hj
      by (by rewrite list_lookup_fmap, He'). split; intros Hij.
    - eapply bisect_right_after in Hj; [|done..]. rewrite pyltZ in Hj. lia.
    - destruct (decide (i <= j)%nat) as [|Hn]; [done|]. exfalso.
      assert (j < i)%nat as Hlt by lia. eapply bisect_right_before in Hj; [|done].
      rewrite pyleZ in Hj. lia. }
  destruct (decide (i < length es)%nat) as [Hlt|Hge].
  - rewrite Nat.mod_small by done. destruct (lookup_lt_is_Some_2 es i Hlt) as [e He].
    exists e. split; [done|]. split; [by eapply list_elem_of_lookup_2|].
    assert (p < e_pos e) as Hp by (by apply (Hat i)).
    intros e' [j Hj]%list_elem_of_lookup. apply rot_key_le.
    destruct (decide (i <= j)%nat) as [Hij|Hij].
    + right. pose proof (proj1 (Hat j e' Hj) Hij). split; [lia|].
      by eapply (ordered_lookup id es i j).
    + left. split; [done|]. pose proof (proj2 (Hat j e' Hj)). lia.
  - assert (i = length es) as Hil by lia. rewrite Hil.
    assert (length es ≠ 0)%nat as Hlen by (destruct es; simpl; congruence).
    rewrite Nat.Div0.mod_same by done.
    destruct es as [|e es]; [done|]. exists e. split; [done|]. split; [left|].
    intros e' He'. pose proof He' as [j Hj]%list_elem_of_lookup. apply rot_key_le. right.
    assert (0 <= j)%nat as Hj0 by lia.
    pose proof (ordered_lookup id (e :: es) 0 j e e' Hs Hj0 eq_refl Hj) as Hle.
    split; [|done]. pose proof (Hat j e' Hj) as Ha. pose proof (Hat 0%nat e eq_refl) as Hb.
    apply lookup_lt_Some in Hj. simpl in *. lia.
Qed.

Lemma rot_key_unique p (es : list entry) (e1 e2 : entry) :
  e1 ∈ es → e2 ∈ es →
  (∀ e', e' ∈ es → pyle (rot_key p e1) (rot_key p e') = true) →
  (∀ e', e' ∈ es → pyle (rot_key p e2) (rot_key p e') = true) → e1 = e2.
Proof.
  intros H1 H2 M1 M2.
  pose proof (pyle_antisym _ _ (M1 e2 H2) (M2 e1 H1)) as E. by injection E.
Qed.

(** Enlarging the ring changes an owner only to one of the new entries. *)
Lemma owner_entry_subset (es es' : list entry) p e e' :
  ordered id es → ordered id es' → es ⊆ es' →
  owner_entry es p = Some e → owner_entry es' p = Some e' → e' ∈ es → e' = e.
Proof.
  intros Hs Hs' Hsub He He' Hin.
  assert (es ≠ []) as Hne by (intros ->; set_solver).
  assert (es' ≠ []) as Hne' by (intros ->; set_solver).
  destruct (owner_entry_spec es p Hs Hne) as (x&Hx&Hxin&Hmin).
  destruct (owner_entry_spec es' p Hs' Hne') as (x'&Hx'&Hxin'&Hmin').
  simplify_eq. apply (rot_key_unique p es); auto.
Qed.

(** ** The topology as a function of the weights *)

Section weights.
Context (h : string → Z).
Implicit Types (w : weights) (node : string).

Lemma elem_of_vnodes node start stop e :
  e ∈ vnodes h node start stop ↔
  e = (h (vnode_key node (e_index e)), node, e_index e) ∧ start <= e_index e < stop.
Proof.
  unfold vnodes. rewrite list_elem_of_fmap. setoid_rewrite elem_of_seqZ. split.
  - intros (i&->&Hi). simpl. split; [done|lia].
  - intros [-> Hi]. exists (e_index e). split; [done|]. simpl in Hi. lia.
Qed.

Lemma elem_of_all_vnodes w e :
  e ∈ all_vnodes h w ↔ ∃ nw, nw ∈ w ∧ e ∈ vnodes h nw.1 0 nw.2.
Proof.
  unfold all_vnodes. rewrite list_elem_of_In, in_concat. split.
  - intros (l&Hl%list_elem_of_In&He%list_elem_of_In).
    apply list_elem_of_fmap in Hl as (nw&->&Hnw). by exists nw.
  - intros (nw&Hnw&He). exists (vnodes h nw.1 0 nw.2).
    split; apply list_elem_of_In; [|done]. apply list_elem_of_fmap. by exists nw.
Qed.

Lemma all_vnodes_app w1 w2 : all_vnodes h (w1 ++ w2) = all_vnodes h w1 ++ all_vnodes h w2.
Proof. unfold all_vnodes. by rewrite fmap_app, concat_app. Qed.

Lemma all_vnodes_cons node c w :
  all_vnodes h ((node, c) :: w) = vnodes h node 0 c ++ all_vnodes h w.
Proof. done. Qed.

Lemma vnodes_length node start stop :
  start <= stop → Z.of_nat (length (vnodes h node start stop)) = stop - start.
Proof. intros. unfold vnodes. rewrite length_fmap, length_seqZ. lia. Qed.

Lemma vnodes_app node a b c :
  a <= b <= c → vnodes h node a b ++ vnodes h node b c = vnodes h node a c.
Proof.
  intros Hab. unfold vnodes. rewrite <- fmap_app. f_equal.
  replace (c - a) with ((b - a) + (c - b)) by lia. rewrite seqZ_app by lia.
  do 2 f_equal. lia.
Qed.

Lemma all_vnodes_node w e : e ∈ all_vnodes h w → e_node e ∈ dkeys w.
Proof.
  intros (nw&Hnw&[-> _]%elem_of_vnodes)%elem_of_all_vnodes. simpl.
  apply list_elem_of_fmap. by exists nw.
Qed.

Lemma total_weight_cons node c w : total_weight ((node, c) :: w) = c + total_weight w.
Proof. done. Qed.

Lemma total_weight_app w1 w2 : total_weight (w1 ++ w2) = total_weight w1 + total_weight w2.
Proof.
  induction w1 as [|[node c] w1 IH]; [done|].
  rewrite <- app_comm_cons, !total_weight_cons, IH. lia.
Qed.

Lemma all_vnodes_length w :
  (∀ nw, nw ∈ w → 0 <= nw.2) → Z.of_nat (length (all_vnodes h w)) = total_weight w.
Proof.
  induction w as [|[node c] w IH]; intros Hpos; [done|].
  rewrite all_vnodes_cons, total_weight_cons, length_app, Nat2Z.inj_add, IH.
  - rewrite vnodes_length; [lia|]. apply (Hpos (node, c)). left.
  - intros nw Hnw. apply Hpos. by right.
Qed.

Lemma filter_vnodes_same node start stop :
  filter (λ e, e_node e = node) (vnodes h node start stop) = vnodes h node start stop.
Proof. apply filter_all. by intros e [-> _]%elem_of_vnodes. Qed.

Lemma filter_vnodes_own node start stop :
  filter (λ e, e_node e ≠ node) (vnodes h node start stop) = [].
Proof. apply filter_none. intros e [-> _]%elem_of_vnodes. unfold e_node. simpl. auto. Qed.

Lemma filter_all_vnodes_other (P : entry → Prop) `{∀ e, Decision (P e)} node w :
  node ∉ dkeys w → (∀ e, e_node e ≠ node → P e) → filter P (all_vnodes h w) = all_vnodes h w.
Proof.
  intros Hn HP. apply filter_all. intros e He. apply HP. intros <-.
  by apply Hn, all_vnodes_node.
Qed.

Lemma filter_all_vnodes_absent node w :
  node ∉ dkeys w → filter (λ e, e_node e = node) (all_vnodes h w) = [].
Proof.
  intros Hn. apply filter_none. intros e He <-. by apply Hn, all_vnodes_node.
Qed.

(** What the filters of [remove_node] and [set_virtual_nodes] keep. *)
Lemma all_vnodes_of_node w node c :
  dict_ok w → dget node w = Some c →
  filter (λ e, e_node e = node) (all_vnodes h w) = vnodes h node 0 c.
Proof.
  intros Hw Hc. destruct (dget_split node c w Hw Hc) as (w1&w2&->&H1&H2&_&_).
  rewrite all_vnodes_app, all_vnodes_cons, !filter_app, filter_vnodes_same.
  rewrite !filter_all_vnodes_absent by done. by rewrite app_nil_r.
Qed.

Lemma all_vnodes_remove w node c :
  dict_ok w → dget node w = Some c →
  filter (λ e, e_node e ≠ node) (all_vnodes h w) = all_vnodes h (ddel node w).
Proof.
  intros Hw Hc. destruct (dget_split node c w Hw Hc) as (w1&w2&->&H1&H2&_&->).
  rewrite !all_vnodes_app, all_vnodes_cons, !filter_app, filter_vnodes_own.
  by rewrite !(filter_all_vnodes_other _ node) by done.
Qed.

Lemma all_vnodes_shrink w node c c' :
  dict_ok w → dget node w = Some c → 0 <= c' <= c →
  filter (λ e, e_node e ≠ node ∨ e_index e < c') (all_vnodes h w) =
  all_vnodes h (dset node c' w).
Proof.
  intros Hw Hc Hle. destruct (dget_split node c w Hw Hc) as (w1&w2&->&H1&H2&->&_).
  rewrite !all_vnodes_app, !all_vnodes_cons, !filter_app.
  rewrite !(filter_all_vnodes_other _ node) by (done || auto). f_equal. f_equal.
  rewrite <- (vnodes_app node 0 c' c), filter_app by lia.
  rewrite filter_all, filter_none, app_nil_r; [done|..].
  - intros e [-> Hi]%elem_of_vnodes. unfold e_node. simpl. intros [Hn|Hn]; [done|].
    unfold e_index in *. simpl in *. lia.
  - intros e [-> Hi]%elem_of_vnodes. right. unfold e_index in *. simpl in *. lia.
Qed.

Lemma all_vnodes_grow w node c c' :
  dict_ok w → dget node w = Some c → 0 <= c <= c' →
  all_vnodes h w ++ vnodes h node c c' ≡ₚ all_vnodes h (dset node c' w).
Proof.
  intros Hw Hc Hle. destruct (dget_split node c w Hw Hc) as (w1&w2&->&H1&H2&->&_).
  rewrite !all_vnodes_app, !all_vnodes_cons, <- (vnodes_app node 0 c c') by lia.
  rewrite <- !app_assoc. do 2 f_equiv. apply Permutation_app_comm.
Qed.

Lemma total_weight_dset_new w node c :
  node ∉ dkeys w → total_weight (dset node c w) = total_weight w + c.
Proof. intros Hn. rewrite dset_new, total_weight_app by done. unfold total_weight. simpl. lia. Qed.

Lemma total_weight_dset w node c c' :
  dict_ok w → dget node w = Some c → total_weight (dset node c' w) = total_weight w - c + c'.
Proof.
  intros Hw Hc. destruct (dget_split node c w Hw Hc) as (w1&w2&->&_&_&->&_).
  rewrite !total_weight_app, !total_weight_cons. lia.
Qed.

Lemma total_weight_ddel w node c :
  dict_ok w → dget node w = Some c → total_weight (ddel node w) = total_weight w - c.
Proof.
  intros Hw Hc. destruct (dget_split node c w Hw Hc) as (w1&w2&->&_&_&_&->).
  rewrite !total_weight_app, !total_weight_cons. lia.
Qed.

Lemma build_perm es es' ns : es ≡ₚ es' → build es ns = build es' ns.
Proof. intros Hp. unfold build. by rewrite (py_sorted_perm_eq es es'). Qed.

Lemma build_filter (P : entry → Prop) `{∀ e, Decision (P e)} es ns :
  from_ordered (filter P (py_sorted es)) ns = build (filter P es) ns.
Proof. unfold build. by rewrite py_sorted_filter. Qed.
End weights.

Lemma _entries_total hash h node start stop :
  (∀ k, hash k = Ok (h k)) → _entries hash node start stop = Ok (vnodes h node start stop).
Proof. intros Hh. apply mapR_total. intros i _. by rewrite Hh. Qed.

(** ** Refinement: every writer implements its operation on the weights *)

Section refinement.
Context (h : string → Z).
Implicit Types (r : ConsistentHashRing) (w : weights) (node : string).

Lemma rep_weights_nonneg r w nw : represents h r w → nw ∈ w → 0 <= nw.2.
Proof.
  intros [_ Hok Hpos _ _] Hin. destruct nw as [n c].
  apply dget_Some in Hin; [|done]. apply Hpos in Hin. simpl. lia.
Qed.

Lemma rep_entries r w : represents h r w → entries (_state r) = py_sorted (all_vnodes h w).
Proof. intros []. by rewrite rep_state0. Qed.

Lemma rep_nodes r w : represents h r w → nodes (_state r) = dkeys w.
Proof. intros []. by rewrite rep_state0. Qed.

Lemma rep_length r w :
  represents h r w → Z.of_nat (length (entries (_state r))) = total_weight w.
Proof.
  intros Hr. rewrite (rep_entries r w), py_sorted_perm by done. apply all_vnodes_length.
  intros nw. by eapply rep_weights_nonneg.
Qed.

Lemma rep_publish r w w' :
  represents h r w → dict_ok w' → (∀ node c, dget node w' = Some c → 0 < c) →
  total_weight w' <= _max_virtual_nodes r →
  represents h (_publish r (build (all_vnodes h w') (dkeys w'))) w'.
Proof. intros [] Hok Hpos Hcap. by split. Qed.

Lemma rep_pos_dset r w node c n' c' :
  represents h r w → 0 < c → dget n' (dset node c w) = Some c' → 0 < c'.
Proof.
  intros [_ _ Hpos _ _] Hc. rewrite dget_dset. case_decide; [by intros [= <-]|apply Hpos].
Qed.

Lemma vnodes_ordered node start len :
  ordered e_index ((λ index, (h (vnode_key node index), node, index)) <$> seqZ start len).
Proof.
  unfold seqZ. generalize (Z.to_nat len). intros n. rewrite <- list_fmap_compose.
  generalize 0%nat. induction n as [|n IH]; intros i; simpl; [constructor|].
  apply ordered_cons. split; [apply IH|].
  intros e (j&->&Hj%elem_of_seq)%list_elem_of_fmap. simpl. unfold e_index. simpl. lia.
Qed.

(** The outcome of a writer matches the outcome of the abstract operation. *)
Definition refines_step r w op : Prop :=
  match weights_step (_default_num_virtual_nodes r) (_max_virtual_nodes r) w op with
  | Ok w' => ∃ r', ring_step r op = Ok r' ∧ represents h r' w' ∧
      _default_num_virtual_nodes r' = _default_num_virtual_nodes r ∧
      _max_virtual_nodes r' = _max_virtual_nodes r ∧ _hash_id r' = _hash_id r
  | Raise e => ring_step r op = Raise e
  end.

Lemma add_node_ok r w node c n :
  represents h r w → node ≠ "" → default (_default_num_virtual_nodes r) n = c → 0 < c →
  node ∉ dkeys w → total_weight w + c <= _max_virtual_nodes r →
  add_node r node n = Ok (e_pos <$> vnodes h node 0 c,
    _publish r (build (all_vnodes h (dset node c w)) (dkeys (dset node c w)))).
Proof.
  intros Hr Hne Hd Hc Hn Hcap. unfold add_node, _validate_node, _positive_count, raise_if.
  rewrite bool_decide_false, Hd by done. simpl.
  rewrite (proj2 (Z.leb_gt c 0)) by lia. simpl.
  rewrite (rep_nodes r w), decide_False by done.
  unfold _ensure_capacity, raise_if. rewrite (rep_length r w) by done.
  rewrite (proj2 (Z.ltb_ge _ _)) by lia. simpl.
  rewrite (_entries_total _ h) by apply Hr. simpl. do 3 f_equal.
  rewrite (rep_entries r w) by done. unfold build.
  rewrite (py_sorted_perm_eq _ (all_vnodes h (dset node c w))).
  - rewrite dset_new by done. unfold dkeys. by rewrite fmap_app.
  - rewrite !py_sorted_perm, dset_new, all_vnodes_app by done.
    unfold all_vnodes at 3. simpl. by rewrite app_nil_r.
Qed.

(** Sorting a node's entries by index recovers the order they were made in. *)
Lemma vnodes_by_index node c es :
  es ≡ₚ vnodes h node 0 c → sort_by e_index es = vnodes h node 0 c.
Proof.
  intros Hp. apply (ordered_unique e_index); [..|by rewrite sort_by_perm].
  - intros x y. rewrite !elem_of_sort_by, Hp.
    intros [-> _]%elem_of_vnodes [-> _]%elem_of_vnodes. by intros [= ->].
  - apply sort_by_ordered.
  - unfold vnodes. rewrite Z.sub_0_r. apply vnodes_ordered.
Qed.

(** [remove_node] drops the node's weight and reports its positions by index. *)
Lemma remove_node_ok r w node c :
  represents h r w → node ≠ "" → dget node w = Some c →
  remove_node r node =
    Ok (e_pos <$> vnodes h node 0 c,
        _publish r (build (all_vnodes h (ddel node w)) (dkeys (ddel node w)))).
Proof.
  intros Hr Hne Hc. unfold remove_node, _validate_node, raise_if.
  rewrite bool_decide_false by done. simpl. rewrite (rep_nodes r w) by done.
  rewrite decide_True by (apply dmem_spec; by apply dmem_true; eexists).
  rewrite (rep_entries r w), build_filter, (all_vnodes_remove h w node c), dkeys_ddel
    by (done || apply Hr).
  rewrite (vnodes_by_index node c); [done|].
  by rewrite py_sorted_perm, (all_vnodes_of_node h w node c) by (done || apply Hr).
Qed.

Lemma add_refines r w node n : represents h r w → refines_step r w (AddNode node n).
Proof.
  intros Hr. unfold refines_step. simpl. set (c := default _ n).
  destruct (decide (node = "")) as [->|Hne].
  { rewrite bool_decide_true by done. done. }
  rewrite bool_decide_false by done. simpl. destruct (Z.leb_spec c 0) as [Hc|Hc].
  { unfold add_node, _validate_node, _positive_count, raise_if. fold c.
    rewrite bool_decide_false by done. simpl. by rewrite (proj2 (Z.leb_le c 0)). }
  destruct (dmem node w) eqn:Hm.
  { apply dmem_spec in Hm. simpl. unfold add_node, _validate_node, _positive_count, raise_if.
    fold c. rewrite bool_decide_false by done. simpl. rewrite (proj2 (Z.leb_gt c 0)) by lia.
    simpl. by rewrite (rep_nodes r w), decide_True by done. }
  apply dmem_false, dget_None in Hm. simpl. destruct (Z.ltb_spec (_max_virtual_nodes r) (total_weight w + c)) as [Hcap|Hcap].
  { unfold add_node, _validate_node, _positive_count, raise_if. fold c.
    rewrite bool_decide_false by done. simpl. rewrite (proj2 (Z.leb_gt c 0)) by lia.
    simpl. rewrite (rep_nodes r w), decide_False by done.
    unfold _ensure_capacity, raise_if. rewrite (rep_length r w) by done.
    by rewrite (proj2 (Z.ltb_lt _ _)). }
  rewrite (add_node_ok r w node c) by done. simpl. eexists. split; [done|].
  split; [|done]. apply (rep_publish r w); [done|by apply dset_ok, Hr|..].
  - intros ??. by eapply rep_pos_dset.
  - by rewrite total_weight_dset_new.
Qed.

Lemma remove_refines r w node : represents h r w → refines_step r w (RemoveNode node).
Proof.
  intros Hr. unfold refines_step. simpl. destruct (decide (node = "")) as [->|Hne].
  { rewrite bool_decide_true by done. done. }
  rewrite bool_decide_false by done. destruct (dmem node w) eqn:Hm.
  - apply dmem_true in Hm as [c Hc]. rewrite (remove_node_ok r w node c) by done.
    simpl. eexists. split; [done|]. split; [|done].
    pose proof (rep_ok _ _ _ Hr) as Hok.
    apply (rep_publish r w); [done|by apply ddel_ok|..].
    + intros n' c'. rewrite dget_ddel by done. case_decide; [done|]. apply Hr.
    + rewrite (total_weight_ddel w node c) by done.
      pose proof (rep_cap _ _ _ Hr). pose proof (rep_pos _ _ _ Hr _ _ Hc). lia.
  - unfold remove_node, _validate_node, raise_if. rewrite bool_decide_false by done. simpl.
    rewrite (rep_nodes r w), decide_False; [done| |done].
    by apply dget_None, dmem_false.
Qed.

Lemma set_refines r w node c : represents h r w → refines_step r w (SetVirtualNodes node c).
Proof.
  intros Hr. unfold refines_step. simpl.
  unfold set_virtual_nodes, _validate_node, _positive_count, _ensure_capacity, raise_if.
  destruct (decide (node = "")) as [->|Hne].
  { rewrite bool_decide_true by done. done. }
  rewrite !bool_decide_false by done. simpl. destruct (Z.leb_spec c 0) as [Hc|Hc]; [done|].
  simpl. rewrite (rep_nodes r w) by done. destruct (dmem node w) eqn:Hm.
  2:{ rewrite decide_False; [done|]. by apply dget_None, dmem_false. }
  rewrite decide_True by (by apply dmem_spec). apply dmem_true in Hm as [old Hold].
  pose proof (rep_ok _ _ _ Hr) as Hok. pose proof (rep_pos _ _ _ Hr _ _ Hold) as Hpos.
  unfold dget_or. rewrite Hold. rewrite (rep_length r w) by done.
  rewrite (rep_entries r w), py_sorted_filter, py_sorted_length by done.
  rewrite (all_vnodes_of_node h w node old), vnodes_length by (done || lia).
  rewrite Z.sub_0_r. destruct (Z.ltb_spec (_max_virtual_nodes r) (total_weight w - old + c))
    as [Hcap|Hcap]; [done|]. simpl.
  assert (Hrep : represents h (_publish r (build (all_vnodes h (dset node c w))
    (dkeys (dset node c w)))) (dset node c w)).
  { apply (rep_publish r w); [done|by apply dset_ok|..].
    - intros ??. by eapply rep_pos_dset.
    - by rewrite (total_weight_dset w node old). }
  rewrite dkeys_dset_in in Hrep by (apply dmem_spec, dmem_true; by eexists).
  destruct (Z.eqb_spec old c) as [->|Hne'].
  { exists r. rewrite dset_same by done. done. }
  destruct (Z.ltb_spec old c) as [Hlt|Hge].
  - rewrite (_entries_total _ h) by apply Hr. simpl. eexists. split; [done|].
    rewrite (py_sorted_perm_eq _ (all_vnodes h (dset node c w))); [done|].
    rewrite !py_sorted_perm. apply all_vnodes_grow; [done..|lia].
  - eexists. split; [done|].
    rewrite build_filter, (all_vnodes_shrink h w node old c) by (done || lia). done.
Qed.

Lemma step_refines r w op : represents h r w → refines_step r w op.
Proof. destruct op; [apply add_refines|apply remove_refines|apply set_refines]. Qed.
End refinement.

(** A history of writers: a writer that raises leaves the ring as it was. *)
Definition ring_run (r : ConsistentHashRing) (ops : list ring_op) : ConsistentHashRing :=
  foldl (λ r op, match ring_step r op with Ok r' => r' | Raise _ => r end) r ops.

Definition weights_run (d m : Z) (w : weights) (ops : list ring_op) : weights :=
  foldl (λ w op, match weights_step d m w op with Ok w' => w' | Raise _ => w end) w ops.

Definition init_weights (names : list string) (d : Z) : weights := (λ n, (n, d)) <$> names.

(** ** The walk of [get_nodes] *)

Lemma nub_elem seen l x : x ∈ nub seen l ↔ x ∈ l ∧ x ∉ seen.
Proof.
  revert seen. induction l as [|y l IH]; intros seen; simpl; [set_solver|].
  destruct (decide (y ∈ seen)); rewrite ?elem_of_cons, IH; [set_solver|].
  rewrite elem_of_cons. destruct (decide (x = y)) as [->|]; set_solver.
Qed.

Lemma nub_NoDup seen l : NoDup (nub seen l).
Proof.
  revert seen. induction l as [|y l IH]; intros seen; simpl; [apply NoDup_nil_2|].
  destruct (decide (y ∈ seen)); [done|]. apply NoDup_cons. split; [|done].
  rewrite nub_elem. set_solver.
Qed.

(** The loop of [get_nodes] returns the first [target] distinct nodes. *)
Lemma collect_nodes_nub es start target offsets seen res :
  es ≠ [] → (length res < target)%nat →
  collect_nodes es start target offsets seen res =
    Ok (res ++ take (target - length res)
      (nub seen (omap (λ off, e_node <$> es !! ((start + off) `mod` length es)%nat) offsets))).
Proof.
  intros Hne. assert (length es ≠ 0)%nat as Hlen by (destruct es; simpl; congruence).
  revert seen res. induction offsets as [|off offsets IH]; intros seen res Hres; simpl.
  { by rewrite take_nil, app_nil_r. }
  assert (is_Some (es !! ((start + off) `mod` length es)%nat)) as [e He].
  { apply lookup_lt_is_Some. by apply Nat.mod_upper_bound. }
  unfold entry_at. rewrite He. simpl. destruct (decide (e_node e ∈ seen)) as [|Hs].
  { by apply IH. }
  rewrite length_app. simpl. destruct (Nat.eqb_spec (length res + 1) target) as [Ht|Ht].
  - replace (target - length res)%nat with 1%nat by lia. simpl. by rewrite take_0.
  - rewrite IH by (rewrite length_app; simpl; lia). rewrite length_app. simpl.
    replace (target - length res)%nat with (S (target - (length res + 1))) by lia.
    simpl. by rewrite <- app_assoc.
Qed.

(** The nodes met clockwise from index [start], once per virtual node. *)
Definition clockwise (es : list entry) (start : nat) : list string :=
  omap (λ off, e_node <$> es !! ((start + off) `mod` length es)%nat) (seq 0 (length es)).

Lemma elem_of_clockwise es start x :
  (start < length es)%nat → x ∈ clockwise es start ↔ ∃ e, e ∈ es ∧ e_node e = x.
Proof.
  intros Hst. unfold clockwise. rewrite list_elem_of_omap. split.
  - intros (off&_&(e&He&->)%fmap_Some). exists e.
    split; [by eapply list_elem_of_lookup_2|done].
  - intros (e&[j Hj]%list_elem_of_lookup&<-). pose proof (lookup_lt_Some _ _ _ Hj) as Hlt.
    set (n := length es) in *. exists ((j + n - start) `mod` n)%nat. split.
    + apply elem_of_seq. split; [lia|]. apply Nat.mod_upper_bound. lia.
    + rewrite Nat.Div0.add_mod_idemp_r by lia.
      replace (start + (j + n - start))%nat with (j + 1 * n)%nat by lia.
      rewrite Nat.Div0.mod_add, Nat.mod_small by lia. by rewrite Hj.
Qed.

Lemma clockwise_cons es start e :
  es !! start = Some e → ∃ l, clockwise es start = e_node e :: l.
Proof.
  intros He. pose proof (lookup_lt_Some _ _ _ He) as Hlt. unfold clockwise.
  set (f := λ off : nat, e_node <$> es !! ((start + off) `mod` length es)%nat).
  assert (f 0%nat = Some (e_node e)) as Hf.
  { unfold f. by rewrite Nat.add_0_r, Nat.mod_small, He. }
  destruct (length es) as [|n]; [lia|]. exists (omap f (seq 1 n)).
  change (seq 0 (S n)) with (0%nat :: seq 1 n). cbn [omap list_omap]. by rewrite Hf.
Qed.

Section properties.
Context (h : string → Z).
Implicit Types (r : ConsistentHashRing) (w : weights) (node : string).

Lemma all_vnodes_init names d :
  concat ((λ node, vnodes h node 0 d) <$> names) = all_vnodes h (init_weights names d).
Proof. unfold all_vnodes, init_weights. by rewrite <- list_fmap_compose. Qed.

Lemma dkeys_init names d : dkeys (init_weights names d) = names.
Proof. unfold dkeys, init_weights. rewrite <- list_fmap_compose. apply list_fmap_id. Qed.

Lemma total_weight_init names d :
  total_weight (init_weights names d) = Z.of_nat (length names) * d.
Proof.
  induction names as [|n names IH]; [done|].
  change (init_weights (n :: names) d) with ((n, d) :: init_weights names d).
  rewrite total_weight_cons, IH. simpl length. lia.
Qed.

Lemma init_represents names d hash id m r :
  (∀ k, hash k = Ok (h k)) → init names d hash id m = Ok r →
  represents h r (init_weights names d) ∧
  _default_num_virtual_nodes r = d ∧ _max_virtual_nodes r = m.
Proof.
  intros Hh. unfold init, _positive_count, _ensure_capacity, raise_if.
  destruct (Z.leb_spec d 0); [done|]. destruct (Z.leb_spec m 0); [done|].
  simpl. destruct (Z.ltb_spec m d); [done|]. simpl.
  destruct (Z.ltb_spec m (Z.of_nat (length names) * d)); [done|]. simpl.
  destruct (mapR _validate_node names); [|done]. simpl.
  case_bool_decide as Hnd; [|done].
  rewrite (mapR_total _ (λ node, vnodes h node 0 d)).
  2:{ intros node _. by apply _entries_total. }
  simpl. intros [= <-]. simpl. split; [|done]. rewrite all_vnodes_init. split; simpl.
  - done.
  - unfold dict_ok. by rewrite dkeys_init.
  - intros node c Hc%dget_Some_elem. unfold init_weights in Hc.
    apply list_elem_of_fmap in Hc as (?&[= _ ->]&_). done.
  - by rewrite total_weight_init.
  - by rewrite dkeys_init.
Qed.

Lemma rep_ordered r w : represents h r w → ordered id (entries (_state r)).
Proof. intros Hr. rewrite (rep_entries h r w) by done. apply py_sorted_ordered. Qed.

Lemma rep_start r w key :
  represents h r w → entries (_state r) ≠ [] →
  _start (snapshot r) key =
    Ok (bisect_right (e_pos <$> entries (_state r)) (h key)
        `mod` length (entries (_state r)))%nat.
Proof.
  intros Hr Hne. unfold _start, snapshot. simpl.
  destruct (entries (_state r)) as [|e es] eqn:E; [done|]. rewrite <- E.
  rewrite (rep_hash _ _ _ Hr). simpl. rewrite (rep_state _ _ _ Hr). done.
Qed.

Lemma rep_get_node r w key :
  represents h r w →
  get_node (snapshot r) key =
    match owner_entry (entries (_state r)) (h key) with
    | Some e => Ok (e_node e)
    | None => Raise RuntimeError
    end.
Proof.
  intros Hr. destruct (decide (entries (_state r) = [])) as [E|Hne].
  - unfold get_node, _start, snapshot, owner_entry. simpl. by rewrite E.
  - unfold get_node. rewrite (rep_start r w) by done. simpl.
    destruct (owner_entry_spec (entries (_state r)) (h key)) as (e&He&_);
      [by eapply rep_ordered|done|].
    unfold owner_entry in He |- *. unfold entry_at. by rewrite !He.
Qed.

Lemma get_node_entry r w key o :
  represents h r w → get_node (snapshot r) key = Ok o →
  ∃ e, owner_entry (entries (_state r)) (h key) = Some e ∧ e_node e = o ∧
    e ∈ entries (_state r).
Proof.
  intros Hr. rewrite (rep_get_node r w) by done.
  destruct (owner_entry _ _) as [e|] eqn:E; [|done]. intros [= <-]. exists e.
  split; [done|]. split; [done|]. by eapply list_elem_of_lookup_2.
Qed.

Lemma get_node_total r w key e :
  represents h r w → e ∈ entries (_state r) → ∃ o, get_node (snapshot r) key = Ok o.
Proof.
  intros Hr He. destruct (owner_entry_spec (entries (_state r)) (h key)) as (e'&He'&_).
  - by eapply rep_ordered.
  - intros E. rewrite E in He. set_solver.
  - rewrite (rep_get_node r w) by done. rewrite He'. by eexists.
Qed.

(** If every entry that disappears or appears belongs to [node], only keys of
    [node] change hands. *)
Lemma get_node_monotone r r' w w' node key :
  represents h r w → represents h r' w' →
  entries (_state r) ⊆ entries (_state r') →
  (∀ e, e ∈ entries (_state r') → e_node e ≠ node → e ∈ entries (_state r)) →
  ∀ o, get_node (snapshot r') key = Ok o → o ≠ node → get_node (snapshot r) key = Ok o.
Proof.
  intros Hr Hr' Hsub Hback o Ho Hne.
  destruct (get_node_entry r' w' key o) as (e'&He'&<-&Hin); [done..|].
  assert (e' ∈ entries (_state r)) as Hin0 by auto.
  destruct (owner_entry_spec (entries (_state r)) (h key)) as (e&He&_).
  { by eapply rep_ordered. } { intros E. rewrite E in Hin0. set_solver. }
  rewrite (rep_get_node r w), He by done. do 2 f_equal. symmetry.
  apply (owner_entry_subset (entries (_state r)) (entries (_state r')) (h key)); try done;
    by eapply rep_ordered.
Qed.

Lemma elem_rep_entries r w e :
  represents h r w → e ∈ entries (_state r) ↔ e ∈ all_vnodes h w.
Proof. intros Hr. by rewrite (rep_entries h r w), py_sorted_perm. Qed.

Lemma elem_all_vnodes_dget w e :
  dict_ok w → e ∈ all_vnodes h w ↔
  ∃ c, dget (e_node e) w = Some c ∧
    e_pos e = h (vnode_key (e_node e) (e_index e)) ∧ 0 <= e_index e < c.
Proof.
  intros Hw. rewrite elem_of_all_vnodes. split.
  - intros ([n c]&Hin&[-> Hi]%elem_of_vnodes). simpl in *. exists c.
    split; [by apply dget_Some|done].
  - intros (c&Hc%dget_Some_elem&Hp&Hi). exists (e_node e, c). split; [done|].
    apply elem_of_vnodes. simpl. split; [|done]. rewrite <- Hp. by destruct e as [[]].
Qed.

Lemma step_represents r w op r' :
  represents h r w → ring_step r op = Ok r' →
  ∃ w', weights_step (_default_num_virtual_nodes r) (_max_virtual_nodes r) w op = Ok w' ∧
    represents h r' w'.
Proof.
  intros Hr Hs. pose proof (step_refines h r w op Hr) as Href. unfold refines_step in Href.
  destruct (weights_step _ _ _ _) as [w'|e]; [|congruence]. exists w'. split; [done|].
  destruct Href as (r''&Hs'&Hr'&_). congruence.
Qed.

(** A change of one node's weight leaves the other nodes' entries alone. *)
Lemma entries_dset r r' w node c e :
  represents h r w → represents h r' (dset node c w) → e_node e ≠ node →
  e ∈ entries (_state r') ↔ e ∈ entries (_state r).
Proof.
  intros Hr Hr' Hn. rewrite (elem_rep_entries r w), (elem_rep_entries r' (dset node c w)),
    !elem_all_vnodes_dget by (done || by eapply rep_ok).
  by rewrite dget_dset_ne.
Qed.

Lemma entries_dset_mono r r' w node c :
  represents h r w → represents h r' (dset node c w) → dget_or 0 node w <= c →
  entries (_state r) ⊆ entries (_state r').
Proof.
  intros Hr Hr' Hc e. rewrite (elem_rep_entries r w), (elem_rep_entries r' (dset node c w)),
    !elem_all_vnodes_dget by (done || by eapply rep_ok).
  intros (c'&Hd&Hp&Hi). rewrite dget_dset. case_decide as E; [|by exists c'].
  exists c. split; [done|]. split; [done|]. unfold dget_or in Hc.
  rewrite E, Hd in Hc. lia.
Qed.

Lemma entries_dset_anti r r' w node c :
  represents h r w → represents h r' (dset node c w) → c <= dget_or 0 node w →
  entries (_state r') ⊆ entries (_state r).
Proof.
  intros Hr Hr' Hc e. rewrite (elem_rep_entries r w), (elem_rep_entries r' (dset node c w)),
    !elem_all_vnodes_dget by (done || by eapply rep_ok).
  intros (c'&Hd&Hp&Hi). rewrite dget_dset in Hd. case_decide as E; [|by exists c'].
  injection Hd as <-. unfold dget_or in Hc. rewrite E in Hc.
  destruct (dget (e_node e) w) as [c'|]; [exists c'|]; repeat split; (done || lia).
Qed.

Lemma routing_add r w node n ps r' key :
  represents h r w → add_node r node n = Ok (ps, r') →
  get_node (snapshot r') key = Ok node ∨
  get_node (snapshot r') key = get_node (snapshot r) key.
Proof.
  intros Hr Hadd. destruct (step_represents r w (AddNode node n) r') as (w'&Hw'&Hr').
  { done. } { simpl. by rewrite Hadd. }
  simpl in Hw'. set (c := default _ n) in *.
  destruct (bool_decide _); [done|]. destruct (Z.leb_spec c 0); [done|].
  destruct (dmem node w) eqn:Hm; [done|]. apply dmem_false in Hm.
  destruct (_ <? _); [done|]. simpl in Hw'. injection Hw' as <-.
  assert ((h (vnode_key node 0), node, 0) ∈ entries (_state r')) as Hin.
  { rewrite (elem_rep_entries r' (dset node c w)), elem_all_vnodes_dget
      by (done || by eapply rep_ok).
    exists c. unfold e_node, e_index, e_pos. simpl. rewrite dget_dset_eq. auto with lia. }
  destruct (get_node_total r' _ key _ Hr' Hin) as [o Ho].
  destruct (decide (o = node)) as [->|Hne]; [by left|]. right. rewrite Ho. symmetry.
  apply (get_node_monotone r r' w (dset node c w) node); try done.
  - eapply entries_dset_mono; [done..|]. unfold dget_or. rewrite Hm. lia.
  - intros e He Hn. by apply (entries_dset r r' w node c).
Qed.

Lemma routing_remove r w node ps r' key o :
  represents h r w → remove_node r node = Ok (ps, r') →
  get_node (snapshot r) key = Ok o → o ≠ node → get_node (snapshot r') key = Ok o.
Proof.
  intros Hr Hrem Ho Hne. destruct (step_represents r w (RemoveNode node) r') as (w'&Hw'&Hr').
  { done. } { simpl. by rewrite Hrem. }
  simpl in Hw'. destruct (bool_decide _); [done|]. destruct (dmem node w); [|done].
  injection Hw' as <-. pose proof (rep_ok _ _ _ Hr) as Hok.
  apply (get_node_monotone r' r (ddel node w) w node); try done.
  - intros e. rewrite (elem_rep_entries r w), (elem_rep_entries r' (ddel node w)),
      !elem_all_vnodes_dget by (done || by eapply rep_ok).
    intros (c&Hc&Hp). rewrite dget_ddel in Hc by done. case_decide; [done|]. by exists c.
  - intros e. rewrite (elem_rep_entries r w), (elem_rep_entries r' (ddel node w)),
      !elem_all_vnodes_dget by (done || by eapply rep_ok).
    intros (c&Hc&Hp) Hn. exists c. by rewrite dget_ddel_ne.
Qed.

Lemma routing_set r w node c r' key o o' :
  represents h r w → set_virtual_nodes r node c = Ok r' →
  get_node (snapshot r) key = Ok o → get_node (snapshot r') key = Ok o' →
  o = o' ∨ o = node ∨ o' = node.
Proof.
  intros Hr Hset Ho Ho'. destruct (step_represents r w (SetVirtualNodes node c) r')
    as (w'&Hw'&Hr'); [done..|].
  simpl in Hw'. destruct (_ || _); [done|]. destruct (dmem node w); [|done].
  destruct (_ <? _); [done|]. injection Hw' as <-.
  destruct (decide (o = node)) as [|Hn]; [auto|]. destruct (decide (o' = node)) as [|Hn']; [auto|].
  left. destruct (decide (dget_or 0 node w <= c)) as [Hle|Hgt].
  - assert (get_node (snapshot r) key = Ok o') as E; [|rewrite Ho in E; by injection E].
    apply (get_node_monotone r r' w (dset node c w) node); try done.
    + by eapply entries_dset_mono.
    + intros e He Hne. by apply (entries_dset r r' w node c).
  - assert (get_node (snapshot r') key = Ok o) as E; [|rewrite Ho' in E; by injection E].
    apply (get_node_monotone r' r (dset node c w) w node); try done.
    + eapply entries_dset_anti; [done..|]. lia.
    + intros e He Hne. by apply (entries_dset r r' w node c).
Qed.
Lemma rep_nodes_entry r w x :
  represents h r w → x ∈ dkeys w ↔ ∃ e, e ∈ entries (_state r) ∧ e_node e = x.
Proof.
  intros Hr. pose proof (rep_ok _ _ _ Hr) as Hok. split.
  - intros [c Hc]%dmem_spec%dmem_true. pose proof (rep_pos _ _ _ Hr _ _ Hc).
    exists (h (vnode_key x 0), x, 0). split; [|done].
    rewrite (elem_rep_entries r w), elem_all_vnodes_dget by done.
    exists c. unfold e_node, e_index, e_pos. simpl. auto with lia.
  - intros (e&He&<-). rewrite (elem_rep_entries r w) in He by done.
    by eapply all_vnodes_node.
Qed.

Lemma rep_nonempty r w : represents h r w → w ≠ [] → entries (_state r) ≠ [].
Proof.
  intros Hr Hw E. destruct w as [|[n c] w]; [done|].
  assert (n ∈ dkeys ((n, c) :: w)) as Hn by left.
  apply (rep_nodes_entry r _ n Hr) in Hn as (e&He&_). rewrite E in He. set_solver.
Qed.

Lemma clockwise_order r w start :
  represents h r w → (start < length (entries (_state r)))%nat →
  nub [] (clockwise (entries (_state r)) start) ≡ₚ nodes (_state r).
Proof.
  intros Hr Hst. apply NoDup_Permutation; [apply nub_NoDup|..].
  - rewrite (rep_nodes h r w) by done. apply Hr.
  - intros x. rewrite nub_elem, elem_of_clockwise, (rep_nodes h r w), (rep_nodes_entry r w)
      by done. set_solver.
Qed.
End properties.

(** One clockwise order of the nodes stands behind every preference list. *)
Lemma preference_order (h : string → Z) r w key :
  represents h r w → w ≠ [] →
  ∃ order, order ≡ₚ nodes (_state r) ∧ NoDup order ∧
    rmap Some (get_node (snapshot r) key) = Ok (head order) ∧
    (∀ count, 0 <= count → get_nodes (snapshot r) key count = Ok (take (Z.to_nat count) order)) ∧
    (∀ count, count < 0 → get_nodes (snapshot r) key count = Raise ValueError).
Proof.
  intros Hr Hw. pose proof (rep_nonempty h r w Hr Hw) as Hne.
  pose proof (rep_start h r w key Hr Hne) as Hstart.
  set (start := (bisect_right _ _ `mod` _)%nat) in Hstart.
  assert (start < length (entries (_state r)))%nat as Hlt.
  { apply Nat.mod_upper_bound. destruct (entries (_state r)); simpl; congruence. }
  pose proof (clockwise_order h r w start Hr Hlt) as Hperm.
  exists (nub [] (clockwise (entries (_state r)) start)).
  split; [done|]. split; [apply nub_NoDup|].
  split; [|split].
  - destruct (lookup_lt_is_Some_2 _ _ Hlt) as [e He].
    destruct (clockwise_cons _ _ _ He) as [l ->].
    unfold get_node. rewrite Hstart. simpl. unfold entry_at. by rewrite He.
  - intros count Hc. unfold get_nodes. destruct (Z.ltb_spec count 0); [lia|].
    destruct (Z.eqb_spec count 0) as [->|Hnz]; [done|]. rewrite Hstart. simpl.
    rewrite collect_nodes_nub by (done || (rewrite <- Hperm; simpl;
      destruct (lookup_lt_is_Some_2 _ _ Hlt) as [e He];
      destruct (clockwise_cons _ _ _ He) as [l ->]; simpl; lia)).
    simpl. rewrite Nat.sub_0_r, <- Hperm. fold (clockwise (entries (_state r)) start).
    rewrite <- take_take.
    by rewrite firstn_all.
  - intros count Hc. unfold get_nodes. by rewrite (proj2 (Z.ltb_lt _ _)).
Qed.

Lemma run_represents h r d m w ops :
  represents h r w → _default_num_virtual_nodes r = d → _max_virtual_nodes r = m →
  represents h (ring_run r ops) (weights_run d m w ops) ∧
  _default_num_virtual_nodes (ring_run r ops) = d ∧ _max_virtual_nodes (ring_run r ops) = m.
Proof.
  intros Hr Hd Hm. induction ops as [|op ops IH] using rev_ind; [done|].
  unfold ring_run, weights_run in *. rewrite !foldl_snoc. destruct IH as (IH&IHd&IHm).
  pose proof (step_refines h _ _ op IH) as Hs. unfold refines_step in Hs.
  rewrite IHd, IHm in Hs. destruct (weights_step _ _ _ op).
  - destruct Hs as (r'&->&?&->&->&_). auto.
  - by rewrite Hs.
Qed.

(** ** Concrete rings for the witnesses *)

Definition demo_hash (k : string) : result Z := Ok (demo_h k).
Definition demo_weights : weights := [("a", 2); ("b", 3)].
Definition demo_ring : ConsistentHashRing :=
  mk_ring demo_hash 0 2 100 (build (all_vnodes demo_h demo_weights) ["a"; "b"]) 0.

Lemma demo_represents : represents demo_h demo_ring demo_weights.
Proof.
  split; try done.
  - unfold dict_ok. simpl. repeat constructor; set_solver.
  - intros node c. simpl. repeat case_decide; intros [= <-]; lia.
Qed.

(** C23: for every deterministic hash, a ring built by the constructor and then
    driven through any history of [add_node], [remove_node] and
    [set_virtual_nodes] (failing calls included) publishes exactly the sorted
    virtual nodes of its abstract weights, and every further writer succeeds,
    or raises the exception, that the abstract operation prescribes. *)
Theorem ring_history_refines_weights (h : string → Z) hash id names d m r :
  (∀ k, hash k = Ok (h k)) → init names d hash id m = Ok r →
  ∀ ops, represents h (ring_run r ops) (weights_run d m (init_weights names d) ops) ∧
    ∀ op, rmap (λ _, tt) (ring_step (ring_run r ops) op) =
          rmap (λ _, tt) (weights_step d m (weights_run d m (init_weights names d) ops) op).
Proof.
  intros Hh Hinit. destruct (init_represents h names d hash id m r Hh Hinit) as (Hr&Hd&Hm).
  intros ops. destruct (run_represents h r d m _ ops Hr Hd Hm) as (IH&IHd&IHm).
  split; [done|]. intros op.
  pose proof (step_refines h _ _ op IH) as Hs. unfold refines_step in Hs.
  rewrite IHd, IHm in Hs. destruct (weights_step _ _ _ op).
  - by destruct Hs as (r'&->&_).
  - by rewrite Hs.
Qed.

Lemma ring_history_refines_weights_witness :
  ∃ r, init ["a"; "b"] 2 demo_hash 0 100 = Ok r ∧
    represents demo_h (ring_run r [RemoveNode "b"; AddNode "c" (Some 1); AddNode "a" None])
      [("a", 2); ("c", 1)].
Proof.
  eexists. split; [vm_compute; reflexivity|].
  match goal with |- represents _ (ring_run ?r _) _ =>
    pose proof (ring_history_refines_weights demo_h demo_hash 0 ["a"; "b"] 2 100 r
      (λ _, eq_refl) ltac:(vm_compute; reflexivity)) as Hr end.
  destruct (Hr [RemoveNode "b"; AddNode "c" (Some 1); AddNode "a" None]) as [Hrep _].
  exact Hrep.
Defined.

(** C24: minimal disruption.  After [add_node] a key either moves to the new node
    or keeps its owner; after [remove_node] every key of another node keeps its
    owner; a change of weight moves keys only to or from the node itself. *)
Theorem ring_minimal_disruption (h : string → Z) r w key :
  represents h r w →
  (∀ node n ps r', add_node r node n = Ok (ps, r') →
     get_node (snapshot r') key = Ok node ∨
     get_node (snapshot r') key = get_node (snapshot r) key) ∧
  (∀ node ps r' o, remove_node r node = Ok (ps, r') →
     get_node (snapshot r) key = Ok o → o ≠ node → get_node (snapshot r') key = Ok o) ∧
  (∀ node c r' o o', set_virtual_nodes r node c = Ok r' →
     get_node (snapshot r) key = Ok o → get_node (snapshot r') key = Ok o' →
     o = o' ∨ o = node ∨ o' = node).
Proof.
  intros Hr. split; [|split].
  - intros. by eapply routing_add.
  - intros. by eapply routing_remove.
  - intros. by eapply routing_set.
Qed.

Lemma ring_minimal_disruption_witness :
  represents demo_h demo_ring demo_weights ∧
  ∃ ps r', add_node demo_ring "c" None = Ok (ps, r') ∧
    (get_node (snapshot r') "k" = Ok "c" ∨
     get_node (snapshot r') "k" = get_node (snapshot demo_ring) "k").
Proof.
  split; [apply demo_represents|]. eexists _, _. split; [vm_compute; reflexivity|].
  eapply (proj1 (ring_minimal_disruption demo_h demo_ring demo_weights "k" demo_represents) "c" None).
  vm_compute. reflexivity.
Defined.

(** The preference list.  For every key there is one clockwise order of all
    the nodes, without repetition and headed by the owner, and [get_nodes]
    returns its first [count] elements; a negative count raises. *)
Theorem ring_preference_list (h : string → Z) r w key :
  represents h r w → w ≠ [] →
  ∃ order, order ≡ₚ nodes (_state r) ∧ NoDup order ∧
    rmap Some (get_node (snapshot r) key) = Ok (head order) ∧
    (∀ count, 0 <= count → get_nodes (snapshot r) key count = Ok (take (Z.to_nat count) order)) ∧
    (∀ count, count < 0 → get_nodes (snapshot r) key count = Raise ValueError).
Proof. by apply preference_order. Qed.

Lemma ring_preference_list_witness :
  ∃ order, order ≡ₚ ["a"; "b"] ∧ get_nodes (snapshot demo_ring) "k" 1 = Ok (take 1 order).
Proof.
  destruct (ring_preference_list demo_h demo_ring demo_weights "k" demo_represents)
    as (order&Hp&_&_&Hc&_); [done|].
  exists order. split; [exact Hp|]. apply (Hc 1). lia.
Defined.

(** [remove_node] undoes [add_node]: the topology is the one before, and
    both calls report the same positions in the same order. *)
Theorem ring_remove_undoes_add (h : string → Z) r w node n ps r1 :
  represents h r w → add_node r node n = Ok (ps, r1) →
  ∃ r2, remove_node r1 node = Ok (ps, r2) ∧ _state r2 = _state r.
Proof.
  intros Hr Hadd. set (c := default (_default_num_virtual_nodes r) n).
  assert (node ≠ "" ∧ 0 < c ∧ node ∉ dkeys w ∧ total_weight w + c <= _max_virtual_nodes r)
    as (Hne&Hc&Hn&Hcap).
  { pose proof (step_refines h r w (AddNode node n) Hr) as Href. unfold refines_step in Href.
    simpl in Href. rewrite Hadd in Href. fold c in Href.
    case_bool_decide; [done|]. destruct (Z.leb_spec c 0); [done|].
    destruct (dmem node w) eqn:Hm; [done|]. apply dmem_false, dget_None in Hm.
    destruct (Z.ltb_spec (_max_virtual_nodes r) (total_weight w + c)); [done|]. auto. }
  rewrite (add_node_ok h r w node c) in Hadd by done. injection Hadd as <- <-.
  assert (represents h (_publish r (build (all_vnodes h (dset node c w)) (dkeys (dset node c w))))
    (dset node c w)) as Hr1.
  { apply (rep_publish h r w); [done|by apply dset_ok, Hr|..].
    - intros ??. by eapply rep_pos_dset.
    - by rewrite total_weight_dset_new. }
  pose proof (remove_node_ok h _ _ node c Hr1 Hne (dget_dset_eq _ _ _)) as Hrem.
  rewrite ddel_dset_new in Hrem by done. eexists. split; [exact Hrem|].
  simpl. symmetry. apply Hr.
Qed.

Lemma ring_remove_undoes_add_witness :
  ∃ ps r1 r2, add_node demo_ring "c" (Some 3) = Ok (ps, r1) ∧
    remove_node r1 "c" = Ok (ps, r2) ∧ _state r2 = _state demo_ring.
Proof.
  assert (∃ x, add_node demo_ring "c" (Some 3) = Ok x) as [[ps r1] E]
    by (eexists; vm_compute; reflexivity).
  destruct (ring_remove_undoes_add demo_h demo_ring demo_weights "c" (Some 3) ps r1
    demo_represents E) as (r2&H1&H2).
  exists ps, r1, r2. split; [exact E|]. by split.
Defined.
