(* ===== verification/Migration.v ===== *)
(** * Migration planning between two ring topologies

    Models src/consistent-hashing/src/consistent_hashing/migration.py and the
    counting functions of stats.py beside it.  A plan lists the half-open
    clockwise intervals whose primary owner changes; the theorems show that it
    lists exactly the positions that change hands. *)
From S2P Require Import Prelude PyList PyDict Ring.
Local Open Scope Z_scope.

Record AffectedRange := mk_range {
  ar_start : Z;
  ar_end : Z;
  ar_previous_owner : option string;
  ar_new_owner : option string;
}.

Record KeyMigration := mk_migration {
  km_key : string;
  km_previous_owner : option string;
  km_new_owner : option string;
}.

Definition contains (r : AffectedRange) (position : Z) : bool :=
  if ar_start r <? ar_end r
  then (ar_start r <=? position) && (position <? ar_end r)
  else (ar_start r <=? position) || (position <? ar_end r).

(** [groupby] of a sorted list: one value per run of equal values. *)
Fixpoint group_keys (l : list Z) : list Z :=
  match l with
  | [] => []
  | x :: l' =>
      match group_keys l' with
      | [] => [x]
      | y :: g => if x =? y then y :: g else x :: y :: g
      end
  end.

(** The inner [while]; it advances at most [fuel] times. *)
Fixpoint advance (fuel : nat) (positions : list Z) (start : Z) (index : nat) : nat :=
  match fuel with
  | O => index
  | S fuel' =>
      match positions !! index with
      | Some q => if q <=? start then advance fuel' positions start (S index) else index
      | None => index
      end
  end.

Fixpoint owners_loop (es : list entry) (ps : list Z) (index : nat) (boundaries : list Z)
    : list (option string) :=
  match boundaries with
  | [] => []
  | start :: boundaries' =>
      let index' := advance (length es) ps start index in
      (e_node <$> es !! (index' `mod` length es)%nat) :: owners_loop es ps index' boundaries'
  end.

Definition _owners_at_boundaries (s : RingSnapshot) (boundaries : list Z) : list (option string) :=
  match entries (snap_state s) with
  | [] => (λ _, None) <$> boundaries
  | es => owners_loop es (positions (snap_state s)) 0 boundaries
  end.

(** The loop over the enumerated owners. *)
Fixpoint changed_ranges (boundaries : list Z) (index : nat)
    (owners : list (option string * option string)) : list AffectedRange :=
  match owners with
  | [] => []
  | (old, new) :: owners' =>
      let rest := changed_ranges boundaries (S index) owners' in
      if decide (old = new) then rest
      else mk_range (nth index boundaries 0)
             (nth ((index + 1) `mod` length boundaries)%nat boundaries 0) old new :: rest
  end.

Definition affected_ranges (before after : RingSnapshot) : result (list AffectedRange) :=
  if negb (snap_hash_id before =? snap_hash_id after)%nat then Raise ValueError
  else if (snap_state_id before =? snap_state_id after)%nat then Ok []
  else
    let boundaries :=
      group_keys (py_sorted (positions (snap_state before) ++ positions (snap_state after))) in
    let owners := zip (_owners_at_boundaries before boundaries)
                      (_owners_at_boundaries after boundaries) in
    Ok (changed_ranges boundaries 0 owners).

(** The generator of [iter_migrations], run to its end. *)
Fixpoint selected (before : RingSnapshot) (ranges : list AffectedRange) (starts : list Z)
    (keys : list string) : result (list KeyMigration) :=
  match keys with
  | [] => Ok []
  | key :: keys' =>
      let* position := snap_hash before key in
      match py_index ranges (Z.of_nat (bisect_right starts position) - 1) with
      | None => Raise IndexError
      | Some interval =>
          let* rest := selected before ranges starts keys' in
          Ok (if contains interval position
              then mk_migration key (ar_previous_owner interval) (ar_new_owner interval) :: rest
              else rest)
      end
  end.

Definition iter_migrations (before after : RingSnapshot) (keys : list string)
    : result (list KeyMigration) :=
  let* ranges := affected_ranges before after in
  match ranges with
  | [] => Ok []
  | _ => selected before ranges (ar_start <$> ranges) keys
  end.

(** ** stats.py: who moved, and how many keys each server holds *)

Definition dget_opt (k : string) (d : dict string (option string)) : option string :=
  match dget k d with Some v => v | None => None end.

Fixpoint redistribution_loop (keys : list string)
    (assignment_before assignment_after : dict string (option string)) (strict : bool)
    (moved : dict string (option string * option string))
    : result (dict string (option string * option string)) :=
  match keys with
  | [] => Ok moved
  | key :: keys' =>
      if strict && (negb (dmem key assignment_before) || negb (dmem key assignment_after))
      then Raise KeyError
      else
        let old_server := dget_opt key assignment_before in
        let new_server := dget_opt key assignment_after in
        redistribution_loop keys' assignment_before assignment_after strict
          (if bool_decide (old_server ≠ new_server) &&
              (strict || bool_decide (old_server ≠ None) && bool_decide (new_server ≠ None))
           then dset key (old_server, new_server) moved else moved)
  end.

Definition compute_redistribution (keys : list string)
    (assignment_before assignment_after : dict string (option string)) (strict : bool)
    : result (dict string (option string * option string) * nat) :=
  let* moved := redistribution_loop keys assignment_before assignment_after strict [] in
  Ok (moved, length moved).

(** The integer part of [DistributionStats]; the mean, the deviation and their
    ratio are floats and are left out. *)
Record DistributionStats := mk_stats {
  total_keys : Z;
  num_servers : nat;
  keys_per_server : dict string Z;
  min_keys : Z;
  max_keys : Z;
}.

Fixpoint count_loop (pairs : list (string * string)) (counts : dict string Z) (total : Z)
    : result (dict string Z * Z) :=
  match pairs with
  | [] => Ok (counts, total)
  | (_, node) :: pairs' =>
      match dget node counts with
      | None => Raise KeyError
      | Some c => count_loop pairs' (dset node (c + 1) counts) (total + 1)
      end
  end.

Definition min_list (x : Z) (l : list Z) : Z := foldl (λ a b, if b <? a then b else a) x l.
Definition max_list (x : Z) (l : list Z) : Z := foldl (λ a b, if a <? b then b else a) x l.

Definition compute_distribution (s : RingSnapshot) (keys : list string)
    : result DistributionStats :=
  let keys_per_server := (λ node, (node, 0)) <$> nodes (snap_state s) in
  match keys_per_server with
  | [] => Raise RuntimeError
  | _ =>
      let* pairs := iter_assignments s keys in
      let* ct := count_loop pairs keys_per_server 0 in
      match dvalues ct.1 with
      | [] => Raise ValueError
      | c :: cs => Ok (mk_stats ct.2 (length ct.1) ct.1 (min_list c cs) (max_list c cs))
      end
  end.

(** ** Specification *)

(** The primary owner of a position, if the ring has one. *)
Definition owner_at (s : RingSnapshot) (p : Z) : option string :=
  e_node <$> owner_entry (entries (snap_state s)) p.

Definition snap_ok (s : RingSnapshot) : Prop :=
  ordered id (entries (snap_state s)) ∧
  positions (snap_state s) = e_pos <$> entries (snap_state s).

(** Identities name objects: equal identities, equal contents. *)
Definition coherent (before after : RingSnapshot) : Prop :=
  (snap_hash_id before = snap_hash_id after → snap_hash before = snap_hash after) ∧
  (snap_state_id before = snap_state_id after → snap_state before = snap_state after).

(** The index of the boundary a position falls under, the last one before the first. *)
Definition floor_index (B : list Z) (p : Z) : nat :=
  match bisect_right B p with O => length B - 1 | S i => i end%nat.

Definition strictly (B : list Z) : Prop := StronglySorted Z.lt B.

Lemma strictly_lookup B i j x y :
  strictly B → (i < j)%nat → B !! i = Some x → B !! j = Some y → x < y.
Proof.
  intros Hs. revert i j. induction Hs as [|z B Hs IH Hall]; intros i j Hij; [done|].
  destruct i as [|i], j as [|j]; simpl; intros Hx Hy; simplify_eq; [lia| |lia|].
  - eapply Forall_forall in Hall; [exact Hall|]. by eapply list_elem_of_lookup_2.
  - apply (IH i j); [lia|done..].
Qed.

Lemma strictly_ordered B : strictly B → ordered id B.
Proof.
  induction 1 as [|x B Hs IH Hall]; [constructor|]. apply ordered_cons. split; [done|].
  intros y Hy. eapply Forall_forall in Hall; [|done]. simpl. lia.
Qed.

Lemma elem_of_group_keys l x : x ∈ group_keys l ↔ x ∈ l.
Proof.
  induction l as [|y l IH]; simpl; [done|]. destruct (group_keys l) as [|z g] eqn:E.
  - set_solver.
  - destruct (Z.eqb_spec y z) as [->|]; set_solver.
Qed.

Lemma group_keys_strictly l : ordered id l → strictly (group_keys l).
Proof.
  induction l as [|x l IH]; simpl; [constructor|]. intros [Hs Hall]%ordered_cons.
  pose proof (elem_of_group_keys l) as Hel. specialize (IH Hs).
  destruct (group_keys l) as [|y g] eqn:E; [by repeat constructor|].
  destruct (Z.eqb_spec x y) as [->|Hne]; [done|]. constructor; [done|].
  apply Forall_forall. intros z Hz. assert (x <= y) as Hxy.
  { assert (y ∈ l) as Hy by (apply Hel; left). apply Hall in Hy. simpl in Hy. lia. }
  apply elem_of_cons in Hz as [->|Hz]; [lia|].
  apply StronglySorted_inv in IH as [_ Hy]. eapply Forall_forall in Hy; [|done]. lia.
Qed.

Lemma advance_bisect fuel ps start index :
  (index <= bisect_right ps start)%nat → (bisect_right ps start <= index + fuel)%nat →
  advance fuel ps start index = bisect_right ps start.
Proof.
  revert index. induction fuel as [|fuel IH]; intros index H1 H2; simpl; [lia|].
  destruct (ps !! index) as [q|] eqn:Hq.
  - destruct (decide (index < bisect_right ps start)%nat) as [Hlt|Hge].
    + pose proof (bisect_right_before ps start index q Hlt Hq) as Hle. rewrite pyleZ in Hle.
      rewrite Hle. apply IH; lia.
    + assert (index = bisect_right ps start) as Hi by lia. rewrite Hi in Hq.
      apply bisect_right_at in Hq. rewrite pyltZ in Hq.
      destruct (Z.leb_spec q start); [lia|done].
  - apply lookup_ge_None in Hq. pose proof (bisect_right_le ps start). lia.
Qed.

Lemma owner_at_unfold s p :
  snap_ok s → owner_at s p =
    e_node <$> entries (snap_state s) !!
      (bisect_right (positions (snap_state s)) p `mod` length (entries (snap_state s)))%nat.
Proof. intros [_ Hp]. unfold owner_at, owner_entry. by rewrite Hp. Qed.

Lemma owners_loop_spec s index boundaries :
  snap_ok s → ordered id boundaries →
  (∀ b, b ∈ boundaries → (index <= bisect_right (positions (snap_state s)) b)%nat) →
  owners_loop (entries (snap_state s)) (positions (snap_state s)) index boundaries =
    owner_at s <$> boundaries.
Proof.
  intros Hok. revert index. induction boundaries as [|b B IH]; intros index; [done|].
  intros [Hs Hall]%ordered_cons Hidx. cbn [owners_loop fmap list_fmap].
  rewrite advance_bisect.
  - rewrite <- owner_at_unfold by done. f_equal. apply IH; [done|]. intros b' Hb'.
    apply bisect_right_mono. by apply Hall.
  - apply Hidx. left.
  - pose proof (bisect_right_le (positions (snap_state s)) b) as Hle.
    destruct Hok as [_ Hp]. rewrite Hp in Hle |- *. rewrite length_fmap in Hle. lia.
Qed.

Lemma owners_spec s boundaries :
  snap_ok s → ordered id boundaries →
  _owners_at_boundaries s boundaries = owner_at s <$> boundaries.
Proof.
  intros Hok Hs. unfold _owners_at_boundaries.
  destruct (entries (snap_state s)) as [|e es] eqn:E.
  - apply list_fmap_ext. intros i b _. unfold owner_at, owner_entry. by rewrite E.
  - rewrite <- E. apply owners_loop_spec; [done..|]. intros. lia.
Qed.

Lemma floor_index_lt B p : B ≠ [] → (floor_index B p < length B)%nat.
Proof.
  intros Hne. unfold floor_index. pose proof (bisect_right_le B p).
  destruct B; [done|]. destruct (bisect_right _ _); simpl in *; lia.
Qed.

(** Between two boundaries nothing changes. *)
Lemma owner_at_floor s B p b :
  snap_ok s → strictly B → (∀ q, q ∈ positions (snap_state s) → q ∈ B) →
  B !! floor_index B p = Some b → owner_at s p = owner_at s b.
Proof.
  intros Hok HB Hsub. rewrite !owner_at_unfold by done.
  pose proof Hok as [_ Hp]. unfold floor_index.
  destruct (bisect_right B p) as [|i] eqn:Hi; intros Hb.
  - assert (bisect_right (positions (snap_state s)) p = 0%nat) as ->.
    { destruct (positions (snap_state s)) as [|q qs] eqn:E; [done|]. simpl.
      assert (q ∈ B) as [j Hj]%list_elem_of_lookup by (apply Hsub; left).
      apply (bisect_right_after B p) in Hj; [|by apply strictly_ordered|lia].
      rewrite pyltZ in Hj. destruct (Z.leb_spec q p); [lia|done]. }
    rewrite (bisect_right_all (positions (snap_state s)) b).
    + rewrite Hp, length_fmap. destruct (length (entries (snap_state s))) as [|n]; [done|].
      by rewrite Nat.Div0.mod_same, Nat.Div0.mod_0_l.
    + intros q Hq. apply Hsub in Hq as [j Hj]%list_elem_of_lookup.
      pose proof (lookup_lt_Some _ _ _ Hj).
      eapply (ordered_lookup id B j (length B - 1)); [by apply strictly_ordered|lia|done..].
  - do 3 f_equal. apply bisect_right_ext. intros q Hq.
    apply Hsub in Hq as [j Hj]%list_elem_of_lookup. rewrite !pyleZ.
    assert (b <= p) as Hbp.
    { assert (i < bisect_right B p)%nat as Hlt by lia.
      apply (bisect_right_before B p i b Hlt) in Hb. by apply Z.leb_le. }
    apply eq_true_iff_eq. rewrite !Z.leb_le. split; [|lia]. intros Hqp.
    destruct (decide (j <= i)%nat) as [Hji|Hji].
    + pose proof (ordered_lookup id B j i q b (strictly_ordered _ HB) Hji Hj Hb) as Hle.
      simpl in Hle. lia.
    + apply (bisect_right_after B p) in Hj; [|by apply strictly_ordered|lia].
      rewrite pyltZ in Hj. lia.
Qed.

Lemma bisect_nth B p j :
  ordered id B → (j < length B)%nat → (j < bisect_right B p)%nat ↔ nth j B 0 <= p.
Proof.
  intros Hord Hj. destruct (lookup_lt_is_Some_2 B j Hj) as [y Hy].
  rewrite (nth_lookup_Some _ _ _ _ Hy). split.
  - intros Hlt. apply (bisect_right_before B p j y Hlt) in Hy. by apply Z.leb_le.
  - intros Hle. destruct (decide (j < bisect_right B p)%nat) as [|Hn]; [done|]. exfalso.
    apply (bisect_right_after B p) in Hy; [|done|lia]. rewrite pyltZ in Hy. lia.
Qed.

(** The interval between consecutive boundaries contains the positions whose
    floor is its first boundary. *)
Lemma contains_floor B i p old new :
  strictly B → (i < length B)%nat →
  contains (mk_range (nth i B 0) (nth ((i + 1) `mod` length B)%nat B 0) old new) p = true ↔
  floor_index B p = i.
Proof.
  intros HB Hi. unfold contains. simpl.
  pose proof (strictly_ordered _ HB) as Hord.
  pose proof (bisect_nth B p) as Hat.
  assert (Hlt : ∀ j k, (j < k < length B)%nat → nth j B 0 < nth k B 0).
  { intros j k Hjk. destruct (lookup_lt_is_Some_2 B j ltac:(lia)) as [x Hx].
    destruct (lookup_lt_is_Some_2 B k ltac:(lia)) as [y Hy].
    rewrite (nth_lookup_Some _ _ _ _ Hx), (nth_lookup_Some _ _ _ _ Hy).
    apply (strictly_lookup B j k); (done || lia). }
  pose proof (bisect_right_le B p) as Hbr. unfold floor_index.
  destruct (decide (i + 1 = length B)%nat) as [Hlast|Hlast].
  - rewrite Hlast, Nat.Div0.mod_same.
    assert (nth 0 B 0 <= nth i B 0) as H0i.
    { destruct i as [|i]; [lia|]. pose proof (Hlt 0 (S i))%nat. lia. }
    destruct (Z.ltb_spec (nth i B 0) (nth 0 B 0)); [lia|]. rewrite orb_true_iff, Z.leb_le, Z.ltb_lt.
    pose proof (Hat i Hord Hi) as H1. pose proof (Hat 0%nat Hord ltac:(lia)) as H2.
    destruct (bisect_right B p) as [|k]; lia.
  - rewrite Nat.mod_small by lia. pose proof (Hlt i (i + 1)%nat ltac:(lia)).
    destruct (Z.ltb_spec (nth i B 0) (nth (i + 1) B 0)); [|lia].
    rewrite andb_true_iff, Z.leb_le, Z.ltb_lt.
    pose proof (Hat i Hord Hi) as H1.
    pose proof (Hat (i + 1)%nat Hord ltac:(lia)) as H2.
    destruct (bisect_right B p) as [|k]; lia.
Qed.

(** The changed interval that starts at boundary [i]. *)
Definition range_at (f g : Z → option string) (B : list Z) (i : nat) : AffectedRange :=
  mk_range (nth i B 0) (nth ((i + 1) `mod` length B)%nat B 0) (f (nth i B 0)) (g (nth i B 0)).

Definition changed_indices (f g : Z → option string) (B : list Z) (i n : nat) : list nat :=
  filter (λ j, f (nth j B 0) ≠ g (nth j B 0)) (seq i n).

Lemma changed_ranges_spec f g B i :
  changed_ranges B i (zip (f <$> drop i B) (g <$> drop i B)) =
    range_at f g B <$> changed_indices f g B i (length B - i).
Proof.
  remember (length B - i)%nat as n eqn:Hn. revert i Hn.
  induction n as [|n IH]; intros i Hn.
  - rewrite drop_ge by lia. done.
  - destruct (lookup_lt_is_Some_2 B i ltac:(lia)) as [b Hb].
    rewrite (drop_S _ _ _ Hb). cbn [fmap list_fmap zip zip_with changed_ranges].
    unfold changed_indices. cbn [seq]. rewrite (nth_lookup_Some _ _ _ _ Hb).
    rewrite IH by lia. case_decide as E.
    + rewrite filter_cons_False; [done|]. rewrite (nth_lookup_Some _ _ _ _ Hb). tauto.
    + rewrite filter_cons_True by (rewrite (nth_lookup_Some _ _ _ _ Hb); done).
      cbn [fmap list_fmap]. f_equal. unfold range_at. by rewrite (nth_lookup_Some _ _ _ _ Hb).
Qed.

Definition boundaries (before after : RingSnapshot) : list Z :=
  group_keys (py_sorted (positions (snap_state before) ++ positions (snap_state after))).

Lemma boundaries_strictly before after : strictly (boundaries before after).
Proof. apply group_keys_strictly, py_sorted_ordered. Qed.

Lemma boundaries_elem before after q :
  q ∈ boundaries before after ↔
  q ∈ positions (snap_state before) ∨ q ∈ positions (snap_state after).
Proof. unfold boundaries. by rewrite elem_of_group_keys, py_sorted_perm, elem_of_app. Qed.

Definition plan_indices (before after : RingSnapshot) : list nat :=
  changed_indices (owner_at before) (owner_at after) (boundaries before after)
    0 (length (boundaries before after)).

Definition plan (before after : RingSnapshot) : list AffectedRange :=
  range_at (owner_at before) (owner_at after) (boundaries before after)
    <$> plan_indices before after.

Lemma affected_ranges_plan before after :
  snap_ok before → snap_ok after → coherent before after →
  snap_hash_id before = snap_hash_id after →
  affected_ranges before after = Ok (plan before after).
Proof.
  intros Hb Ha [_ Hst] Hid. unfold affected_ranges. rewrite (proj2 (Nat.eqb_eq _ _)) by done.
  simpl. pose proof (boundaries_strictly before after) as HB. unfold plan, plan_indices.
  destruct (Nat.eqb_spec (snap_state_id before) (snap_state_id after)) as [E|_].
  - unfold changed_indices. rewrite filter_none; [done|]. intros j _ Hj. apply Hj.
    unfold owner_at. by rewrite (Hst E).
  - fold (boundaries before after).
    rewrite !owners_spec by (done || by apply strictly_ordered).
    rewrite <- (drop_0 (boundaries before after)) at 2 3.
    by rewrite changed_ranges_spec, Nat.sub_0_r.
Qed.

Lemma floor_boundary before after p :
  snap_ok before → snap_ok after →
  boundaries before after = [] ∧ owner_at before p = None ∧ owner_at after p = None ∨
  ∃ b, boundaries before after !! floor_index (boundaries before after) p = Some b ∧
    nth (floor_index (boundaries before after) p) (boundaries before after) 0 = b ∧
    owner_at before p = owner_at before b ∧ owner_at after p = owner_at after b.
Proof.
  intros Hb Ha. destruct (decide (boundaries before after = [])) as [E|Hne].
  - left. split; [done|].
    assert (∀ s, snap_ok s → (∀ q, q ∈ positions (snap_state s) → q ∈ boundaries before after) →
      owner_at s p = None) as Hnone.
    { intros s [_ Hp] Hsub. unfold owner_at, owner_entry.
      destruct (entries (snap_state s)) as [|e es]; [done|]. exfalso.
      assert (e_pos e ∈ boundaries before after) as He by (apply Hsub; rewrite Hp; left).
      rewrite E in He. set_solver. }
    split; apply Hnone; try done; intros q Hq; apply boundaries_elem; auto.
  - right. destruct (lookup_lt_is_Some_2 _ _ (floor_index_lt _ p Hne)) as [b Hlk].
    exists b. split; [done|]. split; [by apply nth_lookup_Some|].
    split; eapply (owner_at_floor _ (boundaries before after)); try done;
      try apply boundaries_strictly; intros q Hq; apply boundaries_elem; auto.
Qed.

Lemma filter_eq_single {A} `{EqDecision A} (x : A) (l : list A) :
  NoDup l → x ∈ l → filter (λ y, y = x) l = [x].
Proof.
  induction 1 as [|y l Hy Hnd IH]; [set_solver|]. intros [->|Hx]%elem_of_cons.
  - rewrite filter_cons_True by done. f_equal. apply filter_none. intros z Hz ->. done.
  - rewrite filter_cons_False by (intros ->; done). by apply IH.
Qed.

Lemma plan_indices_lt before after i :
  i ∈ plan_indices before after ↔
  owner_at before (nth i (boundaries before after) 0) ≠
    owner_at after (nth i (boundaries before after) 0) ∧
  (i < length (boundaries before after))%nat.
Proof.
  unfold plan_indices, changed_indices. rewrite list_elem_of_filter, elem_of_seq.
  simpl. intuition lia.
Qed.

(** The plan at one position: the unique interval that contains it. *)
Lemma plan_at before after p :
  snap_ok before → snap_ok after →
  filter (λ r, contains r p = true) (plan before after) =
    if decide (owner_at before p = owner_at after p) then []
    else [range_at (owner_at before) (owner_at after) (boundaries before after)
            (floor_index (boundaries before after) p)].
Proof.
  intros Hb Ha. pose proof (boundaries_strictly before after) as HB. unfold plan.
  rewrite filter_fmap.
  rewrite (filter_ext_in _ (λ i, i = floor_index (boundaries before after) p)).
  2:{ intros i Hi%plan_indices_lt. unfold range_at.
      rewrite contains_floor by (done || apply Hi). split; congruence. }
  destruct (floor_boundary before after p Hb Ha) as [(E&E1&E2)|(b&Hlk&Hnth&E1&E2)].
  - rewrite E1, E2, decide_True by done. rewrite filter_none; [done|].
    intros i [_ Hi]%plan_indices_lt. rewrite E in Hi. simpl in Hi. lia.
  - rewrite E1, E2. case_decide as Heq.
    + rewrite filter_none; [done|]. intros i [Hi _]%plan_indices_lt ->.
      rewrite Hnth in Hi. done.
    + rewrite filter_eq_single; [done|apply NoDup_filter, NoDup_seq|].
      apply plan_indices_lt. rewrite Hnth. split; [done|]. by eapply lookup_lt_Some.
Qed.

Lemma seq_filter_sorted (P : nat → Prop) `{∀ i, Decision (P i)} i n :
  ordered id (filter P (seq i n)).
Proof.
  apply ordered_filter. revert i. induction n as [|n IH]; intros i; simpl; [constructor|].
  apply ordered_cons. split; [apply IH|]. intros j Hj%elem_of_seq.
  apply Nat.leb_le. unfold id. lia.
Qed.

Lemma plan_indices_sorted before after : ordered id (plan_indices before after).
Proof. apply seq_filter_sorted. Qed.

Lemma plan_starts before after :
  ar_start <$> plan before after =
    (λ i, nth i (boundaries before after) 0) <$> plan_indices before after.
Proof. unfold plan. by rewrite <- list_fmap_compose. Qed.

Lemma starts_lookup before after j x :
  (ar_start <$> plan before after) !! j = Some x →
  ∃ i, plan_indices before after !! j = Some i ∧ boundaries before after !! i = Some x.
Proof.
  rewrite plan_starts, list_lookup_fmap. intros (i&Hi&->)%fmap_Some. exists i.
  split; [done|]. assert (i ∈ plan_indices before after) as [_ Hlt]%plan_indices_lt
    by (by eapply list_elem_of_lookup_2).
  destruct (lookup_lt_is_Some_2 _ _ Hlt) as [b Hb].
  by rewrite (nth_lookup_Some _ _ _ _ Hb).
Qed.

Lemma starts_ordered before after : ordered id (ar_start <$> plan before after).
Proof.
  rewrite plan_starts. pose proof (plan_indices_sorted before after) as Hs.
  assert (∀ i, i ∈ plan_indices before after → (i < length (boundaries before after))%nat) as Hlt
    by (intros i Hi%plan_indices_lt; apply Hi).
  induction (plan_indices before after) as [|i I IH]; simpl; [constructor|].
  apply ordered_cons in Hs as [Hs Hall]. apply ordered_cons. split.
  { apply IH; [done|]. intros j Hj. apply Hlt. by right. }
  intros x (j&->&Hj)%list_elem_of_fmap. pose proof (Hall j Hj) as Hij.
  apply Nat.leb_le in Hij. unfold id in Hij |- *.
  destruct (lookup_lt_is_Some_2 _ _ (Hlt i (list_elem_of_here _ _))) as [x Hx].
  destruct (lookup_lt_is_Some_2 (boundaries before after) j) as [y Hy].
  { apply Hlt. by right. }
  rewrite (nth_lookup_Some _ _ _ _ Hx), (nth_lookup_Some _ _ _ _ Hy).
  apply (ordered_lookup id (boundaries before after) i j); [|done..].
  apply strictly_ordered, boundaries_strictly.
Qed.

(** How many changed intervals start at or before a position. *)
Lemma starts_bisect before after p j :
  plan_indices before after !! j = Some (floor_index (boundaries before after) p) →
  bisect_right (ar_start <$> plan before after) p = S j ∨
  bisect_right (ar_start <$> plan before after) p = 0%nat ∧
    S j = length (plan before after).
Proof.
  intros Hj. set (B := boundaries before after) in *.
  set (k := bisect_right (ar_start <$> plan before after) p).
  assert (length (plan before after) = length (plan_indices before after)) as Hlen
    by (unfold plan; by rewrite length_fmap).
  assert (HB : ordered id B) by (apply strictly_ordered, boundaries_strictly).
  pose proof (lookup_lt_Some _ _ _ Hj) as Hjl.
  assert (floor_index B p < length B)%nat as Hfl.
  { eapply plan_indices_lt. by eapply list_elem_of_lookup_2. }
  assert (Hk : ∀ m i, plan_indices before after !! m = Some i →
    (m < k)%nat ↔ (i < bisect_right B p)%nat).
  { intros m i Hm. assert (i < length B)%nat as Hi
      by (eapply plan_indices_lt; by eapply list_elem_of_lookup_2).
    rewrite (bisect_nth B p i) by done. unfold k. rewrite bisect_nth.
    - rewrite plan_starts. erewrite nth_lookup_Some; [done|].
      by rewrite list_lookup_fmap, Hm.
    - apply starts_ordered.
    - rewrite length_fmap, Hlen. by eapply lookup_lt_Some. }
  assert (k <= length (plan before after))%nat as Hkl.
  { unfold k. rewrite <- (length_fmap ar_start). apply bisect_right_le. }
  assert (Hmono : ∀ m m' i i', (m < m')%nat → plan_indices before after !! m = Some i →
    plan_indices before after !! m' = Some i' → (i < i')%nat).
  { intros m m' i i' Hm Hi Hi'.
    pose proof (ordered_lookup id _ m m' i i' (plan_indices_sorted before after)
      ltac:(lia) Hi Hi') as Hle. apply Nat.leb_le in Hle. unfold id in Hle.
    assert (i ≠ i'); [|lia]. intros ->.
    assert (m = m'); [|lia]. eapply NoDup_lookup; [|done..]. apply NoDup_filter, NoDup_seq. }
  pose proof (Hk j _ Hj) as Hkj. unfold floor_index in Hj, Hkj, Hfl.
  destruct (bisect_right B p) as [|i] eqn:Hi.
  - right. assert (k = 0)%nat as Hk0.
    { destruct k as [|k']; [done|]. destruct (lookup_lt_is_Some_2 (plan_indices before after) 0)
        as [i0 Hi0]; [lia|]. pose proof (proj1 (Hk 0%nat i0 Hi0)). lia. }
    split; [done|]. destruct (decide (S j < length (plan_indices before after))%nat); [|lia].
    destruct (lookup_lt_is_Some_2 (plan_indices before after) (S j)) as [i1 Hi1]; [done|].
    pose proof (Hmono j (S j) _ _ ltac:(lia) Hj Hi1).
    assert (i1 < length B)%nat; [|lia].
    eapply plan_indices_lt. by eapply list_elem_of_lookup_2.
  - left. assert (j < k)%nat by (apply Hkj; lia). destruct (decide (S j < k)%nat); [|lia].
    destruct (lookup_lt_is_Some_2 (plan_indices before after) (S j)) as [i1 Hi1]; [lia|].
    pose proof (Hmono j (S j) _ _ ltac:(lia) Hj Hi1).
    pose proof (proj1 (Hk (S j) i1 Hi1) ltac:(lia)). lia.
Qed.

Lemma py_index_nonneg {A} (l : list A) (i : nat) : py_index l (Z.of_nat i) = l !! i.
Proof.
  unfold py_index. destruct (Z.ltb_spec (Z.of_nat i) 0); [lia|].
  destruct (Z.ltb_spec (Z.of_nat i) 0); [lia|]. by rewrite Nat2Z.id.
Qed.

Lemma py_index_last {A} (l : list A) (j : nat) :
  S j = length l → py_index l (-1) = l !! j.
Proof.
  intros Hj. unfold py_index. simpl. destruct (Z.ltb_spec (Z.of_nat (length l) + -1) 0); [lia|].
  f_equal. lia.
Qed.

(** The interval that [iter_migrations] inspects contains the position whenever
    an interval of the plan does. *)
Lemma plan_select before after p :
  snap_ok before → snap_ok after → plan before after ≠ [] →
  ∃ r, py_index (plan before after)
         (Z.of_nat (bisect_right (ar_start <$> plan before after) p) - 1) = Some r ∧
    r ∈ plan before after ∧
    (contains r p = false → filter (λ r, contains r p = true) (plan before after) = []).
Proof.
  intros Hb Ha Hne. pose proof (bisect_right_le (ar_start <$> plan before after) p) as Hk.
  rewrite length_fmap in Hk.
  assert (∃ r, py_index (plan before after)
    (Z.of_nat (bisect_right (ar_start <$> plan before after) p) - 1) = Some r) as [r Hr].
  { destruct (bisect_right _ p) as [|k] eqn:E.
    - destruct (length (plan before after)) as [|j] eqn:Hj; [by destruct (plan before after)|].
      rewrite (py_index_last _ j) by done. apply lookup_lt_is_Some. lia.
    - replace (Z.of_nat (S k) - 1) with (Z.of_nat k) by lia. rewrite py_index_nonneg.
      apply lookup_lt_is_Some. lia. }
  exists r. split; [done|]. split.
  { unfold py_index in Hr. case_match; [done|]. by eapply list_elem_of_lookup_2. }
  intros Hc. rewrite plan_at by done. case_decide as Heq; [done|]. exfalso.
  destruct (floor_boundary before after p Hb Ha) as [(_&E1&E2)|(b&Hlk&Hnth&E1&E2)];
    [congruence|].
  assert (floor_index (boundaries before after) p ∈ plan_indices before after) as Hin.
  { apply plan_indices_lt. rewrite Hnth, <- E1, <- E2. split; [done|]. by eapply lookup_lt_Some. }
  pose proof Hin as [j Hj]%list_elem_of_lookup. pose proof Hin as [_ Hlt]%plan_indices_lt.
  assert (plan before after !! j = Some (range_at (owner_at before) (owner_at after)
    (boundaries before after) (floor_index (boundaries before after) p))) as Hrj
    by (unfold plan; by rewrite list_lookup_fmap, Hj).
  assert (r = range_at (owner_at before) (owner_at after) (boundaries before after)
    (floor_index (boundaries before after) p)) as ->.
  { destruct (starts_bisect before after p j Hj) as [E|[E Hlast]]; rewrite E in Hr.
    - replace (Z.of_nat (S j) - 1) with (Z.of_nat j) in Hr by lia.
      rewrite py_index_nonneg in Hr. congruence.
    - simpl in Hr. rewrite (py_index_last _ j) in Hr by done. congruence. }
  unfold range_at in Hc. rewrite (proj2 (contains_floor (boundaries before after) _ p _ _
    (boundaries_strictly _ _) Hlt)) in Hc; done.
Qed.

(** The migration of one key, from the owners of its position. *)
Definition migration_of (before after : RingSnapshot) (h : string → Z) (key : string)
    : option KeyMigration :=
  let old := owner_at before (h key) in
  let new := owner_at after (h key) in
  if decide (old = new) then None else Some (mk_migration key old new).

Lemma selected_spec before after h keys :
  snap_ok before → snap_ok after → plan before after ≠ [] →
  (∀ k, k ∈ keys → snap_hash before k = Ok (h k)) →
  selected before (plan before after) (ar_start <$> plan before after) keys =
    Ok (omap (migration_of before after h) keys).
Proof.
  intros Hb Ha Hne. induction keys as [|key keys IH]; intros Hh; [done|].
  cbn [selected omap list_omap]. rewrite Hh by left. cbn [rbind].
  destruct (plan_select before after (h key)) as (r&->&Hin&Hmiss); [done..|].
  rewrite IH by (intros k Hk; apply Hh; by right). cbn [rbind].
  pose proof (plan_at before after (h key) Hb Ha) as Hat. unfold migration_of.
  destruct (contains r (h key)) eqn:Hc.
  - assert (r ∈ filter (λ r, contains r (h key) = true) (plan before after)) as Hf
      by (by apply list_elem_of_filter).
    rewrite Hat in Hf. case_decide as Heq; [set_solver|].
    apply list_elem_of_singleton in Hf as ->. unfold range_at. simpl.
    destruct (floor_boundary before after (h key) Hb Ha) as [(_&E1&E2)|(b&_&->&->&->)]; [|done].
    congruence.
  - rewrite Hmiss in Hat by done. by case_decide.
Qed.

(** Snapshots of one ring satisfy the hypotheses of the plan. *)
Lemma rep_snap_ok h r w : represents h r w → snap_ok (snapshot r).
Proof.
  intros Hr. split; simpl; [by eapply rep_ordered|].
  by rewrite (rep_state _ _ _ Hr).
Qed.

Definition succeeds (r r' : ConsistentHashRing) : Prop :=
  _hash_function r' = _hash_function r ∧ _hash_id r' = _hash_id r ∧
  (_state_id r <= _state_id r')%nat ∧ (_state_id r = _state_id r' → _state r = _state r').

Lemma succeeds_publish r st : succeeds r (_publish r st).
Proof. repeat split; simpl; lia. Qed.

Lemma ring_step_succeeds r op r' : ring_step r op = Ok r' → succeeds r r'.
Proof.
  destruct op as [node n|node|node n]; simpl.
  - unfold add_node. destruct (_validate_node node); [|done]. simpl.
    destruct (_positive_count _); [|done]. simpl. case_decide; [done|].
    destruct (_ensure_capacity _ _); [|done]. simpl. destruct (_entries _ _ _ _); [|done].
    intros [= <-]. apply succeeds_publish.
  - unfold remove_node. destruct (_validate_node node); [|done]. simpl.
    case_decide; [|done]. intros [= <-]. apply succeeds_publish.
  - unfold set_virtual_nodes. destruct (_validate_node node); [|done]. simpl.
    destruct (_positive_count n) as [c|]; [|done]. simpl. case_decide; [|done].
    destruct (_ensure_capacity _ _); [|done]. simpl.
    destruct (_ =? _); [by intros [= <-]|]. destruct (_ <? _).
    + destruct (_entries _ _ _ _); [|done]. intros [= <-]. apply succeeds_publish.
    + intros [= <-]. apply succeeds_publish.
Qed.

Lemma ring_run_succeeds r ops : succeeds r (ring_run r ops).
Proof.
  induction ops as [|op ops IH] using rev_ind; [done|].
  unfold ring_run in *. rewrite foldl_snoc. destruct (ring_step _ op) as [r'|] eqn:E; [|done].
  apply ring_step_succeeds in E. destruct IH as (H1&H2&H3&H4), E as (H5&H6&H7&H8).
  repeat split; [congruence|congruence|lia|]. intros Hid. rewrite H4 by lia. apply H8. lia.
Qed.

Lemma history_coherent r ops :
  coherent (snapshot r) (snapshot (ring_run r ops)) ∧
  snap_hash_id (snapshot r) = snap_hash_id (snapshot (ring_run r ops)).
Proof. destruct (ring_run_succeeds r ops) as (H1&H2&_&H4). repeat split; simpl; auto. Qed.

(** Two snapshots of a concrete ring. *)
Definition demo_before : RingSnapshot := snapshot demo_ring.
Definition demo_after : RingSnapshot := snapshot (ring_run demo_ring [AddNode "c" (Some 2)]).

Lemma demo_after_represents :
  represents demo_h (ring_run demo_ring [AddNode "c" (Some 2)]) (dset "c" 2 demo_weights).
Proof.
  exact (proj1 (run_represents demo_h demo_ring 2 100 demo_weights [AddNode "c" (Some 2)]
    demo_represents eq_refl eq_refl)).
Qed.

(** C25: the plan is exact.  [affected_ranges] of two coherent snapshots returns
    intervals such that a position lies in none of them when its primary owner
    is the same in both topologies, and otherwise in exactly one, which names
    the previous and the new owner; snapshots of different hash functions are
    refused. *)
Theorem affected_ranges_exact before after :
  snap_ok before → snap_ok after → coherent before after →
  if decide (snap_hash_id before = snap_hash_id after)
  then ∃ ranges, affected_ranges before after = Ok ranges ∧
    ∀ p, if decide (owner_at before p = owner_at after p)
         then filter (λ r, contains r p = true) ranges = []
         else ∃ r, filter (λ r, contains r p = true) ranges = [r] ∧
           ar_previous_owner r = owner_at before p ∧ ar_new_owner r = owner_at after p
  else affected_ranges before after = Raise ValueError.
Proof.
  intros Hb Ha Hco. case_decide as Hid.
  - eexists. split; [by apply affected_ranges_plan|]. intros p. rewrite plan_at by done.
    case_decide as Heq; [done|]. eexists. split; [done|]. unfold range_at. simpl.
    destruct (floor_boundary before after p Hb Ha) as [(_&E1&E2)|(b&_&->&->&->)]; [|done].
    congruence.
  - unfold affected_ranges. by rewrite (proj2 (Nat.eqb_neq _ _)).
Qed.

Lemma affected_ranges_exact_witness :
  ∃ ranges, affected_ranges demo_before demo_after = Ok ranges ∧
    ∀ p, owner_at demo_before p = owner_at demo_after p →
      filter (λ r, contains r p = true) ranges = [].
Proof.
  pose proof (affected_ranges_exact demo_before demo_after (rep_snap_ok _ _ _ demo_represents)
    (rep_snap_ok _ _ _ demo_after_represents) (proj1 (history_coherent _ _))) as H.
  rewrite decide_True in H by done. destruct H as (ranges&Hr&Hp).
  exists ranges. split; [exact Hr|]. intros p Hsame. specialize (Hp p).
  rewrite decide_True in Hp by exact Hsame. exact Hp.
Defined.

(** The lazily filtered migrations are exactly the candidate keys whose
    primary owner changes, in the order of the candidates and with duplicates,
    each with its previous and new owner. *)
Theorem iter_migrations_exact before after h keys :
  snap_ok before → snap_ok after → coherent before after →
  snap_hash_id before = snap_hash_id after →
  (∀ k, k ∈ keys → snap_hash before k = Ok (h k)) →
  iter_migrations before after keys = Ok (omap (migration_of before after h) keys).
Proof.
  intros Hb Ha Hco Hid Hh. unfold iter_migrations.
  rewrite affected_ranges_plan by done. cbn [rbind].
  destruct (plan before after) as [|r rs] eqn:Hp; [|rewrite <- Hp; apply selected_spec; rewrite ?Hp; done].
  f_equal. induction keys as [|key keys IH]; [done|]. cbn [omap list_omap].
  rewrite <- IH by (intros k Hk; apply Hh; by right). unfold migration_of.
  pose proof (plan_at before after (h key) Hb Ha) as Hat. rewrite Hp in Hat. by case_decide.
Qed.

(** ** Theorems about stats.py *)

Lemma redistribution_loop_spec keys ab aa strict moved moved' :
  dict_ok moved → redistribution_loop keys ab aa strict moved = Ok moved' →
  dict_ok moved' ∧ ∀ k o n, dget k moved' = Some (o, n) ↔
    if decide (k ∈ keys ∧ dget_opt k ab ≠ dget_opt k aa ∧
               (strict = true ∨ dget_opt k ab ≠ None ∧ dget_opt k aa ≠ None))
    then o = dget_opt k ab ∧ n = dget_opt k aa else dget k moved = Some (o, n).
Proof.
  revert moved. induction keys as [|key keys IH]; intros moved Hok; simpl.
  { by intros [= <-]. }
  destruct (strict && _); [done|]. intros Hloop.
  set (hit := bool_decide _ && _) in Hloop.
  assert (hit = true ↔ dget_opt key ab ≠ dget_opt key aa ∧
    (strict = true ∨ dget_opt key ab ≠ None ∧ dget_opt key aa ≠ None)) as Hhit.
  { unfold hit. rewrite andb_true_iff, orb_true_iff, andb_true_iff, !bool_decide_eq_true. done. }
  apply IH in Hloop as [Hok' Hspec]; [|destruct hit; by eauto with pydict].
  split; [done|]. intros k o n. rewrite Hspec. clear IH Hspec.
  destruct (decide (k = key)) as [->|Hne].
  - destruct hit.
    + rewrite (decide_True (P := key ∈ key :: keys ∧ _)) by (split; [left|by apply Hhit]).
      case_decide as Hc; [done|]. rewrite dget_dset_eq. naive_solver.
    + rewrite !decide_False; [done|..]; intros [_ H]; by apply Hhit in H.
  - assert (dget k (if hit then dset key (dget_opt key ab, dget_opt key aa) moved else moved)
      = dget k moved) as -> by (destruct hit; [by rewrite dget_dset_ne|done]).
    destruct (decide (k ∈ keys)).
    + repeat case_decide; set_solver.
    + rewrite !decide_False by set_solver. done.
Qed.

Lemma iter_migrations_exact_witness :
  iter_migrations demo_before demo_after ["k1"; "k2"; "zz"; "k1"] =
    Ok (omap (migration_of demo_before demo_after demo_h) ["k1"; "k2"; "zz"; "k1"]).
Proof.
  apply (iter_migrations_exact demo_before demo_after demo_h).
  - exact (rep_snap_ok _ _ _ demo_represents).
  - exact (rep_snap_ok _ _ _ demo_after_represents).
  - exact (proj1 (history_coherent _ _)).
  - reflexivity.
  - intros k _. reflexivity.
Defined.

(** [compute_redistribution] records, once per key, exactly the given keys
    whose assignment differs (and, unless strict, is known on both sides), with
    both assignments; the total is the number of recorded keys. *)
Theorem compute_redistribution_spec keys ab aa strict moved total :
  compute_redistribution keys ab aa strict = Ok (moved, total) →
  dict_ok moved ∧ total = length moved ∧
  ∀ k o n, dget k moved = Some (o, n) ↔
    k ∈ keys ∧ o = dget_opt k ab ∧ n = dget_opt k aa ∧ o ≠ n ∧
    (strict = true ∨ o ≠ None ∧ n ≠ None).
Proof.
  unfold compute_redistribution. destruct (redistribution_loop _ _ _ _ _) as [m|] eqn:E; [|done].
  simpl. intros [= <- <-]. apply redistribution_loop_spec in E as [Hok Hspec]; [|apply dict_nil_ok].
  split; [done|]. split; [done|]. intros k o n. rewrite Hspec.
  match goal with |- context [decide ?P] => destruct (decide P) as [Hc|Hc] end; split.
  - intros [-> ->]. tauto.
  - tauto.
  - done.
  - intros (Hk&->&->&Hrest). exfalso. tauto.
Qed.

Lemma compute_redistribution_spec_witness :
  ∃ moved total,
    compute_redistribution ["x"; "y"; "x"] [("x", Some "a"); ("y", Some "b")]
      [("x", Some "b"); ("y", Some "b")] true = Ok (moved, total) ∧
    total = length moved ∧ dget "x" moved = Some (Some "a", Some "b").
Proof.
  eexists _, _. split; [vm_compute; reflexivity|].
  destruct (compute_redistribution_spec ["x"; "y"; "x"] [("x", Some "a"); ("y", Some "b")]
      [("x", Some "b"); ("y", Some "b")] true [("x", (Some "a", Some "b"))] 1) as (_&Ht&_).
  - vm_compute. reflexivity.
  - split; [exact Ht|]. reflexivity.
Defined.

Lemma count_loop_spec pairs counts total counts' total' :
  dict_ok counts → count_loop pairs counts total = Ok (counts', total') →
  dkeys counts' = dkeys counts ∧ total' = total + Z.of_nat (length pairs) ∧
  total_weight counts' - total' = total_weight counts - total ∧
  ∀ node c, dget node counts = Some c →
    dget node counts' = Some (c + Z.of_nat (length (filter (λ kv, kv.2 = node) pairs))).
Proof.
  revert counts total. induction pairs as [|[k n] pairs IH]; intros counts total Hok; simpl.
  { intros [= <- <-]. split; [done|]. split; [lia|]. split; [done|].
    intros node c ->. by rewrite Z.add_0_r. }
  destruct (dget n counts) as [c0|] eqn:Hn; [|done]. intros Hloop.
  apply IH in Hloop as (Hk&->&Hsum&Hc); [|by apply dset_ok].
  rewrite dkeys_dset_in in Hk by (apply dmem_spec, dmem_true; by eexists).
  rewrite (total_weight_dset counts n c0) in Hsum by done.
  split; [done|]. split; [lia|]. split; [lia|]. intros node c Hget.
  destruct (decide (n = node)) as [->|Hne].
  - rewrite filter_cons_True by done. rewrite (Hc node (c0 + 1)) by apply dget_dset_eq.
    simplify_eq. f_equal. simpl length. lia.
  - rewrite filter_cons_False by done. apply Hc. by rewrite dget_dset_ne.
Qed.

Lemma min_list_spec x l :
  min_list x l ∈ x :: l ∧ ∀ y, y ∈ x :: l → min_list x l <= y.
Proof.
  revert x. induction l as [|z l IH]; intros x; simpl.
  { split; [left|]. intros y ->%list_elem_of_singleton. done. }
  unfold min_list in *. simpl. destruct (IH (if z <? x then z else x)) as [Hin Hle].
  destruct (Z.ltb_spec z x); (split; [set_solver|]); intros y; rewrite !elem_of_cons.
  - pose proof (Hle z (list_elem_of_here _ _)). intros [->|[->|Hy]]; [lia|done|].
    apply Hle. by right.
  - pose proof (Hle x (list_elem_of_here _ _)). intros [->|[->|Hy]]; [done|lia|].
    apply Hle. by right.
Qed.

Lemma max_list_spec x l :
  max_list x l ∈ x :: l ∧ ∀ y, y ∈ x :: l → y <= max_list x l.
Proof.
  revert x. induction l as [|z l IH]; intros x; simpl.
  { split; [left|]. intros y ->%list_elem_of_singleton. done. }
  unfold max_list in *. simpl. destruct (IH (if x <? z then z else x)) as [Hin Hle].
  destruct (Z.ltb_spec x z); (split; [set_solver|]); intros y; rewrite !elem_of_cons.
  - pose proof (Hle z (list_elem_of_here _ _)). intros [->|[->|Hy]]; [lia|done|].
    apply Hle. by right.
  - pose proof (Hle x (list_elem_of_here _ _)). intros [->|[->|Hy]]; [done|lia|].
    apply Hle. by right.
Qed.

(** The statistics of a distribution account for every key: the counts are
    those of the nodes of the ring, they sum to the number of keys, the count
    of a node is the number of keys [get_keys] gives it, and the extremes are
    attained bounds. *)
Theorem compute_distribution_accounts s keys st :
  NoDup (nodes (snap_state s)) → compute_distribution s keys = Ok st →
  total_keys st = Z.of_nat (length keys) ∧
  dkeys (keys_per_server st) = nodes (snap_state s) ∧
  total_weight (keys_per_server st) = total_keys st ∧
  (∀ node c, dget node (keys_per_server st) = Some c →
     rmap (λ ks, Z.of_nat (length ks)) (get_keys s node keys) = Ok c ∧
     min_keys st <= c <= max_keys st) ∧
  min_keys st ∈ dvalues (keys_per_server st) ∧ max_keys st ∈ dvalues (keys_per_server st).
Proof.
  intros Hnd. unfold compute_distribution.
  assert (dkeys ((λ node, (node, 0)) <$> nodes (snap_state s)) = nodes (snap_state s)) as Hkeys
    by (unfold dkeys; rewrite <- list_fmap_compose; apply list_fmap_id).
  assert (total_weight ((λ node, (node, 0)) <$> nodes (snap_state s)) = 0) as Hzero.
  { clear. induction (nodes (snap_state s)) as [|n ns IH]; [done|].
    rewrite fmap_cons, total_weight_cons. lia. }
  destruct ((λ node, (node, 0)) <$> nodes (snap_state s)) as [|kv0 d0] eqn:Hd; [done|].
  rewrite <- Hd in *. clear Hd.
  destruct (iter_assignments s keys) as [pairs|] eqn:Hit; [|done]. simpl.
  destruct (count_loop _ _ _) as [[counts total]|] eqn:Hloop; [|done]. simpl.
  apply count_loop_spec in Hloop as (Hk&->&Hsum&Hc); [|unfold dict_ok; by rewrite Hkeys].
  rewrite Hkeys in Hk. rewrite Hzero in Hsum.
  destruct (dvalues counts) as [|c0 cs] eqn:Hv; [done|]. intros [= <-]. simpl.
  assert (length pairs = length keys) as Hlen.
  { unfold iter_assignments in Hit. destruct (entries (snap_state s)); [done|].
    by apply mapR_Ok_inv, Forall2_length in Hit. }
  rewrite Hv. split; [lia|]. split; [done|]. split; [lia|].
  split; [|split; [apply min_list_spec|apply max_list_spec]].
  intros node c Hget. assert (node ∈ nodes (snap_state s)) as Hn.
  { rewrite <- Hk. apply dmem_spec, dmem_true. by eexists. }
  split.
  - unfold get_keys. rewrite decide_True by done. rewrite Hit. simpl. rewrite length_fmap.
    rewrite (Hc node 0) in Hget; [by simplify_eq/=|].
    apply dget_Some; [unfold dict_ok; by rewrite Hkeys|]. apply list_elem_of_fmap. by eexists.
  - assert (c ∈ c0 :: cs) as Hcin.
    { rewrite <- Hv. apply dget_Some_elem in Hget. apply list_elem_of_fmap. by eexists (_, _). }
    by split; [apply min_list_spec|apply max_list_spec].
Qed.

Lemma compute_distribution_accounts_witness :
  ∃ st, compute_distribution demo_before ["k1"; "k2"; "zz"; "k1"] = Ok st ∧
    total_keys st = 4 ∧ total_weight (keys_per_server st) = total_keys st.
Proof.
  assert (∃ x, compute_distribution demo_before ["k1"; "k2"; "zz"; "k1"] = Ok x) as [st E]
    by (eexists; vm_compute; reflexivity).
  exists st. split; [exact E|].
  destruct (compute_distribution_accounts demo_before ["k1"; "k2"; "zz"; "k1"] st) as (H1&_&H2&_).
  - simpl. repeat constructor; set_solver.
  - exact E.
  - split; [exact H1|exact H2].
Defined.
