(* ===== verification/VectorClock.v ===== *)
(** * Vector clocks

    Models src/key-value-store/src/kv_store/replication/vector_clock.py.  A clock
    carries its counters in a Python dictionary; the order it is meant to
    implement is the pointwise order of the counter functions, an absent node
    counting 0. *)
From S2P Require Import Prelude PyList PyDict.
Local Open Scope Z_scope.

Record VectorClock := mk_clock {
  _entries : dict string Z;
  _max_entries : Z;
}.

(** The first key of least value, as [min(d, key=...)] picks it. *)
Fixpoint min_key (best : string * Z) (d : dict string Z) : string * Z :=
  match d with
  | [] => best
  | kv :: d' => min_key (if kv.2 <? best.2 then kv else best) d'
  end.

(** [del] of the least entry; [min] of an empty dictionary would raise. *)
Definition prune (d : dict string Z) : result (dict string Z) :=
  match d with
  | [] => Raise ValueError
  | kv :: d' => Ok (ddel (min_key kv d').1 d)
  end.

Definition increment (c : VectorClock) (node_id : string) : result VectorClock :=
  let new_entries := dset node_id (dget_or 0 node_id (_entries c) + 1) (_entries c) in
  if _max_entries c <? Z.of_nat (length new_entries)
  then let* pruned := prune new_entries in Ok (mk_clock pruned (_max_entries c))
  else Ok (mk_clock new_entries (_max_entries c)).

Fixpoint merge_loop (other merged : dict string Z) : dict string Z :=
  match other with
  | [] => merged
  | (node_id, counter) :: other' =>
      merge_loop other' (dset node_id (Z.max (dget_or 0 node_id merged) counter) merged)
  end.

Definition merge (c other : VectorClock) : VectorClock :=
  mk_clock (merge_loop (_entries other) (_entries c)) (_max_entries c).

(** The loop over the other clock: [None] is the early [return False]. *)
Fixpoint dominates_loop (own other : dict string Z) (has_strictly_greater : bool) : option bool :=
  match other with
  | [] => Some has_strictly_greater
  | (node_id, other_counter) :: other' =>
      let self_counter := dget_or 0 node_id own in
      if self_counter <? other_counter then None
      else dominates_loop own other'
             (if other_counter <? self_counter then true else has_strictly_greater)
  end.

Definition dominates (c other : VectorClock) : bool :=
  match _entries c, _entries other with
  | [], [] => false
  | own, oth =>
      match dominates_loop own oth false with
      | None => false
      | Some greater => existsb (λ kv, negb (dmem kv.1 oth)) own || greater
      end
  end.

Definition clock_eqb (c other : VectorClock) : bool := dict_eqb (_entries c) (_entries other).

Definition conflicts_with (c other : VectorClock) : bool :=
  if clock_eqb c other then false else negb (dominates c other) && negb (dominates other c).

Definition to_dict (c : VectorClock) : dict string Z := _entries c.
Definition from_dict (data : dict string Z) (max_entries : Z) : VectorClock :=
  mk_clock data max_entries.

(** ** Specification *)

(** The counter of a node; the clocks the store builds have positive counters. *)
Definition counter (c : VectorClock) (node : string) : Z := dget_or 0 node (_entries c).

Definition clock_ok (c : VectorClock) : Prop :=
  dict_ok (_entries c) ∧ ∀ node n, dget node (_entries c) = Some n → 0 < n.

Definition clock_le (c d : VectorClock) : Prop := ∀ node, counter c node <= counter d node.
Definition clock_lt (c d : VectorClock) : Prop := clock_le c d ∧ ∃ node, counter c node < counter d node.

(** Equality of clocks up to the order of their dictionaries. *)
Definition clock_equiv (c d : VectorClock) : Prop := ∀ node, counter c node = counter d node.

#[export] Instance clock_equiv_equivalence : Equivalence clock_equiv.
Proof.
  split.
  - intros c node. done.
  - intros c d E node. by rewrite E.
  - intros c d e E1 E2 node. by rewrite E1.
Qed.

#[export] Instance clock_le_proper : Proper (clock_equiv ==> clock_equiv ==> iff) clock_le.
Proof.
  intros c c' Ec d d' Ed. split; intros Hle node.
  - rewrite <- Ec, <- Ed. apply Hle.
  - rewrite Ec, Ed. apply Hle.
Qed.

#[export] Instance clock_lt_proper : Proper (clock_equiv ==> clock_equiv ==> iff) clock_lt.
Proof.
  intros c c' Ec d d' Ed. unfold clock_lt. rewrite Ec, Ed.
  setoid_rewrite (λ node, Ec node). setoid_rewrite (λ node, Ed node). done.
Qed.

#[export] Instance clock_le_preorder : PreOrder clock_le.
Proof.
  split; [intros c node; lia|]. intros c d e H1 H2 node. specialize (H1 node). specialize (H2 node). lia.
Qed.

#[export] Instance clock_lt_strict : StrictOrder clock_lt.
Proof.
  split.
  - intros c [_ [node Hn]]. lia.
  - intros c d e [H1 [n Hn]] [H2 _]. split; [by etrans|]. exists n. specialize (H2 n). lia.
Qed.

Lemma counter_dget c node n : dget node (_entries c) = Some n → counter c node = n.
Proof. unfold counter, dget_or. by intros ->. Qed.

Lemma counter_nonneg c node : clock_ok c → 0 <= counter c node.
Proof.
  intros [_ Hpos]. unfold counter, dget_or.
  destruct (dget node (_entries c)) eqn:E; [apply Hpos in E; lia|lia].
Qed.

Lemma counter_pos c node : clock_ok c → 0 < counter c node ↔ dmem node (_entries c) = true.
Proof.
  intros [_ Hpos]. unfold counter, dget_or, dmem.
  destruct (dget node (_entries c)) eqn:E; [apply Hpos in E; split; [done|lia]|].
  split; [lia|done].
Qed.

Lemma clock_equiv_dict c d :
  clock_ok c → clock_ok d → clock_equiv c d ↔ dict_equiv (_entries c) (_entries d).
Proof.
  intros Hc Hd. split.
  - intros E node. specialize (E node). pose proof (counter_pos c node Hc) as H1.
    pose proof (counter_pos d node Hd) as H2. rewrite E in H1. unfold counter, dget_or, dmem in *.
    destruct (dget node (_entries c)), (dget node (_entries d)); try congruence;
      naive_solver.
  - intros E node. unfold counter, dget_or. by rewrite E.
Qed.

Lemma clock_eqb_spec c d : clock_ok c → clock_ok d → clock_eqb c d = true ↔ clock_equiv c d.
Proof.
  intros Hc Hd. unfold clock_eqb. rewrite dict_eqb_spec by (apply Hc || apply Hd).
  by rewrite clock_equiv_dict.
Qed.

(** ** Domination is the strict pointwise order *)

Lemma dominates_loop_spec own other acc :
  dominates_loop own other acc =
    if forallb (λ kv, kv.2 <=? dget_or 0 kv.1 own) other
    then Some (acc || existsb (λ kv, kv.2 <? dget_or 0 kv.1 own) other) else None.
Proof.
  revert acc. induction other as [|[n k] other IH]; intros acc; simpl; [by rewrite orb_false_r|].
  rewrite Z.ltb_antisym. destruct (k <=? dget_or 0 n own) eqn:E; simpl; [|done].
  rewrite IH. destruct (forallb _ other); [|done]. f_equal.
  destruct (k <? dget_or 0 n own), acc; simpl; auto using orb_true_r.
Qed.

Lemma clock_le_forall c d :
  clock_ok c → clock_ok d →
  clock_le d c ↔ ∀ kv, kv ∈ _entries d → kv.2 <= counter c kv.1.
Proof.
  intros Hc Hd. split.
  - intros Hle [n k] Hin. simpl. rewrite <- (Hle n). apply dget_Some in Hin; [|apply Hd].
    by rewrite (counter_dget _ _ _ Hin).
  - intros Hall n. unfold counter at 1, dget_or. destruct (dget n (_entries d)) as [k|] eqn:E.
    + apply dget_Some_elem in E. by apply (Hall (n, k)).
    + by apply counter_nonneg.
Qed.

Lemma dominates_spec c d : clock_ok c → clock_ok d → dominates c d = true ↔ clock_lt d c.
Proof.
  intros Hc Hd.
  assert (dominates c d =
    forallb (λ kv, kv.2 <=? counter c kv.1) (_entries d) &&
    (existsb (λ kv, negb (dmem kv.1 (_entries d))) (_entries c) ||
     existsb (λ kv, kv.2 <? counter c kv.1) (_entries d))) as ->.
  { unfold dominates, counter. destruct (_entries c) as [|kv own] eqn:E1, (_entries d) as [|kv' oth] eqn:E2;
      [done|..]; rewrite <- ?E1, <- ?E2, dominates_loop_spec; simpl;
      by destruct (forallb _ _). }
  rewrite andb_true_iff, orb_true_iff, forallb_elem, !existsb_elem. unfold clock_lt.
  rewrite clock_le_forall by done. setoid_rewrite Z.leb_le. split; intros [Hle Hex]; (split; [done|]).
  - destruct Hex as [([n k]&Hin&Hn)|([n k]&Hin&Hlt)]; simpl in *; exists n.
    + apply negb_true_iff, dmem_false in Hn. unfold counter at 1, dget_or. rewrite Hn.
      apply counter_pos; [done|]. apply dmem_spec, list_elem_of_fmap. by exists (n, k).
    + apply Z.ltb_lt in Hlt. apply dget_Some in Hin; [|apply Hd].
      by rewrite (counter_dget _ _ _ Hin).
  - destruct Hex as [n Hn]. destruct (dget n (_entries d)) as [k|] eqn:E.
    + right. exists (n, k). split; [by apply dget_Some_elem|]. simpl. apply Z.ltb_lt.
      by rewrite (counter_dget _ _ _ E) in Hn.
    + left. pose proof (counter_nonneg d n Hd).
      assert (dmem n (_entries c) = true) as Hm by (apply counter_pos; [done|lia]).
      apply dmem_true in Hm as [k Hk]. exists (n, k). split; [by apply dget_Some_elem|].
      simpl. by rewrite (proj2 (dmem_false n (_entries d)) E).
Qed.

(** ** Merge is the least upper bound *)

Lemma merge_loop_ok other merged : dict_ok merged → dict_ok (merge_loop other merged).
Proof.
  revert merged. induction other as [|[n k] other IH]; intros merged Hm; simpl; [done|].
  apply IH. by apply dset_ok.
Qed.

Lemma merge_loop_counter other merged node :
  dict_ok other → (∀ kv, kv ∈ other → 0 < kv.2) → 0 <= dget_or 0 node merged →
  dget_or 0 node (merge_loop other merged) =
    Z.max (dget_or 0 node merged) (dget_or 0 node other).
Proof.
  unfold dict_ok. revert merged. induction other as [|[n k] other IH]; intros merged Hok Hpos Hm; simpl.
  { unfold dget_or in *. simpl in *. lia. }
  apply NoDup_cons in Hok as [Hn Hok].
  assert (∀ kv, kv ∈ other → 0 < kv.2) as Hpos' by (intros kv Hkv; apply Hpos; by right).
  assert (0 < k) as Hk by (apply (Hpos (n, k)); left).
  rewrite dget_or_cons, IH; [|done|done|]; rewrite dget_or_dset; repeat case_decide; subst; try done.
  - rewrite (dget_or_absent 0 _ other) by done. lia.
  - lia.
Qed.

Lemma clock_ok_entries c kv : clock_ok c → kv ∈ _entries c → 0 < kv.2.
Proof. intros [Hok Hpos] Hin. destruct kv as [n k]. apply dget_Some in Hin; eauto. Qed.

Lemma merge_counter c d node :
  clock_ok c → clock_ok d → counter (merge c d) node = Z.max (counter c node) (counter d node).
Proof.
  intros Hc Hd. unfold counter. simpl. apply merge_loop_counter; [apply Hd|..].
  - intros kv. by apply clock_ok_entries.
  - by apply counter_nonneg.
Qed.

Lemma merge_loop_pos other merged node n :
  (∀ kv, kv ∈ other → 0 < kv.2) → (∀ node n, dget node merged = Some n → 0 < n) →
  dget node (merge_loop other merged) = Some n → 0 < n.
Proof.
  revert merged. induction other as [|[n' k] other IH]; intros merged Hpos Hm; simpl; [apply Hm|].
  apply IH; [intros kv Hkv; apply Hpos; by right|]. intros node' m. rewrite dget_dset.
  case_decide; [|apply Hm]. intros [= <-]. pose proof (Hpos (n', k) (list_elem_of_here _ _)).
  simpl in *. lia.
Qed.

Lemma merge_ok c d : clock_ok c → clock_ok d → clock_ok (merge c d).
Proof.
  intros Hc Hd. split; [by apply merge_loop_ok, Hc|]. intros node n. apply merge_loop_pos.
  - intros kv. by apply clock_ok_entries.
  - apply Hc.
Qed.

(** ** Increment *)

Lemma min_key_spec best d :
  min_key best d ∈ best :: d ∧ ∀ kv, kv ∈ best :: d → (min_key best d).2 <= kv.2.
Proof.
  revert best. induction d as [|kv d IH]; intros best; simpl.
  { split; [left|]. intros kv ->%list_elem_of_singleton. done. }
  destruct (IH (if kv.2 <? best.2 then kv else best)) as [Hin Hle].
  destruct (Z.ltb_spec kv.2 best.2); (split; [set_solver|]); intros kv'; rewrite !elem_of_cons.
  - pose proof (Hle kv (list_elem_of_here _ _)). intros [->|[->|Hy]]; [lia|done|].
    apply Hle. by right.
  - pose proof (Hle best (list_elem_of_here _ _)). intros [->|[->|Hy]]; [done|lia|].
    apply Hle. by right.
Qed.

(** Pruning removes one entry of least counter. *)
Lemma prune_spec d :
  dict_ok d → d ≠ [] →
  ∃ node n, dget node d = Some n ∧ (∀ node' n', dget node' d = Some n' → n <= n') ∧
    prune d = Ok (ddel node d).
Proof.
  intros Hok Hne. destruct d as [|kv d]; [done|].
  destruct (min_key_spec kv d) as [Hin Hle]. simpl prune.
  destruct (min_key kv d) as [node n]. exists node, n. split; [by apply dget_Some|].
  split; [|done]. intros node' n' Hget%dget_Some_elem. by apply (Hle (node', n')).
Qed.

Lemma dset_ne_nil {K V} `{EqDecision K} k (v : V) (d : dict K V) : dset k v d ≠ [].
Proof. destruct d as [|[k' v'] d]; simpl; [done|]. by case_decide. Qed.

Lemma increment_pos c node node' n :
  clock_ok c → dget node' (dset node (counter c node + 1) (_entries c)) = Some n → 0 < n.
Proof.
  intros Hc. rewrite dget_dset. case_decide; [|apply Hc]. intros [= <-].
  pose proof (counter_nonneg c node Hc). lia.
Qed.

(** [increment] without pruning, and with it. *)
Lemma increment_cases c node :
  clock_ok c →
  (Z.of_nat (length (dset node (counter c node + 1) (_entries c))) <= _max_entries c ∧
   increment c node = Ok (mk_clock (dset node (counter c node + 1) (_entries c)) (_max_entries c)))
  ∨ ∃ victim n,
   _max_entries c < Z.of_nat (length (dset node (counter c node + 1) (_entries c))) ∧
   dget victim (dset node (counter c node + 1) (_entries c)) = Some n ∧
   (∀ node' n', dget node' (dset node (counter c node + 1) (_entries c)) = Some n' → n <= n') ∧
   increment c node = Ok (mk_clock
     (ddel victim (dset node (counter c node + 1) (_entries c))) (_max_entries c)).
Proof.
  intros Hc. unfold increment, counter.
  destruct (Z.ltb_spec (_max_entries c)
    (Z.of_nat (length (dset node (dget_or 0 node (_entries c) + 1) (_entries c))))) as [Hlt|Hle].
  - right. destruct (prune_spec (dset node (dget_or 0 node (_entries c) + 1) (_entries c)))
      as (victim&n&H1&H2&->); [by apply dset_ok, Hc|apply dset_ne_nil|].
    by exists victim, n.
  - left. by split.
Qed.

(** In a finite collection of clocked items every item is maximal or below a
    maximal one: the items above it are finitely many. *)
Lemma clock_maximal_above {A} (clk : A → VectorClock) (l : list A) v :
  (∀ x, x ∈ l → clock_ok (clk x)) → v ∈ l →
  ∃ u, u ∈ l ∧ (∀ w, w ∈ l → ¬ clock_lt (clk u) (clk w)) ∧ (v = u ∨ clock_lt (clk v) (clk u)).
Proof.
  intros Hok. remember (length (filter (λ u, dominates (clk u) (clk v) = true) l)) as n eqn:Hn.
  revert v Hn. induction (lt_wf n) as [n _ IH]. intros v Hn Hv.
  destruct (filter (λ u, dominates (clk u) (clk v) = true) l) as [|u us] eqn:E.
  - exists v. split; [done|]. split; [|by left]. intros u Hu Hlt.
    assert (u ∈ filter (λ u, dominates (clk u) (clk v) = true) l) as Hf.
    { apply list_elem_of_filter. split; [|done]. apply dominates_spec; auto. }
    rewrite E in Hf. set_solver.
  - assert (u ∈ l ∧ clock_lt (clk v) (clk u)) as [Hu Hlt].
    { assert (u ∈ filter (λ u, dominates (clk u) (clk v) = true) l) as Hf
        by (rewrite E; left).
      apply list_elem_of_filter in Hf as [Hd Hu]. split; [done|].
      apply dominates_spec; auto. }
    destruct (IH (length (filter (λ w, dominates (clk w) (clk u) = true) l))) with (v := u)
      as (w&Hw&Hmax&Huw); [|done|done|].
    + rewrite Hn, <- E. apply filter_length_lt with (x := u); [done|by apply dominates_spec; auto|..].
      * intros Hd%dominates_spec; [|auto..]. by apply (irreflexivity clock_lt (clk u)).
      * intros w Hw Hd%dominates_spec; [|auto..]. apply dominates_spec; [auto..|]. by etrans.
    + exists w. split; [done|]. split; [done|]. right.
      destruct Huw as [->|Huw]; [done|by etrans].
Qed.

(** Concrete clocks for the witnesses. *)
Definition demo_clock_a : VectorClock := mk_clock [("n1", 2); ("n2", 1)] 2.
Definition demo_clock_b : VectorClock := mk_clock [("n1", 1); ("n3", 4)] 2.

Lemma demo_clock_a_ok : clock_ok demo_clock_a.
Proof.
  split; [unfold dict_ok; simpl; repeat constructor; set_solver|].
  intros node n. simpl. repeat case_decide; intros [= <-]; lia.
Qed.

Lemma demo_clock_b_ok : clock_ok demo_clock_b.
Proof.
  split; [unfold dict_ok; simpl; repeat constructor; set_solver|].
  intros node n. simpl. repeat case_decide; intros [= <-]; lia.
Qed.

(** At its bound a clock whose counters all exceed 1 loses the entry it has just
    gained: the incremented clock is the clock itself, and not newer. *)
Example increment_prunes_itself :
  let c := mk_clock [("n1", 2); ("n2", 3)] 2 in
  rmap _entries (increment c "n3") = Ok (_entries c) ∧
  rmap (λ c', dominates c' c) (increment c "n3") = Ok false.
Proof. vm_compute. done. Qed.

(** An explicit zero counter of a node the other clock does not list counts as
    strictly greater, so two clocks can dominate each other. *)
Example zero_counters_dominate_mutually :
  dominates (mk_clock [("n1", 0)] 10) (mk_clock [("n2", 0)] 10) = true ∧
  dominates (mk_clock [("n2", 0)] 10) (mk_clock [("n1", 0)] 10) = true.
Proof. vm_compute. done. Qed.

(** For clocks with positive counters, [dominates] decides the strict
    pointwise order of the counters, [conflicts_with] holds exactly of
    incomparable clocks, and [==] is equality of the counter functions. *)
Theorem dominates_decides_order c d :
  clock_ok c → clock_ok d →
  (dominates c d = true ↔ clock_lt d c) ∧
  (conflicts_with c d = true ↔ ¬ clock_le c d ∧ ¬ clock_le d c) ∧
  (clock_eqb c d = true ↔ clock_equiv c d).
Proof.
  intros Hc Hd. split; [by apply dominates_spec|]. split; [|by apply clock_eqb_spec].
  assert (∀ c d, clock_ok c → clock_ok d → clock_le d c → clock_lt d c ∨ clock_equiv c d) as Hcase.
  { clear. intros c d Hc Hd Hle. destruct (dominates c d) eqn:E; [left; by apply dominates_spec|].
    right. intros n. specialize (Hle n) as Hn. destruct (decide (counter c n = counter d n)); [done|].
    exfalso. apply not_true_iff_false in E. apply E, dominates_spec; [done..|].
    split; [done|]. exists n. lia. }
  unfold conflicts_with. destruct (clock_eqb c d) eqn:E.
  { apply clock_eqb_spec in E; [|done..]. split; [done|]. intros [Hn _]. exfalso. apply Hn.
    intros n. by rewrite E. }
  rewrite andb_true_iff, !negb_true_iff, <- !not_true_iff_false, !dominates_spec by done.
  apply not_true_iff_false in E. rewrite clock_eqb_spec in E by done.
  split; intros [H1 H2]; (split; [intros H3|intros H3]).
  - destruct (Hcase d c Hd Hc H3) as [|Heq]; [done|]. apply E. intros n. by rewrite Heq.
  - by destruct (Hcase c d Hc Hd H3).
  - apply H2, H3.
  - apply H1, H3.
Qed.

Lemma dominates_decides_order_witness :
  conflicts_with demo_clock_a demo_clock_b = true ∧
  ¬ clock_le demo_clock_a demo_clock_b ∧ ¬ clock_le demo_clock_b demo_clock_a.
Proof.
  split; [vm_compute; reflexivity|].
  apply (dominates_decides_order demo_clock_a demo_clock_b demo_clock_a_ok demo_clock_b_ok).
  vm_compute. reflexivity.
Defined.

(** [merge] is the least upper bound: its counters are the pointwise maxima,
    both clocks are below it, and it is below every common upper bound. *)
Theorem merge_least_upper_bound c d :
  clock_ok c → clock_ok d →
  clock_ok (merge c d) ∧ clock_le c (merge c d) ∧ clock_le d (merge c d) ∧
  (∀ e, clock_le c e → clock_le d e → clock_le (merge c d) e) ∧
  clock_equiv (merge c d) (merge d c).
Proof.
  intros Hc Hd. split; [by apply merge_ok|].
  split; [|split; [|split]].
  - intros n. rewrite merge_counter by done. lia.
  - intros n. rewrite merge_counter by done. lia.
  - intros e H1 H2 n. rewrite merge_counter by done. specialize (H1 n). specialize (H2 n). lia.
  - intros n. rewrite !merge_counter by done. lia.
Qed.

Lemma merge_least_upper_bound_witness :
  clock_ok (merge demo_clock_a demo_clock_b) ∧
  clock_le demo_clock_a (merge demo_clock_a demo_clock_b).
Proof.
  destruct (merge_least_upper_bound demo_clock_a demo_clock_b demo_clock_a_ok demo_clock_b_ok)
    as (H1&H2&_).
  split; [exact H1|exact H2].
Defined.

(** [increment] on a clock within its bound: while the bound leaves room
    the result strictly dominates the clock; when it does not, exactly one
    entry of least counter is dropped, the size stays at the bound, and every
    other counter is that of the incremented clock. *)
Theorem increment_bounded c node :
  clock_ok c → Z.of_nat (length (_entries c)) <= _max_entries c →
  ∃ c', increment c node = Ok c' ∧ clock_ok c' ∧ _max_entries c' = _max_entries c ∧
    Z.of_nat (length (_entries c')) <= _max_entries c ∧
    if dmem node (_entries c) || (Z.of_nat (length (_entries c)) <? _max_entries c)
    then dominates c' c = true ∧ counter c' node = counter c node + 1 ∧
         ∀ node', node' ≠ node → counter c' node' = counter c node'
    else ∃ victim, counter c' victim = 0 ∧
      (∀ node', node' ≠ victim → node' ≠ node → counter c' node' = counter c node') ∧
      (victim ≠ node → counter c' node = 1 ∧ counter c victim = 1).
Proof.
  intros Hc Hlen. set (d := dset node (counter c node + 1) (_entries c)).
  assert (Hd : dict_ok d) by (by apply dset_ok, Hc).
  assert (Z.of_nat (length d) = if dmem node (_entries c) then Z.of_nat (length (_entries c))
    else Z.of_nat (length (_entries c)) + 1) as Hld.
  { unfold d. rewrite dset_length. destruct (dmem _ _); lia. }
  assert (∀ node', dget_or 0 node' d = if decide (node = node') then counter c node + 1
    else counter c node') as Hcnt by (intros node'; unfold d; by rewrite dget_or_dset).
  assert (clock_ok (mk_clock d (_max_entries c))) as Hok.
  { split; [done|]. intros node' n. by apply increment_pos. }
  pose proof (increment_cases c node Hc) as Hcases. fold d in Hcases.
  destruct Hcases as [[Hle Heq]|(victim&n&Hlt&Hv&Hmin&Heq)].
  - rewrite Heq. eexists. split; [done|]. split; [done|]. split; [done|]. split; [done|].
    assert (dmem node (_entries c) || (Z.of_nat (length (_entries c)) <? _max_entries c) = true)
      as -> by (destruct (dmem node (_entries c)); simpl; [done|lia]).
    split; [|split].
    + apply dominates_spec; [done..|]. split.
      * intros n. unfold counter at 2. simpl. rewrite Hcnt. case_decide; subst; lia.
      * exists node. unfold counter at 2. simpl. rewrite Hcnt, decide_True by done. lia.
    + unfold counter at 1. simpl. by rewrite Hcnt, decide_True.
    + intros n Hn. unfold counter at 1. simpl. by rewrite Hcnt, decide_False.
  - rewrite Heq. eexists. split; [done|]. destruct (dmem node (_entries c)) eqn:Hm; [lia|].
    assert (∀ m, counter (mk_clock (ddel victim d) (_max_entries c)) m =
      if decide (victim = m) then 0 else dget_or 0 m d) as Hdel.
    { intros m. unfold counter, dget_or. simpl. rewrite dget_ddel by done. by case_decide. }
    split; [|split; [done|split]].
    + split; [by apply ddel_ok|]. intros m k. simpl. rewrite dget_ddel by done.
      case_decide; [done|apply Hok].
    + simpl. rewrite ddel_length. unfold dmem. rewrite Hv. lia.
    + rewrite (proj2 (Z.ltb_ge _ _)) by lia. simpl. exists victim. split; [|split].
      * by rewrite Hdel, decide_True.
      * intros m Hm1 Hm2. by rewrite Hdel, Hcnt, !decide_False.
      * intros Hne. rewrite Hdel, Hcnt, decide_False, decide_True by done.
        apply dmem_false in Hm. assert (counter c node = 0) as H0
          by (unfold counter, dget_or; by rewrite Hm).
        split; [lia|].
        pose proof (Hmin node 1) as Hn1. unfold d in Hn1 at 1. rewrite dget_dset_eq, H0 in Hn1.
        specialize (Hn1 eq_refl). unfold d in Hv. rewrite dget_dset_ne in Hv by done.
        pose proof (proj2 Hc _ _ Hv). rewrite (counter_dget _ _ _ Hv). lia.
Qed.

Lemma increment_bounded_witness :
  ∃ c', increment demo_clock_a "n1" = Ok c' ∧ dominates c' demo_clock_a = true.
Proof.
  destruct (increment_bounded demo_clock_a "n1" demo_clock_a_ok ltac:(simpl; lia))
    as (c'&H1&_&_&_&H2&_).
  exists c'. split; [exact H1|exact H2].
Defined.
