(* ===== verification/Records.v ===== *)
(** * Sibling reconciliation

    Models [Version] and [reconcile] of
    src/key-value-store/src/kv_store/replication/records.py.  Timestamps are any
    totally ordered type (the code keeps finite floats). *)
From S2P Require Import Prelude PyList PyDict VectorClock.

Definition bytes : Type := list Z.

Section records.
Context {T : Type} `{PyOrd T}.

Record Version := mk_version {
  value : option bytes;
  clock : VectorClock;
  timestamp : T;
}.
Implicit Types (v u : Version) (l : list Version).

(** The deduplication key: the value and the sorted items of the clock. *)
Definition identity v : option bytes * list (string * Z) :=
  (value v, py_sorted (to_dict (clock v))).

Fixpoint dedup l (unique : dict (option bytes * list (string * Z)) Version)
    : dict (option bytes * list (string * Z)) Version :=
  match l with
  | [] => unique
  | version :: l' =>
      dedup l' (match dget (identity version) unique with
                | None => dset (identity version) version unique
                | Some previous =>
                    if pylt (timestamp previous) (timestamp version)
                    then dset (identity version) version unique else unique
                end)
  end.

Definition reconcile l : list Version :=
  let candidates := dvalues (dedup l []) in
  filter (λ v, existsb (λ other, dominates (clock other) (clock v)) candidates = false) candidates.

(** ** Deduplication keeps the newest version of every identity *)

Definition unique_inv l (unique : dict (option bytes * list (string * Z)) Version) : Prop :=
  dict_ok unique ∧
  (∀ i v, dget i unique = Some v → identity v = i ∧ v ∈ l) ∧
  (∀ v, v ∈ l → ∃ u, dget (identity v) unique = Some u ∧ pyle (timestamp v) (timestamp u) = true).

Lemma unique_inv_dset l v unique :
  unique_inv l unique →
  (∀ u, dget (identity v) unique = Some u → pyle (timestamp u) (timestamp v) = true) →
  unique_inv (l ++ [v]) (dset (identity v) v unique).
Proof.
  intros (Hok&Hin&Hnew) Hv. split; [by apply dset_ok|]. split.
  - intros i u. rewrite dget_dset. case_decide as E; [intros [= <-]|intros [? ?]%Hin];
      set_solver.
  - intros u Hu. rewrite dget_dset. case_decide as E.
    + exists v. split; [done|]. apply elem_of_app in Hu as [Hu|Hu]; [|set_solver].
      destruct (Hnew u Hu) as (w&Hw&Hle). rewrite <- E in Hw. eapply pyle_trans; [done|auto].
    + apply Hnew. set_solver.
Qed.

Lemma dedup_inv l l0 unique : unique_inv l0 unique → unique_inv (l0 ++ l) (dedup l unique).
Proof.
  revert l0 unique. induction l as [|v l IH]; intros l0 unique Hinv; simpl.
  { by rewrite app_nil_r. }
  replace (l0 ++ v :: l) with ((l0 ++ [v]) ++ l) by (by rewrite <- app_assoc). apply IH.
  destruct (dget (identity v) unique) as [u|] eqn:E.
  - destruct (pylt (timestamp u) (timestamp v)) eqn:Ht.
    + apply unique_inv_dset; [done|]. intros w Hw. simplify_eq. by apply pylt_le.
    + apply pylt_false in Ht. destruct Hinv as (Hok&Hin&Hnew). split; [done|]. split.
      * intros i w Hw. apply Hin in Hw. set_solver.
      * intros w Hw. apply elem_of_app in Hw as [Hw|Hw]; [by apply Hnew|].
        apply list_elem_of_singleton in Hw as ->. eauto.
  - apply unique_inv_dset; [done|]. congruence.
Qed.

Lemma unique_inv_nil : unique_inv [] [].
Proof. split; [apply dict_nil_ok|]. split; [done|]. set_solver. Qed.

Definition candidates l : list Version := dvalues (dedup l []).

Lemma candidates_elem l v :
  v ∈ candidates l ↔ dget (identity v) (dedup l []) = Some v.
Proof.
  destruct (dedup_inv l [] [] unique_inv_nil) as (Hok&Hin&_). unfold candidates, dvalues.
  rewrite list_elem_of_fmap. split.
  - intros ([i u]&->&Hi). apply dget_Some in Hi; [|done]. pose proof (Hin _ _ Hi) as [<- _]. done.
  - intros Hv%dget_Some_elem. by eexists (_, _).
Qed.

Lemma candidates_sub l v : v ∈ candidates l → v ∈ l.
Proof.
  intros Hv%candidates_elem. destruct (dedup_inv l [] [] unique_inv_nil) as (_&Hin&_).
  by apply Hin in Hv as [_ ?].
Qed.

Lemma candidates_newest l v :
  v ∈ l → ∃ u, u ∈ candidates l ∧ identity u = identity v ∧
    pyle (timestamp v) (timestamp u) = true.
Proof.
  intros Hv. destruct (dedup_inv l [] [] unique_inv_nil) as (_&Hin&Hnew).
  destruct (Hnew v Hv) as (u&Hu&Hle). exists u. pose proof (Hin _ _ Hu) as [E _].
  split; [|done]. by rewrite candidates_elem, E.
Qed.

Lemma candidates_NoDup l : NoDup (identity <$> candidates l).
Proof.
  destruct (dedup_inv l [] [] unique_inv_nil) as (Hok&Hin&_).
  assert (identity <$> candidates l = dkeys (dedup l [])) as ->; [|done].
  unfold candidates, dvalues, dkeys. rewrite <- list_fmap_compose. apply list_fmap_ext.
  intros j [i u] Hj. simpl. apply list_elem_of_lookup_2, dget_Some in Hj; [|done].
  by apply Hin in Hj as [-> _].
Qed.

(** ** The siblings are the maximal versions *)

Definition versions_ok l : Prop := ∀ v, v ∈ l → clock_ok (clock v).

(** No version of [l] is causally newer than [v]. *)
Definition maximal l v : Prop := ∀ u, u ∈ l → ¬ clock_lt (clock v) (clock u).

Lemma identity_clock v u :
  clock_ok (clock v) → clock_ok (clock u) → identity v = identity u →
  clock_equiv (clock v) (clock u).
Proof.
  intros Hv Hu E. injection E as _ E. unfold to_dict in E. apply clock_equiv_dict; [done..|].
  assert (_entries (clock v) ≡ₚ _entries (clock u)) as Hp.
  { rewrite <- (py_sorted_perm (_entries (clock v))), E. apply py_sorted_perm. }
  intros n. apply option_eq. intros k. rewrite !dget_Some by (apply Hv || apply Hu).
  by rewrite Hp.
Qed.

Lemma reconcile_elem l v :
  versions_ok l → v ∈ reconcile l ↔ v ∈ candidates l ∧ maximal l v.
Proof.
  intros Hok. unfold reconcile. fold (candidates l). rewrite list_elem_of_filter, existsb_false.
  split.
  - intros [Hmax Hv]. split; [done|]. intros u Hu Hlt.
    destruct (candidates_newest l u Hu) as (w&Hw&Hid&_).
    apply identity_clock in Hid; [|apply Hok; by eauto using candidates_sub..].
    rewrite <- Hid in Hlt. apply dominates_spec in Hlt;
      [|apply Hok; by eauto using candidates_sub..].
    by rewrite Hmax in Hlt.
  - intros [Hv Hmax]. split; [|done]. intros u Hu. apply not_true_iff_false.
    intros Hd%dominates_spec; [|apply Hok; by eauto using candidates_sub..].
    eapply Hmax; [|exact Hd]. by apply candidates_sub.
Qed.

Lemma maximal_above l v :
  versions_ok l → v ∈ l →
  ∃ u, u ∈ l ∧ maximal l u ∧ (v = u ∨ clock_lt (clock v) (clock u)).
Proof. apply (clock_maximal_above clock). Qed.

Lemma reconcile_identity l i :
  versions_ok l →
  i ∈ identity <$> reconcile l ↔ ∃ v, v ∈ l ∧ identity v = i ∧ maximal l v.
Proof.
  intros Hok. rewrite list_elem_of_fmap. split.
  - intros (v&->&[Hv Hmax]%reconcile_elem); [|done]. exists v.
    eauto using candidates_sub.
  - intros (v&Hv&<-&Hmax). destruct (candidates_newest l v Hv) as (u&Hu&Hid&_).
    exists u. split; [done|]. apply reconcile_elem; [done|]. split; [done|].
    intros w Hw Hlt. apply (Hmax w Hw).
    apply identity_clock in Hid; [|apply Hok; by eauto using candidates_sub..].
    by rewrite <- Hid.
Qed.

Lemma reconcile_NoDup l : NoDup (identity <$> reconcile l).
Proof.
  unfold reconcile. fold (candidates l).
  apply NoDup_fmap_filter, candidates_NoDup.
Qed.

Lemma reconcile_ok l : versions_ok l → versions_ok (reconcile l).
Proof. intros Hok v [Hv _]%reconcile_elem; [|done]. apply Hok. by apply candidates_sub. Qed.

(** Every version is represented by a sibling or causally followed by one. *)
Lemma reconcile_covers l v :
  versions_ok l → v ∈ l → ∃ s, s ∈ reconcile l ∧
    ((identity s = identity v ∧ pyle (timestamp v) (timestamp s) = true) ∨
     clock_lt (clock v) (clock s)).
Proof.
  intros Hok Hv. destruct (maximal_above l v Hok Hv) as (u&Hu&Hmax&Hvu).
  destruct (candidates_newest l u Hu) as (s&Hs&Hid&Hle).
  pose proof (identity_clock s u (Hok _ (candidates_sub _ _ Hs)) (Hok _ Hu) Hid) as Heq.
  exists s. split.
  - apply reconcile_elem; [done|]. split; [done|]. intros w Hw. rewrite Heq. by apply Hmax.
  - destruct Hvu as [->|Hlt]; [by left|right; by rewrite Heq].
Qed.

Lemma reconcile_sub l v : versions_ok l → v ∈ reconcile l → v ∈ l.
Proof. intros Hok [Hv _]%reconcile_elem; [|done]. by apply candidates_sub. Qed.

Lemma maximal_reconcile_app l1 l2 v :
  versions_ok (l1 ++ l2) → maximal (reconcile l1 ++ l2) v ↔ maximal (l1 ++ l2) v.
Proof.
  intros Hok. assert (versions_ok l1) as Hok1 by (intros u Hu; apply Hok; set_solver).
  split; intros Hmax u [Hu|Hu]%elem_of_app Hlt.
  - destruct (reconcile_covers l1 u Hok1 Hu) as (s&Hs&Hus).
    apply (Hmax s); [set_solver|]. destruct Hus as [[Hid _]|Hus]; [|by etrans].
    rewrite (identity_clock s u); [done|..|done]; apply Hok1; [by apply reconcile_sub|done].
  - apply (Hmax u); [set_solver|done].
  - apply (Hmax u); [|done]. apply reconcile_sub in Hu; [set_solver|done].
  - apply (Hmax u); [set_solver|done].
Qed.
End records.

(** [reconcile] keeps causal siblings: no version twice, every sibling an
    input that no input causally follows, and every input either accounted for
    by a sibling with its value and clock and a timestamp at least as new, or
    causally followed by a sibling. *)
Theorem reconcile_siblings {T} `{PyOrd T} (l : list (@Version T)) :
  versions_ok l →
  NoDup (identity <$> reconcile l) ∧
  (∀ v, v ∈ reconcile l → v ∈ l ∧ ∀ u, u ∈ l → ¬ clock_lt (clock v) (clock u)) ∧
  ∀ v, v ∈ l → ∃ s, s ∈ reconcile l ∧
    ((value s = value v ∧ clock_equiv (clock s) (clock v) ∧
      pyle (timestamp v) (timestamp s) = true) ∨
     clock_lt (clock v) (clock s)).
Proof.
  intros Hok. split; [apply reconcile_NoDup|]. split.
  - intros v [Hv Hmax]%reconcile_elem; [|done]. split; [by apply candidates_sub|done].
  - intros v Hv. destruct (reconcile_covers l v Hok Hv) as (s&Hs&Hvs). exists s.
    split; [done|]. destruct Hvs as [[Hid Hle]|Hlt]; [left|by right].
    split; [by injection Hid|]. split; [|done]. apply identity_clock; [|by apply Hok|done].
    apply Hok. by apply reconcile_sub.
Qed.

(** Replicas converge: the siblings do not depend on the order of the
    versions, and reconciling in two steps, as successive merges do, keeps the
    same siblings as reconciling everything at once. *)
Theorem reconcile_converges {T} `{PyOrd T} (l l1 l2 : list (@Version T)) :
  versions_ok l → l ≡ₚ l1 ++ l2 →
  identity <$> reconcile l ≡ₚ identity <$> reconcile (reconcile l1 ++ l2).
Proof.
  intros Hok Hp.
  assert (versions_ok (l1 ++ l2)) as Hok12 by (intros v Hv; apply Hok; by rewrite Hp).
  assert (versions_ok l1) as Hok1 by (intros v Hv; apply Hok12; set_solver).
  assert (versions_ok (reconcile l1 ++ l2)) as Hok2.
  { intros v [Hv|Hv]%elem_of_app; [by apply (reconcile_ok l1)|apply Hok12; set_solver]. }
  apply NoDup_Permutation; [apply reconcile_NoDup..|]. intros i.
  rewrite !reconcile_identity by done.
  assert (∀ v, maximal l v ↔ maximal (l1 ++ l2) v) as Hperm
    by (intros v; unfold maximal; by setoid_rewrite Hp).
  setoid_rewrite Hperm. setoid_rewrite (maximal_reconcile_app l1 l2); [|done].
  setoid_rewrite Hp. setoid_rewrite elem_of_app. split.
  - intros (v&[Hv|Hv]&<-&Hmax); [|by eauto].
    destruct (reconcile_covers l1 v Hok1 Hv) as (s&Hs&[[Hid _]|Hlt]).
    + exists s. split; [by left|]. split; [done|]. intros u Hu.
      rewrite (identity_clock s v); [by apply Hmax|..|done]; apply Hok1; [|done].
      by apply reconcile_sub.
    + exfalso. apply (Hmax s); [|done]. apply elem_of_app. left. by apply reconcile_sub.
  - intros (v&[Hv|Hv]&<-&Hmax); [|by eauto]. exists v. split; [left|by split].
    by apply reconcile_sub.
Qed.

(** Concrete versions for the witnesses: two concurrent writes, one of them also
    read with an older timestamp, and a version both follow. *)
Definition demo_versions : list (@Version Z) :=
  [mk_version (Some [1%Z]) demo_clock_a 5%Z; mk_version None demo_clock_b 6%Z;
   mk_version (Some [1%Z]) demo_clock_a 9%Z;
   mk_version (Some [7%Z]) (mk_clock [("n1", 1%Z)] 2) 1%Z].

Lemma demo_versions_ok : versions_ok demo_versions.
Proof.
  intros v Hv. unfold demo_versions in Hv. rewrite !elem_of_cons in Hv.
  destruct Hv as [->|[->|[->|[->|Hv]]]]; simpl; try apply demo_clock_a_ok;
    try apply demo_clock_b_ok; [|set_solver].
  split; [unfold dict_ok; simpl; repeat constructor; set_solver|].
  intros node n. simpl. case_decide; intros [= <-]; lia.
Qed.

Lemma reconcile_siblings_witness :
  length (reconcile demo_versions) = 2 ∧ NoDup (identity <$> reconcile demo_versions).
Proof.
  split; [vm_compute; reflexivity|].
  exact (proj1 (reconcile_siblings demo_versions demo_versions_ok)).
Defined.

Lemma reconcile_converges_witness :
  identity <$> reconcile demo_versions ≡ₚ
    identity <$> reconcile (reconcile (take 2 demo_versions) ++ drop 2 demo_versions).
Proof.
  apply (reconcile_converges demo_versions (take 2 demo_versions) (drop 2 demo_versions)).
  - exact demo_versions_ok.
  - reflexivity.
Defined.
