(* ===== verification/Coordinator.v ===== *)
(** * Replica placement, quorums and coordinated reads

    Models src/key-value-store/src/kv_store/cluster/placement.py, the quorum
    arithmetic of replication/quorum.py and, from replication/coordinator.py, the
    choice of replicas and the resolution of the values a read collects.  A ring
    is used through the interface [PreferenceRing], which the consistent-hash
    ring and the placement built on top of it both implement.  The concurrent
    calls of a quorum are represented by the outcome each replica produced. *)
From S2P Require Import Prelude PyList PyDict Ring VectorClock.
Local Open Scope Z_scope.

(** ** The ring interface *)

Class PreferenceRing (R : Type) := {
  pr_ok : R → Prop;
  pr_nodes : R → list string;
  pr_get_nodes : R → string → Z → result (list string);
  pr_order : ∀ r key, pr_ok r → ∃ order, order ≡ₚ pr_nodes r ∧ NoDup order ∧
    ∀ count, 0 <= count → pr_get_nodes r key count = Ok (take (Z.to_nat count) order);
}.

#[export] Program Instance ring_preference : PreferenceRing ConsistentHashRing := {|
  pr_ok r := ∃ h w, represents h r w ∧ w ≠ [];
  pr_nodes r := nodes (_state r);
  pr_get_nodes r := get_nodes (snapshot r);
|}.
Next Obligation.
  intros r key (h&w&Hr&Hw). destruct (preference_order h r w key Hr Hw) as (order&H1&H2&_&H3&_).
  by exists order.
Qed.

(** ** Placement: distinct data centers first *)

Section placement.
Context {R : Type} `{PreferenceRing R}.

Record ReplicaPlacement := mk_placement {
  _ring : R;
  _data_centers : dict string string;
}.

Definition domain_of (p : ReplicaPlacement) (node : string) : string :=
  dget_or "" node (_data_centers p).

Fixpoint spread (dom : string → string) (order diverse remaining seen : list string)
    : list string * list string :=
  match order with
  | [] => (diverse, remaining)
  | node :: order' =>
      if decide (dom node ∈ seen) then spread dom order' diverse (remaining ++ [node]) seen
      else spread dom order' (diverse ++ [node]) remaining (dom node :: seen)
  end.

Definition placement_get_nodes (p : ReplicaPlacement) (key : string) (count : Z)
    : result (list string) :=
  let* order := pr_get_nodes (_ring p) key (Z.of_nat (length (pr_nodes (_ring p)))) in
  let dr := spread (domain_of p) order [] [] [] in
  Ok (slice_to count (dr.1 ++ dr.2)).

Lemma spread_perm dom order diverse remaining seen :
  (spread dom order diverse remaining seen).1 ++ (spread dom order diverse remaining seen).2
    ≡ₚ (diverse ++ remaining) ++ order.
Proof.
  revert diverse remaining seen. induction order as [|n order IH]; intros; simpl.
  { by rewrite app_nil_r. }
  case_decide; rewrite IH, <- !app_assoc; [done|]. f_equiv. simpl. apply Permutation_middle.
Qed.

(** The diverse part has one node per domain, in the order the domains appear. *)
Lemma spread_diverse dom order diverse remaining seen :
  NoDup (dom <$> diverse) → (∀ x, x ∈ seen ↔ x ∈ dom <$> diverse) →
  NoDup (dom <$> (spread dom order diverse remaining seen).1) ∧
  ∀ n, n ∈ diverse ∨ n ∈ order → dom n ∈ dom <$> (spread dom order diverse remaining seen).1.
Proof.
  revert diverse remaining seen. induction order as [|n order IH]; intros d r s Hnd Hseen; simpl.
  { split; [done|]. intros x [Hx|Hx]; [by apply list_elem_of_fmap_2|set_solver]. }
  case_decide as Hs.
  - destruct (IH d (r ++ [n]) s Hnd Hseen) as [H1 H2]. split; [done|].
    intros x [Hx|[->|Hx]%elem_of_cons]; [auto| |auto].
    apply Hseen, list_elem_of_fmap in Hs as (y&->&Hy). auto.
  - assert (NoDup (dom <$> d ++ [n])) as Hnd'.
    { rewrite fmap_app. apply NoDup_app. split; [done|]. split; [|apply NoDup_singleton].
      intros x Hx%Hseen. set_solver. }
    destruct (IH (d ++ [n]) r (dom n :: s) Hnd') as [H1 H2].
    { intros x. rewrite fmap_app. set_solver. }
    split; [done|]. intros x Hx. apply H2. set_solver.
Qed.
End placement.
Arguments ReplicaPlacement R : clear implicits.

Lemma slice_to_nonneg {A} (n : Z) (l : list A) : 0 <= n → slice_to n l = take (Z.to_nat n) l.
Proof. intros Hn. unfold slice_to. by destruct (Z.ltb_spec n 0); [lia|]. Qed.

(** The order behind a placement: one node per domain first, the rest after. *)
Lemma placement_order {R} `{PreferenceRing R} (p : ReplicaPlacement R) key :
  pr_ok (_ring p) → ∃ diverse remaining,
    diverse ++ remaining ≡ₚ pr_nodes (_ring p) ∧ NoDup (diverse ++ remaining) ∧
    (∀ count, 0 <= count →
      placement_get_nodes p key count = Ok (take (Z.to_nat count) (diverse ++ remaining))) ∧
    NoDup (domain_of p <$> diverse) ∧
    ∀ n, n ∈ pr_nodes (_ring p) → domain_of p n ∈ domain_of p <$> diverse.
Proof.
  intros Hok. destruct (pr_order (_ring p) key Hok) as (order&Hp&Hnd&Hget).
  pose proof (spread_perm (domain_of p) order [] [] []) as Hsp. simpl in Hsp.
  destruct (spread_diverse (domain_of p) order [] [] []) as [H1 H2]; [apply NoDup_nil_2|done|].
  exists (spread (domain_of p) order [] [] []).1, (spread (domain_of p) order [] [] []).2.
  split; [by rewrite Hsp|]. split; [by rewrite Hsp|]. split; [|split; [done|]].
  - intros count Hc. unfold placement_get_nodes. rewrite Hget by lia. simpl.
    rewrite slice_to_nonneg, Nat2Z.id by done.
    rewrite (take_ge order) by (by rewrite (Permutation_length Hp)). done.
  - intros n Hn. apply H2. right. by rewrite Hp.
Qed.

#[export] Program Instance placement_preference {R} `{PreferenceRing R} :
    PreferenceRing (ReplicaPlacement R) := {|
  pr_ok p := pr_ok (_ring p);
  pr_nodes p := pr_nodes (_ring p);
  pr_get_nodes := placement_get_nodes;
|}.
Next Obligation.
  intros R HR p key Hok. destruct (placement_order p key Hok) as (d&r&H1&H2&H3&_). eauto.
Qed.

(** ** Quorums *)

Inductive ConsistencyLevel := ONE | QUORUM | ALL.

Record QuorumConfig := mk_quorum { q_n : Z; q_w : Z; q_r : Z }.

Definition is_strongly_consistent (c : QuorumConfig) : bool := q_n c <? q_w c + q_r c.

Definition from_consistency_level (level : ConsistencyLevel) (n : Z) : QuorumConfig :=
  match level with
  | ONE => mk_quorum n 1 1
  | QUORUM => let quorum := n / 2 + 1 in mk_quorum n quorum quorum
  | ALL => mk_quorum n n n
  end.

Definition get_quorum_config (defaults : QuorumConfig) (consistency : option ConsistencyLevel)
    : QuorumConfig :=
  match consistency with
  | Some level => from_consistency_level level (q_n defaults)
  | None => mk_quorum (q_n defaults) (q_w defaults) (q_r defaults)
  end.

(** What [asyncio.gather(..., return_exceptions=True)] holds for one replica. *)
Inductive write_outcome := WriteRaised | WriteReturned (acknowledged : bool).
Inductive read_outcome (V : Type) := ReadRaised | ReadFound (v : V) | ReadMissing.
Arguments ReadRaised {V}.
Arguments ReadFound {V} v.
Arguments ReadMissing {V}.

Record QuorumResult (V : Type) := mk_qresult {
  success : bool;
  responses_received : Z;
  responses_required : Z;
  failed_nodes : list string;
  values : list V;
}.
Arguments mk_qresult {V}.
Arguments success {V}.
Arguments responses_received {V}.
Arguments responses_required {V}.
Arguments failed_nodes {V}.
Arguments values {V}.

Fixpoint count_writes (pairs : list (string * write_outcome)) (success_count : Z)
    (failed : list string) : Z * list string :=
  match pairs with
  | [] => (success_count, failed)
  | (node_id, WriteReturned true) :: pairs' => count_writes pairs' (success_count + 1) failed
  | (node_id, _) :: pairs' => count_writes pairs' success_count (failed ++ [node_id])
  end.

Definition write_quorum {V} (write_func : option (string → write_outcome))
    (replica_nodes : list string) (c : QuorumConfig) : result (QuorumResult V) :=
  match write_func with
  | None => Raise RuntimeError
  | Some f =>
      let sf := count_writes ((λ n, (n, f n)) <$> replica_nodes) 0 [] in
      Ok (mk_qresult (q_w c <=? sf.1) sf.1 (q_w c) sf.2 [])
  end.

Fixpoint count_reads {V} (pairs : list (string * read_outcome V)) (success_count : Z)
    (failed : list string) (vs : list V) : Z * list string * list V :=
  match pairs with
  | [] => (success_count, failed, vs)
  | (node_id, ReadRaised) :: pairs' => count_reads pairs' success_count (failed ++ [node_id]) vs
  | (_, ReadFound v) :: pairs' => count_reads pairs' (success_count + 1) failed (vs ++ [v])
  | (_, ReadMissing) :: pairs' => count_reads pairs' (success_count + 1) failed vs
  end.

Definition read_quorum {V} (read_func : option (string → read_outcome V))
    (replica_nodes : list string) (c : QuorumConfig) : result (QuorumResult V) :=
  match read_func with
  | None => Raise RuntimeError
  | Some f =>
      let sfv := count_reads ((λ n, (n, f n)) <$> replica_nodes) 0 [] [] in
      Ok (mk_qresult (q_r c <=? sfv.1.1) sfv.1.1 (q_r c) sfv.1.2 sfv.2)
  end.

Definition acked (o : write_outcome) : bool :=
  match o with WriteReturned true => true | _ => false end.
Definition responded {V} (o : read_outcome V) : bool :=
  match o with ReadRaised => false | _ => true end.
Definition found {V} (o : read_outcome V) : option V :=
  match o with ReadFound v => Some v | _ => None end.

Lemma count_writes_spec f ns count failed :
  count_writes ((λ n, (n, f n)) <$> ns) count failed =
    (count + Z.of_nat (length (filter (λ n, acked (f n) = true) ns)),
     failed ++ filter (λ n, acked (f n) = false) ns).
Proof.
  revert count failed. induction ns as [|n ns IH]; intros; simpl.
  { rewrite app_nil_r. f_equal. lia. }
  destruct (f n) as [|[]] eqn:E; rewrite IH, !filter_cons, E; simpl.
  - by rewrite <- app_assoc.
  - f_equal. lia.
  - by rewrite <- app_assoc.
Qed.

Lemma count_reads_spec {V} (f : string → read_outcome V) ns count failed vs :
  count_reads ((λ n, (n, f n)) <$> ns) count failed vs =
    (count + Z.of_nat (length (filter (λ n, responded (f n) = true) ns)),
     failed ++ filter (λ n, responded (f n) = false) ns, vs ++ omap (λ n, found (f n)) ns).
Proof.
  revert count failed vs. induction ns as [|n ns IH]; intros; simpl.
  { rewrite !app_nil_r. do 2 f_equal. lia. }
  destruct (f n) as [|v|] eqn:E; rewrite IH, !filter_cons, E; simpl; rewrite <- ?app_assoc;
    do 2 f_equal; simpl; lia.
Qed.

(** ** Sloppy quorum: the replicas of a key *)

Fixpoint _find_substitute_node (alive_members excluded_nodes : list string) : option string :=
  match alive_members with
  | [] => None
  | member :: alive' =>
      if decide (member ∈ excluded_nodes) then _find_substitute_node alive' excluded_nodes
      else Some member
  end.

Fixpoint substitute_loop (is_node_alive : string → bool) (alive_members primary_nodes : list string)
    (todo result_nodes : list string) : list string :=
  match todo with
  | [] => result_nodes
  | node_id :: todo' =>
      if is_node_alive node_id
      then substitute_loop is_node_alive alive_members primary_nodes todo' (result_nodes ++ [node_id])
      else
        let chosen :=
          match _find_substitute_node alive_members (result_nodes ++ primary_nodes) with
          | Some substitute => if bool_decide (substitute = "") then node_id else substitute
          | None => node_id
          end in
        substitute_loop is_node_alive alive_members primary_nodes todo' (result_nodes ++ [chosen])
  end.

Definition _get_replica_nodes {R} `{PreferenceRing R} (ring : R) (defaults : QuorumConfig)
    (is_node_alive : string → bool) (alive_members : list string) (key : string)
    : result (list string) :=
  let* primary_nodes := pr_get_nodes ring key (q_n (get_quorum_config defaults None)) in
  Ok (substitute_loop is_node_alive alive_members primary_nodes primary_nodes []).

Lemma find_substitute_spec alive excluded :
  match _find_substitute_node alive excluded with
  | Some m => m ∈ alive ∧ m ∉ excluded
  | None => ∀ m, m ∈ alive → m ∈ excluded
  end.
Proof.
  induction alive as [|m alive IH]; simpl; [set_solver|]. case_decide as Hm.
  - destruct (_find_substitute_node alive excluded); set_solver.
  - split; [left|done].
Qed.

(** One position of the replica list, given the replicas chosen before it. *)
Definition good_replica (is_node_alive : string → bool) (alive primary before : list string)
    (node chosen : string) : Prop :=
  if is_node_alive node then chosen = node
  else (chosen ∈ alive ∧ chosen ∉ primary ∧ chosen ∉ before) ∨
       (chosen = node ∧ ∀ m, m ∈ alive → m ∈ before ++ primary).

Lemma substitute_loop_spec is_alive alive primary todo res :
  "" ∉ alive → (∀ n, n ∈ todo → n ∈ primary) → NoDup todo → NoDup res →
  (∀ n, n ∈ todo → n ∉ res) →
  ∃ chosen, substitute_loop is_alive alive primary todo res = res ++ chosen ∧
    NoDup (res ++ chosen) ∧ length chosen = length todo ∧
    ∀ i node c, todo !! i = Some node → chosen !! i = Some c →
      good_replica is_alive alive primary (res ++ take i chosen) node c.
Proof.
  intros Hne. revert res. induction todo as [|node todo IH]; intros res Hprim Hnd Hres Hdisj.
  { exists []. rewrite app_nil_r. done. }
  apply NoDup_cons in Hnd as [Hnode Hnd].
  assert (∃ c, substitute_loop is_alive alive primary (node :: todo) res =
      substitute_loop is_alive alive primary todo (res ++ [c]) ∧
    good_replica is_alive alive primary res node c ∧ c ∉ res ∧ c ∉ todo) as (c&->&Hc&Hcres&Hctodo).
  { cbn [substitute_loop]. unfold good_replica. destruct (is_alive node) eqn:E.
    - exists node. split; [done|]. split; [done|]. split; [apply Hdisj; left|done].
    - pose proof (find_substitute_spec alive (res ++ primary)) as Hsub.
      destruct (_find_substitute_node alive (res ++ primary)) as [m|].
      + destruct Hsub as [Hm Hex]. rewrite bool_decide_false by (intros ->; done).
        exists m. split; [done|]. split; [left; set_solver|].
        split; [set_solver|]. intros Hin. apply Hex, elem_of_app. right. apply Hprim. by right.
      + exists node. split; [done|]. split; [by right|]. split; [apply Hdisj; left|done]. }
  destruct (IH (res ++ [c])) as (chosen&->&Hnd'&Hlen&Hgood).
  - intros n Hn. apply Hprim. by right.
  - done.
  - apply NoDup_app. split; [done|]. split; [set_solver|apply NoDup_singleton].
  - intros n Hn [Hr|Hr]%elem_of_app; [|set_solver]. apply (Hdisj n); [by right|done].
  - exists (c :: chosen). rewrite <- app_assoc in Hnd' |- *. simpl in *.
    split; [done|]. split; [done|]. split; [by rewrite Hlen|].
    intros [|i] n x Hn Hx; simplify_eq/=; [by rewrite app_nil_r|].
    specialize (Hgood i n x Hn Hx). by rewrite <- app_assoc in Hgood.
Qed.

(** ** Resolving the values of a read *)

Section resolve.
Context {V : Type} `{EqDecision V}.

Record GetResult := mk_get {
  get_found : bool;
  get_value : option V;
  get_clock : option VectorClock;
  has_conflict : bool;
  conflicting_values : list (V * VectorClock);
}.

Definition enumerate {A} (l : list A) : list (nat * A) := zip (seq 0 (length l)) l.

Definition non_dominated (vs : list (V * VectorClock)) : list (V * VectorClock) :=
  snd <$> filter (λ iv, existsb (λ jv,
    negb (Nat.eqb iv.1 jv.1) && dominates jv.2.2 iv.2.2) (enumerate vs) = false) (enumerate vs).

Fixpoint dedup_clocks (l : list (V * VectorClock)) (unique : list (V * VectorClock))
    (seen_clocks : list VectorClock) : list (V * VectorClock) :=
  match l with
  | [] => unique
  | (val, clock) :: l' =>
      if existsb (λ seen, clock_eqb clock seen) seen_clocks
      then dedup_clocks l' unique seen_clocks
      else dedup_clocks l' (unique ++ [(val, clock)]) (seen_clocks ++ [clock])
  end.

Definition _resolve_read_conflicts (vs : list (V * VectorClock)) : GetResult :=
  match vs with
  | [(value, clock)] => mk_get true (Some value) (Some clock) false []
  | _ =>
      match dedup_clocks (non_dominated vs) [] [] with
      | [(value, clock)] => mk_get true (Some value) (Some clock) false []
      | unique => mk_get true None None true unique
      end
  end.

Definition vclocks_ok (vs : list (V * VectorClock)) : Prop := ∀ v, v ∈ vs → clock_ok v.2.

Lemma enumerate_lookup {A} (l : list A) i x : (i, x) ∈ enumerate l ↔ l !! i = Some x.
Proof.
  unfold enumerate. rewrite list_elem_of_lookup. split.
  - intros [j Hj]. rewrite lookup_zip_with in Hj. apply bind_Some in Hj as (k&Hk&Hj).
    apply bind_Some in Hj as (y&Hy&[= -> ->]). apply lookup_seq in Hk as [-> _]. done.
  - intros Hx. exists i. rewrite lookup_zip_with, Hx.
    by rewrite lookup_seq_lt by (by eapply lookup_lt_Some).
Qed.

Lemma non_dominated_spec vs v :
  vclocks_ok vs →
  v ∈ non_dominated vs ↔ v ∈ vs ∧ ∀ u, u ∈ vs → ¬ clock_lt v.2 u.2.
Proof.
  intros Hok. unfold non_dominated. rewrite list_elem_of_fmap.
  setoid_rewrite list_elem_of_filter. setoid_rewrite existsb_false. split.
  - intros ([i x]&->&Hnone&Hi). simpl in *. apply enumerate_lookup in Hi.
    pose proof (list_elem_of_lookup_2 _ _ _ Hi) as Hx. split; [done|].
    intros u [j Hj]%list_elem_of_lookup Hlt. pose proof (list_elem_of_lookup_2 _ _ _ Hj) as Hu.
    pose proof (Hnone (j, u) (proj2 (enumerate_lookup _ _ _) Hj)) as Hf. simpl in Hf.
    rewrite (proj2 (dominates_spec u.2 x.2 (Hok _ Hu) (Hok _ Hx)) Hlt), andb_true_r in Hf.
    apply negb_false_iff, Nat.eqb_eq in Hf as ->. simplify_eq.
    eapply (irreflexivity clock_lt). exact Hlt.
  - intros [[i Hi]%list_elem_of_lookup Hmax]. exists (i, v). split; [done|].
    split; [|by apply enumerate_lookup]. intros [j u] Hj%enumerate_lookup. simpl.
    apply andb_false_iff. right. apply not_true_iff_false.
    pose proof (list_elem_of_lookup_2 _ _ _ Hi). pose proof (list_elem_of_lookup_2 _ _ _ Hj).
    rewrite dominates_spec by auto. by apply Hmax.
Qed.

Lemma dedup_clocks_spec l unique :
  vclocks_ok (unique ++ l) →
  (∀ i j u w, unique !! i = Some u → unique !! j = Some w → clock_equiv u.2 w.2 → i = j) →
  let r := dedup_clocks l unique (snd <$> unique) in
  (∀ v, v ∈ r → v ∈ unique ++ l) ∧
  (∀ v, v ∈ unique ++ l → ∃ u, u ∈ r ∧ clock_equiv u.2 v.2) ∧
  (∀ i j u w, r !! i = Some u → r !! j = Some w → clock_equiv u.2 w.2 → i = j).
Proof.
  revert unique. induction l as [|[val c] l IH]; intros unique Hok Hinj; simpl.
  { rewrite app_nil_r. split; [done|]. split; [|done]. intros v Hv. by exists v. }
  assert (clock_ok c) as Hc by (apply (Hok (val, c)); set_solver).
  destruct (existsb _ _) eqn:E.
  - apply existsb_elem in E as (s&(u&->&Hu)%list_elem_of_fmap&Hs).
    apply clock_eqb_spec in Hs; [|done|apply Hok; set_solver].
    destruct (IH unique) as (H1&H2&H3); [intros v Hv; apply Hok; set_solver|done|].
    split; [set_solver|]. split; [|done]. intros v Hv.
    apply elem_of_app in Hv as [Hv|[->|Hv]%elem_of_cons]; [apply H2; set_solver| |apply H2; set_solver].
    destruct (H2 u) as (w&Hw&Hwu); [set_solver|]. exists w. split; [done|]. simpl.
    by rewrite Hwu, Hs.
  - rewrite existsb_false in E. replace ((snd <$> unique) ++ [c])
      with (snd <$> (unique ++ [(val, c)])) by (by rewrite fmap_app).
    destruct (IH (unique ++ [(val, c)])) as (H1&H2&H3).
    + intros v Hv. apply Hok. set_solver.
    + assert (∀ u, u ∈ unique → ¬ clock_equiv u.2 c) as Hnew.
      { intros u Hu Heq. assert (clock_eqb c u.2 = true) as Ht
          by (apply clock_eqb_spec; [done|apply Hok; set_solver|by symmetry]).
        rewrite E in Ht; [done|]. by apply list_elem_of_fmap_2. }
      intros i j u w [Hi|[Hil Hi]]%lookup_app_Some [Hj|[Hjl Hj]]%lookup_app_Some Heq.
      * by eapply Hinj.
      * apply list_lookup_singleton_Some in Hj as [_ <-]. exfalso.
        apply (Hnew u); [by eapply list_elem_of_lookup_2|done].
      * apply list_lookup_singleton_Some in Hi as [_ <-]. exfalso.
        apply (Hnew w); [by eapply list_elem_of_lookup_2|by symmetry].
      * apply list_lookup_singleton_Some in Hi as [Hi _].
        apply list_lookup_singleton_Some in Hj as [Hj _]. lia.
    + rewrite <- app_assoc in H1, H2. simpl in H1, H2. auto.
Qed.
End resolve.

Lemma resolve_covers {V} (vs : list (V * VectorClock)) :
  vclocks_ok vs →
  let r := dedup_clocks (non_dominated vs) [] [] in
  (∀ v, v ∈ r → v ∈ vs ∧ ∀ u, u ∈ vs → ¬ clock_lt v.2 u.2) ∧
  (∀ u, u ∈ vs → ∃ v, v ∈ r ∧ clock_le u.2 v.2) ∧
  (∀ i j u w, r !! i = Some u → r !! j = Some w → clock_equiv u.2 w.2 → i = j).
Proof.
  intros Hok r.
  destruct (dedup_clocks_spec (non_dominated vs) []) as (H1&H2&H3); [|done|].
  { intros v [Hv _]%non_dominated_spec; auto. }
  fold r in H1, H2, H3. simpl in *. split; [|split; [|done]].
  - intros v Hv%H1. by apply non_dominated_spec.
  - intros u Hu. destruct (clock_maximal_above snd vs u Hok Hu) as (m&Hm&Hmax&Hum).
    destruct (H2 m) as (v&Hv&Heq); [by apply non_dominated_spec|]. exists v. split; [done|].
    rewrite Heq. destruct Hum as [->|[Hle _]]; done.
Qed.

Lemma clock_le_cases c d : clock_le c d → clock_ok c → clock_ok d → clock_lt c d ∨ clock_equiv c d.
Proof.
  intros Hle Hc Hd. destruct (dominates d c) eqn:E; [left; by apply dominates_spec|].
  right. intros n. specialize (Hle n) as Hn. destruct (decide (counter c n = counter d n)); [done|].
  exfalso. apply not_true_iff_false in E. apply E, dominates_spec; [done..|].
  split; [done|]. exists n. lia.
Qed.

(** Quorum intersection.  When [W + R > N] on a stable set of [N] replicas, a
    write that succeeded and a read that succeeded share a replica that
    acknowledged the write and answered the read. *)
Theorem quorum_intersection {V} (ns : list string) (c : QuorumConfig)
    (wf : string → write_outcome) (rf : string → read_outcome V)
    (wres rres : QuorumResult V) :
  Z.of_nat (length ns) = q_n c → is_strongly_consistent c = true →
  write_quorum (Some wf) ns c = Ok wres → success wres = true →
  read_quorum (Some rf) ns c = Ok rres → success rres = true →
  ∃ node, node ∈ ns ∧ wf node = WriteReturned true ∧ rf node ≠ ReadRaised.
Proof.
  unfold write_quorum, read_quorum, is_strongly_consistent.
  rewrite count_writes_spec, count_reads_spec. simpl. intros Hn Hs [= <-] Hw [= <-] Hr. simpl in *.
  assert (∃ n, n ∈ ns ∧ acked (wf n) = true ∧ responded (rf n) = true) as (n&Hin&Ha&Hres).
  { apply (filter_overlap (λ n, acked (wf n) = true) (λ n, responded (rf n) = true)). lia. }
  exists n. split; [done|]. split; [by destruct (wf n) as [|[]]|by destruct (rf n)].
Qed.

Lemma quorum_intersection_witness :
  ∃ node, node ∈ ["a"; "b"; "c"] ∧ (node = "a" ∨ node = "b") ∧ (node = "b" ∨ node = "c").
Proof.
  destruct (quorum_intersection (V := Z) ["a"; "b"; "c"] (from_consistency_level QUORUM 3)
    (λ n, if decide (n = "c") then WriteRaised else WriteReturned true)
    (λ n, if decide (n = "a") then ReadRaised else ReadFound 1)
    (mk_qresult true 2 2 ["c"] []) (mk_qresult true 2 2 ["a"] [1; 1])) as (n&H1&H2&H3);
    [vm_compute; reflexivity..|].
  exists n. split; [exact H1|]. simpl in *. rewrite !elem_of_cons in H1.
  split; repeat case_decide; subst; naive_solver set_solver.
Defined.

(** The consistency levels.  For [N >= 1] every level asks for between 1 and
    [N] answers; [QUORUM] and [ALL] intersect always and [ONE] only on a single
    replica; two write quorums of [QUORUM] intersect as well. *)
Theorem consistency_levels (defaults : QuorumConfig) (level : ConsistencyLevel) :
  1 <= q_n defaults →
  let c := get_quorum_config defaults (Some level) in
  q_n c = q_n defaults ∧ 1 <= q_w c <= q_n c ∧ 1 <= q_r c <= q_n c ∧
  (is_strongly_consistent c = true ↔ level ≠ ONE ∨ q_n c = 1) ∧
  (level ≠ ONE → q_n c < q_w c + q_w c).
Proof.
  intros Hn. unfold get_quorum_config, is_strongly_consistent, from_consistency_level.
  pose proof (Z.div_mod (q_n defaults) 2). pose proof (Z.mod_pos_bound (q_n defaults) 2).
  destruct level; simpl; rewrite Z.ltb_lt; repeat split;
    try lia; intros; naive_solver lia.
Qed.

Lemma consistency_levels_witness :
  is_strongly_consistent (get_quorum_config (mk_quorum 5 1 1) (Some QUORUM)) = true.
Proof.
  apply (consistency_levels (mk_quorum 5 1 1) QUORUM); simpl; [lia|]. left. discriminate.
Defined.

(** Accounting of a quorum call: every replica is either counted or listed
    as failed, in order; success means the threshold of the configuration was
    reached; a read keeps exactly the values found; a missing callable raises. *)
Theorem quorum_accounting {V} (ns : list string) (c : QuorumConfig)
    (wf : string → write_outcome) (rf : string → read_outcome V) :
  (∃ res : QuorumResult V, write_quorum (Some wf) ns c = Ok res ∧
    failed_nodes res = filter (λ n, acked (wf n) = false) ns ∧
    responses_received res + Z.of_nat (length (failed_nodes res)) = Z.of_nat (length ns) ∧
    responses_required res = q_w c ∧
    (success res = true ↔ q_w c <= responses_received res)) ∧
  (∃ res, read_quorum (Some rf) ns c = Ok res ∧
    failed_nodes res = filter (λ n, responded (rf n) = false) ns ∧
    responses_received res + Z.of_nat (length (failed_nodes res)) = Z.of_nat (length ns) ∧
    responses_required res = q_r c ∧
    (success res = true ↔ q_r c <= responses_received res) ∧
    values res = omap (λ n, found (rf n)) ns) ∧
  write_quorum (V := V) None ns c = Raise RuntimeError ∧
  read_quorum (V := V) None ns c = Raise RuntimeError.
Proof.
  assert (∀ f : string → bool, Z.of_nat (length (filter (λ n, f n = true) ns)) +
    Z.of_nat (length (filter (λ n, f n = false) ns)) = Z.of_nat (length ns)) as Hsplit.
  { intros f. induction ns as [|n ns' IH]; [done|]. rewrite !filter_cons.
    destruct (f n); simpl length; lia. }
  unfold write_quorum, read_quorum. rewrite count_writes_spec, count_reads_spec.
  split; [|split; [|done]]; eexists; simpl; (split; [reflexivity|]); simpl.
  - split; [done|]. split; [by apply (Hsplit (λ n, acked (wf n)))|].
    split; [done|]. apply Z.leb_le.
  - split; [done|]. split; [by apply (Hsplit (λ n, responded (rf n)))|].
    split; [done|]. split; [apply Z.leb_le|done].
Qed.

(** Placement over any ring that promises preference lists promises them
    too, and spreads the replicas: the order starts with one node of every data
    center, so the first replicas lie in pairwise different ones. *)
Theorem placement_spreads {R} `{PreferenceRing R} (p : ReplicaPlacement R) key :
  pr_ok (_ring p) → ∃ order k, order ≡ₚ pr_nodes (_ring p) ∧ NoDup order ∧
    (∀ count, 0 <= count → placement_get_nodes p key count = Ok (take (Z.to_nat count) order)) ∧
    NoDup (domain_of p <$> take k order) ∧
    ∀ n, n ∈ pr_nodes (_ring p) → domain_of p n ∈ domain_of p <$> take k order.
Proof.
  intros Hok. destruct (placement_order p key Hok) as (d&r&H1&H2&H3&H4&H5).
  exists (d ++ r), (length d). rewrite take_app_length. auto.
Qed.

Lemma demo_ring_ok : pr_ok demo_ring.
Proof. exists demo_h, demo_weights. split; [apply demo_represents|done]. Qed.

Lemma placement_spreads_witness :
  let p := mk_placement demo_ring [("a", "east"); ("b", "west")] in
  ∃ order, order ≡ₚ ["a"; "b"] ∧ placement_get_nodes p "k" 1 = Ok (take 1 order).
Proof.
  destruct (placement_spreads (mk_placement demo_ring [("a", "east"); ("b", "west")]) "k"
    demo_ring_ok) as (order&k&H1&_&H2&_).
  exists order. split; [exact H1|]. apply (H2 1). lia.
Defined.

(** The sloppy quorum.  For a placement that promises preference lists and
    alive members with non-empty names, the replica list is as long as the
    primary list and has no node twice; an alive primary keeps its place, and a
    dead one is replaced by an alive node that is neither a primary nor already
    chosen, or kept when no such node exists. *)
Theorem replica_nodes_substitution {R} `{PreferenceRing R} (ring : R) (defaults : QuorumConfig)
    (is_alive : string → bool) (alive : list string) key :
  pr_ok ring → 0 <= q_n defaults → "" ∉ alive →
  ∃ primary chosen,
    pr_get_nodes ring key (q_n defaults) = Ok primary ∧
    _get_replica_nodes ring defaults is_alive alive key = Ok chosen ∧
    NoDup chosen ∧ length chosen = length primary ∧
    ∀ i node c, primary !! i = Some node → chosen !! i = Some c →
      good_replica is_alive alive primary (take i chosen) node c.
Proof.
  intros Hok Hn Hne. destruct (pr_order ring key Hok) as (order&Hp&Hnd&Hget).
  unfold _get_replica_nodes, get_quorum_config. simpl. rewrite Hget by done. simpl.
  set (primary := take (Z.to_nat (q_n defaults)) order).
  destruct (substitute_loop_spec is_alive alive primary primary []) as (chosen&H1&H2&H3&H4);
    [done|done|by eapply sublist_NoDup, sublist_take|apply NoDup_nil_2|set_solver|].
  exists primary, chosen. by rewrite H1.
Qed.

Lemma replica_nodes_substitution_witness :
  ∃ chosen, _get_replica_nodes demo_ring (mk_quorum 2 1 1) (String.eqb "a") ["a"; "c"] "k"
      = Ok chosen ∧ NoDup chosen ∧ length chosen = 2%nat.
Proof.
  destruct (replica_nodes_substitution demo_ring (mk_quorum 2 1 1) (String.eqb "a") ["a"; "c"] "k"
    demo_ring_ok ltac:(simpl; lia) ltac:(set_solver)) as (primary&chosen&H1&H2&H3&H4&_).
  exists chosen. split; [exact H2|]. split; [exact H3|]. rewrite H4.
  vm_compute in H1. injection H1 as <-. reflexivity.
Defined.

(** A coordinated read resolves causally: it answers with a single value
    only if the clock of that value is at or above the clocks of all values
    read; otherwise it reports a conflict of at least two of the values, no two
    with equal clocks, none causally followed, which cover everything read. *)
Theorem read_resolution {V} (vs : list (V * VectorClock)) :
  vs ≠ [] → vclocks_ok vs →
  let res := _resolve_read_conflicts vs in
  get_found res = true ∧
  if has_conflict res
  then get_value res = None ∧ (2 <= length (conflicting_values res))%nat ∧
    (∀ v, v ∈ conflicting_values res → v ∈ vs ∧ ∀ u, u ∈ vs → ¬ clock_lt v.2 u.2) ∧
    (∀ i j u w, conflicting_values res !! i = Some u → conflicting_values res !! j = Some w →
       clock_equiv u.2 w.2 → i = j) ∧
    (∀ u, u ∈ vs → ∃ v, v ∈ conflicting_values res ∧ clock_le u.2 v.2)
  else ∃ v c, get_value res = Some v ∧ get_clock res = Some c ∧ (v, c) ∈ vs ∧
    ∀ u, u ∈ vs → clock_le u.2 c.
Proof.
  intros Hne Hok. pose proof (resolve_covers vs Hok) as (H1&H2&H3). simpl in *.
  assert (∀ v c, dedup_clocks (non_dominated vs) [] [] = [(v, c)] →
    (v, c) ∈ vs ∧ ∀ u, u ∈ vs → clock_le u.2 c) as Hone.
  { intros v c E. rewrite E in H1, H2. split; [apply H1; left|]. intros u Hu.
    destruct (H2 u Hu) as (w&->%list_elem_of_singleton&Hle). done. }
  assert (dedup_clocks (non_dominated vs) [] [] ≠ []) as Hnn.
  { intros E. rewrite E in H2. destruct vs as [|v vs']; [done|].
    destruct (H2 v) as (?&?&_); [left|]. set_solver. }
  unfold _resolve_read_conflicts. destruct vs as [|[v c] [|v2 vs']]; [done|..].
  - simpl. split; [done|]. exists v, c. split; [done|]. split; [done|]. split; [left|].
    intros u ->%list_elem_of_singleton. done.
  - destruct (dedup_clocks _ [] []) as [|[v' c'] [|w ws]] eqn:E; [done|..]; simpl; (split; [done|]).
    + exists v', c'. split; [done|]. split; [done|]. by apply Hone.
    + split; [done|]. split; [lia|]. split; [exact H1|]. split; [exact H3|exact H2].
Qed.

Lemma read_resolution_witness :
  has_conflict (_resolve_read_conflicts [(1, demo_clock_a); (2, demo_clock_b); (1, demo_clock_a)]) = true ∧
  get_found (_resolve_read_conflicts [(1, demo_clock_a); (2, demo_clock_b); (1, demo_clock_a)]) = true.
Proof.
  split; [vm_compute; reflexivity|].
  apply (read_resolution [(1, demo_clock_a); (2, demo_clock_b); (1, demo_clock_a)]); [discriminate|].
  intros v Hv. rewrite !elem_of_cons in Hv.
  destruct Hv as [->|[->|[->|Hv]]]; [apply demo_clock_a_ok|apply demo_clock_b_ok|apply demo_clock_a_ok|set_solver].
Defined.

(** Two different values under equal clocks are reported as one resolved value:
    the second value is dropped without a conflict. *)
Example equal_clocks_drop_a_value :
  _resolve_read_conflicts [(1, demo_clock_a); (2, demo_clock_a)] =
    mk_get true (Some 1) (Some demo_clock_a) false [].
Proof. vm_compute. reflexivity. Qed.
