(* ===== verification/MemTable.v ===== *)
(** * The in-memory table of the storage engine

    Models src/key-value-store/src/kv_store/storage/memtable.py.  Timestamps are
    any totally ordered type; keys are UTF-8 strings, so the length of a key is
    its number of bytes. *)
From S2P Require Import Prelude PyList PyDict.
Local Open Scope Z_scope.

Definition _ENTRY_OVERHEAD_BYTES : Z := 64.

Section memtable.
Context {T : Type} `{PyOrd T}.

Record MemTableEntry := mk_entry {
  me_key : string;
  me_value : option (list Z);
  me_timestamp : T;
  is_tombstone : bool;
}.

Record MemTable := mk_memtable {
  _entries : dict string MemTableEntry;
  _size_threshold_bytes : Z;
  _size_bytes : Z;
}.
Implicit Types (m : MemTable) (e : MemTableEntry) (key : string) (ts : T).

Definition empty (size_threshold_bytes : Z) : MemTable := mk_memtable [] size_threshold_bytes 0.

Definition _entry_size e : Z :=
  Z.of_nat (String.length (me_key e))
  + match me_value e with Some v => Z.of_nat (length v) | None => 0 end
  + _ENTRY_OVERHEAD_BYTES.

(** The common body of [put] and [delete]. *)
Definition store m (entry : MemTableEntry) : MemTable :=
  match dget (me_key entry) (_entries m) with
  | Some existing =>
      if pylt (me_timestamp entry) (me_timestamp existing) then m
      else mk_memtable (dset (me_key entry) entry (_entries m)) (_size_threshold_bytes m)
             (_size_bytes m - _entry_size existing + _entry_size entry)
  | None =>
      mk_memtable (dset (me_key entry) entry (_entries m)) (_size_threshold_bytes m)
        (_size_bytes m + _entry_size entry)
  end.

Definition put m key (value : list Z) ts : MemTable :=
  store m (mk_entry key (Some value) ts false).

Definition delete m key ts : MemTable := store m (mk_entry key None ts true).

Definition get m key : option MemTableEntry := dget key (_entries m).

Definition is_full m : bool := _size_threshold_bytes m <=? _size_bytes m.

Definition entries_sorted m : list MemTableEntry :=
  omap (λ key, dget key (_entries m)) (py_sorted (dkeys (_entries m))).

Definition clear m : MemTable := mk_memtable [] (_size_threshold_bytes m) 0.

Inductive write := Put key (value : list Z) ts | Delete key ts | Clear.

Definition apply_write m (w : write) : MemTable :=
  match w with
  | Put key value ts => put m key value ts
  | Delete key ts => delete m key ts
  | Clear => clear m
  end.

(** ** Specification: the newest write of every key *)

Definition write_entry (w : write) : option MemTableEntry :=
  match w with
  | Put key value ts => Some (mk_entry key (Some value) ts false)
  | Delete key ts => Some (mk_entry key None ts true)
  | Clear => None
  end.

(** The last of the writes to [key] with the greatest timestamp, after the last
    [clear]: a write wins over an earlier one unless it is strictly older. *)
Fixpoint newest key (ws : list write) (best : option MemTableEntry) : option MemTableEntry :=
  match ws with
  | [] => best
  | w :: ws' =>
      newest key ws'
        match write_entry w with
        | None => None
        | Some e =>
            if decide (me_key e = key) then
              match best with
              | Some b => if pylt (me_timestamp e) (me_timestamp b) then best else Some e
              | None => Some e
              end
            else best
        end
  end.

Definition sizes (d : dict string MemTableEntry) : Z := foldr Z.add 0 (_entry_size <$> dvalues d).

Record memtable_ok m : Prop := {
  mt_dict : dict_ok (_entries m);
  mt_keys : ∀ key e, dget key (_entries m) = Some e → me_key e = key;
  mt_size : _size_bytes m = sizes (_entries m);
  mt_kind : ∀ key e, dget key (_entries m) = Some e → (is_tombstone e = true ↔ me_value e = None);
}.

Lemma sizes_app d1 d2 : sizes (d1 ++ d2) = sizes d1 + sizes d2.
Proof.
  unfold sizes, dvalues. rewrite !fmap_app. induction ((_entry_size <$> d1.*2)); simpl; lia.
Qed.

Lemma sizes_dset_new key e d : key ∉ dkeys d → sizes (dset key e d) = sizes d + _entry_size e.
Proof. intros Hk. rewrite dset_new, sizes_app by done. unfold sizes. simpl. lia. Qed.

Lemma sizes_dset key e e' d :
  dict_ok d → dget key d = Some e → sizes (dset key e' d) = sizes d - _entry_size e + _entry_size e'.
Proof.
  intros Hd He. destruct (dget_split key e d Hd He) as (d1&d2&->&_&_&->&_).
  rewrite !sizes_app. unfold sizes. simpl. lia.
Qed.

Lemma entry_size_pos e : _ENTRY_OVERHEAD_BYTES <= _entry_size e.
Proof. unfold _entry_size, _ENTRY_OVERHEAD_BYTES. destruct (me_value e); lia. Qed.

Lemma store_ok m e :
  memtable_ok m → (is_tombstone e = true ↔ me_value e = None) → memtable_ok (store m e).
Proof.
  intros [Hd Hk Hs Ht] He. unfold store. destruct (dget (me_key e) (_entries m)) as [x|] eqn:E.
  - destruct (pylt _ _); [by split|]. split; simpl; [by apply dset_ok|..].
    + intros key y. rewrite dget_dset. case_decide; [by intros [= <-]|apply Hk].
    + rewrite Hs. by erewrite sizes_dset.
    + intros key y. rewrite dget_dset. case_decide; [by intros [= <-]|apply Ht].
  - split; simpl; [by apply dset_ok|..].
    + intros key y. rewrite dget_dset. case_decide; [by intros [= <-]|apply Hk].
    + rewrite Hs, sizes_dset_new; [done|]. by apply dget_None.
    + intros key y. rewrite dget_dset. case_decide; [by intros [= <-]|apply Ht].
Qed.

Lemma apply_write_ok m w : memtable_ok m → memtable_ok (apply_write m w).
Proof.
  intros Hm. destruct w; simpl; [by apply store_ok|by apply store_ok|].
  split; simpl; [apply dict_nil_ok|done..].
Qed.

Lemma get_store m e key :
  get (store m e) key =
    if decide (me_key e = key) then
      match get m key with
      | Some b => if pylt (me_timestamp e) (me_timestamp b) then Some b else Some e
      | None => Some e
      end
    else get m key.
Proof.
  unfold get, store. case_decide as Hk.
  - subst key. destruct (dget (me_key e) (_entries m)) as [b|] eqn:E.
    + destruct (pylt _ _); simpl; [done|]. by rewrite dget_dset_eq.
    + simpl. by rewrite dget_dset_eq.
  - destruct (dget (me_key e) (_entries m)) as [b|] eqn:E; [destruct (pylt _ _)|];
      simpl; rewrite ?dget_dset_ne by done; done.
Qed.

Lemma get_writes ws m key :
  get (foldl apply_write m ws) key = newest key ws (get m key).
Proof.
  revert m. induction ws as [|w ws IH]; intros m; simpl; [done|]. rewrite IH. f_equal.
  destruct w; simpl; unfold put, delete; rewrite ?get_store; simpl; [..|done];
    case_decide; try done; destruct (get m _); try done; by destruct (pylt _ _).
Qed.

Lemma writes_ok ws m : memtable_ok m → memtable_ok (foldl apply_write m ws).
Proof. revert m. induction ws as [|w ws IH]; intros m Hm; simpl; auto using apply_write_ok. Qed.

Lemma empty_ok threshold : memtable_ok (empty threshold).
Proof. split; simpl; [apply dict_nil_ok|done..]. Qed.

Lemma entries_sorted_keys m :
  memtable_ok m → me_key <$> entries_sorted m = py_sorted (dkeys (_entries m)).
Proof.
  intros [Hd Hk _ _]. unfold entries_sorted.
  assert (∀ key, key ∈ py_sorted (dkeys (_entries m)) → is_Some (dget key (_entries m))) as Hall.
  { intros key. rewrite py_sorted_perm. intros Hin. by apply dmem_true, dmem_spec. }
  induction (py_sorted (dkeys (_entries m))) as [|key ks IH]; [done|].
  destruct (Hall key (list_elem_of_here _ _)) as [e He]. cbn [omap list_omap].
  rewrite He, fmap_cons, (Hk _ _ He), IH; [done|]. intros k' Hk'. apply Hall. by right.
Qed.

Lemma entries_sorted_elem m e :
  memtable_ok m → e ∈ entries_sorted m ↔ get m (me_key e) = Some e.
Proof.
  intros [Hd Hk _ _]. unfold entries_sorted. rewrite list_elem_of_omap.
  setoid_rewrite py_sorted_perm. unfold get. split.
  - intros (key&_&He). by rewrite (Hk _ _ He).
  - intros He. exists (me_key e). split; [|done]. apply dmem_spec, dmem_true. by eexists.
Qed.
End memtable.
Arguments write T : clear implicits.
Arguments MemTable T : clear implicits.

(** The table is the newest write of every key.  After any sequence of puts,
    deletes and clears, [get] returns the last write of the key that no other
    write strictly follows in time, the accounted size is exactly the sum of
    the sizes of the entries, and a flush lists the live entries once each, in
    strictly increasing key order. *)
Theorem memtable_newest_write {T} `{PyOrd T} (ws : list (write T)) (threshold : Z) :
  let m := foldl apply_write (empty threshold) ws in
  (∀ key, get m key = newest key ws None) ∧
  _size_bytes m = sizes (_entries m) ∧
  0 <= _size_bytes m ∧
  me_key <$> entries_sorted m = py_sorted (dkeys (_entries m)) ∧
  NoDup (me_key <$> entries_sorted m) ∧
  (∀ e, e ∈ entries_sorted m ↔ get m (me_key e) = Some e) ∧
  (∀ e, e ∈ entries_sorted m → (is_tombstone e = true ↔ me_value e = None)).
Proof.
  intros m. assert (memtable_ok m) as Hm by apply writes_ok, empty_ok.
  split; [intros key; unfold m; by rewrite get_writes|]. split; [apply Hm|]. split.
  { rewrite (mt_size m Hm). unfold sizes. induction (dvalues (_entries m)) as [|e es IH]; [done|].
    rewrite fmap_cons. simpl. pose proof (entry_size_pos e) as Hp.
    unfold _ENTRY_OVERHEAD_BYTES in Hp. lia. }
  split; [by apply entries_sorted_keys|]. split; [|split].
  - rewrite entries_sorted_keys, py_sorted_perm by done. apply Hm.
  - intros e. by apply entries_sorted_elem.
  - intros e He%entries_sorted_elem; [|done]. by apply (mt_kind m Hm (me_key e)).
Qed.
