(* ===== verification/Bloom.v ===== *)
(** * The Bloom filter of an SSTable

    Models src/key-value-store/src/kv_store/storage/bloom_filter.py.  Bytes are
    integers in 0..255.  The two digests of a key (the first eight bytes of MD5
    and SHA-256) and the size formulas over logarithms are parameters; the
    false-positive rate is kept as the eight bytes of its IEEE encoding. *)
From S2P Require Import Prelude PyList.
Local Open Scope Z_scope.

Record BloomFilter := mk_bloom {
  _expected_items : Z;
  _false_positive_rate : list Z;
  _size_bits : Z;
  _num_hash_functions : Z;
  _bit_array : list Z;
}.

Definition _FORMAT_VERSION : Z := 1.

(** [__init__] once [m] and [k] are computed from the two arguments. *)
Definition init (expected_items : Z) (rate : list Z) (m k : Z) : result BloomFilter :=
  if expected_items <? 1 then Raise ValueError
  else
    let size_bits := Z.max 1 m in
    Ok (mk_bloom expected_items rate size_bits (Z.max 1 k)
          (replicate (Z.to_nat ((size_bits + 7) / 8)) 0)).

(** [struct.unpack("<Q", b)]: little-endian bytes. *)
Fixpoint le_decode (bs : list Z) : Z :=
  match bs with
  | [] => 0
  | b :: bs' => b + 256 * le_decode bs'
  end.

Fixpoint le_encode (width : nat) (z : Z) : list Z :=
  match width with
  | O => []
  | S w => z mod 256 :: le_encode w (z / 256)
  end.

Section hashing.
(** The digests of MD5 and SHA-256. *)
Context (md5 sha256 : string → list Z).

Definition _get_hash_values (key : string) : Z * Z :=
  (le_decode (take 8 (md5 key)), le_decode (take 8 (sha256 key))).

Definition _get_bit_positions (bf : BloomFilter) (key : string) : list Z :=
  let '(hash1, hash2) := _get_hash_values key in
  (λ i, (hash1 + i * hash2) mod _size_bits bf) <$> seqZ 0 (_num_hash_functions bf).

(** [self._bit_array[byte_index] |= 1 << bit_offset]; [IndexError] out of range. *)
Definition _set_bit (bits : list Z) (position : Z) : result (list Z) :=
  let byte_index := Z.to_nat (position / 8) in
  match bits !! byte_index with
  | None => Raise IndexError
  | Some byte => Ok (<[byte_index := Z.lor byte (Z.shiftl 1 (position mod 8))]> bits)
  end.

Definition _get_bit (bits : list Z) (position : Z) : result bool :=
  match bits !! Z.to_nat (position / 8) with
  | None => Raise IndexError
  | Some byte => Ok (negb (Z.land byte (Z.shiftl 1 (position mod 8)) =? 0))
  end.

Fixpoint set_bits (bits : list Z) (ps : list Z) : result (list Z) :=
  match ps with
  | [] => Ok bits
  | position :: ps' => let* bits' := _set_bit bits position in set_bits bits' ps'
  end.

Definition add (bf : BloomFilter) (key : string) : result BloomFilter :=
  let* bits := set_bits (_bit_array bf) (_get_bit_positions bf key) in
  Ok (mk_bloom (_expected_items bf) (_false_positive_rate bf) (_size_bits bf)
        (_num_hash_functions bf) bits).

Fixpoint all_bits (bits : list Z) (ps : list Z) : result bool :=
  match ps with
  | [] => Ok true
  | position :: ps' =>
      let* b := _get_bit bits position in
      if b then all_bits bits ps' else Ok false
  end.

Definition might_contain (bf : BloomFilter) (key : string) : result bool :=
  all_bits (_bit_array bf) (_get_bit_positions bf key).
End hashing.

(** ** Serialisation: the packed little-endian header, then the bits *)

(** [struct.pack] of an unsigned field; out of range it raises. *)
Definition pack (width : nat) (z : Z) : result (list Z) :=
  if (0 <=? z) && (z <? 256 ^ Z.of_nat width) then Ok (le_encode width z) else Raise StructError.

Definition serialize (bf : BloomFilter) : result (list Z) :=
  let* version := pack 1 _FORMAT_VERSION in
  let* items := pack 4 (_expected_items bf) in
  let* size := pack 4 (_size_bits bf) in
  let* hashes := pack 2 (_num_hash_functions bf) in
  let* len := pack 4 (Z.of_nat (length (_bit_array bf))) in
  Ok (version ++ items ++ _false_positive_rate bf ++ size ++ hashes ++ len ++ _bit_array bf).

Definition header_size : nat := 23.

Definition deserialize (data : list Z) : result BloomFilter :=
  if (length data <? header_size)%nat then Raise ValueError
  else
    let version := le_decode (take 1 data) in
    let expected_items := le_decode (take 4 (drop 1 data)) in
    let fp_rate := take 8 (drop 5 data) in
    let size_bits := le_decode (take 4 (drop 13 data)) in
    let num_hashes := le_decode (take 2 (drop 17 data)) in
    let array_len := Z.to_nat (le_decode (take 4 (drop 19 data))) in
    if negb (version =? _FORMAT_VERSION) then Raise ValueError
    else if (length data <? header_size + array_len)%nat then Raise ValueError
    else
      let bit_array_data := take array_len (drop header_size data) in
      Ok (mk_bloom expected_items fp_rate size_bits num_hashes bit_array_data).

(** ** Bits of the array *)

Definition byte (b : Z) : Prop := 0 <= b < 256.

Record bloom_ok (bf : BloomFilter) : Prop := {
  bf_size : 1 <= _size_bits bf;
  bf_hashes : 1 <= _num_hash_functions bf;
  bf_length : Z.of_nat (length (_bit_array bf)) = (_size_bits bf + 7) / 8;
  bf_bytes : ∀ b, b ∈ _bit_array bf → byte b;
}.

(** The bit at a position, out of range absent. *)
Definition bit_at (bits : list Z) (p : Z) : bool :=
  match bits !! Z.to_nat (p / 8) with Some b => Z.testbit b (p mod 8) | None => false end.

Definition in_range (bits : list Z) (p : Z) : Prop :=
  0 <= p ∧ p / 8 < Z.of_nat (length bits).

Lemma shiftl_1 k : 0 <= k → Z.shiftl 1 k = 2 ^ k.
Proof. intros. by rewrite Z.shiftl_mul_pow2, Z.mul_1_l. Qed.

Lemma land_bit b k : 0 <= k → negb (Z.land b (Z.shiftl 1 k) =? 0) = Z.testbit b k.
Proof.
  intros Hk. rewrite shiftl_1 by done. destruct (Z.testbit b k) eqn:E.
  - apply negb_true_iff, Z.eqb_neq. intros H0.
    assert (Z.testbit (Z.land b (2 ^ k)) k = true) as Ht
      by (rewrite Z.land_spec, E, Z.pow2_bits_true by done; done).
    by rewrite H0, Z.bits_0 in Ht.
  - apply negb_false_iff, Z.eqb_eq. apply Z.bits_inj'. intros n Hn.
    rewrite Z.land_spec, Z.bits_0. destruct (decide (n = k)) as [->|Hne]; [by rewrite E|].
    rewrite Z.pow2_bits_false by done. apply andb_false_r.
Qed.

Lemma lor_bit b k j : 0 <= k → 0 <= j →
  Z.testbit (Z.lor b (Z.shiftl 1 k)) j = Z.testbit b j || (j =? k).
Proof.
  intros Hk Hj. rewrite shiftl_1, Z.lor_spec by done. f_equal.
  destruct (Z.eqb_spec j k) as [->|Hne]; [by apply Z.pow2_bits_true|].
  by apply Z.pow2_bits_false.
Qed.

Lemma lor_byte b k : byte b → 0 <= k < 8 → byte (Z.lor b (Z.shiftl 1 k)).
Proof.
  intros [H0 H1] Hk. rewrite shiftl_1 by lia. pose proof (Z.pow_nonneg 2 k ltac:(lia)) as Hp.
  assert (0 <= Z.lor b (2 ^ k)) as Hn by (apply Z.lor_nonneg; split; [done|lia]).
  split; [done|]. destruct (decide (Z.lor b (2 ^ k) = 0)) as [->|Hz]; [done|].
  apply (Z.log2_lt_pow2 _ 8); [lia|]. rewrite Z.log2_lor by lia.
  rewrite Z.log2_pow2 by lia. apply Z.max_lub_lt; [|lia].
  destruct (decide (b = 0)) as [->|]; [done|]. apply Z.log2_lt_pow2; lia.
Qed.

Lemma _get_bit_spec bits p : in_range bits p → _get_bit bits p = Ok (bit_at bits p).
Proof.
  intros [H0 H1]. unfold _get_bit, bit_at. pose proof (Z.div_pos p 8 H0 ltac:(lia)).
  destruct (lookup_lt_is_Some_2 bits (Z.to_nat (p / 8))) as [b ->]; [lia|].
  by rewrite land_bit by (apply Z.mod_pos_bound; lia).
Qed.

Lemma _set_bit_spec bits p :
  in_range bits p → (∀ b, b ∈ bits → byte b) → ∃ bits', _set_bit bits p = Ok bits' ∧
    length bits' = length bits ∧ (∀ b, b ∈ bits' → byte b) ∧
    ∀ q, 0 <= q → bit_at bits' q = bit_at bits q || (q =? p).
Proof.
  intros [H0 H1] Hb. unfold _set_bit. pose proof (Z.div_pos p 8 H0 ltac:(lia)).
  destruct (lookup_lt_is_Some_2 bits (Z.to_nat (p / 8))) as [b Hlk]; [lia|]. rewrite Hlk.
  eexists. split; [done|]. split; [by rewrite length_insert|]. split.
  - intros x [i Hx]%list_elem_of_lookup. apply list_lookup_insert_Some in Hx as [(_&<-&_)|[_ Hx]].
    + apply lor_byte; [|by apply Z.mod_pos_bound]. by eapply Hb, list_elem_of_lookup_2.
    + by eapply Hb, list_elem_of_lookup_2.
  - intros q Hq. unfold bit_at. pose proof (Z.div_pos q 8 Hq ltac:(lia)).
    pose proof (Z.div_pos p 8 H0 ltac:(lia)).
    destruct (decide (p / 8 = q / 8)) as [E|Hne].
    + rewrite <- E, list_lookup_insert_eq, Hlk by (by eapply lookup_lt_Some).
      rewrite lor_bit by (apply Z.mod_pos_bound; lia). f_equal.
      pose proof (Z.div_mod q 8). pose proof (Z.div_mod p 8).
      destruct (Z.eqb_spec (q mod 8) (p mod 8)), (Z.eqb_spec q p); try done; exfalso; lia.
    + rewrite list_lookup_insert_ne by lia.
      destruct (Z.eqb_spec q p) as [->|]; [done|]. by rewrite orb_false_r.
Qed.

(** ** Adding and testing keys *)

Section keys.
Context (md5 sha256 : string → list Z).
Implicit Types (bf : BloomFilter) (key : string).

Lemma positions_in_range bf key p :
  bloom_ok bf → p ∈ _get_bit_positions md5 sha256 bf key → in_range (_bit_array bf) p.
Proof.
  intros [Hs Hk Hl _]. unfold _get_bit_positions. destruct (_get_hash_values _ _ key) as [h1 h2].
  intros (i&->&_)%list_elem_of_fmap.
  pose proof (Z.mod_pos_bound (h1 + i * h2) (_size_bits bf) ltac:(lia)) as Hm.
  split; [lia|]. rewrite Hl. set (p := _ mod _) in *.
  pose proof (Z.div_mod p 8). pose proof (Z.mod_pos_bound p 8).
  pose proof (Z.div_mod (_size_bits bf + 7) 8). pose proof (Z.mod_pos_bound (_size_bits bf + 7) 8).
  lia.
Qed.

Lemma set_bits_spec ps bits :
  (∀ p, p ∈ ps → in_range bits p) → (∀ b, b ∈ bits → byte b) →
  ∃ bits', set_bits bits ps = Ok bits' ∧ length bits' = length bits ∧
    (∀ b, b ∈ bits' → byte b) ∧
    ∀ q, 0 <= q → bit_at bits' q = true ↔ bit_at bits q = true ∨ q ∈ ps.
Proof.
  revert bits. induction ps as [|p ps IH]; intros bits Hr Hb; simpl.
  { exists bits. split; [done|]. split; [done|]. split; [done|]. set_solver. }
  destruct (_set_bit_spec bits p) as (bits1&->&Hl1&Hb1&Hq1); [apply Hr; left|done|]. simpl.
  destruct (IH bits1) as (bits2&->&Hl2&Hb2&Hq2).
  - intros q Hq. unfold in_range. rewrite Hl1. apply Hr. by right.
  - done.
  - exists bits2. split; [done|]. split; [congruence|]. split; [done|]. intros q Hq.
    rewrite Hq2, Hq1, orb_true_iff, Z.eqb_eq, elem_of_cons by done. tauto.
Qed.

Lemma all_bits_spec ps bits :
  (∀ p, p ∈ ps → in_range bits p) → all_bits bits ps = Ok (forallb (bit_at bits) ps).
Proof.
  induction ps as [|p ps IH]; intros Hr; simpl; [done|].
  rewrite _get_bit_spec by (apply Hr; left). simpl. destruct (bit_at bits p); [|done].
  apply IH. intros q Hq. apply Hr. by right.
Qed.

Definition same_shape bf bf' : Prop :=
  _size_bits bf' = _size_bits bf ∧ _num_hash_functions bf' = _num_hash_functions bf.

Lemma same_shape_positions bf bf' key :
  same_shape bf bf' → _get_bit_positions md5 sha256 bf' key = _get_bit_positions md5 sha256 bf key.
Proof. intros [H1 H2]. unfold _get_bit_positions. by rewrite H1, H2. Qed.

Lemma positions_nonneg bf key p :
  bloom_ok bf → p ∈ _get_bit_positions md5 sha256 bf key → 0 <= p.
Proof. intros Hok Hp. by destruct (positions_in_range bf key p Hok Hp). Qed.

Lemma add_spec bf key :
  bloom_ok bf → ∃ bf', add md5 sha256 bf key = Ok bf' ∧ bloom_ok bf' ∧ same_shape bf bf' ∧
    ∀ q, 0 <= q → bit_at (_bit_array bf') q = true ↔
      bit_at (_bit_array bf) q = true ∨ q ∈ _get_bit_positions md5 sha256 bf key.
Proof.
  intros Hok. unfold add.
  destruct (set_bits_spec (_get_bit_positions md5 sha256 bf key) (_bit_array bf))
    as (bits&->&Hl&Hb&Hq).
  - intros p. by apply positions_in_range.
  - apply Hok.
  - simpl. eexists. split; [done|]. split; [|by split].
    destruct Hok. split; simpl; [done|done|by rewrite Hl|done].
Qed.

Fixpoint add_all bf (keys : list string) : result BloomFilter :=
  match keys with
  | [] => Ok bf
  | key :: keys' => let* bf' := add md5 sha256 bf key in add_all bf' keys'
  end.

Lemma add_all_spec bf keys :
  bloom_ok bf → ∃ bf', add_all bf keys = Ok bf' ∧ bloom_ok bf' ∧ same_shape bf bf' ∧
    ∀ q, 0 <= q → bit_at (_bit_array bf') q = true ↔
      bit_at (_bit_array bf) q = true ∨
      ∃ key, key ∈ keys ∧ q ∈ _get_bit_positions md5 sha256 bf key.
Proof.
  revert bf. induction keys as [|key keys IH]; intros bf Hok; simpl.
  { exists bf. split; [done|]. split; [done|]. split; [done|]. set_solver. }
  destruct (add_spec bf key Hok) as (bf1&->&Hok1&Hsh1&Hq1). simpl.
  destruct (IH bf1 Hok1) as (bf2&->&Hok2&Hsh2&Hq2). exists bf2.
  split; [done|]. split; [done|].
  split; [by destruct Hsh1, Hsh2; split; congruence|]. intros q Hq. rewrite Hq2, Hq1 by done.
  setoid_rewrite elem_of_cons. setoid_rewrite (same_shape_positions bf bf1); [|done]. naive_solver.
Qed.

Lemma might_contain_spec bf key :
  bloom_ok bf → ∃ b, might_contain md5 sha256 bf key = Ok b ∧
    (b = true ↔ ∀ p, p ∈ _get_bit_positions md5 sha256 bf key → bit_at (_bit_array bf) p = true).
Proof.
  intros Hok. unfold might_contain. rewrite all_bits_spec by (intros p; by apply positions_in_range).
  eexists. split; [done|]. apply forallb_elem.
Qed.
End keys.

Lemma bit_at_zeros n q : bit_at (replicate n 0) q = false.
Proof.
  unfold bit_at. destruct (replicate n 0 !! Z.to_nat (q / 8)) as [b|] eqn:E; [|done].
  apply lookup_replicate in E as [-> _]. apply Z.bits_0.
Qed.

Lemma init_ok items rate m k bf : init items rate m k = Ok bf → bloom_ok bf.
Proof.
  unfold init. destruct (items <? 1); [done|]. intros [= <-]. split; simpl; [lia|lia|..].
  - rewrite length_replicate, Z2Nat.id; [done|]. apply Z.div_pos; lia.
  - intros b Hb. apply elem_of_replicate in Hb as [-> _]. by split.
Qed.

(** ** Encoding *)

Lemma le_encode_length w z : length (le_encode w z) = w.
Proof. revert z. induction w as [|w IH]; intros z; simpl; [done|]. by rewrite IH. Qed.

Lemma le_decode_encode w z : 0 <= z < 256 ^ Z.of_nat w → le_decode (le_encode w z) = z.
Proof.
  revert z. induction w as [|w IH]; intros z Hz; simpl le_encode; simpl le_decode.
  - change (256 ^ Z.of_nat 0) with 1 in Hz. lia.
  - rewrite Nat2Z.inj_succ, Z.pow_succ_r in Hz by lia. rewrite IH.
    + pose proof (Z.div_mod z 256). lia.
    + split; [apply Z.div_pos; lia|]. apply Z.div_lt_upper_bound; lia.
Qed.

Lemma pack_Ok w z : 0 <= z < 256 ^ Z.of_nat w → pack w z = Ok (le_encode w z).
Proof.
  intros [H1 H2]. unfold pack. by rewrite (proj2 (Z.leb_le _ _) H1), (proj2 (Z.ltb_lt _ _) H2).
Qed.

Lemma pack_inv w z bs :
  pack w z = Ok bs → bs = le_encode w z ∧ 0 <= z < 256 ^ Z.of_nat w.
Proof.
  unfold pack. destruct (Z.leb_spec 0 z), (Z.ltb_spec z (256 ^ Z.of_nat w)); simpl; try done.
  by intros [= <-].
Qed.

(** What [deserialize] reads from the six header fields. *)
Lemma deserialize_fields v items rate size hashes len tail :
  length v = 1%nat → length items = 4%nat → length rate = 8%nat → length size = 4%nat →
  length hashes = 2%nat → length len = 4%nat →
  deserialize (v ++ items ++ rate ++ size ++ hashes ++ len ++ tail) =
    if negb (le_decode v =? _FORMAT_VERSION) then Raise ValueError
    else if (length tail <? Z.to_nat (le_decode len))%nat then Raise ValueError
    else Ok (mk_bloom (le_decode items) rate (le_decode size) (le_decode hashes)
               (take (Z.to_nat (le_decode len)) tail)).
Proof.
  intros. repeat match goal with
  | H : length ?l = S _ |- _ => destruct l as [|? l]; [done|]; simpl in H; apply Nat.succ_inj in H
  | H : length ?l = 0%nat |- _ => apply nil_length_inv in H; subst l
  end.
  unfold deserialize. cbn [app length take drop]. unfold header_size.
  cbn [Nat.ltb Nat.leb].
  destruct (negb _); [done|]. cbn [Nat.add].
  by destruct (Nat.ltb_spec (length tail) (Z.to_nat (le_decode [z2; z1; z0; z]))).
Qed.

(** A serialised filter is a header of six fields and the bits. *)
Lemma serialize_inv bf data :
  serialize bf = Ok data →
  data = le_encode 1 _FORMAT_VERSION ++ le_encode 4 (_expected_items bf)
    ++ _false_positive_rate bf ++ le_encode 4 (_size_bits bf)
    ++ le_encode 2 (_num_hash_functions bf)
    ++ le_encode 4 (Z.of_nat (length (_bit_array bf))) ++ _bit_array bf ∧
  0 <= _expected_items bf < 256 ^ 4 ∧ 0 <= _size_bits bf < 256 ^ 4 ∧
  0 <= _num_hash_functions bf < 256 ^ 2 ∧ Z.of_nat (length (_bit_array bf)) < 256 ^ 4.
Proof.
  unfold serialize.
  destruct (pack 1 _FORMAT_VERSION) as [v|] eqn:E1; [|done]. simpl.
  destruct (pack 4 (_expected_items bf)) as [i|] eqn:E2; [|done]. simpl.
  destruct (pack 4 (_size_bits bf)) as [s|] eqn:E3; [|done]. simpl.
  destruct (pack 2 (_num_hash_functions bf)) as [h|] eqn:E4; [|done]. simpl.
  destruct (pack 4 (Z.of_nat (length (_bit_array bf)))) as [l|] eqn:E5; [|done]. simpl.
  intros [= <-]. apply pack_inv in E1 as [-> _], E2 as [-> H2], E3 as [-> H3], E4 as [-> H4],
    E5 as [-> H5]. auto with lia.
Qed.

Lemma deserialize_header bf tail data :
  length (_false_positive_rate bf) = 8%nat → serialize bf = Ok data →
  deserialize (le_encode 1 _FORMAT_VERSION ++ le_encode 4 (_expected_items bf)
    ++ _false_positive_rate bf ++ le_encode 4 (_size_bits bf)
    ++ le_encode 2 (_num_hash_functions bf)
    ++ le_encode 4 (Z.of_nat (length (_bit_array bf))) ++ tail) =
  if (length tail <? length (_bit_array bf))%nat then Raise ValueError
  else Ok (mk_bloom (_expected_items bf) (_false_positive_rate bf) (_size_bits bf)
             (_num_hash_functions bf) (take (length (_bit_array bf)) tail)).
Proof.
  intros Hr (_&Hi&Hs&Hh&Hl)%serialize_inv. rewrite deserialize_fields
    by (done || apply le_encode_length).
  rewrite !le_decode_encode by (done || (simpl; unfold _FORMAT_VERSION; lia)).
  by rewrite Nat2Z.id.
Qed.

(** No false negatives, and no other answers than the bits justify.  Adding
    any keys to a fresh filter succeeds; afterwards [might_contain] never
    raises, answers [True] for every added key, and answers [True] exactly when
    every bit position of the key is a position of some added key. *)
Theorem bloom_membership (md5 sha256 : string → list Z) items rate m k bf keys :
  init items rate m k = Ok bf →
  ∃ bf', add_all md5 sha256 bf keys = Ok bf' ∧
    ∀ key, ∃ b, might_contain md5 sha256 bf' key = Ok b ∧
      (key ∈ keys → b = true) ∧
      (b = true ↔ ∀ p, p ∈ _get_bit_positions md5 sha256 bf' key →
         ∃ key', key' ∈ keys ∧ p ∈ _get_bit_positions md5 sha256 bf' key').
Proof.
  intros Hinit. pose proof (init_ok _ _ _ _ _ Hinit) as Hok.
  destruct (add_all_spec md5 sha256 bf keys Hok) as (bf'&Hadd&Hok'&Hsh&Hq).
  exists bf'. split; [done|]. intros key.
  destruct (might_contain_spec md5 sha256 bf' key Hok') as (b&Hb&Hiff).
  exists b. split; [done|].
  assert (b = true ↔ ∀ p, p ∈ _get_bit_positions md5 sha256 bf' key →
    ∃ key', key' ∈ keys ∧ p ∈ _get_bit_positions md5 sha256 bf' key') as Hb'.
  { assert (∀ key, _get_bit_positions md5 sha256 bf' key = _get_bit_positions md5 sha256 bf key)
      as Hpos by (intros; by apply same_shape_positions).
    rewrite Hiff. setoid_rewrite Hpos.
    assert (∀ q, bit_at (_bit_array bf) q = false) as Hzero.
    { intros q. unfold init in Hinit. destruct (items <? 1); [done|]. injection Hinit as <-.
      apply bit_at_zeros. }
    assert (∀ p, p ∈ _get_bit_positions md5 sha256 bf key →
      bit_at (_bit_array bf') p = true ↔
      ∃ key', key' ∈ keys ∧ p ∈ _get_bit_positions md5 sha256 bf key') as Hp.
    { intros p Hp. rewrite Hq, Hzero by (by apply (positions_nonneg md5 sha256 bf key)). naive_solver. }
    split; intros Hall p Hin; apply Hp; auto. }
  split; [|done]. intros Hin. apply Hb'. eauto.
Qed.

(** Digests for the witness, at lengths the code relies on. *)
Definition demo_digest (salt : Z) (key : string) : list Z :=
  le_encode 16 (poly_hash salt key).

Lemma bloom_membership_witness :
  ∃ bf bf', init 10 (replicate 8 0) 96 7 = Ok bf ∧
    add_all (demo_digest 3) (demo_digest 5) bf ["k1"; "k2"] = Ok bf' ∧
    might_contain (demo_digest 3) (demo_digest 5) bf' "k2" = Ok true.
Proof.
  eexists. destruct (bloom_membership (demo_digest 3) (demo_digest 5) 10 (replicate 8 0) 96 7 _
    ["k1"; "k2"] eq_refl) as (bf'&Hadd&Hkey).
  exists bf'. split; [reflexivity|]. split; [exact Hadd|].
  destruct (Hkey "k2") as (b&Hb&Hin&_). rewrite Hb, Hin by set_solver. reflexivity.
Defined.

(** Round trip and framing.  [deserialize] recovers a serialised filter,
    ignoring bytes behind it; every proper prefix of the encoding is refused;
    serialisation raises only when a field exceeds its width. *)
Theorem bloom_roundtrip (bf : BloomFilter) :
  length (_false_positive_rate bf) = 8%nat →
  (∀ data, serialize bf = Ok data →
    (∀ rest, deserialize (data ++ rest) = Ok bf) ∧
    ∀ n, (n < length data)%nat → deserialize (take n data) = Raise ValueError) ∧
  (is_ok (serialize bf) = true ↔
    0 <= _expected_items bf < 256 ^ 4 ∧ 0 <= _size_bits bf < 256 ^ 4 ∧
    0 <= _num_hash_functions bf < 256 ^ 2 ∧ Z.of_nat (length (_bit_array bf)) < 256 ^ 4).
Proof.
  intros Hr. split.
  - intros data Hs. pose proof (serialize_inv bf data Hs) as [-> _]. split.
    + intros rest. rewrite <- !app_assoc. erewrite deserialize_header by done.
      rewrite length_app. destruct (Nat.ltb_spec (length (_bit_array bf) + length rest)
        (length (_bit_array bf))); [lia|]. rewrite take_app_length. by destruct bf.
    + intros n Hn. rewrite !length_app, !le_encode_length, Hr in Hn.
      destruct (decide (n < header_size)%nat) as [Hlt|Hge].
      { unfold deserialize. rewrite length_take.
        rewrite (proj2 (Nat.ltb_lt _ header_size)) by lia. done. }
      unfold header_size in Hge.
      assert (∀ m (l1 l2 : list Z), (length l1 <= m)%nat →
        take m (l1 ++ l2) = l1 ++ take (m - length l1) l2) as Htake
        by (intros; by rewrite take_app, take_ge).
      rewrite !Htake by (rewrite ?le_encode_length, ?Hr; lia).
      erewrite deserialize_header by done. rewrite length_take, !le_encode_length, Hr.
      by rewrite (proj2 (Nat.ltb_lt _ _)) by lia.
  - split.
    + destruct (serialize bf) as [data|] eqn:E; [|done]. intros _.
      by destruct (serialize_inv bf data E) as (_&?).
    + intros (H1&H2&H3&H4). unfold serialize.
      by rewrite !pack_Ok by (done || (simpl; unfold _FORMAT_VERSION; lia)).
Qed.

Lemma bloom_roundtrip_witness :
  ∃ data, serialize (mk_bloom 10 [1; 2; 3; 4; 5; 6; 7; 8] 12 7 [255; 9]) = Ok data ∧
    deserialize data = Ok (mk_bloom 10 [1; 2; 3; 4; 5; 6; 7; 8] 12 7 [255; 9]).
Proof.
  eexists. split; [vm_compute; reflexivity|].
  destruct (bloom_roundtrip (mk_bloom 10 [1; 2; 3; 4; 5; 6; 7; 8] 12 7 [255; 9]) eq_refl) as [H _].
  match goal with |- deserialize ?d = _ =>
    pose proof (proj1 (H d ltac:(vm_compute; reflexivity)) []) as Hd end.
  rewrite app_nil_r in Hd. exact Hd.
Defined.
