(* ===== verification/Merkle.v ===== *)
(** * The Merkle tree of anti-entropy

    Models [MerkleTree] of src/key-value-store/src/kv_store/cluster/merkle_tree.py.
    SHA-256 is a parameter; strings are their UTF-8 bytes.  A key lives in the
    bucket its digest selects; the bucket hashes are the leaves of a binary tree
    stored as a heap with the root at index 1. *)
From S2P Require Import Prelude PyList PyDict.
Local Open Scope nat_scope.

(** ** Bytes, hexadecimal and list cells *)

Fixpoint utf8 (s : string) : list Z :=
  match s with
  | EmptyString => []
  | String a s' => Z.of_N (Ascii.N_of_ascii a) :: utf8 s'
  end.

Definition hex_digit (d : Z) : Ascii.ascii :=
  Ascii.ascii_of_N (Z.to_N (if (d <? 10)%Z then 48 + d else 87 + d)).

(** [bytes.hex()] *)
Fixpoint hex (bs : list Z) : string :=
  match bs with
  | [] => ""
  | b :: bs' => String (hex_digit (b / 16)) (String (hex_digit (b mod 16)) (hex bs'))
  end.

Fixpoint be_decode (acc : Z) (bs : list Z) : Z :=
  match bs with
  | [] => acc
  | b :: bs' => be_decode (256 * acc + b)%Z bs'
  end.

Fixpoint be_encode (width : nat) (z : Z) : list Z :=
  match width with
  | O => []
  | S w => be_encode w (z / 256) ++ [z mod 256]%Z
  end.

(** [len(part).to_bytes(8, "big")] *)
Definition length_prefix (part : list Z) : result (list Z) :=
  let n := Z.of_nat (length part) in
  if (n <? 256 ^ 8)%Z then Ok (be_encode 8 n) else Raise OverflowError.

Definition cell {A} (l : list A) (i : nat) : result A :=
  match l !! i with Some x => Ok x | None => Raise IndexError end.

Definition set_cell {A} (l : list A) (i : nat) (x : A) : result (list A) :=
  if (i <? length l)%nat then Ok (<[i := x]> l) else Raise IndexError.

Definition dict_cell (d : dict string string) (k : string) : result string :=
  match dget k d with Some v => Ok v | None => Raise KeyError end.

(** ** The tree *)

Record MerkleTree := mk_tree {
  bucket_count : nat;
  buckets : list (dict string string);
  bucket_keys : list (list string);
  bucket_hashes : list string;
  heap : list (list Z);
  root_hash : string;
}.

Record SyncDiff := mk_diff {
  bucket_id : nat;
  local_hash : string;
  remote_hash : string;
  keys : list string;
}.

Section merkle.
Context (sha256 : list Z → list Z).
Implicit Types (t : MerkleTree) (key value_hash : string).

Definition _key_to_bucket (count : nat) key : nat :=
  Z.to_nat (be_decode 0 (take 4 (sha256 (utf8 key))) mod Z.of_nat count).

(** The bytes hashed for a bucket: both parts of every key, length-prefixed. *)
Fixpoint bucket_parts (bucket : dict string string) (ks : list string) : result (list Z) :=
  match ks with
  | [] => Ok []
  | key :: ks' =>
      let* value := dict_cell bucket key in
      let* n1 := length_prefix (utf8 key) in
      let* n2 := length_prefix (utf8 value) in
      let* rest := bucket_parts bucket ks' in
      Ok (n1 ++ utf8 key ++ n2 ++ utf8 value ++ rest)
  end.

Definition bucket_hash (bucket : dict string string) (ks : list string) : result string :=
  match bucket with
  | [] => Ok ""
  | _ => let* data := bucket_parts bucket ks in Ok (hex (sha256 data))
  end.

Definition _recompute_bucket t (b : nat) : result MerkleTree :=
  let* bucket := cell (buckets t) b in
  let* ks := cell (bucket_keys t) b in
  let* h := bucket_hash bucket ks in
  let* hs := set_cell (bucket_hashes t) b h in
  Ok (mk_tree (bucket_count t) (buckets t) (bucket_keys t) hs (heap t) (root_hash t)).

(** The digest of an inner node from the cells of its children. *)
Definition inner_hash (hp : list (list Z)) (index : nat) : result (list Z) :=
  let* l := cell hp (index * 2) in
  let* r := cell hp (index * 2 + 1) in
  Ok (sha256 (l ++ r)).

(** [for index in range(start, 0, -1)]. *)
Fixpoint build_inner (hp : list (list Z)) (start : nat) : result (list (list Z)) :=
  match start with
  | O => Ok hp
  | S index' =>
      let* d := inner_hash hp start in
      let* hp' := set_cell hp start d in
      build_inner hp' index'
  end.

Definition _recompute_root t : result MerkleTree :=
  let leaves := (λ h, sha256 (utf8 h)) <$> bucket_hashes t in
  let hp := replicate (bucket_count t) [] ++ leaves in
  let* hp' := build_inner hp (bucket_count t - 1) in
  let* top := cell hp' 1 in
  Ok (mk_tree (bucket_count t) (buckets t) (bucket_keys t) (bucket_hashes t) hp' (hex top)).

Fixpoint recompute_buckets t (bs : list nat) : result MerkleTree :=
  match bs with
  | [] => Ok t
  | b :: bs' => let* t' := _recompute_bucket t b in recompute_buckets t' bs'
  end.

Definition _recompute_all t : result MerkleTree :=
  let* t' := recompute_buckets t (seq 0 (bucket_count t)) in _recompute_root t'.

(** [bucket_count & (bucket_count - 1)] vanishes exactly on powers of two. *)
Definition init (count : Z) : result MerkleTree :=
  if ((1 <=? count) && (count <=? 65536) && (Z.land count (count - 1) =? 0))%Z
  then
    let n := Z.to_nat count in
    _recompute_all (mk_tree n (replicate n []) (replicate n []) (replicate n "") [] "")
  else Raise ValueError.

(** The [while index > 1] loop; [fuel] bounds the depth. *)
Fixpoint climb (fuel : nat) (hp : list (list Z)) (index : nat) : result (list (list Z)) :=
  if (1 <? index)%nat then
    match fuel with
    | O => Raise OutOfFuel
    | S fuel' =>
        let index' := index / 2 in
        let* d := inner_hash hp index' in
        let* hp' := set_cell hp index' d in
        climb fuel' hp' index'
    end
  else Ok hp.

Definition _update_path t (b : nat) : result MerkleTree :=
  let index := bucket_count t + b in
  let* h := cell (bucket_hashes t) b in
  let* hp := set_cell (heap t) index (sha256 (utf8 h)) in
  let* hp' := climb index hp index in
  let* top := cell hp' 1 in
  Ok (mk_tree (bucket_count t) (buckets t) (bucket_keys t) (bucket_hashes t) hp' (hex top)).

(** [keys.insert(bisect_left(keys, key), key)] and [keys.pop(bisect_left(keys, key))]. *)
Definition insort (ks : list string) key : list string :=
  let i := bisect_left ks key in take i ks ++ key :: drop i ks.
Definition pop_key (ks : list string) key : result (list string) :=
  let i := bisect_left ks key in
  if (i <? length ks)%nat then Ok (take i ks ++ drop (S i) ks) else Raise IndexError.

Definition update t key value_hash : result MerkleTree :=
  let b := _key_to_bucket (bucket_count t) key in
  let* bucket := cell (buckets t) b in
  if bool_decide (dget key bucket = Some value_hash) then Ok t
  else
    let* ks := cell (bucket_keys t) b in
    let ks' := if dmem key bucket then ks else insort ks key in
    let* bks := set_cell (bucket_keys t) b ks' in
    let* bs := set_cell (buckets t) b (dset key value_hash bucket) in
    let* t1 := _recompute_bucket
      (mk_tree (bucket_count t) bs bks (bucket_hashes t) (heap t) (root_hash t)) b in
    _update_path t1 b.

Definition remove t key : result MerkleTree :=
  let b := _key_to_bucket (bucket_count t) key in
  let* bucket := cell (buckets t) b in
  if dmem key bucket then
    let* ks := cell (bucket_keys t) b in
    let* ks' := pop_key ks key in
    let* bks := set_cell (bucket_keys t) b ks' in
    let* bs := set_cell (buckets t) b (ddel key bucket) in
    let* t1 := _recompute_bucket
      (mk_tree (bucket_count t) bs bks (bucket_hashes t) (heap t) (root_hash t)) b in
    _update_path t1 b
  else Ok t.

Definition value_hash_of t key : option string :=
  match buckets t !! _key_to_bucket (bucket_count t) key with
  | Some bucket => dget key bucket
  | None => None
  end.

Definition node_hash t (index : Z) : result string :=
  if ((1 <=? index) && (index <? Z.of_nat (length (heap t))))%Z
  then let* h := cell (heap t) (Z.to_nat index) in Ok (hex h)
  else Raise ValueError.

Definition key_page t (b : Z) (after : string) (limit : Z) : result (list string * bool) :=
  if ((0 <=? b) && (b <? Z.of_nat (bucket_count t)))%Z then
    if ((1 <=? limit) && (limit <=? 128))%Z then
      let* ks := cell (bucket_keys t) (Z.to_nat b) in
      let index := if bool_decide (after = "") then 0 else bisect_right ks after in
      let page := take (Z.to_nat limit) (drop index ks) in
      Ok (page, (index + length page <? length ks)%nat)
    else Raise ValueError
  else Raise ValueError.

Definition get_bucket_hash t (b : Z) : result string :=
  if ((b <? 0) || (Z.of_nat (bucket_count t) <=? b))%Z then Raise IndexError
  else cell (bucket_hashes t) (Z.to_nat b).

Definition get_keys_in_bucket t (b : Z) : result (list string) :=
  if ((b <? 0) || (Z.of_nat (bucket_count t) <=? b))%Z then Raise IndexError
  else cell (bucket_keys t) (Z.to_nat b).

Fixpoint compare_loop t (other : dict nat string) (bs : list nat) : result (list SyncDiff) :=
  match bs with
  | [] => Ok []
  | b :: bs' =>
      let* local := cell (bucket_hashes t) b in
      let remote := dget_or "" b other in
      let* bucket := cell (buckets t) b in
      let* rest := compare_loop t other bs' in
      Ok (if bool_decide (local = remote) then rest
          else mk_diff b local remote (dkeys bucket) :: rest)
  end.

Definition compare t (other_bucket_hashes : dict nat string) : result (list SyncDiff) :=
  compare_loop t other_bucket_hashes (seq 0 (bucket_count t)).
End merkle.

Lemma cell_Ok {A} (l : list A) i x : l !! i = Some x → cell l i = Ok x.
Proof. unfold cell. by intros ->. Qed.

Lemma set_cell_Ok {A} (l : list A) i x : i < length l → set_cell l i x = Ok (<[i := x]> l).
Proof. intros Hi. unfold set_cell. by rewrite (proj2 (Nat.ltb_lt _ _)). Qed.

(** ** The heap: every inner cell hashes its children *)

Section heap.
Context (sha256 : list Z → list Z).
Implicit Types hp : list (list Z).

Definition inner_ok hp (i : nat) : Prop :=
  ∃ l r, hp !! (i * 2) = Some l ∧ hp !! (i * 2 + 1) = Some r ∧ hp !! i = Some (sha256 (l ++ r)).

Record heap_ok (n : nat) (hashes : list string) hp : Prop := {
  ho_length : length hp = 2 * n;
  ho_zero : hp !! 0 = Some [];
  ho_leaf : ∀ i h, hashes !! i = Some h → hp !! (n + i) = Some (sha256 (utf8 h));
  ho_inner : ∀ i, 1 <= i < n → inner_ok hp i;
}.

Lemma inner_hash_Ok hp i l r :
  hp !! (i * 2) = Some l → hp !! (i * 2 + 1) = Some r →
  inner_hash sha256 hp i = Ok (sha256 (l ++ r)).
Proof. intros Hl Hr. unfold inner_hash. by rewrite (cell_Ok _ _ _ Hl), (cell_Ok _ _ _ Hr). Qed.

(** Recomputing one inner cell makes it right, and disturbs only its parent. *)
Lemma inner_step hp i n :
  length hp = 2 * n → 1 <= i < n → ∃ d, inner_hash sha256 hp i = Ok d ∧
    set_cell hp i d = Ok (<[i := d]> hp) ∧ inner_ok (<[i := d]> hp) i ∧
    ∀ j, 1 <= j → j ≠ i → j ≠ i / 2 → inner_ok hp j → inner_ok (<[i := d]> hp) j.
Proof.
  intros Hlen Hi.
  destruct (lookup_lt_is_Some_2 hp (i * 2)) as [l Hl]; [lia|].
  destruct (lookup_lt_is_Some_2 hp (i * 2 + 1)) as [r Hr]; [lia|].
  exists (sha256 (l ++ r)). split; [by apply inner_hash_Ok|].
  split; [apply set_cell_Ok; lia|]. split.
  - exists l, r. rewrite !list_lookup_insert_ne by lia.
    split; [done|]. split; [done|]. apply list_lookup_insert_eq. lia.
  - intros j Hj Hji Hjp (l'&r'&Hl'&Hr'&Hd).
    assert (j * 2 ≠ i ∧ j * 2 + 1 ≠ i) as [H1 H2].
    { pose proof (Nat.div_mod_eq i 2). pose proof (Nat.mod_upper_bound i 2).
      split; intros E; apply Hjp; lia. }
    exists l', r'. by rewrite !list_lookup_insert_ne by lia.
Qed.

Lemma build_inner_spec n start hp :
  length hp = 2 * n → start < n → (∀ i, start < i < n → inner_ok hp i) →
  ∃ hp', build_inner sha256 hp start = Ok hp' ∧ length hp' = 2 * n ∧
    (∀ i, 1 <= i < n → inner_ok hp' i) ∧ (∀ j, j = 0 ∨ n <= j → hp' !! j = hp !! j).
Proof.
  revert hp. induction start as [|start IH]; intros hp Hlen Hst Hin.
  { exists hp. split; [done|]. split; [done|]. split; [|done]. intros i Hi. apply Hin. lia. }
  destruct (inner_step hp (S start) n Hlen) as (d&Hd&Hset&Hok&Hkeep); [lia|].
  destruct (IH (<[S start := d]> hp)) as (hp'&Hb&Hl&Hi&Hsame).
  - by rewrite length_insert.
  - lia.
  - intros i Hi. destruct (decide (i = S start)) as [->|Hne]; [done|].
    apply Hkeep; [lia|done| |apply Hin; lia].
    pose proof (Nat.div_mod_eq (S start) 2). pose proof (Nat.mod_upper_bound (S start) 2). lia.
  - exists hp'. cbn [build_inner]. rewrite Hd. cbn [rbind]. rewrite Hset. cbn [rbind].
    split; [done|]. split; [done|]. split; [done|]. intros j Hj.
    rewrite Hsame, list_lookup_insert_ne by lia. done.
Qed.

(** The proper ancestors of a heap index. *)
Definition ancestor (i index : nat) : Prop := ∃ k, i = index / 2 ^ S k.

Lemma ancestor_step i index : ancestor i index ↔ i = index / 2 ∨ ancestor i (index / 2).
Proof.
  unfold ancestor. split.
  - intros [[|k] ->]; [by left|]. right. exists k. by rewrite Nat.Div0.div_div, Nat.pow_succ_r'.
  - intros [->|[k ->]]; [by exists 0|]. exists (S k).
    by rewrite Nat.Div0.div_div, <- Nat.pow_succ_r'.
Qed.

Lemma climb_spec n fuel hp index :
  length hp = 2 * n → 1 <= index < 2 * n → index <= fuel →
  (∀ i, 1 <= i < n → ¬ ancestor i index → inner_ok hp i) →
  ∃ hp', climb sha256 fuel hp index = Ok hp' ∧ length hp' = 2 * n ∧
    (∀ i, 1 <= i < n → inner_ok hp' i) ∧ (∀ j, j = 0 ∨ n <= j → hp' !! j = hp !! j).
Proof.
  revert hp index. induction fuel as [|fuel IH]; intros hp index Hlen Hix Hfuel Hin; [lia|].
  cbn [climb]. destruct (Nat.ltb_spec 1 index) as [Hgt|Hle].
  - pose proof (Nat.div_mod_eq index 2). pose proof (Nat.mod_upper_bound index 2).
    destruct (inner_step hp (index / 2) n Hlen) as (d&Hd&Hset&Hok&Hkeep); [lia|].
    rewrite Hd. cbn [rbind]. rewrite Hset. cbn [rbind].
    destruct (IH (<[index / 2 := d]> hp) (index / 2)) as (hp'&->&Hl&Hi&Hsame).
    + by rewrite length_insert.
    + lia.
    + lia.
    + intros i Hi Hna. destruct (decide (i = index / 2)) as [->|Hne]; [done|].
      apply Hkeep; [lia|done| |].
      * intros ->. apply Hna, ancestor_step. by left.
      * apply Hin; [done|]. rewrite ancestor_step. tauto.
    + exists hp'. split; [done|]. split; [done|]. split; [done|]. intros j Hj.
      rewrite Hsame, list_lookup_insert_ne by lia. done.
  - exists hp. split; [done|]. split; [done|]. split; [|done]. intros i Hi. apply Hin; [done|].
    intros [k ->]. assert (index = 1) as -> by lia.
    assert (2 <= 2 ^ S k) by (rewrite Nat.pow_succ_r'; pose proof (Nat.pow_nonzero 2 k); lia).
    rewrite (Nat.div_small 1) in Hi by lia. lia.
Qed.

(** The leaves determine the heap. *)
Lemma heap_unique n hashes hp1 hp2 :
  length hashes = n → heap_ok n hashes hp1 → heap_ok n hashes hp2 → hp1 = hp2.
Proof.
  intros Hn [L1 Z1 F1 I1] [L2 Z2 F2 I2]. apply list_eq. intros i.
  remember (2 * n - i) as m eqn:Hm. revert i Hm. induction (lt_wf m) as [m _ IH]. intros i Hm.
  destruct (decide (i < 2 * n)) as [Hi|Hi].
  2:{ rewrite !lookup_ge_None_2 by lia. done. }
  destruct (decide (i = 0)) as [->|H0]; [by rewrite Z1, Z2|].
  destruct (decide (i < n)) as [Hin|Hin].
  - destruct (I1 i) as (l1&r1&Hl1&Hr1&->); [lia|]. destruct (I2 i) as (l2&r2&Hl2&Hr2&->); [lia|].
    rewrite (IH (2 * n - i * 2)) in Hl1 by lia. rewrite (IH (2 * n - (i * 2 + 1))) in Hr1 by lia.
    congruence.
  - destruct (lookup_lt_is_Some_2 hashes (i - n)) as [h Hh]; [lia|].
    pose proof (F1 _ _ Hh) as E1. pose proof (F2 _ _ Hh) as E2.
    replace (n + (i - n)) with i in E1, E2 by lia. congruence.
Qed.
End heap.

(** ** The tree invariant *)

Section tree.
Context (sha256 : list Z → list Z).
Implicit Types (t : MerkleTree) (key value_hash : string).

(** Strings whose length fits the eight-byte prefix. *)
Definition short (s : string) : Prop := (Z.of_nat (length (utf8 s)) < 256 ^ 8)%Z.

Record bucket_ok (count b : nat) (bucket : dict string string) : Prop := {
  bo_dict : dict_ok bucket;
  bo_home : ∀ key, key ∈ dkeys bucket → _key_to_bucket sha256 count key = b;
  bo_short : ∀ key v, dget key bucket = Some v → short key ∧ short v;
}.

(** The digest of a bucket as a function of its contents. *)
Definition digest (bucket : dict string string) : result string :=
  bucket_hash sha256 bucket (py_sorted (dkeys bucket)).

Record tree_ok t : Prop := {
  to_count : 1 <= bucket_count t;
  to_buckets : length (buckets t) = bucket_count t;
  to_hashes : length (bucket_hashes t) = bucket_count t;
  to_keys : bucket_keys t = (λ d, py_sorted (dkeys d)) <$> buckets t;
  to_bucket : ∀ b d, buckets t !! b = Some d → bucket_ok (bucket_count t) b d ∧
    ∃ h, digest d = Ok h ∧ bucket_hashes t !! b = Some h;
  to_heap : heap_ok sha256 (bucket_count t) (bucket_hashes t) (heap t);
  to_root : ∃ top, heap t !! 1 = Some top ∧ root_hash t = hex top;
}.

Lemma length_prefix_Ok s : short s → length_prefix (utf8 s) = Ok (be_encode 8 (Z.of_nat (length (utf8 s)))).
Proof. intros Hs. unfold length_prefix. by rewrite (proj2 (Z.ltb_lt _ _)). Qed.

Lemma bucket_parts_total bucket ks :
  (∀ key, key ∈ ks → ∃ v, dget key bucket = Some v ∧ short key ∧ short v) →
  ∃ data, bucket_parts bucket ks = Ok data.
Proof.
  induction ks as [|key ks IH]; intros Hall; simpl; [by eexists|].
  destruct (Hall key) as (v&Hv&Hk&Hs); [left|]. unfold dict_cell. rewrite Hv. simpl.
  rewrite !length_prefix_Ok by done. simpl. destruct IH as [data ->].
  { intros k Hin. apply Hall. by right. }
  by eexists.
Qed.

Lemma digest_total count b bucket : bucket_ok count b bucket → ∃ h, digest bucket = Ok h.
Proof.
  intros [Hd _ Hs]. unfold digest, bucket_hash. destruct bucket as [|kv d] eqn:E; [by eexists|].
  rewrite <- E in *. destruct (bucket_parts_total bucket (py_sorted (dkeys bucket))) as [data ->].
  - intros key. rewrite py_sorted_perm. intros [v Hv]%dmem_spec%dmem_true. eauto.
  - by eexists.
Qed.

Lemma bucket_index_lt count key : 1 <= count → _key_to_bucket sha256 count key < count.
Proof.
  intros Hc. unfold _key_to_bucket.
  pose proof (Z.mod_pos_bound (be_decode 0 (take 4 (sha256 (utf8 key)))) (Z.of_nat count)). lia.
Qed.

(** Replacing a bucket: the incremental hashing restores the invariant. *)
Definition replace_bucket t (b : nat) (d : dict string string) : result MerkleTree :=
  let* t1 := _recompute_bucket sha256
    (mk_tree (bucket_count t) (<[b := d]> (buckets t))
       (<[b := py_sorted (dkeys d)]> (bucket_keys t)) (bucket_hashes t) (heap t) (root_hash t)) b in
  _update_path sha256 t1 b.

Lemma replace_bucket_ok t b d :
  tree_ok t → b < bucket_count t → bucket_ok (bucket_count t) b d →
  ∃ t', replace_bucket t b d = Ok t' ∧ tree_ok t' ∧ bucket_count t' = bucket_count t ∧
    buckets t' = <[b := d]> (buckets t).
Proof.
  intros Ht Hb Hd. destruct (digest_total _ _ _ Hd) as [h Hh].
  destruct Ht as [Hc Hlb Hlh Hkeys Hbk [Hlen Hz Hleaf Hin] _].
  set (n := bucket_count t) in *. set (hs := <[b := h]> (bucket_hashes t)).
  set (hp0 := <[n + b := sha256 (utf8 h)]> (heap t)).
  destruct (climb_spec sha256 n (n + b) hp0 (n + b)) as (hp&Hclimb&Hl&Hi&Hsame).
  - unfold hp0. by rewrite length_insert.
  - lia.
  - done.
  - intros i Hi Hna. destruct (Hin i Hi) as (l&r&H1&H2&H3). exists l, r. unfold hp0.
    assert (i * 2 ≠ n + b ∧ i * 2 + 1 ≠ n + b) as [N1 N2].
    { pose proof (Nat.div_mod_eq (n + b) 2). pose proof (Nat.mod_upper_bound (n + b) 2).
      split; intros E; apply Hna, ancestor_step; left; lia. }
    by rewrite !list_lookup_insert_ne by lia.
  - destruct (lookup_lt_is_Some_2 hp 1) as [top Htop]; [lia|].
    exists (mk_tree n (<[b := d]> (buckets t)) (<[b := py_sorted (dkeys d)]> (bucket_keys t))
      hs hp (hex top)).
    split; [|split; [|split; [reflexivity|reflexivity]]].
    + unfold replace_bucket, _recompute_bucket. cbn [buckets bucket_keys bucket_hashes heap].
      rewrite (cell_Ok _ b d) by (by apply list_lookup_insert_eq; lia). cbn [rbind].
      rewrite (cell_Ok _ b (py_sorted (dkeys d)))
        by (apply list_lookup_insert_eq; rewrite Hkeys, length_fmap; lia). cbn [rbind].
      unfold digest in Hh. rewrite Hh. cbn [rbind]. rewrite set_cell_Ok by lia. cbn [rbind].
      unfold _update_path. cbn [bucket_hashes heap bucket_count]. fold n hs.
      rewrite (cell_Ok hs b h) by (apply list_lookup_insert_eq; lia). cbn [rbind].
      rewrite set_cell_Ok by lia. cbn [rbind]. fold hp0. rewrite Hclimb. cbn [rbind].
      rewrite (cell_Ok _ _ _ Htop). cbn [rbind]. reflexivity.
    + split; simpl; fold n.
      * done.
      * by rewrite length_insert.
      * unfold hs. by rewrite length_insert.
      * rewrite Hkeys. by rewrite list_fmap_insert.
      * intros b' d' Hd'. apply list_lookup_insert_Some in Hd' as [(<-&<-&_)|[Hne Hd']].
        -- split; [done|]. exists h. split; [done|]. apply list_lookup_insert_eq. lia.
        -- destruct (Hbk b' d' Hd') as [Hok (h'&Hh'&Hlk)]. split; [done|]. exists h'.
           split; [done|]. unfold hs. by rewrite list_lookup_insert_ne.
      * split; [done|by rewrite Hsame, <- Hz by lia; unfold hp0; rewrite list_lookup_insert_ne by lia| |done].
        intros i h' Hh'. rewrite Hsame by lia. unfold hp0. unfold hs in Hh'.
        apply list_lookup_insert_Some in Hh' as [(<-&<-&_)|[Hne Hh']].
        -- apply list_lookup_insert_eq. lia.
        -- rewrite list_lookup_insert_ne by lia. by apply Hleaf.
      * by exists top.
Qed.

(** The buckets determine the whole tree. *)
Lemma tree_unique t1 t2 :
  tree_ok t1 → tree_ok t2 → bucket_count t1 = bucket_count t2 → buckets t1 = buckets t2 → t1 = t2.
Proof.
  intros H1 H2 Hc Hb.
  assert (bucket_hashes t1 = bucket_hashes t2) as Hh.
  { apply list_eq. intros i. destruct (decide (i < bucket_count t1)) as [Hi|Hi].
    2:{ rewrite !lookup_ge_None_2; [done|rewrite (to_hashes _ H2); lia|rewrite (to_hashes _ H1); lia]. }
    destruct (lookup_lt_is_Some_2 (buckets t1) i) as [d Hd]; [rewrite (to_buckets _ H1); lia|].
    destruct (to_bucket _ H1 i d Hd) as (_&h1&E1&->).
    rewrite Hb in Hd. destruct (to_bucket _ H2 i d Hd) as (_&h2&E2&->). congruence. }
  assert (heap t1 = heap t2) as Hp.
  { eapply heap_unique; [apply (to_hashes _ H1)|apply H1|]. rewrite Hc, Hh. apply H2. }
  destruct (to_root _ H1) as (top1&T1&R1), (to_root _ H2) as (top2&T2&R2).
  rewrite Hp, T2 in T1. injection T1 as ->.
  pose proof (to_keys _ H1) as K1. rewrite Hb, <- (to_keys _ H2) in K1.
  destruct t1, t2; simpl in *; congruence.
Qed.

(** A tree whose hashes are yet to be computed. *)
Record shape_ok t : Prop := {
  so_count : 1 <= bucket_count t;
  so_buckets : length (buckets t) = bucket_count t;
  so_hashes : length (bucket_hashes t) = bucket_count t;
  so_keys : bucket_keys t = (λ d, py_sorted (dkeys d)) <$> buckets t;
  so_bucket : ∀ b d, buckets t !! b = Some d → bucket_ok (bucket_count t) b d;
}.

Lemma recompute_buckets_spec t i n :
  shape_ok t → i + n = bucket_count t →
  (∀ b d, b < i → buckets t !! b = Some d →
     ∃ h, digest d = Ok h ∧ bucket_hashes t !! b = Some h) →
  ∃ hs, recompute_buckets sha256 t (seq i n) =
    Ok (mk_tree (bucket_count t) (buckets t) (bucket_keys t) hs (heap t) (root_hash t)) ∧
    length hs = bucket_count t ∧
    ∀ b d, buckets t !! b = Some d → ∃ h, digest d = Ok h ∧ hs !! b = Some h.
Proof.
  revert t i. induction n as [|n IH]; intros t i Hs Hi Hdone.
  { exists (bucket_hashes t). split; [by destruct t|]. split; [apply Hs|]. intros b d Hd.
    apply Hdone; [|done]. apply lookup_lt_Some in Hd. rewrite (so_buckets _ Hs) in Hd. lia. }
  destruct Hs as [Hc Hlb Hlh Hk Hb].
  destruct (lookup_lt_is_Some_2 (buckets t) i) as [d Hd]; [lia|].
  destruct (digest_total _ _ _ (Hb _ _ Hd)) as [h Hh].
  cbn [seq recompute_buckets]. unfold _recompute_bucket at 1. rewrite (cell_Ok _ _ _ Hd). cbn [rbind].
  rewrite (cell_Ok (bucket_keys t) i (py_sorted (dkeys d)))
    by (by rewrite Hk, list_lookup_fmap, Hd). cbn [rbind].
  unfold digest in Hh. rewrite Hh. cbn [rbind]. rewrite set_cell_Ok by lia. cbn [rbind].
  destruct (IH (mk_tree (bucket_count t) (buckets t) (bucket_keys t)
    (<[i := h]> (bucket_hashes t)) (heap t) (root_hash t)) (S i)) as (hs&Hr&Hl&Hhs).
  - split; simpl; [done|done|by rewrite length_insert|done|done].
  - simpl. lia.
  - simpl. intros b d' Hlt Hd'. destruct (decide (b = i)) as [->|Hne].
    + simplify_eq. exists h. split; [done|]. apply list_lookup_insert_eq. lia.
    + rewrite list_lookup_insert_ne by done. apply Hdone; [lia|done].
  - exists hs. split; [exact Hr|]. split; [exact Hl|exact Hhs].
Qed.

Lemma recompute_all_ok t :
  shape_ok t → ∃ t', _recompute_all sha256 t = Ok t' ∧ tree_ok t' ∧
    bucket_count t' = bucket_count t ∧ buckets t' = buckets t.
Proof.
  intros Hs. destruct (recompute_buckets_spec t 0 (bucket_count t) Hs) as (hs&Hr&Hl&Hhs);
    [done|lia|]. unfold _recompute_all. rewrite Hr. cbn [rbind].
  destruct Hs as [Hc Hlb Hlh Hk Hb]. set (n := bucket_count t) in *.
  set (hp := replicate n [] ++ ((λ h, sha256 (utf8 h)) <$> hs)).
  assert (length hp = 2 * n) as Hlen
    by (unfold hp; rewrite length_app, length_replicate, length_fmap; lia).
  destruct (build_inner_spec sha256 n (n - 1) hp) as (hp'&Hbuild&Hl'&Hin&Hsame);
    [done|lia|intros; lia|].
  destruct (lookup_lt_is_Some_2 hp' 1) as [top Htop]; [lia|].
  eexists. unfold _recompute_root. cbn [bucket_hashes bucket_count]. fold n hp. rewrite Hbuild.
  cbn [rbind]. rewrite (cell_Ok _ _ _ Htop). cbn [rbind]. split; [reflexivity|].
  split; [|split; reflexivity]. split; simpl; try done.
  - intros b d Hd. split; [by apply Hb|]. by apply Hhs.
  - split; [done| | |done].
    + rewrite Hsame by lia. unfold hp. destruct n; [lia|done].
    + intros i h Hh. rewrite Hsame by lia. unfold hp.
      rewrite lookup_app_r by (rewrite length_replicate; lia).
      rewrite length_replicate, list_lookup_fmap.
      replace (n + i - n) with i by lia. by rewrite Hh.
  - by exists top.
Qed.

(** ** Contents *)

Lemma tree_bucket t key :
  tree_ok t → ∃ d, buckets t !! _key_to_bucket sha256 (bucket_count t) key = Some d ∧
    value_hash_of sha256 t key = dget key d ∧
    bucket_ok (bucket_count t) (_key_to_bucket sha256 (bucket_count t) key) d.
Proof.
  intros Ht. destruct (lookup_lt_is_Some_2 (buckets t)
    (_key_to_bucket sha256 (bucket_count t) key)) as [d Hd].
  { rewrite (to_buckets _ Ht). apply bucket_index_lt, Ht. }
  exists d. split; [done|]. unfold value_hash_of. rewrite Hd. split; [done|].
  by apply (to_bucket _ Ht).
Qed.

Lemma value_hash_replaced t t' key b d d' :
  bucket_count t' = bucket_count t → buckets t !! b = Some d → buckets t' = <[b := d']> (buckets t) →
  (∀ k, k ≠ key → dget k d' = dget k d) → _key_to_bucket sha256 (bucket_count t) key = b →
  ∀ k, value_hash_of sha256 t' k =
    if decide (key = k) then dget key d' else value_hash_of sha256 t k.
Proof.
  intros Hc Hd Hb Hother Hhome k. unfold value_hash_of. rewrite Hc, Hb. case_decide as E.
  - subst k. rewrite Hhome, list_lookup_insert_eq; [done|]. by eapply lookup_lt_Some.
  - destruct (decide (_key_to_bucket sha256 (bucket_count t) k = b)) as [->|Hne].
    + rewrite list_lookup_insert_eq by (by eapply lookup_lt_Some). rewrite Hd. auto.
    + by rewrite list_lookup_insert_ne by done.
Qed.

Lemma update_ok t key v :
  tree_ok t → short key → short v →
  ∃ t', update sha256 t key v = Ok t' ∧ tree_ok t' ∧ bucket_count t' = bucket_count t ∧
    ∀ k, value_hash_of sha256 t' k = if decide (key = k) then Some v else value_hash_of sha256 t k.
Proof.
  intros Ht Hk Hv. destruct (tree_bucket t key Ht) as (d&Hd&Hval&[Hok Hhome Hshort]).
  set (b := _key_to_bucket sha256 (bucket_count t) key) in *.
  assert (b < bucket_count t) as Hb by apply bucket_index_lt, Ht.
  unfold update. fold b. rewrite (cell_Ok _ _ _ Hd). cbn [rbind].
  case_bool_decide as Hsame.
  { exists t. split; [done|]. split; [done|]. split; [done|]. intros k.
    case_decide as E; [subst; congruence|done]. }
  rewrite (cell_Ok (bucket_keys t) b (py_sorted (dkeys d)))
    by (by rewrite (to_keys _ Ht), list_lookup_fmap, Hd). cbn [rbind].
  assert ((if dmem key d then py_sorted (dkeys d) else insort (py_sorted (dkeys d)) key)
    = py_sorted (dkeys (dset key v d))) as ->.
  { destruct (dmem key d) eqn:Hm.
    - apply dmem_spec in Hm. by rewrite dkeys_dset_in.
    - apply dmem_false, dget_None in Hm. apply insort_sorted; [apply py_sorted_ordered|].
      rewrite dset_new, py_sorted_perm by done. unfold dkeys. rewrite fmap_app.
      apply Permutation_app_comm. }
  rewrite set_cell_Ok by (rewrite (to_keys _ Ht), length_fmap, (to_buckets _ Ht); lia). cbn [rbind].
  rewrite set_cell_Ok by (rewrite (to_buckets _ Ht); lia). cbn [rbind].
  destruct (replace_bucket_ok t b (dset key v d) Ht Hb) as (t'&Hr&Ht'&Hc&Hbs).
  { split; [by apply dset_ok|..].
    - intros k [->|Hin]%elem_of_dkeys_dset; [done|by apply Hhome].
    - intros k w. rewrite dget_dset. case_decide as E; [intros [= <-]; by rewrite <- E|apply Hshort]. }
  exists t'. split; [exact Hr|]. split; [done|]. split; [done|]. intros k.
  rewrite (value_hash_replaced t t' key b d (dset key v d)); try done.
  - by rewrite dget_dset_eq.
  - intros k' Hne. by apply dget_dset_ne.
Qed.

Lemma remove_ok t key :
  tree_ok t → ∃ t', remove sha256 t key = Ok t' ∧ tree_ok t' ∧ bucket_count t' = bucket_count t ∧
    ∀ k, value_hash_of sha256 t' k = if decide (key = k) then None else value_hash_of sha256 t k.
Proof.
  intros Ht. destruct (tree_bucket t key Ht) as (d&Hd&Hval&[Hok Hhome Hshort]).
  set (b := _key_to_bucket sha256 (bucket_count t) key) in *.
  assert (b < bucket_count t) as Hb by apply bucket_index_lt, Ht.
  unfold remove. fold b. rewrite (cell_Ok _ _ _ Hd). cbn [rbind]. destruct (dmem key d) eqn:Hm.
  2:{ exists t. split; [done|]. split; [done|]. split; [done|]. intros k.
      case_decide as E; [|done]. subst. rewrite Hval. by apply dmem_false. }
  rewrite (cell_Ok (bucket_keys t) b (py_sorted (dkeys d)))
    by (by rewrite (to_keys _ Ht), list_lookup_fmap, Hd). cbn [rbind].
  apply dmem_true in Hm as [v Hv].
  assert (dkeys d ≡ₚ key :: dkeys (ddel key d)) as Hperm.
  { destruct (dget_split key v d Hok Hv) as (d1&d2&->&_&_&_&->).
    unfold dkeys. rewrite !fmap_app. simpl. symmetry. apply Permutation_middle. }
  destruct (pop_sorted (py_sorted (dkeys d)) key (dkeys (ddel key d))) as [Hlt Hpop].
  { apply py_sorted_ordered. } { by rewrite py_sorted_perm. }
  unfold pop_key. rewrite (proj2 (Nat.ltb_lt _ _) Hlt), Hpop. cbn [rbind].
  rewrite set_cell_Ok by (rewrite (to_keys _ Ht), length_fmap, (to_buckets _ Ht); lia). cbn [rbind].
  rewrite set_cell_Ok by (rewrite (to_buckets _ Ht); lia). cbn [rbind].
  destruct (replace_bucket_ok t b (ddel key d) Ht Hb) as (t'&Hr&Ht'&Hc&Hbs).
  { split; [by apply ddel_ok|..].
    - intros k. rewrite dkeys_ddel by done. rewrite list_elem_of_filter. intros [_ Hin]. by apply Hhome.
    - intros k w. rewrite dget_ddel by done. case_decide; [done|apply Hshort]. }
  exists t'. split; [exact Hr|]. split; [done|]. split; [done|]. intros k.
  rewrite (value_hash_replaced t t' key b d (ddel key d)); try done.
  - by rewrite dget_ddel_eq.
  - intros k' Hne. by apply dget_ddel_ne.
Qed.
End tree.

(** ** Equal roots: equal contents, or a collision of SHA-256 *)

Definition is_byte (b : Z) : Prop := (0 <= b < 256)%Z.

Lemma hex_digit_inj d1 d2 :
  (0 <= d1 < 16)%Z → (0 <= d2 < 16)%Z → hex_digit d1 = hex_digit d2 → d1 = d2.
Proof.
  assert (∀ d, (0 <= d < 16)%Z → Ascii.N_of_ascii (hex_digit d) =
    Z.to_N (if (d <? 10)%Z then 48 + d else 87 + d)) as Hcode.
  { intros d Hd. unfold hex_digit. apply Ascii.N_ascii_embedding. destruct (_ <? _)%Z; lia. }
  intros H1 H2 E. apply (f_equal Ascii.N_of_ascii) in E.
  rewrite (Hcode d1 H1), (Hcode d2 H2) in E.
  destruct (Z.ltb_spec d1 10), (Z.ltb_spec d2 10); lia.
Qed.

Lemma hex_inj l1 l2 :
  (∀ b, b ∈ l1 → is_byte b) → (∀ b, b ∈ l2 → is_byte b) → hex l1 = hex l2 → l1 = l2.
Proof.
  revert l2. induction l1 as [|b1 l1 IH]; intros [|b2 l2] H1 H2; simpl; try done.
  intros E. injection E as E1 E2 E3.
  pose proof (H1 b1 (list_elem_of_here _ _)) as B1. pose proof (H2 b2 (list_elem_of_here _ _)) as B2.
  unfold is_byte in *. pose proof (Z.div_mod b1 16). pose proof (Z.div_mod b2 16).
  pose proof (Z.mod_pos_bound b1 16). pose proof (Z.mod_pos_bound b2 16).
  apply hex_digit_inj in E1; [|lia..]. apply hex_digit_inj in E2; [|lia..].
  f_equal; [lia|]. apply IH; [intros b Hb; apply H1; by right|intros b Hb; apply H2; by right|done].
Qed.

Lemma utf8_inj s1 s2 : utf8 s1 = utf8 s2 → s1 = s2.
Proof.
  revert s2. induction s1 as [|a1 s1 IH]; intros [|a2 s2]; simpl; try done.
  intros E. injection E as E1 E2. f_equal; [|by apply IH]. apply N_of_ascii_inj. lia.
Qed.

Lemma be_encode_length w z : length (be_encode w z) = w.
Proof. revert z. induction w as [|w IH]; intros z; simpl; [done|]. rewrite length_app, IH. simpl. lia. Qed.

Lemma be_encode_inj w z1 z2 :
  (0 <= z1 < 256 ^ Z.of_nat w)%Z → (0 <= z2 < 256 ^ Z.of_nat w)%Z →
  be_encode w z1 = be_encode w z2 → z1 = z2.
Proof.
  revert z1 z2. induction w as [|w IH]; intros z1 z2 H1 H2.
  { change (256 ^ Z.of_nat 0)%Z with 1%Z in *. lia. }
  rewrite Nat2Z.inj_succ, Z.pow_succ_r in H1, H2 by lia. simpl. intros E.
  apply app_inj_2 in E as [E1 E2]; [|done]. injection E2 as E2.
  pose proof (Z.div_mod z1 256). pose proof (Z.div_mod z2 256).
  apply IH in E1; [lia|..]; (split; [apply Z.div_pos; lia|apply Z.div_lt_upper_bound; lia]).
Qed.

Lemma length_prefix_inv part n :
  length_prefix part = Ok n → n = be_encode 8 (Z.of_nat (length part)) ∧
    (Z.of_nat (length part) < 256 ^ 8)%Z.
Proof. unfold length_prefix. destruct (Z.ltb_spec (Z.of_nat (length part)) (256 ^ 8)); [|done].
  by intros [= <-]. Qed.

(** A length-prefixed string can be cut off unambiguously. *)
Lemma prefixed_inj p1 p2 n1 n2 (r1 r2 : list Z) :
  length_prefix p1 = Ok n1 → length_prefix p2 = Ok n2 →
  n1 ++ p1 ++ r1 = n2 ++ p2 ++ r2 → p1 = p2 ∧ r1 = r2.
Proof.
  intros [-> B1]%length_prefix_inv [-> B2]%length_prefix_inv E.
  apply app_inj_1 in E as [E1 E2]; [|by rewrite !be_encode_length].
  apply be_encode_inj in E1; [|simpl; lia..].
  by apply app_inj_1 in E2; [|lia].
Qed.

Lemma bucket_parts_inj d1 d2 ks1 ks2 data :
  bucket_parts d1 ks1 = Ok data → bucket_parts d2 ks2 = Ok data →
  ks1 = ks2 ∧ ∀ k, k ∈ ks1 → dget k d1 = dget k d2.
Proof.
  assert (Hstep : ∀ d k ks data, bucket_parts d (k :: ks) = Ok data → ∃ v n1 n2 rest,
    dget k d = Some v ∧ length_prefix (utf8 k) = Ok n1 ∧ length_prefix (utf8 v) = Ok n2 ∧
    bucket_parts d ks = Ok rest ∧ data = n1 ++ utf8 k ++ n2 ++ utf8 v ++ rest).
  { intros d k ks data'. cbn [bucket_parts]. unfold dict_cell.
    destruct (dget k d) as [v|]; [|done]. cbn [rbind].
    destruct (length_prefix (utf8 k)) as [n1|]; [|done]. cbn [rbind].
    destruct (length_prefix (utf8 v)) as [n2|] eqn:E; [|done]. cbn [rbind].
    destruct (bucket_parts d ks) as [rest|]; [|done]. intros [= <-].
    exists v, n1, n2, rest. done. }
  assert (Hne : ∀ d k ks, bucket_parts d (k :: ks) ≠ Ok []).
  { intros d k ks H. apply Hstep in H as (v&n1&n2&rest&_&Hn&_&_&E).
    apply length_prefix_inv in Hn as [-> _]. apply (f_equal length) in E.
    rewrite length_app, be_encode_length in E. simpl in E. lia. }
  revert ks2 data. induction ks1 as [|k1 ks1 IH]; intros [|k2 ks2] data; intros H1 H2.
  - split; [done|]. set_solver.
  - simpl in H1. injection H1 as <-. by apply Hne in H2.
  - simpl in H2. injection H2 as <-. by apply Hne in H1.
  - apply Hstep in H1 as (v1&n1&m1&r1&D1&N1&M1&R1&->).
    apply Hstep in H2 as (v2&n2&m2&r2&D2&N2&M2&R2&E).
    destruct (prefixed_inj _ _ _ _ _ _ N1 N2 E) as [Ek E'].
    destruct (prefixed_inj _ _ _ _ _ _ M1 M2 E') as [Ev ->].
    apply utf8_inj in Ek as ->. apply utf8_inj in Ev as ->.
    destruct (IH ks2 r2 R1 R2) as [-> Hvals]. split; [done|].
    intros k [->|Hk]%elem_of_cons; [congruence|by apply Hvals].
Qed.

Section roots.
Context (sha256 : list Z → list Z).

(** A digest is 32 bytes. *)
Definition digest_shape : Prop :=
  ∀ x, length (sha256 x) = 32 ∧ ∀ b, b ∈ sha256 x → is_byte b.

Definition collision : Prop := ∃ x y, x ≠ y ∧ sha256 x = sha256 y.

Lemma sha_inj x y : sha256 x = sha256 y → x = y ∨ collision.
Proof. intros E. destruct (decide (x = y)); [by left|]. right. by exists x, y. Qed.

Lemma heap_cell_shape n hashes hp i c :
  digest_shape → length hashes = n → heap_ok sha256 n hashes hp → 1 <= i → hp !! i = Some c →
  length c = 32 ∧ ∀ b, b ∈ c → is_byte b.
Proof.
  intros Hsh Hn [Hl _ Hleaf Hin] Hi Hc. pose proof (lookup_lt_Some _ _ _ Hc).
  destruct (decide (i < n)) as [Hlt|Hge].
  - destruct (Hin i) as (l&r&_&_&E); [lia|]. rewrite E in Hc. injection Hc as <-. apply Hsh.
  - destruct (lookup_lt_is_Some_2 hashes (i - n)) as [h Hh]; [lia|].
    pose proof (Hleaf _ _ Hh) as E. replace (n + (i - n)) with i in E by lia.
    rewrite E in Hc. injection Hc as <-. apply Hsh.
Qed.

(** Going down from equal roots, every pair of cells is equal. *)
Lemma heaps_agree n hs1 hs2 hp1 hp2 :
  digest_shape → length hs1 = n → length hs2 = n →
  heap_ok sha256 n hs1 hp1 → heap_ok sha256 n hs2 hp2 → hp1 !! 1 = hp2 !! 1 →
  collision ∨ ∀ i, 1 <= i < 2 * n → hp1 !! i = hp2 !! i.
Proof.
  intros Hsh L1 L2 O1 O2 Hroot.
  assert (∀ i, 1 <= i < 2 * n → collision ∨ hp1 !! i = hp2 !! i) as Hall.
  { intros i. induction (lt_wf i) as [i _ IH]. intros Hi.
    destruct (decide (i = 1)) as [->|Hne]; [by right|].
    pose proof (Nat.div_mod_eq i 2) as Hdm. pose proof (Nat.mod_upper_bound i 2).
    destruct (IH (i / 2)) as [|Hp]; [lia|lia|by left|].
    destruct (ho_inner _ _ _ _ O1 (i / 2)) as (l1&r1&A1&B1&C1); [lia|].
    destruct (ho_inner _ _ _ _ O2 (i / 2)) as (l2&r2&A2&B2&C2); [lia|].
    rewrite C1, C2 in Hp. injection Hp as Hp. apply sha_inj in Hp as [Hp|]; [|by left].
    apply app_inj_1 in Hp as [-> ->].
    - right. assert (i = i / 2 * 2 ∨ i = i / 2 * 2 + 1) as [->| ->] by lia; congruence.
    - destruct (heap_cell_shape n hs1 hp1 (i / 2 * 2) _ Hsh L1 O1 ltac:(lia) A1) as [-> _].
      destruct (heap_cell_shape n hs2 hp2 (i / 2 * 2) _ Hsh L2 O2 ltac:(lia) A2) as [-> _]. done. }
  destruct (finite_or (2 * n) collision (λ i, 1 <= i → hp1 !! i = hp2 !! i)) as [|Hi];
    [|by left|right; intros i ?; apply Hi; lia].
  intros i Hi. destruct (decide (1 <= i)) as [H1|H1]; [|by right].
  destruct (Hall i) as [|E]; [lia|by left|by right].
Qed.

Lemma digest_nonempty d h :
  d ≠ [] → digest sha256 d = Ok h →
  ∃ p, bucket_parts d (py_sorted (dkeys d)) = Ok p ∧ h = hex (sha256 p).
Proof.
  unfold digest, bucket_hash. destruct d as [|kv r]; [done|]. intros _.
  destruct (bucket_parts _ _) as [p|]; [|done]. simpl. intros [= <-]. by exists p.
Qed.

Lemma hex_digest_nonempty p : digest_shape → hex (sha256 p) ≠ "".
Proof. intros Hsh E. destruct (Hsh p) as [Hl _]. by destruct (sha256 p). Qed.

Lemma digest_inj d1 d2 h :
  digest_shape → digest sha256 d1 = Ok h → digest sha256 d2 = Ok h → collision ∨ dict_equiv d1 d2.
Proof.
  intros Hsh H1 H2.
  destruct (decide (d1 = [])) as [->|N1], (decide (d2 = [])) as [->|N2].
  - by right.
  - injection H1 as <-. destruct (digest_nonempty d2 "" N2 H2) as (p&_&E).
    symmetry in E. by apply hex_digest_nonempty in E.
  - injection H2 as <-. destruct (digest_nonempty d1 "" N1 H1) as (p&_&E).
    symmetry in E. by apply hex_digest_nonempty in E.
  - destruct (digest_nonempty d1 h N1 H1) as (p1&P1&->).
    destruct (digest_nonempty d2 _ N2 H2) as (p2&P2&E).
    apply hex_inj in E; [|apply Hsh..]. apply sha_inj in E as [->|]; [|by left].
    right. destruct (bucket_parts_inj _ _ _ _ _ P1 P2) as [Hks Hvals]. intros k.
    unfold py_sorted in Hks, Hvals.
    assert (k ∈ dkeys d1 ↔ k ∈ dkeys d2) as Hin
      by (by rewrite <- (elem_of_sort_by id k (dkeys d1)), <- (elem_of_sort_by id k (dkeys d2)),
        <- Hks).
    destruct (decide (k ∈ dkeys d1)) as [Hk|Hk].
    + apply Hvals. by apply elem_of_sort_by.
    + rewrite (proj2 (dget_None k d1) Hk). symmetry. apply dget_None. tauto.
Qed.
End roots.

(** ** Histories *)

Inductive merkle_op := Update (key value_hash : string) | Remove (key : string).

Section histories.
Context (sha256 : list Z → list Z).
Implicit Types (t : MerkleTree) (key value_hash : string).

Definition merkle_step t (op : merkle_op) : result MerkleTree :=
  match op with
  | Update key v => update sha256 t key v
  | Remove key => remove sha256 t key
  end.

Fixpoint merkle_run t (ops : list merkle_op) : result MerkleTree :=
  match ops with
  | [] => Ok t
  | op :: ops' => let* t' := merkle_step t op in merkle_run t' ops'
  end.

(** The last write of a key. *)
Fixpoint contents (ops : list merkle_op) (current : option string) (k : string) : option string :=
  match ops with
  | [] => current
  | Update key v :: ops' => contents ops' (if decide (key = k) then Some v else current) k
  | Remove key :: ops' => contents ops' (if decide (key = k) then None else current) k
  end.

Definition op_short (op : merkle_op) : Prop :=
  match op with Update key v => short key ∧ short v | Remove _ => True end.

Lemma merkle_run_ok t ops :
  tree_ok sha256 t → (∀ op, op ∈ ops → op_short op) →
  ∃ t', merkle_run t ops = Ok t' ∧ tree_ok sha256 t' ∧ bucket_count t' = bucket_count t ∧
    ∀ k, value_hash_of sha256 t' k = contents ops (value_hash_of sha256 t k) k.
Proof.
  revert t. induction ops as [|op ops IH]; intros t Ht Hops; cbn [merkle_run].
  { exists t. done. }
  assert (∃ t1, merkle_step t op = Ok t1 ∧ tree_ok sha256 t1 ∧ bucket_count t1 = bucket_count t ∧
    ∀ k, value_hash_of sha256 t1 k = contents [op] (value_hash_of sha256 t k) k)
    as (t1&->&Ht1&Hc1&Hv1).
  { destruct op as [key v|key]; simpl.
    - destruct (Hops (Update key v) (list_elem_of_here _ _)) as [Hk Hv]. by apply update_ok.
    - by apply remove_ok. }
  cbn [rbind]. destruct (IH t1 Ht1) as (t2&Hr&Ht2&Hc2&Hv2).
  { intros o Ho. apply Hops. by right. }
  exists t2. split; [done|]. split; [done|]. split; [congruence|]. intros k.
  rewrite Hv2, Hv1. by destruct op.
Qed.

Lemma merkle_init_ok count t :
  init sha256 count = Ok t → tree_ok sha256 t ∧ bucket_count t = Z.to_nat count ∧
    ∀ k, value_hash_of sha256 t k = None.
Proof.
  unfold init. destruct (Z.leb_spec 1 count); [|done]. destruct (_ && _); [|done]. simpl.
  set (n := Z.to_nat count). set (t0 := mk_tree n _ _ _ _ _). intros Hr.
  destruct (recompute_all_ok sha256 t0) as (t'&Hr'&Ht'&Hc&Hb).
  - split; simpl; [lia|by rewrite length_replicate|by rewrite length_replicate| |].
    + by rewrite fmap_replicate.
    + intros b d [-> _]%lookup_replicate. split; [apply dict_nil_ok|set_solver|done].
  - assert (t' = t) as -> by congruence. split; [done|]. split; [done|]. intros k.
    unfold value_hash_of. rewrite Hb. simpl.
    destruct (_ !! _) as [d|] eqn:E; [|done].
    by apply lookup_replicate in E as [-> _].
Qed.

Lemma dget_bucket t b d k :
  tree_ok sha256 t → buckets t !! b = Some d →
  dget k d = if decide (_key_to_bucket sha256 (bucket_count t) k = b)
             then value_hash_of sha256 t k else None.
Proof.
  intros Ht Hd. case_decide as E.
  - unfold value_hash_of. by rewrite E, Hd.
  - apply dget_None. intros Hk. apply E. by apply (bo_home _ _ _ _ (proj1 (to_bucket _ _ Ht b d Hd))).
Qed.

Lemma bucket_parts_ext d1 d2 ks : dict_equiv d1 d2 → bucket_parts d1 ks = bucket_parts d2 ks.
Proof.
  intros E. induction ks as [|k ks IH]; [done|]. cbn [bucket_parts]. unfold dict_cell.
  by rewrite E, IH.
Qed.

Lemma digest_ext d1 d2 :
  dict_ok d1 → dict_ok d2 → dict_equiv d1 d2 → digest sha256 d1 = digest sha256 d2.
Proof.
  intros O1 O2 E. pose proof (dict_perm d1 d2 O1 O2 E) as Hp. unfold digest, bucket_hash.
  rewrite (py_sorted_perm_eq (dkeys d1) (dkeys d2)) by (unfold dkeys; by rewrite Hp).
  rewrite (bucket_parts_ext d1 d2) by done.
  destruct d1, d2; try done; by apply Permutation_length in Hp.
Qed.

(** One bucket of two trees: equal hashes and equal contents coincide. *)
Lemma bucket_agree t1 t2 b h1 h2 :
  digest_shape sha256 → tree_ok sha256 t1 → tree_ok sha256 t2 → bucket_count t1 = bucket_count t2 →
  bucket_hashes t1 !! b = Some h1 → bucket_hashes t2 !! b = Some h2 →
  ((∀ k, _key_to_bucket sha256 (bucket_count t1) k = b →
      value_hash_of sha256 t1 k = value_hash_of sha256 t2 k) → h1 = h2) ∧
  (h1 = h2 → collision sha256 ∨ ∀ k, _key_to_bucket sha256 (bucket_count t1) k = b →
      value_hash_of sha256 t1 k = value_hash_of sha256 t2 k).
Proof.
  intros Hsh T1 T2 Hc L1 L2. pose proof (lookup_lt_Some _ _ _ L1) as Hb.
  rewrite (to_hashes _ _ T1) in Hb.
  destruct (lookup_lt_is_Some_2 (buckets t1) b) as [d1 D1]; [rewrite (to_buckets _ _ T1); lia|].
  destruct (lookup_lt_is_Some_2 (buckets t2) b) as [d2 D2]; [rewrite (to_buckets _ _ T2); lia|].
  destruct (to_bucket _ _ T1 b d1 D1) as (B1&x1&X1&Y1).
  destruct (to_bucket _ _ T2 b d2 D2) as (B2&x2&X2&Y2). simplify_eq. split.
  - intros Hk. assert (dict_equiv d1 d2) as E.
    { intros k. rewrite (dget_bucket t1 b d1), (dget_bucket t2 b d2) by done. rewrite <- Hc.
      case_decide; auto. }
    rewrite (digest_ext d1 d2) in X1; [congruence|apply B1|apply B2|done].
  - intros ->. destruct (digest_inj sha256 d1 d2 h2 Hsh X1 X2) as [|E]; [by left|]. right.
    intros k Hk. pose proof (E k) as Ek.
    rewrite (dget_bucket t1 b d1), (dget_bucket t2 b d2), <- Hc in Ek by done.
    by case_decide.
Qed.

Lemma hashes_root t1 t2 :
  tree_ok sha256 t1 → tree_ok sha256 t2 → bucket_count t1 = bucket_count t2 →
  bucket_hashes t1 = bucket_hashes t2 → root_hash t1 = root_hash t2.
Proof.
  intros T1 T2 Hc Hh. destruct (to_root _ _ T1) as (top1&R1&->), (to_root _ _ T2) as (top2&R2&->).
  rewrite (heap_unique sha256 (bucket_count t1) (bucket_hashes t1) (heap t1) (heap t2)) in R1.
  - congruence.
  - apply T1.
  - apply T1.
  - rewrite Hc, Hh. apply T2.
Qed.

Lemma roots_hashes t1 t2 :
  digest_shape sha256 → tree_ok sha256 t1 → tree_ok sha256 t2 → bucket_count t1 = bucket_count t2 →
  root_hash t1 = root_hash t2 → collision sha256 ∨ bucket_hashes t1 = bucket_hashes t2.
Proof.
  intros Hsh T1 T2 Hc Hr. pose proof (to_count _ _ T1).
  destruct (to_root _ _ T1) as (top1&R1&E1), (to_root _ _ T2) as (top2&R2&E2).
  rewrite E1, E2 in Hr. pose proof (to_heap _ _ T1) as O1. pose proof (to_heap _ _ T2) as O2.
  rewrite <- Hc in O2. pose proof (to_hashes _ _ T1) as L1. pose proof (to_hashes _ _ T2) as L2.
  rewrite <- Hc in L2.
  apply hex_inj in Hr; [|eapply heap_cell_shape; [exact Hsh|exact L1|exact O1| |exact R1]; lia
                        |eapply heap_cell_shape; [exact Hsh|exact L2|exact O2| |exact R2]; lia].
  destruct (heaps_agree sha256 (bucket_count t1) _ _ _ _ Hsh L1 L2 O1 O2) as [|Hall];
    [congruence|by left|].
  assert (∀ i, collision sha256 ∨ bucket_hashes t1 !! i = bucket_hashes t2 !! i) as Hi.
  { intros i. destruct (decide (i < bucket_count t1)) as [Hlt|Hge].
    2:{ right. by rewrite !lookup_ge_None_2 by lia. }
    destruct (lookup_lt_is_Some_2 (bucket_hashes t1) i) as [h1 H1]; [lia|].
    destruct (lookup_lt_is_Some_2 (bucket_hashes t2) i) as [h2 H2]; [lia|].
    pose proof (ho_leaf _ _ _ _ O1 _ _ H1) as F1. pose proof (ho_leaf _ _ _ _ O2 _ _ H2) as F2.
    rewrite Hall, F2 in F1 by lia. injection F1 as F1. symmetry in F1.
    apply sha_inj in F1 as [F1|]; [|by left]. right. apply utf8_inj in F1. congruence. }
  destruct (decide (bucket_hashes t1 = bucket_hashes t2)) as [|Hne]; [by right|]. left.
  apply list_neq_witness in Hne as (i&Hne). by destruct (Hi i).
Qed.
End histories.

(** ** Comparison *)

Section comparison.
Context (sha256 : list Z → list Z).
Implicit Types t : MerkleTree.

(** [get_bucket_hashes] of a tree. *)
Definition get_bucket_hashes t : dict nat string :=
  zip (seq 0 (length (bucket_hashes t))) (bucket_hashes t).

Lemma get_bucket_hashes_lookup t b : dget b (get_bucket_hashes t) = bucket_hashes t !! b.
Proof.
  unfold get_bucket_hashes.
  assert (∀ l i, dget b (zip (seq i (length l)) l) = if decide (i <= b) then l !! (b - i) else None
    : option string) as Hgen.
  { intros l. induction l as [|h l IH]; intros i; simpl; [by case_decide|]. rewrite IH.
    destruct (decide (b = i)) as [->|Hne].
    - rewrite decide_True by done. by replace (i - i) with 0 by lia.
    - repeat case_decide; try done; try lia. by replace (b - i) with (S (b - S i)) by lia. }
  rewrite Hgen, decide_True by lia. by rewrite Nat.sub_0_r.
Qed.

Lemma compare_loop_spec t other bs :
  tree_ok sha256 t → (∀ b, b ∈ bs → b < bucket_count t) →
  ∃ diffs, compare_loop t other bs = Ok diffs ∧
    ∀ x, x ∈ diffs ↔ ∃ b h d, b ∈ bs ∧ bucket_hashes t !! b = Some h ∧ buckets t !! b = Some d ∧
      h ≠ dget_or "" b other ∧ x = mk_diff b h (dget_or "" b other) (dkeys d).
Proof.
  intros Ht. induction bs as [|b bs IH]; intros Hbs; cbn [compare_loop].
  { exists []. split; [done|]. set_solver. }
  assert (b < bucket_count t) as Hb by (apply Hbs; left).
  destruct (lookup_lt_is_Some_2 (bucket_hashes t) b) as [h Hh]; [rewrite (to_hashes _ _ Ht); lia|].
  destruct (lookup_lt_is_Some_2 (buckets t) b) as [d Hd]; [rewrite (to_buckets _ _ Ht); lia|].
  rewrite (cell_Ok _ _ _ Hh). cbn [rbind]. rewrite (cell_Ok _ _ _ Hd). cbn [rbind].
  destruct IH as (diffs&->&Hdiffs); [intros b' Hb'; apply Hbs; by right|]. cbn [rbind].
  eexists. split; [done|]. intros x. case_bool_decide as E.
  - rewrite Hdiffs. split.
    + intros (b'&h'&d'&Hin&?). exists b', h', d'. split; [by right|done].
    + intros (b'&h'&d'&[->|Hin]%elem_of_cons&Hh'&Hd'&Hne&->); [congruence|].
      by exists b', h', d'.
  - rewrite elem_of_cons, Hdiffs. split.
    + intros [->|(b'&h'&d'&Hin&?)]; [exists b, h, d; split; [left|done]|].
      exists b', h', d'. split; [by right|done].
    + intros (b'&h'&d'&[->|Hin]%elem_of_cons&Hh'&Hd'&Hne&->); [left; congruence|].
      right. by exists b', h', d'.
Qed.
End comparison.

(** The incremental tree is the tree.  From [init] any history of updates and
    removals succeeds; [value_hash] returns the last value hash of every key,
    and recomputing every bucket and the whole heap from scratch changes
    nothing, so the buckets, their key lists, the heap and the root are all up
    to date although each operation touched one bucket and one path. *)
Theorem merkle_incremental (sha256 : list Z → list Z) count t ops :
  init sha256 count = Ok t → (∀ op, op ∈ ops → op_short op) →
  ∃ t', merkle_run sha256 t ops = Ok t' ∧
    (∀ k, value_hash_of sha256 t' k = contents ops None k) ∧
    _recompute_all sha256 t' = Ok t' ∧
    bucket_keys t' = (λ d, py_sorted (dkeys d)) <$> buckets t'.
Proof.
  intros Hinit Hops. destruct (merkle_init_ok sha256 count t Hinit) as (Ht&_&Hnone).
  destruct (merkle_run_ok sha256 t ops Ht Hops) as (t'&Hr&Ht'&_&Hv). exists t'.
  split; [done|]. split; [intros k; by rewrite Hv, Hnone|].
  split; [|apply (to_keys _ _ Ht')].
  destruct (recompute_all_ok sha256 t') as (t2&Hr2&Ht2&Hc&Hb).
  { destruct Ht'. split; try done. intros b d Hd. by apply to_bucket0. }
  rewrite Hr2. f_equal. by apply (tree_unique sha256).
Qed.

(** Digests for the witnesses: 32 bytes, each a small checksum of the input. *)
Definition demo_sha (x : list Z) : list Z :=
  (λ i, foldl (λ acc b, (acc * 31 + b + 1) mod 251)%Z i x) <$> seqZ 1 32.

Lemma merkle_incremental_witness :
  ∃ t t', init demo_sha 4 = Ok t ∧
    merkle_run demo_sha t [Update "a" "01"; Update "b" "02"; Remove "a"] = Ok t' ∧
    value_hash_of demo_sha t' "b" = Some "02" ∧ _recompute_all demo_sha t' = Ok t'.
Proof.
  assert (∃ t, init demo_sha 4 = Ok t) as [t Ht] by (eexists; vm_compute; reflexivity).
  destruct (merkle_incremental demo_sha 4 t [Update "a" "01"; Update "b" "02"; Remove "a"] Ht)
    as (t'&Hr&Hv&Hall&_).
  - intros op Hop. rewrite !elem_of_cons in Hop.
    destruct Hop as [->|[->|[->|Hop]]]; [by split|by split|done|set_solver].
  - exists t, t'. split; [exact Ht|]. split; [exact Hr|]. split; [|exact Hall].
    rewrite Hv. reflexivity.
Defined.

(** The root decides equality.  Two trees with the same number of buckets,
    each reached by any history of updates and removals, have equal root hashes
    whenever they hold the same value hashes, and equal roots mean the same
    contents for every key unless the pair exhibits a collision of SHA-256. *)
Theorem merkle_root_decides (sha256 : list Z → list Z) count t0 ops1 ops2 t1 t2 :
  digest_shape sha256 → init sha256 count = Ok t0 →
  (∀ op, op ∈ ops1 → op_short op) → (∀ op, op ∈ ops2 → op_short op) →
  merkle_run sha256 t0 ops1 = Ok t1 → merkle_run sha256 t0 ops2 = Ok t2 →
  ((∀ k, value_hash_of sha256 t1 k = value_hash_of sha256 t2 k) → root_hash t1 = root_hash t2) ∧
  (root_hash t1 = root_hash t2 →
     collision sha256 ∨ ∀ k, value_hash_of sha256 t1 k = value_hash_of sha256 t2 k).
Proof.
  intros Hsh Hinit H1 H2 R1 R2. destruct (merkle_init_ok sha256 count t0 Hinit) as (Ht0&_&_).
  destruct (merkle_run_ok sha256 t0 ops1 Ht0 H1) as (t1'&R1'&T1&C1&_).
  destruct (merkle_run_ok sha256 t0 ops2 Ht0 H2) as (t2'&R2'&T2&C2&_).
  assert (t1' = t1) as -> by congruence. assert (t2' = t2) as -> by congruence.
  assert (bucket_count t1 = bucket_count t2) as Hc by congruence. split.
  - intros Hall. apply (hashes_root sha256); try done. apply list_eq. intros b.
    destruct (decide (b < bucket_count t1)) as [Hb|Hb].
    + destruct (lookup_lt_is_Some_2 (bucket_hashes t1) b) as [h1 L1]; [rewrite (to_hashes _ _ T1); lia|].
      destruct (lookup_lt_is_Some_2 (bucket_hashes t2) b) as [h2 L2]; [rewrite (to_hashes _ _ T2); lia|].
      rewrite L1, L2. f_equal.
      apply (proj1 (bucket_agree sha256 t1 t2 b h1 h2 Hsh T1 T2 Hc L1 L2)). auto.
    + rewrite !lookup_ge_None_2; [done|rewrite (to_hashes _ _ T2); lia|rewrite (to_hashes _ _ T1); lia].
  - intros Hr. destruct (roots_hashes sha256 t1 t2 Hsh T1 T2 Hc Hr) as [|Hh]; [by left|].
    destruct (finite_or (bucket_count t1) (collision sha256) (λ b, ∀ k,
      _key_to_bucket sha256 (bucket_count t1) k = b →
      value_hash_of sha256 t1 k = value_hash_of sha256 t2 k)) as [|Hk]; [|by left|].
    + intros b Hb.
      destruct (lookup_lt_is_Some_2 (bucket_hashes t1) b) as [h L1]; [rewrite (to_hashes _ _ T1); lia|].
      pose proof L1 as L2. rewrite Hh in L2.
      exact (proj2 (bucket_agree sha256 t1 t2 b h h Hsh T1 T2 Hc L1 L2) eq_refl).
    + right. intros k. eapply Hk; [|done]. apply bucket_index_lt, T1.
Qed.

Lemma demo_sha_shape : digest_shape demo_sha.
Proof.
  intros x. unfold demo_sha. split; [by rewrite length_fmap, length_seqZ|].
  assert (∀ l acc, (0 <= acc < 256)%Z →
    is_byte (foldl (λ acc b, (acc * 31 + b + 1) mod 251)%Z acc l)) as Hfold.
  { induction l as [|b l IH]; intros acc Hacc; simpl; [done|]. apply IH.
    pose proof (Z.mod_pos_bound (acc * 31 + b + 1) 251). lia. }
  intros b (i&->&Hi%elem_of_seqZ)%list_elem_of_fmap. apply Hfold. lia.
Qed.

Lemma merkle_root_decides_witness :
  ∃ t0 t1 t2, init demo_sha 4 = Ok t0 ∧
    merkle_run demo_sha t0 [Update "a" "01"; Update "b" "02"] = Ok t1 ∧
    merkle_run demo_sha t0 [Update "b" "02"; Update "c" "03"; Remove "c"; Update "a" "01"] = Ok t2 ∧
    root_hash t1 = root_hash t2.
Proof.
  assert (∃ t, init demo_sha 4 = Ok t) as [t Ht] by (eexists; vm_compute; reflexivity).
  assert (∀ op, op ∈ [Update "a" "01"; Update "b" "02"] → op_short op) as S1.
  { intros op Hop. rewrite !elem_of_cons in Hop. destruct Hop as [->|[->|Hop]]; [by split|by split|set_solver]. }
  assert (∀ op, op ∈ [Update "b" "02"; Update "c" "03"; Remove "c"; Update "a" "01"] → op_short op) as S2.
  { intros op Hop. rewrite !elem_of_cons in Hop.
    destruct Hop as [->|[->|[->|[->|Hop]]]]; [by split|by split|done|by split|set_solver]. }
  destruct (merkle_init_ok demo_sha 4 t Ht) as (Hok&_&V0).
  destruct (merkle_run_ok demo_sha t _ Hok S1) as (t1&R1&_&_&V1).
  destruct (merkle_run_ok demo_sha t _ Hok S2) as (t2&R2&_&_&V2).
  exists t, t1, t2. split; [exact Ht|]. split; [exact R1|]. split; [exact R2|].
  apply (merkle_root_decides demo_sha 4 t [Update "a" "01"; Update "b" "02"]
    [Update "b" "02"; Update "c" "03"; Remove "c"; Update "a" "01"] t1 t2 demo_sha_shape Ht S1 S2 R1 R2).
  intros k. rewrite V1, V2, V0. simpl. repeat case_decide; subst; congruence.
Defined.

(** Comparison is exact up to collisions.  Comparing a tree with the bucket
    hashes of another reports, for every reported bucket, its two hashes and
    all local keys of the bucket; every key whose value hash differs lies in a
    reported bucket (or there is a collision), and every reported bucket holds
    a key that differs. *)
Theorem merkle_compare_exact (sha256 : list Z → list Z) t1 t2 :
  digest_shape sha256 → tree_ok sha256 t1 → tree_ok sha256 t2 → bucket_count t1 = bucket_count t2 →
  ∃ diffs, compare t1 (get_bucket_hashes t2) = Ok diffs ∧
    (∀ x, x ∈ diffs → local_hash x ≠ remote_hash x ∧
       ∀ k, k ∈ keys x ↔ is_Some (value_hash_of sha256 t1 k) ∧
         _key_to_bucket sha256 (bucket_count t1) k = bucket_id x) ∧
    (∀ k, value_hash_of sha256 t1 k ≠ value_hash_of sha256 t2 k →
       collision sha256 ∨
       ∃ x, x ∈ diffs ∧ bucket_id x = _key_to_bucket sha256 (bucket_count t1) k) ∧
    (∀ x, x ∈ diffs → ¬ ∀ k, _key_to_bucket sha256 (bucket_count t1) k = bucket_id x →
       value_hash_of sha256 t1 k = value_hash_of sha256 t2 k).
Proof.
  intros Hsh T1 T2 Hc.
  destruct (compare_loop_spec sha256 t1 (get_bucket_hashes t2) (seq 0 (bucket_count t1)) T1)
    as (diffs&Hcmp&Hd); [intros b Hb%elem_of_seq; lia|].
  exists diffs. split; [exact Hcmp|].
  assert (∀ b h2, bucket_hashes t2 !! b = Some h2 → dget_or "" b (get_bucket_hashes t2) = h2) as Hremote.
  { intros b h2 L2. unfold dget_or. by rewrite get_bucket_hashes_lookup, L2. }
  split; [|split].
  - intros x Hx. apply Hd in Hx as (b&h&d&_&Hh&Hbd&Hne&->). simpl. split; [done|]. intros k.
    rewrite <- dmem_spec, dmem_true, (dget_bucket sha256 t1 b d) by done.
    case_decide; [tauto|]. split; [by intros [? ?]|tauto].
  - intros k Hk. pose proof (bucket_index_lt sha256 (bucket_count t1) k (to_count _ _ T1)) as Hb.
    set (b := _key_to_bucket sha256 (bucket_count t1) k) in *.
    destruct (lookup_lt_is_Some_2 (bucket_hashes t1) b) as [h1 L1]; [rewrite (to_hashes _ _ T1); lia|].
    destruct (lookup_lt_is_Some_2 (bucket_hashes t2) b) as [h2 L2]; [rewrite (to_hashes _ _ T2); lia|].
    destruct (lookup_lt_is_Some_2 (buckets t1) b) as [d D1]; [rewrite (to_buckets _ _ T1); lia|].
    destruct (decide (h1 = h2)) as [E|Hne].
    + destruct (proj2 (bucket_agree sha256 t1 t2 b h1 h2 Hsh T1 T2 Hc L1 L2) E) as [|Hall];
        [by left|]. exfalso. by apply Hk, Hall.
    + right. exists (mk_diff b h1 h2 (dkeys d)). split; [|done]. apply Hd.
      exists b, h1, d. rewrite (Hremote b h2 L2). split; [apply elem_of_seq; lia|done].
  - intros x Hx Hall. apply Hd in Hx as (b&h&d&Hb&Hh&Hbd&Hne&->). apply elem_of_seq in Hb.
    destruct (lookup_lt_is_Some_2 (bucket_hashes t2) b) as [h2 L2]; [rewrite (to_hashes _ _ T2); lia|].
    rewrite (Hremote b h2 L2) in Hne. apply Hne.
    by apply (proj1 (bucket_agree sha256 t1 t2 b h h2 Hsh T1 T2 Hc Hh L2)).
Qed.

Lemma merkle_compare_exact_witness :
  ∃ t1 t2 diffs, tree_ok demo_sha t1 ∧ tree_ok demo_sha t2 ∧
    compare t1 (get_bucket_hashes t2) = Ok diffs ∧ length diffs = 1.
Proof.
  assert (∃ t, init demo_sha 4 = Ok t) as [t Ht] by (eexists; vm_compute; reflexivity).
  assert (∀ op, op ∈ [Update "a" "01"] → op_short op) as S1.
  { intros op ->%list_elem_of_singleton. by split. }
  destruct (merkle_init_ok demo_sha 4 t Ht) as (Hok&Hc&_).
  destruct (merkle_run_ok demo_sha t _ Hok S1) as (t1&R1&Hok1&Hc1&_).
  destruct (merkle_compare_exact demo_sha t1 t demo_sha_shape Hok1 Hok Hc1) as (diffs&Hd&_).
  exists t1, t, diffs. split; [exact Hok1|]. split; [exact Hok|]. split; [exact Hd|].
  vm_compute in Ht. injection Ht as <-. vm_compute in R1. injection R1 as <-.
  vm_compute in Hd. injection Hd as <-. reflexivity.
Defined.
