(* ===== verification/Gossip.v ===== *)
(** * Gossip membership

    Models src/key-value-store/src/kv_store/cluster/gossip.py and membership.py.
    Time is an integer; the clock reading of each call is an argument.  The
    members are objects shared by reference, but no operation hands one out for
    writing, so the table of values is faithful.  [ClusterMembership] drives a
    hash ring through the interface [HashRing]. *)
From S2P Require Import Prelude PyList PyDict Ring.
Local Open Scope Z_scope.

Inductive NodeStatus := ALIVE | SUSPECTED | DOWN.

#[export] Instance node_status_eq_dec : EqDecision NodeStatus.
Proof. solve_decision. Defined.

Record MemberInfo := mk_member {
  m_node_id : string;
  address : string;
  heartbeat_counter : Z;
  status : NodeStatus;
  last_updated : Z;
}.

Record GossipProtocol := mk_gossip {
  _node_id : string;
  _address : string;
  _gossip_fanout : Z;
  _failure_timeout : Z;
  _members : dict string MemberInfo;
}.

Implicit Types (g : GossipProtocol) (m : MemberInfo) (now : Z).

Definition with_members g (ms : dict string MemberInfo) : GossipProtocol :=
  mk_gossip (_node_id g) (_address g) (_gossip_fanout g) (_failure_timeout g) ms.

Definition init_gossip (node_id addr : string) (fanout failure_timeout now : Z) : GossipProtocol :=
  mk_gossip node_id addr fanout failure_timeout
    [(node_id, mk_member node_id addr 0 ALIVE now)].

Definition advertise g (addr : string) : result GossipProtocol :=
  match dget (_node_id g) (_members g) with
  | None => Raise KeyError
  | Some own =>
      Ok (mk_gossip (_node_id g) addr (_gossip_fanout g) (_failure_timeout g)
        (dset (_node_id g)
          (mk_member (m_node_id own) addr (heartbeat_counter own) (status own) (last_updated own))
          (_members g)))
  end.

(** The first step of a round: the node's own heartbeat. *)
Definition beat g now : result GossipProtocol :=
  match dget (_node_id g) (_members g) with
  | None => Raise KeyError
  | Some own =>
      Ok (with_members g (dset (_node_id g)
        (mk_member (m_node_id own) (address own) (heartbeat_counter own + 1) ALIVE now)
        (_members g)))
  end.

(** The candidates of [_select_peers]; [random.sample] draws [count] of them. *)
Definition peer_candidates g : list string :=
  omap (λ kv, if negb (bool_decide (kv.1 = _node_id g)) && negb (bool_decide (status kv.2 = DOWN))
              then Some kv.1 else None) (_members g).

Definition _select_peers g (sample : list string → nat → list string) : list string :=
  let candidates := peer_candidates g in
  let count := Z.min (_gossip_fanout g) (Z.of_nat (length candidates)) in
  if count =? 0 then [] else sample candidates (Z.to_nat count).

Definition timeout_status (timeout elapsed : Z) (s : NodeStatus) : NodeStatus :=
  match s with
  | ALIVE => if timeout <? elapsed then SUSPECTED else ALIVE
  | SUSPECTED => if 2 * timeout <? elapsed then DOWN else SUSPECTED
  | DOWN => DOWN
  end.

Definition _check_timeouts g now : GossipProtocol :=
  with_members g ((λ kv,
    if bool_decide (kv.1 = _node_id g) then kv
    else (kv.1, mk_member (m_node_id kv.2) (address kv.2) (heartbeat_counter kv.2)
            (timeout_status (_failure_timeout g) (now - last_updated kv.2) (status kv.2))
            (last_updated kv.2))) <$> _members g).

(** One remote entry of [merge_membership]. *)
Definition merge_one (self : string) (ms : dict string MemberInfo) (remote : MemberInfo) now
    : result (dict string MemberInfo) :=
  if bool_decide (m_node_id remote = self) then
    match dget self ms with
    | None => Raise KeyError
    | Some own =>
        Ok (if heartbeat_counter own <=? heartbeat_counter remote
            then dset self (mk_member (m_node_id own) (address own) (heartbeat_counter remote + 1)
                              (status own) (last_updated own)) ms
            else ms)
    end
  else
    match dget (m_node_id remote) ms with
    | None => Ok (dset (m_node_id remote)
        (mk_member (m_node_id remote) (address remote) (heartbeat_counter remote) ALIVE now) ms)
    | Some local =>
        Ok (if heartbeat_counter local <? heartbeat_counter remote
            then dset (m_node_id remote)
              (mk_member (m_node_id local) (address remote) (heartbeat_counter remote) ALIVE now) ms
            else ms)
    end.

Fixpoint merge_loop (self : string) (ms : dict string MemberInfo) (remotes : list MemberInfo) now
    : result (dict string MemberInfo) :=
  match remotes with
  | [] => Ok ms
  | remote :: remotes' => let* ms' := merge_one self ms remote now in merge_loop self ms' remotes' now
  end.

Definition merge_membership g (remote_members : list MemberInfo) now : result GossipProtocol :=
  let* ms := merge_loop (_node_id g) (_members g) remote_members now in Ok (with_members g ms).

Definition get_alive_nodes g : list MemberInfo :=
  filter (λ m, status m = ALIVE) (dvalues (_members g)).

Definition get_node_status g (node_id : string) : option NodeStatus :=
  status <$> dget node_id (_members g).

Definition add_seed_node g (node_id addr : string) now : GossipProtocol :=
  if dmem node_id (_members g) then g
  else with_members g (dset node_id (mk_member node_id addr 0 ALIVE now) (_members g)).

(** A round: own heartbeat, sending (the table is not changed by it), timeouts. *)
Definition _gossip_round g (now_beat now_check : Z) : result GossipProtocol :=
  let* g' := beat g now_beat in Ok (_check_timeouts g' now_check).

(** ** Events and the invariant *)

Inductive gossip_event :=
| Round (now_beat now_check : Z)
| Merge (remotes : list MemberInfo) now
| Seed (node_id addr : string) now
| Advertise (addr : string).

Definition gossip_step g (e : gossip_event) : result GossipProtocol :=
  match e with
  | Round t1 t2 => _gossip_round g t1 t2
  | Merge rs t => merge_membership g rs t
  | Seed n a t => Ok (add_seed_node g n a t)
  | Advertise a => advertise g a
  end.

(** The table is a dictionary of members under their own ids, the node itself is
    in it and alive. *)
Record gossip_ok g : Prop := {
  go_dict : dict_ok (_members g);
  go_ids : ∀ k m, dget k (_members g) = Some m → m_node_id m = k;
  go_self : ∃ own, dget (_node_id g) (_members g) = Some own ∧ status own = ALIVE;
}.

(** The heartbeat a node is known by; unknown nodes are below every counter. *)
Definition known (ms : dict string MemberInfo) (k : string) : option Z :=
  heartbeat_counter <$> dget k ms.

Definition option_le (a b : option Z) : Prop :=
  match a, b with
  | None, _ => True
  | Some x, Some y => x <= y
  | Some _, None => False
  end.

#[export] Instance option_le_preorder : PreOrder option_le.
Proof.
  split; [intros [x|]; simpl; lia|]. intros [x|] [y|] [z|]; simpl; try done; lia.
Qed.

Definition omax (a b : option Z) : option Z :=
  match a, b with
  | None, _ => b
  | _, None => a
  | Some x, Some y => Some (Z.max x y)
  end.

(** The greatest counter among the remote entries for node [k]. *)
Definition heard (remotes : list MemberInfo) (k : string) : option Z :=
  foldr (λ r acc, if decide (m_node_id r = k) then omax (Some (heartbeat_counter r)) acc else acc)
    None remotes.

Lemma heard_cons r rs k :
  heard (r :: rs) k =
    if decide (m_node_id r = k) then omax (Some (heartbeat_counter r)) (heard rs k) else heard rs k.
Proof. done. Qed.

Lemma omax_assoc a b c : omax a (omax b c) = omax (omax a b) c.
Proof. destruct a, b, c; simpl; try done. f_equal. lia. Qed.

Lemma omax_comm a b : omax a b = omax b a.
Proof. destruct a, b; simpl; try done. f_equal. lia. Qed.

Lemma omax_le a b : option_le a (omax a b).
Proof. destruct a, b; simpl; try done; lia. Qed.

(** What one remote entry does to the table. *)
Lemma merge_one_spec self ms remote now own :
  dict_ok ms → (∀ k m, dget k ms = Some m → m_node_id m = k) →
  dget self ms = Some own → status own = ALIVE →
  ∃ ms', merge_one self ms remote now = Ok ms' ∧ dict_ok ms' ∧
    (∀ k m, dget k ms' = Some m → m_node_id m = k) ∧
    (∃ own', dget self ms' = Some own' ∧ status own' = ALIVE ∧
       heartbeat_counter own <= heartbeat_counter own' ∧
       (m_node_id remote = self → heartbeat_counter remote < heartbeat_counter own')) ∧
    (∀ k, k ≠ self → known ms' k =
       if decide (m_node_id remote = k) then omax (known ms k) (Some (heartbeat_counter remote))
       else known ms k).
Proof.
  intros Hok Hids Hown Hst. unfold merge_one. case_bool_decide as Hself.
  - rewrite Hown. destruct (Z.leb_spec (heartbeat_counter own) (heartbeat_counter remote)) as [Hle|Hlt].
    + eexists. split; [done|]. split; [by apply dset_ok|]. split; [|split].
      * intros k m. rewrite dget_dset. case_decide as E; [|apply Hids].
        intros [= <-]. simpl. subst k. by apply Hids.
      * eexists. rewrite dget_dset_eq. split; [done|]. simpl. split; [done|]. split; [lia|lia].
      * intros k Hk. rewrite decide_False by congruence. unfold known. by rewrite dget_dset_ne.
    + exists ms. split; [done|]. split; [done|]. split; [done|]. split.
      * exists own. split; [done|]. split; [done|]. split; [lia|lia].
      * intros k Hk. by rewrite decide_False by congruence.
  - destruct (dget (m_node_id remote) ms) as [loc|] eqn:Hl.
    + destruct (Z.ltb_spec (heartbeat_counter loc) (heartbeat_counter remote)) as [Hlt|Hge].
      * eexists. split; [done|]. split; [by apply dset_ok|]. split; [|split].
        -- intros k m. rewrite dget_dset. case_decide as E; [|apply Hids].
           intros [= <-]. simpl. subst k. by apply Hids.
        -- exists own. rewrite dget_dset_ne by done. split; [done|]. split; [done|]. split; [lia|done].
        -- intros k Hk. unfold known. rewrite dget_dset. case_decide as E; [|done].
           subst k. rewrite Hl. simpl. f_equal. lia.
      * exists ms. split; [done|]. split; [done|]. split; [done|].
        split; [exists own; split; [done|]; split; [done|]; split; [lia|done]|].
        intros k Hk. case_decide as E; [|done]. subst k. unfold known. rewrite Hl. simpl. f_equal. lia.
    + eexists. split; [done|]. split; [by apply dset_ok|]. split; [|split].
      * intros k m. rewrite dget_dset. case_decide as E; [by intros [= <-]|apply Hids].
      * exists own. rewrite dget_dset_ne by done. split; [done|]. split; [done|]. split; [lia|done].
      * intros k Hk. unfold known. rewrite dget_dset. case_decide as E; [|done].
        subst k. by rewrite Hl.
Qed.

Lemma merge_loop_spec self remotes ms now own :
  dict_ok ms → (∀ k m, dget k ms = Some m → m_node_id m = k) →
  dget self ms = Some own → status own = ALIVE →
  ∃ ms', merge_loop self ms remotes now = Ok ms' ∧ dict_ok ms' ∧
    (∀ k m, dget k ms' = Some m → m_node_id m = k) ∧
    (∃ own', dget self ms' = Some own' ∧ status own' = ALIVE ∧
       heartbeat_counter own <= heartbeat_counter own' ∧
       ∀ r, r ∈ remotes → m_node_id r = self → heartbeat_counter r < heartbeat_counter own') ∧
    (∀ k, k ≠ self → known ms' k = omax (known ms k) (heard remotes k)).
Proof.
  revert ms own. induction remotes as [|r rs IH]; intros ms own Hok Hids Hown Hst; cbn [merge_loop].
  { exists ms. split; [done|]. split; [done|]. split; [done|]. split.
    - exists own. repeat split; [done..|lia|]. set_solver.
    - intros k _. by destruct (known ms k). }
  destruct (merge_one_spec self ms r now own Hok Hids Hown Hst)
    as (ms1&->&Hok1&Hids1&(own1&Hown1&Hst1&Hle1&Hgt1)&Hk1). cbn [rbind].
  destruct (IH ms1 own1 Hok1 Hids1 Hown1 Hst1)
    as (ms2&->&Hok2&Hids2&(own2&Hown2&Hst2&Hle2&Hgt2)&Hk2).
  exists ms2. split; [done|]. split; [done|]. split; [done|]. split.
  - exists own2. split; [done|]. split; [done|]. split; [lia|].
    intros x [->|Hx]%elem_of_cons Hid; [specialize (Hgt1 Hid); lia|by apply Hgt2].
  - intros k Hk. rewrite Hk2, Hk1, heard_cons by done. case_decide; [by rewrite omax_assoc|done].
Qed.

Lemma heard_perm rs1 rs2 k : rs1 ≡ₚ rs2 → heard rs1 k = heard rs2 k.
Proof.
  induction 1 as [|r rs1 rs2 _ IH|r1 r2 rs|rs1 rs2 rs3 _ IH1 _ IH2]; rewrite ?heard_cons; [done|..].
  - by rewrite IH.
  - destruct (decide (m_node_id r1 = k)), (decide (m_node_id r2 = k)); try done.
    by rewrite !omax_assoc, (omax_comm (Some (heartbeat_counter r1))).
  - congruence.
Qed.

(** ** Every event preserves the invariant and no heartbeat goes back *)

Lemma dget_fmap_values {V W} (f : string → V → W) (d : dict string V) k :
  dget k ((λ kv, (kv.1, f kv.1 kv.2)) <$> d) = f k <$> dget k d.
Proof.
  induction d as [|[k' v] d IH]; [done|]. rewrite fmap_cons. simpl.
  case_decide as E; [by subst|apply IH].
Qed.

Definition age (g : GossipProtocol) now (k : string) (m : MemberInfo) : MemberInfo :=
  if bool_decide (k = _node_id g) then m
  else mk_member (m_node_id m) (address m) (heartbeat_counter m)
         (timeout_status (_failure_timeout g) (now - last_updated m) (status m)) (last_updated m).

Lemma check_timeouts_dget g now k :
  dget k (_members (_check_timeouts g now)) = age g now k <$> dget k (_members g).
Proof.
  rewrite <- dget_fmap_values. simpl. f_equal. apply list_fmap_ext. intros i [k' m] _. unfold age.
  simpl. by case_bool_decide.
Qed.

Lemma check_timeouts_keys g now : dkeys (_members (_check_timeouts g now)) = dkeys (_members g).
Proof.
  unfold dkeys. simpl. rewrite <- list_fmap_compose. apply list_fmap_ext.
  intros i [k m] _. simpl. by case_bool_decide.
Qed.

Lemma beat_spec g now :
  gossip_ok g → ∃ own, dget (_node_id g) (_members g) = Some own ∧
    beat g now = Ok (with_members g (dset (_node_id g)
      (mk_member (m_node_id own) (address own) (heartbeat_counter own + 1) ALIVE now) (_members g))).
Proof.
  intros [_ _ (own&Hown&_)]. exists own. split; [done|]. unfold beat. by rewrite Hown.
Qed.

Lemma set_own_ok g g' own own' :
  gossip_ok g → dget (_node_id g) (_members g) = Some own → m_node_id own' = m_node_id own →
  status own' = ALIVE → _node_id g' = _node_id g →
  _members g' = dset (_node_id g) own' (_members g) → gossip_ok g'.
Proof.
  intros [Hd Hids _] Hown Hid Hst Hn Hm. split; rewrite Hm.
  - by apply dset_ok.
  - intros k m. rewrite dget_dset. case_decide as E; [|apply Hids].
    intros [= <-]. subst k. rewrite Hid. by apply Hids.
  - exists own'. by rewrite Hn, dget_dset_eq.
Qed.

Lemma check_timeouts_ok g now : gossip_ok g → gossip_ok (_check_timeouts g now).
Proof.
  intros [Hd Hids (own&Hown&Hst)]. split.
  - unfold dict_ok. by rewrite check_timeouts_keys.
  - intros k m. rewrite check_timeouts_dget. intros (m'&Hm'&->)%fmap_Some.
    unfold age. case_bool_decide; simpl; by apply Hids.
  - exists own. rewrite check_timeouts_dget. simpl. rewrite Hown. simpl. unfold age.
    by rewrite bool_decide_true by done.
Qed.

Lemma gossip_step_ok g e :
  gossip_ok g → ∃ g', gossip_step g e = Ok g' ∧ gossip_ok g' ∧ _node_id g' = _node_id g ∧
    ∀ k, option_le (known (_members g) k) (known (_members g') k).
Proof.
  intros Hg. destruct e as [t1 t2|rs t|n a t|a]; simpl.
  - unfold _gossip_round. destruct (beat_spec g t1 Hg) as (own&Hown&->). simpl.
    set (g1 := with_members g _). eexists. split; [done|]. split.
    { apply check_timeouts_ok. by apply (set_own_ok g g1 own (mk_member (m_node_id own) (address own)
        (heartbeat_counter own + 1) ALIVE t1)). }
    split; [done|]. intros k. unfold known. rewrite check_timeouts_dget. unfold g1. simpl.
    rewrite dget_dset. case_decide as E.
    + subst k. rewrite Hown. simpl. unfold age. rewrite bool_decide_true by done. simpl. lia.
    + destruct (dget k (_members g)) as [m|]; simpl; [|done]. unfold age.
      case_bool_decide; simpl; lia.
  - pose proof Hg as [Hd Hids (own&Hown&Hst)]. unfold merge_membership.
    destruct (merge_loop_spec (_node_id g) rs (_members g) t own Hd Hids Hown Hst)
      as (ms&->&Hd'&Hids'&(own'&Hown'&Hst'&Hle&_)&Hk). simpl.
    eexists. split; [done|]. split; [|split; [done|]].
    + split; [done|done|]. by exists own'.
    + intros k. simpl. destruct (decide (k = _node_id g)) as [->|Hne].
      * unfold known. by rewrite Hown, Hown'.
      * rewrite Hk by done. apply omax_le.
  - eexists. split; [done|]. unfold add_seed_node. destruct (dmem n (_members g)) eqn:Hm.
    { split; [done|]. split; [done|]. intros k. reflexivity. }
    apply dmem_false in Hm. destruct Hg as [Hd Hids (own&Hown&Hst)]. split; [|split; [done|]].
    + split; simpl; [by apply dset_ok|..].
      * intros k m. rewrite dget_dset. case_decide; [by intros [= <-]|apply Hids].
      * exists own. rewrite dget_dset_ne; [done|]. intros ->. congruence.
    + intros k. unfold known. simpl. rewrite dget_dset. case_decide; [subst; by rewrite Hm|reflexivity].
  - unfold advertise. pose proof Hg as [_ _ (own&Hown&Hst)]. rewrite Hown. eexists.
    split; [done|]. split; [by apply (set_own_ok g _ own (mk_member (m_node_id own) a
      (heartbeat_counter own) (status own) (last_updated own)))|]. split; [done|]. intros k.
    unfold known. simpl. rewrite dget_dset. case_decide; [|reflexivity]. subst. rewrite Hown.
    simpl. lia.
Qed.

Fixpoint gossip_run g (es : list gossip_event) : result GossipProtocol :=
  match es with
  | [] => Ok g
  | e :: es' => let* g' := gossip_step g e in gossip_run g' es'
  end.

Lemma init_gossip_ok n a f t now : gossip_ok (init_gossip n a f t now).
Proof.
  split; simpl.
  - unfold dict_ok. simpl. constructor; [set_solver|constructor].
  - intros k m. case_decide as E; [|done]. intros [= <-]. by subst.
  - eexists. rewrite decide_True by done. done.
Qed.

(** ** Cluster membership over a hash ring *)

(** What the membership needs of a ring: node names, insertion and removal. *)
Class HashRing (R : Type) := {
  hr_ok : R → Prop;
  hr_nodes : R → list string;
  hr_add : R → string → option Z → result R;
  hr_remove : R → string → result R;
  hr_nodup : ∀ r, hr_ok r → NoDup (hr_nodes r);
  hr_add_spec : ∀ r n c r', hr_ok r → hr_add r n c = Ok r' →
    hr_ok r' ∧ hr_nodes r' = hr_nodes r ++ [n];
  hr_remove_spec : ∀ r n r', hr_ok r → hr_remove r n = Ok r' →
    hr_ok r' ∧ hr_nodes r' = filter (λ x, x ≠ n) (hr_nodes r);
  hr_remove_total : ∀ r n, hr_ok r → n ≠ "" → n ∈ hr_nodes r → is_ok (hr_remove r n) = true;
}.

Lemma weights_add_inv (d mx : Z) (w : weights) n c w' :
  weights_step d mx w (AddNode n c) = Ok w' → n ≠ "" ∧ n ∉ dkeys w ∧ ∃ k, w' = dset n k w.
Proof.
  simpl. case_bool_decide; [done|]. destruct (_ <=? 0); [done|].
  destruct (dmem n w) eqn:Hm; [done|]. destruct (_ <? _); [done|]. intros [= <-].
  apply dmem_false, dget_None in Hm. eauto.
Qed.

#[export] Program Instance consistent_hash_ring : HashRing ConsistentHashRing := {|
  hr_ok r := ∃ h w, represents h r w;
  hr_nodes r := nodes (_state r);
  hr_add r n c := ring_step r (AddNode n c);
  hr_remove r n := ring_step r (RemoveNode n);
|}.
Next Obligation. intros r (h&w&Hr). rewrite (rep_nodes h r w Hr). apply Hr. Qed.
Next Obligation.
  intros r n c r' (h&w&Hr) Hs. destruct (step_represents h r w _ r' Hr Hs) as (w'&Hw&Hr').
  apply weights_add_inv in Hw as (_&Hn&k&->). split; [by exists h, (dset n k w)|].
  rewrite (rep_nodes h r' _ Hr'), (rep_nodes h r w Hr), dset_new by done.
  unfold dkeys. by rewrite fmap_app.
Qed.
Next Obligation.
  intros r n r' (h&w&Hr) Hs. destruct (step_represents h r w _ r' Hr Hs) as (w'&Hw&Hr').
  simpl in Hw. case_bool_decide; [done|]. destruct (dmem n w); [|done]. injection Hw as <-.
  split; [by exists h, (ddel n w)|].
  rewrite (rep_nodes h r' _ Hr'), (rep_nodes h r w Hr). apply dkeys_ddel, Hr.
Qed.
Next Obligation.
  intros r n (h&w&Hr) Hn Hin. pose proof (step_refines h r w (RemoveNode n) Hr) as Hs.
  unfold refines_step in Hs. simpl weights_step in Hs. rewrite bool_decide_false in Hs by done.
  rewrite (rep_nodes h r w Hr) in Hin. rewrite (proj2 (dmem_spec n w) Hin) in Hs.
  destruct Hs as (r'&->&_). done.
Qed.

Section membership.
Context {R : Type} `{HashRing R}.

Record ClusterMembership := mk_cluster {
  c_node_id : string;
  c_gossip : GossipProtocol;
  c_ring : R;
  c_virtual_nodes : Z;
  c_joined : bool;
}.
Implicit Types c : ClusterMembership.

(** A call returns the state it leaves behind and, if it raises, the exception. *)
Definition call : Type := ClusterMembership * result unit.

Definition set_gossip c g := mk_cluster (c_node_id c) g (c_ring c) (c_virtual_nodes c) (c_joined c).
Definition set_ring c r := mk_cluster (c_node_id c) (c_gossip c) r (c_virtual_nodes c) (c_joined c).
Definition set_joined c b := mk_cluster (c_node_id c) (c_gossip c) (c_ring c) (c_virtual_nodes c) b.

(** [if node not in ring.nodes: ring.add_node(node, virtual_nodes)] *)
Definition ensure_on_ring c (node : string) : call :=
  if bool_decide (node ∈ hr_nodes (c_ring c)) then (c, Ok tt)
  else match hr_add (c_ring c) node (Some (c_virtual_nodes c)) with
       | Ok r => (set_ring c r, Ok tt)
       | Raise e => (c, Raise e)
       end.

Definition ensure_off_ring c (node : string) : call :=
  if bool_decide (node ∈ hr_nodes (c_ring c)) then
    match hr_remove (c_ring c) node with
    | Ok r => (set_ring c r, Ok tt)
    | Raise e => (c, Raise e)
    end
  else (c, Ok tt).

Definition join_cluster c (seed_nodes : list (string * string)) now : call :=
  if c_joined c then (c, Ok tt)
  else
    match ensure_on_ring c (c_node_id c) with
    | (c1, Raise e) => (c1, Raise e)
    | (c1, Ok _) =>
        let g := foldl (λ g na, add_seed_node g na.1 na.2 now) (c_gossip c1) seed_nodes in
        (set_joined (set_gossip c1 g) true, Ok tt)
    end.

Definition leave_cluster c : call :=
  if c_joined c then
    match ensure_off_ring c (c_node_id c) with
    | (c1, Raise e) => (c1, Raise e)
    | (c1, Ok _) => (set_joined c1 false, Ok tt)
    end
  else (c, Ok tt).

Definition is_node_alive c (node_id : string) : bool :=
  bool_decide (get_node_status (c_gossip c) node_id = Some ALIVE).

Definition get_node_address c (node_id : string) : option string :=
  address <$> dget node_id (_members (c_gossip c)).

Definition get_alive_members c : list MemberInfo := get_alive_nodes (c_gossip c).

Definition on_node_joined c (node_id addr : string) now : call :=
  ensure_on_ring (set_gossip c (add_seed_node (c_gossip c) node_id addr now)) node_id.

Definition on_node_failed c (node_id : string) : call := ensure_off_ring c node_id.

Inductive membership_op :=
| Join (seeds : list (string * string)) now
| Leave
| Joined (node_id addr : string) now
| Failed (node_id : string).

Definition membership_step c (op : membership_op) : call :=
  match op with
  | Join seeds now => join_cluster c seeds now
  | Leave => leave_cluster c
  | Joined n a now => on_node_joined c n a now
  | Failed n => on_node_failed c n
  end.

Definition membership_run c (ops : list membership_op) : ClusterMembership :=
  foldl (λ c op, (membership_step c op).1) c ops.

Record cluster_ok c : Prop := {
  co_ring : hr_ok (c_ring c);
  co_gossip : gossip_ok (c_gossip c);
}.

(** ** The ring nodes and the joined flag as a specification *)

Definition with_node (ns : list string) (n : string) : list string :=
  if bool_decide (n ∈ ns) then ns else ns ++ [n].
Definition without_node (ns : list string) (n : string) : list string := filter (λ x, x ≠ n) ns.

Definition view c : list string * bool := (hr_nodes (c_ring c), c_joined c).

Definition view_step (self : string) (v : list string * bool) (op : membership_op)
    : list string * bool :=
  match op with
  | Join _ _ => if v.2 then v else (with_node v.1 self, true)
  | Leave => if v.2 then (without_node v.1 self, false) else v
  | Joined n _ _ => (with_node v.1 n, v.2)
  | Failed n => (without_node v.1 n, v.2)
  end.

Lemma ensure_on_ring_spec c n :
  cluster_ok c → cluster_ok (ensure_on_ring c n).1 ∧
  c_gossip (ensure_on_ring c n).1 = c_gossip c ∧ c_joined (ensure_on_ring c n).1 = c_joined c ∧
  c_node_id (ensure_on_ring c n).1 = c_node_id c ∧
  hr_nodes (c_ring (ensure_on_ring c n).1) =
    if is_ok (ensure_on_ring c n).2 then with_node (hr_nodes (c_ring c)) n
    else hr_nodes (c_ring c).
Proof.
  intros [Hr Hg]. unfold ensure_on_ring, with_node. case_bool_decide as Hn; [done|].
  destruct (hr_add _ _ _) as [r|e] eqn:E; [|done]. simpl.
  destruct (hr_add_spec _ _ _ _ Hr E) as [Hr' Hns]. done.
Qed.

Lemma ensure_off_ring_spec c n :
  cluster_ok c → cluster_ok (ensure_off_ring c n).1 ∧
  c_gossip (ensure_off_ring c n).1 = c_gossip c ∧ c_joined (ensure_off_ring c n).1 = c_joined c ∧
  c_node_id (ensure_off_ring c n).1 = c_node_id c ∧
  hr_nodes (c_ring (ensure_off_ring c n).1) =
    (if is_ok (ensure_off_ring c n).2 then without_node (hr_nodes (c_ring c)) n
     else hr_nodes (c_ring c)) ∧
  (n ≠ "" → is_ok (ensure_off_ring c n).2 = true).
Proof.
  intros [Hr Hg]. unfold ensure_off_ring, without_node. case_bool_decide as Hn.
  - destruct (hr_remove _ _) as [r|e] eqn:E; simpl.
    + destruct (hr_remove_spec _ _ _ Hr E) as [Hr' Hns]. done.
    + split; [by split|]. do 4 (split; [done|]). intros Hne. pose proof (hr_remove_total _ _ Hr Hne Hn) as Ht.
      by rewrite E in Ht.
  - simpl. split; [by split|]. do 3 (split; [done|]). split; [|done].
    rewrite filter_all; [done|]. intros x Hx ->. done.
Qed.

Lemma seeds_ok (seeds : list (string * string)) g now :
  gossip_ok g → gossip_ok (foldl (λ g na, add_seed_node g na.1 na.2 now) g seeds).
Proof.
  revert g. induction seeds as [|[n a] seeds IH]; intros g Hg; simpl; [done|].
  apply IH. by destruct (gossip_step_ok g (Seed n a now) Hg) as (g'&[= <-]&Hg'&_).
Qed.

Lemma add_seed_known g n a now : is_Some (dget n (_members (add_seed_node g n a now))).
Proof.
  unfold add_seed_node. destruct (dmem n (_members g)) eqn:E; [by apply dmem_true|].
  simpl. rewrite dget_dset_eq. by eexists.
Qed.
End membership.

(** Gossip is safe.  From the initial table, any history of rounds, merged
    tables, seeds and address changes succeeds; every member stays filed under
    its own id, the node itself stays alive in its own table, and the known
    heartbeat of no node ever decreases. *)
Theorem gossip_history_safe n a f t now es1 es2 :
  ∃ g1 g2, gossip_run (init_gossip n a f t now) es1 = Ok g1 ∧ gossip_run g1 es2 = Ok g2 ∧
    (∀ k m, dget k (_members g2) = Some m → m_node_id m = k) ∧
    get_node_status g2 n = Some ALIVE ∧
    ∀ k, option_le (known (_members g1) k) (known (_members g2) k).
Proof.
  assert (Hrun : ∀ es g, gossip_ok g → ∃ g', gossip_run g es = Ok g' ∧ gossip_ok g' ∧
    _node_id g' = _node_id g ∧ ∀ k, option_le (known (_members g) k) (known (_members g') k)).
  { induction es as [|e es IH]; intros g Hg; cbn [gossip_run].
    - exists g. split; [done|]. split; [done|]. split; [done|]. intros k. reflexivity.
    - destruct (gossip_step_ok g e Hg) as (g'&->&Hg'&Hn&Hk). cbn [rbind].
      destruct (IH g' Hg') as (g2&Hr&Hg2&Hn2&Hk2). exists g2. split; [done|]. split; [done|].
      split; [congruence|]. intros k. etrans; [apply Hk|apply Hk2]. }
  destruct (Hrun es1 _ (init_gossip_ok n a f t now)) as (g1&R1&O1&N1&_).
  destruct (Hrun es2 g1 O1) as (g2&R2&O2&N2&K2). exists g1, g2.
  split; [done|]. split; [done|]. split; [apply O2|]. split; [|done].
  destruct (go_self _ O2) as (own&Hown&Hst). rewrite N2, N1 in Hown. simpl in Hown.
  unfold get_node_status. rewrite Hown. simpl. by rewrite Hst.
Qed.

(** Merging tables is a join.  After [merge_membership] the heartbeat of every
    other node is the maximum of what was known and what was heard, whatever
    the order of the remote entries; a node that hears an echo of its own
    counter moves strictly past it. *)
Theorem gossip_merge_join g remotes remotes' now :
  gossip_ok g → remotes ≡ₚ remotes' →
  ∃ g1 g2, merge_membership g remotes now = Ok g1 ∧ merge_membership g remotes' now = Ok g2 ∧
    (∀ k, k ≠ _node_id g →
       known (_members g1) k = omax (known (_members g) k) (heard remotes k) ∧
       known (_members g2) k = known (_members g1) k) ∧
    (∀ r, r ∈ remotes → m_node_id r = _node_id g →
       ∃ c, known (_members g1) (_node_id g) = Some c ∧ heartbeat_counter r < c).
Proof.
  intros [Hd Hids (own&Hown&Hst)] Hp. unfold merge_membership.
  destruct (merge_loop_spec (_node_id g) remotes (_members g) now own Hd Hids Hown Hst)
    as (ms1&->&_&_&(own1&Hown1&_&_&Hgt)&Hk1).
  destruct (merge_loop_spec (_node_id g) remotes' (_members g) now own Hd Hids Hown Hst)
    as (ms2&->&_&_&_&Hk2). simpl.
  eexists _, _. split; [done|]. split; [done|]. simpl. split.
  - intros k Hne. split; [by apply Hk1|]. by rewrite Hk1, Hk2, (heard_perm remotes remotes').
  - intros r Hr Hid. exists (heartbeat_counter own1). unfold known. rewrite Hown1.
    split; [done|]. by apply Hgt.
Qed.

Definition demo_gossip : GossipProtocol := init_gossip "n1" "h:1" 3 5 0.

Lemma gossip_merge_join_witness :
  ∃ g1 g2, merge_membership demo_gossip
      [mk_member "n2" "h:2" 4 ALIVE 0; mk_member "n1" "h:1" 9 DOWN 0; mk_member "n2" "h:3" 6 DOWN 0] 7 = Ok g1 ∧
    merge_membership demo_gossip
      [mk_member "n2" "h:3" 6 DOWN 0; mk_member "n2" "h:2" 4 ALIVE 0; mk_member "n1" "h:1" 9 DOWN 0] 7 = Ok g2 ∧
    known (_members g2) "n2" = known (_members g1) "n2".
Proof.
  destruct (gossip_merge_join demo_gossip
    [mk_member "n2" "h:2" 4 ALIVE 0; mk_member "n1" "h:1" 9 DOWN 0; mk_member "n2" "h:3" 6 DOWN 0]
    [mk_member "n2" "h:3" 6 DOWN 0; mk_member "n2" "h:2" 4 ALIVE 0; mk_member "n1" "h:1" 9 DOWN 0] 7
    (init_gossip_ok _ _ _ _ _)) as (g1&g2&H1&H2&Hk&_).
  - symmetry. apply (Permutation_middle [_; _] []).
  - exists g1, g2. split; [exact H1|]. split; [exact H2|]. apply Hk. discriminate.
Defined.

(** Failure detection.  A round changes the status of another member only
    along ALIVE, SUSPECTED, DOWN, one step at a time and exactly when its last
    update is older than the timeout, respectively twice the timeout; only a
    merged counter above the known one brings a member back. *)
Theorem gossip_failure_detector g t1 t2 k m :
  gossip_ok g → k ≠ _node_id g → dget k (_members g) = Some m →
  ∃ g', _gossip_round g t1 t2 = Ok g' ∧
    get_node_status g' k = Some (match status m with
      | ALIVE => if _failure_timeout g <? t2 - last_updated m then SUSPECTED else ALIVE
      | SUSPECTED => if 2 * _failure_timeout g <? t2 - last_updated m then DOWN else SUSPECTED
      | DOWN => DOWN end) ∧
  ∀ remote now g'', m_node_id remote = k → merge_membership g [remote] now = Ok g'' →
    get_node_status g'' k =
      Some (if heartbeat_counter m <? heartbeat_counter remote then ALIVE else status m).
Proof.
  intros Hg Hk Hm. destruct (beat_spec g t1 Hg) as (own&Hown&Hbeat).
  unfold _gossip_round. rewrite Hbeat. simpl. eexists. split; [done|]. split.
  - unfold get_node_status. rewrite check_timeouts_dget. simpl. rewrite dget_dset_ne by done.
    rewrite Hm. simpl. unfold age. rewrite bool_decide_false by done. done.
  - intros remote now g'' Hid. unfold merge_membership, merge_loop, merge_one.
    rewrite bool_decide_false by congruence. rewrite Hid, Hm. simpl.
    destruct (_ <? _); intros [= <-]; unfold get_node_status; simpl.
    + by rewrite dget_dset_eq.
    + by rewrite Hm.
Qed.

Lemma gossip_failure_detector_witness :
  ∃ g', _gossip_round (add_seed_node demo_gossip "n2" "h:2" 0) 9 9 = Ok g' ∧
    get_node_status g' "n2" = Some SUSPECTED.
Proof.
  destruct (gossip_failure_detector (add_seed_node demo_gossip "n2" "h:2" 0) 9 9 "n2"
    (mk_member "n2" "h:2" 0 ALIVE 0)) as (g'&Hr&Hs&_).
  - destruct (gossip_step_ok demo_gossip (Seed "n2" "h:2" 0) (init_gossip_ok _ _ _ _ _))
      as (g&Hg&Hok&_). injection Hg as <-. exact Hok.
  - discriminate.
  - reflexivity.
  - exists g'. split; [exact Hr|]. rewrite Hs. reflexivity.
Defined.

(** Membership keeps the ring in step.  Against any hash ring that satisfies
    the interface, every membership call preserves the invariants; when it
    succeeds the ring holds exactly the nodes the specification prescribes,
    when it raises the ring and the joined flag are untouched; removing a named
    node never raises; and a node reported as joined has a known address. *)
Theorem membership_refines_view {R} `{HashRing R} (c : @ClusterMembership R) (op : membership_op) :
  cluster_ok c →
  cluster_ok (membership_step c op).1 ∧ NoDup (hr_nodes (c_ring (membership_step c op).1)) ∧
  view (membership_step c op).1 =
    (if is_ok (membership_step c op).2 then view_step (c_node_id c) (view c) op else view c) ∧
  (∀ n, op = Failed n → n ≠ "" → is_ok (membership_step c op).2 = true) ∧
  (∀ n a now, op = Joined n a now → is_Some (get_node_address (membership_step c op).1 n)).
Proof.
  intros Hc.
  assert (Hmain : cluster_ok (membership_step c op).1 ∧
    view (membership_step c op).1 =
      (if is_ok (membership_step c op).2 then view_step (c_node_id c) (view c) op else view c) ∧
    (∀ n, op = Failed n → n ≠ "" → is_ok (membership_step c op).2 = true) ∧
    (∀ n a now, op = Joined n a now → is_Some (get_node_address (membership_step c op).1 n))).
  { destruct op as [seeds now| |n a now|n]; simpl.
    - unfold join_cluster, view. simpl. destruct (c_joined c) eqn:Hj; [by simpl; rewrite ?Hj|].
      destruct (ensure_on_ring_spec c (c_node_id c) Hc) as (Hok&Hg&Hj'&Hid&Hns).
      destruct (ensure_on_ring c (c_node_id c)) as [c1 [[]|e]]; simpl in *; [|by rewrite Hns, Hj', ?Hj].
      split; [|by rewrite Hns]. split; simpl; [apply Hok|]. rewrite Hg. apply seeds_ok, Hc.
    - unfold leave_cluster, view. simpl. destruct (c_joined c) eqn:Hj; [|by simpl; rewrite ?Hj].
      destruct (ensure_off_ring_spec c (c_node_id c) Hc) as (Hok&Hg&Hj'&Hid&Hns&_).
      destruct (ensure_off_ring c (c_node_id c)) as [c1 [[]|e]]; simpl in *; [|by rewrite Hns, Hj', ?Hj].
      split; [|by rewrite Hns]. split; simpl; apply Hok.
    - unfold on_node_joined, view. set (c0 := set_gossip c _).
      assert (cluster_ok c0) as Hc0.
      { destruct Hc as [Hr Hg]. split; [done|]. simpl.
        by destruct (gossip_step_ok _ (Seed n a now) Hg) as (g'&[= <-]&Hg'&_). }
      destruct (ensure_on_ring_spec c0 n Hc0) as (Hok&Hg&Hj'&Hid&Hns).
      split; [done|]. split; [rewrite Hns, Hj'; by destruct (is_ok _)|]. split; [done|].
      intros n' a' now' [= <- <- <-]. unfold get_node_address. rewrite Hg. simpl.
      destruct (add_seed_known (c_gossip c) n a now) as [m ->]. by eexists.
    - unfold on_node_failed, view.
      destruct (ensure_off_ring_spec c n Hc) as (Hok&Hg&Hj'&Hid&Hns&Htot).
      split; [done|]. split; [rewrite Hns, Hj'; by destruct (is_ok _)|]. split; [|done].
      intros n' [= <-]. done. }
  destruct Hmain as (Hok&Hview&Hf&Hj). split; [done|]. split; [apply hr_nodup, Hok|]. done.
Qed.

Lemma membership_refines_view_witness :
  let c := mk_cluster "a" (init_gossip "a" "h:1" 3 5 0) demo_ring 2 false in
  view (membership_step c (Joined "c" "h:3" 1)).1 = (["a"; "b"; "c"], false).
Proof.
  intros c. destruct (membership_refines_view c (Joined "c" "h:3" 1)) as (_&_&Hview&_).
  - split; [exists demo_h, demo_weights; apply demo_represents|apply init_gossip_ok].
  - etransitivity; [exact Hview|]. vm_compute. reflexivity.
Defined.
