(* ===== verification/Snowflake.v ===== *)
(** * Snowflake identifiers

    Models src/unique-id-generator/src/unique_id: config.py, snowflake.py,
    parser.py and the integer strategy of strategies.py.  A call of the
    generator observes the clock: its first reading, and in the waiting loop a
    sequence of readings, each with the answer whether the deadline has passed.
    A call returns the state it leaves behind and its result. *)
From S2P Require Import Prelude PyList.
Local Open Scope Z_scope.

Record SnowflakeConfig := mk_config {
  timestamp_bits : Z;
  datacenter_bits : Z;
  machine_bits : Z;
  sequence_bits : Z;
  datacenter_id : Z;
  machine_id : Z;
  epoch_ms : Z;
}.

Definition DEFAULT_EPOCH_MS : Z := 1704067200000.
Definition default_config : SnowflakeConfig := mk_config 41 5 5 12 0 0 DEFAULT_EPOCH_MS.

Definition max_datacenter_id (c : SnowflakeConfig) : Z := Z.shiftl 1 (datacenter_bits c) - 1.
Definition max_machine_id (c : SnowflakeConfig) : Z := Z.shiftl 1 (machine_bits c) - 1.
Definition max_sequence (c : SnowflakeConfig) : Z := Z.shiftl 1 (sequence_bits c) - 1.
Definition max_timestamp (c : SnowflakeConfig) : Z := Z.shiftl 1 (timestamp_bits c) - 1.
Definition timestamp_shift (c : SnowflakeConfig) : Z :=
  datacenter_bits c + machine_bits c + sequence_bits c.
Definition datacenter_shift (c : SnowflakeConfig) : Z := machine_bits c + sequence_bits c.
Definition machine_shift (c : SnowflakeConfig) : Z := sequence_bits c.

(** [__post_init__], in the order of its checks. *)
Definition validate_config (c : SnowflakeConfig) : result SnowflakeConfig :=
  raise_if (timestamp_bits c <=? 0) InvalidConfigError (
  raise_if (datacenter_bits c <=? 0) InvalidConfigError (
  raise_if (machine_bits c <=? 0) InvalidConfigError (
  raise_if (sequence_bits c <=? 0) InvalidConfigError (
  raise_if (negb (timestamp_bits c + datacenter_bits c + machine_bits c + sequence_bits c =? 63))
    InvalidConfigError (
  raise_if (epoch_ms c <=? 0) InvalidConfigError (
  raise_if ((datacenter_id c <? 0) || (max_datacenter_id c <? datacenter_id c)) InvalidConfigError (
  raise_if ((machine_id c <? 0) || (max_machine_id c <? machine_id c)) InvalidConfigError (
  Ok c)))))))).

(** ** The generator *)

Record SnowflakeGenerator := mk_generator {
  _config : SnowflakeConfig;
  _node_prefix : Z;
  _sequence : Z;
  _last_timestamp : Z;
}.

Definition init_generator (c : SnowflakeConfig) : SnowflakeGenerator :=
  mk_generator c
    (Z.lor (Z.shiftl (datacenter_id c) (datacenter_shift c))
           (Z.shiftl (machine_id c) (machine_shift c)))
    0 (-1).

(** What one call sees of the clock. *)
Record observation := mk_obs {
  first_reading : Z;
  waiting : list (Z * bool);
}.

Fixpoint _wait_next_millis (last_timestamp : Z) (readings : list (Z * bool)) : result Z :=
  match readings with
  | [] => Raise OutOfFuel
  | (timestamp, deadline_passed) :: readings' =>
      if timestamp <? last_timestamp then Raise ClockMovedBackwardsError
      else if last_timestamp <? timestamp then Ok timestamp
      else if (deadline_passed : bool) then Raise SequenceOverflowError
      else _wait_next_millis last_timestamp readings'
  end.

Definition _generate_locked (g : SnowflakeGenerator) (o : observation)
    : SnowflakeGenerator * result Z :=
  let c := _config g in
  let timestamp := first_reading o in
  if timestamp <? _last_timestamp g then (g, Raise ClockMovedBackwardsError)
  else
    let sequence := if timestamp =? _last_timestamp g
                    then Z.land (_sequence g + 1) (max_sequence c) else 0 in
    let waited := if (timestamp =? _last_timestamp g) && (sequence =? 0)
                  then _wait_next_millis (_last_timestamp g) (waiting o) else Ok timestamp in
    match waited with
    | Raise e => (g, Raise e)
    | Ok timestamp' =>
        let offset := timestamp' - epoch_ms c in
        if (0 <=? offset) && (offset <=? max_timestamp c) then
          (mk_generator c (_node_prefix g) sequence timestamp',
           Ok (Z.lor (Z.lor (Z.shiftl offset (timestamp_shift c)) (_node_prefix g)) sequence))
        else (g, Raise ValueError)
    end.

(** The comprehension of [generate_batch], one observation per identifier. *)
Fixpoint batch_loop (g : SnowflakeGenerator) (os : list observation)
    : SnowflakeGenerator * result (list Z) :=
  match os with
  | [] => (g, Ok [])
  | o :: os' =>
      match _generate_locked g o with
      | (g', Raise e) => (g', Raise e)
      | (g', Ok i) =>
          match batch_loop g' os' with
          | (g'', Raise e) => (g'', Raise e)
          | (g'', Ok ids) => (g'', Ok (i :: ids))
          end
      end
  end.

Definition generate_batch (g : SnowflakeGenerator) (count : Z) (os : list observation)
    : SnowflakeGenerator * result (list Z) :=
  if count <=? 0 then (g, Raise ValueError) else batch_loop g (take (Z.to_nat count) os).

(** ** The parser *)

Record ParsedID := mk_parsed {
  id_value : Z;
  p_timestamp_ms : Z;
  p_datacenter_id : Z;
  p_machine_id : Z;
  p_sequence : Z;
}.

(** The last millisecond of the year 9999, the end of Python's [datetime]. *)
Definition MAX_DATETIME_MS : Z := 253402300799999.

Definition parse (c : SnowflakeConfig) (id_value : Z) : result ParsedID :=
  if id_value <? 0 then Raise ValueError
  else if 2 ^ 63 <=? id_value then Raise ValueError
  else
    let sequence := Z.land id_value (Z.shiftl 1 (sequence_bits c) - 1) in
    let machine := Z.land (Z.shiftr id_value (machine_shift c)) (Z.shiftl 1 (machine_bits c) - 1) in
    let datacenter :=
      Z.land (Z.shiftr id_value (datacenter_shift c)) (Z.shiftl 1 (datacenter_bits c) - 1) in
    let ts_offset :=
      Z.land (Z.shiftr id_value (timestamp_shift c)) (Z.shiftl 1 (timestamp_bits c) - 1) in
    let timestamp_ms := ts_offset + epoch_ms c in
    if MAX_DATETIME_MS <? timestamp_ms then Raise ValueError
    else Ok (mk_parsed id_value timestamp_ms datacenter machine sequence).

(** ** The timestamp-random strategy *)

Definition timestamp_random (epoch now_ms random_bits : Z) : result Z :=
  let ts := now_ms - epoch in
  if (0 <=? ts) && (ts <? Z.shiftl 1 42) then Ok (Z.lor (Z.shiftl ts 22) random_bits)
  else Raise ValueError.

(** ** Bit fields as arithmetic *)

Lemma shiftl_one n : 0 <= n → Z.shiftl 1 n = 2 ^ n.
Proof. intros. by rewrite Z.shiftl_mul_pow2, Z.mul_1_l. Qed.

Lemma lor_shift a b n : 0 <= n → 0 <= b < 2 ^ n → Z.lor (Z.shiftl a n) b = a * 2 ^ n + b.
Proof.
  intros Hn Hb. rewrite <- Z.shiftl_mul_pow2 by done.
  assert (Z.land (Z.shiftl a n) b = 0) as Hland.
  { apply Z.bits_inj'. intros i Hi. rewrite Z.land_spec, Z.bits_0.
    destruct (decide (i < n)) as [Hlt|Hge].
    - by rewrite Z.shiftl_spec_low.
    - destruct (decide (b = 0)) as [->|Hz]; [by rewrite Z.bits_0, andb_false_r|].
      rewrite (Z.bits_above_log2 b i), andb_false_r; [done|lia|].
      assert (Z.log2 b < n) by (apply Z.log2_lt_pow2; lia). lia. }
  by rewrite <- Z.lxor_lor, Z.add_nocarry_lxor.
Qed.

Lemma land_mask a n : 0 <= n → Z.land a (Z.shiftl 1 n - 1) = a mod 2 ^ n.
Proof.
  intros Hn. rewrite <- Z.land_ones, Z.ones_equiv by done. by rewrite shiftl_one, Z.sub_1_r.
Qed.

Lemma split_div a b n : 0 <= n → 0 <= b < 2 ^ n → (a * 2 ^ n + b) / 2 ^ n = a.
Proof. intros Hn Hb. rewrite Z.div_add_l, Z.div_small by lia. lia. Qed.

Lemma split_mod a b n : 0 <= n → 0 <= b < 2 ^ n → (a * 2 ^ n + b) mod 2 ^ n = b.
Proof. intros Hn Hb. rewrite Z.add_comm, Z.mod_add, Z.mod_small by lia. done. Qed.

Lemma nest_bound a b A B : 0 <= a < A → 0 <= b < B → 0 <= a * B + b < A * B.
Proof. intros. split; [nia|]. assert ((a + 1) * B <= A * B) by nia. nia. Qed.

(** A valid configuration. *)
Record config_ok (c : SnowflakeConfig) : Prop := {
  ok_ts : 0 < timestamp_bits c;
  ok_db : 0 < datacenter_bits c;
  ok_mb : 0 < machine_bits c;
  ok_sb : 0 < sequence_bits c;
  ok_sum : timestamp_bits c + datacenter_bits c + machine_bits c + sequence_bits c = 63;
  ok_epoch : 0 < epoch_ms c;
  ok_dc : 0 <= datacenter_id c < 2 ^ datacenter_bits c;
  ok_machine : 0 <= machine_id c < 2 ^ machine_bits c;
}.

Lemma validate_config_spec c : validate_config c = Ok c ↔ config_ok c.
Proof.
  unfold validate_config, raise_if, max_datacenter_id, max_machine_id. split.
  - destruct (Z.leb_spec (timestamp_bits c) 0); [done|].
    destruct (Z.leb_spec (datacenter_bits c) 0); [done|].
    destruct (Z.leb_spec (machine_bits c) 0); [done|].
    destruct (Z.leb_spec (sequence_bits c) 0); [done|].
    destruct (Z.eqb_spec (timestamp_bits c + datacenter_bits c + machine_bits c + sequence_bits c) 63);
      [|done]. simpl.
    destruct (Z.leb_spec (epoch_ms c) 0); [done|].
    rewrite !shiftl_one by lia.
    destruct (Z.ltb_spec (datacenter_id c) 0); [done|].
    destruct (Z.ltb_spec (2 ^ datacenter_bits c - 1) (datacenter_id c)); [done|].
    destruct (Z.ltb_spec (machine_id c) 0); [done|].
    destruct (Z.ltb_spec (2 ^ machine_bits c - 1) (machine_id c)); [done|]. simpl.
    intros _. split; lia.
  - intros [H1 H2 H3 H4 H5 H6 H7 H8]. rewrite !shiftl_one by lia.
    rewrite !(proj2 (Z.leb_gt _ _)) by lia. rewrite (proj2 (Z.eqb_eq _ _)) by done.
    by rewrite !(proj2 (Z.ltb_ge _ _)) by lia.
Qed.

Lemma validate_config_raises c :
  ¬ config_ok c → validate_config c = Raise InvalidConfigError.
Proof.
  intros Hn. assert (validate_config c ≠ Ok c) as Hne by (by rewrite validate_config_spec).
  unfold validate_config, raise_if in *. repeat (case_match; try done).
Qed.

(** The four fields packed into one number. *)
Definition pack (c : SnowflakeConfig) (offset dc machine sequence : Z) : Z :=
  ((offset * 2 ^ datacenter_bits c + dc) * 2 ^ machine_bits c + machine) * 2 ^ sequence_bits c
  + sequence.

Section layout.
Context (c : SnowflakeConfig) (Hc : config_ok c).

Lemma widths_pos :
  0 < timestamp_bits c ∧ 0 < datacenter_bits c ∧ 0 < machine_bits c ∧ 0 < sequence_bits c.
Proof. destruct Hc. lia. Qed.

Lemma pow_shift : 2 ^ timestamp_shift c = 2 ^ datacenter_bits c * 2 ^ machine_bits c * 2 ^ sequence_bits c.
Proof. pose proof widths_pos. unfold timestamp_shift. rewrite !Z.pow_add_r by lia. done. Qed.

Lemma pow_dc_shift : 2 ^ datacenter_shift c = 2 ^ machine_bits c * 2 ^ sequence_bits c.
Proof. pose proof widths_pos. unfold datacenter_shift. by rewrite Z.pow_add_r by lia. Qed.

Lemma pow_63 : 2 ^ timestamp_bits c * 2 ^ timestamp_shift c = 2 ^ 63.
Proof.
  pose proof widths_pos. destruct Hc. rewrite <- Z.pow_add_r by (unfold timestamp_shift; lia).
  f_equal. unfold timestamp_shift. lia.
Qed.

(** The fields of a number of at most 63 bits, by shift and mask. *)
Definition field_sequence (v : Z) : Z := v mod 2 ^ sequence_bits c.
Definition field_machine (v : Z) : Z := (v / 2 ^ sequence_bits c) mod 2 ^ machine_bits c.
Definition field_datacenter (v : Z) : Z :=
  (v / (2 ^ machine_bits c * 2 ^ sequence_bits c)) mod 2 ^ datacenter_bits c.
Definition field_offset (v : Z) : Z :=
  (v / (2 ^ datacenter_bits c * 2 ^ machine_bits c * 2 ^ sequence_bits c)) mod 2 ^ timestamp_bits c.

Lemma pack_fields offset dc m s :
  0 <= offset < 2 ^ timestamp_bits c → 0 <= dc < 2 ^ datacenter_bits c →
  0 <= m < 2 ^ machine_bits c → 0 <= s < 2 ^ sequence_bits c →
  let v := pack c offset dc m s in
  field_sequence v = s ∧ field_machine v = m ∧ field_datacenter v = dc ∧ field_offset v = offset.
Proof.
  intros Ho Hd Hm Hs v. pose proof widths_pos as (?&?&?&?).
  unfold field_sequence, field_machine, field_datacenter, field_offset, v, pack.
  assert (0 < 2 ^ datacenter_bits c ∧ 0 < 2 ^ machine_bits c ∧ 0 < 2 ^ sequence_bits c)
    as (?&?&?) by (split_and!; apply Z.pow_pos_nonneg; lia).
  rewrite (Z.mul_comm (2 ^ datacenter_bits c * _) (2 ^ sequence_bits c)),
    (Z.mul_comm (2 ^ datacenter_bits c) (2 ^ machine_bits c)),
    (Z.mul_comm (2 ^ machine_bits c) (2 ^ sequence_bits c)), <- !Z.div_div by lia.
  rewrite split_mod, !split_div, !split_mod by lia. by rewrite Z.mod_small by lia.
Qed.

Lemma pack_bounds offset dc m s :
  0 <= offset < 2 ^ timestamp_bits c → 0 <= dc < 2 ^ datacenter_bits c →
  0 <= m < 2 ^ machine_bits c → 0 <= s < 2 ^ sequence_bits c →
  0 <= pack c offset dc m s < 2 ^ 63.
Proof.
  intros Ho Hd Hm Hs. rewrite <- pow_63, pow_shift. unfold pack.
  pose proof widths_pos as (?&?&?&?).
  assert (0 < 2 ^ datacenter_bits c ∧ 0 < 2 ^ machine_bits c ∧ 0 < 2 ^ sequence_bits c)
    as (?&?&?) by (split_and!; apply Z.pow_pos_nonneg; lia).
  set (T := 2 ^ timestamp_bits c) in *. set (D := 2 ^ datacenter_bits c) in *.
  set (M := 2 ^ machine_bits c) in *. set (S := 2 ^ sequence_bits c) in *.
  assert (0 <= offset * D + dc <= T * D - 1) by nia.
  assert (0 <= (offset * D + dc) * M + m <= T * D * M - 1) by nia. nia.
Qed.

Lemma fields_pack v :
  0 <= v < 2 ^ 63 →
  pack c (field_offset v) (field_datacenter v) (field_machine v) (field_sequence v) = v.
Proof.
  intros Hv. pose proof widths_pos as (?&?&?&?). rewrite <- pow_63, pow_shift in Hv.
  unfold field_sequence, field_machine, field_datacenter, field_offset, pack.
  assert (0 < 2 ^ timestamp_bits c ∧ 0 < 2 ^ datacenter_bits c ∧ 0 < 2 ^ machine_bits c ∧
    0 < 2 ^ sequence_bits c) as (?&?&?&?) by (split_and!; apply Z.pow_pos_nonneg; lia).
  set (T := 2 ^ timestamp_bits c) in *. set (D := 2 ^ datacenter_bits c) in *.
  set (M := 2 ^ machine_bits c) in *. set (S := 2 ^ sequence_bits c) in *.
  rewrite (Z.mul_comm (D * M) S), (Z.mul_comm D M), (Z.mul_comm M S), <- !Z.div_div by lia.
  rewrite (Z.mod_small (v / S / M / D)).
  2: { split; [repeat apply Z.div_pos; lia|]. repeat (apply Z.div_lt_upper_bound; [lia|]). nia. }
  pose proof (Z.div_mod (v / S / M) D) as HD. pose proof (Z.div_mod (v / S) M) as HM.
  pose proof (Z.div_mod v S) as HS.
  rewrite (Z.mul_comm _ D), <- HD, (Z.mul_comm _ M), <- HM, (Z.mul_comm _ S), <- HS by lia. done.
Qed.

Lemma parse_fields v :
  parse c v =
    if (v <? 0) || (2 ^ 63 <=? v) then Raise ValueError
    else if MAX_DATETIME_MS <? field_offset v + epoch_ms c then Raise ValueError
    else Ok (mk_parsed v (field_offset v + epoch_ms c) (field_datacenter v) (field_machine v)
               (field_sequence v)).
Proof.
  pose proof widths_pos. unfold parse.
  destruct (v <? 0); [done|]. cbn [orb]. destruct (2 ^ 63 <=? v); [done|].
  rewrite !land_mask, !Z.shiftr_div_pow2 by (unfold machine_shift, datacenter_shift, timestamp_shift; lia).
  rewrite pow_shift, pow_dc_shift. done.
Qed.

Lemma parse_pack offset dc m s :
  0 <= offset < 2 ^ timestamp_bits c → 0 <= dc < 2 ^ datacenter_bits c →
  0 <= m < 2 ^ machine_bits c → 0 <= s < 2 ^ sequence_bits c →
  offset + epoch_ms c <= MAX_DATETIME_MS →
  parse c (pack c offset dc m s) =
    Ok (mk_parsed (pack c offset dc m s) (offset + epoch_ms c) dc m s).
Proof.
  intros Ho Hd Hm Hs Ht. rewrite parse_fields.
  destruct (pack_fields offset dc m s) as (->&->&->&->); try done.
  pose proof (pack_bounds offset dc m s Ho Hd Hm Hs) as Hb.
  rewrite (proj2 (Z.ltb_ge _ _)), (proj2 (Z.leb_gt _ _)), (proj2 (Z.ltb_ge _ _)) by lia. done.
Qed.

(** The composition of [_generate_locked] is [pack]. *)
Lemma compose_pack offset dc m s :
  0 <= dc < 2 ^ datacenter_bits c → 0 <= m < 2 ^ machine_bits c → 0 <= s < 2 ^ sequence_bits c →
  Z.lor (Z.lor (Z.shiftl offset (timestamp_shift c))
           (Z.lor (Z.shiftl dc (datacenter_shift c)) (Z.shiftl m (machine_shift c)))) s =
  pack c offset dc m s.
Proof.
  intros Hd Hm Hs. pose proof widths_pos as (?&?&?&?). unfold pack.
  rewrite <- !Z.lor_assoc.
  unfold machine_shift. rewrite (lor_shift m s) by lia.
  unfold datacenter_shift, timestamp_shift.
  rewrite (lor_shift dc); [|lia|rewrite Z.pow_add_r by lia; by apply nest_bound].
  rewrite lor_shift; [|lia|].
  2: { rewrite <- Z.add_assoc, !Z.pow_add_r by lia. apply nest_bound; [done|]. by apply nest_bound. }
  rewrite !Z.pow_add_r by lia. ring.
Qed.
End layout.

(** ** Histories of calls *)

Fixpoint run_generator (g : SnowflakeGenerator) (os : list observation)
    : SnowflakeGenerator * list (result Z) :=
  match os with
  | [] => (g, [])
  | o :: os' =>
      let '(g1, r) := _generate_locked g o in
      let '(g2, rs) := run_generator g1 os' in (g2, r :: rs)
  end.

(** The identifiers a history returned, in order. *)
Fixpoint issued (rs : list (result Z)) : list Z :=
  match rs with
  | [] => []
  | Ok i :: rs' => i :: issued rs'
  | Raise _ :: rs' => issued rs'
  end.

(** The value of the last identifier, negative before the first. *)
Definition high_water (g : SnowflakeGenerator) : Z :=
  let c := _config g in
  pack c (_last_timestamp g - epoch_ms c) (datacenter_id c) (machine_id c) (_sequence g).

Record generator_ok (c : SnowflakeConfig) (g : SnowflakeGenerator) : Prop := {
  g_config : _config g = c;
  g_prefix : _node_prefix g = _node_prefix (init_generator c);
  g_sequence : 0 <= _sequence g < 2 ^ sequence_bits c;
}.

(** The reading of the clock a call goes on with: its first one, or, when that
    millisecond is used up, the first later one seen while the clock stood
    still and the deadline had not passed. *)
Definition reading_of (o : observation) (t : Z) : Prop :=
  t = first_reading o ∨
  ∃ before b after, waiting o = before ++ (t, b) :: after ∧
    Forall (λ p, p = (first_reading o, false)) before ∧ first_reading o < t.

(** An identifier of the generator of [c] at the reading [t]. *)
Definition issued_at (c : SnowflakeConfig) (t i : Z) : Prop :=
  ∃ s, i = pack c (t - epoch_ms c) (datacenter_id c) (machine_id c) s ∧
    0 <= t - epoch_ms c < 2 ^ timestamp_bits c ∧ 0 <= s < 2 ^ sequence_bits c.

(** The sound result of one call, from what it observed of the clock. *)
Definition outcome_of (c : SnowflakeConfig) (o : observation) (r : result Z) : Prop :=
  match r with
  | Ok i => ∃ t, reading_of o t ∧ issued_at c t i
  | Raise ValueError => ∃ t, reading_of o t ∧ ¬ epoch_ms c <= t <= epoch_ms c + max_timestamp c
  | Raise SequenceOverflowError => (first_reading o, true) ∈ waiting o
  | Raise ClockMovedBackwardsError => True
  | Raise e => e = OutOfFuel ∧ Forall (λ p, p = (first_reading o, false)) (waiting o)
  end.

Lemma init_generator_ok c : config_ok c → generator_ok c (init_generator c).
Proof.
  intros Hc. split; [done|done|]. simpl. split; [done|]. apply Z.pow_pos_nonneg; [lia|].
  destruct Hc; lia.
Qed.

Lemma pack_mono c (Hc : config_ok c) o1 o2 dc m s1 s2 :
  0 <= dc < 2 ^ datacenter_bits c → 0 <= m < 2 ^ machine_bits c →
  0 <= s1 < 2 ^ sequence_bits c → 0 <= s2 < 2 ^ sequence_bits c →
  o1 < o2 ∨ o1 = o2 ∧ s1 < s2 → pack c o1 dc m s1 < pack c o2 dc m s2.
Proof.
  intros Hd Hm Hs1 Hs2 [Hlt|[-> Hlt]]; unfold pack; [|lia].
  set (D := 2 ^ datacenter_bits c) in *. set (M := 2 ^ machine_bits c) in *.
  set (S := 2 ^ sequence_bits c) in *.
  assert (o1 * D + dc < o2 * D + dc) by nia.
  assert ((o1 * D + dc) * M + m < (o2 * D + dc) * M + m) by nia. nia.
Qed.

(** The wait returns the first later reading, or gives up at a reading of the
    same millisecond past the deadline. *)
Lemma wait_next_millis_spec last rs :
  match _wait_next_millis last rs with
  | Ok t => last < t ∧ ∃ before b after, rs = before ++ (t, b) :: after ∧
              Forall (λ p, p = (last, false)) before
  | Raise SequenceOverflowError => (last, true) ∈ rs
  | Raise ClockMovedBackwardsError => True
  | Raise e => e = OutOfFuel ∧ Forall (λ p, p = (last, false)) rs
  end.
Proof.
  induction rs as [|[t' b] rs IH]; simpl; [done|].
  destruct (Z.ltb_spec t' last); [done|]. destruct (Z.ltb_spec last t').
  - split; [done|]. exists [], b, rs. done.
  - replace t' with last in * by lia. destruct b; [left|].
    destruct (_wait_next_millis last rs) as [t|e].
    + destruct IH as [Hlt (before & b & after & -> & Hall)]. split; [done|].
      exists ((last, false) :: before), b, after. auto.
    + destruct e; try done; try (by right); destruct IH as [? Hall]; try done; auto.
Qed.

(** The reading a call goes on with, or why it goes on with none. *)
Lemma waited_spec g o sequence :
  match (if (first_reading o =? _last_timestamp g) && (sequence =? 0)
         then _wait_next_millis (_last_timestamp g) (waiting o) else Ok (first_reading o)) with
  | Ok t => reading_of o t
  | Raise e => e ≠ ValueError ∧ outcome_of (_config g) o (Raise e)
  end.
Proof.
  destruct (Z.eqb_spec (first_reading o) (_last_timestamp g)) as [He|]; [|by left].
  destruct (sequence =? 0); [|by left]. cbn [andb]. rewrite <- He.
  pose proof (wait_next_millis_spec (first_reading o) (waiting o)) as Hw.
  destruct (_wait_next_millis _ _) as [t|e].
  - destruct Hw as [Hlt (before & b & after & Hw & Hall)]. right. by exists before, b, after.
  - destruct e; try done; by destruct Hw.
Qed.

(** A call that fails changes nothing; one that succeeds returns an identifier
    above all the earlier ones, at a reading it observed. *)
Lemma generate_locked_step c g o g' r :
  config_ok c → generator_ok c g → _generate_locked g o = (g', r) →
  outcome_of c o r ∧
  match r with
  | Raise _ => g' = g
  | Ok i => generator_ok c g' ∧ high_water g < i ∧ high_water g' = i
  end.
Proof.
  intros Hc Hg Hgen. pose proof (ok_dc _ Hc) as Hd. pose proof (ok_machine _ Hc) as Hm.
  pose proof (ok_sb _ Hc) as Hsb. destruct Hg as [<- Hp Hs]. set (c := _config g) in *.
  assert (max_sequence c = Z.shiftl 1 (sequence_bits c) - 1) as HM by done.
  assert (0 < 2 ^ sequence_bits c) as Hpos by (apply Z.pow_pos_nonneg; lia).
  unfold _generate_locked in Hgen. fold c in Hgen. rewrite HM, land_mask in Hgen by lia.
  destruct (Z.ltb_spec (first_reading o) (_last_timestamp g)) as [|Hge]; [by injection Hgen as <- <-|].
  set (seq := if first_reading o =? _last_timestamp g then _ else 0) in Hgen.
  assert (0 <= seq < 2 ^ sequence_bits c) as Hseq.
  { unfold seq. destruct (_ =? _); [by apply Z.mod_pos_bound|lia]. }
  match type of Hgen with context [match ?w with Ok _ => _ | Raise _ => _ end] =>
    pose proof (waited_spec g o seq : match w with Ok _ => _ | Raise _ => _ end) as Hread;
    destruct w as [t|e] eqn:Hw; [|destruct Hread; by injection Hgen as <- <-] end.
  assert (_last_timestamp g < t ∨ _last_timestamp g = t ∧ _sequence g < seq) as Hlt.
  { destruct (Z.eqb_spec (first_reading o) (_last_timestamp g)) as [He|Hne]; simpl in Hw.
    - destruct (Z.eqb_spec seq 0) as [Hz|Hz].
      + left. pose proof (wait_next_millis_spec (_last_timestamp g) (waiting o)) as Hgt.
        rewrite Hw in Hgt. apply Hgt.
      + injection Hw as <-. right. split; [done|]. unfold seq in Hz |- *.
        destruct (decide (_sequence g + 1 = 2 ^ sequence_bits c)) as [Hfull|];
          [by rewrite Hfull, Z.mod_same in Hz by lia|]. rewrite Z.mod_small; lia.
    - injection Hw as <-. left. lia. }
  destruct (Z.leb_spec 0 (t - epoch_ms c)) as [Ho|];
    [|injection Hgen as <- <-; split; [exists t; split; [done|lia]|done]].
  destruct (Z.leb_spec (t - epoch_ms c) (max_timestamp c)) as [Ho'|];
    [|injection Hgen as <- <-; split; [exists t; split; [done|lia]|done]].
  simpl in Hgen. injection Hgen as <- <-. rewrite Hp.
  unfold max_timestamp in Ho'. rewrite shiftl_one in Ho' by (destruct Hc; lia).
  unfold init_generator, _node_prefix. rewrite (compose_pack c Hc) by done.
  split; [exists t; split; [done|by exists seq; split_and!; lia]|].
  split_and!; [by split| |done].
  unfold high_water. apply pack_mono; try done. fold c. lia.
Qed.

Lemma run_generator_spec c g os g' rs :
  config_ok c → generator_ok c g → run_generator g os = (g', rs) →
  StronglySorted Z.lt (high_water g :: issued rs) ∧ Forall2 (outcome_of c) os rs.
Proof.
  intros Hc. revert g g' rs. induction os as [|o os IH]; intros g g' rs Hg Hrun; simpl in Hrun.
  { injection Hrun as <- <-. simpl. split; repeat constructor. }
  destruct (_generate_locked g o) as [g1 r] eqn:H1.
  destruct (run_generator g1 os) as [g2 rs2] eqn:H2. injection Hrun as <- <-.
  destruct (generate_locked_step c g o g1 r Hc Hg H1) as [Hout Hstep].
  destruct r as [i|e]; cbn [issued].
  - destruct Hstep as (Hg1 & Hlt & Hhw). destruct (IH g1 g2 rs2 Hg1 H2) as [Hs Hf].
    rewrite Hhw in Hs. split; [|by constructor]. constructor; [done|].
    constructor; [done|]. apply StronglySorted_inv in Hs as [_ Hall].
    eapply Forall_impl; [exact Hall|]. simpl. intros x. lia.
  - subst g1. destruct (IH g g2 rs2 Hg H2) as [Hs Hf]. split; [done|by constructor].
Qed.

Lemma issued_in c os rs i :
  Forall2 (outcome_of c) os rs → i ∈ issued rs → ∃ t, issued_at c t i.
Proof.
  induction 1 as [|o [j|e] os rs Ho _ IH]; cbn [issued]; [by intros ?%not_elem_of_nil| |done].
  intros [->|Hi]%elem_of_cons; [|by apply IH]. destruct Ho as (t & _ & Ht). by exists t.
Qed.

(** An identifier issued at a reading fits in 63 bits and is parsed to it. *)
Lemma issued_at_parses c t i :
  config_ok c → issued_at c t i →
  0 <= i < 2 ^ 63 ∧
  ∃ s, i = pack c (t - epoch_ms c) (datacenter_id c) (machine_id c) s ∧
    epoch_ms c <= t <= epoch_ms c + max_timestamp c ∧ 0 <= s <= max_sequence c ∧
    parse c i = (if MAX_DATETIME_MS <? t then Raise ValueError
                 else Ok (mk_parsed i t (datacenter_id c) (machine_id c) s)).
Proof.
  intros Hc (s & Heq & Ho & Hsb).
  pose proof (pack_bounds c Hc _ (datacenter_id c) (machine_id c) s Ho (ok_dc _ Hc) (ok_machine _ Hc) Hsb).
  destruct (pack_fields c Hc _ (datacenter_id c) (machine_id c) s Ho (ok_dc _ Hc) (ok_machine _ Hc) Hsb)
    as (H1&H2&H3&H4).
  split; [by rewrite Heq|]. exists s.
  unfold max_timestamp, max_sequence. rewrite !shiftl_one by (destruct Hc; lia).
  split_and!; [done|lia..|].
  rewrite parse_fields, Heq, H1, H2, H3, H4 by done.
  rewrite (proj2 (Z.ltb_ge _ _)), (proj2 (Z.leb_gt _ _)) by lia. cbn [orb].
  by replace (t - epoch_ms c + epoch_ms c) with t by lia.
Qed.

(** What one call of a history may return, from what it observed of the clock:
    an identifier of a reading it took, which the parser gives back. *)
Definition call_ok (c : SnowflakeConfig) (o : observation) (r : result Z) : Prop :=
  match r with
  | Ok i => 0 <= i < 2 ^ 63 ∧
      ∃ t s, reading_of o t ∧ i = pack c (t - epoch_ms c) (datacenter_id c) (machine_id c) s ∧
        epoch_ms c <= t <= epoch_ms c + max_timestamp c ∧ 0 <= s <= max_sequence c ∧
        parse c i = (if MAX_DATETIME_MS <? t then Raise ValueError
                     else Ok (mk_parsed i t (datacenter_id c) (machine_id c) s))
  | Raise _ => outcome_of c o r
  end.

(** C39: whatever the clock does, and whatever calls fail, the identifiers a
    generator returns increase strictly, and each call answers from the clock
    readings it observed.  An identifier fits in 63 bits and carries a reading
    of that very call, its first one or the first later one of the overflow
    wait, taken while the clock stood still before the deadline; the parser of
    the same configuration reads it back as that reading, the generator's data
    centre and machine and a sequence number, or raises [ValueError] when the
    reading lies past the last date Python represents.  A call raises
    [SequenceOverflowError] only at a reading of the exhausted millisecond past
    the deadline and [ValueError] only at a reading outside the layout. *)
Theorem snowflake_history (c : SnowflakeConfig) (os : list observation) :
  validate_config c = Ok c →
  let rs := (run_generator (init_generator c) os).2 in
  StronglySorted Z.lt (issued rs) ∧ Forall2 (call_ok c) os rs.
Proof.
  intros Hc%validate_config_spec. simpl.
  destruct (run_generator (init_generator c) os) as [g rs] eqn:Hrun.
  destruct (run_generator_spec c _ _ _ _ Hc (init_generator_ok c Hc) Hrun) as [Hs Hf].
  apply StronglySorted_inv in Hs as [Hs _]. split; [done|].
  eapply Forall2_impl; [exact Hf|]. intros o [i|e]; [|done]. intros (t & Ht & Hat).
  destruct (issued_at_parses c t i Hc Hat) as [Hb (s & Hrest)]. split; [done|].
  exists t, s. by split.
Qed.

(** A deployment of three nodes and their clocks. *)
Definition demo_config (dc m : Z) : SnowflakeConfig := mk_config 41 5 5 12 dc m DEFAULT_EPOCH_MS.
Definition demo_clock : list observation :=
  [mk_obs 1704067200007 []; mk_obs 1704067200007 []; mk_obs 1704067200003 [];
   mk_obs 1704067200009 []].

(** Two identifiers per millisecond: the third call of a millisecond waits, in
    vain the first time. *)
Definition tight_config : SnowflakeConfig := mk_config 52 5 5 1 3 4 DEFAULT_EPOCH_MS.
Definition tight_clock : list observation :=
  let t := 1704067200007 in
  [mk_obs t []; mk_obs t []; mk_obs t [(t, false); (t, true)]; mk_obs (t - 4) [];
   mk_obs t [(t, false); (t + 2, false)]].

Lemma snowflake_history_witness :
  let c := tight_config in
  let rs := (run_generator (init_generator c) tight_clock).2 in
  rs = [Ok 14536; Ok 14537; Raise SequenceOverflowError; Raise ClockMovedBackwardsError; Ok 18632] ∧
  StronglySorted Z.lt (issued rs) ∧ Forall2 (call_ok c) tight_clock rs.
Proof.
  intros c rs. split; [vm_compute; reflexivity|].
  apply (snowflake_history tight_config tight_clock). reflexivity.
Defined.

Lemma run_generator_app g os1 os2 :
  run_generator g (os1 ++ os2) =
    let '(g1, rs1) := run_generator g os1 in
    let '(g2, rs2) := run_generator g1 os2 in (g2, rs1 ++ rs2).
Proof.
  revert g. induction os1 as [|o os1 IH]; intros g; simpl.
  - by destruct (run_generator g os2).
  - destruct (_generate_locked g o) as [g1 r]. rewrite IH.
    destruct (run_generator g1 os1) as [g2 rs1]. by destruct (run_generator g2 os2).
Qed.

Lemma run_generator_ok c g os :
  config_ok c → generator_ok c g → generator_ok c (run_generator g os).1.
Proof.
  intros Hc. revert g. induction os as [|o os IH]; intros g Hg; simpl; [done|].
  destruct (_generate_locked g o) as [g1 r] eqn:H1.
  destruct (generate_locked_step c g o g1 r Hc Hg H1) as [_ Hstep].
  assert (generator_ok c g1) as Hg1 by (destruct r; [apply Hstep|by subst]).
  specialize (IH g1 Hg1). by destruct (run_generator g1 os).
Qed.

(** A batch is the calls up to its first failure: their state stays. *)
Lemma batch_loop_calls g os :
  match (batch_loop g os).2 with
  | Ok ids => run_generator g os = ((batch_loop g os).1, Ok <$> ids)
  | Raise e => ∃ done o rest ids, os = done ++ o :: rest ∧
      run_generator g (done ++ [o]) = ((batch_loop g os).1, (Ok <$> ids) ++ [Raise e])
  end.
Proof.
  revert g. induction os as [|o os IH]; intros g; simpl; [done|].
  destruct (_generate_locked g o) as [g1 [i|e]] eqn:H1.
  - specialize (IH g1). destruct (batch_loop g1 os) as [g2 [ids|e]]; simpl in *.
    + by rewrite IH.
    + destruct IH as (pre & o' & rest & ids & -> & Hrun). exists (o :: pre), o', rest, (i :: ids).
      split; [done|]. simpl. by rewrite H1, Hrun.
  - exists [], o, os, []. split; [done|]. simpl. by rewrite H1.
Qed.

(** Two generators with the same bit layout, whatever their epochs, on
    different data centres or machines never return the same identifier,
    whatever their clocks do and however many identifiers each returns. *)
Theorem snowflake_nodes_disjoint (c1 c2 : SnowflakeConfig) (os1 os2 : list observation) :
  validate_config c1 = Ok c1 → validate_config c2 = Ok c2 →
  datacenter_bits c1 = datacenter_bits c2 → machine_bits c1 = machine_bits c2 →
  sequence_bits c1 = sequence_bits c2 →
  (datacenter_id c1, machine_id c1) ≠ (datacenter_id c2, machine_id c2) →
  issued (run_generator (init_generator c1) os1).2 ## issued (run_generator (init_generator c2) os2).2.
Proof.
  intros Hc1%validate_config_spec Hc2%validate_config_spec Hdb Hmb Hsb Hne i Hi1 Hi2. apply Hne.
  destruct (run_generator (init_generator c1) os1) as [g1 rs1] eqn:H1.
  destruct (run_generator (init_generator c2) os2) as [g2 rs2] eqn:H2.
  destruct (run_generator_spec c1 _ _ _ _ Hc1 (init_generator_ok c1 Hc1) H1) as [_ Hf1].
  destruct (run_generator_spec c2 _ _ _ _ Hc2 (init_generator_ok c2 Hc2) H2) as [_ Hf2].
  destruct (issued_in _ _ _ i Hf1 Hi1) as (t1 & s1 & Hp1 & Ho1 & Hs1).
  destruct (issued_in _ _ _ i Hf2 Hi2) as (t2 & s2 & Hp2 & Ho2 & Hs2).
  destruct (pack_fields c1 Hc1 _ _ _ s1 Ho1 (ok_dc _ Hc1) (ok_machine _ Hc1) Hs1) as (_ & Hm1 & Hd1 & _).
  destruct (pack_fields c2 Hc2 _ _ _ s2 Ho2 (ok_dc _ Hc2) (ok_machine _ Hc2) Hs2) as (_ & Hm2 & Hd2 & _).
  rewrite <- Hp1 in Hm1, Hd1. rewrite <- Hp2 in Hm2, Hd2. rewrite <- Hm1, <- Hd1, <- Hm2, <- Hd2.
  unfold field_machine, field_datacenter. by rewrite Hdb, Hmb, Hsb.
Qed.

Lemma snowflake_nodes_disjoint_witness :
  let run c := issued (run_generator (init_generator c) demo_clock).2 in
  length (run (demo_config 3 4)) = 3%nat ∧ length (run (demo_config 3 5)) = 3%nat ∧
  run (demo_config 3 4) ## run (demo_config 3 5).
Proof.
  split_and!; [reflexivity..|].
  apply (snowflake_nodes_disjoint (demo_config 3 4) (demo_config 3 5) demo_clock demo_clock);
    [reflexivity..|]. simpl. congruence.
Defined.

(** The parser accepts exactly the 63-bit integers whose clock reading is
    a date Python represents, and what it returns is the only reading of that
    integer: the four fields in their ranges that pack to it. *)
Theorem snowflake_parse_exact (c : SnowflakeConfig) (v t dc m s : Z) :
  validate_config c = Ok c →
  (parse c v = Ok (mk_parsed v t dc m s) ↔
     v = pack c (t - epoch_ms c) dc m s ∧ epoch_ms c <= t <= epoch_ms c + max_timestamp c ∧
     0 <= dc <= max_datacenter_id c ∧ 0 <= m <= max_machine_id c ∧ 0 <= s <= max_sequence c ∧
     t <= MAX_DATETIME_MS) ∧
  (parse c v = Raise ValueError ↔
     v < 0 ∨ 2 ^ 63 <= v ∨ MAX_DATETIME_MS < field_offset c v + epoch_ms c).
Proof.
  intros Hc%validate_config_spec. pose proof (widths_pos c Hc) as (?&?&?&?).
  unfold max_timestamp, max_datacenter_id, max_machine_id, max_sequence. rewrite !shiftl_one by lia.
  split; cycle 1.
  { rewrite parse_fields by done. destruct (Z.ltb_spec v 0), (Z.leb_spec (2 ^ 63) v); simpl;
      try (split; [lia|done]).
    destruct (Z.ltb_spec MAX_DATETIME_MS (field_offset c v + epoch_ms c)); split; try done; lia. }
  split.
  - rewrite parse_fields by done. destruct (Z.ltb_spec v 0), (Z.leb_spec (2 ^ 63) v); simpl; try done.
    destruct (Z.ltb_spec MAX_DATETIME_MS (field_offset c v + epoch_ms c)); [done|].
    intros [= <- <- <- <-].
    replace (field_offset c v + epoch_ms c - epoch_ms c) with (field_offset c v) by lia.
    rewrite fields_pack by (done || lia). split; [done|].
    assert (∀ n x, 0 < n → 0 <= x mod 2 ^ n <= 2 ^ n - 1) as Hb.
    { intros n x Hn. pose proof (Z.mod_pos_bound x (2 ^ n) (Z.pow_pos_nonneg 2 n ltac:(lia) ltac:(lia))). lia. }
    pose proof (Hb _ (v `div` (2 ^ datacenter_bits c * 2 ^ machine_bits c * 2 ^ sequence_bits c)) (ok_ts c Hc)).
    fold (field_offset c v) in *. split_and!; try lia; by apply Hb.
  - intros (-> & Ht & Hd & Hm & Hs & Hmax).
    rewrite (parse_pack c Hc) by lia. do 2 f_equal. lia.
Qed.

Lemma snowflake_parse_exact_witness :
  let c := demo_config 3 4 in
  parse c 38158336 = Ok (mk_parsed 38158336 1704067200009 3 4 0) ∧
  38158336 = pack c (1704067200009 - epoch_ms c) 3 4 0.
Proof.
  intros c. split; [reflexivity|].
  apply (proj1 (proj1 (snowflake_parse_exact c 38158336 1704067200009 3 4 0 eq_refl))). reflexivity.
Defined.

(** A call in a millisecond with room left takes the next sequence number. *)
Lemma generate_same_millis c g o :
  config_ok c → generator_ok c g → first_reading o = _last_timestamp g →
  0 <= _last_timestamp g - epoch_ms c <= max_timestamp c → _sequence g + 1 < 2 ^ sequence_bits c →
  _generate_locked g o =
    (mk_generator c (_node_prefix g) (_sequence g + 1) (_last_timestamp g),
     Ok (pack c (_last_timestamp g - epoch_ms c) (datacenter_id c) (machine_id c) (_sequence g + 1))).
Proof.
  intros Hc [Hcf Hp Hs] Ht Ho Hroom. pose proof (widths_pos c Hc) as (?&?&?&?).
  unfold _generate_locked. rewrite Hcf, Ht, Z.ltb_irrefl, Z.eqb_refl.
  unfold max_sequence. rewrite land_mask, Z.mod_small by lia.
  rewrite (proj2 (Z.eqb_neq (_sequence g + 1) 0)) by lia. cbn [andb].
  rewrite !(proj2 (Z.leb_le _ _)) by lia. cbn [andb]. rewrite Hp.
  unfold init_generator, _node_prefix at 2. rewrite (compose_pack c Hc) by (apply Hc || lia). done.
Qed.

(** A call at a later reading starts the sequence again. *)
Lemma generate_next_millis c g o :
  config_ok c → generator_ok c g → _last_timestamp g < first_reading o →
  0 <= first_reading o - epoch_ms c <= max_timestamp c →
  _generate_locked g o =
    (mk_generator c (_node_prefix g) 0 (first_reading o),
     Ok (pack c (first_reading o - epoch_ms c) (datacenter_id c) (machine_id c) 0)).
Proof.
  intros Hc [Hcf Hp Hs] Ht Ho. pose proof (widths_pos c Hc) as (?&?&?&?).
  assert (0 < 2 ^ sequence_bits c) by (apply Z.pow_pos_nonneg; lia).
  unfold _generate_locked. rewrite Hcf, (proj2 (Z.ltb_ge _ _)) by lia.
  rewrite (proj2 (Z.eqb_neq _ _)) by lia. cbn [andb].
  rewrite !(proj2 (Z.leb_le _ _)) by lia. cbn [andb]. rewrite Hp.
  unfold init_generator, _node_prefix at 2. rewrite (compose_pack c Hc) by (apply Hc || lia). done.
Qed.

Lemma batch_same_millis c g os :
  config_ok c → generator_ok c g → Forall (λ o, first_reading o = _last_timestamp g) os →
  0 <= _last_timestamp g - epoch_ms c <= max_timestamp c →
  _sequence g + Z.of_nat (length os) < 2 ^ sequence_bits c →
  batch_loop g os =
    (mk_generator c (_node_prefix g) (_sequence g + Z.of_nat (length os)) (_last_timestamp g),
     Ok (pack c (_last_timestamp g - epoch_ms c) (datacenter_id c) (machine_id c) <$>
           seqZ (_sequence g + 1) (Z.of_nat (length os)))).
Proof.
  intros Hc Hg Hall Ho Hroom. revert g Hg Hall Ho Hroom. induction os as [|o os IH]; intros g Hg Hall Ho Hroom.
  - simpl. rewrite Z.add_0_r. destruct g, Hg as [Hcf _ _]. simpl in *. by subst.
  - apply Forall_cons in Hall as [Ht Hall]. cbn [length] in *. rewrite Nat2Z.inj_succ in *.
    pose proof (g_sequence c g Hg). cbn [batch_loop]. rewrite (generate_same_millis c) by (done || lia).
    rewrite IH; cbn [_sequence _last_timestamp _node_prefix _config] in *;
      [|split; [done|apply Hg|simpl; lia]|done|done|lia].
    rewrite (seqZ_cons _ (Z.succ _)), Z.pred_succ by lia.
    replace (Z.succ (_sequence g + 1)) with (_sequence g + 1 + 1) by lia.
    replace (_sequence g + 1 + Z.of_nat (length os))
      with (_sequence g + Z.succ (Z.of_nat (length os))) by lia. done.
Qed.

(** After any history, a batch of at most 2^sequence_bits identifiers in a
    later millisecond succeeds and is numbered 0, 1, 2, ...; once the
    millisecond is full the next call raises [SequenceOverflowError] and
    changes nothing if the clock does not move before the deadline, and
    returns number 0 of the next reading if it does. *)
Theorem snowflake_burst (c : SnowflakeConfig) (history os : list observation) (t : Z) :
  validate_config c = Ok c →
  let g := (run_generator (init_generator c) history).1 in
  _last_timestamp g < t → 0 <= t - epoch_ms c <= max_timestamp c →
  Forall (λ o, first_reading o = t) os → 0 < Z.of_nat (length os) <= max_sequence c + 1 →
  let count := Z.of_nat (length os) in
  let next n := pack c (n - epoch_ms c) (datacenter_id c) (machine_id c) in
  let g' := mk_generator c (_node_prefix g) (count - 1) t in
  generate_batch g count os = (g', Ok (next t <$> seqZ 0 count)) ∧
  (count = max_sequence c + 1 →
   ∀ stuck, Forall (λ p, p = (t, false)) stuck →
   (∀ rest, _generate_locked g' (mk_obs t (stuck ++ (t, true) :: rest)) =
              (g', Raise SequenceOverflowError)) ∧
   (∀ t' b rest, t < t' → t' - epoch_ms c <= max_timestamp c →
      _generate_locked g' (mk_obs t (stuck ++ (t', b) :: rest)) =
        (mk_generator c (_node_prefix g) 0 t', Ok (next t' 0)))).
Proof.
  intros Hc%validate_config_spec g Hlt Hoff Hall Hlen count next g'.
  assert (generator_ok c g) as Hg by (apply run_generator_ok, init_generator_ok; done).
  pose proof (widths_pos c Hc) as (?&?&?&?).
  unfold max_sequence in Hlen |- *. rewrite shiftl_one in Hlen |- * by lia. split.
  - unfold generate_batch, count. rewrite (proj2 (Z.leb_gt _ _)) by lia.
    rewrite Nat2Z.id, take_ge by lia. destruct os as [|o os]; [simpl in Hlen; lia|].
    apply Forall_cons in Hall as [Ho Hall]. cbn [batch_loop length] in *.
    rewrite (generate_next_millis c), Ho by (done || lia).
    rewrite (batch_same_millis c);
      cbn [_sequence _last_timestamp _node_prefix] in *; [|done| |done|done|lia].
    2: { split; [done|apply Hg|simpl; lia]. }
    unfold g', count. cbn [length]. rewrite Nat2Z.inj_succ, (seqZ_cons 0), Z.pred_succ by lia.
    replace (Z.succ (Z.of_nat (length os)) - 1) with (0 + Z.of_nat (length os)) by lia. done.
  - intros Hfull stuck Hstuck.
    assert (∀ o, first_reading o = t → _generate_locked g' o =
      match _wait_next_millis t (waiting o) with
      | Raise e => (g', Raise e)
      | Ok t' =>
          if (0 <=? t' - epoch_ms c) && (t' - epoch_ms c <=? max_timestamp c)
          then (mk_generator c (_node_prefix g) 0 t', Ok (next t' 0)) else (g', Raise ValueError)
      end) as Hcall.
    { intros o Ho. unfold _generate_locked, g', max_sequence. simpl.
      rewrite Ho, Z.ltb_irrefl, Z.eqb_refl, land_mask by lia.
      replace (count - 1 + 1) with (2 ^ sequence_bits c) by lia.
      rewrite Z.mod_same by lia. cbn [andb Z.eqb].
      destruct (_wait_next_millis t (waiting o)); [|done]. destruct (_ && _); [|done].
      do 2 f_equal. rewrite (g_prefix c g Hg). unfold init_generator, _node_prefix.
      apply (compose_pack c Hc); [apply Hc..|lia]. }
    assert (∀ rest, _wait_next_millis t (stuck ++ rest) = _wait_next_millis t rest) as Hskip.
    { intros rest. induction Hstuck as [|p stuck -> _ IH]; simpl; [done|].
      by rewrite Z.ltb_irrefl. }
    split.
    + intros rest. rewrite Hcall by done. simpl. rewrite Hskip. simpl. by rewrite Z.ltb_irrefl.
    + intros t' b rest Ht' Hmax. rewrite Hcall by done. simpl. rewrite Hskip. simpl.
      rewrite (proj2 (Z.ltb_ge _ _)), (proj2 (Z.ltb_lt _ _)) by lia.
      by rewrite !(proj2 (Z.leb_le _ _)) by lia.
Qed.

(** A configuration with four identifiers per millisecond. *)
Definition narrow_config : SnowflakeConfig := mk_config 51 5 5 2 1 2 DEFAULT_EPOCH_MS.

Lemma snowflake_burst_witness :
  let c := narrow_config in
  let g := (run_generator (init_generator c) [mk_obs 1704067200001 []]).1 in
  let next n := pack c (n - epoch_ms c) (datacenter_id c) (machine_id c) in
  let g' := mk_generator c (_node_prefix g) 3 1704067200005 in
  generate_batch g 4 (replicate 4 (mk_obs 1704067200005 [])) =
    (g', Ok (next 1704067200005 <$> seqZ 0 4)) ∧
  _generate_locked g' (mk_obs 1704067200005 [(1704067200005, true)]) =
    (g', Raise SequenceOverflowError).
Proof.
  destruct (snowflake_burst narrow_config [mk_obs 1704067200001 []]
    (replicate 4 (mk_obs 1704067200005 [])) 1704067200005 eq_refl ltac:(vm_compute; reflexivity)
    ltac:(vm_compute; split; congruence) ltac:(repeat constructor)
    ltac:(vm_compute; split; congruence)) as [H1 H2].
  split; [exact H1|]. destruct (H2 eq_refl [] ltac:(constructor)) as [H3 _]. exact (H3 []).
Defined.

(** ** The timestamp-random strategy *)

Lemma timestamp_random_spec epoch now random_bits i :
  0 <= random_bits < 2 ^ 22 →
  timestamp_random epoch now random_bits = Ok i ↔
    epoch <= now < epoch + 2 ^ 42 ∧ i = (now - epoch) * 2 ^ 22 + random_bits ∧ 0 <= i < 2 ^ 64.
Proof.
  intros Hr. unfold timestamp_random. rewrite lor_shift, shiftl_one by lia.
  destruct (Z.leb_spec 0 (now - epoch)), (Z.ltb_spec (now - epoch) (2 ^ 42)); simpl;
    (split; [first [done | intros [= <-]; split_and!; lia] | first [lia | intros (_ & -> & _); done]]).
Qed.
