(* ===== verification/Base62.v ===== *)
(** * Short codes of the URL shortener

    Models src/url-shortener/src/url_shortener/strategies.py: base-62 encoding
    and decoding, the CRC32 code of the hash strategy and the padding of the
    identifier strategy.  A string is its sequence of characters; CRC32 runs
    over the UTF-8 bytes. *)
From Stdlib Require Import Ascii.
From S2P Require Import Prelude PyList.
Local Open Scope Z_scope.

(** ** Base 62 *)

#[export] Instance ascii_inhabited : Inhabited Ascii.ascii := populate Ascii.zero.

Definition BASE62_CHARS : list Ascii.ascii :=
  String.list_ascii_of_string "0123456789abcdefghijklmnopqrstuvwxyzABCDEFGHIJKLMNOPQRSTUVWXYZ".
Definition SHORT_CODE_LENGTH : nat := 7.

(** [BASE62_CHARS.find(char)], [None] for -1. *)
Fixpoint find_char (char : Ascii.ascii) (chars : list Ascii.ascii) : option Z :=
  match chars with
  | [] => None
  | c :: chars' => if decide (c = char) then Some 0 else Z.succ <$> find_char char chars'
  end.

(** The loop of [encode_base62]: the digits, least significant first. *)
Fixpoint encode_loop (fuel : nat) (number : Z) (digits : list Ascii.ascii)
    : result (list Ascii.ascii) :=
  if 0 <? number then
    match fuel with
    | O => Raise OutOfFuel
    | S fuel' =>
        encode_loop fuel' (number / 62) (digits ++ [BASE62_CHARS !!! Z.to_nat (number mod 62)])
    end
  else Ok digits.

Definition encode_base62 (number : Z) : result string :=
  if number <? 0 then Raise ValueError
  else if number =? 0 then Ok (String.string_of_list_ascii [BASE62_CHARS !!! 0%nat])
  else let* digits := encode_loop (S (Z.to_nat (Z.log2 number))) number [] in
       Ok (String.string_of_list_ascii (reverse digits)).

Fixpoint decode_loop (total : Z) (encoded : list Ascii.ascii) : result Z :=
  match encoded with
  | [] => Ok total
  | char :: encoded' =>
      match find_char char BASE62_CHARS with
      | None => Raise ValueError
      | Some index => decode_loop (total * 62 + index) encoded'
      end
  end.

Definition decode_base62 (encoded : string) : result Z :=
  decode_loop 0 (String.list_ascii_of_string encoded).

(** [s.rjust(width, "0")] and [s.ljust(width, "0")] *)
Definition rjust (width : nat) (s : list Ascii.ascii) : list Ascii.ascii :=
  replicate (width - length s) "0"%char ++ s.
Definition ljust (width : nat) (s : list Ascii.ascii) : list Ascii.ascii :=
  s ++ replicate (width - length s) "0"%char.

(** ** CRC32 *)

Definition crc_bit (crc : Z) : Z :=
  if Z.testbit crc 0 then Z.lxor (Z.shiftr crc 1) 3988292384 else Z.shiftr crc 1.
Definition crc_byte (crc : Z) (b : Ascii.ascii) : Z :=
  Nat.iter 8 crc_bit (Z.lxor crc (Z.of_N (Ascii.N_of_ascii b))).
Definition hash_crc32 (text : string) : Z :=
  Z.lxor (foldl crc_byte 4294967295 (String.list_ascii_of_string text)) 4294967295.

Example crc32_check_value : hash_crc32 "123456789" = 3421780262.
Proof. reflexivity. Qed.

Definition _compute_code (text : string) : result string :=
  let crc_unsigned := Z.land (hash_crc32 text) 4294967295 in
  let* encoded := encode_base62 crc_unsigned in
  Ok (String.string_of_list_ascii
        (ljust SHORT_CODE_LENGTH (take SHORT_CODE_LENGTH (String.list_ascii_of_string encoded)))).

Definition pad_code (encoded : string) : string :=
  String.string_of_list_ascii (rjust SHORT_CODE_LENGTH (String.list_ascii_of_string encoded)).

(** ** Digits *)

Definition is_digit (c : Ascii.ascii) : Prop := c ∈ BASE62_CHARS.

#[export] Instance is_digit_dec c : Decision (is_digit c).
Proof. unfold is_digit. apply _. Defined.

Lemma chars_table :
  Forall (λ r, find_char (BASE62_CHARS !!! r) BASE62_CHARS = Some (Z.of_nat r)) (seq 0 62).
Proof. repeat (constructor; [reflexivity|]). constructor. Qed.

Lemma find_digit r :
  0 <= r < 62 → find_char (BASE62_CHARS !!! Z.to_nat r) BASE62_CHARS = Some r.
Proof.
  intros Hr. pose proof chars_table as Ht. rewrite Forall_forall in Ht.
  rewrite (Ht (Z.to_nat r)); [f_equal; lia|]. apply elem_of_seq. lia.
Qed.

Lemma find_char_Some c chars i :
  find_char c chars = Some i → 0 <= i < Z.of_nat (length chars) ∧ chars !! Z.to_nat i = Some c.
Proof.
  revert i. induction chars as [|c' chars IH]; intros i; simpl; [done|]. case_decide as Hc.
  - intros [= <-]. subst. simpl. split; [lia|done].
  - destruct (find_char c chars) as [j|]; simpl; [|done]. intros [= <-].
    destruct (IH j eq_refl) as [Hj Hl]. split; [lia|].
    replace (Z.to_nat (Z.succ j)) with (S (Z.to_nat j)) by lia. done.
Qed.

Lemma find_char_None c chars : find_char c chars = None ↔ c ∉ chars.
Proof.
  induction chars as [|c' chars IH]; simpl; [set_solver|]. case_decide as Hc.
  - subst. set_solver.
  - rewrite not_elem_of_cons, <- IH. destruct (find_char c chars); naive_solver.
Qed.

#[local] Arguments find_char : simpl never.

Lemma find_char_bounds c i : find_char c BASE62_CHARS = Some i → 0 <= i < 62.
Proof. intros H%find_char_Some. simpl in H. lia. Qed.

Lemma find_char_inj c1 c2 i :
  find_char c1 BASE62_CHARS = Some i → find_char c2 BASE62_CHARS = Some i → c1 = c2.
Proof. intros [_ H1]%find_char_Some [_ H2]%find_char_Some. congruence. Qed.

Lemma digit_lookup r : 0 <= r < 62 → is_digit (BASE62_CHARS !!! Z.to_nat r).
Proof.
  intros Hr. pose proof (find_digit r Hr) as H. unfold is_digit.
  destruct (decide (BASE62_CHARS !!! Z.to_nat r ∈ BASE62_CHARS)) as [|Hn]; [done|].
  apply find_char_None in Hn. congruence.
Qed.

Lemma decode_loop_app total l1 l2 :
  decode_loop total (l1 ++ l2) = let* t := decode_loop total l1 in decode_loop t l2.
Proof.
  revert total. induction l1 as [|c l1 IH]; intros total; simpl; [done|].
  destruct (find_char c BASE62_CHARS); simpl; [apply IH|done].
Qed.

Lemma decode_loop_zeros total k : decode_loop 0 (replicate k "0"%char ++ total) = decode_loop 0 total.
Proof.
  induction k as [|k IH]; simpl; [done|].
  replace (find_char "0" BASE62_CHARS) with (Some 0) by reflexivity. by rewrite <- IH.
Qed.

Lemma decode_loop_ge total l t : 0 <= total → decode_loop total l = Ok t → total <= t.
Proof.
  revert total. induction l as [|c l IH]; intros total Hp; simpl; [intros [= <-]; lia|].
  destruct (find_char c BASE62_CHARS) as [i|] eqn:Hi; [|done]. apply find_char_bounds in Hi.
  intros Ht%IH; lia.
Qed.

Lemma decode_loop_error total l :
  decode_loop total l = Raise ValueError ↔ ∃ c, c ∈ l ∧ c ∉ BASE62_CHARS.
Proof.
  revert total. induction l as [|c l IH]; intros total; simpl; [set_solver|].
  destruct (find_char c BASE62_CHARS) as [i|] eqn:Hi.
  - assert (c ∈ BASE62_CHARS) as Hc.
    { destruct (decide (c ∈ BASE62_CHARS)) as [|Hn]; [done|]. apply find_char_None in Hn. congruence. }
    rewrite IH. clear -Hc. set_solver.
  - apply find_char_None in Hi. split; [intros _; exists c; split; [by left|done]|done].
Qed.

Lemma decode_loop_total total l :
  (∃ t, decode_loop total l = Ok t) ∨ decode_loop total l = Raise ValueError.
Proof.
  revert total. induction l as [|c l IH]; intros total; simpl; [eauto|].
  destruct (find_char c BASE62_CHARS); eauto.
Qed.

(** A numeral with no leading zero. *)
Definition no_leading_zero (l : list Ascii.ascii) : Prop := head l ≠ Some "0"%char.

Lemma digit_zero c : find_char c BASE62_CHARS = Some 0 → c = "0"%char.
Proof. intros H. by apply (find_char_inj c "0" 0). Qed.

Lemma decode_pos l t :
  no_leading_zero l → l ≠ [] → decode_loop 0 l = Ok t → 0 < t.
Proof.
  destruct l as [|c l]; [done|]. unfold no_leading_zero. simpl. intros Hz _.
  destruct (find_char c BASE62_CHARS) as [i|] eqn:Hi; [|done].
  intros Ht. pose proof (find_char_bounds _ _ Hi). apply decode_loop_ge in Ht; [|lia].
  destruct (decide (i = 0)) as [->|]; [|lia]. apply digit_zero in Hi as ->. done.
Qed.

Lemma decode_snoc l c t :
  decode_loop 0 (l ++ [c]) = Ok t →
  ∃ u i, decode_loop 0 l = Ok u ∧ 0 <= u ∧ find_char c BASE62_CHARS = Some i ∧
         0 <= i < 62 ∧ t = u * 62 + i.
Proof.
  rewrite decode_loop_app. destruct (decode_loop 0 l) as [u|] eqn:Hu; simpl; [|done].
  destruct (find_char c BASE62_CHARS) as [i|] eqn:Hi; [|done]. intros [= <-].
  exists u, i. split_and!; try done; try (by apply (find_char_bounds c)).
  by apply (decode_loop_ge 0 l).
Qed.

(** Numerals without leading zeros are determined by their value. *)
Lemma decode_inj l1 l2 t :
  no_leading_zero l1 → no_leading_zero l2 →
  decode_loop 0 l1 = Ok t → decode_loop 0 l2 = Ok t → l1 = l2.
Proof.
  revert l2 t. induction l1 as [|c1 l1 IH] using rev_ind; intros l2 t Hz1 Hz2 H1 H2.
  - injection H1 as <-. destruct l2 as [|c2 l2]; [done|].
    by pose proof (decode_pos _ _ Hz2 ltac:(done) H2).
  - destruct l2 as [|c2 l2 _] using rev_ind.
    { injection H2 as <-. pose proof (decode_pos _ _ Hz1 ltac:(by destruct l1) H1). lia. }
    apply decode_snoc in H1 as (u1 & i1 & Hu1 & ? & Hi1 & ? & ->).
    apply decode_snoc in H2 as (u2 & i2 & Hu2 & ? & Hi2 & ? & Heq).
    assert (u1 = u2 ∧ i1 = i2) as [-> ->] by lia.
    assert (c1 = c2) as -> by (by eapply find_char_inj). f_equal.
    apply (IH l2 u2); try done.
    + destruct l1; [done|]. exact Hz1.
    + destruct l2; [done|]. exact Hz2.
Qed.

Lemma decode_length l t k :
  no_leading_zero l → decode_loop 0 l = Ok t → (length l <= k)%nat ↔ t < 62 ^ Z.of_nat k.
Proof.
  revert t k. induction l as [|c l IH] using rev_ind; intros t k Hz Ht.
  - injection Ht as <-. simpl. split; [|lia]. intros _. apply Z.pow_pos_nonneg; lia.
  - apply decode_snoc in Ht as (u & i & Hu & ? & Hi & ? & ->). rewrite length_app. simpl.
    assert (no_leading_zero l) as Hl by (destruct l; [done|exact Hz]).
    destruct k as [|k].
    + simpl. split; [lia|]. intros. exfalso. assert (u = 0) as -> by lia.
      assert (i = 0) as -> by lia. apply digit_zero in Hi as ->.
      destruct l as [|c' l]; [done|]. by pose proof (decode_pos _ _ Hl ltac:(done) Hu).
    + rewrite Nat2Z.inj_succ, Z.pow_succ_r by lia. rewrite <- (Nat.add_1_r k), <- Nat.add_le_mono_r.
      rewrite (IH u k Hl Hu). lia.
Qed.

Lemma encode_loop_spec fuel n acc :
  0 <= n < 2 ^ Z.of_nat fuel →
  ∃ ds, encode_loop fuel n acc = Ok (acc ++ reverse ds) ∧ decode_loop 0 ds = Ok n ∧
        no_leading_zero ds.
Proof.
  revert n acc. induction fuel as [|fuel IH]; intros n acc Hn.
  - assert (n = 0) as -> by (simpl in Hn; lia). exists []. by rewrite app_nil_r.
  - cbn [encode_loop]. destruct (Z.ltb_spec 0 n) as [Hp|]; cycle 1.
    { assert (n = 0) as -> by lia. exists []. by rewrite app_nil_r. }
    rewrite Nat2Z.inj_succ, Z.pow_succ_r in Hn by lia.
    pose proof (Z.div_mod n 62 ltac:(lia)) as Hdm. pose proof (Z.mod_pos_bound n 62 ltac:(lia)).
    destruct (IH (n / 62) (acc ++ [BASE62_CHARS !!! Z.to_nat (n mod 62)])) as (ds & He & Hd & Hz).
    { lia. }
    exists (ds ++ [BASE62_CHARS !!! Z.to_nat (n mod 62)]). split_and!.
    + rewrite He, reverse_app, <- app_assoc. done.
    + rewrite decode_loop_app, Hd. simpl. rewrite find_digit by lia. f_equal. lia.
    + destruct ds as [|d ds]; [|exact Hz]. unfold no_leading_zero. simpl. intros [= Heq].
      pose proof (find_digit (n mod 62) ltac:(lia)) as Hf. rewrite Heq in Hf.
      assert (n mod 62 = 0) by (assert (Some 0 = Some (n mod 62)) as [= <-] by (by rewrite <- Hf); done).
      injection Hd as Hd. lia.
Qed.

Lemma encode_spec n :
  0 <= n →
  ∃ ds, encode_base62 n = Ok (String.string_of_list_ascii ds) ∧ decode_loop 0 ds = Ok n ∧
        ds ≠ [] ∧ (no_leading_zero ds ∨ ds = ["0"%char]).
Proof.
  intros Hn. unfold encode_base62. rewrite (proj2 (Z.ltb_ge _ _)) by lia.
  destruct (Z.eqb_spec n 0) as [->|Hz].
  - exists ["0"%char]. split_and!; [reflexivity..|done|by right].
  - destruct (encode_loop_spec (S (Z.to_nat (Z.log2 n))) n []) as (ds & He & Hd & Hl).
    { rewrite Nat2Z.inj_succ, Z2Nat.id by apply Z.log2_nonneg. split; [lia|]. apply Z.log2_spec. lia. }
    exists ds. rewrite He. cbn [rbind app]. rewrite reverse_involutive.
    split_and!; [done|done| |by left]. intros ->. injection Hd as Hd. lia.
Qed.

Lemma list_string l : String.list_ascii_of_string (String.string_of_list_ascii l) = l.
Proof. apply String.list_ascii_of_string_of_list_ascii. Qed.

Lemma string_list s : String.string_of_list_ascii (String.list_ascii_of_string s) = s.
Proof. apply String.string_of_list_ascii_of_string. Qed.

Lemma string_length s : String.length s = length (String.list_ascii_of_string s).
Proof. induction s as [|c s IH]; simpl; [done|]. by rewrite IH. Qed.

(** Every natural number has an encoding, which decodes to it, also when
    padded to the code width, and has at most k digits exactly below 62^k;
    every string over the alphabet without a leading zero is the encoding of
    what it decodes to; a string with another character is refused, and so is
    encoding a negative number. *)
Theorem base62_bijection :
  (∀ n, 0 <= n → ∃ s, encode_base62 n = Ok s ∧ decode_base62 s = Ok n ∧
     decode_base62 (pad_code s) = Ok n ∧
     ∀ k, (0 < k)%nat → ((String.length s <= k)%nat ↔ n < 62 ^ Z.of_nat k)) ∧
  (∀ n, n < 0 → encode_base62 n = Raise ValueError) ∧
  (∀ s n, decode_base62 s = Ok n → s ≠ EmptyString →
     no_leading_zero (String.list_ascii_of_string s) → encode_base62 n = Ok s) ∧
  (∀ s, (∃ n, decode_base62 s = Ok n) ↔ Forall is_digit (String.list_ascii_of_string s)) ∧
  (∀ s, decode_base62 s = Raise ValueError ↔ ¬ Forall is_digit (String.list_ascii_of_string s)).
Proof.
  assert (∀ s, decode_base62 s = Raise ValueError ↔
    ¬ Forall is_digit (String.list_ascii_of_string s)) as Herr.
  { intros s. unfold decode_base62. rewrite decode_loop_error. split.
    - intros (c & Hc & Hn) Hf. rewrite Forall_forall in Hf. by apply Hn, Hf.
    - intros Hn. apply not_Forall_Exists in Hn; [|apply _]. by apply Exists_exists in Hn. }
  split_and!; [| | | |exact Herr].
  - intros n Hn. destruct (encode_spec n Hn) as (ds & He & Hd & Hne & Hz). eexists. split; [exact He|].
    unfold decode_base62, pad_code, rjust. rewrite !list_string, decode_loop_zeros. split_and!; try done.
    intros k Hk. rewrite string_length, list_string.
    destruct Hz as [Hz|Hz]; [by apply decode_length|]. subst ds.
    injection Hd as <-. split; [intros _; apply Z.pow_pos_nonneg; lia|simpl; lia].
  - intros n Hn. unfold encode_base62. by rewrite (proj2 (Z.ltb_lt _ _)).
  - unfold decode_base62. intros s n Hd Hne Hz.
    assert (String.list_ascii_of_string s ≠ []) as Hnil by (by destruct s).
    pose proof (decode_pos _ _ Hz Hnil Hd).
    destruct (encode_spec n ltac:(lia)) as (ds & He & Hd' & _ & [Hz'|Hz']).
    + by rewrite He, (decode_inj _ _ n Hz' Hz Hd' Hd), string_list.
    + subst ds. injection Hd' as <-. lia.
  - intros s. unfold decode_base62 in *.
    destruct (decode_loop_total 0 (String.list_ascii_of_string s)) as [[t Ht]|Ht].
    + split; [|eauto]. intros _. destruct (decide (Forall is_digit (String.list_ascii_of_string s)))
        as [|Hn]; [done|]. apply Herr in Hn. congruence.
    + split; [intros [? ?]; congruence|]. intros Hf. by apply Herr in Ht.
Qed.

Lemma padded_inj n1 n2 s1 s2 :
  encode_base62 n1 = Ok s1 → encode_base62 n2 = Ok s2 → pad_code s1 = pad_code s2 → n1 = n2.
Proof.
  intros H1 H2 Heq.
  assert (∀ n s, encode_base62 n = Ok s → decode_base62 (pad_code s) = Ok n) as Hdec.
  { intros n s Hs. destruct (decide (0 <= n)) as [Hn|Hn]; cycle 1.
    { unfold encode_base62 in Hs. by rewrite (proj2 (Z.ltb_lt _ _)) in Hs by lia. }
    destruct (encode_spec n Hn) as (ds & He & Hd & _). rewrite Hs in He. injection He as ->.
    unfold decode_base62, pad_code, rjust. by rewrite !list_string, decode_loop_zeros. }
  apply Hdec in H1, H2. rewrite Heq in H1. congruence.
Qed.
