(* ===== verification/Shortener.v ===== *)
(** * The URL shortener

    Models src/url-shortener/src/url_shortener: the in-memory storage
    (storage.py), the two strategies of strategies.py behind the interface
    [HashStrategy], and the orchestrator (shortener.py) with its cache and
    click log.  The lock regions of the code are the atomic steps of the model,
    and concurrent requests are interleaved by a schedule.  The validation of a
    URL (urls.py) is a parameter. *)
From S2P Require Import Prelude PyList PyDict Base62.

(** ** Mappings and their storage *)

Inductive RedirectType := PERMANENT | TEMPORARY.

Record URLMapping := mk_mapping {
  short_code : string;
  long_url : string;
  redirect_type : RedirectType;
  created_at : Z;
}.

Record ClickRecord := mk_click {
  click_code : string;
  click_timestamp : Z;
  click_client : option string;
}.

#[export] Instance redirect_eq_dec : EqDecision RedirectType.
Proof. solve_decision. Defined.
#[export] Instance mapping_eq_dec : EqDecision URLMapping.
Proof. solve_decision. Defined.

Record InMemoryStorage := mk_storage {
  _by_short_code : dict string URLMapping;
  _by_long_url : dict string URLMapping;
}.

Definition empty_storage : InMemoryStorage := mk_storage [] [].

Definition get_by_short_code (st : InMemoryStorage) (code : string) : option URLMapping :=
  dget code (_by_short_code st).
Definition get_by_long_url (st : InMemoryStorage) (url : string) : option URLMapping :=
  dget url (_by_long_url st).
Definition exists_code (st : InMemoryStorage) (code : string) : bool := dmem code (_by_short_code st).

(** [existing not in (None, mapping)] *)
Definition conflicts (existing : option URLMapping) (mapping : URLMapping) : bool :=
  match existing with None => false | Some m => bool_decide (m ≠ mapping) end.

Definition save (st : InMemoryStorage) (mapping : URLMapping) : result InMemoryStorage :=
  if conflicts (get_by_short_code st (short_code mapping)) mapping
     || conflicts (get_by_long_url st (long_url mapping)) mapping
  then Raise ValueError
  else Ok (mk_storage (dset (short_code mapping) mapping (_by_short_code st))
                      (dset (long_url mapping) mapping (_by_long_url st))).

(** ** Strategies *)

(** [generate long_url storage self]: the state a call leaves and its result. *)
Class HashStrategy (S : Type) : Type :=
  generate : string → InMemoryStorage → S → S * result string.

(** The transaction of the storage around a factory with state. *)
Definition get_or_create {S} (url : string) (factory : InMemoryStorage → S → S * result URLMapping)
    (st : InMemoryStorage) (s : S) : InMemoryStorage * S * result URLMapping :=
  match get_by_long_url st url with
  | Some existing => (st, s, Ok existing)
  | None =>
      match factory st s with
      | (s', Raise e) => (st, s', Raise e)
      | (s', Ok mapping) =>
          match save st mapping with
          | Ok st' => (st', s', Ok mapping)
          | Raise e => (st, s', Raise e)
          end
      end
  end.

Record HashCollisionStrategy := mk_hash_strategy { _max_retries : Z }.
Definition DEFAULT_MAX_RETRIES : Z := 10.
Definition COLLISION_SUFFIX : string := "~rehash".

(** The probing loop of [HashCollisionStrategy.generate]. *)
Fixpoint probe (attempts : nat) (url_to_hash url : string) (st : InMemoryStorage) : result string :=
  match attempts with
  | O => Raise CollisionLimitExceededError
  | S attempts' =>
      let* candidate := _compute_code url_to_hash in
      match get_by_short_code st candidate with
      | None => Ok candidate
      | Some existing =>
          if decide (long_url existing = url) then Ok candidate
          else probe attempts' (url_to_hash +:+ COLLISION_SUFFIX) url st
      end
  end.

#[export] Instance hash_collision_generate : HashStrategy HashCollisionStrategy :=
  λ url st s, (s, probe (Z.to_nat (_max_retries s + 1)) url url st).

Record Base62Strategy := mk_base62_strategy { _counter : Z }.

Definition next_id (s : Base62Strategy) : Base62Strategy * Z :=
  (mk_base62_strategy (_counter s + 1), _counter s).

#[export] Instance base62_generate : HashStrategy Base62Strategy :=
  λ _ _ s, let '(s', unique_id) := next_id s in
           (s', let* encoded := encode_base62 unique_id in Ok (pad_code encoded)).

(** ** The orchestrator *)

Section shortener.
Context {S : Type} `{HashStrategy S} (redirect_uri : string → result string).

Record URLShortener := mk_shortener {
  _cache_capacity : nat;
  _cache : dict string URLMapping;
  _strategy : S;
  _storage : InMemoryStorage;
  _default_redirect_type : RedirectType;
  _domain : string;
  _clicks : dict string (list ClickRecord);
}.

Definition _validate_redirect_type (value : Z) : result RedirectType :=
  if (value =? 301)%Z then Ok PERMANENT
  else if (value =? 302)%Z then Ok TEMPORARY else Raise ValueError.

(** [s.rstrip("/")] *)
Fixpoint rstrip_slash (s : string) : string :=
  match s with
  | EmptyString => EmptyString
  | String c s' =>
      match rstrip_slash s' with
      | EmptyString => if decide (c = Ascii.ascii_of_nat 47) then EmptyString else String c EmptyString
      | t => String c t
      end
  end.

Definition init_shortener (strategy : S) (storage : InMemoryStorage) (default_redirect : Z)
    (domain : string) (cache_capacity : Z) : result URLShortener :=
  if (cache_capacity <? 0)%Z then Raise ValueError
  else let* redirect := _validate_redirect_type default_redirect in
       Ok (mk_shortener (Z.to_nat cache_capacity) [] strategy storage redirect
             (rstrip_slash domain) []).

Definition set_cache (s : URLShortener) c : URLShortener :=
  mk_shortener (_cache_capacity s) c (_strategy s) (_storage s) (_default_redirect_type s)
    (_domain s) (_clicks s).
Definition set_clicks (s : URLShortener) c : URLShortener :=
  mk_shortener (_cache_capacity s) (_cache s) (_strategy s) (_storage s) (_default_redirect_type s)
    (_domain s) c.
Definition set_created (s : URLShortener) g st : URLShortener :=
  mk_shortener (_cache_capacity s) (_cache s) g st (_default_redirect_type s) (_domain s) (_clicks s).

(** [create_mapping], called at the time [now]. *)
Definition create_mapping (url : string) (chosen : RedirectType) (now : Z)
    (st : InMemoryStorage) (g : S) : S * result URLMapping :=
  let '(g', r) := generate url st g in
  (g', let* code := r in Ok (mk_mapping code url chosen now)).

Definition short_url (domain code : string) : string := domain +:+ "/" +:+ code.

Definition shorten (s : URLShortener) (url : string) (redirect : option Z) (now : Z)
    : URLShortener * result string :=
  match redirect_uri url with
  | Raise e => (s, Raise e)
  | Ok _ =>
      match (match redirect with
             | None => Ok (_default_redirect_type s)
             | Some value => _validate_redirect_type value
             end) with
      | Raise e => (s, Raise e)
      | Ok chosen =>
          let '(st', g', r) := get_or_create url (create_mapping url chosen now) (_storage s) (_strategy s) in
          (set_created s g' st', let* mapping := r in Ok (short_url (_domain s) (short_code mapping)))
      end
  end.

(** [OrderedDict.move_to_end(k)] of a present key. *)
Definition move_to_end {V} (k : string) (d : dict string V) : dict string V :=
  match dget k d with Some v => ddel k d ++ [(k, v)] | None => d end.

(** The eviction loop. *)
Fixpoint evict (capacity : nat) (cache : dict string URLMapping) : dict string URLMapping :=
  if (capacity <? length cache)%nat then
    match cache with [] => [] | _ :: cache' => evict capacity cache' end
  else cache.

(** The four lock regions of [resolve]. *)
Definition resolve_cached (s : URLShortener) (code : string) : URLShortener * option URLMapping :=
  match dget code (_cache s) with
  | Some mapping => (set_cache s (move_to_end code (_cache s)), Some mapping)
  | None => (s, None)
  end.

Definition resolve_stored (s : URLShortener) (code : string) : option URLMapping :=
  get_by_short_code (_storage s) code.

Definition resolve_fill (s : URLShortener) (code : string) (mapping : URLMapping) : URLShortener :=
  if (_cache_capacity s =? 0)%nat then s
  else set_cache s (evict (_cache_capacity s) (move_to_end code (dset code mapping (_cache s)))).

Definition resolve_click (s : URLShortener) (code : string) (client : option string) (now : Z)
    : URLShortener :=
  let clicks := dget_or [] code (_clicks s) in
  set_clicks s (dset code (clicks ++ [mk_click code now client]) (_clicks s)).

Definition get_click_records (s : URLShortener) (code : string) : list ClickRecord :=
  dget_or [] code (_clicks s).
Definition get_click_count (s : URLShortener) (code : string) : nat :=
  length (get_click_records s code).

(** ** Requests in flight *)

Inductive request :=
| ShortenReq (url : string) (redirect : option Z) (now : Z)
| ResolveReq (code : string) (client : option string) (now : Z)
| Missed (code : string) (client : option string) (now : Z)
| Loaded (code : string) (client : option string) (now : Z) (mapping : URLMapping)
| Found (code : string) (client : option string) (now : Z) (mapping : URLMapping)
| Shortened (url : string) (r : result string)
| Resolved (code : string) (r : result (string * RedirectType)).

(** One lock region of one request. *)
Definition step_request (s : URLShortener) (q : request) : URLShortener * request :=
  match q with
  | ShortenReq url redirect now =>
      let '(s', r) := shorten s url redirect now in (s', Shortened url r)
  | ResolveReq code client now =>
      match resolve_cached s code with
      | (s', Some m) => (s', Found code client now m)
      | (s', None) => (s', Missed code client now)
      end
  | Missed code client now =>
      match resolve_stored s code with
      | Some m => (s, Loaded code client now m)
      | None => (s, Resolved code (Raise ShortCodeNotFoundError))
      end
  | Loaded code client now m => (resolve_fill s code m, Found code client now m)
  | Found code client now m =>
      (resolve_click s code client now, Resolved code (Ok (long_url m, redirect_type m)))
  | Shortened _ _ | Resolved _ _ => (s, q)
  end.

(** A call of [resolve] that nothing interrupts. *)
Definition resolve (s : URLShortener) (code : string) (client : option string) (now : Z)
    : URLShortener * result (string * RedirectType) :=
  match resolve_cached s code with
  | (s1, Some m) => (resolve_click s1 code client now, Ok (long_url m, redirect_type m))
  | (s1, None) =>
      match resolve_stored s1 code with
      | None => (s1, Raise ShortCodeNotFoundError)
      | Some m => (resolve_click (resolve_fill s1 code m) code client now,
                   Ok (long_url m, redirect_type m))
      end
  end.

(** A schedule names the request that takes the next step. *)
Fixpoint run_schedule (schedule : list nat) (s : URLShortener) (qs : list request)
    : URLShortener * list request :=
  match schedule with
  | [] => (s, qs)
  | i :: schedule' =>
      match qs !! i with
      | None => run_schedule schedule' s qs
      | Some q => let '(s', q') := step_request s q in run_schedule schedule' s' (<[i := q']> qs)
      end
  end.
End shortener.
Arguments URLShortener S : clear implicits.

(** ** The storage invariant and the laws of a strategy *)

Record storage_ok (st : InMemoryStorage) : Prop := {
  so_short : ∀ code m, get_by_short_code st code = Some m →
    short_code m = code ∧ get_by_long_url st (long_url m) = Some m;
  so_long : ∀ url m, get_by_long_url st url = Some m →
    long_url m = url ∧ get_by_short_code st (short_code m) = Some m;
}.

(** Mappings are immutable: storage only grows. *)
Definition storage_extends (st st' : InMemoryStorage) : Prop :=
  (∀ code m, get_by_short_code st code = Some m → get_by_short_code st' code = Some m) ∧
  (∀ url m, get_by_long_url st url = Some m → get_by_long_url st' url = Some m).

#[export] Instance storage_extends_po : PreOrder storage_extends.
Proof. split; [by split|]. intros ??? [H1 H2] [H3 H4]. split; eauto. Qed.

Lemma empty_storage_ok : storage_ok empty_storage.
Proof. by split. Qed.

(** What a strategy promises the orchestrator: for a URL not stored yet, a
    code that is free, and its own invariant kept whether it succeeds or not. *)
Class HashStrategyLaws (S : Type) `{HashStrategy S} : Type := {
  strategy_inv : S → InMemoryStorage → Prop;
  generate_sound : ∀ g st url,
    storage_ok st → strategy_inv g st → get_by_long_url st url = None →
    match generate url st g with
    | (g', Ok code) =>
        get_by_short_code st code = None ∧
        ∀ m st', short_code m = code → save st m = Ok st' → strategy_inv g' st'
    | (g', Raise e) => strategy_inv g' st
    end;
}.

Lemma save_fresh st m :
  get_by_short_code st (short_code m) = None → get_by_long_url st (long_url m) = None →
  ∃ st', save st m = Ok st' ∧
    (∀ c, get_by_short_code st' c = if decide (short_code m = c) then Some m else get_by_short_code st c) ∧
    (∀ u, get_by_long_url st' u = if decide (long_url m = u) then Some m else get_by_long_url st u).
Proof.
  intros H1 H2. unfold save. rewrite H1, H2. simpl. eexists. split; [done|].
  unfold get_by_short_code, get_by_long_url. simpl. split; intros; apply dget_dset.
Qed.

Lemma save_fresh_ok st m st' :
  storage_ok st → get_by_short_code st (short_code m) = None → get_by_long_url st (long_url m) = None →
  save st m = Ok st' → storage_ok st' ∧ storage_extends st st'.
Proof.
  intros [Hs Hl] H1 H2 Hsave. destruct (save_fresh st m H1 H2) as (st2 & Hsave2 & Hc & Hu).
  rewrite Hsave in Hsave2. injection Hsave2 as <-. split; [split|split].
  - intros c x. rewrite Hc. case_decide as Hd.
    + intros [= <-]. split; [done|]. rewrite Hu. by rewrite decide_True.
    + intros Hx. destruct (Hs c x Hx) as [Hcode Hurl]. split; [done|]. rewrite Hu.
      rewrite decide_False; [done|]. intros He. congruence.
  - intros u x. rewrite Hu. case_decide as Hd.
    + intros [= <-]. split; [done|]. rewrite Hc. by rewrite decide_True.
    + intros Hx. destruct (Hl u x Hx) as [Hurl Hcode]. split; [done|]. rewrite Hc.
      rewrite decide_False; [done|]. intros He. congruence.
  - intros c x Hx. rewrite Hc. case_decide; [congruence|done].
  - intros u x Hx. rewrite Hu. case_decide; [congruence|done].
Qed.

(** Saving what is stored already changes nothing: [save] is idempotent. *)
Lemma save_stored st m :
  get_by_short_code st (short_code m) = Some m → get_by_long_url st (long_url m) = Some m →
  save st m = Ok st.
Proof.
  intros H1 H2. unfold save. rewrite H1, H2. simpl. rewrite bool_decide_false by naive_solver. simpl.
  unfold get_by_short_code, get_by_long_url in *. rewrite !dset_same by done. by destruct st.
Qed.

(** *** The probing strategy *)

(** The texts the strategy hashes, in order. *)
Fixpoint probe_texts (attempts : nat) (text : string) : list string :=
  match attempts with
  | O => []
  | S attempts' => text :: probe_texts attempts' (text +:+ COLLISION_SUFFIX)
  end.

Definition taken_by_other (st : InMemoryStorage) (url code : string) : Prop :=
  ∃ m, get_by_short_code st code = Some m ∧ long_url m ≠ url.

Definition crc_code (text : string) : string :=
  match _compute_code text with Ok code => code | Raise _ => EmptyString end.

Lemma land32_bounds v : (0 <= Z.land v 4294967295 < 2 ^ 32)%Z.
Proof. change 4294967295%Z with (Z.ones 32). rewrite Z.land_ones by lia. by apply Z.mod_pos_bound. Qed.

Lemma compute_code_spec text :
  _compute_code text = Ok (crc_code text) ∧ String.length (crc_code text) = 7 ∧
  Forall is_digit (String.list_ascii_of_string (crc_code text)).
Proof.
  unfold crc_code, _compute_code.
  destruct (encode_spec _ (proj1 (land32_bounds (hash_crc32 text)))) as (ds & He & Hd & _).
  rewrite He. cbn [rbind]. rewrite string_length, !list_string. unfold ljust, SHORT_CODE_LENGTH.
  split; [done|]. rewrite length_app, length_replicate, length_take. split; [lia|].
  apply Forall_app. split.
  - apply Forall_take, Forall_forall. intros c Hc.
    destruct (decide (is_digit c)) as [|Hn]; [done|].
    assert (decode_loop 0 ds = Raise ValueError) by (apply decode_loop_error; eauto). congruence.
  - apply Forall_replicate. unfold is_digit. vm_compute. left.
Qed.

Lemma taken_by_other_dec st url code :
  taken_by_other st url code ∨
  ¬ taken_by_other st url code ∧
  ∀ k, (match get_by_short_code st code with
        | None => Ok code
        | Some existing => if decide (long_url existing = url) then Ok code else k
        end) = Ok code.
Proof.
  unfold taken_by_other. destruct (get_by_short_code st code) as [m|]; [|naive_solver].
  destruct (decide (long_url m = url)); naive_solver.
Qed.

Lemma probe_spec n text url st :
  let codes := crc_code <$> probe_texts n text in
  let r := probe n text url st in
  (∀ code, r = Ok code ↔ ∃ before after, codes = before ++ code :: after ∧
     Forall (taken_by_other st url) before ∧ ¬ taken_by_other st url code) ∧
  (r = Raise CollisionLimitExceededError ↔ Forall (taken_by_other st url) codes) ∧
  (∀ e, r = Raise e → e = CollisionLimitExceededError).
Proof.
  revert text. induction n as [|n IH]; intros text; simpl.
  { split_and!; [|done|by intros e [= <-]]. intros code. split; [done|]. by intros ([|] & ? & ? & _). }
  rewrite (proj1 (compute_code_spec text)). cbn [rbind].
  destruct (taken_by_other_dec st url (crc_code text)) as [Ht|[Hn Hfree]].
  - destruct Ht as (m & Hm & Hne). rewrite Hm, decide_False by done.
    assert (taken_by_other st url (crc_code text)) as Ht by (by exists m).
    destruct (IH (text +:+ COLLISION_SUFFIX)) as (IH1 & IH2 & IH3). split_and!; [| |exact IH3].
    + intros code. rewrite IH1. split.
      * intros (b & a & Heq & Hb & Hc). exists (crc_code text :: b), a.
        split_and!; [exact (f_equal (cons (crc_code text)) Heq)|by constructor|done].
      * intros ([|c b] & a & [= He1 He2] & Hb & Hc); [by subst|]. exists b, a.
        split_and!; [done| |done]. by apply Forall_cons in Hb as [_ Hb].
    + rewrite IH2, Forall_cons. tauto.
  - rewrite Hfree. split_and!; [| |done].
    + intros code. split.
      * intros [= <-]. by exists [], (crc_code <$> probe_texts n (text +:+ COLLISION_SUFFIX)).
      * intros ([|c b] & a & [= He1 He2] & Hb & Hc); [by subst|]. apply Forall_cons in Hb as [Hb _].
        by subst.
    + split; [done|]. intros Hall. by apply Forall_cons in Hall as [? _].
Qed.

(** The hash strategy hashes the URL, then the URL with one more suffix
    each time, and returns the first code that no other URL has taken, seven
    characters of the alphabet; it gives up exactly when all of its
    [max_retries + 1] codes belong to other URLs. *)
Theorem hash_collision_probing (st : InMemoryStorage) (url : string) (s : HashCollisionStrategy) :
  let codes := crc_code <$> probe_texts (Z.to_nat (_max_retries s + 1)) url in
  let '(s', r) := generate url st s in
  s' = s ∧
  Forall (λ c, String.length c = 7 ∧ Forall is_digit (String.list_ascii_of_string c)) codes ∧
  (∀ code, r = Ok code ↔ ∃ before after, codes = before ++ code :: after ∧
     Forall (taken_by_other st url) before ∧ ¬ taken_by_other st url code) ∧
  (r = Raise CollisionLimitExceededError ↔ Forall (taken_by_other st url) codes) ∧
  (∀ e, r = Raise e → e = CollisionLimitExceededError).
Proof.
  intros codes. simpl. split; [done|]. split; [|apply probe_spec].
  apply Forall_fmap, Forall_forall. intros t _. apply compute_code_spec.
Qed.

Lemma probe_sound n text url st code :
  storage_ok st → get_by_long_url st url = None →
  probe n text url st = Ok code → get_by_short_code st code = None.
Proof.
  intros Hok Hurl. revert text. induction n as [|n IH]; intros text; simpl; [done|].
  rewrite (proj1 (compute_code_spec text)). cbn [rbind].
  destruct (get_by_short_code st (crc_code text)) as [m|] eqn:Hm; [|by intros [= <-]].
  case_decide as Hd; [|apply IH]. destruct (so_short st Hok _ m Hm) as [_ Hl]. congruence.
Qed.

#[export] Program Instance hash_collision_laws : HashStrategyLaws HashCollisionStrategy :=
  {| strategy_inv := λ _ _, True |}.
Next Obligation.
  intros g st url Hok _ Hurl. simpl.
  destruct (probe _ url url st) as [code|e] eqn:Hp; [|done]. split; [by eapply probe_sound|done].
Qed.

(** *** The identifier strategy *)

Definition id_codes (g : Base62Strategy) (st : InMemoryStorage) : Prop :=
  ∀ code m, get_by_short_code st code = Some m →
    ∃ n s, (n < _counter g)%Z ∧ encode_base62 n = Ok s ∧ code = pad_code s.

#[export] Program Instance base62_laws : HashStrategyLaws Base62Strategy :=
  {| strategy_inv := id_codes |}.
Next Obligation.
  intros g st url Hok Hinv Hurl. simpl.
  assert (id_codes (mk_base62_strategy (_counter g + 1)) st) as Hstep.
  { intros code m Hm. destruct (Hinv code m Hm) as (n & s & Hn & Hs & Hc). exists n, s.
    split_and!; [simpl; lia|done..]. }
  destruct (encode_base62 (_counter g)) as [s|e] eqn:He; simpl; [|done].
  assert (get_by_short_code st (pad_code s) = None) as Hfree.
  { destruct (get_by_short_code st (pad_code s)) as [m|] eqn:Hm; [|done].
    destruct (Hinv _ m Hm) as (n & s' & Hn & Hs & Hc).
    pose proof (padded_inj _ _ _ _ He Hs Hc). lia. }
  split; [done|]. intros m st' Hcode Hsave code x. unfold save in Hsave.
  destruct (_ || _); [done|]. injection Hsave as <-. unfold get_by_short_code. simpl.
  rewrite dget_dset, Hcode. case_decide as Hd; [|apply Hstep].
  intros [= <-]. exists (_counter g), s. simpl. split_and!; [lia|done..].
Qed.

(** ** The orchestrator under interleaving *)

Section interleaving.
Context {S : Type} `{HashStrategyLaws S} (redirect_uri : string → result string).
Notation shorten := (shorten redirect_uri).
Notation step_request := (step_request redirect_uri).
Notation run_schedule := (run_schedule redirect_uri).

Definition cache_ok (s : URLShortener S) : Prop :=
  dict_ok (_cache s) ∧ length (_cache s) ≤ _cache_capacity s ∧
  ∀ code m, dget code (_cache s) = Some m → get_by_short_code (_storage s) code = Some m.

Definition state_ok (s : URLShortener S) : Prop :=
  storage_ok (_storage s) ∧ strategy_inv (_strategy s) (_storage s) ∧ cache_ok s.

(** What is known of a request, from the storage. *)
Definition request_ok (s : URLShortener S) (q : request) : Prop :=
  match q with
  | ShortenReq _ _ _ | ResolveReq _ _ _ | Missed _ _ _ | Shortened _ (Raise _) => True
  | Loaded code _ _ m | Found code _ _ m => get_by_short_code (_storage s) code = Some m
  | Shortened url (Ok u) =>
      ∃ m, get_by_long_url (_storage s) url = Some m ∧ u = short_url (_domain s) (short_code m)
  | Resolved code r =>
      r = Raise ShortCodeNotFoundError ∨
      ∃ m, get_by_short_code (_storage s) code = Some m ∧ r = Ok (long_url m, redirect_type m)
  end.

(** How a step relates the states around it. *)
Definition state_extends (s s' : URLShortener S) : Prop :=
  _domain s' = _domain s ∧ storage_extends (_storage s) (_storage s').

#[local] Instance state_extends_po : PreOrder state_extends.
Proof.
  split; [by split|]. intros ??? [D1 E1] [D2 E2]. split; [congruence|by etrans].
Qed.

Lemma request_ok_extends s s' q : state_extends s s' → request_ok s q → request_ok s' q.
Proof.
  intros [Hd [H1 H2]]. destruct q as [| | | | |url [u|e]|code r]; simpl; eauto; rewrite ?Hd; naive_solver.
Qed.

Lemma get_or_create_spec url chosen now st g :
  storage_ok st → strategy_inv g st →
  let '(st', g', r) := get_or_create url (create_mapping url chosen now) st g in
  storage_ok st' ∧ strategy_inv g' st' ∧ storage_extends st st' ∧
  match r with
  | Ok m => get_by_long_url st' url = Some m
  | Raise e => st' = st ∧ (generate url st g).2 = Raise e
  end.
Proof.
  intros Hok Hinv. unfold get_or_create.
  destruct (get_by_long_url st url) as [m|] eqn:Hurl; [done|].
  pose proof (generate_sound g st url Hok Hinv Hurl) as Hg. unfold create_mapping.
  destruct (generate url st g) as [g' [code|e]]; simpl; [|done].
  destruct Hg as [Hfree Hg].
  destruct (save_fresh st (mk_mapping code url chosen now)) as (st' & Hsave & Hc & Hu); [done..|].
  rewrite Hsave. destruct (save_fresh_ok st (mk_mapping code url chosen now) st') as [Hok' Hext]; [done..|].
  split; [done|]. split; [exact (Hg (mk_mapping code url chosen now) st' eq_refl Hsave)|]. split; [done|]. rewrite Hu. by rewrite decide_True.
Qed.

Lemma shorten_spec s url redirect now :
  state_ok s →
  let '(s', r) := shorten s url redirect now in
  state_ok s' ∧ state_extends s s' ∧ _clicks s' = _clicks s ∧ request_ok s' (Shortened url r).
Proof.
  intros Hs. pose proof Hs as (Hst & Hinv & Hcache). unfold Shortener.shorten.
  destruct (redirect_uri url) as [_|e]; [|split_and!; done].
  destruct (match redirect with Some _ => _ | None => _ end) as [chosen|e]; [|split_and!; done].
  pose proof (get_or_create_spec url chosen now _ _ Hst Hinv) as Hspec.
  destruct (get_or_create url _ _ _) as [[st' g'] r]. destruct Hspec as (Hst' & Hinv' & Hext & Hr).
  split_and!; [|done|done|].
  - split_and!; [done..|]. destruct Hcache as (Hd & Hl & Hc). split_and!; [done..|].
    intros code m Hm. by apply Hext, Hc.
  - destruct r as [m|e]; simpl; [eauto|done].
Qed.

Lemma evict_spec cap (c : dict string URLMapping) : evict cap c = drop (length c - cap) c.
Proof.
  induction c as [|x c IH]; simpl.
  - by destruct (cap <? 0)%nat.
  - destruct (Nat.ltb_spec cap (Datatypes.S (length c))).
    + rewrite IH. by replace (Datatypes.S (length c) - cap) with (Datatypes.S (length c - cap)) by lia.
    + by replace (Datatypes.S (length c) - cap) with 0 by lia.
Qed.

Lemma move_to_end_spec code (d : dict string URLMapping) :
  dict_ok d → is_Some (dget code d) →
  dict_ok (move_to_end code d) ∧ length (move_to_end code d) = length d ∧
  ∀ k, dget k (move_to_end code d) = dget k d.
Proof.
  intros Hok [m Hm]. unfold move_to_end. rewrite Hm.
  assert (code ∉ dkeys (ddel code d)) as Hn by (apply dget_None; by apply dget_ddel_eq).
  rewrite <- (dset_new code m) by done. split_and!.
  - by apply dset_ok, ddel_ok.
  - rewrite dset_length, ddel_length. unfold dmem. rewrite dget_ddel_eq, Hm by done.
    destruct d; [done|]. simpl. lia.
  - intros k. rewrite dget_dset. case_decide; [by subst|]. by apply dget_ddel_ne.
Qed.

Lemma dget_drop n code (d : dict string URLMapping) m :
  dict_ok d → dget code (drop n d) = Some m → dget code d = Some m.
Proof.
  intros Hok Hm. apply dget_Some_elem in Hm. apply dget_Some; [done|].
  rewrite <- (take_drop n d). apply elem_of_app. by right.
Qed.

Lemma drop_dict_ok n (d : dict string URLMapping) : dict_ok d → dict_ok (drop n d).
Proof.
  unfold dict_ok, dkeys. rewrite fmap_drop. intros Hd.
  exact (sublist_NoDup _ _ Hd (sublist_drop _ _)).
Qed.

(** One for a request that has been resolved to a mapping of the code. *)
Definition hits (code : string) (q : request) : nat :=
  match q with
  | Resolved c (Ok _) => if decide (c = code) then 1 else 0
  | _ => 0
  end.
Definition total_hits (code : string) (qs : list request) : nat := sum_list (hits code <$> qs).

Lemma total_hits_insert code qs i q q' :
  qs !! i = Some q → total_hits code (<[i := q']> qs) + hits code q = total_hits code qs + hits code q'.
Proof.
  revert i. induction qs as [|x qs IH]; intros [|i] Hi; try done.
  - injection Hi as <-. change (hits code q' + total_hits code qs + hits code x =
      hits code x + total_hits code qs + hits code q'). lia.
  - specialize (IH i Hi). change (hits code x + total_hits code (<[i:=q']> qs) + hits code q =
      hits code x + total_hits code qs + hits code q'). lia.
Qed.

Lemma resolve_cached_spec s code :
  state_ok s →
  let '(s', r) := resolve_cached s code in
  state_ok s' ∧ state_extends s s' ∧ _clicks s' = _clicks s ∧
  match r with Some m => get_by_short_code (_storage s') code = Some m | None => s' = s end.
Proof.
  intros Hs. pose proof Hs as (Hst & Hinv & Hd & Hl & Hc). unfold resolve_cached.
  destruct (dget code (_cache s)) as [m|] eqn:Hm; [|split_and!; done].
  destruct (move_to_end_spec code (_cache s) Hd) as (Hd' & Hl' & Hg); [by eexists|].
  split; [|split; [done|split; [done|by apply Hc]]].
  split; [done|]. split; [done|]. split; [done|]. simpl. split; [lia|].
  intros k x. rewrite Hg. apply Hc.
Qed.

Lemma resolve_fill_spec s code m :
  state_ok s → get_by_short_code (_storage s) code = Some m →
  state_ok (resolve_fill s code m) ∧ state_extends s (resolve_fill s code m) ∧
  _clicks (resolve_fill s code m) = _clicks s.
Proof.
  intros Hs Hm. pose proof Hs as (Hst & Hinv & Hd & Hl & Hc). unfold resolve_fill.
  destruct (_cache_capacity s =? 0)%nat; [split_and!; done|].
  assert (dict_ok (dset code m (_cache s))) as Hd1 by (by apply dset_ok).
  destruct (move_to_end_spec code (dset code m (_cache s)) Hd1) as (Hd2 & _ & Hg).
  { rewrite dget_dset_eq. by eexists. }
  split; [|split; done]. split; [done|]. split; [done|]. unfold cache_ok. simpl.
  rewrite evict_spec. split; [by apply drop_dict_ok|]. split; [rewrite length_drop; lia|].
  intros k x Hx%dget_drop; [|done]. rewrite Hg, dget_dset in Hx.
  case_decide as Hk; [|by apply Hc]. subst. congruence.
Qed.

Lemma step_request_spec s q :
  state_ok s → request_ok s q →
  let '(s', q') := step_request s q in
  state_ok s' ∧ state_extends s s' ∧ request_ok s' q' ∧
  ∀ code, get_click_count s' code + hits code q = get_click_count s code + hits code q'.
Proof.
  intros Hs Hq. unfold get_click_count, get_click_records.
  destruct q as [url rd now|code cl now|code cl now|code cl now m|code cl now m|url r|code r]; simpl.
  - pose proof (shorten_spec s url rd now Hs) as Hspec.
    destruct (shorten s url rd now) as [s' r]. destruct Hspec as (H1 & H2 & H3 & H4).
    split; [done|]. split; [done|]. split; [done|]. intros c. by rewrite H3.
  - pose proof (resolve_cached_spec s code Hs) as Hspec.
    destruct (resolve_cached s code) as [s' [m|]]; destruct Hspec as (H1 & H2 & H3 & H4);
      (split; [done|]; split; [done|]; split; [done|]; intros c; by rewrite H3).
  - unfold resolve_stored. destruct (get_by_short_code (_storage s) code) eqn:Hm; simpl; split_and!; auto; done.
  - destruct (resolve_fill_spec s code m Hs Hq) as (H1 & H2 & H3).
    split; [done|]. split; [done|]. split; [by apply H2|]. intros c. by rewrite H3.
  - split; [done|]. split; [done|]. split; [right; by exists m|]. intros c.
    rewrite dget_or_dset. case_decide; [subst; rewrite length_app; done|done].
  - split; [done|]. split; [done|]. split; [done|]. done.
  - split; [done|]. split; [done|]. split; [done|]. done.
Qed.

Lemma step_request_capacity s q : _cache_capacity (step_request s q).1 = _cache_capacity s.
Proof.
  destruct q; simpl; try done.
  - unfold Shortener.shorten. destruct (redirect_uri url); [|done].
    destruct (match redirect with Some _ => _ | None => _ end); [|done].
    by destruct (get_or_create _ _ _ _) as [[??]?].
  - unfold resolve_cached. by destruct (dget code (_cache s)).
  - by destruct (resolve_stored s code).
  - unfold resolve_fill. by destruct (_ =? 0)%nat.
Qed.

Lemma run_schedule_capacity schedule s qs :
  _cache_capacity (run_schedule schedule s qs).1 = _cache_capacity s.
Proof.
  revert s qs. induction schedule as [|i schedule IH]; intros s qs; simpl; [done|].
  destruct (qs !! i) as [q|]; [|apply IH]. pose proof (step_request_capacity s q) as Hc.
  destruct (step_request s q). by rewrite IH.
Qed.

(** The invariant of the shortener and the requests in flight. *)
Definition system_ok (s : URLShortener S) (qs : list request) : Prop :=
  state_ok s ∧ Forall (request_ok s) qs ∧ ∀ code, get_click_count s code = total_hits code qs.

Lemma run_schedule_ok schedule s qs :
  system_ok s qs →
  let '(s', qs') := run_schedule schedule s qs in system_ok s' qs' ∧ state_extends s s'.
Proof.
  revert s qs. induction schedule as [|i schedule IH]; intros s qs Hok; simpl; [done|].
  destruct (qs !! i) as [q|] eqn:Hi; [|by apply IH].
  destruct Hok as (Hs & Hqs & Hcl). pose proof (Forall_lookup_1 _ _ _ _ Hqs Hi) as Hq.
  pose proof (step_request_spec s q Hs Hq) as Hstep. destruct (step_request s q) as [s1 q1].
  destruct Hstep as (Hs1 & Hext & Hq1 & Hc1).
  assert (system_ok s1 (<[i := q1]> qs)) as Hok1.
  { split; [done|]. split.
    - apply Forall_insert; [|done]. eapply Forall_impl; [exact Hqs|].
      intros x. by apply request_ok_extends.
    - intros code. pose proof (total_hits_insert code qs i q q1 Hi). specialize (Hc1 code).
      rewrite Hcl in Hc1. lia. }
  specialize (IH s1 (<[i := q1]> qs) Hok1).
  destruct (run_schedule schedule s1 (<[i := q1]> qs)) as [s' qs']. destruct IH as [H1 H2].
  split; [done|]. by etrans.
Qed.

Definition is_fresh (q : request) : Prop :=
  match q with ShortenReq _ _ _ | ResolveReq _ _ _ => True | _ => False end.

Lemma init_system_ok g st rd domain cap s0 qs0 :
  init_shortener g st rd domain cap = Ok s0 → storage_ok st → strategy_inv g st →
  Forall is_fresh qs0 → system_ok s0 qs0.
Proof.
  unfold init_shortener. destruct (cap <? 0)%Z; [done|].
  destruct (_validate_redirect_type rd) as [r|e]; simpl; [|done]. intros [= <-] Hst Hinv Hq.
  split; [|split].
  - split; [done|]. split; [done|]. split; [apply NoDup_nil_2|]. split; simpl; [lia|done].
  - eapply Forall_impl; [exact Hq|]. by intros [].
  - intros code. unfold get_click_count. simpl.
    induction Hq as [|q qs Hf _ IH]; [done|]. change (0 = hits code q + total_hits code qs).
    rewrite <- IH. by destruct q.
Qed.

Lemma short_url_inj domain c1 c2 : short_url domain c1 = short_url domain c2 → c1 = c2.
Proof. unfold short_url. intros Heq. by simplify_eq. Qed.

(** [tracks code m n q]: the request resolves [code], has seen nothing but [m],
    and needs [n] more steps of its own. *)
Definition tracks (code : string) (m : URLMapping) (n : nat) (q : request) : Prop :=
  match q with
  | ResolveReq c _ _ => c = code ∧ n = 4
  | Missed c _ _ => c = code ∧ n = 3
  | Loaded c _ _ x => c = code ∧ x = m ∧ n = 2
  | Found c _ _ x => c = code ∧ x = m ∧ n = 1
  | Resolved c r => c = code ∧ r = Ok (long_url m, redirect_type m) ∧ n = 0
  | _ => False
  end.

Lemma tracks_step s q code m n :
  state_ok s → get_by_short_code (_storage s) code = Some m → tracks code m n q →
  ∃ n', tracks code m n' (step_request s q).2 ∧ n' ≤ n - 1.
Proof.
  intros Hs Hm. pose proof Hs as (_ & _ & _ & _ & Hc).
  destruct q as [| | | | | |c r]; simpl; try done.
  - intros [-> ->]. unfold resolve_cached. destruct (dget code (_cache s)) as [x|] eqn:Hx; simpl.
    + exists 1. pose proof (Hc _ _ Hx). split; [|lia]. split_and!; [done|congruence|done].
    + exists 3. by split_and!.
  - intros [-> ->]. unfold resolve_stored. rewrite Hm. exists 2. split_and!; try done; lia.
  - intros (-> & -> & ->). exists 1. split_and!; try done; lia.
  - intros (-> & -> & ->). exists 0. split_and!; try done; lia.
  - intros (-> & -> & ->). exists 0. split_and!; try done; lia.
Qed.

Lemma run_schedule_tracks later s qs k q code m n :
  system_ok s qs → get_by_short_code (_storage s) code = Some m →
  qs !! k = Some q → tracks code m n q →
  ∃ q' n', (run_schedule later s qs).2 !! k = Some q' ∧ tracks code m n' q' ∧
           n' ≤ n - length (filter (λ i, i = k) later).
Proof.
  revert s qs q n. induction later as [|i later IH]; intros s qs q n Hok Hm Hk Ht; simpl.
  { exists q, n. rewrite Nat.sub_0_r. done. }
  pose proof (run_schedule_ok [i] s qs Hok) as Hone. simpl in Hone. destruct (qs !! i) as [x|] eqn:Hi; cycle 1.
  { rewrite filter_cons_False by (by intros ->; congruence). by apply IH with q. }
  destruct (step_request s x) as [s1 x1] eqn:Hstep. destruct Hone as [Hok1 [_ [Hext _]]].
  destruct (decide (i = k)) as [->|Hne].
  - assert (x = q) as -> by congruence.
    destruct (tracks_step s q code m n (proj1 Hok) Hm Ht) as (n1 & Ht1 & Hn1).
    rewrite Hstep in Ht1. simpl in Ht1.
    destruct (IH s1 (<[k:=x1]> qs) x1 n1 Hok1 (Hext _ _ Hm)) as (q' & n' & Hq' & Ht' & Hn').
    { apply list_lookup_insert_eq. by eapply lookup_lt_Some. } { done. }
    exists q', n'. split_and!; [done..|]. rewrite filter_cons_True by done. simpl. lia.
  - destruct (IH s1 (<[i:=x1]> qs) q n Hok1 (Hext _ _ Hm)) as (q' & n' & Hq' & Ht' & Hn').
    { by rewrite list_lookup_insert_ne. } { done. }
    exists q', n'. split_and!; [done..|]. by rewrite filter_cons_False.
Qed.

(** C40: however requests are interleaved, two successful shortenings return the
    same short URL exactly for the same long URL; a resolution returns the
    stored mapping of its code or [ShortCodeNotFoundError]; the cache never
    exceeds its capacity nor disagrees with the storage; and the clicks of a
    code are the resolutions that found it. *)
Theorem shortener_interleavings (g : S) (st : InMemoryStorage) (rd : Z) (domain : string) (cap : Z)
    (s0 : URLShortener S) (qs0 : list request) (schedule : list nat) :
  init_shortener g st rd domain cap = Ok s0 → storage_ok st → strategy_inv g st →
  Forall is_fresh qs0 →
  let '(s, qs) := run_schedule schedule s0 qs0 in
  (∀ i j url1 url2 u1 u2, qs !! i = Some (Shortened url1 (Ok u1)) →
     qs !! j = Some (Shortened url2 (Ok u2)) → (u1 = u2 ↔ url1 = url2)) ∧
  (∀ i code r, qs !! i = Some (Resolved code r) →
     r = Raise ShortCodeNotFoundError ∨
     ∃ m, get_by_short_code (_storage s) code = Some m ∧ r = Ok (long_url m, redirect_type m)) ∧
  (Z.of_nat (length (_cache s)) <= cap)%Z ∧
  (∀ code m, dget code (_cache s) = Some m → get_by_short_code (_storage s) code = Some m) ∧
  (∀ code, get_click_count s code = total_hits code qs).
Proof.
  intros Hinit Hst Hinv Hq. pose proof (init_system_ok _ _ _ _ _ _ _ Hinit Hst Hinv Hq) as Hok.
  pose proof (run_schedule_ok schedule s0 qs0 Hok) as Hrun.
  assert (_cache_capacity s0 = Z.to_nat cap ∧ 0 <= cap)%Z as [Hcap0 Hpos].
  { unfold init_shortener in Hinit. destruct (Z.ltb_spec cap 0); [done|].
    destruct (_validate_redirect_type rd); simpl in Hinit; [|done]. by injection Hinit as <-. }
  pose proof (run_schedule_capacity schedule s0 qs0) as Hcap.
  destruct (run_schedule schedule s0 qs0) as [s qs]. simpl in Hcap.
  destruct Hrun as [((Hst' & _ & Hd & Hl & Hc) & Hqs & Hcl) _].
  rewrite Forall_lookup in Hqs. split_and!; [| | |done|done].
  - intros i j url1 url2 u1 u2 Hi Hj.
    destruct (Hqs i _ Hi) as (m1 & Hm1 & ->). destruct (Hqs j _ Hj) as (m2 & Hm2 & ->). split.
    + intros Heq%short_url_inj. apply (so_long _ Hst') in Hm1 as [<- Hm1], Hm2 as [<- Hm2]. congruence.
    + intros <-. congruence.
  - intros i code r Hi. apply (Hqs i _ Hi).
  - rewrite Hcap, Hcap0 in Hl. lia.
Qed.

(** Once a shortening has returned, a resolution of its code that starts
    later finds that URL, always with the same redirect, after at most four
    steps of its own and whatever other requests do in between. *)
Theorem shortener_read_your_writes (g : S) (st : InMemoryStorage) (rd : Z) (domain : string) (cap : Z)
    (s0 : URLShortener S) (qs0 : list request) (schedule : list nat) :
  init_shortener g st rd domain cap = Ok s0 → storage_ok st → strategy_inv g st →
  Forall is_fresh qs0 →
  let '(s, qs) := run_schedule schedule s0 qs0 in
  ∀ i url code, qs !! i = Some (Shortened url (Ok (short_url (_domain s) code))) →
  ∃ redirect, ∀ k client now later,
    qs !! k = Some (ResolveReq code client now) →
    4 ≤ length (filter (λ j, j = k) later) →
    (run_schedule later s qs).2 !! k = Some (Resolved code (Ok (url, redirect))).
Proof.
  intros Hinit Hst Hinv Hq. pose proof (init_system_ok _ _ _ _ _ _ _ Hinit Hst Hinv Hq) as Hok.
  pose proof (run_schedule_ok schedule s0 qs0 Hok) as Hrun.
  destruct (run_schedule schedule s0 qs0) as [s qs]. destruct Hrun as [Hok' _].
  intros i url code Hi. pose proof Hok' as ((Hst' & _) & Hqs & _).
  destruct (Forall_lookup_1 _ _ _ _ Hqs Hi) as (m & Hm & Heq%short_url_inj). subst code.
  apply (so_long _ Hst') in Hm as [<- Hm]. exists (redirect_type m).
  intros k client now later Hk Hlen.
  destruct (run_schedule_tracks later s qs k _ (short_code m) m 4 Hok' Hm Hk)
    as (q & n & -> & Ht & Hn); [done|].
  assert (n = 0) as -> by lia. destruct q; simpl in Ht; try lia; try done.
  by destruct Ht as (-> & -> & _).
Qed.
End interleaving.

(** ** Concrete instances *)

Lemma base62_starts start : id_codes (mk_base62_strategy start) empty_storage.
Proof. intros code m [=]. Qed.

(** A validator that only looks at the scheme. *)
Definition demo_uri (url : string) : result string :=
  if String.prefix "http://" url then Ok url else Raise URLValidationError.

Definition demo_requests : list request :=
  [ShortenReq "http://a" None 1; ShortenReq "http://b" (Some 301) 2; ShortenReq "http://a" (Some 301) 3;
   ShortenReq "ftp://c" None 4; ResolveReq "0000001" None 5; ResolveReq "0000002" (Some "me") 6;
   ResolveReq "none" None 7]%Z.

Definition demo_shortener : URLShortener Base62Strategy :=
  mk_shortener 1 [] (mk_base62_strategy 1) empty_storage TEMPORARY "http://short.url" [].

(** The first resolution starts before its code exists. *)
Definition demo_schedule : list nat := [4; 0; 1; 2; 4; 5; 3; 4; 5; 5; 5; 4; 6; 6].

Lemma shortener_interleavings_witness :
  let '(s, qs) := run_schedule demo_uri demo_schedule demo_shortener demo_requests in
  qs = [Shortened "http://a" (Ok "http://short.url/0000001");
        Shortened "http://b" (Ok "http://short.url/0000002");
        Shortened "http://a" (Ok "http://short.url/0000001");
        Shortened "ftp://c" (Raise URLValidationError);
        Resolved "0000001" (Ok ("http://a", TEMPORARY));
        Resolved "0000002" (Ok ("http://b", PERMANENT));
        Resolved "none" (Raise ShortCodeNotFoundError)] ∧
  dkeys (_cache s) = ["0000002"] ∧
  ∀ code, get_click_count s code = total_hits code qs.
Proof.
  pose proof (shortener_interleavings demo_uri (mk_base62_strategy 1) empty_storage 302 "http://short.url/"
    1 demo_shortener demo_requests demo_schedule eq_refl empty_storage_ok
    (base62_starts 1) ltac:(repeat constructor)) as Hmain.
  destruct (run_schedule demo_uri demo_schedule demo_shortener demo_requests) as [s qs] eqn:Hrun.
  destruct Hmain as (_ & _ & _ & _ & Hclicks). split; [|split; [|exact Hclicks]].
  - change qs with (s, qs).2. rewrite <- Hrun. vm_compute. reflexivity.
  - change s with (s, qs).1. rewrite <- Hrun. vm_compute. reflexivity.
Defined.

Definition hash_shortener : URLShortener HashCollisionStrategy :=
  mk_shortener 4 [] (mk_hash_strategy 10) empty_storage TEMPORARY "http://short.url" [].

Lemma shortener_read_your_writes_witness :
  let qs0 := [ShortenReq "http://a" None 1; ResolveReq "2HcV8o0" None 2] in
  let '(s, qs) := run_schedule demo_uri [0] hash_shortener qs0 in
  qs !! 0 = Some (Shortened "http://a" (Ok (short_url (_domain s) (crc_code "http://a")))) ∧
  ∃ redirect, ∀ k client now later,
    qs !! k = Some (ResolveReq (crc_code "http://a") client now) →
    4 ≤ length (filter (λ j, j = k) later) →
    (run_schedule demo_uri later s qs).2 !! k =
      Some (Resolved (crc_code "http://a") (Ok ("http://a", redirect))).
Proof.
  intros qs0.
  pose proof (shortener_read_your_writes demo_uri (mk_hash_strategy 10) empty_storage 302 "http://short.url/"
    4 hash_shortener qs0 [0] eq_refl empty_storage_ok I ltac:(repeat constructor)) as Hmain.
  destruct (run_schedule demo_uri [0] hash_shortener qs0) as [s qs] eqn:Hrun.
  assert (qs !! 0 = Some (Shortened "http://a" (Ok (short_url (_domain s) (crc_code "http://a"))))) as Hi.
  { change qs with (s, qs).2. change (_domain s) with (_domain (s, qs).1). rewrite <- Hrun.
    vm_compute. reflexivity. }
  split; [exact Hi|]. exact (Hmain 0 _ _ Hi).
Defined.
