(* ===== verification/Trie.v ===== *)
(** * The autocomplete trie

    Models src/search-autocomplete-system/src/search_autocomplete/trie.py:
    normalisation of queries, the builder and its freezing into nodes that cache
    their best five matches, and the best-first search that refills the five
    when some are blocked.  Strings are sequences of ASCII characters. *)
From Stdlib Require Import Ascii.
From S2P Require Import Prelude PyList PyDict Base62.

(** ** Normalisation *)

Notation chars := (list Ascii.ascii).
Definition code (c : Ascii.ascii) : N := N_of_ascii c.

Definition isspace (c : Ascii.ascii) : bool :=
  ((9 <=? code c) && (code c <=? 13) || (28 <=? code c) && (code c <=? 32))%N.
Definition lower (c : Ascii.ascii) : Ascii.ascii :=
  if ((65 <=? code c) && (code c <=? 90))%N then ascii_of_N (code c + 32) else c.
Definition is_letter (c : Ascii.ascii) : bool := ((97 <=? code c) && (code c <=? 122))%N.
Definition SPACE : Ascii.ascii := " "%char.

(** [str.split()]: the maximal runs without white space. *)
Definition emit (word : chars) : list chars := match word with [] => [] | _ => [word] end.
Fixpoint split_words (word l : chars) : list chars :=
  match l with
  | [] => emit word
  | c :: l' => if isspace c then emit word ++ split_words [] l' else split_words (word ++ [c]) l'
  end.

(** [" ".join(words)] *)
Fixpoint join_words (words : list chars) : chars :=
  match words with
  | [] => []
  | [w] => w
  | w :: words' => w ++ SPACE :: join_words words'
  end.

(** The pattern [[a-z]+(?: [a-z]+)*], with [ ?] after it when [trail]. *)
Fixpoint fullmatch (trail in_word : bool) (l : chars) : bool :=
  match l with
  | [] => in_word
  | c :: l' =>
      if is_letter c then fullmatch trail true l'
      else if bool_decide (c = SPACE) && in_word then
        match l' with [] => trail | _ => fullmatch trail false l' end
      else false
  end.

Definition normalize (empty : bool) (value : string) : result string :=
  let value := String.list_ascii_of_string value in
  if (200 <? length value)%nat then Raise ValueError
  else
    let trailing := empty && match last value with Some c => isspace c | None => false end in
    let value := join_words (split_words [] (lower <$> value)) in
    let value := if negb (bool_decide (value = [])) && trailing then value ++ [SPACE] else value in
    if bool_decide (value = []) then if empty then Ok EmptyString else Raise ValueError
    else if (50 <? length value)%nat || negb (fullmatch empty false value) then Raise ValueError
    else Ok (String.string_of_list_ascii value).

(** ** Matches and their rank *)

Notation Match := (string * Z)%type.
Notation Rank := (Z * string)%type.
Definition _TOP_LIMIT : nat := 5.

Definition _rank (item : Match) : Rank := (- item.2, item.1)%Z.
Definition ranked (items : list Match) : list Match := take _TOP_LIMIT (sort_by _rank items).

(** ** Nodes *)

Inductive _BuilderNode := mk_builder {
  b_children : list (Ascii.ascii * _BuilderNode);
  b_terminal : option Match;
}.

Inductive Node := mk_node {
  children : list (Ascii.ascii * Node);
  terminal : option Match;
  top : list Match;
}.

Definition empty_builder : _BuilderNode := mk_builder [] None.

Fixpoint _freeze (builder : _BuilderNode) : Node :=
  match builder with
  | mk_builder ch term =>
      let children := map (λ p, (p.1, _freeze p.2)) ch in
      mk_node children term (ranked (option_list term ++ concat (map (λ p, top p.2) children)))
  end.

Definition is_blocked (blocked : gset string) (item : Match) : bool := bool_decide (item.1 ∈ blocked).

Fixpoint first_allowed (blocked : gset string) (items : list Match) : option Match :=
  match items with
  | [] => None
  | item :: items' => if is_blocked blocked item then first_allowed blocked items' else Some item
  end.

Definition _available_bound (node : Node) (blocked : gset string) : option Rank :=
  match first_allowed blocked (top node) with
  | Some item => Some (_rank item)
  | None => if decide (length (top node) = _TOP_LIMIT) then _rank <$> last (top node) else None
  end.

(** ** The refill *)

Record pending_entry := mk_pending {
  pe_bound : Rank;
  pe_sequence : nat;
  pe_node : Node;
}.
Definition pending_key (p : pending_entry) : Rank * nat := (pe_bound p, pe_sequence p).

(** [dict(best)] *)
Definition dict_of (items : list Match) : dict string Z := foldl (λ d p, dset p.1 p.2 d) [] items.

Definition add_candidates (blocked : gset string) (items : list Match) (d : dict string Z) : dict string Z :=
  foldl (λ d item, if is_blocked blocked item then d else dset item.1 item.2 d) d items.

(** The rank of [best[-1]] when [best] is full. *)
Definition cutoff_of (best : list Match) : option Rank :=
  if decide (length best = _TOP_LIMIT) then _rank <$> last best else None.

Fixpoint push_children (blocked : gset string) (cutoff : option Rank)
    (nodes : list (Ascii.ascii * Node)) (pending : list pending_entry) (sequence : nat)
    : list pending_entry * nat :=
  match nodes with
  | [] => (pending, sequence)
  | (_, child) :: nodes' =>
      match _available_bound child blocked with
      | Some bound =>
          if match cutoff with None => true | Some r => pylt bound r end then
            push_children blocked cutoff nodes'
              (heappush pending_key (mk_pending bound sequence child) pending) (S sequence)
          else push_children blocked cutoff nodes' pending sequence
      | None => push_children blocked cutoff nodes' pending sequence
      end
  end.

Fixpoint filter_loop (fuel : nat) (blocked : gset string) (pending : list pending_entry)
    (sequence : nat) (best : list Match) : result (list Match) :=
  match heappop pending with
  | None => Ok best
  | Some (p, pending') =>
      match fuel with
      | O => Raise OutOfFuel
      | S fuel' =>
          if match cutoff_of best with Some r => pyle r (pe_bound p) | None => false end then Ok best
          else
            let current := pe_node p in
            let candidates := add_candidates blocked (top current ++ option_list (terminal current))
                                (dict_of best) in
            let best' := ranked candidates in
            let '(pending'', sequence') :=
              push_children blocked (cutoff_of best') (children current) pending' sequence in
            filter_loop fuel' blocked pending'' sequence' best'
      end
  end.

Fixpoint node_size (n : Node) : nat :=
  match n with mk_node ch _ _ => S (sum_list (map (λ p, node_size p.2) ch)) end.

Definition _filtered_top (node : Node) (blocked : gset string) : result (list Match) :=
  match _available_bound node blocked with
  | Some bound =>
      filter_loop (node_size node) blocked (heappush pending_key (mk_pending bound 0 node) []) 1 []
  | None => filter_loop (node_size node) blocked [] 0 []
  end.

(** ** The trie *)

(** The walk of one query, creating nodes, and the assignment at its end. *)
Fixpoint insert_query (query : chars) (item : Match) (node : _BuilderNode) : result _BuilderNode :=
  match query with
  | [] =>
      match b_terminal node with
      | Some _ => Raise ValueError
      | None => Ok (mk_builder (b_children node) (Some item))
      end
  | char :: query' =>
      let child := dget_or empty_builder char (b_children node) in
      let* child' := insert_query query' item child in
      Ok (mk_builder (dset char child' (b_children node)) (b_terminal node))
  end.

Fixpoint build (frequencies : list Match) (root : _BuilderNode) : result _BuilderNode :=
  match frequencies with
  | [] => Ok root
  | (query, frequency) :: rest =>
      let* normal := normalize false query in
      raise_if (negb (bool_decide (normal = query)) || (frequency <=? 0)%Z) ValueError
        (let* root' := insert_query (String.list_ascii_of_string query) (query, frequency) root in
         build rest root')
  end.

Definition Trie (frequencies : list Match) : result Node :=
  let* root := build frequencies empty_builder in Ok (_freeze root).

Fixpoint descend (node : Node) (prefix : chars) : option Node :=
  match prefix with
  | [] => Some node
  | char :: prefix' =>
      match dget char (children node) with None => None | Some child => descend child prefix' end
  end.

Definition suggest (root : Node) (prefix : string) (blocked : gset string) : result (list Match) :=
  let* prefix := normalize true prefix in
  if bool_decide (prefix = EmptyString) then Ok []
  else
    match descend root (String.list_ascii_of_string prefix) with
    | None => Ok []
    | Some node =>
        if existsb (is_blocked blocked) (top node) then _filtered_top node blocked
        else Ok (top node)
    end.

Example suggest_demo :
  (let* t := Trie [("cat", 3); ("car", 5); ("cart", 5); ("dog", 9); ("care", 1); ("cab", 2); ("ca", 1)]%Z in
   let* a := suggest t "CA" ∅ in let* b := suggest t "ca" {["car"]} in Ok (a, b)) =
  Ok ([("car", 5); ("cart", 5); ("cat", 3); ("cab", 2); ("ca", 1)],
      [("cart", 5); ("cat", 3); ("cab", 2); ("ca", 1); ("care", 1)])%Z.
Proof. vm_compute. reflexivity. Qed.

(** ** Ranking *)

Lemma rank_inj x y : _rank x = _rank y → x = y.
Proof. destruct x, y. unfold _rank. simpl. intros [= ? ->]. f_equal. lia. Qed.

Lemma take_insert {A K} `{PyOrd K} (key : A → K) k x l :
  take k (insert_by key x (take k l)) = take k (insert_by key x l).
Proof.
  revert k. induction l as [|y l IH]; intros [|k]; simpl; [done..|].
  destruct (pyle (key x) (key y)); simpl; [|by rewrite IH].
  f_equal. destruct k as [|k]; [done|]. simpl. by rewrite take_take, Nat.min_l by lia.
Qed.

Lemma take_foldr_insert {A K} `{PyOrd K} (key : A → K) k l s :
  take k (foldr (insert_by key) (take k s) l) = take k (foldr (insert_by key) s l).
Proof.
  induction l as [|x l IH]; simpl; [by rewrite take_take, Nat.min_id|].
  by rewrite <- take_insert, IH, take_insert.
Qed.

Lemma ranked_perm l1 l2 : l1 ≡ₚ l2 → ranked l1 = ranked l2.
Proof.
  intros Hp. unfold ranked. rewrite (sort_by_perm_eq _rank l1 l2); [done| |done].
  intros x y _ _. apply rank_inj.
Qed.

Lemma ranked_ordered l : ordered _rank (ranked l).
Proof.
  eapply ordered_sublist; [apply sublist_take|]. apply sort_by_ordered.
Qed.

Lemma ranked_app l l' : ranked (l' ++ ranked l) = ranked (l' ++ l).
Proof.
  unfold ranked at 1 3. unfold sort_by. rewrite !foldr_app.
  change (foldr (insert_by _rank) [] ?l) with (sort_by _rank l).
  rewrite (sort_by_id _rank (ranked l)) by apply ranked_ordered.
  unfold ranked. apply take_foldr_insert.
Qed.

Lemma ranked_app_l l l' : ranked (ranked l ++ l') = ranked (l ++ l').
Proof. by rewrite (ranked_perm (ranked l ++ l') (l' ++ ranked l)), ranked_app, (ranked_perm (l ++ l') (l' ++ l))
  by apply Permutation_app_comm. Qed.

Lemma ranked_concat ls pre : ranked (pre ++ concat (ranked <$> ls)) = ranked (pre ++ concat ls).
Proof.
  revert pre. induction ls as [|l ls IH]; intros pre; simpl; [done|].
  rewrite (ranked_perm (pre ++ ranked l ++ _) ((pre ++ concat (ranked <$> ls)) ++ ranked l)).
  2: { rewrite <- app_assoc. by apply Permutation_app_head, Permutation_app_comm. }
  rewrite ranked_app, (ranked_perm _ ((l ++ pre) ++ concat (ranked <$> ls))).
  2: { rewrite (Permutation_app_comm _ l). by rewrite app_assoc. }
  rewrite IH. apply ranked_perm. rewrite (Permutation_app_comm l pre). by rewrite app_assoc.
Qed.

Lemma ranked_sub l m : m ∈ ranked l → m ∈ l.
Proof.
  intros Hm. apply (elem_of_sort_by _rank).
  rewrite <- (take_drop _TOP_LIMIT (sort_by _rank l)), elem_of_app. by left.
Qed.

Lemma ranked_length l : length (ranked l) = Nat.min 5 (length l).
Proof. unfold ranked, _TOP_LIMIT. by rewrite length_take, sort_by_length. Qed.

Lemma ranked_NoDup l : NoDup l → NoDup (ranked l).
Proof.
  intros Hl. unfold ranked. refine (sublist_NoDup _ _ _ (sublist_take _ _)). by rewrite sort_by_perm.
Qed.

(** [m] is among five matches or they all beat it. *)
Definition covered (best : list Match) (m : Match) : Prop :=
  m ∈ best ∨ length best = 5 ∧ ∀ x, x ∈ best → pylt (_rank x) (_rank m) = true.

Lemma ranked_covers l m : NoDup l → m ∈ l → covered (ranked l) m.
Proof.
  intros Hnd Hm. destruct (decide (m ∈ ranked l)) as [|Hn]; [by left|]. right.
  pose proof (sort_by_ordered _rank l) as Hs. unfold ranked in *.
  rewrite <- (take_drop _TOP_LIMIT (sort_by _rank l)) in Hs. apply ordered_app in Hs as (_ & _ & Hle).
  assert (m ∈ drop _TOP_LIMIT (sort_by _rank l)) as Hd.
  { apply (elem_of_sort_by _rank) in Hm. rewrite <- (take_drop _TOP_LIMIT (sort_by _rank l)) in Hm.
    apply elem_of_app in Hm as [|]; done. }
  split.
  - rewrite length_take. apply list_elem_of_lookup in Hd as [i Hi]. apply lookup_lt_Some in Hi.
    rewrite length_drop in Hi. unfold _TOP_LIMIT in *. lia.
  - intros x Hx. apply pylt_spec. split; [by apply Hle|]. intros Heq%rank_inj. by subst.
Qed.

Lemma ranked_covered best U :
  ordered _rank best → NoDup best → NoDup U → length best ≤ 5 →
  (∀ m, m ∈ best → m ∈ U) → (∀ m, m ∈ U → covered best m) → best = ranked U.
Proof.
  intros Ho Hb HU Hlen Hsub Hcov. set (rest := filter (λ m, m ∉ best) U).
  assert (U ≡ₚ best ++ rest) as Hp.
  { apply NoDup_Permutation; [done| |].
    - apply NoDup_app. split; [done|]. split.
      + intros x Hx. unfold rest. rewrite list_elem_of_filter. tauto.
      + by apply NoDup_filter.
    - intros x. unfold rest. rewrite elem_of_app, list_elem_of_filter. split; [|naive_solver].
      intros Hx. destruct (decide (x ∈ best)); auto. }
  rewrite (ranked_perm _ _ Hp). unfold ranked.
  assert (sort_by _rank (best ++ rest) = best ++ sort_by _rank rest) as ->.
  { apply (ordered_unique _rank).
    - intros x y _ _. apply rank_inj.
    - apply sort_by_ordered.
    - apply ordered_app. split; [done|]. split; [apply sort_by_ordered|].
      intros x y Hx Hy. apply elem_of_sort_by, list_elem_of_filter in Hy as [Hn HyU].
      destruct (Hcov y HyU) as [|[_ Hall]]; [done|]. by apply pylt_le, Hall.
    - by rewrite !sort_by_perm. }
  destruct rest as [|r rest'] eqn:Hr; [simpl; rewrite app_nil_r; by rewrite take_ge|].
  assert (r ∈ U ∧ r ∉ best) as [HrU Hrn].
  { assert (r ∈ rest) as Hin by (rewrite Hr; left). apply list_elem_of_filter in Hin. tauto. }
  destruct (Hcov r HrU) as [|[H5 _]]; [done|]. by rewrite take_app_length'.
Qed.

Lemma elem_of_concat {A} (x : A) (ls : list (list A)) : x ∈ concat ls ↔ ∃ l, x ∈ l ∧ l ∈ ls.
Proof.
  induction ls as [|l ls IH]; simpl; [set_solver|]. rewrite elem_of_app, IH. set_solver.
Qed.

(** ** Nodes *)

(** Every match below a node. *)
Fixpoint matches (n : Node) : list Match :=
  match n with mk_node ch term _ => option_list term ++ concat (map (λ p, matches p.2) ch) end.

(** The cache of every node is the best five matches below it. *)
Inductive node_ok : Node → Prop :=
| node_ok_intro n :
    top n = ranked (matches n) → Forall (λ p, node_ok p.2) (children n) → node_ok n.

Lemma node_ok_top n : node_ok n → top n = ranked (matches n).
Proof. by destruct 1. Qed.

Lemma node_ok_child n c child : node_ok n → (c, child) ∈ children n → node_ok child.
Proof. destruct 1 as [n _ Hch]. rewrite Forall_forall in Hch. intros Hc. by apply (Hch _ Hc). Qed.

Lemma matches_unfold n :
  matches n = option_list (terminal n) ++ concat (map (λ p, matches p.2) (children n)).
Proof. by destruct n. Qed.

Lemma matches_child n c child m : (c, child) ∈ children n → m ∈ matches child → m ∈ matches n.
Proof.
  intros Hc Hm. rewrite matches_unfold, elem_of_app. right. apply elem_of_concat.
  exists (matches child). split; [done|]. apply (list_elem_of_fmap_2 (λ p, matches p.2) _ _ Hc).
Qed.

Lemma matches_cases n m :
  m ∈ matches n → terminal n = Some m ∨ ∃ c child, (c, child) ∈ children n ∧ m ∈ matches child.
Proof.
  rewrite matches_unfold, elem_of_app, elem_of_concat. intros [Hm|(l & Hm & Hl)].
  - left. destruct (terminal n); simpl in Hm; [|by apply not_elem_of_nil in Hm].
    apply list_elem_of_singleton in Hm. by subst.
  - right. apply (list_elem_of_fmap_1 (λ p, matches p.2)) in Hl as ([c child] & -> & Hc). eauto.
Qed.

Lemma matches_child_NoDup n c child : NoDup (matches n) → (c, child) ∈ children n → NoDup (matches child).
Proof.
  rewrite matches_unfold. intros (_ & _ & Hnd)%NoDup_app Hc.
  apply list_elem_of_split in Hc as (l1 & l2 & Hch). rewrite Hch, map_app, concat_app in Hnd.
  simpl in Hnd. apply NoDup_app in Hnd as (_ & _ & Hnd). by apply NoDup_app in Hnd as (? & _ & _).
Qed.

Definition allowed (blocked : gset string) (m : Match) : Prop := m.1 ∉ blocked.
#[export] Instance allowed_dec blocked m : Decision (allowed blocked m).
Proof. unfold allowed. apply _. Defined.

Lemma is_blocked_spec blocked m : is_blocked blocked m = false ↔ allowed blocked m.
Proof. unfold is_blocked, allowed. apply bool_decide_eq_false. Qed.

Lemma is_blocked_true blocked m : is_blocked blocked m = true ↔ ¬ allowed blocked m.
Proof. rewrite <- is_blocked_spec. by destruct (is_blocked blocked m). Qed.

Lemma first_allowed_spec blocked items :
  match first_allowed blocked items with
  | Some x => x ∈ items ∧ ∀ key : Match → Rank, ordered key items →
      ∀ m, m ∈ items → allowed blocked m → pyle (key x) (key m) = true
  | None => ∀ m, m ∈ items → ¬ allowed blocked m
  end.
Proof.
  induction items as [|y items IH]; simpl; [by intros m Hm%not_elem_of_nil|].
  destruct (is_blocked blocked y) eqn:Hy.
  - apply is_blocked_true in Hy. destruct (first_allowed blocked items) as [x|].
    + destruct IH as [Hx Hmin]. split; [by right|]. intros key [Ho _]%ordered_cons m Hm Hal.
      apply elem_of_cons in Hm as [->|Hm]; [done|]. by apply Hmin.
    + intros m [->|Hm]%elem_of_cons; [done|by apply IH].
  - split; [left|]. intros key Ho m Hm _. exact (ordered_head_min key y items m Ho Hm).
Qed.

(** The bound of a node is at most the rank of each of its allowed matches. *)
Lemma available_bound_le n blocked m :
  node_ok n → NoDup (matches n) → m ∈ matches n → allowed blocked m →
  ∃ b, _available_bound n blocked = Some b ∧ pyle b (_rank m) = true.
Proof.
  intros Hok Hnd Hm Hal. unfold _available_bound. rewrite (node_ok_top n Hok).
  pose proof (first_allowed_spec blocked (ranked (matches n))) as Hfirst.
  pose proof (ranked_ordered (matches n)) as Ho.
  destruct (first_allowed blocked (ranked (matches n))) as [x|].
  - exists (_rank x). split; [done|]. destruct Hfirst as [Hx Hmin].
    destruct (ranked_covers _ m Hnd Hm) as [Hin|[_ Hall]]; [by apply (Hmin _rank)|].
    by apply pylt_le, Hall.
  - destruct (ranked_covers _ m Hnd Hm) as [Hin|[H5 Hall]]; [by apply Hfirst in Hin|].
    rewrite decide_True by done.
    destruct (ranked (matches n)) as [|y l _] eqn:Hl using rev_ind; [done|].
    rewrite last_snoc. exists (_rank y). split; [done|]. apply pylt_le, Hall. set_solver.
Qed.

(** ** The search *)

Lemma dict_of_id items : NoDup (items.*1) → dict_of items = items.
Proof.
  intros Hnd. unfold dict_of.
  assert (∀ d, NoDup ((d ++ items).*1) → foldl (λ d p, dset p.1 p.2 d) d items = d ++ items) as Hgen.
  { clear Hnd. induction items as [|[q v] items IH]; intros d Hd; simpl; [by rewrite app_nil_r|].
    rewrite dset_new.
    - rewrite IH by (by rewrite <- app_assoc). by rewrite <- app_assoc.
    - unfold dkeys. rewrite fmap_app, fmap_cons in Hd. apply NoDup_app in Hd as (_ & Hdis & _).
      intros Hin. apply (Hdis q Hin). simpl. left. }
  by rewrite Hgen.
Qed.

Lemma same_count (U : list Match) q v v' : NoDup U.*1 → (q, v) ∈ U → (q, v') ∈ U → v = v'.
Proof.
  intros Hnd H1 H2. apply (dget_Some q v U Hnd) in H1. apply (dget_Some q v' U Hnd) in H2. congruence.
Qed.

Lemma subset_keys (U l : list Match) :
  NoDup U.*1 → NoDup l → (∀ m, m ∈ l → m ∈ U) → NoDup l.*1.
Proof.
  intros Hnd Hl Hsub. apply NoDup_fmap_2_strong; [|done].
  intros [q v] [q' v'] H1 H2. simpl. intros <-. f_equal.
  eapply (same_count U q); [done|by apply Hsub|by apply Hsub].
Qed.

Lemma add_candidates_spec blocked items d (U : list Match) :
  NoDup U.*1 → (∀ m, m ∈ d → m ∈ U) → (∀ m, m ∈ items → allowed blocked m → m ∈ U) → dict_ok d →
  dict_ok (add_candidates blocked items d) ∧
  ∀ m, m ∈ add_candidates blocked items d ↔ m ∈ d ∨ m ∈ items ∧ allowed blocked m.
Proof.
  intros HU. revert d. unfold add_candidates.
  induction items as [|[q v] items IH]; intros d Hd Hi Hok; simpl.
  { split; [done|]. intros m. rewrite elem_of_nil. tauto. }
  assert (∀ m, m ∈ items → allowed blocked m → m ∈ U) as Hi' by (intros m Hm; apply Hi; by right).
  destruct (is_blocked blocked (q, v)) eqn:Hb.
  - apply is_blocked_true in Hb. destruct (IH d Hd Hi' Hok) as [H1 H2]. split; [done|].
    intros m. rewrite H2, elem_of_cons. naive_solver.
  - apply is_blocked_spec in Hb. assert ((q, v) ∈ U) as HqU by (apply Hi; [left|done]).
    assert (∀ m, m ∈ dset q v d ↔ m = (q, v) ∨ m ∈ d) as Hset.
    { intros m. destruct (dget q d) as [v'|] eqn:Hq.
      - pose proof (dget_Some_elem _ _ _ Hq) as Hin.
        assert (v' = v) as -> by (eapply (same_count U q); [done|by apply Hd|done]).
        rewrite dset_same by done. naive_solver.
      - rewrite dset_new by (by apply dget_None). rewrite elem_of_app, list_elem_of_singleton. tauto. }
    destruct (IH (dset q v d)) as [H1 H2]; [|done|by apply dset_ok|].
    { intros m [->|Hm]%Hset; [done|by apply Hd]. }
    split; [done|]. intros m. rewrite H2, Hset, elem_of_cons. naive_solver.
Qed.

Definition pend_size (pending : list pending_entry) : nat :=
  sum_list (map (λ p, node_size (pe_node p)) pending).

Lemma pend_size_perm l1 l2 : l1 ≡ₚ l2 → pend_size l1 = pend_size l2.
Proof. intros Hp. unfold pend_size. induction Hp; simpl; lia. Qed.

Definition beats (cutoff : option Rank) (b : Rank) : Prop :=
  match cutoff with None => True | Some r => pylt b r = true end.

Lemma push_children_spec blocked cutoff nodes pending s :
  ordered pending_key pending →
  let '(pending', s') := push_children blocked cutoff nodes pending s in
  ordered pending_key pending' ∧
  (∀ p, p ∈ pending' → p ∈ pending ∨ ∃ c child, (c, child) ∈ nodes ∧ pe_node p = child ∧
     _available_bound child blocked = Some (pe_bound p)) ∧
  (∀ p, p ∈ pending → p ∈ pending') ∧
  (∀ c child b, (c, child) ∈ nodes → _available_bound child blocked = Some b → beats cutoff b →
     ∃ p, p ∈ pending' ∧ pe_node p = child) ∧
  pend_size pending' ≤ pend_size pending + sum_list (map (λ p, node_size p.2) nodes).
Proof.
  revert pending s. induction nodes as [|[c child] nodes IH]; intros pending s Ho; simpl.
  { split_and!; [done|naive_solver|done|intros ? ? ? ?%not_elem_of_nil; done|lia]. }
  assert (∀ pending0 s0, (∀ b, _available_bound child blocked = Some b → ¬ beats cutoff b) →
    pending0 = pending → let '(pending', s') := push_children blocked cutoff nodes pending0 s0 in
    ordered pending_key pending' ∧
    (∀ p, p ∈ pending' → p ∈ pending ∨ ∃ c0 child0, (c0, child0) ∈ (c, child) :: nodes ∧
       pe_node p = child0 ∧ _available_bound child0 blocked = Some (pe_bound p)) ∧
    (∀ p, p ∈ pending → p ∈ pending') ∧
    (∀ c0 child0 b, (c0, child0) ∈ (c, child) :: nodes → _available_bound child0 blocked = Some b →
       beats cutoff b → ∃ p, p ∈ pending' ∧ pe_node p = child0) ∧
    pend_size pending' ≤ pend_size pending + (node_size child + sum_list (map (λ p, node_size p.2) nodes)))
    as Hskip.
  { intros pending0 s0 Hno ->. specialize (IH pending s0 Ho).
    destruct (push_children blocked cutoff nodes pending s0) as [pending' s'].
    destruct IH as (H1 & H2 & H3 & H4 & H5). split_and!; [done| |done| |lia].
    - intros p [Hp|(c0 & ch0 & Hc & ?)]%H2; [by left|]. right. exists c0, ch0. split; [by right|done].
    - intros c0 ch0 b [Heq|Hc]%elem_of_cons Hb Hbt; [|by eapply H4]. injection Heq as -> ->.
      by destruct (Hno b Hb). }
  destruct (_available_bound child blocked) as [bound|] eqn:Hb; [|by apply Hskip].
  destruct (match cutoff with None => true | Some r => pylt bound r end) eqn:Hcut.
  - set (e := mk_pending bound s child).
    assert (heappush pending_key e pending ≡ₚ e :: pending) as Hp by apply insert_by_perm.
    specialize (IH (heappush pending_key e pending) (S s) (insert_by_ordered _ _ _ Ho)).
    destruct (push_children _ _ _ _ _) as [pending' s']. destruct IH as (H1 & H2 & H3 & H4 & H5).
    split_and!; [done|..].
    + intros p [Hin|(c0 & ch0 & Hc & ?)]%H2.
      * rewrite Hp in Hin. apply elem_of_cons in Hin as [->|Hin]; [|by left].
        right. exists c, child. split; [left|done].
      * right. exists c0, ch0. split; [by right|done].
    + intros p Hin. apply H3. rewrite Hp. by right.
    + intros c0 ch0 b [Heq|Hc]%elem_of_cons Hb0 Hbt; [|by eapply H4]. injection Heq as -> ->.
      exists e. split; [|done]. apply H3. rewrite Hp. left.
    + rewrite (pend_size_perm _ _ Hp) in H5. unfold pend_size at 2 in H5. simpl in H5.
      fold (pend_size pending) in H5. lia.
  - apply Hskip; [|done]. intros b [= <-] Hbt. unfold beats in Hbt. destruct cutoff; congruence.
Qed.

Section search.
Context (blocked : gset string) (U : list Match) (HU : NoDup U.*1).

(** A pending entry: a correct node whose bound is its own and whose allowed
    matches are among the answers. *)
Definition entry_ok (p : pending_entry) : Prop :=
  node_ok (pe_node p) ∧ NoDup (matches (pe_node p)) ∧
  _available_bound (pe_node p) blocked = Some (pe_bound p) ∧
  ∀ m, m ∈ matches (pe_node p) → allowed blocked m → m ∈ U.

Record best_ok (best : list Match) : Prop := {
  bo_ordered : ordered _rank best;
  bo_NoDup : NoDup best;
  bo_length : length best ≤ 5;
  bo_sub : ∀ m, m ∈ best → m ∈ U;
}.

(** Every answer is covered by the best so far or below a pending node. *)
Definition search_inv (pending : list pending_entry) (best : list Match) : Prop :=
  ordered pending_key pending ∧ (∀ p, p ∈ pending → entry_ok p) ∧ best_ok best ∧
  ∀ m, m ∈ U → covered best m ∨ ∃ p, p ∈ pending ∧ m ∈ matches (pe_node p).

Lemma covered_refined best best' m :
  NoDup best → NoDup best' → length best' ≤ 5 → length best ≤ length best' →
  (∀ x, x ∈ best → covered best' x) → covered best m → covered best' m.
Proof.
  intros Hb Hb' Hle Hlen Hcov [Hm|[H5 Hall]]; [by apply Hcov|]. right. split; [lia|].
  intros x Hx. destruct (pylt (_rank x) (_rank m)) eqn:E; [done|]. exfalso.
  apply pylt_false in E.
  assert (∀ b, b ∈ best → b ∈ best') as Hsub.
  { intros b Hin. destruct (Hcov b Hin) as [|[_ Hbeat]]; [done|].
    pose proof (pylt_trans _ _ _ (Hbeat x Hx) (Hall b Hin)) as Hlt.
    unfold pylt in Hlt. by rewrite E in Hlt. }
  assert (x ∉ best) as Hnx.
  { intros Hin. pose proof (Hall x Hin) as Hlt. unfold pylt in Hlt. by rewrite E in Hlt. }
  assert (length (x :: best) ≤ length best').
  { apply submseteq_length, NoDup_submseteq; [by constructor|].
    intros y [->|Hy]%elem_of_cons; auto. }
  simpl in *. lia.
Qed.

Lemma cutoff_spec best r :
  ordered _rank best → cutoff_of best = Some r →
  length best = 5 ∧ ∃ x, x ∈ best ∧ r = _rank x ∧ ∀ y, y ∈ best → pyle (_rank y) r = true.
Proof.
  intros Ho. unfold cutoff_of. case_decide as H5; [|done].
  destruct best as [|x l _] using rev_ind; [done|]. rewrite last_snoc. intros [= <-].
  split; [done|]. exists x. split; [set_solver|]. split; [done|].
  intros y [Hy|Hy]%elem_of_app.
  - apply ordered_app in Ho as (_ & _ & Hle). apply Hle; [done|left].
  - apply list_elem_of_singleton in Hy as ->. apply pyle_refl.
Qed.

(** A match that the fifth best reaches is covered. *)
Lemma covered_by_cutoff best r m :
  ordered _rank best → cutoff_of best = Some r → pyle r (_rank m) = true → covered best m.
Proof.
  intros Ho Hc Hr. destruct (cutoff_spec best r Ho Hc) as (H5 & x & Hx & -> & Hle).
  destruct (decide (m = x)) as [->|Hne]; [by left|]. right. split; [done|].
  intros y Hy. apply pyle_lt_trans with (_rank x); [by apply Hle|].
  apply pylt_spec. split; [done|]. intros Heq%rank_inj. by subst.
Qed.

(** The candidates of a visit: the best so far and what the node shows. *)
Lemma visit_best best p :
  best_ok best → entry_ok p →
  let shown := top (pe_node p) ++ option_list (terminal (pe_node p)) in
  let best' := ranked (add_candidates blocked shown (dict_of best)) in
  best_ok best' ∧ (∀ m, covered best m → covered best' m) ∧
  ∀ m, m ∈ shown → allowed blocked m → covered best' m.
Proof.
  intros [Ho Hnd Hlen Hsub] (Hok & Hndm & _ & HinU) shown best'.
  assert (dict_of best = best) as Hdict by (by apply dict_of_id, (subset_keys U)).
  revert best'. rewrite Hdict. intros best'.
  destruct (add_candidates_spec blocked shown best U HU Hsub) as [Hd Hcand].
  { intros m Hm Hal. apply HinU; [|done]. unfold shown in Hm. apply elem_of_app in Hm as [Hm|Hm].
    - apply ranked_sub. by rewrite <- node_ok_top.
    - rewrite matches_unfold. apply elem_of_app. by left. }
  { by apply (subset_keys U). }
  assert (NoDup (add_candidates blocked shown best)) as Hndc by (by apply (NoDup_fmap_1 fst)).
  assert (best_ok best') as Hbest.
  { split; [apply ranked_ordered|by apply ranked_NoDup|unfold best'; rewrite ranked_length; lia|].
    intros m Hm%ranked_sub. apply Hcand in Hm as [Hm|[Hm Hal]]; [by apply Hsub|].
    apply HinU; [|done]. unfold shown in Hm. apply elem_of_app in Hm as [Hm|Hm].
    - apply ranked_sub. by rewrite <- node_ok_top.
    - rewrite matches_unfold. apply elem_of_app. by left. }
  split; [done|]. split.
  - intros m. apply covered_refined; [done|apply Hbest|apply Hbest| |].
    + unfold best'. rewrite ranked_length.
      assert (length best ≤ length (add_candidates blocked shown best)); [|lia].
      apply submseteq_length, NoDup_submseteq; [done|]. intros x Hx. apply Hcand. by left.
    + intros x Hx. apply ranked_covers; [done|]. apply Hcand. by left.
  - intros m Hm Hal. apply ranked_covers; [done|]. apply Hcand. by right.
Qed.

(** The children left out are covered. *)
Lemma visit_children best' p m :
  best_ok best' → entry_ok p → m ∈ matches (pe_node p) → allowed blocked m →
  (m ∈ option_list (terminal (pe_node p)) → covered best' m) →
  covered best' m ∨ ∃ c child b, (c, child) ∈ children (pe_node p) ∧ m ∈ matches child ∧
    _available_bound child blocked = Some b ∧ beats (cutoff_of best') b.
Proof.
  intros Hbest (Hok & Hnd & _ & _) Hm Hal Hterm.
  destruct (matches_cases _ _ Hm) as [Ht|(c & child & Hc & Hmc)].
  { left. apply Hterm. rewrite Ht. left. }
  destruct (available_bound_le child blocked m) as (b & Hb & Hle);
    [by eapply node_ok_child|by eapply matches_child_NoDup|done|done|].
  destruct (cutoff_of best') as [r|] eqn:Hr; cycle 1.
  { right. by exists c, child, b. }
  destruct (pylt b r) eqn:Hbr; [right; by exists c, child, b|]. left.
  eapply covered_by_cutoff; [apply Hbest|exact Hr|]. apply pylt_false in Hbr.
  by eapply pyle_trans.
Qed.

Lemma heap_min p pending q :
  ordered pending_key (p :: pending) → q ∈ p :: pending → pyle (pe_bound p) (pe_bound q) = true.
Proof.
  intros Ho Hq. pose proof (ordered_head_min _ _ _ _ Ho Hq) as Hle.
  apply pair_pyle in Hle as [Hlt|[Heq _]]; [by apply pylt_le|]. simpl in Heq. rewrite Heq. apply pyle_refl.
Qed.

Lemma filter_loop_spec fuel pending s best :
  (∀ m, m ∈ U → allowed blocked m) → search_inv pending best → pend_size pending ≤ fuel →
  filter_loop fuel blocked pending s best = Ok (ranked U).
Proof.
  intros Hallowed. revert pending s best. induction fuel as [|fuel IH]; intros pending s best Hinv Hfuel.
  { destruct pending as [|[? ? [? ? ?]] pending]; [|unfold pend_size in Hfuel; simpl in Hfuel; lia].
    simpl. f_equal. destruct Hinv as (_ & _ & [? ? ? ?] & Hcov).
    apply ranked_covered; try done; [by apply (NoDup_fmap_1 fst)|].
    intros m Hm. destruct (Hcov m Hm) as [|(p & Hp%not_elem_of_nil & _)]; done. }
  destruct Hinv as (Ho & Hp & Hb & Hcov). destruct pending as [|p pending].
  { simpl. f_equal. destruct Hb. apply ranked_covered; try done; [by apply (NoDup_fmap_1 fst)|].
    intros m Hm. destruct (Hcov m Hm) as [|(p & Hp'%not_elem_of_nil & _)]; done. }
  cbn [filter_loop heappop]. destruct (match cutoff_of best with Some _ => _ | None => _ end) eqn:Hstop.
  - destruct (cutoff_of best) as [r|] eqn:Hr; [|done]. f_equal. destruct Hb as [Hb1 Hb2 Hb3 Hb4].
    apply ranked_covered; try done; [by apply (NoDup_fmap_1 fst)|]. intros m Hm.
    destruct (Hcov m Hm) as [|(q & Hq & Hmq)]; [done|].
    destruct (Hp q Hq) as (Hok & Hnd & Hbound & _).
    destruct (available_bound_le _ blocked m Hok Hnd Hmq (Hallowed m Hm)) as (b & Heq & Hle).
    rewrite Hbound in Heq. injection Heq as <-. apply (covered_by_cutoff best r); [done..|].
    eapply pyle_trans; [exact Hstop|]. eapply pyle_trans; [by eapply heap_min|done].
  - assert (entry_ok p) as Hep by (apply Hp; left).
    destruct (visit_best best p Hb Hep) as (Hb' & Hold & Hshown).
    set (best' := ranked (add_candidates _ _ _)) in *.
    pose proof (push_children_spec blocked (cutoff_of best') (children (pe_node p)) pending s
      (proj1 (proj1 (ordered_cons _ _ _) Ho))) as Hpush.
    destruct (push_children _ _ _ _ _) as [pending' s']. destruct Hpush as (P1 & P2 & P3 & P4 & P5).
    apply IH.
    + split; [done|]. split; [|split; [done|]].
      * intros q [Hq|(c & child & Hc & <- & Hbd)]%P2; [apply Hp; by right|].
        destruct Hep as (Hok & Hnd & _ & Hsub). split; [by eapply node_ok_child|].
        split; [by eapply matches_child_NoDup|]. split; [done|].
        intros m Hm. apply Hsub. by eapply matches_child.
      * intros m Hm. destruct (Hcov m Hm) as [Hc|(q & [->|Hq]%elem_of_cons & Hmq)].
        { left. by apply Hold. }
        { destruct (visit_children best' p m Hb' Hep Hmq (Hallowed m Hm))
            as [|(c & child & b & Hc & Hmc & Hbd & Hbt)]; [|by left|].
          { intros Ht. apply Hshown; [apply elem_of_app; by right|by apply Hallowed]. }
          right. destruct (P4 c child b Hc Hbd Hbt) as (q & Hq & <-). by exists q. }
        { right. exists q. split; [by apply P3|done]. }
    + destruct p as [b sq [ch t tp]]. unfold pend_size in Hfuel, P5 |- *. simpl in *. lia.
Qed.
End search.

(** The search finds the best five allowed matches. *)
Lemma filtered_top_spec n blocked :
  node_ok n → NoDup (matches n).*1 →
  _filtered_top n blocked = Ok (ranked (filter (allowed blocked) (matches n))).
Proof.
  intros Hok Hnd. assert (NoDup (matches n)) as Hndm by (by apply (NoDup_fmap_1 fst)).
  set (U := filter (allowed blocked) (matches n)).
  assert (NoDup U.*1) as HU by (by apply NoDup_fmap_filter).
  assert (∀ m, m ∈ U → allowed blocked m) as Hal by (intros m Hm; apply list_elem_of_filter in Hm; tauto).
  assert (best_ok U []) as Hempty.
  { split; [constructor|constructor|simpl; lia|by intros m ?%not_elem_of_nil]. }
  unfold _filtered_top. destruct (_available_bound n blocked) as [b|] eqn:Hb.
  - apply (filter_loop_spec blocked U HU); [done| |].
    + split; [by repeat constructor|]. split; [|split; [done|]].
      * intros p ->%list_elem_of_singleton. split; [done|]. split; [done|]. split; [done|].
        intros m Hm Ha. by apply list_elem_of_filter.
      * intros m [_ Hm]%list_elem_of_filter. right. eexists. split; [left|done].
    + unfold pend_size. simpl. lia.
  - apply (filter_loop_spec blocked U HU); [done| |unfold pend_size; simpl; lia].
    split; [constructor|]. split; [by intros p ?%not_elem_of_nil|]. split; [done|].
    intros m [Ha Hm]%list_elem_of_filter.
    destruct (available_bound_le n blocked m Hok Hndm Hm Ha) as (b & ? & _). congruence.
Qed.

(** ** The builder *)

Fixpoint builder_induction (P : _BuilderNode → Prop)
    (Hstep : ∀ ch term, Forall (λ p, P p.2) ch → P (mk_builder ch term)) (b : _BuilderNode) : P b :=
  match b with
  | mk_builder ch term =>
      Hstep ch term
        ((fix go (l : list (Ascii.ascii * _BuilderNode)) : Forall (λ p, P p.2) l :=
            match l with
            | [] => List.Forall_nil _
            | p :: l' => List.Forall_cons _ p l' (builder_induction P Hstep p.2) (go l')
            end) ch)
  end.

Fixpoint bmatches (b : _BuilderNode) : list Match :=
  match b with mk_builder ch term => option_list term ++ concat (map (λ p, bmatches p.2) ch) end.

Fixpoint bdescend (b : _BuilderNode) (prefix : chars) : option _BuilderNode :=
  match prefix with
  | [] => Some b
  | c :: prefix' => match dget c (b_children b) with None => None | Some b' => bdescend b' prefix' end
  end.

(** What a builder holds below a prefix, and at it. *)
Definition bmatches_at (b : _BuilderNode) (prefix : chars) : list Match :=
  match bdescend b prefix with Some b' => bmatches b' | None => [] end.
Definition bterminal_at (b : _BuilderNode) (query : chars) : option Match :=
  match bdescend b query with Some b' => b_terminal b' | None => None end.

Lemma map_ext_Forall {A B} (f g : A → B) l : Forall (λ x, f x = g x) l → map f l = map g l.
Proof. induction 1; simpl; congruence. Qed.

Lemma freeze_matches b : matches (_freeze b) = bmatches b.
Proof.
  induction b as [ch term IH] using builder_induction. simpl. do 2 f_equal.
  rewrite map_map. by apply map_ext_Forall.
Qed.

Lemma freeze_ok b : node_ok (_freeze b).
Proof.
  induction b as [ch term IH] using builder_induction. constructor.
  - simpl. rewrite !map_map. simpl.
    rewrite (map_ext_Forall _ (λ p, ranked (matches (_freeze p.2))) ch).
    + rewrite <- (map_map (λ p, matches (_freeze p.2)) ranked). apply ranked_concat.
    + eapply Forall_impl; [exact IH|]. intros p. apply node_ok_top.
  - simpl. apply Forall_fmap. exact IH.
Qed.

Lemma freeze_descend b prefix : descend (_freeze b) prefix = _freeze <$> bdescend b prefix.
Proof.
  revert b. induction prefix as [|c prefix IH]; intros [ch term]; simpl; [done|].
  rewrite dget_map. destruct (dget c ch); simpl; [apply IH|done].
Qed.

Lemma bdescend_empty c prefix : bdescend empty_builder (c :: prefix) = None.
Proof. done. Qed.

Lemma bmatches_at_empty prefix : bmatches_at empty_builder prefix = [].
Proof. by destruct prefix. Qed.

Lemma bterminal_at_empty prefix : bterminal_at empty_builder prefix = None.
Proof. by destruct prefix. Qed.

Lemma concat_dset (c : Ascii.ascii) (x : _BuilderNode) ch item :
  bmatches x ≡ₚ item :: bmatches (dget_or empty_builder c ch) →
  concat (map (λ p, bmatches p.2) (dset c x ch)) ≡ₚ item :: concat (map (λ p, bmatches p.2) ch).
Proof.
  unfold dget_or. induction ch as [|[c' y] ch IH]; simpl; intros Hx.
  - by rewrite app_nil_r.
  - case_decide as Hc; simpl; [by rewrite Hx|]. rewrite IH by done. symmetry. apply Permutation_middle.
Qed.

Lemma at_child b c x prefix :
  bmatches_at (mk_builder (dset c x (b_children b)) (b_terminal b)) (c :: prefix) = bmatches_at x prefix ∧
  bterminal_at (mk_builder (dset c x (b_children b)) (b_terminal b)) (c :: prefix) = bterminal_at x prefix.
Proof. unfold bmatches_at, bterminal_at. simpl. by rewrite dget_dset_eq. Qed.

Lemma at_dget_or b c prefix :
  bmatches_at b (c :: prefix) = bmatches_at (dget_or empty_builder c (b_children b)) prefix ∧
  bterminal_at b (c :: prefix) = bterminal_at (dget_or empty_builder c (b_children b)) prefix.
Proof.
  unfold dget_or. destruct (dget c (b_children b)) as [y|] eqn:Hy.
  - unfold bmatches_at, bterminal_at. simpl. by rewrite Hy.
  - rewrite bmatches_at_empty, bterminal_at_empty. unfold bmatches_at, bterminal_at. simpl. by rewrite Hy.
Qed.

Lemma at_other b c c' x prefix :
  c ≠ c' →
  bmatches_at (mk_builder (dset c x (b_children b)) (b_terminal b)) (c' :: prefix) = bmatches_at b (c' :: prefix) ∧
  bterminal_at (mk_builder (dset c x (b_children b)) (b_terminal b)) (c' :: prefix) = bterminal_at b (c' :: prefix).
Proof. intros Hne. unfold bmatches_at, bterminal_at. simpl. by rewrite dget_dset_ne. Qed.

(** An insertion fails exactly on a query that is there, and otherwise adds
    its item below each of its prefixes and nowhere else. *)
Lemma insert_query_spec q item b :
  match insert_query q item b with
  | Raise e => e = ValueError ∧ is_Some (bterminal_at b q)
  | Ok b' =>
      bterminal_at b q = None ∧
      (∀ p, bterminal_at b' p = if decide (p = q) then Some item else bterminal_at b p) ∧
      (∀ p, bmatches_at b' p ≡ₚ if decide (p `prefix_of` q) then item :: bmatches_at b p else bmatches_at b p)
  end.
Proof.
  revert b. induction q as [|c q IH]; intros b; simpl.
  - destruct (b_terminal b) as [m|] eqn:Ht; [split; [done|]; unfold bterminal_at; simpl; by rewrite Ht|].
    split; [done|]. split; intros [|c p].
    + rewrite decide_True by done. done.
    + rewrite decide_False by done. done.
    + rewrite decide_True by apply prefix_nil. unfold bmatches_at. simpl. destruct b. simpl in *. by subst.
    + rewrite decide_False by (intros Hp%prefix_nil_inv; done). done.
  - specialize (IH (dget_or empty_builder c (b_children b))).
    destruct (insert_query q item (dget_or empty_builder c (b_children b))) as [x|e]; cbn [rbind].
    + destruct IH as (IH1 & IH2 & IH3). split; [by rewrite (proj2 (at_dget_or b c q))|]. split.
      * intros [|c' p]; [rewrite decide_False by done; done|].
        destruct (decide (c = c')) as [<-|Hne].
        -- rewrite (proj2 (at_child b c x p)), IH2, (proj2 (at_dget_or b c p)).
           destruct (decide (p = q)); [rewrite decide_True by congruence; done|].
           rewrite decide_False by congruence. done.
        -- rewrite (proj2 (at_other b c c' x p Hne)), decide_False by congruence. done.
      * intros [|c' p].
        -- rewrite decide_True by apply prefix_nil. unfold bmatches_at. simpl.
           specialize (IH3 []). rewrite decide_True in IH3 by apply prefix_nil.
           unfold bmatches_at in IH3. simpl in IH3. rewrite (concat_dset c x _ item IH3).
           destruct b as [ch [m|]]; simpl; [apply Permutation_swap|done].
        -- destruct (decide (c = c')) as [<-|Hne].
           ++ rewrite (proj1 (at_child b c x p)), (proj1 (at_dget_or b c p)), IH3.
              destruct (decide (p `prefix_of` q)).
              ** rewrite decide_True by (by apply prefix_cons). done.
              ** rewrite decide_False by (intros Hp%prefix_cons_inv_2; done). done.
           ++ rewrite (proj1 (at_other b c c' x p Hne)), decide_False; [done|].
              intros Hp%prefix_cons_inv_1. done.
    + by rewrite (proj2 (at_dget_or b c q)).
Qed.

Definition has_prefix (p : chars) (m : Match) : Prop := p `prefix_of` String.list_ascii_of_string m.1.
#[export] Instance has_prefix_dec p m : Decision (has_prefix p m).
Proof. unfold has_prefix. apply _. Defined.

(** The builder of a list of matches. *)
Definition represents (b : _BuilderNode) (items : list Match) : Prop :=
  (∀ q m, bterminal_at b q = Some m ↔ m ∈ items ∧ String.list_ascii_of_string m.1 = q) ∧
  ∀ p, bmatches_at b p ≡ₚ filter (has_prefix p) items.

(** A cache without blocked entries already is the answer. *)
Lemma unblocked_top blocked l :
  NoDup l.*1 → existsb (is_blocked blocked) (ranked l) = false →
  ranked l = ranked (filter (allowed blocked) l).
Proof.
  intros Hnd Hex. rewrite existsb_false in Hex. apply (NoDup_fmap_1 fst) in Hnd.
  apply ranked_covered.
  - apply ranked_ordered.
  - by apply ranked_NoDup.
  - by apply NoDup_filter.
  - rewrite ranked_length. lia.
  - intros m Hm. apply list_elem_of_filter. split; [by apply is_blocked_spec, Hex|by apply ranked_sub].
  - intros m [_ Hm]%list_elem_of_filter. by apply ranked_covers.
Qed.

(** What [Trie] accepts. *)
Definition valid_item (m : Match) : Prop := normalize false m.1 = Ok m.1 ∧ (0 < m.2)%Z.

Lemma normalize_error e s x : normalize e s = Raise x → x = ValueError.
Proof.
  unfold normalize. destruct (200 <? _)%nat; [by intros [= <-]|].
  repeat (case_match; try done); by intros [= <-].
Qed.

Lemma list_of_string_inj s t : String.list_ascii_of_string s = String.list_ascii_of_string t → s = t.
Proof. intros Heq. by rewrite <- (string_list s), Heq, string_list. Qed.

Lemma build_spec rest items b :
  represents b items → NoDup items.*1 →
  match build rest b with
  | Ok b' => represents b' (reverse rest ++ items) ∧ NoDup (reverse rest ++ items).*1 ∧ Forall valid_item rest
  | Raise e => e = ValueError ∧ ¬ (NoDup (reverse rest ++ items).*1 ∧ Forall valid_item rest)
  end.
Proof.
  revert items b. induction rest as [|[q v] rest IH]; intros items b [Ht Hm] Hnd; simpl; [done|].
  rewrite reverse_cons, <- app_assoc. simpl. unfold raise_if.
  assert (∀ P : Prop, ¬ valid_item (q, v) → ¬ (P ∧ Forall valid_item ((q, v) :: rest))) as Hbad.
  { intros P Hn [_ Hf]. by apply Forall_cons in Hf as [? _]. }
  destruct (normalize false q) as [n|e] eqn:Hq; cbn [rbind].
  2: { split; [by eapply normalize_error|]. apply Hbad. intros [H _]. simpl in H. congruence. }
  destruct (bool_decide_reflect (n = q)) as [->|Hn]; simpl.
  2: { split; [done|]. apply Hbad. intros [H _]. simpl in H. congruence. }
  destruct (Z.leb_spec v 0); simpl.
  { split; [done|]. apply Hbad. intros [_ H']. simpl in H'. lia. }
  pose proof (insert_query_spec (String.list_ascii_of_string q) (q, v) b) as Hins.
  destruct (insert_query _ _ b) as [b1|e]; cbn [rbind].
  - destruct Hins as (H1 & H2 & H3).
    assert (∀ m, m ∈ items → m.1 ≠ q) as Hfresh.
    { intros m Hin Heq. assert (bterminal_at b (String.list_ascii_of_string q) = Some m) by (apply Ht; by subst).
      congruence. }
    assert (represents b1 ((q, v) :: items)) as Hrep.
    { split.
      - intros p m. rewrite H2, elem_of_cons. case_decide as Hp.
        + subst p. split; [intros [= <-]; auto|]. intros [[->|Hin] Heq]; [done|].
          apply list_of_string_inj in Heq. by destruct (Hfresh m Hin).
        + rewrite Ht. split; [tauto|]. intros [[->|Hin] Heq]; [done|auto].
      - intros p. rewrite H3, filter_cons. destruct (decide (has_prefix p (q, v))) as [Hp|Hp].
        + rewrite decide_True by exact Hp. by rewrite Hm.
        + rewrite decide_False by exact Hp. apply Hm. }
    assert (NoDup ((q, v) :: items).*1) as Hnd1.
    { rewrite fmap_cons. apply NoDup_cons. split; [|done].
      intros (m & Heq & Hin)%list_elem_of_fmap. by destruct (Hfresh m Hin). }
    specialize (IH _ _ Hrep Hnd1). destruct (build rest b1) as [b2|e].
    + destruct IH as (A & B & C). split; [done|]. split; [done|]. by constructor.
    + destruct IH as [-> Hno]. split; [done|]. intros [A B]. apply Hno. split; [done|].
      by apply Forall_cons in B as [_ ?].
  - destruct Hins as [-> [m Hsome]]. split; [done|]. intros [A _].
    apply Ht in Hsome as [Hin Heq%list_of_string_inj].
    rewrite fmap_app, fmap_cons in A. apply NoDup_app in A as (_ & _ & A). apply NoDup_cons in A as [A _].
    apply A. simpl. rewrite <- Heq. by apply list_elem_of_fmap_2.
Qed.

(** C38: a trie is built exactly from distinct normalised queries with positive
    counts, and then a suggestion for any prefix and any set of blocked
    queries, cached or refilled by the bounded search, is the best five, by
    count and then alphabetically, of the allowed queries with that prefix. *)
Theorem trie_suggest_best (frequencies : list Match) :
  match Trie frequencies with
  | Raise e => e = ValueError ∧ ¬ (NoDup frequencies.*1 ∧ Forall valid_item frequencies)
  | Ok root =>
      NoDup frequencies.*1 ∧ Forall valid_item frequencies ∧
      ∀ prefix blocked, suggest root prefix blocked =
        let* p := normalize true prefix in
        Ok (if bool_decide (p = EmptyString) then []
            else ranked (filter (λ m, allowed blocked m ∧ has_prefix (String.list_ascii_of_string p) m)
                           frequencies))
  end.
Proof.
  pose proof (build_spec frequencies [] empty_builder) as Hbuild. unfold Trie. rewrite app_nil_r in Hbuild.
  assert (NoDup (reverse frequencies).*1 ↔ NoDup frequencies.*1) as Hrev by (by rewrite reverse_Permutation).
  assert (represents empty_builder []) as Hempty.
  { split; [|intros p; by rewrite bmatches_at_empty]. intros q m.
    rewrite bterminal_at_empty, elem_of_nil. naive_solver. }
  specialize (Hbuild Hempty (NoDup_nil_2)).
  destruct (build frequencies empty_builder) as [b|e]; cbn [rbind]; rewrite Hrev in Hbuild; [|done].
  destruct Hbuild as ([_ Hm] & Hnd & Hval). split; [done|]. split; [done|]. intros prefix blocked.
  unfold suggest. destruct (normalize true prefix) as [p|e]; cbn [rbind]; [|done].
  case_bool_decide; [done|]. set (cs := String.list_ascii_of_string p).
  specialize (Hm cs). rewrite reverse_Permutation in Hm.
  rewrite freeze_descend. unfold bmatches_at in Hm.
  rewrite <- list_filter_filter.
  destruct (bdescend b cs) as [b'|]; cbn [fmap option_fmap option_map]; cycle 1.
  { symmetry in Hm. apply Permutation_nil_r in Hm. by rewrite Hm. }
  rewrite <- freeze_matches in Hm.
  assert (NoDup (matches (_freeze b')).*1) as Hnd'.
  { rewrite Hm. by apply NoDup_fmap_filter. }
  rewrite (ranked_perm _ (filter (allowed blocked) (matches (_freeze b')))) by (by rewrite Hm).
  destruct (existsb (is_blocked blocked) (top (_freeze b'))) eqn:Hex.
  - apply filtered_top_spec; [apply freeze_ok|done].
  - f_equal. rewrite (node_ok_top _ (freeze_ok b')) in Hex |- *. by apply unblocked_top.
Qed.

(** ** Normal forms *)

Definition ends_in_space (l : chars) : bool :=
  match last l with Some c => isspace c | None => false end.

Lemma letter_facts c : is_letter c = true → isspace c = false ∧ lower c = c.
Proof.
  unfold is_letter, isspace, lower. intros [H1%N.leb_le H2%N.leb_le]%andb_true_iff. split.
  - rewrite (proj2 (N.leb_gt _ 13)), (proj2 (N.leb_gt _ 32)) by lia. by rewrite !andb_false_r.
  - by rewrite (proj2 (N.leb_gt _ 90)), andb_false_r by lia.
Qed.

Lemma fullmatch_lower trail inw l : fullmatch trail inw l = true → lower <$> l = l.
Proof.
  revert inw. induction l as [|c l IH]; intros inw; [done|]. rewrite fmap_cons. cbn [fullmatch].
  destruct (is_letter c) eqn:Hc.
  - intros Hl%IH. by rewrite (proj2 (letter_facts c Hc)), Hl.
  - case_bool_decide as Hs; [|done]. destruct inw; [|done]. cbn [andb]. subst.
    destruct l as [|c' l]; [done|]. intros Hl%IH. by rewrite Hl.
Qed.

Lemma join_cons w ws : ws ≠ [] → join_words (w :: ws) = w ++ SPACE :: join_words ws.
Proof. by destruct ws. Qed.

(** Splitting a normal form and joining it back loses only the final space. *)
Lemma fullmatch_split trail inw word l :
  fullmatch trail inw l = true → (inw = true ↔ word ≠ []) →
  split_words word l ≠ [] ∧
  join_words (split_words word l) ++ (if ends_in_space l then [SPACE] else []) = word ++ l ∧
  (ends_in_space l = true → trail = true).
Proof.
  revert inw word. induction l as [|c l IH]; intros inw word; simpl.
  { intros -> Hw. destruct word as [|x word]; [by destruct (proj1 Hw eq_refl)|]. simpl. by rewrite !app_nil_r. }
  destruct (is_letter c) eqn:Hc.
  - intros Hl Hw. destruct (letter_facts c Hc) as [Hsp _]. rewrite Hsp.
    destruct (IH true (word ++ [c]) Hl) as (H1 & H2 & H3); [by destruct word|].
    assert (ends_in_space (c :: l) = ends_in_space l) as ->
      by (destruct l; [unfold ends_in_space; simpl; by rewrite Hsp|done]).
    rewrite H2, <- app_assoc. done.
  - case_bool_decide as Hs; [|done]. destruct inw; [|done]. simpl. subst c. intros Hl Hw.
    assert (word ≠ []) as Hword by tauto. assert (emit word = [word]) as -> by (by destruct word).
    destruct l as [|c' l]; [simpl; by rewrite Hl|].
    destruct (IH false [] Hl) as (H1 & H2 & H3); [done|].
    change (isspace SPACE) with true. cbn iota. cbn [app]. rewrite join_cons by done.
    change (ends_in_space (SPACE :: c' :: l)) with (ends_in_space (c' :: l)).
    rewrite <- app_assoc. cbn [app]. rewrite H2. done.
Qed.

(** Normalisation is idempotent: what it returns is empty or at most fifty
    characters of lower-case words separated by single spaces, with a final
    space only in a prefix, and normalising it again changes nothing. *)
Theorem normalize_canonical (empty : bool) (value normal : string) :
  normalize empty value = Ok normal →
  normalize empty normal = Ok normal ∧
  (normal = EmptyString ∧ empty = true ∨
   fullmatch empty false (String.list_ascii_of_string normal) = true ∧ String.length normal ≤ 50).
Proof.
  intros Hn. assert (normal = EmptyString ∧ empty = true ∨
    fullmatch empty false (String.list_ascii_of_string normal) = true ∧ String.length normal ≤ 50) as Hform.
  { unfold normalize in Hn. destruct (200 <? _)%nat; [done|].
    set (v := if _ && _ then _ else _) in Hn. case_bool_decide as Hv.
    - destruct empty; [|done]. injection Hn as <-. by left.
    - destruct (50 <? length v) eqn:Hlen; [done|]. destruct (fullmatch empty false v) eqn:Hf; [|done].
      simpl in Hn. injection Hn as <-. right. rewrite string_length, list_string.
      apply Nat.ltb_ge in Hlen. done. }
  split; [|done]. clear Hn. destruct Hform as [[-> ->]|[Hf Hlen]]; [done|].
  unfold normalize. rewrite string_length in Hlen. set (l := String.list_ascii_of_string normal) in *.
  rewrite (proj2 (Nat.ltb_ge 200 _)) by lia. rewrite (fullmatch_lower _ _ _ Hf).
  destruct (fullmatch_split empty false [] l Hf) as (H1 & H2 & H3); [done|]. simpl in H2.
  fold (ends_in_space l).
  assert (join_words (split_words [] l) ≠ []) as Hne.
  { intros Hj. rewrite Hj in H2. simpl in H2. destruct (ends_in_space l); [|by rewrite <- H2 in Hf].
    rewrite <- H2 in Hf. done. }
  rewrite (bool_decide_false (join_words (split_words [] l) = [])) by done. cbn [negb andb].
  assert ((if empty && ends_in_space l then join_words (split_words [] l) ++ [SPACE]
           else join_words (split_words [] l)) = l) as ->.
  { destruct (ends_in_space l) eqn:He.
    - by rewrite (H3 eq_refl).
    - by rewrite andb_false_r, app_nil_r in * . }
  rewrite bool_decide_false by (intros Hl; by rewrite Hl in Hf).
  rewrite (proj2 (Nat.ltb_ge 50 _)), Hf by lia. simpl. unfold l. by rewrite string_list.
Qed.

Lemma normalize_canonical_witness :
  normalize true "  New   YORK ci " = Ok "new york ci " ∧ normalize true "new york ci " = Ok "new york ci ".
Proof.
  split; [reflexivity|]. apply (normalize_canonical true "  New   YORK ci "). reflexivity.
Defined.
