(* ===== verification/Checks.v ===== *)
(** * Checks of fields

    The checks of identifiers, integers and texts that the exchange, the wallet,
    the hotel and the payments share: their common.py hold the same functions. *)
From Stdlib Require Import Ascii.
From S2P Require Import Prelude PyList.
Local Open Scope Z_scope.

(** The pattern [[A-Za-z0-9_-]{1,80}]. *)
Definition id_char (c : Ascii.ascii) : bool :=
  let n := Z.of_N (N_of_ascii c) in
  ((65 <=? n) && (n <=? 90)) || ((97 <=? n) && (n <=? 122)) || ((48 <=? n) && (n <=? 57))
  || (n =? 95) || (n =? 45).
Definition identifier (value : string) : bool :=
  let n := String.length value in
  (1 <=? n)%nat && (n <=? 80)%nat && forallb id_char (String.list_ascii_of_string value).

Definition integer (value minimum maximum : Z) : bool := (minimum <=? value) && (value <=? maximum).
Definition MAX_INTEGER : Z := 10 ^ 12.

Lemma raise_if_Ok {A} c e (k : result A) x : raise_if c e k = Ok x → c = false ∧ k = Ok x.
Proof. by destruct c. Qed.

Lemma raise_if_Raise {A} c e (k : result A) e' : raise_if c e k = Raise e' → e' = e ∨ c = false ∧ k = Raise e'.
Proof. destruct c; simpl; [intros [= <-]; by left|by right]. Qed.

Lemma integer_spec v lo hi : integer v lo hi = true ↔ lo <= v <= hi.
Proof. unfold integer. lia. Qed.

(** ** Characters of UTF-8 texts *)

(** The characters of a text, by its UTF-8 bytes. *)
Definition text_length (s : string) : Z :=
  Z.of_nat (length (List.filter (λ c, let n := N_of_ascii c in negb ((128 <=? Z.of_N n) && (Z.of_N n <=? 191))) (String.list_ascii_of_string s))).

(** [message[:300]], on the characters of UTF-8. *)
Fixpoint take_chars (n : nat) (l : list ascii) : list ascii :=
  match l with
  | [] => []
  | c :: l' =>
      let k := Z.of_N (N_of_ascii c) in
      if (128 <=? k) && (k <=? 191) then c :: take_chars n l'
      else match n with O => [] | S m => c :: take_chars m l' end
  end.
Definition clip (message : string) : string := String.string_of_list_ascii (take_chars 300 (String.list_ascii_of_string message)).
