(* ===== verification/OrderBook.v ===== *)
(** * The order book of the exchange

    Models src/stock-exchange-system/src/stock_exchange/order_book.py: per
    symbol and side, price levels whose orders are a doubly linked FIFO through
    a dictionary of nodes, and a heap of prices that may hold stale ones.  The
    keys of the level dictionary are the decimal strings of the prices; they
    are modelled by the prices.  A call that raises returns no book: its caller
    works on a copy of the state, which it then drops. *)
From S2P Require Import Prelude PyList PyDict.
Local Open Scope Z_scope.

Inductive Side := BUY | SELL.
#[export] Instance side_eq_dec : EqDecision Side.
Proof. solve_decision. Defined.

Record Level := mk_level {
  head_id : option string;
  tail_id : option string;
  level_quantity : Z;
}.

Record Node := mk_node {
  previous : option string;
  next : option string;
  node_price : Z;
  node_quantity : Z;
}.

Record BookSide := mk_side {
  levels : dict Z Level;
  heap : list Z;
  nodes : dict string Node;
}.

Definition empty_side : BookSide := mk_side [] [] [].

(** The sign a side gives its prices in the heap. *)
Definition sign (side : Side) : Z := match side with BUY => -1 | SELL => 1 end.

(** [nodes[id]["next"] = v] and [nodes[id]["previous"] = v] *)
Definition set_next (id : string) (v : option string) (ns : dict string Node) : result (dict string Node) :=
  let* n := dlookup id ns in Ok (dset id (mk_node (previous n) v (node_price n) (node_quantity n)) ns).
Definition set_previous (id : string) (v : option string) (ns : dict string Node)
    : result (dict string Node) :=
  let* n := dlookup id ns in Ok (dset id (mk_node v (next n) (node_price n) (node_quantity n)) ns).

Definition add_order (side : Side) (s : BookSide) (id : string) (price remaining : Z) : result BookSide :=
  if dmem id (nodes s) then Raise ValueError
  else
    let '(lvls, hp) :=
      if dmem price (levels s) then (levels s, heap s)
      else (dset price (mk_level None None 0) (levels s), heappush (λ x, x) (price * sign side) (heap s)) in
    let* level := dlookup price lvls in
    let ns := dset id (mk_node (tail_id level) None price remaining) (nodes s) in
    let* ns := match tail_id level with None => Ok ns | Some p => set_next p (Some id) ns end in
    let hd := match tail_id level with None => Some id | Some _ => head_id level end in
    Ok (mk_side (dset price (mk_level hd (Some id) (level_quantity level + remaining)) lvls) hp ns).

(** The rebuilt heap: the prices of the levels, best first. *)
Definition compact_heap (side : Side) (lvls : dict Z Level) (hp : list Z) : list Z :=
  if (2 * length lvls + 8 <? length hp)%nat
  then heapify (λ x, x) ((λ price, price * sign side) <$> py_sorted (dkeys lvls)) else hp.

Definition remove_order (side : Side) (s : BookSide) (id : string) : result BookSide :=
  match dget id (nodes s) with
  | None => Ok s
  | Some node =>
      let ns := ddel id (nodes s) in
      let* level := dlookup (node_price node) (levels s) in
      let* ns := match previous node with None => Ok ns | Some p => set_next p (next node) ns end in
      let* ns := match next node with None => Ok ns | Some f => set_previous f (previous node) ns end in
      let hd := match previous node with None => next node | Some _ => head_id level end in
      let tl := match next node with None => previous node | Some _ => tail_id level end in
      let level' := mk_level hd tl (level_quantity level - node_quantity node) in
      let lvls := match hd with
                  | None => ddel (node_price node) (levels s)
                  | Some _ => dset (node_price node) level' (levels s)
                  end in
      Ok (mk_side lvls (compact_heap side lvls (heap s)) ns)
  end.

Definition consume_order (side : Side) (s : BookSide) (id : string) (quantity : Z) : result BookSide :=
  let* node := dlookup id (nodes s) in
  if quantity =? node_quantity node then remove_order side s id
  else if (0 <? quantity) && (quantity <? node_quantity node) then
    let* level := dlookup (node_price node) (levels s) in
    Ok (mk_side
          (dset (node_price node)
             (mk_level (head_id level) (tail_id level) (level_quantity level - quantity)) (levels s))
          (heap s)
          (dset id (mk_node (previous node) (next node) (node_price node) (node_quantity node - quantity))
             (nodes s)))
  else Raise ValueError.

(** The loop of [best]: stale prices are popped on the way. *)
Fixpoint best_loop (side : Side) (lvls : dict Z Level) (hp : list Z) : list Z * option string :=
  match hp with
  | [] => ([], None)
  | top :: hp' =>
      match dget (top * sign side) lvls with
      | Some level => (hp, head_id level)
      | None => best_loop side lvls hp'
      end
  end.

Definition best_order (side : Side) (s : BookSide) : BookSide * option string :=
  let '(hp, r) := best_loop side (levels s) (heap s) in (mk_side (levels s) hp (nodes s), r).

(** The displayed depth of a side. *)
Definition side_levels (s : BookSide) : dict Z Z := map (λ p, (p.1, level_quantity p.2)) (levels s).

(** ** The specification: the resting orders in order of arrival *)

Record entry := mk_entry {
  e_id : string;
  e_price : Z;
  e_quantity : Z;
}.

Definition at_price (p : Z) (l : list entry) : list entry := filter (λ e, e_price e = p) l.

Definition spec_remove (id : string) (l : list entry) : list entry := filter (λ e, e_id e ≠ id) l.

Definition spec_consume (id : string) (quantity : Z) (l : list entry) : list entry :=
  map (λ e, if decide (e_id e = id) then mk_entry id (e_price e) (e_quantity e - quantity) else e) l.

(** Price, then time: the head of a stable sort by price. *)
Definition by_priority (side : Side) (l : list entry) : list entry :=
  sort_by (λ e, e_price e * sign side) l.
Definition spec_best (side : Side) (l : list entry) : option string := e_id <$> head (by_priority side l).

(** *** Linked queues *)

Definition first_id (q : list entry) (after : option string) : option string :=
  match q with [] => after | e :: _ => Some (e_id e) end.
Fixpoint last_id (q : list entry) (before : option string) : option string :=
  match q with [] => before | e :: q' => last_id q' (Some (e_id e)) end.

(** The nodes of a queue at a price, between the identifiers around it. *)
Fixpoint chain (ns : dict string Node) (p : Z) (before : option string) (q : list entry)
    (after : option string) : Prop :=
  match q with
  | [] => True
  | e :: q' =>
      dget (e_id e) ns = Some (mk_node before (first_id q' after) p (e_quantity e)) ∧
      chain ns p (Some (e_id e)) q' after
  end.

Definition level_of (q : list entry) : option Level :=
  match q with
  | [] => None
  | _ => Some (mk_level (first_id q None) (last_id q None) (zsum e_quantity q))
  end.

Record side_rep (side : Side) (s : BookSide) (l : list entry) : Prop := {
  sr_ids : NoDup (e_id <$> l);
  sr_levels : ∀ p, dget p (levels s) = level_of (at_price p l);
  sr_levels_ok : dict_ok (levels s);
  sr_nodes_ok : dict_ok (nodes s);
  sr_chain : ∀ p, chain (nodes s) p None (at_price p l) None;
  sr_nodes : ∀ id, is_Some (dget id (nodes s)) → id ∈ e_id <$> l;
  sr_heap : ordered (λ x, x) (heap s);
  sr_prices : ∀ e, e ∈ l → e_price e * sign side ∈ heap s;
}.

(** ** Linked queues *)

Lemma first_id_app q1 q2 a : first_id (q1 ++ q2) a = first_id q1 (first_id q2 a).
Proof. by destruct q1. Qed.

Lemma last_id_app q1 q2 b : last_id (q1 ++ q2) b = last_id q2 (last_id q1 b).
Proof. revert b. induction q1 as [|e q1 IH]; intros b; simpl; [done|apply IH]. Qed.

Lemma last_id_cases q b : q = [] ∧ last_id q b = b ∨ ∃ q' e, q = q' ++ [e] ∧ last_id q b = Some (e_id e).
Proof.
  destruct q as [|e q _] using rev_ind; [by left|]. right. exists q, e. by rewrite last_id_app.
Qed.

Lemma chain_app ns p b q1 q2 a :
  chain ns p b (q1 ++ q2) a ↔ chain ns p b q1 (first_id q2 a) ∧ chain ns p (last_id q1 b) q2 a.
Proof.
  revert b. induction q1 as [|e q1 IH]; intros b; simpl; [tauto|]. rewrite IH, first_id_app. tauto.
Qed.

Lemma chain_frame ns ns' p b q a :
  (∀ e, e ∈ q → dget (e_id e) ns' = dget (e_id e) ns) → chain ns p b q a → chain ns' p b q a.
Proof.
  revert b. induction q as [|e q IH]; intros b Hf; simpl; [done|]. intros [H1 H2].
  rewrite Hf by left. split; [done|]. apply IH; [|done]. intros x Hx. apply Hf. by right.
Qed.

(** What a change of links leaves alone: the keys, and the nodes outside. *)
Definition links_changed (ids : list string) (ns ns' : dict string Node) : Prop :=
  (dict_ok ns → dict_ok ns') ∧ (∀ k, is_Some (dget k ns') ↔ is_Some (dget k ns)) ∧
  ∀ k, k ∉ ids → dget k ns' = dget k ns.

Lemma links_same ids ns : links_changed ids ns ns.
Proof. done. Qed.

Lemma links_dset ids x n n' ns : dget x ns = Some n → x ∈ ids → links_changed ids ns (dset x n' ns).
Proof.
  intros Hn Hx. split; [apply dset_ok|]. split.
  - intros k. rewrite dget_dset. case_decide; [subst; rewrite Hn; by split|done].
  - intros k Hk. apply dget_dset_ne. intros ->. done.
Qed.

Lemma relink_next ns p q a v :
  NoDup (e_id <$> q) → chain ns p None q a →
  ∃ ns', match last_id q None with None => Ok ns | Some x => set_next x v ns end = Ok ns' ∧
    chain ns' p None q v ∧ links_changed (e_id <$> q) ns ns'.
Proof.
  intros Hnd Hc. destruct (last_id_cases q None) as [[-> ->]|(q' & e & -> & ->)].
  { exists ns. split; [done|]. split; [done|apply links_same]. }
  apply chain_app in Hc as [H1 [H2 _]]. simpl in H1, H2. unfold set_next, dlookup. rewrite H2. simpl.
  eexists. split; [done|]. rewrite fmap_app in Hnd |- *. split; [|eapply links_dset; [done|set_solver]].
  apply chain_app. split; [|simpl; by rewrite dget_dset_eq]. eapply chain_frame; [|exact H1].
  intros x Hx. apply dget_dset_ne. intros Heq. apply NoDup_app in Hnd as (_ & Hd & _).
  apply (Hd (e_id x)); [by apply list_elem_of_fmap_2|]. rewrite <- Heq. left.
Qed.

Lemma relink_previous ns p b q v :
  NoDup (e_id <$> q) → chain ns p b q None →
  ∃ ns', match first_id q None with None => Ok ns | Some x => set_previous x v ns end = Ok ns' ∧
    chain ns' p v q None ∧ links_changed (e_id <$> q) ns ns'.
Proof.
  intros Hnd Hc. destruct q as [|e q]; simpl in *.
  { exists ns. split; [done|]. split; [done|apply links_same]. }
  destruct Hc as [H1 H2]. unfold set_previous, dlookup. rewrite H1. simpl. eexists. split; [done|].
  split; [|eapply links_dset; [done|left]]. rewrite dget_dset_eq. split; [done|].
  eapply chain_frame; [|exact H2]. intros x Hx. apply dget_dset_ne. intros Heq.
  apply NoDup_cons in Hnd as [Hn _]. apply Hn. rewrite Heq. by apply list_elem_of_fmap_2.
Qed.

(** ** The operations *)

Lemma at_price_app p l1 l2 : at_price p (l1 ++ l2) = at_price p l1 ++ at_price p l2.
Proof. apply filter_app. Qed.

Lemma at_price_elem p l e : e ∈ at_price p l ↔ e_price e = p ∧ e ∈ l.
Proof. unfold at_price. by rewrite list_elem_of_filter. Qed.

Lemma at_price_NoDup p l : NoDup (e_id <$> l) → NoDup (e_id <$> at_price p l).
Proof. apply NoDup_fmap_filter. Qed.

Lemma same_id l e1 e2 : NoDup (e_id <$> l) → e1 ∈ l → e2 ∈ l → e_id e1 = e_id e2 → e1 = e2.
Proof.
  intros Hnd H1 H2 Heq. apply list_elem_of_lookup in H1 as [i Hi], H2 as [j Hj].
  assert (i = j) as ->; [|congruence]. eapply (NoDup_lookup _ _ _ (e_id e1) Hnd);
    rewrite list_lookup_fmap; [by rewrite Hi|by rewrite Hj, Heq].
Qed.

Lemma level_of_app q e :
  level_of (q ++ [e]) = Some (mk_level (first_id q (Some (e_id e))) (Some (e_id e)) (zsum e_quantity q + e_quantity e)).
Proof.
  unfold level_of. destruct (q ++ [e]) eqn:Heq; [by destruct q|]. rewrite <- Heq.
  rewrite first_id_app, last_id_app, zsum_app. simpl. by rewrite Z.add_0_r.
Qed.

Lemma level_of_None q : level_of q = None ↔ q = [].
Proof. by destruct q. Qed.

Lemma level_of_nonempty q :
  q ≠ [] → level_of q = Some (mk_level (first_id q None) (last_id q None) (zsum e_quantity q)).
Proof. by destruct q. Qed.

Section operations.
Context (side : Side) (s : BookSide) (l : list entry) (Hrep : side_rep side s l).

Lemma rep_node e : e ∈ l → ∃ q1 q2, at_price (e_price e) l = q1 ++ e :: q2 ∧
  dget (e_id e) (nodes s) = Some (mk_node (last_id q1 None) (first_id q2 None) (e_price e) (e_quantity e)).
Proof.
  intros He. assert (e ∈ at_price (e_price e) l) as Hin by (by apply at_price_elem).
  apply list_elem_of_split in Hin as (q1 & q2 & Hq). exists q1, q2. split; [done|].
  pose proof (sr_chain _ _ _ Hrep (e_price e)) as Hc. rewrite Hq in Hc.
  by apply chain_app in Hc as [_ [Hn _]].
Qed.

Lemma rep_member id : is_Some (dget id (nodes s)) ↔ id ∈ e_id <$> l.
Proof.
  split; [apply (sr_nodes _ _ _ Hrep)|]. intros (e & -> & He)%list_elem_of_fmap.
  destruct (rep_node e He) as (q1 & q2 & _ & ->). by eexists.
Qed.

(** Nodes of other prices are not touched. *)
Lemma other_price p p' e ns :
  p ≠ p' → links_changed (e_id <$> at_price p l) (nodes s) ns →
  e ∈ at_price p' l → dget (e_id e) ns = dget (e_id e) (nodes s).
Proof.
  intros Hne (_ & _ & Hf) [He1 He2]%at_price_elem. apply Hf.
  intros (x & Heq & [Hx1 Hx2]%at_price_elem)%list_elem_of_fmap. apply Hne.
  rewrite <- Hx1, <- He1. f_equal. symmetry. by apply (same_id l); [apply Hrep| | |].
Qed.

Lemma at_price_snoc p e : at_price p (l ++ [e]) = at_price p l ++ (if decide (e_price e = p) then [e] else []).
Proof. by rewrite at_price_app. Qed.

(** The levels and the heap after [add] made sure of its level. *)
Lemma ensure_level price :
  let lh := if dmem price (levels s) then (levels s, heap s)
            else (dset price (mk_level None None 0) (levels s), heappush (λ x, x) (price * sign side) (heap s)) in
  let q := at_price price l in
  dget price lh.1 = Some (mk_level (first_id q None) (last_id q None) (zsum e_quantity q)) ∧
  dict_ok lh.1 ∧ (∀ p, p ≠ price → dget p lh.1 = dget p (levels s)) ∧
  ordered (λ x, x) lh.2 ∧ price * sign side ∈ lh.2 ∧ ∀ x, x ∈ heap s → x ∈ lh.2.
Proof.
  intros lh q. pose proof (sr_levels _ _ _ Hrep price) as Hl. fold q in Hl.
  destruct (dmem price (levels s)) eqn:Hm; simpl in lh; unfold lh; simpl.
  - apply dmem_true in Hm as [v Hv]. rewrite Hl in Hv.
    destruct q as [|e q'] eqn:Hq; [done|]. split; [by rewrite Hl|].
    split; [apply Hrep|]. split; [done|]. split; [apply Hrep|]. split; [|done].
    assert (e ∈ at_price price l) as [<- He]%at_price_elem by (fold q; rewrite Hq; left).
    by apply (sr_prices _ _ _ Hrep).
  - apply dmem_false in Hm. rewrite Hl, level_of_None in Hm. rewrite Hm. rewrite dget_dset_eq.
    split; [done|]. split; [apply dset_ok, Hrep|]. split; [intros p Hne; by apply dget_dset_ne|].
    split; [apply insert_by_ordered, Hrep|]. split.
    + apply elem_of_insert_by. by left.
    + intros x Hx. apply elem_of_insert_by. by right.
Qed.

Lemma add_order_spec id price remaining :
  if decide (id ∈ e_id <$> l) then add_order side s id price remaining = Raise ValueError
  else ∃ s', add_order side s id price remaining = Ok s' ∧ side_rep side s' (l ++ [mk_entry id price remaining]).
Proof.
  unfold add_order. pose proof (rep_member id) as Hmem. case_decide as Hin.
  { destruct (dmem id (nodes s)) eqn:Hd; [done|]. apply dmem_false in Hd. apply Hmem in Hin as [? ?]. congruence. }
  assert (dmem id (nodes s) = false) as ->.
  { apply dmem_false. destruct (dget id (nodes s)) eqn:E; [|done]. exfalso. apply Hin, Hmem. by eexists. }
  pose proof (ensure_level price) as He. destruct (if dmem price (levels s) then _ else _) as [lvls hp].
  simpl in He. destruct He as (Hlv & Hlok & Hlo & Hho & Hhp & Hhs). unfold dlookup at 1. rewrite Hlv.
  cbn [rbind tail_id head_id level_quantity]. set (q := at_price price l) in *.
  set (e := mk_entry id price remaining).
  assert (NoDup (e_id <$> q)) as Hqnd by apply at_price_NoDup, Hrep.
  assert (chain (dset id (mk_node (last_id q None) None price remaining) (nodes s)) price None q None) as Hc0.
  { eapply chain_frame; [|apply (sr_chain _ _ _ Hrep price)]. intros x [_ Hx]%at_price_elem.
    apply dget_dset_ne. intros ->. apply Hin. by apply list_elem_of_fmap_2. }
  destruct (relink_next _ price q None (Some id) Hqnd Hc0) as (ns & -> & Hc & Hok & Hkeys & Hfr).
  cbn [rbind]. eexists. split; [done|].
  assert (id ∉ e_id <$> q) as Hidq.
  { intros (x & Heq & [_ Hx]%at_price_elem)%list_elem_of_fmap. apply Hin. rewrite Heq. by apply list_elem_of_fmap_2. }
  split; cbn [levels nodes heap].
  - rewrite fmap_app. apply NoDup_app. split; [apply Hrep|]. split; [|apply NoDup_singleton].
    intros x Hx ->%list_elem_of_singleton. done.
  - intros p. rewrite at_price_snoc, dget_dset. simpl. case_decide as Hp.
    + subst p. fold q. rewrite level_of_app. simpl.
      do 2 f_equal. destruct (last_id_cases q None) as [[-> ->]|(q' & x & -> & ->)]; [done|]. by destruct q'.
    + rewrite app_nil_r. rewrite Hlo by done. apply (sr_levels _ _ _ Hrep).
  - by apply dset_ok.
  - apply Hok, dset_ok, Hrep.
  - intros p. rewrite at_price_snoc. simpl. case_decide as Hp.
    + subst p. fold q. apply chain_app. split; [exact Hc|]. simpl. rewrite Hfr by done.
      by rewrite dget_dset_eq.
    + rewrite app_nil_r. eapply chain_frame; [|apply (sr_chain _ _ _ Hrep p)].
      intros x Hx. pose proof Hx as [Hxp Hxl]%at_price_elem. rewrite Hfr.
      * apply dget_dset_ne. intros ->. apply Hin. by apply list_elem_of_fmap_2.
      * intros (y & Heq & [Hyp Hyl]%at_price_elem)%list_elem_of_fmap. apply Hp.
        rewrite <- Hyp, <- Hxp. f_equal. symmetry. by apply (same_id l); [apply Hrep| | |].
  - intros k Hk%Hkeys. rewrite fmap_app, elem_of_app. rewrite dget_dset in Hk.
    case_decide; [right; subst; left|]. left. by apply (rep_member).
  - exact Hho.
  - intros x [Hx|Hx]%elem_of_app; [by apply Hhs, (sr_prices _ _ _ Hrep)|].
    apply list_elem_of_singleton in Hx as ->. exact Hhp.
Qed.

(** *** Removal *)

Lemma compact_heap_spec lvls hp :
  dict_ok lvls → ordered (λ x, x) hp → (∀ p, is_Some (dget p lvls) → p * sign side ∈ hp) →
  ordered (λ x, x) (compact_heap side lvls hp) ∧
  ∀ p, is_Some (dget p lvls) → p * sign side ∈ compact_heap side lvls hp.
Proof.
  intros Hok Ho Hp. unfold compact_heap. destruct (_ <? _)%nat; [|done]. split; [apply sort_by_ordered|].
  intros p Hs. apply elem_of_sort_by. apply (list_elem_of_fmap_2 (λ price, price * sign side)).
  rewrite py_sorted_perm. destruct Hs as [v Hv]. apply dget_Some_elem in Hv.
  by apply (list_elem_of_fmap_2 fst _ _ Hv).
Qed.

Lemma at_price_remove p id :
  at_price p (spec_remove id l) = filter (λ e, e_id e ≠ id) (at_price p l).
Proof.
  unfold at_price, spec_remove. rewrite !list_filter_filter. apply filter_ext_in. intros x _. tauto.
Qed.

Lemma remove_at e q1 q2 :
  e ∈ l → at_price (e_price e) l = q1 ++ e :: q2 →
  at_price (e_price e) (spec_remove (e_id e) l) = q1 ++ q2 ∧
  ∀ p, p ≠ e_price e → at_price p (spec_remove (e_id e) l) = at_price p l.
Proof.
  intros He Hq. pose proof (at_price_NoDup (e_price e) l (sr_ids _ _ _ Hrep)) as Hnd. split.
  - rewrite at_price_remove, Hq. rewrite Hq, fmap_app, fmap_cons in Hnd.
    apply NoDup_app in Hnd as (_ & Hd & Hnd). apply NoDup_cons in Hnd as [Hn _].
    rewrite filter_app, filter_cons_False by (intros Hx; by apply Hx). f_equal; apply filter_all.
    + intros x Hx Heq. apply (Hd (e_id x)); [by apply list_elem_of_fmap_2|]. rewrite Heq. left.
    + intros x Hx Heq. apply Hn. rewrite <- Heq. by apply list_elem_of_fmap_2.
  - intros p Hp. rewrite at_price_remove. apply filter_all. intros x [Hxp Hx]%at_price_elem Heq.
    apply Hp. rewrite <- Hxp. f_equal. by apply (same_id l); [apply Hrep| | |].
Qed.

Lemma spec_remove_elem id e : e ∈ spec_remove id l ↔ e ∈ l ∧ e_id e ≠ id.
Proof. unfold spec_remove. rewrite list_elem_of_filter. tauto. Qed.

(** Unlinking the entry between two parts of its queue. *)
Lemma unlink e q1 q2 :
  e ∈ l → at_price (e_price e) l = q1 ++ e :: q2 →
  ∃ ns1 ns2,
    match last_id q1 None with
    | None => Ok (ddel (e_id e) (nodes s)) | Some x => set_next x (first_id q2 None) (ddel (e_id e) (nodes s))
    end = Ok ns1 ∧
    match first_id q2 None with None => Ok ns1 | Some x => set_previous x (last_id q1 None) ns1 end = Ok ns2 ∧
    dict_ok ns2 ∧ (∀ k, is_Some (dget k ns2) ↔ k ≠ e_id e ∧ is_Some (dget k (nodes s))) ∧
    chain ns2 (e_price e) None (q1 ++ q2) None ∧
    ∀ k, k ∉ e_id <$> at_price (e_price e) l → dget k ns2 = dget k (nodes s).
Proof.
  intros He Hq. pose proof (at_price_NoDup (e_price e) l (sr_ids _ _ _ Hrep)) as Hnd.
  pose proof (sr_chain _ _ _ Hrep (e_price e)) as Hc. rewrite Hq in Hnd, Hc |- *.
  rewrite fmap_app, fmap_cons in Hnd. apply NoDup_app in Hnd as (Hnd1 & Hd & Hnd2).
  apply NoDup_cons in Hnd2 as [Hn Hnd2]. apply chain_app in Hc as [Hc1 [_ Hc2]]. simpl in Hc1.
  set (ns0 := ddel (e_id e) (nodes s)). assert (dict_ok ns0) as Hok0 by apply ddel_ok, Hrep.
  assert (chain ns0 (e_price e) None q1 (Some (e_id e))) as Hc1'.
  { eapply chain_frame; [|exact Hc1]. intros x Hx. apply dget_ddel_ne. intros Heq.
    apply (Hd (e_id x)); [by apply list_elem_of_fmap_2|]. rewrite <- Heq. left. }
  assert (chain ns0 (e_price e) (Some (e_id e)) q2 None) as Hc2'.
  { eapply chain_frame; [|exact Hc2]. intros x Hx. apply dget_ddel_ne. intros Heq.
    apply Hn. rewrite Heq. by apply list_elem_of_fmap_2. }
  destruct (relink_next ns0 _ q1 _ (first_id q2 None) Hnd1 Hc1') as (ns1 & Hs1 & Hk1 & Hok1 & Hkeys1 & Hf1).
  assert (chain ns1 (e_price e) (Some (e_id e)) q2 None) as Hc2''.
  { eapply chain_frame; [|exact Hc2']. intros x Hx. apply Hf1. intros Hin.
    apply (Hd _ Hin). right. by apply list_elem_of_fmap_2. }
  destruct (relink_previous ns1 _ _ q2 (last_id q1 None) Hnd2 Hc2'') as (ns2 & Hs2 & Hk2 & Hok2 & Hkeys2 & Hf2).
  exists ns1, ns2. split; [done|]. split; [done|]. split; [auto|]. split; [|split].
  - intros k. rewrite Hkeys2, Hkeys1. unfold ns0. rewrite dget_ddel by apply Hrep.
    case_decide as Hk; [subst; split; [by intros [? ?]|tauto]|]. split; [|tauto]. by split; [intros ->|].
  - apply chain_app. split; [|exact Hk2]. eapply chain_frame; [|exact Hk1].
    intros x Hx. apply Hf2. intros Hin. apply (Hd (e_id x)); [by apply list_elem_of_fmap_2|by right].
  - intros k Hk. rewrite fmap_app, fmap_cons, !elem_of_app, elem_of_cons in Hk.
    rewrite Hf2, Hf1 by tauto. unfold ns0. apply dget_ddel_ne. intros Heq. subst k. tauto.
Qed.

Lemma remove_order_absent id : id ∉ e_id <$> l → remove_order side s id = Ok s.
Proof.
  intros Hin. unfold remove_order. destruct (dget id (nodes s)) eqn:Hn; [|done].
  exfalso. apply Hin, rep_member. by eexists.
Qed.

Lemma remove_order_spec e :
  e ∈ l → ∃ s', remove_order side s (e_id e) = Ok s' ∧ side_rep side s' (spec_remove (e_id e) l).
Proof.
  intros He. destruct (rep_node e He) as (q1 & q2 & Hq & Hnode).
  destruct (unlink e q1 q2 He Hq) as (ns1 & ns2 & Hs1 & Hs2 & Hok & Hkeys & Hc & Hf).
  destruct (remove_at e q1 q2 He Hq) as [Hat Hother].
  pose proof (sr_levels _ _ _ Hrep (e_price e)) as Hlv. rewrite Hq in Hlv.
  unfold remove_order. rewrite Hnode. cbn [previous next node_price node_quantity]. unfold dlookup at 1.
  rewrite Hlv. destruct (level_of (q1 ++ e :: q2)) as [lv|] eqn:Hlev; [|by destruct q1].
  cbn [rbind]. rewrite Hs1. cbn [rbind]. rewrite Hs2. cbn [rbind].
  set (hd := match last_id q1 None with None => first_id q2 None | Some _ => head_id lv end).
  set (tl := match first_id q2 None with None => last_id q1 None | Some _ => tail_id lv end).
  set (lvls := match hd with None => _ | Some _ => _ end).
  assert (head_id lv = first_id (q1 ++ e :: q2) None ∧ tail_id lv = last_id (q1 ++ e :: q2) None ∧
    level_quantity lv = zsum e_quantity (q1 ++ e :: q2)) as (Hh & Ht & Hz).
  { unfold level_of in Hlev. destruct (q1 ++ e :: q2); [done|]. by injection Hlev as <-. }
  assert (hd = first_id (q1 ++ q2) None) as Hhd.
  { unfold hd. rewrite Hh. destruct (last_id_cases q1 None) as [[-> ->]|(q' & x & -> & ->)]; [done|].
    by destruct q'. }
  assert (tl = last_id (q1 ++ q2) None) as Htl.
  { unfold tl. rewrite Ht, !last_id_app. destruct q2; done. }
  assert (∀ p, dget p lvls = level_of (at_price p (spec_remove (e_id e) l))) as Hlvls.
  { intros p. destruct (decide (p = e_price e)) as [->|Hp].
    - rewrite Hat. unfold lvls. destruct (q1 ++ q2) as [|x q] eqn:Hqq.
      + rewrite Hhd. simpl. apply dget_ddel_eq, Hrep.
      + rewrite Hhd. simpl. rewrite dget_dset_eq, Htl. do 2 f_equal.
        rewrite Hz, zsum_app. simpl. change (e_quantity x + zsum e_quantity q) with (zsum e_quantity (x :: q)).
        rewrite <- Hqq, zsum_app. lia.
    - rewrite Hother by done. rewrite <- (sr_levels _ _ _ Hrep p). unfold lvls.
      destruct hd; [by apply dget_dset_ne|by apply dget_ddel_ne]. }
  assert (dict_ok lvls) as Hlok by (unfold lvls; destruct hd; [apply dset_ok|apply ddel_ok]; apply Hrep).
  destruct (compact_heap_spec lvls (heap s) Hlok (sr_heap _ _ _ Hrep)) as [Hho Hhp].
  { intros p Hs. rewrite Hlvls in Hs.
    destruct (at_price p (spec_remove (e_id e) l)) as [|x q] eqn:Hx; [by destruct Hs|].
    assert (x ∈ at_price p (spec_remove (e_id e) l)) as [<- [Hxl _]%spec_remove_elem]%at_price_elem
      by (rewrite Hx; left).
    by apply (sr_prices _ _ _ Hrep). }
  eexists. split; [done|]. split; cbn [levels nodes heap]; try done.
  - unfold spec_remove. apply NoDup_fmap_filter, Hrep.
  - intros p. destruct (decide (p = e_price e)) as [->|Hp]; [by rewrite Hat|].
    rewrite Hother by done. eapply chain_frame; [|apply (sr_chain _ _ _ Hrep p)].
    intros x [Hxp Hx]%at_price_elem. apply Hf. intros (y & Heq & [Hyp Hy]%at_price_elem)%list_elem_of_fmap.
    apply Hp. rewrite <- Hxp, <- Hyp. f_equal. by apply (same_id l); [apply Hrep| | |].
  - intros k [Hne Hk]%Hkeys. apply rep_member in Hk. apply list_elem_of_fmap in Hk as (x & -> & Hx).
    apply list_elem_of_fmap_2. by apply spec_remove_elem.
  - intros x Hx. apply Hhp. rewrite Hlvls.
    assert (x ∈ at_price (e_price x) (spec_remove (e_id e) l)) as Hin by (by apply at_price_elem).
    destruct (at_price (e_price x) (spec_remove (e_id e) l)); [by apply not_elem_of_nil in Hin|by eexists].
Qed.

(** *** Consumption *)

Lemma split_unique {A} (x : A) a1 a2 b1 b2 :
  x ∉ a1 → x ∉ b1 → a1 ++ x :: a2 = b1 ++ x :: b2 → a1 = b1 ∧ a2 = b2.
Proof.
  revert b1. induction a1 as [|y a1 IH]; intros [|z b1] Ha Hb; simpl.
  - by intros [= ->].
  - intros [= -> _]. exfalso. apply Hb. left.
  - intros [= -> _]. exfalso. apply Ha. left.
  - intros [= -> Heq]. destruct (IH b1) as [-> ->]; [set_solver|set_solver|done|done].
Qed.

Definition reduced (e : entry) (quantity : Z) : entry := mk_entry (e_id e) (e_price e) (e_quantity e - quantity).

Lemma spec_consume_split e quantity l1 l2 :
  l = l1 ++ e :: l2 → spec_consume (e_id e) quantity l = l1 ++ reduced e quantity :: l2.
Proof.
  intros Hl. pose proof (sr_ids _ _ _ Hrep) as Hnd. unfold spec_consume. rewrite Hl in Hnd |- *.
  rewrite map_app. simpl. rewrite decide_True by done. rewrite fmap_app, fmap_cons in Hnd.
  apply NoDup_app in Hnd as (_ & Hd & Hnd). apply NoDup_cons in Hnd as [Hn _].
  assert (∀ q, e_id e ∉ e_id <$> q → map (λ x, if decide (e_id x = e_id e)
    then mk_entry (e_id e) (e_price x) (e_quantity x - quantity) else x) q = q) as Hid.
  { induction q as [|x q IH]; intros Hx; simpl; [done|].
    rewrite decide_False, IH; [done|set_solver|]. intros Heq. apply Hx. rewrite <- Heq. left. }
  rewrite !Hid; [done|done|]. intros Hin. apply (Hd _ Hin). left.
Qed.

Lemma consume_partial e quantity :
  e ∈ l → 0 < quantity < e_quantity e →
  ∃ s', consume_order side s (e_id e) quantity = Ok s' ∧ side_rep side s' (spec_consume (e_id e) quantity l).
Proof.
  intros He Hq. destruct (rep_node e He) as (q1 & q2 & Hat & Hnode).
  unfold consume_order, dlookup at 1. rewrite Hnode. cbn [rbind node_quantity node_price previous next].
  rewrite (proj2 (Z.eqb_neq _ _)), !(proj2 (Z.ltb_lt _ _)) by lia. cbn [andb].
  pose proof (sr_levels _ _ _ Hrep (e_price e)) as Hlv. rewrite Hat in Hlv.
  destruct (level_of (q1 ++ e :: q2)) as [lv|] eqn:Hlev; [|by destruct q1].
  unfold dlookup. rewrite Hlv. cbn [rbind]. eexists. split; [done|].
  pose proof (list_elem_of_split _ _ He) as (l1 & l2 & Hl).
  pose proof (spec_consume_split e quantity l1 l2 Hl) as Hc. rewrite Hc.
  assert (∀ p, at_price p (l1 ++ reduced e quantity :: l2) =
    if decide (p = e_price e) then q1 ++ reduced e quantity :: q2 else at_price p l) as Hprice.
  { intros p. case_decide as Hp.
    - subst p. pose proof (at_price_NoDup (e_price e) l (sr_ids _ _ _ Hrep)) as Hnd.
      rewrite Hat in Hnd. rewrite Hl in Hat. unfold at_price in Hat |- *. rewrite filter_app in Hat |- *.
      rewrite filter_cons_True in Hat |- * by done.
      apply split_unique in Hat as [<- <-]; [done| |].
      + intros Hin. apply list_elem_of_filter in Hin as [_ Hin].
        pose proof (sr_ids _ _ _ Hrep) as Hids. rewrite Hl, fmap_app, fmap_cons in Hids.
        apply NoDup_app in Hids as (_ & Hd & _). apply (Hd (e_id e)); [by apply list_elem_of_fmap_2|left].
      + intros Hin. rewrite fmap_app, fmap_cons in Hnd. apply NoDup_app in Hnd as (_ & Hd & _).
        apply (Hd (e_id e)); [by apply list_elem_of_fmap_2|left].
    - rewrite Hl. unfold at_price. rewrite !filter_app, !filter_cons_False by (simpl; congruence). done. }
  assert (e_id <$> l1 ++ reduced e quantity :: l2 = e_id <$> l) as Hids by (by rewrite Hl, !fmap_app).
  split; cbn [levels nodes heap].
  - rewrite Hids. apply Hrep.
  - intros p. rewrite dget_dset, Hprice. destruct (decide (e_price e = p)) as [<-|Hp].
    + rewrite decide_True by done. rewrite level_of_nonempty in Hlev |- * by (by destruct q1).
      injection Hlev as <-. simpl. rewrite !first_id_app, !last_id_app, !zsum_app. simpl. do 2 f_equal. lia.
    + rewrite decide_False by done. apply (sr_levels _ _ _ Hrep).
  - apply dset_ok, Hrep.
  - apply dset_ok, Hrep.
  - intros p. rewrite Hprice. case_decide as Hp.
    + subst p. pose proof (sr_chain _ _ _ Hrep (e_price e)) as Hch. rewrite Hat in Hch.
      pose proof (at_price_NoDup (e_price e) l (sr_ids _ _ _ Hrep)) as Hnd.
      rewrite Hat, fmap_app, fmap_cons in Hnd. apply NoDup_app in Hnd as (_ & Hd & Hnd).
      apply NoDup_cons in Hnd as [Hn _]. apply chain_app in Hch as [Hc1 [_ Hc2]].
      apply chain_app. split; [|split].
      * eapply chain_frame; [|exact Hc1]. intros x Hx. apply dget_dset_ne. intros Heq.
        apply (Hd (e_id x)); [by apply list_elem_of_fmap_2|]. rewrite <- Heq. left.
      * simpl. by rewrite dget_dset_eq.
      * eapply chain_frame; [|exact Hc2]. intros x Hx. apply dget_dset_ne. intros Heq.
        apply Hn. rewrite Heq. by apply list_elem_of_fmap_2.
    + eapply chain_frame; [|apply (sr_chain _ _ _ Hrep p)]. intros x [Hxp Hx]%at_price_elem.
      apply dget_dset_ne. intros Heq. apply Hp. rewrite <- Hxp. f_equal. by apply (same_id l); [apply Hrep| | |].
  - intros k Hk. rewrite Hids. apply rep_member. rewrite dget_dset in Hk. case_decide; [|done].
    subst. rewrite Hnode. by eexists.
  - apply Hrep.
  - intros x Hx. apply elem_of_app in Hx as [Hx|Hx];
      [apply (sr_prices _ _ _ Hrep); rewrite Hl; apply elem_of_app; by left|].
    apply elem_of_cons in Hx as [->|Hx].
    + by apply (sr_prices _ _ _ Hrep e).
    + apply (sr_prices _ _ _ Hrep). rewrite Hl. apply elem_of_app. right. by right.
Qed.

Lemma consume_order_spec e quantity :
  e ∈ l →
  if decide (quantity = e_quantity e) then
    ∃ s', consume_order side s (e_id e) quantity = Ok s' ∧ side_rep side s' (spec_remove (e_id e) l)
  else if decide (0 < quantity < e_quantity e) then
    ∃ s', consume_order side s (e_id e) quantity = Ok s' ∧ side_rep side s' (spec_consume (e_id e) quantity l)
  else consume_order side s (e_id e) quantity = Raise ValueError.
Proof.
  intros He. destruct (rep_node e He) as (q1 & q2 & Hat & Hnode). case_decide as Hq.
  - subst quantity. destruct (remove_order_spec e He) as (s' & Hs' & Hr). exists s'. split; [|done].
    unfold consume_order, dlookup. rewrite Hnode. simpl. by rewrite Z.eqb_refl.
  - case_decide as Hr; [by apply consume_partial|].
    unfold consume_order, dlookup. rewrite Hnode. cbn [rbind node_quantity].
    rewrite (proj2 (Z.eqb_neq _ _)) by done.
    destruct (Z.ltb_spec 0 quantity), (Z.ltb_spec quantity (e_quantity e)); simpl; try done; lia.
Qed.

(** *** The best order *)

(** The head of a stable sort is the first element with the least key. *)
Lemma sort_head {A} (key : A → Z) xs m e q :
  (∀ x, x ∈ xs → m <= key x) → filter (λ x, key x = m) xs = e :: q → head (sort_by key xs) = Some e.
Proof.
  induction xs as [|x xs IH]; intros Hmin Hf; [done|]. rewrite filter_cons in Hf.
  change (sort_by key (x :: xs)) with (insert_by key x (sort_by key xs)).
  case_decide as Hx.
  - injection Hf as -> _. rewrite insert_by_min; [done|]. intros y Hy%elem_of_sort_by.
    rewrite pyleZ. apply Z.leb_le. rewrite Hx. apply Hmin. by right.
  - assert (head (sort_by key xs) = Some e) as Hh by (apply IH; [intros y Hy; apply Hmin; by right|done]).
    destruct (sort_by key xs) as [|y ys]; [done|]. injection Hh as ->. simpl.
    assert (e ∈ filter (λ x, key x = m) xs) as [He _]%list_elem_of_filter by (rewrite Hf; left).
    pose proof (Hmin x ltac:(left)). by rewrite (proj2 (Z.leb_gt _ _)) by lia.
Qed.

Lemma price_key p e : e_price e * sign side = p ↔ e_price e = p * sign side.
Proof. unfold sign. destruct side; lia. Qed.

(** The heap holds every price that still has to be found. *)
Lemma best_loop_spec hp :
  ordered (λ x, x) hp → (∀ e, e ∈ l → e_price e * sign side ∈ hp) →
  let '(hp', r) := best_loop side (levels s) hp in
  ordered (λ x, x) hp' ∧ (∀ e, e ∈ l → e_price e * sign side ∈ hp') ∧ r = spec_best side l.
Proof.
  induction hp as [|top hp IH]; intros Ho Hp; simpl.
  - split; [done|]. split; [done|]. destruct l as [|e l']; [done|].
    exfalso. by eapply not_elem_of_nil, (Hp e); left.
  - rewrite (sr_levels _ _ _ Hrep). destruct (at_price (top * sign side) l) as [|e q] eqn:Hat.
    + simpl. apply ordered_cons in Ho as [Ho _]. apply IH; [done|].
      intros e He. pose proof (Hp e He) as Hin. apply elem_of_cons in Hin as [Hin|]; [|done].
      exfalso. apply (not_elem_of_nil e). rewrite <- Hat. apply at_price_elem. split; [|done].
      by apply price_key.
    + simpl. split; [done|]. split; [done|]. unfold spec_best, by_priority.
      rewrite (sort_head _ l top e q); [done| |].
      * intros x Hx. pose proof (ordered_head_min _ _ _ _ Ho (Hp x Hx)) as Hle.
        by rewrite pyleZ, Z.leb_le in Hle.
      * rewrite <- Hat. apply filter_ext_in. intros x _. apply price_key.
Qed.

Lemma best_order_spec :
  side_rep side (best_order side s).1 l ∧ (best_order side s).2 = spec_best side l.
Proof.
  unfold best_order. pose proof (best_loop_spec (heap s) (sr_heap _ _ _ Hrep) (sr_prices _ _ _ Hrep)) as Hb.
  destruct (best_loop side (levels s) (heap s)) as [hp r]. destruct Hb as (H1 & H2 & H3). simpl.
  split; [|done]. destruct Hrep. by split.
Qed.

Lemma side_levels_spec p :
  dget p (side_levels s) =
    if decide (at_price p l = []) then None else Some (zsum e_quantity (at_price p l)).
Proof.
  assert (dget p (side_levels s) = level_quantity <$> dget p (levels s)) as ->.
  { unfold side_levels. induction (levels s) as [|[p' v] d IH]; simpl; [done|]. by case_decide. }
  rewrite (sr_levels _ _ _ Hrep). case_decide as Hn; [by rewrite Hn|]. by rewrite level_of_nonempty.
Qed.
End operations.

Lemma empty_rep side : side_rep side empty_side [].
Proof.
  split; simpl; [constructor|done|constructor|constructor|done|by intros ? [? ?]|constructor|].
  by intros ? ?%not_elem_of_nil.
Qed.

(** ** Refinement *)

Inductive book_op :=
| Add (id : string) (price remaining : Z)
| Remove (id : string)
| Consume (id : string) (quantity : Z)
| Best.

(** One call on a side: its new state and the answer of [best]. *)
Definition book_step (side : Side) (s : BookSide) (op : book_op) : result (BookSide * option string) :=
  match op with
  | Add id price remaining => rmap (λ s', (s', None)) (add_order side s id price remaining)
  | Remove id => rmap (λ s', (s', None)) (remove_order side s id)
  | Consume id quantity => rmap (λ s', (s', None)) (consume_order side s id quantity)
  | Best => Ok (best_order side s)
  end.

(** The same calls on the orders in arrival order. *)
Definition queue_step (side : Side) (l : list entry) (op : book_op) : result (list entry * option string) :=
  match op with
  | Add id price remaining =>
      if decide (id ∈ e_id <$> l) then Raise ValueError else Ok (l ++ [mk_entry id price remaining], None)
  | Remove id => Ok (spec_remove id l, None)
  | Consume id quantity =>
      match find (λ e, bool_decide (e_id e = id)) l with
      | None => Raise KeyError
      | Some e =>
          if decide (quantity = e_quantity e) then Ok (spec_remove id l, None)
          else if decide (0 < quantity < e_quantity e) then Ok (spec_consume id quantity l, None)
          else Raise ValueError
      end
  | Best => Ok (l, spec_best side l)
  end.

Fixpoint run_ops {A} (step : A → book_op → result (A * option string)) (s : A) (ops : list book_op)
    : result (A * list (option string)) :=
  match ops with
  | [] => Ok (s, [])
  | op :: ops' =>
      let* sr := step s op in
      let* out := run_ops step sr.1 ops' in Ok (out.1, sr.2 :: out.2)
  end.

Lemma find_entry id l :
  match find (λ e, bool_decide (e_id e = id)) l with
  | Some e => e ∈ l ∧ e_id e = id
  | None => id ∉ e_id <$> l
  end.
Proof.
  induction l as [|x l IH]; simpl; [apply not_elem_of_nil|]. case_bool_decide as Hx.
  - split; [left|done].
  - destruct (find _ l) as [e|]; [split; [right|]; apply IH|]. set_solver.
Qed.

Lemma spec_remove_absent id l : id ∉ e_id <$> l → spec_remove id l = l.
Proof.
  intros Hn. apply filter_all. intros e He Heq. apply Hn. rewrite <- Heq. by apply list_elem_of_fmap_2.
Qed.

Lemma book_step_refines side s l op :
  side_rep side s l →
  match queue_step side l op with
  | Raise e => book_step side s op = Raise e
  | Ok (l', r) => ∃ s', book_step side s op = Ok (s', r) ∧ side_rep side s' l'
  end.
Proof.
  intros Hrep. destruct op as [id price remaining|id|id quantity|]; simpl.
  - pose proof (add_order_spec side s l Hrep id price remaining) as Ha. case_decide.
    + by rewrite Ha.
    + destruct Ha as (s' & -> & Hr). by exists s'.
  - destruct (decide (id ∈ e_id <$> l)) as [(e & -> & He)%list_elem_of_fmap|Hn].
    + destruct (remove_order_spec side s l Hrep e He) as (s' & -> & Hr). by exists s'.
    + rewrite (remove_order_absent side s l Hrep id Hn), spec_remove_absent by done. by exists s.
  - pose proof (find_entry id l) as Hf. destruct (find _ l) as [e|].
    + destruct Hf as [He <-]. pose proof (consume_order_spec side s l Hrep e quantity He) as Hc.
      case_decide; [|case_decide].
      * destruct Hc as (s' & -> & Hr). by exists s'.
      * destruct Hc as (s' & -> & Hr). by exists s'.
      * by rewrite Hc.
    + unfold consume_order, dlookup. destruct (dget id (nodes s)) eqn:Hd; [|done].
      exfalso. apply Hf, (rep_member side s l Hrep). by eexists.
  - exists (best_order side s).1. pose proof (best_order_spec side s l Hrep) as [H1 H2].
    destruct (best_order side s) as [s' r]. simpl in *. by subst.
Qed.

(** C26: one side of the order book behaves as the list of its resting orders
    in order of arrival: after any sequence of calls the book answers or raises
    as the list does, the best order is the earliest one at the best price, and
    the displayed depth of a price is the quantity resting there. *)
Theorem order_book_refines_arrivals (side : Side) (ops : list book_op) :
  match run_ops (queue_step side) [] ops with
  | Raise e => run_ops (book_step side) empty_side ops = Raise e
  | Ok (l, answers) =>
      ∃ s, run_ops (book_step side) empty_side ops = Ok (s, answers) ∧
        (best_order side s).2 = spec_best side l ∧
        ∀ p, dget p (side_levels s) =
          if decide (at_price p l = []) then None else Some (zsum e_quantity (at_price p l))
  end.
Proof.
  assert (∀ s l, side_rep side s l →
    match run_ops (queue_step side) l ops with
    | Raise e => run_ops (book_step side) s ops = Raise e
    | Ok (l', answers) => ∃ s', run_ops (book_step side) s ops = Ok (s', answers) ∧ side_rep side s' l'
    end) as Hrun.
  { induction ops as [|op ops IH]; intros s l Hrep; simpl; [by exists s|].
    pose proof (book_step_refines side s l op Hrep) as Hstep.
    destruct (queue_step side l op) as [[l1 r]|e]; simpl; [|by rewrite Hstep].
    destruct Hstep as (s1 & -> & Hrep1). simpl. specialize (IH s1 l1 Hrep1).
    destruct (run_ops (queue_step side) l1 ops) as [[l' rs]|e]; simpl; [|by rewrite IH].
    destruct IH as (s' & -> & Hrep'). by exists s'. }
  specialize (Hrun empty_side [] (empty_rep side)).
  destruct (run_ops (queue_step side) [] ops) as [[l rs]|e]; [|done].
  destruct Hrun as (s & Hs & Hrep). exists s. split; [done|].
  split; [apply (best_order_spec side s l Hrep)|apply (side_levels_spec side s l Hrep)].
Qed.
