(* ===== verification/Exchange.v ===== *)
(** * The matching engine of the exchange

    Models src/stock-exchange-system/src/stock_exchange: the contracts of
    settings and commands (contracts.py), the session
    and risk policies (policies.py) and the reducer that replays sequenced
    commands (matching.py).  JSON objects with fixed fields are records, so the
    checks of their field names and types hold by typing; a command is a value
    and the state is copied before it is changed, so a call that raises leaves
    the caller's state as it was.  A day is its number since 1970-01-01, which
    its ISO date determines, and compound string keys are tuples. *)
From S2P Require Import Prelude PyList PyDict Checks OrderBook.
Local Open Scope Z_scope.

(** ** Contracts *)

Definition MAX_TIMESTAMP : Z := 253402300799.

Record Session := mk_session {
  weekdays : list Z;
  start_minute : Z;
  end_minute : Z;
}.

Record AccountSettings := mk_account_settings {
  opening_cash : Z;
  opening_positions : dict string Z;
}.

Record Settings := mk_settings {
  symbols : list string;
  s_accounts : dict string AccountSettings;
  session : Session;
  daily_limit : Z;
}.

(** A JSON round trip sorts the keys of objects. *)
Definition sort_keys {V} (d : dict string V) : dict string V := sort_by fst d.
Definition freeze_settings (value : Settings) : Settings :=
  mk_settings (symbols value)
    (map (λ p, (p.1, mk_account_settings (opening_cash p.2) (sort_keys (opening_positions p.2))))
       (sort_keys (s_accounts value)))
    (session value) (daily_limit value).

Definition valid_account (syms : list string) (p : string * AccountSettings) : bool :=
  identifier p.1 && integer (opening_cash p.2) 0 MAX_INTEGER
  && forallb (λ k, bool_decide (k ∈ syms)) (dkeys (opening_positions p.2))
  && forallb (λ q, integer q 0 MAX_INTEGER) (dvalues (opening_positions p.2)).

Definition validate_settings (value : Settings) : result Settings :=
  let value := freeze_settings value in
  let syms := symbols value in
  raise_if (negb (integer (Z.of_nat (length syms)) 1 100)) ValueError (
  raise_if (negb (forallb identifier syms)) ValueError (
  raise_if (negb (bool_decide (NoDup syms))) ValueError (
  raise_if (negb (integer (Z.of_nat (length (s_accounts value))) 1 100)) ValueError (
  raise_if (negb (forallb (valid_account syms) (s_accounts value))) ValueError (
  let sess := session value in
  raise_if (negb (integer (start_minute sess) 0 1439)) ValueError (
  raise_if (negb (integer (end_minute sess) (start_minute sess + 1) 1440)) ValueError (
  raise_if (bool_decide (weekdays sess = [])) ValueError (
  raise_if (negb (forallb (λ d, integer d 0 6) (weekdays sess))) ValueError (
  raise_if (negb (bool_decide (NoDup (weekdays sess)))) ValueError (
  raise_if (negb (integer (daily_limit value) 1 1000000)) ValueError (Ok value))))))))))).

Inductive Body :=
| NewOrder (request_id order_id symbol : string) (side : Side) (price quantity : Z)
| CancelOrder (request_id order_id : string).

Definition body_request (b : Body) : string :=
  match b with NewOrder r _ _ _ _ _ | CancelOrder r _ => r end.
Definition body_order (b : Body) : string :=
  match b with NewOrder _ i _ _ _ _ | CancelOrder _ i => i end.

Definition validate (b : Body) : result Body :=
  raise_if (negb (identifier (body_request b))) ValueError (
  raise_if (negb (identifier (body_order b))) ValueError (
  match b with
  | CancelOrder _ _ => Ok b
  | NewOrder _ _ symbol _ price quantity =>
      raise_if (negb (identifier symbol)) ValueError (
      raise_if (negb (integer price 1 100000000)) ValueError (
      raise_if (negb (integer quantity 1 1000000)) ValueError (Ok b)))
  end)).

(** ** Policies *)

Definition day_of (timestamp : Z) : Z := timestamp / 86400.
(** [weekday()]: the first day of 1970 was a Thursday. *)
Definition weekday_of (timestamp : Z) : Z := (day_of timestamp + 3) mod 7.
Definition minute_of (timestamp : Z) : Z := (timestamp mod 86400) / 60.

Definition session_permits (timestamp : Z) (s : Session) : bool :=
  bool_decide (weekday_of timestamp ∈ weekdays s)
  && (start_minute s <=? minute_of timestamp) && (minute_of timestamp <? end_minute s).

Definition risk_permits (used quantity maximum : Z) : bool := used + quantity <=? maximum.

(** ** State *)

Record Balance := mk_balance { available : Z; held : Z }.
Record Account := mk_account { cash : Balance; positions : dict string Balance }.

Inductive Status := OPEN | PARTIAL | FILLED | CANCELED.
#[export] Instance status_eq_dec : EqDecision Status.
Proof. solve_decision. Defined.

Record Order := mk_order {
  o_request : string;
  o_id : string;
  o_symbol : string;
  o_side : Side;
  o_price : Z;
  o_quantity : Z;
  o_owner : string;
  o_seq : Z;
  o_timestamp : Z;
  o_day : Z;
  o_remaining : Z;
  o_filled : Z;
  o_status : Status;
  o_reason : string;
}.

Record Trade := mk_trade {
  t_id : string;
  t_execution_seq : Z;
  t_seq : Z;
  t_symbol : string;
  t_price : Z;
  t_quantity : Z;
  t_timestamp : Z;
  t_buy_order : string;
  t_sell_order : string;
  t_buyer : string;
  t_seller : string;
}.

Record Result := mk_result {
  r_seq : Z;
  r_request : string;
  r_order : string;
  r_accepted : bool;
  r_status : option Status;
  r_reason : option string;
}.

Record Book := mk_book { buy_side : BookSide; sell_side : BookSide }.
Definition side_of (b : Book) (side : Side) : BookSide :=
  match side with BUY => buy_side b | SELL => sell_side b end.
Definition set_side (b : Book) (side : Side) (s : BookSide) : Book :=
  match side with BUY => mk_book s (sell_side b) | SELL => mk_book (buy_side b) s end.
Definition opposite (side : Side) : Side := match side with BUY => SELL | SELL => BUY end.

Record State := mk_state {
  accounts : dict string Account;
  orders : dict string Order;
  trades : list Trade;
  results : dict Z Result;
  daily : dict (string * string * Z) Z;
  settings : Settings;
  book_index : dict string Book;
  execution_seq : Z;
  last_seq : Z;
  last_timestamp : Z;
}.

Definition set_accounts (st : State) x : State :=
  mk_state x (orders st) (trades st) (results st) (daily st) (settings st) (book_index st)
    (execution_seq st) (last_seq st) (last_timestamp st).
Definition set_orders (st : State) x : State :=
  mk_state (accounts st) x (trades st) (results st) (daily st) (settings st) (book_index st)
    (execution_seq st) (last_seq st) (last_timestamp st).
Definition set_books (st : State) x : State :=
  mk_state (accounts st) (orders st) (trades st) (results st) (daily st) (settings st) x
    (execution_seq st) (last_seq st) (last_timestamp st).
Definition set_results (st : State) x : State :=
  mk_state (accounts st) (orders st) (trades st) x (daily st) (settings st) (book_index st)
    (execution_seq st) (last_seq st) (last_timestamp st).
Definition set_daily (st : State) x : State :=
  mk_state (accounts st) (orders st) (trades st) (results st) x (settings st) (book_index st)
    (execution_seq st) (last_seq st) (last_timestamp st).
Definition set_clock (st : State) seq stamp : State :=
  mk_state (accounts st) (orders st) (trades st) (results st) (daily st) (settings st) (book_index st)
    (execution_seq st) seq stamp.
Definition record_trade (st : State) (t : Trade) : State :=
  mk_state (accounts st) (orders st) (trades st ++ [t]) (results st) (daily st) (settings st) (book_index st)
    (t_execution_seq t) (last_seq st) (last_timestamp st).

(** [state["accounts"][owner]["cash"]] and [...["positions"][symbol]] updated in place. *)
Definition with_cash (st : State) (owner : string) (f : Balance → Balance) : result State :=
  let* a := dlookup owner (accounts st) in
  Ok (set_accounts st (dset owner (mk_account (f (cash a)) (positions a)) (accounts st))).
Definition with_position (st : State) (owner symbol : string) (f : Balance → Balance) : result State :=
  let* a := dlookup owner (accounts st) in
  let* b := dlookup symbol (positions a) in
  Ok (set_accounts st (dset owner (mk_account (cash a) (dset symbol (f b) (positions a))) (accounts st))).
Definition add_available (n : Z) (b : Balance) : Balance := mk_balance (available b + n) (held b).
Definition add_held (n : Z) (b : Balance) : Balance := mk_balance (available b) (held b + n).

(** [OrderBook(state["book_index"]).side(order)] updated in place. *)
Definition with_side (st : State) (symbol : string) (side : Side) (f : BookSide → result BookSide)
    : result State :=
  let* b := dlookup symbol (book_index st) in
  let* s := f (side_of b side) in
  Ok (set_books st (dset symbol (set_side b side s) (book_index st))).

Definition is_active (o : Order) : bool :=
  match o_status o with OPEN | PARTIAL => true | _ => false end.

Definition set_status (o : Order) (status : Status) (reason : string) : Order :=
  mk_order (o_request o) (o_id o) (o_symbol o) (o_side o) (o_price o) (o_quantity o) (o_owner o)
    (o_seq o) (o_timestamp o) (o_day o) (o_remaining o) (o_filled o) status reason.

(** The update of a row by an execution. *)
Definition fill_order (count : Z) (o : Order) : Order :=
  let rest := o_remaining o - count in
  mk_order (o_request o) (o_id o) (o_symbol o) (o_side o) (o_price o) (o_quantity o) (o_owner o)
    (o_seq o) (o_timestamp o) (o_day o) rest (o_filled o + count)
    (if rest =? 0 then FILLED else PARTIAL) (o_reason o).

Definition with_order (st : State) (id : string) (f : Order → Order) : result State :=
  let* o := dlookup id (orders st) in Ok (set_orders st (dset id (f o) (orders st))).

Definition release (st : State) (id : string) (reason : string) : result State :=
  let* o := dlookup id (orders st) in
  let* st := with_side st (o_symbol o) (o_side o) (λ s, remove_order (o_side o) s (o_id o)) in
  let* st :=
    match o_side o with
    | BUY =>
        let amount := o_remaining o * o_price o in
        let* st := with_cash st (o_owner o) (add_held (- amount)) in
        with_cash st (o_owner o) (add_available amount)
    | SELL =>
        let* st := with_position st (o_owner o) (o_symbol o) (add_held (- o_remaining o)) in
        with_position st (o_owner o) (o_symbol o) (add_available (o_remaining o))
    end in
  with_order st id (λ o, set_status o CANCELED reason).

(** The expiry loop, over the orders present at its start. *)
Fixpoint expire (ids : list string) (day : Z) (st : State) : result State :=
  match ids with
  | [] => Ok st
  | id :: ids' =>
      let* old := dlookup id (orders st) in
      let* st := if is_active old && negb (o_day old =? day) then release st id "DAY_EXPIRED" else Ok st in
      expire ids' day st
  end.

(** ** Matching *)

(** The statements of an execution on the accounts of its two owners. *)
Definition settle (st : State) (buyer seller symbol : string) (limit execution_price count : Z) : result State :=
  let* st := with_cash st buyer (add_held (- (limit * count))) in
  let* st := with_cash st buyer (add_available ((limit - execution_price) * count)) in
  let* st := with_cash st seller (add_available (execution_price * count)) in
  let* st := with_position st seller symbol (add_held (- count)) in
  with_position st buyer symbol (add_available count).

(** One execution of the incoming order against the best resting one. *)
Definition execute (st : State) (order_id maker_id : string) (trade_index : Z) : result State :=
  let* order := dlookup order_id (orders st) in
  let* maker := dlookup maker_id (orders st) in
  let count := Z.min (o_remaining order) (o_remaining maker) in
  let execution_price := o_price maker in
  let '(bid, ask) := match o_side order with BUY => (order, maker) | SELL => (maker, order) end in
  let symbol := o_symbol order in
  let* st := settle st (o_owner bid) (o_owner ask) symbol (o_price bid) execution_price count in
  let trade_id := "trade_" +:+ pretty (o_seq order) +:+ "_" +:+ pretty trade_index in
  let* st := with_side st (o_symbol maker) (o_side maker) (λ s, consume_order (o_side maker) s maker_id count) in
  let st := record_trade st
    (mk_trade trade_id (execution_seq st + 1) (o_seq order) symbol execution_price count
       (o_timestamp order) (o_id bid) (o_id ask) (o_owner bid) (o_owner ask)) in
  let* st := with_order st order_id (fill_order count) in
  with_order st maker_id (fill_order count).

(** [index.best(symbol, taker_side)], which drops stale prices. *)
Definition best (st : State) (symbol : string) (taker_side : Side) : result (State * option string) :=
  let side := opposite taker_side in
  let* b := dlookup symbol (book_index st) in
  let '(s, r) := best_order side (side_of b side) in
  Ok (set_books st (dset symbol (set_side b side s) (book_index st)), r).

Definition crosses (taker_side : Side) (limit maker_price : Z) : bool :=
  match taker_side with BUY => maker_price <=? limit | SELL => limit <=? maker_price end.

(** The loop of [reduce_command]. *)
Fixpoint match_loop (fuel : nat) (order_id : string) (trade_index : Z) (st : State) : result State :=
  let* order := dlookup order_id (orders st) in
  if o_remaining order =? 0 then Ok st
  else
    match fuel with
    | O => Raise OutOfFuel
    | S fuel' =>
        let* sb := best st (o_symbol order) (o_side order) in
        match sb.2 with
        | None => Ok sb.1
        | Some maker_id =>
            let* maker := dlookup maker_id (orders sb.1) in
            if negb (crosses (o_side order) (o_price order) (o_price maker)) then Ok sb.1
            else if bool_decide (o_owner maker = o_owner order)
            then release sb.1 order_id "SELF_TRADE_PREVENTION"
            else let* st := execute sb.1 order_id maker_id (trade_index + 1) in
                 match_loop fuel' order_id (trade_index + 1) st
        end
    end.

(** [index.add(order)] *)
Definition rest_order (st : State) (id : string) : result State :=
  let* o := dlookup id (orders st) in
  if is_active o
  then with_side st (o_symbol o) (o_side o) (λ s, add_order (o_side o) s (o_id o) (o_price o) (o_remaining o))
  else Ok st.

Definition put_result (st : State) (r : Result) : State :=
  set_results st (dset (r_seq r) r (results st)).
Definition reject (st : State) (seq : Z) (b : Body) (reason : string) : State :=
  put_result st (mk_result seq (body_request b) (body_order b) false None (Some reason)).
Definition accept (st : State) (seq : Z) (b : Body) (status : Status) : State :=
  put_result st (mk_result seq (body_request b) (body_order b) true (Some status) None).

Definition cancel (st : State) (owner : string) (seq : Z) (b : Body) : result State :=
  match dget (body_order b) (orders st) with
  | None => Ok (reject st seq b "OWNED_ORDER_NOT_FOUND")
  | Some old =>
      if negb (bool_decide (o_owner old = owner)) then Ok (reject st seq b "OWNED_ORDER_NOT_FOUND")
      else if is_active old then
        let* st := release st (body_order b) "USER_CANCEL" in
        let* old := dlookup (body_order b) (orders st) in
        Ok (accept st seq b (o_status old))
      else if negb (bool_decide (o_status old = CANCELED)) then Ok (reject st seq b "ORDER_ALREADY_FILLED")
      else Ok (accept st seq b (o_status old))
  end.

(** The reservation of an accepted order. *)
Definition reserve_funds (st : State) (owner symbol : string) (side : Side) (reserve : Z) : result State :=
  match side with
  | BUY => let* st := with_cash st owner (add_available (- reserve)) in with_cash st owner (add_held reserve)
  | SELL =>
      let* st := with_position st owner symbol (add_available (- reserve)) in
      with_position st owner symbol (add_held reserve)
  end.

Definition funds_available (st : State) (owner symbol : string) (side : Side) : result Z :=
  let* a := dlookup owner (accounts st) in
  match side with
  | BUY => Ok (available (cash a))
  | SELL => let* b := dlookup symbol (positions a) in Ok (available b)
  end.

Definition submit (st : State) (owner : string) (seq stamp : Z) (b : Body)
    (request_id order_id symbol : string) (side : Side) (price quantity : Z) : result State :=
  let day := day_of stamp in
  if dmem order_id (orders st) then Ok (reject st seq b "ORDER_ID_EXISTS")
  else if negb (bool_decide (symbol ∈ symbols (settings st))) then Ok (reject st seq b "UNKNOWN_SYMBOL")
  else if negb (session_permits stamp (session (settings st))) then Ok (reject st seq b "SESSION_CLOSED")
  else
    let daily_key := (owner, symbol, day) in
    let used := dget_or 0 daily_key (daily st) in
    if negb (risk_permits used quantity (daily_limit (settings st)))
    then Ok (reject st seq b "DAILY_SUBMITTED_VOLUME_LIMIT")
    else
      let* funds := funds_available st owner symbol side in
      let reserve := match side with BUY => quantity * price | SELL => quantity end in
      if funds <? reserve
      then Ok (reject st seq b (match side with BUY => "INSUFFICIENT_CASH" | SELL => "INSUFFICIENT_SHARES" end))
      else
        let* st := reserve_funds st owner symbol side reserve in
        let st := set_daily st (dset daily_key (used + quantity) (daily st)) in
        let order := mk_order request_id order_id symbol side price quantity owner seq stamp day
                       quantity 0 OPEN "" in
        let st := set_orders st (dset order_id order (orders st)) in
        let* st := match_loop (S (length (orders st))) order_id 0 st in
        let* st := rest_order st order_id in
        let* order := dlookup order_id (orders st) in
        Ok (accept st seq b (o_status order)).

Inductive Command :=
| Genesis (value : Settings)
| Sequenced (seq timestamp : Z) (owner : string) (body : Body).

Definition empty_books (syms : list string) : dict string Book :=
  map (λ symbol, (symbol, mk_book empty_side empty_side)) syms.

Definition open_account (syms : list string) (a : AccountSettings) : Account :=
  mk_account (mk_balance (opening_cash a) 0)
    (map (λ symbol, (symbol, mk_balance (dget_or 0 symbol (opening_positions a)) 0)) syms).

Definition genesis (value : Settings) : result State :=
  let* data := validate_settings value in
  Ok (mk_state (map (λ p, (p.1, open_account (symbols data) p.2)) (s_accounts data))
        [] [] [] [] data (empty_books (symbols data)) 0 1 0).

Definition reduce_command (state : option State) (command : Command) : result State :=
  match command, state with
  | Genesis _, Some _ => Raise ValueError
  | Genesis value, None => genesis value
  | Sequenced _ _ _ _, None => Raise ValueError
  | Sequenced seq timestamp owner body, Some st =>
      raise_if (negb (integer seq 2 1001)) ValueError (
      raise_if (negb (integer timestamp 1 MAX_TIMESTAMP)) ValueError (
      raise_if (negb (identifier owner)) ValueError (
      raise_if (negb (seq =? last_seq st + 1) || (timestamp <? last_timestamp st)) ValueError (
      raise_if (negb (dmem owner (accounts st))) ValueError (
      let st := set_clock st seq timestamp in
      let* body := validate body in
      let* st := expire (dkeys (orders st)) (day_of timestamp) st in
      match body with
      | CancelOrder _ _ => cancel st owner seq body
      | NewOrder request_id order_id symbol side price quantity =>
          submit st owner seq timestamp body request_id order_id symbol side price quantity
      end)))))
  end.

(** A replay of a command log. *)
Fixpoint replay (st : State) (log : list Command) : result State :=
  match log with
  | [] => Ok st
  | c :: log' => let* st' := reduce_command (Some st) c in replay st' log'
  end.

(** Sequenced commands as the service applies them: a refused one changes nothing. *)
Fixpoint apply_log (st : State) (log : list Command) : State :=
  match log with
  | [] => st
  | c :: log' =>
      match reduce_command (Some st) c with Ok st' => apply_log st' log' | Raise _ => apply_log st log' end
  end.

(** [book(state, symbol)] *)
Definition book (st : State) (symbol : string) : result (dict Z Z * dict Z Z) :=
  let* b := dlookup symbol (book_index st) in Ok (side_levels (buy_side b), side_levels (sell_side b)).

(** The scan of the order table, for a state without an index. *)
Definition scan_order (symbol : string) (lvls : dict Z Z * dict Z Z) (o : Order) : dict Z Z * dict Z Z :=
  if bool_decide (o_symbol o = symbol) && is_active o then
    let put d := dset (o_price o) (dget_or 0 (o_price o) d + o_remaining o) d in
    match o_side o with BUY => (put lvls.1, lvls.2) | SELL => (lvls.1, put lvls.2) end
  else lvls.
Definition book_scan (st : State) (symbol : string) : dict Z Z * dict Z Z :=
  foldl (scan_order symbol) ([], []) (dvalues (orders st)).

(** A day of trading: Monday 2024-01-01, 10:00 UTC. *)
Definition demo_settings : Settings :=
  mk_settings ["ACME"]
    [("zoe", mk_account_settings 10000 [("ACME", 10)]); ("abe", mk_account_settings 5000 [])]
    (mk_session [0; 1; 2; 3; 4] 540 1020) 1000.
Definition demo_time : Z := 1704103200.
Definition demo_log : list Command :=
  [Sequenced 2 demo_time "zoe" (NewOrder "r1" "s1" "ACME" SELL 101 3);
   Sequenced 3 demo_time "zoe" (NewOrder "r2" "s2" "ACME" SELL 100 2);
   Sequenced 4 (demo_time + 1) "abe" (NewOrder "r3" "b1" "ACME" BUY 101 4);
   Sequenced 5 (demo_time + 2) "abe" (NewOrder "r4" "b2" "ACME" BUY 99 5);
   Sequenced 6 (demo_time + 3) "zoe" (CancelOrder "r5" "s1")].

Example demo_trades :
  (let* st := genesis demo_settings in
   let* st := replay st demo_log in
   let* b := book st "ACME" in
   Ok (map (λ t, (t_sell_order t, t_price t, t_quantity t)) (trades st),
       map (λ p, (p.1, cash p.2)) (accounts st), b, map (λ o, o_status o) (dvalues (orders st)))) =
  Ok ([("s2", 100, 2); ("s1", 101, 2)],
      [("abe", mk_balance 4103 495); ("zoe", mk_balance 10402 0)], ([(99, 5)], []),
      [CANCELED; FILLED; FILLED; OPEN]).
Proof. vm_compute. reflexivity. Qed.
