(* ===== verification/ExchangeInv.v ===== *)
(** * The invariant of the exchange

    The books of Exchange.v are the queues of the active orders, the reserved
    money and shares are those of the active orders, the accounts are the
    opening ones plus the flows of the trades, and no bid reaches an ask.
    Every command keeps this and raises nothing but [ValueError]. *)
From S2P Require Import Prelude PyList PyDict Checks OrderBook Exchange.
Local Open Scope Z_scope.

(** ** Sums and rows of a dictionary *)

(** ** The queues of the book, read off the orders *)

Definition entry_of (o : Order) : entry := mk_entry (o_id o) (o_price o) (o_remaining o).

(** The orders on a side, without the one [ex] that is being matched. *)
Definition on_side (ex : option string) (symbol : string) (side : Side) (o : Order) : bool :=
  is_active o && bool_decide (o_symbol o = symbol) && bool_decide (o_side o = side)
  && bool_decide (Some (o_id o) ≠ ex).

Definition selected (sel : Order → bool) (ords : dict string Order) : list Order :=
  filter (λ o, sel o = true) (dvalues ords).
Definition queue (ords : dict string Order) (ex : option string) (symbol : string) (side : Side) : list entry :=
  entry_of <$> selected (on_side ex symbol side) ords.

Lemma on_side_spec ex symbol side o :
  on_side ex symbol side o = true ↔
    is_active o = true ∧ o_symbol o = symbol ∧ o_side o = side ∧ Some (o_id o) ≠ ex.
Proof. unfold on_side. rewrite !andb_true_iff, !bool_decide_eq_true. tauto. Qed.

Lemma on_side_false ex symbol side o :
  on_side ex symbol side o = false ↔
    ¬ (is_active o = true ∧ o_symbol o = symbol ∧ o_side o = side ∧ Some (o_id o) ≠ ex).
Proof. rewrite <- on_side_spec. by destruct (on_side _ _ _ _). Qed.

(** Every order is stored under its identifier. *)
Definition keyed (ords : dict string Order) : Prop :=
  dict_ok ords ∧ ∀ id o, dget id ords = Some o → o_id o = id.

Lemma keyed_ids ords : keyed ords → o_id <$> dvalues ords = dkeys ords.
Proof.
  intros [Hok Hid]. unfold dvalues, dkeys. rewrite <- list_fmap_compose. apply list_fmap_ext.
  intros i [k o] Hi. simpl. apply Hid. apply dget_Some; [done|]. by eapply list_elem_of_lookup_2.
Qed.

Lemma queue_ids ords ex symbol side : keyed ords → NoDup (e_id <$> queue ords ex symbol side).
Proof.
  intros Hk. unfold queue, selected. rewrite <- list_fmap_compose.
  change (e_id ∘ entry_of) with o_id. apply NoDup_fmap_filter. rewrite keyed_ids by done. apply Hk.
Qed.

Lemma queue_elem ords ex symbol side e :
  keyed ords →
  e ∈ queue ords ex symbol side ↔
    ∃ o, dget (e_id e) ords = Some o ∧ on_side ex symbol side o = true ∧ e = entry_of o.
Proof.
  intros Hk. unfold queue, selected. rewrite list_elem_of_fmap. split.
  - intros (o & -> & [Hs Ho]%list_elem_of_filter). apply elem_dvalues in Ho as [k Hkd]; [|apply Hk].
    exists o. split; [|done]. simpl. by rewrite (proj2 Hk k o Hkd).
  - intros (o & Hd & Hs & ->). exists o. split; [done|]. apply list_elem_of_filter.
    split; [done|]. apply elem_dvalues; [apply Hk|eauto].
Qed.

Lemma keyed_dset ords id o : keyed ords → o_id o = id → keyed (dset id o ords).
Proof.
  intros [Hok Hid] Ho. split; [by apply dset_ok|]. intros k x. rewrite dget_dset.
  case_decide; [intros [= <-]; congruence|apply Hid].
Qed.

(** Replacing a row: its entry stays out, leaves, or is reduced. *)
Lemma queue_same ords id o o' ex symbol side :
  dget id ords = Some o → on_side ex symbol side o = false → on_side ex symbol side o' = false →
  queue (dset id o' ords) ex symbol side = queue ords ex symbol side.
Proof.
  intros Hd H1 H2. destruct (dset_split id o o' ords Hd) as (d1 & d2 & Heq & ->).
  unfold queue, selected. rewrite Heq. unfold dvalues. rewrite !fmap_app, !fmap_cons, !filter_app. simpl.
  rewrite !filter_cons_False by congruence. done.
Qed.

Lemma queue_split ords id o o' ex symbol side :
  keyed ords → dget id ords = Some o → on_side ex symbol side o = true →
  ∃ q1 q2, queue ords ex symbol side = q1 ++ entry_of o :: q2 ∧ id ∉ e_id <$> q1 ∧ id ∉ e_id <$> q2 ∧
    queue (dset id o' ords) ex symbol side =
      q1 ++ (if on_side ex symbol side o' then [entry_of o'] else []) ++ q2.
Proof.
  intros Hk Hd H1. destruct (dset_split id o o' ords Hd) as (d1 & d2 & Heq & Hset).
  set (q1 := entry_of <$> selected (on_side ex symbol side) d1).
  set (q2 := entry_of <$> selected (on_side ex symbol side) d2).
  assert (queue ords ex symbol side = q1 ++ entry_of o :: q2) as Hq.
  { unfold queue, q1, q2, selected. rewrite Heq. unfold dvalues.
    rewrite !fmap_app, !fmap_cons, !filter_app. simpl. rewrite filter_cons_True by done. by rewrite fmap_app. }
  exists q1, q2. split; [done|].
  pose proof (queue_ids ords ex symbol side Hk) as Hnd. rewrite Hq, fmap_app, fmap_cons in Hnd.
  assert (e_id (entry_of o) = id) as Hid by apply (proj2 Hk id o Hd). rewrite Hid in Hnd.
  apply NoDup_app in Hnd as (_ & Hdis & Hnd). apply NoDup_cons in Hnd as [Hn _].
  split; [intros Hin; apply (Hdis _ Hin); left|]. split; [done|].
  unfold queue, q1, q2, selected. rewrite Hset. unfold dvalues.
  rewrite !fmap_app, !fmap_cons, !filter_app. simpl. rewrite filter_cons, fmap_app. f_equal.
  destruct (on_side ex symbol side o'); [rewrite decide_True by done|rewrite decide_False by done]; done.
Qed.

Lemma queue_removed ords id o o' ex symbol side :
  keyed ords → dget id ords = Some o → on_side ex symbol side o' = false →
  queue (dset id o' ords) ex symbol side = spec_remove id (queue ords ex symbol side).
Proof.
  intros Hk Hd H2. destruct (on_side ex symbol side o) eqn:H1.
  - destruct (queue_split ords id o o' ex symbol side Hk Hd H1) as (q1 & q2 & Hq & Hn1 & Hn2 & ->).
    rewrite H2, Hq. unfold spec_remove. rewrite filter_app, filter_cons_False.
    + fold (spec_remove id q1) (spec_remove id q2). by rewrite !spec_remove_absent.
    + intros Hx. apply Hx. apply (proj2 Hk id o Hd).
  - rewrite (queue_same ords id o) by done. rewrite spec_remove_absent; [done|].
    intros (e & -> & He)%list_elem_of_fmap. apply queue_elem in He as (x & Hx & Hsx & ->); [|done].
    simpl in *. congruence.
Qed.

Lemma queue_reduced ords id o o' c ex symbol side :
  keyed ords → dget id ords = Some o → on_side ex symbol side o = true → on_side ex symbol side o' = true →
  o_id o' = id → o_price o' = o_price o → o_remaining o' = o_remaining o - c →
  queue (dset id o' ords) ex symbol side = spec_consume id c (queue ords ex symbol side).
Proof.
  intros Hk Hd H1 H2 Hid Hp Hr.
  destruct (queue_split ords id o o' ex symbol side Hk Hd H1) as (q1 & q2 & Hq & Hn1 & Hn2 & ->).
  rewrite H2, Hq. unfold spec_consume. rewrite map_app. simpl.
  assert (∀ q, id ∉ e_id <$> q → map (λ e, if decide (e_id e = id)
    then mk_entry id (e_price e) (e_quantity e - c) else e) q = q) as Hsame.
  { induction q as [|x q IH]; intros Hx; simpl; [done|]. rewrite decide_False, IH; [done|set_solver|].
    intros <-. apply Hx. left. }
  rewrite !Hsame by done. rewrite decide_True by apply (proj2 Hk id o Hd).
  unfold entry_of. by rewrite Hid, Hp, Hr.
Qed.

Lemma queue_new ords id o ex symbol side :
  dget id ords = None →
  queue (dset id o ords) ex symbol side =
    queue ords ex symbol side ++ (if on_side ex symbol side o then [entry_of o] else []).
Proof.
  intros Hd%dget_None. rewrite dset_new by done. unfold queue, selected, dvalues.
  rewrite fmap_app, filter_app, fmap_app. f_equal. simpl. rewrite filter_cons.
  destruct (on_side ex symbol side o); [rewrite decide_True by done|rewrite decide_False by done]; done.
Qed.

(** ** Accounts *)

Definition cash_of (accs : dict string Account) (o : string) : Balance :=
  match dget o accs with Some a => cash a | None => mk_balance 0 0 end.
Definition pos_of (accs : dict string Account) (o s : string) : Balance :=
  match dget o accs with
  | Some a => match dget s (positions a) with Some b => b | None => mk_balance 0 0 end
  | None => mk_balance 0 0
  end.

(** Every account holds a position, possibly empty, in every symbol. *)
Definition accounts_ok (syms : list string) (accs : dict string Account) : Prop :=
  dict_ok accs ∧ ∀ o a, dget o accs = Some a → dkeys (positions a) = syms.

Section accounts.
Context (syms : list string) (st : State) (Hok : accounts_ok syms (accounts st)).

Lemma with_cash_spec o f :
  o ∈ dkeys (accounts st) →
  ∃ accs, with_cash st o f = Ok (set_accounts st accs) ∧ accounts_ok syms accs ∧
    dkeys accs = dkeys (accounts st) ∧
    (∀ x, cash_of accs x = if decide (x = o) then f (cash_of (accounts st) o) else cash_of (accounts st) x) ∧
    ∀ x s, pos_of accs x s = pos_of (accounts st) x s.
Proof.
  intros Ho. destruct (dget_key _ _ Ho) as [a Ha]. unfold with_cash, dlookup. rewrite Ha. simpl.
  eexists. split; [done|]. split; [|split; [by apply dkeys_dset_in|split]].
  - split; [apply dset_ok, Hok|]. intros x b. rewrite dget_dset. case_decide; [|apply Hok].
    intros [= <-]. simpl. by apply (proj2 Hok o).
  - intros x. unfold cash_of. rewrite dget_dset, Ha.
    destruct (decide (o = x)) as [->|]; [by rewrite decide_True|by rewrite decide_False].
  - intros x s. unfold pos_of. rewrite dget_dset. case_decide; [subst; by rewrite Ha|done].
Qed.

Lemma with_position_spec o s f :
  o ∈ dkeys (accounts st) → s ∈ syms →
  ∃ accs, with_position st o s f = Ok (set_accounts st accs) ∧ accounts_ok syms accs ∧
    dkeys accs = dkeys (accounts st) ∧
    (∀ x, cash_of accs x = cash_of (accounts st) x) ∧
    ∀ x y, pos_of accs x y =
      if decide (x = o ∧ y = s) then f (pos_of (accounts st) o s) else pos_of (accounts st) x y.
Proof.
  intros Ho Hs. destruct (dget_key _ _ Ho) as [a Ha].
  pose proof (proj2 Hok o a Ha) as Hkeys. rewrite <- Hkeys in Hs.
  destruct (dget_key _ _ Hs) as [b Hb]. unfold with_position, dlookup. rewrite Ha. simpl. rewrite Hb. simpl.
  eexists. split; [done|]. split; [|split; [by apply dkeys_dset_in|split]].
  - split; [apply dset_ok, Hok|]. intros x c. rewrite dget_dset. case_decide; [|apply Hok].
    intros [= <-]. simpl. by rewrite dkeys_dset_in.
  - intros x. unfold cash_of. rewrite dget_dset. case_decide; [subst; by rewrite Ha|done].
  - intros x y. unfold pos_of. rewrite dget_dset. destruct (decide (o = x)) as [<-|Hne].
    + rewrite Ha. simpl. rewrite dget_dset, Hb.
      destruct (decide (s = y)) as [<-|]; [by rewrite decide_True|rewrite decide_False; [done|]].
      intros [_ ->]. done.
    + rewrite decide_False; [done|]. intros [-> _]. done.
Qed.
End accounts.

(** ** Reservations and flows *)

Definition reserved_cash (o : string) (ord : Order) : Z :=
  if is_active ord && bool_decide (o_owner ord = o) && bool_decide (o_side ord = BUY)
  then o_remaining ord * o_price ord else 0.
Definition reserved_shares (o s : string) (ord : Order) : Z :=
  if is_active ord && bool_decide (o_owner ord = o) && bool_decide (o_side ord = SELL)
     && bool_decide (o_symbol ord = s)
  then o_remaining ord else 0.

Definition cash_flow (o : string) (t : Trade) : Z :=
  when (bool_decide (t_seller t = o)) (t_quantity t * t_price t)
  - when (bool_decide (t_buyer t = o)) (t_quantity t * t_price t).
Definition share_flow (o s : string) (t : Trade) : Z :=
  when (bool_decide (t_buyer t = o ∧ t_symbol t = s)) (t_quantity t)
  - when (bool_decide (t_seller t = o ∧ t_symbol t = s)) (t_quantity t).
Definition executed (id : string) (t : Trade) : Z :=
  when (bool_decide (t_buy_order t = id)) (t_quantity t)
  + when (bool_decide (t_sell_order t = id)) (t_quantity t).

Definition opening_cash_of (set : Settings) (o : string) : Z :=
  match dget o (s_accounts set) with Some a => opening_cash a | None => 0 end.
Definition opening_shares_of (set : Settings) (o s : string) : Z :=
  match dget o (s_accounts set) with
  | Some a => if bool_decide (s ∈ symbols set) then dget_or 0 s (opening_positions a) else 0
  | None => 0
  end.

(** The money of every account: what is reserved, what is free, and where it
    came from. *)
Record money_ok (set : Settings) (accs : dict string Account) (ords : list Order) (trs : list Trade)
    : Prop := {
  mo_accounts : accounts_ok (symbols set) accs;
  mo_owners : dkeys accs = dkeys (s_accounts set);
  mo_cash : ∀ o, held (cash_of accs o) = zsum (reserved_cash o) ords;
  mo_shares : ∀ o s, held (pos_of accs o s) = zsum (reserved_shares o s) ords;
  mo_free_cash : ∀ o, 0 <= available (cash_of accs o);
  mo_free_shares : ∀ o s, 0 <= available (pos_of accs o s);
  mo_cash_flow : ∀ o, available (cash_of accs o) + held (cash_of accs o) =
    opening_cash_of set o + zsum (cash_flow o) trs;
  mo_share_flow : ∀ o s, available (pos_of accs o s) + held (pos_of accs o s) =
    opening_shares_of set o s + zsum (share_flow o s) trs;
}.

(** A row of the order table. *)
Record order_ok (set : Settings) (accs : list string) (trs : list Trade) (id : string) (o : Order) : Prop := {
  oo_id : o_id o = id;
  oo_owner : o_owner o ∈ accs;
  oo_symbol : o_symbol o ∈ symbols set;
  oo_price : 1 <= o_price o;
  oo_remaining : 0 <= o_remaining o;
  oo_filled : 0 <= o_filled o;
  oo_quantity : o_filled o + o_remaining o = o_quantity o;
  oo_active : is_active o = true → 0 < o_remaining o;
  oo_status : o_status o = FILLED → o_remaining o = 0;
  oo_inactive : o_remaining o ≠ 0 → is_active o = true ∨ o_status o = CANCELED;
  oo_executed : o_filled o = zsum (executed id) trs;
}.

(** A trade is between two different owners, within both limits. *)
Definition trade_ok (ords : dict string Order) (t : Trade) : Prop :=
  ∃ bid ask, dget (t_buy_order t) ords = Some bid ∧ dget (t_sell_order t) ords = Some ask ∧
    o_side bid = BUY ∧ o_side ask = SELL ∧ o_owner bid = t_buyer t ∧ o_owner ask = t_seller t ∧
    o_symbol bid = t_symbol t ∧ o_symbol ask = t_symbol t ∧
    o_price ask <= t_price t <= o_price bid ∧ 0 < t_quantity t ∧ t_buyer t ≠ t_seller t.

Record rows_ok (set : Settings) (accs : list string) (ords : dict string Order) (trs : list Trade)
    (executions : Z) : Prop := {
  ro_orders : dict_ok ords;
  ro_order : ∀ id o, dget id ords = Some o → order_ok set accs trs id o;
  ro_trades : ∀ t, t ∈ trs → trade_ok ords t;
  ro_executions : t_execution_seq <$> trs = seqZ 1 executions;
  ro_count : executions = Z.of_nat (length trs);
}.

(** The books are the queues of the active orders, and do not cross. *)
Definition books_ok (syms : list string) (ords : dict string Order) (ex : option string)
    (idx : dict string Book) : Prop :=
  ∀ symbol, symbol ∈ syms → ∃ b, dget symbol idx = Some b ∧
    ∀ side, side_rep side (side_of b side) (queue ords ex symbol side).

Definition uncrossed (ords : dict string Order) (ex : option string) : Prop :=
  ∀ symbol b a, b ∈ queue ords ex symbol BUY → a ∈ queue ords ex symbol SELL → e_price b < e_price a.

Record inv (ex : option string) (st : State) : Prop := {
  i_money : money_ok (settings st) (accounts st) (dvalues (orders st)) (trades st);
  i_rows : rows_ok (settings st) (dkeys (accounts st)) (orders st) (trades st) (execution_seq st);
  i_books : books_ok (symbols (settings st)) (orders st) ex (book_index st);
  i_uncrossed : uncrossed (orders st) ex;
  i_index : dkeys (book_index st) = symbols (settings st);
}.

(** The rest of the state does not matter to the invariant. *)
Lemma inv_ext ex st st' :
  accounts st' = accounts st → orders st' = orders st → trades st' = trades st →
  settings st' = settings st → book_index st' = book_index st → execution_seq st' = execution_seq st →
  inv ex st → inv ex st'.
Proof. intros E1 E2 E3 E4 E5 E6 []. split; rewrite ?E1, ?E2, ?E3, ?E4, ?E5, ?E6; done. Qed.

Lemma inv_keyed ex st : inv ex st → keyed (orders st).
Proof.
  intros [_ [Hd Ho _ _ _] _ _ _]. split; [done|]. intros id o Hid. by apply (oo_id _ _ _ _ _ (Ho id o Hid)).
Qed.

(** ** How the parts change *)

Lemma remove_any side s l id :
  side_rep side s l → ∃ s', remove_order side s id = Ok s' ∧ side_rep side s' (spec_remove id l).
Proof.
  intros Hrep. pose proof (book_step_refines side s l (Remove id) Hrep) as (s' & Hs & Hr).
  simpl in Hs. destruct (remove_order side s id) as [x|e]; [|done]. injection Hs as ->. by exists s'.
Qed.

Lemma side_of_set b side side' s :
  side_of (set_side b side s) side' = if decide (side' = side) then s else side_of b side'.
Proof. by destruct side, side'. Qed.

Lemma books_update syms ords ords' ex ex' idx symbol side b s :
  books_ok syms ords ex idx → dget symbol idx = Some b →
  side_rep side s (queue ords' ex' symbol side) →
  (∀ symbol' side', symbol' ∈ syms → (symbol' = symbol → side' ≠ side) →
     queue ords' ex' symbol' side' = queue ords ex symbol' side') →
  books_ok syms ords' ex' (dset symbol (set_side b side s) idx).
Proof.
  intros Hb Hd Hs Hother symbol' Hin. destruct (Hb symbol' Hin) as (b' & Hb' & Hreps).
  rewrite dget_dset. case_decide as He.
  - subst symbol'. assert (b' = b) as -> by congruence. eexists. split; [done|].
    intros side'. rewrite side_of_set. case_decide; [by subst|]. rewrite Hother by done. apply Hreps.
  - exists b'. split; [done|]. intros side'. rewrite Hother by (done || congruence). apply Hreps.
Qed.

(** The orders change, and no queue does. *)
Lemma books_same syms ords ords' ex ex' idx :
  books_ok syms ords ex idx →
  (∀ symbol side, symbol ∈ syms → queue ords' ex' symbol side = queue ords ex symbol side) →
  books_ok syms ords' ex' idx.
Proof.
  intros Hb Hq symbol Hin. destruct (Hb symbol Hin) as (b & Hd & Hr). exists b. split; [done|].
  intros side. rewrite Hq by done. apply Hr.
Qed.

Lemma uncrossed_sub ords ords' ex ex' :
  uncrossed ords ex →
  (∀ symbol side e, e ∈ queue ords' ex' symbol side →
     ∃ e', e' ∈ queue ords ex symbol side ∧ e_price e' = e_price e) →
  uncrossed ords' ex'.
Proof.
  intros Hu Hsub symbol b a Hb Ha. destruct (Hsub _ _ _ Hb) as (b' & Hb' & <-).
  destruct (Hsub _ _ _ Ha) as (a' & Ha' & <-). by apply (Hu symbol).
Qed.

(** The fields of a row that never change. *)
Definition static (o o' : Order) : Prop :=
  o_id o' = o_id o ∧ o_side o' = o_side o ∧ o_owner o' = o_owner o ∧ o_symbol o' = o_symbol o ∧
  o_price o' = o_price o ∧ o_quantity o' = o_quantity o ∧ o_seq o' = o_seq o ∧ o_day o' = o_day o ∧
  o_timestamp o' = o_timestamp o.

Lemma trade_ok_dset ords id o o' t :
  dget id ords = Some o → static o o' → trade_ok ords t → trade_ok (dset id o' ords) t.
Proof.
  intros Hd (_ & S2 & S3 & S4 & S5 & _) (bid & ask & Hb & Ha & H1 & H2 & H3 & H4 & H5 & H6 & H7 & H8 & H9).
  assert (∀ k x, dget k ords = Some x → ∃ x', dget k (dset id o' ords) = Some x' ∧
    o_side x' = o_side x ∧ o_owner x' = o_owner x ∧ o_symbol x' = o_symbol x ∧ o_price x' = o_price x) as Hx.
  { intros k x Hkx. rewrite dget_dset. case_decide; [|by exists x]. subst k.
    assert (x = o) as -> by congruence. by exists o'. }
  destruct (Hx _ _ Hb) as (b' & Hb' & B1 & B2 & B3 & B4). destruct (Hx _ _ Ha) as (a' & Ha' & A1 & A2 & A3 & A4).
  exists b', a'. rewrite B1, B2, B3, B4, A1, A2, A3, A4. done.
Qed.

Lemma trade_ok_new ords id o t : dget id ords = None → trade_ok ords t → trade_ok (dset id o ords) t.
Proof.
  intros Hd (bid & ask & Hb & Ha & H). exists bid, ask.
  assert (id ≠ t_buy_order t ∧ id ≠ t_sell_order t) as [? ?] by (split; congruence).
  by rewrite !dget_dset_ne.
Qed.

Lemma rows_dset set accs ords trs n id o o' :
  rows_ok set accs ords trs n → dget id ords = Some o → static o o' → order_ok set accs trs id o' →
  rows_ok set accs (dset id o' ords) trs n.
Proof.
  intros [Hd Ho Ht He Hn] Hid Hst Hok. split; [by apply dset_ok| | |done|done].
  - intros k x. rewrite dget_dset. case_decide; [intros [= <-]; by subst|apply Ho].
  - intros t Hin. by apply (trade_ok_dset _ _ o), Ht.
Qed.

Lemma reserved_inactive o s ord :
  is_active ord = false → reserved_cash o ord = 0 ∧ reserved_shares o s ord = 0.
Proof. intros Ha. unfold reserved_cash, reserved_shares. by rewrite Ha. Qed.

(** ** Release *)

Definition canceled (o : Order) (reason : string) : Order := set_status o CANCELED reason.

Lemma release_books set accs ords trs n ex idx id o reason :
  rows_ok set accs ords trs n → books_ok (symbols set) ords ex idx →
  dget id ords = Some o →
  ∃ b s, dget (o_symbol o) idx = Some b ∧
    remove_order (o_side o) (side_of b (o_side o)) (o_id o) = Ok s ∧
    books_ok (symbols set) (dset id (canceled o reason) ords) ex
      (dset (o_symbol o) (set_side b (o_side o) s) idx).
Proof.
  intros Hrows Hbooks Hid. pose proof (ro_order _ _ _ _ _ Hrows id o Hid) as Hoo.
  destruct (Hbooks (o_symbol o) (oo_symbol _ _ _ _ _ Hoo)) as (b & Hb & Hreps).
  destruct (remove_any _ _ _ (o_id o) (Hreps (o_side o))) as (s & Hs & Hr).
  assert (keyed ords) as Hk.
  { split; [apply Hrows|]. intros k x Hx. apply (oo_id _ _ _ _ _ (ro_order _ _ _ _ _ Hrows k x Hx)). }
  exists b, s. split; [done|]. split; [done|].
  assert (∀ ex' symbol side, on_side ex' symbol side (canceled o reason) = false) as Hoff.
  { intros ex' symbol side. by apply on_side_false; intros [? _]. }
  apply (books_update _ ords _ ex ex); [done..| |].
  - rewrite (queue_removed ords id o) by done. by rewrite <- (oo_id _ _ _ _ _ Hoo).
  - intros symbol' side' _ Hne. rewrite (queue_same ords id o); [done|done| |done].
    apply on_side_false. intros (_ & <- & <- & _). by apply Hne.
Qed.

(** Moving a reservation between the two halves of a balance. *)
Lemma money_moved set st (ords' : dict string Order) owner n trs :
  money_ok set (accounts st) (dvalues (orders st)) trs →
  owner ∈ dkeys (accounts st) → 0 <= n + available (cash_of (accounts st) owner) →
  (∀ x, zsum (reserved_cash x) (dvalues ords') =
     zsum (reserved_cash x) (dvalues (orders st)) - when (bool_decide (owner = x)) n) →
  (∀ x s, zsum (reserved_shares x s) (dvalues ords') = zsum (reserved_shares x s) (dvalues (orders st))) →
  ∃ accs, (let* st := with_cash st owner (add_held (- n)) in with_cash st owner (add_available n)) =
            Ok (set_accounts st accs) ∧
    (let* st := with_cash st owner (add_available n) in with_cash st owner (add_held (- n))) =
            Ok (set_accounts st accs) ∧
    dkeys accs = dkeys (accounts st) ∧ money_ok set accs (dvalues ords') trs.
Proof.
  intros [M1 M2 M3 M4 M5 M6 M7 M8] Ho Hn Hc Hs.
  destruct (with_cash_spec _ st M1 owner (add_held (- n)) Ho) as (a1 & E1 & O1 & K1 & C1 & P1).
  destruct (with_cash_spec _ (set_accounts st a1) O1 owner (add_available n)) as (a2 & E2 & O2 & K2 & C2 & P2);
    [simpl; by rewrite K1|].
  exists a2. split; [rewrite E1; simpl; by rewrite E2|]. split.
  { clear -Ho E1 E2. unfold with_cash, dlookup in *. simpl in *. destruct (dget_key _ _ Ho) as [a Ha].
    rewrite Ha in *. simpl in *. injection E1 as <-. rewrite dget_dset_eq in *. simpl in *.
    injection E2 as <-. unfold set_accounts. simpl. do 2 f_equal. rewrite !dset_dset.
    unfold add_available, add_held. done. }
  simpl in K2, C2, P2. split; [congruence|].
  assert (∀ x, cash_of a2 x = if decide (x = owner)
    then mk_balance (available (cash_of (accounts st) x) + n) (held (cash_of (accounts st) x) - n)
    else cash_of (accounts st) x) as Hcash.
  { intros x. rewrite C2, !C1. case_decide; [|done]. subst. rewrite decide_True by done.
    unfold add_available, add_held. simpl. f_equal; lia. }
  split; try done.
  - congruence.
  - intros x. rewrite Hcash, Hc, <- M3. unfold when. case_decide; subst.
    + rewrite bool_decide_true by done. simpl. lia.
    + rewrite bool_decide_false by congruence. lia.
  - intros x y. rewrite P2, P1, Hs. apply M4.
  - intros x. rewrite Hcash. case_decide; [subst; simpl; lia|apply M5].
  - intros x y. rewrite P2, P1. apply M6.
  - intros x. rewrite Hcash, <- M7. case_decide; simpl; lia.
  - intros x y. rewrite P2, P1. apply M8.
Qed.

Lemma shares_moved set st (ords' : dict string Order) owner symbol n trs :
  money_ok set (accounts st) (dvalues (orders st)) trs →
  owner ∈ dkeys (accounts st) → symbol ∈ symbols set → 0 <= n + available (pos_of (accounts st) owner symbol) →
  (∀ x, zsum (reserved_cash x) (dvalues ords') = zsum (reserved_cash x) (dvalues (orders st))) →
  (∀ x s, zsum (reserved_shares x s) (dvalues ords') =
     zsum (reserved_shares x s) (dvalues (orders st)) - when (bool_decide (owner = x ∧ symbol = s)) n) →
  ∃ accs, (let* st := with_position st owner symbol (add_held (- n)) in
           with_position st owner symbol (add_available n)) = Ok (set_accounts st accs) ∧
    (let* st := with_position st owner symbol (add_available n) in
     with_position st owner symbol (add_held (- n))) = Ok (set_accounts st accs) ∧
    dkeys accs = dkeys (accounts st) ∧ money_ok set accs (dvalues ords') trs.
Proof.
  intros [M1 M2 M3 M4 M5 M6 M7 M8] Ho Hsym Hn Hc Hs.
  destruct (with_position_spec _ st M1 owner symbol (add_held (- n)) Ho Hsym) as (a1 & E1 & O1 & K1 & C1 & P1).
  destruct (with_position_spec _ (set_accounts st a1) O1 owner symbol (add_available n))
    as (a2 & E2 & O2 & K2 & C2 & P2); [simpl; by rewrite K1|done|].
  exists a2. split; [rewrite E1; simpl; by rewrite E2|]. split.
  { clear -Ho Hsym M1 E1 E2. unfold with_position, dlookup in *. simpl in *. destruct (dget_key _ _ Ho) as [a Ha].
    rewrite Ha in *. simpl in *. rewrite <- (proj2 M1 owner a Ha) in Hsym.
    destruct (dget_key _ _ Hsym) as [b Hb]. rewrite Hb in *. simpl in *.
    injection E1 as <-. rewrite dget_dset_eq in *. simpl in *. rewrite dget_dset_eq in *. simpl in *.
    injection E2 as <-. unfold set_accounts. simpl. do 2 f_equal. rewrite !dset_dset.
    unfold add_available, add_held. done. }
  simpl in K2, C2, P2. split; [congruence|].
  assert (∀ x y, pos_of a2 x y = if decide (x = owner ∧ y = symbol)
    then mk_balance (available (pos_of (accounts st) x y) + n) (held (pos_of (accounts st) x y) - n)
    else pos_of (accounts st) x y) as Hpos.
  { intros x y. rewrite P2, !P1. case_decide as Hd; [|done]. destruct Hd as [-> ->].
    rewrite decide_True by done. unfold add_available, add_held. simpl. f_equal; lia. }
  split; try done.
  - congruence.
  - intros x. rewrite C2, C1, Hc. apply M3.
  - intros x y. rewrite Hpos, Hs, <- M4. unfold when. case_decide as Hd.
    + destruct Hd as [-> ->]. rewrite bool_decide_true by done. simpl. lia.
    + rewrite bool_decide_false by naive_solver. lia.
  - intros x. rewrite C2, C1. apply M5.
  - intros x y. rewrite Hpos. case_decide as Hd; [destruct Hd as [-> ->]; simpl; lia|apply M6].
  - intros x. rewrite C2, C1. apply M7.
  - intros x y. rewrite Hpos, <- M8. case_decide; simpl; lia.
Qed.

Lemma reserved_of o x s :
  is_active o = true →
  reserved_cash x o = when (bool_decide (o_side o = BUY)) (when (bool_decide (o_owner o = x)) (o_remaining o * o_price o)) ∧
  reserved_shares x s o = when (bool_decide (o_side o = SELL))
    (when (bool_decide (o_owner o = x ∧ o_symbol o = s)) (o_remaining o)).
Proof.
  intros Ha. unfold reserved_cash, reserved_shares, when. rewrite Ha.
  repeat case_bool_decide; simpl; naive_solver.
Qed.

Lemma release_spec ex st id o reason :
  inv ex st → dget id (orders st) = Some o → is_active o = true →
  ∃ st', release st id reason = Ok st' ∧ inv ex st' ∧
    orders st' = dset id (canceled o reason) (orders st) ∧ trades st' = trades st ∧
    settings st' = settings st ∧ dkeys (accounts st') = dkeys (accounts st) ∧
    results st' = results st ∧ daily st' = daily st ∧ last_seq st' = last_seq st ∧
    last_timestamp st' = last_timestamp st.
Proof.
  intros [Hm Hr Hb Hu Hi] Hid Hact. pose proof (ro_order _ _ _ _ _ Hr id o Hid) as Hoo.
  destruct (release_books _ _ _ _ _ ex _ id o reason Hr Hb Hid) as (b & s & Hbk & Hs & Hb').
  unfold release. unfold dlookup at 1. rewrite Hid. cbn [rbind]. unfold with_side, dlookup. rewrite Hbk. cbn [rbind].
  rewrite Hs. cbn [rbind].
  set (st1 := set_books st (dset (o_symbol o) (set_side b (o_side o) s) (book_index st))).
  assert (order_ok (settings st) (dkeys (accounts st)) (trades st) id (canceled o reason)) as Hoo'.
  { destruct Hoo. split; simpl; try done. by right. }
  assert (rows_ok (settings st) (dkeys (accounts st)) (dset id (canceled o reason) (orders st)) (trades st)
    (execution_seq st)) as Hr' by (by apply (rows_dset _ _ _ _ _ _ o)).
  assert (uncrossed (dset id (canceled o reason) (orders st)) ex) as Hu'.
  { eapply uncrossed_sub; [exact Hu|]. intros symbol side e He.
    rewrite (queue_removed (orders st) id o) in He; [|by eapply inv_keyed|done|].
    - apply spec_remove_elem in He as [He _]. by exists e.
    - by apply on_side_false; intros [? _]. }
  assert (∀ accs, dkeys accs = dkeys (accounts st) →
    money_ok (settings st) accs (dvalues (dset id (canceled o reason) (orders st))) (trades st) →
    ∃ st', with_order (set_accounts st1 accs) id (λ o, set_status o CANCELED reason) = Ok st' ∧ inv ex st' ∧
      orders st' = dset id (canceled o reason) (orders st) ∧ trades st' = trades st ∧
      settings st' = settings st ∧ dkeys (accounts st') = dkeys (accounts st) ∧
      results st' = results st ∧ daily st' = daily st ∧ last_seq st' = last_seq st ∧
      last_timestamp st' = last_timestamp st) as Hdone.
  { intros accs Hk Hmo. unfold with_order, dlookup. simpl. rewrite Hid. simpl. eexists. split; [done|].
    split; [|done]. split; simpl; try done; [by rewrite Hk|].
    rewrite dkeys_dset_in; [done|by eapply dget_in_key]. }
  pose proof (oo_remaining _ _ _ _ _ Hoo). pose proof (oo_price _ _ _ _ _ Hoo).
  pose proof (oo_owner _ _ _ _ _ Hoo) as Hown. pose proof (oo_symbol _ _ _ _ _ Hoo) as Hsym.
  assert (∀ f, f (canceled o reason) = 0 → zsum f (dvalues (dset id (canceled o reason) (orders st))) =
    zsum f (dvalues (orders st)) - f o) as Hsum by (intros f Hf; rewrite (zsum_dset f id o); [lia|done]).
  destruct (o_side o) eqn:Hside.
  - destruct (money_moved _ st1 (dset id (canceled o reason) (orders st)) (o_owner o)
      (o_remaining o * o_price o) _ Hm Hown) as (accs & E & _ & Hk & Hmo).
    { pose proof (mo_free_cash _ _ _ _ Hm (o_owner o)). simpl. nia. }
    { intros x. rewrite Hsum, (proj1 (reserved_of o x "" Hact)) by done. by rewrite Hside. }
    { intros x y. rewrite Hsum, (proj2 (reserved_of o x y Hact)) by done. rewrite Hside. simpl. lia. }
    rewrite E. cbn [rbind]. by apply Hdone.
  - destruct (shares_moved _ st1 (dset id (canceled o reason) (orders st)) (o_owner o) (o_symbol o)
      (o_remaining o) _ Hm Hown Hsym) as (accs & E & _ & Hk & Hmo).
    { pose proof (mo_free_shares _ _ _ _ Hm (o_owner o) (o_symbol o)). simpl. nia. }
    { intros x. rewrite Hsum, (proj1 (reserved_of o x "" Hact)) by done. rewrite Hside. simpl. lia. }
    { intros x y. rewrite Hsum, (proj2 (reserved_of o x y Hact)) by done. by rewrite Hside. }
    rewrite E. cbn [rbind]. by apply Hdone.
Qed.

(** ** Execution *)

Lemma settle_accounts syms st buyer seller symbol limit price count :
  accounts_ok syms (accounts st) → buyer ∈ dkeys (accounts st) → seller ∈ dkeys (accounts st) →
  symbol ∈ syms →
  ∃ accs, settle st buyer seller symbol limit price count = Ok (set_accounts st accs) ∧
    accounts_ok syms accs ∧ dkeys accs = dkeys (accounts st) ∧
    (∀ x, held (cash_of accs x) = held (cash_of (accounts st) x) - when (bool_decide (buyer = x)) (limit * count) ∧
          available (cash_of accs x) = available (cash_of (accounts st) x)
            + when (bool_decide (buyer = x)) ((limit - price) * count)
            + when (bool_decide (seller = x)) (price * count)) ∧
    (∀ x s, held (pos_of accs x s) = held (pos_of (accounts st) x s)
              - when (bool_decide (seller = x ∧ symbol = s)) count ∧
            available (pos_of accs x s) = available (pos_of (accounts st) x s)
              + when (bool_decide (buyer = x ∧ symbol = s)) count).
Proof.
  intros Hok Hb Hs Hsym. unfold settle.
  destruct (with_cash_spec syms st Hok buyer (add_held (- (limit * count))) Hb) as (a1 & -> & O1 & K1 & C1 & P1).
  destruct (with_cash_spec syms (set_accounts st a1) O1 buyer (add_available ((limit - price) * count)))
    as (a2 & E2 & O2 & K2 & C2 & P2); [simpl; congruence|].
  destruct (with_cash_spec syms (set_accounts st a2) O2 seller (add_available (price * count)))
    as (a3 & E3 & O3 & K3 & C3 & P3); [simpl in *; congruence|].
  destruct (with_position_spec syms (set_accounts st a3) O3 seller symbol (add_held (- count)))
    as (a4 & E4 & O4 & K4 & C4 & P4); [simpl in *; congruence|done|].
  destruct (with_position_spec syms (set_accounts st a4) O4 buyer symbol (add_available count))
    as (a5 & E5 & O5 & K5 & C5 & P5); [simpl in *; congruence|done|].
  exists a5. cbn [rbind]. rewrite E2. cbn [rbind]. 
  replace (set_accounts (set_accounts st a1) a2) with (set_accounts st a2) by done. rewrite E3. cbn [rbind].
  replace (set_accounts (set_accounts st a2) a3) with (set_accounts st a3) by done. rewrite E4. cbn [rbind].
  replace (set_accounts (set_accounts st a3) a4) with (set_accounts st a4) by done. rewrite E5.
  simpl in *. split; [done|]. split; [done|]. split; [congruence|]. split.
  - intros x. rewrite C5, C4, C3, !C2, !C1. unfold when, add_available, add_held.
    repeat case_decide; repeat case_bool_decide; simpl; subst; try congruence; lia.
  - intros x s. rewrite P5, !P4, !P3, !P2, !P1. unfold when, add_available, add_held.
    repeat case_decide; repeat case_bool_decide; simpl; destruct_and?; subst; try tauto; lia.
Qed.

Lemma trade_money set st (ords' : dict string Order) t limit trs :
  money_ok set (accounts st) (dvalues (orders st)) trs →
  t_buyer t ∈ dkeys (accounts st) → t_seller t ∈ dkeys (accounts st) → t_symbol t ∈ symbols set →
  0 < t_quantity t → 1 <= t_price t <= limit →
  (∀ x, zsum (reserved_cash x) (dvalues ords') = zsum (reserved_cash x) (dvalues (orders st))
     - when (bool_decide (t_buyer t = x)) (limit * t_quantity t)) →
  (∀ x s, zsum (reserved_shares x s) (dvalues ords') = zsum (reserved_shares x s) (dvalues (orders st))
     - when (bool_decide (t_seller t = x ∧ t_symbol t = s)) (t_quantity t)) →
  ∃ accs, settle st (t_buyer t) (t_seller t) (t_symbol t) limit (t_price t) (t_quantity t) =
            Ok (set_accounts st accs) ∧
    dkeys accs = dkeys (accounts st) ∧ money_ok set accs (dvalues ords') (trs ++ [t]).
Proof.
  intros [M1 M2 M3 M4 M5 M6 M7 M8] Hb Hs Hsym Hq Hp Hc Hsh.
  destruct (settle_accounts _ st _ _ _ limit (t_price t) (t_quantity t) M1 Hb Hs Hsym)
    as (accs & E & O & K & C & P).
  exists accs. split; [done|]. split; [done|]. split; [done|congruence|..].
  - intros x. destruct (C x) as [-> _]. rewrite Hc, M3. lia.
  - intros x s. destruct (P x s) as [-> _]. rewrite Hsh, M4. lia.
  - intros x. destruct (C x) as [_ ->]. specialize (M5 x). unfold when. repeat case_bool_decide; nia.
  - intros x s. destruct (P x s) as [_ ->]. specialize (M6 x s). unfold when. repeat case_bool_decide; nia.
  - intros x. destruct (C x) as [-> ->]. rewrite zsum_app. specialize (M7 x). simpl. unfold cash_flow, when in *.
    repeat case_bool_decide; nia.
  - intros x s. destruct (P x s) as [-> ->]. rewrite zsum_app. specialize (M8 x s). simpl.
    unfold share_flow, when in *. repeat case_bool_decide; lia.
Qed.

Lemma fill_static c o : static o (fill_order c o).
Proof. done. Qed.

Lemma fill_active c o : is_active (fill_order c o) = negb (o_remaining o - c =? 0).
Proof. unfold is_active, fill_order. simpl. by destruct (_ =? 0). Qed.

Lemma fill_order_ok set accs trs id o c t :
  order_ok set accs trs id o → 0 < c <= o_remaining o → executed id t = c →
  order_ok set accs (trs ++ [t]) id (fill_order c o).
Proof.
  intros [] Hc Ht. split; rewrite ?fill_active; simpl; try done; try lia.
  - destruct (Z.eqb_spec (o_remaining o - c) 0); [intros; lia|done].
  - rewrite zsum_app. simpl. lia.
Qed.

Lemma order_ok_app set accs trs id o t :
  order_ok set accs trs id o → executed id t = 0 → order_ok set accs (trs ++ [t]) id o.
Proof. intros [] Ht. split; try done. rewrite zsum_app. simpl. lia. Qed.

Lemma fill_reserved c o x s :
  is_active o = true →
  reserved_cash x (fill_order c o) = reserved_cash x o
    - when (bool_decide (o_side o = BUY)) (when (bool_decide (o_owner o = x)) (c * o_price o)) ∧
  reserved_shares x s (fill_order c o) = reserved_shares x s o
    - when (bool_decide (o_side o = SELL)) (when (bool_decide (o_owner o = x ∧ o_symbol o = s)) c).
Proof.
  intros Ha. destruct (reserved_of o x s Ha) as [-> ->]. unfold reserved_cash, reserved_shares.
  rewrite fill_active. destruct (Z.eqb_spec (o_remaining o - c) 0) as [Hz|Hz]; simpl; unfold when;
    split; repeat case_bool_decide; simpl; destruct_and?; subst; try tauto; nia.
Qed.

(** The bid and the ask of an execution. *)
Definition bid_of (o m : Order) : Order := match o_side o with BUY => o | SELL => m end.
Definition ask_of (o m : Order) : Order := match o_side o with BUY => m | SELL => o end.

Definition trade_of (st : State) (o m : Order) (trade_index : Z) : Trade :=
  mk_trade ("trade_" +:+ pretty (o_seq o) +:+ "_" +:+ pretty trade_index) (execution_seq st + 1) (o_seq o)
    (o_symbol o) (o_price m) (Z.min (o_remaining o) (o_remaining m)) (o_timestamp o)
    (o_id (bid_of o m)) (o_id (ask_of o m)) (o_owner (bid_of o m)) (o_owner (ask_of o m)).

(** Both rows after an execution. *)
Definition filled_orders (st : State) (o m : Order) (c : Z) : dict string Order :=
  dset (o_id m) (fill_order c m) (dset (o_id o) (fill_order c o) (orders st)).

Section execution.
Context (st : State) (o m : Order) (trade_index : Z).
Context (Hinv : inv (Some (o_id o)) st).
Context (Ho : dget (o_id o) (orders st) = Some o) (Hm : dget (o_id m) (orders st) = Some m).
Context (Ha : is_active o = true) (Hon : on_side (Some (o_id o)) (o_symbol o) (opposite (o_side o)) m = true).
Context (Hcross : crosses (o_side o) (o_price o) (o_price m) = true) (Hown : o_owner m ≠ o_owner o).
Let c := Z.min (o_remaining o) (o_remaining m).
Let t := trade_of st o m trade_index.

Lemma maker_facts :
  is_active m = true ∧ o_symbol m = o_symbol o ∧ o_side m = opposite (o_side o) ∧ o_id m ≠ o_id o.
Proof. apply on_side_spec in Hon as (H1 & H2 & H3 & H4). split_and!; try done. congruence. Qed.

Lemma both_ok :
  order_ok (settings st) (dkeys (accounts st)) (trades st) (o_id o) o ∧
  order_ok (settings st) (dkeys (accounts st)) (trades st) (o_id m) m ∧
  0 < c ∧ c <= o_remaining o ∧ c <= o_remaining m.
Proof.
  pose proof (ro_order _ _ _ _ _ (i_rows _ _ Hinv) _ _ Ho) as Hoo.
  pose proof (ro_order _ _ _ _ _ (i_rows _ _ Hinv) _ _ Hm) as Hom.
  split; [done|]. split; [done|]. destruct maker_facts as (Hma & _).
  pose proof (oo_active _ _ _ _ _ Hoo Ha). pose proof (oo_active _ _ _ _ _ Hom Hma). unfold c. lia.
Qed.

Lemma parties :
  o_side (bid_of o m) = BUY ∧ o_side (ask_of o m) = SELL ∧
  o_price (ask_of o m) <= o_price m <= o_price (bid_of o m) ∧
  o_owner (bid_of o m) ≠ o_owner (ask_of o m) ∧
  (bid_of o m = o ∧ ask_of o m = m ∨ bid_of o m = m ∧ ask_of o m = o).
Proof.
  destruct maker_facts as (_ & _ & Hs & _). unfold bid_of, ask_of, crosses in *.
  destruct (o_side o) eqn:E; simpl in Hs; split_and!; try done; try lia; auto.
Qed.

Lemma executed_trade id :
  executed id t = when (bool_decide (o_id o = id)) c + when (bool_decide (o_id m = id)) c.
Proof.
  destruct parties as (_ & _ & _ & _ & [[H1 H2]|[H1 H2]]); unfold executed, t, trade_of; simpl;
    rewrite H1, H2; fold c; lia.
Qed.

Lemma sum_filled (f : Order → Z) :
  zsum f (dvalues (filled_orders st o m c)) = zsum f (dvalues (orders st))
    - f o + f (fill_order c o) - f m + f (fill_order c m).
Proof.
  destruct maker_facts as (_ & _ & _ & Hne). unfold filled_orders.
  rewrite (zsum_dset f (o_id m) m) by (by rewrite dget_dset_ne). by rewrite (zsum_dset f (o_id o) o).
Qed.

Lemma execute_rows :
  rows_ok (settings st) (dkeys (accounts st)) (filled_orders st o m c) (trades st ++ [t]) (execution_seq st + 1).
Proof.
  destruct both_ok as (Hoo & Hom & Hc & Hc1 & Hc2). destruct maker_facts as (_ & Hsym & _ & Hne).
  destruct (i_rows _ _ Hinv) as [Hd Hord Htr Hex Hn]. unfold filled_orders. split.
  - by apply dset_ok, dset_ok.
  - intros id x. rewrite !dget_dset. case_decide as H1; [|case_decide as H2].
    + intros [= <-]. subst id. apply fill_order_ok; [done|lia|]. rewrite executed_trade.
      rewrite bool_decide_false, bool_decide_true by congruence. simpl. lia.
    + intros [= <-]. subst id. apply fill_order_ok; [done|lia|]. rewrite executed_trade.
      rewrite bool_decide_true, bool_decide_false by congruence. simpl. lia.
    + intros Hx. apply order_ok_app; [by apply Hord|]. rewrite executed_trade.
      rewrite !bool_decide_false by congruence. done.
  - intros x [Hx|Hx]%elem_of_app.
    + apply (trade_ok_dset _ _ m); [by rewrite dget_dset_ne|apply fill_static|].
      apply (trade_ok_dset _ _ o); [done|apply fill_static|by apply Htr].
    + apply list_elem_of_singleton in Hx as ->.
      apply (trade_ok_dset _ _ m); [by rewrite dget_dset_ne|apply fill_static|].
      apply (trade_ok_dset _ _ o); [done|apply fill_static|].
      destruct parties as (P1 & P2 & P3 & P4 & P5). exists (bid_of o m), (ask_of o m).
      unfold t, trade_of. simpl. fold c.
      destruct P5 as [[E1 E2]|[E1 E2]]; rewrite E1, E2 in *; split_and!; done || lia.
  - rewrite fmap_app, Hex, seqZ_app by lia. f_equal. simpl. by rewrite Z.add_comm.
  - rewrite length_app. simpl. lia.
Qed.

Lemma execute_money :
  ∃ accs, settle st (o_owner (bid_of o m)) (o_owner (ask_of o m)) (o_symbol o) (o_price (bid_of o m))
      (o_price m) c = Ok (set_accounts st accs) ∧
    dkeys accs = dkeys (accounts st) ∧
    money_ok (settings st) accs (dvalues (filled_orders st o m c)) (trades st ++ [t]).
Proof.
  destruct both_ok as (Hoo & Hom & Hc & Hc1 & Hc2). destruct maker_facts as (Hma & Hsym & _ & Hne).
  destruct parties as (P1 & P2 & P3 & P4 & P5).
  apply (trade_money (settings st) st (filled_orders st o m c) t (o_price (bid_of o m)) (trades st)).
  - apply (i_money _ _ Hinv).
  - destruct P5 as [[E1 E2]|[E1 E2]]; simpl; rewrite E1; [apply (oo_owner _ _ _ _ _ Hoo)|apply (oo_owner _ _ _ _ _ Hom)].
  - destruct P5 as [[E1 E2]|[E1 E2]]; simpl; rewrite E2; [apply (oo_owner _ _ _ _ _ Hom)|apply (oo_owner _ _ _ _ _ Hoo)].
  - apply (oo_symbol _ _ _ _ _ Hoo).
  - simpl. fold c. lia.
  - simpl. pose proof (oo_price _ _ _ _ _ Hom). lia.
  - intros x. rewrite sum_filled.
    rewrite (proj1 (fill_reserved c o x "" Ha)), (proj1 (fill_reserved c m x "" Hma)). simpl. fold c.
    destruct P5 as [[E1 E2]|[E1 E2]]; rewrite E1, E2 in *; rewrite P1, P2; unfold when; simpl;
      case_bool_decide; lia.
  - intros x s. rewrite sum_filled.
    rewrite (proj2 (fill_reserved c o x s Ha)), (proj2 (fill_reserved c m x s Hma)). simpl. fold c.
    destruct P5 as [[E1 E2]|[E1 E2]]; rewrite E1, E2 in *; rewrite P1, P2, Hsym; unfold when; simpl;
      repeat case_bool_decide; lia.
Qed.

Lemma taker_off symbol side x : o_id x = o_id o → on_side (Some (o_id o)) symbol side x = false.
Proof. intros Hx. apply on_side_false. intros (_ & _ & _ & Hn). by rewrite Hx in Hn. Qed.

Lemma filled_queue symbol side :
  queue (filled_orders st o m c) (Some (o_id o)) symbol side =
    if decide (symbol = o_symbol m ∧ side = o_side m) then
      if decide (c = o_remaining m) then spec_remove (o_id m) (queue (orders st) (Some (o_id o)) symbol side)
      else spec_consume (o_id m) c (queue (orders st) (Some (o_id o)) symbol side)
    else queue (orders st) (Some (o_id o)) symbol side.
Proof.
  destruct maker_facts as (Hma & Hsym & Hside & Hne). pose proof (inv_keyed _ _ Hinv) as Hk.
  assert (keyed (dset (o_id o) (fill_order c o) (orders st))) as Hk1 by (by apply keyed_dset).
  assert (dget (o_id m) (dset (o_id o) (fill_order c o) (orders st)) = Some m) as Hm1 by (by rewrite dget_dset_ne).
  assert (∀ symbol side, queue (dset (o_id o) (fill_order c o) (orders st)) (Some (o_id o)) symbol side =
    queue (orders st) (Some (o_id o)) symbol side) as Hfirst.
  { intros sy si. apply (queue_same _ _ o); [done|by apply taker_off|by apply taker_off]. }
  unfold filled_orders. case_decide as Hd; [destruct Hd as [-> ->]; case_decide as Hc|].
  - rewrite (queue_removed _ _ m), Hfirst; [done|done|done|].
    apply on_side_false. intros [Hact _]. rewrite fill_active, Hc, Z.sub_diag in Hact. done.
  - rewrite (queue_reduced _ _ m _ c), Hfirst; [done|done|done| | |done|done|done].
    + apply on_side_spec. split_and!; try done. congruence.
    + apply on_side_spec. split_and!; try done; [|simpl; congruence].
      rewrite fill_active, (proj2 (Z.eqb_neq _ _)); [done|]. lia.
  - rewrite (queue_same _ _ m), Hfirst; [done|done|..]; apply on_side_false; naive_solver.
Qed.

Lemma maker_entry : entry_of m ∈ queue (orders st) (Some (o_id o)) (o_symbol m) (o_side m).
Proof.
  destruct maker_facts as (Hma & Hsym & Hside & Hne).
  apply queue_elem; [by eapply inv_keyed|]. exists m. split; [done|]. split; [|done].
  apply on_side_spec. split_and!; try done. congruence.
Qed.

Lemma execute_books :
  ∃ b s, dget (o_symbol m) (book_index st) = Some b ∧
    consume_order (o_side m) (side_of b (o_side m)) (o_id m) c = Ok s ∧
    books_ok (symbols (settings st)) (filled_orders st o m c) (Some (o_id o))
      (dset (o_symbol m) (set_side b (o_side m) s) (book_index st)).
Proof.
  destruct both_ok as (Hoo & Hom & Hc & Hc1 & Hc2).
  destruct (i_books _ _ Hinv (o_symbol m) (oo_symbol _ _ _ _ _ Hom)) as (b & Hb & Hreps).
  pose proof (consume_order_spec (o_side m) _ _ (Hreps (o_side m)) (entry_of m) c maker_entry) as Hcons.
  pose proof (filled_queue (o_symbol m) (o_side m)) as Hq. rewrite decide_True in Hq by done. simpl in Hcons.
  assert (∃ s, consume_order (o_side m) (side_of b (o_side m)) (o_id m) c = Ok s ∧
    side_rep (o_side m) s (queue (filled_orders st o m c) (Some (o_id o)) (o_symbol m) (o_side m))) as (s & Hs & Hr).
  { rewrite Hq. case_decide; [done|]. rewrite decide_True in Hcons by lia. done. }
  exists b, s. split; [done|]. split; [done|].
  apply (books_update _ (orders st) _ (Some (o_id o)) (Some (o_id o))); [apply (i_books _ _ Hinv)|done|done|].
  intros symbol side _ Hn. rewrite filled_queue, decide_False; [done|]. intros [-> ->]. by apply Hn.
Qed.

Lemma execute_uncrossed : uncrossed (filled_orders st o m c) (Some (o_id o)).
Proof.
  apply (uncrossed_sub (orders st) _ (Some (o_id o))); [apply (i_uncrossed _ _ Hinv)|].
  intros symbol side e. rewrite filled_queue. repeat case_decide.
  - intros [He _]%spec_remove_elem. by exists e.
  - unfold spec_consume. intros (e' & -> & He)%list_elem_of_fmap. exists e'. split; [done|]. by case_decide.
  - intros He. by exists e.
Qed.

Lemma execute_spec :
  ∃ st', execute st (o_id o) (o_id m) trade_index = Ok st' ∧ inv (Some (o_id o)) st' ∧
    orders st' = filled_orders st o m c ∧ trades st' = trades st ++ [t] ∧
    settings st' = settings st ∧ dkeys (accounts st') = dkeys (accounts st) ∧
    results st' = results st ∧ daily st' = daily st ∧ last_seq st' = last_seq st ∧
    last_timestamp st' = last_timestamp st.
Proof.
  destruct maker_facts as (_ & Hsym & _ & Hne).
  destruct execute_money as (accs & Hset & Hkeys & Hmo). destruct execute_books as (b & s & Hb & Hs & Hbk).
  unfold execute. unfold dlookup at 1. rewrite Ho. cbn [rbind]. unfold dlookup at 1. rewrite Hm. cbn [rbind].
  fold c. assert (match o_side o with BUY => (o, m) | SELL => (m, o) end = (bid_of o m, ask_of o m)) as ->
    by (unfold bid_of, ask_of; by destruct (o_side o)).
  rewrite Hset. cbn [rbind]. unfold with_side, dlookup. cbn [book_index set_accounts]. rewrite Hb. cbn [rbind].
  rewrite Hs. cbn [rbind]. unfold with_order, dlookup. simpl. rewrite Ho. simpl.
  rewrite dget_dset_ne, Hm by done. simpl. eexists. split; [done|]. split; [|done].
  split; simpl; [done| |done|exact execute_uncrossed|].
  - rewrite Hkeys. exact execute_rows.
  - rewrite dkeys_dset_in; [apply (i_index _ _ Hinv)|by eapply dget_in_key].
Qed.
End execution.

(** ** The best order, and the loop *)

Lemma best_spec ex st symbol taker_side :
  inv ex st → symbol ∈ symbols (settings st) →
  ∃ idx, best st symbol taker_side =
      Ok (set_books st idx, spec_best (opposite taker_side) (queue (orders st) ex symbol (opposite taker_side))) ∧
    inv ex (set_books st idx).
Proof.
  intros [Hm Hr Hb Hu Hi] Hin. destruct (Hb symbol Hin) as (b & Hbk & Hreps).
  unfold best, dlookup. rewrite Hbk. cbn [rbind].
  destruct (best_order_spec _ _ _ (Hreps (opposite taker_side))) as [H1 H2].
  destruct (best_order (opposite taker_side) (side_of b (opposite taker_side))) as [s r]. simpl in H1, H2.
  subst r. eexists. split; [done|]. split; simpl; [done|done| |done|].
  - by apply (books_update _ (orders st) _ ex ex).
  - rewrite dkeys_dset_in; [done|by eapply dget_in_key].
Qed.

Lemma sort_by_fmap {A B K} `{PyOrd K} (f : A → B) (key : B → K) l :
  sort_by key (f <$> l) = f <$> sort_by (λ x, key (f x)) l.
Proof.
  induction l as [|x l IH]; [done|]. rewrite fmap_cons.
  change (insert_by key (f x) (sort_by key (f <$> l)) = f <$> insert_by (λ x, key (f x)) x (sort_by (λ x, key (f x)) l)).
  rewrite IH. generalize (sort_by (λ x, key (f x)) l) as s. intros s. clear IH.
  induction s as [|y s IHs]; [done|]. rewrite fmap_cons. simpl.
  destruct (pyle (key (f x)) (key (f y))); [done|]. rewrite fmap_cons. by rewrite IHs.
Qed.

(** Stable sorting and filtering commute. *)
Lemma filter_insert_by {A K} `{PyOrd K} (key : A → K) (P : A → Prop) `{∀ x, Decision (P x)} x l :
  ordered key l →
  filter P (insert_by key x l) = if decide (P x) then insert_by key x (filter P l) else filter P l.
Proof.
  induction l as [|y l IH]; intros Ho; simpl.
  - rewrite filter_cons. by case_decide.
  - pose proof (proj1 (ordered_cons _ _ _) Ho) as [Hl Hy].
    destruct (pyle (key x) (key y)) eqn:E.
    + rewrite (filter_cons P x). case_decide; [|done]. rewrite insert_by_min; [done|].
      intros z [_ Hz]%list_elem_of_filter. apply elem_of_cons in Hz as [->|Hz]; [done|].
      eapply pyle_trans; [exact E|by apply Hy].
    + rewrite !(filter_cons P y), IH by done. repeat case_decide; simpl; rewrite ?E; done.
Qed.

Lemma filter_sort_by {A K} `{PyOrd K} (key : A → K) (P : A → Prop) `{∀ x, Decision (P x)} l :
  filter P (sort_by key l) = sort_by key (filter P l).
Proof.
  induction l as [|x l IH]; [done|].
  change (sort_by key (x :: l)) with (insert_by key x (sort_by key l)).
  rewrite filter_insert_by by apply sort_by_ordered. rewrite filter_cons, IH.
  by case_decide.
Qed.

(** The resting orders an incoming order may meet, in priority order: by price,
    and at a price by arrival. *)
Definition priority (side : Side) (os : list Order) : list Order := sort_by (λ o, o_price o * sign side) os.
Definition makers (ords : dict string Order) (ex : option string) (symbol : string) (side : Side) : list Order :=
  priority side (selected (on_side ex symbol side) ords).

(** The executions an incoming order is due: it takes the resting orders in
    priority order until it is filled, the price no longer suits or it would
    meet an order of its own owner. *)
Fixpoint due (side : Side) (limit : Z) (owner : string) (quantity : Z) (resting : list Order)
    : list (string * Z * Z) :=
  match resting with
  | [] => []
  | m :: resting' =>
      if quantity =? 0 then []
      else if negb (crosses side limit (o_price m)) then []
      else if bool_decide (o_owner m = owner) then []
      else let count := Z.min quantity (o_remaining m) in
           (o_id m, o_price m, count) :: due side limit owner (quantity - count) resting'
  end.

Lemma spec_best_makers ords ex symbol side :
  spec_best side (queue ords ex symbol side) = o_id <$> head (makers ords ex symbol side).
Proof.
  unfold spec_best, by_priority, queue, makers, priority. rewrite sort_by_fmap. simpl.
  by destruct (sort_by (λ x, o_price x * sign side) (selected (on_side ex symbol side) ords)).
Qed.

Lemma makers_elem ords ex symbol side m :
  keyed ords → m ∈ makers ords ex symbol side ↔ dget (o_id m) ords = Some m ∧ on_side ex symbol side m = true.
Proof.
  intros Hk. unfold makers, priority, selected. rewrite elem_of_sort_by, list_elem_of_filter.
  rewrite elem_dvalues by apply Hk. split.
  - intros [Hs [k Hd]]. split; [|done]. by rewrite (proj2 Hk k m Hd).
  - intros [Hd Hs]. eauto.
Qed.

Lemma makers_length ords ex symbol side :
  length (makers ords ex symbol side) = length (queue ords ex symbol side).
Proof. unfold makers, priority, queue. by rewrite sort_by_length, length_fmap. Qed.

Lemma makers_ids ords ex symbol side : keyed ords → NoDup (o_id <$> makers ords ex symbol side).
Proof.
  intros Hk. unfold makers, priority, selected. rewrite sort_by_perm. apply NoDup_fmap_filter.
  rewrite keyed_ids by done. apply Hk.
Qed.

Lemma crosses_best side limit p p' :
  crosses side limit p = false → p * sign (opposite side) <= p' * sign (opposite side) →
  crosses side limit p' = false.
Proof. unfold crosses, sign. destruct side; simpl; lia. Qed.

(** After a full execution the maker leaves the head of the priority order. *)
Lemma makers_removed ords id m m' ex symbol side rest :
  keyed ords → dget id ords = Some m → on_side ex symbol side m' = false →
  makers ords ex symbol side = m :: rest → makers (dset id m' ords) ex symbol side = rest.
Proof.
  intros Hk Hd Hoff Hmk. pose proof (makers_ids ords ex symbol side Hk) as Hnd.
  assert (o_id m = id) as Hid by (by apply (proj2 Hk)).
  assert (selected (on_side ex symbol side) (dset id m' ords) =
    filter (λ o, o_id o ≠ id) (selected (on_side ex symbol side) ords)) as Hsel.
  { destruct (dset_split id m m' ords Hd) as (d1 & d2 & Heq & ->). unfold selected. rewrite list_filter_filter, Heq.
    pose proof (keyed_ids ords Hk) as Hids. pose proof (proj1 Hk) as Hnds. unfold dict_ok in Hnds.
    rewrite <- Hids, Heq in Hnds. unfold dvalues in *. rewrite !fmap_app, !fmap_cons, !filter_app in *.
    simpl in *. apply NoDup_app in Hnds as (_ & Hdis & Hnds). apply NoDup_cons in Hnds as [Hn _].
    rewrite Hid in *. rewrite filter_cons_False by congruence. rewrite filter_cons_False by tauto.
    f_equal; apply filter_ext_in; intros x Hx; (split; [|tauto]); intros; split; [|done| |done]; intros Hxi.
    - apply (Hdis (o_id x)); [by apply list_elem_of_fmap_2|]. rewrite Hxi. left.
    - apply Hn. rewrite <- Hxi. by apply list_elem_of_fmap_2. }
  unfold makers, priority in *. rewrite Hsel, <- filter_sort_by, Hmk.
  rewrite filter_cons_False by (intros Hx; by apply Hx). apply filter_all. intros x Hx Hxi.
  rewrite Hmk, fmap_cons in Hnd. apply NoDup_cons in Hnd as [Hn _]. apply Hn.
  rewrite Hid, <- Hxi. by apply list_elem_of_fmap_2.
Qed.

(** What a row was submitted with. *)
Definition signature (o : Order) : Z * string * string * Z * Z :=
  (o_seq o, o_owner o, o_symbol o, o_day o, o_quantity o).

(** The rows of the order table keep their keys and signatures. *)
Definition evolves (ords ords' : dict string Order) : Prop :=
  dkeys ords' = dkeys ords ∧ signature <$> dvalues ords' = signature <$> dvalues ords.

Lemma evolves_refl ords : evolves ords ords.
Proof. done. Qed.

Lemma evolves_dset ords id o o' :
  dget id ords = Some o → signature o' = signature o → evolves ords (dset id o' ords).
Proof.
  intros Hd Hs. destruct (dset_split id o o' ords Hd) as (d1 & d2 & -> & ->).
  unfold evolves, dkeys, dvalues. rewrite !fmap_app, !fmap_cons. simpl. by rewrite Hs.
Qed.

(** What matching does not touch. *)
Definition frame (st st' : State) : Prop :=
  settings st' = settings st ∧ dkeys (accounts st') = dkeys (accounts st) ∧ results st' = results st ∧
  daily st' = daily st ∧ last_seq st' = last_seq st ∧ last_timestamp st' = last_timestamp st ∧
  evolves (orders st) (orders st').

Lemma frame_refl st : frame st st.
Proof. by split_and!. Qed.

Lemma frame_trans st1 st2 st3 : frame st1 st2 → frame st2 st3 → frame st1 st3.
Proof. unfold frame, evolves. intros (?&?&?&?&?&?&?&?) (?&?&?&?&?&?&?&?). split_and!; congruence. Qed.

(** A trade seen from the incoming order's side. *)
Definition execution_of (taker_side : Side) (t : Trade) : string * Z * Z :=
  (match taker_side with BUY => t_sell_order t | SELL => t_buy_order t end, t_price t, t_quantity t).

Lemma inv_order ex st id o :
  inv ex st → dget id (orders st) = Some o →
  order_ok (settings st) (dkeys (accounts st)) (trades st) id o.
Proof. intros Hi. apply (ro_order _ _ _ _ _ (i_rows _ _ Hi)). Qed.

(** The makers of an order, and what its loop leaves. *)
Definition opposing (st : State) (o : Order) : list Order :=
  makers (orders st) (Some (o_id o)) (o_symbol o) (opposite (o_side o)).

Definition loop_result (st : State) (o : Order) (st' : State) : Prop :=
  inv (Some (o_id o)) st' ∧ frame st st' ∧
  ∃ o' new, dget (o_id o) (orders st') = Some o' ∧ static o o' ∧ trades st' = trades st ++ new ∧
    map (execution_of (o_side o)) new =
      due (o_side o) (o_price o) (o_owner o) (o_remaining o) (opposing st o) ∧
    (is_active o' = true → ∀ m, m ∈ opposing st' o → crosses (o_side o) (o_price o) (o_price m) = false).

Lemma opposing_same st st' o : orders st' = orders st → opposing st' o = opposing st o.
Proof. unfold opposing. by intros ->. Qed.

Lemma opposing_bound st o m rest m' :
  opposing st o = m :: rest → m' ∈ opposing st o →
  o_price m * sign (opposite (o_side o)) <= o_price m' * sign (opposite (o_side o)).
Proof.
  intros Heq Hin. unfold opposing, makers, priority in *.
  pose proof (sort_by_ordered (λ o, o_price o * sign (opposite (o_side o)))
    (selected (on_side (Some (o_id o)) (o_symbol o) (opposite (o_side o))) (orders st))) as Hs.
  pose proof (sort_by_ordered (λ x, o_price x * sign (opposite (o_side o)))
    (selected (on_side (Some (o_id o)) (o_symbol o) (opposite (o_side o))) (orders st))) as Hs'.
  rewrite Heq in Hs', Hin. pose proof (ordered_head_min _ _ _ _ Hs' Hin) as Hle. simpl in Hle.
  by apply Z.leb_le in Hle.
Qed.

(** The loop stops at the best resting order, or for want of one. *)
Lemma loop_stops st o st' :
  inv (Some (o_id o)) st' → frame st st' → orders st' = orders st → trades st' = trades st →
  dget (o_id o) (orders st) = Some o →
  match opposing st o with
  | [] => True
  | m :: _ => crosses (o_side o) (o_price o) (o_price m) = false
  end → loop_result st o st'.
Proof.
  intros Hinv Hf Hords Htr Ho Hstop. split; [done|]. split; [done|]. exists o, [].
  rewrite Hords, app_nil_r. split; [done|]. split; [by split_and!|]. split; [done|]. split.
  - simpl. destruct (opposing st o) as [|m rest]; [done|]. simpl. rewrite Hstop. by case_match.
  - intros _ m. rewrite (opposing_same st st') by done. intros Hm.
    destruct (opposing st o) as [|m0 rest] eqn:Hop; [by apply not_elem_of_nil in Hm|].
    eapply crosses_best; [exact Hstop|]. rewrite <- Hop in Hm. by eapply opposing_bound.
Qed.

Lemma execute_opposing st st' o m rest c :
  inv (Some (o_id o)) st → dget (o_id o) (orders st) = Some o → o_id m ≠ o_id o →
  on_side (Some (o_id o)) (o_symbol o) (opposite (o_side o)) m = true →
  dget (o_id m) (orders st) = Some m →
  orders st' = filled_orders st o m c → opposing st o = m :: rest → c = o_remaining m →
  opposing st' (fill_order c o) = rest.
Proof.
  intros Hinv Ho Hne Hon Hm Hords Hop Hc. unfold opposing in *. rewrite Hords. unfold filled_orders.
  pose proof (inv_keyed _ _ Hinv) as Hk.
  apply (makers_removed _ _ m).
  - by apply keyed_dset.
  - by rewrite dget_dset_ne.
  - apply on_side_false. intros [Hact _]. rewrite fill_active, Hc, Z.sub_diag in Hact. done.
  - unfold makers, priority, selected in Hop |- *.
    destruct (dset_split (o_id o) o (fill_order c o) (orders st) Ho) as (d1 & d2 & Heq & ->).
    rewrite Heq in Hop. unfold dvalues in *. rewrite !fmap_app, !fmap_cons, !filter_app in *. simpl in *.
    rewrite filter_cons_False in Hop by (rewrite (proj2 (on_side_false _ _ _ _)); [done|naive_solver]).
    rewrite filter_cons_False by (rewrite (proj2 (on_side_false _ _ _ _)); [done|simpl; naive_solver]).
    exact Hop.
Qed.

Lemma evolves_filled st o m c :
  dget (o_id o) (orders st) = Some o → dget (o_id m) (orders st) = Some m → o_id m ≠ o_id o →
  evolves (orders st) (filled_orders st o m c).
Proof.
  intros Ho Hm Hne. destruct (evolves_dset (orders st) (o_id o) o (fill_order c o)) as [H1 H2]; [done..|].
  destruct (evolves_dset (dset (o_id o) (fill_order c o) (orders st)) (o_id m) m (fill_order c m)) as [H3 H4];
    [by rewrite dget_dset_ne|done|]. split; [by rewrite <- H1|by rewrite <- H2].
Qed.

Lemma match_loop_spec fuel st o trade_index :
  inv (Some (o_id o)) st → dget (o_id o) (orders st) = Some o → o_status o ≠ CANCELED →
  (length (opposing st o) < fuel)%nat ∨ o_remaining o = 0 →
  ∃ st', match_loop fuel (o_id o) trade_index st = Ok st' ∧ loop_result st o st'.
Proof.
  revert st o trade_index. induction fuel as [|fuel IH]; intros st o ti Hinv Ho Hnc Hfuel.
  { assert (o_remaining o = 0) as Hz by (destruct Hfuel; [lia|done]). exists st. simpl.
    unfold dlookup. rewrite Ho. simpl. rewrite Hz. split; [done|].
    split; [done|]. split; [apply frame_refl|]. exists o, []. rewrite app_nil_r, Hz.
    split; [done|]. split; [by split_and!|]. split; [done|]. split; [by destruct (opposing st o)|].
    intros Ha. pose proof (oo_active _ _ _ _ _ (inv_order _ _ _ _ Hinv Ho) Ha). lia. }
  simpl. unfold dlookup at 1. rewrite Ho. cbn [rbind].
  pose proof (inv_order _ _ _ _ Hinv Ho) as Hoo.
  destruct (Z.eqb_spec (o_remaining o) 0) as [Hz|Hz].
  { exists st. split; [done|]. split; [done|]. split; [apply frame_refl|]. exists o, [].
    rewrite app_nil_r, Hz. split; [done|]. split; [by split_and!|]. split; [done|].
    split; [by destruct (opposing st o)|]. intros Ha. pose proof (oo_active _ _ _ _ _ Hoo Ha). lia. }
  assert (is_active o = true) as Hact by (by destruct (oo_inactive _ _ _ _ _ Hoo Hz)).
  destruct (best_spec _ _ (o_symbol o) (o_side o) Hinv (oo_symbol _ _ _ _ _ Hoo)) as (idx & -> & Hinv1).
  cbn [rbind fst snd]. rewrite spec_best_makers. fold (opposing st o). set (st1 := set_books st idx) in *.
  destruct (opposing st o) as [|m rest] eqn:Hop; simpl.
  { exists st1. split; [done|]. apply loop_stops; try done. by rewrite Hop. }
  assert (m ∈ opposing st o) as Hmop by (rewrite Hop; left).
  apply makers_elem in Hmop as [Hm Hon]; [|by eapply inv_keyed].
  unfold dlookup at 1. rewrite Hm. cbn [rbind].
  destruct (crosses (o_side o) (o_price o) (o_price m)) eqn:Hcross; simpl; cycle 1.
  { exists st1. split; [done|]. apply loop_stops; try done. by rewrite Hop. }
  assert (o_id m ≠ o_id o) as Hne by (apply on_side_spec in Hon as (_ & _ & _ & Hn); congruence).
  case_bool_decide as Hown.
  { destruct (release_spec _ st1 (o_id o) o "SELF_TRADE_PREVENTION" Hinv1 Ho Hact)
      as (st' & -> & Hinv' & Hords & Htr & F1 & F2 & F3 & F4 & F5 & F6).
    assert (evolves (orders st) (orders st')) as F7 by (rewrite Hords; by apply (evolves_dset _ _ o)).
    exists st'. split; [done|]. split; [done|]. split; [by split_and!|].
    exists (canceled o "SELF_TRADE_PREVENTION"), []. rewrite app_nil_r, Hords, dget_dset_eq.
    split; [done|]. split; [by split_and!|]. split; [done|]. split; [|done].
    simpl. rewrite Hop. simpl. rewrite (proj2 (Z.eqb_neq _ _) Hz), Hcross. simpl. by rewrite bool_decide_true. }
  destruct (execute_spec st1 o m (ti + 1) Hinv1 Ho Hm Hact Hon Hcross Hown)
    as (st2 & -> & Hinv2 & Hords2 & Htr2 & F1 & F2 & F3 & F4 & F5 & F6). cbn [rbind].
  set (c := Z.min (o_remaining o) (o_remaining m)) in *.
  assert (0 < o_remaining m) as Hmpos.
  { apply (oo_active _ _ _ _ _ (inv_order _ _ _ _ Hinv Hm)). by apply on_side_spec in Hon as [? _]. }
  assert (dget (o_id o) (orders st2) = Some (fill_order c o)) as Ho2.
  { rewrite Hords2. unfold filled_orders. by rewrite dget_dset_ne, dget_dset_eq. }
  destruct (IH st2 (fill_order c o) (ti + 1)) as (st' & Hrun & Hinv' & Hframe & o' & new & Hd' & Hst' & Htr' & Hdue & Hpost).
  { exact Hinv2. } { exact Ho2. }
  { unfold fill_order. simpl. by destruct (_ =? 0). }
  { destruct (decide (c = o_remaining m)) as [Hc|Hc]; [left|right; simpl; lia].
    rewrite (execute_opposing st st2 o m rest c) by done. destruct Hfuel as [Hf|Hf]; [|lia]. simpl in Hf. lia. }
  exists st'. split; [exact Hrun|]. split; [done|]. split.
  { eapply frame_trans; [|exact Hframe]. assert (evolves (orders st) (orders st2)); [|by split_and!].
    rewrite Hords2. by apply (evolves_filled st1). }
  exists o', (trade_of st1 o m (ti + 1) :: new). split; [done|]. split; [exact Hst'|].
  split; [rewrite Htr', Htr2, <- app_assoc; done|]. split; [|exact Hpost].
  rewrite Hop. simpl. rewrite (proj2 (Z.eqb_neq _ _) Hz), Hcross. simpl. rewrite bool_decide_false by done.
  fold c. f_equal.
  - unfold execution_of, trade_of, bid_of, ask_of. simpl. by destruct (o_side o).
  - simpl in Hdue. rewrite Hdue. destruct (decide (c = o_remaining m)) as [Hc|Hc].
    + by rewrite (execute_opposing st st2 o m rest c).
    + assert (o_remaining o - c = 0) as -> by lia.
      destruct rest, (opposing st2 (fill_order c o)); done.
Qed.
