(* ===== verification/ExchangeSteps.v ===== *)
(** * Commands of the exchange

    The handlers of Exchange.v composed: the reservation and resting of a new
    order, expiry, cancellation and genesis keep the invariant of
    ExchangeInv.v, so every reachable state has it, and a command that is
    refused raises [ValueError]. *)
From S2P Require Import Prelude PyList PyDict Checks OrderBook Exchange ExchangeInv.
Local Open Scope Z_scope.

(** ** A new order *)

Lemma queue_ex_absent ords id symbol side :
  keyed ords → dget id ords = None → queue ords (Some id) symbol side = queue ords None symbol side.
Proof.
  intros Hk Hd. unfold queue, selected. f_equal. apply filter_ext_in. intros o Ho.
  apply elem_dvalues in Ho as [k Hko]; [|apply Hk]. pose proof (proj2 Hk k o Hko) as Hid.
  rewrite !on_side_spec. split; intros (H1 & H2 & H3 & _); split_and!; try done. congruence.
Qed.

Lemma trades_fresh set accs ords trs n id :
  rows_ok set accs ords trs n → dget id ords = None → zsum (executed id) trs = 0.
Proof.
  intros Hr Hd. apply zsum_zero. intros t Ht. destruct (ro_trades _ _ _ _ _ Hr t Ht) as (b & a & Hb & Ha & _).
  unfold executed. rewrite !bool_decide_false by congruence. done.
Qed.

Lemma rows_new set accs ords trs n id o :
  rows_ok set accs ords trs n → dget id ords = None → order_ok set accs trs id o →
  rows_ok set accs (dset id o ords) trs n.
Proof.
  intros [Hd Ho Ht He Hn] Hid Hok. split; [by apply dset_ok| | |done|done].
  - intros k x. rewrite dget_dset. case_decide; [intros [= <-]; by subst|apply Ho].
  - intros t Hin. by apply trade_ok_new, Ht.
Qed.

(** A row as [submit] creates it. *)
Record fresh_order (st : State) (o : Order) : Prop := {
  fo_id : dget (o_id o) (orders st) = None;
  fo_owner : o_owner o ∈ dkeys (accounts st);
  fo_symbol : o_symbol o ∈ symbols (settings st);
  fo_price : 1 <= o_price o;
  fo_quantity : 1 <= o_quantity o;
  fo_remaining : o_remaining o = o_quantity o;
  fo_filled : o_filled o = 0;
  fo_status : o_status o = OPEN;
}.

Definition reservation (o : Order) : Z :=
  match o_side o with BUY => o_quantity o * o_price o | SELL => o_quantity o end.
Definition free_funds (st : State) (o : Order) : Z :=
  match o_side o with
  | BUY => available (cash_of (accounts st) (o_owner o))
  | SELL => available (pos_of (accounts st) (o_owner o) (o_symbol o))
  end.

Lemma fresh_reserved st o x s :
  fresh_order st o →
  reserved_cash x o = when (bool_decide (o_side o = BUY)) (when (bool_decide (o_owner o = x)) (o_quantity o * o_price o)) ∧
  reserved_shares x s o = when (bool_decide (o_side o = SELL))
    (when (bool_decide (o_owner o = x ∧ o_symbol o = s)) (o_quantity o)).
Proof.
  intros []. rewrite <- fo_remaining0. apply reserved_of. unfold is_active. by rewrite fo_status0.
Qed.

Lemma fresh_money st o :
  money_ok (settings st) (accounts st) (dvalues (orders st)) (trades st) →
  fresh_order st o → reservation o <= free_funds st o →
  ∃ accs, reserve_funds st (o_owner o) (o_symbol o) (o_side o) (reservation o) = Ok (set_accounts st accs) ∧
    dkeys accs = dkeys (accounts st) ∧
    money_ok (settings st) accs (dvalues (dset (o_id o) o (orders st))) (trades st).
Proof.
  intros Hm Hf Hfree. pose proof Hf as []. unfold reservation, free_funds in *.
  assert (∀ f, zsum f (dvalues (dset (o_id o) o (orders st))) = zsum f (dvalues (orders st)) + f o) as Hsum
    by (intros f; by apply zsum_dset_new).
  unfold reserve_funds. destruct (o_side o) eqn:Hside.
  - destruct (money_moved _ st (dset (o_id o) o (orders st)) (o_owner o) (- (o_quantity o * o_price o)) _ Hm)
      as (accs & _ & E & Hk & Hmo); [done|lia|..].
    { intros x. rewrite Hsum, (proj1 (fresh_reserved st o x "" Hf)), Hside. simpl. unfold when. case_bool_decide; lia. }
    { intros x y. rewrite Hsum, (proj2 (fresh_reserved st o x y Hf)), Hside. simpl. lia. }
    rewrite Z.opp_involutive in E. exists accs. by rewrite E.
  - destruct (shares_moved _ st (dset (o_id o) o (orders st)) (o_owner o) (o_symbol o) (- o_quantity o) _ Hm)
      as (accs & _ & E & Hk & Hmo); [done|done|lia|..].
    { intros x. rewrite Hsum, (proj1 (fresh_reserved st o x "" Hf)), Hside. simpl. lia. }
    { intros x y. rewrite Hsum, (proj2 (fresh_reserved st o x y Hf)), Hside. simpl. unfold when. case_bool_decide; lia. }
    rewrite Z.opp_involutive in E. exists accs. by rewrite E.
Qed.

(** The order is in the table, not in the book, and its funds are reserved. *)
Lemma fresh_inv st o accs used :
  inv None st → fresh_order st o → dkeys accs = dkeys (accounts st) →
  money_ok (settings st) accs (dvalues (dset (o_id o) o (orders st))) (trades st) →
  inv (Some (o_id o)) (set_orders (set_daily (set_accounts st accs) used) (dset (o_id o) o (orders st))).
Proof.
  intros Hinv Hf Hk Hm. pose proof (inv_keyed _ _ Hinv) as Hkeyed. destruct Hinv as [_ Hr Hb Hu Hi].
  pose proof Hf as [].
  assert (∀ symbol side, queue (dset (o_id o) o (orders st)) (Some (o_id o)) symbol side =
    queue (orders st) None symbol side) as Hq.
  { intros symbol side. rewrite queue_new, queue_ex_absent by done.
    rewrite (proj2 (on_side_false _ _ _ _)); [apply app_nil_r|]. intros (_ & _ & _ & Hn). by apply Hn. }
  split; simpl; [done|..].
  - rewrite Hk. apply rows_new; [done|done|]. split; try done; try lia.
    + congruence.
    + intros Hz. left. unfold is_active. by rewrite fo_status0.
    + by rewrite fo_filled0, (trades_fresh _ _ _ _ _ _ Hr fo_id0).
  - apply (books_same _ (orders st) _ None); [done|]. intros symbol side _. apply Hq.
  - apply (uncrossed_sub (orders st) _ None); [done|]. intros symbol side e. rewrite Hq. eauto.
  - done.
Qed.

(** ** Resting *)

(** The last row joins its queue at the end. *)
Lemma queue_last d o symbol side :
  keyed (d ++ [(o_id o, o)]) → is_active o = true →
  queue (d ++ [(o_id o, o)]) None symbol side =
    queue (d ++ [(o_id o, o)]) (Some (o_id o)) symbol side ++
      (if decide (o_symbol o = symbol ∧ o_side o = side) then [entry_of o] else []).
Proof.
  intros Hk Ha. assert (o_id o ∉ dkeys d) as Hn.
  { destruct Hk as [Hok _]. unfold dict_ok, dkeys in Hok. rewrite fmap_app in Hok.
    apply NoDup_app in Hok as (_ & Hd & _). intros Hin. apply (Hd _ Hin). left. }
  assert (keyed d) as Hkd.
  { destruct Hk as [Hok Hid]. split.
    - unfold dict_ok, dkeys in *. rewrite fmap_app in Hok. by apply NoDup_app in Hok as [? _].
    - intros k x Hx. apply (Hid k). rewrite <- dset_new by done. rewrite dget_dset_ne; [done|].
      intros <-. by apply Hn, dmem_spec, dmem_true; eexists. }
  rewrite <- dset_new by done. apply dget_None in Hn. rewrite !queue_new by done.
  rewrite queue_ex_absent by done. rewrite <- app_assoc. f_equal.
  rewrite (proj2 (on_side_false (Some _) _ _ _)) by naive_solver. simpl.
  case_decide as Hd; [rewrite (proj2 (on_side_spec _ _ _ _))|rewrite (proj2 (on_side_false _ _ _ _))]; naive_solver.
Qed.

Lemma rested_uncrossed st o :
  inv (Some (o_id o)) st → is_active o = true → dget (o_id o) (orders st) = Some o →
  (∀ symbol side, queue (orders st) None symbol side =
     queue (orders st) (Some (o_id o)) symbol side ++
       (if decide (o_symbol o = symbol ∧ o_side o = side) then [entry_of o] else [])) →
  (∀ m, m ∈ opposing st o → crosses (o_side o) (o_price o) (o_price m) = false) →
  uncrossed (orders st) None.
Proof.
  intros Hinv Ha Ho Hq Hpost symbol b a. rewrite !Hq, !elem_of_app. pose proof (inv_keyed _ _ Hinv) as Hk.
  assert (∀ e, e ∈ queue (orders st) (Some (o_id o)) (o_symbol o) (opposite (o_side o)) →
    crosses (o_side o) (o_price o) (e_price e) = false) as Hopp.
  { intros e (m & Hm & Hon & ->)%queue_elem; [|done]. apply (Hpost m). apply makers_elem; [done|].
    split; [done|exact Hon]. }
  intros [Hb|Hb] [Hin|Hin].
  - by apply (i_uncrossed _ _ Hinv symbol).
  - case_decide as Hd; [|by apply not_elem_of_nil in Hin]. destruct Hd as [<- Hs].
    apply list_elem_of_singleton in Hin as ->. rewrite Hs in Hopp. simpl in *. specialize (Hopp b Hb). lia.
  - case_decide as Hd; [|by apply not_elem_of_nil in Hb]. destruct Hd as [<- Hs].
    apply list_elem_of_singleton in Hb as ->. rewrite Hs in Hopp. simpl in *. specialize (Hopp a Hin). lia.
  - repeat case_decide; try by apply not_elem_of_nil in Hb. all: destruct_and?; congruence || by apply not_elem_of_nil in Hin.
Qed.

Lemma rest_order_spec st d o :
  inv (Some (o_id o)) st → orders st = d ++ [(o_id o, o)] →
  (is_active o = true → ∀ m, m ∈ opposing st o → crosses (o_side o) (o_price o) (o_price m) = false) →
  ∃ idx, rest_order st (o_id o) = Ok (set_books st idx) ∧ inv None (set_books st idx).
Proof.
  intros Hinv Hord Hpost. pose proof (inv_keyed _ _ Hinv) as Hk.
  assert (dget (o_id o) (orders st) = Some o) as Ho.
  { apply dget_Some; [apply Hk|]. rewrite Hord, elem_of_app. right. left. }
  pose proof (inv_order _ _ _ _ Hinv Ho) as Hoo. destruct Hinv as [Hm Hr Hb Hu Hi].
  unfold rest_order, dlookup. rewrite Ho. cbn [rbind]. destruct (is_active o) eqn:Ha; cycle 1.
  { exists (book_index st). split; [by destruct st|].
    assert (∀ symbol side, queue (orders st) None symbol side = queue (orders st) (Some (o_id o)) symbol side) as Hq.
    { intros symbol side. unfold queue, selected. f_equal. apply filter_ext_in. intros x Hx.
      apply elem_dvalues in Hx as [k Hx]; [|apply Hk]. rewrite !on_side_spec.
      split; intros (H1 & H2 & H3 & _); split_and!; try done. intros [= He].
      rewrite (proj2 Hk k x Hx) in He. subst k. congruence. }
    split; simpl; [done|done| | |done].
    - apply (books_same _ (orders st) _ (Some (o_id o))); [done|]. intros; apply Hq.
    - apply (uncrossed_sub (orders st) _ (Some (o_id o))); [done|]. intros symbol side e. rewrite Hq. eauto. }
  rewrite Hord in Hk. pose proof (λ symbol side, queue_last d o symbol side Hk Ha) as Hq. rewrite <- Hord in Hq, Hk.
  unfold with_side, dlookup. destruct (Hb (o_symbol o) (oo_symbol _ _ _ _ _ Hoo)) as (b & Hbk & Hreps).
  rewrite Hbk. cbn [rbind].
  pose proof (add_order_spec _ _ _ (Hreps (o_side o)) (o_id o) (o_price o) (o_remaining o)) as Hadd.
  rewrite decide_False in Hadd.
  2:{ intros (e & He & Hin)%list_elem_of_fmap. apply queue_elem in Hin as (x & _ & Hon & ->); [|done].
      apply on_side_spec in Hon as (_ & _ & _ & Hn). apply Hn. by f_equal. }
  destruct Hadd as (s & -> & Hs). cbn [rbind]. eexists. split; [done|].
  split; simpl; [done|done| | |rewrite dkeys_dset_in; [done|by eapply dget_in_key]].
  - apply (books_update _ (orders st) _ (Some (o_id o)) None); [done|done|by rewrite Hq, decide_True|].
    intros symbol side _ Hne. rewrite Hq, decide_False; [apply app_nil_r|]. intros [<- <-]. by apply Hne.
  - by apply (rested_uncrossed st o); [split| | | |apply Hpost].
Qed.

(** ** Submission *)

Lemma selected_fresh ords o symbol side :
  keyed ords → dget (o_id o) ords = None →
  selected (on_side (Some (o_id o)) symbol side) (dset (o_id o) o ords) = selected (on_side None symbol side) ords.
Proof.
  intros Hk Hd. unfold selected. pose proof (proj1 (dget_None _ _) Hd) as Hn. rewrite dset_new by done.
  unfold dvalues. rewrite fmap_app, filter_app. simpl. rewrite (filter_cons_False _ o).
  2:{ rewrite (proj2 (on_side_false _ _ _ _)); [done|]. intros (_ & _ & _ & Hx). by apply Hx. }
  rewrite filter_nil, app_nil_r. apply filter_ext_in. intros x Hx.
  apply elem_dvalues in Hx as [k Hx]; [|apply Hk]. pose proof (proj2 Hk k x Hx) as Hid.
  rewrite !on_side_spec. split; intros (H1 & H2 & H3 & _); split_and!; try done. congruence.
Qed.

Lemma opposing_length st o : (length (opposing st o) ≤ length (orders st))%nat.
Proof.
  unfold opposing, makers, priority. rewrite sort_by_length. unfold selected, dvalues.
  rewrite length_filter. by rewrite length_fmap.
Qed.

(** What an accepted order does. *)
Definition accepted_as (st : State) (o : Order) (st' : State) : Prop :=
  ∃ o' new, dget (o_id o) (orders st') = Some o' ∧ static o o' ∧ trades st' = trades st ++ new ∧
    map (execution_of (o_side o)) new =
      due (o_side o) (o_price o) (o_owner o) (o_quantity o)
        (makers (orders st) None (o_symbol o) (opposite (o_side o))) ∧
    results st' = dset (o_seq o) (mk_result (o_seq o) (o_request o) (o_id o) true (Some (o_status o')) None)
                    (results st).

(** The rest of what [submit] leaves alone or extends. *)
Definition appended (st : State) (o : Order) (st' : State) : Prop :=
  settings st' = settings st ∧ dkeys (accounts st') = dkeys (accounts st) ∧
  last_seq st' = last_seq st ∧ last_timestamp st' = last_timestamp st ∧
  dkeys (orders st') = dkeys (orders st) ++ [o_id o] ∧
  signature <$> dvalues (orders st') = (signature <$> dvalues (orders st)) ++ [signature o].

Lemma match_fresh st o accs used :
  inv None st → fresh_order st o → dkeys accs = dkeys (accounts st) →
  money_ok (settings st) accs (dvalues (dset (o_id o) o (orders st))) (trades st) →
  let st1 := set_orders (set_daily (set_accounts st accs) used) (dset (o_id o) o (orders st)) in
  ∃ st2 st3 o', match_loop (S (length (orders st1))) (o_id o) 0 st1 = Ok st2 ∧
    rest_order st2 (o_id o) = Ok st3 ∧ dget (o_id o) (orders st3) = Some o' ∧ inv None st3 ∧
    daily st3 = used ∧ appended st o st3 ∧
    ∀ b, body_request b = o_request o → body_order b = o_id o →
      accepted_as st o (accept st3 (o_seq o) b (o_status o')).
Proof.
  intros Hinv Hf Hk Hm st1. pose proof (fresh_inv st o accs used Hinv Hf Hk Hm) as Hinv1. fold st1 in Hinv1.
  pose proof (inv_keyed _ _ Hinv) as Hkd.
  assert (dget (o_id o) (orders st1) = Some o) as Ho by apply dget_dset_eq.
  assert (opposing st1 o = makers (orders st) None (o_symbol o) (opposite (o_side o))) as Hop.
  { unfold opposing, makers. f_equal. apply selected_fresh; [done|apply Hf]. }
  destruct (match_loop_spec (S (length (orders st1))) st1 o 0) as
    (st2 & Hrun & Hinv2 & (F1 & F2 & F3 & F4 & F5 & F6 & F7 & F8) & o' & new & Ho' & Hst & Htr & Hdue & Hpost).
  { done. } { done. } { by rewrite (fo_status _ _ Hf). }
  { left. pose proof (opposing_length st1 o). lia. }
  assert (dkeys (orders st1) = dkeys (orders st) ++ [o_id o] ∧
    signature <$> dvalues (orders st1) = (signature <$> dvalues (orders st)) ++ [signature o]) as [Hkeys Hseqs].
  { unfold st1. simpl. rewrite dset_new by apply dget_None, Hf. unfold dkeys, dvalues. by rewrite !fmap_app. }
  pose proof (inv_keyed _ _ Hinv2) as Hk2. pose proof Hst as (S1 & S2 & S3 & S4 & S5 & _).
  assert (∃ d, orders st2 = d ++ [(o_id o', o')]) as [d Hd].
  { rewrite Hkeys in F7. unfold dkeys in F7.
    apply fmap_app_inv in F7 as (d & l & Hd1 & Hl & Heq). exists d. rewrite Heq. f_equal.
    destruct l as [|[k x] [|]]; try done. simpl in Hl. injection Hl as <-. f_equal.
    assert (dget (o_id o) (orders st2) = Some x) as Hx.
    { apply dget_Some; [apply Hk2|]. rewrite Heq, elem_of_app. right. left. }
    rewrite Ho' in Hx. injection Hx as ->. by rewrite S1. }
  rewrite <- S1 in Hinv2.
  destruct (rest_order_spec st2 d o' Hinv2 Hd) as (idx & Hrest & Hinv3).
  { unfold opposing in *. rewrite S1, S2, S4, S5. exact Hpost. }
  exists st2, (set_books st2 idx), o'. rewrite <- S1 at 2. split; [done|]. split; [done|]. split; [done|].
  split; [done|]. split; [done|]. split.
  { split; [done|]. split; [exact (eq_trans F2 Hk)|]. split; [done|]. split; [done|]. simpl. split; congruence. }
  intros b Hb1 Hb2. exists o', new. split; [done|]. split; [done|]. split; [done|]. split.
  - by rewrite Hdue, Hop, (fo_remaining _ _ Hf).
  - simpl. by rewrite F3, Hb1, Hb2.
Qed.

Lemma inv_put_result ex st r : inv ex st → inv ex (put_result st r).
Proof. by apply inv_ext. Qed.

Lemma free_funds_get st o :
  accounts_ok (symbols (settings st)) (accounts st) → o_owner o ∈ dkeys (accounts st) →
  o_symbol o ∈ symbols (settings st) →
  funds_available st (o_owner o) (o_symbol o) (o_side o) = Ok (free_funds st o).
Proof.
  intros Hok Ho Hs. unfold funds_available, free_funds, dlookup, cash_of, pos_of.
  destruct (dget_key _ _ Ho) as [a Ha]. rewrite Ha. cbn [rbind]. destruct (o_side o); [done|].
  rewrite <- (proj2 Hok _ _ Ha) in Hs. destruct (dget_key _ _ Hs) as [x ->]. done.
Qed.

(** The guards an accepted order has passed, in the code's order. *)
Record admitted_order (st : State) (o : Order) : Prop := {
  ao_fresh : fresh_order st o;
  ao_session : session_permits (o_timestamp o) (session (settings st)) = true;
  ao_daily : risk_permits (dget_or 0 (o_owner o, o_symbol o, o_day o) (daily st)) (o_quantity o)
               (daily_limit (settings st)) = true;
  ao_funds : reservation o <= free_funds st o;
}.

Definition new_row (rq id symbol : string) (side : Side) (price quantity : Z) (owner : string) (seq stamp : Z)
    : Order :=
  mk_order rq id symbol side price quantity owner seq stamp (day_of stamp) quantity 0 OPEN "".

Lemma submit_spec st owner seq stamp rq id symbol side price quantity :
  inv None st → owner ∈ dkeys (accounts st) → 1 <= price → 1 <= quantity →
  let b := NewOrder rq id symbol side price quantity in
  let o := new_row rq id symbol side price quantity owner seq stamp in
  ∃ st', submit st owner seq stamp b rq id symbol side price quantity = Ok st' ∧ inv None st' ∧
    ((∃ reason, st' = reject st seq b reason ∧ ¬ admitted_order st o) ∨
     admitted_order st o ∧ appended st o st' ∧ accepted_as st o st' ∧
       daily st' = dset (owner, symbol, day_of stamp)
         (dget_or 0 (owner, symbol, day_of stamp) (daily st) + quantity) (daily st)).
Proof.
  intros Hinv Hown Hp Hq b o. unfold submit.
  assert (∀ reason, ¬ admitted_order st o → ∃ st', Ok (reject st seq b reason) = Ok st' ∧ inv None st' ∧
    ((∃ reason, st' = reject st seq b reason ∧ ¬ admitted_order st o) ∨
     admitted_order st o ∧ appended st o st' ∧ accepted_as st o st' ∧
       daily st' = dset (owner, symbol, day_of stamp)
         (dget_or 0 (owner, symbol, day_of stamp) (daily st) + quantity) (daily st))) as Hrej.
  { intros reason Hna. eexists. split; [done|]. split; [by apply inv_put_result|]. left. eauto. }
  destruct (dmem id (orders st)) eqn:Hmem.
  { apply Hrej. intros [[Hid]]. simpl in Hid. apply dmem_true in Hmem as [? ?]. congruence. }
  apply dmem_false in Hmem. case_bool_decide as Hsym; cbn [negb].
  2:{ apply Hrej. by intros [[]]. }
  destruct (session_permits stamp (session (settings st))) eqn:Hses; cbn [negb].
  2:{ apply Hrej. intros [_ Hs]. simpl in Hs. congruence. }
  destruct (risk_permits _ quantity _) eqn:Hrisk; cbn [negb].
  2:{ apply Hrej. intros [_ _ Hs]. simpl in Hs. congruence. }
  assert (fresh_order st o) as Hf by by split.
  pose proof (free_funds_get st o (mo_accounts _ _ _ _ (i_money _ _ Hinv)) Hown Hsym) as Hfree.
  simpl in Hfree. rewrite Hfree. cbn [rbind].
  change (match side with BUY => quantity * price | SELL => quantity end) with (reservation o).
  destruct (Z.ltb_spec (free_funds st o) (reservation o)) as [Hlt|Hge].
  { apply Hrej. intros [_ _ _ Hx]. lia. }
  destruct (fresh_money st o (i_money _ _ Hinv) Hf Hge) as (accs & Hres & Hk & Hm).
  change (reserve_funds st owner symbol side (reservation o) = Ok (set_accounts st accs)) in Hres.
  rewrite Hres. cbn [rbind].
  destruct (match_fresh st o accs (dset (owner, symbol, day_of stamp)
    (dget_or 0 (owner, symbol, day_of stamp) (daily st) + quantity) (daily st)) Hinv Hf Hk Hm) as (st2 & st3 & o' & Hrun & Hrest & Ho' & Hinv3 & Hd & Happ & Hacc).
  change (mk_order rq id symbol side price quantity owner seq stamp (day_of stamp) quantity 0 OPEN "") with o.
  simpl in Hrun, Hrest, Ho'. simpl. rewrite Hrun. cbn [rbind]. rewrite Hrest. cbn [rbind]. unfold dlookup. rewrite Ho'.
  cbn [rbind]. eexists. split; [done|]. split; [by apply inv_put_result|]. right. split; [by split|].
  split; [exact Happ|]. split; [by apply (Hacc b)|exact Hd].
Qed.

(** ** Expiry *)

Definition stale (day : Z) (o : Order) : bool := is_active o && negb (o_day o =? day).
Definition expired (day : Z) (o : Order) : Order :=
  if stale day o then canceled o "DAY_EXPIRED" else o.

Lemma expire_spec ids day st :
  inv None st → (∀ id, id ∈ ids → id ∈ dkeys (orders st)) →
  ∃ st', expire ids day st = Ok st' ∧ inv None st' ∧ frame st st' ∧ trades st' = trades st ∧
    ∀ id, dget id (orders st') =
      (λ o, if decide (id ∈ ids) then expired day o else o) <$> dget id (orders st).
Proof.
  revert st. induction ids as [|i ids IH]; intros st Hinv Hids; simpl.
  { exists st. split; [done|]. split; [done|]. split; [apply frame_refl|]. split; [done|].
    intros id. by destruct (dget id (orders st)). }
  destruct (dget_key i (orders st) (Hids i ltac:(left))) as [o Ho]. unfold dlookup. rewrite Ho. cbn [rbind].
  assert (∃ st1, (if is_active o && negb (o_day o =? day) then release st i "DAY_EXPIRED" else Ok st) = Ok st1 ∧
    inv None st1 ∧ frame st st1 ∧ trades st1 = trades st ∧ orders st1 = dset i (expired day o) (orders st))
    as (st1 & -> & Hinv1 & Hf1 & Ht1 & Ho1).
  { unfold expired, stale. destruct (is_active o && negb (o_day o =? day)) eqn:E.
    - apply andb_true_iff in E as [Ha _].
      destruct (release_spec _ st i o "DAY_EXPIRED" Hinv Ho Ha)
        as (st1 & E & Hinv1 & Hords & Htr & F1 & F2 & F3 & F4 & F5 & F6).
      exists st1. split; [done|]. split; [done|]. split; [|done].
      assert (evolves (orders st) (orders st1)); [|by split_and!]. rewrite Hords. by apply (evolves_dset _ _ o).
    - exists st. split; [done|]. split; [done|]. split; [apply frame_refl|]. split; [done|]. by rewrite dset_same. }
  cbn [rbind]. destruct (IH st1 Hinv1) as (st' & -> & Hinv' & Hf' & Ht' & Hd').
  { intros id Hid. destruct Hf1 as (_ & _ & _ & _ & _ & _ & -> & _). apply Hids. by right. }
  exists st'. split; [done|]. split; [done|]. split; [by eapply frame_trans|]. split; [congruence|].
  intros id. rewrite Hd', Ho1, dget_dset. destruct (decide (i = id)) as [<-|Hne].
  - rewrite Ho. simpl. f_equal. rewrite (decide_True (P := i ∈ i :: ids)) by set_solver. destruct (decide (i ∈ ids)); [|done].
    unfold expired. destruct (stale day o) eqn:E; [reflexivity|by rewrite E].
  - destruct (dget id (orders st)) as [x|]; [|done]. simpl. f_equal.
    destruct (decide (id ∈ ids)); [rewrite decide_True by (by right)|rewrite decide_False by set_solver]; done.
Qed.

Lemma expire_all day st :
  inv None st →
  ∃ st', expire (dkeys (orders st)) day st = Ok st' ∧ inv None st' ∧ frame st st' ∧ trades st' = trades st ∧
    orders st' = map (λ p, (p.1, expired day p.2)) (orders st).
Proof.
  intros Hinv. destruct (expire_spec (dkeys (orders st)) day st Hinv) as (st' & E & Hinv' & Hf & Ht & Hd); [done|].
  exists st'. split; [done|]. split; [done|]. split; [done|]. split; [done|].
  apply dict_ext; [apply (inv_keyed _ _ Hinv')| |].
  - rewrite dkeys_map. by destruct Hf as (_ & _ & _ & _ & _ & _ & -> & _).
  - intros k. rewrite Hd, dget_map. destruct (dget k (orders st)) eqn:E'; [|done]. simpl.
    rewrite decide_True; [done|]. by eapply dget_in_key.
Qed.

(** ** Cancellation *)

Lemma cancel_spec st owner seq b :
  inv None st →
  ∃ st', cancel st owner seq b = Ok st' ∧ inv None st' ∧ trades st' = trades st ∧
    settings st' = settings st ∧ dkeys (accounts st') = dkeys (accounts st) ∧
    daily st' = daily st ∧ last_seq st' = last_seq st ∧ last_timestamp st' = last_timestamp st ∧
    evolves (orders st) (orders st') ∧
    match dget (body_order b) (orders st) with
    | Some o =>
        if bool_decide (o_owner o = owner) && is_active o
        then orders st' = dset (body_order b) (canceled o "USER_CANCEL") (orders st)
        else orders st' = orders st ∧ accounts st' = accounts st
    | None => orders st' = orders st ∧ accounts st' = accounts st
    end.
Proof.
  intros Hinv. unfold cancel.
  assert (∀ r, ∃ st', Ok (put_result st r) = Ok st' ∧ inv None st' ∧ trades st' = trades st ∧
    settings st' = settings st ∧ dkeys (accounts st') = dkeys (accounts st) ∧
    daily st' = daily st ∧ last_seq st' = last_seq st ∧ last_timestamp st' = last_timestamp st ∧
    evolves (orders st) (orders st') ∧ orders st' = orders st ∧ accounts st' = accounts st) as Hput.
  { intros r. eexists. split; [done|]. split; [by apply inv_put_result|]. done. }
  destruct (dget (body_order b) (orders st)) as [o|] eqn:Ho; [|apply Hput].
  case_bool_decide as Hown; simpl; [|apply Hput].
  destruct (is_active o) eqn:Ha; [|case_match; apply Hput].
  destruct (release_spec _ st (body_order b) o "USER_CANCEL" Hinv Ho Ha)
    as (st1 & -> & Hinv1 & Hords & Htr & F1 & F2 & F3 & F4 & F5 & F6). cbn [rbind].
  unfold dlookup. rewrite Hords, dget_dset_eq. cbn [rbind]. eexists. split; [done|].
  split; [by apply inv_put_result|]. split_and!; try done.
  all: simpl; rewrite Hords; by apply (evolves_dset _ _ o).
Qed.
