(* ===== verification/ExchangeProps.v ===== *)
(** * What the exchange promises

    Genesis establishes the invariant and every sequenced command keeps it, so
    it holds of every state the service can reach; the theorems read off it:
    conservation, reservations, uncrossed books, price-time priority and the
    errors a command can raise. *)
From S2P Require Import Prelude PyList PyDict Checks OrderBook Exchange ExchangeInv ExchangeSteps.
Local Open Scope Z_scope.

(** ** Genesis *)

(** Settings the code has checked. *)
Record settings_ok (data : Settings) : Prop := {
  st_keys : dict_ok (s_accounts data);
  st_symbols : NoDup (symbols data);
  st_cash : ∀ o a, dget o (s_accounts data) = Some a → 0 <= opening_cash a;
  st_shares : ∀ o a s, dget o (s_accounts data) = Some a → 0 <= dget_or 0 s (opening_positions a);
  st_known : ∀ o a s, dget o (s_accounts data) = Some a → s ∉ symbols data → dget s (opening_positions a) = None;
  st_limit : 1 <= daily_limit data;
}.

Lemma valid_account_spec syms o a :
  valid_account syms (o, a) = true →
  0 <= opening_cash a ∧ (∀ s, 0 <= dget_or 0 s (opening_positions a)) ∧
  ∀ s, s ∉ syms → dget s (opening_positions a) = None.
Proof.
  unfold valid_account. simpl. rewrite !andb_true_iff, integer_spec.
  intros [[[_ Hc] Hk] Hv]. rewrite forallb_forall in Hk, Hv. split; [lia|]. split.
  - intros s. unfold dget_or. destruct (dget s (opening_positions a)) as [v|] eqn:E; [|lia].
    apply dget_Some_elem in E. enough (0 <= v <= MAX_INTEGER) by lia.
    apply integer_spec, Hv, list_elem_of_In. by apply (list_elem_of_fmap_2 snd _ _ E).
  - intros s Hs. destruct (dget s (opening_positions a)) as [v|] eqn:E; [|done]. exfalso. apply Hs.
    apply dget_in_key, list_elem_of_In, Hk in E. by apply bool_decide_eq_true in E.
Qed.

Lemma validate_settings_ok value data :
  dict_ok (s_accounts value) → validate_settings value = Ok data →
  data = freeze_settings value ∧ settings_ok data.
Proof.
  intros Hok. unfold validate_settings. intros Hv.
  apply raise_if_Ok in Hv as [_ Hv]. apply raise_if_Ok in Hv as [_ Hv].
  apply raise_if_Ok in Hv as [Hnd Hv]. apply raise_if_Ok in Hv as [_ Hv].
  apply raise_if_Ok in Hv as [Hacc Hv]. do 5 apply raise_if_Ok in Hv as [_ Hv].
  apply raise_if_Ok in Hv as [Hlim Hv]. apply negb_false_iff, integer_spec in Hlim.
  injection Hv as <-. split; [done|]. apply negb_false_iff, bool_decide_eq_true in Hnd.
  apply negb_false_iff in Hacc. rewrite forallb_forall in Hacc.
  assert (∀ o a, dget o (s_accounts (freeze_settings value)) = Some a →
    valid_account (symbols (freeze_settings value)) (o, a) = true) as Ha.
  { intros o a Hd. by apply Hacc, list_elem_of_In, dget_Some_elem. }
  assert (∀ o a, dget o (s_accounts (freeze_settings value)) = Some a → 0 <= opening_cash a ∧
    (∀ s, 0 <= dget_or 0 s (opening_positions a)) ∧
    ∀ s, s ∉ symbols (freeze_settings value) → dget s (opening_positions a) = None) as Hs.
  { intros o a Hd. by apply (valid_account_spec _ o), Ha. }
  split; [|done|..].
  - simpl. unfold dict_ok. rewrite (dkeys_map (λ a, mk_account_settings (opening_cash a) (sort_keys (opening_positions a)))).
    apply (dict_ok_perm (s_accounts value)); [|done]. symmetry. apply sort_by_perm.
  - intros o a Hd. by apply (Hs o).
  - intros o a s Hd. by apply (Hs o).
  - intros o a s Hd. by apply (Hs o).
  - apply Hlim.
Qed.

Lemma genesis_inv value st :
  dict_ok (s_accounts value) → genesis value = Ok st →
  inv None st ∧ settings st = freeze_settings value ∧ settings_ok (settings st) ∧ orders st = [] ∧ trades st = [] ∧
  last_seq st = 1 ∧ daily st = [] ∧ last_timestamp st = 0.
Proof.
  intros Hok. unfold genesis. destruct (validate_settings value) as [data|] eqn:Hv; [|done]. cbn [rbind].
  apply validate_settings_ok in Hv as [-> Hset]; [|done]. remember (freeze_settings value) as data eqn:Hdata. clear Hdata.
  intros [= <-]. split; [|done].
  assert (∀ o, dget o (map (λ p, (p.1, open_account (symbols data) p.2)) (s_accounts data)) =
    open_account (symbols data) <$> dget o (s_accounts data)) as Hget by (intros; apply dget_map).
  split; simpl.
  - split.
    + split; [unfold dict_ok; rewrite dkeys_map; apply Hset|]. intros o a. rewrite Hget.
      destruct (dget o (s_accounts data)); [|done]. intros [= <-]. apply dkeys_tabulate.
    + apply dkeys_map.
    + intros o. unfold cash_of. rewrite Hget. by destruct (dget o (s_accounts data)).
    + intros o s. unfold pos_of. rewrite Hget. destruct (dget o (s_accounts data)); [|done]. simpl.
      rewrite dget_tabulate. by case_decide.
    + intros o. unfold cash_of. rewrite Hget. destruct (dget o (s_accounts data)) eqn:E; simpl; [|lia].
      by apply (st_cash _ Hset o).
    + intros o s. unfold pos_of. rewrite Hget. destruct (dget o (s_accounts data)) eqn:E; simpl; [|lia].
      rewrite dget_tabulate. case_decide; simpl; [|lia]. by apply (st_shares _ Hset o).
    + intros o. unfold cash_of, opening_cash_of. rewrite Hget. destruct (dget o (s_accounts data)); simpl; lia.
    + intros o s. unfold pos_of, opening_shares_of. simpl. rewrite Hget. destruct (dget o (s_accounts data)); simpl; [|lia].
      rewrite dget_tabulate. case_decide; case_bool_decide; simpl; done || lia.
  - split; simpl; try done; [constructor|]. by intros t ?%not_elem_of_nil.
  - intros s Hs. unfold empty_books. rewrite dget_tabulate, decide_True by done. eexists. split; [done|].
    intros side. destruct side; apply empty_rep.
  - by intros s b a ?%not_elem_of_nil.
  - apply dkeys_tabulate.
Qed.

(** ** Reachable states *)

(** The volume submitted by an owner in a symbol on a day. *)
Definition submitted (k : string * string * Z) (s : Z * string * string * Z * Z) : Z :=
  when (bool_decide ((s.1.1.1.2, s.1.1.2, s.1.2) = k)) s.2.

Record state_ok (st : State) : Prop := {
  so_inv : inv None st;
  so_settings : settings_ok (settings st);
  so_seqs : StronglySorted Z.lt ((λ s, s.1.1.1.1) <$> (signature <$> dvalues (orders st)));
  so_bound : Forall (λ s, 0 < s.1.1.1.1 <= last_seq st) (signature <$> dvalues (orders st));
  so_daily : ∀ k, dget_or 0 k (daily st) = zsum (submitted k) (signature <$> dvalues (orders st)) ∧
    dget_or 0 k (daily st) <= daily_limit (settings st);
  so_last : 1 <= last_seq st;
}.

Lemma genesis_ok value st : dict_ok (s_accounts value) → genesis value = Ok st → state_ok st.
Proof.
  intros Hok Hg. destruct (genesis_inv value st Hok Hg) as (Hinv & _ & Hset & Ho & _ & Hl & Hd & _).
  split; rewrite ?Ho, ?Hd, ?Hl; simpl; try done.
  - constructor.
  - intros k. pose proof (st_limit _ Hset). split; [done|]. change (0 <= daily_limit (settings st)). lia.
Qed.

Lemma sorted_snoc l x : StronglySorted Z.lt l → Forall (λ y, y < x) l → StronglySorted Z.lt (l ++ [x]).
Proof.
  induction 1 as [|y l Hs IH Hy]; intros Hf; simpl; [repeat constructor|].
  apply Forall_cons in Hf as [Hyx Hf]. constructor; [by apply IH|]. apply Forall_app. by repeat constructor.
Qed.

(** A command moves the clock, expires and leaves the rest to its handler. *)
Lemma clock_inv st seq stamp : inv None st → inv None (set_clock st seq stamp).
Proof. by apply inv_ext. Qed.

Section reduce.
Context (st : State) (seq stamp : Z) (owner : string) (body : Body) (Hok : state_ok st).

Definition before (st0 : State) : Prop :=
  inv None st0 ∧ frame (set_clock st seq stamp) st0 ∧ trades st0 = trades st ∧
  orders st0 = map (λ p, (p.1, expired (day_of stamp) p.2)) (orders st).

(** The command that [reduce_command] runs once it has checked and expired. *)
Definition handle (st0 : State) : result State :=
  match body with
  | CancelOrder _ _ => cancel st0 owner seq body
  | NewOrder request_id order_id symbol side price quantity =>
      submit st0 owner seq stamp body request_id order_id symbol side price quantity
  end.

Lemma reduce_handle :
  reduce_command (Some st) (Sequenced seq stamp owner body) = Raise ValueError ∨
  ∃ st0, reduce_command (Some st) (Sequenced seq stamp owner body) = handle st0 ∧ before st0 ∧
    seq = last_seq st + 1 ∧ owner ∈ dkeys (accounts st) ∧ validate body = Ok body.
Proof.
  simpl. destruct (integer seq 2 1001); simpl; [|by left]. destruct (integer stamp 1 MAX_TIMESTAMP); simpl; [|by left].
  destruct (identifier owner); simpl; [|by left].
  destruct (Z.eqb_spec seq (last_seq st + 1)) as [Hseq|]; simpl; [|by left].
  destruct (stamp <? last_timestamp st); simpl; [by left|].
  destruct (dmem owner (accounts st)) eqn:Hm; simpl; [|by left]. apply dmem_spec in Hm.
  destruct (validate body) as [b|e] eqn:Hv; simpl.
  2:{ left. f_equal. unfold validate in Hv. apply raise_if_Raise in Hv as [->|[_ Hv]]; [done|].
      apply raise_if_Raise in Hv as [->|[_ Hv]]; [done|]. destruct body; [|done].
      do 2 (apply raise_if_Raise in Hv as [->|[_ Hv]]; [done|]). by apply raise_if_Raise in Hv as [->|[_ Hv]]. }
  assert (b = body) as ->.
  { unfold validate in Hv. do 2 apply raise_if_Ok in Hv as [_ Hv]. destruct body; [|by injection Hv].
    do 3 apply raise_if_Ok in Hv as [_ Hv]. by injection Hv. }
  right. destruct (expire_all (day_of stamp) (set_clock st seq stamp)) as (st0 & E & Hinv & Hf & Ht & Ho).
  { apply clock_inv, Hok. }
  simpl in E. exists st0. rewrite E. split; [done|]. split; [by split_and!|]. split; [done|]. split; [done|]. done.
Qed.

(** What a handler leaves of the state it starts from. *)
Definition after (st' : State) : Prop :=
  state_ok st' ∧ settings st' = settings st ∧ dkeys (accounts st') = dkeys (accounts st) ∧
  last_seq st' = seq ∧ last_timestamp st' = stamp.

Lemma same_rows st0 st' :
  before st0 → seq = last_seq st + 1 →
  inv None st' → settings st' = settings st0 → dkeys (accounts st') = dkeys (accounts st0) →
  daily st' = daily st0 → last_seq st' = last_seq st0 → last_timestamp st' = last_timestamp st0 →
  evolves (orders st0) (orders st') → after st'.
Proof.
  intros (_ & (F1 & F2 & F3 & F4 & F5 & F6 & _ & F7) & _ & _) Hseq Hinv E1 E2 E3 E4 E5 [_ E6].
  simpl in *. rewrite F7 in E6. destruct Hok as [_ Hset Hs Hb Hd Hl].
  split; [|split_and!; congruence]. split; [done|congruence|by rewrite E6| | |lia].
  - rewrite E6, E4, F5, Hseq. eapply Forall_impl; [exact Hb|]. simpl. lia.
  - intros k. rewrite E3, F4, E6, E1, F1. apply Hd.
Qed.

Lemma handle_cancel st0 :
  before st0 → seq = last_seq st + 1 → ∃ st', cancel st0 owner seq body = Ok st' ∧ after st'.
Proof.
  intros Hbef Hseq. destruct (cancel_spec st0 owner seq body) as
    (st' & -> & Hinv & Ht & Hs & Hk & Hd & Hl & Hts & Hev & _); [apply Hbef|].
  exists st'. split; [done|]. by apply (same_rows st0).
Qed.

Lemma handle_submit st0 rq id symbol side price quantity :
  before st0 → seq = last_seq st + 1 → owner ∈ dkeys (accounts st) → 1 <= price → 1 <= quantity →
  ∃ st', submit st0 owner seq stamp (NewOrder rq id symbol side price quantity) rq id symbol side price quantity
    = Ok st' ∧ after st'.
Proof.
  intros Hbef Hseq Hown Hp Hq. pose proof Hbef as (Hinv0 & (F1 & F2 & F3 & F4 & F5 & F6 & _ & F7) & Htr & Hords).
  simpl in *. destruct (submit_spec st0 owner seq stamp rq id symbol side price quantity) as
    (st' & -> & Hinv & Hcase); [done|by rewrite F2|done|done|].
  exists st'. split; [done|].
  destruct Hcase as [(reason & -> & _)|([_ _ Hrisk _] & (A1 & A2 & A3 & A4 & _ & A6) & _ & Hd)].
  { by apply (same_rows st0). }
  rewrite F7 in A6. destruct Hok as [_ Hset Hs Hb Hdl Hl]. split; [|split_and!; congruence].
  change (signature _) with (seq, owner, symbol, day_of stamp, quantity) in A6. unfold risk_permits in Hrisk. simpl in Hrisk.
  split; [done|congruence| | | |lia]; rewrite A6.
  - rewrite fmap_app. apply sorted_snoc; [done|]. apply Forall_fmap. eapply Forall_impl; [exact Hb|]. simpl. lia.
  - rewrite A3, F5, Hseq. apply Forall_app. split; [eapply Forall_impl; [exact Hb|]; simpl; lia|].
    repeat constructor; simpl; lia.
  - intros k. rewrite Hd, F4, zsum_app, A1, F1, dget_or_dset. destruct (Hdl k) as [D1 D2].
    rewrite F4, F1 in Hrisk. cbn [zsum foldr]. unfold submitted at 2, when. simpl. case_decide as Hk.
    + subst k. rewrite bool_decide_true by done. lia.
    + rewrite bool_decide_false by done. lia.
Qed.

Lemma reduce_ok :
  match reduce_command (Some st) (Sequenced seq stamp owner body) with
  | Ok st' => after st' ∧ seq = last_seq st + 1
  | Raise e => e = ValueError
  end.
Proof.
  destruct reduce_handle as [->|(st0 & -> & Hbef & Hseq & Hown & Hval)]; [done|].
  unfold handle. destruct body as [rq id symbol side price quantity|rq id] eqn:Hbody.
  - unfold validate in Hval. do 3 apply raise_if_Ok in Hval as [_ Hval].
    apply raise_if_Ok in Hval as [Hp Hval]. apply raise_if_Ok in Hval as [Hq _].
    apply negb_false_iff, integer_spec in Hp, Hq.
    destruct (handle_submit st0 rq id symbol side price quantity) as (st' & -> & Haf); try done; lia.
  - rewrite <- Hbody. destruct (handle_cancel st0) as (st' & -> & Haf); done.
Qed.
End reduce.

(** The service: genesis, then a log of commands. *)
Definition exchange (value : Settings) (log : list Command) : result State :=
  let* st := genesis value in Ok (apply_log st log).

Lemma command_ok st c :
  state_ok st →
  match reduce_command (Some st) c with
  | Ok st' => state_ok st' ∧ settings st' = settings st ∧ dkeys (accounts st') = dkeys (accounts st)
  | Raise e => e = ValueError
  end.
Proof.
  intros Hok. destruct c as [value|seq stamp owner body]; [done|].
  pose proof (reduce_ok st seq stamp owner body Hok) as H.
  destruct (reduce_command _ _); [|done]. by destruct H as [(H1 & H2 & H3 & _) _].
Qed.

Lemma log_ok st log :
  state_ok st →
  state_ok (apply_log st log) ∧ settings (apply_log st log) = settings st ∧
  dkeys (accounts (apply_log st log)) = dkeys (accounts st).
Proof.
  revert st. induction log as [|c log IH]; intros st Hok; simpl; [done|].
  pose proof (command_ok st c Hok) as Hc. destruct (reduce_command (Some st) c) as [st'|e]; [|by apply IH].
  destruct Hc as (H1 & H2 & H3). destruct (IH st' H1) as (H4 & -> & ->). done.
Qed.

Lemma exchange_ok value log st :
  dict_ok (s_accounts value) → exchange value log = Ok st →
  state_ok st ∧ settings st = freeze_settings value ∧ dkeys (accounts st) = dkeys (s_accounts (settings st)).
Proof.
  intros Hok. unfold exchange. destruct (genesis value) as [st0|] eqn:Hg; [|done]. intros [= <-].
  pose proof (genesis_inv value st0 Hok Hg) as (Hinv & Hset & _).
  destruct (log_ok st0 log (genesis_ok value st0 Hok Hg)) as (H1 & H2 & H3).
  split; [done|]. split; [congruence|]. rewrite H3, H2. apply (mo_owners _ _ _ _ (i_money _ _ Hinv)).
Qed.

(** ** Conservation *)

Definition total (b : Balance) : Z := available b + held b.
Definition cash_supply (accs : dict string Account) : Z := zsum (λ a, total (cash a)) (dvalues accs).
Definition share_supply (accs : dict string Account) (s : string) : Z :=
  zsum (λ a, match dget s (positions a) with Some b => total b | None => 0 end) (dvalues accs).

Section conservation.
Context (st : State) (Hok : state_ok st).
Let accs := dkeys (accounts st).

Lemma accs_nodup : NoDup accs.
Proof. apply (mo_accounts _ _ _ _ (i_money _ _ (so_inv _ Hok))). Qed.

Lemma trade_parties t :
  t ∈ trades st → t_buyer t ∈ accs ∧ t_seller t ∈ accs ∧ t_symbol t ∈ symbols (settings st).
Proof.
  intros Ht. pose proof (i_rows _ _ (so_inv _ Hok)) as Hr.
  destruct (ro_trades _ _ _ _ _ Hr t Ht) as (b & a & Hb & Ha & _ & _ & <- & <- & <- & _).
  pose proof (ro_order _ _ _ _ _ Hr _ _ Hb) as Hob. pose proof (ro_order _ _ _ _ _ Hr _ _ Ha) as Hoa.
  split_and!; [apply (oo_owner _ _ _ _ _ Hob)|apply (oo_owner _ _ _ _ _ Hoa)|apply (oo_symbol _ _ _ _ _ Hob)].
Qed.

Lemma flows_cancel :
  zsum (λ o, zsum (cash_flow o) (trades st)) accs = 0 ∧
  ∀ s, zsum (λ o, zsum (share_flow o s) (trades st)) accs = 0.
Proof.
  pose proof accs_nodup as Hnd. split; [|intros s]; rewrite zsum_swap; apply zsum_zero; intros t Ht;
    destruct (trade_parties t Ht) as (Hb & Hs & _).
  - unfold cash_flow. rewrite (zsum_ext _ (λ o, when (bool_decide (t_seller t = o)) (t_quantity t * t_price t)
      + when (bool_decide (t_buyer t = o)) (- (t_quantity t * t_price t)))).
    + rewrite zsum_plus, !zsum_when by done. rewrite !bool_decide_true by done. unfold when. lia.
    + intros o _. unfold when. repeat case_bool_decide; lia.
  - rewrite (zsum_ext _ (λ o, when (bool_decide (t_buyer t = o)) (when (bool_decide (t_symbol t = s)) (t_quantity t))
      + when (bool_decide (t_seller t = o)) (when (bool_decide (t_symbol t = s)) (- t_quantity t)))).
    + rewrite zsum_plus, !zsum_when by done. rewrite (bool_decide_true (_ ∈ _)), (bool_decide_true (t_seller t ∈ _)) by done.
      unfold when. case_bool_decide; lia.
    + intros o _. unfold share_flow, when. repeat case_bool_decide; destruct_and?; try tauto; lia.
Qed.

Lemma supplies :
  cash_supply (accounts st) = zsum opening_cash (dvalues (s_accounts (settings st))) ∧
  ∀ s, s ∈ symbols (settings st) →
    share_supply (accounts st) s = zsum (λ a, dget_or 0 s (opening_positions a)) (dvalues (s_accounts (settings st))).
Proof.
  pose proof (i_money _ _ (so_inv _ Hok)) as [M1 M2 _ _ _ _ M7 M8]. pose proof (so_settings _ Hok) as Hset.
  destruct flows_cancel as [Fc Fs]. split; [|intros s Hs].
  - unfold cash_supply. rewrite (zsum_keys _ (λ o, opening_cash_of (settings st) o + zsum (cash_flow o) (trades st)));
      [|apply M1|].
    + rewrite zsum_plus. fold accs. rewrite Fc, Z.add_0_r. unfold accs. rewrite M2. symmetry.
      apply zsum_keys; [apply Hset|]. intros k v Hk. unfold opening_cash_of. by rewrite Hk.
    + intros k v Hk. rewrite <- M7. unfold cash_of. by rewrite Hk.
  - unfold share_supply. rewrite (zsum_keys _ (λ o, opening_shares_of (settings st) o s + zsum (share_flow o s) (trades st)));
      [|apply M1|].
    + rewrite zsum_plus. fold accs. rewrite Fs, Z.add_0_r. unfold accs. rewrite M2. symmetry.
      apply zsum_keys; [apply Hset|]. intros k v Hk. unfold opening_shares_of. rewrite Hk.
      by rewrite bool_decide_true.
    + intros k v Hk. rewrite <- M8. unfold pos_of. rewrite Hk. by destruct (dget s (positions v)).
Qed.
End conservation.

(** ** Books *)

(** What is open at a price. *)
Definition open_quantity (ords : dict string Order) (symbol : string) (side : Side) (p : Z) : Z :=
  zsum o_remaining (filter (λ o, o_price o = p) (selected (on_side None symbol side) ords)).

Lemma queue_at_price ords symbol side p :
  at_price p (queue ords None symbol side) =
    entry_of <$> filter (λ o, o_price o = p) (selected (on_side None symbol side) ords).
Proof. unfold at_price, queue. by rewrite filter_fmap. Qed.

Lemma open_positive st symbol side p :
  inv None st →
  0 <= open_quantity (orders st) symbol side p ∧
  (open_quantity (orders st) symbol side p = 0 ↔ at_price p (queue (orders st) None symbol side) = []).
Proof.
  intros Hinv. rewrite queue_at_price. unfold open_quantity.
  assert (∀ o, o ∈ filter (λ o, o_price o = p) (selected (on_side None symbol side) (orders st)) → 0 < o_remaining o) as Hpos.
  { intros o [_ [Hon Ho]%list_elem_of_filter]%list_elem_of_filter. apply on_side_spec in Hon as [Ha _].
    apply elem_dvalues in Ho as [k Ho]; [|apply (inv_keyed _ _ Hinv)].
    by apply (oo_active _ _ _ _ _ (inv_order _ _ _ _ Hinv Ho)). }
  destruct (filter _ _) as [|o l]; [done|]. simpl. pose proof (Hpos o ltac:(left)).
  assert (0 <= zsum o_remaining l) by (apply zsum_nonneg; intros x Hx; pose proof (Hpos x ltac:(by right)); lia).
  split; [lia|]. split; [lia|done].
Qed.

Lemma book_levels st symbol :
  state_ok st → symbol ∈ symbols (settings st) →
  ∃ bids asks, book st symbol = Ok (bids, asks) ∧
    ∀ side p, let lvls := match side with BUY => bids | SELL => asks end in
      dget p lvls = if decide (at_price p (queue (orders st) None symbol side) = []) then None
                    else Some (open_quantity (orders st) symbol side p).
Proof.
  intros Hok Hs. destruct (i_books _ _ (so_inv _ Hok) symbol Hs) as (b & Hb & Hreps).
  unfold book, dlookup. rewrite Hb. eexists _, _. split; [done|]. intros side p.
  pose proof (side_levels_spec _ _ _ (Hreps side) p) as Hl.
  replace (zsum e_quantity (at_price p (queue (orders st) None symbol side)))
    with (open_quantity (orders st) symbol side p) in Hl; [by destruct side|].
  rewrite queue_at_price, zsum_fmap. done.
Qed.

(** The scan of the order table finds the same levels as the index. *)
Lemma scan_levels symbol rows side p :
  let l := filter (λ o, o_price o = p) (filter (λ o, on_side None symbol side o = true) rows) in
  dget p (match side with
          | BUY => (foldl (scan_order symbol) ([], []) rows).1
          | SELL => (foldl (scan_order symbol) ([], []) rows).2
          end) = if decide (l = []) then None else Some (zsum o_remaining l).
Proof.
  induction rows as [|o rows IH] using rev_ind; simpl; [by destruct side|].
  rewrite foldl_snoc, !filter_app. simpl. rewrite (filter_cons _ o). simpl in IH.
  set (l := filter (λ o, o_price o = p) (filter (λ o, on_side None symbol side o = true) rows)) in *.
  set (lv := foldl (scan_order symbol) ([], []) rows) in *. unfold scan_order.
  assert (on_side None symbol side o = bool_decide (o_symbol o = symbol) && is_active o && bool_decide (o_side o = side)) as ->.
  { unfold on_side. rewrite (bool_decide_true (Some (o_id o) ≠ None)) by done.
    by destruct (is_active o), (bool_decide (o_symbol o = symbol)), (bool_decide (o_side o = side)). }
  destruct (bool_decide (o_symbol o = symbol) && is_active o); simpl; [|by rewrite app_nil_r].
  case_bool_decide as Hs; simpl.
  2:{ rewrite app_nil_r. rewrite <- IH. by destruct (o_side o), side. }
  rewrite filter_cons. subst side. destruct (decide (o_price o = p)) as [Hp|Hp].
  - rewrite decide_False by (by destruct l). rewrite zsum_app. simpl. rewrite Z.add_0_r.
    unfold dget_or. destruct (o_side o); simpl; rewrite Hp, dget_dset_eq, IH; f_equal; case_decide as Hl; rewrite ?Hl; done.
  - rewrite app_nil_r, <- IH. destruct (o_side o); simpl; by rewrite dget_dset_ne.
Qed.

(** ** Price-time priority *)

(** The orders of the day resting on a side, best first. *)
Definition resting_today (day : Z) (ords : dict string Order) (symbol : string) (side : Side) : list Order :=
  priority side (filter (λ o, on_side None symbol side o && (o_day o =? day) = true) (dvalues ords)).

Lemma makers_expired day ords symbol side :
  makers (map (λ p, (p.1, expired day p.2)) ords) None symbol side = resting_today day ords symbol side.
Proof.
  unfold makers, resting_today. f_equal. unfold selected, dvalues.
  induction ords as [|[k o] ords IH]; [done|]. simpl. rewrite !filter_cons. fold (dvalues ords) in *.
  assert (on_side None symbol side (expired day o) = on_side None symbol side o && (o_day o =? day) ∧
    (on_side None symbol side o && (o_day o =? day) = true → expired day o = o)) as [-> Ho].
  { unfold expired, stale, on_side. destruct (is_active o) eqn:Ha, (Z.eqb_spec (o_day o) day); simpl;
      rewrite ?Ha, ?andb_false_r, ?andb_true_r; done. }
  case_decide as Hd; [|exact IH]. rewrite Ho by done. f_equal. exact IH.
Qed.

(** ** Theorems *)

Lemma demo_ok : dict_ok (s_accounts demo_settings).
Proof. by apply (bool_decide_unpack _). Defined.

(** C27: cash and shares are conserved: after any log of commands, accepted or
    refused, the cash in all accounts is the opening cash and the shares of
    every symbol are the opening shares; what is held is what the open orders
    reserve, and no balance is negative. *)
Theorem exchange_conservation value log st :
  dict_ok (s_accounts value) → exchange value log = Ok st →
  cash_supply (accounts st) = zsum opening_cash (dvalues (s_accounts (settings st))) ∧
  (∀ s, s ∈ symbols value →
     share_supply (accounts st) s = zsum (λ a, dget_or 0 s (opening_positions a)) (dvalues (s_accounts (settings st)))) ∧
  ∀ o, held (cash_of (accounts st) o) = zsum (reserved_cash o) (dvalues (orders st)) ∧
    0 <= held (cash_of (accounts st) o) ∧ 0 <= available (cash_of (accounts st) o) ∧
    ∀ s, held (pos_of (accounts st) o s) = zsum (reserved_shares o s) (dvalues (orders st)) ∧
      0 <= held (pos_of (accounts st) o s) ∧ 0 <= available (pos_of (accounts st) o s).
Proof.
  intros Hd Hx. destruct (exchange_ok value log st Hd Hx) as (Hok & Hset & _).
  destruct (supplies st Hok) as [S1 S2]. split; [done|].
  split; [intros s Hs; apply S2; by rewrite Hset|].
  pose proof (i_money _ _ (so_inv _ Hok)) as M.
  assert (∀ o, o ∈ dvalues (orders st) → 0 <= o_remaining o ∧ 0 <= o_price o) as Hpos.
  { intros o Ho. apply elem_dvalues in Ho as [k Ho]; [|apply (inv_keyed _ _ (so_inv _ Hok))].
    pose proof (inv_order _ _ _ _ (so_inv _ Hok) Ho) as []. lia. }
  intros o. rewrite (mo_cash _ _ _ _ M). split; [done|]. split.
  { apply zsum_nonneg. intros x Hx'. specialize (Hpos x Hx'). unfold reserved_cash. case_match; nia. }
  split; [apply M|]. intros s. rewrite (mo_shares _ _ _ _ M). split; [done|]. split; [|apply M].
  apply zsum_nonneg. intros x Hx'. specialize (Hpos x Hx'). unfold reserved_shares. case_match; lia.
Qed.

Lemma exchange_conservation_witness :
  ∃ st, exchange demo_settings demo_log = Ok st ∧ cash_supply (accounts st) = 15000 ∧
    share_supply (accounts st) "ACME" = 10.
Proof.
  destruct (exchange demo_settings demo_log) as [st|] eqn:E; [|vm_compute in E; discriminate].
  exists st. split; [done|].
  destruct (exchange_conservation demo_settings demo_log st demo_ok E) as (-> & Hs & _).
  rewrite Hs by by left. vm_compute in E. injection E as <-. split; reflexivity.
Defined.

(** C31: price-time priority: when an order is accepted, its trades are those
    it is due, that is, it takes the orders of the day resting on the other
    side best price first and at a price in the order of their arrival, at
    their prices, until it is filled, its limit is reached or it would meet an
    order of its own owner; a refused order trades nothing. *)
Theorem price_time_priority value log st seq stamp owner rq id symbol side price quantity st' :
  dict_ok (s_accounts value) → exchange value log = Ok st →
  reduce_command (Some st) (Sequenced seq stamp owner (NewOrder rq id symbol side price quantity)) = Ok st' →
  ∃ r, dget seq (results st') = Some r ∧
    if r_accepted r then
      ∃ new, trades st' = trades st ++ new ∧
        map (execution_of side) new =
          due side price owner quantity (resting_today (day_of stamp) (orders st) symbol (opposite side))
    else trades st' = trades st.
Proof.
  intros Hd Hx Hr. destruct (exchange_ok value log st Hd Hx) as (Hok & _).
  destruct (reduce_handle st seq stamp owner (NewOrder rq id symbol side price quantity) Hok)
    as [E|(st0 & E & (Hinv & (F1 & F2 & F3 & F4 & F5 & F6 & _ & F7) & Htr & Hords) & Hseq & Hown & Hval)];
    rewrite Hr in E; [done|].
  unfold validate in Hval. do 3 apply raise_if_Ok in Hval as [_ Hval].
  apply raise_if_Ok in Hval as [Hp Hval]. apply raise_if_Ok in Hval as [Hq _].
  apply negb_false_iff, integer_spec in Hp, Hq. simpl in *.
  destruct (submit_spec st0 owner seq stamp rq id symbol side price quantity) as (st1 & E1 & _ & Hcase);
    [done|by rewrite F2|lia|lia|]. rewrite E1 in E. injection E as ->.
  destruct Hcase as [(reason & -> & _)|(_ & _ & (o' & new & _ & _ & Ht & Hdue & Hres) & _)].
  - eexists. split; [apply dget_dset_eq|]. exact Htr.
  - simpl in *. rewrite Hres. eexists. split; [apply dget_dset_eq|]. simpl. exists new.
    split; [congruence|]. by rewrite Hdue, Hords, makers_expired.
Qed.

Definition demo_taker : Command := Sequenced 4 (demo_time + 1) "abe" (NewOrder "r3" "b1" "ACME" BUY 101 4).

Lemma price_time_priority_witness :
  ∃ st st', exchange demo_settings (take 2 demo_log) = Ok st ∧ reduce_command (Some st) demo_taker = Ok st' ∧
    (∃ new, trades st' = trades st ++ new ∧ map (execution_of BUY) new = [("s2", 100, 2); ("s1", 101, 2)]).
Proof.
  destruct (exchange demo_settings (take 2 demo_log)) as [st|] eqn:E; [|vm_compute in E; discriminate].
  destruct (reduce_command (Some st) demo_taker) as [st'|] eqn:E'.
  2:{ vm_compute in E. injection E as <-. vm_compute in E'. discriminate. }
  exists st, st'. split; [done|]. split; [done|].
  destruct (price_time_priority _ _ _ _ _ _ _ _ _ _ _ _ _ demo_ok E E') as (r & Hr & H).
  vm_compute in E. injection E as <-. vm_compute in E'. injection E' as <-. vm_compute in Hr. injection Hr as <-.
  destruct H as (new & H1 & H2). exists new. split; [exact H1|]. etransitivity; [exact H2|reflexivity].
Defined.

(** The published book of a symbol shows at each price the total open
    quantity of the active orders at that price, only prices with some, and
    every bid it shows is below every ask; the index and the scan of the order
    table give the same book. *)
Theorem exchange_book value log st symbol :
  dict_ok (s_accounts value) → exchange value log = Ok st → symbol ∈ symbols value →
  ∃ bids asks, book st symbol = Ok (bids, asks) ∧
    (∀ p, dget_or 0 p bids = open_quantity (orders st) symbol BUY p ∧
          (p ∈ dkeys bids ↔ 0 < open_quantity (orders st) symbol BUY p)) ∧
    (∀ p, dget_or 0 p asks = open_quantity (orders st) symbol SELL p ∧
          (p ∈ dkeys asks ↔ 0 < open_quantity (orders st) symbol SELL p)) ∧
    (∀ p q, p ∈ dkeys bids → q ∈ dkeys asks → p < q) ∧
    dict_equiv (book_scan st symbol).1 bids ∧ dict_equiv (book_scan st symbol).2 asks.
Proof.
  intros Hd Hx Hs. destruct (exchange_ok value log st Hd Hx) as (Hok & Hset & _).
  destruct (book_levels st symbol Hok) as (bids & asks & Hb & Hl); [by rewrite Hset|].
  exists bids, asks. split; [done|].
  assert (∀ side lvls, (∀ p, dget p lvls = if decide (at_price p (queue (orders st) None symbol side) = []) then None
      else Some (open_quantity (orders st) symbol side p)) →
    ∀ p, dget_or 0 p lvls = open_quantity (orders st) symbol side p ∧
      (p ∈ dkeys lvls ↔ 0 < open_quantity (orders st) symbol side p)) as Hside.
  { intros side lvls Hlv p. destruct (open_positive st symbol side p (so_inv _ Hok)) as [Hnn Hz].
    rewrite <- dmem_spec. unfold dget_or, dmem. rewrite Hlv. case_decide as Hq.
    - apply Hz in Hq. rewrite Hq. by split.
    - split; [done|]. split; [|done]. intros _. enough (open_quantity (orders st) symbol side p ≠ 0) by lia. tauto. }
  pose proof (Hside BUY bids (Hl BUY)) as HB. pose proof (Hside SELL asks (Hl SELL)) as HS.
  split; [done|]. split; [done|].
  assert (∀ side p, 0 < open_quantity (orders st) symbol side p →
    ∃ e, e ∈ queue (orders st) None symbol side ∧ e_price e = p) as Hent.
  { intros side p Hpos. destruct (open_positive st symbol side p (so_inv _ Hok)) as [_ Hz].
    destruct (at_price p (queue (orders st) None symbol side)) as [|e l] eqn:Hq; [rewrite (proj2 Hz eq_refl) in Hpos; lia|].
    assert (e ∈ at_price p (queue (orders st) None symbol side)) as He by (rewrite Hq; left).
    apply at_price_elem in He as [He1 He2]. by exists e. }
  split.
  { intros p q Hp%HB Hq%HS. apply Hent in Hp as (b & Hb1 & <-), Hq as (a & Ha1 & <-).
    by apply (i_uncrossed _ _ (so_inv _ Hok) symbol). }
  split; intros p; unfold book_scan; [rewrite (Hl BUY p)|rewrite (Hl SELL p)]; rewrite queue_at_price;
    [rewrite (scan_levels symbol (dvalues (orders st)) BUY p)|rewrite (scan_levels symbol (dvalues (orders st)) SELL p)];
    unfold open_quantity, selected; destruct (filter _ _); done.
Qed.

Lemma exchange_book_witness :
  ∃ st bids asks, exchange demo_settings demo_log = Ok st ∧ book st "ACME" = Ok (bids, asks) ∧ dget_or 0 99 bids = 5.
Proof.
  destruct (exchange demo_settings demo_log) as [st|] eqn:E; [|vm_compute in E; discriminate].
  destruct (exchange_book demo_settings demo_log st "ACME" demo_ok E) as (bids & asks & Hb & HB & _); [left|].
  exists st, bids, asks. split; [done|]. split; [done|]. rewrite (proj1 (HB 99)).
  vm_compute in E. injection E as <-. reflexivity.
Defined.

(** In a reachable state the only error a command raises is [ValueError]:
    no account, order, book or position is ever missing and the matching loop
    always finishes. *)
Theorem exchange_errors value log st c e :
  dict_ok (s_accounts value) → exchange value log = Ok st → reduce_command (Some st) c = Raise e → e = ValueError.
Proof.
  intros Hd Hx Hr. destruct (exchange_ok value log st Hd Hx) as (Hok & _).
  pose proof (command_ok st c Hok) as H. by rewrite Hr in H.
Qed.

Lemma exchange_errors_witness :
  ∃ st e, exchange demo_settings demo_log = Ok st ∧ reduce_command (Some st) demo_taker = Raise e ∧ e = ValueError.
Proof.
  destruct (exchange demo_settings demo_log) as [st|] eqn:E; [|vm_compute in E; discriminate].
  destruct (reduce_command (Some st) demo_taker) as [st'|e] eqn:E'.
  { vm_compute in E. injection E as <-. vm_compute in E'. discriminate. }
  exists st, e. split; [done|]. split; [done|].
  exact (exchange_errors demo_settings demo_log st demo_taker e demo_ok E E').
Defined.

(** The volume limit: on no day has an owner submitted more than the
    daily limit in a symbol, and the counter the code keeps is exactly that
    volume, cancelled and expired orders included. *)
Theorem daily_volume_bound value log st owner symbol day :
  dict_ok (s_accounts value) → exchange value log = Ok st →
  let volume := zsum o_quantity (filter (λ o, o_owner o = owner ∧ o_symbol o = symbol ∧ o_day o = day)
                                   (dvalues (orders st))) in
  dget_or 0 (owner, symbol, day) (daily st) = volume ∧ volume <= daily_limit value.
Proof.
  intros Hd Hx volume. destruct (exchange_ok value log st Hd Hx) as (Hok & Hset & _).
  destruct (so_daily _ Hok (owner, symbol, day)) as [H1 H2]. rewrite Hset in H2.
  enough (volume = zsum (submitted (owner, symbol, day)) (signature <$> dvalues (orders st))) as Hv by
    (rewrite Hv, <- H1; split; [done|exact H2]).
  unfold volume. clear. induction (dvalues (orders st)) as [|o l IH]; [done|].
  rewrite fmap_cons, filter_cons. cbn [zsum foldr]. fold (zsum (submitted (owner, symbol, day)) (signature <$> l)).
  rewrite <- IH. unfold submitted, signature, when. simpl. case_decide as Hk.
  - destruct Hk as (<- & <- & <-). by rewrite bool_decide_true.
  - rewrite bool_decide_false by naive_solver. done.
Qed.

Lemma daily_volume_bound_witness :
  ∃ st, exchange demo_settings demo_log = Ok st ∧ dget_or 0 ("abe", "ACME", day_of demo_time) (daily st) = 9.
Proof.
  destruct (exchange demo_settings demo_log) as [st|] eqn:E; [|vm_compute in E; discriminate].
  exists st. split; [done|].
  destruct (daily_volume_bound demo_settings demo_log st "abe" "ACME" (day_of demo_time) demo_ok E) as (-> & _).
  vm_compute in E. injection E as <-. reflexivity.
Defined.
