(* ===== verification/ExchangeAudit.v ===== *)
(** * The audit of the exchange

    Models src/stock-exchange-system/src/stock_exchange/audit.py, an independent
    check of a state: supplies, reservations, the links, priorities and heaps
    of the books, and the reconciliation of orders and accounts with the trades.
    Every reachable state of the exchange passes.

    Numbers are integers by typing, so the first check of the code holds.  A
    Python set is the list of its members. *)
From S2P Require Import Prelude PyList PyDict Checks OrderBook Exchange ExchangeInv ExchangeSteps ExchangeProps.
Local Open Scope Z_scope.

Record Report := mk_report {
  report_matches : bool;
  report_errors : list string;
  report_cash : Z;
  report_shares : dict string Z;
}.

(** [if bad: errors.append(message)] *)
Definition flag (bad : bool) (message : string) (errors : list string) : list string :=
  if bad then errors ++ [message] else errors.

(** ** Supplies *)

Definition symbol_supply (st : State) (symbol : string) : result Z :=
  let* l := mapR (λ a, let* b := dlookup symbol (positions a) in Ok (total b)) (dvalues (accounts st)) in
  Ok (zsum (λ n, n) l).

Definition expected_shares (set : Settings) (symbol : string) : Z :=
  zsum (λ v, dget_or 0 symbol (opening_positions v)) (dvalues (s_accounts set)).

Fixpoint check_supplies (st : State) (syms : list string) (pos : dict string Z) (errors : list string)
    : result (dict string Z * list string) :=
  match syms with
  | [] => Ok (pos, errors)
  | symbol :: syms' =>
      let* n := symbol_supply st symbol in
      check_supplies st syms' (dset symbol n pos)
        (flag (negb (n =? expected_shares (settings st) symbol)) ("share supply mismatch: " +:+ symbol) errors)
  end.

(** ** Reservations *)

Definition open_orders (st : State) (owner : string) : list Order :=
  filter (λ o, bool_decide (o_owner o = owner) && is_active o = true) (dvalues (orders st)).

Definition check_position (owner : string) (rows : list Order) (errors : list string) (p : string * Balance)
    : list string :=
  let '(symbol, b) := p in
  flag ((Z.min (available b) (held b) <? 0)
        || negb (held b =? zsum o_remaining
             (filter (λ o, bool_decide (o_side o = SELL) && bool_decide (o_symbol o = symbol) = true) rows)))
    ("share reservation mismatch: " +:+ owner) errors.

Definition check_account (st : State) (errors : list string) (p : string * Account) : list string :=
  let '(owner, a) := p in
  let rows := open_orders st owner in
  let errors := flag (negb (held (cash a) =? zsum (λ o, o_remaining o * o_price o)
                                              (filter (λ o, o_side o = BUY) rows)))
                  ("cash reservation mismatch: " +:+ owner) errors in
  let errors := foldl (check_position owner rows) errors (positions a) in
  flag (Z.min (available (cash a)) (held (cash a)) <? 0) ("negative cash: " +:+ owner) errors.

Definition executions_differ (st : State) : bool :=
  negb (execution_seq st =? Z.of_nat (length (trades st)))
  || negb (bool_decide (t_execution_seq <$> trades st = seqZ 1 (Z.of_nat (length (trades st))))).

(** ** The books *)

Definition set_eqb (l1 l2 : list string) : bool :=
  forallb (λ x, bool_decide (x ∈ l2)) l1 && forallb (λ x, bool_decide (x ∈ l1)) l2.

Definition active_orders (st : State) : dict string Order :=
  filter (λ p, is_active p.2 = true) (orders st : list (string * Order)).

(** [any(heap[(index - 1) // 2] > heap[index] ...)] *)
Definition heap_broken (hp : list Z) : bool :=
  existsb (λ i, nth i hp 0 <? nth ((i - 1) / 2) hp 0) (seq 1 (length hp - 1)).

(** The walk along the nodes of a level; [visited] and [indexed] collect them. *)
Fixpoint walk (fuel : nat) (symbol : string) (side : Side) (price : Z) (nds : dict string Node)
    (active : dict string Order) (cursor prev : option string) (quantity last : Z)
    (visited indexed : list string) : result (option string * Z * list string * list string) :=
  match cursor with
  | None => Ok (prev, quantity, visited, indexed)
  | Some id =>
      match fuel with
      | O => Raise OutOfFuel
      | S fuel' =>
          raise_if (bool_decide (id ∈ visited) || negb (dmem id active)) ValueError (
          let* node := dlookup id nds in
          let* order := dlookup id active in
          raise_if (negb (bool_decide (previous node = prev))
                    || negb (bool_decide (o_symbol order = symbol))
                    || negb (bool_decide (o_side order = side))
                    || negb (o_price order =? price)
                    || negb (node_price node =? price)
                    || negb (node_quantity node =? o_remaining order)
                    || (o_seq order <=? last)) ValueError (
          walk fuel' symbol side price nds active (next node) (Some id) (quantity + node_quantity node)
            (o_seq order) (id :: visited) (id :: indexed)))
      end
  end.

Fixpoint check_levels (symbol : string) (side : Side) (nds : dict string Node) (active : dict string Order)
    (lvls : dict Z Level) (visited indexed : list string) : result (list string * list string) :=
  match lvls with
  | [] => Ok (visited, indexed)
  | (price, level) :: lvls' =>
      let* w := walk (S (length active)) symbol side price nds active (head_id level) None 0 0 visited indexed in
      let '(prev, quantity, visited, indexed) := w in
      raise_if (negb (bool_decide (prev = tail_id level)) || negb (quantity =? level_quantity level)
                || (quantity <=? 0)) ValueError (
      check_levels symbol side nds active lvls' visited indexed)
  end.

Definition check_side (symbol : string) (side : Side) (active : dict string Order) (s : BookSide)
    (indexed : list string) : result (list string) :=
  raise_if (heap_broken (heap s)
            || existsb (λ price, negb (bool_decide (price * sign side ∈ heap s))) (dkeys (levels s))) ValueError (
  let* vi := check_levels symbol side (nodes s) active (levels s) [] indexed in
  raise_if (negb (set_eqb vi.1 (dkeys (nodes s)))) ValueError (Ok vi.2)).

Fixpoint check_books (active : dict string Order) (idx : dict string Book) (indexed : list string)
    : result (list string) :=
  match idx with
  | [] => Ok indexed
  | (symbol, b) :: idx' =>
      let* indexed := check_side symbol BUY active (buy_side b) indexed in
      let* indexed := check_side symbol SELL active (sell_side b) indexed in
      check_books active idx' indexed
  end.

Definition check_index (st : State) : result unit :=
  let active := active_orders st in
  let* indexed := check_books active (book_index st) [] in
  raise_if (negb (set_eqb indexed (dkeys active))) ValueError (Ok tt).

(** ** Reconciliation *)

(** [d[k] += n] *)
Definition dadd {K} `{EqDecision K} (k : K) (n : Z) (d : dict K Z) : result (dict K Z) :=
  let* v := dlookup k d in Ok (dset k (v + n) d).
Definition dadd2 (k1 k2 : string) (n : Z) (d : dict string (dict string Z)) : result (dict string (dict string Z)) :=
  let* row := dlookup k1 d in let* row := dadd k2 n row in Ok (dset k1 row d).

Record Flows := mk_flows {
  filled_by : dict string Z;
  cash_flows : dict string Z;
  share_flows : dict string (dict string Z);
}.

Definition empty_flows (st : State) : Flows :=
  mk_flows (map (λ id, (id, 0)) (dkeys (orders st))) (map (λ o, (o, 0)) (dkeys (accounts st)))
    (map (λ o, (o, map (λ s, (s, 0)) (symbols (settings st)))) (dkeys (accounts st))).

Definition check_trade (st : State) (f : Flows) (t : Trade) : result Flows :=
  let* bid := dlookup (t_buy_order t) (orders st) in
  let* ask := dlookup (t_sell_order t) (orders st) in
  raise_if (bool_decide (t_buyer t = t_seller t)
            || negb (bool_decide (o_owner bid = t_buyer t)) || negb (bool_decide (o_owner ask = t_seller t))
            || negb (bool_decide (o_side bid = BUY)) || negb (bool_decide (o_side ask = SELL))
            || negb (bool_decide (o_symbol bid = t_symbol t)) || negb (bool_decide (o_symbol ask = t_symbol t))
            || negb ((o_price ask <=? t_price t) && (t_price t <=? o_price bid))) ValueError (
  let amount := t_quantity t * t_price t in
  let* filled := dadd (t_buy_order t) (t_quantity t) (filled_by f) in
  let* filled := dadd (t_sell_order t) (t_quantity t) filled in
  let* cf := dadd (t_buyer t) (- amount) (cash_flows f) in
  let* cf := dadd (t_seller t) amount cf in
  let* sf := dadd2 (t_buyer t) (t_symbol t) (t_quantity t) (share_flows f) in
  let* sf := dadd2 (t_seller t) (t_symbol t) (- t_quantity t) sf in
  Ok (mk_flows filled cf sf)).

Fixpoint check_trades (st : State) (trs : list Trade) (f : Flows) : result Flows :=
  match trs with [] => Ok f | t :: trs' => let* f := check_trade st f t in check_trades st trs' f end.

Fixpoint check_share_flows (f : Flows) (owner : string) (opening : AccountSettings) (ps : dict string Balance)
    : result unit :=
  match ps with
  | [] => Ok tt
  | (symbol, b) :: ps' =>
      let* row := dlookup owner (share_flows f) in
      let* n := dlookup symbol row in
      raise_if (negb (total b =? dget_or 0 symbol (opening_positions opening) + n)) ValueError (
      check_share_flows f owner opening ps')
  end.

Fixpoint check_flows (set : Settings) (f : Flows) (accs : dict string Account) : result unit :=
  match accs with
  | [] => Ok tt
  | (owner, a) :: accs' =>
      let* opening := dlookup owner (s_accounts set) in
      let* n := dlookup owner (cash_flows f) in
      raise_if (negb (total (cash a) =? opening_cash opening + n)) ValueError (
      let* _ := check_share_flows f owner opening (positions a) in
      check_flows set f accs')
  end.

Fixpoint check_filled (f : Flows) (rows : dict string Order) : result unit :=
  match rows with
  | [] => Ok tt
  | (id, o) :: rows' =>
      let* n := dlookup id (filled_by f) in
      raise_if (negb (o_filled o =? n)) ValueError (check_filled f rows')
  end.

Definition reconcile_trades (st : State) : result unit :=
  let* f := check_trades st (trades st) (empty_flows st) in
  let* _ := check_flows (settings st) f (accounts st) in
  check_filled f (orders st).

Definition check_order (errors : list string) (o : Order) : list string :=
  flag (negb (o_filled o + o_remaining o =? o_quantity o) || (Z.min (o_filled o) (o_remaining o) <? 0))
    "order fill/remaining mismatch" errors.

Definition audit (st : State) : result Report :=
  let cash_total := cash_supply (accounts st) in
  let errors := flag (negb (cash_total =? zsum opening_cash (dvalues (s_accounts (settings st)))))
                  "cash supply mismatch" [] in
  let* pe := check_supplies st (symbols (settings st)) [] errors in
  let errors := foldl (check_account st) pe.2 (accounts st) in
  let errors := flag (executions_differ st) "outbound execution sequence mismatch" errors in
  let errors := flag (negb (is_ok (check_index st))) "order-book index mismatch" errors in
  let errors := flag (negb (is_ok (reconcile_trades st))) "execution/account reconciliation mismatch" errors in
  let errors := foldl check_order errors (dvalues (orders st)) in
  Ok (mk_report (bool_decide (errors = [])) errors cash_total pe.1).

Example audit_demo :
  (let* st := exchange demo_settings demo_log in audit st) = Ok (mk_report true [] 15000 [("ACME", 10)]).
Proof. vm_compute. reflexivity. Qed.

(** ** Sums of the checks *)

Lemma flag_false bad message errors : bad = false → flag bad message errors = errors.
Proof. by intros ->. Qed.

Lemma foldl_same {A B} (f : A → B → A) l a : (∀ b, b ∈ l → f a b = a) → foldl f a l = a.
Proof.
  induction l as [|b l IH]; intros Hf; simpl; [done|]. rewrite Hf by left. apply IH.
  intros x Hx. apply Hf. by right.
Qed.

Section accounts.
Context (st : State) (Hok : state_ok st).
Let Hinv := so_inv st Hok.

Lemma supply_found a symbol :
  a ∈ dvalues (accounts st) → symbol ∈ symbols (settings st) →
  (let* b := dlookup symbol (positions a) in Ok (total b)) =
    Ok (match dget symbol (positions a) with Some b => total b | None => 0 end).
Proof.
  intros Ha Hs. pose proof (mo_accounts _ _ _ _ (i_money _ _ Hinv)) as [Hd Hk].
  apply elem_dvalues in Ha as [o Ha]; [|done]. rewrite <- (Hk o a Ha) in Hs.
  destruct (dget_key symbol (positions a) Hs) as [b Hb]. unfold dlookup. by rewrite Hb.
Qed.

Lemma check_supplies_pass syms pos errors :
  NoDup syms → (∀ s, s ∈ syms → s ∈ symbols (settings st) ∧ s ∉ dkeys pos) →
  check_supplies st syms pos errors = Ok (pos ++ map (λ s, (s, expected_shares (settings st) s)) syms, errors).
Proof.
  revert pos. induction syms as [|s syms IH]; intros pos Hnd Hs; simpl; [by rewrite app_nil_r|].
  apply NoDup_cons in Hnd as [Hn Hnd]. destruct (Hs s ltac:(left)) as [Hin Hnew].
  unfold symbol_supply. rewrite (mapR_total _ (λ a, match dget s (positions a) with Some b => total b | None => 0 end))
    by (intros a Ha; by apply supply_found).
  cbn [rbind]. change (map ?f ?l) with (f <$> l) at 1. rewrite zsum_fmap. fold (share_supply (accounts st) s).
  rewrite (proj2 (supplies st Hok) s Hin). fold (expected_shares (settings st) s).
  rewrite Z.eqb_refl. simpl. rewrite dset_new, IH by first [done|intros x Hx; unfold dkeys; rewrite fmap_app; set_solver].
  by rewrite <- app_assoc.
Qed.

Lemma check_account_pass errors p : p ∈ accounts st → check_account st errors p = errors.
Proof.
  destruct p as [owner a]. intros Hin. pose proof (i_money _ _ Hinv) as M.
  pose proof (mo_accounts _ _ _ _ M) as [Hd Hk]. apply dget_Some in Hin; [|done].
  assert (∀ o, o ∈ dvalues (orders st) → 0 <= o_remaining o ∧ 0 <= o_price o) as Hpos.
  { intros o Ho. apply elem_dvalues in Ho as [k Ho]; [|apply (inv_keyed _ _ Hinv)].
    pose proof (inv_order _ _ _ _ Hinv Ho) as []. lia. }
  pose proof (mo_cash _ _ _ _ M owner) as Hc. pose proof (mo_free_cash _ _ _ _ M owner) as Hf.
  unfold cash_of in Hc, Hf. rewrite Hin in Hc, Hf. unfold check_account, open_orders.
  rewrite (flag_false (negb _)).
  2:{ apply negb_false_iff, Z.eqb_eq. rewrite Hc, list_filter_filter, zsum_filter. apply zsum_ext. intros o _.
      unfold reserved_cash. destruct (is_active o); repeat case_bool_decide; case_decide; simpl in *; naive_solver. }
  rewrite foldl_same.
  - apply flag_false, Z.ltb_ge. apply Z.min_glb; [done|]. rewrite Hc. apply zsum_nonneg. intros x Hx.
    specialize (Hpos x Hx). unfold reserved_cash. case_match; nia.
  - intros [symbol b] Hb. apply flag_false. apply orb_false_iff.
    assert (dget symbol (positions a) = Some b) as Hg.
    { apply dget_Some; [|done]. unfold dict_ok. rewrite (Hk owner a Hin). apply (so_settings _ Hok). }
    pose proof (mo_shares _ _ _ _ M owner symbol) as Hs. pose proof (mo_free_shares _ _ _ _ M owner symbol) as Hfs.
    unfold pos_of in Hs, Hfs. rewrite Hin, Hg in Hs, Hfs. split.
    + apply Z.ltb_ge, Z.min_glb; [done|]. rewrite Hs. apply zsum_nonneg. intros x Hx.
      specialize (Hpos x Hx). unfold reserved_shares. case_match; lia.
    + apply negb_false_iff, Z.eqb_eq. rewrite Hs, list_filter_filter, zsum_filter. apply zsum_ext. intros o _.
      unfold reserved_shares. destruct (is_active o); repeat case_bool_decide; case_decide; simpl in *; naive_solver.
Qed.

Lemma executions_agree : executions_differ st = false.
Proof.
  destruct (i_rows _ _ Hinv) as [_ _ _ He Hn]. unfold executions_differ.
  rewrite <- Hn, He, Z.eqb_refl, bool_decide_true; done.
Qed.

Lemma check_order_pass errors o : o ∈ dvalues (orders st) → check_order errors o = errors.
Proof.
  intros Ho. apply elem_dvalues in Ho as [k Ho]; [|apply (inv_keyed _ _ Hinv)].
  pose proof (inv_order _ _ _ _ Hinv Ho) as []. apply flag_false. lia.
Qed.
End accounts.

(** ** Reconciliation *)

Lemma dadd_spec {K} `{EqDecision K} (k : K) n v d :
  dget k d = Some v →
  ∃ d', dadd k n d = Ok d' ∧ ∀ x, dget x d' = (λ w, w + when (bool_decide (k = x)) n) <$> dget x d.
Proof.
  intros Hk. unfold dadd, dlookup. rewrite Hk. eexists. split; [done|]. intros x. rewrite dget_dset.
  case_decide as Hx; [subst; rewrite Hk, bool_decide_true by done; done|].
  rewrite bool_decide_false by done. simpl. destruct (dget x d); [|done]. simpl. by rewrite Z.add_0_r.
Qed.

Lemma dadd2_spec k1 k2 n v d :
  dget k1 d ≫= dget k2 = Some v →
  ∃ d', dadd2 k1 k2 n d = Ok d' ∧
    ∀ x y, dget x d' ≫= dget y = (λ w, w + when (bool_decide (k1 = x ∧ k2 = y)) n) <$> (dget x d ≫= dget y).
Proof.
  intros Hk. unfold dadd2, dlookup. destruct (dget k1 d) as [row|] eqn:Hrow; [|done]. simpl in Hk.
  destruct (dadd_spec k2 n v row Hk) as (row' & Hadd & Hg). cbn [rbind]. rewrite Hadd. eexists. split; [done|].
  intros x y. rewrite dget_dset. destruct (decide (k1 = x)) as [<-|Hx].
  - rewrite Hrow. simpl. rewrite Hg. destruct (dget y row); [|done]. simpl. do 2 f_equal.
    unfold when. repeat case_bool_decide; naive_solver.
  - destruct (dget x d ≫= dget y); [|done]. simpl. rewrite bool_decide_false by tauto. simpl. by rewrite Z.add_0_r.
Qed.

Section flows.
Context (st : State) (Hok : state_ok st).
Let Hinv := so_inv st Hok.

(** The sums after some of the trades. *)
Record flows_ok (f : Flows) (trs : list Trade) : Prop := {
  fl_filled : ∀ id, dget id (filled_by f) =
    if decide (id ∈ dkeys (orders st)) then Some (zsum (executed id) trs) else None;
  fl_cash : ∀ o, dget o (cash_flows f) =
    if decide (o ∈ dkeys (accounts st)) then Some (zsum (cash_flow o) trs) else None;
  fl_shares : ∀ o s, dget o (share_flows f) ≫= dget s =
    if decide (o ∈ dkeys (accounts st) ∧ s ∈ symbols (settings st)) then Some (zsum (share_flow o s) trs) else None;
}.

Lemma empty_flows_ok : flows_ok (empty_flows st) [].
Proof.
  split; simpl.
  - intros id. apply (dget_tabulate (λ _, 0)).
  - intros o. apply (dget_tabulate (λ _, 0)).
  - intros o s. rewrite (dget_tabulate (λ _, map (λ s, (s, 0)) (symbols (settings st)))).
    destruct (decide (o ∈ _)) as [Ho|Ho]; simpl; [|rewrite decide_False by tauto; done].
    rewrite (dget_tabulate (λ _, 0)). repeat case_decide; tauto.
Qed.

Lemma check_trade_ok f trs t :
  flows_ok f trs → t ∈ trades st → ∃ f', check_trade st f t = Ok f' ∧ flows_ok f' (trs ++ [t]).
Proof.
  intros [Ff Fc Fs] Ht. destruct (trade_parties st Hok t Ht) as (Hb & Hs & Hsym).
  destruct (ro_trades _ _ _ _ _ (i_rows _ _ Hinv) t Ht)
    as (bid & ask & Hbid & Hask & T1 & T2 & T3 & T4 & T5 & T6 & T7 & T8 & T9).
  pose proof (dget_in_key _ _ _ Hbid) as Kb. pose proof (dget_in_key _ _ _ Hask) as Ka.
  unfold check_trade, dlookup. rewrite Hbid. cbn [rbind]. rewrite Hask. cbn [rbind].
  rewrite T1, T2, T3, T4, T5, T6, (bool_decide_false (t_buyer t = _)) by done.
  rewrite !(bool_decide_true (_ = _)) by done. cbn [negb orb].
  replace ((o_price ask <=? t_price t) && (t_price t <=? o_price bid)) with true by lia. cbn [negb raise_if].
  destruct (dadd_spec (t_buy_order t) (t_quantity t) (zsum (executed (t_buy_order t)) trs) (filled_by f))
    as (f1 & -> & G1); [by rewrite Ff, decide_True|].
  destruct (dadd_spec (t_sell_order t) (t_quantity t) (zsum (executed (t_sell_order t)) trs
      + when (bool_decide (t_buy_order t = t_sell_order t)) (t_quantity t)) f1)
    as (f2 & E2 & G2); [by rewrite G1, Ff, decide_True|]. cbn [rbind]. rewrite E2.
  destruct (dadd_spec (t_buyer t) (- (t_quantity t * t_price t)) (zsum (cash_flow (t_buyer t)) trs) (cash_flows f))
    as (c1 & E3 & G3); [by rewrite Fc, decide_True|]. cbn [rbind]. rewrite E3.
  destruct (dadd_spec (t_seller t) (t_quantity t * t_price t) (zsum (cash_flow (t_seller t)) trs
      + when (bool_decide (t_buyer t = t_seller t)) (- (t_quantity t * t_price t))) c1)
    as (c2 & E4 & G4); [by rewrite G3, Fc, decide_True|]. cbn [rbind]. rewrite E4.
  destruct (dadd2_spec (t_buyer t) (t_symbol t) (t_quantity t) (zsum (share_flow (t_buyer t) (t_symbol t)) trs)
    (share_flows f)) as (s1 & E5 & G5); [by rewrite Fs, decide_True|]. cbn [rbind]. rewrite E5.
  destruct (dadd2_spec (t_seller t) (t_symbol t) (- t_quantity t) (zsum (share_flow (t_seller t) (t_symbol t)) trs
      + when (bool_decide (t_buyer t = t_seller t ∧ t_symbol t = t_symbol t)) (t_quantity t)) s1)
    as (s2 & E6 & G6); [by rewrite G5, Fs, decide_True|]. cbn [rbind]. rewrite E6.
  eexists. split; [done|]. split; simpl; intros.
  - rewrite G2, G1, Ff. case_decide; [|done]. simpl. f_equal. rewrite zsum_app. simpl. unfold executed. lia.
  - rewrite G4, G3, Fc. case_decide; [|done]. simpl. f_equal. rewrite zsum_app. simpl. unfold cash_flow, when.
    repeat case_bool_decide; lia.
  - rewrite G6, G5, Fs. case_decide; [|done]. simpl. f_equal. rewrite zsum_app. simpl. unfold share_flow, when.
    repeat case_bool_decide; lia.
Qed.

Lemma check_trades_ok trs2 f trs1 :
  flows_ok f trs1 → (∀ t, t ∈ trs2 → t ∈ trades st) →
  ∃ f', check_trades st trs2 f = Ok f' ∧ flows_ok f' (trs1 ++ trs2).
Proof.
  revert f trs1. induction trs2 as [|t trs2 IH]; intros f trs1 Hf Hin; simpl.
  { exists f. by rewrite app_nil_r. }
  destruct (check_trade_ok f trs1 t Hf (Hin t ltac:(left))) as (f1 & -> & Hf1). cbn [rbind].
  destruct (IH f1 (trs1 ++ [t]) Hf1) as (f2 & -> & Hf2); [intros x Hx; apply Hin; by right|].
  exists f2. by rewrite <- app_assoc in Hf2.
Qed.

Lemma check_share_flows_ok f owner a opening ps :
  flows_ok f (trades st) → dget owner (accounts st) = Some a → dget owner (s_accounts (settings st)) = Some opening →
  (∀ s b, (s, b) ∈ ps → dget s (positions a) = Some b) → check_share_flows f owner opening ps = Ok tt.
Proof.
  intros [_ _ Fs] Ha Hopen. pose proof (i_money _ _ Hinv) as M.
  induction ps as [|[s b] ps IH]; intros Hps; simpl; [done|]. pose proof (Hps s b ltac:(left)) as Hb.
  pose proof (dget_in_key _ _ _ Ha) as Ho.
  assert (s ∈ symbols (settings st)) as Hs.
  { rewrite <- (proj2 (mo_accounts _ _ _ _ M) owner a Ha). by eapply dget_in_key. }
  specialize (Fs owner s). rewrite decide_True in Fs by done. unfold dlookup at 1.
  destruct (dget owner (share_flows f)) as [row|]; [|done]. simpl in Fs. cbn [rbind].
  unfold dlookup. rewrite Fs. cbn [rbind].
  pose proof (mo_share_flow _ _ _ _ M owner s) as Hfl. unfold pos_of, opening_shares_of in Hfl.
  rewrite Ha, Hb, Hopen, bool_decide_true in Hfl by done. unfold total. rewrite Hfl, Z.eqb_refl. simpl.
  apply IH. intros s' b' Hin. apply Hps. by right.
Qed.

Lemma check_flows_ok f accs :
  flows_ok f (trades st) → (∀ o a, (o, a) ∈ accs → dget o (accounts st) = Some a) →
  check_flows (settings st) f accs = Ok tt.
Proof.
  intros Hf. pose proof (i_money _ _ Hinv) as M.
  induction accs as [|[o a] accs IH]; intros Hin; simpl; [done|]. pose proof (Hin o a ltac:(left)) as Ha.
  pose proof (dget_in_key _ _ _ Ha) as Ho. pose proof Ho as Ho'. rewrite (mo_owners _ _ _ _ M) in Ho'.
  destruct (dget_key _ _ Ho') as [opening Hopen]. unfold dlookup at 1. rewrite Hopen. cbn [rbind].
  unfold dlookup. rewrite (fl_cash _ _ Hf o), decide_True by done. cbn [rbind].
  pose proof (mo_cash_flow _ _ _ _ M o) as Hfl. unfold cash_of, opening_cash_of in Hfl. rewrite Ha, Hopen in Hfl.
  unfold total. rewrite Hfl, Z.eqb_refl. simpl. rewrite (check_share_flows_ok f o a opening); try done.
  - apply IH. intros o' a' Hx. apply Hin. by right.
  - intros s b Hx. apply dget_Some; [|done]. unfold dict_ok.
    rewrite (proj2 (mo_accounts _ _ _ _ M) o a Ha). apply (so_settings _ Hok).
Qed.

Lemma check_filled_ok f rows :
  flows_ok f (trades st) → (∀ id o, (id, o) ∈ rows → dget id (orders st) = Some o) → check_filled f rows = Ok tt.
Proof.
  intros Hf. induction rows as [|[id o] rows IH]; intros Hin; simpl; [done|].
  pose proof (Hin id o ltac:(left)) as Ho. unfold dlookup.
  rewrite (fl_filled _ _ Hf id), decide_True by (by eapply dget_in_key). cbn [rbind].
  rewrite (oo_executed _ _ _ _ _ (inv_order _ _ _ _ Hinv Ho)), Z.eqb_refl. simpl.
  apply IH. intros id' o' Hx. apply Hin. by right.
Qed.

Lemma reconcile_trades_ok : reconcile_trades st = Ok tt.
Proof.
  unfold reconcile_trades. destruct (check_trades_ok (trades st) (empty_flows st) [] empty_flows_ok) as (f & -> & Hf); [done|].
  cbn [rbind]. simpl in Hf. rewrite check_flows_ok; [|done|].
  - simpl. apply check_filled_ok; [done|]. intros id o Ho. apply dget_Some; [apply (inv_keyed _ _ Hinv)|done].
  - intros o a Ha. apply dget_Some; [|done]. apply (mo_accounts _ _ _ _ (i_money _ _ Hinv)).
Qed.
End flows.

(** ** The books *)

Lemma dget_filter_dict {K V} `{EqDecision K} (P : V → Prop) `{∀ v, Decision (P v)} k (d : list (K * V)) :
  dict_ok d →
  dget k (filter (λ p, P p.2) d) = match dget k d with Some v => if decide (P v) then Some v else None | None => None end.
Proof.
  induction d as [|[k0 v0] d IH]; intros Hok; [done|]. unfold dict_ok, dkeys in Hok. rewrite fmap_cons in Hok.
  apply NoDup_cons in Hok as [Hn Hok]. rewrite filter_cons. simpl.
  destruct (decide (k = k0)) as [->|Hk].
  - destruct (decide (P v0)); simpl; [by rewrite decide_True|]. rewrite IH by done.
    change (k0 ∉ dkeys d) in Hn. apply dget_None in Hn. by rewrite Hn.
  - specialize (IH Hok). destruct (decide (P v0)); simpl; [rewrite decide_False by done|]; exact IH.
Qed.

Lemma heap_ordered hp : ordered (λ x, x) hp → heap_broken hp = false.
Proof.
  intros Ho. apply existsb_false. intros i [Hi Hlt]%list_elem_of_In%in_seq. apply Z.ltb_ge.
  assert ((i - 1) / 2 ≤ i)%nat as Hle by (apply Nat.Div0.div_le_upper_bound; lia).
  destruct (nth_lookup_or_length hp i 0) as [Hx|]; [|lia].
  destruct (nth_lookup_or_length hp ((i - 1) / 2) 0) as [Hy|]; [|lia].
  pose proof (ordered_lookup _ _ _ _ _ _ Ho Hle Hy Hx) as Hp. rewrite pyleZ in Hp. by apply Z.leb_le.
Qed.

Lemma set_eqb_true l1 l2 : (∀ x, x ∈ l1 ↔ x ∈ l2) → set_eqb l1 l2 = true.
Proof.
  intros Heq. unfold set_eqb. rewrite andb_true_iff, !forallb_elem.
  split; intros x Hx; apply bool_decide_eq_true; by apply Heq.
Qed.

Section index.
Context (st : State) (Hok : state_ok st).
Let Hinv := so_inv st Hok.
Let active := active_orders st.

Lemma active_get id o : dget id active = Some o ↔ dget id (orders st) = Some o ∧ is_active o = true.
Proof.
  assert (dget id active = match dget id (orders st) with
    | Some v => if decide (is_active v = true) then Some v else None | None => None end) as ->
    by exact (dget_filter_dict (λ o, is_active o = true) id (orders st) (proj1 (inv_keyed _ _ Hinv))).
  destruct (dget id (orders st)) as [o'|]; [|naive_solver]. case_decide; naive_solver.
Qed.

Definition seq_of (id : string) : Z := match dget id (orders st) with Some o => o_seq o | None => 0 end.

Section level.
Context (symbol : string) (side : Side) (nds : dict string Node) (p : Z).

(** The entries of a level as the walk meets them. *)
Definition shown (e : entry) : Prop :=
  ∃ o, dget (e_id e) active = Some o ∧ o_symbol o = symbol ∧ o_side o = side ∧ o_price o = p ∧
    o_remaining o = e_quantity e.

Lemma walk_spec q fuel prev n last visited indexed :
  (length q ≤ fuel)%nat → chain nds p prev q None → Forall shown q → NoDup (e_id <$> q) →
  (∀ e, e ∈ q → e_id e ∉ visited) → StronglySorted Z.lt (seq_of <$> (e_id <$> q)) →
  Forall (λ id, last < seq_of id) (e_id <$> q) →
  walk fuel symbol side p nds active (first_id q None) prev n last visited indexed =
    Ok (last_id q prev, n + zsum e_quantity q, rev (e_id <$> q) ++ visited, rev (e_id <$> q) ++ indexed).
Proof.
  revert fuel prev n last visited indexed.
  induction q as [|e q IH]; intros fuel prev n last visited indexed Hfuel Hc Hsh Hnd Hnv Hs Hl; simpl.
  { rewrite Z.add_0_r. by destruct fuel. }
  destruct fuel as [|fuel]; [simpl in Hfuel; lia|]. simpl in Hfuel, Hc. destruct Hc as [Hn Hc].
  apply Forall_cons in Hsh as [(o & Ho & O1 & O2 & O3 & O4) Hsh]. rewrite fmap_cons in Hnd, Hl, Hs. simpl in Hs.
  apply NoDup_cons in Hnd as [Hen Hnd]. apply Forall_cons in Hl as [Hle Hl].
  apply StronglySorted_inv in Hs as [Hs Hse]. simpl.
  rewrite bool_decide_false by (apply Hnv; left). unfold dmem, dlookup. rewrite Ho, Hn. simpl.
  rewrite O1, O2, O3, O4, !bool_decide_true, !Z.eqb_refl by done.
  assert (o_seq o = seq_of (e_id e)) as ->.
  { unfold seq_of. by rewrite (proj1 (proj1 (active_get _ _) Ho)). }
  rewrite (proj2 (Z.leb_gt _ _)) by done. simpl. rewrite IH; [|lia|done|done|done| |done|].
  - rewrite <- !app_assoc. simpl. by rewrite Z.add_assoc.
  - intros x Hx. apply not_elem_of_cons. split; [|apply Hnv; by right].
    intros Heq. apply Hen. rewrite <- Heq. by apply list_elem_of_fmap_2.
  - apply Forall_forall. intros x Hx. pose proof (proj1 (Forall_forall _ _) Hse (seq_of x)) as Hlt. apply Hlt.
    by apply (list_elem_of_fmap_2 seq_of).
Qed.
End level.

Lemma level_entries symbol side p :
  Forall (shown symbol side p) (at_price p (queue (orders st) None symbol side)).
Proof.
  apply Forall_forall. intros e [<- He]%at_price_elem.
  apply queue_elem in He as (o & Ho & Hon & ->); [|apply (inv_keyed _ _ Hinv)].
  apply on_side_spec in Hon as (Ha & H1 & H2 & _). exists o. split; [|done]. by apply active_get.
Qed.

Lemma level_ids symbol side p : NoDup (e_id <$> at_price p (queue (orders st) None symbol side)).
Proof. apply at_price_NoDup, queue_ids, (inv_keyed _ _ Hinv). Qed.

Lemma level_length symbol side p :
  (length (at_price p (queue (orders st) None symbol side)) ≤ length active)%nat.
Proof.
  rewrite <- (length_fmap e_id), <- (length_fmap fst active). apply submseteq_length, NoDup_submseteq; [apply level_ids|].
  intros x (e & -> & He)%list_elem_of_fmap. pose proof (level_entries symbol side p) as Hsh.
  destruct (proj1 (Forall_forall _ _) Hsh e He) as (o & Ho & _). by apply dget_in_key in Ho.
Qed.

Lemma sorted_sublist (l1 l2 : list Z) : sublist l1 l2 → StronglySorted Z.lt l2 → StronglySorted Z.lt l1.
Proof.
  induction 1 as [|x l1 l2 Hsub IH|x l1 l2 Hsub IH]; intros Hs; [done|..];
    apply StronglySorted_inv in Hs as [Hs Hx]; [|by apply IH].
  constructor; [by apply IH|]. apply Forall_forall. intros y Hy. apply (proj1 (Forall_forall _ _) Hx).
  by apply (sublist_elem_of _ _ Hsub) || by eapply elem_of_submseteq, sublist_submseteq.
Qed.

Lemma level_seqs symbol side p :
  let ids := e_id <$> at_price p (queue (orders st) None symbol side) in
  StronglySorted Z.lt (seq_of <$> ids) ∧ Forall (λ id, 0 < seq_of id) ids.
Proof.
  rewrite queue_at_price. set (F := filter (λ o, o_price o = p) (selected (on_side None symbol side) (orders st))).
  assert (sublist F (dvalues (orders st))) as Hsub.
  { etransitivity; [apply sublist_filter|apply sublist_filter]. }
  assert (∀ o, o ∈ F → seq_of (o_id o) = o_seq o ∧ 0 < o_seq o) as Hseq.
  { intros o [_ [_ Ho]%list_elem_of_filter]%list_elem_of_filter. pose proof Ho as Ho'.
    apply elem_dvalues in Ho as [k Ho]; [|apply (inv_keyed _ _ Hinv)].
    pose proof (proj2 (inv_keyed _ _ Hinv) k o Ho) as ->. unfold seq_of. rewrite Ho. split; [done|].
    pose proof (so_bound _ Hok) as Hb. rewrite Forall_fmap in Hb.
    by apply (proj1 (Forall_forall _ _) Hb) in Ho'; simpl in Ho'; lia. }
  intros ids. unfold ids. clear ids. split.
  - apply (sorted_sublist _ (o_seq <$> dvalues (orders st))).
    + rewrite <- !list_fmap_compose. replace ((seq_of ∘ (e_id ∘ entry_of)) <$> F) with (o_seq <$> F);
        [by apply fmap_sublist|]. apply list_fmap_ext. intros i o Hi. symmetry. apply Hseq. by eapply list_elem_of_lookup_2.
    + pose proof (so_seqs _ Hok) as Hs. by rewrite <- list_fmap_compose in Hs.
  - rewrite !Forall_fmap. apply Forall_forall. intros o Ho. simpl. destruct (Hseq o Ho) as [-> ?]. done.
Qed.

(** The identifiers queued on a side at some prices. *)
Definition queued_at (symbol : string) (side : Side) (prices : list Z) (id : string) : Prop :=
  ∃ e, e ∈ queue (orders st) None symbol side ∧ e_price e ∈ prices ∧ e_id e = id.

Section side.
Context (symbol : string) (side : Side) (s : BookSide) (Hrep : side_rep side s (queue (orders st) None symbol side)).

Lemma check_levels_ok lvls visited indexed :
  NoDup (dkeys lvls) → (∀ p l, (p, l) ∈ lvls → dget p (levels s) = Some l) →
  (∀ id, queued_at symbol side (dkeys lvls) id → id ∉ visited) →
  ∃ vis' ind', check_levels symbol side (nodes s) active lvls visited indexed = Ok (vis', ind') ∧
    (∀ id, id ∈ vis' ↔ id ∈ visited ∨ queued_at symbol side (dkeys lvls) id) ∧
    (∀ id, id ∈ ind' ↔ id ∈ indexed ∨ queued_at symbol side (dkeys lvls) id).
Proof.
  revert visited indexed. induction lvls as [|[p l] lvls IH]; intros visited indexed Hnd Hl Hv; cbn [check_levels].
  { exists visited, indexed. split; [done|]. unfold queued_at. set_solver. }
  apply NoDup_cons in Hnd as [Hp Hnd]. set (q := at_price p (queue (orders st) None symbol side)).
  pose proof (Hl p l ltac:(left)) as Hlv. rewrite (sr_levels _ _ _ Hrep) in Hlv. fold q in Hlv.
  assert (q ≠ []) as Hq by (by intros Heq; rewrite Heq in Hlv). rewrite level_of_nonempty in Hlv by done.
  injection Hlv as <-. cbn [head_id tail_id level_quantity].
  assert (∀ e, e ∈ q → queued_at symbol side (dkeys ((p, mk_level (first_id q None) (last_id q None) (zsum e_quantity q)) :: lvls)) (e_id e)) as Hqv.
  { intros e [<- He]%at_price_elem. exists e. split; [done|]. split; [left|done]. }
  rewrite (walk_spec symbol side (nodes s) p q); cycle 1.
  { pose proof (level_length symbol side p). unfold q. lia. } { apply (sr_chain _ _ _ Hrep). }
  { apply level_entries. } { apply level_ids. } { intros e He. by apply Hv, Hqv. }
  { apply (level_seqs symbol side p). } { apply (level_seqs symbol side p). }
  cbn [rbind]. rewrite Z.add_0_l, Z.eqb_refl, bool_decide_true by done.
  assert (0 < zsum e_quantity q) as Hpos.
  { destruct (open_positive st symbol side p Hinv) as [Hnn Hz]. unfold q. rewrite queue_at_price, zsum_fmap.
    change (0 < open_quantity (orders st) symbol side p). fold q in Hz. destruct (decide (open_quantity (orders st) symbol side p = 0)); [tauto|lia]. }
  rewrite (proj2 (Z.leb_gt _ _)) by done. simpl.
  assert (∀ id, queued_at symbol side (dkeys ((p, mk_level (first_id q None) (last_id q None) (zsum e_quantity q)) :: lvls)) id
    ↔ id ∈ e_id <$> q ∨ queued_at symbol side (dkeys lvls) id) as Hsplit.
  { intros id. unfold queued_at, dkeys. rewrite fmap_cons. simpl. rewrite list_elem_of_fmap. unfold q. setoid_rewrite at_price_elem.
    setoid_rewrite elem_of_cons. naive_solver. }
  assert (∀ id l', id ∈ rev (e_id <$> q) ++ l' ↔ id ∈ e_id <$> q ∨ id ∈ l') as Hrev.
  { intros id l'. rewrite elem_of_app, !list_elem_of_In, <- in_rev. done. }
  destruct (IH (rev (e_id <$> q) ++ visited) (rev (e_id <$> q) ++ indexed)) as (vis' & ind' & -> & Hvis & Hind).
  { done. } { intros p' l' Hin. apply Hl. by right. }
  { intros id Hid. rewrite Hrev. intros [Hin|Hin]; [|by apply (Hv id); [apply Hsplit; right|]].
    apply list_elem_of_fmap in Hin as (e & -> & [He1 He2]%at_price_elem).
    destruct Hid as (e' & He' & Hk & Heq). apply Hp.
    rewrite <- He1, (same_id (queue (orders st) None symbol side) e e'); [done| |done|done|done].
    apply queue_ids, (inv_keyed _ _ Hinv). }
  exists vis', ind'. split; [done|]. split; intros id.
  - rewrite Hvis, Hrev, Hsplit. tauto.
  - rewrite Hind, Hrev, Hsplit. tauto.
Qed.

(** All that is queued on a side. *)
Definition queued (symbol : string) (side : Side) (id : string) : Prop :=
  id ∈ e_id <$> queue (orders st) None symbol side.

Lemma queued_levels id : queued_at symbol side (dkeys (levels s)) id ↔ queued symbol side id.
Proof.
  unfold queued_at, queued. rewrite list_elem_of_fmap. split; [intros (e & He & _ & <-); by exists e|].
  intros (e & -> & He). exists e. split; [done|]. split; [|done].
  apply dmem_spec, dmem_true. rewrite (sr_levels _ _ _ Hrep).
  destruct (at_price (e_price e) (queue (orders st) None symbol side)) eqn:Hq; [|by eexists].
  assert (e ∈ at_price (e_price e) (queue (orders st) None symbol side)) as Hin by (by apply at_price_elem).
  rewrite Hq in Hin. by apply not_elem_of_nil in Hin.
Qed.

Lemma check_side_ok indexed :
  ∃ ind', check_side symbol side active s indexed = Ok ind' ∧
    ∀ id, id ∈ ind' ↔ id ∈ indexed ∨ queued symbol side id.
Proof.
  unfold check_side. rewrite heap_ordered by apply (sr_heap _ _ _ Hrep).
  assert (existsb (λ price, negb (bool_decide (price * sign side ∈ heap s))) (dkeys (levels s)) = false) as ->.
  { apply existsb_false. intros p Hp. apply negb_false_iff, bool_decide_eq_true.
    destruct (dget_key _ _ Hp) as [l Hl]. rewrite (sr_levels _ _ _ Hrep) in Hl.
    destruct (at_price p (queue (orders st) None symbol side)) as [|e q] eqn:Hq; [done|].
    assert (e ∈ at_price p (queue (orders st) None symbol side)) as [<- He]%at_price_elem by (rewrite Hq; left).
    by apply (sr_prices _ _ _ Hrep). }
  destruct (check_levels_ok (levels s) [] indexed) as (vis' & ind' & -> & Hvis & Hind).
  { apply (sr_levels_ok _ _ _ Hrep). } { intros p l Hin. apply dget_Some; [apply (sr_levels_ok _ _ _ Hrep)|done]. }
  { intros id _ Hin. by apply not_elem_of_nil in Hin. }
  simpl. rewrite set_eqb_true.
  - exists ind'. split; [done|]. intros id. by rewrite Hind, queued_levels.
  - intros id. rewrite Hvis, queued_levels. rewrite <- dmem_spec, dmem_true, (rep_member _ _ _ Hrep).
    unfold queued. split; [intros [Hx|Hx]; [by apply not_elem_of_nil in Hx|done]|by right].
Qed.
End side.

Lemma check_books_ok idx indexed :
  (∀ symbol b, (symbol, b) ∈ idx → dget symbol (book_index st) = Some b) →
  ∃ ind', check_books active idx indexed = Ok ind' ∧
    ∀ id, id ∈ ind' ↔ id ∈ indexed ∨ ∃ symbol side, symbol ∈ dkeys idx ∧ queued symbol side id.
Proof.
  revert indexed. induction idx as [|[symbol b] idx IH]; intros indexed Hin; cbn [check_books].
  { exists indexed. split; [done|]. set_solver. }
  pose proof (Hin symbol b ltac:(left)) as Hb. pose proof (dget_in_key _ _ _ Hb) as Hs.
  rewrite (i_index _ _ Hinv) in Hs. destruct (i_books _ _ Hinv symbol Hs) as (b' & Hb' & Hreps).
  assert (b' = b) as -> by congruence.
  destruct (check_side_ok symbol BUY _ (Hreps BUY) indexed) as (i1 & E1 & H1).
  destruct (check_side_ok symbol SELL _ (Hreps SELL) i1) as (i2 & E2 & H2). simpl in E1, E2.
  rewrite E1. cbn [rbind]. rewrite E2. cbn [rbind].
  destruct (IH i2) as (i3 & -> & H3); [intros sy bk Hx; apply Hin; by right|].
  exists i3. split; [done|]. intros id. rewrite H3, H2, H1. unfold dkeys. rewrite fmap_cons. simpl.
  setoid_rewrite elem_of_cons. split.
  - intros [[[H|H]|H]|(sy & si & Hx & Hy)]; eauto 10.
  - intros [H|(sy & si & [->|Hx] & Hy)]; [by left; left; left| |right; eauto].
    destruct si; [by left; left; right|by left; right].
Qed.

Lemma check_index_ok : check_index st = Ok tt.
Proof.
  unfold check_index. destruct (check_books_ok (book_index st) []) as (ind & E & Hind).
  { intros symbol b Hb. apply dget_Some; [|done]. unfold dict_ok. rewrite (i_index _ _ Hinv). apply (so_settings _ Hok). }
  fold active. rewrite E. cbn [rbind]. rewrite set_eqb_true; [done|]. intros id. rewrite Hind. split.
  - intros [Hx|(symbol & side & _ & (e & -> & He)%list_elem_of_fmap)]; [by apply not_elem_of_nil in Hx|].
    apply queue_elem in He as (o & Ho & Hon & ->); [|apply (inv_keyed _ _ Hinv)].
    apply on_side_spec in Hon as (Ha & _). eapply dget_in_key. by apply active_get.
  - intros (o & [Ho Ha]%active_get)%dget_key. right. pose proof (inv_order _ _ _ _ Hinv Ho) as Hoo.
    exists (o_symbol o), (o_side o). split; [rewrite (i_index _ _ Hinv); apply (oo_symbol _ _ _ _ _ Hoo)|].
    unfold queued. rewrite <- (oo_id _ _ _ _ _ Hoo). apply (list_elem_of_fmap_2 e_id _ (entry_of o)).
    apply queue_elem; [apply (inv_keyed _ _ Hinv)|]. exists o. simpl. rewrite (oo_id _ _ _ _ _ Hoo).
    split; [done|]. split; [|done]. by apply on_side_spec.
Qed.
End index.

(** C30: every state the exchange can reach passes its audit: no error is
    reported, and the supplies of the report are the opening ones. *)
Theorem audit_passes value log st :
  dict_ok (s_accounts value) → exchange value log = Ok st →
  audit st = Ok (mk_report true [] (zsum opening_cash (dvalues (s_accounts (settings st))))
                   (map (λ s, (s, expected_shares (settings st) s)) (symbols value))).
Proof.
  intros Hd Hx. destruct (exchange_ok value log st Hd Hx) as (Hok & Hset & _). unfold audit.
  destruct (supplies st Hok) as [-> _]. rewrite Z.eqb_refl. cbn [negb flag].
  rewrite (check_supplies_pass st Hok); [|apply (so_settings _ Hok)|intros s Hs; split; [done|apply not_elem_of_nil]].
  cbn [rbind fst snd app]. rewrite (foldl_same (check_account st)) by (intros p Hp; by apply check_account_pass).
  rewrite executions_agree, check_index_ok, reconcile_trades_ok by done. cbn [negb flag is_ok].
  rewrite (foldl_same check_order) by (intros o Ho; by apply (check_order_pass st Hok)).
  rewrite Hset. done.
Qed.

Lemma audit_passes_witness :
  ∃ st, exchange demo_settings demo_log = Ok st ∧
    audit st = Ok (mk_report true [] 15000 [("ACME", 10)]).
Proof.
  destruct (exchange demo_settings demo_log) as [st|] eqn:E; [|vm_compute in E; discriminate].
  exists st. split; [done|]. rewrite (audit_passes demo_settings demo_log st demo_ok E).
  vm_compute in E. injection E as <-. reflexivity.
Defined.
