(* ===== verification/Effects.v ===== *)
(** * Stateful computations that may raise

    A computation changes a state and returns or raises; what it changed before
    raising stays, as in Python.  [wp m Q E s] is its weakest precondition. *)
From S2P Require Import Prelude PyList PyDict Checks.

Definition M (S A : Type) : Type := S → S * result A.

Section monad.
Context {S : Type}.

Definition mret {A} (a : A) : M S A := λ s, (s, Ok a).
Definition mraise {A} (e : exn) : M S A := λ s, (s, Raise e).
Definition mbind {A B} (m : M S A) (f : A → M S B) : M S B :=
  λ s, match m s with (s', Ok a) => f a s' | (s', Raise e) => (s', Raise e) end.
Definition mlift {A} (r : result A) : M S A := λ s, (s, r).

Definition wp {A} (m : M S A) (Q : A → S → Prop) (E : exn → S → Prop) (s : S) : Prop :=
  match m s with (s', Ok a) => Q a s' | (s', Raise e) => E e s' end.

Lemma wp_bind {A B} (m : M S A) (f : A → M S B) Q E s :
  wp m (λ a, wp (f a) Q E) E s → wp (mbind m f) Q E s.
Proof. unfold wp, mbind. by destruct (m s) as [s' [a|e]]. Qed.

Lemma wp_mono {A} (m : M S A) (Q Q' : A → S → Prop) (E E' : exn → S → Prop) s :
  wp m Q E s → (∀ a s', Q a s' → Q' a s') → (∀ e s', E e s' → E' e s') → wp m Q' E' s.
Proof. unfold wp. destruct (m s) as [s' [a|e]]; auto. Qed.
End monad.

Notation "'do*' x ':=' m 'in' k" := (mbind m (λ x, k))
  (at level 200, x binder, m at level 100, k at level 200,
   format "'[v' 'do*'  x  ':='  m  'in' '/' k ']'").
