(* ===== verification/Wallet.v ===== *)
(** * A shard of the digital wallet

    Models src/digital-wallet-system/src/digital_wallet: the contracts of
    transfers and receipts (contracts.py), the reducer of account events
    (projection.py), the fence (common.py) and the shard that logs events and
    keeps their projection (shard.py).  A shard's database is its log of events,
    its projection and its fence; a transaction that raises changes nothing.
    The hash chain of the log and the snapshot files detect damage to the disk
    and are not modelled.  [digest] is SHA-256 of an account name, as a number. *)
From S2P Require Import Prelude PyList PyDict Checks.
Local Open Scope Z_scope.

(** ** Contracts *)

Record Intent := mk_intent {
  transaction_id : string;
  from_account : string;
  to_account : string;
  amount : Z;
  currency : string;
}.
#[export] Instance intent_eq_dec : EqDecision Intent.
Proof. solve_decision. Defined.

Definition intent (b : Intent) : result Intent :=
  raise_if (negb (identifier (transaction_id b))) ValueError (
  raise_if (negb (identifier (from_account b))) ValueError (
  raise_if (negb (identifier (to_account b))) ValueError (
  raise_if (negb (integer (amount b) 1 100000000)) ValueError (
  raise_if (negb (bool_decide (currency b = "USD")) || bool_decide (from_account b = to_account b)) ValueError
    (Ok b))))).

Inductive Role := SOURCE | DESTINATION | LOCAL.
Inductive Kind := Local | Prepare | Confirm | Cancel.
Inductive PartStatus := PREPARED | REJECTED | CANCELED | CONFIRMED.
#[export] Instance role_eq_dec : EqDecision Role.
Proof. solve_decision. Defined.
#[export] Instance kind_eq_dec : EqDecision Kind.
Proof. solve_decision. Defined.
#[export] Instance part_status_eq_dec : EqDecision PartStatus.
Proof. solve_decision. Defined.

Record Part := mk_part { p_intent : Intent; p_role : Role; p_status : PartStatus }.

(** The receipt of a participant, as its caller checks it. *)
Definition participant (value : option Part) (body : Intent) (role : Role) : result (option Part) :=
  match value with
  | None => Ok None
  | Some p =>
      let* received := intent (p_intent p) in
      raise_if (negb (bool_decide (received = body)) || negb (bool_decide (p_role p = role))) ValueError (
      raise_if (bool_decide (role = LOCAL)
                && negb (bool_decide (p_status p = CONFIRMED) || bool_decide (p_status p = REJECTED))) ValueError
        (Ok value))
  end.

(** ** Projection *)

Record Balance := mk_balance { available : Z; held : Z }.
Record State := mk_state { accounts : dict string Balance; parts : dict string Part }.

Inductive Event :=
| Genesis (opening : dict string Z)
| Act (kind : Kind) (role : Role) (body : Intent).

(** [accounts[a]["available"] += n] and [accounts[a]["held"] += n] *)
Definition add_available (a : string) (n : Z) (accs : dict string Balance) : result (dict string Balance) :=
  let* b := dlookup a accs in Ok (dset a (mk_balance (available b + n) (held b)) accs).
Definition add_held (a : string) (n : Z) (accs : dict string Balance) : result (dict string Balance) :=
  let* b := dlookup a accs in Ok (dset a (mk_balance (available b) (held b + n)) accs).

(** [account in accounts and accounts[account]["available"] >= amount] *)
Definition covers (a : string) (n : Z) (accs : dict string Balance) : bool :=
  match dget a accs with Some b => n <=? available b | None => false end.

(** The accounts and the status after an event, from the participant's old one. *)
Definition apply_event (kind : Kind) (role : Role) (b : Intent) (old : option Part) (accs : dict string Balance)
    : result (dict string Balance * PartStatus) :=
  match kind with
  | Local =>
      raise_if (bool_decide (is_Some old)) ValueError (
      if covers (from_account b) (amount b) accs && dmem (to_account b) accs then
        let* accs := add_available (from_account b) (- amount b) accs in
        let* accs := add_available (to_account b) (amount b) accs in
        Ok (accs, CONFIRMED)
      else Ok (accs, REJECTED))
  | Prepare =>
      raise_if (bool_decide (is_Some old)) ValueError (
      let account := match role with SOURCE => from_account b | _ => to_account b end in
      let valid := dmem account accs
                   && (bool_decide (role = DESTINATION) || covers account (amount b) accs) in
      if valid then
        match role with
        | SOURCE =>
            let* accs := add_available (from_account b) (- amount b) accs in
            let* accs := add_held (from_account b) (amount b) accs in
            Ok (accs, PREPARED)
        | _ => Ok (accs, PREPARED)
        end
      else Ok (accs, REJECTED))
  | Confirm =>
      match old with
      | Some p =>
          raise_if (negb (bool_decide (p_status p = PREPARED))) ValueError (
          let* accs := match role with
                       | SOURCE => add_held (from_account b) (- amount b) accs
                       | _ => add_available (to_account b) (amount b) accs
                       end in
          Ok (accs, CONFIRMED))
      | None => Raise ValueError
      end
  | Cancel =>
      match old with
      | Some p =>
          raise_if (bool_decide (p_status p = CONFIRMED) || bool_decide (p_status p = CANCELED)) ValueError (
          if bool_decide (p_status p = PREPARED) && bool_decide (role = SOURCE) then
            let* accs := add_held (from_account b) (- amount b) accs in
            let* accs := add_available (from_account b) (amount b) accs in
            Ok (accs, CANCELED)
          else Ok (accs, CANCELED))
      | None => Ok (accs, CANCELED)
      end
  end.

Definition negative (accs : dict string Balance) : bool :=
  existsb (λ b, Z.min (available b) (held b) <? 0) (dvalues accs).

Definition open_accounts (opening : dict string Z) : dict string Balance :=
  map (λ p, (p.1, mk_balance p.2 0)) opening.

Definition reduce_event (state : option State) (event : Event) : result State :=
  match event with
  | Genesis opening =>
      raise_if (negb (forallb identifier (dkeys opening))) ValueError (
      raise_if (bool_decide (is_Some state)) ValueError (
      raise_if (negb (forallb (λ n, integer n 0 MAX_INTEGER) (dvalues opening))) ValueError (
      Ok (mk_state (open_accounts opening) []))))
  | Act kind role body =>
      match state with
      | None => Raise ValueError
      | Some st =>
          raise_if (negb (eqb (bool_decide (kind = Local)) (bool_decide (role = LOCAL)))) ValueError (
          let* b := intent body in
          let old := dget (transaction_id b) (parts st) in
          raise_if (match old with
                    | Some p => negb (bool_decide (p_intent p = b)) || negb (bool_decide (p_role p = role))
                    | None => false
                    end) ValueError (
          let* r := apply_event kind role b old (accounts st) in
          raise_if (negative r.1) ValueError (
          Ok (mk_state r.1 (dset (transaction_id b) (mk_part b role r.2) (parts st))))))
      end
  end.

Fixpoint replay (state : option State) (events : list Event) : result (option State) :=
  match events with
  | [] => Ok state
  | e :: events' => let* st := reduce_event state e in replay (Some st) events'
  end.

(** ** Shards *)

Record Shard := mk_shard {
  s_index : Z;
  s_count : Z;
  s_fence : Z * string;
  s_events : list Event;
  projection : State;
}.

Definition check_fence (s : Shard) (epoch : Z) (leader : string) : result unit :=
  raise_if (negb (integer epoch 1 MAX_INTEGER)) ValueError (
  raise_if (negb (identifier leader)) ValueError (
  raise_if (negb (epoch =? (s_fence s).1) || negb (bool_decide (leader = (s_fence s).2))) (StatusError 409) (Ok tt))).

Definition fence (s : Shard) (epoch : Z) (leader : string) : result Shard :=
  raise_if (negb (integer epoch 1 MAX_INTEGER)) ValueError (
  raise_if (negb (identifier leader)) ValueError (
  raise_if ((epoch <? (s_fence s).1) || ((epoch =? (s_fence s).1) && negb (bool_decide (leader = (s_fence s).2))))
    (StatusError 409)
    (Ok (mk_shard (s_index s) (s_count s) (epoch, leader) (s_events s) (projection s))))).

Section shard.
Context (digest : string → Z).

Definition shard_for (account : string) (count : Z) : result Z :=
  raise_if (negb (identifier account)) ValueError (Ok (digest account mod count)).

(** The accounts of a shard; their names are identifiers. *)
Definition accounts_of (index count : Z) (opening : dict string Z) : dict string Z :=
  filter (λ p, digest p.1 mod count = index) (opening : list (string * Z)).

Definition new_shard (index count : Z) (opening : dict string Z) (epoch : Z) (leader : string) : result Shard :=
  raise_if (negb (integer count 1 100)) ValueError (
  raise_if (negb (integer index 0 (count - 1))) ValueError (
  raise_if (negb (integer epoch 1 MAX_INTEGER) || negb (identifier leader)) ValueError (
  raise_if (negb (forallb identifier (dkeys opening))) ValueError (
  let e := Genesis (accounts_of index count opening) in
  let* st := reduce_event None e in
  Ok (mk_shard index count (epoch, leader) [e] st))))).

Definition append (s : Shard) (e : Event) : result Shard :=
  let* st := reduce_event (Some (projection s)) e in
  Ok (mk_shard (s_index s) (s_count s) (s_fence s) (s_events s ++ [e]) st).

Definition part_of (s : Shard) (id : string) : option Part := dget id (parts (projection s)).

Definition action (s : Shard) (body : Intent) (kind : Kind) (role : Role) (epoch : Z) (leader : string)
    : result (Shard * Part) :=
  let* b := intent body in
  raise_if (negb (eqb (bool_decide (kind = Local)) (bool_decide (role = LOCAL)))) ValueError (
  let account := match role with DESTINATION => to_account b | _ => from_account b end in
  let* i := shard_for account (s_count s) in
  let* j := shard_for (to_account b) (s_count s) in
  raise_if (negb (i =? s_index s) || (bool_decide (role = LOCAL) && negb (j =? s_index s))) (StatusError 409) (
  let* _ := check_fence s epoch leader in
  let execute :=
    let* s' := append s (Act kind role b) in
    let* p := dlookup (transaction_id b) (parts (projection s')) in Ok (s', p) in
  match part_of s (transaction_id b) with
  | Some old =>
      raise_if (negb (bool_decide (p_intent old = b)) || negb (bool_decide (p_role old = role))) (StatusError 409) (
      if bool_decide (kind = Prepare) || bool_decide (kind = Local)
         || (bool_decide (kind = Confirm) && bool_decide (p_status old = CONFIRMED))
         || (bool_decide (kind = Cancel) && bool_decide (p_status old = CANCELED))
      then Ok (s, old)
      else raise_if ((bool_decide (kind = Confirm) && negb (bool_decide (p_status old = PREPARED)))
                     || (bool_decide (kind = Cancel) && bool_decide (p_status old = CONFIRMED))) (StatusError 409)
             execute)
  | None => raise_if (bool_decide (kind = Confirm)) (StatusError 409) execute
  end)).

(** [participant(transaction_id)] of a shard, and a balance. *)
Definition read_participant (s : Shard) (id : string) : result (option Part) :=
  raise_if (negb (identifier id)) ValueError (Ok (part_of s id)).

Definition balance (s : Shard) (account : string) : result Balance :=
  raise_if (negb (identifier account)) ValueError (
  match dget account (accounts (projection s)) with Some b => Ok b | None => Raise (StatusError 404) end).

(** [view(at)] and [audit()]: the state after a prefix of the log, and whether
    the projection is the replayed log. *)
Definition view_at (s : Shard) (at' : Z) : result State :=
  raise_if (negb (integer at' 1 (Z.of_nat (length (s_events s))))) ValueError (
  let* st := replay None (take (Z.to_nat at') (s_events s)) in
  match st with Some st => Ok st | None => Raise KeyError end).
End shard.

(** ** What a participant has moved *)

Definition held_for (a : string) (p : Part) : Z :=
  when (bool_decide (p_role p = SOURCE ∧ p_status p = PREPARED ∧ from_account (p_intent p) = a)) (amount (p_intent p)).
Definition debited (a : string) (p : Part) : Z :=
  when (bool_decide (p_role p ≠ DESTINATION ∧ p_status p = CONFIRMED ∧ from_account (p_intent p) = a))
    (amount (p_intent p)).
Definition credited (a : string) (p : Part) : Z :=
  when (bool_decide (p_role p ≠ SOURCE ∧ p_status p = CONFIRMED ∧ to_account (p_intent p) = a)) (amount (p_intent p)).

(** A recorded participant. *)
Record part_ok (accs : list string) (id : string) (p : Part) : Prop := {
  pk_id : transaction_id (p_intent p) = id;
  pk_intent : intent (p_intent p) = Ok (p_intent p);
  pk_local : p_role p = LOCAL → p_status p = CONFIRMED ∨ p_status p = REJECTED;
  pk_from : p_role p ≠ DESTINATION → p_status p = PREPARED ∨ p_status p = CONFIRMED → from_account (p_intent p) ∈ accs;
  pk_to : p_role p ≠ SOURCE → p_status p = PREPARED ∨ p_status p = CONFIRMED → to_account (p_intent p) ∈ accs;
}.

(** The balances are the opening ones, less what was debited, plus what was
    credited, and what is held is what the prepared sources hold. *)
Record balances_ok (opening : dict string Z) (accs : dict string Balance) (ps : list Part) : Prop := {
  bk_keys : dkeys accs = dkeys opening;
  bk_held : ∀ a b, dget a accs = Some b → held b = zsum (held_for a) ps;
  bk_total : ∀ a b, dget a accs = Some b →
    available b + held b = dget_or 0 a opening - zsum (debited a) ps + zsum (credited a) ps;
  bk_free : ∀ a b, dget a accs = Some b → 0 <= available b;
}.

Record shard_state_ok (opening : dict string Z) (st : State) : Prop := {
  sk_opening : dict_ok opening;
  sk_parts : dict_ok (parts st);
  sk_part : ∀ id p, dget id (parts st) = Some p → part_ok (dkeys opening) id p;
  sk_balances : balances_ok opening (accounts st) (dvalues (parts st));
}.

Lemma intent_facts b : intent b = Ok b → 1 <= amount b ∧ from_account b ≠ to_account b ∧ identifier (transaction_id b) = true.
Proof.
  unfold intent. intros H. apply raise_if_Ok in H as [H1 H]. do 2 apply raise_if_Ok in H as [_ H].
  apply raise_if_Ok in H as [Ha H]. apply raise_if_Ok in H as [Hb _].
  apply negb_false_iff, integer_spec in Ha. apply orb_false_iff in Hb as [_ Hb]. apply bool_decide_eq_false in Hb.
  apply negb_false_iff in H1. split; [lia|done].
Qed.

Lemma intent_value b b' : intent b = Ok b' → b' = b ∧ intent b = Ok b.
Proof.
  unfold intent. intros H. pose proof H as H0. do 5 apply raise_if_Ok in H as [_ H]. injection H as <-. done.
Qed.

(** ** Changes of the accounts *)

(** [accs'] differs from [accs] by [da] and [dh]. *)
Definition shifted (accs accs' : dict string Balance) (da dh : string → Z) : Prop :=
  dkeys accs' = dkeys accs ∧
  ∀ x, dget x accs' = (λ b, mk_balance (available b + da x) (held b + dh x)) <$> dget x accs.

Lemma shifted_refl accs : shifted accs accs (λ _, 0) (λ _, 0).
Proof.
  split; [done|]. intros x. destruct (dget x accs) as [[v h]|]; [|done]. simpl. by rewrite !Z.add_0_r.
Qed.

Lemma shifted_trans accs1 accs2 accs3 da1 dh1 da2 dh2 :
  shifted accs1 accs2 da1 dh1 → shifted accs2 accs3 da2 dh2 →
  shifted accs1 accs3 (λ x, da1 x + da2 x) (λ x, dh1 x + dh2 x).
Proof.
  intros [K1 H1] [K2 H2]. split; [congruence|]. intros x. rewrite H2, H1.
  destruct (dget x accs1); [|done]. simpl. by rewrite !Z.add_assoc.
Qed.

Lemma add_available_spec a n accs :
  a ∈ dkeys accs →
  ∃ accs', add_available a n accs = Ok accs' ∧ shifted accs accs' (λ x, when (bool_decide (a = x)) n) (λ _, 0).
Proof.
  intros Ha. destruct (dget_key _ _ Ha) as [b Hb]. unfold add_available, dlookup. rewrite Hb. eexists.
  split; [done|]. split; [by apply dkeys_dset_in|]. intros x. rewrite dget_dset. case_decide as Hx.
  - subst. rewrite Hb, bool_decide_true by done. simpl. by rewrite Z.add_0_r.
  - rewrite bool_decide_false by done. destruct (dget x accs) as [[v h]|]; [|done]. simpl. by rewrite !Z.add_0_r.
Qed.

Lemma add_held_spec a n accs :
  a ∈ dkeys accs →
  ∃ accs', add_held a n accs = Ok accs' ∧ shifted accs accs' (λ _, 0) (λ x, when (bool_decide (a = x)) n).
Proof.
  intros Ha. destruct (dget_key _ _ Ha) as [b Hb]. unfold add_held, dlookup. rewrite Hb. eexists.
  split; [done|]. split; [by apply dkeys_dset_in|]. intros x. rewrite dget_dset. case_decide as Hx.
  - subst. rewrite Hb, bool_decide_true by done. simpl. by rewrite Z.add_0_r.
  - rewrite bool_decide_false by done. destruct (dget x accs) as [[v h]|]; [|done]. simpl. by rewrite !Z.add_0_r.
Qed.

Lemma covers_spec a n accs : covers a n accs = true ↔ ∃ b, dget a accs = Some b ∧ n <= available b.
Proof.
  unfold covers. destruct (dget a accs) as [b|].
  - rewrite Z.leb_le. split; [eauto|]. by intros (? & [= <-] & ?).
  - split; [done|]. by intros (? & ? & _).
Qed.

(** When an event is accepted, given the participant it finds. *)
Definition status_allows (kind : Kind) (old : option Part) : Prop :=
  match kind with
  | Local | Prepare => old = None
  | Confirm => ∃ p, old = Some p ∧ p_status p = PREPARED
  | Cancel => ∀ p, old = Some p → p_status p ≠ CONFIRMED ∧ p_status p ≠ CANCELED
  end.
Definition allowed (kind : Kind) (role : Role) (b : Intent) (old : option Part) : Prop :=
  intent b = Ok b ∧ (kind = Local ↔ role = LOCAL) ∧
  (∀ p, old = Some p → p_intent p = b ∧ p_role p = role) ∧ status_allows kind old.

(** The status it leaves. *)
Definition next_status (kind : Kind) (role : Role) (b : Intent) (accs : dict string Balance) : PartStatus :=
  match kind with
  | Local => if covers (from_account b) (amount b) accs && dmem (to_account b) accs then CONFIRMED else REJECTED
  | Prepare =>
      match role with
      | SOURCE => if covers (from_account b) (amount b) accs then PREPARED else REJECTED
      | _ => if dmem (to_account b) accs then PREPARED else REJECTED
      end
  | Confirm => CONFIRMED
  | Cancel => CANCELED
  end.

Definition from_old (f : Part → Z) (old : option Part) : Z := match old with Some p => f p | None => 0 end.

(** The effect of an accepted event on the accounts is the difference of what
    the old and the new participant stand for. *)
Definition accounted (accs accs' : dict string Balance) (old : option Part) (p : Part) : Prop :=
  ∃ da dh, shifted accs accs' da dh ∧
    (∀ x, dh x = held_for x p - from_old (held_for x) old) ∧
    (∀ x, da x + dh x = - (debited x p - from_old (debited x) old) + (credited x p - from_old (credited x) old)) ∧
    ∀ x v, dget x accs = Some v → 0 <= available v → 0 <= available v + da x.

Ltac flows :=
  intros; unfold held_for, debited, credited, when in *; simpl in *;
  repeat case_bool_decide; destruct_and?; subst; simpl in *; try congruence; try tauto; try lia; exfalso; naive_solver.

Section apply.
Context (accs : dict string Balance) (b : Intent) (Hb : intent b = Ok b).

Lemma apply_local :
  let st := next_status Local LOCAL b accs in
  ∃ accs', apply_event Local LOCAL b None accs = Ok (accs', st) ∧
    accounted accs accs' None (mk_part b LOCAL st) ∧
    (st = CONFIRMED ∨ st = REJECTED) ∧
    (st = CONFIRMED → from_account b ∈ dkeys accs ∧ to_account b ∈ dkeys accs).
Proof.
  destruct (intent_facts b Hb) as (Ha & Hne & _). simpl.
  destruct (covers (from_account b) (amount b) accs && dmem (to_account b) accs) eqn:E.
  - apply andb_true_iff in E as [(v & Hv & Hle)%covers_spec Hd%dmem_spec].
    pose proof (dget_in_key _ _ _ Hv) as Hk.
    destruct (add_available_spec (from_account b) (- amount b) accs Hk) as (a1 & -> & S1). cbn [rbind].
    destruct (add_available_spec (to_account b) (amount b) a1) as (a2 & -> & S2); [by rewrite (proj1 S1)|]. cbn [rbind].
    exists a2. split; [done|]. split; [|split; [by left|done]].
    eexists _, _. split; [exact (shifted_trans _ _ _ _ _ _ _ S1 S2)|]. simpl. split; [flows|]. split; [flows|].
    intros x w Hw Hnn. unfold when. repeat case_bool_decide; subst; try congruence; try lia.
    assert (w = v) as -> by congruence. lia.
  - exists accs. split; [done|]. split; [|split; [by right|done]].
    eexists _, _. split; [apply shifted_refl|]. split; [flows|]. split; [flows|]. intros; lia.
Qed.

Lemma apply_prepare role :
  role ≠ LOCAL →
  let st := next_status Prepare role b accs in
  ∃ accs', apply_event Prepare role b None accs = Ok (accs', st) ∧
    accounted accs accs' None (mk_part b role st) ∧
    (st = PREPARED ∨ st = REJECTED) ∧
    (st = PREPARED → match role with SOURCE => from_account b | _ => to_account b end ∈ dkeys accs).
Proof.
  intros Hr. destruct (intent_facts b Hb) as (Ha & _ & _). destruct role; [| |done]; simpl.
  - destruct (covers (from_account b) (amount b) accs) eqn:E.
    + apply covers_spec in E as (v & Hv & Hle). pose proof (dget_in_key _ _ _ Hv) as Hk.
      rewrite (proj2 (dmem_spec _ _) Hk). simpl.
      destruct (add_available_spec (from_account b) (- amount b) accs Hk) as (a1 & -> & S1). cbn [rbind].
      destruct (add_held_spec (from_account b) (amount b) a1) as (a2 & -> & S2); [by rewrite (proj1 S1)|]. cbn [rbind].
      exists a2. split; [done|]. split; [|split; [by left|done]].
      eexists _, _. split; [exact (shifted_trans _ _ _ _ _ _ _ S1 S2)|]. simpl. split; [flows|]. split; [flows|].
      intros x w Hw Hnn. unfold when. case_bool_decide; [subst; assert (w = v) as -> by congruence|]; lia.
    + rewrite andb_false_r. exists accs. split; [done|]. split; [|split; [by right|done]].
      eexists _, _. split; [apply shifted_refl|]. split; [flows|]. split; [flows|]. intros; lia.
  - destruct (dmem (to_account b) accs) eqn:E; simpl.
    + exists accs. split; [done|]. split; [|split; [by left|intros _; by apply dmem_spec]].
      eexists _, _. split; [apply shifted_refl|]. split; [flows|]. split; [flows|]. intros; lia.
    + exists accs. split; [done|]. split; [|split; [by right|done]].
      eexists _, _. split; [apply shifted_refl|]. split; [flows|]. split; [flows|]. intros; lia.
Qed.

Lemma apply_confirm role :
  role ≠ LOCAL → match role with SOURCE => from_account b | _ => to_account b end ∈ dkeys accs →
  ∃ accs', apply_event Confirm role b (Some (mk_part b role PREPARED)) accs = Ok (accs', CONFIRMED) ∧
    accounted accs accs' (Some (mk_part b role PREPARED)) (mk_part b role CONFIRMED).
Proof.
  intros Hr Hk. destruct (intent_facts b Hb) as (Ha & Hne & _). destruct role; [| |done]; simpl.
  - destruct (add_held_spec (from_account b) (- amount b) accs Hk) as (a1 & -> & S1).
    exists a1. split; [done|]. eexists _, _. split; [exact S1|]. split; [flows|]. split; [flows|]. intros; lia.
  - destruct (add_available_spec (to_account b) (amount b) accs Hk) as (a1 & -> & S1).
    exists a1. split; [done|]. eexists _, _. split; [exact S1|]. split; [flows|]. split; [flows|]. flows.
Qed.

Lemma apply_cancel role old :
  role ≠ LOCAL →
  (∀ p, old = Some p → p_intent p = b ∧ p_role p = role ∧ p_status p ≠ CONFIRMED ∧ p_status p ≠ CANCELED ∧
     (role = SOURCE → p_status p = PREPARED → from_account b ∈ dkeys accs)) →
  ∃ accs', apply_event Cancel role b old accs = Ok (accs', CANCELED) ∧
    accounted accs accs' old (mk_part b role CANCELED).
Proof.
  intros Hr Hold. destruct (intent_facts b Hb) as (Ha & _ & _).
  destruct old as [[b0 r0 s0]|]; simpl.
  2:{ exists accs. split; [done|]. eexists _, _. split; [apply shifted_refl|]. split; [flows|]. split; [flows|]. intros; lia. }
  destruct (Hold _ eq_refl) as (Hb0 & Hr0 & Hn1 & Hn2 & Hkey). simpl in *. subst b0 r0.
  rewrite (bool_decide_false (s0 = CONFIRMED)), (bool_decide_false (s0 = CANCELED)) by done. simpl.
  destruct (bool_decide (s0 = PREPARED) && bool_decide (role = SOURCE)) eqn:E.
  - apply andb_true_iff in E as [->%bool_decide_eq_true ->%bool_decide_eq_true].
    destruct (add_held_spec (from_account b) (- amount b) accs (Hkey eq_refl eq_refl)) as (a1 & -> & S1). cbn [rbind].
    destruct (add_available_spec (from_account b) (amount b) a1) as (a2 & -> & S2).
    { rewrite (proj1 S1). by apply Hkey. } cbn [rbind].
    exists a2. split; [done|]. eexists _, _. split; [exact (shifted_trans _ _ _ _ _ _ _ S1 S2)|]. simpl.
    split; [flows|]. split; [flows|]. flows.
  - apply andb_false_iff in E. exists accs. split; [done|]. eexists _, _. split; [apply shifted_refl|].
    assert (s0 = PREPARED → role = SOURCE → False) as Hx.
    { intros -> ->. by rewrite !bool_decide_true in E by done; destruct E. }
    split; [flows|]. split; [flows|]. intros; lia.
Qed.
End apply.

(** ** Accepted and refused events *)

Lemma sum_replaced (f : Part → Z) id p (ps : dict string Part) :
  zsum f (dvalues (dset id p ps)) = zsum f (dvalues ps) + f p - from_old f (dget id ps).
Proof.
  destruct (dget id ps) as [q|] eqn:E; simpl; [rewrite (zsum_dset f id q)|rewrite zsum_dset_new]; lia || done.
Qed.

Lemma balances_step opening accs accs' id p (ps : dict string Part) :
  balances_ok opening accs (dvalues ps) → accounted accs accs' (dget id ps) p →
  balances_ok opening accs' (dvalues (dset id p ps)).
Proof.
  intros [B1 B2 B3 B4] (da & dh & [Hk Hs] & Hh & Ht & Hf).
  split; [congruence|..]; intros a v; rewrite Hs; destruct (dget a accs) as [w|] eqn:E; try done; intros [= <-]; simpl;
    rewrite ?sum_replaced.
  - rewrite (B2 a w E), Hh. lia.
  - pose proof (B3 a w E). specialize (Ht a). lia.
  - apply (Hf a w E). by apply (B4 a).
Qed.

Lemma negative_false opening accs ps :
  dict_ok opening → (∀ p, p ∈ ps → intent (p_intent p) = Ok (p_intent p)) → balances_ok opening accs ps →
  negative accs = false.
Proof.
  intros Hok Hi [B1 B2 _ B4]. apply existsb_false. intros b Hb. apply Z.ltb_ge.
  apply elem_dvalues in Hb as [a Ha]; [|unfold dict_ok; by rewrite B1].
  apply Z.min_glb; [by apply (B4 a)|]. rewrite (B2 a b Ha). apply zsum_nonneg. intros p Hp.
  pose proof (intent_facts _ (Hi p Hp)) as (? & _). unfold held_for, when. case_bool_decide; lia.
Qed.

Lemma apply_allowed opening st kind role b :
  shard_state_ok opening st → allowed kind role b (dget (transaction_id b) (parts st)) →
  let s := next_status kind role b (accounts st) in
  ∃ accs', apply_event kind role b (dget (transaction_id b) (parts st)) (accounts st) = Ok (accs', s) ∧
    accounted (accounts st) accs' (dget (transaction_id b) (parts st)) (mk_part b role s) ∧
    part_ok (dkeys opening) (transaction_id b) (mk_part b role s).
Proof.
  intros [K1 K2 K3 K4] (Hb & Hkr & Hold & Hst). pose proof (bk_keys _ _ _ K4) as Hkeys.
  assert (∀ s', (role = LOCAL → s' = CONFIRMED ∨ s' = REJECTED) →
    (role ≠ DESTINATION → s' = PREPARED ∨ s' = CONFIRMED → from_account b ∈ dkeys opening) →
    (role ≠ SOURCE → s' = PREPARED ∨ s' = CONFIRMED → to_account b ∈ dkeys opening) →
    part_ok (dkeys opening) (transaction_id b) (mk_part b role s')) as Hpk by (intros; by split).
  rewrite <- Hkeys in Hpk. pose proof (λ p H, K3 (transaction_id b) p H) as Hk3. rewrite <- Hkeys in Hk3.
  destruct kind; simpl in Hst.
  - destruct Hkr as [Hkr _]. rewrite (Hkr eq_refl) in *. rewrite Hst.
    destruct (apply_local (accounts st) b Hb) as (accs' & H1 & H2 & H3 & H4). exists accs'. rewrite <- Hkeys.
    split; [done|]. split; [done|]. apply Hpk; [done|..]; intros _ [Hp|Hp]; try (by apply H4);
      destruct H3 as [H3|H3]; congruence.
  - assert (role ≠ LOCAL) as Hr by naive_solver. rewrite Hst.
    destruct (apply_prepare (accounts st) b Hb role Hr) as (accs' & H1 & H2 & H3 & H4). exists accs'. rewrite <- Hkeys.
    split; [done|]. split; [done|]. apply Hpk; [done|..]; intros Hr' [Hp|Hp];
      try (destruct H3 as [H3|H3]; congruence); specialize (H4 Hp); by destruct role.
  - assert (role ≠ LOCAL) as Hr by naive_solver. destruct Hst as ([b0 r0 s0] & Heq & Hs). rewrite Heq in *. simpl in Hs.
    destruct (Hold _ eq_refl) as [Hb0 Hr0]. simpl in Hb0, Hr0. subst b0 r0 s0.
    destruct (Hk3 _ eq_refl) as [_ _ _ Hfrom Hto]. simpl in *.
    assert (match role with SOURCE => from_account b | _ => to_account b end ∈ dkeys (accounts st)) as Hk.
    { destruct role; [apply Hfrom|apply Hto|]; try done; by left. }
    destruct (apply_confirm (accounts st) b Hb role Hr Hk) as (accs' & H1 & H2). exists accs'. rewrite <- Hkeys.
    split; [done|]. split; [done|]. apply Hpk; [done|intros; apply Hfrom; auto|intros; apply Hto; auto].
  - assert (role ≠ LOCAL) as Hr by naive_solver. simpl.
    destruct (apply_cancel (accounts st) b Hb role (dget (transaction_id b) (parts st)) Hr) as (accs' & H1 & H2).
    { intros p Hp. destruct (Hold p Hp) as [Hb0 Hr0]. destruct (Hst p Hp) as [? ?]. split_and!; try done.
      intros Hsrc Hprep. destruct (Hk3 p Hp) as [_ _ _ Hfrom _]. rewrite <- Hb0. apply Hfrom; [congruence|by left]. }
    exists accs'. rewrite <- Hkeys. split; [done|]. split; [done|]. apply Hpk; [done|..]; intros _ [?|?]; done.
Qed.

Lemma reduce_allowed opening st kind role b :
  shard_state_ok opening st → allowed kind role b (dget (transaction_id b) (parts st)) →
  ∃ st', reduce_event (Some st) (Act kind role b) = Ok st' ∧ shard_state_ok opening st' ∧
    parts st' = dset (transaction_id b) (mk_part b role (next_status kind role b (accounts st))) (parts st).
Proof.
  intros Hok Hal. pose proof Hok as [K1 K2 K3 K4]. pose proof Hal as (Hb & Hkr & Hold & _).
  destruct (apply_allowed opening st kind role b Hok Hal) as (accs' & Happ & Hacc & Hpk).
  set (p := mk_part b role _) in *. unfold reduce_event.
  assert (eqb (bool_decide (kind = Local)) (bool_decide (role = LOCAL)) = true) as ->.
  { apply eqb_true_iff, bool_decide_ext. tauto. }
  rewrite Hb. cbn [negb raise_if rbind].
  assert ((match dget (transaction_id b) (parts st) with
           | Some p => negb (bool_decide (p_intent p = b)) || negb (bool_decide (p_role p = role))
           | None => false end) = false) as ->.
  { destruct (dget (transaction_id b) (parts st)) as [q|]; [|done]. destruct (Hold q eq_refl) as [-> ->].
    by rewrite !bool_decide_true. }
  rewrite Happ. cbn [raise_if rbind fst snd].
  assert (∀ id q, dget id (dset (transaction_id b) p (parts st)) = Some q → part_ok (dkeys opening) id q) as Hparts.
  { intros id q. rewrite dget_dset. case_decide; [intros [= <-]; by subst|apply K3]. }
  assert (balances_ok opening accs' (dvalues (dset (transaction_id b) p (parts st)))) as Hbal
    by (by eapply balances_step).
  assert (dict_ok (dset (transaction_id b) p (parts st))) as Hdk by (by apply dset_ok).
  rewrite (negative_false opening accs' (dvalues (dset (transaction_id b) p (parts st)))); [|done| |done].
  - eexists. split; [done|]. split; [by split|done].
  - intros q (id & Hq)%elem_dvalues; [|done]. apply (pk_intent _ _ _ (Hparts id q Hq)).
Qed.

Lemma reduce_refused opening st kind role b :
  shard_state_ok opening st → ¬ allowed kind role b (dget (transaction_id b) (parts st)) →
  reduce_event (Some st) (Act kind role b) = Raise ValueError.
Proof.
  intros [K1 K2 K3 _] Hna. unfold reduce_event.
  destruct (eqb (bool_decide (kind = Local)) (bool_decide (role = LOCAL))) eqn:Ekr; [|done]. cbn [negb raise_if].
  assert (kind = Local ↔ role = LOCAL) as Hkr.
  { apply (proj1 (eqb_true_iff _ _)) in Ekr. rewrite <- (bool_decide_eq_true (kind = Local)), Ekr. apply bool_decide_eq_true. }
  destruct (intent b) as [b'|e] eqn:Hb; cbn [rbind].
  2:{ unfold intent in Hb. do 5 (apply raise_if_Raise in Hb as [->|[_ Hb]]; [done|]). done. }
  destruct (intent_value b b' Hb) as [-> Hb']. clear Hb.
  destruct (dget (transaction_id b) (parts st)) as [p|] eqn:Hold.
  - destruct (negb (bool_decide (p_intent p = b)) || negb (bool_decide (p_role p = role))) eqn:E; [done|].
    apply orb_false_iff in E as [E1%negb_false_iff%bool_decide_eq_true E2%negb_false_iff%bool_decide_eq_true].
    cbn [raise_if]. destruct kind; simpl; [done|done|..].
    + destruct (decide (p_status p = PREPARED)) as [Hp|Hp]; [|by rewrite bool_decide_false].
      exfalso. apply Hna. split; [done|]. split; [done|]. split; [by intros ? [= <-]|]. by exists p.
    + destruct (decide (p_status p = CONFIRMED)) as [Hp|Hp]; [by rewrite bool_decide_true|].
      destruct (decide (p_status p = CANCELED)) as [Hp'|Hp']; [by rewrite (bool_decide_true (_ = CANCELED)), orb_true_r|].
      exfalso. apply Hna. split; [done|]. split; [done|]. split; [by intros ? [= <-]|]. by intros ? [= <-].
  - cbn [raise_if]. destruct kind; try done; exfalso; by apply Hna.
Qed.

(** ** Shards *)

Section shard_facts.
Context (digest : string → Z).

(** The log replays to the projection, which has the invariant. *)
Record shard_ok (opening : dict string Z) (s : Shard) : Prop := {
  sd_replay : replay None (s_events s) = Ok (Some (projection s));
  sd_state : shard_state_ok opening (projection s);
  sd_home : ∀ a, a ∈ dkeys opening → digest a mod s_count s = s_index s;
}.

Lemma replay_snoc o evs e :
  replay o (evs ++ [e]) = (let* st := replay o evs in let* st' := reduce_event st e in Ok (Some st')).
Proof.
  revert o. induction evs as [|e' evs IH]; intros o; simpl; [done|].
  destruct (reduce_event o e'); simpl; [apply IH|done].
Qed.

Lemma filter_dict_ok {V} (P : string * V → Prop) `{∀ x, Decision (P x)} (d : dict string V) :
  dict_ok d → dict_ok (filter P (d : list (string * V))).
Proof. unfold dict_ok, dkeys. intros Hd. by apply NoDup_fmap_filter. Qed.

Lemma new_shard_ok index count opening epoch leader s :
  dict_ok opening → new_shard digest index count opening epoch leader = Ok s →
  shard_ok (accounts_of digest index count opening) s ∧ s_index s = index ∧ s_count s = count ∧
  s_fence s = (epoch, leader) ∧ parts (projection s) = [].
Proof.
  intros Hok. unfold new_shard. intros H. do 4 apply raise_if_Ok in H as [_ H].
  destruct (reduce_event None (Genesis (accounts_of digest index count opening))) as [st|] eqn:E; [|done].
  cbn [rbind] in H. injection H as <-. split; [|simpl in *].
  - pose proof E as E0. simpl in E. apply raise_if_Ok in E as [_ E]. apply raise_if_Ok in E as [Hv E].
    apply negb_false_iff in Hv. rewrite forallb_elem in Hv. injection E as <-.
    assert (dict_ok (accounts_of digest index count opening)) as Hd by by apply filter_dict_ok.
    split; [by unfold s_events, replay; rewrite E0| |].
    + split; [done|constructor|by intros|]. split; simpl.
      * unfold open_accounts. apply (dkeys_map (λ n, mk_balance n 0)).
      * intros a b. unfold open_accounts. rewrite (dget_map (λ n, mk_balance n 0)). destruct (dget a _); [|done]. by intros [= <-].
      * intros a b. unfold open_accounts. rewrite (dget_map (λ n, mk_balance n 0)). destruct (dget a (accounts_of digest index count opening)) eqn:Ea; [|done].
        intros [= <-]. simpl. unfold dget_or. rewrite Ea. lia.
      * intros a b. unfold open_accounts. rewrite (dget_map (λ n, mk_balance n 0)). destruct (dget a (accounts_of digest index count opening)) eqn:Ea; [|done].
        intros [= <-]. simpl. apply dget_Some_elem in Ea. enough (integer z 0 MAX_INTEGER = true) as Hz by (apply integer_spec in Hz; lia).
        apply Hv. by apply (list_elem_of_fmap_2 snd _ _ Ea).
    + simpl. intros a Ha. unfold dkeys, accounts_of in Ha. apply list_elem_of_fmap in Ha as ([k v] & -> & Hin).
      by apply list_elem_of_filter in Hin as [Hin _].
  - destruct (raise_if_Ok _ _ _ _ E) as [_ E1]. destruct (raise_if_Ok _ _ _ _ E1) as [_ E2]. by injection E2 as <-.
Qed.

(** How a shard answers, by the status it has recorded. *)
Inductive answer := Keep | Refuse | Execute.
Definition respond (kind : Kind) (old : option PartStatus) : answer :=
  match kind, old with
  | Prepare, Some _ | Local, Some _ | Confirm, Some CONFIRMED | Cancel, Some CANCELED => Keep
  | Confirm, Some PREPARED | Cancel, Some PREPARED | Cancel, Some REJECTED => Execute
  | Confirm, _ | Cancel, Some CONFIRMED => Refuse
  | _, None => Execute
  end.

Record deliverable (s : Shard) (body : Intent) (kind : Kind) (role : Role) : Prop := {
  dv_intent : intent body = Ok body;
  dv_kind : kind = Local ↔ role = LOCAL;
  dv_home : digest (match role with DESTINATION => to_account body | _ => from_account body end) mod s_count s = s_index s;
  dv_local : role = LOCAL → digest (to_account body) mod s_count s = s_index s;
  dv_same : ∀ old, part_of s (transaction_id body) = Some old → p_intent old = body ∧ p_role old = role;
}.

(** The event is appended and its participant recorded. *)
Definition extended (opening : dict string Z) (s s' : Shard) (body : Intent) (kind : Kind) (role : Role) (p : Part)
    : Prop :=
  shard_ok opening s' ∧ s_index s' = s_index s ∧ s_count s' = s_count s ∧ s_fence s' = s_fence s ∧
  parts (projection s') = dset (transaction_id body) p (parts (projection s)) ∧
  p = mk_part body role (next_status kind role body (accounts (projection s))).

Lemma append_ok opening s body kind role :
  shard_ok opening s → allowed kind role body (part_of s (transaction_id body)) →
  ∃ s' p, append s (Act kind role body) = Ok s' ∧ extended opening s s' body kind role p.
Proof.
  intros [H1 H2 H3] Hal. destruct (reduce_allowed opening (projection s) kind role body H2 Hal) as (st' & E & Hok & Hp).
  unfold append. rewrite E. cbn [rbind]. eexists _, _. split; [done|]. split; [|by split_and!].
  split; simpl; [|done|done]. by rewrite replay_snoc, H1; cbn [rbind]; rewrite E.
Qed.

Lemma intent_identifiers b : intent b = Ok b → identifier (from_account b) = true ∧ identifier (to_account b) = true.
Proof.
  unfold intent. intros H. apply raise_if_Ok in H as [_ H]. apply raise_if_Ok in H as [H1 H].
  apply raise_if_Ok in H as [H2 _]. split; by apply negb_false_iff.
Qed.

Lemma action_ok opening s body kind role epoch leader :
  shard_ok opening s → deliverable s body kind role → check_fence s epoch leader = Ok tt →
  let old := part_of s (transaction_id body) in
  match respond kind (p_status <$> old) with
  | Keep => ∃ p, old = Some p ∧ action digest s body kind role epoch leader = Ok (s, p)
  | Refuse => action digest s body kind role epoch leader = Raise (StatusError 409)
  | Execute => ∃ s' p, action digest s body kind role epoch leader = Ok (s', p) ∧ extended opening s s' body kind role p
  end.
Proof.
  intros Hok [D1 D2 D3 D4 D5] Hf old. destruct (intent_identifiers body D1) as [I1 I2].
  unfold action. rewrite D1. cbn [rbind].
  assert (Bool.eqb (bool_decide (kind = Local)) (bool_decide (role = LOCAL)) = true) as ->.
  { apply eqb_true_iff, bool_decide_ext. tauto. }
  cbn [negb raise_if]. unfold shard_for.
  assert (identifier (match role with DESTINATION => to_account body | _ => from_account body end) = true) as ->
    by (by destruct role).
  rewrite I2. cbn [negb raise_if rbind]. rewrite D3, Z.eqb_refl. cbn [negb orb].
  assert (bool_decide (role = LOCAL) && negb (digest (to_account body) mod s_count s =? s_index s) = false) as ->.
  { case_bool_decide; [|done]. rewrite D4 by done. by rewrite Z.eqb_refl. }
  cbn [raise_if]. rewrite Hf. cbn [rbind]. fold old.
  assert (∀ s' p, extended opening s s' body kind role p →
    dlookup (transaction_id body) (parts (projection s')) = Ok p) as Hlook.
  { intros s' p (_ & _ & _ & _ & Hp & _). unfold dlookup. by rewrite Hp, dget_dset_eq. }
  assert (allowed kind role body old → ∃ s' p,
    (let* s' := append s (Act kind role body) in
     let* p := dlookup (transaction_id body) (parts (projection s')) in Ok (s', p)) = Ok (s', p) ∧
    extended opening s s' body kind role p) as Hexe.
  { intros Hal. destruct (append_ok opening s body kind role Hok Hal) as (s' & p & -> & Hx). exists s', p.
    cbn [rbind]. by rewrite (Hlook s' p Hx). }
  destruct old as [p|] eqn:Ho; simpl.
  - destruct (D5 p Ho) as [Hi Hr]. rewrite Hi, Hr, !(bool_decide_true (_ = _)) by done. cbn [negb orb raise_if].
    assert (∀ q, Some p = Some q → p_intent q = body ∧ p_role q = role) as Hsame by (by intros q [= <-]).
    destruct kind; simpl; [by exists p|by exists p|..]; destruct (p_status p) eqn:Hs; simpl;
      first [by exists p|done|apply Hexe; split; [done|]; split; [done|]; split; [done|]; simpl; try by exists p];
      intros q [= <-]; by rewrite Hs.
  - destruct kind; simpl; try done; apply Hexe; by split_and!.
Qed.

(** A call that returns has passed the guards; one that raises leaves no trace. *)
Lemma action_guards s body kind role epoch leader s' p :
  action digest s body kind role epoch leader = Ok (s', p) → deliverable s body kind role ∧ check_fence s epoch leader = Ok tt.
Proof.
  unfold action. destruct (intent body) as [b|] eqn:Hb; [|done]. cbn [rbind].
  destruct (intent_value body b Hb) as [-> Hi]. intros H. apply raise_if_Ok in H as [Hk H]. unfold shard_for in H.
  destruct (intent_identifiers body Hi) as [I1 I2].
  assert (identifier (match role with DESTINATION => to_account body | _ => from_account body end) = true) as Hid
    by (by destruct role).
  rewrite Hid, I2 in H. cbn [negb raise_if rbind] in H. apply raise_if_Ok in H as [Hh H].
  apply orb_false_iff in Hh as [Hh Hl]. apply negb_false_iff, Z.eqb_eq in Hh.
  destruct (check_fence s epoch leader) as [[]|]; [|done]. cbn [rbind] in H. split; [|done].
  apply negb_false_iff in Hk. apply (proj1 (eqb_true_iff _ _)) in Hk. split; [done| |done| |].
  - rewrite <- (bool_decide_eq_true (kind = Local)), Hk. apply bool_decide_eq_true.
  - intros Hr. rewrite bool_decide_true in Hl by done. by apply negb_false_iff, Z.eqb_eq in Hl.
  - intros old Ho. rewrite Ho in H. apply raise_if_Ok in H as [H _].
    apply orb_false_iff in H as [H1%negb_false_iff%bool_decide_eq_true H2%negb_false_iff%bool_decide_eq_true]. done.
Qed.
End shard_facts.

(** ** Histories of a shard *)

(** Requests to a shard, in the order it serves them; one that raises changes
    nothing. *)
Inductive shard_op :=
| Do (body : Intent) (kind : Kind) (role : Role) (epoch : Z) (leader : string)
| Refence (epoch : Z) (leader : string).

Definition shard_step (digest : string → Z) (s : Shard) (op : shard_op) : Shard :=
  match op with
  | Do body kind role epoch leader =>
      match action digest s body kind role epoch leader with Ok (s', _) => s' | Raise _ => s end
  | Refence epoch leader => match fence s epoch leader with Ok s' => s' | Raise _ => s end
  end.

Definition shard_run (digest : string → Z) (s : Shard) (ops : list shard_op) : Shard :=
  foldl (shard_step digest) s ops.

Section history.
Context (digest : string → Z).

Lemma fence_ok opening s epoch leader s' :
  shard_ok digest opening s → fence s epoch leader = Ok s' → shard_ok digest opening s'.
Proof.
  intros [H1 H2 H3] H. unfold fence in H. do 3 apply raise_if_Ok in H as [_ H]. injection H as <-. by split.
Qed.

Lemma shard_step_ok opening s op : shard_ok digest opening s → shard_ok digest opening (shard_step digest s op).
Proof.
  intros Hok. destruct op as [body kind role epoch leader|epoch leader]; simpl.
  - destruct (action digest s body kind role epoch leader) as [[s' p]|] eqn:E; [|done].
    destruct (action_guards digest s body kind role epoch leader s' p E) as [Hd Hf].
    pose proof (action_ok digest opening s body kind role epoch leader Hok Hd Hf) as Ha. simpl in Ha.
    destruct (respond _ _).
    + destruct Ha as (q & _ & Ha). rewrite E in Ha. by injection Ha as -> _.
    + congruence.
    + destruct Ha as (s2 & q & Ha & Hx). rewrite E in Ha. injection Ha as -> _. apply Hx.
  - destruct (fence s epoch leader) as [s'|] eqn:E; [|done]. by eapply fence_ok.
Qed.

Lemma shard_run_ok opening s ops : shard_ok digest opening s → shard_ok digest opening (shard_run digest s ops).
Proof. revert s. induction ops as [|op ops IH]; intros s Hok; simpl; [done|]. by apply IH, shard_step_ok. Qed.

(** An account shard keeps its books through any history of requests,
    refused ones included: the projection is the replay of the event log, what
    an account holds is what its prepared transfers reserve, its balance is the
    opening one less the confirmed debits plus the confirmed credits, and
    neither part is ever negative. *)
Theorem shard_history index count opening epoch leader s0 ops :
  dict_ok opening → new_shard digest index count opening epoch leader = Ok s0 →
  let s := shard_run digest s0 ops in
  let ps := dvalues (parts (projection s)) in
  replay None (s_events s) = Ok (Some (projection s)) ∧
  ∀ a b, dget a (accounts (projection s)) = Some b →
    held b = zsum (held_for a) ps ∧ 0 <= held b ∧ 0 <= available b ∧
    available b + held b = dget_or 0 a opening - zsum (debited a) ps + zsum (credited a) ps.
Proof.
  intros Hok Hnew. cbv zeta. destruct (new_shard_ok digest _ _ _ _ _ _ Hok Hnew) as (Hs0 & _).
  destruct (shard_run_ok _ s0 ops Hs0) as [H1 [K1 K2 K3 [B1 B2 B3 B4]] _]. split; [exact H1|].
  intros a b Hab. pose proof (B2 a b Hab) as Hh. split; [done|]. split.
  { rewrite Hh. apply zsum_nonneg. intros p (id & Hp)%elem_dvalues; [|done].
    pose proof (intent_facts _ (pk_intent _ _ _ (K3 id p Hp))) as (? & _). unfold held_for, when. case_bool_decide; lia. }
  split; [by apply (B4 a)|]. rewrite (B3 a b Hab). do 2 f_equal.
  pose proof (dget_in_key _ _ _ Hab) as Hk. rewrite B1 in Hk. unfold dget_or.
  destruct (dget_key _ _ Hk) as [v Hv]. rewrite Hv. apply dget_Some_elem, list_elem_of_filter in Hv as [_ Hv].
  by rewrite (proj2 (dget_Some _ _ _ Hok) Hv).
Qed.
End history.

(** Two shards' worth of accounts, told apart by the length of the name. *)
Definition demo_digest (a : string) : Z := Z.of_nat (String.length a).
Definition demo_opening : dict string Z := [("al", 100); ("bob", 50); ("eve", 7)].
Definition demo_transfer : Intent := mk_intent "t1" "al" "bob" 30 "USD".
Definition demo_ops : list shard_op :=
  [Do demo_transfer Prepare SOURCE 1 "lead"; Do demo_transfer Prepare SOURCE 1 "lead";
   Do demo_transfer Confirm SOURCE 1 "old"; Do demo_transfer Confirm SOURCE 1 "lead"].

Lemma shard_history_witness :
  ∃ s0, new_shard demo_digest 0 2 demo_opening 1 "lead" = Ok s0 ∧
    replay None (s_events (shard_run demo_digest s0 demo_ops)) = Ok (Some (projection (shard_run demo_digest s0 demo_ops))) ∧
    length (s_events (shard_run demo_digest s0 demo_ops)) = 3%nat ∧
    dget "al" (accounts (projection (shard_run demo_digest s0 demo_ops))) = Some (mk_balance 70 0).
Proof.
  destruct (new_shard demo_digest 0 2 demo_opening 1 "lead") as [s0|] eqn:E; [|vm_compute in E; discriminate].
  exists s0. split; [done|].
  destruct (shard_history demo_digest 0 2 demo_opening 1 "lead" s0 demo_ops ltac:(by apply (bool_decide_unpack _)) E) as [H _].
  split; [exact H|]. vm_compute in E. injection E as <-. by vm_compute.
Defined.


(** What is recorded keeps its transfer and role; a terminal status stays. *)
Definition keeps (p q : Part) : Prop :=
  p_intent q = p_intent p ∧ p_role q = p_role p ∧
  (p_status p = CONFIRMED ∨ p_status p = CANCELED → q = p).

Section kept.
Context (digest : string → Z) (opening : dict string Z).

(** The answers of a sound shard, by cases. *)
Lemma action_cases s body kind role epoch leader s' p :
  shard_ok digest opening s → action digest s body kind role epoch leader = Ok (s', p) →
  deliverable digest s body kind role ∧
  ((respond kind (p_status <$> part_of s (transaction_id body)) = Keep ∧ s' = s ∧
      part_of s (transaction_id body) = Some p) ∨
   (respond kind (p_status <$> part_of s (transaction_id body)) = Execute ∧
      extended digest opening s s' body kind role p)).
Proof.
  intros Hok E. destruct (action_guards digest s body kind role epoch leader s' p E) as [Hd Hf]. split; [done|].
  pose proof (action_ok digest opening s body kind role epoch leader Hok Hd Hf) as Ha. simpl in Ha.
  destruct (respond _ _).
  - destruct Ha as (q & Hq & Ha). rewrite E in Ha. injection Ha as -> ->. by left.
  - congruence.
  - destruct Ha as (s2 & q & Ha & Hx). rewrite E in Ha. injection Ha as -> ->. by right.
Qed.

Lemma step_keeps s op id p :
  shard_ok digest opening s → part_of s id = Some p →
  ∃ q, part_of (shard_step digest s op) id = Some q ∧ keeps p q.
Proof.
  intros Hok Hp. assert (keeps p p) as Hrefl by done. destruct op as [body kind role epoch leader|epoch leader]; simpl.
  - destruct (action digest s body kind role epoch leader) as [[s' r]|] eqn:E; [|by exists p].
    destruct (action_cases s body kind role epoch leader s' r Hok E) as [Hd [(_ & -> & _)|(Hr & Hx)]]; [by exists p|].
    destruct Hx as (_ & _ & _ & _ & Hparts & ->). unfold part_of. rewrite Hparts, dget_dset.
    case_decide as Hid; [|by exists p]. subst id. eexists. split; [done|].
    destruct (dv_same _ _ _ _ _ Hd p Hp) as [Hi Hro]. split; [by rewrite Hi|]. split; [by rewrite Hro|].
    rewrite Hp in Hr. simpl in Hr. intros [Hs|Hs]; rewrite Hs in Hr; by destruct kind.
  - destruct (fence s epoch leader) as [s'|] eqn:E; [|by exists p]. exists p. split; [|done].
    unfold fence in E. do 3 apply raise_if_Ok in E as [_ E]. injection E as <-. exact Hp.
Qed.

Lemma run_keeps s ops id p :
  shard_ok digest opening s → part_of s id = Some p →
  ∃ q, part_of (shard_run digest s ops) id = Some q ∧ keeps p q.
Proof.
  revert s p. induction ops as [|op ops IH]; intros s p Hok Hp; simpl; [by exists p|].
  destruct (step_keeps s op id p Hok Hp) as (q & Hq & Hk1 & Hk2 & Hk3).
  destruct (IH _ q (shard_step_ok digest opening s op Hok) Hq) as (r & Hr & Hk4 & Hk5 & Hk6).
  exists r. split; [done|]. split; [congruence|]. split; [congruence|].
  intros Ht. rewrite <- (Hk3 Ht) in Ht |- *. by apply Hk6.
Qed.

Lemma answered s body kind role epoch leader s' p :
  shard_ok digest opening s → action digest s body kind role epoch leader = Ok (s', p) →
  shard_ok digest opening s' ∧ part_of s' (transaction_id body) = Some p ∧
  (kind = Confirm → p_status p = CONFIRMED) ∧ (kind = Cancel → p_status p = CANCELED).
Proof.
  intros Hok E. destruct (action_cases s body kind role epoch leader s' p Hok E) as [Hd [(Hr & -> & Hp)|(Hr & Hx)]].
  - rewrite Hp in Hr. split; [done|]. split; [done|]. simpl in Hr. split; intros ->; by destruct (p_status p).
  - destruct Hx as (Hs' & _ & _ & _ & Hparts & ->). split; [done|]. unfold part_of. rewrite Hparts, dget_dset_eq.
    split; [done|]. by split; intros ->.
Qed.
End kept.

(** A request that succeeded can be repeated: whatever came in between,
    the shard answers with the recorded participant of the same transfer and
    role and moves nothing; a confirmation or a cancellation is answered with
    the very same receipt. *)
Theorem action_once (digest : string → Z) index count opening epoch leader s0 ops body kind role ep ld s1 p ops' ep' ld' s2 q :
  dict_ok opening → new_shard digest index count opening epoch leader = Ok s0 →
  action digest (shard_run digest s0 ops) body kind role ep ld = Ok (s1, p) →
  action digest (shard_run digest s1 ops') body kind role ep' ld' = Ok (s2, q) →
  s2 = shard_run digest s1 ops' ∧ p_intent q = p_intent p ∧ p_role q = p_role p ∧
  (kind = Confirm ∨ kind = Cancel → q = p).
Proof.
  intros Hok Hnew H1 H2. destruct (new_shard_ok digest _ _ _ _ _ _ Hok Hnew) as (Hs0 & _).
  pose proof (shard_run_ok digest _ s0 ops Hs0) as Hr.
  destruct (answered digest _ _ _ _ _ _ _ _ _ Hr H1) as (Hs1 & Hp & Hc1 & Hc2).
  destruct (run_keeps digest _ s1 ops' _ p Hs1 Hp) as (p' & Hp' & Hk1 & Hk2 & Hk3).
  pose proof (shard_run_ok digest _ s1 ops' Hs1) as Hr2.
  destruct (action_cases digest _ _ _ _ _ _ _ _ _ Hr2 H2) as [_ [(_ & -> & Hq)|(Hresp & _)]].
  - rewrite Hp' in Hq. injection Hq as ->. split; [done|]. split; [done|]. split; [done|]. intros Hk. apply Hk3. naive_solver.
  - exfalso. rewrite Hp' in Hresp. simpl in Hresp. destruct kind; simpl in Hresp; try done.
    + rewrite Hk3, Hc1 in Hresp by auto. done.
    + rewrite Hk3, Hc2 in Hresp by auto. done.
Qed.

Lemma action_once_witness :
  ∃ s0 s1 p, new_shard demo_digest 0 2 demo_opening 1 "lead" = Ok s0 ∧
    action demo_digest (shard_run demo_digest s0 [Do demo_transfer Prepare SOURCE 1 "lead"]) demo_transfer Confirm SOURCE 1 "lead"
      = Ok (s1, p) ∧
    ∃ s2 q, action demo_digest (shard_run demo_digest s1 [Refence 2 "new"]) demo_transfer Confirm SOURCE 2 "new" = Ok (s2, q) ∧
      s2 = shard_run demo_digest s1 [Refence 2 "new"] ∧ q = p.
Proof.
  destruct (new_shard demo_digest 0 2 demo_opening 1 "lead") as [s0|] eqn:E0; [|vm_compute in E0; discriminate].
  destruct (action demo_digest (shard_run demo_digest s0 [Do demo_transfer Prepare SOURCE 1 "lead"]) demo_transfer
    Confirm SOURCE 1 "lead") as [[s1 p]|] eqn:E1; [|vm_compute in E0; injection E0 as <-; vm_compute in E1; discriminate].
  exists s0, s1, p. split; [done|]. split; [done|].
  destruct (action demo_digest (shard_run demo_digest s1 [Refence 2 "new"]) demo_transfer Confirm SOURCE 2 "new")
    as [[s2 q]|] eqn:E2.
  - exists s2, q. split; [done|].
    destruct (action_once demo_digest 0 2 demo_opening 1 "lead" s0 [Do demo_transfer Prepare SOURCE 1 "lead"] demo_transfer
      Confirm SOURCE 1 "lead" s1 p [Refence 2 "new"] 2 "new" s2 q ltac:(by apply (bool_decide_unpack _)) E0 E1 E2)
      as (H1 & _ & _ & H2). split; [exact H1|]. apply H2. by left.
  - vm_compute in E0. injection E0 as <-. vm_compute in E1. injection E1 as <- <-. vm_compute in E2. discriminate.
Defined.
