(* ===== verification/Transfers.v ===== *)
(** * The coordinator of the digital wallet

    Models src/digital-wallet-system/src/digital_wallet/coordinator.py and
    coordinator_projection.py over the shards of Wallet.v: transfers between
    accounts by try, confirm and cancel, with a journal of decisions.

    The coordinator serialises its work under one lock, so an operation runs
    without interruption; what may go wrong meanwhile is given by an oracle of
    faults, one per call that leaves the process.  A call to a shard is served,
    or lost before it arrives, or served with its reply lost, or delayed: then it
    stays in the network, from where it may be served at any later time and any
    number of times, or it is refused outright.  An append to the journal is
    committed, or not written, or written without a quorum: such a row is
    committed by a later synchronisation.

    [step] is the worker as it is written, with its round robin over the pending
    transfers and the table of retries: a transfer whose attempts fail waits ever
    longer, and after five failures it is dead until it is retried by hand.  The
    safety theorems are proved for more: moves in which the worker attempts any
    pending transfer at any time ([Work]). *)
From S2P Require Import Prelude PyList PyDict Checks Effects Wallet.
Local Open Scope Z_scope.

(** ** The projection of the journal *)

Inductive Verdict := COMMIT | CANCEL.
Inductive TransferStatus := PENDING | SUCCEEDED | ABANDONED | DECLINED.
#[export] Instance verdict_eq_dec : EqDecision Verdict.
Proof. solve_decision. Defined.
#[export] Instance transfer_status_eq_dec : EqDecision TransferStatus.
Proof. solve_decision. Defined.

Record Transfer := mk_transfer {
  v_intent : Intent;
  v_decision : option Verdict;
  v_status : TransferStatus;
}.

Inductive Entry :=
| Accepted (id : string) (body : Intent)
| Decided (id : string) (d : Verdict)
| Completed (id : string) (status : TransferStatus).

Definition entry_id (e : Entry) : string :=
  match e with Accepted id _ | Decided id _ | Completed id _ => id end.

(** One row of [project]. *)
Definition project_entry (state : dict string Transfer) (e : Entry) : result (dict string Transfer) :=
  raise_if (negb (identifier (entry_id e))) ValueError (
  match e with
  | Accepted id body =>
      let* b := intent body in
      raise_if (negb (bool_decide (transaction_id b = id))) ValueError (
      raise_if (dmem id state) ValueError (
      Ok (dset id (mk_transfer b None PENDING) state)))
  | Decided id d =>
      match dget id state with
      | None => Raise ValueError
      | Some v =>
          raise_if (negb (bool_decide (v_status v = PENDING))) ValueError (
          raise_if (bool_decide (is_Some (v_decision v))) ValueError (
          Ok (dset id (mk_transfer (v_intent v) (Some d) (v_status v)) state)))
      end
  | Completed id status =>
      match dget id state with
      | None => Raise ValueError
      | Some v =>
          raise_if ((bool_decide (v_decision v = Some COMMIT) && negb (bool_decide (status = SUCCEEDED)))
                    || (bool_decide (v_decision v = Some CANCEL) && negb (bool_decide (status = ABANDONED)))
                    || (bool_decide (v_decision v = None) && bool_decide (status = ABANDONED))) ValueError (
          raise_if (negb (bool_decide (v_status v = PENDING)) || bool_decide (status = PENDING)) ValueError (
          Ok (dset id (mk_transfer (v_intent v) (v_decision v) status) state)))
      end
  end).

Fixpoint project (rows : list Entry) (initial : dict string Transfer) : result (dict string Transfer) :=
  match rows with
  | [] => Ok initial
  | row :: rows' => let* state := project_entry initial row in project rows' state
  end.

(** ** The world the coordinator acts on *)

Inductive Fault := Fine | Down | Lost | Late | Refused.

Record Message := mk_message {
  m_index : Z;
  m_body : Intent;
  m_kind : Kind;
  m_role : Role;
}.

Record World := mk_world {
  journal : list Entry;
  pending : list Entry;
  shards : list Shard;
  network : list Message;
  oracle : list Fault;
}.

Local Notation M := (Effects.M World).

(** The fate of the next call. *)
Definition next_fault : M Fault := λ w,
  (mk_world (journal w) (pending w) (shards w) (network w) (tail (oracle w)), Ok (default Fine (head (oracle w)))).

Definition set_journal (w : World) (committed rest : list Entry) : World :=
  mk_world committed rest (shards w) (network w) (oracle w).
Definition set_shard (w : World) (i : nat) (s : Shard) : World :=
  mk_world (journal w) (pending w) (<[i := s]> (shards w)) (network w) (oracle w).
Definition add_message (w : World) (m : Message) : World :=
  mk_world (journal w) (pending w) (shards w) (network w ++ [m]) (oracle w).

(** A row of the table of retries, with times in microseconds; its error text is
    left out. *)
Record Retry := mk_retry {
  failures : Z;
  due : Z;
  dead : bool;
}.

(** The coordinator: what it acts on, its table of retries, and the transfer its
    worker attempted last. *)
Record Coordinator := mk_coordinator {
  world : World;
  retries : dict string Retry;
  cursor : option string;
}.

Definition unavailable : exn := StatusError 503.

(** The status a shard's HTTP adapter gives to what its handler raised. *)
Definition as_status (e : exn) : exn :=
  match e with StatusError n => StatusError n | _ => StatusError 400 end.

(** *** The journal *)

Definition sync : M unit :=
  do* f := next_fault in
  match f with
  | Fine => λ w, (set_journal w (journal w ++ pending w) [], Ok tt)
  | _ => mraise unavailable
  end.

Definition append_entry (e : Entry) : M unit :=
  do* _ := sync in
  do* f := next_fault in
  match f with
  | Fine => λ w, (set_journal w (journal w ++ [e]) [], Ok tt)
  | Down => mraise unavailable
  | _ => λ w, (set_journal w (journal w) [e], Raise unavailable)
  end.

Definition committed : M (dict string Transfer) := λ w, (w, project (journal w) []).

Record Config := mk_config {
  c_accounts : dict string (string * Z);
  c_count : Z;
  c_epoch : Z;
  c_leader : string;
}.

Section coordinator.
Context (digest : string → Z) (cfg : Config).

(** [indices(body)], as positions in the list of shards. *)
Definition home (account : string) : Z := digest account mod c_count cfg.
Definition source_index (b : Intent) : Z := home (from_account b).
Definition destination_index (b : Intent) : Z := home (to_account b).

(** *** Calls to a shard *)

Definition serve (m : Message) (w : World) : World * result Part :=
  match shards w !! Z.to_nat (m_index m) with
  | None => (w, Raise unavailable)
  | Some s =>
      match action digest s (m_body m) (m_kind m) (m_role m) (c_epoch cfg) (c_leader cfg) with
      | Ok (s', p) => (set_shard w (Z.to_nat (m_index m)) s', Ok p)
      | Raise e => (w, Raise (as_status e))
      end
  end.

Definition send (m : Message) : M Part :=
  do* f := next_fault in
  match f with
  | Fine => serve m
  | Down => mraise unavailable
  | Lost => λ w, ((serve m w).1, Raise unavailable)
  | Late => λ w, (add_message w m, Raise unavailable)
  | Refused => mraise (StatusError 422)
  end.

Definition check_part (value : option Part) (body : Intent) (role : Role) : M (option Part) :=
  match participant value body role with
  | Ok p => mret p
  | Raise _ => mraise (StatusError 502)
  end.

Definition act (index : Z) (body : Intent) (kind : Kind) (role : Role) : M (option Part) :=
  do* p := send (mk_message index body kind role) in check_part (Some p) body role.

Definition read_part (index : Z) (body : Intent) (role : Role) : M (option Part) :=
  do* f := next_fault in
  match f with
  | Fine =>
      do* p := (λ w, match shards w !! Z.to_nat index with
                     | None => (w, Raise unavailable)
                     | Some s => (w, match read_participant s (transaction_id body) with
                                     | Ok p => Ok p | Raise e => Raise (as_status e) end)
                     end) in
      check_part p body role
  | _ => mraise unavailable
  end.

(** *** The operations *)

Definition status_is (o : option Part) (s : PartStatus) : bool :=
  match o with Some p => bool_decide (p_status p = s) | None => false end.

Definition advance (id : string) (value : Transfer) : M unit :=
  let body := v_intent value in
  let source := source_index body in
  let destination := destination_index body in
  do* left_part := read_part source body (if source =? destination then LOCAL else SOURCE) in
  if source =? destination then
    do* part := match left_part with Some _ => mret left_part | None => act source body Local LOCAL end in
    append_entry (Completed id (if status_is part CONFIRMED then SUCCEEDED else DECLINED))
  else
    do* right_part := read_part destination body DESTINATION in
    match v_decision value with
    | None =>
        if status_is left_part REJECTED || status_is left_part CANCELED || status_is right_part REJECTED || status_is right_part CANCELED
        then append_entry (Decided id CANCEL)
        else if bool_decide (left_part = None) then do* _ := act source body Prepare SOURCE in mret tt
        else if bool_decide (right_part = None) then do* _ := act destination body Prepare DESTINATION in mret tt
        else if status_is left_part PREPARED && status_is right_part PREPARED then append_entry (Decided id COMMIT)
        else mraise (StatusError 502)
    | Some COMMIT =>
        if negb (status_is left_part CONFIRMED) then do* _ := act source body Confirm SOURCE in mret tt
        else if negb (status_is right_part CONFIRMED) then do* _ := act destination body Confirm DESTINATION in mret tt
        else append_entry (Completed id SUCCEEDED)
    | Some CANCEL =>
        if negb (status_is left_part CANCELED) then do* _ := act source body Cancel SOURCE in mret tt
        else if negb (status_is right_part CANCELED) then do* _ := act destination body Cancel DESTINATION in mret tt
        else append_entry (Completed id ABANDONED)
    end.

(** The statuses by which a participant refuses for good. *)
Definition definitive (e : exn) : bool :=
  match e with StatusError n => (n =? 400) || (n =? 404) || (n =? 422) | _ => false end.

(** How an attempt on a transfer ends: it advanced, it was refused for good and is
    to be canceled, or it failed otherwise. *)
Inductive Attempt := Advanced | Canceling | Broke (e : exn).

Definition attempt (id : string) (value : Transfer) : M Attempt := λ w,
  match advance id value w with
  | (w', Ok _) => (w', Ok Advanced)
  | (w', Raise e) =>
      if definitive e && bool_decide (v_decision value = None)
         && negb (source_index (v_intent value) =? destination_index (v_intent value))
      then (do* _ := append_entry (Decided id CANCEL) in mret Canceling) w' else (w', Ok (Broke e))
  end.

(** An attempt on any pending transfer, without regard to the table of retries. *)
Definition work (id : string) : M unit :=
  do* _ := sync in
  do* commands := committed in
  match dget id commands with
  | None => mret tt
  | Some value =>
      if negb (bool_decide (v_status value = PENDING)) then mret tt
      else do* _ := attempt id value in mret tt
  end.

Definition create (body : Intent) (owner : string) : M Transfer :=
  do* b := mlift (intent body) in
  match dget (from_account b) (c_accounts cfg) with
  | None => mraise (StatusError 403)
  | Some (o, _) =>
      if negb (bool_decide (o = owner)) then mraise (StatusError 403)
      else if negb (dmem (to_account b) (c_accounts cfg)) then mraise (StatusError 404)
      else
        do* _ := sync in
        do* commands := committed in
        match dget (transaction_id b) commands with
        | Some old => if negb (bool_decide (v_intent old = b)) then mraise (StatusError 409) else mret old
        | None =>
            if (1000 <=? length commands)%nat then mraise (StatusError 429)
            else
              do* _ := append_entry (Accepted (transaction_id b) b) in
              do* commands := committed in
              mlift (dlookup (transaction_id b) commands)
        end
  end.

Definition cancel (id : string) : M unit :=
  do* _ := sync in
  do* commands := committed in
  match dget id commands with
  | None => mraise (StatusError 404)
  | Some value =>
      if negb (bool_decide (v_status value = PENDING)) || bool_decide (v_decision value = Some COMMIT)
         || (source_index (v_intent value) =? destination_index (v_intent value))
      then mraise (StatusError 409)
      else match v_decision value with
           | None => append_entry (Decided id CANCEL)
           | Some _ => mret tt
           end
  end.

(** *** The worker and the table of retries *)

Definition on_world {A} (m : M A) : Effects.M Coordinator A := λ c,
  let (w, r) := m (world c) in (mk_coordinator w (retries c) (cursor c), r).
Definition observe {A} (f : Coordinator → A) : Effects.M Coordinator A := λ c, (c, Ok (f c)).
Definition set_cursor (id : string) : Effects.M Coordinator unit := λ c,
  (mk_coordinator (world c) (retries c) (Some id), Ok tt).
Definition change_retries (f : dict string Retry → dict string Retry) : Effects.M Coordinator unit := λ c,
  (mk_coordinator (world c) (f (retries c)) (cursor c), Ok tt).

Definition no_retry : Retry := mk_retry 0 0 false.
Definition blocked (retry : dict string Retry) (now : Z) (id : string) : bool :=
  let row := dget_or no_retry id retry in dead row || (now <? due row).

(** [min(10, 0.1 * 2 ** min(failures, 10))] seconds. *)
Definition back_off (failures : Z) : Z := Z.min 10000000 (100000 * 2 ^ Z.min failures 10).

(** The commands from the one behind the cursor on, around to the cursor. *)
Definition rotate (last : option string) (commands : dict string Transfer) : list (string * Transfer) :=
  let offset := match last with
                | Some id => match list_find (id =.) (dkeys commands) with Some (i, _) => S i | None => O end
                | None => O
                end in
  drop offset commands ++ take offset commands.

Inductive Outcome := Idle | Progress (id : string) | Failed (id : string) (is_dead : bool).

Definition step (now : Z) : Effects.M Coordinator Outcome :=
  do* state := on_world committed in
  do* has_pending := observe (λ c, negb (bool_decide (pending (world c) = []))) in
  if negb has_pending && negb (existsb (λ v, bool_decide (v_status v = PENDING)) (dvalues state)) then mret Idle
  else
    do* _ := on_world sync in
    if now <? 0 then mraise ValueError
    else
      do* retry := observe retries in
      do* commands := on_world committed in
      do* last := observe cursor in
      match filter (λ x, v_status x.2 = PENDING ∧ blocked retry now x.1 = false) (rotate last commands) with
      | [] => mret Idle
      | (id, value) :: _ =>
          do* _ := set_cursor id in
          do* end_ := on_world (attempt id value) in
          match end_ with
          | Advanced => do* _ := change_retries (ddel id) in mret (Progress id)
          | Canceling => mret (Progress id)
          | Broke e =>
              let n := failures (dget_or no_retry id retry) + 1 in
              do* _ := change_retries (dset id (mk_retry n (now + back_off n) (5 <=? n))) in
              mret (Failed id (5 <=? n))
          end
      end.

(** The administrator's retry of a transfer. *)
Definition retry (id : string) : Effects.M Coordinator unit :=
  do* commands := on_world committed in
  if dmem id commands then change_retries (ddel id) else mraise (StatusError 404).

Definition cancel_request (id : string) : Effects.M Coordinator unit :=
  do* _ := on_world (cancel id) in retry id.

(** What happens to a coordinator. *)
Inductive event :=
| Submit (body : Intent) (owner : string)
| Step (now : Z)
| Withdraw (id : string)
| Revive (id : string)
| Arrive (n : nat)
| Restart.

Definition with_faults (w : World) (faults : list Fault) : World :=
  mk_world (journal w) (pending w) (shards w) (network w) faults.

Definition handle (c : Coordinator) (faults_event : list Fault * event) : Coordinator :=
  let c := mk_coordinator (with_faults (world c) faults_event.1) (retries c) (cursor c) in
  match faults_event.2 with
  | Submit body owner => (on_world (create body owner) c).1
  | Step now => (step now c).1
  | Withdraw id => (cancel_request id c).1
  | Revive id => (retry id c).1
  | Arrive n => match network (world c) !! n with Some m => (on_world (serve m) c).1 | None => c end
  | Restart => mk_coordinator (world c) (retries c) None
  end.
Definition run_events (c : Coordinator) (events : list (list Fault * event)) : Coordinator := foldl handle c events.

(** What may happen to the world: a request, an attempt of the worker on a transfer,
    or the delivery of a delayed message. *)
Inductive move :=
| Create (body : Intent) (owner : string)
| Work (id : string)
| CancelRequest (id : string)
| Deliver (n : nat).

Definition make_move (w : World) (faults_move : list Fault * move) : World :=
  let w := mk_world (journal w) (pending w) (shards w) (network w) faults_move.1 in
  match faults_move.2 with
  | Create body owner => (create body owner w).1
  | Work id => (work id w).1
  | CancelRequest id => (cancel id w).1
  | Deliver n => match network w !! n with Some m => (serve m w).1 | None => w end
  end.

Definition opening_of : dict string Z := map (λ p, (p.1, p.2.2)) (c_accounts cfg).

(** The shards as they start, and the empty journal. *)
Definition start : result World :=
  let* ss := mapR (λ i, new_shard digest i (c_count cfg) opening_of (c_epoch cfg) (c_leader cfg))
               (seqZ 0 (c_count cfg)) in
  Ok (mk_world [] [] ss [] []).

Definition run_moves (w : World) (moves : list (list Fault * move)) : World := foldl make_move w moves.
End coordinator.

(** ** The states of a transfer *)

Definition undecided (o : option PartStatus) : bool :=
  match o with None | Some PREPARED | Some REJECTED => true | _ => false end.

(** The statuses of the participants a transfer may have, by its decision and
    status: the reference state machine of try, confirm and cancel. *)
Definition cross_ok (d : option Verdict) (st : TransferStatus) (l r : option PartStatus) : bool :=
  match d, st with
  | None, PENDING => undecided l && undecided r
  | Some COMMIT, PENDING =>
      match l, r with
      | Some PREPARED, Some PREPARED | Some CONFIRMED, Some PREPARED | Some CONFIRMED, Some CONFIRMED => true
      | _, _ => false
      end
  | Some COMMIT, SUCCEEDED => match l, r with Some CONFIRMED, Some CONFIRMED => true | _, _ => false end
  | Some CANCEL, PENDING =>
      match l, r with Some CONFIRMED, _ | _, Some CONFIRMED => false | _, _ => true end
  | Some CANCEL, ABANDONED => match l, r with Some CANCELED, Some CANCELED => true | _, _ => false end
  | _, _ => false
  end.
Definition local_ok (d : option Verdict) (st : TransferStatus) (o : option PartStatus) : bool :=
  match d, st, o with
  | None, PENDING, (None | Some CONFIRMED | Some REJECTED) => true
  | None, SUCCEEDED, Some CONFIRMED => true
  | None, DECLINED, Some REJECTED => true
  | _, _, _ => false
  end.

(** What a call that was executed leaves, given the decision it was made under. *)
Definition leaves (k : Kind) (d : option Verdict) (s : PartStatus) : bool :=
  match k, d, s with
  | Local, _, (CONFIRMED | REJECTED) => true
  | Prepare, _, (PREPARED | REJECTED) => true
  | Confirm, Some COMMIT, CONFIRMED => true
  | Cancel, Some CANCEL, CANCELED => true
  | _, _, _ => false
  end.

Lemma local_step d st o s' :
  local_ok d st o = true → respond Local o = Execute → leaves Local d s' = true → local_ok d st (Some s') = true.
Proof. destruct o as [[]|]; try done. by destruct d, st, s'. Qed.

Lemma source_step k d st l r s' :
  cross_ok d st l r = true → k ≠ Local → respond k l = Execute → leaves k d s' = true → cross_ok d st (Some s') r = true.
Proof.
  destruct k; [done|..]; intros H _; destruct l as [[]|]; intros Hr; try discriminate Hr; clear Hr;
    destruct d as [[]|], st; try discriminate H; destruct r as [[]|]; try discriminate H; by destruct s'.
Qed.

Lemma destination_step k d st l r s' :
  cross_ok d st l r = true → k ≠ Local → respond k r = Execute → leaves k d s' = true →
  (k = Confirm → l = Some CONFIRMED) → cross_ok d st l (Some s') = true.
Proof.
  destruct k; [done|..]; intros H _; destruct r as [[]|]; intros Hr; try discriminate Hr; clear Hr;
    destruct d as [[]|], st; try discriminate H; destruct l as [[]|]; try discriminate H;
    destruct s'; intros Hl Hc; try discriminate Hl; try reflexivity; discriminate (Hc eq_refl).
Qed.
