(* ===== verification/TransferInv.v ===== *)
(** * The invariant of the digital wallet's coordinator

    Every operation of Transfers.v, under every fault, keeps the statuses of the
    participants of each transfer within its reference state machine. *)
From S2P Require Import Prelude PyList PyDict Checks Effects Wallet Transfers.
Local Open Scope Z_scope.

Section invariant.
Context (digest : string → Z) (cfg : Config).
Local Notation source_index := (source_index digest cfg).
Local Notation destination_index := (destination_index digest cfg).

Definition part_at (w : World) (i : Z) (id : string) : option Part :=
  match shards w !! Z.to_nat i with Some s => part_of s id | None => None end.
Definition status_at (w : World) (i : Z) (id : string) : option PartStatus := p_status <$> part_at w i id.

Definition is_local (b : Intent) : bool := source_index b =? destination_index b.

Definition transfer_ok (w : World) (id : string) (v : Transfer) : Prop :=
  transaction_id (v_intent v) = id ∧ intent (v_intent v) = Ok (v_intent v) ∧
  (if is_local (v_intent v)
   then local_ok (v_decision v) (v_status v) (status_at w (source_index (v_intent v)) id)
   else cross_ok (v_decision v) (v_status v) (status_at w (source_index (v_intent v)) id)
          (status_at w (destination_index (v_intent v)) id)) = true.

(** The shard and the role of a participant. *)
Definition placed (b : Intent) (i : Z) (role : Role) : Prop :=
  match role with
  | LOCAL => i = source_index b ∧ is_local b = true
  | SOURCE => i = source_index b ∧ is_local b = false
  | DESTINATION => i = destination_index b ∧ is_local b = false
  end.

(** A call the coordinator may have made. *)
Record permitted (C : dict string Transfer) (w : World) (m : Message) (v : Transfer) : Prop := {
  pm_command : dget (transaction_id (m_body m)) C = Some v;
  pm_intent : v_intent v = m_body m;
  pm_placed : placed (m_body m) (m_index m) (m_role m);
  pm_kind : m_kind m = Local ↔ m_role m = LOCAL;
  pm_confirm : m_kind m = Confirm → v_decision v = Some COMMIT;
  pm_order : m_kind m = Confirm → m_role m = DESTINATION →
    status_at w (source_index (m_body m)) (transaction_id (m_body m)) = Some CONFIRMED;
  pm_cancel : m_kind m = Cancel → v_decision v = Some CANCEL;
}.

Record shard_at_ok (i : Z) (s : Shard) : Prop := {
  sa_ok : shard_ok digest (accounts_of digest i (c_count cfg) (opening_of cfg)) s;
  sa_index : s_index s = i;
  sa_count : s_count s = c_count cfg;
  sa_fence : check_fence s (c_epoch cfg) (c_leader cfg) = Ok tt;
}.
Definition shards_ok (w : World) : Prop :=
  length (shards w) = Z.to_nat (c_count cfg) ∧
  ∀ i s, 0 <= i < c_count cfg → shards w !! Z.to_nat i = Some s → shard_at_ok i s.

(** The invariant: [C] is what the journal, its last row included, accounts for. *)
Record winv (C : dict string Transfer) (w : World) : Prop := {
  wi_project : project (journal w ++ pending w) [] = Ok C;
  wi_dict : dict_ok C;
  wi_shards : shards_ok w;
  wi_transfers : ∀ id v, dget id C = Some v → transfer_ok w id v;
  wi_parts : ∀ i id p, 0 <= i < c_count cfg → part_at w i id = Some p →
    ∃ v, dget id C = Some v ∧ p_intent p = v_intent v ∧ placed (v_intent v) i (p_role p);
  wi_network : ∀ m, m ∈ network w → ∃ v, permitted C w m v;
}.

Context (Hcount : 1 <= c_count cfg).

Lemma home_range a : 0 <= home digest cfg a < c_count cfg.
Proof. unfold home. apply Z.mod_pos_bound. lia. Qed.

Lemma source_range b : 0 <= source_index b < c_count cfg.
Proof. apply home_range. Qed.
Lemma destination_range b : 0 <= destination_index b < c_count cfg.
Proof. apply home_range. Qed.

Lemma is_local_false b : is_local b = false → source_index b ≠ destination_index b.
Proof. intros H. by apply Z.eqb_neq in H. Qed.

Lemma placed_range b i role : placed b i role → 0 <= i < c_count cfg.
Proof. destruct role; intros [-> _]; apply home_range. Qed.

Lemma placed_role b i r r' : placed b i r → placed b i r' → r = r'.
Proof.
  destruct r, r'; simpl; try done; intros [-> H1] [H2 H3]; unfold is_local in *; try congruence;
    apply Z.eqb_neq in H1; congruence.
Qed.

Lemma shard_there C w i : winv C w → 0 <= i < c_count cfg → ∃ s, shards w !! Z.to_nat i = Some s ∧ shard_at_ok i s.
Proof.
  intros [_ _ [Hl Hs] _ _ _] Hi. destruct (lookup_lt_is_Some_2 (shards w) (Z.to_nat i)) as [s E]; [lia|].
  exists s. split; [done|]. by apply Hs.
Qed.

(** What happened to the participants: none is lost, none changes its transfer,
    a final one stays. *)
Definition parts_kept (w w' : World) : Prop :=
  ∀ i id p, part_at w i id = Some p → ∃ q, part_at w' i id = Some q ∧ keeps p q.

Lemma parts_kept_same w w' : shards w' = shards w → parts_kept w w'.
Proof. intros E i id p Hp. exists p. unfold part_at in *. by rewrite E. Qed.

Lemma status_kept w w' i id :
  parts_kept w w' → status_at w i id = Some CONFIRMED → status_at w' i id = Some CONFIRMED.
Proof.
  intros Hk. unfold status_at. destruct (part_at w i id) as [p|] eqn:Hp; [|done].
  destruct (Hk _ _ _ Hp) as (q & -> & _ & _ & Hq). simpl. intros [= Hs]. rewrite Hq by auto. by rewrite Hs.
Qed.

(** What happened to the transfers: none is lost, a decision stays, and so does
    everything of a transfer that has ended. *)
Definition commands_kept (C C' : dict string Transfer) : Prop :=
  ∀ id v, dget id C = Some v → ∃ v', dget id C' = Some v' ∧ v_intent v' = v_intent v ∧
    (v_decision v ≠ None → v_decision v' = v_decision v) ∧ (v_status v ≠ PENDING → v' = v).

Lemma commands_kept_refl C : commands_kept C C.
Proof. intros id v Hv. by exists v. Qed.

Lemma commands_kept_trans C1 C2 C3 : commands_kept C1 C2 → commands_kept C2 C3 → commands_kept C1 C3.
Proof.
  intros A2 B2 id v Hv. destruct (A2 id v Hv) as (v1 & V1 & V2 & V3 & V3').
  destruct (B2 id v1 V1) as (v2 & V4 & V5 & V6 & V6'). exists v2. split; [done|]. split; [congruence|].
  split; [intros Hd; rewrite V6; rewrite V3; done|]. intros Hs. pose proof (V3' Hs) as ->. by apply V6'.
Qed.

Lemma permitted_kept C C' w w' m v :
  commands_kept C C' → parts_kept w w' → permitted C w m v → ∃ v', permitted C' w' m v'.
Proof.
  intros HC Hk [P1 P2 P3 P4 P5 P6 P7]. destruct (HC _ _ P1) as (v' & V1 & V2 & V3 & _). exists v'.
  split; [done|congruence|done|done| | |].
  - intros Hc. by rewrite V3, P5 by (rewrite ?P5 by done; done).
  - intros Hc Hr. by eapply status_kept, P6.
  - intros Hc. by rewrite V3, P7 by (rewrite ?P7 by done; done).
Qed.

(** ** A call served by its shard *)

Lemma part_at_set w n s j id :
  (n < length (shards w))%nat →
  part_at (set_shard w n s) j id = if decide (Z.to_nat j = n) then part_of s id else part_at w j id.
Proof.
  intros Hn. unfold part_at, set_shard. simpl. destruct (decide (Z.to_nat j = n)) as [->|Hne].
  - by rewrite list_lookup_insert_eq.
  - by rewrite list_lookup_insert_ne.
Qed.

Lemma leaves_next C w m v accs :
  permitted C w m v → leaves (m_kind m) (v_decision v) (next_status (m_kind m) (m_role m) (m_body m) accs) = true.
Proof.
  intros [_ _ _ _ P5 _ P7]. destruct (m_kind m); simpl.
  - by destruct (_ && _).
  - destruct (m_role m); [by destruct (covers _ _ _)|by destruct (dmem _ _)..].
  - by rewrite P5.
  - by rewrite P7.
Qed.

Section executed.
Context (C : dict string Transfer) (w : World) (m : Message) (v : Transfer) (s s' : Shard) (p : Part).
Context (Hinv : winv C w) (Hperm : permitted C w m v) (Hs : shards w !! Z.to_nat (m_index m) = Some s).
Context (Hresp : respond (m_kind m) (status_at w (m_index m) (transaction_id (m_body m))) = Execute).
Context (Hext : extended digest (accounts_of digest (m_index m) (c_count cfg) (opening_of cfg)) s s' (m_body m) (m_kind m)
  (m_role m) p).
Local Notation w' := (set_shard w (Z.to_nat (m_index m)) s').
Local Notation id := (transaction_id (m_body m)).

Lemma executed_range : 0 <= m_index m < c_count cfg ∧ (Z.to_nat (m_index m) < length (shards w))%nat.
Proof. split; [by eapply placed_range, pm_placed|]. by eapply lookup_lt_Some. Qed.

Lemma executed_part j id' :
  0 <= j < c_count cfg →
  part_at w' j id' = if decide (j = m_index m ∧ id' = id) then Some p else part_at w j id'.
Proof.
  intros Hj. destruct executed_range as [Hr Hl]. rewrite part_at_set by done.
  destruct Hext as (_ & _ & _ & _ & Hparts & _). destruct (decide (Z.to_nat j = Z.to_nat (m_index m))) as [E|E].
  - assert (j = m_index m) as -> by lia. unfold part_of. rewrite Hparts, dget_dset.
    unfold part_at. rewrite Hs. destruct (decide (id' = id)) as [->|Hne].
    + by rewrite !decide_True.
    + rewrite !decide_False by naive_solver. done.
  - rewrite decide_False; [done|]. intros [-> _]. done.
Qed.

Lemma executed_status j id' :
  0 <= j < c_count cfg →
  status_at w' j id' = if decide (j = m_index m ∧ id' = id) then Some (p_status p) else status_at w j id'.
Proof. intros Hj. unfold status_at. rewrite executed_part by done. by destruct (decide _). Qed.

Lemma executed_transfer : transfer_ok w' id v.
Proof.
  pose proof Hperm as [P1 P2 P3 P4 P5 P6 P7]. destruct (wi_transfers _ _ Hinv id v P1) as (T1 & T2 & T3).
  split; [done|]. split; [done|]. rewrite P2 in *.
  pose proof Hext as (_ & _ & _ & _ & _ & Hp). assert (leaves (m_kind m) (v_decision v) (p_status p) = true) as Hl
    by (rewrite Hp; eapply leaves_next; exact Hperm).
  destruct (executed_range) as [Hr _].
  pose proof (source_range (m_body m)) as Hr1. pose proof (destination_range (m_body m)) as Hr2.
  rewrite !executed_status by done.
  destruct (m_role m); simpl in P3; destruct P3 as [Hi Hloc]; rewrite Hloc in *; rewrite Hi in Hresp.
  - rewrite decide_True by done. rewrite decide_False.
    2:{ intros [E _]. apply is_local_false in Hloc. congruence. }
    eapply source_step; try done. naive_solver.
  - rewrite decide_False. 2:{ intros [E _]. apply is_local_false in Hloc. congruence. }
    rewrite decide_True by done. eapply destination_step; try done; naive_solver.
  - rewrite decide_True by done. rewrite (proj2 P4 eq_refl) in *. by eapply local_step.
Qed.

Lemma executed_kept : parts_kept w w'.
Proof.
  intros j id' q Hq. destruct executed_range as [Hr Hl]. rewrite part_at_set by done.
  destruct (decide _) as [E|E]; [|by exists q].
  destruct (shard_there C w _ Hinv Hr) as (s1 & Hs1 & [A1 A2 A3 A4]). assert (s1 = s) as -> by congruence.
  unfold part_at in Hq. rewrite E, Hs in Hq. destruct Hext as (_ & _ & _ & _ & Hparts & Hp). unfold part_of in *.
  rewrite Hparts, dget_dset. case_decide as Hid; [|by exists q]. subst id'. exists p. split; [done|].
  destruct (wi_parts _ _ Hinv (m_index m) id q Hr) as (v' & V1 & V2 & V3).
  { unfold part_at. by rewrite Hs. }
  pose proof Hperm as [P1 P2 P3 P4 P5 P6 P7]. assert (v' = v) as -> by congruence. rewrite P2 in *.
  rewrite Hp. split; [by rewrite V2|]. split; [by eapply placed_role|].
  unfold status_at, part_at in Hresp. rewrite Hs in Hresp. unfold part_of in Hresp. rewrite Hq in Hresp. simpl in Hresp.
  intros [E'|E']; rewrite E' in Hresp; by destruct (m_kind m).
Qed.

Lemma executed_winv : winv C w'.
Proof.
  destruct executed_range as [Hr Hl]. pose proof Hinv as [W1 W2 [W3 W3'] W4 W5 W6]. pose proof Hext as (X1 & X2 & X3 & X4 & X5 & X6).
  pose proof Hperm as [P1 P2 P3 P4 P5 P6 P7].
  destruct (shard_there C w _ Hinv Hr) as (s1 & Hs1 & [A1 A2 A3 A4]). assert (s1 = s) as -> by congruence.
  split; [done|done|..].
  - split; [simpl; by rewrite length_insert|]. intros i s0 Hi. simpl.
    destruct (decide (i = m_index m)) as [->|Hne].
    + rewrite list_lookup_insert_eq by done. intros [= <-]. split; [done|congruence|congruence|].
      unfold check_fence in *. by rewrite X4.
    + rewrite list_lookup_insert_ne by lia. by apply W3'.
  - intros id' v' Hv'. destruct (decide (id' = id)) as [->|Hne].
    { assert (v' = v) as -> by congruence. by apply executed_transfer. }
    destruct (W4 id' v' Hv') as (T1 & T2 & T3). split; [done|]. split; [done|].
    pose proof (source_range (v_intent v')). pose proof (destination_range (v_intent v')).
    rewrite !executed_status by done. by rewrite !(decide_False (P := _ ∧ id' = _)) by naive_solver.
  - intros i id' q Hi. rewrite executed_part by done. destruct (decide _) as [[-> ->]|_]; [|by apply W5].
    intros [= <-]. exists v. rewrite X6. simpl. by rewrite P2.
  - intros m' Hm'. destruct (W6 m' Hm') as [v' Hv']. eapply permitted_kept; [apply commands_kept_refl|apply executed_kept|done].
Qed.
End executed.

(** What a call may do to the world: the transfers are still those of [C]. *)
Record after (C : dict string Transfer) (w w' : World) : Prop := {
  af_inv : winv C w';
  af_kept : parts_kept w w';
  af_journal : journal w `prefix_of` journal w';
  af_pending : pending w = [] → pending w' = [];
  af_oracle : oracle w = [] → oracle w' = [];
}.

Lemma parts_kept_trans w1 w2 w3 : parts_kept w1 w2 → parts_kept w2 w3 → parts_kept w1 w3.
Proof.
  intros H1 H2 i id p Hp. destruct (H1 _ _ _ Hp) as (q & Hq & K1 & K2 & K3). destruct (H2 _ _ _ Hq) as (r & Hr & K4 & K5 & K6).
  exists r. split; [done|]. split; [congruence|]. split; [congruence|]. intros Ht. rewrite <- (K3 Ht) in Ht |- *. by apply K6.
Qed.

Lemma after_trans C w1 w2 w3 : after C w1 w2 → after C w2 w3 → after C w1 w3.
Proof. intros [A1 A2 A3 A4 A5] [B1 B2 B3 B4 B5]. split; [done|by eapply parts_kept_trans|by etrans|auto|auto]. Qed.

Lemma after_refl C w : winv C w → after C w w.
Proof. intros H. by split; [|apply parts_kept_same|..]. Qed.

(** ** Calls of the coordinator *)

(** A participant of a known transfer never refuses the coordinator. *)
Lemma never_refused C w m v :
  winv C w → permitted C w m v → respond (m_kind m) (status_at w (m_index m) (transaction_id (m_body m))) ≠ Refuse.
Proof.
  intros Hinv [P1 P2 P3 P4 P5 P6 P7]. destruct (wi_transfers _ _ Hinv _ v P1) as (_ & _ & T). rewrite P2 in T.
  destruct (m_role m); simpl in P3; destruct P3 as [Hi Hl]; rewrite Hl in T; rewrite Hi;
    destruct (m_kind m) eqn:Ek;
    try (match goal with |- respond _ ?o ≠ _ => destruct o as [[]|] end; discriminate);
    try discriminate (proj2 P4 eq_refl);
    first [rewrite P5 in T by done|rewrite P7 in T by done];
    destruct (v_status v), (status_at w (source_index (m_body m)) _) as [[]|]; try discriminate T; try discriminate;
    destruct (status_at w (destination_index (m_body m)) _) as [[]|]; try discriminate T; discriminate.
Qed.

Lemma permitted_deliverable C w m v s :
  winv C w → permitted C w m v → shards w !! Z.to_nat (m_index m) = Some s →
  deliverable digest s (m_body m) (m_kind m) (m_role m).
Proof.
  intros Hinv Hp Hs. pose proof (placed_range _ _ _ (pm_placed _ _ _ _ Hp)) as Hr.
  destruct (shard_there C w _ Hinv Hr) as (s1 & Hs1 & [A1 A2 A3 A4]). assert (s1 = s) as -> by congruence.
  destruct Hp as [P1 P2 P3 P4 P5 P6 P7]. destruct (wi_transfers _ _ Hinv _ v P1) as (_ & T & _).
  split; [by rewrite <- P2|done|..].
  - rewrite A2, A3. by destruct (m_role m), P3 as [-> _].
  - intros E. rewrite E, A2, A3 in *. destruct P3 as [-> Hl]. symmetry. by apply Z.eqb_eq in Hl.
  - intros old Ho. destruct (wi_parts _ _ Hinv (m_index m) (transaction_id (m_body m)) old Hr) as (v' & V1 & V2 & V3).
    { unfold part_at. by rewrite Hs. }
    assert (v' = v) as -> by congruence. rewrite P2 in *. split; [done|]. by eapply placed_role.
Qed.

(** A served call is answered with the participant it leaves. *)
Lemma serve_spec C w m v :
  winv C w → permitted C w m v →
  ∃ w' p, serve digest cfg m w = (w', Ok p) ∧ after C w w' ∧
    part_at w' (m_index m) (transaction_id (m_body m)) = Some p ∧
    (m_kind m = Confirm → p_status p = CONFIRMED) ∧ (m_kind m = Cancel → p_status p = CANCELED).
Proof.
  intros Hinv Hp. pose proof (placed_range _ _ _ (pm_placed _ _ _ _ Hp)) as Hr.
  destruct (shard_there C w _ Hinv Hr) as (s & Hs & [A1 A2 A3 A4]). unfold serve. rewrite Hs.
  pose proof (permitted_deliverable C w m v s Hinv Hp Hs) as Hd. pose proof (never_refused C w m v Hinv Hp) as Hn.
  assert (status_at w (m_index m) (transaction_id (m_body m)) = p_status <$> part_of s (transaction_id (m_body m))) as Est
    by (unfold status_at, part_at; by rewrite Hs).
  pose proof (action_ok digest _ s _ _ _ (c_epoch cfg) (c_leader cfg) A1 Hd A4) as Ha. simpl in Ha. rewrite Est in Hn.
  destruct (respond _ (p_status <$> _)) eqn:Hresp; [|done|].
  - destruct Ha as (p & Hpart & Ha). rewrite Ha. eexists _, p. split; [done|].
    assert (set_shard w (Z.to_nat (m_index m)) s = w) as ->.
    { unfold set_shard. rewrite list_insert_id by done. by destruct w. }
    split; [by apply after_refl|]. split; [unfold part_at; by rewrite Hs|].
    apply (answered digest _ _ _ _ _ _ _ _ _ A1 Ha).
  - destruct Ha as (s' & p & Ha & Hx). rewrite Ha. eexists _, p. split; [done|]. rewrite <- Est in Hresp.
    split; [by split; [eapply executed_winv|eapply executed_kept|..]|].
    split; [|apply (answered digest _ _ _ _ _ _ _ _ _ A1 Ha)].
    erewrite executed_part by done. by rewrite decide_True.
Qed.
End invariant.
