(* ===== verification/TransferWork.v ===== *)
(** * The operations of the digital wallet's coordinator

    Postconditions of the coordinator's operations: they keep the invariant under
    every fault, and without faults the worker brings a transfer forward. *)
From S2P Require Import Prelude PyList PyDict Checks Effects Wallet Transfers TransferInv.
Local Open Scope Z_scope.

Local Notation M := (Effects.M World).

(** A call that goes through the oracle: with no faults listed it is fine. *)
Lemma wp_fault {B} (f : Fault → M B) Q E w :
  (∀ fault o, (oracle w = [] → fault = Fine ∧ o = []) →
     wp (f fault) Q E (mk_world (journal w) (pending w) (shards w) (network w) o)) →
  wp (mbind next_fault f) Q E w.
Proof.
  intros H. apply wp_bind. unfold wp at 1, next_fault. apply H. by intros ->.
Qed.

Section operations.
Context (digest : string → Z) (cfg : Config) (Hcount : 1 <= c_count cfg).
Local Notation source_index := (source_index digest cfg).
Local Notation destination_index := (destination_index digest cfg).
Local Notation winv := (winv digest cfg).
Local Notation after := (after digest cfg).
Local Notation permitted := (permitted digest cfg).
Local Notation placed := (placed digest cfg).
Local Notation transfer_ok := (transfer_ok digest cfg).
Local Notation is_local := (is_local digest cfg).

(** The oracle and the queue of rows are no part of what the invariant says. *)
Lemma winv_same C w w' :
  winv C w → journal w' ++ pending w' = journal w ++ pending w → shards w' = shards w → network w' = network w → winv C w'.
Proof.
  intros [W1 W2 W3 W4 W5 W6] Ej Es En.
  assert (∀ i id, part_at w' i id = part_at w i id) as Hp by (intros i id; unfold part_at; by rewrite Es).
  assert (∀ i id, status_at w' i id = status_at w i id) as Hst by (intros i id; unfold status_at; by rewrite Hp).
  split; [by rewrite Ej|done|..].
  - unfold shards_ok in *. by rewrite Es.
  - intros id v Hv. destruct (W4 id v Hv) as (T1 & T2 & T3). split; [done|]. split; [done|]. by rewrite !Hst.
  - intros i id p Hi. rewrite Hp. by apply W5.
  - rewrite En. intros m Hm. destruct (W6 m Hm) as [v [P1 P2 P3 P4 P5 P6 P7]]. exists v. split; try done.
    by rewrite Hst.
Qed.

Lemma after_same C w w' :
  winv C w → journal w' ++ pending w' = journal w ++ pending w → journal w `prefix_of` journal w' → shards w' = shards w →
  network w' = network w → (pending w = [] → pending w' = []) → (oracle w = [] → oracle w' = []) → after C w w'.
Proof. intros. by split; [eapply winv_same|apply parts_kept_same|..]. Qed.

Lemma wp_sync C w :
  winv C w →
  wp sync (λ _ w', after C w w' ∧ pending w' = [] ∧ shards w' = shards w)
    (λ e w', after C w w' ∧ shards w' = shards w ∧ e = unavailable ∧ oracle w ≠ []) w.
Proof.
  intros Hinv. apply wp_fault. intros fault o Ho. destruct fault; simpl.
  1: split; [|done]; apply after_same; [done|by rewrite app_nil_r|by apply prefix_app_r|done..|by apply Ho].
  all: split; [apply after_same; [done..|by apply Ho]|]; split; [done|]; split; [done|];
    intros Hw; by destruct (Ho Hw).
Qed.

(** *** The journal *)

Lemma project_app rows rows' C : project (rows ++ rows') C = (let* C' := project rows C in project rows' C').
Proof. revert C. induction rows as [|e rows IH]; intros C; simpl; [done|]. destruct (project_entry C e); simpl; [apply IH|done]. Qed.

(** A row the projection accepts records a new value of its transfer. *)
Lemma project_entry_cases C e C' :
  project_entry C e = Ok C' →
  ∃ v', C' = dset (entry_id e) v' C ∧
    match dget (entry_id e) C with
    | None => v' = mk_transfer (v_intent v') None PENDING
    | Some v => v_intent v' = v_intent v ∧ (v_decision v ≠ None → v_decision v' = v_decision v) ∧ v_status v = PENDING
    end.
Proof.
  unfold project_entry. intros H. apply raise_if_Ok in H as [_ H]. destruct e as [id body|id d|id st]; simpl.
  - destruct (intent body) as [b|]; [|done]. cbn [rbind] in H. apply raise_if_Ok in H as [_ H].
    apply raise_if_Ok in H as [Hn H]. injection H as <-. eexists. split; [done|].
    apply dmem_false in Hn. by rewrite Hn.
  - destruct (dget id C) as [v|]; [|done]. apply raise_if_Ok in H as [Hs H]. apply raise_if_Ok in H as [Hn H]. injection H as <-.
    apply negb_false_iff, bool_decide_eq_true in Hs. apply bool_decide_eq_false in Hn. eexists. split; [done|].
    split; [done|]. split; [|done]. intros Hd. by destruct (v_decision v); [destruct Hn|].
  - destruct (dget id C) as [v|]; [|done]. apply raise_if_Ok in H as [_ H]. apply raise_if_Ok in H as [Hs H]. injection H as <-.
    apply orb_false_iff in Hs as [Hs%negb_false_iff%bool_decide_eq_true _]. by eexists.
Qed.

Lemma entry_kept C e C' : project_entry C e = Ok C' → commands_kept C C'.
Proof.
  intros (v' & -> & Hc)%project_entry_cases id v Hv. rewrite dget_dset. case_decide as Hid; [|by exists v].
  subst id. rewrite Hv in Hc. destruct Hc as (H1 & H2 & H3). by exists v'.
Qed.

Lemma project_kept rows C C' : project rows C = Ok C' → commands_kept C C'.
Proof.
  revert C. induction rows as [|e rows IH]; intros C; simpl; [intros [= <-]; apply commands_kept_refl|].
  destruct (project_entry C e) as [C1|] eqn:E; [|done]. cbn [rbind]. intros H. eapply commands_kept_trans; [by eapply entry_kept|].
  by apply IH.
Qed.

Lemma winv_entry C w e C' w' :
  winv C w → project_entry C e = Ok C' →
  (∀ v', dget (entry_id e) C' = Some v' → transfer_ok w (entry_id e) v') →
  journal w' ++ pending w' = (journal w ++ pending w) ++ [e] → shards w' = shards w → network w' = network w → winv C' w'.
Proof.
  intros Hinv He Hok Ej Es En. pose proof Hinv as [W1 W2 W3 W4 W5 W6].
  pose proof (entry_kept C e C' He) as Hk. destruct (project_entry_cases C e C' He) as (v' & EC & Hc).
  assert (∀ i id, part_at w' i id = part_at w i id) as Hp by (intros i id; unfold part_at; by rewrite Es).
  assert (∀ i id, status_at w' i id = status_at w i id) as Hst by (intros i id; unfold status_at; by rewrite Hp).
  split.
  - rewrite Ej, project_app, W1. cbn [rbind project]. by rewrite He.
  - rewrite EC. by apply dset_ok.
  - unfold shards_ok in *. by rewrite Es.
  - intros id v Hv. assert (transfer_ok w id v) as (T1 & T2 & T3).
    { destruct (decide (id = entry_id e)) as [->|Hne]; [by apply Hok|].
      apply W4. by rewrite EC, dget_dset_ne in Hv by done. }
    split; [done|]. split; [done|]. by rewrite !Hst.
  - intros i id p Hi. rewrite Hp. intros Hpart. destruct (W5 i id p Hi Hpart) as (v & V1 & V2 & V3).
    destruct (Hk id v V1) as (v2 & V4 & V5 & _). exists v2. by rewrite V5.
  - rewrite En. intros m Hm. destruct (W6 m Hm) as [v Hv].
    eapply permitted_kept; [exact Hk| |exact Hv]. by apply parts_kept_same.
Qed.

(** The world after an append, whether it succeeded or not. *)
Record appended (C' : dict string Transfer) (w w' : World) : Prop := {
  ap_inv : winv C' w';
  ap_shards : shards w' = shards w;
  ap_journal : journal w `prefix_of` journal w';
  ap_oracle : oracle w = [] → oracle w' = [];
}.

Lemma wp_append C w e C' :
  winv C w → project_entry C e = Ok C' →
  (∀ v', dget (entry_id e) C' = Some v' → transfer_ok w (entry_id e) v') →
  wp (append_entry e) (λ _ w', appended C' w w' ∧ pending w' = [])
    (λ x w', x = unavailable ∧ oracle w ≠ [] ∧ (appended C w w' ∨ appended C' w w')) w.
Proof.
  intros Hinv He Hok. apply wp_bind. eapply wp_mono; [by apply (wp_sync C)|..]; cbv beta.
  2:{ intros x w' ([A1 A2 A3 A4 A5] & Hs & -> & Ho). split; [done|]. split; [done|]. left. by split. }
  intros _ w1 ([A1 A2 A3 A4 A5] & Hp1 & Hs1). apply wp_fault. intros fault o Ho.
  assert (∀ v', dget (entry_id e) C' = Some v' → transfer_ok w1 (entry_id e) v') as Hok1.
  { intros v' Hv'. destruct (Hok v' Hv') as (T1 & T2 & T3). split; [done|]. split; [done|].
    unfold status_at, part_at in *. by rewrite Hs1. }
  assert (∀ j p, j ++ p = journal w1 ++ [e] → winv C' (mk_world j p (shards w1) (network w1) o)) as Hnew.
  { intros j p Ej. apply (winv_entry C w1 e); try done. simpl. by rewrite Hp1, app_nil_r. }
  assert (fault ≠ Fine → oracle w ≠ []) as Hne by (intros Hf Hw; apply Hf, Ho, A5, Hw).
  assert (oracle w = [] → o = []) as Ho' by (intros Hw; by apply Ho, A5).
  destruct fault; simpl.
  - split; [|done]. split; [|done| |done]; [apply Hnew; simpl; by rewrite app_nil_r|by apply prefix_app_r].
  - split; [done|]. split; [by apply Hne|]. left. split; [by eapply winv_same|done..].
  - split; [done|]. split; [by apply Hne|]. right. by split; [apply Hnew|..].
  - split; [done|]. split; [by apply Hne|]. right. by split; [apply Hnew|..].
  - split; [done|]. split; [by apply Hne|]. right. by split; [apply Hnew|..].
Qed.

(** *** Calls to the shards *)

Lemma check_part_ok C w i id v p role :
  winv C w → 0 <= i < c_count cfg → dget id C = Some v → placed (v_intent v) i role → part_at w i id = Some p →
  check_part (Some p) (v_intent v) role = mret (Some p).
Proof.
  intros Hinv Hi Hv Hpl Hp. destruct (wi_parts _ _ _ _ Hinv i id p Hi Hp) as (v' & V1 & V2 & V3).
  assert (v' = v) as -> by congruence. destruct (wi_transfers _ _ _ _ Hinv id v Hv) as (T1 & T2 & T3).
  unfold check_part, participant. rewrite V2, T2. cbn [rbind]. rewrite (placed_role _ _ _ _ _ _ V3 Hpl).
  rewrite !(bool_decide_true (_ = _)) by done. cbn [negb orb raise_if].
  case_bool_decide as Hr; [|done]. subst role. destruct Hpl as [-> Hl]. rewrite Hl in T3.
  unfold status_at in T3. rewrite Hp in T3. simpl in T3.
  destruct (v_decision v) as [[]|], (v_status v), (p_status p); try discriminate T3; done.
Qed.

Definition acted (C : dict string Transfer) (w : World) (i : Z) (id : string) (kind : Kind) (o : option Part) (w' : World)
    : Prop :=
  after C w w' ∧ ∃ p, o = Some p ∧ part_at w' i id = Some p ∧
    (kind = Confirm → p_status p = CONFIRMED) ∧ (kind = Cancel → p_status p = CANCELED).

Lemma wp_act C w v i kind role :
  winv C w → permitted C w (mk_message i (v_intent v) kind role) v →
  wp (act digest cfg i (v_intent v) kind role)
    (acted C w i (transaction_id (v_intent v)) kind) (λ _ w', after C w w' ∧ oracle w ≠ []) w.
Proof.
  intros Hinv Hp. unfold act, send. apply wp_bind, wp_fault. intros fault o Ho.
  set (w0 := mk_world _ _ _ _ o).
  assert (after C w w0) as Ha0 by (apply after_same; try done; by intros; apply Ho).
  assert (permitted C w0 (mk_message i (v_intent v) kind role) v) as Hp0 by (by destruct Hp; split).
  assert (fault ≠ Fine → oracle w ≠ []) as Hne by (intros Hf Hw; apply Hf, Ho, Hw).
  destruct (serve_spec digest cfg Hcount C w0 _ v (af_inv _ _ _ _ _ Ha0) Hp0) as (w1 & p & Hs & Ha & Hpart & Hc).
  simpl in Hpart, Hc. destruct fault; unfold wp at 1; simpl.
  - rewrite Hs. pose proof (placed_range digest cfg Hcount _ _ _ (pm_placed _ _ _ _ _ _ Hp)) as Hr.
    rewrite (check_part_ok C w1 i (transaction_id (v_intent v)) v p role); [|apply Ha|done|apply Hp|apply Hp|done].
    split; [by eapply after_trans|]. by exists p.
  - split; [done|]. by apply Hne.
  - rewrite Hs. split; [by eapply after_trans|]. by apply Hne.
  - split; [|by apply Hne]. destruct Ha0 as [[W1 W2 W3 W4 W5 W6] A2 A3 A4 A5]. split; [|done..].
    split; try done. intros m [Hm| ->%list_elem_of_singleton]%elem_of_app.
    + destruct (W6 m Hm) as [v' []]. by exists v'.
    + exists v. by destruct Hp0.
  - split; [done|]. by apply Hne.
Qed.

Lemma read_participant_ok s id : identifier id = true → read_participant s id = Ok (part_of s id).
Proof. unfold read_participant. by intros ->. Qed.

Lemma wp_read C w v i role :
  winv C w → dget (transaction_id (v_intent v)) C = Some v → placed (v_intent v) i role →
  wp (read_part i (v_intent v) role)
    (λ o w', after C w w' ∧ shards w' = shards w ∧ o = part_at w i (transaction_id (v_intent v)))
    (λ _ w', after C w w' ∧ oracle w ≠ []) w.
Proof.
  intros Hinv Hv Hpl. unfold read_part. apply wp_fault. intros fault o Ho.
  set (w0 := mk_world _ _ _ _ o).
  assert (after C w w0) as Ha0 by (apply after_same; try done; by intros; apply Ho).
  assert (fault ≠ Fine → oracle w ≠ []) as Hne by (intros Hf Hw; apply Hf, Ho, Hw).
  destruct fault; try (split; [done|by apply Hne]).
  pose proof (placed_range digest cfg Hcount _ _ _ Hpl) as Hr.
  destruct (shard_there digest cfg Hcount C w i Hinv Hr) as (s & Hs & _).
  destruct (wi_transfers _ _ _ _ Hinv _ v Hv) as (_ & T2 & _). destruct (intent_facts _ T2) as (_ & _ & Hid).
  apply wp_bind. unfold wp at 1. cbn [shards w0]. rewrite Hs, read_participant_ok by done.
  assert (part_at w i (transaction_id (v_intent v)) = part_of s (transaction_id (v_intent v))) as Ep
    by (unfold part_at; by rewrite Hs).
  destruct (part_of s _) as [p|] eqn:E; [|by rewrite Ep].
  rewrite (check_part_ok C w i (transaction_id (v_intent v)) v p role) by done. by rewrite Ep.
Qed.

(** *** One step of a transfer *)

Definition lost (o : option PartStatus) : bool := match o with Some REJECTED | Some CANCELED => true | _ => false end.
Definition missing (s : PartStatus) (o : option PartStatus) : nat :=
  if bool_decide (o = Some s) then 0 else 1.

(** How many steps a transfer is from its end. *)
Definition cross_rank (d : option Verdict) (l r : option PartStatus) : nat :=
  match d with
  | None => if lost l || lost r then 4
            else match l, r with None, _ => 6 | Some _, None => 5 | Some _, Some _ => 4 end
  | Some COMMIT => 1 + missing CONFIRMED l + missing CONFIRMED r
  | Some CANCEL => 1 + missing CANCELED l + missing CANCELED r
  end.
Definition rank (w : World) (v : Transfer) : nat :=
  let id := transaction_id (v_intent v) in
  if negb (bool_decide (v_status v = PENDING)) then 0
  else if is_local (v_intent v) then 1
  else cross_rank (v_decision v) (status_at w (source_index (v_intent v)) id)
         (status_at w (destination_index (v_intent v)) id).

Record stepped (C C' : dict string Transfer) (w w' : World) : Prop := {
  st_inv : winv C' w';
  st_commands : commands_kept C C';
  st_parts : parts_kept w w';
  st_journal : journal w `prefix_of` journal w';
  st_oracle : oracle w = [] → oracle w' = [];
}.

Lemma after_stepped C w w' : after C w w' → stepped C C w w'.
Proof. intros [A1 A2 A3 A4 A5]. split; [done|apply commands_kept_refl|done..]. Qed.

Lemma appended_stepped C C' w w' e :
  C' = C ∨ project_entry C e = Ok C' → appended C' w w' → stepped C C' w w'.
Proof.
  intros HC [A1 A2 A3 A4]. split; [done| |by apply parts_kept_same|done..].
  destruct HC as [->|He]; [apply commands_kept_refl|]. by eapply entry_kept.
Qed.

Lemma stepped_trans C1 C2 C3 w1 w2 w3 : stepped C1 C2 w1 w2 → stepped C2 C3 w2 w3 → stepped C1 C3 w1 w3.
Proof.
  intros [A1 A2 A3 A4 A5] [B1 B2 B3 B4 B5].
  split; [done|by eapply commands_kept_trans|by eapply parts_kept_trans|by etrans|auto].
Qed.

(** The transfer came nearer to its end; or a fault got in the way. *)
Definition nearer (C : dict string Transfer) (w : World) (v : Transfer) (w' : World) : Prop :=
  pending w' = [] ∧
  ∃ C' v', stepped C C' w w' ∧ dget (transaction_id (v_intent v)) C' = Some v' ∧ (rank w' v' < rank w v)%nat.
Definition failed (C : dict string Transfer) (w : World) (e : exn) (w' : World) : Prop :=
  oracle w ≠ [] ∧ ∃ C', stepped C C' w w' ∧ (definitive e = true → C' = C ∧ pending w' = []).

Lemma after_nearer C w1 v w2 w' :
  after C w1 w2 → shards w2 = shards w1 → nearer C w2 v w' → nearer C w1 v w'.
Proof.
  intros Ha Es (Hp & C' & v' & Hs & Hv & Hr). split; [done|]. exists C', v'. split; [by eapply stepped_trans; [apply after_stepped|]|].
  split; [done|]. unfold rank in *. unfold status_at, part_at in *. by rewrite Es in Hr.
Qed.

Lemma after_failed C w1 e w2 w' : after C w1 w2 → failed C w2 e w' → failed C w1 e w'.
Proof.
  intros Ha (Ho & C' & Hs & Hd). split; [intros Hw; by apply Ho, (af_oracle _ _ _ _ _ Ha)|]. exists C'.
  split; [by eapply stepped_trans; [apply after_stepped|]|done].
Qed.

Lemma wp_record C w v e v' :
  winv C w → dget (entry_id e) C = Some v → project_entry C e = Ok (dset (entry_id e) v' C) →
  v_intent v' = v_intent v → transfer_ok w (entry_id e) v' → (rank w v' < rank w v)%nat →
  wp (append_entry e) (λ _ w', nearer C w v w') (failed C w) w.
Proof.
  intros Hinv Hv He Hi Hok Hrank.
  eapply wp_mono; [apply (wp_append C w e _ Hinv He)|..]; cbv beta.
  - intros v2. rewrite dget_dset_eq. by intros [= <-].
  - intros _ w' [Ha Hp]. split; [done|]. exists (dset (entry_id e) v' C), v'. split; [eapply appended_stepped; [right; exact He|done]|].
    destruct (wi_transfers _ _ _ _ Hinv _ v Hv) as (-> & _ & _). rewrite dget_dset_eq. split; [done|].
    pose proof (ap_shards _ _ _ Ha) as Es. unfold rank in *. unfold status_at, part_at in *. by rewrite Es.
  - intros x w' (-> & Ho & Ha). split; [done|]. destruct Ha as [Ha|Ha]; eexists; (split; [|done]);
      (eapply (appended_stepped _ _ _ _ e); [|exact Ha]); eauto.
Qed.

Lemma decided_accepted C id v d :
  identifier id = true → dget id C = Some v → v_status v = PENDING → v_decision v = None →
  project_entry C (Decided id d) = Ok (dset id (mk_transfer (v_intent v) (Some d) PENDING) C).
Proof. intros Hid Hv Hs Hd. unfold project_entry. simpl. rewrite Hid, Hv, Hs, Hd. done. Qed.

Lemma completed_accepted C id v st :
  identifier id = true → dget id C = Some v → v_status v = PENDING →
  match v_decision v, st with
  | Some COMMIT, SUCCEEDED | Some CANCEL, ABANDONED | None, SUCCEEDED | None, DECLINED => true
  | _, _ => false
  end = true →
  project_entry C (Completed id st) = Ok (dset id (mk_transfer (v_intent v) (v_decision v) st) C).
Proof.
  intros Hid Hv Hs Hd. unfold project_entry. cbn [entry_id]. rewrite Hid, Hv, Hs.
  by destruct (v_decision v) as [[]|], st.
Qed.

Lemma status_is_spec w i id s : status_is (part_at w i id) s = bool_decide (status_at w i id = Some s).
Proof.
  unfold status_at, status_is. destruct (part_at w i id) as [p|]; [|done]. simpl.
  apply bool_decide_ext. naive_solver.
Qed.

Section advance.
Context (C : dict string Transfer) (v : Transfer).
Local Notation id := (transaction_id (v_intent v)).
Context (Hv : dget id C = Some v) (Hpending : v_status v = PENDING).

Lemma known_transfer w : winv C w → identifier id = true ∧ transfer_ok w id v.
Proof.
  intros Hinv. pose proof (wi_transfers _ _ _ _ Hinv _ v Hv) as Hok. split; [|done].
  destruct Hok as (_ & Hi & _). by destruct (intent_facts _ Hi) as (_ & _ & ?).
Qed.

(** A row that decides or ends the transfer. *)
Lemma wp_outcome w e d st :
  winv C w → e = Decided id d ∧ v_decision v = None ∧ st = PENDING ∨
    e = Completed id st ∧ Some d = v_decision v ∧ (d = COMMIT ∧ st = SUCCEEDED ∨ d = CANCEL ∧ st = ABANDONED) →
  is_local (v_intent v) = false →
  cross_ok (Some d) st (status_at w (source_index (v_intent v)) id) (status_at w (destination_index (v_intent v)) id) = true →
  (rank w (mk_transfer (v_intent v) (Some d) st) < rank w v)%nat →
  wp (append_entry e) (λ _ w', nearer C w v w') (failed C w) w.
Proof.
  intros Hinv He Hl Hok Hr. destruct (known_transfer w Hinv) as [Hid (T1 & T2 & T3)].
  assert (entry_id e = id) as Ee by (by destruct He as [(-> & _)|(-> & _)]).
  apply (wp_record C w v e (mk_transfer (v_intent v) (Some d) st)); try done; rewrite Ee; [done| |].
  - destruct He as [(-> & Hd & ->)|(-> & Hd & Hst)].
    + by apply decided_accepted.
    + rewrite Hd. apply completed_accepted; [done|done|done|]. rewrite <- Hd.
      by destruct Hst as [[-> ->]|[-> ->]].
  - split; [done|]. split; [done|]. simpl. by rewrite Hl.
Qed.

Lemma wp_local_outcome w p :
  winv C w → is_local (v_intent v) = true → part_at w (source_index (v_intent v)) id = Some p →
  wp (append_entry (Completed id (if status_is (Some p) CONFIRMED then SUCCEEDED else DECLINED)))
    (λ _ w', nearer C w v w') (failed C w) w.
Proof.
  intros Hinv Hl Hp. destruct (known_transfer w Hinv) as [Hid (T1 & T2 & T3)]. rewrite Hl in T3.
  unfold status_at in T3. rewrite Hp, Hpending in T3. simpl in T3.
  set (st := if status_is (Some p) CONFIRMED then SUCCEEDED else DECLINED).
  apply (wp_record C w v (Completed id st) (mk_transfer (v_intent v) None st)); try done.
  - cbn [entry_id]. destruct (v_decision v) as [[]|] eqn:Hd; [done|done|]. rewrite <- Hd.
    apply completed_accepted; [done|done|done|]. rewrite Hd. unfold st. by destruct (status_is _ _).
  - split; [done|]. split; [done|]. simpl. rewrite Hl. unfold status_at. rewrite Hp. unfold st. simpl.
    destruct (v_decision v) as [[]|]; [done|done|]. by destruct (p_status p).
  - unfold rank. rewrite Hpending. simpl. rewrite Hl. unfold st. by destruct (status_is _ _); simpl; lia.
Qed.

Lemma failed_call w e w' : pending w = [] → after C w w' ∧ oracle w ≠ [] → failed C w e w'.
Proof.
  intros Hp [Ha Ho]. split; [done|]. exists C. split; [by apply after_stepped|]. intros _. split; [done|].
  by apply (af_pending _ _ _ _ _ Ha).
Qed.

Lemma kept_status w w' i id' s :
  parts_kept w w' → status_at w i id' = Some s →
  ∃ s', status_at w' i id' = Some s' ∧ (s = CONFIRMED ∨ s = CANCELED → s' = s).
Proof.
  intros Hk. unfold status_at. destruct (part_at w i id') as [p|] eqn:Hp; [|done]. simpl. intros [= <-].
  destruct (Hk _ _ _ Hp) as (q & -> & _ & _ & Hq). exists (p_status q). split; [done|]. intros Ht. by rewrite Hq.
Qed.

Lemma kept_missing w w' i id' s :
  parts_kept w w' → s = CONFIRMED ∨ s = CANCELED → (missing s (status_at w' i id') <= missing s (status_at w i id'))%nat.
Proof.
  intros Hk Hs. unfold missing. case_bool_decide as H1; case_bool_decide as H2; try lia.
  destruct (kept_status _ _ _ _ _ Hk H2) as (s' & H3 & H4). rewrite H4 in H3 by done. done.
Qed.

Lemma wp_action w i kind role :
  winv C w → pending w = [] → permitted C w (mk_message i (v_intent v) kind role) v →
  (∀ w' p, after C w w' → part_at w' i id = Some p → (kind = Confirm → p_status p = CONFIRMED) →
     (kind = Cancel → p_status p = CANCELED) → (rank w' v < rank w v)%nat) →
  wp (do* _ := act digest cfg i (v_intent v) kind role in mret tt) (λ _ w', nearer C w v w') (failed C w) w.
Proof.
  intros Hinv Hp Hperm Hr. apply wp_bind. eapply wp_mono; [by apply wp_act|..]; cbv beta.
  - intros o w' (Ha & p & -> & H1 & H2 & H3). split; [by apply (af_pending _ _ _ _ _ Ha)|]. exists C, v. split; [by apply after_stepped|]. split; [done|].
    by apply (Hr w' p).
  - intros e w' H. by apply failed_call.
Qed.

(** The statuses of the two participants of a transfer across shards. *)
Local Notation left_of w := (status_at w (source_index (v_intent v)) id).
Local Notation right_of w := (status_at w (destination_index (v_intent v)) id).

Lemma cross_here w :
  winv C w → is_local (v_intent v) = false → cross_ok (v_decision v) PENDING (left_of w) (right_of w) = true ∧
  rank w v = cross_rank (v_decision v) (left_of w) (right_of w).
Proof.
  intros Hinv Hl. destruct (known_transfer w Hinv) as [_ (_ & _ & T3)]. rewrite Hl, Hpending in T3. split; [done|].
  unfold rank. rewrite Hpending, Hl. done.
Qed.

Lemma call_permitted w i kind role d :
  v_decision v = d → placed (v_intent v) i role →
  match kind with
  | Local => role = LOCAL
  | Prepare => role ≠ LOCAL
  | Confirm => role ≠ LOCAL ∧ d = Some COMMIT ∧ (role = DESTINATION → left_of w = Some CONFIRMED)
  | Cancel => role ≠ LOCAL ∧ d = Some CANCEL
  end → permitted C w (mk_message i (v_intent v) kind role) v.
Proof.
  intros <- Hpl Hk. split; simpl; try done; destruct kind; destruct_and?; try done; try (by intros ->); try tauto.
Qed.

Lemma wp_undecided w :
  winv C w → pending w = [] → is_local (v_intent v) = false → v_decision v = None →
  wp (let left_part := part_at w (source_index (v_intent v)) id in
      let right_part := part_at w (destination_index (v_intent v)) id in
      if status_is left_part REJECTED || status_is left_part CANCELED || status_is right_part REJECTED || status_is right_part CANCELED
      then append_entry (Decided id CANCEL)
      else if bool_decide (left_part = None) then do* _ := act digest cfg (source_index (v_intent v)) (v_intent v) Prepare SOURCE in mret tt
      else if bool_decide (right_part = None) then do* _ := act digest cfg (destination_index (v_intent v)) (v_intent v) Prepare DESTINATION in mret tt
      else if status_is left_part PREPARED && status_is right_part PREPARED then append_entry (Decided id COMMIT)
      else mraise (StatusError 502)) (λ _ w', nearer C w v w') (failed C w) w.
Proof.
  intros Hinv Hp Hl Hd. cbv zeta. rewrite !status_is_spec. destruct (cross_here w Hinv Hl) as [Hok Hrank].
  rewrite Hd in Hok, Hrank.
  assert (∀ i, bool_decide (part_at w i id = None) = bool_decide (status_at w i id = None)) as En.
  { intros i. unfold status_at. by destruct (part_at w i id). }
  rewrite !En. clear En.
  assert (∀ d, cross_ok (Some d) PENDING (left_of w) (right_of w) = true →
    (cross_rank (Some d) (left_of w) (right_of w) < rank w v)%nat →
    wp (append_entry (Decided id d)) (λ _ w', nearer C w v w') (failed C w) w) as Hdecide.
  { intros d H1 H2. apply (wp_outcome w _ d PENDING); [done|by left|done|done|]. unfold rank at 1. simpl. by rewrite Hl. }
  destruct (left_of w) as [l|] eqn:El.
  2:{ destruct (right_of w) as [[]|] eqn:Er; try discriminate Hok; simpl;
      try (by apply Hdecide; [|rewrite Hrank; vm_compute; lia]);
      (apply wp_action; [done|done|by apply (call_permitted w _ _ _ None)|]); intros w' p Ha Hp' _ _;
      destruct (cross_here w' (af_inv _ _ _ _ _ Ha) Hl) as [_ ->]; rewrite Hd, Hrank;
      unfold status_at at 1; rewrite Hp'; simpl; destruct (p_status p), (right_of w') as [[]|]; simpl; lia. }
  destruct l; try discriminate Hok; simpl.
  2:{ apply Hdecide; [|rewrite Hrank]; destruct (right_of w) as [[]|]; try discriminate Hok; vm_compute; try done; lia. }
  destruct (right_of w) as [[]|] eqn:Er; try discriminate Hok; simpl.
  - apply Hdecide; [done|]. rewrite Hrank. vm_compute. lia.
  - apply Hdecide; [done|]. rewrite Hrank. vm_compute. lia.
  - apply wp_action; [done|done|by apply (call_permitted w _ _ _ None)|]. intros w' p Ha Hp' _ _.
    destruct (cross_here w' (af_inv _ _ _ _ _ Ha) Hl) as [_ ->]. rewrite Hd, Hrank.
    destruct (kept_status _ _ _ _ _ (af_kept _ _ _ _ _ Ha) El) as (l' & -> & _).
    unfold status_at. rewrite Hp'. simpl. destruct l', (p_status p); simpl; lia.
Qed.

Lemma wp_decided w d kind s st :
  winv C w → pending w = [] → is_local (v_intent v) = false → v_decision v = Some d →
  d = COMMIT ∧ kind = Confirm ∧ s = CONFIRMED ∧ st = SUCCEEDED ∨ d = CANCEL ∧ kind = Cancel ∧ s = CANCELED ∧ st = ABANDONED →
  wp (if negb (status_is (part_at w (source_index (v_intent v)) id) s)
      then do* _ := act digest cfg (source_index (v_intent v)) (v_intent v) kind SOURCE in mret tt
      else if negb (status_is (part_at w (destination_index (v_intent v)) id) s)
      then do* _ := act digest cfg (destination_index (v_intent v)) (v_intent v) kind DESTINATION in mret tt
      else append_entry (Completed id st)) (λ _ w', nearer C w v w') (failed C w) w.
Proof.
  intros Hinv Hp Hl Hd Hcase. rewrite !status_is_spec. destruct (cross_here w Hinv Hl) as [Hok Hrank].
  rewrite Hd in Hok, Hrank.
  assert (∀ w', cross_rank (Some d) (left_of w') (right_of w') = (1 + missing s (left_of w') + missing s (right_of w'))%nat) as Er
    by (by destruct Hcase as [(-> & _ & -> & _)|(-> & _ & -> & _)]).
  assert (s = CONFIRMED ∨ s = CANCELED) as Hs by naive_solver.
  assert (∀ p, (kind = Confirm → p_status p = CONFIRMED) → (kind = Cancel → p_status p = CANCELED) → p_status p = s) as Hps
    by naive_solver.
  case_bool_decide as E1; simpl.
  1: case_bool_decide as E2; simpl.
  - apply (wp_outcome w _ d st); [done|right; split; [done|]; split; [done|]; naive_solver|done| |].
    + rewrite E1, E2. by destruct Hcase as [(-> & _ & -> & ->)|(-> & _ & -> & ->)].
    + rewrite Hrank, Er. unfold rank. simpl. by destruct Hcase as [(_ & _ & _ & ->)|(_ & _ & _ & ->)]; simpl; lia.
  - apply wp_action; [done|done| |].
    { apply (call_permitted w _ _ _ (Some d)); [done|done|]. destruct Hcase as [(-> & -> & -> & _)|(-> & -> & _)]; done. }
    intros w' p Ha Hp' Hc1 Hc2. destruct (cross_here w' (af_inv _ _ _ _ _ Ha) Hl) as [_ ->].
    rewrite Hd, Hrank, !Er. pose proof (kept_missing _ _ (source_index (v_intent v)) id _ (af_kept _ _ _ _ _ Ha) Hs) as Hm.
    assert (missing s (right_of w') = 0%nat) as ->.
    { unfold missing, status_at. rewrite Hp'. simpl. by rewrite (Hps p Hc1 Hc2), bool_decide_true. }
    assert (missing s (right_of w) = 1%nat) as -> by (unfold missing; by rewrite bool_decide_false). lia.
  - apply wp_action; [done|done| |].
    { apply (call_permitted w _ _ _ (Some d)); [done|done|]. destruct Hcase as [(-> & -> & -> & _)|(-> & -> & _)]; done. }
    intros w' p Ha Hp' Hc1 Hc2. destruct (cross_here w' (af_inv _ _ _ _ _ Ha) Hl) as [_ ->].
    rewrite Hd, Hrank, !Er. pose proof (kept_missing _ _ (destination_index (v_intent v)) id _ (af_kept _ _ _ _ _ Ha) Hs) as Hm.
    assert (missing s (left_of w') = 0%nat) as ->.
    { unfold missing, status_at. rewrite Hp'. simpl. by rewrite (Hps p Hc1 Hc2), bool_decide_true. }
    assert (missing s (left_of w) = 1%nat) as -> by (unfold missing; by rewrite bool_decide_false). lia.
Qed.

Lemma wp_after {A} (m : M A) w w1 :
  after C w w1 → shards w1 = shards w →
  wp m (λ _ w', nearer C w1 v w') (failed C w1) w1 → wp m (λ _ w', nearer C w v w') (failed C w) w1.
Proof.
  intros Ha Es H. eapply wp_mono; [exact H|..]; cbv beta.
  - intros _ w' Hw'. by eapply after_nearer.
  - intros e w' Hw'. by eapply after_failed.
Qed.

Lemma wp_advance w :
  winv C w → pending w = [] → wp (advance digest cfg id v) (λ _ w', nearer C w v w') (failed C w) w.
Proof.
  intros Hinv Hp. unfold advance. fold (is_local (v_intent v)). apply wp_bind.
  eapply wp_mono; [apply (wp_read C); [done|done|]|..]; cbv beta.
  { destruct (is_local (v_intent v)) eqn:El; by split. }
  2:{ intros e w' H. by apply failed_call. }
  intros o w1 (Ha1 & Es1 & ->). pose proof (af_inv _ _ _ _ _ Ha1) as Hinv1. pose proof (af_pending _ _ _ _ _ Ha1 Hp) as Hp1.
  assert (∀ i, part_at w i id = part_at w1 i id) as Ep by (intros i; unfold part_at; by rewrite Es1).
  apply (wp_after _ w w1); [done|done|].
  destruct (is_local (v_intent v)) eqn:El.
  - rewrite Ep. destruct (part_at w1 _ id) as [p|] eqn:Epart; [by apply wp_local_outcome|].
    apply wp_bind. eapply wp_mono; [apply (wp_act C); [done|]|..]; cbv beta.
    + by apply (call_permitted w1 _ _ _ (v_decision v)).
    + intros o w2 (Ha2 & p & -> & Hp2 & _ & _).
      assert (rank w2 v = rank w1 v) as Er by (unfold rank; by rewrite Hpending, El).
      eapply wp_mono; [by apply wp_local_outcome; [apply Ha2|..]|..]; cbv beta.
      * intros _ w' (Hp' & C' & v' & Hs & Hv' & Hr). split; [done|]. exists C', v'. split; [|by rewrite <- Er].
        by eapply stepped_trans; [apply after_stepped|].
      * intros e w'. by apply after_failed.
    + intros e w' H. by apply failed_call.
  - apply wp_bind. eapply wp_mono; [apply (wp_read C); [done|done|by split]|..]; cbv beta.
    2:{ intros e w' H. by apply failed_call. }
    intros o w2 (Ha2 & Es2 & ->). pose proof (af_inv _ _ _ _ _ Ha2) as Hinv2. pose proof (af_pending _ _ _ _ _ Ha2 Hp1) as Hp2.
    assert (∀ i, part_at w1 i id = part_at w2 i id) as Ep2 by (intros i; unfold part_at; by rewrite Es2).
    apply (wp_after _ w1 w2); [done|done|].
    rewrite Ep, !Ep2. destruct (v_decision v) as [[]|] eqn:Hd.
    + by apply (wp_decided w2 COMMIT Confirm CONFIRMED SUCCEEDED); [..|left].
    + by apply (wp_decided w2 CANCEL Cancel CANCELED ABANDONED); [..|right].
    + by apply wp_undecided.
Qed.
End advance.

(** *** The operations *)

Lemma undecided_cancel C v w :
  dget (transaction_id (v_intent v)) C = Some v → v_status v = PENDING → v_decision v = None →
  is_local (v_intent v) = false → winv C w →
  wp (append_entry (Decided (transaction_id (v_intent v)) CANCEL)) (λ _ w', nearer C w v w') (failed C w) w.
Proof.
  intros Hv Hp Hd Hl Hinv. destruct (cross_here C v Hv Hp w Hinv Hl) as [Hok Hr]. rewrite Hd in Hok, Hr.
  apply (wp_outcome C v Hv Hp w _ CANCEL PENDING); [done|by left|done|..].
  - by destruct (status_at w _ _) as [[]|]; try discriminate Hok; destruct (status_at w _ _) as [[]|]; try discriminate Hok.
  - rewrite Hr. unfold rank. cbn [v_status v_intent v_decision]. rewrite bool_decide_true, Hl by done. cbn [negb].
    destruct (status_at w (source_index _) _) as [[]|]; try discriminate Hok;
      destruct (status_at w (destination_index _) _) as [[]|]; try discriminate Hok; vm_compute; lia.
Qed.

Lemma sync_first {A} C w (k : M A) (Q : A → World → Prop) (E : exn → World → Prop) :
  winv C w →
  (∀ w1, after C w w1 → pending w1 = [] → shards w1 = shards w → committed w1 = (w1, Ok C) → wp k Q E w1) →
  (∀ w1, after C w w1 → oracle w ≠ [] → E unavailable w1) → wp (do* _ := sync in k) Q E w.
Proof.
  intros Hinv Hk He. apply wp_bind. eapply wp_mono; [by apply (wp_sync C)|..]; cbv beta.
  - intros _ w1 (Ha & Hp & Es). apply Hk; try done. unfold committed. pose proof (wi_project _ _ _ _ (af_inv _ _ _ _ _ Ha)) as H.
    rewrite Hp, app_nil_r in H. by rewrite H.
  - intros e w1 (Ha & _ & -> & Ho). by apply He.
Qed.

Lemma wp_committed {B} C w (f : dict string Transfer → M B) Q E :
  committed w = (w, Ok C) → wp (f C) Q E w → wp (mbind committed f) Q E w.
Proof. intros Hc H. apply wp_bind. unfold wp at 1. by rewrite Hc. Qed.

(** An attempt without faults advances the transfer. *)
Lemma wp_try C v w :
  dget (transaction_id (v_intent v)) C = Some v → v_status v = PENDING → winv C w → pending w = [] →
  wp (attempt digest cfg (transaction_id (v_intent v)) v)
    (λ o w', o = Advanced ∧ nearer C w v w' ∨ oracle w ≠ [] ∧ ∃ C', stepped C C' w w')
    (λ _ w', oracle w ≠ [] ∧ ∃ C', stepped C C' w w') w.
Proof.
  intros Hv Ep Hinv Hp. pose proof (wp_advance C v Hv Ep w Hinv Hp) as Hadv. unfold wp, attempt in Hadv |- *. fold (is_local (v_intent v)).
  destruct (advance digest cfg (transaction_id (v_intent v)) v w) as [w2 [[]|e]]; [by left|].
  destruct Hadv as (Ho & C' & Hs & Hdef).
  destruct (definitive e && bool_decide (v_decision v = None) && negb (is_local (v_intent v))) eqn:Eb; [|right; eauto].
  apply andb_true_iff in Eb as [[Ed Edec%bool_decide_eq_true]%andb_true_iff El%negb_true_iff].
  destruct (Hdef Ed) as [-> Hp2]. pose proof (undecided_cancel C v w2 Hv Ep Edec El (st_inv _ _ _ _ Hs)) as Hap.
  unfold wp, mbind in Hap |- *. destruct (append_entry _ w2) as [w3 [[]|e']].
  - destruct Hap as (_ & C'' & _ & H1 & _). right. split; [done|]. exists C''. by eapply stepped_trans.
  - destruct Hap as (_ & C'' & H1 & _). split; [done|]. exists C''. by eapply stepped_trans.
Qed.

Lemma wp_work C w id :
  winv C w →
  wp (work digest cfg id) (λ _ w', ∃ C', stepped C C' w w') (λ _ w', ∃ C', stepped C C' w w') w.
Proof.
  intros Hinv. apply (sync_first C); [done| |].
  2:{ intros w1 Ha Ho. exists C. by apply after_stepped. }
  intros w1 Ha Hp Es Hc. apply (wp_committed C); [done|]. pose proof (after_stepped _ _ _ Ha) as Hst.
  destruct (dget id C) as [v|] eqn:Hv; [|by exists C].
  destruct (bool_decide (v_status v = PENDING)) eqn:Ep; cbn [negb]; [|by exists C].
  apply bool_decide_eq_true in Ep. pose proof (af_inv _ _ _ _ _ Ha) as Hinv1.
  destruct (wi_transfers _ _ _ _ Hinv1 id v Hv) as (Ei & _ & _). subst id.
  apply wp_bind. eapply wp_mono; [by apply (wp_try C v w1)|..]; cbv beta.
  - intros o w' [(_ & _ & C' & v' & Hs & _)|(_ & C' & Hs)]; exists C'; by eapply stepped_trans.
  - intros e w' (_ & C' & Hs). exists C'. by eapply stepped_trans.
Qed.

(** An operation of a client: how it ends, and what a success means. *)
Definition replied (C : dict string Transfer) (w : World) (P : dict string Transfer → Prop) (w' : World) : Prop :=
  ∃ C', stepped C C' w w' ∧ pending w' = [] ∧ P C'.
Definition refused (C : dict string Transfer) (w w' : World) : Prop := ∃ C', stepped C C' w w'.

Lemma refused_stop C w w1 : after C w w1 → refused C w w1.
Proof. intros Ha. exists C. by apply after_stepped. Qed.

Lemma wp_create C w body owner :
  winv C w →
  wp (create cfg body owner)
    (λ v, replied C w (λ C', dget (transaction_id body) C' = Some v ∧ v_intent v = body)) (λ _, refused C w) w.
Proof.
  intros Hinv. assert (∀ e, wp (mraise (A := Transfer) e)
    (λ v, replied C w (λ C', dget (transaction_id body) C' = Some v ∧ v_intent v = body)) (λ _, refused C w) w) as Hre.
  { intros e. apply refused_stop. by apply after_refl. }
  unfold create. apply wp_bind. unfold wp at 1, mlift at 1.
  destruct (intent body) as [b|e] eqn:Hb; [|exact (Hre e)]. destruct (intent_value _ _ Hb) as [-> Hb']. clear Hb.
  destruct (dget (from_account body) (c_accounts cfg)) as [[o bal]|]; [|apply Hre].
  destruct (negb _); [apply Hre|]. destruct (negb _); [apply Hre|].
  apply (sync_first C); [done| |by intros w1 Ha _; apply refused_stop].
  intros w1 Ha Hp _ Hc. apply (wp_committed C); [done|]. destruct (dget (transaction_id body) C) as [old|] eqn:Hold.
  - destruct (bool_decide (v_intent old = body)) eqn:Ei; cbn [negb]; [|by apply refused_stop].
    apply bool_decide_eq_true in Ei. exists C. split; [by apply after_stepped|]. by split.
  - destruct (_ <=? _)%nat; [by apply refused_stop|].
    destruct (intent_facts _ Hb') as (_ & _ & Hid). pose proof (af_inv _ _ _ _ _ Ha) as Hinv1.
    set (v := mk_transfer body None PENDING). set (C' := dset (transaction_id body) v C).
    assert (project_entry C (Accepted (transaction_id body) body) = Ok C') as He.
    { unfold project_entry. simpl. rewrite Hid, Hb'. cbn [negb raise_if rbind]. rewrite bool_decide_true by done.
      rewrite (proj2 (dmem_false _ _) Hold). done. }
    assert (∀ i, 0 <= i < c_count cfg → status_at w1 i (transaction_id body) = None) as Hnone.
    { intros i Hi. unfold status_at. destruct (part_at w1 i _) as [p|] eqn:Ep; [|done].
      destruct (wi_parts _ _ _ _ Hinv1 i _ p Hi Ep) as (v' & V1 & _). congruence. }
    assert (∀ v', dget (transaction_id body) C' = Some v' → transfer_ok w1 (transaction_id body) v') as Hok.
    { intros v'. unfold C'. rewrite dget_dset_eq. intros [= <-]. split; [done|]. split; [done|]. simpl.
      rewrite !Hnone by (apply source_range || apply destination_range; done). by destruct (is_local body). }
    assert (∀ C2 w2, C2 = C ∨ C2 = C' → appended C2 w1 w2 → stepped C C2 w w2) as Hstep.
    { intros C2 w2 HC Hap. eapply stepped_trans; [by apply after_stepped|]. eapply (appended_stepped _ _ _ _ (Accepted (transaction_id body) body)); [|done].
      destruct HC as [->| ->]; eauto. }
    apply wp_bind. eapply wp_mono; [by apply (wp_append C w1 _ C')|..]; cbv beta.
    + intros _ w2 [Hap Hp2]. apply (wp_committed C').
      { unfold committed. pose proof (wi_project _ _ _ _ (ap_inv _ _ _ Hap)) as H. rewrite Hp2, app_nil_r in H. by rewrite H. }
      unfold wp, mlift, dlookup, C'. rewrite dget_dset_eq. exists C'. split; [apply Hstep; auto|]. split; [done|].
      unfold C'. by rewrite dget_dset_eq.
    + intros e w2 (_ & _ & [Hap|Hap]); [exists C|exists C']; apply Hstep; auto.
Qed.

Lemma wp_cancel C w id :
  winv C w →
  wp (cancel digest cfg id)
    (λ _, replied C w (λ C', ∃ v, dget id C' = Some v ∧ v_decision v = Some CANCEL)) (λ _, refused C w) w.
Proof.
  intros Hinv. apply (sync_first C); [done| |by intros w1 Ha _; apply refused_stop].
  intros w1 Ha Hp _ Hc. apply (wp_committed C); [done|]. destruct (dget id C) as [v|] eqn:Hv; [|by apply refused_stop].
  fold (is_local (v_intent v)). pose proof (af_inv _ _ _ _ _ Ha) as Hinv1.
  destruct (_ || _) eqn:Eb; [by apply refused_stop|].
  apply orb_false_iff in Eb as [[Ep%negb_false_iff%bool_decide_eq_true Ec%bool_decide_eq_false]%orb_false_iff El].
  destruct (v_decision v) as [[]|] eqn:Hd; [done|exists C; split; [by apply after_stepped|split; [done|by exists v]]|].
  destruct (wi_transfers _ _ _ _ Hinv1 id v Hv) as (Ei & _ & _). subst id.
  destruct (known_transfer C v Hv w1 Hinv1) as [Hid (T1 & T2 & T3)]. rewrite El, Hd, Ep in T3.
  set (e := Decided _ CANCEL).
  pose proof (decided_accepted _ _ _ CANCEL Hid Hv Ep Hd) as He. pose proof (after_stepped _ _ _ Ha) as Hst.
  eapply wp_mono; [apply (wp_append C w1 _ _ Hinv1 He)|..]; cbv beta.
  - intros v'. cbn [entry_id]. rewrite dget_dset_eq. intros [= <-]. split; [done|]. split; [done|]. simpl. rewrite El.
    by destruct (status_at w1 _ _) as [[]|]; try discriminate T3; destruct (status_at w1 _ _) as [[]|]; try discriminate T3.
  - intros _ w2 [Hap Hp2]. eexists. split; [eapply stepped_trans; [exact Hst|eapply (appended_stepped _ _ _ _ e); [|exact Hap]; eauto]|].
    split; [done|]. eexists. by rewrite dget_dset_eq.
  - intros x w2 (_ & _ & [Hap|Hap]); eexists; (eapply stepped_trans; [exact Hst|eapply (appended_stepped _ _ _ _ e); [|exact Hap]; eauto]).
Qed.
End operations.
