(* ===== verification/TransferWorker.v ===== *)
(** * The worker of the digital wallet

    [step] makes one move of the world; an attempt on a transfer touches no other
    one; so without faults each step that is not idle lowers the distance of all
    transfers from their ends. *)
From S2P Require Import Prelude PyList PyDict Checks Effects Wallet Transfers TransferInv TransferWork.
Local Open Scope Z_scope.

Local Notation M := (Effects.M World).

(** ** What an attempt leaves alone *)

(** The participants and the rows of other transfers than [id] stay. *)
Definition framed (id : string) (w w' : World) : Prop :=
  (∀ i other, other ≠ id → part_at w' i other = part_at w i other) ∧
  ∃ rows, journal w' ++ pending w' = (journal w ++ pending w) ++ rows ∧ Forall (λ e, entry_id e = id) rows.
Definition only {A} (id : string) (m : M A) : Prop := ∀ w, framed id w (m w).1.

Lemma framed_same id w w' :
  journal w' ++ pending w' = journal w ++ pending w → shards w' = shards w → framed id w w'.
Proof. intros Ej Es. split; [intros; unfold part_at; by rewrite Es|]. exists []. by rewrite app_nil_r. Qed.

Lemma framed_trans id w1 w2 w3 : framed id w1 w2 → framed id w2 w3 → framed id w1 w3.
Proof.
  intros [A1 (r1 & A2 & A3)] [B1 (r2 & B2 & B3)]. split; [intros; rewrite B1 by done; by apply A1|].
  exists (r1 ++ r2). split; [by rewrite B2, A2, !app_assoc|by apply Forall_app].
Qed.

Section frame.
Context (digest : string → Z) (cfg : Config) (id : string).

Lemma only_pure {A} (r : result A) : only id (λ w, (w, r)).
Proof. intros w. by apply framed_same. Qed.
Lemma only_bind {A B} (m : M A) (f : A → M B) : only id m → (∀ a, only id (f a)) → only id (mbind m f).
Proof.
  intros Hm Hf w. specialize (Hm w). unfold mbind. destruct (m w) as [w1 [a|e]]; [|done].
  eapply framed_trans; [exact Hm|apply Hf].
Qed.
Lemma only_fault {B} (f : Fault → M B) : (∀ x, only id (f x)) → only id (mbind next_fault f).
Proof. apply only_bind. intros w. by apply framed_same. Qed.

Lemma only_sync : only id sync.
Proof.
  apply only_fault. intros []; try apply only_pure. intros w. apply framed_same; [|done]. simpl. by rewrite app_nil_r.
Qed.

Lemma sync_pending w : match sync w with (w', Ok _) => pending w' = [] | _ => True end.
Proof. unfold sync, mbind, next_fault. by destruct (default Fine _). Qed.

Lemma only_append e : entry_id e = id → only id (append_entry e).
Proof.
  intros He w. unfold append_entry, mbind at 1. pose proof (only_sync w) as Hs. pose proof (sync_pending w) as Hp.
  destruct (sync w) as [w1 [[]|x]]; [|done]. eapply framed_trans; [exact Hs|]. cbn [fst].
  assert (∀ w2, journal w2 ++ pending w2 = journal w1 ++ [e] → shards w2 = shards w1 → framed id w1 w2) as Hnew.
  { intros w2 Ej Es. split; [intros; unfold part_at; by rewrite Es|]. exists [e]. rewrite Hp, app_nil_r. split; [done|]. by constructor. }
  unfold mbind, next_fault. destruct (default Fine _); cbn; try (apply Hnew; [simpl; by rewrite ?app_nil_r|done]). by apply framed_same.
Qed.

(** A shard that serves a call changes the participant of its transfer only. *)
Lemma action_frame s body kind role epoch leader s' p other :
  action digest s body kind role epoch leader = Ok (s', p) → other ≠ transaction_id body → part_of s' other = part_of s other.
Proof.
  intros H Hne. unfold action in H. destruct (intent body) as [b|] eqn:Hb; [|done]. destruct (intent_value _ _ Hb) as [-> _].
  cbn [rbind] in H. apply raise_if_Ok in H as [_ H]. destruct (shard_for _ _ _); [|done]. destruct (shard_for _ _ _); [|done].
  cbn [rbind] in H. apply raise_if_Ok in H as [_ H]. destruct (check_fence _ _ _); [|done]. cbn [rbind] in H.
  assert (∀ s2 q, (let* s' := append s (Act kind role body) in
                   let* p := dlookup (transaction_id body) (parts (projection s')) in Ok (s', p)) = Ok (s2, q) →
                  part_of s2 other = part_of s other) as He.
  { intros s2 q E. unfold append in E. destruct (reduce_event _ _) as [st|] eqn:Er; [|done]. cbn [rbind] in E.
    destruct (dlookup _ _); [|done]. injection E as <- _. unfold part_of. cbn [projection].
    unfold reduce_event in Er. apply raise_if_Ok in Er as [_ Er]. rewrite Hb in Er. cbn [rbind] in Er.
    apply raise_if_Ok in Er as [_ Er]. destruct (apply_event _ _ _ _ _) as [r|]; [|done]. cbn [rbind] in Er.
    apply raise_if_Ok in Er as [_ Er]. injection Er as <-. cbn [parts]. by rewrite dget_dset_ne. }
  destruct (part_of s (transaction_id body)) as [old|].
  - apply raise_if_Ok in H as [_ H]. destruct (_ || _); [by injection H as <- _|]. apply raise_if_Ok in H as [_ H]. by eapply He.
  - apply raise_if_Ok in H as [_ H]. by eapply He.
Qed.

Lemma only_serve m : transaction_id (m_body m) = id → only id (serve digest cfg m).
Proof.
  intros Hid w. unfold serve. destruct (shards w !! _) as [s|] eqn:Es; [|by apply framed_same].
  destruct (action _ _ _ _ _ _ _) as [[s' p]|e] eqn:Ea; [|by apply framed_same]. split; [|by exists []; rewrite app_nil_r].
  intros i other Hne. cbn [fst]. rewrite part_at_set by (by eapply lookup_lt_Some). case_decide as Hi; [|done].
  unfold part_at. rewrite Hi, Es. eapply action_frame; [exact Ea|]. by rewrite Hid.
Qed.

Lemma only_act i body kind role : transaction_id body = id → only id (act digest cfg i body kind role).
Proof.
  intros Hid. unfold act. apply only_bind.
  - unfold send. apply only_fault. intros []; try apply only_pure; [by apply only_serve| |by intros w; apply framed_same].
    intros w. by apply (only_serve (mk_message i body kind role)).
  - intros p. unfold check_part. destruct (participant _ _ _); apply only_pure.
Qed.

Lemma only_read i body role : only id (read_part i body role).
Proof.
  unfold read_part. apply only_fault. intros []; try apply only_pure. apply only_bind.
  - intros w. destruct (shards w !! _); by apply framed_same.
  - intros p. unfold check_part. destruct (participant _ _ _); apply only_pure.
Qed.

Lemma only_advance v : transaction_id (v_intent v) = id → only id (advance digest cfg id v).
Proof.
  intros Hid. assert (∀ i kind role, only id (do* _ := act digest cfg i (v_intent v) kind role in mret tt)) as Hact
    by (intros i kind role; apply only_bind; [by apply only_act|intros; apply only_pure]).
  assert (∀ d, only id (append_entry (Decided id d))) as Hd by (intros d; by apply only_append).
  assert (∀ st, only id (append_entry (Completed id st))) as Hc by (intros st; by apply only_append).
  unfold advance. apply only_bind; [apply only_read|]. intros l. destruct (_ =? _).
  - apply only_bind; [|done]. destruct l; [apply only_pure|by apply only_act].
  - apply only_bind; [apply only_read|]. intros r. destruct (v_decision v) as [[]|]; repeat case_match; auto. apply only_pure.
Qed.

Lemma only_attempt v : transaction_id (v_intent v) = id → only id (attempt digest cfg id v).
Proof.
  intros Hid w. unfold attempt. pose proof (only_advance v Hid w) as Ha. destruct (advance _ _ _ _ w) as [w1 [[]|e]]; [done|].
  destruct (_ && _); [|done]. eapply framed_trans; [exact Ha|].
  apply only_bind; [by apply only_append|intros; apply only_pure].
Qed.
End frame.

(** ** The distance of all transfers from their ends *)

Lemma project_others id rows C C' :
  project rows C = Ok C' → Forall (λ e, entry_id e = id) rows → id ∈ dkeys C →
  dkeys C' = dkeys C ∧ ∀ other, other ≠ id → dget other C' = dget other C.
Proof.
  revert C. induction rows as [|e rows IH]; intros C; simpl; [by intros [= <-]|].
  destruct (project_entry C e) as [C1|] eqn:E; [|done]. cbn [rbind]. intros H [He Hall]%Forall_cons Hid.
  apply project_entry_cases in E as (v & -> & _). rewrite He in H.
  destruct (IH _ H Hall) as [H1 H2]; [by rewrite dkeys_dset_in|]. rewrite dkeys_dset_in in H1 by done.
  split; [done|]. intros other Hne. rewrite H2 by done. by apply dget_dset_ne.
Qed.

Lemma sum_le {A} (f g : A → nat) l : (∀ y, y ∈ l → (f y <= g y)%nat) → (sum_list_with f l <= sum_list_with g l)%nat.
Proof.
  induction l as [|y l IH]; intros Hle; simpl; [done|]. pose proof (Hle y (list_elem_of_here _ _)).
  pose proof (IH (λ x Hx, Hle x (list_elem_of_further _ _ _ Hx))). lia.
Qed.

Lemma sum_lower {A} (f g : A → nat) l x :
  (∀ y, y ∈ l → (f y <= g y)%nat) → x ∈ l → (f x < g x)%nat → (sum_list_with f l < sum_list_with g l)%nat.
Proof.
  induction l as [|y l IH]; intros Hle Hx Hlt; [by apply not_elem_of_nil in Hx|]. simpl.
  pose proof (Hle y (list_elem_of_here _ _)). assert (∀ z, z ∈ l → (f z <= g z)%nat) as Hl by (intros z Hz; apply Hle; by right).
  apply elem_of_cons in Hx as [<-|Hx]; [pose proof (sum_le f g l Hl); lia|]. specialize (IH Hl Hx Hlt). lia.
Qed.

Section worker.
Context (digest : string → Z) (cfg : Config) (Hcount : 1 <= c_count cfg).
Local Notation winv := (winv digest cfg).
Local Notation rank := (rank digest cfg).

Lemma cross_rank_range d l r : (1 <= cross_rank d l r <= 6)%nat.
Proof.
  unfold cross_rank, missing. destruct d as [[]|]; repeat case_bool_decide; try lia.
  destruct (lost l || lost r), l, r; lia.
Qed.

Lemma rank_range w v : (rank w v <= 6)%nat.
Proof.
  unfold rank. destruct (negb _); [lia|]. destruct (is_local _ _ _); [lia|].
  pose proof (cross_rank_range (v_decision v) (status_at w (source_index digest cfg (v_intent v)) (transaction_id (v_intent v)))
    (status_at w (destination_index digest cfg (v_intent v)) (transaction_id (v_intent v)))). lia.
Qed.

Lemma rank_zero w v : rank w v = 0%nat ↔ v_status v ≠ PENDING.
Proof.
  unfold rank. destruct (decide (v_status v = PENDING)) as [Hp|Hp].
  - rewrite bool_decide_true by done. cbn [negb]. destruct (is_local _ _ _); [done|].
    pose proof (cross_rank_range (v_decision v) (status_at w (source_index digest cfg (v_intent v)) (transaction_id (v_intent v)))
      (status_at w (destination_index digest cfg (v_intent v)) (transaction_id (v_intent v)))). split; [lia|done].
  - by rewrite bool_decide_false.
Qed.

Definition distance (w : World) (C : dict string Transfer) : nat :=
  sum_list_with (λ id, match dget id C with Some v => rank w v | None => O end) (dkeys C).

Lemma distance_lower C C' w w' v v' :
  winv C w → winv C' w' → framed (transaction_id (v_intent v)) w w' →
  dget (transaction_id (v_intent v)) C = Some v → dget (transaction_id (v_intent v)) C' = Some v' →
  (rank w' v' < rank w v)%nat → dkeys C' = dkeys C ∧ (distance w' C' < distance w C)%nat.
Proof.
  intros Hinv Hinv' [Hparts (rows & Hrows & Hall)] Hv Hv' Hr. set (id := transaction_id (v_intent v)) in *.
  pose proof (wi_project _ _ _ _ Hinv') as Hp. rewrite Hrows, project_app, (wi_project _ _ _ _ Hinv) in Hp. cbn [rbind] in Hp.
  destruct (project_others id rows C C' Hp Hall (dget_in_key _ _ _ Hv)) as [Hk Ho]. split; [done|].
  unfold distance. rewrite Hk. apply (sum_lower _ _ _ id); [|by eapply dget_in_key|by rewrite Hv, Hv'].
  intros other _. destruct (decide (other = id)) as [->|Hne]; [rewrite Hv, Hv'; lia|]. rewrite (Ho other Hne). destruct (dget other C) as [x|] eqn:Ex; [|done].
  destruct (wi_transfers _ _ _ _ Hinv other x Ex) as (Ei & _ & _).
  unfold TransferWork.rank, status_at. rewrite !Hparts by (rewrite Ei; done). done.
Qed.

Lemma distance_bound w C : (distance w C <= 6 * length C)%nat.
Proof.
  unfold distance. rewrite <- (length_fmap fst C). fold (dkeys C). induction (dkeys C) as [|id ids IH]; simpl; [lia|].
  destruct (dget id C) as [v|]; [pose proof (rank_range w v)|]; lia.
Qed.
End worker.

(** ** A step is a move *)

Section refinement.
Context (digest : string → Z) (cfg : Config).
Local Notation step := (step digest cfg).

Lemma same_world w : mk_world (journal w) (pending w) (shards w) (network w) (oracle w) = w.
Proof. by destruct w. Qed.

Lemma no_move w faults : make_move digest cfg w (faults, Deliver (length (network w))) = with_faults w faults.
Proof. unfold make_move. cbn [snd fst network]. by rewrite lookup_ge_None_2. Qed.

(** The rest of [step] behind its synchronisation. *)
Lemma step_eq now c :
  step now c =
    match project (journal (world c)) [] with
    | Raise e => (c, Raise e)
    | Ok state =>
        if bool_decide (pending (world c) = []) && negb (existsb (λ v, bool_decide (v_status v = PENDING)) (dvalues state))
        then (c, Ok Idle)
        else match sync (world c) with
             | (w, Raise e) => (mk_coordinator w (retries c) (cursor c), Raise e)
             | (w, Ok _) =>
                 if now <? 0 then (mk_coordinator w (retries c) (cursor c), Raise ValueError)
                 else match project (journal w) [] with
                      | Raise e => (mk_coordinator w (retries c) (cursor c), Raise e)
                      | Ok commands =>
                          match filter (λ x, v_status x.2 = PENDING ∧ blocked (retries c) now x.1 = false) (rotate (cursor c) commands) with
                          | [] => (mk_coordinator w (retries c) (cursor c), Ok Idle)
                          | (id, value) :: _ =>
                              match attempt digest cfg id value w with
                              | (w', Raise e) => (mk_coordinator w' (retries c) (Some id), Raise e)
                              | (w', Ok Advanced) => (mk_coordinator w' (ddel id (retries c)) (Some id), Ok (Progress id))
                              | (w', Ok Canceling) => (mk_coordinator w' (retries c) (Some id), Ok (Progress id))
                              | (w', Ok (Broke e)) =>
                                  let n := failures (dget_or no_retry id (retries c)) + 1 in
                                  (mk_coordinator w' (dset id (mk_retry n (now + back_off n) (5 <=? n)) (retries c)) (Some id), Ok (Failed id (5 <=? n)))
                              end
                          end
                      end
             end
    end.
Proof.
  unfold Transfers.step, mbind, on_world, observe, committed, set_cursor, change_retries, mret, mraise. destruct c as [w rs cu]. cbn [world retries cursor].
  destruct (project (journal w) []) as [state|e]; [|done]. rewrite negb_involutive. destruct (_ && _); [done|].
  cbn [world retries cursor]. destruct (sync w) as [w1 [[]|e]]; [|done]. destruct (now <? 0); [done|]. cbn [world retries cursor].
  destruct (project (journal w1) []) as [commands|e]; [|done]. cbn [world retries cursor].
  destruct (filter _ _) as [|[id value] rest]; [done|]. cbn [world retries cursor].
  by destruct (attempt digest cfg id value w1) as [w2 [[]|e]].
Qed.

Lemma rotate_in x last commands : x ∈ rotate last commands → x ∈ commands.
Proof.
  unfold rotate. set (n := match last with Some _ => _ | None => _ end). rewrite elem_of_app.
  intros [H|H]; [by apply (subseteq_drop n)|by apply (subseteq_take n)].
Qed.
Lemma rotate_all x last commands : x ∈ commands → x ∈ rotate last commands.
Proof.
  unfold rotate. set (n := match last with Some _ => _ | None => _ end). rewrite <- (take_drop n commands) at 1.
  rewrite !elem_of_app. tauto.
Qed.

Lemma first_chosen retry now last commands id value rest :
  filter (λ x, v_status x.2 = PENDING ∧ blocked retry now x.1 = false) (rotate last commands) = (id, value) :: rest →
  (id, value) ∈ commands ∧ v_status value = PENDING ∧ blocked retry now id = false.
Proof.
  intros E. assert ((id, value) ∈ filter (λ x, v_status x.2 = PENDING ∧ blocked retry now x.1 = false) (rotate last commands))
    as [[H1 H2] Hin]%list_elem_of_filter by (rewrite E; by left). split; [by eapply rotate_in|done].
Qed.

Lemma none_chosen retry now last commands id value :
  filter (λ x, v_status x.2 = PENDING ∧ blocked retry now x.1 = false) (rotate last commands) = [] →
  (id, value) ∈ commands → v_status value ≠ PENDING ∨ blocked retry now id = true.
Proof.
  intros E Hin. destruct (decide (v_status value = PENDING)) as [Hp|]; [|by left]. right.
  destruct (blocked retry now id) eqn:Eb; [done|]. assert ((id, value) ∈ @nil (string * Transfer)) as []%not_elem_of_nil.
  rewrite <- E. apply list_elem_of_filter. split; [done|]. by apply rotate_all.
Qed.

Lemma project_dict rows C C' : dict_ok C → project rows C = Ok C' → dict_ok C'.
Proof.
  revert C. induction rows as [|e rows IH]; intros C Hc; simpl; [by intros [= <-]|].
  destruct (project_entry C e) as [C1|] eqn:E; [|done]. apply IH. apply project_entry_cases in E as (v & -> & _). by apply dset_ok.
Qed.

(** [step] without its idle answer and its clock is [work] of some transfer. *)
Lemma step_move now c :
  ∃ mv, world (step now c).1 = make_move digest cfg (world c) (oracle (world c), mv).
Proof.
  set (w := world c). assert (∀ id, make_move digest cfg w (oracle w, Work id) = (work digest cfg id w).1) as Hwork
    by (intros id; unfold make_move; cbn [fst snd]; by rewrite same_world).
  assert (∀ (o : Coordinator), world o = w → ∃ mv, world o = make_move digest cfg w (oracle w, mv)) as Hnone.
  { intros o ->. exists (Deliver (length (network w))). rewrite no_move. unfold with_faults. by rewrite same_world. }
  rewrite step_eq. fold w. destruct (project (journal w) []) as [state|e]; [|by apply Hnone]. destruct (_ && _); [by apply Hnone|].
  assert (∀ id, (work digest cfg id w).1 = match sync w with
    | (w1, Ok _) => match project (journal w1) [] with
                    | Ok commands => match dget id commands with
                                     | Some v => if bool_decide (v_status v = PENDING) then (attempt digest cfg id v w1).1 else w1
                                     | None => w1
                                     end
                    | Raise _ => w1
                    end
    | (w1, Raise _) => w1
    end) as Hw.
  { intros id. unfold work, mbind, committed. destruct (sync w) as [w1 [[]|e]]; [|done].
    destruct (project (journal w1) []) as [commands|e]; [|done]. destruct (dget id commands) as [v|]; [|done].
    destruct (bool_decide _); [|done]. cbn [negb]. by destruct (attempt _ _ _ _ _) as [w2 [a|e]]. }
  destruct (sync w) as [w1 [[]|e]] eqn:Es; [|exists (Work ""); by rewrite Hwork, Hw].
  assert (∀ (o : Coordinator), world o = w1 → ∃ mv, world o = make_move digest cfg w (oracle w, mv)) as Hsync.
  { intros o ->. destruct (project (journal w1) []) as [commands|e]; [|exists (Work ""); by rewrite Hwork, Hw].
    exists (Work (fresh (dkeys commands))). rewrite Hwork, Hw. rewrite (proj2 (dget_None _ _)); [done|]. apply infinite_is_fresh. }
  destruct (now <? 0); [by apply Hsync|]. destruct (project (journal w1) []) as [commands|e] eqn:Ep; [|by apply Hsync].
  destruct (filter _ _) as [|[id value] rest] eqn:Ef; [by apply Hsync|].
  destruct (first_chosen _ _ _ _ _ _ _ Ef) as (Hin & Hpend & _).
  exists (Work id). rewrite Hwork, Hw. rewrite (proj2 (dget_Some _ _ _ (project_dict _ _ _ dict_nil_ok Ep)) Hin), bool_decide_true by done.
  by destruct (attempt digest cfg id value w1) as [w2 [[]|e]].
Qed.

Lemma retry_world id c : world (retry id c).1 = world c.
Proof.
  unfold retry, mbind, on_world, committed, change_retries. destruct c as [w rs cu]. cbn [world].
  destruct (project (journal w) []) as [C|e]; [|done]. by destruct (dmem id C).
Qed.

Lemma handle_retries c ev : dict_ok (retries c) → dict_ok (retries (handle digest cfg c ev)).
Proof.
  intros Hok. assert (∀ A (m : M A) c, retries (on_world m c).1 = retries c) as Hon by (intros A m c'; unfold on_world; by destruct (m _)).
  assert (∀ id c, dict_ok (retries c) → dict_ok (retries (retry id c).1)) as Hretry.
  { intros id c' Hc'. unfold retry, mbind, on_world, committed, change_retries. destruct (project _ []); [|done].
    destruct (dmem id _); [by apply ddel_ok|done]. }
  destruct ev as [faults [body owner|now|id|id|n|]]; unfold handle; cbn [fst snd]; [by rewrite Hon| | |by apply Hretry| |done].
  - rewrite step_eq. cbn [retries world cursor]. repeat case_match; cbn [retries fst]; try done; [by apply ddel_ok|by apply dset_ok].
  - unfold cancel_request, mbind at 1. pose proof (Hon _ (cancel digest cfg id) (mk_coordinator (with_faults (world c) faults) (retries c) (cursor c))) as Hc.
    destruct (on_world _ _) as [c1 [[]|e]]; cbn [fst] in Hc |- *; [apply Hretry|]; by rewrite Hc.
  - cbn [world]. destruct (_ !! n); [by rewrite Hon|done].
Qed.

Lemma revived c id C : project (journal (world c)) [] = Ok C → dmem id C = true →
  world (handle digest cfg c ([], Revive id)) = with_faults (world c) [] ∧ retries (handle digest cfg c ([], Revive id)) = ddel id (retries c).
Proof.
  intros Hp Hid. unfold handle, retry, mbind, on_world, committed, change_retries. cbn. by rewrite Hp, Hid.
Qed.

(** Every event makes one move of the world. *)
Lemma handle_move c ev :
  ∃ mv, world (handle digest cfg c ev) = make_move digest cfg (world c) (ev.1, mv).
Proof.
  destruct ev as [faults e]. unfold handle. cbn [fst snd]. set (w := with_faults (world c) faults).
  assert (∀ A (m : M A), world (on_world m (mk_coordinator w (retries c) (cursor c))).1 = (m w).1) as Hon
    by (intros A m; unfold on_world; cbn [world]; by destruct (m w)).
  assert (∀ rs cu, ∃ mv, world (mk_coordinator w rs cu) = make_move digest cfg (world c) (faults, mv)) as Hnone
    by (intros; exists (Deliver (length (network (world c)))); by rewrite no_move).
  destruct e as [body owner|now|id|id|n|].
  - exists (Create body owner). apply Hon.
  - destruct (step_move now (mk_coordinator w (retries c) (cursor c))) as [mv ->]. by exists mv.
  - exists (CancelRequest id). unfold cancel_request, mbind at 1. pose proof (Hon _ (cancel digest cfg id)) as Hc.
    destruct (on_world _ _) as [c1 [[]|e]]; cbn [fst] in Hc |- *; [|exact Hc]. by rewrite retry_world.
  - rewrite retry_world. apply Hnone.
  - cbn [world w]. change (network w) with (network (world c)). destruct (network (world c) !! n) as [m|] eqn:Em; [|apply Hnone].
    exists (Deliver n). unfold make_move. cbn [fst snd network]. rewrite Em. apply Hon.
  - apply Hnone.
Qed.
End refinement.

(** ** Steps without faults *)

Section progress.
Context (digest : string → Z) (cfg : Config) (Hcount : 1 <= c_count cfg).
Local Notation winv := (winv digest cfg).
Local Notation step := (step digest cfg).
Local Notation distance := (distance digest cfg).

(** Rows of retries only disappear. *)
Definition fewer (rs rs' : dict string Retry) : Prop := ∀ id, dget id rs' = dget id rs ∨ dget id rs' = None.

Lemma fewer_ddel rs id : dict_ok rs → fewer rs (ddel id rs).
Proof. intros Hok other. rewrite dget_ddel by done. case_decide; auto. Qed.

Lemma fewer_blocked rs rs' now now' id : fewer rs rs' → 0 <= now <= now' → blocked rs now id = false → blocked rs' now' id = false.
Proof.
  intros Hf Hn. unfold blocked, dget_or. destruct (Hf id) as [->| ->].
  - rewrite !orb_false_iff, !Z.ltb_ge. intros [-> ?]. split; [done|lia].
  - intros _. apply orb_false_iff. split; [done|]. apply Z.ltb_ge. cbn. lia.
Qed.

(** A step without faults: all is committed, and either a transfer came nearer to
    its end, or every pending one is blocked. *)
Record went (now : Z) (C : dict string Transfer) (c c' : Coordinator) : Prop := {
  wn_pending : pending (world c') = [];
  wn_oracle : oracle (world c') = [];
  wn_retries : dict_ok (retries c') ∧ fewer (retries c) (retries c');
  wn_progress : ∃ C', winv C' (world c') ∧ commands_kept C C' ∧
    ((distance (world c') C' < distance (world c) C)%nat ∨
     C' = C ∧ ∀ id v, dget id C = Some v → v_status v ≠ PENDING ∨ blocked (retries c) now id = true);
}.

Lemma step_went now C c :
  winv C (world c) → oracle (world c) = [] → dict_ok (retries c) → 0 <= now → went now C c (step now c).1.
Proof.
  intros Hinv Ho Hrs Hnow. destruct c as [w rs cu]. cbn [world retries] in *. rewrite step_eq. cbn [world retries cursor].
  assert (∀ w', pending w' = [] → oracle w' = [] → winv C w' → (∀ id v, dget id C = Some v → v_status v ≠ PENDING ∨ blocked rs now id = true) →
    ∀ cu', went now C (mk_coordinator w rs cu) (mk_coordinator w' rs cu')) as Hidle.
  { intros w' Hp' Ho' Hw' Hall cu'. split; [done|done|split; [done|by left]|]. exists C. split; [done|]. split; [apply commands_kept_refl|by right]. }
  pose proof (wi_project _ _ _ _ Hinv) as HC. rewrite project_app in HC.
  destruct (project (journal w) []) as [state|] eqn:Ep; [|done]. cbn [rbind] in HC.
  destruct (bool_decide (pending w = []) && _) eqn:Eidle.
  { apply andb_true_iff in Eidle as [Hp%bool_decide_eq_true Hn%negb_true_iff]. rewrite Hp in HC. injection HC as ->.
    apply Hidle; try done. intros id v Hv. left. intros Hs.
    assert (existsb (λ v, bool_decide (v_status v = PENDING)) (dvalues C) = true) as Ht; [|congruence].
    apply existsb_exists. exists v. split; [|by apply bool_decide_eq_true].
    apply list_elem_of_In. eapply elem_dvalues; [|by exists id]. apply Hinv. }
  pose proof (wp_sync digest cfg C w Hinv) as Hs. unfold wp in Hs. destruct (sync w) as [w1 [[]|e]]; [|by destruct Hs as (_ & _ & _ & ?)].
  destruct Hs as (Ha & Hp & Es). pose proof (af_inv _ _ _ _ _ Ha) as Hinv1. pose proof (af_oracle _ _ _ _ _ Ha Ho) as Ho1.
  rewrite (proj2 (Z.ltb_ge now 0)) by done.
  pose proof (wi_project _ _ _ _ Hinv1) as HC1. rewrite Hp, app_nil_r in HC1. rewrite HC1.
  destruct (filter _ _) as [|[id v] rest] eqn:Ef.
  { apply Hidle; try done. intros id v Hv. apply (none_chosen _ _ _ _ id v Ef). by apply dget_Some_elem. }
  destruct (first_chosen _ _ _ _ _ _ _ Ef) as (Hin & Hpend & Hb). cbn [fst].
  assert (dget id C = Some v) as Hv by (apply (dget_Some id v C); [apply Hinv|done]).
  destruct (wi_transfers _ _ _ _ Hinv1 id v Hv) as (Ei & _ & _). subst id.
  pose proof (wp_try digest cfg Hcount C v w1 Hv Hpend Hinv1 Hp) as Hatt. unfold wp in Hatt.
  pose proof (only_attempt digest cfg _ v eq_refl w1) as Hframe.
  destruct (attempt digest cfg _ v w1) as [w2 [o|e]]; [|by destruct Hatt].
  destruct Hatt as [[-> (Hp2 & C' & v' & Hst & Hv' & Hr)]|[? _]]; [|done]. cbn [fst] in *.
  destruct Hst as [S1 S2 S3 S4 S5].
  destruct (distance_lower digest cfg C C' w1 w2 v v' Hinv1 S1 Hframe Hv Hv' Hr) as [_ Hd].
  split; cbn [world retries]; [done|by apply S5|split; [by apply ddel_ok|by apply fewer_ddel]|]. exists C'. split; [done|]. split; [done|]. left.
  eapply Nat.lt_le_trans; [exact Hd|]. apply Nat.eq_le_incl. unfold TransferWorker.distance, rank, status_at, part_at. by rewrite Es.
Qed.

(** Steps without faults bring every transfer that is not blocked to its end. *)
Definition steps (times : list Z) : list (list Fault * event) := map (λ t, ([], Step t)) times.

Lemma steps_settle now times C c :
  times ≠ [] → winv C (world c) → dict_ok (retries c) → 0 <= now → Forall (λ t, now <= t) times →
  let c' := run_events digest cfg c (steps times) in
  pending (world c') = [] ∧ ∃ C', winv C' (world c') ∧ commands_kept C C' ∧
    ((distance (world c) C < length times)%nat →
     ∀ id v, dget id C = Some v → blocked (retries c) now id = false → ∃ v', dget id C' = Some v' ∧ v_status v' ≠ PENDING).
Proof.
  revert C c. induction times as [|t times IH]; intros C c Hne Hinv Hrs Hnow Hall; [done|]. apply Forall_cons in Hall as [Ht Hall].
  cbn [steps map run_events foldl length]. fold (steps times). set (c0 := mk_coordinator (with_faults (world c) []) (retries c) (cursor c)).
  assert (winv C (world c0)) as Hinv0 by (by apply (winv_same digest cfg C (world c))).
  change (handle digest cfg c ([], Step t)) with (step t c0).1. set (c1 := (step t c0).1).
  destruct (step_went t C c0 Hinv0 eq_refl Hrs ltac:(lia)) as [Hp Ho [Hrs1 Hf] (C1 & Hinv1 & Hk1 & Hcase)]. fold c1 in Hp, Ho, Hrs1, Hf, Hinv1, Hcase.
  change (distance (world c0) C) with (distance (world c) C) in Hcase.
  assert (∀ id v, dget id C = Some v → v_status v ≠ PENDING ∨ blocked (retries c) t id = true → blocked (retries c) now id = false →
    dget id C = Some v ∧ v_status v ≠ PENDING) as Hdone.
  { intros id v Hv [Hs|Hb] Hnb; [done|]. assert (blocked (retries c) t id = false) as Hb'; [|by rewrite Hb' in Hb].
    by apply (fewer_blocked (retries c) _ now t); [left| |]. }
  destruct (decide (times = [])) as [->|Htimes].
  - cbn [steps map foldl length]. split; [done|]. exists C1. split; [done|]. split; [done|]. intros Hd id v Hv Hnb.
    destruct Hcase as [Hlt|[-> Hcase]]; [lia|]. exists v. by apply (Hdone id v Hv (Hcase id v Hv)).
  - destruct (IH C1 c1 Htimes Hinv1 Hrs1 Hnow Hall) as (Hp2 & C2 & Hinv2 & Hk2 & Hset). split; [exact Hp2|]. exists C2.
    split; [exact Hinv2|]. split; [by eapply commands_kept_trans|]. intros Hd id v Hv Hnb.
    destruct Hcase as [Hlt|[-> Hcase]].
    + destruct (Hk1 id v Hv) as (v1 & Hv1 & _). apply (Hset ltac:(lia) id v1 Hv1). by apply (fewer_blocked (retries c) _ now now).
    + destruct (Hdone id v Hv (Hcase id v Hv) Hnb) as [_ Hs]. destruct (Hk2 id v Hv) as (v2 & Hv2 & _ & _ & H2). exists v2. split; [done|].
      by rewrite (H2 Hs).
Qed.
End progress.
