(* ===== verification/TransferProps.v ===== *)
(** * Properties of the digital wallet's transfers

    What holds after any requests, worker steps and deliveries, under any faults:
    transfers are atomic, their outcomes final, money is conserved, and without
    faults every transfer comes to its end. *)
From S2P Require Import Prelude PyList PyDict Checks Effects Wallet Transfers TransferInv TransferWork TransferWorker.
Local Open Scope Z_scope.

Section moves.
Context (digest : string → Z) (cfg : Config) (Hcount : 1 <= c_count cfg).
Local Notation winv := (winv digest cfg).

Lemma start_ok w : dict_ok (c_accounts cfg) → start digest cfg = Ok w → winv [] w.
Proof.
  intros Hok. unfold start.
  destruct (mapR _ _) as [ss|] eqn:E; [|done]. cbn [rbind]. intros [= <-]. apply mapR_Ok_inv in E.
  assert (dict_ok (opening_of cfg)) as Hop.
  { unfold dict_ok, opening_of. by rewrite (dkeys_map snd). }
  assert (∀ i s, 0 <= i < c_count cfg → ss !! Z.to_nat i = Some s →
    new_shard digest i (c_count cfg) (opening_of cfg) (c_epoch cfg) (c_leader cfg) = Ok s) as Hs.
  { intros i s Hi Hs. destruct (Forall2_lookup_r _ _ _ _ _ E Hs) as (j & Hj & Hn).
    apply lookup_seqZ in Hj as [-> _]. rewrite Z.add_0_l, Z2Nat.id in Hn by lia. done. }
  assert (∀ i id, 0 <= i < c_count cfg → part_at (mk_world [] [] ss [] []) i id = None) as Hnone.
  { intros i id Hi. unfold part_at. simpl. destruct (ss !! Z.to_nat i) as [s|] eqn:Es; [|done].
    destruct (new_shard_ok digest _ _ _ _ _ _ Hop (Hs i s Hi Es)) as (_ & _ & _ & _ & Hp).
    unfold part_of. by rewrite Hp. }
  split; simpl; try done.
  - constructor.
  - split; simpl; [rewrite <- (Forall2_length _ _ _ E), length_seqZ; done|]. intros i s Hi Es. pose proof (Hs i s Hi Es) as Hn.
    destruct (new_shard_ok digest _ _ _ _ _ _ Hop Hn) as (H1 & H2 & H3 & H4 & _). split; [done|done|done|].
    unfold new_shard in Hn. do 2 apply raise_if_Ok in Hn as [_ Hn]. apply raise_if_Ok in Hn as [Hf _].
    apply orb_false_iff in Hf as [Hf1 Hf2]. unfold check_fence. rewrite Hf1, Hf2, H4. cbn [raise_if fst snd].
    rewrite Z.eqb_refl, bool_decide_true by done. done.
  - intros i id p Hi. by rewrite Hnone.
  - intros m Hm. by apply not_elem_of_nil in Hm.
Qed.

(** One move, whatever the faults. *)
Record moved (C C' : dict string Transfer) (w w' : World) : Prop := {
  mv_inv : winv C' w';
  mv_commands : commands_kept C C';
  mv_parts : parts_kept w w';
  mv_journal : journal w `prefix_of` journal w';
}.

Lemma make_move_ok C w mv : winv C w → ∃ C', moved C C' w (make_move digest cfg w mv).
Proof.
  intros Hinv. destruct mv as [faults mv]. unfold make_move. simpl.
  set (w0 := mk_world _ _ _ _ faults).
  assert (winv C w0) as Hinv0 by (by apply (winv_same digest cfg C w)).
  assert (parts_kept w w0) as Hk0 by (by apply parts_kept_same).
  assert (∀ C' w', stepped digest cfg C C' w0 w' → moved C C' w w') as Hst.
  { intros C' w' [S1 S2 S3 S4 _]. split; [done|done|exact (parts_kept_trans w w0 w' Hk0 S3)|done]. }
  destruct mv as [body owner|id|id|n].
  - pose proof (wp_create digest cfg Hcount C w0 body owner Hinv0) as H. unfold wp in H.
    destruct (create cfg body owner w0) as [w' [v|e]]; simpl.
    + destruct H as (C' & Hs & _). eauto.
    + destruct H as (C' & Hs). eauto.
  - pose proof (wp_work digest cfg Hcount C w0 id Hinv0) as H. unfold wp in H.
    destruct (work digest cfg id w0) as [w' [v|e]]; simpl.
    + destruct H as (C' & Hs). eauto.
    + destruct H as (C' & Hs). eauto.
  - pose proof (wp_cancel digest cfg C w0 id Hinv0) as H. unfold wp in H.
    destruct (cancel digest cfg id w0) as [w' [v|e]]; simpl.
    + destruct H as (C' & Hs & _). eauto.
    + destruct H as (C' & Hs). eauto.
  - destruct (network w !! n) as [m|] eqn:Em.
    + destruct (wi_network _ _ _ _ Hinv0 m) as [v Hp]; [by eapply list_elem_of_lookup_2|].
      destruct (serve_spec digest cfg Hcount C w0 m v Hinv0 Hp) as (w' & p & -> & Ha & _). simpl. exists C.
      by apply Hst, after_stepped.
    + exists C. apply Hst. by apply after_stepped, after_refl.
Qed.

Lemma run_moves_ok C w moves : winv C w → ∃ C', moved C C' w (run_moves digest cfg w moves).
Proof.
  revert C w. induction moves as [|mv moves IH]; intros C w Hinv; simpl.
  - exists C. split; [done|apply commands_kept_refl|by apply parts_kept_same|done].
  - destruct (make_move_ok C w mv Hinv) as (C1 & [H1 H2 H3 H3']). destruct (IH C1 _ H1) as (C2 & [H4 H5 H6 H6']).
    exists C2. split; [done|by eapply commands_kept_trans|by eapply parts_kept_trans|by etrans].
Qed.

(** Events are moves of the world. *)
Lemma run_events_ok C c events :
  winv C (world c) → dict_ok (retries c) →
  let c' := run_events digest cfg c events in dict_ok (retries c') ∧ ∃ C', winv C' (world c').
Proof.
  revert C c. induction events as [|ev events IH]; intros C c Hinv Hrs; [by split; [|exists C]|]. cbn [run_events foldl].
  destruct (handle_move digest cfg c ev) as [mv Hmv]. destruct (make_move_ok C (world c) (ev.1, mv) Hinv) as (C1 & [H1 _ _ _]).
  rewrite <- Hmv in H1. apply (IH C1); [done|]. by apply handle_retries.
Qed.
End moves.

(** What the statuses of its participants may be, for each way a transfer ends. *)
Lemma cross_outcome d st l r :
  cross_ok d st l r = true →
  (st = SUCCEEDED → l = Some CONFIRMED ∧ r = Some CONFIRMED) ∧
  (st = ABANDONED → l = Some CANCELED ∧ r = Some CANCELED) ∧ st ≠ DECLINED ∧
  (r = Some CONFIRMED → l = Some CONFIRMED) ∧
  (l = Some CONFIRMED → d = Some COMMIT ∧ (r = Some PREPARED ∨ r = Some CONFIRMED)).
Proof.
  destruct d as [[]|], st, l as [[]|]; intros H; try discriminate H; destruct r as [[]|]; try discriminate H;
    split_and?; intros; try discriminate; try (split; [reflexivity|]); auto.
Qed.

Lemma local_outcome d st o :
  local_ok d st o = true →
  (st = SUCCEEDED → o = Some CONFIRMED) ∧ st ≠ ABANDONED ∧ (st = DECLINED → o = Some REJECTED).
Proof. destruct d as [[]|], st, o as [[]|]; intros H; try discriminate H; split_and?; intros; done. Qed.

(** ** Money *)

(** What an account holds in all, and the money of a shard. *)
Definition total (b : Balance) : Z := available b + held b.
Definition shard_money (s : Shard) : Z := zsum total (dvalues (accounts (projection s))).
Definition money (w : World) : Z := zsum shard_money (shards w).

(** Debited on the source's shard, but not yet credited on the destination's. *)
Definition in_transit (digest : string → Z) (cfg : Config) (w : World) (v : Transfer) : Z :=
  let id := transaction_id (v_intent v) in
  when (bool_decide (status_at w (source_index digest cfg (v_intent v)) id = Some CONFIRMED)
        && negb (bool_decide (status_at w (destination_index digest cfg (v_intent v)) id = Some CONFIRMED)))
    (amount (v_intent v)).

(** What a participant took from its shard, and what it brought. *)
Definition taken (p : Part) : Z :=
  when (bool_decide (p_role p ≠ DESTINATION ∧ p_status p = CONFIRMED)) (amount (p_intent p)).
Definition brought (p : Part) : Z :=
  when (bool_decide (p_role p ≠ SOURCE ∧ p_status p = CONFIRMED)) (amount (p_intent p)).

Lemma zsum_minus {A} (f g : A → Z) l : zsum (λ x, f x - g x) l = zsum f l - zsum g l.
Proof. induction l as [|x l IH]; simpl; lia. Qed.

Lemma zsum_debited p ks :
  NoDup ks → (p_role p ≠ DESTINATION → p_status p = CONFIRMED → from_account (p_intent p) ∈ ks) →
  zsum (λ a, debited a p) ks = taken p.
Proof.
  intros Hnd Hin. unfold debited, taken. case_bool_decide as H.
  - rewrite <- (zsum_ext (λ a, when (bool_decide (from_account (p_intent p) = a)) (amount (p_intent p)))).
    + rewrite zsum_when by done. rewrite bool_decide_true; [done|]. by apply Hin; apply H.
    + intros a _. f_equal. apply bool_decide_ext. naive_solver.
  - simpl. apply zsum_zero. intros a _. rewrite bool_decide_false; [done|]. naive_solver.
Qed.

Lemma zsum_credited p ks :
  NoDup ks → (p_role p ≠ SOURCE → p_status p = CONFIRMED → to_account (p_intent p) ∈ ks) →
  zsum (λ a, credited a p) ks = brought p.
Proof.
  intros Hnd Hin. unfold credited, brought. case_bool_decide as H.
  - rewrite <- (zsum_ext (λ a, when (bool_decide (to_account (p_intent p) = a)) (amount (p_intent p)))).
    + rewrite zsum_when by done. rewrite bool_decide_true; [done|]. by apply Hin; apply H.
    + intros a _. f_equal. apply bool_decide_ext. naive_solver.
  - simpl. apply zsum_zero. intros a _. rewrite bool_decide_false; [done|]. naive_solver.
Qed.

(** A shard's money is its opening money, less what was taken, plus what was
    brought. *)
Lemma shard_accounts opening st :
  shard_state_ok opening st →
  zsum total (dvalues (accounts st)) =
  zsum id (dvalues opening) - zsum taken (dvalues (parts st)) + zsum brought (dvalues (parts st)).
Proof.
  intros [K1 K2 K3 [B1 B2 B3 B4]]. set (ps := dvalues (parts st)) in *.
  assert (∀ p, p ∈ ps → part_ok (dkeys opening) (transaction_id (p_intent p)) p) as Hps.
  { intros p (i & Hp)%elem_dvalues; [|done]. pose proof (K3 i p Hp) as Hk. by rewrite (pk_id _ _ _ Hk). }
  rewrite (zsum_keys total (λ a, dget_or 0 a opening - zsum (debited a) ps + zsum (credited a) ps));
    [|unfold dict_ok; by rewrite B1|exact B3].
  rewrite zsum_plus, zsum_minus, (zsum_swap debited), (zsum_swap credited), B1.
  rewrite (zsum_keys id (λ a, dget_or 0 a opening)); [|done|intros k v Hk; symmetry; by apply dget_or_Some].
  f_equal; [f_equal|]; apply zsum_ext; intros p Hp; pose proof (Hps p Hp) as [_ _ _ F T].
  - apply zsum_debited; [done|]. intros. apply F; auto.
  - apply zsum_credited; [done|]. intros. apply T; auto.
Qed.

(** Over all shards. *)
Lemma zsum_indices {A} (f : A → Z) l :
  zsum f l = zsum (λ i, match l !! Z.to_nat i with Some x => f x | None => 0 end) (seqZ 0 (Z.of_nat (length l))).
Proof.
  induction l as [|x l IH] using rev_ind; [done|]. rewrite length_app. simpl. rewrite Nat2Z.inj_add, seqZ_app by lia.
  rewrite !zsum_app. f_equal.
  - rewrite IH. apply zsum_ext. intros i Hi%elem_of_seqZ. by rewrite lookup_app_l by lia.
  - rewrite Z.add_0_l, seqZ_cons, seqZ_nil by lia. simpl. rewrite Nat2Z.id, list_lookup_middle by done. done.
Qed.

Lemma zsum_one (f : Z → Z) k n : 0 <= k < n → (∀ i, 0 <= i < n → i ≠ k → f i = 0) → zsum f (seqZ 0 n) = f k.
Proof.
  intros Hk Hf. rewrite (zsum_ext f (λ i, when (bool_decide (k = i)) (f k))).
  - rewrite zsum_when by apply NoDup_seqZ. by rewrite bool_decide_true by (apply elem_of_seqZ; lia).
  - intros i Hi%elem_of_seqZ. case_bool_decide; [by subst|]. apply Hf; [lia|done].
Qed.

Lemma opening_split (digest : string → Z) n (opening : dict string Z) :
  0 < n → zsum (λ i, zsum id (dvalues (accounts_of digest i n opening))) (seqZ 0 n) = zsum id (dvalues opening).
Proof.
  intros Hn. unfold dvalues. rewrite zsum_fmap.
  rewrite (zsum_ext _ (λ i, zsum (λ x : string * Z, if decide (digest x.1 mod n = i) then id x.2 else 0) opening)).
  2:{ intros i _. unfold accounts_of. by rewrite zsum_fmap, zsum_filter. }
  rewrite zsum_swap. apply zsum_ext. intros x _.
  rewrite (zsum_one _ (digest x.1 mod n)); [by rewrite decide_True|by apply Z.mod_pos_bound|].
  intros i _ Hne. by rewrite decide_False.
Qed.

Section conservation.
Context (digest : string → Z) (cfg : Config) (Hcount : 1 <= c_count cfg).
Context (C : dict string Transfer) (w : World) (Hinv : winv digest cfg C w).

Definition at_shard (f : Part → Z) (i : Z) (id : string) : Z :=
  match part_at w i id with Some p => f p | None => 0 end.

Lemma money_parts :
  money w = zsum id (dvalues (opening_of cfg)) - zsum (λ id, zsum (λ i, at_shard taken i id) (seqZ 0 (c_count cfg))) (dkeys C)
            + zsum (λ id, zsum (λ i, at_shard brought i id) (seqZ 0 (c_count cfg))) (dkeys C).
Proof.
  unfold money. rewrite zsum_indices. pose proof (wi_shards _ _ _ _ Hinv) as [Hl _]. rewrite Hl, Z2Nat.id by lia.
  rewrite (zsum_ext _ (λ i, zsum id (dvalues (accounts_of digest i (c_count cfg) (opening_of cfg)))
    - zsum (at_shard taken i) (dkeys C) + zsum (at_shard brought i) (dkeys C))).
  - rewrite zsum_plus, zsum_minus, opening_split by lia. by rewrite (zsum_swap (at_shard taken)), (zsum_swap (at_shard brought)).
  - intros i Hi%elem_of_seqZ. destruct (shard_there digest cfg Hcount C w i Hinv) as (s & Es & [[_ A1 _] _ _ _]); [lia|].
    rewrite Es. unfold shard_money. rewrite (shard_accounts _ _ A1).
    assert (∀ f, zsum f (dvalues (parts (projection s))) = zsum (at_shard f i) (dkeys C)) as Hf.
    { intros f. rewrite (zsum_over f _ (dkeys C)); [|apply A1|apply Hinv|].
      - apply zsum_ext. intros id _. unfold at_shard, part_at, part_of. by rewrite Es.
      - intros id [p Hp]%dget_key. destruct (wi_parts _ _ _ _ Hinv i id p) as (v & V1 & _); [lia| |by eapply dget_in_key].
        unfold part_at, part_of. by rewrite Es. }
    by rewrite !Hf.
Qed.

Section transfer.
Context (id : string) (v : Transfer) (Hv : dget id C = Some v).

Lemma part_here i p :
  0 <= i < c_count cfg → part_at w i id = Some p → p_intent p = v_intent v ∧ placed digest cfg (v_intent v) i (p_role p).
Proof.
  intros Hi Hp. destruct (wi_parts _ _ _ _ Hinv i id p Hi Hp) as (v' & V1 & V2 & V3).
  assert (v' = v) as -> by congruence. done.
Qed.

Lemma taken_at_source :
  zsum (λ i, at_shard taken i id) (seqZ 0 (c_count cfg)) =
  when (bool_decide (status_at w (source_index digest cfg (v_intent v)) id = Some CONFIRMED)) (amount (v_intent v)).
Proof.
  rewrite (zsum_one _ (source_index digest cfg (v_intent v))); [|by apply source_range|]; unfold at_shard, status_at.
  - destruct (part_at w _ id) as [p|] eqn:Ep; [|done]. simpl. destruct (part_here _ p (source_range _ _ Hcount _) Ep) as [V1 V2].
    unfold taken. rewrite V1. f_equal. apply bool_decide_ext. split; [by intros [_ ->]|]. intros [= Hs]. split; [|done].
    intros Hr. rewrite Hr in V2. destruct V2 as [V2 V3]. by apply is_local_false in V3.
  - intros i Hi Hne. destruct (part_at w i id) as [p|] eqn:Ep; [|done]. destruct (part_here i p Hi Ep) as [_ V2].
    unfold taken. rewrite bool_decide_false; [done|]. intros [Hr _]. destruct (p_role p); by destruct V2.
Qed.

Lemma brought_at_destination :
  zsum (λ i, at_shard brought i id) (seqZ 0 (c_count cfg)) =
  when (bool_decide (status_at w (destination_index digest cfg (v_intent v)) id = Some CONFIRMED)) (amount (v_intent v)).
Proof.
  rewrite (zsum_one _ (destination_index digest cfg (v_intent v))); [|by apply destination_range|]; unfold at_shard, status_at.
  - destruct (part_at w _ id) as [p|] eqn:Ep; [|done]. simpl. destruct (part_here _ p (destination_range _ _ Hcount _) Ep) as [V1 V2].
    unfold brought. rewrite V1. f_equal. apply bool_decide_ext. split; [by intros [_ ->]|]. intros [= Hs]. split; [|done].
    intros Hr. rewrite Hr in V2. destruct V2 as [V2 V3]. by apply is_local_false in V3.
  - intros i Hi Hne. destruct (part_at w i id) as [p|] eqn:Ep; [|done]. destruct (part_here i p Hi Ep) as [_ V2].
    unfold brought. rewrite bool_decide_false; [done|]. intros [Hr _].
    destruct (p_role p); destruct V2 as [V2 V3]; try done. apply Z.eqb_eq in V3. congruence.
Qed.
End transfer.

Lemma money_conserved : money w + zsum (in_transit digest cfg w) (dvalues C) = zsum id (dvalues (opening_of cfg)).
Proof.
  rewrite money_parts.
  rewrite (zsum_keys (in_transit digest cfg w) (λ id, zsum (λ i, at_shard taken i id) (seqZ 0 (c_count cfg))
    - zsum (λ i, at_shard brought i id) (seqZ 0 (c_count cfg)))); [rewrite zsum_minus; lia|apply Hinv|].
  intros id v Hv. rewrite (taken_at_source id v Hv), (brought_at_destination id v Hv). unfold in_transit.
  destruct (wi_transfers _ _ _ _ Hinv id v Hv) as (-> & _ & T). unfold when.
  destruct (is_local digest cfg (v_intent v)) eqn:El.
  - apply Z.eqb_eq in El. rewrite El. case_bool_decide; simpl; lia.
  - destruct (cross_outcome _ _ _ _ T) as (_ & _ & _ & H & _). repeat case_bool_decide; simpl; try lia. tauto.
Qed.
End conservation.

(** ** Atomicity *)

Section theorems.
Context (digest : string → Z) (cfg : Config) (Hcount : 1 <= c_count cfg) (Haccounts : dict_ok (c_accounts cfg)).
Context (w0 : World) (Hstart : start digest cfg = Ok w0).

Lemma reach moves : ∃ C, winv digest cfg C (run_moves digest cfg w0 moves).
Proof.
  destruct (run_moves_ok digest cfg Hcount [] w0 moves) as (C & [H _ _ _]); [by apply start_ok|]. by exists C.
Qed.

(** C32: after any sequence of requests, worker steps and late or repeated
    deliveries, under any faults, every participant on a shard belongs to an
    accepted transfer; a transfer reported as succeeded is confirmed on both
    sides, one reported as canceled on neither; money is never credited before it
    was debited, and never debited across shards without a decision to commit,
    the destination being prepared by then. *)
Theorem transfers_atomic moves :
  let w := run_moves digest cfg w0 moves in
  ∃ C, project (journal w ++ pending w) [] = Ok C ∧
    (∀ i id p, 0 <= i < c_count cfg → part_at w i id = Some p →
       ∃ v, dget id C = Some v ∧ p_intent p = v_intent v ∧
         (i = source_index digest cfg (v_intent v) ∨ i = destination_index digest cfg (v_intent v))) ∧
    ∀ id v, dget id C = Some v →
      let l := status_at w (source_index digest cfg (v_intent v)) id in
      let r := status_at w (destination_index digest cfg (v_intent v)) id in
      (v_status v = SUCCEEDED → l = Some CONFIRMED ∧ r = Some CONFIRMED) ∧
      (v_status v = ABANDONED → l = Some CANCELED ∧ r = Some CANCELED) ∧
      (v_status v = DECLINED → l = Some REJECTED ∧ r = Some REJECTED) ∧
      (r = Some CONFIRMED → l = Some CONFIRMED) ∧
      (l = Some CONFIRMED → source_index digest cfg (v_intent v) ≠ destination_index digest cfg (v_intent v) →
         v_decision v = Some COMMIT ∧ (r = Some PREPARED ∨ r = Some CONFIRMED)).
Proof.
  intros w. destruct (reach moves) as [C Hinv]. exists C. split; [apply Hinv|]. split.
  - intros i id p Hi Hp. destruct (wi_parts _ _ _ _ Hinv i id p Hi Hp) as (v & V1 & V2 & V3). exists v.
    split; [done|]. split; [done|]. destruct (p_role p), V3 as [-> _]; auto.
  - intros id v Hv. destruct (wi_transfers _ _ _ _ Hinv id v Hv) as (_ & _ & T). cbv zeta.
    destruct (is_local digest cfg (v_intent v)) eqn:El.
    + destruct (local_outcome _ _ _ T) as (H1 & H2 & H3). apply Z.eqb_eq in El. rewrite <- El in *. split_and?; auto; done.
    + destruct (cross_outcome _ _ _ _ T) as (H1 & H2 & H3 & H4 & H5). split_and?; auto; done.
Qed.

(** What a client has read stays true: of two readings of the committed
    journal, the later one has every transfer of the earlier one, with the same
    content and decision, and unchanged once it had ended; and no participant
    that was confirmed or canceled changes again. *)
Theorem outcomes_final moves moves' C1 :
  let w1 := run_moves digest cfg w0 moves in
  let w2 := run_moves digest cfg w1 moves' in
  project (journal w1) [] = Ok C1 →
  ∃ C2, project (journal w2) [] = Ok C2 ∧
    (∀ id v, dget id C1 = Some v →
       ∃ v', dget id C2 = Some v' ∧ v_intent v' = v_intent v ∧ (v_decision v ≠ None → v_decision v' = v_decision v) ∧
         (v_status v ≠ PENDING → v' = v)) ∧
    (∀ i id p, part_at w1 i id = Some p → p_status p = CONFIRMED ∨ p_status p = CANCELED → part_at w2 i id = Some p).
Proof.
  intros w1 w2 Hp1. destruct (reach moves) as [C Hinv].
  destruct (run_moves_ok digest cfg Hcount C w1 moves' Hinv) as (C' & [H1 H2 H3 [rest Hj]]). fold w2 in H1, H3, Hj.
  pose proof (wi_project _ _ _ _ H1) as Hp. rewrite project_app in Hp.
  destruct (project (journal w2) []) as [C2|] eqn:E2; [|done]. exists C2. split; [done|]. split.
  - rewrite Hj, project_app, Hp1 in E2. simpl in E2. by apply project_kept in E2.
  - intros i id p Hpart Hs. destruct (H3 i id p Hpart) as (q & -> & _ & _ & Hq). by rewrite (Hq Hs).
Qed.

(** C33: money is neither created nor lost: the balances of all shards, held
    money included, and what has been debited but not yet credited, add up to the
    configured opening balances, at every moment and under any faults. *)
Theorem transfers_conserve moves C :
  let w := run_moves digest cfg w0 moves in
  project (journal w ++ pending w) [] = Ok C →
  money w + zsum (in_transit digest cfg w) (dvalues C) = zsum id (dvalues (opening_of cfg)).
Proof.
  intros w Hp. destruct (reach moves) as [C' Hinv]. pose proof (wi_project _ _ _ _ Hinv) as Hp'. fold w in Hp'.
  rewrite Hp in Hp'. injection Hp' as ->. by apply money_conserved.
Qed.

(** A transfer of the given content has ended, in the committed journal. *)
Definition ended (c : Coordinator) (id : string) (body : Intent) : Prop :=
  ∃ C v, project (journal (world c)) [] = Ok C ∧ dget id C = Some v ∧ v_intent v = body ∧ v_status v ≠ PENDING.

Lemma steps_end C c now times id v :
  winv digest cfg C (world c) → dict_ok (retries c) → 0 <= now → Forall (λ t, now <= t) times →
  length times = S (6 * length C) → dget id C = Some v → blocked (retries c) now id = false →
  ended (run_events digest cfg c (steps times)) id (v_intent v).
Proof.
  intros Hinv Hrs Hnow Hall Hlen Hv Hnb.
  destruct (steps_settle digest cfg Hcount now times C c ltac:(by destruct times) Hinv Hrs Hnow Hall) as (Hp & C' & Hinv' & Hk & Hset).
  pose proof (distance_bound digest cfg (world c) C). destruct (Hset ltac:(lia) id v Hv Hnb) as (v' & Hv' & Hs).
  destruct (Hk id v Hv) as (v2 & Hv2 & Hi & _). assert (v2 = v') as -> by congruence.
  pose proof (wi_project _ _ _ _ Hinv') as Hj. rewrite Hp, app_nil_r in Hj. by exists C', v'.
Qed.

(** C34: transfers complete.  Take any state of the coordinator, after any requests,
    steps of the worker, retries, restarts and late deliveries under any faults, and
    let the worker step from then on without faults, at any times from [now] on.
    After seven steps and six more for each further transfer, every transfer that the
    table of retries does not block at [now] - its row is neither dead nor due later -
    has come to its end in the committed journal.  One that is blocked, because five
    attempts failed or its delay is not over, does so after the administrator's
    retry. *)
Theorem transfers_complete events C now times id v :
  let c := run_events digest cfg (mk_coordinator w0 [] None) events in
  project (journal (world c) ++ pending (world c)) [] = Ok C → dget id C = Some v →
  0 <= now → Forall (λ t, now <= t) times → length times = S (6 * length C) →
  (blocked (retries c) now id = false → ended (run_events digest cfg c (steps times)) id (v_intent v)) ∧
  ((∃ C0, project (journal (world c)) [] = Ok C0 ∧ dmem id C0 = true) →
   ended (run_events digest cfg c (([], Revive id) :: steps times)) id (v_intent v)).
Proof.
  intros c Hp Hv Hnow Hall Hlen.
  destruct (run_events_ok digest cfg Hcount [] (mk_coordinator w0 [] None) events) as [Hrs [C1 Hinv]]; [by apply start_ok|apply dict_nil_ok|].
  fold c in Hrs, Hinv. pose proof (wi_project _ _ _ _ Hinv) as Hp'. rewrite Hp in Hp'. injection Hp' as <-.
  split; [by apply (steps_end C c now)|]. intros (C0 & Hp0 & Hid).
  change (run_events digest cfg c (([], Revive id) :: steps times)) with (run_events digest cfg (handle digest cfg c ([], Revive id)) (steps times)).
  destruct (revived digest cfg c id C0 Hp0 Hid) as (Ew & Er). apply (steps_end C _ now); try done; rewrite ?Ew, ?Er.
  - by apply (winv_same digest cfg C (world c)).
  - by apply ddel_ok.
  - unfold blocked, dget_or. rewrite dget_ddel_eq by done. apply orb_false_iff. split; [done|]. apply Z.ltb_ge. cbn. lia.
Qed.

(** The replies are durable: a creation that returns, also a repeated one,
    has its transfer in the committed journal with the requested content, and a
    cancellation that returns has the decision to cancel there. *)
Theorem transfer_replies moves faults :
  let w := run_moves digest cfg w0 moves in
  let now := mk_world (journal w) (pending w) (shards w) (network w) faults in
  (∀ body owner w' v, create cfg body owner now = (w', Ok v) →
     ∃ C, project (journal w') [] = Ok C ∧ dget (transaction_id body) C = Some v ∧ v_intent v = body) ∧
  (∀ id w', cancel digest cfg id now = (w', Ok tt) →
     ∃ C v, project (journal w') [] = Ok C ∧ dget id C = Some v ∧ v_decision v = Some CANCEL).
Proof.
  intros w now. destruct (reach moves) as [C Hinv]. fold w in Hinv.
  assert (winv digest cfg C now) as Hnow by (by apply (winv_same digest cfg C w)).
  assert (∀ P w', replied digest cfg C now P w' → ∃ C', project (journal w') [] = Ok C' ∧ P C') as Hrep.
  { intros P w' (C' & Hs & Hp & HP). exists C'. split; [|done].
    pose proof (wi_project _ _ _ _ (st_inv _ _ _ _ _ _ Hs)) as H. by rewrite Hp, app_nil_r in H. }
  split.
  - intros body owner w' v E. pose proof (wp_create digest cfg Hcount C now body owner Hnow) as H. unfold wp in H.
    rewrite E in H. destruct (Hrep _ _ H) as (C' & H1 & H2). by exists C'.
  - intros id w' E. pose proof (wp_cancel digest cfg C now id Hnow) as H. unfold wp in H.
    rewrite E in H. destruct (Hrep _ _ H) as (C' & H1 & v & H2). by exists C', v.
Qed.
End theorems.

(** ** Two shards, told apart by the length of an account's name *)

Definition demo_config : Config :=
  mk_config [("al", ("ann", 100)); ("bob", ("ben", 50)); ("eve", ("eli", 7))] 2 1 "lead".

(** The debit is executed but its reply lost; the transfer goes on and commits;
    the confirmation of the source arrives late, and twice. *)
Definition demo_moves : list (list Fault * move) :=
  [([], Create demo_transfer "ann"); ([Fine; Fine; Fine; Lost], Work "t1"); ([], Work "t1"); ([], Work "t1");
   ([Fine; Fine; Fine; Late], Work "t1"); ([], Deliver 0); ([], Deliver 0)].

Ltac demo_start w0 E :=
  destruct (start demo_digest demo_config) as [w0|] eqn:E; [|vm_compute in E; discriminate].

Lemma demo_accounts : dict_ok (c_accounts demo_config).
Proof. apply (bool_decide_unpack _). by vm_compute. Qed.

Lemma transfers_atomic_witness :
  ∃ w0, start demo_digest demo_config = Ok w0 ∧
    status_at (run_moves demo_digest demo_config w0 demo_moves) 0 "t1" = Some CONFIRMED ∧
    ∃ C, project (journal (run_moves demo_digest demo_config w0 demo_moves)
                  ++ pending (run_moves demo_digest demo_config w0 demo_moves)) [] = Ok C.
Proof.
  demo_start w0 E. exists w0. split; [done|]. split.
  { vm_compute in E. injection E as <-. by vm_compute. }
  destruct (transfers_atomic demo_digest demo_config ltac:(vm_compute; done) demo_accounts w0 E demo_moves) as (C & H & _).
  by exists C.
Defined.

Lemma outcomes_final_witness :
  ∃ w0 C1, start demo_digest demo_config = Ok w0 ∧
    project (journal (run_moves demo_digest demo_config w0 demo_moves)) [] = Ok C1 ∧
    ∃ C2, project (journal (run_moves demo_digest demo_config (run_moves demo_digest demo_config w0 demo_moves)
      [([], Work "t1"); ([], CancelRequest "t1"); ([], Deliver 0)])) [] = Ok C2.
Proof.
  demo_start w0 E. exists w0.
  destruct (project (journal (run_moves demo_digest demo_config w0 demo_moves)) []) as [C1|] eqn:E1.
  - exists C1. split; [done|]. split; [done|].
    destruct (outcomes_final demo_digest demo_config ltac:(vm_compute; done) demo_accounts w0 E demo_moves
      [([], Work "t1"); ([], CancelRequest "t1"); ([], Deliver 0)] C1 E1) as (C2 & H & _).
    by exists C2.
  - vm_compute in E. injection E as <-. vm_compute in E1. discriminate.
Defined.

Lemma transfers_conserve_witness :
  ∃ w0 C, start demo_digest demo_config = Ok w0 ∧
    project (journal (run_moves demo_digest demo_config w0 demo_moves)
             ++ pending (run_moves demo_digest demo_config w0 demo_moves)) [] = Ok C ∧
    money (run_moves demo_digest demo_config w0 demo_moves) = 127 ∧
    zsum (in_transit demo_digest demo_config (run_moves demo_digest demo_config w0 demo_moves)) (dvalues C) = 30.
Proof.
  demo_start w0 E. exists w0.
  destruct (project (journal (run_moves demo_digest demo_config w0 demo_moves)
             ++ pending (run_moves demo_digest demo_config w0 demo_moves)) []) as [C|] eqn:E1.
  - exists C. split; [done|]. split; [done|].
    pose proof (transfers_conserve demo_digest demo_config ltac:(vm_compute; done) demo_accounts w0 E demo_moves C E1) as H.
    assert (money (run_moves demo_digest demo_config w0 demo_moves) = 127) as Hm
      by (vm_compute in E; injection E as <-; by vm_compute).
    rewrite Hm in H. split; [exact Hm|].
    assert (zsum id (dvalues (opening_of demo_config)) = 157) as Ho by (by vm_compute). lia.
  - vm_compute in E. injection E as <-. vm_compute in E1. discriminate.
Defined.

(** The first participant cannot be reached five times: the transfer is dead.  Without
    faults the worker is then idle; after a retry it brings the transfer to its end. *)
Definition demo_dead : list (list Fault * event) :=
  ([], Submit demo_transfer "ann") :: map (λ t, ([Fine; Down], Step t)) [0; 1000000; 2000000; 3000000; 5000000].
Definition demo_times : list Z := seqZ 60000000 7.

Lemma transfers_complete_witness :
  ∃ w0 C v, start demo_digest demo_config = Ok w0 ∧
    let c := run_events demo_digest demo_config (mk_coordinator w0 [] None) demo_dead in
    project (journal (world c) ++ pending (world c)) [] = Ok C ∧ dget "t1" C = Some v ∧
    dget "t1" (retries c) = Some (mk_retry 5 8200000 true) ∧
    project (journal (world (run_events demo_digest demo_config c (steps demo_times)))) [] = Ok C ∧ v_status v = PENDING ∧
    ended (run_events demo_digest demo_config c (([], Revive "t1") :: steps demo_times)) "t1" demo_transfer.
Proof.
  demo_start w0 E. set (c := run_events demo_digest demo_config (mk_coordinator w0 [] None) demo_dead).
  assert (dget "t1" (retries c) = Some (mk_retry 5 8200000 true)) as Hrow by (vm_compute in E; injection E as <-; vm_compute; reflexivity).
  assert (project (journal (world c) ++ pending (world c)) [] = Ok [("t1", mk_transfer demo_transfer None PENDING)]) as Hp
    by (vm_compute in E; injection E as <-; vm_compute; reflexivity).
  assert (project (journal (world (run_events demo_digest demo_config c (steps demo_times)))) [] = Ok [("t1", mk_transfer demo_transfer None PENDING)]) as Hidle
    by (vm_compute in E; injection E as <-; vm_compute; reflexivity).
  assert (project (journal (world c)) [] = Ok [("t1", mk_transfer demo_transfer None PENDING)]) as Hj
    by (vm_compute in E; injection E as <-; vm_compute; reflexivity).
  exists w0, [("t1", mk_transfer demo_transfer None PENDING)], (mk_transfer demo_transfer None PENDING).
  split; [done|]. split; [exact Hp|]. split; [reflexivity|]. split; [exact Hrow|]. split; [exact Hidle|]. split; [reflexivity|].
  destruct (transfers_complete demo_digest demo_config ltac:(vm_compute; done) demo_accounts w0 E demo_dead
    [("t1", mk_transfer demo_transfer None PENDING)] 60000000 demo_times "t1" (mk_transfer demo_transfer None PENDING) Hp eq_refl
    ltac:(lia) ltac:(repeat constructor; discriminate) eq_refl) as [_ H].
  apply H. exists [("t1", mk_transfer demo_transfer None PENDING)]. split; [exact Hj|reflexivity].
Defined.

Lemma transfer_replies_witness :
  ∃ w0 w' v, start demo_digest demo_config = Ok w0 ∧
    create demo_config demo_transfer "ann" (run_moves demo_digest demo_config w0 [([], Create demo_transfer "ann")]) = (w', Ok v) ∧
    v_intent v = demo_transfer.
Proof.
  demo_start w0 E.
  destruct (create demo_config demo_transfer "ann" (run_moves demo_digest demo_config w0 [([], Create demo_transfer "ann")]))
    as [w' [v|e]] eqn:E1; [|vm_compute in E; injection E as <-; vm_compute in E1; discriminate].
  exists w0, w', v. split; [done|]. split; [exact E1|].
  destruct (transfer_replies demo_digest demo_config ltac:(vm_compute; done) demo_accounts w0 E [([], Create demo_transfer "ann")] [])
    as [H _].
  assert (∀ w, oracle w = [] → mk_world (journal w) (pending w) (shards w) (network w) [] = w) as Hw
    by (by intros [] <-).
  rewrite Hw in H by (vm_compute in E; injection E as <-; by vm_compute).
  by destruct (H demo_transfer "ann" w' v E1) as (C & _ & _ & H').
Defined.
