(* ===== verification/Frontier.v ===== *)
(** * The frontier of the web crawler

    Models src/web-crawler/src/web_crawler/frontier.py: URLs wait in one heap
    per host; the heads of the hosts that may be fetched are published in a ready
    heap, which may hold superseded items, and the other hosts wait in a heap of
    wake-up times.  The specification is one list of items by priority and
    arrival, of which the first with an eligible host is served.

    Clock readings and the delay are integers of a fine unit.  The host of an
    entry is a field: urllib computes it from the URL. *)
From S2P Require Import Prelude PyList PyDict.
Local Open Scope Z_scope.

Inductive Priority := HIGH | MEDIUM | LOW.
Definition priority_value (p : Priority) : Z := match p with HIGH => 0 | MEDIUM => 1 | LOW => 2 end.
#[export] Instance priority_eq_dec : EqDecision Priority.
Proof. solve_decision. Defined.

Record FrontierEntry := mk_entry {
  url : string;
  priority : Priority;
  depth : Z;
  host : string;
}.
#[export] Instance entry_eq_dec : EqDecision FrontierEntry.
Proof. solve_decision. Defined.

(** A tuple in the heaps; its counter is unique, so the entry is not compared. *)
Record Item := mk_item { i_priority : Z; i_counter : Z; i_entry : FrontierEntry }.
#[export] Instance item_eq_dec : EqDecision Item.
Proof. solve_decision. Defined.
Definition item_key (x : Item) : Z * Z := (i_priority x, i_counter x).
Definition i_host (x : Item) : string := host (i_entry x).

Record Frontier := mk_frontier {
  per_host_delay : Z;
  front_queue : list Item;
  counter : Z;
  back_queues : dict string (list Item);
  delayed : list (Z * string);
  waiting : dict string Z;
  host_last_access : dict string Z;
  size : Z;
  active_hosts : list string;
}.

Definition new_frontier (delay : Z) : Frontier := mk_frontier delay [] 0 [] [] [] [] 0 [].

Definition with_front (f : Frontier) (front : list Item) : Frontier :=
  mk_frontier (per_host_delay f) front (counter f) (back_queues f) (delayed f) (waiting f) (host_last_access f)
    (size f) (active_hosts f).
Definition with_waiting (f : Frontier) (del : list (Z * string)) (wait : dict string Z) : Frontier :=
  mk_frontier (per_host_delay f) (front_queue f) (counter f) (back_queues f) del wait (host_last_access f)
    (size f) (active_hosts f).
Definition with_access (f : Frontier) (last : dict string Z) (active : list string) : Frontier :=
  mk_frontier (per_host_delay f) (front_queue f) (counter f) (back_queues f) (delayed f) (waiting f) last
    (size f) active.

Definition schedule (f : Frontier) (h : string) (now : Z) : Frontier :=
  if bool_decide (h ∈ active_hosts f) || dmem h (waiting f) then f else
  match dget h (back_queues f) with
  | None | Some [] => f
  | Some (x :: _) =>
      let due := match dget h (host_last_access f) with None => now | Some t => t + per_host_delay f end in
      if now <? due
      then with_waiting f (heappush id (due, h) (delayed f)) (dset h due (waiting f))
      else with_front f (heappush item_key x (front_queue f))
  end.

Definition put (f : Frontier) (now : Z) (e : FrontierEntry) : Frontier :=
  let queue := default [] (dget (host e) (back_queues f)) in
  let item := mk_item (priority_value (priority e)) (counter f) e in
  let queue := heappush item_key item queue in
  let f := mk_frontier (per_host_delay f) (front_queue f) (counter f + 1) (dset (host e) queue (back_queues f))
             (delayed f) (waiting f) (host_last_access f) (size f + 1) (active_hosts f) in
  if bool_decide (head queue = Some item) then schedule f (host e) now else f.

(** The loop over the due wake-ups; each pops one, and what it pushes is later
    than [now]. *)
Fixpoint wake (fuel : nat) (f : Frontier) (now : Z) : Frontier :=
  match fuel, delayed f with
  | S n, (due, h) :: rest =>
      if due <=? now then
        let f := with_waiting f rest (waiting f) in
        wake n (if bool_decide (dget h (waiting f) = Some due)
                then schedule (with_waiting f (delayed f) (ddel h (waiting f))) h now else f) now
      else f
  | _, _ => f
  end.

(** Whether a published item is still the head of an eligible host. *)
Definition current (f : Frontier) (x : Item) : bool :=
  match dget (i_host x) (back_queues f) with
  | None | Some [] => false
  | Some (y :: _) =>
      (i_counter y =? i_counter x) && negb (bool_decide (i_host x ∈ active_hosts f)) && negb (dmem (i_host x) (waiting f))
  end.

Fixpoint next_current (f : Frontier) (front : list Item) : option Item * list Item :=
  match front with
  | [] => (None, [])
  | x :: front' => if current f x then (Some x, front') else next_current f front'
  end.

Definition get (f : Frontier) (now : Z) (reserve : bool) : Frontier * option FrontierEntry :=
  let f := wake (length (delayed f)) f now in
  match next_current f (front_queue f) with
  | (None, front) => (with_front f front, None)
  | (Some x, front) =>
      let h := i_host x in
      let queue := tail (default [] (dget h (back_queues f))) in
      let queues := match queue with [] => ddel h (back_queues f) | _ => dset h queue (back_queues f) end in
      let f := mk_frontier (per_host_delay f) front (counter f) queues (delayed f) (waiting f)
                 (dset h now (host_last_access f)) (size f - 1) (active_hosts f) in
      (if reserve then with_access f (host_last_access f) (h :: active_hosts f) else schedule f h now, Some (i_entry x))
  end.

Definition complete (f : Frontier) (now : Z) (e : FrontierEntry) : Frontier :=
  let f := with_access f (dset (host e) now (host_last_access f)) (filter (λ h, h ≠ host e) (active_hosts f)) in
  let f := with_waiting f (delayed f) (ddel (host e) (waiting f)) in
  schedule f (host e) now.

Definition is_empty (f : Frontier) : bool := size f =? 0.

(** ** Operations, and the specification *)

Inductive Op := Put (e : FrontierEntry) | Get (reserve : bool) | Complete (e : FrontierEntry).

Definition step (f : Frontier) (now : Z) (op : Op) : Frontier * option FrontierEntry :=
  match op with
  | Put e => (put f now e, None)
  | Get reserve => get f now reserve
  | Complete e => (complete f now e, None)
  end.

Fixpoint run (f : Frontier) (ops : list (Z * Op)) : Frontier * list (option FrontierEntry) :=
  match ops with
  | [] => (f, [])
  | (now, op) :: ops' =>
      let (f1, r) := step f now op in
      let (f2, rs) := run f1 ops' in (f2, r :: rs)
  end.

(** The specification: the items by priority and arrival, the last access of
    each host and the reserved hosts. *)
Record Spec := mk_spec {
  sp_delay : Z;
  pending : list Item;
  arrivals : Z;
  last : dict string Z;
  reserved : list string;
}.

Definition eligible (sp : Spec) (now : Z) (h : string) : bool :=
  negb (bool_decide (h ∈ reserved sp)) &&
  match dget h (last sp) with None => true | Some t => t + sp_delay sp <=? now end.

Definition spec_step (sp : Spec) (now : Z) (op : Op) : Spec * option FrontierEntry :=
  match op with
  | Put e =>
      (mk_spec (sp_delay sp) (insert_by item_key (mk_item (priority_value (priority e)) (arrivals sp) e) (pending sp))
         (arrivals sp + 1) (last sp) (reserved sp), None)
  | Get reserve =>
      match filter (λ x, eligible sp now (i_host x) = true) (pending sp) with
      | [] => (sp, None)
      | x :: _ =>
          (mk_spec (sp_delay sp) (filter (λ y, y ≠ x) (pending sp)) (arrivals sp) (dset (i_host x) now (last sp))
             (if reserve then i_host x :: reserved sp else reserved sp), Some (i_entry x))
      end
  | Complete e =>
      (mk_spec (sp_delay sp) (pending sp) (arrivals sp) (dset (host e) now (last sp))
         (filter (λ h, h ≠ host e) (reserved sp)), None)
  end.

Fixpoint spec_run (sp : Spec) (ops : list (Z * Op)) : Spec * list (option FrontierEntry) :=
  match ops with
  | [] => (sp, [])
  | (now, op) :: ops' =>
      let (sp1, r) := spec_step sp now op in
      let (sp2, rs) := spec_run sp1 ops' in (sp2, r :: rs)
  end.

Definition new_spec (delay : Z) : Spec := mk_spec delay [] 0 [] [].

(** The clock does not run backwards. *)
Fixpoint monotone (t : Z) (ops : list (Z * Op)) : Prop :=
  match ops with
  | [] => True
  | (now, _) :: ops' => t <= now ∧ monotone now ops'
  end.

(** ** Lists kept in order *)

Section filters.
Context {A K : Type} `{PyOrd K} (key : A → K) (P : A → Prop) `{∀ x, Decision (P x)}.

Lemma filter_insert_in x l : P x → ordered key l → filter P (insert_by key x l) = insert_by key x (filter P l).
Proof.
  intros Hx. induction l as [|y l IH]; intros Ho; cbn [insert_by]; [by rewrite filter_cons_True|].
  apply ordered_cons in Ho as [Ho Hy]. destruct (pyle (key x) (key y)) eqn:E.
  - rewrite filter_cons_True by done. symmetry. apply insert_by_min. intros z [_ Hz]%list_elem_of_filter.
    apply elem_of_cons in Hz as [->|Hz]; [done|]. eapply pyle_trans; [done|]. by apply Hy.
  - rewrite !filter_cons, IH by done. case_decide; [|done]. cbn [insert_by]. by rewrite E.
Qed.

Lemma filter_insert_out x l : ¬ P x → filter P (insert_by key x l) = filter P l.
Proof.
  intros Hx. induction l as [|y l IH]; cbn [insert_by]; [by rewrite filter_cons_False|].
  destruct (pyle (key x) (key y)); [by rewrite filter_cons_False|]. rewrite !filter_cons. by rewrite IH.
Qed.

Lemma head_insert x y l : head (insert_by key x (y :: l)) = Some (if pyle (key x) (key y) then x else y).
Proof. simpl. by destruct (pyle (key x) (key y)). Qed.
End filters.

(** The first of a stronger selection is the first of a weaker one that agrees
    with it on what it selects first. *)
Lemma filter_head {A} (P Q : A → Prop) `{∀ x, Decision (P x), ∀ x, Decision (Q x)} x l l' :
  filter P l = x :: l' → Q x → (∀ y, Q y → P y) → ∃ l2, filter Q l = x :: l2.
Proof.
  intros E Hx Hsub. induction l as [|y l IH]; [done|]. rewrite filter_cons in E. case_decide as Hp.
  - injection E as -> E. exists (filter Q l). by rewrite filter_cons_True.
  - destruct (IH E) as [l2 E2]. exists l2. rewrite filter_cons_False; [done|]. auto.
Qed.

Lemma filter_removed {A} `{EqDecision A} (P : A → Prop) `{∀ x, Decision (P x)} (x : A) (l : list A) :
  filter P (filter (λ y, y ≠ x) l) = filter (λ y, y ≠ x) (filter P l).
Proof. rewrite !list_filter_filter. apply filter_ext_in. naive_solver. Qed.

Lemma removed_head {A} `{EqDecision A} (x : A) (l : list A) : NoDup (x :: l) → filter (λ y, y ≠ x) (x :: l) = l.
Proof.
  intros [Hx _]%NoDup_cons. rewrite filter_cons_False by naive_solver. apply filter_all. intros y Hy ->. done.
Qed.

Lemma removed_perm {A} `{EqDecision A} (x : A) (l : list A) : NoDup l → x ∈ l → l ≡ₚ x :: filter (λ y, y ≠ x) l.
Proof.
  intros Hnd Hx. induction l as [|y l IH]; [by apply not_elem_of_nil in Hx|]. pose proof Hnd as [Hy Hl]%NoDup_cons.
  destruct (decide (y = x)) as [->|Hne]; [by rewrite removed_head|]. rewrite filter_cons_True by done.
  apply elem_of_cons in Hx as [->|Hx]; [done|]. rewrite (IH Hl Hx) at 1. apply Permutation_swap.
Qed.

(** ** The frontier represents the specification *)

Definition queue_of (sp : Spec) (h : string) : list Item := filter (λ x, i_host x = h) (pending sp).

(** [rep t ex f sp]: [f] represents [sp] at a time [t], but the host [ex] may
    have to be scheduled. *)
Record rep (t : Z) (ex : option string) (f : Frontier) (sp : Spec) : Prop := {
  r_delay : per_host_delay f = sp_delay sp;
  r_counter : counter f = arrivals sp;
  r_size : size f = Z.of_nat (length (pending sp));
  r_last : host_last_access f = last sp;
  r_active : active_hosts f = reserved sp;
  r_order : ordered item_key (pending sp);
  r_below : ∀ x, x ∈ pending sp → i_counter x < arrivals sp;
  r_unique : NoDup (i_counter <$> pending sp);
  r_dict : dict_ok (back_queues f);
  r_dict' : dict_ok (waiting f);
  r_queues : ∀ h, match dget h (back_queues f) with None => queue_of sp h = [] | Some q => q = queue_of sp h ∧ q ≠ [] end;
  r_front : ordered item_key (front_queue f);
  r_stale : ∀ x, x ∈ front_queue f → i_counter x < arrivals sp ∧ ∀ y, y ∈ pending sp → i_counter y = i_counter x → y = x;
  r_delayed : ordered id (delayed f);
  r_wait : ∀ h due, dget h (waiting f) = Some due →
    (due, h) ∈ delayed f ∧ queue_of sp h ≠ [] ∧ h ∉ reserved sp ∧ ∃ l, dget h (last sp) = Some l ∧ due = l + sp_delay sp;
  r_ready : ∀ h x q, ex ≠ Some h → queue_of sp h = x :: q → h ∉ reserved sp → dget h (waiting f) = None →
    x ∈ front_queue f ∧ eligible sp t h = true;
}.

Lemma eligible_later sp t now h : t <= now → eligible sp t h = true → eligible sp now h = true.
Proof.
  unfold eligible. intros Ht. rewrite !andb_true_iff. intros [H1 H2]. split; [done|].
  destruct (dget h (last sp)); [|done]. lia.
Qed.

Lemma rep_later t now ex f sp : t <= now → rep t ex f sp → rep now ex f sp.
Proof.
  intros Ht []. split; try done. intros h x q Hex Hq Hr Hw. destruct (r_ready0 h x q Hex Hq Hr Hw) as [H1 H2].
  split; [done|]. by eapply eligible_later.
Qed.

Lemma same_counter t ex f sp x y :
  rep t ex f sp → x ∈ pending sp → y ∈ pending sp → i_counter x = i_counter y → x = y.
Proof.
  intros Hrep Hx Hy E. apply list_elem_of_lookup in Hx as [i Hi]. apply list_elem_of_lookup in Hy as [j Hj].
  assert (i = j) as ->; [|congruence].
  eapply (NoDup_lookup (i_counter <$> pending sp) i j (i_counter x)); [apply Hrep| |];
    rewrite list_lookup_fmap; [by rewrite Hi|]. rewrite Hj. simpl. by rewrite E.
Qed.

Lemma host_head sp h x q : queue_of sp h = x :: q → x ∈ pending sp ∧ i_host x = h.
Proof.
  intros E. assert (x ∈ queue_of sp h) as Hx by (rewrite E; left). apply list_elem_of_filter in Hx. tauto.
Qed.

(** The queue of a host in the frontier. *)
Lemma queue_here t ex f sp h :
  rep t ex f sp →
  (∀ x q, dget h (back_queues f) = Some (x :: q) ↔ queue_of sp h = x :: q) ∧
  (dget h (back_queues f) = None ∨ dget h (back_queues f) = Some [] ↔ queue_of sp h = []).
Proof.
  intros Hrep. pose proof (r_queues _ _ _ _ Hrep h) as Hq.
  destruct (dget h (back_queues f)) as [[|y q']|]; [by destruct Hq|destruct Hq as [Hq _]; rewrite <- Hq|rewrite Hq].
  - split; [split; congruence|]. split; [by intros [?|?]|done].
  - split; [done|]. split; [done|by left].
Qed.

(** *** Scheduling a host, and waking the hosts that are due *)

Lemma schedule_rep t f sp h :
  rep t (Some h) f sp → rep t None (schedule f h t) sp.
Proof.
  intros Hrep. pose proof (queue_here _ _ _ _ h Hrep) as [Hq1 Hq2]. unfold schedule.
  destruct (bool_decide (h ∈ active_hosts f) || dmem h (waiting f)) eqn:E.
  { destruct Hrep; split; try done. intros h' x q _ Hq Hr Hw. destruct (decide (h' = h)) as [->|Hne].
    - apply orb_true_iff in E as [E%bool_decide_eq_true|E%dmem_true]; [congruence|].
      rewrite Hw in E. by destruct E.
    - by apply (r_ready0 h' x q); [congruence|..]. }
  apply orb_false_iff in E as [E1%bool_decide_eq_false E2%dmem_false].
  destruct (dget h (back_queues f)) as [[|x q]|] eqn:Eq.
  1,3: destruct Hrep; split; try done; intros h' y q' _ Hq' Hr Hw; destruct (decide (h' = h)) as [->|Hne];
    [rewrite (proj1 Hq2) in Hq' by auto; done|by apply (r_ready0 h' y q'); [congruence|..]].
  assert (queue_of sp h = x :: q) as Hqh by (by apply Hq1). pose proof (host_head _ _ _ _ Hqh) as [Hx Hxh].
  destruct (t <? _) eqn:Ed; destruct Hrep; split; try done.
  - simpl. by apply dset_ok.
  - by apply insert_by_ordered.
  - simpl. intros h' due. rewrite dget_dset. rewrite elem_of_insert_by. case_decide as Hh.
    + subst h'. intros [= <-]. split; [by left|]. split; [congruence|]. split; [congruence|]. rewrite r_last0, r_delay0 in *.
      destruct (dget h (last sp)) as [l|]; [|lia]. by exists l.
    + intros Hd. destruct (r_wait0 h' due Hd) as (? & ?). split; [by right|done].
  - simpl. intros h' y q' _ Hq' Hr. rewrite dget_dset. case_decide as Hh; [done|]. by apply (r_ready0 h' y q'); [congruence|..].
  - by apply insert_by_ordered.
  - simpl. intros y. rewrite elem_of_insert_by. intros [->|Hy]; [|by apply r_stale0].
    split; [by apply r_below0|]. intros z Hz Ez. apply list_elem_of_lookup in Hx as [i Hi]. apply list_elem_of_lookup in Hz as [j Hj].
    assert (j = i) as ->; [|congruence].
    eapply (NoDup_lookup (i_counter <$> pending sp)); [done| |]; rewrite list_lookup_fmap; [by rewrite Hj|].
    rewrite Hi. simpl. by rewrite Ez.
  - simpl. intros h' y q' _ Hq' Hr Hw. rewrite elem_of_insert_by. destruct (decide (h' = h)) as [->|Hne].
    + assert (y = x) as -> by congruence. split; [by left|]. unfold eligible. rewrite bool_decide_false by done.
      rewrite r_last0, r_delay0 in *. destruct (dget h (last sp)) as [l|]; [|done]. simpl. lia.
    + destruct (r_ready0 h' y q') as [? ?]; [congruence|done..|]. split; [by right|done].
Qed.

Definition due_now (now : Z) (f : Frontier) : nat := length (filter (λ p : Z * string, p.1 <= now) (delayed f)).

Lemma schedule_due now f h : due_now now (schedule f h now) = due_now now f.
Proof.
  unfold schedule, due_now. destruct (_ || _); [done|]. destruct (dget h (back_queues f)) as [[|x q]|]; [done| |done].
  destruct (now <? _) eqn:E; [|done]. simpl. by rewrite filter_insert_out by (simpl; lia).
Qed.

Lemma wake_rep n now f sp :
  rep now None f sp → (due_now now f <= n)%nat →
  let f' := wake n f now in
  rep now None f' sp ∧ ∀ d h, (d, h) ∈ delayed f' → now < d.
Proof.
  revert f. induction n as [|n IH]; intros f Hrep Hn.
  - split; [done|]. cbn [wake]. intros d h Hd. apply Z.nle_gt. intros Hle. unfold due_now in Hn.
    assert ((d, h) ∈ filter (λ p : Z * string, p.1 <= now) (delayed f)) as Hin by (by apply list_elem_of_filter).
    destruct (filter _ _); [by apply not_elem_of_nil in Hin|simpl in Hn; lia].
  - cbn [wake]. destruct (delayed f) as [|[due h] rest] eqn:Edel.
    { split; [done|]. rewrite Edel. intros d h Hd. by apply not_elem_of_nil in Hd. }
    destruct (due <=? now) eqn:Edue.
    2:{ split; [done|]. rewrite Edel. intros d h' Hd. pose proof (r_delayed _ _ _ _ Hrep) as Ho. rewrite Edel in Ho.
        pose proof (ordered_head_min _ _ _ _ Ho Hd) as Hle. apply pair_leb_spec in Hle. unfold pylt in Hle. simpl in Hle. lia. }
    set (f1 := with_waiting f rest (waiting f)).
    assert (S (due_now now f1) = due_now now f) as Ecount.
    { unfold due_now, f1. simpl. rewrite Edel, filter_cons_True by (simpl; lia). done. }
    assert (dget h (waiting f) ≠ Some due → rep now None f1 sp) as Hstale.
    { intros Hne. destruct Hrep. split; try done; simpl.
      - rewrite Edel in r_delayed0. by apply ordered_cons in r_delayed0 as [? _].
      - intros h' due' Hd. destruct (r_wait0 h' due' Hd) as (Hin & ?). split; [|done]. rewrite Edel in Hin.
        apply elem_of_cons in Hin as [[= -> ->]|?]; done. }
    assert (dget h (waiting f) = Some due → rep now (Some h) (with_waiting f rest (ddel h (waiting f))) sp) as Hwoken.
    { intros Hw. destruct Hrep. split; try done; simpl.
      - by apply ddel_ok.
      - rewrite Edel in r_delayed0. by apply ordered_cons in r_delayed0 as [? _].
      - intros h' due'. rewrite dget_ddel by done. case_decide as Hh; [done|]. intros Hd.
        destruct (r_wait0 h' due' Hd) as (Hin & ?). split; [|done]. rewrite Edel in Hin.
        apply elem_of_cons in Hin as [[= -> ->]|?]; done.
      - intros h' x q Hex Hq Hr. rewrite dget_ddel by done. case_decide as Hh; [congruence|]. by apply (r_ready0 h' x q). }
    apply IH; case_bool_decide as Hw.
    + by apply schedule_rep, Hwoken.
    + by apply Hstale.
    + rewrite schedule_due. change (due_now now (with_waiting f1 _ _)) with (due_now now f1). lia.
    + lia.
Qed.

(** *** The operations *)

Lemma put_queue sp e h :
  ordered item_key (pending sp) →
  let item := mk_item (priority_value (priority e)) (arrivals sp) e in
  queue_of (spec_step sp 0 (Put e)).1 h =
    if decide (h = host e) then insert_by item_key item (queue_of sp h) else queue_of sp h.
Proof.
  intros Ho. unfold queue_of. simpl. destruct (decide (h = host e)) as [->|Hne].
  - by apply filter_insert_in.
  - apply filter_insert_out. unfold i_host. simpl. congruence.
Qed.

Lemma put_rep t f sp e :
  rep t None f sp → rep t None (put f t e) (spec_step sp t (Put e)).1.
Proof.
  intros Hrep. change (spec_step sp t (Put e)).1 with (spec_step sp 0 (Put e)).1.
  pose proof (λ h, put_queue sp e h (r_order _ _ _ _ Hrep)) as Hqueue. simpl in Hqueue.
  set (sp' := (spec_step sp 0 (Put e)).1) in *.
  unfold put. set (item := mk_item (priority_value (priority e)) (counter f) e).
  assert (default [] (dget (host e) (back_queues f)) = queue_of sp (host e)) as ->.
  { pose proof (r_queues _ _ _ _ Hrep (host e)) as H. destruct (dget _ _); [by destruct H|done]. }
  set (queue := heappush item_key item _). set (f1 := mk_frontier _ _ _ _ _ _ _ _ _).
  assert (queue_of sp' (host e) = queue) as Eq.
  { rewrite Hqueue, decide_True by done. unfold queue, heappush, item. by rewrite (r_counter _ _ _ _ Hrep). }
  assert (queue ≠ []) as Hqne by (intros E; apply (f_equal length) in E; unfold queue, heappush in E; by rewrite insert_by_length in E).
  assert (∀ h, eligible sp' t h = eligible sp t h) as Hel by done.
  assert (∀ ex, (ex = Some (host e) ∨ head queue ≠ Some item) → rep t ex f1 sp') as Hmain.
  { intros ex Hex. destruct Hrep. split; try done.
    - simpl. by rewrite r_counter0.
    - simpl. rewrite insert_by_length. lia.
    - by apply insert_by_ordered.
    - simpl. intros x. rewrite elem_of_insert_by. intros [->|Hx]; simpl; [lia|]. specialize (r_below0 x Hx). lia.
    - simpl. rewrite insert_by_perm. simpl. constructor; [|done]. intros (x & E & Hx)%list_elem_of_fmap.
      specialize (r_below0 x Hx). lia.
    - simpl. by apply dset_ok.
    - simpl. intros h. rewrite dget_dset. case_decide as Hh; [subst h; by rewrite Eq|].
      rewrite Hqueue, decide_False by done. apply r_queues0.
    - simpl. intros x Hx. destruct (r_stale0 x Hx) as [H1 H2]. split; [lia|]. intros y.
      rewrite elem_of_insert_by. intros [->|Hy]; [simpl; lia|by apply H2].
    - simpl. intros h due Hd. destruct (r_wait0 h due Hd) as (H1 & H2 & H3). split; [done|]. split; [|done].
      rewrite Hqueue. case_decide as Hh; [|done]. subst h. by rewrite <- Eq in Hqne; rewrite Hqueue, decide_True in Hqne by done.
    - intros h x q Hne Hq Hr Hw. change (front_queue f1) with (front_queue f). rewrite Hel. rewrite Hqueue in Hq.
      case_decide as Hh; [|by apply (r_ready0 h x q)]. subst h. destruct Hex as [->|Hhead]; [done|].
      assert (queue = x :: q) as Eq2 by (by rewrite <- Eq, Hqueue, decide_True).
      destruct (queue_of sp (host e)) as [|y q'] eqn:Ey.
      + exfalso. apply Hhead. unfold queue, heappush. simpl. done.
      + assert (x = y) as ->.
        { pose proof (head_insert item_key item y q') as Hh. fold (heappush item_key item (y :: q')) in Hh. fold queue in Hh.
          destruct (pyle (item_key item) (item_key y)); [done|]. rewrite Eq2 in Hh. by injection Hh. }
        by apply (r_ready0 (host e) y q'). }
  case_bool_decide as Hhead; [|by apply Hmain; right]. apply schedule_rep, Hmain. by left.
Qed.

Lemma complete_rep t f sp e :
  rep t None f sp → rep t None (complete f t e) (spec_step sp t (Complete e)).1.
Proof.
  intros Hrep. apply schedule_rep. destruct Hrep. split; try done; simpl.
  - by rewrite r_last0.
  - by rewrite r_active0.
  - by apply ddel_ok.
  - intros h due. rewrite dget_ddel by done. case_decide as Hh; [done|]. intros Hd.
    destruct (r_wait0 h due Hd) as (H1 & H2 & H3 & l & H4). split; [done|]. split; [done|].
    split; [intros [_ ?]%list_elem_of_filter; done|]. exists l. by rewrite dget_dset_ne.
  - intros h x q Hne Hq Hr. rewrite dget_ddel by done. case_decide as Hh; [congruence|]. intros Hw.
    assert (h ≠ host e) as Hh' by congruence.
    assert (h ∉ reserved sp) as Hr' by (intros Hin; apply Hr, list_elem_of_filter; done).
    destruct (r_ready0 h x q ltac:(done) Hq Hr' Hw) as [H1 H2]. split; [done|]. revert H2. unfold eligible. simpl.
    rewrite !bool_decide_false by done. by rewrite dget_dset_ne by congruence.
Qed.

Lemma next_current_split f front x rest :
  next_current f front = (Some x, rest) →
  ∃ l1, front = l1 ++ x :: rest ∧ current f x = true ∧ ∀ y, y ∈ l1 → current f y = false.
Proof.
  induction front as [|y front IH]; simpl; [done|]. destruct (current f y) eqn:E.
  - intros [= -> ->]. exists []. split; [done|]. split; [done|]. intros z Hz. by apply not_elem_of_nil in Hz.
  - intros H. destruct (IH H) as (l1 & -> & H1 & H2). exists (y :: l1). split; [done|]. split; [done|].
    intros z [->|Hz]%elem_of_cons; auto.
Qed.

Lemma next_current_none f front rest :
  next_current f front = (None, rest) → rest = [] ∧ ∀ y, y ∈ front → current f y = false.
Proof.
  induction front as [|y front IH]; simpl.
  - intros [= <-]. split; [done|]. intros z Hz. by apply not_elem_of_nil in Hz.
  - destruct (current f y) eqn:E; [done|]. intros H. destruct (IH H) as [-> H2]. split; [done|].
    intros z [->|Hz]%elem_of_cons; auto.
Qed.

Section get.
Context (now : Z) (f : Frontier) (sp : Spec) (Hrep : rep now None f sp).
Context (Hwaiting : ∀ d h, (d, h) ∈ delayed f → now < d).

(** The published items that are current are the heads of the eligible hosts. *)
Lemma current_spec x :
  x ∈ front_queue f →
  current f x = true → (∃ q, queue_of sp (i_host x) = x :: q) ∧ dget (i_host x) (waiting f) = None ∧
    eligible sp now (i_host x) = true.
Proof.
  intros Hx. unfold current. pose proof (queue_here _ _ _ _ (i_host x) Hrep) as [Hq1 _].
  destruct (dget (i_host x) (back_queues f)) as [[|y q]|] eqn:Eq; [done| |done].
  rewrite !andb_true_iff. intros [[Ec Ha%negb_true_iff%bool_decide_eq_false] Hw%negb_true_iff%dmem_false].
  apply Z.eqb_eq in Ec. assert (queue_of sp (i_host x) = y :: q) as Hqy by (by apply Hq1).
  pose proof (host_head _ _ _ _ Hqy) as [Hy _].
  destruct (r_stale _ _ _ _ Hrep x Hx) as [_ Hs]. assert (y = x) as -> by (by apply Hs).
  split; [by exists q|]. split; [done|]. rewrite (r_active _ _ _ _ Hrep) in Ha.
  by apply (r_ready _ _ _ _ Hrep (i_host x) x q).
Qed.

Lemma eligible_current x q :
  queue_of sp (i_host x) = x :: q → eligible sp now (i_host x) = true → x ∈ front_queue f ∧ current f x = true.
Proof.
  intros Hq He. pose proof He as He'. unfold eligible in He.
  apply andb_true_iff in He as [Ha%negb_true_iff%bool_decide_eq_false Hl].
  assert (dget (i_host x) (waiting f) = None) as Hw.
  { destruct (dget (i_host x) (waiting f)) as [due|] eqn:E; [|done].
    destruct (r_wait _ _ _ _ Hrep _ _ E) as (Hin & _ & _ & l & El & ->). rewrite El in Hl.
    specialize (Hwaiting _ _ Hin). lia. }
  split; [by apply (r_ready _ _ _ _ Hrep (i_host x) x q)|]. unfold current.
  pose proof (queue_here _ _ _ _ (i_host x) Hrep) as [Hq1 _]. rewrite (proj2 (Hq1 x q) Hq), Z.eqb_refl.
  rewrite (r_active _ _ _ _ Hrep), bool_decide_false by done. by rewrite (proj2 (dmem_false _ _) Hw).
Qed.

Lemma first_eligible x l :
  filter (λ x, eligible sp now (i_host x) = true) (pending sp) = x :: l →
  eligible sp now (i_host x) = true ∧ x ∈ pending sp ∧ ∃ q, queue_of sp (i_host x) = x :: q.
Proof.
  intros E. assert (x ∈ filter (λ x, eligible sp now (i_host x) = true) (pending sp)) as Hx by (rewrite E; left).
  apply list_elem_of_filter in Hx as [He Hx]. split; [done|]. split; [done|].
  eapply filter_head; [exact E|done|]. intros y Hy. simpl. by rewrite Hy.
Qed.

(** The item the loop finds is the first with an eligible host. *)
Lemma next_spec :
  match next_current f (front_queue f) with
  | (None, rest) => rest = [] ∧ filter (λ x, eligible sp now (i_host x) = true) (pending sp) = []
  | (Some x, rest) =>
      ∃ l, filter (λ x, eligible sp now (i_host x) = true) (pending sp) = x :: l ∧ x ∈ front_queue f ∧ current f x = true ∧
      ∀ y, y ∈ front_queue f → current f y = true → y ∈ x :: rest
  end.
Proof.
  destruct (next_current f (front_queue f)) as [[x|] rest] eqn:En.
  - destruct (next_current_split _ _ _ _ En) as (l1 & Ef & Hc & Hl1).
    assert (x ∈ front_queue f) as Hx by (rewrite Ef; set_solver).
    assert (∀ y, y ∈ front_queue f → current f y = true → y ∈ x :: rest) as Hrest.
    { intros y Hy Hcy. rewrite Ef in Hy. apply elem_of_app in Hy as [Hy|Hy]; [|done]. by rewrite Hl1 in Hcy. }
    destruct (current_spec x Hx Hc) as ((q & Hq) & _ & He). pose proof (host_head _ _ _ _ Hq) as [Hxp _].
    destruct (filter _ (pending sp)) as [|y l] eqn:E.
    { assert (x ∈ filter (λ x, eligible sp now (i_host x) = true) (pending sp)) as Hin by (by apply list_elem_of_filter).
      rewrite E in Hin. by apply not_elem_of_nil in Hin. }
    destruct (first_eligible y l E) as (Hey & Hyp & q' & Hq'). destruct (eligible_current y q' Hq' Hey) as [Hyf Hyc].
    assert (x = y) as ->; [|by exists l].
    apply (same_counter _ _ _ _ _ _ Hrep); [done|done|].
    enough (item_key x = item_key y) as Hk by (by injection Hk).
    apply pyle_antisym.
    + pose proof (r_front _ _ _ _ Hrep) as Ho. rewrite Ef in Ho. apply ordered_app in Ho as (_ & Ho & _).
      by apply (ordered_head_min _ _ _ _ Ho), Hrest.
    + eapply ordered_head_min; [rewrite <- E; apply ordered_filter, Hrep|]. rewrite <- E. by apply list_elem_of_filter.
  - destruct (next_current_none _ _ _ En) as [-> Hnone]. split; [done|].
    destruct (filter _ (pending sp)) as [|y l] eqn:E; [done|].
    destruct (first_eligible y l E) as (Hey & _ & q' & Hq'). destruct (eligible_current y q' Hq' Hey) as [Hyf Hyc].
    by rewrite Hnone in Hyc.
Qed.
End get.

Section taken.
Context (t : Z) (f : Frontier) (sp : Spec) (Hrep : rep t None f sp).
Context (x : Item) (q : list Item) (Hq : queue_of sp (i_host x) = x :: q).

Lemma pending_nodup : NoDup (pending sp).
Proof. eapply NoDup_fmap_1, Hrep. Qed.

Lemma queue_taken last res h :
  queue_of (mk_spec (sp_delay sp) (filter (λ y, y ≠ x) (pending sp)) (arrivals sp) last res) h =
  if decide (h = i_host x) then q else queue_of sp h.
Proof.
  unfold queue_of at 1. simpl. rewrite filter_removed. fold (queue_of sp h). case_decide as Hh.
  - subst h. rewrite Hq. apply removed_head. rewrite <- Hq. apply NoDup_filter, pending_nodup.
  - apply filter_all. intros y [Hy _]%list_elem_of_filter ->. congruence.
Qed.

Context (Hready : dget (i_host x) (waiting f) = None) (rest : list Item).
Context (Hfront : ∀ y, y ∈ front_queue f → current f y = true → y ∈ x :: rest).
Context (Hsub : ∀ y, y ∈ rest → y ∈ front_queue f) (Hrest : ordered item_key rest).
Context (Hcurrent : ∀ y q', queue_of sp (i_host y) = y :: q' → eligible sp t (i_host y) = true → current f y = true).

(** The frontier and the specification after the head of a host was taken. *)
Lemma taken_rep :
  rep t (Some (i_host x))
    (mk_frontier (per_host_delay f) rest (counter f)
       (match q with [] => ddel (i_host x) (back_queues f) | _ => dset (i_host x) q (back_queues f) end)
       (delayed f) (waiting f) (dset (i_host x) t (host_last_access f)) (size f - 1) (active_hosts f))
    (mk_spec (sp_delay sp) (filter (λ y, y ≠ x) (pending sp)) (arrivals sp) (dset (i_host x) t (last sp)) (reserved sp)).
Proof.
  pose proof pending_nodup as Hnd. pose proof (host_head _ _ _ _ Hq) as [Hx _].
  pose proof (removed_perm x _ Hnd Hx) as Hperm.
  pose proof Hrep as []. split; try done; simpl.
  - rewrite Hperm in r_size0 at 1. simpl in r_size0. lia.
  - by rewrite r_last0.
  - by apply ordered_filter.
  - intros y [_ Hy]%list_elem_of_filter. by apply r_below0.
  - rewrite Hperm in r_unique0 at 1. by apply NoDup_cons in r_unique0 as [_ ?].
  - destruct q; [by apply ddel_ok|by apply dset_ok].
  - intros h. rewrite queue_taken. destruct q as [|z q'].
    + rewrite dget_ddel by done. case_decide as Hh; case_decide; try done; try congruence. by apply r_queues0.
    + rewrite dget_dset. case_decide as Hh; case_decide; try done; try congruence. by apply r_queues0.
  - intros y Hy. destruct (r_stale0 y (Hsub y Hy)) as [H1 H2]. split; [done|].
    intros z [_ Hz]%list_elem_of_filter. by apply H2.
  - intros h due Hd. destruct (r_wait0 h due Hd) as (H1 & H2 & H3 & l & H4). split; [done|].
    assert (h ≠ i_host x) as Hh by congruence. split; [by rewrite queue_taken, decide_False|]. split; [done|].
    exists l. by rewrite dget_dset_ne.
  - intros h y q' Hne. rewrite queue_taken. case_decide as Hh; [congruence|]. intros Hq' Hr Hw.
    pose proof (host_head _ _ _ _ Hq') as [_ Hyh]. subst h.
    destruct (r_ready0 (i_host y) y q' ltac:(done) Hq' Hr Hw) as [H1 H2]. split.
    + pose proof (Hfront y H1 (Hcurrent y q' Hq' H2)) as H3.
      apply elem_of_cons in H3 as [->|H3]; [done|done].
    + revert H2. unfold eligible. simpl. by rewrite dget_dset_ne by congruence.
Qed.
End taken.

Lemma get_rep t f sp reserve :
  rep t None f sp →
  (get f t reserve).2 = (spec_step sp t (Get reserve)).2 ∧ rep t None (get f t reserve).1 (spec_step sp t (Get reserve)).1.
Proof.
  intros Hrep0. unfold get.
  destruct (wake_rep (length (delayed f)) t f sp Hrep0) as [Hrep Hw]; [apply length_filter|].
  set (f1 := wake _ f t) in *. clearbody f1. clear Hrep0 f.
  pose proof (next_spec t f1 sp Hrep Hw) as Hn. cbn [spec_step].
  destruct (next_current f1 (front_queue f1)) as [[x|] rest] eqn:En.
  - destruct Hn as (l & -> & Hxf & Hc & Hrest). destruct (current_spec t f1 sp Hrep x Hxf Hc) as ((q & Hq) & Hwx & He).
    destruct (next_current_split _ _ _ _ En) as (l1 & Ef & _ & _).
    assert (default [] (dget (i_host x) (back_queues f1)) = x :: q) as ->.
    { pose proof (queue_here _ _ _ _ (i_host x) Hrep) as [Hq1 _]. by rewrite (proj2 (Hq1 x q) Hq). }
    cbn [tail]. pose proof (r_front _ _ _ _ Hrep) as Ho. rewrite Ef in Ho.
    apply ordered_app in Ho as (_ & Ho & _). apply ordered_cons in Ho as [Ho _].
    pose proof (taken_rep t f1 sp Hrep x q Hq Hwx rest Hrest ltac:(intros y Hy; rewrite Ef; set_solver) Ho
      (λ y q' Hq' He', proj2 (eligible_current t f1 sp Hrep Hw y q' Hq' He'))) as Ht.
    split; [done|]. destruct reserve; [|by apply schedule_rep].
    destruct Ht. split; try done; simpl in *.
    + by rewrite r_active0.
    + intros h due Hd. destruct (r_wait0 h due Hd) as (H1 & H2 & H3 & H4). split; [done|]. split; [done|].
      split; [|done]. intros [->|Hin]%elem_of_cons; [congruence|done].
    + intros h y q' _ Hq' Hr Hw'. apply not_elem_of_cons in Hr as [Hne Hr].
      destruct (r_ready0 h y q' ltac:(congruence) Hq' Hr Hw') as [H1 H2]. split; [done|]. revert H2. unfold eligible. simpl.
      by rewrite !bool_decide_false by set_solver.
  - destruct Hn as [-> ->]. split; [done|]. simpl. destruct Hrep. split; try done; simpl.
    + constructor.
    + intros y Hy. by apply not_elem_of_nil in Hy.
    + intros h y q' Hne Hq' Hr Hw'. exfalso. destruct (next_current_none _ _ _ En) as [_ Hnone].
      destruct (r_ready0 h y q' Hne Hq' Hr Hw') as [H1 H2]. pose proof (host_head _ _ _ _ Hq') as [_ <-].
      assert (rep t None f1 sp) as Hrep by by split.
      destruct (eligible_current t f1 sp Hrep Hw y q' Hq' H2) as [_ H3]. by rewrite Hnone in H3.
Qed.

(** ** Histories *)

Lemma step_rep t now f sp op :
  t <= now → rep t None f sp →
  (step f now op).2 = (spec_step sp now op).2 ∧ rep now None (step f now op).1 (spec_step sp now op).1.
Proof.
  intros Ht Hrep. apply (rep_later t now) in Hrep; [|done]. destruct op as [e|reserve|e].
  - split; [done|]. by apply put_rep.
  - by apply get_rep.
  - split; [done|]. by apply complete_rep.
Qed.

Lemma run_rep t f sp ops :
  monotone t ops → rep t None f sp →
  (run f ops).2 = (spec_run sp ops).2 ∧ ∃ t', rep t' None (run f ops).1 (spec_run sp ops).1.
Proof.
  revert t f sp. induction ops as [|[now op] ops IH]; intros t f sp; cbn [run spec_run monotone]; [eauto|].
  intros [Ht Hm] Hrep. destruct (step_rep t now f sp op Ht Hrep) as [H1 H2].
  destruct (step f now op) as [f1 r], (spec_step sp now op) as [sp1 r']. simpl in H1, H2. subst r'.
  destruct (IH now f1 sp1 Hm H2) as [H3 H4]. destruct (run f1 ops), (spec_run sp1 ops). simpl in *. by subst.
Qed.

Lemma new_rep t delay : rep t None (new_frontier delay) (new_spec delay).
Proof.
  split; simpl; try done; try (by constructor); try (by intros x Hx; apply not_elem_of_nil in Hx).
Qed.

(** What was put in, and what came out. *)
Definition puts (ops : list (Z * Op)) : list FrontierEntry :=
  omap (λ p, match p.2 with Put e => Some e | _ => None end) ops.
Definition returned (rs : list (option FrontierEntry)) : list FrontierEntry := omap id rs.

Lemma spec_run_entries sp ops :
  NoDup (i_counter <$> pending sp) → (∀ x, x ∈ pending sp → i_counter x < arrivals sp) →
  (i_entry <$> pending sp) ++ puts ops ≡ₚ returned (spec_run sp ops).2 ++ (i_entry <$> pending (spec_run sp ops).1).
Proof.
  revert sp. induction ops as [|[now op] ops IH]; intros sp Hnd Hb; cbn [spec_run].
  { by rewrite app_nil_r. }
  destruct (spec_step sp now op) as [sp1 r] eqn:E.
  assert (NoDup (i_counter <$> pending sp1) ∧ (∀ x, x ∈ pending sp1 → i_counter x < arrivals sp1) ∧
    (i_entry <$> pending sp) ++ puts [(now, op)] ≡ₚ returned [r] ++ (i_entry <$> pending sp1)) as (Hnd1 & Hb1 & Hp).
  { destruct op as [e|reserve|e]; cbn [spec_step] in E.
    - injection E as <- <-. simpl. split; [|split].
      + rewrite insert_by_perm. simpl. constructor; [|done]. intros (y & Ey & Hy)%list_elem_of_fmap. specialize (Hb y Hy). lia.
      + intros y. rewrite elem_of_insert_by. intros [->|Hy]; [simpl; lia|]. specialize (Hb y Hy). lia.
      + rewrite insert_by_perm. simpl. by rewrite <- Permutation_cons_append.
    - destruct (filter _ (pending sp)) as [|x l] eqn:Ef; injection E as <- <-; simpl; [by rewrite app_nil_r|].
      assert (x ∈ pending sp) as Hx.
      { assert (x ∈ filter (λ x, eligible sp now (i_host x) = true) (pending sp)) as Hx by (rewrite Ef; left).
        apply list_elem_of_filter in Hx. tauto. }
      pose proof (removed_perm x (pending sp) (NoDup_fmap_1 _ _ Hnd) Hx) as Hperm. split; [|split].
      + rewrite Hperm in Hnd. by apply NoDup_cons in Hnd as [_ ?].
      + intros y [_ Hy]%list_elem_of_filter. by apply Hb.
      + rewrite app_nil_r. rewrite Hperm at 1. done.
    - injection E as <- <-. simpl. by rewrite app_nil_r. }
  specialize (IH sp1 Hnd1 Hb1). destruct (spec_run sp1 ops) as [sp2 rs]. cbn [fst snd] in IH |- *.
  assert (puts ((now, op) :: ops) = puts [(now, op)] ++ puts ops) as -> by (destruct op; done).
  assert (returned (r :: rs) = returned [r] ++ returned rs) as -> by (by destruct r).
  rewrite (assoc (++)), Hp, <- !(assoc (++)). by rewrite IH.
Qed.

(** Under any calls with a clock that does not run backwards, the host
    heaps, the ready heap with its superseded items and the wake-up heap answer as
    one list by priority and arrival, of which the first item is served whose
    host is neither reserved nor within its delay; and what was put is what was
    returned and what is counted as pending. *)
Theorem frontier_refines_list delay t ops :
  monotone t ops →
  let f := (run (new_frontier delay) ops).1 in
  let sp := (spec_run (new_spec delay) ops).1 in
  (run (new_frontier delay) ops).2 = (spec_run (new_spec delay) ops).2 ∧
  size f = Z.of_nat (length (pending sp)) ∧
  puts ops ≡ₚ returned (run (new_frontier delay) ops).2 ++ (i_entry <$> pending sp).
Proof.
  intros Hm. destruct (run_rep t _ _ ops Hm (new_rep t delay)) as (H1 & t' & H2). cbv zeta.
  split; [done|]. split; [by apply H2|]. rewrite H1.
  apply (spec_run_entries (new_spec delay) ops); [constructor|]. intros x Hx. by apply not_elem_of_nil in Hx.
Qed.

(** Politeness, from a state in which the host was last accessed at [l]. *)
Lemma spec_polite sp t l h ops j now r e :
  monotone t ops → l <= t → dget h (last sp) = Some l →
  ops !! j = Some (now, Get r) → (spec_run sp ops).2 !! j = Some (Some e) → host e = h →
  l + sp_delay sp <= now ∧
  (h ∈ reserved sp → ∃ k u c, (k < j)%nat ∧ ops !! k = Some (u, Complete c) ∧ host c = h ∧ u + sp_delay sp <= now).
Proof.
  revert sp t l j. induction ops as [|[u op] ops IH]; intros sp t l j; [done|].
  cbn [spec_run monotone]. intros [Ht Hm] Hl Hlast Hj. destruct (spec_step sp u op) as [sp1 s] eqn:E.
  destruct (spec_run sp1 ops) as [sp2 rs] eqn:E2.
  assert ((spec_run sp1 ops).2 = rs) as E3 by by rewrite E2.
  destruct j as [|j]; simpl in *.
  { injection Hj as -> ->. intros [= ->] He. cbn [spec_step] in E. destruct (filter _ (pending sp)) as [|x l'] eqn:Ef; [done|]. injection E as _ <-.
    assert (x ∈ filter (λ x, eligible sp now (i_host x) = true) (pending sp)) as Hx by (rewrite Ef; left).
    apply list_elem_of_filter in Hx as [Hx _]. unfold i_host in Hx. rewrite He in Hx. unfold eligible in Hx.
    rewrite Hlast in Hx. apply andb_true_iff in Hx as [Hx1%negb_true_iff%bool_decide_eq_false Hx2].
    split; [lia|]. done. }
  intros Hr He. rewrite <- E3 in Hr.
  assert (sp_delay sp1 = sp_delay sp) as Ed.
  { destruct op; cbn [spec_step] in E; [by injection E as <- _| |by injection E as <- _].
    destruct (filter _ _); by injection E as <- _. }
  assert (∃ l1, dget h (last sp1) = Some l1 ∧ l <= l1 <= u ∧
    (h ∈ reserved sp → h ∈ reserved sp1 ∨ ∃ c, op = Complete c ∧ host c = h ∧ l1 = u)) as (l1 & Hl1 & Hb & Hres).
  { destruct op as [c|r'|c]; cbn [spec_step] in E.
    - injection E as <- _. exists l. split; [done|]. split; [lia|]. by left.
    - destruct (filter _ _) as [|x l']; injection E as <- _; [exists l; split; [done|split; [lia|by left]]|]. simpl.
      rewrite dget_dset. case_decide; eexists; (split; [done|]); (split; [lia|]); intros Hin; left; destruct r'; set_solver.
    - injection E as <- _. simpl. rewrite dget_dset. case_decide as Hc.
      + exists u. split; [done|]. split; [lia|]. intros _. right. by exists c.
      + exists l. split; [done|]. split; [lia|]. intros Hin. left. by apply list_elem_of_filter. }
  destruct (IH sp1 u l1 j Hm ltac:(lia) Hl1 Hj Hr He) as [H1 H2]. rewrite Ed in *. split; [lia|].
  intros Hin. destruct (Hres Hin) as [Hin1|(c & -> & Hc & ->)].
  - destruct (H2 Hin1) as (k & u' & c & Hk & Hop & H3). exists (S k), u', c. split; [lia|]. by split.
  - exists 0%nat, u, c. split; [lia|]. by split.
Qed.

Lemma spec_run_polite sp t ops i j t1 r1 e1 t2 r2 e2 :
  monotone t ops → (i < j)%nat →
  ops !! i = Some (t1, Get r1) → (spec_run sp ops).2 !! i = Some (Some e1) →
  ops !! j = Some (t2, Get r2) → (spec_run sp ops).2 !! j = Some (Some e2) → host e2 = host e1 →
  t1 + sp_delay sp <= t2 ∧
  (r1 = true → ∃ k u c, (i < k < j)%nat ∧ ops !! k = Some (u, Complete c) ∧ host c = host e1 ∧ u + sp_delay sp <= t2).
Proof.
  revert sp t i j. induction ops as [|[u op] ops IH]; intros sp t i j; [done|].
  cbn [spec_run monotone]. intros [Ht Hm] Hij Hi. destruct (spec_step sp u op) as [sp1 s] eqn:E.
  destruct (spec_run sp1 ops) as [sp2 rs] eqn:E2.
  assert ((spec_run sp1 ops).2 = rs) as E3 by by rewrite E2. rewrite <- E3. clear E2 E3.
  destruct j as [|j]; [lia|]. destruct i as [|i]; simpl in *.
  - injection Hi as -> ->. intros [= ->] Hj Hr He. cbn [spec_step] in E. destruct (filter _ (pending sp)) as [|x l'] eqn:Ef; [done|].
    injection E as E <-.
    assert (dget (i_host x) (last sp1) = Some t1 ∧ sp_delay sp1 = sp_delay sp ∧ (r1 = true → i_host x ∈ reserved sp1)) as (L1 & L2 & L3).
    { rewrite <- E. simpl. split; [apply dget_dset_eq|]. split; [done|]. intros ->. by left. }
    destruct (spec_polite sp1 t1 t1 (i_host x) ops j t2 r2 e2 Hm ltac:(lia) L1 Hj Hr He) as [H1 H2]. rewrite L2 in *.
    split; [done|]. intros Hr1. destruct (H2 (L3 Hr1)) as (k & u & c & Hk & Hop & H3).
    exists (S k), u, c. split; [lia|]. by split.
  - intros Hri Hj Hr He.
    assert (sp_delay sp1 = sp_delay sp) as Ed.
    { destruct op; cbn [spec_step] in E; [by injection E as <- _| |by injection E as <- _].
      destruct (filter _ _); by injection E as <- _. }
    destruct (IH sp1 u i j Hm ltac:(lia) Hi Hri Hj Hr He) as [H1 H2]. rewrite Ed in *. split; [done|].
    intros Hr1. destruct (H2 Hr1) as (k & u' & c & Hk & Hop & H3). exists (S k), u', c. split; [lia|]. by split.
Qed.

(** The frontier is polite: two URLs of a host are served at least the delay
    apart, and after a reserved one the next is served only when the reservation
    was completed and the delay has passed since. *)
Theorem frontier_polite delay t ops i j t1 r1 e1 t2 r2 e2 :
  monotone t ops → (i < j)%nat →
  ops !! i = Some (t1, Get r1) → (run (new_frontier delay) ops).2 !! i = Some (Some e1) →
  ops !! j = Some (t2, Get r2) → (run (new_frontier delay) ops).2 !! j = Some (Some e2) → host e2 = host e1 →
  t1 + delay <= t2 ∧
  (r1 = true → ∃ k u c, (i < k < j)%nat ∧ ops !! k = Some (u, Complete c) ∧ host c = host e1 ∧ u + delay <= t2).
Proof.
  intros Hm Hij Hi. destruct (run_rep t _ _ ops Hm (new_rep t delay)) as [-> _].
  by apply (spec_run_polite (new_spec delay) t).
Qed.

Definition demo_urls : list (Z * Op) :=
  let low := mk_entry "http://a/1" LOW 0 "a" in
  let high := mk_entry "http://a/2" HIGH 0 "a" in
  let other := mk_entry "http://b/1" MEDIUM 0 "b" in
  [(0, Put low); (1, Put high); (1, Put other); (2, Get true); (3, Get false); (4, Get false);
   (5, Complete high); (6, Get false); (15, Get false)].

Lemma frontier_refines_list_witness :
  monotone 0 demo_urls ∧
  (λ r : option FrontierEntry, host <$> r) <$> (run (new_frontier 10) demo_urls).2 =
    [None; None; None; Some "a"; Some "b"; None; None; None; Some "a"] ∧
  size (run (new_frontier 10) demo_urls).1 = 0.
Proof.
  assert (monotone 0 demo_urls) as Hm by (cbn; lia). split; [done|]. split; [by vm_compute|].
  destruct (frontier_refines_list 10 0 demo_urls Hm) as (_ & H & _). rewrite H. by vm_compute.
Defined.

Lemma frontier_polite_witness :
  ∃ e1 e2, (run (new_frontier 10) demo_urls).2 !! 3%nat = Some (Some e1) ∧
    (run (new_frontier 10) demo_urls).2 !! 8%nat = Some (Some e2) ∧ 2 + 10 <= 15 ∧
    ∃ k u c, (3 < k < 8)%nat ∧ demo_urls !! k = Some (u, Complete c) ∧ u + 10 <= 15.
Proof.
  exists (mk_entry "http://a/2" HIGH 0 "a"), (mk_entry "http://a/1" LOW 0 "a").
  split; [by vm_compute|]. split; [by vm_compute|].
  assert (monotone 0 demo_urls) as Hm by (cbn; lia).
  destruct (frontier_polite 10 0 demo_urls 3 8 2 true (mk_entry "http://a/2" HIGH 0 "a") 15 false
    (mk_entry "http://a/1" LOW 0 "a") Hm ltac:(lia) ltac:(done) ltac:(by vm_compute) ltac:(done) ltac:(by vm_compute)
    ltac:(done)) as [H1 H2].
  split; [exact H1|]. destruct (H2 eq_refl) as (k & u & c & Hk & Hop & _ & Hu). by exists k, u, c.
Defined.
