(* ===== verification/Messages.v ===== *)
(** * Messages, records and envelopes of the message queue

    Models common.py, messages.py and the tag filter of coordinator_validation.py
    of src/distributed-message-queue/src/message_queue.

    A message is what a producer sends; a record is what the log keeps of it; an
    envelope links a record to the hash of the one before.  SHA-256 of a
    canonical text and the size of that text are parameters.  Times are integers
    of a fine unit, [second] of them a second; texts are of ASCII characters. *)
From Stdlib Require Import Ascii.
From S2P Require Import Prelude PyList Checks.
Local Open Scope Z_scope.

Definition second : Z := 1000000.
Definition MAX_INT : Z := 2 ^ 53 - 1.

(** The pattern [[A-Za-z0-9_-]{1,100}]. *)
Definition name (value : string) : bool :=
  let n := String.length value in
  (1 <=? n)%nat && (n <=? 100)%nat && forallb id_char (String.list_ascii_of_string value).

(** ** Messages *)

Inductive Delivery := DelaySeconds (t : Z) | DeliverAt (t : Z).
#[export] Instance delivery_eq_dec : EqDecision Delivery.
Proof. solve_decision. Defined.

(** A field is [None] when it is absent; a key can also be null. *)
Record Message := mk_message {
  m_value : string;
  m_key : option (option string);
  m_delivery : option Delivery;
  m_tags : option (list string);
}.
#[export] Instance message_eq_dec : EqDecision Message.
Proof. solve_decision. Defined.

Definition key (m : Message) : option string := default None (m_key m).
Definition tags (m : Message) : list string := default [] (m_tags m).

Definition message_ok (m : Message) : bool :=
  (String.length (m_value m) <=? 16384)%nat
  && match key m with Some k => (String.length k <=? 1000)%nat | None => true end
  && match m_delivery m with
     | Some (DelaySeconds t) => integer t 0 (86400 * second)
     | Some (DeliverAt t) => integer t 0 (MAX_INT * second)
     | None => true
     end
  && (length (tags m) <=? 16)%nat && bool_decide (NoDup (tags m)) && forallb name (tags m).

(** The copy that [freeze_messages] returns is the value itself. *)
Definition freeze_messages (maximum : Z) (messages : list Message) : result (list Message) :=
  raise_if (negb (integer (Z.of_nat (length messages)) 1 maximum)) ValueError (
  raise_if (negb (forallb message_ok messages)) ValueError (Ok messages)).

Definition tags_filter (tags : option (list string)) : result (option (list string)) :=
  match tags with
  | None => Ok None
  | Some ts =>
      raise_if (negb (integer (Z.of_nat (length ts)) 1 16)) ValueError (
      raise_if (negb (forallb name ts)) ValueError (
      raise_if (negb (bool_decide (NoDup ts))) ValueError (Ok (Some ts))))
  end.

(** ** Records and envelopes *)

Record Rec := mk_rec {
  r_offset : Z;
  r_timestamp : Z;
  r_producer : string;
  r_epoch : Z;
  r_sequence : Z;
  r_key : option string;
  r_value : string;
  not_before : Z;
  r_tags : list string;
}.
#[export] Instance rec_eq_dec : EqDecision Rec.
Proof. solve_decision. Defined.

Record Value := mk_value { record : Rec; previous : string; hash : string }.
#[export] Instance value_eq_dec : EqDecision Value.
Proof. solve_decision. Defined.

Definition v_offset (v : Value) : Z := r_offset (record v).

(** ["0" * 64] *)
Definition ZERO : string := "0000000000000000000000000000000000000000000000000000000000000000".

(** The pattern [[0-9a-f]{64}]. *)
Definition hex_char (c : ascii) : bool :=
  let n := Z.of_N (N_of_ascii c) in ((48 <=? n) && (n <=? 57)) || ((97 <=? n) && (n <=? 102)).
Definition hash_ok (value : string) : bool :=
  (String.length value =? 64)%nat && forallb hex_char (String.list_ascii_of_string value).

Section envelope.
Context (digest : string → Rec → string).

Definition envelope (r : Rec) (previous : string) : Value := mk_value r previous (digest previous r).

(** Two different inputs of one digest. *)
Definition collision : Prop :=
  ∃ p r p' r', (p, r) ≠ (p', r') ∧ digest p r = digest p' r'.

(** [vs] are envelopes at the offsets from [base] on, linked from the hash [h]. *)
Fixpoint chained (base : Z) (h : string) (vs : list Value) : Prop :=
  match vs with
  | [] => True
  | v :: vs' => v_offset v = base ∧ previous v = h ∧ hash v = digest h (record v) ∧ chained (base + 1) (hash v) vs'
  end.

Definition last_hash (h : string) (vs : list Value) : string := match last vs with Some v => hash v | None => h end.

Lemma last_hash_cons h v vs : last_hash h (v :: vs) = last_hash (hash v) vs.
Proof. unfold last_hash. destruct vs as [|w vs]; [done|]. rewrite last_cons_cons. by destruct (last_is_Some (w :: vs)) as [_ [? ->]]. Qed.

Lemma last_hash_app h vs ws : last_hash h (vs ++ ws) = last_hash (last_hash h vs) ws.
Proof. revert h. induction vs as [|v vs IH]; intros h; simpl; [done|]. by rewrite !last_hash_cons, IH. Qed.

Lemma chained_app base h vs ws :
  chained base h (vs ++ ws) ↔ chained base h vs ∧ chained (base + Z.of_nat (length vs)) (last_hash h vs) ws.
Proof.
  revert base h. induction vs as [|v vs IH]; intros base h; simpl.
  - unfold last_hash. simpl. rewrite Z.add_0_r. tauto.
  - rewrite IH, last_hash_cons. replace (base + 1 + Z.of_nat (length vs)) with (base + Z.of_nat (S (length vs))) by lia. tauto.
Qed.

Lemma chained_take base h vs n : chained base h vs → chained base h (take n vs).
Proof. intros H. rewrite <- (take_drop n vs) in H. by apply chained_app in H as [H _]. Qed.

Lemma chained_drop base h vs n :
  (n ≤ length vs)%nat → chained base h vs → chained (base + Z.of_nat n) (last_hash h (take n vs)) (drop n vs).
Proof.
  intros Hn H. rewrite <- (take_drop n vs) in H. apply chained_app in H as [_ H].
  rewrite length_take in H. by rewrite Nat.min_l in H.
Qed.

Lemma chained_lookup base h vs i v : chained base h vs → vs !! i = Some v → v_offset v = base + Z.of_nat i.
Proof.
  revert base h i. induction vs as [|w vs IH]; intros base h [|i] Hc Hi; simpl in *; try done.
  - destruct Hc as (H & _). injection Hi as <-. lia.
  - destruct Hc as (_ & _ & _ & Hc). rewrite (IH _ _ _ Hc Hi). lia.
Qed.

Lemma chained_envelope base h vs v : chained base h vs → v ∈ vs → v = envelope (record v) (previous v).
Proof.
  revert base h. induction vs as [|w vs IH]; intros base h Hc Hv; [by apply not_elem_of_nil in Hv|].
  destruct Hc as (_ & Hp & Hh & Hc). apply elem_of_cons in Hv as [->|Hv]; [|by apply (IH _ _ Hc)].
  destruct w as [r p d]. simpl in *. subst. done.
Qed.

(** Chains that end in the same hash at the same offset agree, backwards. *)
Lemma chained_agree base h vs ws :
  length vs = length ws → ∀ h', chained base h vs → chained base h' ws → last_hash h vs = last_hash h' ws →
  (h = h' ∧ vs = ws) ∨ collision.
Proof.
  revert ws. induction vs as [|v vs IH] using rev_ind; intros ws Hl h' Hv Hw He.
  - destruct ws; [|done]. left. done.
  - destruct ws as [|w ws _] using rev_ind; [rewrite length_app in Hl; simpl in Hl; lia|].
    rewrite !length_app in Hl. simpl in Hl. assert (length vs = length ws) as Hl' by lia.
    apply chained_app in Hv as (Hv & Hvo & Hvp & Hvh & _). apply chained_app in Hw as (Hw & Hwo & Hwp & Hwh & _).
    rewrite !last_hash_app in He. unfold last_hash in He at 1 3. simpl in He.
    destruct (decide ((last_hash h vs, record v) = (last_hash h' ws, record w))) as [E|Hne].
    + injection E as E1 E2. destruct (IH ws Hl' h' Hv Hw E1) as [[-> ->]|]; [|by right]. left. split; [done|].
      do 2 f_equal. destruct v, w; simpl in *; congruence.
    + right. exists (last_hash h vs), (record v), (last_hash h' ws), (record w). split; [done|congruence].
Qed.
End envelope.
