(* ===== verification/BrokerLog.v ===== *)
(** * The partition log of a broker

    Models log.py and the dispatch of broker.py of
    src/distributed-message-queue/src/message_queue.

    The disk of a partition is its manifest and its segment files, each a list of
    frames named by an offset, possibly with a torn frame at its end; the memory is
    the index of entries, the next offset and the flag of a failed disk update.
    A frame is the envelope it holds (magic, length and CRC-32 are not spelled out:
    a frame that does not check is no frame), positions are in bytes.  Every step on
    the disk takes its outcome from an oracle: it succeeds, or it raises after a
    part of its effect.  [reopen] is the constructor on an existing directory. *)
From S2P Require Import Prelude PyList PyDict Checks Effects Messages.
Local Open Scope Z_scope.

Definition HEADER_SIZE : Z := 12.
Definition MAX_FRAME_BYTES : Z := 2 * 1024 * 1024.
Definition MAX_BATCH_BYTES : Z := 24 * 1024 * 1024.
Definition MAX_BATCH_RECORDS : Z := 10000.

Definition Corruption : exn := StatusError 503.

Record Manifest := mk_manifest { m_base : Z; base_hash : string; m_epoch : Z; committed : Z }.
Record Segment := mk_segment { frames : list Value; torn : bool }.
Record Entry := mk_entry { e_path : Z; e_position : Z; e_size : Z; e_hash : string; e_timestamp : Z }.

(** [None]: the step succeeds; [Some (k, t)]: it fails after [k] parts of it, with a
    torn frame if [t]. *)
Definition Fault : Type := option (nat * bool).

Record PartitionLog := mk_log {
  manifest : Manifest;
  files : dict Z Segment;
  entries : dict Z Entry;
  next_offset : Z;
  failed : bool;
  segment_bytes : Z;
  faults : list Fault;
}.

Definition set_disk (s : PartitionLog) m fs : PartitionLog :=
  mk_log m fs (entries s) (next_offset s) (failed s) (segment_bytes s) (faults s).
Definition set_index (s : PartitionLog) es n : PartitionLog :=
  mk_log (manifest s) (files s) es n (failed s) (segment_bytes s) (faults s).
Definition set_failed (s : PartitionLog) b : PartitionLog :=
  mk_log (manifest s) (files s) (entries s) (next_offset s) b (segment_bytes s) (faults s).
Definition set_faults (s : PartitionLog) x : PartitionLog :=
  mk_log (manifest s) (files s) (entries s) (next_offset s) (failed s) (segment_bytes s) x.

Local Notation M := (Effects.M PartitionLog).
Definition reading {A} (f : PartitionLog → result A) : M A := λ s, (s, f s).
Definition check (b : bool) (e : exn) : M unit := mlift (raise_if (negb b) e (Ok tt)).

(** A step on the disk; the object is unusable after one that failed. *)
Definition disk (effect : Fault → PartitionLog → PartitionLog) : M unit := λ s,
  let s' := set_faults s (tail (faults s)) in
  match head (faults s) with
  | Some (Some f) => (set_failed (effect (Some f) s') true, Raise OSError)
  | _ => (effect None s', Ok tt)
  end.
(** A step that happens as a whole or not. *)
Definition atomically (effect : PartitionLog → PartitionLog) : M unit :=
  disk (λ f s, match f with Some (O, _) => s | _ => effect s end).

(** Corruption that a method finds makes the object unusable, too. *)
Definition corrupted {A} : M A := λ s, (set_failed s true, Raise Corruption).

Definition serialized {A} (m : M A) : M A :=
  do* _ := reading (λ s, raise_if (failed s) Corruption (Ok tt)) in m.

Section log.
Context (digest : string → Rec → string) (size_of : Value → Z).

Definition value_ok (v : Value) : bool :=
  integer (v_offset v) 0 MAX_INT && hash_ok (previous v) && hash_ok (hash v)
  && bool_decide (envelope digest (record v) (previous v) = v).
Definition frame_ok (v : Value) : bool := integer (size_of v) 1 MAX_FRAME_BYTES && value_ok v.
Definition frame_size (v : Value) : Z := HEADER_SIZE + size_of v.
Definition entry (path position : Z) (v : Value) : Entry :=
  mk_entry path position (frame_size v) (hash v) (r_timestamp (record v)).

(** [_prepare]: the loop over the batch. *)
Fixpoint prepare_from (total base : Z) (prev : option string) (values : list Value) : result (list Value) :=
  match values with
  | [] => Ok []
  | v :: vs =>
      let total := total + frame_size v in
      raise_if (negb (integer (size_of v) 1 MAX_FRAME_BYTES) || (MAX_BATCH_BYTES <? total)) (StatusError 413) (
      raise_if (negb (value_ok v)) ValueError (
      raise_if (negb (v_offset v =? base) || negb (bool_decide (Some (previous v) = prev))) (StatusError 409) (
      let* vs := prepare_from total (base + 1) (Some (hash v)) vs in Ok (v :: vs))))
  end.
Definition prepare (values : list Value) (base : Z) (prev : option string) : result (list Value) :=
  raise_if (MAX_BATCH_RECORDS <? Z.of_nat (length values)) ValueError (prepare_from 0 base prev values).

(** ** Scanning *)

Record Scanned := mk_scanned { sc_entries : dict Z Entry; sc_expected : Z; sc_previous : string }.

Fixpoint scan_frames (base path position : Z) (fs : list Value) (acc : Scanned) : result Scanned :=
  match fs with
  | [] => Ok acc
  | v :: fs' =>
      raise_if (negb (frame_ok v)) Corruption (
      let position' := position + frame_size v in
      if v_offset v <? base then scan_frames base path position' fs' acc
      else raise_if (negb (v_offset v =? sc_expected acc) || negb (bool_decide (previous v = sc_previous acc))) Corruption (
           scan_frames base path position' fs'
             (mk_scanned (dset (v_offset v) (entry path position v) (sc_entries acc)) (sc_expected acc + 1) (hash v))))
  end.

Fixpoint scan_segments (base : Z) (segs : list (Z * Segment)) (acc : Scanned) : result Scanned :=
  match segs with
  | [] => Ok acc
  | (path, seg) :: segs' =>
      let* acc := scan_frames base path 0 (frames seg) acc in
      raise_if (torn seg && negb (bool_decide (segs' = []))) Corruption (scan_segments base segs' acc)
  end.

Definition segments (s : PartitionLog) : list (Z * Segment) := sort_by fst (files s).
Definition untorn (fs : dict Z Segment) : dict Z Segment := map (λ x, (x.1, mk_segment (frames x.2) false)) fs.

(** [_scan]; it also truncates a torn frame of the last segment. *)
Definition scan_quiet : M unit :=
  do* _ := disk (λ _ s, s) in
  do* r := reading (λ s,
    scan_segments (m_base (manifest s)) (segments s) (mk_scanned [] (m_base (manifest s)) (base_hash (manifest s)))) in
  do* _ := (λ s, (set_disk s (manifest s) (untorn (files s)), Ok tt)) in
  do* _ := reading (λ s, raise_if (sc_expected r <=? committed (manifest s)) Corruption (Ok tt)) in
  λ s, (set_index s (sc_entries r) (sc_expected r), Ok tt).

(** Inside the [try] that marks the object. *)
Definition marking {A} (m : M A) : M A := λ s,
  match m s with
  | (s', Raise e) => if bool_decide (e = Corruption ∨ e = OSError) then (set_failed s' true, Raise e) else (s', Raise e)
  | r => r
  end.
Definition scan : M unit := serialized (marking scan_quiet).

(** The constructor on what is on the disk; an object that raised there is not used. *)
Definition reopen : M unit := λ s, marking scan_quiet (set_failed s false).

(** ** Reading *)

Definition hash_at (offset : Z) (s : PartitionLog) : result (option string) :=
  raise_if (failed s) Corruption (
  raise_if (negb (integer offset (-1) MAX_INT)) ValueError (
  if offset =? m_base (manifest s) - 1 then Ok (Some (base_hash (manifest s)))
  else Ok (e_hash <$> dget offset (entries s)))).

Fixpoint frame_at (position : Z) (fs : list Value) : option Value :=
  match fs with
  | [] => None
  | v :: fs' => if position =? 0 then Some v else frame_at (position - frame_size v) fs'
  end.

Fixpoint read_from (n : nat) (number total : Z) : M (list Value) :=
  match n with
  | O => mret []
  | S n' =>
      do* e := reading (λ s, dlookup number (entries s)) in
      if MAX_BATCH_BYTES <? total + e_size e then mret []
      else
        do* v := reading (λ s, Ok (match dget (e_path e) (files s) with Some seg => frame_at (e_position e) (frames seg) | None => None end)) in
        match v with
        | Some v =>
            if frame_ok v && (frame_size v =? e_size e) && bool_decide (hash v = e_hash e)
            then do* vs := read_from n' (number + 1) (total + e_size e) in mret (v :: vs)
            else corrupted
        | None => corrupted
        end
  end.

Definition read (offset limit : Z) : M (list Value) := serialized (
  do* _ := check (integer offset 0 MAX_INT && integer limit 1 MAX_BATCH_RECORDS) ValueError in
  do* _ := reading (λ s, raise_if (offset <? m_base (manifest s)) (StatusError 410) (Ok tt)) in
  do* _ := disk (λ _ s, s) in
  do* n := reading (λ s, Ok (Z.min (next_offset s) (offset + limit) - offset)) in
  read_from (Z.to_nat n) offset 0).

(** ** Appending *)

(** The file and position of each frame of a batch. *)
Fixpoint place (limit : Z) (path : option Z) (position : Z) (vs : list Value) : list (Z * Z * Value) :=
  match vs with
  | [] => []
  | v :: vs' =>
      let n := frame_size v in
      let (p, pos) := match path with
                      | Some p => if limit <? position + n then (v_offset v, 0) else (p, position)
                      | None => (v_offset v, 0)
                      end in
      (p, pos, v) :: place limit (Some p) (pos + n) vs'
  end.

Definition append_frame (fs : dict Z Segment) (row : Z * Z * Value) : dict Z Segment :=
  let fr := match dget row.1.1 fs with Some seg => frames seg | None => [] end in
  dset row.1.1 (mk_segment (fr ++ [row.2]) false) fs.
Definition tear (fs : dict Z Segment) (path : Z) : dict Z Segment :=
  dset path (mk_segment (match dget path fs with Some seg => frames seg | None => [] end) true) fs.

Definition write_rows (rows : list (Z * Z * Value)) (f : Fault) (s : PartitionLog) : PartitionLog :=
  match f with
  | None => set_disk s (manifest s) (foldl append_frame (files s) rows)
  | Some (k, t) =>
      let fs := foldl append_frame (files s) (take k rows) in
      set_disk s (manifest s) (match t, rows !! k with true, Some row => tear fs row.1.1 | _, _ => fs end)
  end.

Definition file_size (seg : Segment) : Z := zsum frame_size (frames seg).

Definition append_prepared (prepared : list Value) : M unit :=
  match prepared with
  | [] => mret tt
  | _ =>
      do* rows := reading (λ s,
        let path := last (segments s) in
        Ok (place (segment_bytes s) (fst <$> path) (match path with Some x => file_size x.2 | None => 0 end) prepared)) in
      do* _ := disk (write_rows rows) in
      λ s, (set_index s (foldl (λ es row, dset (v_offset row.2) (entry row.1.1 row.1.2 row.2) es) (entries s) rows)
              (next_offset s + Z.of_nat (length prepared)), Ok tt)
  end.

Definition append (values : list Value) : M unit := serialized (
  do* prepared := reading (λ s,
    let* h := hash_at (next_offset s - 1) s in prepare values (next_offset s) h) in
  append_prepared prepared).

(** ** Alignment, retention, synchronisation *)

Definition write_manifest (m : Manifest) : M unit := atomically (λ s, set_disk s m (files s)).

(** The frames of a file that end at or before a position. *)
Fixpoint cut (position : Z) (fs : list Value) : list Value :=
  match fs with
  | [] => []
  | v :: fs' => if position <? frame_size v then [] else v :: cut (position - frame_size v) fs'
  end.

Fixpoint unlink (paths : list Z) : M unit :=
  match paths with
  | [] => mret tt
  | p :: ps => do* _ := atomically (λ s, set_disk s (manifest s) (ddel p (files s))) in unlink ps
  end.

Definition truncate (e : Entry) : M unit :=
  atomically (λ s, match dget (e_path e) (files s) with
                   | Some seg => set_disk s (manifest s) (dset (e_path e) (mk_segment (cut (e_position e) (frames seg)) false) (files s))
                   | None => s
                   end).

(** The body of the [try] of [align]. *)
Definition align_disk (epoch cm : Z) : M unit :=
  do* m := reading (λ s, Ok (mk_manifest (m_base (manifest s)) (base_hash (manifest s)) epoch cm)) in
  do* _ := write_manifest m in
  do* n := reading (λ s, Ok (next_offset s)) in
  do* _ := (if cm + 1 <? n then
              do* e := reading (λ s, dlookup (cm + 1) (entries s)) in
              do* ps := reading (λ s, Ok (filter (λ p, e_path e < p) (map fst (segments s)))) in
              do* _ := unlink ps in
              truncate e
            else mret tt) in
  scan_quiet.

Definition align (epoch cm : Z) (committed_hash : string) : M unit := serialized (
  do* _ := check (integer epoch 0 MAX_INT && integer cm (-1) MAX_INT) ValueError in
  do* _ := reading (λ s, raise_if (epoch <? m_epoch (manifest s)) (StatusError 409) (Ok tt)) in
  do* _ := reading (λ s, raise_if (cm <? committed (manifest s)) (StatusError 409) (Ok tt)) in
  do* h := reading (hash_at cm) in
  do* _ := check (bool_decide (h = Some committed_hash)) (StatusError 409) in
  marking (align_disk epoch cm)).

(** The body of the [try] of [retain]. *)
Definition retain_disk (base : Z) (bh : string) : M unit :=
  do* m := reading (λ s, Ok (mk_manifest base bh (m_epoch (manifest s)) (Z.max (committed (manifest s)) (base - 1)))) in
  do* _ := write_manifest m in
  do* ps := reading (λ s,
    let needed := map (λ x, e_path x.2) (filter (λ x, base <= x.1) (entries s : list (Z * Entry))) in
    Ok (filter (λ p, p ∉ needed) (removelast (map fst (segments s))))) in
  do* _ := unlink ps in
  scan_quiet.

Definition retain (base : Z) (bh : string) : M unit := serialized (
  do* _ := check (integer base 0 MAX_INT && hash_ok bh) ValueError in
  do* _ := reading (λ s, raise_if (negb (integer base (m_base (manifest s)) (next_offset s))) (StatusError 409) (Ok tt)) in
  do* h := reading (hash_at (base - 1)) in
  do* _ := check (bool_decide (h = Some bh)) (StatusError 409) in
  marking (retain_disk base bh)).

Definition synchronize (epoch cm : Z) (committed_hash : string) (base : Z) (bh : string) (values : list Value) : M unit :=
  serialized (
  do* _ := check (integer cm (-1) MAX_INT && integer base 0 MAX_INT && hash_ok committed_hash && hash_ok bh) ValueError in
  do* prepared := mlift (prepare values (cm + 1) (Some committed_hash)) in
  do* _ := reading (λ s, raise_if (negb (integer base (m_base (manifest s)) (cm + 1))) (StatusError 409) (Ok tt)) in
  do* h := reading (hash_at (base - 1)) in
  do* _ := check (bool_decide (h = Some bh)) (StatusError 409) in
  do* _ := align epoch cm committed_hash in
  do* b := reading (λ s, Ok (m_base (manifest s))) in
  do* _ := (if b <? base then retain base bh else mret tt) in
  append_prepared prepared).

(** ** Installing a snapshot *)

(** The new generation is built aside and takes the place of the old one by the
    replacement of the pointer file. *)
Definition publish (m : Manifest) (prepared : list Value) : M unit :=
  do* temporary := (λ s,
    match (do* _ := disk (λ _ s, s) in append_prepared prepared)
            (mk_log m [] [] (m_base m) false (segment_bytes s) (faults s)) with
    | (t, Ok _) => (set_faults s (faults t), Ok t)
    | (t, Raise e) => (set_failed (set_faults s (faults t)) true, Raise e)
    end) in
  do* _ := atomically (λ s, set_disk s m (files temporary)) in
  λ s, (set_index s (entries temporary) (next_offset temporary), Ok tt).

Definition install (values : list Value) (base : Z) (bh : string) (epoch : Z) (cm : option Z) (committed_hash : option string) : M unit :=
  serialized (
  do* _ := check (integer base 0 MAX_INT && integer epoch 0 MAX_INT && hash_ok bh) ValueError in
  do* _ := reading (λ s, raise_if (epoch <? m_epoch (manifest s)) (StatusError 409) (Ok tt)) in
  do* prepared := mlift (prepare values base (Some bh)) in
  let checkpoint := default (base - 1) cm in
  do* _ := check (integer checkpoint (base - 1) MAX_INT) ValueError in
  let hashes := foldl (λ d v, dset (v_offset v) (hash v) d) [(base - 1, bh)] prepared in
  do* _ := mlift (
    match dget checkpoint hashes with
    | None => Raise (StatusError 409)
    | Some h => match committed_hash with
                | Some ch => raise_if (negb (hash_ok ch)) ValueError (raise_if (negb (bool_decide (ch = h))) (StatusError 409) (Ok tt))
                | None => Ok tt
                end
    end) in
  do* _ := reading (λ s, raise_if (checkpoint <? committed (manifest s)) (StatusError 409) (Ok tt)) in
  do* _ := reading (λ s,
    match dget (committed (manifest s)) hashes with
    | Some h => let* mine := hash_at (committed (manifest s)) s in raise_if (negb (bool_decide (mine = Some h))) (StatusError 409) (Ok tt)
    | None => Ok tt
    end) in
  publish (mk_manifest base bh epoch checkpoint) prepared).

(** ** The broker's requests *)

Inductive Request :=
| Status (committed : Z)
| Read (offset limit : Z)
| Sync (epoch committed : Z) (committed_hash : string) (base : Z) (base_hash : string) (records : list Value)
| Install (records : list Value) (base : Z) (base_hash : string) (epoch : Z) (committed : option Z) (committed_hash : option string)
| Retain (base : Z) (base_hash : string).

Inductive Reply :=
| State (base next epoch : Z) (hash : option string)
| Records (records : list Value)
| Tail (next : Z) (hash : option string)
| Base (base : Z).

Definition tail_reply : M Reply :=
  reading (λ s, let* h := hash_at (next_offset s - 1) s in Ok (Tail (next_offset s) h)).

Definition dispatch (r : Request) : M Reply :=
  match r with
  | Status cm =>
      do* _ := scan in
      reading (λ s, let* h := hash_at cm s in Ok (State (m_base (manifest s)) (next_offset s) (m_epoch (manifest s)) h))
  | Read offset limit => do* vs := read offset limit in mret (Records vs)
  | Sync epoch cm ch base bh vs => do* _ := synchronize epoch cm ch base bh vs in tail_reply
  | Install vs base bh epoch cm ch => do* _ := install vs base bh epoch cm ch in tail_reply
  | Retain base bh => do* _ := retain base bh in reading (λ s, Ok (Base (m_base (manifest s))))
  end.
End log.

(** A new partition. *)
Definition new_log (segment_bytes : Z) : PartitionLog := mk_log (mk_manifest 0 ZERO 0 (-1)) [] [] 0 false segment_bytes [].
