(* ===== verification/BrokerLogInv.v ===== *)
(** * The invariant of a partition log

    On the disk the segments hold one chain of envelopes, each file from the offset
    of its name on, through the committed one; the memory of a usable object is the
    index of these frames. *)
From S2P Require Import Prelude PyList PyDict Checks Effects Messages BrokerLog.
Local Open Scope Z_scope.

Section inv.
Context (digest : string → Rec → string) (size_of : Value → Z).
Local Notation frame_ok := (BrokerLog.frame_ok digest size_of).
Local Notation frame_size := (BrokerLog.frame_size size_of).
Local Notation entry := (BrokerLog.entry size_of).
Local Notation chained := (Messages.chained digest).

(** ** Frames and their positions *)

Definition flat (segs : list (Z * Segment)) : list Value := concat (map (λ x, frames x.2) segs).

Fixpoint rows_at (path position : Z) (fs : list Value) : list (Z * Z * Value) :=
  match fs with [] => [] | v :: fs' => (path, position, v) :: rows_at path (position + frame_size v) fs' end.
Definition rows (segs : list (Z * Segment)) : list (Z * Z * Value) := concat (map (λ x, rows_at x.1 0 (frames x.2)) segs).

Definition row_entry (r : Z * Z * Value) : Z * Entry := (v_offset r.2, entry r.1.1 r.1.2 r.2).
Definition index (base : Z) (rs : list (Z * Z * Value)) : dict Z Entry :=
  map row_entry (filter (λ r, base <= v_offset r.2) rs).

(** Every file is named by the offset of its first frame; only the last is empty. *)
Fixpoint laid (n : Z) (segs : list (Z * Segment)) : Prop :=
  match segs with
  | [] => True
  | (p, seg) :: segs' => p = n ∧ (frames seg = [] → segs' = []) ∧ (torn seg = true → segs' = [])
                         ∧ laid (n + Z.of_nat (length (frames seg))) segs'
  end.

#[local] Arguments flat : simpl never.
#[local] Arguments rows : simpl never.
#[local] Arguments index : simpl never.
#[local] Arguments untorn : simpl never.

Lemma flat_nil : flat [] = [].
Proof. done. Qed.
Lemma flat_cons p seg segs : flat ((p, seg) :: segs) = frames seg ++ flat segs.
Proof. done. Qed.
Lemma rows_cons p seg segs : rows ((p, seg) :: segs) = rows_at p 0 (frames seg) ++ rows segs.
Proof. done. Qed.

Lemma rows_at_values path pos fs : (rows_at path pos fs).*2 = fs.
Proof. revert pos. induction fs as [|v fs IH]; intros pos; simpl; [done|]. by rewrite IH. Qed.

Lemma rows_values segs : (rows segs).*2 = flat segs.
Proof.
  unfold rows, flat. induction segs as [|[p s] segs IH]; simpl; [done|]. by rewrite fmap_app, rows_at_values, IH.
Qed.

Lemma rows_at_app path pos fs gs :
  rows_at path pos (fs ++ gs) = rows_at path pos fs ++ rows_at path (pos + zsum frame_size fs) gs.
Proof.
  revert pos. induction fs as [|v fs IH]; intros pos; simpl; [by rewrite Z.add_0_r|].
  rewrite IH. do 3 f_equal. lia.
Qed.

Lemma rows_at_paths path pos fs r : r ∈ rows_at path pos fs → r.1.1 = path.
Proof.
  revert pos. induction fs as [|v fs IH]; intros pos; simpl; [by intros ?%not_elem_of_nil|].
  intros [->|H]%elem_of_cons; [done|by eapply IH].
Qed.

Lemma rows_app segs segs' : rows (segs ++ segs') = rows segs ++ rows segs'.
Proof. unfold rows. by rewrite map_app, concat_app. Qed.
Lemma flat_app segs segs' : flat (segs ++ segs') = flat segs ++ flat segs'.
Proof. unfold flat. by rewrite map_app, concat_app. Qed.

Lemma rows_length segs : length (rows segs) = length (flat segs).
Proof. by rewrite <- rows_values, length_fmap. Qed.

Lemma laid_app n segs segs' :
  laid n (segs ++ segs') ↔ laid n segs ∧ laid (n + Z.of_nat (length (flat segs))) segs'
    ∧ (segs' ≠ [] → Forall (λ x, frames x.2 ≠ [] ∧ torn x.2 = false) segs).
Proof.
  revert n. induction segs as [|[p s] segs IH]; intros n; simpl.
  - rewrite Z.add_0_r. split; [by intros; split_and!|tauto].
  - rewrite IH, Forall_cons, flat_cons, length_app. simpl.
    replace (n + Z.of_nat (length (frames s) + length (flat segs))) with (n + Z.of_nat (length (frames s)) + Z.of_nat (length (flat segs))) by lia.
    split.
    + intros (-> & Hf & Ht & Hl & Hl' & Hne). split; [split_and!; try done|split; [done|]].
      * intros E. by destruct (app_eq_nil _ _ (Hf E)).
      * intros E. by destruct (app_eq_nil _ _ (Ht E)).
      * intros Hs. split; [split|by apply Hne].
        -- intros E. apply Hs. by destruct (app_eq_nil _ _ (Hf E)).
        -- destruct (torn s); [|done]. destruct Hs. by destruct (app_eq_nil _ _ (Ht eq_refl)).
    + intros ((-> & Hf & Ht & Hl) & Hl' & Hne). split_and!; try done.
      * intros E. destruct (decide (segs' = [])) as [->|Hs]; [by rewrite app_nil_r; apply Hf|]. by destruct (Hne Hs) as [[? _] _].
      * intros E. destruct (decide (segs' = [])) as [->|Hs]; [by rewrite app_nil_r; apply Ht|].
        destruct (Hne Hs) as [[_ ?] _]. congruence.
      * intros Hs. by destruct (Hne Hs) as [_ ?].
Qed.

Lemma laid_names_le n segs x : laid n segs → x ∈ segs → n <= x.1 <= n + Z.of_nat (length (flat segs)).
Proof.
  revert n. induction segs as [|[p s] segs IH]; intros n; simpl; [by intros _ ?%not_elem_of_nil|].
  intros (-> & _ & _ & Hl) [->|Hx]%elem_of_cons; rewrite flat_cons, length_app; [simpl; lia|].
  specialize (IH _ Hl Hx). lia.
Qed.

Lemma laid_ordered n segs : laid n segs → ordered fst segs.
Proof.
  revert n. induction segs as [|[p s] segs IH]; intros n; simpl; [constructor|].
  intros (-> & _ & _ & Hl). apply ordered_cons. split; [by eapply IH|]. intros x Hx.
  pose proof (laid_names_le _ _ _ Hl Hx). simpl. change (Z.leb n x.1 = true). apply Z.leb_le. lia.
Qed.

Lemma laid_dict n segs : laid n segs → dict_ok segs.
Proof.
  revert n. induction segs as [|[p s] segs IH]; intros n; simpl; [intros; apply dict_nil_ok|].
  intros (-> & Hf & _ & Hl). unfold dict_ok, dkeys. simpl. constructor; [|by eapply IH].
  intros ([q s'] & E & Hx)%list_elem_of_fmap. simpl in E. subst q. destruct (frames s) eqn:Es.
  - rewrite Hf in Hx by done. by apply not_elem_of_nil in Hx.
  - pose proof (laid_names_le _ _ _ Hl Hx) as Hle. simpl in Hle. lia.
Qed.

Lemma laid_sorted n segs : laid n segs → sort_by fst segs = segs.
Proof. intros H. apply sort_by_id. by eapply laid_ordered. Qed.

(** ** The index *)

Lemma chained_offsets b h vs : chained b h vs → v_offset <$> vs = seqZ b (Z.of_nat (length vs)).
Proof.
  intros Hc. apply list_eq. intros i. rewrite list_lookup_fmap.
  destruct (vs !! i) as [v|] eqn:Hv; simpl.
  - rewrite (chained_lookup _ _ _ _ _ _ Hc Hv). symmetry. apply lookup_lt_Some in Hv. apply lookup_seqZ. lia.
  - symmetry. apply lookup_ge_None in Hv. apply lookup_seqZ_ge. lia.
Qed.

Lemma index_drop b h base rs :
  chained b h rs.*2 → b <= base → index base rs = row_entry <$> drop (Z.to_nat (base - b)) rs.
Proof.
  unfold index. intros Hc Hb. change (map row_entry) with (fmap (M := list) row_entry). f_equal.
  revert b h Hc Hb. induction rs as [|r rs IH]; intros b h Hc Hb; [by rewrite drop_nil|].
  destruct Hc as (Ho & _ & _ & Hc). destruct (decide (b = base)) as [->|Hne].
  - rewrite Z.sub_diag. change (drop (Z.to_nat 0) (r :: rs)) with (r :: rs). apply filter_all. intros x [->|Hx]%elem_of_cons; [lia|].
    apply list_elem_of_lookup in Hx as [i Hi].
    assert (rs.*2 !! i = Some x.2) as Hi' by (rewrite list_lookup_fmap, Hi; done).
    rewrite (chained_lookup _ _ _ _ _ _ Hc Hi'). lia.
  - rewrite filter_cons_False by lia. rewrite (IH _ _ Hc) by lia.
    replace (Z.to_nat (base - b)) with (S (Z.to_nat (base - (b + 1)))) by lia. done.
Qed.

Lemma index_get b h base rs o :
  chained b h rs.*2 → b <= base →
  dget o (index base rs) = if base <=? o then snd ∘ row_entry <$> rs !! Z.to_nat (o - b) else None.
Proof.
  intros Hc Hb. rewrite (index_drop b h) by done. set (k := Z.to_nat (base - b)).
  destruct (decide (k ≤ length rs)%nat) as [Hk|Hk].
  2: { rewrite drop_ge by lia. simpl. destruct (base <=? o) eqn:E; [|done]. rewrite lookup_ge_None_2 by lia. done. }
  assert (chained (b + Z.of_nat k) (last_hash h (take k rs.*2)) (drop k rs).*2) as Hd.
  { rewrite fmap_drop. apply chained_drop; [by rewrite length_fmap|done]. }
  replace (b + Z.of_nat k) with base in Hd by lia.
  assert (rs !! Z.to_nat (o - b) = if base <=? o then drop k rs !! Z.to_nat (o - base) else rs !! Z.to_nat (o - b)) as ->.
  { destruct (base <=? o) eqn:E; [|done]. rewrite lookup_drop. f_equal. lia. }
  generalize dependent (last_hash h (take k rs.*2)). generalize (drop k rs). clear Hb Hk Hc k. intros ws. revert base.
  induction ws as [|w ws IH]; intros base h' Hd; [by destruct (base <=? o)|].
  destruct Hd as (Ho & _ & _ & Hd). specialize (IH _ _ Hd). rewrite fmap_cons. cbn [dget row_entry]. case_decide as Hc.
  - subst o. rewrite Ho. rewrite Z.leb_refl, Z.sub_diag. done.
  - unfold row_entry in *. rewrite IH. destruct (base <=? o) eqn:E.
    + replace (base + 1 <=? o) with true by lia. replace (Z.to_nat (o - base)) with (S (Z.to_nat (o - (base + 1)))) by lia. done.
    + replace (base + 1 <=? o) with false by lia. done.
Qed.

Lemma index_cons base r rs :
  index base (r :: rs) = if base <=? v_offset r.2 then row_entry r :: index base rs else index base rs.
Proof.
  unfold index. destruct (base <=? v_offset r.2) eqn:E; [rewrite filter_cons_True by lia|rewrite filter_cons_False by lia]; done.
Qed.

Lemma index_app base rs rs' : index base (rs ++ rs') = index base rs ++ index base rs'.
Proof. unfold index. by rewrite filter_app, map_app. Qed.

Lemma index_keys base rs o : o ∈ dkeys (index base rs) → ∃ r, r ∈ rs ∧ v_offset r.2 = o.
Proof.
  unfold dkeys, index. intros (x & -> & Hx)%list_elem_of_fmap. apply list_elem_of_fmap in Hx as (r & -> & Hr).
  apply list_elem_of_filter in Hr as [_ Hr]. by exists r.
Qed.

(** ** Invariants *)

Record disk_ok (b0 : Z) (h0 : string) (m : Manifest) (fs : dict Z Segment) : Prop := {
  d_laid : laid b0 fs;
  d_chain : chained b0 h0 (flat fs);
  d_frames : Forall (λ v, frame_ok v = true) (flat fs);
  d_first : 0 <= b0;
  d_base : b0 <= m_base m <= committed m + 1;
  d_end : committed m + 1 <= b0 + Z.of_nat (length (flat fs));
  d_hash : base_hash m = last_hash h0 (take (Z.to_nat (m_base m - b0)) (flat fs));
}.

Definition intact (fs : dict Z Segment) : Prop := Forall (λ x, torn x.2 = false) (fs : list (Z * Segment)).

Record live (b0 : Z) (h0 : string) (s : PartitionLog) : Prop := {
  lv_disk : disk_ok b0 h0 (manifest s) (files s);
  lv_failed : failed s = false;
  lv_intact : intact (files s);
  lv_entries : entries s = index (m_base (manifest s)) (rows (files s));
  lv_next : next_offset s = b0 + Z.of_nat (length (flat (files s)));
}.

(** ** Scanning gives the index *)

Section scanning.
Context (base : Z) (bh : string).

(** The accumulator after the frames before [n], the last with hash [h]. *)
Definition scanned_to (n : Z) (h : string) (es : dict Z Entry) : Scanned :=
  mk_scanned es (Z.max n base) (if n <=? base then bh else h).

Definition seam (n : Z) (h : string) (ws : list Value) : Prop :=
  n <= base → base <= n + Z.of_nat (length ws) ∧ bh = last_hash h (take (Z.to_nat (base - n)) ws).

Lemma seam_cons n h v ws : hash v = hash v → seam n h (v :: ws) → seam (n + 1) (hash v) ws.
Proof.
  intros _ H Hn. destruct H as [H1 ->]; [lia|]. split; [simpl in *; lia|].
  replace (Z.to_nat (base - n)) with (S (Z.to_nat (base - (n + 1)))) by lia. cbn [take]. apply last_hash_cons.
Qed.

Lemma scan_frames_ok path pos fs more n h es :
  chained n h (fs ++ more) → Forall (λ v, frame_ok v = true) fs → seam n h (fs ++ more) →
  (∀ o, o ∈ dkeys es → o < n) →
  scan_frames digest size_of base path pos fs (scanned_to n h es) =
    Ok (scanned_to (n + Z.of_nat (length fs)) (last_hash h fs) (es ++ index base (rows_at path pos fs))).
Proof.
  revert pos n h es. induction fs as [|v fs IH]; intros pos n h es Hc Hf Hs Hk.
  - simpl. unfold last_hash. simpl. by rewrite Z.add_0_r, app_nil_r.
  - apply Forall_cons in Hf as [Hv Hf]. destruct Hc as (Ho & Hp & Hh & Hc). cbn [scan_frames]. rewrite Hv.
    cbn [raise_if negb]. pose proof (seam_cons n h v (fs ++ more) eq_refl Hs) as Hs'.
    assert (scanned_to (n + 1) (hash v) es = scanned_to n h es ∨ base <= n) as Hcase.
    { unfold scanned_to. destruct (decide (base <= n)); [by right|left]. f_equal; [lia|]. 
      replace (n + 1 <=? base) with true by lia. by replace (n <=? base) with true by lia. }
    destruct (v_offset v <? base) eqn:Elt.
    + destruct Hcase as [Hcase|]; [|lia]. rewrite <- Hcase. rewrite (IH _ _ _ _ Hc Hf Hs'); [|intros o Hi; specialize (Hk o Hi); lia].
      rewrite last_hash_cons. cbn [rows_at]. rewrite index_cons. cbn [snd]. replace (base <=? v_offset v) with false by lia.
      do 2 f_equal. simpl. lia.
    + assert (sc_expected (scanned_to n h es) = n) as -> by (simpl; lia).
      assert (sc_previous (scanned_to n h es) = h) as ->.
      { simpl. destruct (n <=? base) eqn:E; [|done]. destruct (Hs ltac:(lia)) as [_ ->].
        replace (Z.to_nat (base - n)) with O by lia. done. }
      rewrite Ho, Z.eqb_refl, bool_decide_eq_true_2 by done. cbn [raise_if negb orb].
      rewrite Ho in Elt. assert (base <= n) by lia.
      cbn [sc_entries scanned_to]. rewrite dset_new by (intros Hi; specialize (Hk n Hi); lia).
      assert (mk_scanned (es ++ [(n, entry path pos v)]) (n + 1) (hash v) = scanned_to (n + 1) (hash v) (es ++ [(n, entry path pos v)])) as ->.
      { unfold scanned_to. f_equal; [lia|]. by replace (n + 1 <=? base) with false by lia. }
      rewrite (IH _ _ _ _ Hc Hf Hs').
      * rewrite last_hash_cons. cbn [rows_at]. rewrite index_cons. cbn [snd]. replace (base <=? v_offset v) with true by lia.
        unfold row_entry. cbn [fst snd]. rewrite Ho, <- app_assoc. simpl app. do 2 f_equal. simpl. lia.
      * intros o. unfold dkeys. rewrite fmap_app, elem_of_app. intros [Hi|Hi]; [specialize (Hk o Hi); lia|].
        simpl in Hi. apply list_elem_of_singleton in Hi. lia.
Qed.

Lemma scan_segments_ok segs n h es :
  laid n segs → chained n h (flat segs) → Forall (λ v, frame_ok v = true) (flat segs) → seam n h (flat segs) →
  (∀ o, o ∈ dkeys es → o < n) →
  scan_segments digest size_of base segs (scanned_to n h es) =
    Ok (scanned_to (n + Z.of_nat (length (flat segs))) (last_hash h (flat segs)) (es ++ index base (rows segs))).
Proof.
  revert n h es. induction segs as [|[p s] segs IH]; intros n h es Hl Hc Hf Hs Hk.
  - simpl. unfold last_hash. simpl. by rewrite Z.add_0_r, app_nil_r.
  - destruct Hl as (-> & He & Ht & Hl). rewrite flat_cons in *. cbn [scan_segments].
    apply Forall_app in Hf as [Hf Hf']. rewrite (scan_frames_ok _ _ _ _ _ _ _ Hc Hf Hs Hk). simpl rbind.
    assert (torn s && negb (bool_decide (segs = [])) = false) as ->.
    { destruct (torn s); [|done]. rewrite Ht by done. done. }
    cbn [raise_if]. apply chained_app in Hc as [Hc Hc'].
    rewrite IH; try done.
    + rewrite rows_cons, index_app, last_hash_app, length_app, <- app_assoc. do 2 f_equal. lia.
    + intros Hn. destruct Hs as [Hs1 Hs2]; [lia|]. rewrite length_app in Hs1. split; [lia|].
      rewrite Hs2. rewrite take_app_ge by lia. rewrite last_hash_app. do 2 f_equal. lia.
    + intros o. unfold dkeys. rewrite fmap_app, elem_of_app. intros [Hi|Hi]; [specialize (Hk o Hi); lia|].
      apply index_keys in Hi as (r & Hr & <-). assert (r.2 ∈ frames s) as Hr' .
      { rewrite <- (rows_at_values n 0). by apply list_elem_of_fmap_2. }
      apply list_elem_of_lookup in Hr' as [i Hi]. rewrite (chained_lookup _ _ _ _ _ _ Hc Hi). apply lookup_lt_Some in Hi. lia.
Qed.
End scanning.

(** ** Scanning a disk that is in order *)

Lemma flat_untorn fs : flat (untorn fs) = flat fs.
Proof. unfold flat, untorn. by rewrite map_map. Qed.
Lemma rows_untorn fs : rows (untorn fs) = rows fs.
Proof. unfold rows, untorn. by rewrite map_map. Qed.

Lemma laid_untorn n fs : laid n fs → laid n (untorn fs).
Proof.
  revert n. induction fs as [|[p s] fs IH]; intros n; [done|]. intros (-> & He & Ht & Hl). cbn [untorn map laid fst snd frames torn].
  split_and!; [done| |done|by apply IH]. intros E. by rewrite He.
Qed.

Lemma disk_untorn b0 h0 m fs : disk_ok b0 h0 m fs → disk_ok b0 h0 m (untorn fs).
Proof. intros []. split; rewrite ?flat_untorn; try done. by apply laid_untorn. Qed.

Lemma untorn_intact fs : intact (untorn fs).
Proof. unfold intact, untorn. apply Forall_forall. intros x (y & -> & _)%list_elem_of_fmap. done. Qed.

Lemma intact_untorn fs : intact fs → untorn fs = fs.
Proof.
  unfold intact, untorn. induction 1 as [|[p [fr t]] fs Ht Hi IH]; [done|]. simpl in *. by rewrite IH, Ht.
Qed.

Lemma scan_disk b0 h0 m fs :
  disk_ok b0 h0 m fs →
  scan_segments digest size_of (m_base m) (sort_by fst fs) (mk_scanned [] (m_base m) (base_hash m)) =
    Ok (mk_scanned (index (m_base m) (rows fs)) (b0 + Z.of_nat (length (flat fs)))
          (if b0 + Z.of_nat (length (flat fs)) <=? m_base m then base_hash m else last_hash h0 (flat fs))).
Proof.
  intros [Hl Hc Hf H0 Hb He Hh]. rewrite (laid_sorted b0) by done.
  assert (mk_scanned [] (m_base m) (base_hash m) = scanned_to (m_base m) (base_hash m) b0 h0 []) as ->.
  { unfold scanned_to. f_equal; [lia|]. destruct (b0 <=? m_base m) eqn:E; [done|lia]. }
  rewrite (scan_segments_ok _ _ _ b0); try done.
  - unfold scanned_to. rewrite app_nil_l. do 2 f_equal. lia.
  - intros _. split; [lia|done].
  - by intros o ?%not_elem_of_nil.
Qed.

Lemma scan_quiet_ok b0 h0 s :
  disk_ok b0 h0 (manifest s) (files s) → failed s = false →
  match scan_quiet digest size_of s with
  | (s', Ok _) => live b0 h0 s' ∧ manifest s' = manifest s ∧ files s' = untorn (files s) ∧ faults s' = tail (faults s)
      ∧ segment_bytes s' = segment_bytes s
  | (s', Raise e) => e = OSError ∧ failed s' = true ∧ manifest s' = manifest s ∧ files s' = files s
      ∧ faults s' = tail (faults s) ∧ faults s ≠ []
  end.
Proof.
  intros Hd Hf. unfold scan_quiet, mbind, disk, reading. pose proof (scan_disk _ _ _ _ Hd) as Hs.
  destruct (head (faults s)) as [[f|]|] eqn:Eh.
  - cbn. split_and!; try done. by destruct (faults s).
  - unfold segments. cbn [set_faults files manifest]. rewrite Hs. cbn. 
    destruct (_ <=? committed _) eqn:Ec; [destruct Hd; lia|]. cbn. split_and!; try done.
    split; cbn; [by apply disk_untorn|done|apply untorn_intact|by rewrite rows_untorn|by rewrite flat_untorn].
  - unfold segments. cbn [set_faults files manifest]. rewrite Hs. cbn.
    destruct (_ <=? committed _) eqn:Ec; [destruct Hd; lia|]. cbn. split_and!; try done.
    split; cbn; [by apply disk_untorn|done|apply untorn_intact|by rewrite rows_untorn|by rewrite flat_untorn].
Qed.

(** ** Appending rows *)

Lemma append_frame_last fs p seg v :
  p ∉ dkeys fs → append_frame (fs ++ [(p, seg)]) ((p, file_size size_of seg), v) = fs ++ [(p, mk_segment (frames seg ++ [v]) false)].
Proof.
  intros Hp. unfold append_frame. cbn [fst snd]. induction fs as [|[q s] fs IH]; simpl in *.
  - by rewrite !decide_True.
  - apply not_elem_of_cons in Hp as [Hp Hp']. rewrite !decide_False by done. by rewrite IH.
Qed.

Lemma append_frame_new (fs : dict Z Segment) p pos v :
  p ∉ dkeys fs → append_frame fs ((p, pos), v) = fs ++ [(p, mk_segment [v] false)].
Proof. intros Hp. unfold append_frame. cbn [fst snd]. apply dget_None in Hp as Hp'. by rewrite Hp', dset_new. Qed.

(** Where the next frame may go. *)
Definition tip (fs : dict Z Segment) (path : option Z) (position : Z) : Prop :=
  match last fs with
  | Some x => path = Some x.1 ∧ position = file_size size_of x.2
  | None => path = None
  end.

Lemma laid_snoc n fs p seg v :
  laid n (fs ++ [(p, seg)]) → laid n (fs ++ [(p, mk_segment (frames seg ++ [v]) false)]).
Proof.
  rewrite !laid_app. intros (H1 & (-> & _ & _ & _) & H3). split; [done|]. split; [by cbn|]. intros _. by apply H3.
Qed.

Lemma flat_snoc fs p seg : flat (fs ++ [(p, seg)]) = flat fs ++ frames seg.
Proof. rewrite flat_app, flat_cons. by rewrite app_nil_r. Qed.
Lemma rows_snoc fs p seg : rows (fs ++ [(p, seg)]) = rows fs ++ rows_at p 0 (frames seg).
Proof. rewrite rows_app, rows_cons. by rewrite app_nil_r. Qed.

Lemma laid_snoc_key n fs x : laid n (fs ++ [x]) → x.1 ∉ dkeys fs.
Proof.
  intros Hl%laid_dict. unfold dict_ok, dkeys in Hl. rewrite fmap_app in Hl. apply NoDup_app in Hl as (_ & H & _).
  intros Hx. apply (H _ Hx). simpl. by left.
Qed.

(** The file for the next frame is the last one or a new one. *)
Lemma tip_file n fs path position p pos :
  laid n fs → tip fs path position →
  (path = Some p ∧ pos = position) ∨ (p = n + Z.of_nat (length (flat fs)) ∧ pos = 0) →
  (∃ gs seg, fs = gs ++ [(p, seg)] ∧ p ∉ dkeys gs ∧ pos = file_size size_of seg) ∨
  (p ∉ dkeys fs ∧ p = n + Z.of_nat (length (flat fs)) ∧ pos = 0 ∧ Forall (λ x, frames x.2 ≠ []) fs).
Proof.
  intros Hl Ht Hp. destruct fs as [|[q seg] gs _] using rev_ind.
  { right. unfold tip in Ht. simpl in Ht. subst path. destruct Hp as [[? _]|[-> ->]]; [done|].
    split_and!; [by intros ?%not_elem_of_nil|done..]. }
  unfold tip in Ht. rewrite last_snoc in Ht. destruct Ht as [-> ->]. cbn [fst snd] in *.
  pose proof (laid_snoc_key _ _ _ Hl) as Hq. cbn [fst] in Hq.
  destruct Hp as [[[= ->] ->]|[Hp ->]]; [left; by exists gs, seg|].
  apply laid_app in Hl as (Hl & (Hqn & _) & Hne). rewrite flat_snoc, length_app in *.
  destruct (frames seg) as [|w ws] eqn:Es.
  - left. exists gs, seg. assert (p = q) as -> by (simpl in Hp; lia). split_and!; try done. unfold file_size. by rewrite Es.
  - right. split_and!; [|lia|done|].
    + unfold dkeys. rewrite fmap_app, elem_of_app. intros [(x & E & Hx)%list_elem_of_fmap|Hx].
      * pose proof (laid_names_le _ _ _ Hl Hx) as Hle. simpl in Hp. lia.
      * apply list_elem_of_singleton in Hx. simpl in *. lia.
    + apply Forall_app. split; [|by repeat constructor; simpl; rewrite Es]. eapply Forall_impl; [by apply Hne|]. by intros x [? _].
Qed.

Lemma laid_new n fs p seg :
  laid n fs → intact fs → Forall (λ x, frames x.2 ≠ []) fs → p = n + Z.of_nat (length (flat fs)) → laid n (fs ++ [(p, seg)]).
Proof.
  intros Hl Hi Hne ->. apply laid_app. split; [done|]. split; [by cbn|]. intros _. apply Forall_forall.
  intros x Hx. unfold intact in Hi. rewrite Forall_forall in Hne, Hi. eauto.
Qed.

Lemma append_frame_ok n fs path position p pos v :
  laid n fs → intact fs → tip fs path position →
  (path = Some p ∧ pos = position) ∨ (p = n + Z.of_nat (length (flat fs)) ∧ pos = 0) →
  let fs' := append_frame fs ((p, pos), v) in
  laid n fs' ∧ intact fs' ∧ flat fs' = flat fs ++ [v] ∧ rows fs' = rows fs ++ [((p, pos), v)]
  ∧ tip fs' (Some p) (pos + frame_size v).
Proof.
  intros Hl Hi Ht Hp. destruct (tip_file _ _ _ _ _ _ Hl Ht Hp) as [(gs & seg & -> & Hk & ->)|(Hk & Hpn & -> & Hne)]; cbn zeta.
  - rewrite append_frame_last by done. split; [|split; [|split; [|split]]].
    + by apply laid_snoc.
    + unfold intact in *. apply Forall_app in Hi as [Hi _]. apply Forall_app. split; [done|]. by repeat constructor.
    + rewrite !flat_snoc. cbn [frames]. by rewrite app_assoc.
    + rewrite !rows_snoc. cbn [frames]. rewrite rows_at_app, app_assoc. done.
    + unfold tip. rewrite last_snoc. cbn [fst snd]. split; [done|]. unfold file_size. cbn [frames]. rewrite zsum_app. simpl. lia.
  - rewrite append_frame_new by done. split; [|split; [|split; [|split]]].
    + by apply laid_new.
    + unfold intact in *. apply Forall_app. split; [done|]. by repeat constructor.
    + by rewrite flat_snoc.
    + by rewrite rows_snoc.
    + unfold tip. rewrite last_snoc. cbn [fst snd]. split; [done|]. unfold file_size. cbn [frames]. simpl. lia.
Qed.

Lemma tear_ok n fs path position p pos :
  laid n fs → intact fs → tip fs path position →
  (path = Some p ∧ pos = position) ∨ (p = n + Z.of_nat (length (flat fs)) ∧ pos = 0) →
  laid n (tear fs p) ∧ flat (tear fs p) = flat fs.
Proof.
  intros Hl Hi Ht Hp. unfold tear. destruct (tip_file _ _ _ _ _ _ Hl Ht Hp) as [(gs & seg & -> & Hk & ->)|(Hk & Hpn & -> & Hne)].
  - assert (dget p (gs ++ [(p, seg)]) = Some seg) as -> by (apply dget_Some; [by eapply laid_dict|apply elem_of_app; right; by left]).
    assert (dset p (mk_segment (frames seg) true) (gs ++ [(p, seg)]) = gs ++ [(p, mk_segment (frames seg) true)]) as ->.
    { clear -Hk. induction gs as [|[q s] gs IH]; simpl; [by rewrite decide_True|]. apply not_elem_of_cons in Hk as [Hk Hk'].
      rewrite decide_False by done. by rewrite IH. }
    split; [|by rewrite !flat_snoc]. apply laid_app in Hl as (H1 & (-> & _) & H3). apply laid_app.
    split; [done|]. split; [by cbn|]. intros _. by apply H3.
  - apply dget_None in Hk as Hk'. rewrite Hk', dset_new by done. split; [by apply laid_new|]. by rewrite flat_snoc, app_nil_r.
Qed.

(** A batch is placed behind the last frame. *)
Lemma place_ok limit n fs path position h vs k :
  laid n fs → intact fs → tip fs path position → chained (n + Z.of_nat (length (flat fs))) h vs →
  let rs := place size_of limit path position vs in
  let fs' := foldl append_frame fs (take k rs) in
  rs.*2 = vs ∧ laid n fs' ∧ intact fs' ∧ flat fs' = flat fs ++ take k vs ∧ rows fs' = rows fs ++ take k rs
  ∧ ∀ row, rs !! k = Some row → laid n (tear fs' row.1.1) ∧ flat (tear fs' row.1.1) = flat fs'.
Proof.
  cbn zeta. revert fs path position h k. induction vs as [|v vs IH]; intros fs path position h k Hl Hi Ht Hc.
  { cbn [place]. rewrite !take_nil, !app_nil_r. cbn [foldl]. by split_and!. }
  destruct Hc as (Ho & _ & _ & Hc). cbn [place].
  assert (∃ p pos, match path with Some p => if limit <? position + frame_size v then (v_offset v, 0) else (p, position)
      | None => (v_offset v, 0) end = (p, pos) ∧ ((path = Some p ∧ pos = position) ∨ (p = n + Z.of_nat (length (flat fs)) ∧ pos = 0)))
    as (p & pos & -> & Hp).
  { rewrite Ho. destruct path as [q|]; [destruct (limit <? _)|]; eauto 10. }
  pose proof (append_frame_ok _ _ _ _ _ _ v Hl Hi Ht Hp) as (Hl' & Hi' & Hf' & Hr' & Ht').
  assert (chained (n + Z.of_nat (length (flat (append_frame fs ((p, pos), v))))) (hash v) vs) as Hc'.
  { rewrite Hf', length_app. simpl. by replace (n + Z.of_nat (length (flat fs) + 1)) with (n + Z.of_nat (length (flat fs)) + 1) by lia. }
  destruct k as [|k].
  - destruct (IH _ _ _ _ O Hl' Hi' Ht' Hc') as (E & _). cbn [take foldl]. rewrite !app_nil_r, fmap_cons, E.
    split_and!; try done. intros row [= <-]. cbn [fst]. by eapply tear_ok.
  - destruct (IH _ _ _ _ k Hl' Hi' Ht' Hc') as (E & H1 & H2 & H3 & H4 & H5). cbn [take foldl]. rewrite fmap_cons, E.
    split_and!; try done.
    + rewrite H3, Hf', <- app_assoc. done.
    + rewrite H4, Hr', <- app_assoc. done.
Qed.

(** ** The file and position of a frame *)

Lemma frame_size_pos v : frame_ok v = true → 0 < frame_size v.
Proof.
  unfold BrokerLog.frame_ok, BrokerLog.frame_size, HEADER_SIZE. intros [H _]%andb_true_iff. apply integer_spec in H. lia.
Qed.

Lemma frame_sizes_pos vs : Forall (λ v, frame_ok v = true) vs → 0 <= zsum frame_size vs.
Proof. intros H. apply zsum_nonneg. intros v Hv. eapply Forall_forall in H; [|done]. pose proof (frame_size_pos v H). lia. Qed.

Lemma rows_at_lookup path pos fs i r :
  rows_at path pos fs !! i = Some r →
  r.1.1 = path ∧ r.1.2 = pos + zsum frame_size (take i fs) ∧ fs !! i = Some r.2.
Proof.
  revert pos i. induction fs as [|v fs IH]; intros pos [|i]; simpl; try done.
  - intros [= <-]. cbn. split_and!; try done. lia.
  - intros Hr. destruct (IH _ _ Hr) as (? & -> & ?). split_and!; try done. lia.
Qed.

Lemma cut_at fs i v :
  Forall (λ v, frame_ok v = true) fs → fs !! i = Some v → cut size_of (zsum frame_size (take i fs)) fs = take i fs.
Proof.
  revert i. induction fs as [|w fs IH]; intros [|i]; simpl; try done; intros [Hw Hf]%Forall_cons Hi.
  - pose proof (frame_size_pos _ Hw). by destruct (0 <? frame_size w) eqn:E; [|lia].
  - assert (0 <= zsum frame_size (take i fs)) by (by apply frame_sizes_pos, Forall_take).
    destruct (_ <? frame_size w) eqn:E; [lia|]. f_equal. rewrite <- (IH i Hf Hi) at 2. f_equal. lia.
Qed.

Lemma frame_at_lookup fs i v :
  Forall (λ v, frame_ok v = true) fs → fs !! i = Some v → frame_at size_of (zsum frame_size (take i fs)) fs = Some v.
Proof.
  revert i. induction fs as [|w fs IH]; intros [|i]; simpl; try done; intros [Hw Hf]%Forall_cons Hi.
  pose proof (frame_size_pos _ Hw). assert (0 <= zsum frame_size (take i fs)) by (by apply frame_sizes_pos, Forall_take).
  destruct (_ =? 0) eqn:E; [lia|]. rewrite <- (IH i Hf Hi). f_equal. lia.
Qed.

Lemma rows_split segs i r :
  rows segs !! i = Some r →
  ∃ A seg B j, segs = A ++ (r.1.1, seg) :: B ∧ i = (length (flat A) + j)%nat ∧ frames seg !! j = Some r.2 ∧
    r.1.2 = zsum frame_size (take j (frames seg)).
Proof.
  revert i. induction segs as [|[p s] segs IH]; intros i; [done|]. rewrite rows_cons. intros Hr.
  apply lookup_app_Some in Hr as [Hr|[Hi Hr]].
  - apply rows_at_lookup in Hr as (<- & Hp & Hv). exists [], s, segs, i. split_and!; done.
  - destruct (IH _ Hr) as (A & seg & B & j & -> & Hj & Hv & Hp).
    assert (length (rows_at p 0 (frames s)) = length (frames s)) as Hl by (by rewrite <- (rows_at_values p 0 (frames s)) at 2; rewrite length_fmap).
    rewrite Hl in *. exists ((p, s) :: A), seg, B, j. split_and!; try done. rewrite flat_cons, length_app. lia.
Qed.

(** Names increase strictly. *)
Lemma laid_names_mid n A p seg B :
  laid n (A ++ (p, seg) :: B) →
  p = n + Z.of_nat (length (flat A)) ∧ (∀ x, x ∈ A → x.1 < p) ∧
  (frames seg ≠ [] → ∀ x, x ∈ B → p + Z.of_nat (length (frames seg)) <= x.1).
Proof.
  intros Hl. pose proof Hl as Hl'. apply laid_app in Hl' as (H1 & (-> & He & Ht & H2) & H3). split_and!; [done| |].
  - intros x Hx. pose proof (laid_names_le _ _ _ H1 Hx) as Hle. pose proof (laid_dict _ _ Hl) as Hd.
    assert (x.1 ≠ n + Z.of_nat (length (flat A))); [|lia]. intros E.
    unfold dict_ok, dkeys in Hd. rewrite fmap_app in Hd. apply NoDup_app in Hd as (_ & Hd & _).
    apply (Hd x.1); [by apply list_elem_of_fmap_2|]. rewrite E. by left.
  - intros _ x Hx. apply (laid_names_le _ _ _ H2 Hx).
Qed.

Lemma names_after n A p seg B :
  laid n (A ++ (p, seg) :: B) → frames seg ≠ [] →
  filter (λ q, p < q) (map fst (A ++ (p, seg) :: B)) = map fst B.
Proof.
  intros Hl Hne. destruct (laid_names_mid _ _ _ _ _ Hl) as (_ & HA & HB). specialize (HB Hne).
  rewrite map_app, filter_app, filter_none, app_nil_l.
  - cbn [map fst]. rewrite filter_cons_False by lia. apply filter_all. intros q (x & -> & Hx)%list_elem_of_fmap.
    specialize (HB x Hx). destruct (frames seg); [done|]. simpl in HB. lia.
  - intros q (x & -> & Hx)%list_elem_of_fmap. specialize (HA x Hx). lia.
Qed.

(** A disk of which frames after the committed one, or files before the base, are gone. *)
Lemma disk_prefix b0 h0 m fs fs' k :
  disk_ok b0 h0 m fs → laid b0 fs' → flat fs' = take k (flat fs) → committed m + 1 - b0 <= Z.of_nat k → disk_ok b0 h0 m fs'.
Proof.
  intros [H1 H2 H3 H4 H5 H6 H7] Hl Hf Hk. split; try done; rewrite Hf.
  - by apply chained_take.
  - by apply Forall_take.
  - rewrite length_take. lia.
  - rewrite take_take. rewrite H7. do 2 f_equal. lia.
Qed.

Lemma disk_suffix b0 h0 m A B :
  disk_ok b0 h0 m (A ++ B) → Z.of_nat (length (flat A)) <= m_base m - b0 →
  disk_ok (b0 + Z.of_nat (length (flat A))) (last_hash h0 (flat A)) m B.
Proof.
  intros [H1 H2 H3 H4 H5 H6 H7] Hk. rewrite flat_app in *. apply laid_app in H1 as (_ & H1 & _).
  apply chained_app in H2 as [_ H2]. apply Forall_app in H3 as [_ H3]. split; try done; try lia.
  - rewrite length_app in H6. lia.
  - rewrite H7, take_app_ge, last_hash_app by lia. do 2 f_equal. lia.
Qed.

Lemma disk_manifest b0 h0 m m' fs :
  disk_ok b0 h0 m fs → b0 <= m_base m' <= committed m' + 1 → committed m' + 1 <= b0 + Z.of_nat (length (flat fs)) →
  base_hash m' = last_hash h0 (take (Z.to_nat (m_base m' - b0)) (flat fs)) → disk_ok b0 h0 m' fs.
Proof. intros []. by split. Qed.
End inv.
