(* ===== verification/Chain.v ===== *)
(** * The specification of a partition log: a committed chain

    What log.py promises, without files and index: a list of envelopes from a base
    on, each linked to the hash before it, of which the ones up to [c_committed] are
    never changed by a request.  BrokerLog.v refines it. *)
From S2P Require Import Prelude PyList PyDict Checks Messages BrokerLog.
Local Open Scope Z_scope.

Record Chain := mk_chain { c_base : Z; c_hash : string; c_epoch : Z; c_committed : Z; c_values : list Value }.

Definition c_next (c : Chain) : Z := c_base c + Z.of_nat (length (c_values c)).
Definition c_hash_at (o : Z) (c : Chain) : option string :=
  if o =? c_base c - 1 then Some (c_hash c)
  else if c_base c <=? o then hash <$> c_values c !! Z.to_nat (o - c_base c) else None.

Section chain.
Context (digest : string → Rec → string) (size_of : Value → Z).
Local Notation chained := (Messages.chained digest).
Local Notation collision := (Messages.collision digest).

Definition guard (b : bool) (e : exn) : result unit := raise_if (negb b) e (Ok tt).
Definition agrees (h : option string) (h' : string) : bool := bool_decide (h = Some h').

(** The prefix of a page within the budget of bytes. *)
Fixpoint budget (total : Z) (vs : list Value) : list Value :=
  match vs with
  | [] => []
  | v :: vs' => let n := frame_size size_of v in
                if MAX_BATCH_BYTES <? total + n then [] else v :: budget (total + n) vs'
  end.

Definition chain_read (offset limit : Z) (c : Chain) : result (list Value) :=
  let* _ := guard (integer offset 0 MAX_INT && integer limit 1 MAX_BATCH_RECORDS) ValueError in
  let* _ := guard (c_base c <=? offset) (StatusError 410) in
  Ok (budget 0 (take (Z.to_nat (Z.min (c_next c) (offset + limit) - offset)) (drop (Z.to_nat (offset - c_base c)) (c_values c)))).

Definition chain_align (epoch cm : Z) (ch : string) (c : Chain) : result Chain :=
  let* _ := guard (integer epoch 0 MAX_INT && integer cm (-1) MAX_INT) ValueError in
  let* _ := guard (c_epoch c <=? epoch) (StatusError 409) in
  let* _ := guard (c_committed c <=? cm) (StatusError 409) in
  let* _ := guard (agrees (c_hash_at cm c) ch) (StatusError 409) in
  Ok (mk_chain (c_base c) (c_hash c) epoch cm (take (Z.to_nat (cm + 1 - c_base c)) (c_values c))).

Definition chain_retain (base : Z) (bh : string) (c : Chain) : result Chain :=
  let* _ := guard (integer base 0 MAX_INT && hash_ok bh) ValueError in
  let* _ := guard (integer base (c_base c) (c_next c)) (StatusError 409) in
  let* _ := guard (agrees (c_hash_at (base - 1) c) bh) (StatusError 409) in
  Ok (mk_chain base bh (c_epoch c) (Z.max (c_committed c) (base - 1)) (drop (Z.to_nat (base - c_base c)) (c_values c))).

Definition chain_append (values : list Value) (c : Chain) : Chain :=
  mk_chain (c_base c) (c_hash c) (c_epoch c) (c_committed c) (c_values c ++ values).

Definition chain_sync (epoch cm : Z) (ch : string) (base : Z) (bh : string) (values : list Value) (c : Chain) : result Chain :=
  let* _ := guard (integer cm (-1) MAX_INT && integer base 0 MAX_INT && hash_ok ch && hash_ok bh) ValueError in
  let* values := prepare digest size_of values (cm + 1) (Some ch) in
  let* _ := guard (integer base (c_base c) (cm + 1)) (StatusError 409) in
  let* _ := guard (agrees (c_hash_at (base - 1) c) bh) (StatusError 409) in
  let* c := chain_align epoch cm ch c in
  Ok (chain_append values (mk_chain base bh (c_epoch c) (c_committed c) (drop (Z.to_nat (base - c_base c)) (c_values c)))).

Definition chain_install (values : list Value) (base : Z) (bh : string) (epoch : Z) (cm : option Z) (ch : option string)
    (c : Chain) : result Chain :=
  let* _ := guard (integer base 0 MAX_INT && integer epoch 0 MAX_INT && hash_ok bh) ValueError in
  let* _ := guard (c_epoch c <=? epoch) (StatusError 409) in
  let* values := prepare digest size_of values base (Some bh) in
  let checkpoint := default (base - 1) cm in
  let* _ := guard (integer checkpoint (base - 1) MAX_INT) ValueError in
  let c' := mk_chain base bh epoch checkpoint values in
  let* _ := match c_hash_at checkpoint c' with
            | None => Raise (StatusError 409)
            | Some h => match ch with
                        | Some x => let* _ := guard (hash_ok x) ValueError in guard (bool_decide (x = h)) (StatusError 409)
                        | None => Ok tt
                        end
            end in
  let* _ := guard (c_committed c <=? checkpoint) (StatusError 409) in
  let* _ := match c_hash_at (c_committed c) c' with
            | Some h => guard (agrees (c_hash_at (c_committed c) c) h) (StatusError 409)
            | None => Ok tt
            end in
  Ok c'.

(** A request of a broker. *)
Definition chain_dispatch (r : Request) (c : Chain) : result (Chain * Reply) :=
  let tail c' := (c', Tail (c_next c') (c_hash_at (c_next c' - 1) c')) in
  match r with
  | Status cm => let* _ := guard (integer cm (-1) MAX_INT) ValueError in
                 Ok (c, State (c_base c) (c_next c) (c_epoch c) (c_hash_at cm c))
  | Read offset limit => let* vs := chain_read offset limit c in Ok (c, Records vs)
  | Sync epoch cm ch base bh vs => let* c' := chain_sync epoch cm ch base bh vs c in Ok (tail c')
  | Install vs base bh epoch cm ch => let* c' := chain_install vs base bh epoch cm ch c in Ok (tail c')
  | Retain base bh => let* c' := chain_retain base bh c in Ok (c', Base base)
  end.

Record chain_ok (c : Chain) : Prop := {
  ch_chained : chained (c_base c) (c_hash c) (c_values c);
  ch_frames : Forall (λ v, frame_ok digest size_of v = true) (c_values c);
  ch_base : 0 <= c_base c;
  ch_committed : c_base c - 1 <= c_committed c < c_next c;
}.

(** Nothing committed is lost or changed, and epochs do not go back. *)
Record later (c c' : Chain) : Prop := {
  lt_epoch : c_epoch c <= c_epoch c';
  lt_committed : c_committed c <= c_committed c';
  lt_values : ∀ v, v ∈ c_values c → c_base c' <= v_offset v <= c_committed c → v ∈ c_values c' ∨ collision;
}.

Lemma guard_bind {A} b e (f : unit → result A) x : rbind (guard b e) f = Ok x → b = true ∧ f tt = Ok x.
Proof. unfold guard. by destruct b. Qed.

Lemma later_refl c : later c c.
Proof. split; [lia|lia|by left]. Qed.

Lemma prepare_ok values base h vs :
  prepare digest size_of values base (Some h) = Ok vs → vs = values ∧ Forall (λ v, frame_ok digest size_of v = true) values ∧ chained base h values.
Proof.
  unfold prepare. intros [_ H]%raise_if_Ok. revert H. generalize 0. revert base h vs.
  induction values as [|v values IH]; intros base h vs total; cbn [prepare_from]; [intros [= <-]; by split_and!|].
  intros (E1 & (E2 & (E3 & H)%raise_if_Ok)%raise_if_Ok)%raise_if_Ok.
  destruct (prepare_from _ _ _ _ _ _) as [vs'|] eqn:E4; [|done]. injection H as <-.
  destruct (IH _ _ _ _ E4) as (-> & Hf & Hc).
  apply orb_false_iff in E1 as [E1 _], E3 as [E3 E5]. apply negb_false_iff in E1, E2, E3, E5.
  apply bool_decide_eq_true in E5. injection E5 as E5.
  split; [done|]. split.
  - constructor; [|done]. unfold frame_ok. by rewrite E1, E2.
  - split; [lia|]. split; [done|]. split; [|done]. unfold value_ok in E2.
    apply andb_true_iff in E2 as [_ E2]. apply bool_decide_eq_true in E2. rewrite <- E2. unfold envelope. simpl. by subst.
Qed.

Lemma c_hash_at_last c o : chain_ok c → c_base c - 1 <= o < c_next c →
  c_hash_at o c = Some (last_hash (c_hash c) (take (Z.to_nat (o + 1 - c_base c)) (c_values c))).
Proof.
  intros _ Ho. unfold c_hash_at, c_next in *. destruct (o =? c_base c - 1) eqn:E.
  - by replace (Z.to_nat (o + 1 - c_base c)) with O by lia.
  - replace (c_base c <=? o) with true by lia.
    replace (Z.to_nat (o + 1 - c_base c)) with (S (Z.to_nat (o - c_base c))) by lia.
    destruct (lookup_lt_is_Some_2 (c_values c) (Z.to_nat (o - c_base c))) as [v Hv]; [lia|].
    rewrite Hv, (take_S_r _ _ _ Hv), last_hash_app. done.
Qed.

Lemma c_hash_at_range c o h : c_hash_at o c = Some h → c_base c - 1 <= o < c_next c.
Proof.
  unfold c_hash_at, c_next. destruct (o =? c_base c - 1) eqn:E; [lia|]. destruct (c_base c <=? o) eqn:E'; [|done].
  intros (v & Hv & _)%fmap_Some. apply lookup_lt_Some in Hv. lia.
Qed.

Lemma agrees_Some h h' : agrees h h' = true → h = Some h'.
Proof. apply bool_decide_eq_true. Qed.

Lemma values_offset c v : chain_ok c → v ∈ c_values c → c_base c <= v_offset v < c_next c.
Proof.
  intros Hc [i Hi]%list_elem_of_lookup. rewrite (chained_lookup _ _ _ _ _ _ (ch_chained _ Hc) Hi).
  apply lookup_lt_Some in Hi. unfold c_next. lia.
Qed.

Lemma value_at c v : chain_ok c → v ∈ c_values c → c_values c !! Z.to_nat (v_offset v - c_base c) = Some v.
Proof.
  intros Hc [i Hi]%list_elem_of_lookup. rewrite (chained_lookup _ _ _ _ _ _ (ch_chained _ Hc) Hi).
  by replace (Z.to_nat (c_base c + Z.of_nat i - c_base c)) with i by lia.
Qed.

Lemma chain_align_ok epoch cm ch c c' :
  chain_ok c → chain_align epoch cm ch c = Ok c' →
  c' = mk_chain (c_base c) (c_hash c) epoch cm (take (Z.to_nat (cm + 1 - c_base c)) (c_values c)) ∧
  chain_ok c' ∧ later c c' ∧ c_next c' = cm + 1 ∧ last_hash (c_hash c) (c_values c') = ch ∧ c_committed c <= cm < c_next c.
Proof.
  intros Hc. unfold chain_align.
  intros (_ & (E0 & (E1 & (E2 & [= <-])%guard_bind)%guard_bind)%guard_bind)%guard_bind. apply agrees_Some in E2.
  pose proof (c_hash_at_range _ _ _ E2) as Hr. rewrite (c_hash_at_last c cm Hc Hr) in E2. injection E2 as E2.
  destruct Hc as [H1 H2 H3 H4]. split; [done|]. assert (Z.of_nat (length (take (Z.to_nat (cm + 1 - c_base c)) (c_values c))) = cm + 1 - c_base c) as Hlen.
  { rewrite length_take. unfold c_next in *. lia. }
  split_and!; cbn; try done; try lia.
  - split; cbn; [by apply chained_take|by apply Forall_take|done|]. unfold c_next in *. cbn. rewrite Hlen. lia.
  - split; cbn; [lia|lia|]. intros v Hv Ho. left. apply list_elem_of_lookup. exists (Z.to_nat (v_offset v - c_base c)).
    rewrite lookup_take_lt by lia. by apply value_at.
  - unfold c_next. cbn. rewrite Hlen. lia.
Qed.
Lemma chain_retain_ok base bh c c' :
  chain_ok c → chain_retain base bh c = Ok c' → chain_ok c' ∧ later c c' ∧ c_base c' = base ∧ c_next c' = c_next c.
Proof.
  intros Hc. unfold chain_retain. intros (E & (E0 & (E1 & [= <-])%guard_bind)%guard_bind)%guard_bind.
  apply agrees_Some in E1. apply integer_spec in E0. apply andb_true_iff in E as [E _]. apply integer_spec in E.
  pose proof (c_hash_at_range _ _ _ E1) as Hr. rewrite (c_hash_at_last c _ Hc Hr) in E1. injection E1 as E1.
  replace (base - 1 + 1 - c_base c) with (base - c_base c) in E1 by lia.
  pose proof (length_drop (c_values c) (Z.to_nat (base - c_base c))) as Hlen. unfold c_next in *.
  pose proof Hc as [H1 H2 H3 H4]. unfold c_next in H4. split_and!; cbn; try lia.
  - split; cbn; [|by apply Forall_drop|lia|unfold c_next; cbn; lia].
    rewrite <- E1. replace base with (c_base c + Z.of_nat (Z.to_nat (base - c_base c))) at 1 by lia. apply chained_drop; [lia|done].
  - split; cbn; [lia|lia|]. intros v Hv Ho. left. apply list_elem_of_lookup.
    exists (Z.to_nat (v_offset v - c_base c) - Z.to_nat (base - c_base c))%nat. rewrite lookup_drop.
    replace (Z.to_nat (base - c_base c) + _)%nat with (Z.to_nat (v_offset v - c_base c)) by lia. by apply value_at.
Qed.

Lemma later_trans_base c1 c2 c3 : c_base c1 <= c_base c2 <= c_base c3 → later c1 c2 → later c2 c3 → later c1 c3.
Proof.
  intros Hb [A1 A2 A3] [B1 B2 B3]. split; [lia|lia|]. intros v Hv Ho.
  destruct (A3 v Hv ltac:(lia)) as [H|]; [|by right]. apply B3; [done|lia].
Qed.

Lemma chain_append_ok values c :
  chain_ok c → chained (c_next c) (last_hash (c_hash c) (c_values c)) values →
  Forall (λ v, frame_ok digest size_of v = true) values → chain_ok (chain_append values c) ∧ later c (chain_append values c).
Proof.
  intros [H1 H2 H3 H4] Hv Hf. unfold c_next in *. split; [split|split]; cbn; try done; try lia.
  - by apply chained_app.
  - by apply Forall_app.
  - unfold c_next. cbn. rewrite length_app. lia.
  - intros v Hv' _. left. apply elem_of_app. by left.
Qed.

(** After alignment the retention of a synchronisation cannot be refused. *)
Lemma sync_retain epoch cm ch base bh c c1 :
  chain_ok c → integer base 0 MAX_INT = true → hash_ok bh = true → c_base c <= base <= cm + 1 →
  c_hash_at (base - 1) c = Some bh → chain_align epoch cm ch c = Ok c1 →
  chain_retain base bh c1 = Ok (mk_chain base bh epoch cm (drop (Z.to_nat (base - c_base c)) (c_values c1))) ∧
  last_hash bh (drop (Z.to_nat (base - c_base c)) (c_values c1)) = ch.
Proof.
  intros Hc Hi Hh Hb Hbh Ha. destruct (chain_align_ok _ _ _ _ _ Hc Ha) as (E & Hc1 & _ & Hn & Hl & Hcm).
  assert (c_base c1 = c_base c ∧ c_hash c1 = c_hash c ∧ c_epoch c1 = epoch ∧ c_committed c1 = cm) as (Eb & Eh & Ee & Ec) by (by subst).
  assert (c_hash_at (base - 1) c1 = Some bh) as Hbh1.
  { rewrite <- Hbh, !c_hash_at_last by (done || (unfold c_next in *; lia)). rewrite Eb, Eh, E. cbn. rewrite take_take.
    do 3 f_equal. lia. }
  split.
  - unfold chain_retain, guard. rewrite Hi, Hh, Hbh1, Eb, Hn. unfold agrees. rewrite bool_decide_eq_true_2 by done.
    replace (integer base (c_base c) (cm + 1)) with true by (symmetry; apply integer_spec; lia). cbn.
    rewrite Ee, Ec, Z.max_l by lia. done.
  - rewrite <- Hl, <- Eh. rewrite c_hash_at_last in Hbh1 by (done || lia). injection Hbh1 as <-.
    replace (base - 1 + 1 - c_base c1) with (base - c_base c) by lia.
    by rewrite <- last_hash_app, take_drop.
Qed.

Lemma chain_sync_ok epoch cm ch base bh values c c' :
  chain_ok c → chain_sync epoch cm ch base bh values c = Ok c' → chain_ok c' ∧ later c c'.
Proof.
  intros Hc. unfold chain_sync. intros (E & H)%guard_bind.
  destruct (prepare _ _ _ _ _) as [vs|] eqn:Ep; [|done]. cbn [rbind] in H. destruct (prepare_ok _ _ _ _ Ep) as (-> & Hf & Hv).
  apply guard_bind in H as [E1 H]. apply guard_bind in H as [E2 H]. apply agrees_Some in E2. apply integer_spec in E1.
  apply andb_true_iff in E as [[[_ Ei]%andb_true_iff _]%andb_true_iff Eh].
  destruct (chain_align epoch cm ch c) as [c1|] eqn:Ea; [|done]. cbn [rbind] in H. injection H as <-.
  destruct (chain_align_ok _ _ _ _ _ Hc Ea) as (Ec & Hc1 & Hl1 & Hn & Hl & Hcm).
  destruct (sync_retain _ _ _ _ _ _ _ Hc Ei Eh E1 E2 Ea) as [Hr Hlast].
  destruct (chain_retain_ok _ _ _ _ Hc1 Hr) as (Hc2 & Hl2 & Eb & Hn2).
  assert (mk_chain base bh (c_epoch c1) (c_committed c1) (drop (Z.to_nat (base - c_base c1)) (c_values c1)) =
    mk_chain base bh epoch cm (drop (Z.to_nat (base - c_base c)) (c_values c1))) as -> by (by subst).
  destruct (chain_append_ok values _ Hc2) as [Hc3 Hl3]; [|done|].
  - rewrite Hn2, Hn. cbn [c_hash c_values]. by rewrite Hlast.
  - split; [done|]. eapply later_trans_base; [|eapply later_trans_base; [|exact Hl1|exact Hl2]|exact Hl3]; subst; cbn; lia.
Qed.

Lemma chain_install_ok values base bh epoch cm ch c c' :
  chain_ok c → chain_install values base bh epoch cm ch c = Ok c' → chain_ok c' ∧ later c c'.
Proof.
  intros Hc. unfold chain_install. intros (E & (E0 & H)%guard_bind)%guard_bind.
  destruct (prepare _ _ _ _ _) as [vs|] eqn:Ep; [|done]. cbn [rbind] in H. destruct (prepare_ok _ _ _ _ Ep) as (-> & Hf & Hv).
  apply guard_bind in H as [E1 H]. apply integer_spec in E1.
  set (c1 := mk_chain base bh epoch (default (base - 1) cm) values) in *.
  apply andb_true_iff in E as [[Eb%integer_spec _]%andb_true_iff _].
  destruct (c_hash_at (default (base - 1) cm) c1) as [h|] eqn:Eh; [|done].
  pose proof (c_hash_at_range _ _ _ Eh) as Hr. cbn in Hr.
  match type of H with rbind ?m _ = _ => destruct m as [[]|]; [|done] end. cbn [rbind] in H.
  apply guard_bind in H as [E2 H].
  assert (chain_ok c1) as Hc1 by (split; cbn; try done; lia).
  destruct (c_hash_at (c_committed c) c1) as [g|] eqn:Eg.
  - cbv beta in H. apply guard_bind in H as [E3 [= <-]]. apply agrees_Some in E3. split; [done|].
    split; cbn; [lia|lia|]. intros v Hv' Ho.
    pose proof (c_hash_at_range _ _ _ E3) as Hr3. pose proof (c_hash_at_range _ _ _ Eg) as Hrg. cbn in Hrg.
    set (b := Z.max base (c_base c)). set (n := Z.to_nat (c_committed c + 1 - b)).
    assert (∀ d, chain_ok d → c_base d <= b → c_committed c < c_next d → b <= c_committed c + 1 → c_hash_at (c_committed c) d = Some g →
      ∃ h, chained b h (take n (drop (Z.to_nat (b - c_base d)) (c_values d))) ∧
        last_hash h (take n (drop (Z.to_nat (b - c_base d)) (c_values d))) = g) as Hcut.
    { intros d Hd Hbd Hnd Hbc Hg. unfold c_next in Hnd. exists (last_hash (c_hash d) (take (Z.to_nat (b - c_base d)) (c_values d))). split.
      - apply chained_take. replace b with (c_base d + Z.of_nat (Z.to_nat (b - c_base d))) at 1 by lia.
        apply chained_drop; [lia|]. apply Hd.
      - rewrite c_hash_at_last in Hg by (done || (unfold c_next; lia)). injection Hg as <-. rewrite <- last_hash_app.
        rewrite take_take_drop. do 2 f_equal. lia. }
    pose proof (values_offset _ _ Hc Hv') as Hov. assert (b <= c_committed c + 1) as Hbc by lia.
    destruct (Hcut c Hc ltac:(lia) ltac:(lia) Hbc E3) as (h1 & C1 & L1).
    destruct (Hcut c1 Hc1 ltac:(cbn; lia) ltac:(lia) Hbc Eg) as (h2 & C2 & L2).
    assert (length (take n (drop (Z.to_nat (b - c_base c)) (c_values c))) = length (take n (drop (Z.to_nat (b - c_base c1)) (c_values c1)))) as Hlen.
    { rewrite !length_take, !length_drop. clear -Hr3 Hrg Hbc. unfold c_next, n, b in *. cbn in *. lia. }
    rewrite <- L2 in L1. destruct (chained_agree digest b h1 _ _ Hlen h2 C1 C2 L1) as [[_ E4]|Hcol]; [|right; exact Hcol].
    left. assert (v ∈ take n (drop (Z.to_nat (b - c_base c)) (c_values c))) as Hin.
    { apply list_elem_of_lookup. exists (Z.to_nat (v_offset v - b)). rewrite lookup_take_lt by lia. rewrite lookup_drop.
      replace (Z.to_nat (b - c_base c) + _)%nat with (Z.to_nat (v_offset v - c_base c)) by lia. by apply value_at. }
    rewrite E4 in Hin. apply elem_of_take in Hin as (i & Hi & _). rewrite lookup_drop in Hi. by eapply list_elem_of_lookup_2.
  - cbn in H. injection H as <-. split; [done|]. split; cbn; [lia|lia|]. intros v Hv' Ho. exfalso.
    unfold c_hash_at in Eg. cbn in Eg. destruct (_ =? _) eqn:E5; [done|]. replace (base <=? c_committed c) with true in Eg by lia.
    apply fmap_None in Eg. apply lookup_ge_None in Eg. unfold c_next in *. cbn in *. lia.
Qed.

Theorem chain_dispatch_ok r c c' rep :
  chain_ok c → chain_dispatch r c = Ok (c', rep) → chain_ok c' ∧ later c c'.
Proof.
  intros Hc. destruct r; cbn [chain_dispatch].
  - intros [_ [= <- <-]]%guard_bind. split; [done|apply later_refl].
  - destruct (chain_read _ _ _); [|done]. intros [= <- <-]. split; [done|apply later_refl].
  - destruct (chain_sync _ _ _ _ _ _ _) eqn:E; [|done]. intros [= <- <-]. by eapply chain_sync_ok.
  - destruct (chain_install _ _ _ _ _ _ _) eqn:E; [|done]. intros [= <- <-]. by eapply chain_install_ok.
  - destruct (chain_retain _ _ _) eqn:E; [|done]. intros [= <- <-]. by destruct (chain_retain_ok _ _ _ _ Hc E) as (? & ? & _).
Qed.
End chain.
