(* ===== verification/BrokerLogSteps.v ===== *)
(** * Every operation of a partition log implements the chain

    [outcome m spec s]: from a usable object the computation [m] ends as [spec] says
    for the chain it stands for, or a step on the disk failed, the object is
    unusable, and the disk still holds everything committed. *)
From S2P Require Import Prelude PyList PyDict Checks Effects Messages BrokerLog BrokerLogInv Chain.
Local Open Scope Z_scope.

Section steps.
Context (digest : string → Rec → string) (size_of : Value → Z).
Local Notation chained := (Messages.chained digest).
Local Notation disk_ok := (BrokerLogInv.disk_ok digest size_of).
Local Notation live := (BrokerLogInv.live digest size_of).
Local Notation rows := (BrokerLogInv.rows size_of).
Local Notation index := (BrokerLogInv.index size_of).
Local Notation chain_ok := (Chain.chain_ok digest size_of).
Local Notation later := (Chain.later digest).
Local Notation M := (Effects.M PartitionLog).

#[local] Arguments flat : simpl never.
#[local] Arguments BrokerLogInv.rows : simpl never.
#[local] Arguments BrokerLogInv.index : simpl never.
#[local] Arguments untorn : simpl never.

(** The chain on a disk. *)
Definition absd (m : Manifest) (fs : dict Z Segment) : Chain :=
  mk_chain (m_base m) (base_hash m) (m_epoch m) (committed m) (filter (λ v, m_base m <= v_offset v) (flat fs)).
Definition abs (s : PartitionLog) : Chain := absd (manifest s) (files s).

Lemma filter_offsets b h base vs :
  chained b h vs → b <= base → filter (λ v, base <= v_offset v) vs = drop (Z.to_nat (base - b)) vs.
Proof.
  revert b h. induction vs as [|v vs IH]; intros b h Hc Hb; [by rewrite drop_nil|].
  destruct (decide (b = base)) as [->|Hne].
  - rewrite Z.sub_diag. apply filter_all. intros x [i Hx]%list_elem_of_lookup.
    rewrite (chained_lookup _ _ _ _ _ _ Hc Hx). lia.
  - destruct Hc as (Ho & _ & _ & Hc). rewrite filter_cons_False by lia. rewrite (IH _ _ Hc) by lia.
    replace (Z.to_nat (base - b)) with (S (Z.to_nat (base - (b + 1)))) by lia. done.
Qed.

Lemma absd_values b0 h0 m fs :
  disk_ok b0 h0 m fs → c_values (absd m fs) = drop (Z.to_nat (m_base m - b0)) (flat fs).
Proof. intros []. cbn. eapply filter_offsets; [done|lia]. Qed.

Lemma absd_next b0 h0 m fs : disk_ok b0 h0 m fs → c_next (absd m fs) = b0 + Z.of_nat (length (flat fs)).
Proof. intros Hd. unfold c_next. rewrite (absd_values _ _ _ _ Hd), length_drop. destruct Hd. cbn. lia. Qed.

Lemma absd_ok b0 h0 m fs : disk_ok b0 h0 m fs → chain_ok (absd m fs).
Proof.
  intros Hd. pose proof (absd_values _ _ _ _ Hd) as Hv. pose proof (absd_next _ _ _ _ Hd) as Hn. destruct Hd. split.
  - rewrite Hv. cbn [absd c_base c_hash]. rewrite d_hash. 
    replace (m_base m) with (b0 + Z.of_nat (Z.to_nat (m_base m - b0))) at 1 by lia. apply chained_drop; [lia|done].
  - rewrite Hv. by apply Forall_drop.
  - cbn. lia.
  - rewrite Hn. cbn. lia.
Qed.

Lemma absd_hash_at b0 h0 m fs o :
  disk_ok b0 h0 m fs → m_base m <= o →
  c_hash_at o (absd m fs) = hash <$> flat fs !! Z.to_nat (o - b0).
Proof.
  intros Hd Ho. unfold c_hash_at. rewrite (absd_values _ _ _ _ Hd). destruct Hd. cbn [absd c_base].
  replace (o =? m_base m - 1) with false by lia. replace (m_base m <=? o) with true by lia.
  rewrite lookup_drop. do 2 f_equal. lia.
Qed.

Lemma later_disk m fs m' fs' :
  m_epoch m <= m_epoch m' → committed m <= committed m' →
  (∀ v, v ∈ flat fs → m_base m' <= v_offset v <= committed m → v ∈ flat fs') → later (absd m fs) (absd m' fs').
Proof.
  intros He Hc Hv. split; cbn; [done|done|]. intros v [_ Hin]%list_elem_of_filter Ho. left.
  apply list_elem_of_filter. split; [lia|]. by apply Hv.
Qed.

Lemma live_hash_at b0 h0 s o :
  live b0 h0 s → hash_at o s = raise_if (negb (integer o (-1) MAX_INT)) ValueError (Ok (c_hash_at o (abs s))).
Proof.
  intros [Hd Hf _ He _]. unfold hash_at. rewrite Hf. cbn [raise_if]. destruct (integer o (-1) MAX_INT) eqn:Ei; [|done].
  cbn [raise_if negb]. pose proof Hd as Hd'. destruct Hd'. unfold abs.
  destruct (o =? m_base (manifest s) - 1) eqn:E; [unfold c_hash_at; cbn; by rewrite E|]. f_equal. rewrite He.
  rewrite (index_get digest size_of b0 h0) by first [done | lia | by rewrite rows_values].
  destruct (m_base (manifest s) <=? o) eqn:E'.
  - rewrite (absd_hash_at b0 h0) by (done || lia). rewrite <- (rows_values size_of), list_lookup_fmap.
    destruct (rows (files s) !! _) as [r|]; done.
  - unfold c_hash_at. cbn. rewrite E, E'. done.
Qed.

Definition good (s : PartitionLog) : Prop := ∃ b0 h0, live b0 h0 s.
Definition sound (s : PartitionLog) : Prop := ∃ b0 h0, disk_ok b0 h0 (manifest s) (files s).

Lemma good_sound s : good s → sound s.
Proof. intros (b0 & h0 & []). by exists b0, h0. Qed.
Lemma sound_ok s : sound s → chain_ok (abs s).
Proof. intros (b0 & h0 & H). by eapply absd_ok. Qed.
Lemma good_ok s : good s → chain_ok (abs s).
Proof. intros. by apply sound_ok, good_sound. Qed.
Lemma good_failed s : good s → failed s = false.
Proof. by intros (b0 & h0 & []). Qed.
Lemma good_next s : good s → next_offset s = c_next (abs s).
Proof. intros (b0 & h0 & []). unfold abs. by rewrite (absd_next b0 h0). Qed.
Lemma good_hash_at s o :
  good s → hash_at o s = raise_if (negb (integer o (-1) MAX_INT)) ValueError (Ok (c_hash_at o (abs s))).
Proof. intros (b0 & h0 & H). by eapply live_hash_at. Qed.

(** What is left when a step on the disk failed; [up]: the base did not go back.
    The disk can be read again if the failure was a [calm] one: it did not divide
    the files that an alignment removes. *)
Context (calm : Prop).
Record hurt (up : bool) (c : Chain) (s' : PartitionLog) : Prop := {
  ht_failed : failed s' = true;
  ht_sound : calm → sound s';
  ht_later : later c (abs s');
  ht_base : up = true → c_base c <= c_base (abs s');
}.

Definition outcome {A} (up : bool) (m : M A) (spec : result (Chain * A)) (s : PartitionLog) : Prop :=
  match m s with
  | (s', Ok a) => faults s' `suffix_of` faults s ∧ good s' ∧ spec = Ok (abs s', a)
  | (s', Raise e) =>
      faults s' `suffix_of` faults s ∧
      ((good s' ∧ abs s' = abs s ∧ spec = Raise e) ∨ (faults s ≠ [] ∧ e = OSError ∧ hurt up (abs s) s'))
  end.

(** Guards that only read. *)
Lemma outcome_reading {A B} up (f : PartitionLog → result A) (k : A → M B) spec s :
  good s → (∀ a, f s = Ok a → outcome up (k a) (spec a) s) →
  outcome up (mbind (reading f) k) (rbind (f s) spec) s.
Proof.
  intros Hg Hk. unfold outcome, mbind, reading. destruct (f s) as [a|e] eqn:E; [by apply Hk|]. cbn.
  split; [done|]. left. by split_and!.
Qed.

Lemma outcome_lift {A B} up (r : result A) (k : A → M B) spec s :
  good s → (∀ a, r = Ok a → outcome up (k a) (spec a) s) → outcome up (mbind (mlift r) k) (rbind r spec) s.
Proof. apply (outcome_reading up (λ _, r)). Qed.

Lemma outcome_check {B} up b e (k : unit → M B) spec s :
  good s → (b = true → outcome up (k tt) (spec tt) s) → outcome up (mbind (check b e) k) (rbind (guard b e) spec) s.
Proof.
  intros Hg Hk. unfold check, guard. apply outcome_lift; [done|]. intros [] E. apply Hk. by destruct b.
Qed.

Lemma outcome_serialized {A} up (m : M A) spec s : good s → outcome up m spec s → outcome up (serialized m) spec s.
Proof.
  intros Hg Hm. unfold serialized, outcome, mbind, reading. rewrite (good_failed _ Hg). exact Hm.
Qed.

Lemma outcome_spec {A} up (m : M A) spec spec' s : spec = spec' → outcome up m spec s → outcome up m spec' s.
Proof. by intros ->. Qed.

Lemma suffix_tail {A} (l : list A) : tail l `suffix_of` l.
Proof. destruct l as [|x l]; [done|]. by exists [x]. Qed.

(** ** Steps on the disk *)

Lemma disk_cases (effect : Fault → PartitionLog → PartitionLog) s :
  let s0 := set_faults s (tail (faults s)) in
  disk effect s = (effect None s0, Ok tt) ∨
  (faults s ≠ [] ∧ ∃ f, disk effect s = (set_failed (effect (Some f) s0) true, Raise OSError)).
Proof.
  unfold disk. destruct (faults s) as [|[f|] fs]; simpl; [by left| |by left]. right. split; [done|]. by exists f.
Qed.

(** The disk is [m], [fs] and the memory that of [s]. *)
Definition with_disk (s : PartitionLog) m fs (s' : PartitionLog) : Prop :=
  s' = set_faults (set_disk s m fs) (faults s') ∧ faults s' `suffix_of` faults s.
(** A step failed and left the disk [m], [fs]. *)
Definition broken (s : PartitionLog) m fs (s' : PartitionLog) (e : exn) : Prop :=
  e = OSError ∧ failed s' = true ∧ manifest s' = m ∧ files s' = fs ∧ faults s' `suffix_of` faults s ∧ faults s ≠ [].

Lemma atomically_cases (g : PartitionLog → Manifest * dict Z Segment) s :
  (∀ x, g (set_faults s x) = g s) →
  let step := atomically (λ s, set_disk s (g s).1 (g s).2) in
  match step s with
  | (s', Ok _) => with_disk s (g s).1 (g s).2 s'
  | (s', Raise e) => broken s (g s).1 (g s).2 s' e ∨ broken s (manifest s) (files s) s' e
  end.
Proof.
  intros Hg. cbn zeta. unfold atomically. 
  destruct (disk_cases (λ f s, match f with Some (O, _) => s | _ => set_disk s (g s).1 (g s).2 end) s) as [->|[Hne [f ->]]];
    rewrite ?Hg; pose proof (suffix_tail (faults s)).
  - by split.
  - destruct f as [[|k] t]; [right|left]; by split_and!.
Qed.

Lemma write_manifest_cases m s :
  match write_manifest m s with
  | (s', Ok _) => with_disk s m (files s) s'
  | (s', Raise e) => broken s m (files s) s' e ∨ broken s (manifest s) (files s) s' e
  end.
Proof. apply (atomically_cases (λ s, (m, files s))). done. Qed.

Lemma ddel_mid (A B : dict Z Segment) p x : p ∉ dkeys A → ddel p (A ++ (p, x) :: B) = A ++ B.
Proof.
  induction A as [|[q y] A IH]; simpl; [by rewrite decide_True|].
  intros [Hp Hp']%not_elem_of_cons. rewrite decide_False by done. by rewrite IH.
Qed.

Lemma dict_ok_mid (A B : dict Z Segment) x : dict_ok (A ++ x :: B) → x.1 ∉ dkeys A ∧ dict_ok (A ++ B).
Proof.
  unfold dict_ok, dkeys. rewrite !fmap_app, fmap_cons. intros (H1 & H2 & H3)%NoDup_app.
  apply NoDup_cons in H3 as [H3 H4]. split; [intros Hx; apply (H2 _ Hx); by left|].
  apply NoDup_app. split_and!; [done| |done]. intros y Hy Hy'. apply (H2 _ Hy). by right.
Qed.

(** Files [X] in the middle of the directory are removed one after the other. *)
Lemma unlink_cases (A X B : dict Z Segment) s :
  files s = A ++ X ++ B → dict_ok (files s) →
  match unlink (map fst X) s with
  | (s', Ok _) => with_disk s (manifest s) (A ++ B) s'
  | (s', Raise e) => ∃ k, (k ≤ length X)%nat ∧ broken s (manifest s) (A ++ drop k X ++ B) s' e
  end.
Proof.
  revert s. induction X as [|x X IH]; intros s Hf Hok; simpl map.
  - cbn [unlink mret]. simpl in Hf. rewrite <- Hf. split; [by destruct s|done].
  - cbn [unlink]. unfold mbind. pose proof (atomically_cases (λ s, (manifest s, ddel x.1 (files s))) s ltac:(done)) as Hc.
    cbn [fst snd] in Hc. rewrite Hf in Hok. destruct (dict_ok_mid A (X ++ B) x Hok) as [Hx Hok'].
    assert (ddel x.1 (files s) = A ++ X ++ B) as Hdel by (rewrite Hf; destruct x; by apply ddel_mid).
    rewrite Hdel in Hc. destruct (atomically _ s) as [s1 [[]|e]].
    + destruct Hc as [Es Hs]. assert (files s1 = A ++ X ++ B) as Hf1 by (by rewrite Es).
      assert (manifest s1 = manifest s) as Hm1 by (by rewrite Es). specialize (IH s1 Hf1). rewrite Hf1 in IH. specialize (IH Hok').
      destruct (unlink (map fst X) s1) as [s2 [[]|e]].
      * destruct IH as [E2 Hs2]. split; [|by etrans]. rewrite E2. rewrite Hm1, Es. done.
      * destruct IH as (k & Hk & -> & H1 & H2 & H3 & H4 & H5). exists (S k). split; [simpl; lia|]. split_and!; try done; [congruence|by etrans|].
        intros E. rewrite E in Hs. destruct Hs as [l Hl]. symmetry in Hl. by apply app_eq_nil in Hl as [_ ?].
    + destruct Hc as [Hc|Hc]; [exists 1%nat|exists O]; (split; [simpl; lia|]); [done|]. simpl in Hf |- *. by rewrite <- Hf.
Qed.

Lemma truncate_cases (A : dict Z Segment) p seg e s :
  files s = A ++ [(p, seg)] → p ∉ dkeys A → e_path e = p →
  let fs' := A ++ [(p, mk_segment (cut size_of (e_position e) (frames seg)) false)] in
  match truncate size_of e s with
  | (s', Ok _) => with_disk s (manifest s) fs' s'
  | (s', Raise x) => broken s (manifest s) fs' s' x ∨ broken s (manifest s) (files s) s' x
  end.
Proof.
  intros Hf Hk <-. cbn zeta. 
  assert (∀ q v w, q ∉ dkeys A → dget q (A ++ [(q, v)]) = Some v ∧ dset q w (A ++ [(q, v)]) = A ++ [(q, w)]) as HA.
  { clear. intros q v w. induction A as [|[q' y] A IH]; simpl; [by rewrite !decide_True|].
    intros [Hp Hp']%not_elem_of_cons. rewrite !decide_False by done. destruct (IH Hp') as [-> ->]. done. }
  destruct (HA (e_path e) seg (mk_segment (cut size_of (e_position e) (frames seg)) false) Hk) as [Hg Hs].
  unfold truncate, atomically. pose proof (suffix_tail (faults s)).
  match goal with |- context [disk ?f s] => destruct (disk_cases f s) as [->|[Hne [[[|k] t] ->]]] end; cbn [set_faults files].
  - rewrite Hf, Hg, Hs. by split.
  - right. by split_and!.
  - left. rewrite Hf, Hg, Hs. by split_and!.
Qed.

(** ** Alignment *)

(** The postconditions of a sequence of steps on the disk. *)
Definition done_as (s : PartitionLog) (c : Chain) (_ : unit) (s' : PartitionLog) : Prop :=
  faults s' `suffix_of` faults s ∧ good s' ∧ abs s' = c.
Definition left_hurt (up : bool) (s : PartitionLog) (e : exn) (s' : PartitionLog) : Prop :=
  e = OSError ∧ faults s' `suffix_of` faults s ∧ faults s ≠ [] ∧ hurt up (abs s) s'.

Lemma outcome_disk up m c s : wp m (done_as s c) (left_hurt up s) s → outcome up m (Ok (c, tt)) s.
Proof.
  unfold wp, outcome. destruct (m s) as [s' [[]|e]]; unfold done_as, left_hurt.
  - intros (H1 & H2 & <-). by split_and!.
  - intros (-> & H1 & H2 & H3). split; [done|]. right. by split_and!.
Qed.

Lemma outcome_marking up m c s : wp m (done_as s c) (left_hurt up s) s → outcome up (marking m) (Ok (c, tt)) s.
Proof.
  intros H. apply outcome_disk. unfold wp, marking in *. destruct (m s) as [s' [[]|e]]; [done|].
  destruct H as (-> & H1 & H2 & H3). cbn. split_and!; try done. destruct H3 as [F1 F2 F3 F4]. by split.
Qed.

Lemma suffix_nonempty {A} (l l' : list A) : l `suffix_of` l' → l ≠ [] → l' ≠ [].
Proof. intros [k ->] Hl E. by apply app_eq_nil in E as [_ ?]. Qed.

Lemma broken_calm up s s1 b h m fs s' e :
  faults s1 `suffix_of` faults s → (calm → disk_ok b h m fs) → later (abs s) (absd m fs) → (up = true → c_base (abs s) <= m_base m) →
  broken s1 m fs s' e → left_hurt up s e s'.
Proof.
  intros Hs Hd Hl Hb (-> & Hf & <- & <- & Hs' & Hne). split; [done|]. split; [by etrans|]. split; [by eapply suffix_nonempty|].
  split; try done. intros Hc. exists b, h. by apply Hd.
Qed.

Lemma broken_hurt up s s1 b h m fs s' e :
  faults s1 `suffix_of` faults s → disk_ok b h m fs → later (abs s) (absd m fs) → (up = true → c_base (abs s) <= m_base m) →
  broken s1 m fs s' e → left_hurt up s e s'.
Proof. intros Hs Hd. by apply (broken_calm up s s1 b h). Qed.

Lemma wp_disk {A} (m : M A) Q E s : (∀ s' r, m s = (s', r) → match r with Ok a => Q a s' | Raise e => E e s' end) → wp m Q E s.
Proof. intros H. unfold wp. destruct (m s) as [s' [a|e]] eqn:Em; by apply (H _ _ eq_refl). Qed.

(** The scan at the end. *)
Lemma wp_scan up s s1 b h m fs :
  with_disk s m fs s1 → failed s = false → disk_ok b h m fs → later (abs s) (absd m fs) → (up = true → c_base (abs s) <= m_base m) →
  wp (scan_quiet digest size_of) (done_as s (absd m fs)) (left_hurt up s) s1.
Proof.
  intros [Es Hs] Hf Hd Hl Hb. assert (manifest s1 = m ∧ files s1 = fs ∧ failed s1 = false) as (Em & Ef & Ef1) by (by rewrite Es).
  pose proof (scan_quiet_ok digest size_of b h s1 ltac:(by rewrite Em, Ef) Ef1) as H. unfold wp.
  pose proof (suffix_tail (faults s1)) as Ht.
  destruct (scan_quiet digest size_of s1) as [s' [[]|e]].
  - destruct H as (H1 & H2 & H3 & H4 & _). split; [rewrite H4; by etrans|]. split; [by exists b, h|].
    unfold abs, absd. rewrite H2, H3, Em, Ef, flat_untorn. done.
  - destruct H as (-> & H1 & H2 & H3 & H4 & H5). eapply broken_hurt; try done. split_and!; try done; [congruence|congruence|by rewrite H4].
Qed.

(** The files behind [p], and: of the files behind the one with the first frame
    after [cm] all are gone from [fs], or none. *)
Definition behind (p : Z) (fs : dict Z Segment) : list Z := filter (λ q, p < q) (map fst fs).
Definition whole (s : PartitionLog) (cm : Z) (fs : dict Z Segment) : Prop :=
  ∀ e, dget (cm + 1) (entries s) = Some e → behind (e_path e) fs = [] ∨ behind (e_path e) fs = behind (e_path e) (files s).

Lemma segments_files b h s : disk_ok b h (manifest s) (files s) → segments s = files s.
Proof. intros []. unfold segments. by eapply laid_sorted. Qed.

Lemma with_disk_fields s m fs s1 :
  with_disk s m fs s1 →
  manifest s1 = m ∧ files s1 = fs ∧ entries s1 = entries s ∧ next_offset s1 = next_offset s ∧ failed s1 = failed s
  ∧ segment_bytes s1 = segment_bytes s.
Proof. intros [E _]. rewrite E. done. Qed.

Lemma broken_trans s m fs s1 m' fs' s' e : with_disk s m fs s1 → broken s1 m' fs' s' e → broken s m' fs' s' e.
Proof.
  intros [_ Hs] (-> & H1 & H2 & H3 & H4 & H5). split_and!; try done; [by etrans|by eapply suffix_nonempty].
Qed.

Lemma with_disk_trans s m fs s1 m' fs' s' : with_disk s m fs s1 → with_disk s1 m' fs' s' → with_disk s m' fs' s'.
Proof. intros [E1 Hs1] [E2 Hs2]. split; [by rewrite E2, E1|by etrans]. Qed.

(** The frames behind [cm] are removed: the files behind the one of the first of
    them, then the end of that one.  In between, all frames up to [cm] are there
    ([kept]), and they are a prefix of the old ones but while only some of the files
    behind are removed. *)
Definition kept (m : Manifest) (s : PartitionLog) (fs' : dict Z Segment) : Prop :=
  ∀ v, v ∈ flat (files s) → v_offset v <= committed m → v ∈ flat fs'.
Definition trimmed (b0 : Z) (h0 : string) (m : Manifest) (s : PartitionLog) (k : nat) (fs' : dict Z Segment) : Prop :=
  disk_ok b0 h0 m fs' ∧ flat fs' = take k (flat (files s)) ∧ committed m + 1 - b0 <= Z.of_nat k.

Lemma trim_files b0 h0 m s A p seg B j v :
  disk_ok b0 h0 m (files s) → files s = A ++ (p, seg) :: B → frames seg !! j = Some v →
  committed m + 1 - b0 = Z.of_nat (length (flat A) + j) →
  trimmed b0 h0 m s (length (flat (A ++ [(p, seg)]))) (A ++ [(p, seg)]) ∧
  trimmed b0 h0 m s (length (flat A) + j) (A ++ [(p, mk_segment (take j (frames seg)) false)]).
Proof.
  intros Hd Hfs Hv Hj. apply lookup_lt_Some in Hv. pose proof Hd as [Hl _ _ _ _ _ _]. rewrite Hfs in Hl.
  change ((p, seg) :: B) with ([(p, seg)] ++ B) in Hl. rewrite app_assoc in Hl. apply laid_app in Hl as [HlA _].
  assert (flat (A ++ [(p, seg)]) = take (length (flat (A ++ [(p, seg)]))) (flat (files s))) as Hpre.
  { rewrite Hfs. change ((p, seg) :: B) with ([(p, seg)] ++ B). by rewrite app_assoc, (flat_app (_ ++ _)), take_app_length. }
  assert (flat (A ++ [(p, mk_segment (take j (frames seg)) false)]) = take (length (flat A) + j) (flat (files s))) as Hfl.
  { rewrite Hfs, flat_snoc, flat_app, flat_cons. cbn [frames]. by rewrite take_app_add, take_app_le by lia. }
  assert (committed m + 1 - b0 <= Z.of_nat (length (flat (A ++ [(p, seg)])))) by (rewrite flat_snoc, length_app; lia).
  split; split_and!; try done; try lia; (eapply disk_prefix; [exact Hd| |done|lia]); [done|].
  apply laid_app in HlA as (L1 & (L2 & _) & L3). apply laid_app. split; [done|]. split; [by cbn|]. intros _. by apply L3.
Qed.

Lemma trimmed_kept b0 h0 m s k fs' : disk_ok b0 h0 m (files s) → trimmed b0 h0 m s k fs' → kept m s fs'.
Proof.
  intros Hd (_ & Hf & Hk) v [i Hv]%list_elem_of_lookup Ho. rewrite Hf. apply elem_of_take. exists i. split; [done|].
  destruct Hd as [_ Hch _ _ _ _ _]. rewrite (chained_lookup _ _ _ _ _ _ Hch Hv) in Ho. lia.
Qed.

Lemma names_behind (A B : dict Z Segment) p seg k :
  filter (λ q, p < q) (map fst (A ++ (p, seg) :: B)) = map fst B →
  filter (λ q, p < q) (map fst (A ++ (p, seg) :: drop k B)) = map fst (drop k B).
Proof.
  rewrite !map_app, !filter_app. cbn [map fst]. rewrite !filter_cons_False by lia. intros E.
  assert (∀ q, q ∈ map fst B → p < q) as HB.
  { intros q Hq. rewrite <- E in Hq. apply elem_of_app in Hq as [Hq|Hq]; by apply list_elem_of_filter in Hq as [? _]. }
  rewrite (filter_all (λ q, p < q) (map fst B)) in E by done. change (map fst B) with ([] ++ map fst B) in E at 2.
  apply app_inv_tail in E as ->. apply filter_all. intros q Hq. apply HB. rewrite <- skipn_map in Hq. by apply (subseteq_drop k).
Qed.

Lemma trim_cases b0 h0 m s s1 :
  live b0 h0 s → disk_ok b0 h0 m (files s) → with_disk s m (files s) s1 → m_base m = m_base (manifest s) →
  committed m + 1 < next_offset s →
  wp (do* e := reading (λ s, dlookup (committed m + 1) (entries s)) in
      do* ps := reading (λ s, Ok (filter (λ p, e_path e < p) (map fst (segments s)))) in
      do* _ := unlink ps in truncate size_of e)
    (λ _ s', ∃ fs', with_disk s m fs' s' ∧ trimmed b0 h0 m s (Z.to_nat (committed m + 1 - b0)) fs')
    (λ e s', ∃ fs' k, broken s m fs' s' e ∧ kept m s fs' ∧ (whole s (committed m) fs' → trimmed b0 h0 m s k fs')) s1.
Proof.
  intros [Hds Hf Hi Hen Hnx] Hd Hw Eb Hlt. pose proof Hd as [Hl Hc Hfr H0 Hb He Hh].
  destruct (with_disk_fields _ _ _ _ Hw) as (Em1 & Ef1 & Ee1 & _).
  destruct (lookup_lt_is_Some_2 (rows (files s)) (Z.to_nat (committed m + 1 - b0))) as [r Hr]; [rewrite rows_length; lia|].
  assert (dget (committed m + 1) (entries s) = Some (entry size_of r.1.1 r.1.2 r.2)) as Hget.
  { rewrite Hen, (index_get digest size_of b0 h0) by (rewrite ?rows_values; done || lia).
    replace (m_base (manifest s) <=? committed m + 1) with true by lia. by rewrite Hr. }
  destruct (rows_split _ _ _ _ Hr) as (A & seg & B & j & Hfs & Hij & Hv & Hpos).
  assert (frames seg ≠ []) as Hne by (by destruct (frames seg)).
  destruct (trim_files b0 h0 m s A r.1.1 seg B j r.2 Hd Hfs Hv ltac:(lia)) as [HtA Htc].
  assert (filter (λ p, r.1.1 < p) (map fst (files s)) = map fst B) as HB by (rewrite Hfs in Hl |- *; by eapply names_after).
  assert (segments s = files s) as Hseg by (unfold segments; by eapply laid_sorted).
  apply wp_bind. unfold wp at 1, reading. rewrite Ee1. unfold dlookup. rewrite Hget.
  apply wp_bind. unfold wp at 1. replace (segments s1) with (files s) by (unfold segments; rewrite Ef1; by rewrite <- Hseg at 1).
  cbn [entry e_path]. rewrite HB. apply wp_bind. unfold wp at 1.
  pose proof (unlink_cases (A ++ [(r.1.1, seg)]) B [] s1) as H2. rewrite Ef1, Hfs, app_nil_r, <- app_assoc, Em1 in H2.
  specialize (H2 eq_refl). rewrite Hfs in Hl. specialize (H2 (laid_dict _ _ Hl)).
  destruct (unlink (map fst B) s1) as [s2 [[]|e]].
  - rewrite app_nil_r in H2. destruct (with_disk_fields _ _ _ _ H2) as (Em2 & Ef2 & _).
    assert (r.1.1 ∉ dkeys A) as Hk by (destruct HtA as [[HlA _ _ _ _ _ _] _]; by apply laid_snoc_key in HlA).
    pose proof (truncate_cases A r.1.1 seg (entry size_of r.1.1 r.1.2 r.2) s2 Ef2 Hk eq_refl) as H3. rewrite Em2, Ef2 in H3.
    cbn [entry e_position] in H3.
    assert (cut size_of r.1.2 (frames seg) = take j (frames seg)) as Hcut.
    { rewrite Hpos. eapply cut_at; [|exact Hv]. rewrite Hfs, flat_app, flat_cons in Hfr. by apply Forall_app in Hfr as [_ [Hfr _]%Forall_app]. }
    rewrite Hcut in H3.
    pose proof (with_disk_trans _ _ _ _ _ _ _ Hw H2) as Hw2. unfold wp. destruct (truncate _ _ s2) as [s3 [[]|e]]; cbv beta iota.
    + eexists. split; [by eapply with_disk_trans|]. by rewrite Hij.
    + destruct H3 as [H3|H3]; eexists _, _; (split; [by eapply broken_trans|]; split; [by eapply trimmed_kept|intros _; eassumption]).
  - destruct H2 as (k & Hk & H2%(broken_trans _ _ _ _ _ _ _ _ Hw)). rewrite app_nil_r, <- app_assoc in H2.
    exists (A ++ (r.1.1, seg) :: drop k B). destruct (decide (k = O ∨ drop k B = [])) as [HkB|HkB].
    + assert (∃ n, trimmed b0 h0 m s n (A ++ (r.1.1, seg) :: drop k B)) as [n Hn].
      { destruct HkB as [->| ->]; [|by eexists]. exists (length (flat (files s))). rewrite drop_0, <- Hfs.
        split; [done|]. rewrite take_ge by done. split; [done|]. lia. }
      exists n. split; [done|]. split; [by eapply trimmed_kept|done].
    + exists O. split; [done|]. split.
      * intros v Hv' Ho. pose proof (trimmed_kept _ _ _ _ _ _ Hd HtA v Hv' Ho) as Hin.
        rewrite flat_snoc in Hin. rewrite flat_app, flat_cons. set_solver.
      * intros Hw'. exfalso. apply HkB. specialize (Hw' _ Hget). cbn [entry e_path] in Hw'. unfold behind in Hw'. rewrite HB in Hw'.
        rewrite Hfs in HB. rewrite (names_behind _ _ _ _ k HB) in Hw'. destruct Hw' as [Hw'|Hw']; [by right; apply map_eq_nil in Hw'|left].
        apply (f_equal length) in Hw'. rewrite !length_map, length_drop in Hw'.
        destruct k as [|k]; [done|]. destruct B; [|cbn [length] in Hw'; lia]. by destruct HkB; right.
Qed.

Lemma kept_later m s fs' :
  m_epoch (manifest s) <= m_epoch m → committed (manifest s) <= committed m → kept m s fs' → later (abs s) (absd m fs').
Proof. intros He Hc Hk. apply later_disk; [done|done|]. intros v Hv Ho. apply Hk; [done|lia]. Qed.

Lemma trimmed_later b0 h0 m s k fs' :
  disk_ok b0 h0 m (files s) → m_epoch (manifest s) <= m_epoch m → committed (manifest s) <= committed m →
  trimmed b0 h0 m s k fs' → later (abs s) (absd m fs').
Proof. intros Hd He Hc Ht. apply kept_later; [done|done|]. by eapply trimmed_kept. Qed.

Lemma trimmed_abs b0 h0 m s fs' :
  disk_ok b0 h0 (manifest s) (files s) → m_base m = m_base (manifest s) → base_hash m = base_hash (manifest s) →
  trimmed b0 h0 m s (Z.to_nat (committed m + 1 - b0)) fs' →
  absd m fs' = mk_chain (m_base m) (base_hash m) (m_epoch m) (committed m)
                 (take (Z.to_nat (committed m + 1 - m_base m)) (c_values (abs s))).
Proof.
  intros Hd Eb Eh (Hd' & Hf & _). pose proof (absd_values b0 h0 _ _ Hd') as Hv. unfold absd in Hv |- *. cbn [c_values] in Hv. f_equal.
  rewrite Hv, Hf. unfold abs. rewrite (absd_values b0 h0 _ _ Hd), <- Eb. pose proof Hd as [_ _ _ _ Hb _ _].
  rewrite skipn_firstn_comm. f_equal. lia.
Qed.

Lemma align_disk_ok s epoch cm :
  good s → m_epoch (manifest s) <= epoch → committed (manifest s) <= cm → cm < c_next (abs s) →
  (calm → whole s cm (files (align_disk digest size_of epoch cm s).1)) →
  outcome true (marking (align_disk digest size_of epoch cm))
    (Ok (mk_chain (m_base (manifest s)) (base_hash (manifest s)) epoch cm
           (take (Z.to_nat (cm + 1 - m_base (manifest s))) (c_values (abs s))), tt)) s.
Proof.
  intros (b0 & h0 & Hlv) He Hcm Hn Hw. pose proof Hlv as [Hd Hf Hi Hen Hnx]. unfold abs in Hn.
  rewrite (absd_next b0 h0 _ _ Hd) in Hn. set (m := mk_manifest (m_base (manifest s)) (base_hash (manifest s)) epoch cm).
  assert (disk_ok b0 h0 m (files s)) as Hdm by (eapply disk_manifest; [exact Hd|destruct Hd; cbn; lia..|by destruct Hd]).
  assert (∀ k, (length (flat (files s)) ≤ k)%nat → trimmed b0 h0 m s k (files s)) as Htm.
  { intros k Hk. split; [done|]. rewrite take_ge by done. split; [done|]. cbn. lia. }
  pose proof (trimmed_later b0 h0 m s) as Hlat. pose proof (trimmed_abs b0 h0 m s) as Habs. cbn [m m_base committed base_hash m_epoch] in Habs.
  apply outcome_marking. unfold align_disk in Hw |- *. apply wp_bind. unfold wp at 1, reading. unfold mbind at 1, reading in Hw. fold m in Hw |- *.
  apply wp_bind. unfold wp at 1. unfold mbind at 1 in Hw.
  pose proof (write_manifest_cases m s) as H1. destruct (write_manifest m s) as [s1 [[]|e]].
  2: { destruct H1 as [H1|H1]; [eapply (broken_hurt true s s b0 h0 m)|eapply (broken_hurt true s s b0 h0 (manifest s))]; try exact H1; try done.
       - by eapply Hlat, (Htm _ (le_n _)).
       - apply later_refl. }
  apply wp_bind. unfold wp at 1. destruct (with_disk_fields _ _ _ _ H1) as (_ & _ & _ & En & _). rewrite En.
  unfold mbind at 1 in Hw. rewrite En in Hw. apply wp_bind.
  destruct (cm + 1 <? next_offset s) eqn:Elt.
  - pose proof (trim_cases b0 h0 m s s1 Hlv Hdm H1 eq_refl ltac:(cbn; lia)) as Ht. cbn [m committed] in Ht. unfold mbind at 1 in Hw. unfold wp, reading in Ht |- *. unfold reading in Hw.
    match goal with |- context [match ?t s1 with _ => _ end] => destruct (t s1) as [s' [[]|e]] end.
    + destruct Ht as (fs' & Hw' & Ht). rewrite <- (Habs fs') by done. apply (wp_scan true s s' b0 h0); try done; [by destruct Ht|by eapply Hlat].
    + destruct Ht as (fs' & k & Hb & Hk & Ht). apply (broken_calm true s s b0 h0 m fs'); try done.
      * intros Hc. specialize (Hw Hc). destruct Hb as (_ & _ & _ & Ef & _). cbn [fst] in Hw. rewrite Ef in Hw. by destruct (Ht Hw).
      * by apply kept_later.
  - unfold wp at 1, mret. rewrite <- (Habs (files s)) by (try done; apply Htm; lia).
    apply (wp_scan true s s1 b0 h0); try done. by eapply Hlat, (Htm _ (le_n _)).
Qed.
End steps.
