(* ===== verification/BrokerLogRetain.v ===== *)
(** * Retention, appending and installing in a partition log

    The remaining operations of BrokerLog.v implement those of the chain. *)
From S2P Require Import Prelude PyList PyDict Checks Effects Messages BrokerLog BrokerLogInv Chain BrokerLogSteps.
Local Open Scope Z_scope.

Section retain.
Context (digest : string → Rec → string) (size_of : Value → Z) (calm : Prop).
Local Notation chained := (Messages.chained digest).
Local Notation frame_ok := (BrokerLog.frame_ok digest size_of).
Local Notation disk_ok := (BrokerLogInv.disk_ok digest size_of).
Local Notation live := (BrokerLogInv.live digest size_of).
Local Notation rows := (BrokerLogInv.rows size_of).
Local Notation index := (BrokerLogInv.index size_of).
Local Notation later := (Chain.later digest).
Local Notation good := (BrokerLogSteps.good digest size_of).
Local Notation outcome := (BrokerLogSteps.outcome digest size_of calm).

#[local] Arguments flat : simpl never.
#[local] Arguments BrokerLogInv.rows : simpl never.
#[local] Arguments BrokerLogInv.index : simpl never.
#[local] Arguments untorn : simpl never.

(** ** The files that retention removes *)

Lemma removelast_frames n segs p :
  laid n segs → p ∈ removelast (map fst segs) → ∃ seg, (p, seg) ∈ segs ∧ frames seg ≠ [].
Proof.
  revert n. induction segs as [|[q s] [|y segs] IH]; intros n; [by intros _ ?%not_elem_of_nil..|].
  intros (-> & He & _ & Hl). change (removelast _) with (n :: removelast (map fst (y :: segs))).
  intros [->|Hp]%elem_of_cons.
  - exists s. split; [by left|]. intros E. by specialize (He E).
  - destruct (IH _ Hl Hp) as (seg & ? & ?). exists seg. split; [by right|done].
Qed.

Lemma old_files base (needed : list Z) n h (segs : list (Z * Segment)) :
  laid n segs → chained n h (flat segs) →
  (∀ p seg, (p, seg) ∈ segs → p ∈ needed ↔ ∃ v, v ∈ frames seg ∧ base <= v_offset v) →
  ∃ X B, segs = X ++ B ∧ filter (λ p, p ∉ needed) (removelast (map fst segs)) = map fst X ∧
    (X = [] ∨ Z.of_nat (length (flat X)) <= base - n).
Proof.
  revert n h. induction segs as [|[q s] segs IH]; intros n h Hl Hc Hn; [by exists [], []; split_and!; [..|left]|].
  destruct segs as [|y segs]; [exists [], [(q, s)]; split_and!; [..|left]; done|].
  pose proof Hl as (-> & He & _ & Hl'). rewrite flat_cons in Hc. apply chained_app in Hc as [Hc1 Hc2].
  assert (frames s ≠ []) as Hne by (intros E; by specialize (He E)).
  change (removelast _) with (n :: removelast (map fst (y :: segs))).
  destruct (decide (n + Z.of_nat (length (frames s)) <= base)) as [Hle|Hgt].
  - destruct (IH _ _ Hl' Hc2) as (X & B & E & Hf & HX); [intros p seg Hin; apply Hn; by right|].
    exists ((n, s) :: X), B. split_and!; [by rewrite E| |right; rewrite flat_cons, length_app; destruct HX as [->|]; [rewrite flat_nil; cbn|]; lia].
    rewrite filter_cons_True; [by rewrite Hf|]. intros (v & [i Hv]%list_elem_of_lookup & Ho)%(Hn n s); [|by left].
    rewrite (chained_lookup _ _ _ _ _ _ Hc1 Hv) in Ho. apply lookup_lt_Some in Hv. lia.
  - exists [], ((n, s) :: y :: segs). split_and!; [done| |by left]. apply filter_none. intros p Hp Hnp. apply Hnp. clear Hnp.
    assert (∃ seg, (p, seg) ∈ (n, s) :: y :: segs ∧ ∃ v, v ∈ frames seg ∧ base <= v_offset v) as (seg & Hin & Hv); [|by eapply Hn].
    apply elem_of_cons in Hp as [->|Hp].
    + exists s. split; [by left|]. destruct (lookup_lt_is_Some_2 (frames s) (length (frames s) - 1)) as [v Hv]; [destruct (frames s); simpl in *; [done|lia]|].
      exists v. split; [by eapply list_elem_of_lookup_2|]. rewrite (chained_lookup _ _ _ _ _ _ Hc1 Hv). lia.
    + destruct (removelast_frames _ _ _ Hl' Hp) as (seg & Hin & Hs). exists seg. split; [by right|].
      destruct (frames seg) as [|v vs] eqn:Es; [done|]. exists v. split; [by left|].
      assert (v ∈ flat (y :: segs)) as [i Hv]%list_elem_of_lookup.
      { unfold flat. apply list_elem_of_In, in_concat. exists (frames seg). split; [|rewrite Es; by left].
        apply in_map_iff. exists (p, seg). split; [done|]. by apply list_elem_of_In. }
      rewrite (chained_lookup _ _ _ _ _ _ Hc2 Hv). lia.
Qed.

Lemma elem_of_rows segs r : r ∈ rows segs → ∃ seg, (r.1.1, seg) ∈ segs ∧ r.2 ∈ frames seg.
Proof.
  intros [i Hr]%list_elem_of_lookup. destruct (rows_split _ _ _ _ Hr) as (A & seg & B & j & -> & _ & Hv & _).
  exists seg. split; [apply elem_of_app; right; by left|by eapply list_elem_of_lookup_2].
Qed.

Lemma rows_elem segs p seg v : (p, seg) ∈ segs → v ∈ frames seg → ∃ r, r ∈ rows segs ∧ r.1.1 = p ∧ r.2 = v.
Proof.
  intros (A & B & ->)%list_elem_of_split Hv. rewrite <- (rows_at_values size_of p 0) in Hv.
  apply list_elem_of_fmap in Hv as (r & -> & Hr). exists r. split_and!; [|by eapply rows_at_paths|done].
  rewrite rows_app, rows_cons. apply elem_of_app. right. apply elem_of_app. by left.
Qed.

Definition needed_by (base : Z) (es : dict Z Entry) : list Z := map (λ x, e_path x.2) (filter (λ x, base <= x.1) (es : list (Z * Entry))).

Lemma needed_spec n base old segs p seg :
  laid n segs → old <= base → (p, seg) ∈ segs →
  p ∈ needed_by base (index old (rows segs)) ↔ ∃ v, v ∈ frames seg ∧ base <= v_offset v.
Proof.
  intros Hl Hb Hin. unfold needed_by. split.
  - intros (x & -> & [Hx Hi]%list_elem_of_filter)%list_elem_of_fmap. unfold BrokerLogInv.index in Hi.
    apply list_elem_of_fmap in Hi as (r & -> & [_ Hr]%list_elem_of_filter). cbn in Hx, Hin.
    destruct (elem_of_rows _ _ Hr) as (seg' & Hin' & Hv). exists r.2. split; [|done].
    apply dget_Some in Hin, Hin'; [congruence|by eapply laid_dict..].
  - intros (v & Hv & Ho). destruct (rows_elem _ _ _ _ Hin Hv) as (r & Hr & <- & <-).
    apply list_elem_of_fmap. exists (row_entry size_of r). split; [done|]. apply list_elem_of_filter. split; [done|].
    unfold BrokerLogInv.index. apply list_elem_of_fmap_2, list_elem_of_filter. split; [lia|done].
Qed.

(** ** Retention *)

Lemma retained_disk b0 h0 m fs X Y :
  disk_ok b0 h0 m fs → fs = X ++ Y → X = [] ∨ Z.of_nat (length (flat X)) <= m_base m - b0 →
  ∃ b h, disk_ok b h m Y ∧ absd m Y = absd m fs.
Proof.
  intros Hd -> HX. pose proof Hd as [_ Hc _ _ Hb _ _]. assert (Z.of_nat (length (flat X)) <= m_base m - b0) as HX'.
  { destruct HX as [->|]; [rewrite flat_nil; cbn; lia|done]. }
  eexists _, _. split; [by eapply disk_suffix|]. unfold absd. f_equal. rewrite flat_app in *. rewrite filter_app, (filter_none _ (flat X)); [done|].
  apply chained_app in Hc as [Hc _]. intros v [i Hv]%list_elem_of_lookup Ho. rewrite (chained_lookup _ _ _ _ _ _ Hc Hv) in Ho.
  apply lookup_lt_Some in Hv. lia.
Qed.

Lemma retain_manifest b0 h0 m fs base bh :
  disk_ok b0 h0 m fs → m_base m <= base → c_hash_at (base - 1) (absd m fs) = Some bh →
  let m' := mk_manifest base bh (m_epoch m) (Z.max (committed m) (base - 1)) in
  disk_ok b0 h0 m' fs ∧ later (absd m fs) (absd m' fs) ∧
  absd m' fs = mk_chain base bh (m_epoch m) (Z.max (committed m) (base - 1)) (drop (Z.to_nat (base - m_base m)) (c_values (absd m fs))).
Proof.
  intros Hd Hb Hh m'. pose proof (c_hash_at_range _ _ _ Hh) as Hr. pose proof (absd_ok _ _ _ _ _ _ Hd) as Hok.
  rewrite (c_hash_at_last _ _ _ _ Hok Hr) in Hh. apply (inj Some) in Hh. rewrite (absd_next _ _ b0 h0) in Hr by done.
  rewrite (absd_values _ _ b0 h0) in Hh |- * by done. cbn [absd c_hash c_base] in Hh, Hr. pose proof Hd as [_ _ _ _ Hb0 He Hh0].
  assert (disk_ok b0 h0 m' fs) as Hd'.
  { eapply disk_manifest; [exact Hd|cbn; lia|cbn; lia|]. cbn. rewrite <- Hh, Hh0, <- last_hash_app, take_take_drop. do 2 f_equal. lia. }
  split_and!; [done| |].
  - eapply later_disk; [done|cbn; lia|done].
  - pose proof (absd_values _ _ b0 h0 _ _ Hd') as Hv. unfold absd in Hv |- *. cbn [c_values m' m_base base_hash m_epoch committed] in *.
    f_equal. rewrite Hv, drop_drop. f_equal. lia.
Qed.

Lemma retain_disk_ok s base bh :
  good s → m_base (manifest s) <= base → c_hash_at (base - 1) (abs s) = Some bh →
  outcome true (marking (retain_disk digest size_of base bh))
    (Ok (mk_chain base bh (m_epoch (manifest s)) (Z.max (committed (manifest s)) (base - 1))
           (drop (Z.to_nat (base - m_base (manifest s))) (c_values (abs s))), tt)) s.
Proof.
  intros (b0 & h0 & Hlv) Hb Hh. pose proof Hlv as [Hd Hf Hi Hen Hnx].
  destruct (retain_manifest b0 h0 _ _ base bh Hd Hb Hh) as (Hdm & Hlm & Hres). fold (abs s) in Hres. rewrite <- Hres. clear Hres.
  set (m := mk_manifest base bh (m_epoch (manifest s)) (Z.max (committed (manifest s)) (base - 1))) in *.
  assert (segments s = files s) as Hseg by (by eapply segments_files).
  destruct (old_files base (needed_by base (entries s)) b0 h0 (files s)) as (X & B & EX & HX & Hlen);
    [by destruct Hd..|intros p seg Hin; rewrite Hen; eapply needed_spec; [by destruct Hd|done|done]|].
  assert (∀ k, ∃ b h, disk_ok b h m (drop k X ++ B) ∧ absd m (drop k X ++ B) = absd m (files s)) as Hdrop.
  { intros k. apply (retained_disk b0 h0 m (files s) (take k X)); [done|by rewrite app_assoc, take_drop|].
    destruct Hlen as [->|Hlen]; [left; by rewrite take_nil|right]. rewrite <- (take_drop k X), flat_app, length_app in Hlen. cbn. lia. }
  apply outcome_marking, wp_bind. unfold wp at 1, reading. fold m. apply wp_bind. unfold wp at 1.
  pose proof (write_manifest_cases m s) as H1. destruct (write_manifest m s) as [s1 [[]|e]].
  2: { destruct H1 as [H1|H1]; [eapply (broken_hurt _ _ calm true s s b0 h0 m)|eapply (broken_hurt _ _ calm true s s b0 h0 (manifest s))]; try exact H1; try done.
       apply later_refl. }
  destruct (with_disk_fields _ _ _ _ H1) as (Em1 & Ef1 & Ee1 & _ & Ef & _).
  apply wp_bind. unfold wp at 1. replace (segments s1) with (segments s) by (unfold segments; by rewrite Ef1).
  rewrite Hseg, Ee1. fold (needed_by base (entries s)). cbv zeta. rewrite HX. apply wp_bind. unfold wp at 1.
  pose proof (unlink_cases [] X B s1) as H2. rewrite Ef1 in H2. specialize (H2 EX (laid_dict _ _ (d_laid _ _ _ _ _ _ Hd))). rewrite Em1 in H2.
  destruct (unlink (map fst X) s1) as [s2 [[]|e]].
  - pose proof (with_disk_trans _ _ _ _ _ _ _ H1 H2) as Hw. destruct (Hdrop (length X)) as (b & h & Hd' & Ea). rewrite drop_all in Hd', Ea.
    simpl app in *. rewrite <- Ea in Hlm |- *. by apply (wp_scan _ _ calm true s s2 b h).
  - destruct H2 as (k & _ & H2%(broken_trans _ _ _ _ _ _ _ _ H1)). destruct (Hdrop k) as (b & h & Hd' & Ea).
    rewrite <- Ea in Hlm. by eapply (broken_hurt _ _ calm true s s b h).
Qed.

(** ** Appending *)

(** The files from [n] on and the index over [base], of a usable object. *)
Record store (n base : Z) (s : PartitionLog) : Prop := {
  st_laid : laid n (files s);
  st_intact : intact (files s);
  st_entries : entries s = index base (rows (files s));
  st_next : next_offset s = n + Z.of_nat (length (flat (files s)));
  st_failed : failed s = false;
}.

Lemma live_store b0 h0 s : live b0 h0 s → store b0 (m_base (manifest s)) s.
Proof. intros [[] ? ? ? ?]. by split. Qed.

Lemma tip_segments n s :
  laid n (files s) →
  tip size_of (files s) (fst <$> last (segments s)) (match last (segments s) with Some x => file_size size_of x.2 | None => 0 end).
Proof. intros Hl. unfold tip, segments. rewrite (laid_sorted n) by done. by destruct (last (files s)). Qed.

Lemma index_update n h base rs rs' :
  chained n h (rs ++ rs').*2 → base <= n + Z.of_nat (length rs) →
  foldl (λ es row, dset (v_offset row.2) (entry size_of row.1.1 row.1.2 row.2) es) (index base rs) rs' = index base (rs ++ rs').
Proof.
  revert rs. induction rs' as [|r rs' IH]; intros rs Hc Hb; cbn [foldl]; [by rewrite app_nil_r|].
  assert (v_offset r.2 = n + Z.of_nat (length rs)) as Ho.
  { eapply (chained_lookup digest n h ((rs ++ r :: rs').*2)); [done|]. by rewrite list_lookup_fmap, list_lookup_middle. }
  assert (dset (v_offset r.2) (entry size_of r.1.1 r.1.2 r.2) (index base rs) = index base (rs ++ [r])) as ->.
  { rewrite dset_new.
    - rewrite index_app, index_cons. replace (base <=? v_offset r.2) with true by lia. done.
    - intros (r' & Hr' & Eo)%index_keys. apply list_elem_of_lookup in Hr' as [i Hi].
      assert (v_offset r'.2 = n + Z.of_nat i) as Ho'.
      { eapply (chained_lookup digest n h ((rs ++ r :: rs').*2)); [done|]. rewrite list_lookup_fmap, lookup_app_l by (by eapply lookup_lt_Some). by rewrite Hi. }
      apply lookup_lt_Some in Hi. lia. }
  rewrite (IH (rs ++ [r])); rewrite <- ?app_assoc; [done|done|rewrite length_app; simpl; lia].
Qed.

Lemma append_cases n base s h0 values :
  store n base s → base <= next_offset s → chained n h0 (flat (files s) ++ values) →
  wp (append_prepared size_of values)
    (λ _ s', faults s' `suffix_of` faults s ∧ manifest s' = manifest s ∧ store n base s' ∧ flat (files s') = flat (files s) ++ values)
    (λ e s', broken s (manifest s) (files s') s' e ∧ ∃ k, laid n (files s') ∧ flat (files s') = flat (files s) ++ take k values) s.
Proof.
  intros [Hl Hi He Hn Hf] Hb Hc. unfold append_prepared. destruct values as [|v0 values]; [unfold wp; cbn; rewrite app_nil_r; by split_and!|].
  set (vs := v0 :: values) in *. apply wp_bind. unfold wp at 1, reading. cbv zeta.
  set (rs := place size_of (segment_bytes s) _ _ vs). pose proof Hc as Hc'. apply chained_app in Hc' as [_ Hc'].
  pose proof (λ k, place_ok digest size_of (segment_bytes s) n (files s) _ _ _ vs k Hl Hi (tip_segments n s Hl) Hc') as Hp.
  apply wp_bind. unfold wp at 1. destruct (disk_cases (write_rows rs) s) as [->|[Hne [[k t] ->]]].
  - destruct (Hp (length rs)) as (Ev & H1 & H2 & H3 & H4 & _). fold rs in Ev, H1, H2, H3, H4.
    pose proof (f_equal length Ev) as Elen. rewrite length_fmap in Elen.
    rewrite take_ge in H1, H2, H3, H4 by done. rewrite (take_ge vs) in H3 by lia. clearbody rs.
    unfold wp. cbn. split_and!; [apply suffix_tail|done| |done]. split; cbn; try done.
    + rewrite H4, He. apply (index_update n h0); [|rewrite rows_length; lia].
      by rewrite fmap_app, rows_values, Ev.
    + rewrite H3, length_app, Hn. subst vs. cbn. lia.
  - destruct (Hp k) as (_ & H1 & H2 & H3 & H4 & H5). fold rs in H1, H2, H3, H4, H5.
    clearbody rs. cbn. split; [split_and!; try done; apply suffix_tail|]. exists k. destruct t; [|done]. destruct (rs !! k) as [row|] eqn:Er; [|done].
    destruct (H5 row eq_refl) as [H6 H7]. split; [done|]. by rewrite H7.
Qed.

Lemma disk_append b0 h0 m fs fs' values :
  disk_ok b0 h0 m fs → laid b0 fs' → flat fs' = flat fs ++ values → chained b0 h0 (flat fs') → Forall (λ v, frame_ok v = true) values →
  disk_ok b0 h0 m fs' ∧ absd m fs' = chain_append values (absd m fs) ∧ later (absd m fs) (absd m fs').
Proof.
  intros Hd Hl Hf Hc Hv. pose proof Hd as [H1 H2 H3 H4 H5 H6 H7].
  assert (disk_ok b0 h0 m fs') as Hd'.
  { split; try done; rewrite ?Hf; [by apply Forall_app|rewrite length_app; lia|]. rewrite H7. f_equal. rewrite take_app_le by lia. done. }
  split_and!; [done| |eapply later_disk; [done|done|]].
  - unfold absd, chain_append. cbn. f_equal. rewrite Hf, filter_app. f_equal. apply filter_all. intros v [i Hi]%list_elem_of_lookup.
    rewrite Hf in Hc. apply chained_app in Hc as [_ Hc]. rewrite (chained_lookup _ _ _ _ _ _ Hc Hi). lia.
  - intros v Hin _. rewrite Hf. apply elem_of_app. by left.
Qed.

Lemma append_prepared_ok s values :
  good s → chained (next_offset s) (last_hash (c_hash (abs s)) (c_values (abs s))) values → Forall (λ v, frame_ok v = true) values →
  outcome true (append_prepared size_of values) (Ok (chain_append values (abs s), tt)) s.
Proof.
  intros (b0 & h0 & Hlv) Hc Hv. pose proof Hlv as [Hd Hf Hi Hen Hnx]. pose proof Hd as [H1 H2 H3 H4 H5 H6 H7].
  assert (chained b0 h0 (flat (files s) ++ values)) as Hc'.
  { apply chained_app. split; [done|]. rewrite Hnx in Hc. unfold abs in Hc. rewrite (absd_values _ _ b0 h0) in Hc by done.
    cbn [absd c_hash] in Hc. by rewrite H7, <- last_hash_app, take_drop in Hc. }
  apply outcome_disk. eapply wp_mono; [apply (append_cases b0 (m_base (manifest s)) s h0); [by eapply live_store|lia|done]| |].
  - intros [] s' (Hs & Em & [S1 S2 S3 S4 S5] & Ef).
    destruct (disk_append b0 h0 (manifest s) (files s) (files s') values Hd S1 Ef) as (Hd' & Ea & _); [by rewrite Ef|done|].
    split; [done|]. split; [exists b0, h0; split; rewrite ?Em; done|]. unfold abs. by rewrite Em.
  - intros e s' (Hb & k & Hl & Ef).
    destruct (disk_append b0 h0 (manifest s) (files s) (files s') (take k values) Hd Hl Ef) as (Hd' & Ea & Hlt).
    { rewrite Ef. rewrite <- (take_drop k values), app_assoc in Hc'. by apply chained_app in Hc' as [Hc' _]. }
    { by apply Forall_take. }
    by eapply (broken_hurt _ _ calm true s s b0 h0).
Qed.

(** ** Publishing a snapshot *)

Lemma publish_ok s m values :
  good s → 0 <= m_base m → chained (m_base m) (base_hash m) values → Forall (λ v, frame_ok v = true) values →
  m_base m <= committed m + 1 <= m_base m + Z.of_nat (length values) →
  let c := mk_chain (m_base m) (base_hash m) (m_epoch m) (committed m) values in
  later (abs s) c → outcome false (publish size_of m values) (Ok (c, tt)) s.
Proof.
  intros Hg H0 Hc Hf Hcm c Hlt. pose proof Hg as (b0 & h0 & Hlv). pose proof Hlv as [Hd Hfl _ _ _].
  assert (∀ fs, laid (m_base m) fs → flat fs = values → disk_ok (m_base m) (base_hash m) m fs ∧ absd m fs = c) as Hnew.
  { intros fs Hl <-. split; [split; try done; [lia|lia|by rewrite Z.sub_diag]|]. unfold absd, c. f_equal. apply filter_all.
    intros v [i Hi]%list_elem_of_lookup. rewrite (chained_lookup _ _ _ _ _ _ Hc Hi). lia. }
  apply outcome_disk, wp_bind. unfold wp at 1.
  set (t0 := mk_log m [] [] (m_base m) false (segment_bytes s) (faults s)).
  assert (wp (do* _ := disk (λ _ s, s) in append_prepared size_of values)
    (λ _ t, faults t `suffix_of` faults s ∧ store (m_base m) (m_base m) t ∧ flat (files t) = values)
    (λ e t, e = OSError ∧ faults t `suffix_of` faults s ∧ faults s ≠ []) t0) as Ht.
  { apply wp_bind. unfold wp at 1. destruct (disk_cases (λ _ s, s) t0) as [->|[Hne [f ->]]]; [|by split_and!; [|apply suffix_tail|]].
    eapply wp_mono; [apply (append_cases (m_base m) (m_base m) _ (base_hash m)); [split; cbn; first [done|by constructor|rewrite flat_nil; simpl; lia]|cbn; lia|done]| |].
    - intros [] t (Hs & _ & Hst & E). split_and!; [etrans; [exact Hs|apply suffix_tail]|done|done].
    - intros e t ((-> & _ & _ & _ & Hs & Hne) & _). split_and!; [done|etrans; [exact Hs|apply suffix_tail]|].
      eapply suffix_nonempty; [|exact Hne]. apply suffix_tail. }
  unfold wp in Ht. fold t0.
  destruct ((do* _ := disk (λ _ s, s) in append_prepared size_of values) t0) as [t [[]|e]].
  2: { destruct Ht as (-> & Hs & Hne). split_and!; try done. split; try done. { by exists b0, h0. } { apply later_refl. } }
  destruct Ht as (Hs & [S1 S2 S3 S4 S5] & E). destruct (Hnew _ S1 E) as [Hd' Ea].
  apply wp_bind. unfold wp at 1.
  pose proof (atomically_cases (λ _, (m, files t)) (set_faults s (faults t)) ltac:(done)) as Hc3. cbn [fst snd] in Hc3.
  destruct (atomically _ _) as [s3 [[]|e]].
  - destruct Hc3 as [E3 Hs3]. unfold wp. cbn. unfold done_as. cbn. split_and!; [by etrans| |].
    + exists (m_base m), (base_hash m). rewrite E3. split; cbn; done.
    + rewrite <- Ea. rewrite E3. done.
  - destruct Hc3 as [Hc3|Hc3]; [eapply (broken_hurt _ _ calm false s); [exact Hs|exact Hd'|by rewrite Ea|done|exact Hc3]|].
    eapply (broken_hurt _ _ calm false s); [exact Hs|exact Hd|apply later_refl|done|exact Hc3].
Qed.
End retain.
