(* ===== verification/BrokerLogProps.v ===== *)
(** * A broker refines the committed chain

    Requests are answered as Chain.v says, and whatever steps on the disk fail,
    nothing committed is lost: the theorems on all histories of a partition. *)
From S2P Require Import Prelude PyList PyDict Checks Effects Messages BrokerLog BrokerLogInv Chain BrokerLogSteps BrokerLogRetain.
Local Open Scope Z_scope.

Section methods.
Context (digest : string → Rec → string) (size_of : Value → Z) (calm : Prop).
Local Notation chained := (Messages.chained digest).
Local Notation frame_ok := (BrokerLog.frame_ok digest size_of).
Local Notation live := (BrokerLogInv.live digest size_of).
Local Notation later := (Chain.later digest).
Local Notation good := (BrokerLogSteps.good digest size_of).
Local Notation sound := (BrokerLogSteps.sound digest size_of).
Local Notation hurt := (BrokerLogSteps.hurt digest size_of calm).
Local Notation outcome := (BrokerLogSteps.outcome digest size_of calm).
Local Notation chain_ok := (Chain.chain_ok digest size_of).

(** ** Composition *)

Lemma guard_ltb a b e : guard (a <=? b) e = raise_if (b <? a) e (Ok tt).
Proof. unfold guard. by rewrite Z.leb_antisym, negb_involutive. Qed.

Lemma guard_negb b e : guard b e = raise_if (negb b) e (Ok tt).
Proof. done. Qed.

Lemma outcome_hash {A} up o h e (k : Effects.M PartitionLog A) spec s :
  good s → integer o (-1) MAX_INT = true →
  (agrees (c_hash_at o (abs s)) h = true → outcome up k (spec tt) s) →
  outcome up (do* x := reading (hash_at o) in do* _ := check (bool_decide (x = Some h)) e in k)
    (rbind (guard (agrees (c_hash_at o (abs s)) h) e) spec) s.
Proof.
  intros Hg Hi Hk. pose proof (good_hash_at _ _ s o Hg) as Hh. rewrite Hi in Hh. cbn [negb raise_if] in Hh.
  change (rbind (guard (agrees (c_hash_at o (abs s)) h) e) spec)
    with (rbind (Ok (c_hash_at o (abs s))) (λ x, rbind (guard (bool_decide (x = Some h)) e) spec)).
  rewrite <- Hh. apply outcome_reading; [done|]. intros x Hx. rewrite Hh in Hx. injection Hx as <-.
  apply (outcome_check _ _ _ _ _ _ (λ _, k)); [done|exact Hk].
Qed.

Lemma outcome_then {A} up (m : Effects.M PartitionLog unit) (k : Effects.M PartitionLog A) (r : result Chain) spec s :
  outcome up m (let* c := r in Ok (c, tt)) s →
  (∀ s1, good s1 → r = Ok (abs s1) → faults s1 `suffix_of` faults s →
     outcome up k (spec (abs s1)) s1 ∧ (∃ x, spec (abs s1) = Ok x) ∧
     (∀ s2, hurt up (abs s1) s2 → hurt up (abs s) s2)) →
  outcome up (do* _ := m in k) (let* c := r in spec c) s.
Proof.
  intros Hm Hk. unfold outcome, mbind in *. destruct (m s) as [s1 [[]|e]].
  - destruct Hm as (Hs & Hg & E). destruct r as [c|]; [|done]. cbn in E. injection E as ->.
    destruct (Hk s1 Hg eq_refl Hs) as (Hk1 & [x Hx] & Hh). cbn [rbind]. destruct (k s1) as [s2 [a|e]].
    + destruct Hk1 as (Hs2 & Hg2 & E2). split_and!; [by etrans|done|done].
    + destruct Hk1 as (Hs2 & [(_ & _ & E2)|(Hne & -> & H2)]); [congruence|]. split; [by etrans|]. right.
      split; [by eapply suffix_nonempty|]. split; [done|by apply Hh].
  - destruct Hm as (Hs & [(Hg & Ea & E)|Hh]); (split; [done|]); [left|by right]. split_and!; [done|done|].
    destruct r; [done|]. cbn in E |- *. congruence.
Qed.

Lemma hurt_trans c1 c2 s : later c1 c2 → c_base c1 <= c_base c2 → hurt true c2 s → hurt true c1 s.
Proof.
  intros Hl Hb [H1 H2 H3 H4]. specialize (H4 eq_refl). split; try done; [|lia]. eapply later_trans_base; [|done|done]. lia.
Qed.

(** ** The methods *)

Lemma rbind_assoc {A B C} (m : result A) (f : A → result B) (g : B → result C) : rbind (rbind m f) g = rbind m (λ a, rbind (f a) g).
Proof. by destruct m. Qed.

Lemma align_ok s epoch cm ch :
  good s → (calm → whole s cm (files (align digest size_of epoch cm ch s).1)) →
  outcome true (align digest size_of epoch cm ch) (let* c := chain_align epoch cm ch (abs s) in Ok (c, tt)) s.
Proof.
  intros Hg Hw. assert (align digest size_of epoch cm ch = serialized (
    do* _ := check (integer epoch 0 MAX_INT && integer cm (-1) MAX_INT) ValueError in
    do* _ := reading (λ s, raise_if (epoch <? m_epoch (manifest s)) (StatusError 409) (Ok tt)) in
    do* _ := reading (λ s, raise_if (cm <? committed (manifest s)) (StatusError 409) (Ok tt)) in
    do* h := reading (hash_at cm) in
    do* _ := check (bool_decide (h = Some ch)) (StatusError 409) in
    marking (align_disk digest size_of epoch cm))) as Ealign by done.
  rewrite Ealign. apply outcome_serialized; [done|]. unfold chain_align. rewrite !guard_ltb, rbind_assoc.
  apply outcome_check; [done|]. intros Hi. pose proof Hi as [_ Hic]%andb_true_iff. rewrite rbind_assoc.
  apply (outcome_reading _ _ calm true (λ s, raise_if (epoch <? m_epoch (manifest s)) (StatusError 409) (Ok tt))); [done|].
  intros [] He. rewrite rbind_assoc.
  apply (outcome_reading _ _ calm true (λ s, raise_if (cm <? committed (manifest s)) (StatusError 409) (Ok tt))); [done|].
  intros [] Hc. rewrite rbind_assoc.
  apply outcome_hash; [done|done|]. intros Ha%agrees_Some. pose proof (c_hash_at_range _ _ _ Ha) as Hr.
  destruct (raise_if_Ok _ _ _ _ He) as [He' _]. destruct (raise_if_Ok _ _ _ _ Hc) as [Hc' _].
  apply align_disk_ok; try done; [lia..|]. intros Hcalm. specialize (Hw Hcalm).
  replace (files (align_disk digest size_of epoch cm s).1) with (files (align digest size_of epoch cm ch s).1); [done|].
  rewrite Ealign. unfold serialized, check, guard, mlift, mbind, reading. rewrite (good_failed _ _ _ Hg). cbn [raise_if].
  rewrite Hi, He, Hc, (good_hash_at _ _ s), Hic by done. cbn [negb raise_if].
  rewrite Ha, bool_decide_eq_true_2 by done. cbn [negb raise_if]. unfold marking. destruct (align_disk _ _ _ _ s) as [s1 [x|x]]; [done|by case_bool_decide].
Qed.

Lemma retain_ok s base bh :
  good s → outcome true (retain digest size_of base bh) (let* c := chain_retain base bh (abs s) in Ok (c, tt)) s.
Proof.
  intros Hg. unfold retain. apply outcome_serialized; [done|]. unfold chain_retain. rewrite rbind_assoc.
  apply outcome_check; [done|]. intros [Hi%integer_spec _]%andb_true_iff. rewrite rbind_assoc, guard_negb, <- (good_next _ _ s) by done.
  apply (outcome_reading _ _ calm true (λ s, raise_if (negb (integer base (m_base (manifest s)) (next_offset s))) (StatusError 409) (Ok tt))); [done|].
  intros _ [Hb%negb_false_iff%integer_spec _]%raise_if_Ok. rewrite rbind_assoc.
  apply outcome_hash; [done|apply integer_spec; unfold MAX_INT in *; lia|]. intros Ha%agrees_Some.
  apply retain_disk_ok; [done|lia|done].
Qed.

Lemma scan_ok s : good s → outcome true (scan digest size_of) (Ok (abs s, tt)) s.
Proof.
  intros Hg. apply outcome_serialized; [done|]. apply outcome_marking. pose proof Hg as (b0 & h0 & Hlv). pose proof Hlv as [Hd Hf _ _ _].
  apply (wp_scan _ _ calm true s s b0 h0 (manifest s) (files s)); try done; [|apply later_refl]. split; [by destruct s|done].
Qed.

(** ** Synchronisation *)

Lemma synchronize_ok s epoch cm ch base bh values :
  good s → (calm → whole s cm (files (align digest size_of epoch cm ch s).1)) →
  outcome true (synchronize digest size_of epoch cm ch base bh values)
    (let* c := chain_sync digest size_of epoch cm ch base bh values (abs s) in Ok (c, tt)) s.
Proof.
  intros Hg Hshort. unfold synchronize. apply outcome_serialized; [done|]. unfold chain_sync. rewrite rbind_assoc.
  apply outcome_check; [done|]. intros [[[_ Ei]%andb_true_iff _]%andb_true_iff Eh]%andb_true_iff. rewrite rbind_assoc.
  apply outcome_lift; [done|]. intros vs (-> & Hf & Hv)%prepare_ok. rewrite rbind_assoc, guard_negb.
  apply (outcome_reading _ _ calm true (λ s, raise_if (negb (integer base (m_base (manifest s)) (cm + 1))) (StatusError 409) (Ok tt))); [done|].
  intros _ [Hb%negb_false_iff%integer_spec _]%raise_if_Ok. rewrite rbind_assoc.
  apply outcome_hash; [done|apply integer_spec; apply integer_spec in Ei; unfold MAX_INT in *; lia|]. intros Hbh%agrees_Some.
  rewrite rbind_assoc. apply outcome_then; [by apply align_ok|]. intros s1 Hg1 Ea Hs1.
  pose proof (good_ok _ _ _ Hg) as Hok. pose proof (good_ok _ _ _ Hg1) as Hok1.
  destruct (chain_align_ok _ _ _ _ _ _ _ Hok Ea) as (Ec & _ & Hl1 & Hn & Hl & Hcm).
  destruct (sync_retain _ _ _ _ _ _ _ _ _ Hok Ei Eh Hb Hbh Ea) as [Hr Hlast].
  destruct (chain_retain_ok _ _ _ _ _ _ Hok1 Hr) as (Hok2 & Hl2 & _ & Hn2).
  assert (c_base (abs s1) = c_base (abs s)) as Eb by (by rewrite Ec).
  split; [|split; [by eexists|intros s2; apply hurt_trans; [done|lia]]].
  set (c2 := mk_chain base bh epoch cm (drop (Z.to_nat (base - c_base (abs s))) (c_values (abs s1)))) in *.
  assert (outcome true (do* b := reading (λ s, Ok (m_base (manifest s))) in if b <? base then retain digest size_of base bh else mret tt)
    (let* c := Ok c2 in Ok (c, tt)) s1) as Hret.
  { apply (outcome_reading _ _ calm true (λ s, Ok (m_base (manifest s))) _ (λ _, Ok (c2, tt))); [done|]. intros _ [= <-].
    destruct (m_base (manifest s1) <? base) eqn:E.
    { change (Ok (c2, ())) with (let* c := Ok c2 in Ok (c, ())). rewrite <- Hr. by apply retain_ok. }
    assert (c2 = abs s1) as ->; [|by split_and!]. subst c2. change (m_base (manifest s1)) with (c_base (abs s1)) in E.
    change (m_base (manifest s)) with (c_base (abs s)) in Hb.
    assert (base = c_base (abs s)) as -> by lia. rewrite (c_hash_at_last digest size_of) in Hbh by (done || lia).
    replace (Z.to_nat _) with O in Hbh by lia. injection Hbh as <-. rewrite Z.sub_diag. rewrite Ec. done. }
  assert ((do* b := reading (λ s, Ok (m_base (manifest s))) in do* _ := (if b <? base then retain digest size_of base bh else mret tt) in
     append_prepared size_of values) = (do* _ := (do* b := reading (λ s, Ok (m_base (manifest s))) in
        if b <? base then retain digest size_of base bh else mret tt) in append_prepared size_of values)) as -> by done.
  apply (outcome_spec _ _ _ _ _ (let* c := Ok c2 in Ok (chain_append values c, tt))).
  { cbn [rbind]. do 3 f_equal. subst c2. by rewrite Ec. }
  apply (outcome_then _ _ _ _ (λ c, Ok (chain_append values c, tt))); [done|]. intros s2 Hg2 E Hs2.
  assert (c2 = abs s2) as E2 by congruence.
  split; [|split; [by eexists|]].
  - apply append_prepared_ok; [done| |done]. rewrite (good_next _ _ s2 Hg2), <- E2, Hn2, Hn. subst c2. cbn [c_hash c_values]. by rewrite Hlast.
  - intros s3. rewrite <- E2. apply hurt_trans; [done|]. change (c_base (abs s1) <= base). rewrite Eb. apply Hb.
Qed.

(** ** Snapshots *)

Lemma hashes_get n h vs d o :
  chained n h vs →
  dget o (foldl (λ d v, dset (v_offset v) (hash v) d) d vs) =
    if (n <=? o) && (o <? n + Z.of_nat (length vs)) then hash <$> vs !! Z.to_nat (o - n) else dget o d.
Proof.
  revert n h d. induction vs as [|v vs IH]; intros n h d Hc.
  - cbn [foldl length]. destruct (Z.leb_spec n o), (Z.ltb_spec o (n + Z.of_nat 0)); try done; lia.
  - destruct Hc as (Ho & _ & _ & Hc). cbn [foldl]. rewrite (IH _ _ _ Hc), Ho, dget_dset. cbn [length].
    destruct (decide (n = o)) as [->|Hne].
    + replace (o + 1 <=? o) with false by lia. replace (o <=? o) with true by lia.
      destruct (Z.ltb_spec o (o + Z.of_nat (S (length vs)))); [|lia]. rewrite Z.sub_diag. done.
    + destruct (n <=? o) eqn:E1.
      * replace (n + 1 <=? o) with true by lia. replace (n + Z.of_nat (S (length vs))) with (n + 1 + Z.of_nat (length vs)) by lia.
        replace (Z.to_nat (o - n)) with (S (Z.to_nat (o - (n + 1)))) by lia. done.
      * by replace (n + 1 <=? o) with false by lia.
Qed.

Lemma install_hashes base bh e c vs o :
  chained base bh vs →
  dget o (foldl (λ d v, dset (v_offset v) (hash v) d) [(base - 1, bh)] vs) = c_hash_at o (mk_chain base bh e c vs).
Proof.
  intros Hc. rewrite (hashes_get base bh) by done. unfold c_hash_at. cbn.
  destruct (o =? base - 1) eqn:E1.
  - replace (base <=? o) with false by lia. cbn. rewrite decide_True by lia. done.
  - rewrite decide_False by lia. destruct (base <=? o) eqn:E2; [|done]. cbn.
    destruct (o <? _) eqn:E3; [done|]. symmetry. apply fmap_None, lookup_ge_None. lia.
Qed.

Lemma guard_true b e : b = true → guard b e = Ok tt.
Proof. by intros ->. Qed.

Lemma install_ok s values base bh epoch cm ch :
  good s →
  outcome false (install digest size_of values base bh epoch cm ch)
    (let* c := chain_install digest size_of values base bh epoch cm ch (abs s) in Ok (c, tt)) s.
Proof.
  intros Hg. unfold install. apply outcome_serialized; [done|].
  assert (∀ c', chain_install digest size_of values base bh epoch cm ch (abs s) = Ok c' → chain_ok c' ∧ later (abs s) c') as Hlt
    by (intros c'; apply chain_install_ok; by apply good_ok).
  unfold chain_install in *. rewrite rbind_assoc.
  apply outcome_check; [done|]. intros Hi. rewrite (guard_true _ _ Hi) in Hlt. cbn [rbind] in Hlt. rewrite rbind_assoc.
  rewrite guard_ltb in Hlt |- *.
  apply (outcome_reading _ _ calm false (λ s, raise_if (epoch <? m_epoch (manifest s)) (StatusError 409) (Ok tt))); [done|].
  intros [] He. cbv beta in He. change (c_epoch (abs s)) with (m_epoch (manifest s)) in Hlt. rewrite He in Hlt. cbn [rbind] in Hlt.
  rewrite rbind_assoc. apply outcome_lift; [done|]. intros vs Hp. rewrite Hp in Hlt. cbn [rbind] in Hlt.
  destruct (prepare_ok _ _ _ _ _ _ Hp) as (-> & Hf & Hv). cbv zeta. rewrite rbind_assoc.
  apply outcome_check; [done|]. intros Hck. rewrite (guard_true _ _ Hck) in Hlt. cbn [rbind] in Hlt. rewrite rbind_assoc.
  rewrite (install_hashes base bh epoch (default (base - 1) cm)) by done.
  assert (∀ (b : bool) e, raise_if (negb b) e (Ok tt) = guard b e) as Hgd by done.
  set (c1 := mk_chain base bh epoch (default (base - 1) cm) values) in *.
  match goal with |- outcome _ (mbind (mlift ?r) _) (rbind ?r' _) _ => assert (r = r') as -> end.
  { destruct (c_hash_at _ c1) as [h|]; [|done]. destruct ch as [x|]; [|done]. unfold guard. by destruct (hash_ok x). }
  apply outcome_lift; [done|]. intros [] Hm. rewrite Hm in Hlt. cbn [rbind] in Hlt. rewrite rbind_assoc, guard_ltb.
  apply (outcome_reading _ _ calm false (λ s, raise_if (default (base - 1) cm <? committed (manifest s)) (StatusError 409) (Ok tt))); [done|].
  intros [] Hcm. rewrite guard_ltb in Hlt. change (c_committed (abs s)) with (committed (manifest s)) in Hlt. rewrite Hcm in Hlt.
  cbn [rbind] in Hlt. rewrite rbind_assoc.
  match goal with |- outcome _ (mbind (reading ?f) _) (rbind ?r _) _ => assert (f s = r) as Hfr end.
  { cbv beta. rewrite (install_hashes base bh epoch (default (base - 1) cm)) by done. fold c1.
    change (c_committed (abs s)) with (committed (manifest s)).
    destruct (c_hash_at (committed (manifest s)) c1) as [h|]; [|done].
    rewrite (good_hash_at _ _ s) by done. pose proof (good_ok _ _ _ Hg) as [_ _ Hb [Hc _]]. change (c_committed (abs s)) with (committed (manifest s)) in Hc.
    apply raise_if_Ok in Hcm as [Hcm _]. apply integer_spec in Hck.
    replace (integer (committed (manifest s)) (-1) MAX_INT) with true by (symmetry; apply integer_spec; lia). done. }
  change (committed (manifest s)) with (c_committed (abs s)) in Hlt.
  rewrite <- Hfr in Hlt |- *. apply outcome_reading; [done|]. intros [] Hfo. rewrite Hfo in Hlt. cbn [rbind] in Hlt.
  destruct (Hlt _ eq_refl) as [[H1 H2 H3 H4] Hl].
  apply (publish_ok _ _ calm s (mk_manifest base bh epoch (default (base - 1) cm))); try done. unfold c_next in H4. cbn in *. lia.
Qed.

(** ** Reading *)

Lemma live_row b0 h0 s o :
  live b0 h0 s → m_base (manifest s) <= o < next_offset s →
  ∃ v e seg, c_values (abs s) !! Z.to_nat (o - m_base (manifest s)) = Some v ∧ dget o (entries s) = Some e ∧
    dget (e_path e) (files s) = Some seg ∧ frame_at size_of (e_position e) (frames seg) = Some v ∧
    frame_ok v = true ∧ e_size e = frame_size size_of v ∧ e_hash e = hash v.
Proof.
  intros [Hd Hf Hi Hen Hnx] Ho. pose proof Hd as [Hl Hc Hfr _ Hb _ _]. rewrite Hnx in Ho.
  destruct (lookup_lt_is_Some_2 (rows size_of (files s)) (Z.to_nat (o - b0))) as [r Hr]; [rewrite rows_length; lia|].
  destruct (rows_split _ _ _ _ Hr) as (A & seg & B & j & Hfs & _ & Hv & Hpos).
  assert (flat (files s) !! Z.to_nat (o - b0) = Some r.2) as Hfl by (rewrite <- (rows_values size_of), list_lookup_fmap, Hr; done).
  exists r.2, (entry size_of r.1.1 r.1.2 r.2), seg. unfold abs. rewrite (absd_values digest size_of b0 h0) by done.
  rewrite lookup_drop. replace (Z.to_nat (m_base (manifest s) - b0) + Z.to_nat (o - m_base (manifest s)))%nat with (Z.to_nat (o - b0)) by lia.
  split_and!; try done.
  - rewrite Hen, (index_get digest size_of b0 h0) by (rewrite ?rows_values; done || lia).
    replace (m_base (manifest s) <=? o) with true by lia. by rewrite Hr.
  - cbn. apply dget_Some; [by eapply laid_dict|]. rewrite Hfs. apply elem_of_app. right. by left.
  - cbn. rewrite Hpos. eapply frame_at_lookup; [|done]. rewrite Hfs, flat_app, flat_cons in Hfr.
    by apply Forall_app in Hfr as [_ [Hfr _]%Forall_app].
  - eapply Forall_forall in Hfr; [done|]. by eapply list_elem_of_lookup_2.
Qed.

Lemma read_from_ok b0 h0 s n number total :
  live b0 h0 s → m_base (manifest s) <= number → (n ≠ O → number + Z.of_nat n <= next_offset s) →
  read_from digest size_of n number total s =
    (s, Ok (budget size_of total (take n (drop (Z.to_nat (number - m_base (manifest s))) (c_values (abs s)))))).
Proof.
  intros Hlv. revert number total. induction n as [|n IH]; intros number total Hb Hn; [done|].
  destruct (live_row b0 h0 s number Hlv) as (v & e & seg & Hv & He & Hp & Hfa & Hok & Hsz & Hh); [specialize (Hn ltac:(done)); lia|].
  rewrite (drop_S _ _ _ Hv). cbn [take budget read_from]. unfold mbind at 1, reading, dlookup. rewrite He, Hsz. cbv beta iota.
  destruct (MAX_BATCH_BYTES <? _); [done|]. unfold mbind at 1. rewrite Hp, Hfa, Hok, Z.eqb_refl, bool_decide_eq_true_2 by done.
  unfold mbind at 1. cbn [andb]. rewrite IH by (try lia; intros _; specialize (Hn ltac:(done)); lia). replace (Z.to_nat (number + 1 - m_base (manifest s))) with (S (Z.to_nat (number - m_base (manifest s)))) by lia.
  done.
Qed.

Lemma read_ok s offset limit :
  good s → outcome true (read digest size_of offset limit) (let* vs := chain_read size_of offset limit (abs s) in Ok (abs s, vs)) s.
Proof.
  intros Hg. pose proof Hg as (b0 & h0 & Hlv). apply outcome_serialized; [done|]. unfold chain_read. rewrite rbind_assoc.
  apply outcome_check; [done|]. intros [Ho%integer_spec Hl%integer_spec]%andb_true_iff. rewrite rbind_assoc, guard_ltb.
  apply (outcome_reading _ _ calm true (λ s, raise_if (offset <? m_base (manifest s)) (StatusError 410) (Ok tt))); [done|].
  intros _ [Hb _]%raise_if_Ok. cbn [rbind]. unfold outcome, mbind at 1. pose proof (suffix_tail (faults s)) as Hs.
  assert (live b0 h0 (set_faults s (tail (faults s)))) as Hlv1 by (destruct Hlv; by split).
  destruct (disk_cases (λ _ s, s) s) as [->|[Hne [f ->]]].
  - unfold mbind, reading. cbv beta iota.
    set (s1 := set_faults s (tail (faults s))) in *. pose proof (good_next _ _ s Hg) as Hnx.
    rewrite (read_from_ok b0 h0 s1) by (try done; change (next_offset s1) with (next_offset s); change (manifest s1) with (manifest s); lia).
    split_and!; [done|by exists b0, h0|]. do 3 f_equal. change (next_offset s1) with (next_offset s). rewrite Hnx. done.
  - split; [done|]. right. split_and!; try done. split; try done; [|apply later_refl]. exists b0, h0. by destruct Hlv.
Qed.

(** ** Requests *)

(** The alignment of a synchronisation does not stop between the first and the last
    of the files it removes. *)
Definition undivided (s : PartitionLog) (r : Request) : Prop :=
  match r with
  | Sync epoch cm ch _ _ _ => whole s cm (files (align digest size_of epoch cm ch s).1)
  | _ => True
  end.

Lemma next_bound c : chain_ok c → c_base c <= MAX_INT → integer (c_next c - 1) (-1) MAX_INT = true.
Proof.
  intros [H1 H2 H3 H4] Hb. apply integer_spec. split; [lia|]. unfold c_next.
  destruct (c_values c) as [|v vs _] using rev_ind; [simpl length; lia|].
  apply Forall_app in H2 as [_ [Hv _]%Forall_cons]. apply chained_app in H1 as [_ (Ho & _)].
  unfold BrokerLog.frame_ok, value_ok in Hv. apply andb_true_iff in Hv as [_ [[[Hv%integer_spec _]%andb_true_iff _]%andb_true_iff _]%andb_true_iff].
  rewrite length_app. simpl length. lia.
Qed.

Lemma tail_reply_ok s :
  good s → c_base (abs s) <= MAX_INT →
  outcome true tail_reply (Ok (abs s, Tail (c_next (abs s)) (c_hash_at (c_next (abs s) - 1) (abs s)))) s.
Proof.
  intros Hg Hb. unfold outcome, tail_reply, reading. rewrite (good_next _ _ s Hg), (good_hash_at _ _ s) by done.
  rewrite (next_bound _ (good_ok _ _ _ Hg)) by done. cbn [negb raise_if rbind]. by split_and!.
Qed.

Lemma outcome_up {A} (m : Effects.M PartitionLog A) spec s : outcome true m spec s → outcome false m spec s.
Proof.
  unfold BrokerLogSteps.outcome. destruct (m s) as [s' [a|e]]; [done|]. intros [H1 [H2|(H3 & H4 & [F1 F2 F3 F4])]]; split; try done; [by left|right].
  by split_and!.
Qed.

Lemma chain_sync_base epoch cm ch base bh vs c c' : chain_sync digest size_of epoch cm ch base bh vs c = Ok c' → c_base c' <= MAX_INT.
Proof.
  unfold chain_sync. intros [[[[_ E%integer_spec]%andb_true_iff _]%andb_true_iff _]%andb_true_iff H]%guard_bind.
  destruct (prepare _ _ _ _ _); [|done]. cbn [rbind] in H. apply guard_bind in H as [_ H]. apply guard_bind in H as [_ H].
  destruct (chain_align _ _ _ _); [|done]. cbn in H. injection H as <-. cbn. lia.
Qed.

Lemma chain_install_base vs base bh epoch cm ch c c' : chain_install digest size_of vs base bh epoch cm ch c = Ok c' → c_base c' <= MAX_INT.
Proof.
  unfold chain_install. intros [[[E%integer_spec _]%andb_true_iff _]%andb_true_iff H]%guard_bind. apply guard_bind in H as [_ H].
  destruct (prepare _ _ _ _ _); [|done]. cbn [rbind] in H. apply guard_bind in H as [_ H].
  match type of H with rbind ?m _ = _ => destruct m as [[]|]; [|done] end. cbn [rbind] in H. apply guard_bind in H as [_ H].
  match type of H with rbind ?m _ = _ => destruct m as [[]|]; [|done] end. injection H as <-. cbn. lia.
Qed.

(** A step that keeps the chain, and what follows it. *)
Lemma outcome_quiet {A B} up (m : Effects.M PartitionLog B) (k : B → Effects.M PartitionLog A) (r : result B) (spec : B → result (Chain * A)) s :
  outcome up m (let* b := r in Ok (abs s, b)) s →
  (∀ s1 b, good s1 → abs s1 = abs s → outcome up (k b) (spec b) s1) →
  outcome up (do* b := m in k b) (let* b := r in spec b) s.
Proof.
  intros Hm Hk. unfold outcome, mbind in *. destruct (m s) as [s1 [b|e]].
  - destruct Hm as (Hs & Hg & E). destruct r as [b'|]; [|done]. cbn [rbind] in E |- *. injection E as Ea Eb Ec Ed Ee <-.
    assert (abs s1 = abs s) as Ha by (unfold abs, absd; congruence).
    specialize (Hk s1 b' Hg Ha). destruct (k b' s1) as [s2 [a|e]].
    + destruct Hk as (Hs2 & ? & ?). split_and!; [by etrans|done..].
    + destruct Hk as (Hs2 & [(? & ? & ?)|(Hne & ? & Hh)]); (split; [by etrans|]); [left; split_and!; congruence|right].
      rewrite Ha in Hh. split_and!; [by eapply suffix_nonempty|done..].
  - destruct Hm as (Hs & [(? & ? & E)|Hh]); (split; [done|]); [left|by right]. destruct r; [done|]. cbn in E |- *. split_and!; congruence.
Qed.

Lemma outcome_ret {A} up (a : A) s : good s → outcome up (mret a) (Ok (abs s, a)) s.
Proof. intros Hg. by split_and!. Qed.

(** A method that changes the chain, and the end of the log as the reply. *)
Lemma outcome_tail (m : Effects.M PartitionLog unit) (r : result Chain) s :
  outcome false m (let* c := r in Ok (c, tt)) s → (∀ c, r = Ok c → c_base c <= MAX_INT) →
  outcome false (do* _ := m in tail_reply) (let* c := r in Ok (c, Tail (c_next c) (c_hash_at (c_next c - 1) c))) s.
Proof.
  intros Hm Hb. unfold outcome, mbind in *. destruct (m s) as [s1 [[]|e]].
  - destruct Hm as (Hs & Hg & E). destruct r as [c|]; [|done]. cbn in E. injection E as ->.
    unfold tail_reply, reading. rewrite (good_next _ _ s1 Hg), (good_hash_at _ _ s1) by done.
    rewrite (next_bound _ (good_ok _ _ _ Hg)) by (by apply Hb). cbn [negb raise_if rbind]. by split_and!.
  - destruct Hm as (Hs & [(? & ? & E)|Hh]); (split; [done|]); [left|by right]. destruct r; [done|]. cbn in E |- *. split_and!; congruence.
Qed.

Theorem dispatch_ok s r :
  good s → (calm → undivided s r) → outcome false (dispatch digest size_of r) (chain_dispatch digest size_of r (abs s)) s.
Proof.
  intros Hg Ht. destruct r as [cm|offset limit|epoch cm ch base bh vs|vs base bh epoch cm ch|base bh]; cbn [dispatch chain_dispatch].
  - apply (outcome_quiet _ _ _ (Ok tt) (λ _, let* _ := guard (integer cm (-1) MAX_INT) ValueError in
      Ok (abs s, State (c_base (abs s)) (c_next (abs s)) (c_epoch (abs s)) (c_hash_at cm (abs s))))); [by apply outcome_up, scan_ok|].
    intros s1 _ Hg1 Ea. unfold outcome, reading. rewrite (good_hash_at _ _ s1), (good_next _ _ s1) by done. rewrite <- Ea. unfold guard.
    destruct (integer cm (-1) MAX_INT); cbn [negb raise_if rbind]; [by split_and!|]. split; [done|]. left. by split_and!.
  - apply outcome_quiet; [by apply outcome_up, read_ok|]. intros s1 vs Hg1 <-. by apply outcome_ret.
  - apply outcome_tail; [by apply outcome_up, synchronize_ok|]. intros c. apply chain_sync_base.
  - apply outcome_tail; [by apply install_ok|]. intros c. apply chain_install_base.
  - apply outcome_up. apply outcome_then; [by apply retain_ok|]. intros s1 Hg1 Er Hs1.
    pose proof (chain_retain_ok _ _ _ _ _ _ (good_ok _ _ _ Hg) Er) as (_ & Hl & Eb & _).
    split; [|split; [by eexists|intros s2; apply hurt_trans; [done|]]].
    + unfold outcome, reading. split_and!; [done|done|]. by rewrite <- Eb.
    + unfold chain_retain in Er. apply guard_bind in Er as [_ Er]. apply guard_bind in Er as [Er%integer_spec _]. rewrite Eb. lia.
Qed.

End methods.

(** ** Histories *)

Section histories.
Context (digest : string → Rec → string) (size_of : Value → Z).
Local Notation later := (Chain.later digest).
Local Notation good := (BrokerLogSteps.good digest size_of).
Local Notation sound := (BrokerLogSteps.sound digest size_of).
Local Notation undivided := (undivided digest size_of).

(** The states of a partition under requests and restarts, each with its faults; no
    alignment so far divided the files it removes. *)
Inductive reached (segment_bytes : Z) : PartitionLog → Prop :=
| reached_new : reached segment_bytes (new_log segment_bytes)
| reached_request s fl r :
    reached segment_bytes s → undivided (set_faults s fl) r → reached segment_bytes (dispatch digest size_of r (set_faults s fl)).1
| reached_reopen s fl : reached segment_bytes s → reached segment_bytes (reopen digest size_of (set_faults s fl)).1.

Lemma new_good sb : good (new_log sb).
Proof.
  exists 0, ZERO. split; [by split|done|by constructor|done|done].
Qed.

Lemma good_faults s fl : good s → good (set_faults s fl).
Proof. intros (b0 & h0 & []). exists b0, h0. by split. Qed.

(** An object after a failed step refuses everything. *)
Lemma dispatch_failed s r : failed s = true → dispatch digest size_of r s = (s, Raise Corruption).
Proof.
  intros Hf. destruct r; cbn [dispatch]; unfold mbind, scan, read, synchronize, install, retain, serialized, mbind, reading; by rewrite Hf.
Qed.

Lemma reopen_cases s :
  sound s →
  match reopen digest size_of s with
  | (s', Ok _) => good s' ∧ abs s' = abs s
  | (s', Raise e) => faults s ≠ [] ∧ e = OSError ∧ failed s' = true ∧ sound s' ∧ abs s' = abs s
  end.
Proof.
  intros (b0 & h0 & Hd). unfold reopen, marking.
  pose proof (scan_quiet_ok digest size_of b0 h0 (set_failed s false) Hd eq_refl) as H.
  destruct (scan_quiet digest size_of (set_failed s false)) as [s' [[]|e]].
  - destruct H as (Hl & Em & Ef & _). split; [by exists b0, h0|]. unfold abs, absd. rewrite Em, Ef. cbn [set_failed manifest files]. by rewrite flat_untorn.
  - destruct H as (-> & Hf & Em & Ef & _ & Hne). cbn. split_and!; try done.
    + exists b0, h0. cbn. by rewrite Em, Ef.
    + unfold abs, absd. cbn. by rewrite Em, Ef.
Qed.

Lemma reached_ok sb s : reached sb s → sound s ∧ (failed s = false → good s).
Proof.
  induction 1 as [|s fl r _ [IHs IHg] Ht|s fl _ [IHs IHg]].
  - pose proof (new_good sb). split; [by apply good_sound|done].
  - destruct (failed s) eqn:Ef.
    + rewrite dispatch_failed by done. cbn. split; [done|]. congruence.
    + pose proof (dispatch_ok digest size_of True _ r (good_faults s fl (IHg eq_refl)) (λ _, Ht)) as H. unfold outcome in H.
      destruct (dispatch digest size_of r (set_faults s fl)) as [s' [a|e]]; cbn [fst].
      * destruct H as (_ & Hg & _). split; [by apply good_sound|done].
      * destruct H as (_ & [(Hg & _)|(_ & _ & [H1 H2 _ _])]); [split; [by apply good_sound|done]|]. split; [by apply H2|]. congruence.
  - pose proof (reopen_cases (set_faults s fl) IHs) as H.
    destruct (reopen digest size_of (set_faults s fl)) as [s' [[]|e]]; cbn [fst].
    + destruct H as [Hg _]. split; [by apply good_sound|done].
    + destruct H as (_ & _ & Hf & Hs & _). split; [done|]. congruence.
Qed.


(** After any such history a restart on a working disk gives a usable object
    with the same chain. *)
Theorem broker_recovers sb s :
  reached sb s → ∃ s', reopen digest size_of (set_faults s []) = (s', Ok tt) ∧ failed s' = false ∧ abs s' = abs s.
Proof.
  intros [Hs _]%reached_ok. pose proof (reopen_cases (set_faults s []) Hs) as H.
  destruct (reopen digest size_of (set_faults s [])) as [s' [[]|e]].
  - destruct H as [Hg Ea]. exists s'. split_and!; [done| |done]. by eapply good_failed.
  - by destruct H as (? & _).
Qed.

(** Requests on a working disk, and the same requests on the chain. *)
Fixpoint run_broker (s : PartitionLog) (rs : list Request) : list (result Reply) :=
  match rs with
  | [] => []
  | r :: rs' => let (s', rep) := dispatch digest size_of r (set_faults s []) in rep :: run_broker s' rs'
  end.
Fixpoint run_chain (c : Chain) (rs : list Request) : list (result Reply) :=
  match rs with
  | [] => []
  | r :: rs' => match chain_dispatch digest size_of r c with
                | Ok (c', rep) => Ok rep :: run_chain c' rs'
                | Raise e => Raise e :: run_chain c rs'
                end
  end.

(** C28: on a working disk every sequence of requests is answered as by the chain:
    the segment files, the index of entries and the scans cannot be observed. *)
Theorem broker_refines_chain sb rs : run_broker (new_log sb) rs = run_chain (mk_chain 0 ZERO 0 (-1) []) rs.
Proof.
  change (mk_chain 0 ZERO 0 (-1) []) with (abs (new_log sb)). generalize (new_good sb). generalize (new_log sb).
  induction rs as [|r rs IH]; intros s Hg; [done|]. cbn [run_broker run_chain].
  pose proof (dispatch_ok digest size_of False (set_faults s []) r (good_faults s [] Hg) ltac:(done)) as H. unfold outcome in H.
  change (abs (set_faults s [])) with (abs s) in H.
  destruct (dispatch digest size_of r (set_faults s [])) as [s' [a|e]].
  - destruct H as (_ & Hg' & ->). by rewrite IH.
  - destruct H as (_ & [(Hg' & Ea & ->)|(? & _)]); [|done]. rewrite IH by done. by rewrite Ea.
Qed.
End histories.

(** ** Witnesses *)

Module Demo.
Definition digest (previous : string) (r : Rec) : string := ZERO.
Definition size_of (v : Value) : Z := 100.
Definition value (o : Z) : Value := envelope digest (mk_rec o 0 "p" 0 0 None "x" 0 []) ZERO.
Definition batch (from : Z) (n : nat) : list Value := map (λ i, value (from + Z.of_nat i)) (seq 0 n).
Definition run (r : Request) (s : PartitionLog) (fl : list Fault) : PartitionLog * result Reply :=
  dispatch digest size_of r (set_faults s fl).

(** [n] records, two in a file; and the alignment to the first record. *)
Definition fill (n : nat) : Request := Sync 0 (-1) ZERO 0 ZERO (batch 0 n).
Definition filled (n : nat) : PartitionLog := (run (fill n) (new_log 256) []).1.
Definition trim : Request := Sync 1 0 ZERO 0 ZERO (batch 1 1).
End Demo.

Lemma demo_filled n : reached Demo.digest Demo.size_of 256 (Demo.filled n).
Proof. apply reached_request; [apply reached_new|]. intros e. vm_compute. discriminate. Qed.
Lemma demo_trim : undivided Demo.digest Demo.size_of (set_faults (Demo.filled 3) [None; Some (1%nat, false)]) Demo.trim.
Proof. intros e. vm_compute. intros [= <-]. by left. Qed.


Lemma broker_recovers_witness :
  let s := (Demo.run Demo.trim (Demo.filled 3) [None; Some (1%nat, false)]).1 in
  failed s = true ∧
  ∃ s', reopen Demo.digest Demo.size_of (set_faults s []) = (s', Ok tt) ∧ failed s' = false ∧ abs s' = abs s.
Proof.
  split; [by vm_compute|].
  apply (broker_recovers Demo.digest Demo.size_of 256 (Demo.run Demo.trim (Demo.filled 3) [None; Some (1%nat, false)]).1).
  apply reached_request; [apply demo_filled|exact demo_trim].
Defined.

(** The files behind the truncated one are removed from the first on.  If that fails
    in between, the frames on the disk have a gap, and no restart succeeds. *)
Theorem align_crash_leaves_gap :
  let s := (Demo.run Demo.trim (Demo.filled 6) [None; None; Some (0%nat, false)]).1 in
  failed s = true ∧ v_offset <$> flat (files s) = [0; 1; 4; 5] ∧
  (reopen Demo.digest Demo.size_of (set_faults s [])).2 = Raise Corruption.
Proof. by vm_compute. Qed.
