(* ===== verification/QueueState.v ===== *)
(** * The metadata of the message queue's coordinator

    Models the tables of coordinator_schema.py and the topics, partitions and
    producers of coordinator.py, in src/distributed-message-queue/src/message_queue.

    The database is a record of tables, each a dictionary by its primary key; an SQL
    transaction that raises leaves the tables as they were.  The rows of the table [records]
    of a partition are the part of [log] from [floor] on, of which only offset, hash,
    timestamp and size are stored: retention deletes rows by raising [floor].  The
    envelopes themselves, and those below [floor], are read by no operation; statements on
    what is stored are about [records] and [record_at].  [world] is what
    the coordinator reaches by its calls: the brokers and the network. *)
From S2P Require Import Prelude PyList PyDict Checks Effects Messages BrokerLog.
Local Open Scope Z_scope.

Definition PartKey : Type := string * Z.
Definition Identity : Type := string * Z.
Definition GroupKey : Type := string * string.

Record Topic := mk_topic { t_partitions : Z; t_retention : Z; t_max_bytes : Z; t_segment_bytes : Z }.
Record Part := mk_part {
  p_leader : string;
  p_epoch : Z;
  hwm : Z;
  floor : Z;
  p_base_hash : string;
  log : list Value;
}.

(** A batch waiting for its quorum: of a producer, with the fingerprint of its
    messages, or an output of a transaction. *)
Inductive Origin :=
| Produced (producer : string) (epoch sequence : Z) (fingerprint : string)
| Staged (txid : string).
#[export] Instance origin_eq_dec : EqDecision Origin.
Proof. solve_decision. Defined.
Record Pending := mk_pending { origin : Origin; values : list Value }.

Record Receipt := mk_receipt {
  rc_topic : string;
  rc_partition : Z;
  rc_offsets : list Z;
  rc_committed : bool;
  rc_replicas : list string;
}.

Record Member := mk_member { m_session : string; m_expires : Z }.

Record TxResponse := mk_response { x_outputs : list Receipt; x_next : Z }.

Section state.
Context {W : Type}.

Record Queue := mk_queue {
  topics : dict string Topic;
  parts : dict PartKey Part;
  producers : dict string Z;
  sequences : dict (Identity * PartKey) Z;
  receipts : dict (Identity * PartKey * Z) (string * Receipt);
  pending : dict PartKey Pending;
  groups : dict GroupKey Z;
  members : dict (GroupKey * string) Member;
  cursors : dict (GroupKey * Z) Z;
  delivered : dict (GroupKey * Z) (Z * Z);
  transactions : dict string (string * TxResponse);
  retention_pending : dict (PartKey * string) (Z * string);
  world : W;
}.

Definition set_parts (q : Queue) x : Queue :=
  mk_queue (topics q) x (producers q) (sequences q) (receipts q) (pending q) (groups q) (members q) (cursors q)
    (delivered q) (transactions q) (retention_pending q) (world q).
Definition set_topics (q : Queue) x : Queue :=
  mk_queue x (parts q) (producers q) (sequences q) (receipts q) (pending q) (groups q) (members q) (cursors q)
    (delivered q) (transactions q) (retention_pending q) (world q).
Definition set_producers (q : Queue) x : Queue :=
  mk_queue (topics q) (parts q) x (sequences q) (receipts q) (pending q) (groups q) (members q) (cursors q)
    (delivered q) (transactions q) (retention_pending q) (world q).
Definition set_pending (q : Queue) x : Queue :=
  mk_queue (topics q) (parts q) (producers q) (sequences q) (receipts q) x (groups q) (members q) (cursors q)
    (delivered q) (transactions q) (retention_pending q) (world q).
Definition set_receipts (q : Queue) x y : Queue :=
  mk_queue (topics q) (parts q) (producers q) x y (pending q) (groups q) (members q) (cursors q)
    (delivered q) (transactions q) (retention_pending q) (world q).
Definition set_groups (q : Queue) g m d : Queue :=
  mk_queue (topics q) (parts q) (producers q) (sequences q) (receipts q) (pending q) g m (cursors q)
    d (transactions q) (retention_pending q) (world q).
Definition set_cursor (q : Queue) k n : Queue :=
  mk_queue (topics q) (parts q) (producers q) (sequences q) (receipts q) (pending q) (groups q) (members q)
    (dset k n (cursors q)) (delivered q) (transactions q) (retention_pending q) (world q).
Definition set_transactions (q : Queue) x : Queue :=
  mk_queue (topics q) (parts q) (producers q) (sequences q) (receipts q) (pending q) (groups q) (members q) (cursors q)
    (delivered q) x (retention_pending q) (world q).
Definition set_retention (q : Queue) x : Queue :=
  mk_queue (topics q) (parts q) (producers q) (sequences q) (receipts q) (pending q) (groups q) (members q) (cursors q)
    (delivered q) (transactions q) x (world q).
Definition set_world (q : Queue) x : Queue :=
  mk_queue (topics q) (parts q) (producers q) (sequences q) (receipts q) (pending q) (groups q) (members q) (cursors q)
    (delivered q) (transactions q) (retention_pending q) x.

Definition empty_queue (w : W) : Queue := mk_queue [] [] [] [] [] [] [] [] [] [] [] [] w.

(** [INSERT INTO]: a duplicate key is refused. *)
Definition tinsert {K V} `{EqDecision K} (k : K) (v : V) (d : dict K V) : result (dict K V) :=
  raise_if (dmem k d) IntegrityError (Ok (dset k v d)).

(** ** Transactions *)

Local Notation M := (Effects.M Queue).

(** [with self.transaction()] *)
Definition transaction {A} (tx : Queue → result (Queue * A)) : M A :=
  λ q, match tx q with Ok (q', a) => (q', Ok a) | Raise e => (q, Raise e) end.
(** [with self.transaction(write=False)] *)
Definition query {A} (f : Queue → result A) : M A := λ q, (q, f q).
Definition require (b : bool) : M unit := mlift (raise_if (negb b) ValueError (Ok tt)).

(** [except (Error, OSError, ValueError, KeyError, TypeError): pass] *)
Definition caught (e : exn) : bool :=
  match e with StatusError _ | OSError | ValueError | KeyError | TypeError => true | _ => false end.
Definition attempt {A} (m : M A) : M (option A) := λ q,
  match m q with
  | (q', Ok a) => (q', Ok (Some a))
  | (q', Raise e) => if caught e then (q', Ok None) else (q', Raise e)
  end.

(** ** Topics and partitions *)

Definition topic (q : Queue) (t : string) : result Topic :=
  raise_if (negb (name t)) ValueError (
  match dget t (topics q) with Some r => Ok r | None => Raise (StatusError 404) end).
Definition part (q : Queue) (k : PartKey) : result Part :=
  let* _ := topic q k.1 in
  raise_if (negb (integer k.2 0 63)) ValueError (
  match dget k (parts q) with Some r => Ok r | None => Raise (StatusError 404) end).

(** The rows of the table [records]. *)
Definition records (pt : Part) : list Value := drop (Z.to_nat (floor pt)) (log pt).
Definition record_at (pt : Part) (o : Z) : option Value := if o <? floor pt then None else log pt !! Z.to_nat o.

Definition expected_hash (pt : Part) : result string :=
  if hwm pt <? floor pt then Ok (p_base_hash pt)
  else match record_at pt (hwm pt) with Some v => Ok (hash v) | None => Raise TypeError end.

Context (nodes : list string).

(** [INSERT INTO parts] for each partition number. *)
Fixpoint insert_parts (t : string) (ps : list Z) (d : dict PartKey Part) : result (dict PartKey Part) :=
  match ps with
  | [] => Ok d
  | p :: ps' =>
      let leader := default "" (nodes !! Z.to_nat (p mod Z.of_nat (length nodes))) in
      let* d := tinsert (t, p) (mk_part leader 0 (-1) 0 ZERO []) d in insert_parts t ps' d
  end.

Definition create (t : string) (partitions retention max_bytes segment_bytes : Z) (q : Queue) : result (Queue * unit) :=
  raise_if (negb (name t)) ValueError (
  raise_if (negb (integer partitions 1 64)) ValueError (
  raise_if (negb (integer max_bytes 1024 (16 * 1024 * 1024))) ValueError (
  raise_if (negb (integer segment_bytes 256 (16 * 1024 * 1024))) ValueError (
  raise_if (negb (integer retention (second / 1000) (365 * 86400 * second))) ValueError (
  raise_if (dmem t (topics q)) (StatusError 409) (
  let* ps := insert_parts t (seqZ 0 partitions) (parts q) in
  Ok (set_parts (set_topics q (dset t (mk_topic partitions retention max_bytes segment_bytes) (topics q))) ps, tt))))))).

Definition producer_open (producer : string) (q : Queue) : result (Queue * Z) :=
  raise_if (negb (name producer)) ValueError (
  let epoch := match dget producer (producers q) with Some e => e + 1 | None => 0 end in
  Ok (set_producers q (dset producer epoch (producers q)), epoch)).

(** The constructor on an existing database: output stages of transactions that were
    not finished are abandoned. *)
Definition initialize (q : Queue) : Queue :=
  set_pending q (filter (λ x, match origin x.2 with Staged _ => false | Produced _ _ _ _ => true end = true)
                   (pending q : list (PartKey * Pending))).
End state.
Arguments Queue : clear implicits.
