(* ===== verification/QueueGroups.v ===== *)
(** * Consumer groups: members, generations and assignments

    Models the membership part of coordinator_groups.py of
    src/distributed-message-queue/src/message_queue.

    Every change of the members of a group, and of the partitions of its topic,
    starts a new generation and forgets what was delivered in the old one.  These
    operations take no lock of a partition: [Event]s happen between the steps of the
    others.  A transaction reads the clock once; the session of a joining member (a
    random UUID) is an argument. *)
From S2P Require Import Prelude PyList PyDict Checks Effects Messages BrokerLog QueueState.
Local Open Scope Z_scope.

Section groups.
Context {W : Type} (nodes : list string) (lease : Z).
Local Notation Queue := (QueueState.Queue W).
Implicit Types q : Queue.

(** [UPDATE groups SET generation=generation+1]. *)
Definition bump (g : GroupKey) (d : dict GroupKey Z) : dict GroupKey Z :=
  match dget g d with Some n => dset g (n + 1) d | None => d end.

(** Generation and delivery bounds of a group start anew. *)
Definition rebalance q (g : GroupKey) (ms : dict (GroupKey * string) Member) : Queue :=
  set_groups q (bump g (groups q)) ms (filter (λ x, x.1.1 ≠ g) (delivered q : list (GroupKey * Z * (Z * Z)))).

Definition expired (g : GroupKey) (now : Z) (x : GroupKey * string * Member) : bool :=
  bool_decide (x.1.1 = g) && (m_expires x.2 <=? now).
Definition expire q (g : GroupKey) (now : Z) : Queue :=
  let rows := (members q : list (GroupKey * string * Member)) in
  if existsb (expired g now) rows then rebalance q g (filter (λ x, expired g now x = false) rows) else q.

Definition member_ids q (g : GroupKey) : list string :=
  py_sorted (map (λ x, x.1.2) (filter (λ x, x.1.1 = g) (members q : list (GroupKey * string * Member)))).
Definition assigned (ids : list string) (partitions : Z) (member : string) : list Z :=
  filter (λ p, ids !! Z.to_nat (p mod Z.of_nat (length ids)) = Some member) (seqZ 0 partitions).

Record Membership := mk_membership { generation : Z; assignments : list Z }.

Definition check_optional (x : option Z) (lo hi : Z) : bool := match x with Some n => integer n lo hi | None => true end.

Definition membership (t g member sess : string) (gen partition : option Z) (now : Z) q : result (Queue * Membership) :=
  raise_if (negb (name t && name g && name member && name sess)) ValueError (
  raise_if (negb (check_optional gen 0 MAX_INT)) ValueError (
  raise_if (negb (check_optional partition 0 63)) ValueError (
  let q := expire q (t, g) now in
  match dget (t, g) (groups q), dget (t, g, member) (members q) with
  | Some n, Some row =>
      raise_if (negb (bool_decide (m_session row = sess))) (StatusError 409) (
      raise_if (match gen with Some m => negb (n =? m) | None => false end) (StatusError 409) (
      let* options := topic q t in
      let owned := assigned (member_ids q (t, g)) (t_partitions options) member in
      raise_if (match partition with Some p => negb (bool_decide (p ∈ owned)) | None => false end) (StatusError 409)
        (Ok (q, mk_membership n owned))))
  | _, _ => Raise (StatusError 409)
  end))).

Definition join (t g member sess : string) (now : Z) q : result (Queue * Membership) :=
  raise_if (negb (name g && name member)) ValueError (
  let* _ := topic q t in
  let q := if dmem (t, g) (groups q) then q
           else set_groups q (dset (t, g) 0 (groups q)) (members q) (delivered q) in
  let q := expire q (t, g) now in
  let q := rebalance q (t, g) (dset (t, g, member) (mk_member sess (now + lease)) (members q)) in
  membership t g member sess None None now q).

Definition heartbeat (t g member sess : string) (now : Z) q : result (Queue * Membership) :=
  let* r := membership t g member sess None None now q in
  let q := r.1 in
  Ok (set_groups q (groups q) (match dget (t, g, member) (members q) with
                               | Some row => dset (t, g, member) (mk_member (m_session row) (now + lease)) (members q)
                               | None => members q
                               end) (delivered q), r.2).

Definition leave (t g member sess : string) (now : Z) q : result (Queue * Z) :=
  let* r := membership t g member sess None None now q in
  let q := r.1 in
  let q := rebalance q (t, g) (ddel (t, g, member) (members q)) in
  let* n := dlookup (t, g) (groups q) in Ok (q, n).

Definition expand (t : string) (partitions : Z) q : result (Queue * Z) :=
  raise_if (negb (integer partitions 1 64)) ValueError (
  let* options := topic q t in
  let old := t_partitions options in
  raise_if (partitions <=? old) (StatusError 409) (
  let* ps := insert_parts nodes t (seqZ old (partitions - old)) (parts q) in
  let q := set_parts (set_topics q (dset t (mk_topic partitions (t_retention options) (t_max_bytes options) (t_segment_bytes options)) (topics q))) ps in
  Ok (set_groups q (map (λ x, (x.1, if bool_decide (x.1.1 = t) then x.2 + 1 else x.2)) (groups q)) (members q)
        (filter (λ x, x.1.1.1 ≠ t) (delivered q : list (GroupKey * Z * (Z * Z)))), old))).

(** What happens without the lock of a partition. *)
Inductive Event :=
| Create (t : string) (partitions retention max_bytes segment_bytes : Z)
| Join (t g member sess : string) (now : Z)
| Heartbeat (t g member sess : string) (now : Z)
| Leave (t g member sess : string) (now : Z)
| Expand (t : string) (partitions : Z).

(** A transaction that raises changes nothing. *)
Definition keep {A} q (r : result (Queue * A)) : Queue := match r with Ok (q', _) => q' | Raise _ => q end.

Definition event q (e : Event) : Queue :=
  match e with
  | Create t n r b s => keep q (create nodes t n r b s q)
  | Join t g m s now => keep q (join t g m s now q)
  | Heartbeat t g m s now => keep q (heartbeat t g m s now q)
  | Leave t g m s now => keep q (leave t g m s now q)
  | Expand t n => keep q (expand t n q)
  end.
Definition meanwhile (es : list Event) : Effects.M Queue unit := λ q, (foldl event q es, Ok tt).

Definition cursor q (g : GroupKey) (p : Z) : Z := dget_or 0 (g, p) (cursors q).
End groups.
