(* ===== verification/QueueReplication.v ===== *)
(** * Replication of a partition to its brokers

    Models coordinator_replication.py of
    src/distributed-message-queue/src/message_queue: the choice of a leader that
    holds the committed prefix, pages checked against the metadata, and batches
    that a quorum of brokers confirms.

    [rpc node key request] is the call of a broker over the network: an arbitrary
    function of the outside world [W], so what is proved here holds for brokers that
    fail, lie or answer late.  QueueCluster.v has the one of the brokers of BrokerLog.v. *)
From S2P Require Import Prelude PyList PyDict Checks Effects Messages BrokerLog QueueState.
Local Open Scope Z_scope.

Section replication.
Context {W : Type} (rpc : string → PartKey → Request → W → W * result Reply).
Context (digest : string → Rec → string) (size_of : Value → Z) (nodes : list string).
Local Notation Queue := (QueueState.Queue W).
Local Notation M := (Effects.M Queue).

Definition call (node : string) (k : PartKey) (r : Request) : M Reply :=
  λ q, let (w, a) := rpc node k r (world q) in (set_world q w, a).

Definition eligible (state : Reply) (pt : Part) (expected : string) : bool :=
  match state with
  | State base next _ h =>
      bool_decide (h = Some expected) && integer base 0 (floor pt) && (hwm pt + 1 <=? next)
  | _ => false
  end.

Definition others (leader : string) : list string := filter (λ n, n ≠ leader) nodes.

(** The loop of [_leader]: the present leader, or those that could replace it. *)
Fixpoint candidates (k : PartKey) (pt : Part) (expected : string) (ns : list string) : M (option string * list string) :=
  match ns with
  | [] => mret (None, [])
  | n :: ns' =>
      do* state := attempt (call n k (Status (hwm pt))) in
      let ok := match state with Some r => eligible r pt expected | None => false end in
      if ok && bool_decide (n = p_leader pt) then mret (Some n, [])
      else do* r := candidates k pt expected ns' in mret (r.1, if ok then n :: r.2 else r.2)
  end.

Definition leader (k : PartKey) : M (Part * string * string) :=
  do* r := query (λ q, let* pt := part q k in let* h := expected_hash pt in Ok (pt, h)) in
  let '(pt, expected) := r in
  do* found := candidates k pt expected (p_leader pt :: others (p_leader pt)) in
  match found with
  | (Some n, _) => mret (pt, n, expected)
  | (None, cs) =>
      match py_sorted cs with
      | [] => mraise (StatusError 503)
      | n :: _ =>
          do* pt := transaction (λ q,
            let* pt := part q k in
            let q := set_parts q (dset k (mk_part n (p_epoch pt + 1) (hwm pt) (floor pt) (p_base_hash pt) (log pt)) (parts q)) in
            let* pt := part q k in Ok (q, pt)) in
          mret (pt, n, expected)
      end
  end.

(** The comparison of a page with the rows of the metadata. *)
Definition verified (value row : Value) : bool :=
  (v_offset value =? v_offset row) && bool_decide (hash value = hash row)
  && bool_decide (envelope digest (record value) (previous value) = value).

Definition read_replica (k : PartKey) (pt : Part) (leader : string) (offset limit : Z) : M (list Value) :=
  do* reply := call leader k (Read offset limit) in
  match reply with
  | Records values =>
      let count := Z.of_nat (length values) in
      if negb (integer count 1 limit) then mraise (StatusError 503) else
      do* rows := query (λ q, Ok (match dget k (parts q) with
        | Some pt => filter (λ v, offset <= v_offset v < offset + count) (QueueState.records pt)
        | None => []
        end)) in
      if negb (Z.of_nat (length rows) =? count) then mraise (StatusError 503) else
      if forallb (λ x, verified x.1 x.2) (zip values rows) then mret values else mraise (StatusError 503)
  | _ => mraise KeyError
  end.

Definition batch_bytes (vs : list Value) : Z := zsum (frame_size size_of) vs.

(** The retained prefix, page by page; [fuel] pages are enough for as many records. *)
Fixpoint retained_from (fuel : nat) (k : PartKey) (pt : Part) (leader : string) (offset bytes count : Z) : M (list Value) :=
  if hwm pt <? offset then mret [] else
  match fuel with
  | O => mraise OutOfFuel
  | S fuel' =>
      do* page := read_replica k pt leader offset (Z.min 500 (hwm pt - offset + 1)) in
      let bytes := bytes + batch_bytes page in
      let count := count + Z.of_nat (length page) in
      if (MAX_BATCH_BYTES <? bytes) || (MAX_BATCH_RECORDS <? count) then mraise (StatusError 503)
      else do* vs := retained_from fuel' k pt leader (offset + Z.of_nat (length page)) bytes count in mret (page ++ vs)
  end.
Definition retained (k : PartKey) (pt : Part) (leader : string) (pending : list Value) : M (list Value) :=
  retained_from (Z.to_nat (hwm pt - floor pt + 1)) k pt leader (floor pt) (batch_bytes pending) (Z.of_nat (length pending)).

(** A snapshot is read once, if it is needed. *)
Inductive Snapshot := NotRead | Taken (vs : list Value) | Unavailable.

Definition confirms (result : Reply) (values : list Value) : bool :=
  match result, last values with
  | Tail next h, Some v => bool_decide (h = Some (hash v)) && (next =? v_offset v + 1)
  | _, _ => false
  end.

(** One node of the loop of [_replicate]: whether it holds the batch now. *)
Definition synchronise (k : PartKey) (pt : Part) (leader expected : string) (values : list Value) (node : string)
    (snapshot : Snapshot) : M (bool * Snapshot) :=
  let install vs := Install (vs ++ values) (floor pt) (p_base_hash pt) (p_epoch pt) (Some (hwm pt)) (Some expected) in
  let answer snapshot m := do* r := attempt m in
    mret (match r with Some x => confirms x values | None => false end, snapshot) in
  do* state := attempt (call node k (Status (hwm pt))) in
  match state with
  | None => mret (false, snapshot)
  | Some r =>
      if eligible r pt expected
      then answer snapshot (call node k (Sync (p_epoch pt) (hwm pt) expected (floor pt) (p_base_hash pt) values))
      else
        match snapshot with
        | Taken vs => answer snapshot (call node k (install vs))
        | Unavailable => mret (false, snapshot)
        | NotRead =>
            do* s := attempt (retained k pt leader values) in
            match s with
            | Some vs => answer (Taken vs) (call node k (install vs))
            | None => mret (false, Unavailable)
            end
        end
  end.

Fixpoint synchronise_all (k : PartKey) (pt : Part) (leader expected : string) (values : list Value) (leader_only : bool)
    (ns : list string) (snapshot : Snapshot) : M (list string * bool) :=
  match ns with
  | [] => mret ([], false)
  | n :: ns' =>
      do* r := synchronise k pt leader expected values n snapshot in
      if r.1 && leader_only && bool_decide (n = leader) then mret ([n], true)
      else do* rest := synchronise_all k pt leader expected values leader_only ns' r.2 in
           mret (if r.1 then n :: rest.1 else rest.1, rest.2)
  end.

Definition quorum : Z := Z.of_nat (length nodes) / 2 + 1.

Definition replicate (k : PartKey) (values : list Value) (leader_only : bool) : M (list string) :=
  do* l := leader k in
  let '(pt, node, expected) := l in
  do* r := synchronise_all k pt node expected values leader_only (node :: others node) NotRead in
  let '(synced, returned) := r in
  if returned then mret synced
  else if Z.of_nat (length synced) <? quorum then mraise (StatusError 503)
  else if leader_only && negb (bool_decide (node ∈ synced)) then mraise (StatusError 503)
  else mret synced.
End replication.
