(* ===== verification/QueueCoordinator.v ===== *)
(** * The coordinator of the message queue

    Models coordinator.py, the cursors of coordinator_groups.py and
    coordinator_retention.py of src/distributed-message-queue/src/message_queue:
    producing with sequences and receipts, fetching, delivery to groups, transactions
    of outputs and an input cursor, retention and maintenance.

    An operation on a partition holds its lock over several short transactions, with
    calls of brokers in between; the operations that check the membership twice take
    the [Event]s in between and the clock after them as arguments; otherwise an operation
    reads the clock once.  Waiting for records and the locks are left out: one operation
    of a partition runs after the other.  [nodes] are the sorted names of the brokers. *)
From S2P Require Import Prelude PyList PyDict Checks Effects Messages BrokerLog QueueState QueueGroups QueueReplication.
Local Open Scope Z_scope.

Record Output := mk_output { o_topic : string; o_partition : Z; o_messages : list Message }.
Record Source := mk_source {
  s_topic : string;
  s_group : string;
  s_member : string;
  s_session : string;
  s_generation : Z;
  s_partition : Z;
}.
Definition o_key (o : Output) : PartKey := (o_topic o, o_partition o).
Definition s_key (s : Source) : GroupKey := (s_topic s, s_group s).

Record Fetched := mk_fetched { f_records : list Rec; next_offset : Z }.

Section coordinator.
Context {W : Type} (rpc : string → PartKey → Request → W → W * result Reply).
Context (digest : string → Rec → string) (size_of : Value → Z) (nodes : list string) (lease : Z).
Context (fingerprint : list Message → string) (tx_hash : Source → Z → Z → list Output → string) (crc : string → Z).
Local Notation Queue := (QueueState.Queue W).
Local Notation M := (Effects.M Queue).
Local Notation replicate := (QueueReplication.replicate rpc digest size_of nodes).
Implicit Types q : Queue.

(** ** Producing *)

Definition due (now : Z) (m : Message) : Z :=
  match m_delivery m with Some (DeliverAt t) => t | Some (DelaySeconds t) => now + t | None => now end.

Fixpoint link (previous : string) (rs : list Rec) : list Value :=
  match rs with [] => [] | r :: rs' => let v := envelope digest r previous in v :: link (hash v) rs' end.

(** [_values] *)
Definition new_records (pt : Part) (ms : list Message) (producer : string) (epoch sequence now : Z) : list Rec :=
  imap (λ i m, mk_rec (hwm pt + 1 + Z.of_nat i) now producer epoch sequence (key m) (m_value m) (due now m) (tags m)) ms.
Definition new_values (pt : Part) (ms : list Message) (producer : string) (epoch sequence now : Z) : result (list Value) :=
  let* previous := expected_hash pt in Ok (link previous (new_records pt ms producer epoch sequence now)).

(** [_finalize] *)
Definition finalize (k : PartKey) (pend : Pending) (synced : list string) q : result (Queue * Receipt) :=
  match last (values pend) with
  | None => Raise IndexError
  | Some v =>
      let ps := match dget k (parts q) with
                | Some pt => dset k (mk_part (p_leader pt) (p_epoch pt) (v_offset v) (floor pt) (p_base_hash pt) (log pt ++ values pend)) (parts q)
                | None => parts q
                end in
      let response := mk_receipt k.1 k.2 (map v_offset (values pend)) true synced in
      let q := set_parts q ps in
      let* q := match origin pend with
                | Produced producer epoch sequence h =>
                    let i := ((producer, epoch), k) in
                    let* rs := tinsert (i, sequence) (h, response) (receipts q) in
                    Ok (set_receipts q (dset i sequence (sequences q)) rs)
                | Staged _ => Ok q
                end in
      Ok (set_pending q (ddel k (pending q)), response)
  end.

Definition flush (k : PartKey) : M (option Receipt) :=
  do* row := query (λ q, Ok (dget k (pending q))) in
  match row with
  | None => mret None
  | Some pend =>
      match origin pend with
      | Staged _ => mraise (StatusError 409)
      | Produced _ _ _ _ =>
          do* synced := replicate k (values pend) false in
          do* r := transaction (finalize k pend synced) in
          mret (Some r)
      end
  end.

(** The answer to a producer that only asks for the leader. *)
Definition provisional (k : PartKey) (vs : list Value) : M (option Receipt) :=
  do* _ := replicate k vs true in mret (Some (mk_receipt k.1 k.2 (map v_offset vs) false [])).

Definition insert_pending (k : PartKey) (pend : Pending) : M unit :=
  transaction (λ q, let* d := tinsert k pend (pending q) in Ok (set_pending q d, tt)).

(** The end of [_produce], for a sequence without receipt and pending batch. *)
Definition produce_new (k : PartKey) (producer : string) (epoch sequence : Z) (ms : list Message) (leader_only : bool) (now : Z)
    : M (option Receipt) :=
  do* vs := query (λ q,
    let* pt := part q k in
    let expected := match dget ((producer, epoch), k) (sequences q) with Some n => n + 1 | None => 0 end in
    raise_if (sequence <? expected) (StatusError 410) (
    raise_if (negb (sequence =? expected)) (StatusError 409) (
    new_values pt ms producer epoch sequence now))) in
  do* _ := insert_pending k (mk_pending (Produced producer epoch sequence (fingerprint ms)) vs) in
  if leader_only then provisional k vs else flush k.

Definition matches (pend : Pending) (producer : string) (epoch sequence : Z) : option string :=
  match origin pend with
  | Produced pr ep sq h => if bool_decide (pr = producer) && (ep =? epoch) && (sq =? sequence) then Some h else None
  | Staged _ => None
  end.

(** [_produce] *)
Definition produce_locked (k : PartKey) (producer : string) (epoch sequence : Z) (ms : list Message) (leader_only : bool) (now : Z)
    : M (option Receipt) :=
  do* seen := query (λ q,
    let* _ := part q k in
    raise_if (negb (bool_decide (dget producer (producers q) = Some epoch))) (StatusError 409) (
    match dget ((producer, epoch), k, sequence) (receipts q) with
    | Some (h, r) => raise_if (negb (bool_decide (h = fingerprint ms))) (StatusError 409) (Ok (inl r))
    | None => Ok (inr (dget k (pending q)))
    end)) in
  match seen with
  | inl r => mret (Some r)
  | inr None => produce_new k producer epoch sequence ms leader_only now
  | inr (Some pend) =>
      match matches pend producer epoch sequence with
      | Some h =>
          if negb (bool_decide (h = fingerprint ms)) then mraise (StatusError 409)
          else if leader_only then provisional k (values pend) else flush k
      | None => do* _ := flush k in produce_new k producer epoch sequence ms leader_only now
      end
  end.

(** The partition of a batch without an explicit one. *)
Definition implicit_partition (producer : string) (ms : list Message) (partitions : Z) : result Z :=
  match remove_dups (omap (λ m, (λ x, crc x mod partitions) <$> key m) ms) with
  | [] => Ok (crc producer mod partitions)
  | [p] => Ok p
  | _ => Raise ValueError
  end.

Definition produce (t producer : string) (epoch sequence : Z) (ms : list Message) (partition : option Z)
    (leader_only : bool) (now : Z) : M (option Receipt) :=
  do* _ := require (name producer && integer epoch 0 MAX_INT && integer sequence 0 MAX_INT) in
  do* ms := mlift (freeze_messages 100 ms) in
  do* p := query (λ q,
    let* options := topic q t in
    match partition with Some p => Ok p | None => implicit_partition producer ms (t_partitions options) end) in
  do* _ := require (integer p 0 63) in
  produce_locked (t, p) producer epoch sequence ms leader_only now.

(** ** Fetching *)

(** The loop over a page: it stops at the first record that is not due. *)
Fixpoint visible (filters : option (list string)) (now : Z) (vs : list Value) : list Rec * Z :=
  match vs with
  | [] => ([], 0)
  | v :: vs' =>
      if now <? not_before (record v) then ([], 0) else
      let (rs, n) := visible filters now vs' in
      (if match filters with None => true | Some f => existsb (λ x, bool_decide (x ∈ f)) (r_tags (record v)) end
       then record v :: rs else rs, n + 1)
  end.

(** [_fetch] *)
Definition fetch_page (k : PartKey) (offset limit : Z) (filters : option (list string)) (now : Z) : M Fetched :=
  do* _ := require (integer offset 0 MAX_INT && integer limit 1 1000) in
  do* pt := query (λ q, part q k) in
  if offset <? floor pt then mraise (StatusError 410)
  else if hwm pt + 1 <? offset then mraise (StatusError 416)
  else if offset =? hwm pt + 1 then mret (mk_fetched [] offset)
  else
    do* l := leader rpc nodes k in
    let '(pt, node, _) := l in
    do* vs := read_replica rpc digest k pt node offset (Z.min limit (hwm pt - offset + 1)) in
    let (rs, n) := visible filters now vs in
    mret (mk_fetched rs (offset + n)).

Definition fetch (t : string) (p offset limit : Z) (filter : option (list string)) (now : Z) : M Fetched :=
  do* _ := require (name t && integer p 0 63) in
  do* filters := mlift (tags_filter filter) in
  fetch_page (t, p) offset limit filters now.

(** One page of [group_fetch]; its result names the offset it started from. *)
Definition group_fetch (t g member sess : string) (generation p limit : Z) (at_most_once : bool)
    (filter : option (list string)) (now : Z) (between : list Event) (later : Z) : M (Z * Fetched) :=
  do* _ := require (name t && integer p 0 63) in
  do* filters := mlift (tags_filter filter) in
  do* _ := require (integer generation 0 MAX_INT) in
  do* offset := transaction (λ q,
    let* r := membership t g member sess (Some generation) (Some p) now q in Ok (r.1, cursor r.1 (t, g) p)) in
  do* page := fetch_page (t, p) offset limit filters now in
  do* _ := meanwhile nodes lease between in
  do* _ := transaction (λ q,
    let* r := membership t g member sess (Some generation) (Some p) later q in
    let q := r.1 in
    let old := match dget ((t, g), p) (delivered q) with Some (gen, n) => if gen =? generation then n else 0 | None => 0 end in
    let q := set_groups q (groups q) (members q) (dset ((t, g), p) (generation, Z.max (next_offset page) old) (delivered q)) in
    Ok (if at_most_once then set_cursor q ((t, g), p) (next_offset page) else q, tt)) in
  mret (offset, page).

(** ** Cursors *)

Definition validate_commit (src : Source) (next : Z) (expected : option Z) (now : Z) q : result Queue :=
  raise_if (negb (integer next 0 MAX_INT && integer (s_generation src) 0 MAX_INT)) ValueError (
  raise_if (negb (check_optional expected 0 MAX_INT)) ValueError (
  let* r := membership (s_topic src) (s_group src) (s_member src) (s_session src) (Some (s_generation src))
              (Some (s_partition src)) now q in
  let q := r.1 in
  let current := cursor q (s_key src) (s_partition src) in
  match dget (s_key src, s_partition src) (delivered q) with
  | Some (gen, bound) =>
      raise_if ((next <? current) || negb (gen =? s_generation src) || (bound <? next)
                || match expected with Some n => negb (n =? current) | None => false end) (StatusError 409) (Ok q)
  | None => Raise (StatusError 409)
  end)).

Definition commit (src : Source) (next now : Z) : M unit :=
  do* _ := require (name (s_topic src) && integer (s_partition src) 0 63) in
  transaction (λ q,
    let* q := validate_commit src next None now q in
    Ok (set_cursor q (s_key src, s_partition src) next, tt)).

Inductive Target := Earliest | Latest | Offset (n : Z).

Definition reset (src : Source) (target : Target) (now : Z) : M Z :=
  do* _ := require (name (s_topic src) && integer (s_partition src) 0 63 && integer (s_generation src) 0 MAX_INT) in
  transaction (λ q,
    let* r := membership (s_topic src) (s_group src) (s_member src) (s_session src) (Some (s_generation src))
                (Some (s_partition src)) now q in
    let q := r.1 in
    let* pt := part q (s_topic src, s_partition src) in
    let* n := match target with
              | Earliest => Ok (floor pt)
              | Latest => Ok (hwm pt + 1)
              | Offset n => raise_if (negb (integer n 0 MAX_INT)) ValueError (Ok n)
              end in
    raise_if (negb (integer n (floor pt) (hwm pt + 1))) (StatusError 416) (
    let q := set_cursor q (s_key src, s_partition src) n in
    Ok (set_groups q (groups q) (members q) (ddel (s_key src, s_partition src) (delivered q)), n))).

(** ** Transactions from an input cursor to outputs *)

Definition stage (txid : string) (o : Output) (now : Z) : M Pending :=
  do* _ := flush (o_key o) in
  do* vs := query (λ q, let* pt := part q (o_key o) in new_values pt (o_messages o) ("tx_" +:+ txid) 0 0 now) in
  let pend := mk_pending (Staged txid) vs in
  do* _ := insert_pending (o_key o) pend in
  mret pend.

(** The outputs are staged one after the other; what was staged before a failure is
    returned with it. *)
Fixpoint stage_all (txid : string) (os : list Output) (now : Z) (staged : list (Output * Pending)) (q : Queue)
    : Queue * (list (Output * Pending) * option exn) :=
  match os with
  | [] => (q, (staged, None))
  | o :: os' =>
      match stage txid o now q with
      | (q', Ok pend) => stage_all txid os' now (staged ++ [(o, pend)]) q'
      | (q', Raise e) => (q', (staged, Some e))
      end
  end.

Fixpoint replicate_all (l : list (Output * Pending)) : M (list (list string)) :=
  match l with
  | [] => mret []
  | (o, pend) :: l' => do* s := replicate (o_key o) (values pend) false in do* ss := replicate_all l' in mret (s :: ss)
  end.

Fixpoint finalize_all (l : list (Output * Pending * list string)) q : result (Queue * list Receipt) :=
  match l with
  | [] => Ok (q, [])
  | (o, pend, synced) :: l' =>
      let* r := finalize (o_key o) pend synced q in
      let* rs := finalize_all l' r.1 in Ok (rs.1, r.2 :: rs.2)
  end.

(** [DELETE FROM pending] of the stages of a failed transaction. *)
Definition unstage (txid : string) (staged : list (Output * Pending)) q : Queue :=
  set_pending q (foldl (λ d x,
    match dget (o_key x.1) d with
    | Some pend => if bool_decide (origin pend = Staged txid) then ddel (o_key x.1) d else d
    | None => d
    end) (pending q) staged).

Definition publish (txid : string) (src : Source) (expected next : Z) (outputs : list Output)
    (staged : list (Output * Pending)) (between : list Event) (later : Z) : M TxResponse :=
  do* synced := replicate_all staged in
  do* _ := meanwhile nodes lease between in
  transaction (λ q,
    let* q := validate_commit src next (Some expected) later q in
    let* r := finalize_all (zip staged synced) q in
    let q := set_cursor r.1 (s_key src, s_partition src) next in
    let response := mk_response r.2 next in
    let* txs := tinsert txid (tx_hash src expected next outputs, response) (transactions q) in
    Ok (set_transactions q txs, response)).

(** The checks of [process] before its locks. *)
Definition process_checks (txid : string) (src : Source) (expected next : Z) (outputs : list Output) : result unit :=
  raise_if (negb (name txid && integer expected 0 MAX_INT && integer next 0 MAX_INT)) ValueError (
  raise_if (negb (name (s_topic src) && name (s_group src) && name (s_member src) && name (s_session src))) ValueError (
  raise_if (negb (integer (s_generation src) 0 MAX_INT && integer (s_partition src) 0 63)) ValueError (
  raise_if (negb (integer (Z.of_nat (length outputs)) 1 10)) ValueError (
  let* _ := mapR (λ o, raise_if (negb (name (o_topic o) && integer (o_partition o) 0 63)) ValueError (
                       freeze_messages 100 (o_messages o))) outputs in
  raise_if (negb (bool_decide (NoDup (map o_key outputs)))) ValueError (Ok tt))))).

Definition process (txid : string) (src : Source) (expected next : Z) (outputs : list Output)
    (now : Z) (between : list Event) (later : Z) : M TxResponse :=
  do* _ := mlift (process_checks txid src expected next outputs) in
  do* replay := transaction (λ q,
    match dget txid (transactions q) with
    | Some (h, r) => raise_if (negb (bool_decide (h = tx_hash src expected next outputs))) (StatusError 409) (Ok (q, Some r))
    | None =>
        let* q := validate_commit src next (Some expected) now q in
        raise_if (next <=? expected) ValueError (Ok (q, None))
    end) in
  match replay with
  | Some r => mret r
  | None => λ q,
      let '(q, (staged, failure)) := stage_all txid outputs now [] q in
      match failure with
      | Some e => (unstage txid staged q, Raise e)
      | None =>
          match publish txid src expected next outputs staged between later q with
          | (q', Ok r) => (q', Ok r)
          | (q', Raise e) => (unstage txid staged q', Raise e)
          end
      end
  end.

(** ** Retention *)

Fixpoint expire_records (deadline max_bytes size fl : Z) (bh : string) (vs : list Value) : Z * string :=
  match vs with
  | [] => (fl, bh)
  | v :: vs' =>
      if (deadline <? r_timestamp (record v)) && (size <=? max_bytes) then (fl, bh)
      else expire_records deadline max_bytes (size - size_of v) (v_offset v + 1) (hash v) vs'
  end.

Definition retain_partition (k : PartKey) (options : Topic) (now : Z) q : result (Queue * unit) :=
  let* pt := part q k in
  let rows := records pt in
  let (fl, bh) := expire_records (now - t_retention options) (t_max_bytes options) (zsum size_of rows) (floor pt) (p_base_hash pt)
                    (take 4096 rows) in
  if fl <=? floor pt then Ok (q, tt)
  else
    let q := set_parts q (dset k (mk_part (p_leader pt) (p_epoch pt) (hwm pt) fl bh (log pt)) (parts q)) in
    let q := set_receipts q (sequences q)
          (filter (λ x, negb (bool_decide (x.1.1.2 = k) && (List.last (rc_offsets x.2.2) 0 <? fl)) = true)
             (receipts q : list (Identity * PartKey * Z * (string * Receipt)))) in
    Ok (set_retention q (foldl (λ d node, dset (k, node) (fl, bh) d) (retention_pending q) nodes), tt).

(** [_retry_retention]: one call for each row. *)
Fixpoint retry_rows (k : PartKey) (rows : list (PartKey * string * (Z * string))) : M unit :=
  match rows with
  | [] => mret tt
  | (_, node, (base, bh)) :: rows' =>
      do* _ := attempt (
        do* reply := call rpc node k (Retain base bh) in
        do* _ := match reply with Base b => require (base <=? b) | _ => mraise ValueError end in
        transaction (λ q, Ok (set_retention q (if bool_decide (dget (k, node) (retention_pending q) = Some (base, bh))
                                               then ddel (k, node) (retention_pending q) else retention_pending q), tt))) in
      retry_rows k rows'
  end.
Definition retry_retention (k : PartKey) : M unit :=
  do* rows := query (λ q, Ok (filter (λ x, x.1.1 = k) (retention_pending q : list (PartKey * string * (Z * string))))) in
  retry_rows k rows.

Fixpoint retain_all (t : string) (options : Topic) (now : Z → Z) (ps : list Z) : M unit :=
  match ps with
  | [] => mret tt
  | p :: ps' =>
      do* _ := transaction (retain_partition (t, p) options (now p)) in
      do* _ := retry_retention (t, p) in
      retain_all t options now ps'
  end.
Definition retain (t : string) (now : Z → Z) : M unit :=
  do* options := query (λ q, topic q t) in retain_all t options now (seqZ 0 (t_partitions options)).

(** ** Maintenance *)

Definition attempt_io (m : M unit) : M unit := λ q,
  match m q with
  | (q', Ok _) => (q', Ok tt)
  | (q', Raise e) => match e with StatusError _ | OSError | ValueError => (q', Ok tt) | _ => (q', Raise e) end
  end.

Fixpoint each {A} (f : A → M unit) (l : list A) : M unit :=
  match l with [] => mret tt | x :: l' => do* _ := f x in each f l' end.

Definition maintenance (now : Z → Z) : M unit :=
  do* rows := query (λ q, Ok (pending q : list (PartKey * Pending))) in
  do* ts := query (λ q, Ok (dkeys (topics q))) in
  do* _ := each (λ x, match origin x.2 with
                      | Staged _ => mret tt
                      | Produced _ _ _ _ => attempt_io (do* _ := flush x.1 in mret tt)
                      end) rows in
  each (λ t, attempt_io (retain t now)) ts.

(** ** Histories *)

Inductive Op :=
| OpenProducer (producer : string)
| Produce (t producer : string) (epoch sequence : Z) (ms : list Message) (partition : option Z) (leader_only : bool) (now : Z)
| Fetch (t : string) (p offset limit : Z) (filter : option (list string)) (now : Z)
| GroupFetch (t g member sess : string) (generation p limit : Z) (at_most_once : bool) (filter : option (list string))
    (now : Z) (between : list Event) (later : Z)
| Commit (src : Source) (next now : Z)
| Reset (src : Source) (target : Target) (now : Z)
| Process (txid : string) (src : Source) (expected next : Z) (outputs : list Output) (now : Z) (between : list Event) (later : Z)
| RetainTopic (t : string) (now : Z → Z)
| Maintain (now : Z → Z)
| Happen (e : Event)
| Restart.

Inductive Out :=
| Nothing
| Failure (e : exn)
| Appended (r : option Receipt)
| Page (page : Fetched)
| Delivered (offset : Z) (page : Fetched)
| Position (n : Z)
| Published (r : TxResponse).

Definition observe {A} (f : A → Out) (m : M A) q : Queue * Out :=
  match m q with (q', Ok a) => (q', f a) | (q', Raise e) => (q', Failure e) end.

Definition step q (op : Op) : Queue * Out :=
  match op with
  | OpenProducer pr => observe Position (transaction (producer_open pr)) q
  | Produce t pr ep sq ms p lo now => observe Appended (produce t pr ep sq ms p lo now) q
  | Fetch t p o l fs now => observe Page (fetch t p o l fs now) q
  | GroupFetch t g m s gen p limit amo fs now es later =>
      observe (λ r, Delivered r.1 r.2) (group_fetch t g m s gen p limit amo fs now es later) q
  | Commit src next now => observe (λ _, Nothing) (commit src next now) q
  | Reset src target now => observe Position (reset src target now) q
  | Process txid src ex next os now es later => observe Published (process txid src ex next os now es later) q
  | RetainTopic t now => observe (λ _, Nothing) (retain t now) q
  | Maintain now => observe (λ _, Nothing) (maintenance now) q
  | Happen e => (event nodes lease q e, Nothing)
  | Restart => (initialize q, Nothing)
  end.

(** Operations one after the other, with the outside world as it is before each. *)
Fixpoint run q (ops : list (W * Op)) : Queue * list Out :=
  match ops with
  | [] => (q, [])
  | (w, op) :: ops' =>
      let (q1, o) := step (set_world q w) op in
      let (q2, os) := run q1 ops' in (q2, o :: os)
  end.
End coordinator.
