(* ===== verification/QueueInv.v ===== *)
(** * The invariant of the message queue's coordinator

    What every transaction keeps: the logs are chains, the batches waiting for a
    quorum continue them, a receipt names the records of its batch, and of each producer
    that shares no name with a transaction a log holds the batches of its sequence, each
    once and in order.  And what never changes: logs only grow, and a floor rises over
    a record only when retention finds it too old, or the partition too large. *)
From S2P Require Import Prelude PyList PyDict Checks Effects Messages BrokerLog QueueState QueueGroups QueueReplication QueueCoordinator.
Local Open Scope Z_scope.

Section invariant.
Context {W : Type} (digest : string → Rec → string) (fingerprint : list Message → string).
(** The clocks at which retention visits a partition. *)
Context (size_of : Value → Z) (retained_at : PartKey → Z → Prop).
Local Notation Queue := (QueueState.Queue W).
Local Notation chained := (Messages.chained digest).
Implicit Types q : Queue.

Definition log_of q (k : PartKey) : list Value := match dget k (parts q) with Some pt => log pt | None => [] end.
Definition floor_of q (k : PartKey) : Z := match dget k (parts q) with Some pt => floor pt | None => 0 end.
(** The retention period and the size of a topic. *)
Definition limits q (t : string) : option (Z * Z) := (λ options, (t_retention options, t_max_bytes options)) <$> dget t (topics q).

(** The records of a producer's epoch, and those of one sequence. *)
Definition written_by (i : Identity) (v : Value) : Prop := r_producer (record v) = i.1 ∧ r_epoch (record v) = i.2.
#[global] Instance written_by_dec i v : Decision (written_by i v).
Proof. unfold written_by. apply _. Defined.
Definition batch (i : Identity) (s : Z) (vs : list Value) : list Value :=
  filter (λ v, written_by i v ∧ r_sequence (record v) = s) vs.

(** [vs] are the records of the messages [ms]. *)
Definition records_from (n : Z) (ms : list Message) (producer : string) (epoch sequence now : Z) : list Rec :=
  imap (λ i m, mk_rec (n + Z.of_nat i) now producer epoch sequence (key m) (m_value m) (due now m) (tags m)) ms.
Definition batch_of (i : Identity) (s : Z) (h : string) (vs : list Value) : Prop :=
  ∃ ms n now, h = fingerprint ms ∧ record <$> vs = records_from n ms i.1 i.2 s now.

(** The records of a transaction carry this identity, which a producer may have too. *)
Definition tx_identity (txid : string) : Identity := ("tx_" +:+ txid, 0).
Definition ordinary q (i : Identity) : Prop := ∀ txid, dget txid (transactions q) ≠ None → i ≠ tx_identity txid.

Definition in_order (i : Identity) (vs : list Value) : Prop :=
  StronglySorted Z.le ((r_sequence ∘ record) <$> filter (written_by i) vs).

Record part_ok (pt : Part) : Prop := {
  pt_hwm : hwm pt = Z.of_nat (length (log pt)) - 1;
  pt_floor : 0 <= floor pt <= hwm pt + 1;
  pt_chained : chained 0 ZERO (log pt);
  pt_base : p_base_hash pt = last_hash ZERO (take (Z.to_nat (floor pt)) (log pt));
}.

(** The next sequence of a producer's epoch on a partition. *)
Definition expected q (i : Identity) (k : PartKey) : Z :=
  match dget (i, k) (sequences q) with Some n => n + 1 | None => 0 end.

Definition origin_ok q (k : PartKey) (pend : Pending) : Prop :=
  match origin pend with
  | Produced pr ep s h => s = expected q (pr, ep) k ∧ batch_of (pr, ep) s h (values pend)
  | Staged txid => ∀ v, v ∈ values pend → written_by (tx_identity txid) v
  end.

(** A stage may be committed when its transaction is known. *)
Definition known q (pend : Pending) : Prop := ∀ txid, origin pend = Staged txid → dget txid (transactions q) ≠ None.

Record receipt_ok q (i : Identity) (k : PartKey) (s : Z) (h : string) (r : Receipt) : Prop := {
  rk_sequence : 0 <= s < expected q i k;
  rk_batch : batch_of i s h (batch i s (log_of q k));
  rk_offsets : rc_offsets r = v_offset <$> batch i s (log_of q k);
  rk_part : (rc_topic r, rc_partition r) = k;
  rk_committed : rc_committed r = true;
}.

Record logs_ok q : Prop := {
  lo_parts : ∀ k pt, dget k (parts q) = Some pt → part_ok pt;
  lo_sequences : ∀ i k n, dget (i, k) (sequences q) = Some n → 0 <= n;
  lo_pending : ∀ k pend, dget k (pending q) = Some pend →
    ∃ pt, dget k (parts q) = Some pt ∧ values pend ≠ [] ∧ chained (hwm pt + 1) (last_hash ZERO (log pt)) (values pend) ∧ origin_ok q k pend;
  lo_dict : dict_ok (pending q);
  lo_dict' : dict_ok (receipts q);
  lo_kept : ∀ i k s h r, dget (i, k, s) (receipts q) = Some (h, r) →
    k = (rc_topic r, rc_partition r) ∧ ∃ vs, vs ≠ [] ∧ batch_of i s h vs ∧ rc_offsets r = v_offset <$> vs ∧ ∀ v, v ∈ vs → v ∈ log_of q k;
  lo_batches : ∀ i k s, ordinary q i → batch i s (log_of q k) ≠ [] ↔ 0 <= s < expected q i k;
  lo_order : ∀ i k, ordinary q i → in_order i (log_of q k);
  lo_receipts : ∀ i k s h r, ordinary q i → dget (i, k, s) (receipts q) = Some (h, r) → receipt_ok q i k s h r;
}.

(** Why retention gave up the record at an offset: it was too old, or the records from
    it on were too large once. *)
Definition removed_for q (k : PartKey) (o : Z) : Prop :=
  ∃ retention max_bytes v n c,
    limits q k.1 = Some (retention, max_bytes) ∧ retained_at k c ∧ log_of q k !! Z.to_nat o = Some v ∧
    (r_timestamp (record v) <= c - retention
     ∨ (Z.to_nat o + n ≤ length (log_of q k))%nat ∧ max_bytes < zsum size_of (take n (drop (Z.to_nat o) (log_of q k)))).

(** What never changes: records stay unless retention has a reason, a batch that is
    there stays alone, and so do the answers of transactions. *)
Record grows q q' : Prop := {
  gw_parts : ∀ k pt, dget k (parts q) = Some pt → ∃ pt' more, dget k (parts q') = Some pt' ∧
    log pt' = log pt ++ more ∧ hwm pt <= hwm pt' ∧ floor pt <= floor pt';
  gw_limits : ∀ t l, limits q t = Some l → limits q' t = Some l;
  gw_floor : ∀ k o, floor_of q k <= o < floor_of q' k → removed_for q' k o;
  gw_batches : ∀ i k s, ordinary q' i → batch i s (log_of q k) ≠ [] → batch i s (log_of q' k) = batch i s (log_of q k);
  gw_transactions : ∀ txid x, dget txid (transactions q) = Some x → dget txid (transactions q') = Some x;
}.

Lemma log_grows q q' k : grows q q' → ∃ more, log_of q' k = log_of q k ++ more.
Proof.
  intros Hg. unfold log_of. destruct (dget k (parts q)) as [pt|] eqn:E; [|by eexists].
  destruct (gw_parts _ _ Hg _ _ E) as (pt' & more & -> & -> & _). by exists more.
Qed.

Lemma ordinary_before q q' i : (∀ txid x, dget txid (transactions q) = Some x → dget txid (transactions q') = Some x) → ordinary q' i → ordinary q i.
Proof. intros H Hi txid Ht. apply Hi. destruct (dget txid (transactions q)) as [x|] eqn:E; [|done]. by rewrite (H _ _ E). Qed.

Lemma removed_later q q' k o : grows q q' → removed_for q k o → removed_for q' k o.
Proof.
  intros Hg (rt & mx & v & n & c & Hl & Hc & Hv & H). destruct (log_grows q q' k Hg) as [more El].
  exists rt, mx, v, n, c. split; [by apply (gw_limits _ _ Hg)|]. split; [done|]. rewrite El. split; [by apply lookup_app_l_Some|].
  destruct H as [H|[Hn H]]; [by left|]. right. rewrite length_app. split; [lia|].
  apply lookup_lt_Some in Hv. rewrite drop_app_le, take_app_le by (rewrite ?length_drop; lia). done.
Qed.

Lemma grows_refl q : grows q q.
Proof. split; try done; [|lia]. intros k pt H. exists pt, []. rewrite app_nil_r. by split_and!. Qed.

Lemma grows_trans q1 q2 q3 : grows q1 q2 → grows q2 q3 → grows q1 q3.
Proof.
  intros G1 G2. split.
  - intros k pt H. destruct (gw_parts _ _ G1 k pt H) as (pt1 & m1 & K1 & E1 & ? & ?).
    destruct (gw_parts _ _ G2 k pt1 K1) as (pt2 & m2 & K2 & E2 & ? & ?).
    exists pt2, (m1 ++ m2). rewrite E2, E1, app_assoc. split_and!; (done || lia).
  - intros t l H. by apply (gw_limits _ _ G2), (gw_limits _ _ G1).
  - intros k o Ho. destruct (decide (o < floor_of q2 k)).
    + eapply removed_later; [exact G2|]. apply (gw_floor _ _ G1). lia.
    + apply (gw_floor _ _ G2). lia.
  - intros i k s Hi Hb. pose proof (ordinary_before _ _ i (gw_transactions _ _ G2) Hi) as Hi2.
    rewrite (gw_batches _ _ G2); [by apply (gw_batches _ _ G1)|done|]. by rewrite (gw_batches _ _ G1).
  - intros txid x H. by apply (gw_transactions _ _ G2), (gw_transactions _ _ G1).
Qed.

(** ** What leaves the logs alone *)

(** A partition up to its leader and leadership epoch. *)
Definition same_part (pt pt' : Part) : Prop :=
  hwm pt' = hwm pt ∧ floor pt' = floor pt ∧ p_base_hash pt' = p_base_hash pt ∧ log pt' = log pt.
Definition same_parts (d d' : dict PartKey Part) : Prop :=
  ∀ k, match dget k d, dget k d' with Some pt, Some pt' => same_part pt pt' | None, None => True | _, _ => False end.

(** The tables of producers and logs are the same; partitions may have been added. *)
Record same_logs q q' : Prop := {
  sl_parts : ∀ k pt, dget k (parts q) = Some pt → ∃ pt', dget k (parts q') = Some pt' ∧ same_part pt pt';
  sl_new : ∀ k pt', dget k (parts q) = None → dget k (parts q') = Some pt' → part_ok pt' ∧ log pt' = [];
  sl_limits : ∀ t l, limits q t = Some l → limits q' t = Some l;
  sl_sequences : sequences q' = sequences q;
  sl_receipts : receipts q' = receipts q;
  sl_pending : pending q' = pending q;
  sl_transactions : transactions q' = transactions q;
}.

Lemma same_part_refl pt : same_part pt pt.
Proof. by split_and!. Qed.

Lemma same_parts_refl d : same_parts d d.
Proof. intros k. destruct (dget k d); [apply same_part_refl|done]. Qed.

Lemma same_part_ok pt pt' : same_part pt pt' → part_ok pt → part_ok pt'.
Proof. intros (E1 & E2 & E3 & E4) []. split; rewrite ?E1, ?E2, ?E3, ?E4; done. Qed.

Lemma same_log_of q q' k : same_logs q q' → log_of q' k = log_of q k.
Proof.
  intros [H1 H2 _ _ _ _ _]. unfold log_of. destruct (dget k (parts q)) as [pt|] eqn:E.
  - by destruct (H1 _ _ E) as (pt' & -> & _ & _ & _ & ->).
  - destruct (dget k (parts q')) as [pt'|] eqn:E'; [|done]. by destruct (H2 _ _ E E').
Qed.

Lemma same_floor_of q q' k : same_logs q q' → floor_of q' k = floor_of q k.
Proof.
  intros [H1 H2 _ _ _ _ _]. unfold floor_of. destruct (dget k (parts q)) as [pt|] eqn:E.
  - by destruct (H1 _ _ E) as (pt' & -> & _ & -> & _).
  - destruct (dget k (parts q')) as [pt'|] eqn:E'; [|done]. destruct (H2 _ _ E E') as [[Hh Hf _ _] El]. rewrite El in Hh. cbn in Hh. lia.
Qed.

Lemma same_logs_ok q q' : same_logs q q' → logs_ok q → logs_ok q'.
Proof.
  intros Hs [L1 L1' L2 L3 L4 L0 L5 L6 L7]. pose proof (λ k, same_log_of q q' k Hs) as El. destruct Hs as [S1 S2 _ S3 S4 S5 S6].
  assert (∀ i k, expected q' i k = expected q i k) as Ee by (intros i k; unfold expected; by rewrite S3).
  assert (∀ i, ordinary q' i → ordinary q i) as Ho by (intros i; unfold ordinary; by rewrite S6).
  split; rewrite ?S3, ?S4, ?S5; try done.
  - intros k pt' Hp. destruct (dget k (parts q)) as [pt|] eqn:E; [|by eapply S2].
    destruct (S1 _ _ E) as (pt2 & E2 & Hsame). assert (pt' = pt2) as -> by congruence. eapply same_part_ok; [done|by eapply L1].
  - intros k pend Hp. destruct (L2 k pend Hp) as (pt & H1 & H2 & H3 & H4). destruct (S1 _ _ H1) as (pt' & H1' & Eh & _ & _ & Elg).
    exists pt'. rewrite Eh, Elg. split_and!; try done. unfold origin_ok in *. destruct (origin pend); [by rewrite Ee|done].
  - intros i k s h r Hr. rewrite El. by apply L0.
  - intros i k s Hi. rewrite El, Ee. by apply L5, Ho.
  - intros i k Hi. rewrite El. by apply L6, Ho.
  - intros i k s h r Hi Hr. destruct (L7 i k s h r (Ho i Hi) Hr). by split; rewrite ?El, ?Ee.
Qed.

Lemma same_grows q q' : same_logs q q' → grows q q'.
Proof.
  intros Hs. split.
  - intros k pt H. destruct (sl_parts _ _ Hs _ _ H) as (pt' & H' & Eh & Ef & _ & El). exists pt', [].
    rewrite El, app_nil_r. split_and!; (done || lia).
  - apply Hs.
  - intros k o. rewrite (same_floor_of q q') by done. lia.
  - intros i k s _ _. by rewrite (same_log_of q q').
  - by rewrite (sl_transactions _ _ Hs).
Qed.

Lemma same_logs_trans q1 q2 q3 : same_logs q1 q2 → same_logs q2 q3 → same_logs q1 q3.
Proof.
  intros H1 H2. split; try (etrans; [apply H2|apply H1]).
  - intros k pt E. destruct (sl_parts _ _ H1 _ _ E) as (pt1 & E1 & ? & ? & ? & ?).
    destruct (sl_parts _ _ H2 _ _ E1) as (pt2 & E2 & ? & ? & ? & ?). exists pt2. split; [done|]. split_and!; congruence.
  - intros k pt E E'. destruct (dget k (parts q2)) as [pt1|] eqn:E1; [|by eapply (sl_new _ _ H2)].
    destruct (sl_new _ _ H1 _ _ E E1) as [Hok El]. destruct (sl_parts _ _ H2 _ _ E1) as (pt2 & E2 & Hs).
    assert (pt = pt2) as -> by congruence. split; [by eapply same_part_ok|]. destruct Hs as (_ & _ & _ & Es). congruence.
  - intros t l E. by apply (sl_limits _ _ H2), (sl_limits _ _ H1).
Qed.

(** ** Batches *)

Lemma batch_app i s vs vs' : batch i s (vs ++ vs') = batch i s vs ++ batch i s vs'.
Proof. apply filter_app. Qed.

Lemma batch_all i s vs : (∀ v, v ∈ vs → written_by i v ∧ r_sequence (record v) = s) → batch i s vs = vs.
Proof. intros H. by apply filter_all. Qed.

Lemma batch_none i s vs : (∀ v, v ∈ vs → ¬ (written_by i v ∧ r_sequence (record v) = s)) → batch i s vs = [].
Proof. intros H. by apply filter_none. Qed.

Lemma batch_of_records i s h vs v : batch_of i s h vs → v ∈ vs → written_by i v ∧ r_sequence (record v) = s.
Proof.
  intros (ms & n & now & _ & E) Hv. assert (record v ∈ records_from n ms i.1 i.2 s now) as Hr by (rewrite <- E; by apply list_elem_of_fmap_2).
  unfold records_from in Hr. apply list_elem_of_lookup in Hr as [j Hj]. rewrite list_lookup_imap in Hj.
  apply fmap_Some in Hj as (m & _ & Er). unfold written_by. rewrite Er. by split_and!.
Qed.

Lemma sorted_app_le (l1 l2 : list Z) :
  StronglySorted Z.le l1 → StronglySorted Z.le l2 → (∀ x y, x ∈ l1 → y ∈ l2 → x <= y) → StronglySorted Z.le (l1 ++ l2).
Proof.
  induction 1 as [|x l1 H1 IH Hall]; simpl; [done|]. intros H2 Hx. constructor.
  - apply IH; [done|]. intros y z Hy Hz. apply Hx; [by right|done].
  - apply Forall_app. split; [done|]. apply Forall_forall. intros y Hy. apply Hx; [by left|done].
Qed.

Lemma sorted_constant (s : Z) l : (∀ x, x ∈ l → x = s) → StronglySorted Z.le l.
Proof.
  induction l as [|x l IH]; intros H; constructor.
  - apply IH. intros y Hy. apply H. by right.
  - apply Forall_forall. intros y Hy. rewrite (H x), (H y); [lia|by right|by left].
Qed.

Lemma ordinary_tx q txid : dget txid (transactions q) ≠ None → ¬ ordinary q (tx_identity txid).
Proof. intros H Ho. by apply (Ho txid H). Qed.

(** Offsets are positions. *)
Lemma log_at q k v : logs_ok q → v ∈ log_of q k → log_of q k !! Z.to_nat (v_offset v) = Some v.
Proof.
  intros Hq Hv. apply list_elem_of_lookup in Hv as [j Hj]. unfold log_of in *. destruct (dget k (parts q)) as [pt|] eqn:Ek; [|done].
  rewrite (chained_lookup _ _ _ _ _ _ (pt_chained _ (lo_parts _ Hq _ _ Ek)) Hj). by replace (Z.to_nat (0 + Z.of_nat j)) with j by lia.
Qed.

Lemma log_offset q k v : logs_ok q → v ∈ log_of q k → 0 <= v_offset v.
Proof.
  intros Hq Hv. apply list_elem_of_lookup in Hv as [j Hj]. unfold log_of in *. destruct (dget k (parts q)) as [pt|] eqn:Ek; [|done].
  rewrite (chained_lookup _ _ _ _ _ _ (pt_chained _ (lo_parts _ Hq _ _ Ek)) Hj). lia.
Qed.

(** So records of the log are known by their offsets, *)
Lemma offsets_same q k (us vs : list Value) :
  logs_ok q → (∀ v, v ∈ us → v ∈ log_of q k) → (∀ v, v ∈ vs → v ∈ log_of q k) → v_offset <$> us = v_offset <$> vs → us = vs.
Proof.
  intros Hq. revert vs. induction us as [|u us IH]; intros [|v vs] Hu Hv; try done. cbn [fmap list_fmap]. intros [= E1 E2].
  f_equal; [|apply IH; [intros x Hx; apply Hu; by right|intros x Hx; apply Hv; by right|done]].
  pose proof (log_at q k u Hq ltac:(apply Hu; by left)) as H1. pose proof (log_at q k v Hq ltac:(apply Hv; by left)) as H2.
  rewrite E1 in H1. congruence.
Qed.

(** and the rows of a partition are those from the floor on. *)
Lemma log_rows q k pt v :
  logs_ok q → dget k (parts q) = Some pt → v ∈ log pt → floor pt <= v_offset v → record_at pt (v_offset v) = Some v.
Proof.
  intros Hq Hk Hv Hf. unfold record_at. replace (v_offset v <? floor pt) with false by lia.
  pose proof (log_at q k v Hq) as H. unfold log_of in H. rewrite Hk in H. by apply H.
Qed.

Lemma batch_rows q k pt i s :
  logs_ok q → dget k (parts q) = Some pt → batch i s (records pt) = filter (λ v, floor pt <= v_offset v) (batch i s (log pt)).
Proof.
  intros Hq Hk. destruct (lo_parts _ Hq _ _ Hk) as [H1 H2 H3 _]. unfold records. set (n := Z.to_nat (floor pt)).
  assert (∀ j v, log pt !! j = Some v → v_offset v = Z.of_nat j) as Ho by (intros j v Hj; rewrite (chained_lookup _ _ _ _ _ _ H3 Hj); lia).
  rewrite <- (take_drop n (log pt)) at 2. rewrite batch_app, filter_app, (filter_none _ (batch i s (take n _))), (filter_all _ (batch i s (drop n _))); [done|..].
  - intros v [_ (j & Hj)%list_elem_of_lookup]%list_elem_of_filter. rewrite lookup_drop in Hj. apply Ho in Hj. lia.
  - intros v [_ (j & Hj)%list_elem_of_lookup]%list_elem_of_filter. apply lookup_take_Some in Hj as [Hj Hn]. apply Ho in Hj. lia.
Qed.

Lemma in_order_rows i pt : in_order i (log pt) → in_order i (records pt).
Proof.
  unfold in_order, records. rewrite <- (take_drop (Z.to_nat (floor pt)) (log pt)) at 1. rewrite filter_app, fmap_app. apply StronglySorted_app_1_r.
Qed.

(** A sequence in the log is below the expected one. *)
Lemma log_sequences q i k v :
  logs_ok q → ordinary q i → v ∈ log_of q k → written_by i v → 0 <= r_sequence (record v) < expected q i k.
Proof.
  intros Hq Hi Hv Hw. apply (lo_batches _ Hq i k (r_sequence (record v)) Hi). intros E.
  assert (v ∈ batch i (r_sequence (record v)) (log_of q k)) as Hin by (by apply list_elem_of_filter).
  rewrite E in Hin. by apply not_elem_of_nil in Hin.
Qed.
End invariant.
