(* ===== verification/QueueSteps.v ===== *)
(** * Every transaction of the coordinator keeps the invariant

    Calls of brokers change nothing but leaders; what the transactions on the tables do to
    the logs, one lemma for each. *)
From S2P Require Import Prelude PyList PyDict Checks Effects Messages BrokerLog QueueState QueueGroups QueueReplication QueueCoordinator QueueInv.
Local Open Scope Z_scope.

(** ** Calls of brokers *)

Section quiet.
Context {W : Type} (rpc : string → PartKey → Request → W → W * result Reply).
Context (digest : string → Rec → string) (size_of : Value → Z) (nodes : list string).
Local Notation Queue := (QueueState.Queue W).
Local Notation M := (Effects.M Queue).
Implicit Types q : Queue.

(** Nothing but the outside world, leaders and their epochs differ. *)
Record outside q q' : Prop := {
  os_topics : topics q' = topics q;
  os_parts : same_parts (parts q) (parts q');
  os_producers : producers q' = producers q;
  os_sequences : sequences q' = sequences q;
  os_receipts : receipts q' = receipts q;
  os_pending : pending q' = pending q;
  os_groups : groups q' = groups q;
  os_members : members q' = members q;
  os_cursors : cursors q' = cursors q;
  os_delivered : delivered q' = delivered q;
  os_transactions : transactions q' = transactions q;
  os_retention : retention_pending q' = retention_pending q;
}.

Lemma outside_refl q : outside q q.
Proof. split; try done. apply same_parts_refl. Qed.

Lemma outside_trans q1 q2 q3 : outside q1 q2 → outside q2 q3 → outside q1 q3.
Proof.
  intros [] []. split; try congruence. intros k. specialize (os_parts0 k). specialize (os_parts1 k).
  destruct (dget k (parts q1)), (dget k (parts q2)), (dget k (parts q3)); try done.
  destruct os_parts0 as (? & ? & ? & ?), os_parts1 as (? & ? & ? & ?). split_and!; congruence.
Qed.

Definition quiet {A} (m : M A) : Prop := ∀ q, outside q (m q).1.

Lemma quiet_ret {A} (a : A) : quiet (mret a).
Proof. intros q. apply outside_refl. Qed.
Lemma quiet_raise {A} e : quiet (mraise e : M A).
Proof. intros q. apply outside_refl. Qed.
Lemma quiet_query {A} (f : Queue → result A) : quiet (query f).
Proof. intros q. apply outside_refl. Qed.
Lemma quiet_lift {A} (r : result A) : quiet (mlift r).
Proof. intros q. apply outside_refl. Qed.
Lemma quiet_require b : quiet (require b).
Proof. intros q. apply outside_refl. Qed.
Lemma quiet_bind {A B} (m : M A) (f : A → M B) : quiet m → (∀ a, quiet (f a)) → quiet (mbind m f).
Proof.
  intros Hm Hf q. specialize (Hm q). unfold mbind. destruct (m q) as [q1 [a|e]]; [|done]. eapply outside_trans; [done|apply Hf].
Qed.
Lemma quiet_attempt {A} (m : M A) : quiet m → quiet (attempt m).
Proof. intros Hm q. specialize (Hm q). unfold attempt. destruct (m q) as [q1 [a|e]]; [done|]. by destruct (caught e). Qed.
Lemma quiet_call n k r : quiet (call rpc n k r).
Proof. intros q. unfold call. destruct (rpc n k r (world q)). split; try done. apply same_parts_refl. Qed.

Hint Resolve quiet_ret quiet_raise quiet_query quiet_lift quiet_require quiet_bind quiet_attempt quiet_call : quiet.

Lemma candidates_quiet k pt x ns : quiet (candidates rpc k pt x ns).
Proof.
  induction ns as [|n ns IH]; cbn [candidates]; [auto with quiet|]. apply quiet_bind; [auto with quiet|]. intros s.
  destruct (_ && _); auto with quiet.
Qed.

Lemma leader_quiet k : quiet (leader rpc nodes k).
Proof.
  apply quiet_bind; [auto with quiet|]. intros [pt h]. apply quiet_bind; [apply candidates_quiet|]. intros [[n|] cs]; [auto with quiet|].
  destruct (py_sorted cs) as [|n ns]; [auto with quiet|]. apply quiet_bind; [|auto with quiet]. intros q. unfold transaction.
  destruct (part q k) as [pt'|e] eqn:E; [|apply outside_refl]. cbn [rbind]. unfold part in *. cbn [topics set_parts parts].
  change (topic (set_parts q _) k.1) with (topic q k.1). destruct (topic q k.1); [|done]. cbn [rbind] in *.
  destruct (negb _); [done|]. cbn [raise_if] in *. rewrite dget_dset_eq. cbn.
  destruct (dget k (parts q)) as [pt2|] eqn:Ek; [|done]. injection E as ->.
  split; try done. intros k'. cbn. rewrite dget_dset. destruct (decide (k = k')) as [<-|]; [|destruct (dget k' (parts q)); [apply same_part_refl|done]].
  rewrite Ek. by split_and!.
Qed.

Lemma read_replica_quiet k pt l o n : quiet (read_replica rpc digest k pt l o n).
Proof.
  apply quiet_bind; [auto with quiet|]. intros [| | |]; auto with quiet. cbv zeta. destruct (negb _); [auto with quiet|].
  apply quiet_bind; [auto with quiet|]. intros rows. destruct (negb _); [auto with quiet|]. destruct (forallb _ _); auto with quiet.
Qed.
Hint Resolve leader_quiet read_replica_quiet : quiet.

Lemma retained_quiet k pt l vs : quiet (retained rpc digest size_of k pt l vs).
Proof.
  unfold retained. generalize (Z.to_nat (hwm pt - floor pt + 1)). intros fuel.
  generalize (floor pt), (batch_bytes size_of vs), (Z.of_nat (length vs)).
  induction fuel as [|fuel IH]; intros o b c; cbn [retained_from]; destruct (hwm pt <? o); try apply quiet_ret; [apply quiet_raise|].
  apply quiet_bind; [auto with quiet|]. intros page. cbv zeta. destruct (_ || _); [auto with quiet|]. apply quiet_bind; [apply IH|auto with quiet].
Qed.
Hint Resolve retained_quiet : quiet.

Lemma synchronise_quiet k pt l x vs n s : quiet (synchronise rpc digest size_of k pt l x vs n s).
Proof.
  unfold synchronise. cbv zeta. apply quiet_bind; [auto with quiet|]. intros [r|]; [|auto with quiet].
  destruct (eligible r pt x); [auto with quiet|]. destruct s; [|auto with quiet..].
  apply quiet_bind; [auto with quiet|]. intros [vs'|]; auto with quiet.
Qed.

Lemma replicate_quiet k vs lo : quiet (replicate rpc digest size_of nodes k vs lo).
Proof.
  apply quiet_bind; [auto with quiet|]. intros [[pt n] x]. apply quiet_bind.
  - generalize NotRead. induction (n :: others nodes n) as [|y ys IH]; intros s; cbn [synchronise_all]; [auto with quiet|].
    apply quiet_bind; [apply synchronise_quiet|]. intros r. destruct (_ && _); [auto with quiet|]. apply quiet_bind; [apply IH|auto with quiet].
  - intros [synced [|]]; [auto with quiet|]. destruct (_ <? _); [auto with quiet|]. destruct (_ && _); auto with quiet.
Qed.

Lemma outside_same q q' : outside q q' → same_logs digest q q'.
Proof.
  intros []. split; try done; [| |intros t l; unfold limits; by rewrite os_topics0].
  - intros k pt E. specialize (os_parts0 k). rewrite E in os_parts0. destruct (dget k (parts q')) as [pt'|]; [|done]. by exists pt'.
  - intros k pt' E E'. specialize (os_parts0 k). by rewrite E, E' in os_parts0.
Qed.
End quiet.
#[export] Hint Resolve quiet_ret quiet_raise quiet_query quiet_lift quiet_require quiet_bind quiet_attempt quiet_call leader_quiet read_replica_quiet
  retained_quiet replicate_quiet : quiet.

(** ** Transactions *)

Section transactions.
Context {W : Type} (digest : string → Rec → string) (size_of : Value → Z) (nodes : list string) (lease : Z).
Context (fingerprint : list Message → string) (retained_at : PartKey → Z → Prop).
Local Notation Queue := (QueueState.Queue W).
Local Notation chained := (Messages.chained digest).
Local Notation logs_ok := (QueueInv.logs_ok digest fingerprint).
Local Notation part_ok := (QueueInv.part_ok digest).
Local Notation same_logs := (QueueInv.same_logs digest).
Local Notation grows := (QueueInv.grows size_of retained_at).
Implicit Types q : Queue.

(** A state with a good log that only grew. *)
Definition evolves q q' : Prop := logs_ok q' ∧ grows q q'.

Lemma evolves_start q : logs_ok q → evolves q q.
Proof. split; [done|apply grows_refl]. Qed.
Lemma evolves_trans q1 q2 q3 : evolves q1 q2 → evolves q2 q3 → evolves q1 q3.
Proof. intros [_ H1] [H2 H3]. split; [done|]. by eapply grows_trans. Qed.
Lemma evolves_same q q' : logs_ok q → same_logs q q' → evolves q q'.
Proof. intros Hq Hs. split; [by eapply same_logs_ok|by eapply same_grows]. Qed.

Lemma same_tables q q' :
  topics q' = topics q → parts q' = parts q → sequences q' = sequences q → receipts q' = receipts q → pending q' = pending q → transactions q' = transactions q →
  same_logs q q'.
Proof.
  intros E0 E1 E2 E3 E4 E5. split; try done.
  - intros k pt Hk. exists pt. rewrite E1. split; [done|apply same_part_refl].
  - intros k pt' Hk Hk'. rewrite E1 in Hk'. congruence.
  - intros t l. unfold limits. by rewrite E0.
Qed.

Lemma grows_parts q q' : topics q' = topics q → parts q' = parts q → transactions q' = transactions q → grows q q'.
Proof.
  intros E0 E E'. split; [| | | |by rewrite E'].
  - intros k pt Hk. exists pt, []. rewrite E, app_nil_r. by split_and!.
  - intros t l. unfold limits. by rewrite E0.
  - intros k o. unfold floor_of. rewrite E. lia.
  - intros i k s _ _. unfold log_of. by rewrite E.
Qed.

(** Producing goes on where the log ends. *)
Lemma appended_part pt vs v :
  part_ok pt → vs ≠ [] → last vs = Some v → chained (hwm pt + 1) (last_hash ZERO (log pt)) vs →
  part_ok (mk_part (p_leader pt) (p_epoch pt) (v_offset v) (floor pt) (p_base_hash pt) (log pt ++ vs)).
Proof.
  intros [H1 H2 H3 H4] Hne Hv Hc. assert (v_offset v = hwm pt + Z.of_nat (length vs)) as Ho.
  { apply last_Some in Hv as [vs' ->]. rewrite (chained_lookup _ _ _ _ (length vs') v Hc).
    - rewrite length_app. simpl. lia.
    - by rewrite list_lookup_middle. }
  split; cbn.
  - rewrite length_app. lia.
  - lia.
  - apply chained_app. split; [done|]. by replace (0 + Z.of_nat (length (log pt))) with (hwm pt + 1) by lia.
  - rewrite H4, take_app_le by lia. done.
Qed.

(** The log of a partition with one batch more. *)
Record extended q q' (k : PartKey) (vs : list Value) : Prop := {
  ex_parts : ∀ k', k' ≠ k → dget k' (parts q') = dget k' (parts q);
  ex_part : ∃ pt pt', dget k (parts q) = Some pt ∧ dget k (parts q') = Some pt' ∧ part_ok pt' ∧
    log pt' = log pt ++ vs ∧ hwm pt <= hwm pt' ∧ floor pt' = floor pt;
  ex_topics : topics q' = topics q;
  ex_transactions : transactions q' = transactions q;
}.

Lemma extended_log q q' k vs k' : extended q q' k vs → log_of q' k' = if decide (k' = k) then log_of q k ++ vs else log_of q k'.
Proof.
  intros [H1 (pt & pt' & E & E' & _ & El & _) _ _]. unfold log_of. destruct (decide (k' = k)) as [->|Hne]; [by rewrite E, E'|].
  by rewrite H1.
Qed.

Lemma finalize_parts q k pend v pt :
  logs_ok q → dget k (pending q) = Some pend → last (values pend) = Some v → dget k (parts q) = Some pt →
  ∀ q', parts q' = dset k (mk_part (p_leader pt) (p_epoch pt) (v_offset v) (floor pt) (p_base_hash pt) (log pt ++ values pend)) (parts q) →
  topics q' = topics q → transactions q' = transactions q → extended q q' k (values pend).
Proof.
  intros Hq Hp Hv Hk q' E E0 E'. destruct (lo_pending _ _ _ Hq _ _ Hp) as (pt0 & Hk0 & Hne & Hc & _).
  assert (pt0 = pt) as -> by congruence. pose proof (lo_parts _ _ _ Hq _ _ Hk) as Hok.
  pose proof (appended_part pt (values pend) v Hok Hne Hv Hc) as Hok'. split; [| |done..].
  - intros k' Hne'. by rewrite E, dget_dset_ne.
  - eexists pt, _. rewrite E, dget_dset_eq. split_and!; try done. cbn. destruct Hok as [E1 _ _ _], Hok' as [E2 _ _ _]. cbn in E2.
    rewrite length_app in E2. lia.
Qed.

Lemma extended_floor q q' k vs k' : extended q q' k vs → floor_of q' k' = floor_of q k'.
Proof.
  intros [H1 (pt & pt' & E & E' & _ & _ & _ & Ef) _ _]. unfold floor_of. destruct (decide (k' = k)) as [->|Hne]; [by rewrite E, E'|].
  by rewrite H1.
Qed.

(** Batches that an unfinished append carries belong to one ordinary sequence, or to none. *)
Definition batch_ids q (pend : Pending) (o : option (Identity * Z)) : Prop :=
  match o with
  | Some (i, s) => ∀ v, v ∈ values pend → written_by i v ∧ r_sequence (record v) = s
  | None => ∀ i v, ordinary q i → v ∈ values pend → ¬ written_by i v
  end.

Lemma batch_other q pend i0 s0 i s :
  batch_ids q pend (Some (i0, s0)) → (i, s) ≠ (i0, s0) → batch i s (values pend) = [].
Proof.
  intros Hb Hne. apply batch_none. intros v Hv [[W1 W2] E]. destruct (Hb v Hv) as [[W3 W4] E']. destruct i, i0; cbn in *. congruence.
Qed.

Lemma grows_extended q q' k pend o :
  extended q q' k (values pend) → batch_ids q pend o →
  (∀ i s, o = Some (i, s) → ordinary q i → batch i s (log_of q k) = []) → grows q q'.
Proof.
  intros Hx Hb Ho. split; [| | | |by rewrite (ex_transactions _ _ _ _ Hx)].
  - intros k' pt Hk'. destruct (decide (k' = k)) as [->|Hne].
    + destruct Hx as [_ (pt0 & pt' & E & E' & _ & El & Eh & Ef) _ _]. assert (pt0 = pt) as -> by congruence.
      exists pt', (values pend). split_and!; (done || lia).
    + exists pt, []. rewrite app_nil_r. destruct Hx as [H _ _ _]. rewrite H by done. by split_and!.
  - intros t l. unfold limits. by rewrite (ex_topics _ _ _ _ Hx).
  - intros k' o'. rewrite (extended_floor _ _ _ _ _ Hx). lia.
  - intros i k' s Hi Hne. unfold ordinary in Hi. rewrite (ex_transactions _ _ _ _ Hx) in Hi. change (ordinary q i) in Hi.
    rewrite (extended_log _ _ _ _ _ Hx). case_decide as Hk; [|done]. subst k'. rewrite batch_app.
    assert (batch i s (values pend) = []) as ->; [|by rewrite app_nil_r].
    destruct o as [[i0 s0]|]; [|by apply batch_none; intros v Hv [Hw _]; eapply Hb].
    destruct (decide ((i, s) = (i0, s0))) as [E|]; [|by eapply batch_other]. injection E as -> ->. by rewrite (Ho i0 s0) in Hne.
Qed.

Lemma extended_parts q q' k vs :
  logs_ok q → extended q q' k vs → ∀ k' pt, dget k' (parts q') = Some pt → part_ok pt.
Proof.
  intros Hq [H1 (pt0 & pt' & _ & E' & Hok & _) _ _] k' pt Hk'. destruct (decide (k' = k)) as [->|Hne]; [congruence|].
  rewrite H1 in Hk' by done. by eapply lo_parts.
Qed.

(** The waiting batches of the other partitions. *)
Lemma extended_pending q q' k vs :
  logs_ok q → extended q q' k vs → pending q' = ddel k (pending q) → (∀ i k', k' ≠ k → expected q' i k' = expected q i k') →
  ∀ k' pend, dget k' (pending q') = Some pend →
    ∃ pt, dget k' (parts q') = Some pt ∧ values pend ≠ [] ∧ chained (hwm pt + 1) (last_hash ZERO (log pt)) (values pend)
      ∧ origin_ok fingerprint q' k' pend.
Proof.
  intros Hq Hx Ep Ee k' pend Hp. rewrite Ep, dget_ddel in Hp by (by apply (lo_dict _ _ _ Hq)). case_decide as Hne; [done|].
  destruct (lo_pending _ _ _ Hq _ _ Hp) as (pt & H1 & H2 & H3 & H4). exists pt. destruct Hx as [Hx _ _ _].
  rewrite Hx by done. split_and!; try done. unfold origin_ok in *. destruct (origin pend); [rewrite Ee by done|]; done.
Qed.

Lemma expected_nonneg q i k : logs_ok q → 0 <= expected q i k.
Proof. intros Hq. unfold expected. destruct (dget (i, k) (sequences q)) eqn:E; [|done]. apply (lo_sequences _ _ _ Hq) in E. lia. Qed.

Lemma batch_fresh q i k : logs_ok q → ordinary q i → batch i (expected q i k) (log_of q k) = [].
Proof.
  intros Hq Hi. destruct (batch i (expected q i k) (log_of q k)) eqn:E; [done|].
  assert (batch i (expected q i k) (log_of q k) ≠ []) as H by (by rewrite E). apply (lo_batches _ _ _ Hq i k _ Hi) in H. lia.
Qed.

(** A receipt's records stay where they are. *)
Lemma kept_extended q q' k vs i k' s h r :
  logs_ok q → extended q q' k vs → dget (i, k', s) (receipts q) = Some (h, r) →
  k' = (rc_topic r, rc_partition r) ∧ ∃ us, us ≠ [] ∧ batch_of fingerprint i s h us ∧ rc_offsets r = v_offset <$> us ∧ ∀ v, v ∈ us → v ∈ log_of q' k'.
Proof.
  intros Hq Hx Hr. destruct (lo_kept _ _ _ Hq _ _ _ _ _ Hr) as (Ek & us & Hne & Hb & Ho & Hu). split; [done|]. exists us. split_and!; [done..|].
  intros v Hv. rewrite (extended_log _ _ _ _ _ Hx). case_decide as E; [subst k; apply elem_of_app; left|]; by apply Hu.
Qed.

Lemma in_order_app i vs ws :
  in_order i vs → in_order i ws → (∀ v w, v ∈ vs → w ∈ ws → written_by i v → written_by i w → r_sequence (record v) <= r_sequence (record w)) →
  in_order i (vs ++ ws).
Proof.
  unfold in_order. intros H1 H2 H3. rewrite filter_app, fmap_app. apply sorted_app_le; [done|done|].
  intros x y (v & -> & [Hv Hv']%list_elem_of_filter)%list_elem_of_fmap (w & -> & [Hw Hw']%list_elem_of_filter)%list_elem_of_fmap. by apply H3.
Qed.

Lemma in_order_none i vs : (∀ v, v ∈ vs → ¬ written_by i v) → in_order i vs.
Proof. intros H. unfold in_order. rewrite filter_none by done. constructor. Qed.

Lemma commit_produced q q' k pend pr ep s h r :
  logs_ok q → dget k (pending q) = Some pend → origin pend = Produced pr ep s h → extended q q' k (values pend) →
  pending q' = ddel k (pending q) → sequences q' = dset ((pr, ep), k) s (sequences q) →
  receipts q' = dset ((pr, ep), k, s) (h, r) (receipts q) →
  rc_offsets r = v_offset <$> values pend → (rc_topic r, rc_partition r) = k → rc_committed r = true → evolves q q'.
Proof.
  intros Hq Hp Eo Hx Ep Es Er R1 R2 R3. destruct (lo_pending _ _ _ Hq _ _ Hp) as (pt & _ & Hne & _ & Ho).
  unfold origin_ok in Ho. rewrite Eo in Ho. destruct Ho as [Hs Hb].
  assert (batch_ids q pend (Some ((pr, ep), s))) as Hids by (intros v Hv; by eapply batch_of_records).
  assert (∀ i k', expected q' i k' = if decide ((i, k') = ((pr, ep), k)) then s + 1 else expected q i k') as Ee.
  { intros i k'. unfold expected. rewrite Es, dget_dset. repeat case_decide; congruence. }
  pose proof (expected_nonneg q (pr, ep) k Hq) as H0.
  assert (∀ i s', (i, s') ≠ ((pr, ep), s) → batch i s' (values pend) = []) as Hoth by (intros; by eapply batch_other).
  assert (∀ i k' s', (i, k', s') ≠ ((pr, ep), k, s) → batch i s' (log_of q' k') = batch i s' (log_of q k')) as Hsame.
  { intros i k' s' Hn. rewrite (extended_log _ _ _ _ _ Hx). case_decide; [|done]. subst k'. rewrite batch_app, Hoth by congruence. apply app_nil_r. }
  assert (∀ i, ordinary q' i → ordinary q i) as Hord by (intros i; unfold ordinary; by rewrite (ex_transactions _ _ _ _ Hx)).
  assert (ordinary q (pr, ep) → batch (pr, ep) s (log_of q' k) = values pend) as Hnew.
  { intros Hi. rewrite (extended_log _ _ _ _ _ Hx), decide_True by done. rewrite batch_app, Hs, (batch_fresh q) by done.
    rewrite <- Hs. by apply batch_all. }
  split.
  2: { eapply grows_extended; [exact Hx|exact Hids|]. intros i s' [= <- <-] Hi. rewrite Hs. by apply batch_fresh. }
  split.
  - by eapply extended_parts.
  - intros i k' n. rewrite Es, dget_dset. case_decide; [intros [= <-]; lia|]. apply (lo_sequences _ _ _ Hq).
  - eapply extended_pending; try done. intros i k' Hk'. rewrite Ee, decide_False by congruence. done.
  - rewrite Ep. apply ddel_ok. by apply (lo_dict _ _ _ Hq).
  - rewrite Er. apply dset_ok. by apply (lo_dict' _ _ _ Hq).
  - intros i k' s' h' r'. rewrite Er, dget_dset. case_decide as Hd.
    + injection Hd as <- <- <-. intros [= <- <-]. split; [done|]. exists (values pend). split_and!; [done..|].
      intros v Hv. rewrite (extended_log _ _ _ _ _ Hx), decide_True by done. apply elem_of_app. by right.
    + by eapply (kept_extended q).
  - intros i k' s' Hi%Hord. rewrite Ee. case_decide as Hd.
    + injection Hd as -> ->. destruct (decide (s' = s)) as [->|Hn]; [rewrite Hnew by done; split; [intros _; lia|done]|].
      rewrite Hsame by congruence. rewrite (lo_batches _ _ _ Hq) by done. lia.
    + rewrite Hsame by (intros E; apply Hd; by injection E as -> -> _). by apply (lo_batches _ _ _ Hq).
  - intros i k' Hi%Hord. rewrite (extended_log _ _ _ _ _ Hx). case_decide; [|by apply (lo_order _ _ _ Hq)]. subst k'.
    apply in_order_app; [by apply (lo_order _ _ _ Hq)| |].
    + apply (sorted_constant s). intros x (v & -> & [_ Hv]%list_elem_of_filter)%list_elem_of_fmap. by apply (Hids v Hv).
    + intros v w Hv Hw Wv Ww. destruct (Hids w Hw) as [[E1 E2] ->]. destruct Ww as [E3 E4]. cbn in E1, E2.
      assert (i = (pr, ep)) as -> by (destruct i; cbn in *; congruence).
      pose proof (log_sequences _ _ q _ _ _ Hq Hi Hv Wv). lia.
  - intros i k' s' h' r' Hi%Hord. rewrite Er, dget_dset. case_decide as Hd.
    + injection Hd as <- <- <-. intros [= <- <-]. split; rewrite ?Hnew; try done. rewrite Ee, decide_True by done. lia.
    + intros Hr. destruct (lo_receipts _ _ _ Hq _ _ _ _ _ Hi Hr) as [K1 K2 K3 K4 K5]. rewrite <- Hsame in K2, K3 by (intros E; apply Hd; by injection E as -> -> ->).
      split; try done. rewrite Ee. case_decide as Hd'; [|done]. injection Hd' as -> ->. lia.
Qed.

Lemma commit_staged q q' k pend txid :
  logs_ok q → dget k (pending q) = Some pend → origin pend = Staged txid → dget txid (transactions q) ≠ None → extended q q' k (values pend) →
  pending q' = ddel k (pending q) → sequences q' = sequences q → receipts q' = receipts q → evolves q q'.
Proof.
  intros Hq Hp Eo Htx Hx Ep Es Er. destruct (lo_pending _ _ _ Hq _ _ Hp) as (pt & _ & Hne & _ & Ho).
  unfold origin_ok in Ho. rewrite Eo in Ho.
  assert (batch_ids q pend None) as Hids.
  { intros i v Hi Hv [W1 W2]. destruct (Ho v Hv) as [W3 W4]. apply (Hi txid Htx). destruct i; cbn in *; unfold tx_identity. congruence. }
  assert (∀ i, ordinary q' i → ordinary q i) as Hord by (intros i; unfold ordinary; by rewrite (ex_transactions _ _ _ _ Hx)).
  assert (∀ i k', expected q' i k' = expected q i k') as Ee by (intros; unfold expected; by rewrite Es).
  assert (∀ i k' s', ordinary q i → batch i s' (log_of q' k') = batch i s' (log_of q k')) as Hsame.
  { intros i k' s' Hi. rewrite (extended_log _ _ _ _ _ Hx). case_decide; [|done]. subst k'. rewrite batch_app, (batch_none _ _ (values pend)).
    - apply app_nil_r.
    - intros v Hv [Wr _]. by eapply Hids. }
  split; [|by eapply grows_extended].
  split; rewrite ?Es, ?Er; try apply Hq.
  - by eapply extended_parts.
  - by eapply extended_pending.
  - rewrite Ep. apply ddel_ok. by apply (lo_dict _ _ _ Hq).
  - intros i k' s' h' r' Hr. by eapply (kept_extended q).
  - intros i k' s' Hi%Hord. rewrite Ee, Hsame by done. by apply (lo_batches _ _ _ Hq).
  - intros i k' Hi%Hord. rewrite (extended_log _ _ _ _ _ Hx). case_decide; [|by apply (lo_order _ _ _ Hq)]. subst k'.
    apply in_order_app; [by apply (lo_order _ _ _ Hq)|apply in_order_none; intros v; by apply Hids|].
    intros v w _ Hw _ Ww. by destruct (Hids i w Hi Hw).
  - intros i k' s' h' r' Hi%Hord Hr. destruct (lo_receipts _ _ _ Hq _ _ _ _ _ Hi Hr) as [K1 K2 K3 K4 K5]. rewrite <- Hsame in K2, K3 by done. by split; rewrite ?Ee.
Qed.

(** [_finalize] makes the waiting batch of a partition a part of its log. *)
Lemma finalize_ok q k pend synced q' r :
  logs_ok q → dget k (pending q) = Some pend → known q pend →
  finalize k pend synced q = Ok (q', r) → evolves q q' ∧ extended q q' k (values pend) ∧ pending q' = ddel k (pending q) ∧
  r = mk_receipt k.1 k.2 (v_offset <$> values pend) true synced ∧
  match origin pend with Produced pr ep s h => dget ((pr, ep), k, s) (receipts q') = Some (h, r) | Staged _ => True end.
Proof.
  intros Hq Hp Htx. destruct (lo_pending _ _ _ Hq _ _ Hp) as (pt & Hk & Hne & Hc & Ho). unfold finalize.
  destruct (last (values pend)) as [v|] eqn:Hv; [|by apply last_None in Hv]. rewrite Hk. intros H.
  assert (∀ q', parts q' = _ → topics q' = topics q → transactions q' = transactions q → extended q q' k (values pend)) as Hx by (by eapply finalize_parts).
  destruct (origin pend) as [pr ep s h|txid] eqn:Eo.
  - destruct (tinsert _ _ _) as [rs|] eqn:Et; [|done]. cbn in H. injection H as <- <-.
    unfold tinsert in Et. apply raise_if_Ok in Et as [Ed [= <-]]. split_and!; try done.
    + eapply commit_produced; try done; [by apply Hx|by destruct k].
    + by apply Hx.
    + cbn. by rewrite dget_dset_eq.
  - cbn in H. injection H as <- <-. split_and!; try done; [|by apply Hx]. eapply commit_staged; try done; [by apply Htx|by apply Hx].
Qed.

(** ** New batches *)

Lemma expected_hash_ok pt : part_ok pt → expected_hash pt = Ok (last_hash ZERO (log pt)).
Proof.
  intros [H1 H2 H3 H4]. unfold expected_hash, record_at. destruct (hwm pt <? floor pt) eqn:E.
  - rewrite H4. by rewrite take_ge by lia.
  - destruct (log pt) as [|v vs _] using rev_ind; [cbn in *; lia|].
    rewrite length_app in H1. cbn in H1. rewrite lookup_app_r by lia. replace (Z.to_nat (hwm pt) - length vs)%nat with O by lia.
    by rewrite last_hash_app.
Qed.

Lemma link_chained n h rs :
  (∀ i r, rs !! i = Some r → r_offset r = n + Z.of_nat i) → chained n h (link digest h rs).
Proof.
  revert n h. induction rs as [|r rs IH]; intros n h Hr; [done|]. cbn [link chained]. split_and!; try done.
  - unfold v_offset. cbn. rewrite (Hr O r eq_refl). lia.
  - apply IH. intros i r' Hi. rewrite (Hr (S i) r' Hi). lia.
Qed.

Lemma link_records h rs : record <$> link digest h rs = rs.
Proof. revert h. induction rs as [|r rs IH]; intros h; [done|]. cbn. by rewrite IH. Qed.

Lemma new_values_ok pt ms producer epoch sequence now :
  part_ok pt → ms ≠ [] →
  ∃ vs, new_values digest pt ms producer epoch sequence now = Ok vs ∧ vs ≠ [] ∧
    chained (hwm pt + 1) (last_hash ZERO (log pt)) vs ∧ record <$> vs = records_from (hwm pt + 1) ms producer epoch sequence now.
Proof.
  intros Hok Hne. unfold new_values. rewrite expected_hash_ok by done. cbn [rbind]. eexists. split; [done|]. rewrite link_records.
  split_and!; [|apply link_chained|done].
  - by destruct ms.
  - intros i r Hr. unfold new_records in Hr. rewrite list_lookup_imap in Hr. by apply fmap_Some in Hr as (m & _ & ->).
Qed.

Lemma insert_pending_ok q k pend d pt :
  logs_ok q → tinsert k pend (pending q) = Ok d → dget k (parts q) = Some pt → values pend ≠ [] →
  chained (hwm pt + 1) (last_hash ZERO (log pt)) (values pend) → origin_ok fingerprint q k pend →
  evolves q (set_pending q d) ∧ dget k (pending q) = None ∧ dget k d = Some pend.
Proof.
  intros Hq [Hd [= <-]]%raise_if_Ok Hk Hne Hc Ho. apply dmem_false in Hd. split; [|by rewrite dget_dset_eq].
  split; [|by apply grows_parts]. destruct Hq as [L1 L2 L3 L4 L5 L0 L6 L7 L8]. split; try done; cbn.
  - intros k' pend'. rewrite dget_dset. case_decide as E; [|by apply L3]. subst k'. intros [= <-]. by exists pt.
  - by apply dset_ok.
  - intros i k' s h r Hi Hr. by destruct (L8 _ _ _ _ _ Hi Hr).
Qed.

(** Waiting batches can be dropped. *)
Lemma drop_pending_ok q d :
  logs_ok q → dict_ok d → (∀ k pend, dget k d = Some pend → dget k (pending q) = Some pend) → evolves q (set_pending q d).
Proof.
  intros [L1 L2 L3 L4 L5 L0 L6 L7 L8] Hd Hs. split; [|by apply grows_parts]. split; try done; cbn.
  - intros k pend Hk. by apply L3, Hs.
  - intros i k s h r Hi Hr. by destruct (L8 _ _ _ _ _ Hi Hr).
Qed.

Lemma filter_dict {K V} `{EqDecision K} (P : K * V → Prop) `{∀ x, Decision (P x)} (d : dict K V) :
  dict_ok d → dict_ok (filter P (d : list (K * V))) ∧ ∀ k v, dget k (filter P (d : list (K * V))) = Some v → dget k d = Some v.
Proof.
  intros Hd. assert (dict_ok (filter P (d : list (K * V)))) as Hf by (by apply NoDup_fmap_filter).
  split; [done|]. intros k v Hk%(dget_Some _ _ _ Hf). apply list_elem_of_filter in Hk as [_ Hk]. by apply dget_Some.
Qed.

Lemma initialize_ok q : logs_ok q → evolves q (initialize q).
Proof. intros Hq. destruct (filter_dict (λ x : PartKey * Pending, match origin x.2 with Staged _ => false | Produced _ _ _ _ => true end = true) (pending q)) as [H1 H2]; [by apply (lo_dict _ _ _ Hq)|]. by apply drop_pending_ok. Qed.

Lemma unstage_ok txid staged q : logs_ok q → evolves q (unstage txid staged q).
Proof.
  intros Hq. assert (∀ d, dict_ok d → let d' := foldl (λ d x, match dget (o_key x.1) d with
    | Some pend => if bool_decide (origin pend = Staged txid) then ddel (o_key x.1) d else d | None => d end) d staged in
    dict_ok d' ∧ ∀ k pend, dget k d' = Some pend → dget k d = Some pend) as H.
  { induction staged as [|x staged IH]; intros d Hd; [done|]. cbn [foldl]. cbn zeta in IH.
    destruct (dget (o_key x.1) d) as [pend|] eqn:E; [|by apply IH]. destruct (bool_decide _); [|by apply IH].
    destruct (IH _ (ddel_ok (o_key x.1) d Hd)) as [H1 H2]. split; [done|]. intros k p Hk. apply H2 in Hk.
    rewrite dget_ddel in Hk by done. by case_decide. }
  destruct (H (pending q)) as [H1 H2]; [by apply (lo_dict _ _ _ Hq)|]. by apply drop_pending_ok.
Qed.

(** A new transaction. *)
Lemma add_transaction_ok q txid x :
  logs_ok q → dget txid (transactions q) = None → evolves q (set_transactions q (dset txid x (transactions q))).
Proof.
  intros [L1 L2 L3 L4 L5 L0 L6 L7 L8] Hn. set (q' := set_transactions _ _).
  assert (∀ txid' y, dget txid' (transactions q) = Some y → dget txid' (transactions q') = Some y) as Ht.
  { intros txid' y Hy. cbn. rewrite dget_dset_ne; [done|]. intros <-. congruence. }
  pose proof (λ i, ordinary_before q q' i Ht) as Hord. split.
  - split; try done.
    + intros i k' s Hi. by apply L6, Hord.
    + intros i k' Hi. by apply L7, Hord.
    + intros i k' s h r Hi Hr. by destruct (L8 _ _ _ _ _ (Hord _ Hi) Hr).
  - split; [|done| |done|exact Ht].
    + intros k' pt Hk. exists pt, []. rewrite app_nil_r. by split_and!.
    + intros k' o. change (floor_of q' k') with (floor_of q k'). lia.
Qed.

(** ** Retention *)

(** A record that goes is old, or the records from it on are too large. *)
Definition expirable (deadline mx size : Z) (vs : list Value) (j : nat) (v : Value) : Prop :=
  r_timestamp (record v) <= deadline ∨ mx < size - zsum size_of (take j vs).

Lemma expire_records_ok deadline mx size fl bh vs fl' bh' :
  chained fl bh vs → expire_records size_of deadline mx size fl bh vs = (fl', bh') →
  ∃ n, (n ≤ length vs)%nat ∧ fl' = fl + Z.of_nat n ∧ bh' = last_hash bh (take n vs) ∧
    ∀ j v, (j < n)%nat → vs !! j = Some v → expirable deadline mx size vs j v.
Proof.
  revert size fl bh. induction vs as [|v vs IH]; intros size fl bh; cbn [expire_records].
  { intros _ [= <- <-]. exists O. split_and!; [done|lia|done|lia]. }
  intros (Ho & Hp & Hh & Hc). destruct (_ && _) eqn:Eb; [intros [= <- <-]; exists O; split_and!; [lia|lia|done|lia]|].
  rewrite Ho. intros E. destruct (IH _ _ _ Hc E) as (n & Hn & -> & -> & He). exists (S n). split_and!; [simpl; lia|lia| |].
  - cbn [take]. by rewrite last_hash_cons.
  - intros [|j] u Hj Hu; unfold expirable; cbn [take zsum foldr].
    + injection Hu as <-. lia.
    + destruct (He j u ltac:(lia) Hu) as [H|H]; [by left|right; unfold zsum in *; lia].
Qed.

(** What retention does to a partition: [n] records go, each for a reason. *)
Lemma retain_partition_step k options now q q' :
  logs_ok q → retain_partition size_of nodes k options now q = Ok (q', tt) →
  q' = q ∨ ∃ pt n, dget k (parts q) = Some pt ∧ (Z.to_nat (floor pt) + n ≤ length (log pt))%nat ∧
    q' = set_retention (set_receipts (set_parts q (dset k (mk_part (p_leader pt) (p_epoch pt) (hwm pt) (floor pt + Z.of_nat n)
           (last_hash ZERO (take (Z.to_nat (floor pt) + n) (log pt))) (log pt)) (parts q))) (sequences q) (receipts q')) (retention_pending q') ∧
    dict_ok (receipts q') ∧ (∀ x y, dget x (receipts q') = Some y → dget x (receipts q) = Some y) ∧
    ∀ j v, (j < n)%nat → records pt !! j = Some v →
      expirable (now - t_retention options) (t_max_bytes options) (zsum size_of (records pt)) (records pt) j v.
Proof.
  intros Hq. unfold retain_partition. destruct (part q k) as [pt|] eqn:Ep; [|done]. cbn [rbind].
  assert (dget k (parts q) = Some pt) as Hk.
  { unfold part in Ep. destruct (topic q k.1); [|done]. cbn in Ep. destruct (negb _); [done|]. cbn in Ep. destruct (dget k (parts q)); [|done]. congruence. }
  destruct (expire_records _ _ _ _ _ _ _) as [fl bh] eqn:Ex. destruct (fl <=? floor pt) eqn:Ef; [intros [= <-]; by left|].
  intros [= <-]. pose proof (lo_parts _ _ _ Hq _ _ Hk) as [H1 H2 H3 H4].
  assert (chained (floor pt) (p_base_hash pt) (records pt)) as Hc.
  { rewrite H4. replace (floor pt) with (0 + Z.of_nat (Z.to_nat (floor pt))) at 1 by lia. apply chained_drop; [lia|exact H3]. }
  destruct (expire_records_ok _ _ _ _ _ _ _ _ (chained_take digest _ _ _ 4096 Hc) Ex) as (n & Hn & -> & -> & He).
  rewrite length_take in Hn. right. exists pt, n. split; [done|]. assert (length (records pt) = length (log pt) - Z.to_nat (floor pt))%nat as El
    by (unfold records; apply length_drop). split; [lia|]. split; [|split; [|split]].
  - rewrite H4, take_take, Nat.min_l, <- last_hash_app by lia. unfold records. by rewrite take_take_drop.
  - apply filter_dict, (lo_dict' _ _ _ Hq).
  - intros x y. apply filter_dict, (lo_dict' _ _ _ Hq).
  - intros j v Hj Hv. destruct (He j v Hj) as [H|H]; [by rewrite lookup_take_lt by lia|by left|right]. rewrite take_take, Nat.min_l in H by lia. done.
Qed.

Lemma retain_partition_logs k options now q q' :
  logs_ok q → retain_partition size_of nodes k options now q = Ok (q', tt) → logs_ok q'.
Proof.
  intros Hq Hr. destruct (retain_partition_step _ _ _ _ _ Hq Hr) as [->|(pt & n & Hk & Hn & Eq & Hd & Hrc & _)]; [done|]. clear Hr.
  pose proof (lo_parts _ _ _ Hq _ _ Hk) as [H1 H2 H3 H4]. generalize dependent (receipts q'). generalize (retention_pending q').
  intros rp rcs Eq Hd Hrc. subst q'. set (pt' := mk_part _ _ _ _ _ _). set (q' := set_retention _ _).
  assert (part_ok pt') as Hok' by (split; cbn; try done; [lia|]; do 2 f_equal; lia).
  assert (∀ k', log_of q' k' = log_of q k') as El.
  { intros k'. unfold log_of. cbn. rewrite dget_dset. case_decide as E; [|done]. subst k'. by rewrite Hk. }
  destruct Hq as [L1 L2 L3 L4 L5 L0 L6 L7 L8]. split; cbn; try done.
  - intros k' p. rewrite dget_dset. case_decide; [by intros [= <-]|by apply L1].
  - intros k' pend Hp. destruct (L3 _ _ Hp) as (pt0 & K1 & K2 & K3 & K4). rewrite dget_dset. case_decide as E; [|by exists pt0].
    subst k'. assert (pt0 = pt) as -> by congruence. by exists pt'.
  - intros i k' s h r Hr%Hrc. rewrite El. by apply L0.
  - intros i k' s Hi. rewrite El. by apply L6.
  - intros i k' Hi. rewrite El. by apply L7.
  - intros i k' s h r Hi Hr%Hrc. destruct (L8 _ _ _ _ _ Hi Hr). by split; rewrite ?El.
Qed.

Lemma retain_partition_ok k options now q q' :
  logs_ok q → limits q k.1 = Some (t_retention options, t_max_bytes options) → retained_at k now →
  retain_partition size_of nodes k options now q = Ok (q', tt) → evolves q q'.
Proof.
  intros Hq Hlim Hat Hr. split; [by eapply retain_partition_logs|].
  destruct (retain_partition_step _ _ _ _ _ Hq Hr) as [->|(pt & n & Hk & Hn & Eq & _ & _ & He)]; [apply grows_refl|]. clear Hr.
  pose proof (lo_parts _ _ _ Hq _ _ Hk) as [H1 H2 _ _]. generalize dependent (receipts q'). generalize (retention_pending q').
  intros rp rcs Eq. subst q'. set (pt' := mk_part _ _ _ _ _ _). set (q' := set_retention _ _).
  assert (∀ k', dget k' (parts q') = if decide (k = k') then Some pt' else dget k' (parts q)) as Hp by (intros k'; cbn; apply dget_dset).
  assert (∀ k', log_of q' k' = log_of q k') as El.
  { intros k'. unfold log_of. rewrite Hp. case_decide as E; [|done]. subst k'. by rewrite Hk. }
  split; [|done| |intros i k' s _ _; by rewrite El|done].
  - intros k' p Hp'. rewrite Hp. case_decide as E.
    + subst k'. assert (p = pt) as -> by congruence. exists pt', []. rewrite app_nil_r. split_and!; try done; cbn; lia.
    + exists p, []. rewrite app_nil_r. by split_and!.
  - intros k' o. unfold floor_of. rewrite Hp. case_decide as E; [|lia]. subst k'. rewrite Hk. cbn [floor pt']. intros Ho.
    set (j := (Z.to_nat o - Z.to_nat (floor pt))%nat).
    destruct (lookup_lt_is_Some_2 (records pt) j) as [v Hv]; [unfold records; rewrite length_drop; lia|].
    specialize (He j v ltac:(lia) Hv). unfold records in Hv. rewrite lookup_drop in Hv.
    replace (Z.to_nat (floor pt) + j)%nat with (Z.to_nat o) in Hv by lia.
    assert (log_of q' k = log pt) as El' by (rewrite El; unfold log_of; by rewrite Hk).
    exists (t_retention options), (t_max_bytes options), v, (length (log pt) - Z.to_nat o)%nat, now. rewrite El'. split; [done|].
    split; [done|]. split; [done|]. apply lookup_lt_Some in Hv. destruct He as [He|He]; [by left|right]. split; [lia|].
    rewrite <- (take_drop j (records pt)) in He at 1. rewrite zsum_app in He. unfold records in He. rewrite drop_drop in He.
    replace (Z.to_nat (floor pt) + j)%nat with (Z.to_nat o) in He by lia. rewrite take_ge by (rewrite length_drop; lia). lia.
Qed.

(** ** Groups *)

(** Only groups, members and what was delivered differ. *)
Record only_groups q q' : Prop := {
  og_topics : topics q' = topics q;
  og_parts : parts q' = parts q;
  og_producers : producers q' = producers q;
  og_sequences : sequences q' = sequences q;
  og_receipts : receipts q' = receipts q;
  og_pending : pending q' = pending q;
  og_cursors : cursors q' = cursors q;
  og_transactions : transactions q' = transactions q;
  og_retention : retention_pending q' = retention_pending q;
  og_world : world q' = world q;
}.

Lemma only_groups_same q q' : only_groups q q' → same_logs q q'.
Proof. intros []. by apply same_tables. Qed.

Lemma only_groups_refl q : only_groups q q.
Proof. by split. Qed.
Lemma only_groups_trans q1 q2 q3 : only_groups q1 q2 → only_groups q2 q3 → only_groups q1 q3.
Proof. intros [] []. split; congruence. Qed.

Lemma expire_only q g now : only_groups q (expire q g now).
Proof. unfold expire. destruct (existsb _ _); by split. Qed.

(** What a membership that was accepted says. *)
Record member_of (t g m s : string) (gen p : option Z) (now : Z) q q' (x : Membership) : Prop := {
  mo_state : q' = expire q (t, g) now;
  mo_generation : dget (t, g) (groups q') = Some (generation x);
  mo_session : ∃ row, dget (t, g, m) (members q') = Some row ∧ m_session row = s;
  mo_current : ∀ n, gen = Some n → generation x = n;
  mo_topic : ∃ options, topic q' t = Ok options ∧ assignments x = assigned (member_ids q' (t, g)) (t_partitions options) m;
  mo_owned : ∀ n, p = Some n → n ∈ assignments x;
}.

Lemma membership_Ok t g m s gen p now q q' x : membership t g m s gen p now q = Ok (q', x) → member_of t g m s gen p now q q' x.
Proof.
  unfold membership. intros (_ & (_ & (_ & H)%raise_if_Ok)%raise_if_Ok)%raise_if_Ok.
  destruct (dget (t, g) (groups _)) as [n|] eqn:E1; [|done]. destruct (dget (t, g, m) (members _)) as [row|] eqn:E2; [|done].
  apply raise_if_Ok in H as [Hs H]. apply raise_if_Ok in H as [Hg H]. destruct (topic _ t) as [options|] eqn:Et; [|done]. cbn [rbind] in H.
  apply raise_if_Ok in H as [Hp H]. injection H as <- <-. apply negb_false_iff, bool_decide_eq_true in Hs. split; cbn; try done.
  - by exists row.
  - intros n' ->. apply negb_false_iff in Hg. lia.
  - by exists options.
  - intros n' ->. by apply negb_false_iff, bool_decide_eq_true in Hp.
Qed.

Lemma membership_only t g m s gen p now q q' x : membership t g m s gen p now q = Ok (q', x) → only_groups q q'.
Proof. intros [-> _ _ _ _ _]%membership_Ok. apply expire_only. Qed.

Lemma insert_parts_ok t ps d d' :
  insert_parts nodes t ps d = Ok d' →
  (∀ k pt, dget k d = Some pt → dget k d' = Some pt) ∧
  (∀ k pt, dget k d = None → dget k d' = Some pt → part_ok pt ∧ log pt = []).
Proof.
  revert d. induction ps as [|p ps IH]; intros d; cbn [insert_parts]; [intros [= <-]; split; [done|congruence]|].
  destruct (tinsert _ _ _) as [d1|] eqn:E; [|done]. cbn [rbind]. apply raise_if_Ok in E as [Hd [= <-]]. apply dmem_false in Hd.
  intros H. destruct (IH _ H) as [H1 H2]. split.
  - intros k pt Hk. apply H1. rewrite dget_dset_ne by (intros <-; by pose proof (eq_trans (eq_sym Hk) Hd)). done.
  - intros k pt Hk Hk'. destruct (decide ((t, p) = k)) as [<-|Hne].
    + specialize (H1 (t, p)). rewrite dget_dset_eq in H1. rewrite (H1 _ eq_refl) in Hk'. injection Hk' as <-. by split.
    + apply (H2 k); [by rewrite dget_dset_ne|done].
Qed.

Lemma new_parts_same q q' t ps :
  (∀ u l, limits q u = Some l → limits q' u = Some l) → insert_parts nodes t ps (parts q) = Ok (parts q') → sequences q' = sequences q → receipts q' = receipts q → pending q' = pending q →
  transactions q' = transactions q → same_logs q q'.
Proof.
  intros H0 [H1 H2]%insert_parts_ok E1 E2 E3 E4. split; try done. intros k pt Hk. exists pt. split; [by apply H1|apply same_part_refl].
Qed.

(** Events leave logs, cursors and transactions alone. *)
Definition stirs q q' : Prop := same_logs q q' ∧ cursors q' = cursors q ∧ transactions q' = transactions q.

Lemma only_groups_stirs q q' : only_groups q q' → stirs q q'.
Proof. intros H. split; [by apply only_groups_same|]. split; apply H. Qed.

Lemma keep_stirs {A} q (r : result (Queue * A)) : (∀ q' a, r = Ok (q', a) → stirs q q') → stirs q (keep q r).
Proof. intros H. destruct r as [[q' a]|e]; [by eapply H|apply only_groups_stirs, only_groups_refl]. Qed.

Lemma join_only t g m s now q q' x : join lease t g m s now q = Ok (q', x) → only_groups q q'.
Proof.
  unfold join. intros [_ H]%raise_if_Ok. destruct (topic q t); [|done]. cbn [rbind] in H.
  apply membership_only in H. eapply only_groups_trans; [|exact H].
  apply (only_groups_trans _ (expire (if dmem (t, g) (groups q) then q else set_groups q (dset (t, g) 0 (groups q)) (members q) (delivered q)) (t, g) now));
    [|by split].
  eapply only_groups_trans; [|apply expire_only]. by destruct (dmem _ _).
Qed.

Lemma event_stirs q e : stirs q (event nodes lease q e).
Proof.
  destruct e as [t n r b s|t g m s now|t g m s now|t g m s now|t n]; apply keep_stirs; intros q' a.
  - unfold create. intros (_ & (_ & (_ & (_ & (_ & (Hn & H)%raise_if_Ok)%raise_if_Ok)%raise_if_Ok)%raise_if_Ok)%raise_if_Ok)%raise_if_Ok.
    destruct (insert_parts _ _ _ _) as [ps|] eqn:E; [|done]. injection H as <- <-. split; [|done]. eapply new_parts_same; try done.
    intros u l. unfold limits. cbn. rewrite dget_dset. apply dmem_false in Hn. case_decide as Eu; [|done]. subst u. by rewrite Hn.
  - intros H. by eapply only_groups_stirs, join_only.
  - unfold heartbeat. destruct (membership _ _ _ _ _ _ _ _) as [[q1 x]|] eqn:E; [|done]. intros [= <- <-].
    apply only_groups_stirs. eapply only_groups_trans; [by eapply membership_only|by split].
  - unfold leave. destruct (membership _ _ _ _ _ _ _ _) as [[q1 x]|] eqn:E; [|done]. cbn [rbind fst]. destruct (dlookup _ _); [|done].
    intros [= <- <-]. apply only_groups_stirs. eapply only_groups_trans; [by eapply membership_only|by split].
  - unfold expand. intros [_ H]%raise_if_Ok. destruct (topic q t) as [o|] eqn:Eo; [|done]. cbn [rbind] in H. apply raise_if_Ok in H as [_ H].
    destruct (insert_parts _ _ _ _) as [ps|] eqn:E; [|done]. injection H as <- <-. split; [|done]. eapply new_parts_same; try done.
    apply raise_if_Ok in Eo as [_ Eo]. destruct (dget t (topics q)) as [o'|] eqn:Et; [|done]. injection Eo as ->.
    intros u l. unfold limits. cbn. rewrite dget_dset. case_decide as Eu; [|done]. subst u. by rewrite Et.
Qed.
Lemma events_stir q es : stirs q (foldl (event nodes lease) q es).
Proof.
  revert q. induction es as [|e es IH]; intros q; [apply only_groups_stirs, only_groups_refl|].
  destruct (event_stirs q e) as (H1 & H2 & H3), (IH (event nodes lease q e)) as (H4 & H5 & H6). cbn [foldl].
  split; [by eapply same_logs_trans|]. split; congruence.
Qed.
End transactions.
