(* ===== verification/QueueRun.v ===== *)
(** * Every operation of the coordinator keeps the invariant

    A triple over the transactions of an operation, and with it what producing,
    transactions and maintenance do to the logs, whatever the brokers answer. *)
From S2P Require Import Prelude PyList PyDict Checks Effects Messages BrokerLog QueueState QueueGroups QueueReplication QueueCoordinator QueueInv QueueSteps.
Local Open Scope Z_scope.

Section triple.
Context {W : Type} (rpc : string → PartKey → Request → W → W * result Reply).
Context (digest : string → Rec → string) (size_of : Value → Z) (nodes : list string) (lease : Z).
Context (fingerprint : list Message → string) (crc : string → Z) (retained_at : PartKey → Z → Prop).
Local Notation Queue := (QueueState.Queue W).
Local Notation M := (Effects.M Queue).
Local Notation logs_ok := (QueueInv.logs_ok digest fingerprint).
Local Notation evolves := (QueueSteps.evolves digest size_of fingerprint retained_at).
Local Notation flush := (QueueCoordinator.flush rpc digest size_of nodes).
Implicit Types q : Queue.

(** From a good state [m] leads to a good one that only grew, with [Q] if it returns. *)
Definition tri {A} (m : M A) (Q : A → Queue → Prop) q : Prop :=
  logs_ok q → wp m (λ a q', evolves q q' ∧ Q a q') (λ _ q', evolves q q') q.

Lemma tri_bind {A B} (m : M A) (f : A → M B) R Q q :
  tri m R q → (∀ a q', evolves q q' → R a q' → tri (f a) Q q') → tri (mbind m f) Q q.
Proof.
  intros Hm Hf Hq. apply wp_bind. eapply wp_mono; [by apply Hm| |done]. intros a q' [He Ha].
  eapply wp_mono; [apply (Hf a q' He Ha), He| |]; cbn.
  - intros b q2 [He2 Hb]. split; [by eapply evolves_trans|done].
  - intros e q2 He2. by eapply evolves_trans.
Qed.

Lemma tri_mono {A} (m : M A) (Q Q' : A → Queue → Prop) q : tri m Q q → (∀ a q', evolves q q' → Q a q' → Q' a q') → tri m Q' q.
Proof. intros Hm HQ Hq. eapply wp_mono; [by apply Hm| |done]. intros a q' [He Ha]. split; [done|by apply HQ]. Qed.

Lemma tri_ret {A} (a : A) (Q : A → Queue → Prop) q : Q a q → tri (mret a) Q q.
Proof. intros HQ Hq. by split; [apply evolves_start|]. Qed.
Lemma tri_raise {A} e (Q : A → Queue → Prop) q : tri (mraise e) Q q.
Proof. intros Hq. by apply evolves_start. Qed.
Lemma tri_query {A} (f : Queue → result A) (Q : A → Queue → Prop) q : (∀ a, f q = Ok a → Q a q) → tri (query f) Q q.
Proof. intros HQ Hq. unfold wp, query. destruct (f q) as [a|e]; [split; [by apply evolves_start|by apply HQ]|by apply evolves_start]. Qed.
Lemma tri_lift {A} (r : result A) (Q : A → Queue → Prop) q : (∀ a, r = Ok a → Q a q) → tri (mlift r) Q q.
Proof. apply (tri_query (λ _, r)). Qed.
Lemma tri_require b (Q : unit → Queue → Prop) q : (b = true → Q tt q) → tri (require b) Q q.
Proof. intros HQ. apply tri_lift. intros [] H. apply HQ. by destruct b. Qed.

Lemma tri_quiet {A} (m : M A) q : quiet m → tri m (λ _ q', outside q q') q.
Proof.
  intros Hm Hq. specialize (Hm q). assert (evolves q (m q).1) as He by (eapply evolves_same; [done|by eapply outside_same]).
  unfold wp. by destruct (m q) as [q' [a|e]].
Qed.

Lemma tri_transaction {A} (tx : Queue → result (Queue * A)) (Q : A → Queue → Prop) q :
  (∀ q' a, logs_ok q → tx q = Ok (q', a) → evolves q q' ∧ Q a q') → tri (transaction tx) Q q.
Proof.
  intros H Hq. unfold wp, transaction. destruct (tx q) as [[q' a]|e] eqn:E; [by apply H|by apply evolves_start].
Qed.

Lemma tri_attempt {A} (m : M A) (Q : option A → Queue → Prop) q : tri m (λ a, Q (Some a)) q → (∀ q', evolves q q' → Q None q') → tri (attempt m) Q q.
Proof.
  intros Hm HQ Hq. specialize (Hm Hq). unfold wp, attempt in *. destruct (m q) as [q' [a|e]]; [done|]. destruct (caught e); [|done].
  split; [done|by apply HQ].
Qed.

Lemma tri_run {A} (m : M A) Q q : tri m Q q → logs_ok q → evolves q (m q).1.
Proof. intros Hm Hq. specialize (Hm Hq). unfold wp in Hm. destruct (m q) as [q' [a|e]]; [by destruct Hm|done]. Qed.

(** ** Producing *)

(** What [_flush] returns. *)
Definition flushed (k : PartKey) q (r : option Receipt) q' : Prop :=
  dget k (pending q') = None ∧
  match r with
  | None => q' = q
  | Some rc => ∃ pend pr ep s h, dget k (pending q) = Some pend ∧ origin pend = Produced pr ep s h ∧
      dget ((pr, ep), k, s) (receipts q') = Some (h, rc)
  end.

Lemma flush_tri k q : tri (flush k) (flushed k q) q.
Proof.
  eapply tri_bind; [by apply (tri_query _ (λ row q', q' = q ∧ row = dget k (pending q))); intros a [= <-]|].
  intros row q1 _ [-> Hrow]. destruct row as [pend|]; [|by apply tri_ret]. destruct (origin pend) as [pr ep s h|txid] eqn:Eo; [|apply tri_raise].
  eapply tri_bind; [apply tri_quiet; auto with quiet|]. intros synced q2 _ Ho.
  eapply tri_bind.
  - apply (tri_transaction _ (λ r q', dget k (pending q') = None ∧ dget ((pr, ep), k, s) (receipts q') = Some (h, r))).
    intros q3 r Hq2 Hf. apply (finalize_ok digest size_of fingerprint retained_at) in Hf as (He & _ & Ep & _ & Hr);
      [|done|by rewrite (os_pending _ _ Ho)|unfold known; by rewrite Eo].
    rewrite Eo in Hr. rewrite Ep. split; [done|]. split; [|done]. apply dget_ddel_eq, (lo_dict _ _ _ Hq2).
  - intros r q3 _ [H1 H2]. apply tri_ret. split; [done|]. by exists pend, pr, ep, s, h.
Qed.

Lemma provisional_tri k vs q : tri (provisional rpc digest size_of nodes k vs) (λ r _, ∃ rc, r = Some rc ∧ rc_committed rc = false) q.
Proof.
  eapply tri_bind; [apply tri_quiet; auto with quiet|]. intros synced q2 _ _. apply tri_ret. by eexists.
Qed.

Lemma part_Ok q k pt : part q k = Ok pt → dget k (parts q) = Some pt.
Proof.
  unfold part. destruct (topic q k.1); [|done]. cbn [rbind]. intros [_ H]%raise_if_Ok. destruct (dget k (parts q)); [|done]. congruence.
Qed.

(** A returned receipt: provisional, or the one of the committed batch. *)
Definition acknowledged (k : PartKey) (i : Identity) (s : Z) (h : string) (r : option Receipt) q' : Prop :=
  match r with Some rc => rc_committed rc = true → dget (i, k, s) (receipts q') = Some (h, rc) | None => True end.

Lemma provisional_acknowledged k vs i s h q :
  tri (provisional rpc digest size_of nodes k vs) (acknowledged k i s h) q.
Proof. eapply tri_mono; [apply provisional_tri|]. intros r q' _ (rc & -> & E). cbn. congruence. Qed.

Lemma flush_acknowledged k pend pr ep s h q :
  dget k (pending q) = Some pend → origin pend = Produced pr ep s h → tri (flush k) (acknowledged k (pr, ep) s h) q.
Proof.
  intros Hp Eo. eapply tri_mono; [apply flush_tri|]. intros [rc|] q' _ [_ H]; [|done]. cbn in *. intros _.
  destruct H as (pend' & pr' & ep' & s' & h' & Hp' & Eo' & Hr). rewrite Hp in Hp'. injection Hp' as <-. rewrite Eo in Eo'. by injection Eo' as <- <- <- <-.
Qed.

Lemma produce_new_tri k pr ep s ms lo now q :
  ms ≠ [] → dget k (pending q) = None →
  tri (produce_new rpc digest size_of nodes fingerprint k pr ep s ms lo now) (acknowledged k (pr, ep) s (fingerprint ms)) q.
Proof.
  intros Hms Hp Hq. revert Hq. eapply tri_bind.
  - apply (tri_query _ (λ vs q', q' = q ∧ ∃ pt, dget k (parts q) = Some pt ∧ s = expected q (pr, ep) k ∧ new_values digest pt ms pr ep s now = Ok vs)).
    intros vs H. split; [done|]. destruct (part q k) as [pt|] eqn:Ep; [|done]. cbn [rbind] in H. apply raise_if_Ok in H as [_ H].
    apply raise_if_Ok in H as [Hs H]. exists pt. split; [by apply part_Ok|]. split; [|done]. by apply negb_false_iff, Z.eqb_eq in Hs.
  - intros vs q1 _ (-> & pt & Hk & Hs & Hv). eapply tri_bind.
    + eapply (tri_transaction _ (λ _ q', dget k (pending q') = Some (mk_pending (Produced pr ep s (fingerprint ms)) vs))). intros q' [] Hq H.
      destruct (new_values_ok digest pt ms pr ep s now (lo_parts _ _ _ Hq _ _ Hk) Hms) as (vs' & Hv' & Hne & Hc & Hr).
      rewrite Hv in Hv'. injection Hv' as <-. destruct (tinsert _ _ _) as [d|] eqn:Et; [|done]. injection H as <-.
      destruct (insert_pending_ok digest size_of fingerprint retained_at q k _ d pt Hq Et Hk Hne Hc) as (He & _ & Hd); [|done].
      split; [done|]. eexists ms, _, _. by split.
    + intros [] q2 _ Hp2. destruct lo; [apply provisional_acknowledged|]. by eapply flush_acknowledged.
Qed.

Lemma produce_locked_tri k pr ep s ms lo now q :
  ms ≠ [] → tri (produce_locked rpc digest size_of nodes fingerprint k pr ep s ms lo now) (acknowledged k (pr, ep) s (fingerprint ms)) q.
Proof.
  intros Hms. eapply tri_bind.
  - apply (tri_query _ (λ x q', q' = q ∧ match x with inl r => dget ((pr, ep), k, s) (receipts q) = Some (fingerprint ms, r)
      | inr p => p = dget k (pending q) end)).
    intros x H. split; [done|]. destruct (part q k); [|done]. cbn [rbind] in H. apply raise_if_Ok in H as [_ H].
    destruct (dget ((pr, ep), k, s) (receipts q)) as [[h r]|] eqn:Er.
    + apply raise_if_Ok in H as [Hh [= <-]]. apply negb_false_iff, bool_decide_eq_true in Hh. by subst h.
    + by injection H as <-.
  - intros x q1 _ [-> Hx]. destruct x as [r|[pend|]]; [apply tri_ret; by intros _| |by apply produce_new_tri].
    destruct (matches pend pr ep s) as [h|] eqn:Em.
    + unfold matches in Em. destruct (origin pend) as [pr' ep' s' h'|] eqn:Eo; [|done].
      destruct (bool_decide (pr' = pr)) eqn:E1; [|done]. apply bool_decide_eq_true in E1 as ->.
      destruct (ep' =? ep) eqn:E2; [|done]. destruct (s' =? s) eqn:E3; [|done]. injection Em as <-.
      apply Z.eqb_eq in E2 as ->. apply Z.eqb_eq in E3 as ->. case_bool_decide as Hh; [|apply tri_raise]. subst h'. cbn [negb].
      destruct lo; [apply provisional_acknowledged|]. by eapply flush_acknowledged.
    + eapply tri_bind; [apply flush_tri|]. intros r q2 _ [Hp _]. by apply produce_new_tri.
Qed.

Lemma freeze_Ok n ms ms' : freeze_messages n ms = Ok ms' → ms' = ms ∧ ms ≠ [].
Proof. intros [H [_ E]%raise_if_Ok]%raise_if_Ok. injection E as E. split; [done|]. intros E'. by rewrite E' in H. Qed.

Lemma produce_tri t pr ep s ms p lo now q :
  tri (produce rpc digest size_of nodes fingerprint crc t pr ep s ms p lo now)
    (λ r q', ∃ n, acknowledged (t, n) (pr, ep) s (fingerprint ms) r q') q.
Proof.
  eapply tri_bind; [by apply (tri_require _ (λ _ _, True))|]. intros _ q1 _ _.
  eapply tri_bind; [apply (tri_lift _ (λ ms' _, ms' = ms ∧ ms ≠ [])), freeze_Ok|]. intros ms' q2 _ [-> Hms].
  eapply tri_bind; [by apply (tri_query _ (λ _ _, True))|]. intros n q3 _ _.
  eapply tri_bind; [by apply (tri_require _ (λ _ _, True))|]. intros _ q4 _ _.
  eapply tri_mono; [by apply produce_locked_tri|]. intros r q' _ H. by exists n.
Qed.

(** ** Fetching and cursors *)

Lemma fetch_page_quiet k o n fs now : quiet (fetch_page (W:=W) rpc digest nodes k o n fs now).
Proof.
  apply quiet_bind; [auto with quiet|]. intros []. apply quiet_bind; [auto with quiet|]. intros pt.
  do 3 (case_match; [auto with quiet|]). apply quiet_bind; [auto with quiet|]. intros [[pt' node] h].
  apply quiet_bind; [auto with quiet|]. intros vs. destruct (visible fs now vs). auto with quiet.
Qed.

Lemma fetch_quiet t p o n fs now : quiet (fetch (W:=W) rpc digest nodes t p o n fs now).
Proof.
  apply quiet_bind; [auto with quiet|]. intros []. apply quiet_bind; [auto with quiet|]. intros f. apply fetch_page_quiet.
Qed.

Lemma only_groups_evolves q q' : logs_ok q → only_groups q q' → evolves q q'.
Proof. intros Hq H. apply evolves_same; [done|]. by apply only_groups_same. Qed.

Lemma tri_same {A} (tx : Queue → result (Queue * A)) q :
  (∀ q' a, tx q = Ok (q', a) → same_logs digest q q') → tri (transaction tx) (λ _ _, True) q.
Proof. intros H. apply tri_transaction. intros q' a Hq E. split; [|done]. apply evolves_same; [done|]. by eapply H. Qed.

Lemma same_cursor q q1 k n : only_groups q q1 → same_logs digest q (set_cursor q1 k n).
Proof. intros []. by apply same_tables. Qed.

Lemma validate_only src next ex now q q' : validate_commit src next ex now q = Ok q' → only_groups q q'.
Proof.
  unfold validate_commit. intros (_ & (_ & H)%raise_if_Ok)%raise_if_Ok.
  destruct (membership _ _ _ _ _ _ _ _) as [[q1 x]|] eqn:E; [|done]. cbn [rbind fst] in H.
  destruct (dget _ (delivered q1)) as [[gen bound]|]; [|done]. apply raise_if_Ok in H as [_ [= <-]]. by eapply membership_only.
Qed.

Lemma meanwhile_tri es q : tri (meanwhile nodes lease es) (λ _ q', same_logs digest q q') q.
Proof.
  intros Hq. destruct (events_stir digest nodes lease q es) as [H _]. split; [by apply evolves_same|done].
Qed.

Lemma group_fetch_tri t g m s gen p limit amo fs now es later q :
  tri (group_fetch rpc digest nodes lease t g m s gen p limit amo fs now es later) (λ _ _, True) q.
Proof.
  do 3 (eapply tri_bind; [(by apply (tri_require _ (λ _ _, True))) || by apply (tri_lift _ (λ _ _, True))|]; intros ? ? _ _).
  eapply tri_bind.
  - apply tri_same. intros qn x H. destruct (membership _ _ _ _ _ _ _ _) as [[q1 y]|] eqn:E; [|done]. injection H as <- _.
    by eapply only_groups_same, membership_only.
  - intros o q1 _ _. eapply tri_bind; [apply tri_quiet, fetch_page_quiet|]. intros page q2 _ _.
    eapply tri_bind; [apply meanwhile_tri|]. intros _ q3 _ _. eapply tri_bind; [|intros; by apply tri_ret].
    apply tri_same. intros qn x H. destruct (membership _ _ _ _ _ _ _ _) as [[q4 y]|] eqn:E; [|done]. injection H as <- _.
    apply membership_only in E as []. by destruct amo; apply same_tables.
Qed.

Lemma commit_tri src next now q : tri (commit src next now) (λ _ _, True) q.
Proof.
  eapply tri_bind; [by apply (tri_require _ (λ _ _, True))|]. intros _ q1 _ _. apply tri_same. intros qn x H.
  destruct (validate_commit _ _ _ _ _) as [q2|] eqn:E; [|done]. injection H as <- _. by eapply same_cursor, validate_only.
Qed.

Lemma reset_tri src target now q : tri (reset src target now) (λ _ _, True) q.
Proof.
  eapply tri_bind; [by apply (tri_require _ (λ _ _, True))|]. intros _ q1 _ _. apply tri_same. intros qn x H.
  destruct (membership _ _ _ _ _ _ _ _) as [[q2 y]|] eqn:E; [|done]. cbn [rbind fst] in H. destruct (part _ _) as [pt|]; [|done].
  cbn [rbind] in H. destruct (match target with Earliest => _ | _ => _ end) as [n|]; [|done]. cbn [rbind] in H.
  apply raise_if_Ok in H as [_ [= <- _]]. apply membership_only in E as []. by apply same_tables.
Qed.

(** ** Retention and maintenance *)

Lemma retry_retention_tri k q : tri (retry_retention rpc k) (λ _ _, True) q.
Proof.
  eapply tri_bind; [by apply (tri_query _ (λ _ _, True))|]. intros rows q1 _ _. revert q1.
  induction rows as [|[[k' node] [base bh]] rows IH]; intros q1; [by apply tri_ret|]. cbn [retry_rows].
  eapply tri_bind; [|intros ? ? _ _; apply IH]. apply (tri_attempt _ (λ _ _, True)); [|done].
  eapply tri_bind; [apply tri_quiet; auto with quiet|]. intros r q2 _ _.
  eapply tri_bind; [destruct r; (by apply (tri_require _ (λ _ _, True))) || apply tri_raise|]. intros _ q3 _ _.
  apply tri_same. intros qn x [= <- _]. by apply same_tables.
Qed.

Lemma retain_tri t now q : (∀ p, retained_at (t, p) (now p)) → tri (retain rpc size_of nodes t now) (λ _ _, True) q.
Proof.
  intros Hat. eapply tri_bind.
  - apply (tri_query _ (λ options q', limits q' t = Some (t_retention options, t_max_bytes options))). intros options H.
    unfold topic in H. apply raise_if_Ok in H as [_ H]. unfold limits. destruct (dget t (topics q)); [|done]. by injection H as ->.
  - intros options q1 _ Hl. revert q1 Hl.
    induction (seqZ 0 (t_partitions options)) as [|p ps IH]; intros q1 Hl; [by apply tri_ret|]. cbn [retain_all].
    eapply tri_bind; [apply (tri_transaction _ (λ _ _, True))|].
    + intros q' [] Hq H. split; [|done]. by apply (retain_partition_ok digest size_of nodes fingerprint retained_at (t, p) options (now p)); [| |apply Hat|].
    + intros _ q2 [_ Hg2] _. eapply tri_bind; [apply retry_retention_tri|]. intros _ q3 [_ Hg3] _. apply IH.
      by apply (gw_limits _ _ _ _ Hg3), (gw_limits _ _ _ _ Hg2).
Qed.

Lemma attempt_io_tri (m : M unit) q : tri m (λ _ _, True) q → tri (attempt_io m) (λ _ _, True) q.
Proof.
  intros H Hq. specialize (H Hq). unfold wp, attempt_io in *. destruct (m q) as [q' [a|e]]; [done|]. by destruct e.
Qed.

Lemma each_tri {B} (f : B → M unit) l q : (∀ x q, tri (f x) (λ _ _, True) q) → tri (each f l) (λ _ _, True) q.
Proof.
  intros Hf. revert q. induction l as [|x l IH]; intros q; [by apply tri_ret|]. eapply tri_bind; [apply Hf|]. intros _ q' _ _. apply IH.
Qed.

Lemma maintenance_tri now q : (∀ k, retained_at k (now k.2)) → tri (maintenance rpc digest size_of nodes now) (λ _ _, True) q.
Proof.
  intros Hat. do 2 (eapply tri_bind; [by apply (tri_query _ (λ _ _, True))|]; intros ? ? _ _). eapply tri_bind; [apply each_tri|].
  - intros x qn. destruct (origin x.2); [|by apply tri_ret]. apply attempt_io_tri. eapply tri_bind; [apply flush_tri|]. intros. by apply tri_ret.
  - intros _ qm _ _. apply each_tri. intros t q2. apply attempt_io_tri, retain_tri. intros p. apply (Hat (t, p)).
Qed.
End triple.
