(* ===== verification/QueueProcess.v ===== *)
(** * Transactions and pages of the queue

    [process] stages its outputs partition by partition and publishes them with the
    input cursor in one transaction; what it may change besides is that a batch already
    waiting in an output partition is committed first.  And whatever a broker answers, a
    page that passes the comparison with the metadata holds the records of the log, unless
    two inputs of the hash collide. *)
From S2P Require Import Prelude PyList PyDict Checks Effects Messages BrokerLog QueueState QueueGroups QueueReplication QueueCoordinator QueueInv QueueSteps QueueRun.
Local Open Scope Z_scope.

Section process.
Context {W : Type} (rpc : string → PartKey → Request → W → W * result Reply).
Context (digest : string → Rec → string) (size_of : Value → Z) (nodes : list string) (lease : Z).
Context (fingerprint : list Message → string) (tx_hash : Source → Z → Z → list Output → string).
Context (retained_at : PartKey → Z → Prop).
Local Notation Queue := (QueueState.Queue W).
Local Notation M := (Effects.M Queue).
Local Notation logs_ok := (QueueInv.logs_ok digest fingerprint).
Local Notation evolves := (QueueSteps.evolves digest size_of fingerprint retained_at).
Local Notation flush := (QueueCoordinator.flush rpc digest size_of nodes).
Implicit Types q : Queue.

(** The log of a partition once its waiting batch is committed. *)
Definition settled q (k : PartKey) : list Value :=
  log_of q k ++ match dget k (pending q) with Some pend => values pend | None => [] end.

Definition undisturbed q q' (k : PartKey) : Prop := log_of q' k = log_of q k ∧ dget k (pending q') = dget k (pending q).

(** Nothing happened to a partition, or the waiting batch of a producer was committed. *)
Definition settles q q' (k : PartKey) : Prop :=
  undisturbed q q' k ∨
  ∃ pend, dget k (pending q) = Some pend ∧ (∀ txid, origin pend ≠ Staged txid) ∧ log_of q' k = settled q k ∧ dget k (pending q') = None.

Definition not_staged q (k : PartKey) : Prop := ∀ pend txid, dget k (pending q) = Some pend → origin pend ≠ Staged txid.

Definition kept q q' : Prop := cursors q' = cursors q ∧ transactions q' = transactions q.

Lemma undisturbed_trans q1 q2 q3 k : undisturbed q1 q2 k → undisturbed q2 q3 k → undisturbed q1 q3 k.
Proof. intros [] []. split; congruence. Qed.
Lemma kept_trans q1 q2 q3 : kept q1 q2 → kept q2 q3 → kept q1 q3.
Proof. intros [] []. split; congruence. Qed.

Lemma settles_trans q1 q2 q3 k : settles q1 q2 k → settles q2 q3 k → settles q1 q3 k.
Proof.
  intros [H1|(p & Hp & Ho & El & Ep)] [H2|(p' & Hp' & Ho' & El' & Ep')]; [left; by eapply undisturbed_trans| | |congruence].
  - destruct H1 as [E1 E2]. right. exists p'. unfold settled in *. rewrite <- E2, <- E1. by split_and!.
  - destruct H2 as [E1 E2]. right. exists p. by rewrite E1, E2.
Qed.

Lemma same_undisturbed q q' k : same_logs digest q q' → undisturbed q q' k.
Proof. intros H. split; [by eapply same_log_of|by rewrite (sl_pending _ _ _ H)]. Qed.

Lemma finalize_kept k pend synced q q' r : finalize k pend synced q = Ok (q', r) → kept q q'.
Proof.
  unfold finalize. destruct (last (values pend)); [|done]. destruct (origin pend); [|by intros [= <- _]].
  destruct (tinsert _ _ _); [|done]. by intros [= <- _].
Qed.

(** [finalize] on the logs of all partitions. *)
Lemma finalize_settles q k pend synced q' r :
  logs_ok q → dget k (pending q) = Some pend → known q pend → finalize k pend synced q = Ok (q', r) →
  evolves q q' ∧ kept q q' ∧ log_of q' k = log_of q k ++ values pend ∧ dget k (pending q') = None ∧
  (∀ k', k' ≠ k → undisturbed q q' k') ∧ r = mk_receipt k.1 k.2 (v_offset <$> values pend) true synced.
Proof.
  intros Hq Hp Htx Hf. pose proof (finalize_kept _ _ _ _ _ _ Hf) as Hk.
  destruct (finalize_ok digest size_of fingerprint retained_at _ _ _ _ _ _ Hq Hp Htx Hf) as (He & Hx & Ep & -> & _).
  pose proof (extended_log digest _ _ _ _ k Hx) as El. rewrite decide_True in El by done.
  split; [done|]. split; [done|]. split; [done|]. split; [|split; [|done]].
  - rewrite Ep. apply dget_ddel_eq, (lo_dict _ _ _ Hq).
  - intros k' Hne. split; [rewrite (extended_log digest _ _ _ _ k' Hx); by rewrite decide_False|].
    rewrite Ep, dget_ddel by apply (lo_dict _ _ _ Hq). by rewrite decide_False.
Qed.

Lemma quiet_kept {A} (m : M A) q : logs_ok q → quiet m → let q' := (m q).1 in evolves q q' ∧ kept q q' ∧ ∀ k, undisturbed q q' k.
Proof.
  intros Hq Hm. specialize (Hm q). pose proof (outside_same digest _ _ Hm) as Hs. cbn zeta. split; [|split].
  - by apply evolves_same.
  - split; apply Hm.
  - intros k. by apply same_undisturbed.
Qed.

Lemma flush_wp k q : logs_ok q →
  wp (flush k)
    (λ _ q', evolves q q' ∧ kept q q' ∧ dget k (pending q') = None ∧ settles q q' k ∧ ∀ k', k' ≠ k → undisturbed q q' k')
    (λ _ q', evolves q q' ∧ kept q q' ∧ ∀ k', undisturbed q q' k') q.
Proof.
  intros Hq. unfold flush. apply wp_bind. cbn. destruct (dget k (pending q)) as [pend|] eqn:Ep.
  2: { cbn. split_and!; try done; [by apply evolves_start|by left]. }
  destruct (origin pend) as [pr ep s h|txid] eqn:Eo; [|by split_and!; [apply evolves_start|..]].
  apply wp_bind. pose proof (quiet_kept _ q Hq (replicate_quiet rpc digest size_of nodes k (values pend) false)) as (He & Hk & Hu).
  unfold wp. destruct (replicate _ _ _ _ _ _ _ q) as [q1 [synced|e]]; [|done]. cbn in He, Hk, Hu.
  unfold mbind, transaction. destruct (Hu k) as [El1 Ep1]. rewrite Ep in Ep1.
  destruct (finalize k pend synced q1) as [[q2 r]|e] eqn:Ef; [|by split_and!].
  destruct (finalize_settles _ _ _ _ _ _ (proj1 He) Ep1 ltac:(unfold known; by rewrite Eo) Ef) as (He2 & Hk2 & El2 & Ep2 & Hu2 & _). cbn.
  split_and!; [by eapply evolves_trans|by eapply kept_trans|done| |].
  - right. exists pend. split_and!; try done; [by rewrite Eo|]. unfold settled. by rewrite Ep, El2, El1.
  - intros k' Hne. eapply undisturbed_trans; [apply Hu|by apply Hu2].
Qed.

(** ** Staging *)

Definition tx_records (txid : string) (o : Output) (vs : list Value) : Prop :=
  ∃ n now, record <$> vs = records_from n (o_messages o) ("tx_" +:+ txid) 0 0 now.

(** An output waits in its partition, behind what was there. *)
Definition staged_as (txid : string) q q' (x : Output * Pending) : Prop :=
  let k := o_key x.1 in
  dget k (pending q') = Some x.2 ∧ origin x.2 = Staged txid ∧ log_of q' k = settled q k ∧ not_staged q k ∧
  tx_records txid x.1 (values x.2).

Definition keys (l : list (Output * Pending)) : list PartKey := map (λ x, o_key x.1) l.

Lemma stage_wp txid o now q : logs_ok q → o_messages o ≠ [] →
  wp (stage rpc digest size_of nodes txid o now)
    (λ pend q', evolves q q' ∧ kept q q' ∧ staged_as txid q q' (o, pend) ∧ ∀ k', k' ≠ o_key o → undisturbed q q' k')
    (λ _ q', evolves q q' ∧ kept q q' ∧ ∀ k', settles q q' k') q.
Proof.
  intros Hq Hms. apply wp_bind. eapply wp_mono; [by apply flush_wp| |].
  2: { intros e q1 (He & Hk & Hu). split; [done|]. split; [done|]. intros k'. left. apply Hu. }
  intros r q1 (He & Hk & Hp & Hs & Hu).
  assert (∀ k', settles q q1 k') as Hall by (intros k'; destruct (decide (k' = o_key o)) as [->|]; [done|left; by apply Hu]).
  apply wp_bind. unfold wp at 1, query. destruct (part q1 (o_key o)) as [pt|e] eqn:Ept; [|done]. cbn [rbind].
  apply part_Ok in Ept. pose proof (lo_parts _ _ _ (proj1 He) _ _ Ept) as Hpt.
  destruct (new_values_ok digest pt (o_messages o) ("tx_" +:+ txid) 0 0 now Hpt Hms) as (vs & -> & Hne & Hc & Hr).
  apply wp_bind. unfold insert_pending, wp at 1, transaction. set (pend := mk_pending (Staged txid) vs).
  destruct (tinsert (o_key o) pend (pending q1)) as [d|] eqn:Et; [|done]. cbn [rbind].
  destruct (insert_pending_ok digest size_of fingerprint retained_at q1 _ pend d pt (proj1 He) Et Ept Hne Hc) as (He2 & _ & Hd).
  { intros v Hv. assert (record v ∈ record <$> vs) as Hin by (by apply list_elem_of_fmap_2). rewrite Hr in Hin.
    unfold records_from in Hin. apply list_elem_of_lookup in Hin as [j Hj]. rewrite list_lookup_imap in Hj.
    apply fmap_Some in Hj as (m & _ & Em). unfold written_by. by rewrite Em. }
  unfold wp, mret. split; [by eapply evolves_trans|]. split; [done|]. split.
  - split; [done|]. split; [done|]. split; [|split; [|by exists (hwm pt + 1), now]]; cbn [fst].
    + change (log_of q1 (o_key o) = settled q (o_key o)).
      destruct Hs as [[E1 E2]|(p & _ & _ & El & _)]; [|done]. unfold settled. by rewrite E1, <- E2, Hp, app_nil_r.
    + intros p txid' Hp'. destruct Hs as [[E1 E2]|(p' & E1 & E2 & _)]; congruence.
  - intros k' Hne'. destruct (Hu k' Hne') as [E1 E2]. split; [done|]. cbn. rewrite <- E2.
    apply raise_if_Ok in Et as [_ [= <-]]. by rewrite dget_dset_ne.
Qed.

(** Some outputs are staged, and nothing else but batches that waited happened. *)
Record staging (txid : string) q q' (done : list (Output * Pending)) : Prop := {
  sg_evolves : evolves q q';
  sg_kept : kept q q';
  sg_done : ∀ x, x ∈ done → staged_as txid q q' x;
  sg_others : ∀ k, k ∉ keys done → settles q q' k;
}.

Lemma stage_all_ok txid os now done q q1 q2 staged failure :
  staging txid q q1 done → NoDup (keys done ++ map o_key os) → (∀ o, o ∈ os → o_messages o ≠ []) →
  (∀ k, k ∉ keys done → undisturbed q q1 k) →
  stage_all rpc digest size_of nodes txid os now done q1 = (q2, (staged, failure)) →
  staging txid q q2 staged ∧ NoDup (keys staged) ∧ (failure = None → map fst staged = map fst done ++ os ∧ ∀ k, k ∉ keys staged → undisturbed q q2 k).
Proof.
  revert done q1. induction os as [|o os IH]; intros done q1 Hg Hn Hm Hu; cbn [stage_all].
  - intros [= <- <- <-]. cbn in Hn. rewrite !app_nil_r in *. done.
  - pose proof (stage_wp txid o now q1 (proj1 (sg_evolves _ _ _ _ Hg)) (Hm o ltac:(by left))) as Hw. unfold wp in Hw.
    destruct (stage _ _ _ _ txid o now q1) as [q3 [pend|e]].
    2: { destruct Hw as (He & Hk & Hs). intros [= <- <- <-]. apply NoDup_app in Hn as (Hn & Hd & _). split; [|done]. destruct Hg as [G1 G2 G3 G4].
         split; [by eapply evolves_trans|by eapply kept_trans| |].
         - intros x Hx. destruct (G3 x Hx) as (E1 & E2 & E3 & E4). destruct (Hs (o_key x.1)) as [[F1 F2]|(p & F1 & F2 & _)].
           + split; [by rewrite F2|]. split; [done|]. split; [by rewrite F1|done].
           + rewrite E1 in F1. injection F1 as <-. by destruct (F2 txid).
         - intros k Hk'. eapply settles_trans; [by apply G4|apply Hs]. }
    destruct Hw as (He & Hk & Hst & Hs). intros H. cbn [map] in Hn.
    assert (o_key o ∉ keys done) as Hnew by (apply NoDup_app in Hn as (_ & Hd & _); intros Hin; apply (Hd _ Hin); by left).
    destruct (IH (done ++ [(o, pend)]) q3) as (R1 & R2 & R3); try done.
    + destruct Hg as [G1 G2 G3 G4]. split; [by eapply evolves_trans|by eapply kept_trans| |].
      * intros x Hx. apply elem_of_app in Hx as [Hx|Hx]; [|apply list_elem_of_singleton in Hx as ->].
        -- destruct (G3 x Hx) as (E1 & E2 & E3 & E4). destruct (Hs (o_key x.1)) as [F1 F2].
           { intros E. apply Hnew. rewrite <- E. apply list_elem_of_fmap. by exists x. }
           split; [by rewrite F2|]. split; [done|]. split; [by rewrite F1|done].
        -- destruct Hst as (E1 & E2 & E3 & E4). split; [done|]. split; [done|]. destruct (Hu (o_key o) Hnew) as [F1 F2].
           unfold settled, not_staged in *. cbn in *. by rewrite E3, <- F1, <- F2.
      * intros k Hk'. unfold keys in Hk'. rewrite map_app in Hk'. assert (k ≠ o_key o ∧ k ∉ keys done) as [Hk1 Hk2] by set_solver.
        eapply settles_trans; [by apply G4|left; by apply Hs].
    + unfold keys in *. rewrite map_app, <- app_assoc. done.
    + intros o' Ho'. apply Hm. by right.
    + intros k Hk'. unfold keys in Hk'. rewrite map_app in Hk'. assert (k ≠ o_key o ∧ k ∉ keys done) as [Hk1 Hk2] by set_solver.
      eapply undisturbed_trans; [by apply Hu|by apply Hs].
    + split; [done|]. split; [done|]. intros E. destruct (R3 E) as [-> R4]. rewrite map_app, <- app_assoc. done.
Qed.

(** The stages of a failed transaction are removed. *)
Lemma unstage_get txid staged q k : dict_ok (pending q) →
  dget k (pending (unstage txid staged q)) =
    match dget k (pending q) with
    | Some pend => if decide (k ∈ keys staged ∧ origin pend = Staged txid) then None else Some pend
    | None => None
    end.
Proof.
  unfold unstage. cbn. generalize (pending q). induction staged as [|x staged IH]; intros d Hd; cbn [foldl].
  - destruct (dget k d) as [pend|]; [|done]. rewrite decide_False; [done|]. intros [H _]. by apply not_elem_of_nil in H.
  - set (d1 := match dget (o_key x.1) d with Some pend => if bool_decide _ then ddel _ d else d | None => d end).
    assert (dict_ok d1) as Hd1 by (unfold d1; destruct (dget _ _); [case_bool_decide; [by apply ddel_ok|done]|done]).
    rewrite (IH d1 Hd1). unfold d1. destruct (dget (o_key x.1) d) as [p|] eqn:Ex.
    + case_bool_decide as Ho.
      * rewrite dget_ddel by done. destruct (decide (o_key x.1 = k)) as [<-|E].
        -- rewrite Ex. rewrite decide_True; [done|]. split; [by left|done].
        -- destruct (dget k d) as [pend|]; [|done]. apply decide_ext. cbn. rewrite elem_of_cons.
           split; [naive_solver|]. intros [[E'|E'] Hs]; [by destruct E|done].
      * destruct (dget k d) as [pend|] eqn:Ek; [|done]. apply decide_ext. cbn. rewrite elem_of_cons.
        split; [naive_solver|]. intros [[E|E] Hs]; [|done]. rewrite E, Ex in Ek. by injection Ek as ->.
    + destruct (dget k d) as [pend|] eqn:Ek; [|done]. apply decide_ext. cbn. rewrite elem_of_cons.
      split; [naive_solver|]. intros [[E|E] Hs]; [congruence|done].
Qed.

(** A log is as it was, or with the batch of a producer that waited. *)
Definition only_flushed q q' (k : PartKey) : Prop :=
  log_of q' k = log_of q k ∨ not_staged q k ∧ log_of q' k = settled q k.

Lemma unstage_ok_all txid staged q q' :
  staging txid q q' staged → let q2 := unstage txid staged q' in
  evolves q q2 ∧ kept q q2 ∧ (∀ k, only_flushed q q2 k) ∧ ∀ k pend, dget k (pending q2) = Some pend → dget k (pending q) = Some pend.
Proof.
  intros [G1 G2 G3 G4]. cbn zeta. split; [eapply evolves_trans; [done|by apply unstage_ok, G1]|]. split; [done|].
  assert (dict_ok (pending q')) as Hd by apply (lo_dict _ _ _ (proj1 G1)). split.
  - intros k. change (only_flushed q q' k). destruct (decide (k ∈ keys staged)) as [(x & -> & Hx)%list_elem_of_fmap|Hk].
    + destruct (G3 x Hx) as (_ & _ & H1 & H2 & _). by right.
    + destruct (G4 k Hk) as [[H _]|(p & H1 & H2 & H3 & _)]; [by left|]. right. split; [|done]. intros p' tx. by intros [= <-]%(eq_trans (eq_sym H1)).
  - intros k pend. rewrite unstage_get by done. destruct (dget k (pending q')) as [p|] eqn:Ep; [|done]. case_decide as Hn; [done|]. intros [= <-].
    destruct (decide (k ∈ keys staged)) as [Hk|Hk].
    + destruct Hn. split; [done|]. apply list_elem_of_fmap in Hk as (x & -> & Hx). destruct (G3 x Hx) as (E1 & E2 & _). congruence.
    + destruct (G4 k Hk) as [[_ H]|(p' & _ & _ & _ & H)]; congruence.
Qed.

(** ** Publishing *)

Lemma replicate_all_quiet l : quiet (replicate_all (W:=W) rpc digest size_of nodes l).
Proof.
  induction l as [|[o pend] l IH]; [apply quiet_ret|]. cbn [replicate_all]. apply quiet_bind; [apply replicate_quiet|]. intros s.
  apply quiet_bind; [apply IH|]. intros. apply quiet_ret.
Qed.

Lemma replicate_all_length l q q' ss : replicate_all rpc digest size_of nodes l q = (q', Ok ss) → length ss = length l.
Proof.
  revert q q' ss. induction l as [|[o pend] l IH]; intros q q' ss; cbn [replicate_all]; [by intros [= _ <-]|]. unfold mbind, mret.
  destruct (replicate _ _ _ _ _ _ _ q) as [q1 [s|]]; [|done]. destruct (replicate_all _ _ _ _ l q1) as [q2 [ss'|]] eqn:E; [|done].
  intros [= _ <-]. cbn. f_equal. by eapply IH.
Qed.

Lemma Forall2_impl_in {A B} (P Q : A → B → Prop) l l' : Forall2 P l l' → (∀ x y, x ∈ l → P x y → Q x y) → Forall2 Q l l'.
Proof. induction 1 as [|x y l l' H1 H2 IH]; intros H; constructor; [by apply H; [left|]|]. apply IH. intros. apply H; [by right|done]. Qed.

(** What the receipts of a transaction say. *)
Definition output_done q q' (x : Output * Pending) (r : Receipt) : Prop :=
  let k := o_key x.1 in
  log_of q' k = log_of q k ++ values x.2 ∧ dget k (pending q') = None ∧
  r = mk_receipt k.1 k.2 (v_offset <$> values x.2) true (rc_replicas r).

Lemma finalize_all_ok l ss q q' rs :
  logs_ok q → NoDup (keys l) → length ss = length l → (∀ x, x ∈ l → dget (o_key x.1) (pending q) = Some x.2 ∧ known q x.2) →
  finalize_all (zip l ss) q = Ok (q', rs) →
  evolves q q' ∧ kept q q' ∧ Forall2 (output_done q q') l rs ∧ ∀ k, k ∉ keys l → undisturbed q q' k.
Proof.
  intros Hq. revert q Hq ss rs. induction l as [|[o pend] l IH]; intros q Hq ss rs Hn Hl Hp.
  - intros [= <- <-]. split; [by apply evolves_start|]. split; [done|]. split; [constructor|done].
  - destruct ss as [|s ss]; [done|]. cbn [zip zip_with finalize_all fst snd].
    destruct (finalize (o_key o) pend s q) as [[q1 r]|] eqn:Ef; [|done]. cbn [rbind fst snd].
    destruct (finalize_all (zip l ss) q1) as [[q2 rs']|] eqn:Ea; [|done]. intros [= <- <-].
    destruct (finalize_settles _ _ _ _ _ _ Hq (proj1 (Hp (o, pend) ltac:(by left))) (proj2 (Hp (o, pend) ltac:(by left))) Ef) as (He & Hk & El & Ep & Hu & ->).
    change (NoDup (o_key o :: keys l)) in Hn. apply NoDup_cons in Hn as [Hn1 Hn2]. cbn in Hl. cbn [fst snd] in *.
    assert (∀ x, x ∈ l → o_key x.1 ≠ o_key o) as Hoth by (intros x Hx E; apply Hn1; rewrite <- E; apply list_elem_of_fmap; by exists x).
    destruct (IH q1 (proj1 He) ss rs' Hn2 ltac:(lia)) as (He2 & Hk2 & Hf & Hu2); [|done|].
    { intros x Hx. rewrite (proj2 (Hu (o_key x.1) (Hoth x Hx))). unfold known. rewrite (proj2 Hk). apply Hp. by right. }
    split; [by eapply evolves_trans|]. split; [by eapply kept_trans|]. split.
    + constructor.
      * destruct (Hu2 _ Hn1) as [E1 E2]. split; cbn in *; [by rewrite E1|]. split; [by rewrite E2|done].
      * eapply Forall2_impl_in; [exact Hf|]. intros x y Hx (D1 & D2 & D3). split; [|by split]. rewrite D1. f_equal. by apply Hu, Hoth.
    + intros k Hk'. change (k ∉ o_key o :: keys l) in Hk'. apply not_elem_of_cons in Hk' as [Hk1 Hk2']. eapply undisturbed_trans; [by apply Hu|by apply Hu2].
Qed.

(** The order of the transaction's row and of its outputs does not matter. *)
Lemma finalize_transactions k pend s q x q' r :
  finalize k pend s q = Ok (q', r) → finalize k pend s (set_transactions q x) = Ok (set_transactions q' x, r).
Proof.
  unfold finalize. destruct (last (values pend)); [|done]. destruct (origin pend); [|by intros [= <- <-]]. cbn.
  destruct (tinsert _ _ _); [|done]. by intros [= <- <-].
Qed.

Lemma finalize_all_transactions l q x q' rs :
  finalize_all l q = Ok (q', rs) → finalize_all l (set_transactions q x) = Ok (set_transactions q' x, rs) ∧ transactions q' = transactions q.
Proof.
  revert q q' rs. induction l as [|[[o pend] s] l IH]; intros q q' rs; cbn [finalize_all]; [by intros [= <- <-]|].
  destruct (finalize _ _ _ q) as [[q1 r]|] eqn:E; [|done]. rewrite (finalize_transactions _ _ _ _ x _ _ E). cbn [rbind fst snd].
  destruct (finalize_all l q1) as [[q2 rs']|] eqn:E2; [|done]. destruct (IH _ _ _ E2) as [-> Et]. intros [= <- <-]. split; [done|].
  rewrite Et. by apply (finalize_kept _ _ _ _ _ _ E).
Qed.

(** The committed outcome of a transaction, from the state [q] of its stages. *)
Record published (txid : string) (src : Source) (ex next : Z) (outputs : list Output) q q' (staged : list (Output * Pending)) (r : TxResponse) : Prop := {
  pb_fresh : dget txid (transactions q) = None;
  pb_expected : cursor q (s_key src) (s_partition src) = ex;
  pb_cursors : cursors q' = dset (s_key src, s_partition src) next (cursors q);
  pb_transactions : transactions q' = dset txid (tx_hash src ex next outputs, r) (transactions q);
  pb_next : x_next r = next;
  pb_outputs : Forall2 (output_done q q') staged (x_outputs r);
  pb_others : ∀ k, k ∉ keys staged → undisturbed q q' k;
}.

Lemma validate_current src next ex now q q' :
  validate_commit src next (Some ex) now q = Ok q' → cursor q (s_key src) (s_partition src) = ex ∧ ex <= next.
Proof.
  intros H. pose proof (validate_only _ _ _ _ _ _ H) as Ho. unfold validate_commit in H. apply raise_if_Ok in H as [_ H]. apply raise_if_Ok in H as [_ H].
  destruct (membership _ _ _ _ _ _ _ _) as [[q1 x]|] eqn:E; [|done]. cbn [rbind fst] in H.
  destruct (dget _ (delivered q1)) as [[gen bound]|]; [|done]. apply raise_if_Ok in H as [H [= ->]].
  unfold cursor in *. rewrite (og_cursors _ _ Ho) in H. lia.
Qed.

Lemma publish_wp txid src ex next outputs staged es later q :
  logs_ok q → NoDup (keys staged) → (∀ x, x ∈ staged → dget (o_key x.1) (pending q) = Some x.2 ∧ origin x.2 = Staged txid) →
  wp (publish rpc digest size_of nodes lease tx_hash txid src ex next outputs staged es later)
    (λ r q', evolves q q' ∧ published txid src ex next outputs q q' staged r)
    (λ _ q', evolves q q' ∧ kept q q' ∧ ∀ k, undisturbed q q' k) q.
Proof.
  intros Hq Hn Hp. apply wp_bind. pose proof (quiet_kept _ q Hq (replicate_all_quiet staged)) as (He & Hk & Hu). unfold wp at 1.
  destruct (replicate_all _ _ _ _ staged q) as [q1 [ss|e]] eqn:Er; cbn in He, Hk, Hu; [|done].
  apply replicate_all_length in Er. apply wp_bind. unfold wp at 1, meanwhile.
  destruct (events_stir digest nodes lease q1 es) as (H1 & H2 & H3). set (q2 := foldl _ q1 es) in *. clearbody q2.
  assert (kept q q2) as Hk2 by (eapply kept_trans; [done|by split]).
  assert (∀ k, undisturbed q q2 k) as Hu2 by (intros k; eapply undisturbed_trans; [apply Hu|by apply same_undisturbed]).
  assert (evolves q q2) as He2 by (eapply evolves_trans; [done|apply evolves_same; [apply He|done]]). clear He Hk Hu H1 H2 H3 q1.
  unfold wp, transaction. destruct (validate_commit src next (Some ex) later q2) as [q3|] eqn:Ev; [|done]. cbn [rbind].
  pose proof (validate_only _ _ _ _ _ _ Ev) as Ho. apply validate_current in Ev as [Ec _].
  assert (evolves q q3) as He3 by (eapply evolves_trans; [done|by apply only_groups_evolves; [apply He2|]]).
  assert (∀ k, undisturbed q q3 k) as Hu3 by (intros k; eapply undisturbed_trans; [apply Hu2|by apply same_undisturbed, only_groups_same]).
  assert (kept q q3) as Hk3 by (eapply kept_trans; [done|split; apply Ho]).
  destruct (finalize_all (zip staged ss) q3) as [[q4 rs]|] eqn:Ea; [|done]. cbn [rbind fst snd].
  destruct (tinsert txid _ _) as [txs|] eqn:Et; [|done]. cbn [rbind]. apply raise_if_Ok in Et as [Ed [= <-]]. apply dmem_false in Ed. cbn in Ed.
  set (row := (tx_hash src ex next outputs, mk_response rs next)).
  destruct (finalize_all_transactions _ _ (dset txid row (transactions q3)) _ _ Ea) as [Eb Et]. rewrite Et in Ed. cbn [transactions set_cursor]. rewrite Et.
  pose proof (add_transaction_ok digest size_of fingerprint retained_at q3 txid row (proj1 He3) Ed) as He4. set (q4' := set_transactions q3 _) in *.
  destruct (finalize_all_ok staged ss q4' (set_transactions q4 (dset txid row (transactions q3))) rs (proj1 He4) Hn Er) as (He5 & Hk5 & Hf & Hu5); [|exact Eb|].
  { intros x Hx. destruct (Hp x Hx) as [Hx1 Hx2]. split; [change (pending q4') with (pending q3); by rewrite (proj2 (Hu3 (o_key x.1)))|].
    intros tx. rewrite Hx2. intros [= <-]. cbn. by rewrite dget_dset_eq. }
  destruct Hk3 as [K1 K2], Hk5 as [K3 _], Hk2 as [K5 K6]. cbn in K3. set (q5 := set_transactions q4 _) in *.
  match goal with |- evolves q ?x ∧ _ => assert (same_logs digest q5 x) as Hs6 by (by apply same_tables); set (q6 := x) in * end.
  split; [eapply evolves_trans; [exact He3|]; eapply evolves_trans; [exact He4|]; eapply evolves_trans; [exact He5|];
    apply evolves_same; [apply He5|exact Hs6]|]. split.
  - congruence.
  - unfold cursor in *. congruence.
  - cbn. congruence.
  - by rewrite <- K2.
  - done.
  - eapply Forall2_impl; [exact Hf|]. intros x r (D1 & D2 & D3). split; [|by split].
    change (log_of q5 (o_key x.1) = log_of q (o_key x.1) ++ values x.2). rewrite D1. f_equal. apply Hu3.
  - intros k Hk. apply (undisturbed_trans _ q4'); [apply Hu3|]. by apply Hu5.
Qed.

(** ** Atomicity *)

Lemma process_checks_Ok txid src ex next outputs :
  process_checks txid src ex next outputs = Ok tt → NoDup (map o_key outputs) ∧ ∀ o, o ∈ outputs → o_messages o ≠ [].
Proof.
  unfold process_checks. intros (_ & (_ & (_ & (_ & H)%raise_if_Ok)%raise_if_Ok)%raise_if_Ok)%raise_if_Ok.
  destruct (mapR _ outputs) as [ms|] eqn:Em; [|done]. cbn [rbind] in H. apply raise_if_Ok in H as [Hd _].
  apply negb_false_iff, bool_decide_eq_true in Hd. split; [done|]. clear Hd. revert ms Em.
  induction outputs as [|o os IH]; intros ms Em o' Ho'; [by apply not_elem_of_nil in Ho'|]. cbn [mapR] in Em.
  destruct (raise_if _ _ _) as [m|] eqn:Ef; [|done]. cbn [rbind] in Em. destruct (mapR _ os) as [ms'|] eqn:Em'; [|done].
  apply elem_of_cons in Ho' as [->|Ho']; [|by eapply IH]. apply raise_if_Ok in Ef as [_ Ef]. by apply freeze_Ok in Ef as [_ ?].
Qed.

(** A transaction that went through for the first time. *)
Record processed (txid : string) (src : Source) (ex next : Z) (outputs : list Output) q q' (r : TxResponse) : Prop := {
  pr_fresh : dget txid (transactions q) = None;
  pr_expected : cursor q (s_key src) (s_partition src) = ex;
  pr_cursors : cursors q' = dset (s_key src, s_partition src) next (cursors q);
  pr_transactions : transactions q' = dset txid (tx_hash src ex next outputs, r) (transactions q);
  pr_next : x_next r = next;
  pr_outputs : Forall2 (λ o rc, not_staged q (o_key o) ∧ ∃ vs, tx_records txid o vs ∧ log_of q' (o_key o) = settled q (o_key o) ++ vs ∧
    rc = mk_receipt (o_topic o) (o_partition o) (v_offset <$> vs) true (rc_replicas rc)) outputs (x_outputs r);
  pr_others : ∀ k, k ∉ map o_key outputs → undisturbed q q' k;
}.

(** A transaction that failed: at most, batches that waited for it were committed. *)
Definition abandoned q q' : Prop :=
  kept q q' ∧ (∀ k, only_flushed q q' k) ∧ ∀ k pend, dget k (pending q') = Some pend → dget k (pending q) = Some pend.

Lemma abandoned_refl q : abandoned q q.
Proof. split; [done|]. split; [by left|done]. Qed.

Lemma staging_undisturbed txid q q1 q2 staged :
  staging txid q q1 staged → evolves q1 q2 → kept q1 q2 → (∀ k, undisturbed q1 q2 k) → staging txid q q2 staged.
Proof.
  intros [G1 G2 G3 G4] He Hk Hu. split; [by eapply evolves_trans|by eapply kept_trans| |].
  - intros x Hx. destruct (G3 x Hx) as (S1 & S2 & S3 & S4), (Hu (o_key x.1)) as [U1 U2]. split; [congruence|]. split; [done|]. split; [congruence|done].
  - intros k Hk'. eapply settles_trans; [by apply G4|left; apply Hu].
Qed.

(** The middle of [process], from the state [q] of its first transaction. *)
Lemma process_body_ok txid src ex next outputs now es later q q' res :
  logs_ok q → NoDup (map o_key outputs) → (∀ o, o ∈ outputs → o_messages o ≠ []) →
  (let '(q1, (staged, failure)) := stage_all rpc digest size_of nodes txid outputs now [] q in
   match failure with
   | Some e => (unstage txid staged q1, Raise e)
   | None =>
       match publish rpc digest size_of nodes lease tx_hash txid src ex next outputs staged es later q1 with
       | (q2, Ok r) => (q2, Ok r)
       | (q2, Raise e) => (unstage txid staged q2, Raise e)
       end
   end) = (q', res) →
  evolves q q' ∧ match res with Ok r => processed txid src ex next outputs q q' r | Raise e => abandoned q q' end.
Proof.
  intros Hq Hn Hm. destruct (stage_all _ _ _ _ txid outputs now [] q) as [q1 [staged failure]] eqn:Es.
  assert (staging txid q q []) as H0.
  { split; [by apply evolves_start|done|intros x Hx; by apply not_elem_of_nil in Hx|by left]. }
  destruct (stage_all_ok txid outputs now [] q q q1 staged failure H0 Hn Hm ltac:(done) Es) as (Hg & Hns & Hfst).
  destruct failure as [e|].
  { intros [= <- <-]. destruct (unstage_ok_all _ _ _ _ Hg) as (He & Hk & Hr). done. }
  destruct (Hfst eq_refl) as [Ef Hrest]. cbn in Ef.
  pose proof (publish_wp txid src ex next outputs staged es later q1 (proj1 (sg_evolves _ _ _ _ Hg)) Hns
    ltac:(intros x Hx; destruct (sg_done _ _ _ _ Hg x Hx) as (Hx1 & Hx2 & _); by split)) as Hw. unfold wp in Hw.
  destruct (publish _ _ _ _ _ _ txid src ex next outputs staged es later q1) as [q2 [r|e]]; intros [= <- <-].
  - destruct Hw as [He [P1 P2 P3 P4 P5 P6 P7]]. destruct Hg as [G1 [G2 G2'] G3 G4]. split; [by eapply evolves_trans|].
    assert (keys staged = map o_key outputs) as Ek by (rewrite <- Ef; unfold keys; by rewrite map_map).
    split; try congruence.
    + unfold cursor in *. congruence.
    + rewrite <- Ef. apply Forall2_fmap_l. eapply Forall2_impl_in; [exact P6|]. intros x rc Hx (D1 & D2 & D3).
      destruct (G3 x Hx) as (S1 & S2 & S3 & S4 & S5). split; [done|]. exists (values x.2). split; [done|]. by rewrite D1, S3.
    + intros k Hk. rewrite <- Ek in Hk. eapply undisturbed_trans; [by apply Hrest|by apply P7].
  - destruct Hw as (He & Hk & Hu). destruct (unstage_ok_all _ _ _ _ (staging_undisturbed _ _ _ _ _ Hg He Hk Hu)) as (He2 & Hk2 & Hr). done.
Qed.

Lemma process_ok txid src ex next outputs now es later q q' res :
  logs_ok q → process rpc digest size_of nodes lease tx_hash txid src ex next outputs now es later q = (q', res) →
  evolves q q' ∧ match res with
    | Ok r => (q' = q ∧ dget txid (transactions q) = Some (tx_hash src ex next outputs, r))
              ∨ ex < next ∧ processed txid src ex next outputs q q' r
    | Raise e => abandoned q q'
    end.
Proof.
  intros Hq. unfold process. unfold mbind at 1, mlift.
  destruct (process_checks txid src ex next outputs) as [[]|e] eqn:Ec; [|intros [= <- <-]; split; [by apply evolves_start|apply abandoned_refl]].
  apply process_checks_Ok in Ec as [Hn Hm]. unfold mbind, transaction.
  destruct (dget txid (transactions q)) as [[h r]|] eqn:Et.
  { case_bool_decide as Hh; cbn; intros [= <- <-]; (split; [by apply evolves_start|]); [left; by subst h|apply abandoned_refl]. }
  destruct (validate_commit src next (Some ex) now q) as [q1|e] eqn:Ev; [|intros [= <- <-]; split; [by apply evolves_start|apply abandoned_refl]].
  cbn [rbind]. destruct (next <=? ex) eqn:El; cbn; [intros [= <- <-]; split; [by apply evolves_start|apply abandoned_refl]|].
  pose proof (validate_only _ _ _ _ _ _ Ev) as [O1 O2 O3 O4 O5 O6 O7 O8 _ _].
  assert (evolves q q1) as He by (apply only_groups_evolves; [done|by eapply validate_only]).
  assert (∀ k, log_of q1 k = log_of q k) as Elog by (intros k; unfold log_of; by rewrite O2).
  intros H. apply process_body_ok in H as [He2 H]; [|apply He|done|done]. split; [by eapply evolves_trans|].
  assert (∀ k, settled q1 k = settled q k ∧ (not_staged q1 k ↔ not_staged q k)) as Hs
    by (intros k; unfold settled, not_staged; by rewrite Elog, O6).
  destruct res as [r|e].
  - right. split; [lia|]. destruct H as [P1 P2 P3 P4 P5 P6 P7]. split; try congruence.
    + unfold cursor in *. congruence.
    + eapply Forall2_impl; [exact P6|]. intros o rc. by destruct (Hs (o_key o)) as [-> ->].
    + intros k Hk. destruct (P7 k Hk). split; congruence.
  - destruct H as ([K1 K2] & H1 & H2). split; [split; congruence|]. split; [|intros k pend; rewrite <- O6; apply H2].
    intros k. specialize (H1 k). unfold only_flushed in *. destruct (Hs k) as [<- <-]. by rewrite <- Elog.
Qed.
End process.

(** ** Pages *)

(** The filter of tags on a page. *)
Definition selected (filters : option (list string)) (r : Rec) : bool :=
  match filters with None => true | Some f => existsb (λ x, bool_decide (x ∈ f)) (r_tags r) end.

Section fetch.
Context {W : Type} (rpc : string → PartKey → Request → W → W * result Reply).
Context (digest : string → Rec → string) (nodes : list string) (fingerprint : list Message → string).
Local Notation Queue := (QueueState.Queue W).
Local Notation logs_ok := (QueueInv.logs_ok digest fingerprint).
Local Notation chained := (Messages.chained digest).
Local Notation collision := (Messages.collision digest).
Implicit Types q : Queue.

(** The records of a page, against the log of its partition. *)
Record page_of (vs : list Value) (offset limit : Z) (filters : option (list string)) (now : Z) (page : Fetched) : Prop := {
  pg_range : 0 <= offset <= next_offset page ∧ next_offset page <= offset + limit;
  pg_inside : next_offset page <= Z.of_nat (length vs);
  pg_due : Forall (λ v, not_before (record v) <= now) (take (Z.to_nat (next_offset page - offset)) (drop (Z.to_nat offset) vs));
  pg_records : f_records page =
    filter (selected filters) (record <$> take (Z.to_nat (next_offset page - offset)) (drop (Z.to_nat offset) vs));
  pg_empty : next_offset page = offset →
    offset = Z.of_nat (length vs) ∨ ∃ v, vs !! Z.to_nat offset = Some v ∧ now < not_before (record v);
}.

Lemma filter_range b h vs o n :
  chained b h vs → b <= o → filter (λ v, o <= v_offset v < o + Z.of_nat n) vs = take n (drop (Z.to_nat (o - b)) vs).
Proof.
  intros Hc Hb. set (i := Z.to_nat (o - b)).
  assert (∀ j v, vs !! j = Some v → v_offset v = b + Z.of_nat j) as Ho by (intros; by eapply chained_lookup).
  rewrite <- (take_drop i vs) at 1. rewrite <- (take_drop n (drop i vs)) at 1. rewrite !filter_app.
  rewrite (filter_none _ (take i vs)), (filter_all _ (take n _)), (filter_none _ (drop n _)); [by rewrite app_nil_r|..].
  - intros v (j & Hj)%list_elem_of_lookup. rewrite !lookup_drop in Hj. apply Ho in Hj. lia.
  - intros v (j & Hj)%list_elem_of_lookup. apply lookup_take_Some in Hj as [Hj Hn]. rewrite lookup_drop in Hj. apply Ho in Hj. lia.
  - intros v (j & Hj)%list_elem_of_lookup. apply lookup_take_Some in Hj as [Hj Hn]. apply Ho in Hj. lia.
Qed.

Lemma verified_same vs rows :
  length vs = length rows → (∀ v, v ∈ rows → v = envelope digest (record v) (previous v)) →
  forallb (λ x, verified digest x.1 x.2) (zip vs rows) = true → vs = rows ∨ collision.
Proof.
  revert rows. induction vs as [|v vs IH]; intros [|r rows] Hl Hr; try done; [by left|]. cbn [zip zip_with forallb fst snd].
  intros [Hv Hvs]%andb_true_iff. destruct (IH rows ltac:(cbn in Hl; lia) ltac:(intros; apply Hr; by right) Hvs) as [->|]; [|by right].
  unfold verified in Hv. apply andb_true_iff in Hv as [[Ho Hh%bool_decide_eq_true]%andb_true_iff He%bool_decide_eq_true].
  pose proof (Hr r ltac:(by left)) as Er. destruct (decide ((previous v, record v) = (previous r, record r))) as [E|Hne].
  - left. f_equal. rewrite Er, <- He. injection E as -> ->. done.
  - right. exists (previous v), (record v), (previous r), (record r). split; [done|].
    apply (f_equal hash) in He, Er. cbn in He, Er. congruence.
Qed.

Lemma read_replica_ok k pt0 pt node o limit q q' vs :
  logs_ok q → dget k (parts q) = Some pt0 → floor pt0 <= o → read_replica rpc digest k pt node o limit q = (q', Ok vs) →
  1 <= Z.of_nat (length vs) <= limit ∧ o + Z.of_nat (length vs) <= Z.of_nat (length (log pt0)) ∧
  (vs = take (length vs) (drop (Z.to_nat o) (log pt0)) ∨ collision).
Proof.
  intros Hq Hk Hf. unfold read_replica, mbind at 1, call. destruct (rpc _ _ _ _) as [w [reply|e]]; [|done].
  destruct reply as [| values | |]; try done. cbv zeta. destruct (integer _ 1 limit) eqn:Ei; [|done]. apply integer_spec in Ei. cbn [negb].
  unfold mbind, query. change (parts (set_world q w)) with (parts q). rewrite Hk.
  pose proof (lo_parts _ _ _ Hq _ _ Hk) as [H1 H2 H3 H4].
  assert (chained (floor pt0) (p_base_hash pt0) (records pt0)) as Hc.
  { rewrite H4. replace (floor pt0) with (0 + Z.of_nat (Z.to_nat (floor pt0))) at 1 by lia. apply chained_drop; [lia|exact H3]. }
  rewrite (filter_range _ _ _ _ _ Hc Hf). unfold records. rewrite drop_drop.
  replace (Z.to_nat (floor pt0) + Z.to_nat (o - floor pt0))%nat with (Z.to_nat o) by lia.
  set (rows := take _ _). destruct (_ =? _) eqn:El; [|done]. cbn [negb]. apply Z.eqb_eq in El.
  destruct (forallb _ _) eqn:Ev; [|done]. intros [= _ <-]. split; [lia|]. split.
  - subst rows. rewrite length_take, length_drop in El. lia.
  - destruct (verified_same values rows) as [E|]; [lia| |done| |by right].
    + intros v Hv. apply (chained_envelope digest 0 ZERO (log pt0)); [done|]. subst rows.
      apply elem_of_take in Hv as (j & Hj & _). rewrite lookup_drop in Hj. by eapply list_elem_of_lookup_2.
    + left. exact E.
Qed.

Lemma visible_ok filters now vs rs n :
  visible filters now vs = (rs, n) →
  ∃ m, n = Z.of_nat m ∧ (m ≤ length vs)%nat ∧ Forall (λ v, not_before (record v) <= now) (take m vs) ∧
    rs = filter (selected filters) (record <$> take m vs) ∧
    (m = length vs ∨ ∃ v, vs !! m = Some v ∧ now < not_before (record v)).
Proof.
  revert rs n. induction vs as [|v vs IH]; intros rs n; cbn [visible]; [intros [= <- <-]; exists O; split_and!; try done; by left|].
  destruct (now <? not_before (record v)) eqn:En.
  - intros [= <- <-]. exists O. split_and!; try done; [lia|]. right. exists v. split; [done|lia].
  - destruct (visible filters now vs) as [rs' n'] eqn:E. destruct (IH _ _ eq_refl) as (m & -> & Hm & Hd & -> & He).
    intros [= <- <-]. exists (S m). split; [lia|]. split; [cbn; lia|]. split; [constructor; [lia|done]|]. split.
    + cbn [take fmap list_fmap]. rewrite filter_cons. change (match filters with None => true | Some f => _ end) with (selected filters (record v)).
      destruct (selected filters (record v)); [by rewrite decide_True|]. by rewrite decide_False by (intros []).
    + destruct He as [->|He]; [by left|by right].
Qed.

Lemma fetch_page_ok k o limit filters now q q' page :
  logs_ok q → fetch_page rpc digest nodes k o limit filters now q = (q', Ok page) →
  ∃ pt, dget k (parts q) = Some pt ∧ floor pt <= o ∧ (page_of (log pt) o limit filters now page ∨ collision).
Proof.
  intros Hq. unfold fetch_page, mbind at 1, require, mlift. destruct (_ && _) eqn:Ei; [|done].
  apply andb_true_iff in Ei as [Eo%integer_spec El%integer_spec]. cbn [negb raise_if].
  unfold mbind at 1, query. destruct (part q k) as [pt|] eqn:Ep; [|done]. apply part_Ok in Ep.
  pose proof (lo_parts _ _ _ Hq _ _ Ep) as [H1 H2 H3 H4].
  destruct (o <? floor pt) eqn:E1; [done|]. destruct (hwm pt + 1 <? o) eqn:E2; [done|]. destruct (o =? hwm pt + 1) eqn:E3.
  { intros [= <- <-]. exists pt. split; [done|]. split; [lia|]. left. split; cbn; try lia; by rewrite ?Z.sub_diag. }
  unfold mbind at 1. pose proof (leader_quiet rpc nodes k q) as Hl. destruct (leader rpc nodes k q) as [q1 [[[pt1 node] h]|e]]; [|done].
  cbn [fst] in Hl. pose proof (outside_same digest _ _ Hl) as Hs. destruct (sl_parts _ _ _ Hs _ _ Ep) as (pt2 & Ep2 & E4 & E5 & _ & E6).
  unfold mbind. destruct (read_replica _ _ _ _ _ _ _ q1) as [q2 [vs|e]] eqn:Er; [|done].
  apply (read_replica_ok k pt2) in Er as (Hn & Hm & Hv); [|by eapply same_logs_ok|done|lia]. rewrite E6 in Hm, Hv.
  destruct (visible filters now vs) as [rs n] eqn:Ev. intros [= <- <-]. exists pt. split; [done|]. split; [lia|].
  destruct Hv as [Hv|]; [|by right]. left. apply visible_ok in Ev as (m & -> & Hlm & Hd & -> & He).
  assert (take (Z.to_nat (o + Z.of_nat m - o)) (drop (Z.to_nat o) (log pt)) = take m vs) as E.
  { replace (Z.to_nat (o + Z.of_nat m - o)) with m by lia. rewrite Hv, take_take. by rewrite Nat.min_l. }
  split; cbn [next_offset f_records].
  - lia.
  - lia.
  - by rewrite E.
  - by rewrite E.
  - intros E7. right. assert (m = O) as -> by lia. destruct He as [He|(v & Hv' & Hd')]; [lia|]. exists v. split; [|done].
    rewrite Hv in Hv'. apply lookup_take_Some in Hv' as [Hv' _]. rewrite lookup_drop in Hv'. by rewrite Nat.add_0_r in Hv'.
Qed.

Lemma mbind_Ok {A B} (m : Effects.M Queue A) (f : A → Effects.M Queue B) q q' b :
  mbind m f q = (q', Ok b) → ∃ q1 a, m q = (q1, Ok a) ∧ f a q1 = (q', Ok b).
Proof. unfold mbind. destruct (m q) as [q1 [a|e]]; [|done]. intros H. by exists q1, a. Qed.

Lemma tags_filter_Ok filters fs : tags_filter filters = Ok fs → fs = filters.
Proof. destruct filters; cbn; [intros (_ & (_ & (_ & H)%raise_if_Ok)%raise_if_Ok)%raise_if_Ok|intros H]; congruence. Qed.

Lemma fetch_ok t p o limit filters now q q' page :
  logs_ok q → fetch rpc digest nodes t p o limit filters now q = (q', Ok page) →
  ∃ pt, dget (t, p) (parts q) = Some pt ∧ floor pt <= o ∧ (page_of (log pt) o limit filters now page ∨ collision).
Proof.
  intros Hq (q1 & [] & H1 & H)%mbind_Ok. injection H1 as <- _. apply mbind_Ok in H as (q2 & fs & H2 & H). injection H2 as <- ->%tags_filter_Ok.
  by apply fetch_page_ok in H.
Qed.

(** The page of a group starts at its cursor. *)
Lemma group_fetch_ok lease t g m s gen p limit once filters now es lt q q' o page :
  logs_ok q → group_fetch rpc digest nodes lease t g m s gen p limit once filters now es lt q = (q', Ok (o, page)) →
  page_of (log_of q (t, p)) o limit filters now page ∨ collision.
Proof.
  intros Hq (q1 & [] & H1 & H)%mbind_Ok. injection H1 as <- _. apply mbind_Ok in H as (q2 & fs & H2 & H). injection H2 as <- ->%tags_filter_Ok.
  apply mbind_Ok in H as (q3 & [] & H3 & H). injection H3 as <- _. apply mbind_Ok in H as (q4 & o' & H4 & H).
  unfold transaction in H4. destruct (membership _ _ _ _ _ _ _ q) as [[q5 x]|] eqn:Em; [|done]. injection H4 as <- <-.
  apply mbind_Ok in H as (q6 & pg & H6 & H). apply mbind_Ok in H as (q7 & [] & _ & H). apply mbind_Ok in H as (q8 & [] & _ & H).
  injection H as _ <- <-. apply membership_only, (only_groups_same digest) in Em. cbn [fst] in H6.
  apply fetch_page_ok in H6 as (pt & Hk & _ & Hp); [|by eapply same_logs_ok]. rewrite <- (same_log_of digest _ _ (t, p) Em).
  unfold log_of. by rewrite Hk.
Qed.

(** A committed record that a page covers. *)
Lemma page_at vs offset limit filters now page o :
  page_of vs offset limit filters now page → offset <= o < next_offset page →
  ∃ v, vs !! Z.to_nat o = Some v ∧ not_before (record v) <= now ∧ (selected filters (record v) → record v ∈ f_records page).
Proof.
  intros [[H1 H2] H3 H4 H5 _] Ho. set (vs' := take _ _) in *.
  destruct (lookup_lt_is_Some_2 vs (Z.to_nat o)) as [v Hv]; [lia|]. exists v. split; [done|].
  assert (v ∈ vs') as Hin.
  { apply (list_elem_of_lookup_2 _ (Z.to_nat (o - offset))). subst vs'. rewrite lookup_take_lt by lia. rewrite lookup_drop. rewrite <- Hv. f_equal. lia. }
  split; [by eapply Forall_forall in H4|]. intros Hs. rewrite H5. apply list_elem_of_filter. split; [done|]. by apply list_elem_of_fmap_2.
Qed.
End fetch.
