(* ===== verification/QueueMembers.v ===== *)
(** * What operations do to groups

    The tables of groups change by a step relation: everything but deliveries,
    commits and resets is a sequence of events and expirations, between which the other
    tables change. *)
From stdpp Require Import relations.
From S2P Require Import Prelude PyList PyDict Checks Effects Messages BrokerLog QueueState QueueGroups QueueReplication QueueCoordinator QueueInv QueueSteps QueueRun QueueProcess.
Local Open Scope Z_scope.

Section members.
Context {W : Type} (rpc : string → PartKey → Request → W → W * result Reply).
Context (digest : string → Rec → string) (size_of : Value → Z) (nodes : list string) (lease : Z).
Context (fingerprint : list Message → string) (tx_hash : Source → Z → Z → list Output → string) (crc : string → Z).
Local Notation Queue := (QueueState.Queue W).
Local Notation M := (Effects.M Queue).
Local Notation flush := (QueueCoordinator.flush rpc digest size_of nodes).
Implicit Types q : Queue.

(** The tables of groups are the same. *)
Record aside q q' : Prop := {
  as_topics : topics q' = topics q;
  as_groups : groups q' = groups q;
  as_members : members q' = members q;
  as_cursors : cursors q' = cursors q;
  as_delivered : delivered q' = delivered q;
}.

Lemma aside_refl q : aside q q.
Proof. by split. Qed.
Lemma aside_trans q1 q2 q3 : aside q1 q2 → aside q2 q3 → aside q1 q3.
Proof. intros [] []. split; congruence. Qed.

(** [m] leaves them alone. *)
Definition still {A} (m : M A) : Prop := ∀ q, aside q (m q).1.

Lemma still_quiet {A} (m : M A) : quiet m → still m.
Proof. intros H q. by destruct (H q). Qed.
Lemma still_bind {A B} (m : M A) (f : A → M B) : still m → (∀ a, still (f a)) → still (mbind m f).
Proof. intros Hm Hf q. specialize (Hm q). unfold mbind. destruct (m q) as [q1 [a|e]]; [|done]. eapply aside_trans; [done|apply Hf]. Qed.
Lemma still_attempt {A} (m : M A) : still m → still (attempt m).
Proof. intros Hm q. specialize (Hm q). unfold attempt. destruct (m q) as [q1 [a|e]]; [done|]. by destruct (caught e). Qed.
Lemma still_attempt_io (m : M unit) : still m → still (attempt_io m).
Proof. intros Hm q. specialize (Hm q). unfold attempt_io. destruct (m q) as [q1 [a|e]]; [done|]. by destruct e. Qed.
Lemma still_transaction {A} (tx : Queue → result (Queue * A)) : (∀ q q' a, tx q = Ok (q', a) → aside q q') → still (transaction tx).
Proof. intros H q. unfold transaction. destruct (tx q) as [[q' a]|e] eqn:E; [by eapply H|apply aside_refl]. Qed.
Lemma still_each {B} (f : B → M unit) l : (∀ x, still (f x)) → still (each f l).
Proof. intros Hf. induction l as [|x l IH]; [by apply still_quiet, quiet_ret|]. by apply still_bind. Qed.

Hint Resolve still_bind still_attempt : still.
Hint Extern 2 (still _) => (apply still_quiet; solve [auto with quiet]) : still.

Lemma finalize_aside k pend synced q q' r : finalize k pend synced q = Ok (q', r) → aside q q'.
Proof.
  unfold finalize. destruct (last (values pend)); [|done]. destruct (origin pend); [|by intros [= <- _]].
  destruct (tinsert _ _ _); [|done]. by intros [= <- _].
Qed.

Lemma flush_still k : still (flush k).
Proof.
  apply still_bind; [auto with still|]. intros [pend|]; [|auto with still]. destruct (origin pend); [|auto with still].
  apply still_bind; [auto with still|]. intros s. apply still_bind; [|auto with still]. apply still_transaction. intros q q' r. apply finalize_aside.
Qed.

Lemma insert_pending_still k pend : still (insert_pending k pend).
Proof. apply still_transaction. intros q q' a. destruct (tinsert _ _ _); [|done]. by intros [= <- _]. Qed.
Hint Resolve flush_still insert_pending_still : still.

Lemma produce_new_still k pr ep s ms lo now : still (produce_new rpc digest size_of nodes fingerprint k pr ep s ms lo now).
Proof.
  apply still_bind; [auto with still|]. intros vs. apply still_bind; [auto with still|]. intros []. destruct lo; [|auto with still].
  apply still_bind; auto with still.
Qed.

Lemma produce_still t pr ep s ms p lo now : still (produce rpc digest size_of nodes fingerprint crc t pr ep s ms p lo now).
Proof.
  do 4 (apply still_bind; [auto with still|]; intros ?). apply still_bind; [auto with still|]. intros [r|[pend|]].
  - auto with still.
  - destruct (matches pend pr ep s) as [h|]; [|apply still_bind; [auto with still|intros ?; apply produce_new_still]].
    destruct (negb _); [auto with still|]. destruct lo; [|auto with still]. apply still_bind; auto with still.
  - apply produce_new_still.
Qed.

Lemma retry_retention_still k : still (retry_retention (W:=W) rpc k).
Proof.
  apply still_bind; [auto with still|]. intros rows. induction rows as [|[[k' node] [base bh]] rows IH]; cbn [retry_rows]; [auto with still|].
  apply still_bind; [|intros ?; apply IH]. apply still_attempt, still_bind; [auto with still|]. intros r.
  apply still_bind; [destruct r; auto with still|]. intros _. apply still_transaction. by intros q q' a [= <- _].
Qed.

Lemma retain_still t now : still (retain (W:=W) rpc size_of nodes t now).
Proof.
  apply still_bind; [auto with still|]. intros options. induction (seqZ 0 (t_partitions options)) as [|p ps IH]; cbn [retain_all]; [auto with still|].
  apply still_bind; [|intros []; apply still_bind; [apply retry_retention_still|intros ?; apply IH]]. apply still_transaction. intros q q' [].
  unfold retain_partition. destruct (part q (t, p)); [|done]. cbn [rbind]. destruct (expire_records _ _ _ _ _ _ _) as [fl bh].
  destruct (fl <=? _); by intros [= <-].
Qed.

Lemma maintenance_still now : still (maintenance (W:=W) rpc digest size_of nodes now).
Proof.
  do 2 (apply still_bind; [auto with still|]; intros ?). apply still_bind.
  - apply still_each. intros x. destruct (origin x.2); [|auto with still]. apply still_attempt_io, still_bind; auto with still.
  - intros ?. apply still_each. intros t. apply still_attempt_io, retain_still.
Qed.

(** ** Events and expirations *)

Inductive stir q : Queue → Prop :=
| stir_aside q' : aside q q' → stir q q'
| stir_event e : stir q (event nodes lease q e)
| stir_expire g now : stir q (expire q g now).
Definition churn : Queue → Queue → Prop := rtc stir.

Lemma churn_refl q : churn q q.
Proof. apply rtc_refl. Qed.
Lemma churn_trans q1 q2 q3 : churn q1 q2 → churn q2 q3 → churn q1 q3.
Proof. unfold churn. intros. by etrans. Qed.
Lemma churn_aside q q' : aside q q' → churn q q'.
Proof. intros H. by apply rtc_once, stir_aside. Qed.
Lemma churn_expire q g now : churn q (expire q g now).
Proof. apply rtc_once, stir_expire. Qed.
Lemma churn_still {A} (m : M A) q : still m → churn q (m q).1.
Proof. intros H. apply churn_aside, H. Qed.

Lemma churn_events es q : churn q (foldl (event nodes lease) q es).
Proof. revert q. induction es as [|e es IH]; intros q; [apply churn_refl|]. eapply rtc_l; [apply stir_event|apply IH]. Qed.

Lemma churn_membership t g m s gen p now q q' x : membership t g m s gen p now q = Ok (q', x) → churn q q'.
Proof. intros [-> _ _ _ _ _]%membership_Ok. apply churn_expire. Qed.

(** ** Steps *)

(** The cursor of [src] moves to [next], within what was delivered. *)
Record advance (src : Source) (next : Z) q q' : Prop := {
  ad_bound : ∃ bound, dget (s_key src, s_partition src) (delivered q) = Some (s_generation src, bound)
    ∧ cursor q (s_key src) (s_partition src) <= next <= bound;
  ad_cursors : cursors q' = dset (s_key src, s_partition src) next (cursors q);
  ad_delivered : delivered q' = delivered q;
  ad_topics : topics q' = topics q;
  ad_groups : groups q' = groups q;
  ad_members : members q' = members q;
}.

Lemma validate_advance src next ex now q q1 q' :
  validate_commit src next ex now q = Ok q1 → aside q1 q' →
  churn q q1 ∧ advance src next q1 (set_cursor q' (s_key src, s_partition src) next).
Proof.
  unfold validate_commit. intros (_ & (_ & H)%raise_if_Ok)%raise_if_Ok [].
  destruct (membership _ _ _ _ _ _ _ _) as [[q2 x]|] eqn:E; [|done]. cbn [rbind fst] in H.
  destruct (dget _ (delivered q2)) as [[gen bound]|] eqn:Ed; [|done]. apply raise_if_Ok in H as [Hb [= <-]].
  split; [by eapply churn_membership|]. split; try done.
  - exists bound. assert (gen = s_generation src) as <- by lia. split; [done|lia].
  - cbn. congruence.
Qed.

Inductive group_step q : Op → Out → Queue → Prop :=
| gs_churn op out q' : churn q q' → (∀ o pg, out ≠ Delivered o pg) → group_step q op out q'
| gs_deliver t g m s gen p limit (amo : bool) fs now es lt pg old q1 q' :
    churn q q1 → cursor q1 (t, g) p <= next_offset pg →
    (old = 0 ∨ dget ((t, g), p) (delivered q1) = Some (gen, old)) →
    delivered q' = dset ((t, g), p) (gen, Z.max (next_offset pg) old) (delivered q1) →
    cursors q' = (if amo then dset ((t, g), p) (next_offset pg) (cursors q1) else cursors q1) →
    topics q' = topics q1 → groups q' = groups q1 → members q' = members q1 →
    group_step q (GroupFetch t g m s gen p limit amo fs now es lt) (Delivered (cursor q1 (t, g) p) pg) q'
| gs_advance op out src next q1 q' :
    churn q q1 → advance src next q1 q' → (∀ o pg, out ≠ Delivered o pg) → group_step q op out q'
| gs_reset src target now out n q1 q' :
    churn q q1 → cursors q' = dset (s_key src, s_partition src) n (cursors q1) →
    delivered q' = ddel (s_key src, s_partition src) (delivered q1) →
    topics q' = topics q1 → groups q' = groups q1 → members q' = members q1 →
    (∀ o pg, out ≠ Delivered o pg) → group_step q (Reset src target now) out q'.

Definition goes q (op : Op) (r : Queue * Out) : Prop := group_step q op r.2 r.1.

(** Observed computations that leave the groups alone. *)
Lemma still_step {A} (f : A → Out) (m : M A) op q :
  still m → (∀ a o pg, f a ≠ Delivered o pg) → goes q op (observe f m q).
Proof.
  intros Hm Hf. pose proof (churn_still m q Hm) as Hc. unfold goes, observe. destruct (m q) as [q' [a|e]]; apply gs_churn; try done. apply Hf.
Qed.

Lemma fetch_page_ge k o n fs now q q' pg : fetch_page rpc digest nodes k o n fs now q = (q', Ok pg) → o <= next_offset pg.
Proof.
  unfold fetch_page, mbind at 1. destruct (require _ q) as [q1 [[]|]]; [|done]. unfold mbind at 1. destruct (query _ q1) as [q2 [pt|]]; [|done].
  destruct (o <? floor pt); [done|]. destruct (_ <? o); [done|]. destruct (o =? _); [intros [= _ <-]; cbn; lia|].
  unfold mbind at 1. destruct (leader _ _ _ q2) as [q3 [[[pt' node] h]|]]; [|done].
  unfold mbind. destruct (read_replica _ _ _ _ _ _ _ q3) as [q4 [vs|]]; [|done]. destruct (visible fs now vs) as [rs m] eqn:E.
  intros [= _ <-]. apply visible_ok in E as (i & -> & _). cbn. lia.
Qed.

Lemma observe_bind {A B} (f : B → Out) (m : M A) (k : A → M B) q :
  observe f (mbind m k) q = match m q with (q', Ok a) => observe f (k a) q' | (q', Raise e) => (q', Failure e) end.
Proof. unfold observe, mbind. by destruct (m q) as [q' [a|e]]. Qed.

Lemma failed_step op q q' e : churn q q' → goes q op (q', Failure e).
Proof. intros H. by apply gs_churn. Qed.

Lemma group_fetch_step t g m s gen p limit amo fs now es lt q :
  goes q (GroupFetch t g m s gen p limit amo fs now es lt)
    (observe (λ r, Delivered r.1 r.2) (group_fetch rpc digest nodes lease t g m s gen p limit amo fs now es lt) q).
Proof.
  unfold group_fetch. rewrite observe_bind. unfold require at 1, mlift at 1. destruct (raise_if _ _ _) as [[]|]; [|apply failed_step, churn_refl].
  rewrite observe_bind. unfold mlift at 1. destruct (tags_filter fs) as [fs'|]; [|apply failed_step, churn_refl].
  rewrite observe_bind. unfold require at 1, mlift at 1. destruct (raise_if _ _ _) as [[]|]; [|apply failed_step, churn_refl].
  rewrite observe_bind. unfold transaction at 1.
  destruct (membership t g m s (Some gen) (Some p) now q) as [[q1 x]|] eqn:Em; cbn [rbind fst]; [|apply failed_step, churn_refl].
  apply churn_membership in Em as Hc1. rewrite observe_bind.
  pose proof (fetch_page_quiet rpc digest nodes (t, p) (cursor q1 (t, g) p) limit fs' now q1) as Hf.
  destruct (fetch_page _ _ _ _ _ _ _ _ q1) as [q2 [pg|e]] eqn:Ef; cbn [fst] in Hf.
  2: { apply failed_step. eapply churn_trans; [done|]. by apply churn_aside; destruct Hf. }
  apply fetch_page_ge in Ef. assert (cursor q2 (t, g) p = cursor q1 (t, g) p) as Hcur by (unfold cursor; by rewrite (os_cursors _ _ Hf)).
  assert (churn q q2) as Hc2 by (eapply churn_trans; [done|]; by apply churn_aside; destruct Hf).
  rewrite observe_bind. unfold meanwhile at 1. pose proof (churn_events es q2) as Hc3. destruct (events_stir digest nodes lease q2 es) as (_ & Hcur3 & _).
  set (q3 := foldl _ q2 es) in *. clearbody q3. rewrite observe_bind. unfold transaction at 1.
  destruct (membership t g m s (Some gen) (Some p) lt q3) as [[q4 y]|] eqn:Em'; cbn [rbind fst snd];
    [|apply failed_step; by eapply churn_trans].
  apply membership_only in Em' as Ho. apply churn_membership in Em'.
  assert (cursor q1 (t, g) p = cursor q4 (t, g) p) as Hcur4.
  { unfold cursor in *. rewrite (og_cursors _ _ Ho), Hcur3. congruence. }
  unfold observe, mret. cbn [fst snd]. rewrite Hcur4 in Ef |- *.
  set (old := match dget ((t, g), p) (delivered q4) with Some _ => _ | None => _ end).
  apply (gs_deliver q t g m s gen p limit amo fs now es lt pg old q4); try (by destruct amo).
  - eapply churn_trans; [done|]. by eapply churn_trans.
  - subst old. destruct (dget (t, g, p) (delivered q4)) as [[gen' n]|]; [|by left]. destruct (Z.eqb_spec gen' gen) as [->|]; [by right|by left].
Qed.

Lemma commit_step src next now q :
  goes q (Commit src next now) (observe (λ _, Nothing) (commit src next now) q).
Proof.
  unfold commit. rewrite observe_bind. unfold require at 1, mlift at 1. destruct (raise_if _ _ _) as [[]|]; [|apply failed_step, churn_refl].
  unfold observe, transaction. destruct (validate_commit src next None now q) as [q1|] eqn:Ev; cbn [rbind]; [|apply failed_step, churn_refl].
  destruct (validate_advance _ _ _ _ _ _ q1 Ev (aside_refl _)) as [Hc Ha]. by apply (gs_advance _ _ Nothing src next q1).
Qed.

Lemma reset_step src target now q :
  goes q (Reset src target now) (observe Position (reset src target now) q).
Proof.
  unfold reset. rewrite observe_bind. unfold require at 1, mlift at 1. destruct (raise_if _ _ _) as [[]|]; [|apply failed_step, churn_refl].
  unfold observe, transaction. destruct (membership _ _ _ _ _ _ _ q) as [[q1 x]|] eqn:Em; cbn [rbind fst]; [|apply failed_step, churn_refl].
  apply churn_membership in Em. destruct (part q1 _) as [pt|]; cbn [rbind]; [|apply failed_step, churn_refl].
  destruct (match target with Earliest => _ | _ => _ end) as [n|]; cbn [rbind]; [|apply failed_step, churn_refl].
  destruct (negb _); cbn [raise_if]; [apply failed_step, churn_refl|]. by apply (gs_reset _ _ _ _ (Position n) n q1).
Qed.

(** ** Transactions *)

Lemma stage_still txid o now : still (stage (W:=W) rpc digest size_of nodes txid o now).
Proof.
  apply still_bind; [auto with still|]. intros r. apply still_bind; [auto with still|]. intros vs.
  apply still_bind; [auto with still|]. intros []. auto with still.
Qed.

Lemma stage_all_aside txid os now staged q : aside q (stage_all rpc digest size_of nodes txid os now staged q).1.
Proof.
  revert staged q. induction os as [|o os IH]; intros staged q; cbn [stage_all]; [apply aside_refl|].
  pose proof (stage_still txid o now q) as H. destruct (stage _ _ _ _ _ _ _ q) as [q1 [pend|e]]; [|done]. eapply aside_trans; [done|apply IH].
Qed.

Lemma finalize_all_aside l q q' rs : finalize_all l q = Ok (q', rs) → aside q q'.
Proof.
  revert q q' rs. induction l as [|[[o pend] s] l IH]; intros q q' rs; cbn [finalize_all]; [by intros [= <- _]|].
  destruct (finalize _ _ _ q) as [[q1 r]|] eqn:E; [|done]. cbn [rbind fst]. destruct (finalize_all l q1) as [[q2 rs']|] eqn:E'; [|done].
  intros [= <- _]. eapply aside_trans; [by eapply finalize_aside|by eapply IH].
Qed.

Lemma publish_cases txid src ex next outputs staged es lt q q' res :
  publish rpc digest size_of nodes lease tx_hash txid src ex next outputs staged es lt q = (q', res) →
  match res with Ok _ => ∃ q1, churn q q1 ∧ advance src next q1 q' | Raise _ => churn q q' end.
Proof.
  unfold publish, mbind at 1. pose proof (churn_still _ q (still_quiet _ (replicate_all_quiet rpc digest size_of nodes staged))) as Hc.
  destruct (replicate_all _ _ _ _ staged q) as [q1 [ss|e]]; cbn [fst] in Hc; [|by intros [= <- <-]].
  unfold mbind, meanwhile. pose proof (churn_events es q1) as Hc2. set (q2 := foldl _ q1 es) in *. clearbody q2.
  assert (churn q q2) as Hq2 by (by eapply churn_trans). unfold transaction.
  destruct (validate_commit src next (Some ex) lt q2) as [q3|] eqn:Ev; cbn [rbind]; [|by intros [= <- <-]].
  destruct (finalize_all _ q3) as [[q4 rs]|] eqn:Ef; cbn [rbind fst snd]; [|by intros [= <- <-]].
  apply finalize_all_aside in Ef. destruct (tinsert txid _ _) as [txs|]; cbn [rbind]; [|by intros [= <- <-]].
  intros [= <- <-]. destruct (validate_advance _ _ _ _ _ _ q4 Ev Ef) as [Hc3 [A1 A2 A3 A4 A5 A6]]. exists q3.
  split; [by eapply churn_trans|by split].
Qed.

Lemma process_step txid src ex next outputs now es lt q :
  goes q (Process txid src ex next outputs now es lt)
    (observe Published (process rpc digest size_of nodes lease tx_hash txid src ex next outputs now es lt) q).
Proof.
  unfold process. rewrite observe_bind. unfold mlift at 1. destruct (process_checks _ _ _ _ _) as [[]|]; [|apply failed_step, churn_refl].
  rewrite observe_bind. unfold transaction at 1. destruct (dget txid (transactions q)) as [[h r]|].
  { destruct (negb _); cbn [raise_if]; [apply failed_step, churn_refl|by apply gs_churn; [apply churn_refl|]]. }
  destruct (validate_commit src next (Some ex) now q) as [q1|] eqn:Ev; cbn [rbind]; [|apply failed_step, churn_refl].
  destruct (validate_advance _ _ _ _ _ _ q1 Ev (aside_refl _)) as [Hc _].
  destruct (next <=? ex); cbn [raise_if]; [apply failed_step, churn_refl|]. unfold observe.
  pose proof (stage_all_aside txid outputs now [] q1) as Hs. destruct (stage_all _ _ _ _ _ _ _ _ q1) as [q2 [staged [e|]]]; cbn [fst] in Hs.
  { apply failed_step. eapply churn_trans; [done|]. apply churn_aside. by eapply aside_trans; [done|split]. }
  assert (churn q q2) as Hc2 by (eapply churn_trans; [done|by apply churn_aside]).
  destruct (publish _ _ _ _ _ _ _ _ _ _ _ _ _ _ q2) as [q3 [r|e]] eqn:Ep; apply publish_cases in Ep.
  - destruct Ep as (q4 & Hc4 & Ha). by apply (gs_advance _ _ (Published r) src next q4); [eapply churn_trans| |].
  - apply failed_step. eapply churn_trans; [done|]. eapply churn_trans; [done|]. by apply churn_aside; split.
Qed.

(** Every operation is a step of the groups. *)
Lemma step_goes q op : goes q op (step rpc digest size_of nodes lease fingerprint tx_hash crc q op).
Proof.
  destruct op as [pr|t pr ep s ms p lo now|t p o l fs now|t g m s gen p l amo fs now es lt|src nx now|src tg now|tx src ex nx os now es lt|t now|now|e|];
    cbn [step].
  - apply still_step; [|done]. apply still_transaction. intros q1 q' a. unfold producer_open. by intros [_ [= <- _]]%raise_if_Ok.
  - apply still_step; [apply produce_still|done].
  - apply still_step; [apply still_quiet, fetch_quiet|done].
  - apply group_fetch_step.
  - apply commit_step.
  - apply reset_step.
  - apply process_step.
  - apply still_step; [apply retain_still|done].
  - apply still_step; [apply maintenance_still|done].
  - apply gs_churn; [|done]. apply rtc_once, stir_event.
  - apply gs_churn; [|done]. by apply churn_aside; split.
Qed.
End members.
