(* ===== verification/QueueDelivery.v ===== *)
(** * Fencing and delivery semantics of consumer groups

    Within a generation of a group every partition has one owner, whose session does
    not change; without resets the cursor of a group only passes what pages covered,
    and pages delivered at most once do not overlap. *)
From stdpp Require Import relations.
From S2P Require Import Prelude PyList PyDict Checks Effects Messages BrokerLog QueueState QueueGroups QueueReplication QueueCoordinator.
From S2P Require Import QueueInv QueueSteps QueueMembers.
Local Open Scope Z_scope.

Section dict.
Context {K V : Type} `{EqDecision K}.
Implicit Types d : dict K V.

Lemma dget_filter_keep (P : K * V → Prop) `{∀ x, Decision (P x)} k d :
  (∀ v, P (k, v)) → dget k (filter P (d : list (K * V))) = dget k d.
Proof.
  intros HP. induction d as [|[k' v] d IH]; [done|]. rewrite filter_cons. cbn [dget].
  destruct (decide (k = k')) as [<-|Hne]; [rewrite decide_True by done; cbn; by rewrite decide_True|].
  case_decide; [cbn; by rewrite decide_False|done].
Qed.

Lemma dget_filter_drop (P : K * V → Prop) `{∀ x, Decision (P x)} k d :
  (∀ v, ¬ P (k, v)) → dget k (filter P (d : list (K * V))) = None.
Proof.
  intros HP. induction d as [|[k' v] d IH]; [done|]. rewrite filter_cons. case_decide as Hd; [|done]. cbn.
  rewrite decide_False; [done|]. intros ->. by apply HP in Hd.
Qed.

Lemma dget_map_keyed (f : K → V → V) k d : dget k (map (λ x, (x.1, f x.1 x.2)) d) = f k <$> dget k d.
Proof. induction d as [|[k' v] d IH]; [done|]. cbn. by destruct (decide (k = k')) as [<-|]. Qed.
End dict.

Section delivery.
Context {W : Type} (rpc : string → PartKey → Request → W → W * result Reply).
Context (digest : string → Rec → string) (size_of : Value → Z) (nodes : list string) (lease : Z).
Context (fingerprint : list Message → string) (tx_hash : Source → Z → Z → list Output → string) (crc : string → Z).
Local Notation Queue := (QueueState.Queue W).
Local Notation run := (QueueCoordinator.run rpc digest size_of nodes lease fingerprint tx_hash crc).
Local Notation step := (QueueCoordinator.step rpc digest size_of nodes lease fingerprint tx_hash crc).
Local Notation churn := (QueueMembers.churn nodes lease).
Local Notation event := (QueueGroups.event nodes lease).
Implicit Types q : Queue.

(** ** Generations *)

Record same_owners q q' (g : GroupKey) : Prop := {
  so_ids : member_ids q' g = member_ids q g;
  so_sessions : ∀ m row, dget (g, m) (members q) = Some row → ∃ row', dget (g, m) (members q') = Some row' ∧ m_session row' = m_session row;
  so_topic : ∀ o, dget g.1 (topics q) = Some o → ∃ o', dget g.1 (topics q') = Some o' ∧ t_partitions o' = t_partitions o;
}.

(** Generations do not go back, and a generation keeps its owners. *)
Definition advances q q' : Prop :=
  ∀ g n, dget g (groups q) = Some n → ∃ n', dget g (groups q') = Some n' ∧ n <= n' ∧ (n' = n → same_owners q q' g).

Lemma same_owners_refl q g : same_owners q q g.
Proof. split; eauto. Qed.
Lemma same_owners_trans q1 q2 q3 g : same_owners q1 q2 g → same_owners q2 q3 g → same_owners q1 q3 g.
Proof.
  intros [A1 A2 A3] [B1 B2 B3]. split; [congruence|..].
  - intros m row H. destruct (A2 _ _ H) as (r2 & H2 & E2), (B2 _ _ H2) as (r3 & H3 & E3). exists r3. split; congruence.
  - intros o H. destruct (A3 _ H) as (o2 & H2 & E2), (B3 _ H2) as (o3 & H3 & E3). exists o3. split; congruence.
Qed.

Lemma advances_refl q : advances q q.
Proof. intros g n H. exists n. split; [done|]. split; [lia|]. intros _. apply same_owners_refl. Qed.
Lemma advances_trans q1 q2 q3 : advances q1 q2 → advances q2 q3 → advances q1 q3.
Proof.
  intros A B g n H. destruct (A _ _ H) as (n2 & H2 & L2 & S2), (B _ _ H2) as (n3 & H3 & L3 & S3). exists n3. split; [done|]. split; [lia|].
  intros ->. eapply same_owners_trans; [apply S2; lia|apply S3; lia].
Qed.

Lemma owners_tables q q' g : topics q' = topics q → members q' = members q → same_owners q q' g.
Proof. intros E1 E2. split; [unfold member_ids; by rewrite E2|rewrite E2; eauto|rewrite E1; eauto]. Qed.
Lemma advances_tables q q' : topics q' = topics q → groups q' = groups q → members q' = members q → advances q q'.
Proof. intros E1 E2 E3 g n H. exists n. rewrite E2. split; [done|]. split; [lia|]. intros _. by apply owners_tables. Qed.

(** A rebalance of one group. *)
Lemma rebalance_advances q g0 ms :
  (∀ g, g ≠ g0 → member_ids (rebalance q g0 ms) g = member_ids q g ∧ ∀ m, dget (g, m) ms = dget (g, m) (members q)) →
  advances q (rebalance q g0 ms).
Proof.
  intros Hms g n H. unfold rebalance at 1. cbn. unfold bump. destruct (dget g0 (groups q)) as [n0|] eqn:E0.
  - rewrite dget_dset. destruct (decide (g0 = g)) as [<-|Hne]; [exists (n0 + 1); split; [done|]; split; [|intros]; assert (n0 = n) by congruence; lia|].
    exists n. split; [done|]. split; [lia|]. intros _. destruct (Hms g ltac:(done)) as [H1 H2]. split; [done|intros m row; rewrite <- H2; eauto|eauto].
  - exists n. split; [done|]. split; [lia|]. intros _. destruct (Hms g ltac:(congruence)) as [H1 H2]. split; [done|intros m row; rewrite <- H2; eauto|eauto].
Qed.

Lemma expire_advances q g now : advances q (expire q g now).
Proof.
  unfold expire. destruct (existsb _ _); [|apply advances_refl]. apply rebalance_advances. intros g' Hne.
  assert (∀ k : GroupKey * string, k.1 = g' → ∀ v, expired g now (k, v) = false) as Hk.
  { intros k <- v. unfold expired. cbn. by rewrite bool_decide_eq_false_2. }
  split; [|intros m; apply dget_filter_keep; intros v; by apply Hk].
  unfold member_ids. cbn. do 2 f_equal. rewrite list_filter_filter. apply list_filter_iff. intros [k v]. cbn. split; [tauto|]. intros <-. split; [done|by apply Hk].
Qed.

Lemma membership_advances t g m s gen p now q q' x : membership t g m s gen p now q = Ok (q', x) → advances q q'.
Proof. intros [-> _ _ _ _ _]%membership_Ok. apply expire_advances. Qed.

Lemma member_ids_keys q q' g : dkeys (members q') = dkeys (members q) → member_ids q' g = member_ids q g.
Proof.
  intros E. unfold member_ids. f_equal.
  assert (∀ d : dict (GroupKey * string) Member, map (λ x, x.1.2) (filter (λ x, x.1.1 = g) (d : list (GroupKey * string * Member))) = map snd (filter (λ k, k.1 = g) (dkeys d))) as H.
  { clear. induction d as [|[k v] d IH]; [done|]. change (dkeys ((k, v) :: d)) with (k :: dkeys d). rewrite !filter_cons. cbn [fst].
    case_decide; [cbn [map fst]; by f_equal|done]. }
  by rewrite !H, E.
Qed.

(** A change of the members of one group. *)
Lemma member_ids_other q q' g g0 m x :
  g ≠ g0 → members q' = dset (g0, m) x (members q) ∨ members q' = ddel (g0, m) (members q) → member_ids q' g = member_ids q g.
Proof.
  intros Hne He. unfold member_ids. do 2 f_equal. generalize dependent (members q'). intros d' [->| ->].
  - induction (members q) as [|[k v] d IH]; cbn [dset]; [by rewrite filter_cons_False|]. destruct (decide ((g0, m) = k)) as [<-|]; rewrite !filter_cons; cbn; [by rewrite !decide_False|].
    case_decide; by rewrite IH.
  - induction (members q) as [|[k v] d IH]; cbn [ddel]; [done|]. destruct (decide ((g0, m) = k)) as [<-|]; rewrite !filter_cons; cbn; [by rewrite !decide_False|].
    case_decide; by rewrite IH.
Qed.

Lemma join_advances t g m s now q q' x : join lease t g m s now q = Ok (q', x) → advances q q'.
Proof.
  unfold join. intros [_ H]%raise_if_Ok. destruct (topic q t); [|done]. cbn [rbind] in H. apply membership_advances in H.
  set (q1 := if dmem (t, g) (groups q) then q else _) in *. set (q2 := expire q1 (t, g) now) in *.
  apply (advances_trans _ q1); [|apply (advances_trans _ q2); [apply expire_advances|]].
  - subst q1. destruct (dmem (t, g) (groups q)) eqn:E; [apply advances_refl|]. apply dmem_false in E. intros g' n Hg. exists n. cbn.
    rewrite dget_dset_ne by (intros <-; by pose proof (eq_trans (eq_sym Hg) E)). split; [done|]. split; [lia|]. intros _. by apply owners_tables.
  - eapply advances_trans; [|exact H]. apply rebalance_advances. intros g' Hne. split; [by eapply member_ids_other; [|left]|].
    intros m'. rewrite dget_dset_ne; [done|]. intros [= <- _]. done.
Qed.

Lemma heartbeat_advances t g m s now q q' x : heartbeat lease t g m s now q = Ok (q', x) → advances q q'.
Proof.
  unfold heartbeat. destruct (membership _ _ _ _ _ _ _ _) as [[q1 y]|] eqn:E; [|done]. cbn [rbind fst snd]. intros [= <- <-].
  eapply advances_trans; [by eapply membership_advances|]. apply membership_Ok in E as [_ _ (row & Hrow & Hses) _ _ _].
  match goal with |- context [match ?d with Some _ => _ | None => _ end] => assert (d = Some row) as -> by exact Hrow end.
  intros g' n Hg. exists n. split; [done|]. split; [lia|]. intros _. split; [| |eauto].
  - apply member_ids_keys. cbn. apply dkeys_dset_in, dmem_spec, dmem_true. by exists row.
  - intros m' row' Hr. cbn. rewrite dget_dset. case_decide as Hd; [|eauto]. injection Hd as <- <-. eexists. split; [done|].
    pose proof (eq_trans (eq_sym Hr) Hrow) as Er. by injection Er as ->.
Qed.

Lemma leave_advances t g m s now q q' x : leave t g m s now q = Ok (q', x) → advances q q'.
Proof.
  unfold leave. destruct (membership _ _ _ _ _ _ _ _) as [[q1 y]|] eqn:E; [|done]. cbn [rbind fst snd]. destruct (dlookup _ _); [|done]. intros [= <- <-].
  eapply advances_trans; [by eapply membership_advances|]. apply rebalance_advances. intros g' Hne. split; [by apply (member_ids_other q1 _ g' (t, g) m (mk_member s 0)); [|right]|].
  intros m'. rewrite dget_ddel_ne; [done|]. intros [= <- _]. done.
Qed.

Lemma expand_advances t n q q' x : expand nodes t n q = Ok (q', x) → advances q q'.
Proof.
  unfold expand. intros [_ H]%raise_if_Ok. destruct (topic q t) as [o|] eqn:Et; [|done]. cbn [rbind] in H. apply raise_if_Ok in H as [_ H].
  destruct (insert_parts _ _ _ _) as [ps|]; [|done]. injection H as <- _. intros g k Hg.
  pose proof (dget_map_keyed (λ (g : GroupKey) n, if bool_decide (g.1 = t) then n + 1 else n) g (groups q)) as Hm. rewrite Hg in Hm. cbn in Hm.
  case_bool_decide as Ht.
  - exists (k + 1). split; [done|]. split; [lia|]. intros; lia.
  - exists k. split; [done|]. split; [lia|]. intros _. split; [done|eauto|]. intros o' Ho'. cbn. rewrite dget_dset_ne by done. eauto.
Qed.

Lemma create_advances t n r b s q q' x : create nodes t n r b s q = Ok (q', x) → advances q q'.
Proof.
  unfold create. intros (_ & (_ & (_ & (_ & (_ & (Hd & H)%raise_if_Ok)%raise_if_Ok)%raise_if_Ok)%raise_if_Ok)%raise_if_Ok)%raise_if_Ok.
  destruct (insert_parts _ _ _ _) as [ps|]; [|done]. injection H as <- _. apply dmem_false in Hd. intros g k Hg. exists k. split; [done|].
  split; [lia|]. intros _. split; [done|eauto|]. intros o Ho. cbn. rewrite dget_dset_ne by congruence. eauto.
Qed.

Lemma keep_advances {A} q (r : result (Queue * A)) : (∀ q' a, r = Ok (q', a) → advances q q') → advances q (keep q r).
Proof. intros H. destruct r as [[q' a]|e]; [by eapply H|apply advances_refl]. Qed.

Lemma event_advances q e : advances q (event q e).
Proof.
  destruct e; apply keep_advances; intros q' a.
  - apply create_advances.
  - apply join_advances.
  - apply heartbeat_advances.
  - apply leave_advances.
  - apply expand_advances.
Qed.

Lemma churn_advances q q' : churn q q' → advances q q'.
Proof.
  induction 1 as [|q1 q2 q3 Hs _ IH]; [apply advances_refl|]. eapply advances_trans; [|done].
  destruct Hs as [q' []|e|g now]; [by apply advances_tables|apply event_advances|apply expire_advances].
Qed.

Lemma step_advances q op : advances q (step q op).1.
Proof.
  pose proof (step_goes rpc digest size_of nodes lease fingerprint tx_hash crc q op) as H. unfold goes in H. destruct (step q op) as [q' out]. cbn in *.
  destruct H as [op out q' Hc _|t g m s gen p limit amo fs now es lt pg old q1 q' Hc _ _ _ _ E1 E2 E3|op out src next q1 q' Hc [_ _ _ E1 E2 E3] _|src target now out n q1 q' Hc _ _ E1 E2 E3 _];
    (eapply advances_trans; [by apply churn_advances|]); [apply advances_refl|by apply advances_tables..].
Qed.

Lemma run_advances q ops : advances q (run q ops).1.
Proof.
  revert q. induction ops as [|[w op] ops IH]; intros q; [apply advances_refl|]. cbn [QueueCoordinator.run].
  pose proof (step_advances (set_world q w) op) as H. destruct (step (set_world q w) op) as [q1 o]. specialize (IH q1).
  destruct (run q1 ops) as [q2 os]. cbn in *. eapply advances_trans; [|done]. eapply advances_trans; [|done]. by apply advances_tables.
Qed.

(** C21: in one generation of a group a partition has one owner: memberships accepted for
    it before and after any history are of the same member and session.  Fetches, commits,
    resets and transactions all require such a membership. *)
Theorem one_owner_per_generation t g m1 s1 now1 m2 s2 now2 gen p q1 q1' x1 ops q2 x2 :
  membership t g m1 s1 (Some gen) (Some p) now1 q1 = Ok (q1', x1) →
  membership t g m2 s2 (Some gen) (Some p) now2 (run q1' ops).1 = Ok (q2, x2) → m1 = m2 ∧ s1 = s2.
Proof.
  intros H1 H2. pose proof (run_advances q1' ops) as Ha. apply membership_advances in H2 as Ha2.
  pose proof (advances_trans _ _ _ Ha Ha2) as Hadv. clear Ha Ha2.
  apply membership_Ok in H1 as [_ G1 (r1 & R1 & S1) C1 (o1 & T1 & A1) P1]. apply membership_Ok in H2 as [_ G2 (r2 & R2 & S2) C2 (o2 & T2 & A2) P2].
  rewrite (C1 gen eq_refl) in G1. rewrite (C2 gen eq_refl) in G2. destruct (Hadv _ _ G1) as (n & Hn & _ & Hs).
  destruct Hs as [Hi Hm Ht]; [pose proof (eq_trans (eq_sym Hn) G2) as E; by injection E|].
  specialize (P1 p eq_refl). specialize (P2 p eq_refl). rewrite A1 in P1. rewrite A2 in P2. unfold assigned in P1, P2.
  apply list_elem_of_filter in P1 as [P1 _], P2 as [P2 _]. rewrite Hi in P2. rewrite P1 in P2. injection P2 as ->. split; [done|].
  destruct (Hm _ _ R1) as (row & Hr & Es). pose proof (eq_trans (eq_sym Hr) R2) as E. injection E as ->. congruence.
Qed.

(** ** Cursors *)

(** What the history delivered; entries are only forgotten. *)
Record calm q q' : Prop := {
  cm_cursors : cursors q' = cursors q;
  cm_delivered : ∀ k x, dget k (delivered q') = Some x → dget k (delivered q) = Some x;
}.

Lemma calm_refl q : calm q q.
Proof. done. Qed.
Lemma calm_trans q1 q2 q3 : calm q1 q2 → calm q2 q3 → calm q1 q3.
Proof. intros [] []. split; [congruence|auto]. Qed.
Lemma calm_same q q' : cursors q' = cursors q → delivered q' = delivered q → calm q q'.
Proof. intros E1 E2. split; [done|]. by rewrite E2. Qed.

Lemma calm_forget q q' (P : GroupKey * Z → Prop) `{∀ k, Decision (P k)} :
  cursors q' = cursors q → delivered q' = filter (λ x, P x.1) (delivered q : list (GroupKey * Z * (Z * Z))) → calm q q'.
Proof.
  intros E1 E2. split; [done|]. intros k x. rewrite E2. destruct (decide (P k)) as [Hk|Hk].
  - by rewrite (dget_filter_keep (λ x : GroupKey * Z * (Z * Z), P x.1)).
  - by rewrite (dget_filter_drop (λ x : GroupKey * Z * (Z * Z), P x.1)).
Qed.

Lemma rebalance_calm q g ms : calm q (rebalance q g ms).
Proof. by apply (calm_forget _ _ (λ k, k.1 ≠ g)). Qed.
Lemma expire_calm q g now : calm q (expire q g now).
Proof. unfold expire. destruct (existsb _ _); [apply rebalance_calm|done]. Qed.
Lemma membership_calm t g m s gen p now q q' x : membership t g m s gen p now q = Ok (q', x) → calm q q'.
Proof. intros [-> _ _ _ _ _]%membership_Ok. apply expire_calm. Qed.

Lemma event_calm q e : calm q (event q e).
Proof.
  assert (∀ A (r : result (Queue * A)), (∀ q' a, r = Ok (q', a) → calm q q') → calm q (keep q r)) as Hk
    by (intros A [[q' a]|]; [eauto|done]).
  destruct e as [t n r b s|t g m s now|t g m s now|t g m s now|t n]; apply Hk; intros q' a.
  - unfold create. intros (_ & (_ & (_ & (_ & (_ & (_ & H)%raise_if_Ok)%raise_if_Ok)%raise_if_Ok)%raise_if_Ok)%raise_if_Ok)%raise_if_Ok.
    destruct (insert_parts _ _ _ _); [|done]. by injection H as <- _.
  - unfold join. intros [_ H]%raise_if_Ok. destruct (topic q t); [|done]. cbn [rbind] in H. apply membership_calm in H.
    eapply calm_trans; [|exact H]. eapply calm_trans; [|apply rebalance_calm]. eapply calm_trans; [|apply expire_calm]. by destruct (dmem _ _).
  - unfold heartbeat. destruct (membership _ _ _ _ _ _ _ _) as [[q1 x]|] eqn:E; [|done]. intros [= <- _].
    eapply calm_trans; [by eapply membership_calm|done].
  - unfold leave. destruct (membership _ _ _ _ _ _ _ _) as [[q1 x]|] eqn:E; [|done]. cbn [rbind fst]. destruct (dlookup _ _); [|done].
    intros [= <- _]. eapply calm_trans; [by eapply membership_calm|apply rebalance_calm].
  - unfold expand. intros [_ H]%raise_if_Ok. destruct (topic q t); [|done]. cbn [rbind] in H. apply raise_if_Ok in H as [_ H].
    destruct (insert_parts _ _ _ _); [|done]. injection H as <- _. by apply (calm_forget _ _ (λ k, k.1.1 ≠ t)).
Qed.

Lemma churn_calm q q' : churn q q' → calm q q'.
Proof.
  induction 1 as [|q1 q2 q3 Hs _ IH]; [done|]. eapply calm_trans; [|done].
  destruct Hs as [q' []|e|g now]; [by apply calm_same|apply event_calm|apply expire_calm].
Qed.

(** ** Histories of one group and partition *)

Section partition.
Context (t g : string) (p : Z).
Local Notation here := ((t, g), p).

Definition resets (op : Op) : Prop :=
  match op with Reset src _ _ => (s_key src, s_partition src) = here | _ => False end.

(** A page of the partition delivered to the group, at most once or not. *)
Definition delivers (x : Op * Out) (once : bool) (o n : Z) : Prop :=
  ∃ m s gen limit fs now es lt pg, x = (GroupFetch t g m s gen p limit once fs now es lt, Delivered o pg) ∧ next_offset pg = n.

(** Below the cursor and below what the generation was delivered. *)
Definition passed q (o : Z) : Prop :=
  0 <= o ∧ (o < cursor q (t, g) p ∨ ∃ gen bound, dget here (delivered q) = Some (gen, bound) ∧ o < bound).

Lemma churn_passed q q' o : churn q q' → passed q' o → passed q o.
Proof.
  intros [Hc Hd]%churn_calm [H0 H]. split; [done|]. unfold cursor in *. rewrite Hc in H. destruct H as [H|(gen & b & H & Hb)]; [by left|].
  right. exists gen, b. split; [by apply Hd|done].
Qed.

Lemma cursor_dset q q' k n : cursors q' = dset k n (cursors q) → cursor q' (t, g) p = if decide (k = here) then n else cursor q (t, g) p.
Proof. intros E. unfold cursor, dget_or. rewrite E. destruct (decide (k = here)) as [->|]; [by rewrite dget_dset_eq|by rewrite dget_dset_ne]. Qed.

Lemma step_passed q op o :
  ¬ resets op → let r := step q op in passed r.1 o → passed q o ∨ ∃ once a b, delivers (op, r.2) once a b ∧ a <= o < b.
Proof.
  intros Hr. pose proof (step_goes rpc digest size_of nodes lease fingerprint tx_hash crc q op) as H. unfold goes in H.
  destruct (step q op) as [q' out]. cbn in *.
  destruct H as [op out q' Hc _|t' g' m s gen p' limit amo fs now es lt pg old q1 q' Hc Hle Hold E1 E2 _ _ _|op out src next q1 q' Hc [(b & Hb & Hle) E1 E2 _ _ _] _|src target now out n q1 q' Hc E1 E2 _ _ _ _].
  - intros H. left. by eapply churn_passed.
  - intros [H0 H]. destruct (decide (((t', g'), p') = here)) as [E|Hne].
    + injection E as -> -> ->. destruct (decide (cursor q1 (t, g) p <= o < next_offset pg)) as [Hin|Hout].
      { right. exists amo, (cursor q1 (t, g) p), (next_offset pg). split; [|done]. by repeat eexists. }
      left. apply (churn_passed _ _ _ Hc). split; [done|].
      assert (o < cursor q1 (t, g) p ∨ o < old) as [?|Ho]; [| by left|].
      { destruct H as [H|(gen' & b & H & Hb)].
        - destruct amo; [apply cursor_dset in E2; rewrite decide_True in E2 by done; lia|unfold cursor in *; rewrite E2 in H; by left].
        - rewrite E1, dget_dset_eq in H. injection H as <- <-. lia. }
      destruct Hold as [->|Hd]; [lia|]. right. by exists gen, old.
    + left. apply (churn_passed _ _ _ Hc). split; [done|]. destruct H as [H|(gen' & b & H & Hb)].
      * left. destruct amo; [apply cursor_dset in E2; by rewrite decide_False in E2; [rewrite E2 in H|]|unfold cursor in *; by rewrite E2 in H].
      * right. exists gen', b. by rewrite E1, dget_dset_ne in H.
  - intros [H0 H]. left. apply (churn_passed _ _ _ Hc). split; [done|]. rewrite E2 in H. destruct H as [H|H]; [|by right].
    apply cursor_dset in E1. destruct (decide ((s_key src, s_partition src) = here)) as [E|Hne]; rewrite E1 in H; [|by left].
    right. exists (s_generation src), b. rewrite E in Hb. split; [done|lia].
  - intros [H0 H]. left. apply (churn_passed _ _ _ Hc). split; [done|].
    assert ((s_key src, s_partition src) ≠ here) as Hne by apply Hr.
    destruct H as [H|(gen' & b & H & Hb)].
    + left. apply cursor_dset in E1. by rewrite E1, decide_False in H.
    + right. exists gen', b. rewrite E2, dget_ddel_ne in H by done. done.
Qed.

Lemma step_cursor q op :
  ¬ resets op → let r := step q op in
  cursor q (t, g) p <= cursor r.1 (t, g) p ∧
  ∀ once a b, delivers (op, r.2) once a b → cursor q (t, g) p <= a ∧ (once = true → b <= cursor r.1 (t, g) p).
Proof.
  intros Hr. pose proof (step_goes rpc digest size_of nodes lease fingerprint tx_hash crc q op) as H. unfold goes in H.
  destruct (step q op) as [q' out]. cbn in *.
  assert (∀ q1, churn q q1 → cursor q1 (t, g) p = cursor q (t, g) p) as Hcc by (intros q1 [Hc _]%churn_calm; unfold cursor; by rewrite Hc).
  destruct H as [op out q' Hc Ho|t' g' m s gen p' limit amo fs now es lt pg old q1 q' Hc Hle Hold E1 E2 _ _ _|op out src next q1 q' Hc [(b & Hb & Hle) E1 E2 _ _ _] Ho|src target now out n q1 q' Hc E1 E2 _ _ _ Ho];
    rewrite <- (Hcc _ Hc).
  - split; [done|]. intros once a b (m & s & gen & limit & fs & now & es & lt & pg & [= _ E] & _). by apply Ho in E.
  - destruct amo.
    + apply cursor_dset in E2. split; [case_decide as E; rewrite E2; [injection E as -> -> ->; lia|lia]|].
      intros once a b (m' & s' & gen' & limit' & fs' & now' & es' & lt' & pg' & [= -> -> <- <- <- -> <- <- <- <- <- <- <- <-] & <-).
      split; [lia|]. intros _. rewrite E2, decide_True by done. lia.
    + assert (cursor q' (t, g) p = cursor q1 (t, g) p) as -> by (unfold cursor; by rewrite E2). split; [done|].
      intros once a b (m' & s' & gen' & limit' & fs' & now' & es' & lt' & pg' & [= -> -> <- <- <- -> <- <- <- <- <- <- <- <-] & <-). split; [lia|done].
  - split; [apply cursor_dset in E1; case_decide as E; rewrite E1; [pose proof (f_equal fst E) as E3; pose proof (f_equal snd E) as E4; cbn [fst snd] in E3, E4; rewrite E3, E4 in Hle; lia|lia]|].
    intros once a b' (m & s & gen & limit & fs & now & es & lt & pg & [= _ E] & _). by apply Ho in E.
  - apply cursor_dset in E1. rewrite decide_False in E1 by apply Hr. split; [lia|].
    intros once a b (m & s & gen & limit & fs & now' & es & lt & pg & [= E] & _).
Qed.

(** Operations with what they returned. *)
Definition trace q (ops : list (W * Op)) : list (Op * Out) := zip ops.*2 (run q ops).2.

Lemma run_passed ops q o :
  (∀ op, op ∈ ops.*2 → ¬ resets op) → passed (run q ops).1 o →
  passed q o ∨ ∃ x once a b, x ∈ trace q ops ∧ delivers x once a b ∧ a <= o < b.
Proof.
  revert q. induction ops as [|[w op] ops IH]; intros q Hr Hp; [by left|]. unfold trace. cbn [QueueCoordinator.run] in Hp |- *.
  pose proof (step_passed (set_world q w) op o (Hr op ltac:(by left))) as Hs. destruct (step (set_world q w) op) as [q1 out]. cbn in Hs.
  specialize (IH q1 ltac:(intros; apply Hr; by right)). unfold trace in IH. destruct (run q1 ops) as [q2 outs]. cbn in Hp, IH |- *.
  destruct (IH Hp) as [H|(x & once & a & b & Hx & H)]; [|right; exists x, once, a, b; split; [by right|done]].
  destruct (Hs H) as [H'|(once & a & b & H')]; [by left|]. right. exists (op, out), once, a, b. split; [by left|done].
Qed.

(** Pages start at the cursor or behind it. *)
Lemma run_cursor ops q :
  (∀ op, op ∈ ops.*2 → ¬ resets op) →
  (∀ x once a b, x ∈ trace q ops → delivers x once a b → cursor q (t, g) p <= a).
Proof.
  revert q. induction ops as [|[w op] ops IH]; intros q Hr x once a b; [by intros ?%not_elem_of_nil|]. unfold trace. cbn [QueueCoordinator.run].
  pose proof (step_cursor (set_world q w) op (Hr op ltac:(by left))) as Hs. destruct (step (set_world q w) op) as [q1 out]. cbn in Hs.
  specialize (IH q1 ltac:(intros; apply Hr; by right)). unfold trace in IH. destruct (run q1 ops) as [q2 outs]. cbn in IH |- *.
  destruct Hs as [Hle Hs]. change (cursor (set_world q w) (t, g) p) with (cursor q (t, g) p) in *.
  intros [->|Hx]%elem_of_cons Hd; [by apply (Hs _ _ _ Hd)|]. pose proof (IH _ _ _ _ Hx Hd). lia.
Qed.

Lemma run_once ops q i j x y a b once c d :
  (∀ op, op ∈ ops.*2 → ¬ resets op) → (i < j)%nat → trace q ops !! i = Some x → trace q ops !! j = Some y →
  delivers x true a b → delivers y once c d → b <= c.
Proof.
  revert q i j. induction ops as [|[w op] ops IH]; intros q i j Hr Hij; [done|]. unfold trace. cbn [QueueCoordinator.run].
  pose proof (step_cursor (set_world q w) op (Hr op ltac:(by left))) as Hs. destruct (step (set_world q w) op) as [q1 out]. cbn in Hs.
  assert (∀ op, op ∈ ops.*2 → ¬ resets op) as Hr' by (intros; apply Hr; by right).
  specialize (IH q1). pose proof (run_cursor ops q1 Hr') as Hc. unfold trace in IH, Hc. destruct (run q1 ops) as [q2 outs]. cbn in IH, Hc |- *.
  destruct j as [|j]; [lia|]. destruct i as [|i]; cbn.
  - intros [= <-] Hy Hd1 Hd2. destruct Hs as [_ Hs]. destruct (Hs _ _ _ Hd1) as [_ Hb].
    apply list_elem_of_lookup_2 in Hy. pose proof (Hc _ _ _ _ Hy Hd2). specialize (Hb eq_refl). lia.
  - intros Hx Hy. apply (IH i j); done || lia.
Qed.
End partition.
End delivery.
