(* ===== verification/QueueCluster.v ===== *)
(** * The brokers of a coordinator

    The outside world of the coordinator: a partition log on every node (BrokerLog.v) and
    a network that may lose a request or its answer.  The disks work; crashes between
    requests do not change a log (BrokerLogProps.v). *)
From S2P Require Import Prelude PyList PyDict Checks Effects Messages BrokerLog QueueState.
Local Open Scope Z_scope.

(** What becomes of a call. *)
Inductive Net := Answered | Unreached | Unanswered.

Record Cluster := mk_cluster { brokers : dict (string * PartKey) PartitionLog; network : list Net }.

Section cluster.
Context (digest : string → Rec → string) (size_of : Value → Z) (segment_bytes : PartKey → Z).

(** [Broker._log]: a log is opened by the first request on its partition. *)
Definition broker_log (node : string) (k : PartKey) (w : Cluster) : PartitionLog :=
  dget_or (new_log (segment_bytes k)) (node, k) (brokers w).

Definition broker_rpc (node : string) (k : PartKey) (r : Request) (w : Cluster) : Cluster * result Reply :=
  let fate := default Answered (head (network w)) in
  match fate with
  | Unreached => (mk_cluster (brokers w) (tail (network w)), Raise OSError)
  | _ =>
      let (s, reply) := dispatch digest size_of r (set_faults (broker_log node k w) []) in
      (mk_cluster (dset (node, k) s (brokers w)) (tail (network w)),
       match fate with Unanswered => Raise OSError | _ => reply end)
  end.
End cluster.
