(* ===== verification/QueueProps.v ===== *)
(** * What the coordinator of the message queue guarantees

    For every history of operations and events from an empty database, and whatever
    the brokers answer: well-formed tables, batches stored exactly once, pages that
    are the committed records, transactions that happen entirely or not at all. *)
From S2P Require Import Prelude PyList PyDict Checks Effects Messages BrokerLog QueueState QueueGroups QueueReplication QueueCoordinator.
From S2P Require Import QueueInv QueueSteps QueueRun QueueProcess QueueMembers QueueDelivery QueueCluster.
Local Open Scope Z_scope.

Section props.
Context {W : Type} (rpc : string → PartKey → Request → W → W * result Reply).
Context (digest : string → Rec → string) (size_of : Value → Z) (nodes : list string) (lease : Z).
Context (fingerprint : list Message → string) (tx_hash : Source → Z → Z → list Output → string) (crc : string → Z).
Local Notation Queue := (QueueState.Queue W).
Local Notation logs_ok := (QueueInv.logs_ok digest fingerprint).
Local Notation evolves := (QueueSteps.evolves digest size_of fingerprint).
Local Notation step := (QueueCoordinator.step rpc digest size_of nodes lease fingerprint tx_hash crc).
Local Notation run := (QueueCoordinator.run rpc digest size_of nodes lease fingerprint tx_hash crc).
Local Notation produce := (QueueCoordinator.produce rpc digest size_of nodes fingerprint crc).
Local Notation fetch := (QueueCoordinator.fetch rpc digest nodes).
Local Notation process := (QueueCoordinator.process rpc digest size_of nodes lease tx_hash).
Implicit Types q : Queue.

Lemma observe_state {A} (f : A → Out) m q : (observe f m q).1 = (m q).1.
Proof. unfold observe. by destruct (m q) as [q' [a|e]]. Qed.

(** The clocks at which the operations of a history apply retention to a partition. *)
Definition clock_of (op : Op) (k : PartKey) (c : Z) : Prop :=
  match op with RetainTopic t now => k.1 = t ∧ c = now k.2 | Maintain now => c = now k.2 | _ => False end.
Definition clocks (ops : list (W * Op)) (k : PartKey) (c : Z) : Prop := ∃ op, op ∈ ops.*2 ∧ clock_of op k c.

Lemma step_evolves retained_at q op : (∀ k c, clock_of op k c → retained_at k c) → logs_ok q → evolves retained_at q (step q op).1.
Proof.
  intros Hat Hq. destruct op as [pr|t pr ep s ms p lo now|t p o l fs now|t g m s gen p l amo fs now es lt|src nx now|src tg now|tx src ex nx os now es lt|t now|now|e|];
    cbn [QueueCoordinator.step]; rewrite ?observe_state.
  - eapply tri_run; [|done]. apply tri_same. intros q' a H. apply raise_if_Ok in H as [_ [= <- _]]. by apply same_tables.
  - eapply tri_run; [apply produce_tri|done].
  - eapply tri_run; [apply tri_quiet, fetch_quiet|done].
  - eapply tri_run; [apply group_fetch_tri|done].
  - eapply tri_run; [apply commit_tri|done].
  - eapply tri_run; [apply reset_tri|done].
  - destruct (process tx src ex nx os now es lt q) as [q' res] eqn:E. by apply (process_ok rpc digest size_of nodes lease fingerprint tx_hash retained_at) in E as [He _].
  - eapply tri_run; [apply retain_tri|done]. intros p. by apply Hat.
  - eapply tri_run; [apply maintenance_tri|done]. intros k. by apply Hat.
  - apply evolves_same; [done|]. apply event_stirs.
  - by apply initialize_ok.
Qed.

Lemma set_world_evolves retained_at q w : logs_ok q → evolves retained_at q (set_world q w).
Proof. intros Hq. apply evolves_same; [done|]. by apply same_tables. Qed.

Lemma run_evolves retained_at q ops : (∀ k c, clocks ops k c → retained_at k c) → logs_ok q → evolves retained_at q (run q ops).1.
Proof.
  revert q. induction ops as [|[w op] ops IH]; intros q Hat Hq; [by apply evolves_start|]. cbn [QueueCoordinator.run].
  pose proof (set_world_evolves retained_at q w Hq) as H1.
  pose proof (step_evolves retained_at _ op (λ k c Hc, Hat k c (ex_intro _ op (conj (list_elem_of_here _ _) Hc))) (proj1 H1)) as H2.
  destruct (step (set_world q w) op) as [q1 o]. cbn in H2. specialize (IH q1).
  destruct (run q1 ops) as [q2 os]. cbn in *. eapply evolves_trans; [by eapply evolves_trans|]. apply IH; [|apply H2].
  intros k c (op' & Hop & Hc). apply Hat. exists op'. split; [by right|done].
Qed.

(** Without a word on the floors. *)
Lemma run_grows q ops : logs_ok q → evolves (λ _ _, True) q (run q ops).1.
Proof. by apply run_evolves. Qed.

Lemma empty_queue_ok (w : W) : logs_ok (empty_queue w).
Proof.
  split; try done; try apply NoDup_nil_2.
  - intros i k s _. unfold log_of, expected. cbn. split; [done|lia].
  - intros i k _. constructor.
Qed.

(** A receipt's batch in a later state. *)
Lemma stored_batch retained_at q2 q i k s h rc w :
  evolves retained_at (empty_queue w) q2 → evolves retained_at q2 q → dget (i, k, s) (receipts q2) = Some (h, rc) →
  k = (rc_topic rc, rc_partition rc) ∧ ∃ pt vs,
    dget k (parts q) = Some pt ∧ vs ≠ [] ∧ batch_of fingerprint i s h vs ∧ rc_offsets rc = v_offset <$> vs
    ∧ (∀ v, v ∈ vs → if v_offset v <? floor pt then removed_for size_of retained_at q k (v_offset v)
                     else record_at pt (v_offset v) = Some v)
    ∧ (ordinary q i → batch i s (records pt) = filter (λ v, floor pt <= v_offset v) vs ∧ in_order i (records pt)).
Proof.
  intros He2 [Hq Hg] Hr. pose proof (proj1 He2) as Hq2. destruct (lo_kept _ _ _ Hq2 _ _ _ _ _ Hr) as (Ek & vs & Hne & Hb & Ho & Hin).
  split; [done|]. destruct (log_grows _ _ _ _ k Hg) as [more El].
  assert (∀ v, v ∈ vs → v ∈ log_of q k) as Hin' by (intros v Hv; rewrite El; apply elem_of_app; left; by apply Hin).
  destruct (dget k (parts q)) as [pt|] eqn:Hk.
  2: { destruct vs as [|v vs]; [done|]. specialize (Hin' v ltac:(by left)). unfold log_of in Hin'. rewrite Hk in Hin'. by apply not_elem_of_nil in Hin'. }
  exists pt, vs. split_and!; [done..| |].
  - intros v Hv. specialize (Hin' v Hv). destruct (v_offset v <? floor pt) eqn:Ef.
    + apply (gw_floor _ _ _ _ (grows_trans _ _ _ _ _ (proj2 He2) Hg)). unfold floor_of. rewrite Hk. cbn. pose proof (log_offset _ _ q k v Hq Hin'). lia.
    + eapply log_rows; [exact Hq|exact Hk| |lia]. unfold log_of in Hin'. by rewrite Hk in Hin'.
  - intros Hi. pose proof (ordinary_before _ _ i (gw_transactions _ _ _ _ Hg) Hi) as Hi2.
    destruct (lo_receipts _ _ _ Hq2 _ _ _ _ _ Hi2 Hr) as [K1 _ K3 _ _].
    assert (batch i s (log_of q2 k) ≠ []) as Hb2 by (by apply (lo_batches _ _ _ Hq2)).
    assert (vs = batch i s (log_of q2 k)) as Ev.
    { eapply (offsets_same digest fingerprint q2 k); [done|done| |congruence]. by intros v [_ Hv]%list_elem_of_filter. }
    pose proof (gw_batches _ _ _ _ Hg i k s Hi Hb2) as Eb. unfold log_of in Eb at 1. rewrite Hk in Eb.
    rewrite (batch_rows _ _ q k pt i s Hq Hk), Eb, <- Ev. split; [done|]. apply in_order_rows.
    pose proof (lo_order _ _ _ Hq i k Hi) as H. unfold log_of in H. by rewrite Hk in H.
Qed.

(** A state that operations lead to, with any world before each. *)
Definition reachable q : Prop := ∃ w ops, (run (empty_queue w) ops).1 = q.

Lemma reachable_ok q : reachable q → logs_ok q.
Proof. intros (w & ops & <-). apply run_grows, empty_queue_ok. Qed.

(** C22: the tables of every reachable state are well formed: each log is a chain of
    envelopes that ends at the high water mark and starts at the floor with the base
    hash, waiting batches and receipts belong to the logs, and keys are unique. *)
Theorem coordinator_well_formed w ops : logs_ok (run (empty_queue w) ops).1.
Proof. apply run_grows, empty_queue_ok. Qed.

(** C1: a batch acknowledged as committed is stored exactly once then and after every
    later history.  Its records [vs], of messages with the fingerprint of the request,
    have the offsets of the receipt, and each is the row of its offset unless retention removed it, which it did only to a record too old at a
    clock of the history or in front of too many bytes.  No other row carries the
    producer's identity and sequence, whatever retries, failures and other writers did,
    and the producer's rows are in the order of its sequences - unless the identity is
    that of a committed transaction's outputs, which the code does not keep apart. *)
Theorem produce_exactly_once w ops0 t pr ep s ms p lo now q2 rc ops :
  produce t pr ep s ms p lo now (run (empty_queue w) ops0).1 = (q2, Ok (Some rc)) → rc_committed rc = true →
  let q := (run q2 ops).1 in
  let k := (rc_topic rc, rc_partition rc) in
  rc_topic rc = t ∧ ∃ pt vs,
    dget k (parts q) = Some pt ∧ vs ≠ [] ∧ batch_of fingerprint (pr, ep) s (fingerprint ms) vs ∧ rc_offsets rc = v_offset <$> vs
    ∧ (∀ v, v ∈ vs → if v_offset v <? floor pt then removed_for size_of (clocks (ops0 ++ ops)) q k (v_offset v)
                     else record_at pt (v_offset v) = Some v)
    ∧ (ordinary q (pr, ep) →
       batch (pr, ep) s (records pt) = filter (λ v, floor pt <= v_offset v) vs ∧ in_order (pr, ep) (records pt)).
Proof.
  intros Hp Hc q. set (at_ := clocks (ops0 ++ ops)).
  assert (evolves at_ (empty_queue w) (run (empty_queue w) ops0).1) as He1.
  { apply run_evolves, empty_queue_ok. intros k c (op & Hop & H). exists op. rewrite fmap_app, elem_of_app. by split; [left|]. }
  pose proof (produce_tri rpc digest size_of nodes fingerprint crc at_ t pr ep s ms p lo now _ (proj1 He1)) as H.
  unfold wp in H. rewrite Hp in H. destruct H as [He2 (n & Ha)]. specialize (Ha Hc).
  assert (evolves at_ q2 q) as He3.
  { apply run_evolves; [|apply He2]. intros k c (op & Hop & H). exists op. rewrite fmap_app, elem_of_app. by split; [right|]. }
  destruct (stored_batch _ _ _ _ _ _ _ _ _ (evolves_trans _ _ _ _ _ _ _ He1 He2) He3 Ha) as (Ek & pt & vs & H). cbn zeta. rewrite <- Ek.
  injection Ek as Et _. split; [done|]. by exists pt, vs.
Qed.

(** C20: whatever the brokers answer, a returned page is exactly the due records of the log
    from the offset on that its filter selects, and it is empty only at the end of the
    log or in front of a record that is not due - or two inputs of the hash collide. *)
Theorem fetch_integrity q t p o limit filters now q' page :
  reachable q → fetch t p o limit filters now q = (q', Ok page) →
  ∃ pt, dget (t, p) (parts q) = Some pt ∧ floor pt <= o ∧ (page_of (log pt) o limit filters now page ∨ collision digest).
Proof.
  intros Hr. apply fetch_ok with (fingerprint := fingerprint). by apply reachable_ok.
Qed.

(** A transaction that succeeds published every output, each behind what its partition
    held and with the offsets of its receipt, moved the input cursor and touched no other
    partition; one that fails moved nothing and left no record and no stage of its own. *)
Theorem process_atomic q txid src ex next outputs now es later q' res :
  reachable q → process txid src ex next outputs now es later q = (q', res) →
  match res with
  | Ok r => (q' = q ∧ dget txid (transactions q) = Some (tx_hash src ex next outputs, r))
            ∨ ex < next ∧ processed tx_hash txid src ex next outputs q q' r
  | Raise e => abandoned q q'
  end.
Proof. intros Hr H. eapply (process_ok _ _ _ _ _ _ _ (λ _ _, True)); [by apply reachable_ok|exact H]. Qed.

(** The answer of a transaction stands: repeated later with the same arguments it
    returns it and changes nothing; its identifier with other arguments is refused. *)
Theorem process_replay q1 txid src ex next outputs now es later q2 r ops src' ex' next' outputs' now' es' later' :
  reachable q1 → process txid src ex next outputs now es later q1 = (q2, Ok r) →
  let q3 := (run q2 ops).1 in
  process txid src ex next outputs now' es' later' q3 = (q3, Ok r)
  ∧ (tx_hash src' ex' next' outputs' ≠ tx_hash src ex next outputs →
     ∃ e, process txid src' ex' next' outputs' now' es' later' q3 = (q3, Raise e)).
Proof.
  intros Hr H q3. pose proof (process_ok rpc digest size_of nodes lease fingerprint tx_hash (λ _ _, True) _ _ _ _ _ _ _ _ _ _ _ (reachable_ok _ Hr) H) as [He Hp].
  assert (dget txid (transactions q3) = Some (tx_hash src ex next outputs, r)) as Ht.
  { apply (gw_transactions _ _ _ _ (proj2 (run_grows q2 ops (proj1 He)))). destruct Hp as [[-> Hp]|[_ Hp]]; [done|].
    rewrite (pr_transactions _ _ _ _ _ _ _ _ _ Hp). apply dget_dset_eq. }
  clearbody q3. split.
  - unfold QueueCoordinator.process, mbind, mlift in H |- *. destruct (process_checks txid src ex next outputs) as [[]|]; [|done].
    unfold transaction. rewrite Ht. cbn. by rewrite bool_decide_eq_true_2.
  - intros Hne. unfold QueueCoordinator.process, mbind, mlift. destruct (process_checks txid src' ex' next' outputs') as [[]|e]; [|by exists e].
    unfold transaction. rewrite Ht. cbn. rewrite bool_decide_eq_false_2 by done. by eexists.
Qed.

(** ** Delivery *)

Local Notation trace := (QueueDelivery.trace rpc digest size_of nodes lease fingerprint tx_hash crc).

Lemma group_fetch_out q t g m s gen p limit once filters now es lt a pg :
  logs_ok q → (step q (GroupFetch t g m s gen p limit once filters now es lt)).2 = Delivered a pg →
  page_of (log_of q (t, p)) a limit filters now pg ∨ collision digest.
Proof.
  intros Hq. cbn [QueueCoordinator.step]. unfold observe. destruct (group_fetch _ _ _ _ _ _ _ _ _ _ _ _ _ _ _ _ q) as [q' [[o pg']|e]] eqn:E; [|done].
  intros [= <- <-]. by eapply group_fetch_ok.
Qed.

(** Every page of a history, against the log at its end. *)
Lemma run_pages ops q t g m s gen p limit once filters now es lt a pg :
  logs_ok q → (GroupFetch t g m s gen p limit once filters now es lt, Delivered a pg) ∈ trace q ops →
  ∃ vs more, log_of (run q ops).1 (t, p) = vs ++ more ∧ (page_of vs a limit filters now pg ∨ collision digest).
Proof.
  revert q. induction ops as [|[w op] ops IH]; intros q Hq; [by intros ?%not_elem_of_nil|]. unfold QueueDelivery.trace in *. cbn [QueueCoordinator.run].
  pose proof (set_world_evolves (λ _ _, True) q w Hq) as H1. pose proof (step_evolves (λ _ _, True) _ op ltac:(done) (proj1 H1)) as H2.
  pose proof (group_fetch_out (set_world q w) t g m s gen p limit once filters now es lt a pg (proj1 H1)) as Hp.
  destruct (step (set_world q w) op) as [q1 out] eqn:Es. cbn [fst] in H2. specialize (IH q1 (proj1 H2)). pose proof (run_grows q1 ops (proj1 H2)) as H3.
  destruct (run q1 ops) as [q2 outs]. cbn [fst snd] in *. cbn. intros [E|Hin]%elem_of_cons; [|by apply IH].
  injection E as <- <-. rewrite Es in Hp. destruct (log_grows _ _ _ _ (t, p) (proj2 (evolves_trans _ _ _ _ _ _ _ H2 H3))) as [more El].
  exists (log_of q (t, p)), more. split; [done|]. by apply Hp.
Qed.

(** Without resets, every committed record below the cursor of a group was in a page that
    the group was delivered, unless the filter of that page left it out. *)
Theorem at_least_once w ops t g p o :
  (∀ op, op ∈ ops.*2 → ¬ resets t g p op) →
  let q := (run (empty_queue w) ops).1 in
  0 <= o < cursor q (t, g) p →
  ∃ m s gen limit once filters now es lt a pg,
    (GroupFetch t g m s gen p limit once filters now es lt, Delivered a pg) ∈ trace (empty_queue w) ops ∧ a <= o < next_offset pg
    ∧ ((∃ v, log_of q (t, p) !! Z.to_nat o = Some v ∧ not_before (record v) <= now
             ∧ (selected filters (record v) → record v ∈ f_records pg)) ∨ collision digest).
Proof.
  intros Hr q Ho. destruct (run_passed rpc digest size_of nodes lease fingerprint tx_hash crc t g p ops (empty_queue w) o Hr) as [[_ H]|(x & once & a & b & Hx & Hd & Hab)].
  - split; [lia|]. left. apply Ho.
  - exfalso. unfold cursor, dget_or in H. cbn in H. destruct H as [H|(gen & b & H & _)]; [lia|done].
  - destruct Hd as (m & s & gen & limit & fs & now & es & lt & pg & -> & <-).
    exists m, s, gen, limit, once, fs, now, es, lt, a, pg. split; [done|]. split; [done|].
    destruct (run_pages _ _ _ _ _ _ _ _ _ _ _ _ _ _ _ _ (empty_queue_ok w) Hx) as (vs & more & El & [Hp|Hc]); [left|by right].
    destruct (page_at _ _ _ _ _ _ _ Hp Hab) as (v & Hv & Hrest). exists v. split; [|done]. unfold q. rewrite El. by apply lookup_app_l_Some.
Qed.

(** Without resets, what a group was delivered at most once is in no later page of it. *)
Theorem at_most_once q ops t g p i j x y a b once c d :
  (∀ op, op ∈ ops.*2 → ¬ resets t g p op) → (i < j)%nat →
  trace q ops !! i = Some x → trace q ops !! j = Some y →
  delivers t g p x true a b → delivers t g p y once c d → b <= c.
Proof. apply run_once. Qed.
End props.

(** ** Examples and witnesses *)

(** Three brokers; a producer, a group with a member, a topic for outputs. *)
Module Demo.
Definition digest (previous : string) (r : Rec) : string := ZERO.
Definition size_of (v : Value) : Z := 100.
Definition nodes : list string := ["a"; "b"; "c"].
Definition fingerprint (ms : list Message) : string := String.concat "," (map m_value ms).
Definition tx_hash (src : Source) (ex next : Z) (os : list Output) : string := String.concat ";" (map (λ o, fingerprint (o_messages o)) os).
Definition crc (s : string) : Z := Z.of_nat (String.length s).
Definition rpc := broker_rpc digest size_of (λ _, 4096).
Definition run := QueueCoordinator.run rpc digest size_of nodes 100 fingerprint tx_hash crc.
Definition produce := QueueCoordinator.produce rpc digest size_of nodes fingerprint crc.
Definition fetch := QueueCoordinator.fetch rpc digest nodes (W := Cluster).
Definition process := QueueCoordinator.process rpc digest size_of nodes 100 tx_hash.
Definition start : Cluster := mk_cluster [] [].
Definition message (s : string) : Message := mk_message s None None None.
Definition src : Source := mk_source "in" "g" "m" "s" 1 0.
Definition outputs : list Output := [mk_output "out" 0 [message "z"]].
Definition opening : list (Cluster * Op) :=
  [(start, Happen (Create "in" 1 1000 4096 4096)); (start, Happen (Create "out" 2 1000 4096 4096)); (start, OpenProducer "p");
   (start, Happen (Join "in" "g" "m" "s" 0))].
Definition opened : Queue Cluster := (run (empty_queue start) opening).1.
Definition produced : Queue Cluster * result (option Receipt) := produce "in" "p" 0 0 [message "x"; message "y"] None false 5 opened.
Definition filled : Queue Cluster := produced.1.
Definition before : list (Cluster * Op) := opening ++ [(world opened, Produce "in" "p" 0 0 [message "x"; message "y"] None false 5)].

(** Pages for the group, a commit, a transaction. *)
Definition page (limit : Z) (once : bool) : Op := GroupFetch "in" "g" "m" "s" 1 0 limit once None 9 [] 9.
Definition consuming (l : list Op) : list (Cluster * Op) := map (λ op, (world filled, op)) l.
Definition history : list (Cluster * Op) :=
  opening ++ (world opened, Produce "in" "p" 0 0 [message "x"; message "y"] None false 5) :: consuming [page 10 false; Commit src 2 9].
Definition delivered : Queue Cluster := (run filled (consuming [page 10 false])).1.
Definition transact : Queue Cluster → Queue Cluster * result TxResponse := process "t1" src 0 2 outputs 9 [] 9.
Definition receipt : Receipt := mk_receipt "in" 0 [0; 1] true nodes.
Definition response : TxResponse := mk_response [mk_receipt "out" 0 [0] true nodes] 2.
Definition reached := reachable rpc digest size_of nodes 100 fingerprint tx_hash crc.
Definition trace := QueueDelivery.trace (W := Cluster) rpc digest size_of nodes 100 fingerprint tx_hash crc.
End Demo.

Lemma demo_opened : Demo.reached Demo.opened.
Proof. exists Demo.start, Demo.opening. vm_compute. reflexivity. Qed.
Lemma demo_queue_filled : Demo.reached Demo.filled.
Proof. exists Demo.start, (take 5 Demo.history). vm_compute. reflexivity. Qed.
Lemma demo_delivered : Demo.reached Demo.delivered.
Proof.
  exists Demo.start, (take 6 Demo.history). vm_compute. reflexivity.
Qed.

(** A batch acknowledged after retention removed the one before it, and retried. *)
Lemma produce_exactly_once_witness :
  let retain := [(world Demo.filled, RetainTopic "in" (λ _, 2000))] in
  let ms := [Demo.message "u"; Demo.message "v"] in
  let before := Demo.before ++ retain in
  let retry := [(world Demo.filled, Produce "in" "p" 0 1 ms None false 2002)] in
  let q := (Demo.run (Demo.produce "in" "p" 0 1 ms None false 2001 (Demo.run (empty_queue Demo.start) before).1).1 retry).1 in
  "in" = "in" ∧ ∃ pt vs,
    dget ("in", 0) (parts q) = Some pt ∧ vs ≠ [] ∧ batch_of Demo.fingerprint ("p", 0) 1 "u,v" vs ∧ [2; 3] = v_offset <$> vs
    ∧ (∀ v, v ∈ vs → if v_offset v <? floor pt then removed_for Demo.size_of (clocks (before ++ retry)) q ("in", 0) (v_offset v)
                     else record_at pt (v_offset v) = Some v)
    ∧ (ordinary q ("p", 0) →
       batch ("p", 0) 1 (records pt) = filter (λ v, floor pt <= v_offset v) vs ∧ in_order ("p", 0) (records pt)).
Proof.
  intros retain ms before retry. apply (produce_exactly_once Demo.rpc Demo.digest Demo.size_of Demo.nodes 100 Demo.fingerprint Demo.tx_hash Demo.crc
    Demo.start before "in" "p" 0 1 ms None false 2001
    (Demo.produce "in" "p" 0 1 ms None false 2001 (Demo.run (empty_queue Demo.start) before).1).1 (mk_receipt "in" 0 [2; 3] true Demo.nodes) retry);
    [vm_compute; reflexivity|reflexivity].
Defined.

(** A producer may be named like a transaction: then two batches of one partition carry the
    same identity and sequence. *)
Lemma transaction_name_shared :
  let named := [(world Demo.delivered, OpenProducer "tx_t1"); (world Demo.delivered, Produce "out" "tx_t1" 0 0 [Demo.message "w"] (Some 0) false 9)] in
  let q := (Demo.transact (Demo.run Demo.delivered named).1).1 in
  (λ v, (v_offset v, r_value (record v))) <$> batch ("tx_t1", 0) 0 (log_of q ("out", 0)) = [(0, "w"); (1, "z")].
Proof. vm_compute. reflexivity. Qed.

Lemma fetch_integrity_witness :
  match Demo.fetch "in" 0 0 10 None 9 Demo.filled with
  | (_, Ok page) => ∃ pt, dget ("in", 0) (parts Demo.filled) = Some pt ∧ floor pt <= 0 ∧ (page_of (log pt) 0 10 None 9 page ∨ collision Demo.digest)
  | (_, Raise _) => False
  end.
Proof.
  unfold Demo.fetch.
  destruct (QueueCoordinator.fetch _ _ _ "in" 0 0 10 None 9 Demo.filled) as [q' [page|e]] eqn:E; [|vm_compute in E; discriminate E].
  apply (fetch_integrity Demo.rpc Demo.digest Demo.size_of Demo.nodes 100 Demo.fingerprint Demo.tx_hash Demo.crc
    Demo.filled "in" 0 0 10 None 9 q' page); [exact demo_queue_filled|exact E].
Defined.

Lemma process_atomic_witness :
  let q' := (Demo.transact Demo.delivered).1 in
  (q' = Demo.delivered ∧ dget "t1" (transactions Demo.delivered) = Some (Demo.tx_hash Demo.src 0 2 Demo.outputs, Demo.response))
  ∨ 0 < 2 ∧ processed Demo.tx_hash "t1" Demo.src 0 2 Demo.outputs Demo.delivered q' Demo.response.
Proof.
  apply (process_atomic Demo.rpc Demo.digest Demo.size_of Demo.nodes 100 Demo.fingerprint Demo.tx_hash Demo.crc
    Demo.delivered "t1" Demo.src 0 2 Demo.outputs 9 [] 9 _ (Ok Demo.response) demo_delivered). vm_compute. reflexivity.
Defined.

Lemma process_replay_witness :
  let q3 := (Demo.run (Demo.transact Demo.delivered).1 [(Demo.start, Restart)]).1 in
  Demo.process "t1" Demo.src 0 2 Demo.outputs 20 [] 20 q3 = (q3, Ok Demo.response)
  ∧ (Demo.tx_hash Demo.src 0 2 [] ≠ Demo.tx_hash Demo.src 0 2 Demo.outputs →
     ∃ e, Demo.process "t1" Demo.src 0 2 [] 20 [] 20 q3 = (q3, Raise e)).
Proof.
  apply (process_replay Demo.rpc Demo.digest Demo.size_of Demo.nodes 100 Demo.fingerprint Demo.tx_hash Demo.crc
    Demo.delivered "t1" Demo.src 0 2 Demo.outputs 9 [] 9 _ Demo.response [(Demo.start, Restart)] Demo.src 0 2 [] 20 [] 20 demo_delivered).
  vm_compute. reflexivity.
Defined.

Lemma at_least_once_witness :
  let q := (Demo.run (empty_queue Demo.start) Demo.history).1 in
  ∃ m s gen limit once filters now es lt a pg,
    (GroupFetch "in" "g" m s gen 0 limit once filters now es lt, Delivered a pg) ∈ Demo.trace (empty_queue Demo.start) Demo.history
    ∧ a <= 1 < next_offset pg
    ∧ ((∃ v, log_of q ("in", 0) !! 1%nat = Some v ∧ not_before (record v) <= now
             ∧ (selected filters (record v) → record v ∈ f_records pg)) ∨ collision Demo.digest).
Proof.
  apply (at_least_once Demo.rpc Demo.digest Demo.size_of Demo.nodes 100 Demo.fingerprint Demo.tx_hash Demo.crc
    Demo.start Demo.history "in" "g" 0 1).
  - intros op Hop. vm_compute in Hop. by repeat (apply elem_of_cons in Hop as [->|Hop]; [intros []|]); apply not_elem_of_nil in Hop.
  - vm_compute. by split.
Defined.

(** A record at most once, then a page. *)
Lemma at_most_once_witness :
  let tr := Demo.trace Demo.filled (Demo.consuming [Demo.page 1 true; Demo.page 10 false]) in
  (∃ x y, tr !! 0%nat = Some x ∧ tr !! 1%nat = Some y ∧ delivers "in" "g" 0 x true 0 1 ∧ delivers "in" "g" 0 y false 1 2) ∧ 1 <= 1.
Proof.
  intros tr. destruct (tr !! 0%nat) as [x|] eqn:Ex; [|vm_compute in Ex; discriminate Ex].
  destruct (tr !! 1%nat) as [y|] eqn:Ey; [|vm_compute in Ey; discriminate Ey].
  assert (delivers "in" "g" 0 x true 0 1) as Hx by (vm_compute in Ex; injection Ex as <-; by repeat eexists).
  assert (delivers "in" "g" 0 y false 1 2) as Hy by (vm_compute in Ey; injection Ey as <-; by repeat eexists).
  split; [exists x, y; refine (conj _ (conj _ (conj Hx Hy))); reflexivity|].
  apply (at_most_once Demo.rpc Demo.digest Demo.size_of Demo.nodes 100 Demo.fingerprint Demo.tx_hash Demo.crc
    Demo.filled (Demo.consuming [Demo.page 1 true; Demo.page 10 false]) "in" "g" 0 0 1 x y 0 1 false 1 2); [|lia|exact Ex|exact Ey|exact Hx|exact Hy].
  clear. intros op Hop. vm_compute in Hop. by repeat (apply elem_of_cons in Hop as [->|Hop]; [intros []|]); apply not_elem_of_nil in Hop.
Defined.

(** The member's session is accepted before and after a heartbeat, and no other
    member or session is, in that generation. *)
Lemma one_owner_per_generation_witness :
  let ops := [(Demo.start, Happen (Heartbeat "in" "g" "m" "s" 20))] in
  let enter := membership "in" "g" in
  ∃ q1 x1 q2 x2,
    enter "m" "s" (Some 1) (Some 0) 5 Demo.opened = Ok (q1, x1) ∧
    enter "m" "s" (Some 1) (Some 0) 30 (Demo.run q1 ops).1 = Ok (q2, x2) ∧
    ∀ m s q x, enter m s (Some 1) (Some 0) 30 (Demo.run q1 ops).1 = Ok (q, x) → m = "m" ∧ s = "s".
Proof.
  intros ops enter.
  destruct (enter "m" "s" (Some 1) (Some 0) 5 Demo.opened) as [[q1 x1]|] eqn:E1; [|vm_compute in E1; discriminate E1].
  destruct (enter "m" "s" (Some 1) (Some 0) 30 (Demo.run q1 ops).1) as [[q2 x2]|] eqn:E2.
  - exists q1, x1, q2, x2. split; [reflexivity|]. split; [exact E2|]. intros m s q x E3.
    destruct (one_owner_per_generation Demo.rpc Demo.digest Demo.size_of Demo.nodes 100 Demo.fingerprint Demo.tx_hash Demo.crc
      "in" "g" "m" "s" 5 m s 30 1 0 Demo.opened q1 x1 ops q x E1 E3) as [Hm Hs].
    split; symmetry; assumption.
  - vm_compute in E1. injection E1 as <- <-. vm_compute in E2. discriminate E2.
Defined.
