(* ===== verification/QueueQuorum.v ===== *)
(** * A quorum of brokers holds what is committed

    The coordinator over real brokers (QueueCluster.v): every request it sends leaves a
    broker with the committed prefix it had, and a batch is committed only when a quorum
    of brokers has it. *)
From S2P Require Import Prelude PyList PyDict Checks Effects Messages BrokerLog BrokerLogInv Chain BrokerLogSteps BrokerLogProps.
From S2P Require Import QueueState QueueGroups QueueReplication QueueCoordinator QueueInv QueueSteps QueueRun QueueProcess QueueCluster.
Local Open Scope Z_scope.

(** ** One broker *)

Section broker.
Context (digest : string → Rec → string) (size_of : Value → Z) (segment_bytes : PartKey → Z).
Local Notation good := (BrokerLogSteps.good digest size_of).
Local Notation chain_dispatch := (Chain.chain_dispatch digest size_of).
Local Notation chain_ok := (Chain.chain_ok digest size_of).
Local Notation rpc := (broker_rpc digest size_of segment_bytes).
Implicit Types w : Cluster.

(** The chain of a partition on a node. *)
Definition replica (n : string) (k : PartKey) w : Chain := abs (broker_log segment_bytes n k w).
Definition replicas_good w : Prop := ∀ n k, good (broker_log segment_bytes n k w).

Lemma dispatch_working s r : good s →
  let (s', res) := dispatch digest size_of r (set_faults s []) in
  good s' ∧ match res with Ok rep => chain_dispatch r (abs s) = Ok (abs s', rep) | Raise _ => abs s' = abs s end.
Proof.
  intros Hg. pose proof (dispatch_ok digest size_of False (set_faults s []) r (good_faults digest size_of s [] Hg) ltac:(done)) as H. unfold outcome in H.
  change (abs (set_faults s [])) with (abs s) in H. destruct (dispatch digest size_of r (set_faults s [])) as [s' [a|e]].
  - by destruct H as (_ & Hg' & E).
  - by destruct H as (_ & [(Hg' & Ea & _)|(? & _)]).
Qed.

(** A call changes one log, if it arrives, as the chain's. *)
Lemma rpc_chain n k r w : replicas_good w →
  let (w', res) := rpc n k r w in
  replicas_good w' ∧ (∀ n' k', (n', k') ≠ (n, k) → replica n' k' w' = replica n' k' w ∧ dget (n', k') (brokers w') = dget (n', k') (brokers w)) ∧
  match res with
  | Ok rep => chain_dispatch r (replica n k w) = Ok (replica n k w', rep)
  | Raise _ => replica n k w' = replica n k w ∨ ∃ rep, chain_dispatch r (replica n k w) = Ok (replica n k w', rep)
  end.
Proof.
  intros Hg. unfold broker_rpc. set (fate := default Answered (head (network w))).
  assert (∀ s, good s → replicas_good (mk_cluster (dset (n, k) s (brokers w)) (tail (network w))) ∧
    (∀ n' k', (n', k') ≠ (n, k) → replica n' k' (mk_cluster (dset (n, k) s (brokers w)) (tail (network w))) = replica n' k' w ∧
      dget (n', k') (brokers (mk_cluster (dset (n, k) s (brokers w)) (tail (network w)))) = dget (n', k') (brokers w)) ∧
    replica n k (mk_cluster (dset (n, k) s (brokers w)) (tail (network w))) = abs s) as Hset.
  { intros s Hs. split; [|split].
    - intros n' k'. unfold broker_log, dget_or. cbn. rewrite dget_dset. case_decide; [done|apply Hg].
    - intros n' k' Hne. unfold replica, broker_log, dget_or. cbn. by rewrite dget_dset_ne.
    - unfold replica, broker_log, dget_or. cbn. by rewrite dget_dset_eq. }
  pose proof (dispatch_working (broker_log segment_bytes n k w) r (Hg n k)) as Hd.
  destruct (dispatch digest size_of r _) as [s res]. destruct Hd as [Hs Hd]. destruct (Hset s Hs) as (H1 & H2 & H3).
  destruct fate.
  - split; [done|]. split; [done|]. rewrite H3. destruct res; [done|by left].
  - split; [done|]. split; [done|by left].
  - split; [done|]. split; [done|]. rewrite H3. destruct res as [rep|]; [right; by exists rep|by left].
Qed.

(** ** The committed prefix *)

Definition has (c : Chain) (pt : Part) : Prop := c_base c <= floor pt ∧ c_hash_at (hwm pt) c = Some (last_hash ZERO (log pt)).

(** The requests of the coordinator for a partition. *)
Definition proper (pt : Part) (r : Request) : Prop :=
  match r with
  | Status _ | Read _ _ => True
  | Sync _ cm ch base _ _ => cm = hwm pt ∧ ch = last_hash ZERO (log pt) ∧ base = floor pt
  | Install _ base _ _ cm ch => cm = Some (hwm pt) ∧ ch = Some (last_hash ZERO (log pt)) ∧ base = floor pt
  | Retain base _ => base <= floor pt
  end.

Lemma hash_at_drop c base bh e m o :
  c_base c <= base → c_hash_at (base - 1) c = Some bh → base - 1 <= o →
  c_hash_at o (mk_chain base bh e m (drop (Z.to_nat (base - c_base c)) (c_values c))) = c_hash_at o c.
Proof.
  intros Hb Hh Ho. unfold c_hash_at at 1. cbn. destruct (o =? base - 1) eqn:E; [by replace o with (base - 1) by lia|].
  replace (base <=? o) with true by lia. rewrite lookup_drop. unfold c_hash_at. replace (o =? c_base c - 1) with false by lia.
  replace (c_base c <=? o) with true by lia. do 2 f_equal. lia.
Qed.

Lemma hash_at_prefix c base bh e m vs o h :
  c_hash_at o c = Some h → base = c_base c → bh = c_hash c → c_hash_at o (mk_chain base bh e m (take (Z.to_nat (o + 1 - base)) (c_values c) ++ vs)) = Some h.
Proof.
  intros H -> ->. unfold c_hash_at in *. cbn. destruct (_ =? _); [done|]. destruct (_ <=? o) eqn:E; [|done].
  apply fmap_Some in H as (v & Hv & ->). apply fmap_Some. exists v. split; [|done]. apply lookup_app_l_Some. apply lookup_take_Some. split; [done|lia].
Qed.

Lemma sync_has epoch cm ch base bh vs c c' pt :
  chain_ok c → chain_sync digest size_of epoch cm ch base bh vs c = Ok c' → proper pt (Sync epoch cm ch base bh vs) → has c pt → has c' pt ∧ c_base c' = base.
Proof.
  intros Hc Hs (-> & -> & ->) [H1 H2]. unfold chain_sync in Hs. apply guard_bind in Hs as [_ Hs].
  destruct (prepare _ _ _ _ _) as [vs'|] eqn:Ev; [|done]. cbn [rbind] in Hs. apply prepare_ok in Ev as (-> & _ & _).
  apply guard_bind in Hs as [Hb%integer_spec Hs]. apply guard_bind in Hs as [Hbh%agrees_Some Hs].
  destruct (chain_align epoch _ _ c) as [c1|] eqn:Ea; [|done]. cbn [rbind] in Hs. injection Hs as <-.
  pose proof (chain_align_ok _ _ _ _ _ _ _ Hc Ea) as (-> & _). split; [|done]. split; [cbn; lia|]. cbn [c_values c_base c_hash c_epoch c_committed].
  unfold chain_append. cbn [c_values c_base c_hash c_epoch c_committed].
  unfold c_hash_at at 1. cbn [c_values c_base c_hash]. destruct (Z.eqb_spec (hwm pt) (floor pt - 1)) as [E|E].
  - rewrite <- E in Hbh. congruence.
  - replace (floor pt <=? hwm pt) with true by lia. unfold c_hash_at in H2. replace (hwm pt =? c_base c - 1) with false in H2 by lia.
    replace (c_base c <=? hwm pt) with true in H2 by lia. apply fmap_Some in H2 as (v & Hv & ->). apply fmap_Some. exists v. split; [|done].
    apply lookup_app_l_Some. rewrite lookup_drop. apply lookup_take_Some. split; [|lia]. rewrite <- Hv. f_equal. lia.
Qed.

Lemma install_has vs base bh epoch cm ch c c' pt :
  chain_install digest size_of vs base bh epoch cm ch c = Ok c' → proper pt (Install vs base bh epoch cm ch) → has c' pt ∧ c_base c' = base.
Proof.
  intros Hs (-> & -> & ->). unfold chain_install in Hs. apply guard_bind in Hs as [_ Hs]. apply guard_bind in Hs as [_ Hs].
  destruct (prepare _ _ _ _ _) as [vs'|]; [|done]. cbn [rbind] in Hs. apply guard_bind in Hs as [_ Hs].
  change (default (floor pt - 1) (Some (hwm pt))) with (hwm pt) in Hs.
  set (c2 := mk_chain _ _ _ _ _) in *. destruct (c_hash_at (hwm pt) c2) as [h|] eqn:Eh; [|done].
  match type of Hs with rbind ?m _ = _ => destruct m as [[]|] eqn:Em; [|done] end. cbn [rbind] in Hs.
  apply guard_bind in Em as [_ Em]. unfold guard in Em. apply raise_if_Ok in Em as [Em _]. apply negb_false_iff, bool_decide_eq_true in Em. subst h.
  apply guard_bind in Hs as [_ Hs]. match type of Hs with rbind ?m _ = _ => destruct m as [[]|]; [|done] end. injection Hs as <-.
  split; [|done]. split; [cbn; lia|done].
Qed.

Lemma retain_has base bh c c' pt :
  chain_retain base bh c = Ok c' → proper pt (Retain base bh) → floor pt <= hwm pt + 1 → has c pt → has c' pt.
Proof.
  intros Hs Hp Hf [H1 H2]. cbn in Hp. unfold chain_retain in Hs. apply guard_bind in Hs as [_ Hs].
  apply guard_bind in Hs as [Hb%integer_spec Hs]. apply guard_bind in Hs as [Hbh%agrees_Some Hs]. injection Hs as <-.
  split; [done|]. rewrite hash_at_drop; [done|lia|done|lia].
Qed.

(** A broker with the committed prefix keeps it. *)
Lemma proper_has r c c' rep pt :
  chain_ok c → chain_dispatch r c = Ok (c', rep) → proper pt r → floor pt <= hwm pt + 1 → has c pt → has c' pt.
Proof.
  intros Hc Hd Hp Hf Hh. destruct r as [cm|o l|epoch cm ch base bh vs|vs base bh epoch cm ch|base bh]; cbn [Chain.chain_dispatch] in Hd.
  - apply guard_bind in Hd as [_ [= <- _]]. done.
  - destruct (chain_read _ _ _ _); [|done]. by injection Hd as <- _.
  - destruct (chain_sync _ _ _ _ _ _ _ _ _) as [c1|] eqn:E; [|done]. injection Hd as <- _. by eapply sync_has.
  - destruct (chain_install _ _ _ _ _ _ _ _ _) as [c1|] eqn:E; [|done]. injection Hd as <- _. by eapply install_has.
  - destruct (chain_retain _ _ _) as [c1|] eqn:E; [|done]. injection Hd as <- _. by eapply retain_has.
Qed.

(** Requests that look. *)
Definition looks (r : Request) : Prop := match r with Status _ | Read _ _ => True | _ => False end.
Lemma looks_same r c c' rep : looks r → chain_dispatch r c = Ok (c', rep) → c' = c.
Proof.
  destruct r; try done; intros _; cbn [Chain.chain_dispatch].
  - by intros [_ [= <- _]]%guard_bind.
  - destruct (chain_read _ _ _ _); [|done]. by intros [= <- _].
Qed.

(** ** Confirmation *)

Definition has_batch (c : Chain) (pt : Part) (v : Value) : Prop := c_base c <= floor pt ∧ c_hash_at (v_offset v) c = Some (hash v).

Lemma tail_confirms c' values v base :
  c_base c' = base → last values = Some v → confirms (Tail (c_next c') (c_hash_at (c_next c' - 1) c')) values = true →
  c_hash_at (v_offset v) c' = Some (hash v).
Proof.
  intros _ Hv. unfold confirms. rewrite Hv. intros [H%bool_decide_eq_true E]%andb_true_iff.
  by replace (v_offset v) with (c_next c' - 1) by lia.
Qed.

Lemma stores_batch r c c' rep pt values v :
  chain_ok c → chain_dispatch r c = Ok (c', rep) → proper pt r → (has c pt ∨ ∃ vs bh e cm ch, r = Install vs (floor pt) bh e cm ch) →
  ¬ looks r → (∀ b h, r ≠ Retain b h) → last values = Some v → confirms rep values = true → has_batch c' pt v.
Proof.
  intros Hc Hd Hp Hh Hl Hr Hv Hcf. destruct r as [cm|o l|epoch cm ch base bh vs|vs base bh epoch cm ch|base bh]; cbn [Chain.chain_dispatch] in Hd; try done.
  - destruct (chain_sync _ _ _ _ _ _ _ _ _) as [c1|] eqn:E; [|done]. injection Hd as <- <-.
    destruct Hh as [Hh|(? & ? & ? & ? & ? & ?)]; [|done]. destruct (sync_has _ _ _ _ _ _ _ _ _ Hc E Hp Hh) as [[H1 _] Hb].
    split; [done|]. by eapply tail_confirms.
  - destruct (chain_install _ _ _ _ _ _ _ _ _) as [c1|] eqn:E; [|done]. injection Hd as <- <-.
    destruct (install_has _ _ _ _ _ _ _ _ _ E Hp) as [[H1 _] Hb]. split; [done|]. by eapply tail_confirms.
  - by destruct (Hr base bh).
Qed.
End broker.

(** ** The coordinator and its brokers *)

Section quorum.
Context (digest : string → Rec → string) (size_of : Value → Z) (segment_bytes : PartKey → Z).
Context (nodes : list string) (fingerprint : list Message → string).
Hypothesis nodes_nonempty : nodes ≠ [].
Hypothesis nodes_distinct : NoDup nodes.
Local Notation Queue := (QueueState.Queue Cluster).
Local Notation M := (Effects.M Queue).
Local Notation rpc := (broker_rpc digest size_of segment_bytes).
Local Notation chain := (replica segment_bytes).
Local Notation brokers_good := (replicas_good digest size_of segment_bytes).
Local Notation logs_ok := (QueueInv.logs_ok digest fingerprint).
Implicit Types q : Queue.

(** More than half of the nodes. *)
Definition majority (P : string → Prop) : Prop := ∃ ns, NoDup ns ∧ (∀ n, n ∈ ns → n ∈ nodes ∧ P n) ∧ (length nodes < 2 * length ns)%nat.

Lemma majority_impl (P Q : string → Prop) : majority P → (∀ n, P n → Q n) → majority Q.
Proof. intros (ns & H1 & H2 & H3) HPQ. exists ns. split; [done|]. split; [|done]. intros n Hn. destruct (H2 n Hn). split; auto. Qed.

Lemma majority_all (P : string → Prop) : (∀ n, n ∈ nodes → P n) → majority P.
Proof.
  intros HP. exists nodes. split; [done|]. split; [auto|]. destruct nodes; [done|cbn; lia].
Qed.

(** Tables and brokers agree: a quorum has every committed prefix that retention keeps. *)
Record safe q : Prop := {
  sf_logs : logs_ok q;
  sf_brokers : brokers_good (world q);
  sf_new : ∀ k n, dget k (parts q) = None → chain n k (world q) = mk_chain 0 ZERO 0 (-1) [];
  sf_leader : ∀ k pt, dget k (parts q) = Some pt → p_leader pt ∈ nodes;
  sf_retention : ∀ k n base bh, ((k, n), (base, bh)) ∈ (retention_pending q : list (PartKey * string * (Z * string))) →
    ∃ pt, dget k (parts q) = Some pt ∧ base <= floor pt;
  sf_quorum : ∀ k pt, dget k (parts q) = Some pt → majority (λ n, has (chain n k (world q)) pt);
}.

(** Tables that only change elsewhere. *)
Lemma safe_tables q q' :
  safe q → logs_ok q' → world q' = world q → retention_pending q' = retention_pending q → parts q' = parts q → safe q'.
Proof. intros [] Hl E1 E2 E3. by split; rewrite ?E1, ?E2, ?E3. Qed.

Lemma same_part_has pt pt' c : same_part pt pt' → has c pt → has c pt'.
Proof. intros (E1 & E2 & _ & E4) [H1 H2]. by split; rewrite ?E1, ?E2, ?E4. Qed.

(** ** Calls *)

(** All chains but the one at [n] and [k] are the same, and so are the tables up to leaders. *)
Record touches (n : string) (k : PartKey) q q' : Prop := {
  tc_safe : safe q';
  tc_outside : outside q q';
  tc_chains : ∀ n' k', (n', k') ≠ (n, k) → chain n' k' (world q') = chain n' k' (world q);
}.

(** All chains are. *)
Record peeks q q' : Prop := {
  pk_safe : safe q';
  pk_outside : outside q q';
  pk_chains : ∀ n k, chain n k (world q') = chain n k (world q);
}.

Lemma peeks_refl q : safe q → peeks q q.
Proof. intros Hq. split; [done|apply outside_refl|done]. Qed.
Lemma peeks_trans q1 q2 q3 : peeks q1 q2 → peeks q2 q3 → peeks q1 q3.
Proof. intros [_ A2 A3] [B1 B2 B3]. split; [done|by eapply outside_trans|]. intros n k. by rewrite B3, A3. Qed.
Lemma touches_trans n k q1 q2 q3 : touches n k q1 q2 → touches n k q2 q3 → touches n k q1 q3.
Proof. intros [_ A2 A3] [B1 B2 B3]. split; [done|by eapply outside_trans|]. intros n' k' H. by rewrite B3, A3. Qed.
Lemma peeks_touches n k q q' : peeks q q' → touches n k q q'.
Proof. intros []. by split. Qed.

Lemma outside_part q q' k pt : outside q q' → dget k (parts q) = Some pt → ∃ pt', dget k (parts q') = Some pt' ∧ same_part pt pt'.
Proof.
  intros Ho Hk. pose proof (os_parts _ _ Ho k) as H. rewrite Hk in H. destruct (dget k (parts q')) as [pt'|]; [|done]. by exists pt'.
Qed.

(** The effect of one request on what the brokers have. *)
Lemma call_touches n k r q pt : safe q → dget k (parts q) = Some pt → proper pt r →
  let (q', res) := call rpc n k r q in
  touches n k q q' ∧ parts q' = parts q ∧ match res with
    | Ok rep => Chain.chain_dispatch digest size_of r (chain n k (world q)) = Ok (chain n k (world q'), rep)
    | Raise _ => True
    end.
Proof.
  intros Hq Hk Hp. unfold call. pose proof (rpc_chain digest size_of segment_bytes n k r (world q) (sf_brokers _ Hq)) as H.
  pose proof (quiet_call rpc n k r q) as Ho. unfold call in Ho. destruct (broker_rpc _ _ _ n k r (world q)) as [w res]. cbn [fst] in Ho.
  destruct H as (Hg & Hn & Hc). split; [|split; [done|by destruct res]]. split; [|done|intros n' k' Hne; by apply Hn].
  destruct Hq as [L1 L2 L3 L4 L5 L6]. split; cbn; try done.
  - eapply same_logs_ok; [|done]. by apply same_tables.
  - intros k' n' Hk'. rewrite (proj1 (Hn n' k' ltac:(congruence))). by apply L3.
  - intros k' pt' Hk'. eapply majority_impl; [by apply L6|]. intros n' Hh. cbn beta in *.
    destruct (decide ((n', k') = (n, k))) as [E|Hne]; [|by rewrite (proj1 (Hn n' k' Hne))]. injection E as -> ->.
    assert (pt' = pt) as -> by congruence. assert (part_ok digest pt) as Hpt by (by apply (lo_parts _ _ _ L1 k)).
    assert (∀ rep, Chain.chain_dispatch digest size_of r (chain n k (world q)) = Ok (chain n k w, rep) → has (chain n k w) pt) as Hd.
    { intros rep Hd. eapply proper_has; [| exact Hd|done|destruct Hpt; lia|done]. apply good_ok, L2. }
    destruct res as [rep|e]; [by eapply Hd|]. destruct Hc as [->|[rep Hc]]; [done|by eapply Hd].
Qed.

Lemma call_peeks n k r q pt : safe q → dget k (parts q) = Some pt → looks r → peeks q (call rpc n k r q).1.
Proof.
  intros Hq Hk Hl. assert (proper pt r) as Hp by (by destruct r). pose proof (call_touches n k r q pt Hq Hk Hp) as H.
  pose proof (rpc_chain digest size_of segment_bytes n k r (world q) (sf_brokers _ Hq)) as Hc. unfold call in *.
  destruct (broker_rpc _ _ _ n k r (world q)) as [w res]. destruct H as ([H1 H2 H3] & _ & _). cbn [fst]. split; [done|done|].
  intros n' k'. destruct (decide ((n', k') = (n, k))) as [E|Hne]; [|by apply H3]. injection E as -> ->. cbn.
  destruct Hc as (_ & _ & Hc). destruct res as [rep|e]; [by eapply looks_same|]. destruct Hc as [Hc|[rep Hc]]; [done|by eapply looks_same].
Qed.

(** ** Leaders and pages *)

Lemma wp_attempt {A} (m : M A) (Q : option A → Queue → Prop) (E : exn → Queue → Prop) q :
  wp m (λ a, Q (Some a)) (λ e q', Q None q' ∧ E e q') q → wp (attempt m) Q E q.
Proof. unfold wp, attempt. destruct (m q) as [q' [a|e]]; [done|]. intros [H1 H2]. by destruct (caught e). Qed.

(** Computations that only look. *)
Definition peeking {A} (m : M A) (k : PartKey) : Prop :=
  ∀ q pt, safe q → dget k (parts q) = Some pt → peeks q (m q).1.

Lemma peeking_ret {A} (m : M A) k : (∀ q, (m q).1 = q) → peeking m k.
Proof. intros H q pt Hq _. rewrite H. by apply peeks_refl. Qed.
Lemma peeking_bind {A B} (m : M A) (f : A → M B) k : peeking m k → (∀ a, peeking (f a) k) → peeking (mbind m f) k.
Proof.
  intros Hm Hf q pt Hq Hk. pose proof (Hm q pt Hq Hk) as H. unfold mbind. destruct (m q) as [q1 [a|e]]; [|done].
  destruct (outside_part _ _ _ _ (pk_outside _ _ H) Hk) as (pt1 & Hk1 & _). eapply peeks_trans; [done|]. eapply Hf; [apply H|done].
Qed.
Lemma peeking_attempt {A} (m : M A) k : peeking m k → peeking (attempt m) k.
Proof. intros Hm q pt Hq Hk. specialize (Hm q pt Hq Hk). unfold attempt. destruct (m q) as [q1 [a|e]]; [done|]. by destruct (caught e). Qed.
Lemma peeking_call n k r : looks r → peeking (call rpc n k r) k.
Proof. intros Hl q pt Hq Hk. by eapply call_peeks. Qed.

Hint Resolve peeking_bind peeking_attempt : peeking.
Hint Extern 1 (peeking _ _) => (apply peeking_ret; done) : peeking.
Hint Extern 1 (peeking (call _ _ _ _) _) => (apply peeking_call; done) : peeking.

Lemma candidates_peeking k pt x ns : peeking (candidates rpc k pt x ns) k.
Proof.
  induction ns as [|n ns IH]; cbn [candidates]; [auto with peeking|]. apply peeking_bind; [auto with peeking|]. intros s.
  destruct (_ && _); auto with peeking.
Qed.

Lemma read_replica_peeking k pt l o n : peeking (read_replica rpc digest k pt l o n) k.
Proof.
  apply peeking_bind; [auto with peeking|]. intros [| | |]; auto with peeking. cbv zeta. destruct (negb _); [auto with peeking|].
  apply peeking_bind; [auto with peeking|]. intros rows. destruct (negb _); [auto with peeking|]. destruct (forallb _ _); auto with peeking.
Qed.

Lemma retained_peeking k pt l vs : peeking (retained rpc digest size_of k pt l vs) k.
Proof.
  unfold retained. generalize (Z.to_nat (hwm pt - floor pt + 1)). intros fuel.
  generalize (floor pt), (batch_bytes size_of vs), (Z.of_nat (length vs)).
  induction fuel as [|fuel IH]; intros o b c; cbn [retained_from]; destruct (hwm pt <? o); try (auto with peeking).
  apply peeking_bind; [apply read_replica_peeking|]. intros page. cbv zeta. destruct (_ || _); auto with peeking.
Qed.

Lemma candidates_in k pt x ns q q' r : candidates rpc k pt x ns q = (q', Ok r) →
  (∀ n, r.1 = Some n → n = p_leader pt) ∧ ∀ n, n ∈ r.2 → n ∈ ns.
Proof.
  revert q q' r. induction ns as [|n ns IH]; intros q q' r; cbn [candidates]; [intros [= _ <-]; split; [done|]; by intros n Hn%not_elem_of_nil|].
  unfold mbind. destruct (attempt _ q) as [q1 [s|]]; [|done]. set (ok := match s with Some _ => _ | None => _ end).
  destruct (ok && bool_decide (n = p_leader pt)) eqn:E.
  - intros [= _ <-]. apply andb_true_iff in E as [_ E%bool_decide_eq_true]. split; [by intros m [= <-]|]. by intros m Hm%not_elem_of_nil.
  - destruct (candidates rpc k pt x ns q1) as [q2 [r'|]] eqn:Ec; [|done]. intros [= _ <-]. destruct (IH _ _ _ Ec) as [H1 H2]. split; [done|].
    intros m. cbn. destruct ok; [|intros Hm; right; by apply H2]. intros [->|Hm]%elem_of_cons; [by left|right; by apply H2].
Qed.

(** The leader is a node, and its hash the one of the committed prefix. *)
Lemma leader_wp k q : safe q →
  wp (leader rpc nodes k)
    (λ r q', peeks q q' ∧ r.1.2 ∈ nodes ∧ r.2 = last_hash ZERO (log r.1.1) ∧ ∃ pt, dget k (parts q') = Some pt ∧ same_part r.1.1 pt)
    (λ _ q', peeks q q') q.
Proof.
  intros Hq. apply wp_bind. unfold wp at 1, query. destruct (part q k) as [pt|e] eqn:Ep; cbn [rbind]; [|by apply peeks_refl].
  apply part_Ok in Ep. rewrite (expected_hash_ok digest pt) by (by apply (lo_parts _ _ _ (sf_logs _ Hq) k)). cbn [rbind].
  apply wp_bind. pose proof (candidates_peeking k pt (last_hash ZERO (log pt)) (p_leader pt :: others nodes (p_leader pt)) q pt Hq Ep) as Hpk.
  unfold wp at 1. destruct (candidates _ _ _ _ _ q) as [q1 [[found cs]|e]] eqn:Ec; cbn [fst] in Hpk; [|done].
  apply candidates_in in Ec as [Hc1 Hc2]. cbn [fst snd] in *. pose proof (sf_leader _ Hq k pt Ep) as Hlead.
  destruct (outside_part _ _ _ _ (pk_outside _ _ Hpk) Ep) as (pt1 & Ep1 & Hs1).
  destruct found as [n|].
  { split; [done|]. split; [cbn; by rewrite (Hc1 n eq_refl)|]. split; [done|]. by exists pt1. }
  destruct (py_sorted cs) as [|n ns] eqn:Es; [done|].
  assert (n ∈ nodes) as Hn.
  { assert (n ∈ cs) as Hin by (rewrite <- (py_sorted_perm cs), Es; by left). apply Hc2 in Hin.
    apply elem_of_cons in Hin as [->|Hin]; [done|]. by apply list_elem_of_filter in Hin as [_ Hin]. }
  apply wp_bind. unfold wp at 1, transaction. destruct (part q1 k) as [pt2|e] eqn:Ep2; cbn [rbind]; [|done].
  pose proof (part_Ok _ _ _ Ep2) as Ek2. assert (pt2 = pt1) as -> by congruence.
  set (pt3 := mk_part n _ _ _ _ _). set (q2 := set_parts q1 (dset k pt3 (parts q1))).
  assert (part q2 k = Ok pt3) as ->.
  { unfold part in *. change (topic q2 k.1) with (topic q1 k.1). destruct (topic q1 k.1); [|done]. cbn [rbind] in *. destruct (negb _); [done|].
    cbn [raise_if] in *. unfold q2. cbn. by rewrite dget_dset_eq. }
  cbn [rbind]. assert (outside q1 q2) as Ho.
  { split; try done. intros k'. cbn. rewrite dget_dset. destruct (decide (k = k')) as [<-|]; [|destruct (dget k' (parts q1)); [apply same_part_refl|done]].
    rewrite Ep1. by split_and!. }
  destruct (pk_safe _ _ Hpk) as [L1 L2 L3 L4 L5 L6]. unfold wp, mret. cbn [fst snd].
  assert (∀ k' pt', dget k' (parts q2) = Some pt' → ∃ pt0, dget k' (parts q1) = Some pt0 ∧ same_part pt0 pt' ∧ p_leader pt' ∈ nodes) as Hall.
  { intros k' pt'. cbn. rewrite dget_dset. case_decide as E; [intros [= <-]; subst k'; by exists pt1|]. intros Hk'. exists pt'.
    split; [done|]. split; [apply same_part_refl|by apply (L4 k')]. }
  split; [eapply peeks_trans; [done|split; [|done|done]]; split|].
  - eapply same_logs_ok; [by apply (outside_same digest)|done].
  - done.
  - intros k' n'. cbn. rewrite dget_dset. case_decide; [done|apply L3].
  - intros k' pt' (_ & _ & _ & H)%Hall. done.
  - intros k' n' b h Hin. destruct (L5 _ _ _ _ Hin) as (pt0 & H0 & Hb). destruct (outside_part _ _ _ _ Ho H0) as (pt' & H' & _ & Ef & _).
    exists pt'. split; [done|lia].
  - intros k' pt' (pt0 & H0 & Hs & _)%Hall. eapply majority_impl; [by apply (L6 k')|]. intros n'. by apply same_part_has.
  - split; [done|]. destruct Hs1 as (_ & _ & _ & El). split; [by rewrite <- El|]. exists pt3. split; [cbn; by rewrite dget_dset_eq|apply same_part_refl].
Qed.

(** ** Batches *)

Lemma same_part_proper pt pt' r : same_part pt pt' → proper pt r → proper pt' r.
Proof. intros (E1 & E2 & _ & E4). destruct r; cbn; rewrite ?E1, ?E2, ?E4; done. Qed.
Lemma same_part_sym pt pt' : same_part pt pt' → same_part pt' pt.
Proof. intros (E1 & E2 & E3 & E4). by split_and!. Qed.
Lemma same_part_trans pt1 pt2 pt3 : same_part pt1 pt2 → same_part pt2 pt3 → same_part pt1 pt3.
Proof. intros (? & ? & ? & ?) (? & ? & ? & ?). split_and!; congruence. Qed.

(** The partition of a request, as the coordinator remembers it. *)
Definition remembers q (k : PartKey) (pt : Part) : Prop := ∃ pt', dget k (parts q) = Some pt' ∧ same_part pt pt'.

Lemma remembers_outside q q' k pt : outside q q' → remembers q k pt → remembers q' k pt.
Proof.
  intros Ho (pt' & Hk & Hs). destruct (outside_part _ _ _ _ Ho Hk) as (pt2 & Hk2 & Hs2). exists pt2. split; [done|]. by eapply same_part_trans.
Qed.

Lemma touches_refl n k q : safe q → touches n k q q.
Proof. intros Hq. by apply peeks_touches, peeks_refl. Qed.

(** A request that stores a batch, and what the node answers. *)
Lemma answer_wp n k r pt values v q :
  safe q → remembers q k pt → proper pt r → ¬ looks r → (∀ b h, r ≠ Retain b h) → last values = Some v →
  (has (chain n k (world q)) pt ∨ ∃ vs bh e cm ch, r = Install vs (floor pt) bh e cm ch) →
  wp (do* a := attempt (call rpc n k r) in mret (match a with Some x => confirms x values | None => false end))
    (λ b q', touches n k q q' ∧ (b = true → has_batch (chain n k (world q')) pt v)) (λ _ q', touches n k q q') q.
Proof.
  intros Hq (pt' & Hk & Hs) Hp Hl Hr Hv Hh. apply wp_bind, wp_attempt.
  pose proof (call_touches n k r q pt' Hq Hk (same_part_proper _ _ _ Hs Hp)) as H. unfold wp, mret. destruct (call rpc n k r q) as [q' [rep|e]].
  - destruct H as (Ht & _ & Hd). split; [done|]. intros Hc. eapply stores_batch; try done. apply good_ok, (sf_brokers _ Hq).
  - destruct H as (Ht & _). split; [|done]. by split.
Qed.

Lemma eligible_has c c' pt rep x :
  Chain.chain_dispatch digest size_of (Status (hwm pt)) c = Ok (c', rep) → x = last_hash ZERO (log pt) → eligible rep pt x = true → has c' pt.
Proof.
  cbn [Chain.chain_dispatch]. intros [_ [= <- <-]]%guard_bind -> He. unfold eligible in He.
  apply andb_true_iff in He as [[Hh%bool_decide_eq_true Hb%integer_spec]%andb_true_iff _]. split; [lia|done].
Qed.

Lemma synchronise_wp k pt l x values v n snapshot q :
  safe q → remembers q k pt → x = last_hash ZERO (log pt) → last values = Some v →
  wp (synchronise rpc digest size_of k pt l x values n snapshot)
    (λ r q', touches n k q q' ∧ (r.1 = true → has_batch (chain n k (world q')) pt v)) (λ _ q', touches n k q q') q.
Proof.
  intros Hq (pt' & Hk & Hs) -> Hv. apply wp_bind, wp_attempt.
  assert (proper pt' (Status (hwm pt))) as Hp by done. pose proof (call_touches n k (Status (hwm pt)) q pt' Hq Hk Hp) as H.
  pose proof (call_peeks n k (Status (hwm pt)) q pt' Hq Hk I) as Hpk.
  unfold wp at 1. destruct (call rpc n k (Status (hwm pt)) q) as [q1 [rep|e]]; cbn [fst] in Hpk; destruct H as (Ht1 & _ & Hd).
  2: { split; [|done]. unfold wp, mret. by split. }
  pose proof (tc_safe _ _ _ _ Ht1) as Hq1.
  assert (remembers q1 k pt) as Hk1 by (eapply remembers_outside; [apply Ht1|by exists pt']).
  assert (∀ A (m : M A) Q, wp m (λ r q', touches n k q1 q' ∧ Q r q') (λ _ q', touches n k q1 q') q1 →
    wp m (λ r q', touches n k q q' ∧ Q r q') (λ _ q', touches n k q q') q1) as Hlift.
  { intros A m Q H. eapply wp_mono; [exact H| |]; cbn; [intros a q' [H1 H2]; split; [by eapply touches_trans|done]|intros e q' H1; by eapply touches_trans]. }
  apply Hlift. clear Hlift.
  assert (∀ s r q2, safe q2 → remembers q2 k pt → proper pt r → ¬ looks r → (∀ b h, r ≠ Retain b h) →
    (has (chain n k (world q2)) pt ∨ ∃ vs bh e cm ch, r = Install vs (floor pt) bh e cm ch) →
    wp (do* a := attempt (call rpc n k r) in mret (match a with Some x => confirms x values | None => false end, s))
      (λ (r : bool * Snapshot) q', touches n k q2 q' ∧ (r.1 = true → has_batch (chain n k (world q')) pt v)) (λ _ q', touches n k q2 q') q2) as Hans.
  { intros s r q2 Hq2 Hk2 Hp2 Hl Hr Hh. pose proof (answer_wp n k r pt values v q2 Hq2 Hk2 Hp2 Hl Hr Hv Hh) as H.
    unfold wp, mbind, mret in *. by destruct (attempt _ q2) as [q3 [a|e]]. }
  destruct (eligible rep pt _) eqn:Ee.
  { apply Hans; [done|done|by cbn|by intros []|done|left; by eapply eligible_has]. }
  assert (∀ vs, proper pt (Install (vs ++ values) (floor pt) (p_base_hash pt) (p_epoch pt) (Some (hwm pt)) (Some (last_hash ZERO (log pt))))) as Hins by (by cbn).
  assert (∀ q2 (s : Snapshot), safe q2 → wp (mret (false, s)) (λ (r : bool * Snapshot) q', touches n k q2 q' ∧ (r.1 = true → has_batch (chain n k (world q')) pt v)) (λ _ q', touches n k q2 q') q2) as Hno.
  { intros q2 s Hq2. unfold wp, mret. split; [by apply touches_refl|done]. }
  destruct snapshot as [|vs|]; [|apply Hans; [done|done|apply Hins|by intros []|done|right; by repeat eexists]|by apply Hno].
  destruct Hk1 as (pt1 & Hk1 & Hs1). apply wp_bind, wp_attempt. pose proof (retained_peeking k pt l values q1 pt1 Hq1 Hk1) as Hr.
  unfold wp at 1. destruct (retained _ _ _ _ _ _ _ q1) as [q2 [vs|e]]; cbn [fst] in Hr.
  - pose proof (Hans (Taken vs) (Install (vs ++ values) (floor pt) (p_base_hash pt) (p_epoch pt) (Some (hwm pt)) (Some (last_hash ZERO (log pt)))) q2) as H.
    eapply wp_mono; [apply H; [apply Hr|eapply remembers_outside; [apply Hr|by exists pt1]|apply Hins|by intros []|done|right; by repeat eexists]| |]; cbn.
    + intros r q' [H1 H2]. split; [|done]. eapply touches_trans; [by apply peeks_touches|done].
    + intros e q' H1. eapply touches_trans; [by apply peeks_touches|done].
  - split; [|by apply peeks_touches]. unfold wp, mret. split; [by apply peeks_touches|done].
Qed.

(** The chains of the other partitions are the same, and those of the nodes outside [ns]. *)
Record apart (k : PartKey) (ns : list string) q q' : Prop := {
  ap_safe : safe q';
  ap_outside : outside q q';
  ap_chains : ∀ n' k', k' ≠ k ∨ n' ∉ ns → chain n' k' (world q') = chain n' k' (world q);
}.

Lemma apart_refl k ns q : safe q → apart k ns q q.
Proof. intros Hq. split; [done|apply outside_refl|done]. Qed.
Lemma apart_trans k ns q1 q2 q3 : apart k ns q1 q2 → apart k ns q2 q3 → apart k ns q1 q3.
Proof. intros [_ A2 A3] [B1 B2 B3]. split; [done|by eapply outside_trans|]. intros n' k' H. by rewrite B3, A3. Qed.
Lemma touches_apart n k ns q q' : n ∈ ns → touches n k q q' → apart k ns q q'.
Proof. intros Hn [H1 H2 H3]. split; [done|done|]. intros n' k' H. apply H3. intros [= -> ->]. by destruct H. Qed.
Lemma apart_mono k ns ns' q q' : (∀ n, n ∈ ns → n ∈ ns') → apart k ns q q' → apart k ns' q q'.
Proof. intros Hs [H1 H2 H3]. split; [done|done|]. intros n' k' [H|H]; apply H3; [by left|]. right. intros Hn. by apply H, Hs. Qed.

(** The nodes that confirmed a batch have it. *)
Definition stored (ns : list string) (k : PartKey) (pt : Part) (v : Value) (synced : list string) q : Prop :=
  NoDup synced ∧ ∀ n, n ∈ synced → n ∈ ns ∧ has_batch (chain n k (world q)) pt v.

Lemma synchronise_all_wp k pt l x values v lo ns snapshot q :
  safe q → remembers q k pt → x = last_hash ZERO (log pt) → last values = Some v → NoDup ns →
  wp (synchronise_all rpc digest size_of k pt l x values lo ns snapshot)
    (λ r q', apart k ns q q' ∧ (lo = false → r.2 = false) ∧ stored ns k pt v r.1 q') (λ _ q', apart k ns q q') q.
Proof.
  intros Hq Hk Hx Hv. revert q Hq Hk snapshot. induction ns as [|n ns IH]; intros q Hq Hk snapshot Hn; cbn [synchronise_all].
  { unfold wp, mret. split; [by apply apart_refl|]. split; [done|]. split; [constructor|]. by intros m Hm%not_elem_of_nil. }
  apply NoDup_cons in Hn as [Hn1 Hn2]. apply wp_bind. eapply wp_mono; [by apply (synchronise_wp k pt l x values v n snapshot q)| |]; cbn.
  2: { intros e q1 Ht. eapply touches_apart; [by left|done]. }
  intros [b s] q1 [Ht Hb]. cbn [fst snd] in *. pose proof (tc_safe _ _ _ _ Ht) as Hq1.
  assert (apart k (n :: ns) q q1) as Ha1 by (eapply touches_apart; [by left|done]).
  assert (remembers q1 k pt) as Hk1 by (eapply remembers_outside; [apply Ht|done]).
  destruct (b && lo && bool_decide (n = l)) eqn:E.
  - unfold wp, mret. cbn. apply andb_true_iff in E as [[-> ->]%andb_true_iff _]. split; [done|]. split; [done|]. split; [apply NoDup_singleton|].
    intros m ->%list_elem_of_singleton. split; [by left|by apply Hb].
  - apply wp_bind. eapply wp_mono; [by apply (IH q1 Hq1 Hk1 s Hn2)| |]; cbn.
    + intros [synced ret] q2 (Ha2 & Hret & Hnd & Hst). cbn [fst snd] in *. unfold wp, mret. cbn [fst snd].
      assert (apart k (n :: ns) q1 q2) as Ha2' by (eapply apart_mono; [|done]; intros; by right).
      split; [by eapply apart_trans|]. split; [done|].
      assert (∀ m, m ∈ synced → m ∈ n :: ns ∧ has_batch (chain m k (world q2)) pt v) as Hs2
        by (intros m Hm; destruct (Hst m Hm); split; [by right|done]).
      destruct b; [|by split]. split; [constructor; [intros Hm; by destruct (Hst n Hm)|done]|].
      intros m [->|Hm]%elem_of_cons; [|by apply Hs2]. split; [by left|]. rewrite (ap_chains _ _ _ _ Ha2) by (by right). by apply Hb.
    + intros e q2 Ha2. eapply apart_trans; [done|]. eapply apart_mono; [|done]. intros; by right.
Qed.

(** A quorum of nodes has a batch that was replicated. *)
Lemma replicate_wp k values v lo q :
  safe q → last values = Some v →
  wp (replicate rpc digest size_of nodes k values lo)
    (λ synced q', apart k nodes q q' ∧ (lo = false → ∃ pt, dget k (parts q') = Some pt ∧ majority (λ n, has_batch (chain n k (world q')) pt v)))
    (λ _ q', apart k nodes q q') q.
Proof.
  intros Hq Hv. assert (∀ q', peeks q q' → apart k nodes q q') as Hpa by (intros q' []; by split).
  apply wp_bind. eapply wp_mono; [by apply leader_wp| |]; cbn; [|auto].
  intros [[pt node] x] q1 (Hpk & Hnode & Hx & Hk). cbn [fst snd] in *.
  assert (NoDup (node :: others nodes node)) as Hnd.
  { constructor; [by intros [Hm _]%list_elem_of_filter|by apply NoDup_filter]. }
  assert (∀ n, n ∈ node :: others nodes node → n ∈ nodes) as Hsub.
  { intros n [->|Hn]%elem_of_cons; [done|]. by apply list_elem_of_filter in Hn as [_ Hn]. }
  apply wp_bind. eapply wp_mono; [by apply (synchronise_all_wp k pt node x values v lo _ NotRead q1 (pk_safe _ _ Hpk) Hk Hx Hv Hnd)| |]; cbn.
  - intros [synced ret] q2 (Ha & Hret & Hnd2 & Hst). cbn [fst snd] in *.
    assert (apart k nodes q q2) as Ha2 by (eapply apart_trans; [by apply Hpa|by eapply apart_mono]).
    destruct ret.
    { unfold wp, mret. split; [done|]. intros Hlo. by specialize (Hret Hlo). }
    destruct (Z.of_nat (length synced) <? QueueReplication.quorum nodes) eqn:El; [done|].
    assert (∃ pt, dget k (parts q2) = Some pt ∧ majority (λ n, has_batch (chain n k (world q2)) pt v)) as Hm.
    { destruct (remembers_outside _ _ _ _ (ap_outside _ _ _ _ Ha) Hk) as (pt' & Hk' & _ & Ef & _). exists pt'. split; [done|].
      exists synced. split; [done|]. split; [|unfold QueueReplication.quorum in El; Z.to_euclidean_division_equations; lia]. intros n Hn. destruct (Hst n Hn) as [H1 [H2 H3]]. split; [by apply Hsub|]. split; [by rewrite Ef|done]. }
    destruct (_ && _); unfold wp, mret, mraise; [done|]. split; [done|]. by intros _.
  - intros e q2 Ha. eapply apart_trans; [by apply Hpa|by eapply apart_mono].
Qed.

(** ** Operations *)

(** From a safe state [m] leads to a safe one, with [Q] if it returns. *)
Definition keeps {A} (m : M A) (Q : A → Queue → Prop) q : Prop := safe q → wp m (λ a q', safe q' ∧ Q a q') (λ _ q', safe q') q.

Lemma keeps_bind {A B} (m : M A) (f : A → M B) R Q q :
  keeps m R q → (∀ a q', R a q' → keeps (f a) Q q') → keeps (mbind m f) Q q.
Proof.
  intros Hm Hf Hq. apply wp_bind. eapply wp_mono; [by apply Hm| |done]. intros a q' [Hs Ha]. by apply Hf.
Qed.
Lemma keeps_mono {A} (m : M A) (Q Q' : A → Queue → Prop) q : keeps m Q q → (∀ a q', Q a q' → Q' a q') → keeps m Q' q.
Proof. intros Hm HQ Hq. eapply wp_mono; [by apply Hm| |done]. intros a q' [Hs Ha]. auto. Qed.
Lemma keeps_ret {A} (a : A) (Q : A → Queue → Prop) q : Q a q → keeps (mret a) Q q.
Proof. intros HQ Hq. done. Qed.
Lemma keeps_raise {A} e (Q : A → Queue → Prop) q : keeps (mraise e) Q q.
Proof. intros Hq. done. Qed.
Lemma keeps_query {A} (f : Queue → result A) (Q : A → Queue → Prop) q : (∀ a, f q = Ok a → Q a q) → keeps (query f) Q q.
Proof. intros HQ Hq. unfold wp, query. destruct (f q) as [a|e]; [split; auto|done]. Qed.
Lemma keeps_lift {A} (r : result A) (Q : A → Queue → Prop) q : (∀ a, r = Ok a → Q a q) → keeps (mlift r) Q q.
Proof. apply (keeps_query (λ _, r)). Qed.
Lemma keeps_transaction {A} (tx : Queue → result (Queue * A)) (Q : A → Queue → Prop) q :
  (∀ q' a, safe q → tx q = Ok (q', a) → safe q' ∧ Q a q') → keeps (transaction tx) Q q.
Proof. intros H Hq. unfold wp, transaction. destruct (tx q) as [[q' a]|e] eqn:E; [by apply H|done]. Qed.
Lemma keeps_attempt {A} (m : M A) (Q : option A → Queue → Prop) q : keeps m (λ a, Q (Some a)) q → (∀ q', Q None q') → keeps (attempt m) Q q.
Proof. intros Hm HQ Hq. apply wp_attempt. eapply wp_mono; [by apply Hm|done|auto]. Qed.
Lemma keeps_run {A} (m : M A) Q q : keeps m Q q → safe q → safe (m q).1.
Proof. intros Hm Hq. specialize (Hm Hq). unfold wp in Hm. destruct (m q) as [q' [a|e]]; [by destruct Hm|done]. Qed.

Notation anything := (λ _ _, True).

Lemma last_pending q k pend : logs_ok q → dget k (pending q) = Some pend → ∃ v, last (values pend) = Some v.
Proof.
  intros Hq Hp. destruct (lo_pending _ _ _ Hq _ _ Hp) as (pt & _ & Hne & _). destruct (last (values pend)) as [v|] eqn:E; [by exists v|].
  by apply last_None in E.
Qed.

(** A batch that a quorum has can be committed. *)
Lemma finalize_safe q k pend pt v synced q' r :
  safe q → dget k (pending q) = Some pend → known q pend → dget k (parts q) = Some pt → last (values pend) = Some v →
  majority (λ n, has_batch (chain n k (world q)) pt v) → finalize k pend synced q = Ok (q', r) →
  safe q' ∧ world q' = world q ∧ (∀ k', k' ≠ k → dget k' (parts q') = dget k' (parts q)).
Proof.
  intros [L1 L2 L3 L4 L5 L6] Hp Htx Hk Hv Hm Hf. destruct (finalize_ok digest size_of fingerprint (λ _ _, True) _ _ _ _ _ _ L1 Hp Htx Hf) as ([Hl _] & _).
  set (pt' := mk_part (p_leader pt) (p_epoch pt) (v_offset v) (floor pt) (p_base_hash pt) (log pt ++ values pend)).
  assert (parts q' = dset k pt' (parts q) ∧ world q' = world q ∧ retention_pending q' = retention_pending q) as (E1 & E2 & E3).
  { unfold finalize in Hf. rewrite Hv, Hk in Hf. destruct (origin pend); [|by injection Hf as <- _]. destruct (tinsert _ _ _); [|done]. by injection Hf as <- _. }
  split; [|split; [done|intros k' Hne; by rewrite E1, dget_dset_ne]]. split; rewrite ?E2; try done.
  - intros k' n. rewrite E1, dget_dset. case_decide; [done|apply L3].
  - intros k' p. rewrite E1, dget_dset. case_decide; [intros [= <-]; exact (L4 k pt Hk)|apply L4].
  - intros k' n b h. rewrite E3. intros Hin. destruct (L5 _ _ _ _ Hin) as (p & Hp' & Hb). rewrite E1, dget_dset.
    case_decide as E; [|by exists p]. subst k'. exists pt'. split; [done|]. cbn. assert (p = pt) as -> by congruence. done.
  - intros k' p. rewrite E1, dget_dset. case_decide as E; [|apply L6]. intros [= <-]. subst k'. eapply majority_impl; [exact Hm|].
    intros n [H1 H2]. split; [done|]. cbn. rewrite H2, last_hash_app. unfold last_hash at 1. by rewrite Hv.
Qed.

Lemma flush_keeps k q : keeps (flush rpc digest size_of nodes k) anything q.
Proof.
  eapply keeps_bind; [by apply (keeps_query _ (λ row q', q' = q ∧ row = dget k (pending q))); intros a [= <-]|].
  intros row q0 [-> Hrow]. destruct row as [pend|]; [|by apply keeps_ret]. destruct (origin pend) eqn:Eo; [|apply keeps_raise].
  intros Hq. destruct (last_pending q k pend (sf_logs _ Hq) (eq_sym Hrow)) as [v Hv]. apply wp_bind.
  eapply wp_mono; [by apply (replicate_wp k (values pend) v false q)| |]; cbn; [|by intros _ q1 []].
  intros ns q1 [[Hq1 Ho _] Hm]. destruct (Hm eq_refl) as (pt & Hk & Hmaj). revert Hq1. eapply (keeps_bind _ _ anything); [|intros; by apply keeps_ret].
  apply keeps_transaction. intros q2 r Hq1 Hf. split; [|done]. eapply finalize_safe; try done; [by rewrite (os_pending _ _ Ho)|unfold known; by rewrite Eo].
Qed.

Lemma peeking_keeps {A} (m : M A) k pt q : peeking m k → dget k (parts q) = Some pt → keeps m anything q.
Proof.
  intros Hm Hk Hq. specialize (Hm q pt Hq Hk). unfold wp. destruct (m q) as [q' [a|e]]; [|apply Hm]. split; [apply Hm|done].
Qed.

Lemma provisional_keeps k vs q : vs ≠ [] → keeps (provisional rpc digest size_of nodes k vs) anything q.
Proof.
  intros Hvs. destruct (last vs) as [v|] eqn:Hv; [|by apply last_None in Hv]. eapply (keeps_bind _ _ anything); [|intros; by apply keeps_ret].
  intros Hq. eapply wp_mono; [by apply (replicate_wp k vs v true q)| |]; cbn; [by intros ns q1 [[]]|by intros e q1 []].
Qed.

(** Waiting batches change nothing that brokers must have. *)
Lemma insert_keeps k pend q :
  (∀ d, safe q → tinsert k pend (pending q) = Ok d → logs_ok (set_pending q d)) → keeps (insert_pending k pend) anything q.
Proof.
  intros H. apply keeps_transaction. intros q' [] Hq. destruct (tinsert _ _ _) as [d|] eqn:E; [|done]. intros [= <-]. split; [|done].
  eapply safe_tables; [done|by apply H|done..].
Qed.

Lemma produce_new_keeps k pr ep s ms lo now q :
  ms ≠ [] → keeps (produce_new rpc digest size_of nodes fingerprint k pr ep s ms lo now) anything q.
Proof.
  intros Hms. eapply keeps_bind.
  - apply (keeps_query _ (λ vs q', q' = q ∧ ∃ pt, dget k (parts q) = Some pt ∧ s = expected q (pr, ep) k ∧ new_values digest pt ms pr ep s now = Ok vs)).
    intros vs H. split; [done|]. destruct (part q k) as [pt|] eqn:Ep; [|done]. cbn [rbind] in H. apply raise_if_Ok in H as [_ H].
    apply raise_if_Ok in H as [Hs H]. exists pt. split; [by apply part_Ok|]. split; [|done]. by apply negb_false_iff, Z.eqb_eq in Hs.
  - intros vs q1 (-> & pt & Hk & Hs & Hv) Hq.
    destruct (new_values_ok digest pt ms pr ep s now (lo_parts _ _ _ (sf_logs _ Hq) _ _ Hk) Hms) as (vs' & Hv' & Hne & Hc & Hr).
    rewrite Hv in Hv'. injection Hv' as <-. revert Hq. eapply keeps_bind; [apply insert_keeps|].
    + intros d Hq Et. eapply (insert_pending_ok digest size_of fingerprint (λ _ _, True)); try done; [apply Hq|]. split; [done|]. eexists ms, _, _. by split.
    + intros [] q2 _. destruct lo; [by apply provisional_keeps|apply flush_keeps].
Qed.

Lemma produce_keeps crc t pr ep s ms p lo now q : keeps (produce rpc digest size_of nodes fingerprint crc t pr ep s ms p lo now) anything q.
Proof.
  eapply (keeps_bind _ _ anything); [by apply keeps_lift|]. intros _ q1 _.
  eapply keeps_bind; [apply (keeps_lift _ (λ ms' _, ms' = ms ∧ ms ≠ [])), freeze_Ok|]. intros ms' q2 [-> Hms].
  eapply (keeps_bind _ _ anything); [by apply keeps_query|]. intros n q3 _. eapply (keeps_bind _ _ anything); [by apply keeps_lift|]. intros _ q4 _.
  eapply keeps_bind.
  { apply (keeps_query _ (λ x q', match x with inr (Some pend) => dget (t, n) (pending q') = Some pend | _ => True end)). intros x H.
    destruct (part q4 (t, n)); [|done]. cbn [rbind] in H. apply raise_if_Ok in H as [_ H].
    destruct (dget ((pr, ep), (t, n) : PartKey, s) (receipts q4)) as [[h r]|]; [apply raise_if_Ok in H as [_ H]; injection H as <-; exact I|].
    injection H as <-.
    match goal with |- match ?d with _ => _ end => destruct d as [pend|] eqn:E end; [exact E|exact I]. }
  intros [r|[pend|]] q5 Hx; [by apply keeps_ret| |by apply produce_new_keeps]. destruct (matches pend pr ep s) as [h|].
  - destruct (negb _); [apply keeps_raise|]. destruct lo; [|apply flush_keeps]. intros Hq. revert Hq. intros Hq.
    apply provisional_keeps; [|done]. by destruct (lo_pending _ _ _ (sf_logs _ Hq) _ _ Hx) as (_ & _ & Hne & _).
  - eapply (keeps_bind _ _ anything); [apply flush_keeps|]. intros r q6 _. by apply produce_new_keeps.
Qed.

(** ** Pages, cursors and groups *)

Lemma fetch_page_keeps k o n fs now q : keeps (fetch_page rpc digest nodes k o n fs now) anything q.
Proof.
  eapply (keeps_bind _ _ anything); [by apply keeps_lift|]. intros _ q1 _. eapply (keeps_bind _ _ anything); [by apply keeps_query|]. intros pt q2 _.
  do 3 (case_match; [(by apply keeps_ret) || apply keeps_raise|]).
  apply (keeps_bind _ _ (λ _ q', ∃ pt, dget k (parts q') = Some pt)).
  - intros Hq. eapply wp_mono; [by apply leader_wp| |]; cbn; [|by intros e q3 []].
    intros r q3 (Hp & _ & _ & pt' & Hk & _). split; [apply Hp|by exists pt'].
  - intros [[pt' node] h] q3 [pt3 Hk]. eapply (keeps_bind _ _ anything); [by eapply peeking_keeps; [apply read_replica_peeking|]|].
    intros vs q4 _. destruct (visible fs now vs). by apply keeps_ret.
Qed.

(** The part that the tables of groups play. *)
Lemma safe_only_groups q q' : safe q → only_groups q q' → safe q'.
Proof.
  intros Hq Ho. eapply safe_tables; [done|exact (proj1 (only_groups_evolves digest size_of fingerprint (λ _ _, True) _ _ (sf_logs _ Hq) Ho))|apply Ho..].
Qed.

Lemma new_parts_safe q q' t ps :
  safe q → insert_parts nodes t ps (parts q) = Ok (parts q') → logs_ok q' → world q' = world q → retention_pending q' = retention_pending q → safe q'.
Proof.
  intros [L1 L2 L3 L4 L5 L6] Hi Hl E1 E2. destruct (insert_parts_ok digest nodes t ps _ _ Hi) as [H1 H2].
  assert (∀ k pt, dget k (parts q) = None → dget k (parts q') = Some pt → p_leader pt ∈ nodes) as H3.
  { clear -Hi nodes_nonempty digest. generalize dependent (parts q). induction ps as [|p ps IH]; intros d; cbn [insert_parts]; [intros [= ->]; congruence|].
    destruct (tinsert _ _ _) as [d1|] eqn:E; [|done]. cbn [rbind]. intros Hi k pt Hk Hk'. apply raise_if_Ok in E as [_ [= <-]].
    destruct (decide ((t, p) = k)) as [<-|Hne]; [|apply (IH _ Hi k pt); [by rewrite dget_dset_ne|done]].
    apply (insert_parts_ok digest) in Hi as [Hi _]. rewrite (Hi (t, p) _ (dget_dset_eq _ _ _)) in Hk'. injection Hk' as <-. cbn.
    destruct (lookup_lt_is_Some_2 nodes (Z.to_nat (p mod Z.of_nat (length nodes)))) as [n Hn].
    { destruct nodes as [|x l]; [done|]. cbn [length]. pose proof (Z.mod_pos_bound p (Z.of_nat (S (length l))) ltac:(lia)). lia. }
    rewrite Hn. cbn. by eapply list_elem_of_lookup_2. }
  split; rewrite ?E1, ?E2; try done.
  - intros k n Hk. apply L3. destruct (dget k (parts q)) as [pt|] eqn:E; [|done]. apply H1 in E. congruence.
  - intros k pt Hk. destruct (dget k (parts q)) as [pt0|] eqn:E; [|by apply (H3 k)]. pose proof (H1 _ _ E) as E'. assert (pt = pt0) as -> by congruence. by apply (L4 k).
  - intros k n b h Hin. destruct (L5 _ _ _ _ Hin) as (pt & Hk & Hb). exists pt. split; [by apply H1|done].
  - intros k pt Hk. destruct (dget k (parts q)) as [pt0|] eqn:E.
    + pose proof (H1 _ _ E) as E'. assert (pt = pt0) as -> by congruence. by apply L6.
    + destruct (H2 _ _ E Hk) as [[P1 P2 _ _] Hlog]. rewrite Hlog in P1. cbn in P1. apply majority_all. intros n _. rewrite L3 by done.
      split; cbn; [lia|]. rewrite Hlog, P1. done.
Qed.

Lemma event_safe lease q e : safe q → safe (event nodes lease q e) ∧ world (event nodes lease q e) = world q.
Proof.
  intros Hq. pose proof (same_logs_ok digest fingerprint _ _ (proj1 (event_stirs digest nodes lease q e)) (sf_logs _ Hq)) as Hl. revert Hl.
  assert (∀ A (r : result (Queue * A)), (∀ q' a, r = Ok (q', a) → logs_ok q' → safe q' ∧ world q' = world q) →
    logs_ok (keep q r) → safe (keep q r) ∧ world (keep q r) = world q) as Hkeep by (intros A [[q' a]|]; [eauto|done]).
  assert (∀ q', only_groups q q' → safe q' ∧ world q' = world q) as Hog by (intros q' Ho; split; [by eapply safe_only_groups|apply Ho]).
  destruct e as [t n r b s|t g m s now|t g m s now|t g m s now|t n]; apply Hkeep; intros q' a H Hl.
  - unfold create in H. apply raise_if_Ok in H as (_ & (_ & (_ & (_ & (_ & (_ & H)%raise_if_Ok)%raise_if_Ok)%raise_if_Ok)%raise_if_Ok)%raise_if_Ok).
    destruct (insert_parts _ _ _ _) as [ps|] eqn:E; [|done]. injection H as <- _. split; [by eapply new_parts_safe|done].
  - by apply Hog, (join_only _ _ _ _ _ _ _ _ _ H).
  - unfold heartbeat in H. destruct (membership _ _ _ _ _ _ _ _) as [[q1 x]|] eqn:E; [|done]. injection H as <- _.
    apply Hog. eapply only_groups_trans; [by eapply membership_only|by split].
  - unfold leave in H. destruct (membership _ _ _ _ _ _ _ _) as [[q1 x]|] eqn:E; [|done]. cbn [rbind fst] in H. destruct (dlookup _ _); [|done].
    injection H as <- _. apply Hog. eapply only_groups_trans; [by eapply membership_only|by split].
  - unfold expand in H. apply raise_if_Ok in H as [_ H]. destruct (topic q t) as [o|]; [|done]. cbn [rbind] in H. apply raise_if_Ok in H as [_ H].
    destruct (insert_parts _ _ _ _) as [ps|] eqn:E; [|done]. injection H as <- _. split; [by eapply new_parts_safe|done].
Qed.

Lemma events_safe lease es q : safe q → safe (foldl (event nodes lease) q es) ∧ world (foldl (event nodes lease) q es) = world q.
Proof.
  revert q. induction es as [|e es IH]; intros q Hq; [done|]. destruct (event_safe lease q e Hq) as [H1 H2].
  cbn [foldl]. rewrite <- H2. by apply IH.
Qed.

Lemma group_fetch_keeps lease t g m s gen p limit once fs now es lt q :
  keeps (group_fetch rpc digest nodes lease t g m s gen p limit once fs now es lt) anything q.
Proof.
  do 3 (eapply (keeps_bind _ _ anything); [by apply keeps_lift|]; intros ? ? _). eapply (keeps_bind _ _ anything).
  - apply keeps_transaction. intros q1 x Hq H. destruct (membership _ _ _ _ _ _ _ _) as [[q2 y]|] eqn:E; [|done]. injection H as <- _.
    split; [|done]. eapply safe_only_groups; [done|by eapply membership_only].
  - intros o q1 _. eapply (keeps_bind _ _ anything); [apply fetch_page_keeps|]. intros page q2 _. eapply (keeps_bind _ _ anything).
    { intros Hq. unfold wp, meanwhile. split; [by apply events_safe|done]. }
    intros _ q3 _. eapply (keeps_bind _ _ anything); [|intros; by apply keeps_ret].
    apply keeps_transaction. intros qn x Hq H. destruct (membership _ _ _ _ _ _ _ _) as [[q4 y]|] eqn:E; [|done]. injection H as <- _.
    split; [|done]. apply membership_only, (safe_only_groups _ _ Hq) in E. cbn [fst].
    assert (logs_ok q4) as Hl by apply E. destruct once; (eapply safe_tables; [exact E|apply (same_logs_ok digest fingerprint q4); [by apply same_tables|exact Hl]|done..]).
Qed.

(** A cursor of a group. *)
Lemma cursor_safe q q1 q' k n :
  safe q → only_groups q q1 → topics q' = topics q1 → parts q' = parts q1 → sequences q' = sequences q1 → receipts q' = receipts q1 → pending q' = pending q1 →
  transactions q' = transactions q1 → world q' = world q1 → retention_pending q' = retention_pending q1 → cursors q' = dset k n (cursors q1) → safe q'.
Proof.
  intros Hq Ho E0 E1 E2 E3 E4 E5 E6 E7 _. pose proof (safe_only_groups _ _ Hq Ho) as H1.
  eapply (safe_tables q1); try congruence. apply (same_logs_ok digest fingerprint q1); [by apply same_tables|apply H1].
Qed.

Lemma commit_keeps src next now q : keeps (commit src next now) anything q.
Proof.
  eapply (keeps_bind _ _ anything); [by apply keeps_lift|]. intros _ q1 _. apply keeps_transaction. intros q2 x Hq H.
  destruct (validate_commit _ _ _ _ _) as [q3|] eqn:E; [|done]. injection H as <- _. split; [|done].
  by eapply cursor_safe; [| eapply validate_only|..].
Qed.

Lemma reset_keeps src target now q : keeps (reset src target now) anything q.
Proof.
  eapply (keeps_bind _ _ anything); [by apply keeps_lift|]. intros _ q1 _. apply keeps_transaction. intros q2 x Hq H.
  destruct (membership _ _ _ _ _ _ _ _) as [[q3 y]|] eqn:E; [|done]. cbn [rbind fst] in H. destruct (part _ _) as [pt|]; [|done].
  cbn [rbind] in H. destruct (match target with Earliest => _ | _ => _ end) as [n|]; [|done]. cbn [rbind] in H.
  apply raise_if_Ok in H as [_ [= <- _]]. split; [|done]. by eapply cursor_safe; [| eapply membership_only|..].
Qed.
End quorum.
