(* ===== verification/QueueDurable.v ===== *)
(** * Committed records are on a quorum of brokers

    The rest of the coordinator's operations keep what QueueQuorum.v says of tables and
    brokers - retention, transactions, restarts - and with them every history does. *)
From S2P Require Import Prelude PyList PyDict Checks Effects Messages BrokerLog BrokerLogInv Chain BrokerLogSteps BrokerLogProps.
From S2P Require Import QueueState QueueGroups QueueReplication QueueCoordinator QueueInv QueueSteps QueueRun QueueProcess QueueMembers QueueDelivery QueueCluster QueueProps QueueQuorum.
Local Open Scope Z_scope.

Lemma dset_elem {K V} `{EqDecision K} (k : K) (v : V) d x : x ∈ dset k v d → x = (k, v) ∨ x ∈ d.
Proof.
  induction d as [|[k' v'] d IH]; cbn [dset]; [intros ->%list_elem_of_singleton; by left|]. case_decide as E.
  - intros [->|Hx]%elem_of_cons; [left; by subst|right; by right].
  - intros [->|Hx]%elem_of_cons; [right; by left|]. destruct (IH Hx); [by left|right; by right].
Qed.

Lemma marks_elem {K V} `{EqDecision K} {A} (f : A → K) (v : V) l d k x :
  (k, x) ∈ foldl (λ d a, dset (f a) v d) d l → (∃ a, k = f a) ∧ x = v ∨ (k, x) ∈ d.
Proof.
  revert d. induction l as [|a l IH]; intros d; cbn [foldl]; [by right|]. intros [?|Hx]%IH; [by left|].
  apply dset_elem in Hx as [[= -> ->]|Hx]; [left; split; [by exists a|done]|by right].
Qed.

Lemma ddel_elem {K V} `{EqDecision K} (k : K) (d : dict K V) x : x ∈ ddel k d → x ∈ d.
Proof.
  induction d as [|[k' v] d IH]; cbn [ddel]; [done|]. case_decide; [by right|].
  intros [->|Hx]%elem_of_cons; [by left|right; by apply IH].
Qed.

Section durable.
Context (digest : string → Rec → string) (size_of : Value → Z) (segment_bytes : PartKey → Z).
Context (nodes : list string) (lease : Z) (fingerprint : list Message → string).
Context (tx_hash : Source → Z → Z → list Output → string) (crc : string → Z).
Hypothesis nodes_nonempty : nodes ≠ [].
Hypothesis nodes_distinct : NoDup nodes.
Local Notation Queue := (QueueState.Queue Cluster).
Local Notation M := (Effects.M Queue).
Local Notation rpc := (broker_rpc digest size_of segment_bytes).
Local Notation chain := (replica segment_bytes).
Local Notation safe := (QueueQuorum.safe digest size_of segment_bytes nodes fingerprint).
Local Notation keeps := (QueueQuorum.keeps digest size_of segment_bytes nodes fingerprint).
Local Notation majority := (QueueQuorum.majority nodes).
Local Notation apart := (QueueQuorum.apart digest size_of segment_bytes nodes fingerprint).
Local Notation logs_ok := (QueueInv.logs_ok digest fingerprint).
Notation anything := (λ _ _, True).
Implicit Types q : Queue.

(** ** Retention *)

(** A floor that rises keeps the records above it on the quorum. *)
Lemma retain_partition_safe k options now q q' :
  safe q → retain_partition size_of nodes k options now q = Ok (q', tt) → safe q'.
Proof.
  intros Hq H. pose proof (retain_partition_logs digest size_of nodes fingerprint _ _ _ _ _ (sf_logs _ _ _ _ _ _ Hq) H) as Hl.
  revert H. unfold retain_partition. destruct (part q k) as [pt|] eqn:Ep; [|done]. cbn [rbind]. apply part_Ok in Ep.
  destruct (expire_records _ _ _ _ _ _ _) as [fl bh]. destruct (fl <=? floor pt) eqn:Ef; [by intros [= <-]|]. intros [= <-].
  set (pt' := mk_part _ _ _ fl _ _) in *. destruct Hq as [L1 L2 L3 L4 L5 L6].
  split; [exact Hl|exact L2|..]; cbn [parts retention_pending set_retention set_receipts set_parts world].
  - intros k' n. rewrite dget_dset. case_decide; [done|apply L3].
  - intros k' p. rewrite dget_dset. case_decide as E; [intros [= <-]; exact (L4 k pt Ep)|apply (L4 k')].
  - intros k' n b h Hin.
    assert ((b = fl ∧ k' = k) ∨ (k', n, (b, h)) ∈ (retention_pending q : list (PartKey * string * (Z * string)))) as Hor.
    { by apply marks_elem in Hin as [[[m [= -> ->]] [= -> ->]]|Hin]; [left|right]. }
    rewrite dget_dset. destruct Hor as [[-> ->]|Hin']; [rewrite decide_True by done; exists pt'; split; [done|cbn; lia]|].
    destruct (L5 _ _ _ _ Hin') as (p & Hp & Hb). case_decide as E; [|by exists p]. subst k'. exists pt'. split; [done|].
    assert (p = pt) as -> by congruence. cbn. lia.
  - intros k' p. rewrite dget_dset. case_decide as E; [|apply L6]. intros [= <-]. subst k'. eapply majority_impl; [by apply (L6 k pt)|].
    intros n [H1 H2]. split; [|exact H2]. change (c_base (chain n k (world q)) <= fl). lia.
Qed.

Lemma retry_rows_keeps k rows q :
  (∀ k' n b h, ((k', n), (b, h)) ∈ rows → ∃ pt, dget k (parts q) = Some pt ∧ b <= floor pt) → keeps (retry_rows rpc k rows) anything q.
Proof.
  revert q. induction rows as [|[[k' n] [base bh]] rows IH]; intros q Hr; [by apply keeps_ret|]. cbn [retry_rows].
  destruct (Hr k' n base bh ltac:(by left)) as (pt & Hk & Hb).
  eapply (keeps_bind _ _ _ _ _ _ _ (λ _ q', same_parts (parts q) (parts q'))).
  - intros Hq. apply wp_attempt, wp_bind. pose proof (call_touches digest size_of segment_bytes nodes fingerprint n k (Retain base bh) q pt Hq Hk Hb) as H.
    unfold wp at 1. destruct (call rpc n k (Retain base bh) q) as [q1 [rep|e]]; destruct H as (Ht & Ep & _).
    2: { split; [split; [apply Ht|]|apply Ht]. rewrite Ep. apply same_parts_refl. }
    assert (safe q1 ∧ same_parts (parts q) (parts q1)) as [Hq1 Hs1] by (split; [apply Ht|rewrite Ep; apply same_parts_refl]).
    apply wp_bind. destruct rep as [| | |b]; try (by split). unfold wp at 1, require, mlift. destruct (base <=? b); [|by split]. cbn [negb raise_if].
    unfold wp, transaction. case_bool_decide as Hd; [|by destruct q1]. split; [|done].
    destruct Hq1 as [L1 L2 L3 L4 L5 L6]. split; try done; [by apply (same_logs_ok digest fingerprint q1); [apply same_tables|]|].
    intros k2 n2 b2 h2 Hin%ddel_elem. by eapply L5.
  - intros _ q1 Hs. apply IH. intros k2 n2 b2 h2 Hin. destruct (Hr k2 n2 b2 h2 ltac:(by right)) as (pt2 & Hk2 & Hb2).
    specialize (Hs k). rewrite Hk2 in Hs. destruct (dget k (parts q1)) as [pt3|]; [|done]. exists pt3. split; [done|]. destruct Hs as (_ & -> & _). done.
Qed.

Lemma retain_keeps t now q : keeps (retain rpc size_of nodes t now) anything q.
Proof.
  eapply (keeps_bind _ _ _ _ _ _ _ anything); [by apply keeps_query|]. intros options q1 _. revert q1.
  induction (seqZ 0 (t_partitions options)) as [|p ps IH]; intros q1; [by apply keeps_ret|]. cbn [retain_all].
  eapply (keeps_bind _ _ _ _ _ _ _ anything).
  - apply keeps_transaction. intros q' [] Hq H. split; [by eapply retain_partition_safe|done].
  - intros _ q2 _. eapply (keeps_bind _ _ _ _ _ _ _ anything); [|intros _ q3 _; apply IH]. intros Hq2. revert Hq2.
    intros Hq2. pose proof (sf_retention _ _ _ _ _ _ Hq2) as Hret. revert Hq2.
    eapply keeps_bind; [by apply (keeps_query _ _ _ _ _ _ (λ rows q', q' = q2 ∧ rows = filter (λ x, x.1.1 = (t, p)) (retention_pending q2 : list (PartKey * string * (Z * string))))); intros a [= <-]|].
    intros rows q3 [-> ->]. apply retry_rows_keeps. intros k' n b h [Ek Hin]%list_elem_of_filter. cbn in Ek. rewrite <- Ek. by eapply Hret.
Qed.

Lemma attempt_io_keeps (m : M unit) q : keeps m anything q → keeps (attempt_io m) anything q.
Proof.
  intros H Hq. specialize (H Hq). unfold wp, attempt_io in *. destruct (m q) as [q' [a|e]]; [done|]. by destruct e.
Qed.

Lemma each_keeps {B} (f : B → M unit) l q : (∀ x q, keeps (f x) anything q) → keeps (each f l) anything q.
Proof.
  intros Hf. revert q. induction l as [|x l IH]; intros q; [by apply keeps_ret|]. eapply keeps_bind; [apply Hf|]. intros _ q' _. apply IH.
Qed.

Lemma maintenance_keeps now q : keeps (maintenance rpc digest size_of nodes now) anything q.
Proof.
  do 2 (eapply (keeps_bind _ _ _ _ _ _ _ anything); [by apply keeps_query|]; intros ? ? _). eapply (keeps_bind _ _ _ _ _ _ _ anything); [apply each_keeps|].
  - intros x qn. destruct (origin x.2); [|by apply keeps_ret]. apply attempt_io_keeps. eapply (keeps_bind _ _ _ _ _ _ _ anything); [by apply flush_keeps|].
    intros. by apply keeps_ret.
  - intros _ qm _. apply each_keeps. intros t q2. apply attempt_io_keeps, retain_keeps.
Qed.

(** ** Transactions of outputs *)

Lemma stage_keeps txid o now q : o_messages o ≠ [] → keeps (stage rpc digest size_of nodes txid o now) anything q.
Proof.
  intros Hms. eapply (keeps_bind _ _ _ _ _ _ _ anything); [by apply flush_keeps|]. intros _ q1 _. eapply keeps_bind.
  - apply (keeps_query _ _ _ _ _ _ (λ vs q', q' = q1 ∧ ∃ pt, dget (o_key o) (parts q1) = Some pt ∧ new_values digest pt (o_messages o) ("tx_" +:+ txid) 0 0 now = Ok vs)).
    intros vs H. split; [done|]. destruct (part q1 (o_key o)) as [pt|] eqn:Ep; [|done]. exists pt. split; [by apply part_Ok|done].
  - intros vs q2 (-> & pt & Hk & Hv) Hq.
    destruct (new_values_ok digest pt (o_messages o) ("tx_" +:+ txid) 0 0 now (lo_parts _ _ _ (sf_logs _ _ _ _ _ _ Hq) _ _ Hk) Hms) as (vs' & Hv' & Hne & Hc & Hr).
    rewrite Hv in Hv'. injection Hv' as <-. revert Hq. eapply (keeps_bind _ _ _ _ _ _ _ anything); [|intros; by apply keeps_ret].
    apply insert_keeps. intros d Hq Et. eapply (insert_pending_ok digest size_of fingerprint (λ _ _, True)); try done; [apply Hq|]. intros v Hv'.
    assert (record v ∈ record <$> vs) as Hin by (by apply list_elem_of_fmap_2). rewrite Hr in Hin.
    unfold records_from in Hin. apply list_elem_of_lookup in Hin as [j Hj]. rewrite list_lookup_imap in Hj. apply fmap_Some in Hj as (m & _ & Em). unfold written_by. by rewrite Em.
Qed.

Lemma stage_all_safe txid os now st q :
  safe q → (∀ o, o ∈ os → o_messages o ≠ []) → safe (stage_all rpc digest size_of nodes txid os now st q).1.
Proof.
  revert st q. induction os as [|o os IH]; intros st q Hq Hm; [done|]. cbn [stage_all].
  pose proof (stage_keeps txid o now q (Hm o ltac:(by left)) Hq) as H. unfold wp in H.
  destruct (stage _ _ _ _ txid o now q) as [q1 [pend|e]]; [|done]. apply IH; [apply H|]. intros o' Ho'. apply Hm. by right.
Qed.

Lemma unstage_safe txid staged q : safe q → safe (unstage txid staged q).
Proof.
  intros Hq. eapply safe_tables; [exact Hq| |done..]. apply (unstage_ok digest size_of fingerprint (λ _ _, True) txid staged q), Hq.
Qed.

(** A quorum has the batch of an output, which still waits. *)
Definition ready q (x : Output * Pending) : Prop :=
  ∃ pt v, dget (o_key x.1) (parts q) = Some pt ∧ last (values x.2) = Some v ∧ majority (λ n, has_batch (chain n (o_key x.1) (world q)) pt v).

(** It still does when the floor of its partition and its chains are the same. *)
Lemma ready_mono q q' x :
  (∀ pt, dget (o_key x.1) (parts q) = Some pt → ∃ pt', dget (o_key x.1) (parts q') = Some pt' ∧ floor pt' = floor pt) →
  (∀ n, chain n (o_key x.1) (world q') = chain n (o_key x.1) (world q)) → ready q x → ready q' x.
Proof.
  intros Hp Hc (pt & v & Hk & Hv & Hm). destruct (Hp pt Hk) as (pt' & Hk' & Ef). exists pt', v. split; [done|]. split; [done|].
  eapply majority_impl; [exact Hm|]. intros n. rewrite Hc. intros [H1 H2]. split; [by rewrite Ef|done].
Qed.

Lemma ready_outside q q' x :
  same_logs digest q q' → (∀ n, chain n (o_key x.1) (world q') = chain n (o_key x.1) (world q)) → ready q x → ready q' x.
Proof.
  intros Hs. apply ready_mono. intros pt Hk. destruct (sl_parts _ _ _ Hs _ _ Hk) as (pt' & Hk' & _ & Ef & _). by exists pt'.
Qed.

Lemma replicate_all_wp l q :
  safe q → NoDup (keys l) → (∀ x, x ∈ l → values x.2 ≠ []) →
  wp (replicate_all rpc digest size_of nodes l)
    (λ _ q', safe q' ∧ outside q q' ∧ (∀ k n, k ∉ keys l → chain n k (world q') = chain n k (world q)) ∧ ∀ x, x ∈ l → ready q' x)
    (λ _ q', safe q') q.
Proof.
  revert q. induction l as [|[o pend] l IH]; intros q Hq Hn Hne; cbn [replicate_all].
  { unfold wp, mret. split; [done|]. split; [apply outside_refl|]. split; [done|]. by intros x Hx%not_elem_of_nil. }
  apply NoDup_cons in Hn as [Hn1 Hn2]. destruct (last (values pend)) as [v|] eqn:Hv.
  2: { apply last_None in Hv. by destruct (Hne (o, pend) ltac:(by left)). }
  apply wp_bind. eapply wp_mono; [by apply (replicate_wp digest size_of segment_bytes nodes fingerprint nodes_distinct (o_key o) (values pend) v false q Hq Hv)| |]; cbn; [|by intros e q1 []].
  intros s q1 [[Hq1 Ho1 Hc1] Hm]. destruct (Hm eq_refl) as (pt & Hk & Hmaj).
  apply wp_bind. eapply wp_mono; [apply IH; [done|done|intros x Hx; apply Hne; by right]| |done].
  intros ss q2 (Hq2 & Ho2 & Hc2 & Hr2). unfold wp, mret. split; [done|]. split; [by eapply outside_trans|]. split.
  - intros k n Hk'. change (k ∉ o_key o :: keys l) in Hk'. apply not_elem_of_cons in Hk' as [Hk1 Hk2]. rewrite Hc2 by done. apply Hc1. by left.
  - intros x [->|Hx]%elem_of_cons; [|by apply Hr2]. apply (ready_outside q1); [by apply outside_same|intros n; by apply Hc2|]. by exists pt, v.
Qed.

Lemma finalize_all_safe l ss q q' rs :
  safe q → NoDup (keys l) → length ss = length l → (∀ x, x ∈ l → dget (o_key x.1) (pending q) = Some x.2 ∧ known q x.2 ∧ ready q x) →
  finalize_all (zip l ss) q = Ok (q', rs) → safe q' ∧ world q' = world q.
Proof.
  revert q ss rs. induction l as [|[o pend] l IH]; intros q ss rs Hq Hn Hl Hp; [by intros [= <- _]|].
  destruct ss as [|s ss]; [done|]. cbn [zip zip_with finalize_all fst snd].
  destruct (finalize (o_key o) pend s q) as [[q1 r]|] eqn:Ef; [|done]. cbn [rbind fst snd].
  destruct (finalize_all (zip l ss) q1) as [[q2 rs']|] eqn:Ea; [|done]. intros [= <- _].
  change (NoDup (o_key o :: keys l)) in Hn. apply NoDup_cons in Hn as [Hn1 Hn2]. cbn in Hl.
  destruct (Hp (o, pend) ltac:(by left)) as (Hp1 & Htx & pt & v & Hk & Hv & Hm). cbn [fst snd] in *.
  destruct (finalize_safe _ _ _ _ _ _ _ _ _ _ _ _ _ Hq Hp1 Htx Hk Hv Hm Ef) as (Hq1 & Ew & Eo).
  destruct (finalize_ok digest size_of fingerprint (λ _ _, True) _ _ _ _ _ _ (sf_logs _ _ _ _ _ _ Hq) Hp1 Htx Ef) as (_ & Hx & Ep & _).
  destruct (IH q1 ss rs' Hq1 Hn2 ltac:(lia)) as [Hq2 Ew2]; [|done|split; [done|congruence]].
  intros x Hin. destruct (Hp x ltac:(by right)) as (Hx1 & Hx2 & Hx3).
  assert (o_key x.1 ≠ o_key o) as Hne by (intros E; apply Hn1; rewrite <- E; apply list_elem_of_fmap; by exists x).
  rewrite Ep, dget_ddel_ne by done. split; [done|]. split; [unfold known; by rewrite (ex_transactions _ _ _ _ _ Hx)|]. apply (ready_mono q); [|by rewrite Ew|done].
  intros pt' Hk'. exists pt'. rewrite Eo by done. done.
Qed.

Lemma publish_keeps txid src ex next outputs staged es later q :
  NoDup (keys staged) → (∀ x, x ∈ staged → dget (o_key x.1) (pending q) = Some x.2 ∧ origin x.2 = Staged txid) →
  keeps (publish rpc digest size_of nodes lease tx_hash txid src ex next outputs staged es later) anything q.
Proof.
  intros Hn Hp Hq. assert (∀ x, x ∈ staged → values x.2 ≠ []) as Hne.
  { intros x Hx. by destruct (lo_pending _ _ _ (sf_logs _ _ _ _ _ _ Hq) _ _ (proj1 (Hp x Hx))) as (_ & _ & ? & _). }
  apply wp_bind. pose proof (replicate_all_wp staged q Hq Hn Hne) as Hw. unfold wp in Hw. unfold wp at 1.
  destruct (replicate_all _ _ _ _ staged q) as [q1 [ss|e]] eqn:Er; [|done]. apply replicate_all_length in Er.
  destruct Hw as (Hq1 & Ho1 & _ & Hr1). apply wp_bind. unfold wp at 1, meanwhile.
  destruct (events_safe _ _ _ _ _ nodes_nonempty nodes_distinct lease es q1 Hq1) as [Hq2 Ew2]. destruct (events_stir digest nodes lease q1 es) as (Hs2 & _).
  set (q2 := foldl _ q1 es) in *. clearbody q2.
  assert (∀ x, x ∈ staged → dget (o_key x.1) (pending q2) = Some x.2 ∧ ready q2 x) as H2.
  { intros x Hx. rewrite (sl_pending _ _ _ Hs2), (os_pending _ _ Ho1). split; [by apply Hp|]. apply (ready_outside q1); [done|by rewrite Ew2|by apply Hr1]. }
  unfold wp, transaction. destruct (validate_commit src next (Some ex) later q2) as [q3|] eqn:Ev; [|done]. cbn [rbind].
  apply validate_only in Ev. pose proof (safe_only_groups _ _ _ _ _ _ _ Hq2 Ev) as Hq3.
  destruct (finalize_all (zip staged ss) q3) as [[q4 rs]|] eqn:Ea; [|done]. cbn [rbind fst snd].
  destruct (tinsert txid _ _) as [txs|] eqn:Et; [|done]. cbn [rbind]. apply raise_if_Ok in Et as [Ed [= <-]]. apply dmem_false in Ed. cbn in Ed.
  set (row := (tx_hash src ex next outputs, mk_response rs next)).
  destruct (finalize_all_transactions _ _ (dset txid row (transactions q3)) _ _ Ea) as [Eb Et]. rewrite Et in Ed.
  assert (safe (set_transactions q3 (dset txid row (transactions q3)))) as Hq3'.
  { eapply safe_tables; [exact Hq3| |done..]. by apply (add_transaction_ok digest size_of fingerprint (λ _ _, True) q3); [apply Hq3|]. }
  apply finalize_all_safe in Eb as [Hq4 _]; [|done|done|done|].
  2: { intros x Hx. cbn [pending set_transactions]. rewrite (og_pending _ _ Ev). destruct (H2 x Hx) as [H3 H4]. split; [done|]. split.
       { intros tx. rewrite (proj2 (Hp x Hx)). intros [= <-]. cbn. by rewrite dget_dset_eq. }
       apply (ready_mono q2); [|cbn; by rewrite (og_world _ _ Ev)|done]. intros pt Hk. exists pt. cbn. by rewrite (og_parts _ _ Ev). }
  split; [|done]. cbn [transactions set_cursor]. rewrite Et. eapply safe_tables; [exact Hq4| |done..].
  eapply (same_logs_ok digest fingerprint); [|apply Hq4]. by apply same_tables.
Qed.

Lemma process_safe txid src ex next outputs now es later q :
  safe q → safe (process rpc digest size_of nodes lease tx_hash txid src ex next outputs now es later q).1.
Proof.
  intros Hq. unfold process. unfold mbind at 1, mlift. destruct (process_checks txid src ex next outputs) as [[]|e] eqn:Ec; [|done].
  apply process_checks_Ok in Ec as [Hn Hm]. unfold mbind, transaction. destruct (dget txid (transactions q)) as [[h r]|]; [by case_bool_decide|].
  destruct (validate_commit src next (Some ex) now q) as [q1|e] eqn:Ev; [|done]. cbn [rbind]. destruct (next <=? ex); [done|]. cbn [raise_if].
  apply validate_only in Ev. pose proof (safe_only_groups _ _ _ _ _ _ _ Hq Ev) as Hq1.
  pose proof (stage_all_safe txid outputs now [] q1 Hq1 Hm) as Hq2.
  destruct (stage_all _ _ _ _ txid outputs now [] q1) as [q2 [staged failure]] eqn:Es. cbn [fst] in Hq2.
  destruct (stage_all_ok rpc digest size_of nodes fingerprint (λ _ _, True) txid outputs now [] q1 q1 q2 staged failure) as (Hg & Hns & _); [|done|done|done|done|].
  { split; [by apply evolves_start, Hq1|done|intros x Hx; by apply not_elem_of_nil in Hx|by left]. }
  destruct failure as [e|]; [by apply unstage_safe|].
  pose proof (publish_keeps txid src ex next outputs staged es later q2 Hns ltac:(intros x Hx; destruct (sg_done _ _ _ _ _ _ _ _ Hg x Hx) as (Hx1 & Hx2 & _); by split) Hq2) as Hw.
  unfold wp in Hw. destruct (publish _ _ _ _ _ _ txid src ex next outputs staged es later q2) as [q3 [r|e]]; [apply Hw|by apply unstage_safe].
Qed.

(** ** Histories *)

Lemma initialize_safe q : safe q → safe (initialize q).
Proof. intros Hq. eapply safe_tables; [exact Hq| |done..]. apply (initialize_ok digest size_of fingerprint (λ _ _, True) q), Hq. Qed.

Local Notation step := (QueueCoordinator.step rpc digest size_of nodes lease fingerprint tx_hash crc).

Lemma observe_safe {A} (f : A → Out) (m : M A) Q q : keeps m Q q → safe q → safe (observe f m q).1.
Proof. intros Hm Hq. specialize (Hm Hq). unfold wp in Hm. unfold observe. destruct (m q) as [q' [a|e]]; [apply Hm|done]. Qed.

Lemma step_safe q op : safe q → safe (step q op).1.
Proof.
  intros Hq. destruct op as [pr|t pr ep s ms p lo now|t p o l fs now|t g m s gen p l amo fs now es lt|src nx now|src tg now|tx src ex nx os now es lt|t now|now|e|];
    cbn [QueueCoordinator.step].
  - eapply observe_safe; [|done]. apply (keeps_transaction _ _ _ _ _ _ anything). intros q' a H1 H. apply raise_if_Ok in H as [_ [= <- _]].
    split; [|done]. eapply safe_tables; [exact Hq| |done..]. apply (same_logs_ok digest fingerprint q); [by apply same_tables|apply Hq].
  - eapply observe_safe; [by apply produce_keeps|done].
  - eapply observe_safe; [|done]. eapply (keeps_bind _ _ _ _ _ _ _ anything); [by apply keeps_lift|]. intros _ q1 _.
    eapply (keeps_bind _ _ _ _ _ _ _ anything); [by apply keeps_lift|]. intros f q2 _. by apply fetch_page_keeps.
  - eapply observe_safe; [by apply group_fetch_keeps|done].
  - eapply observe_safe; [apply commit_keeps|done].
  - eapply observe_safe; [apply reset_keeps|done].
  - pose proof (process_safe tx src ex nx os now es lt q Hq) as H. unfold observe. by destruct (process _ _ _ _ _ _ _ _ _ _ _ _ _ _ q) as [q' [a|e]].
  - eapply observe_safe; [apply retain_keeps|done].
  - eapply observe_safe; [apply maintenance_keeps|done].
  - by apply event_safe.
  - by apply initialize_safe.
Qed.
(** Operations over the same brokers, with what the network does to the calls of each. *)
Fixpoint cluster_run q (ops : list (list Net * Op)) : Queue :=
  match ops with
  | [] => q
  | (net, op) :: ops' => cluster_run (step (set_world q (mk_cluster (brokers (world q)) net)) op).1 ops'
  end.

Lemma set_network_safe q net : safe q → safe (set_world q (mk_cluster (brokers (world q)) net)).
Proof.
  intros [L1 L2 L3 L4 L5 L6]. split; try done. by apply (same_logs_ok digest fingerprint q); [apply same_tables|].
Qed.

Lemma cluster_run_safe q ops : safe q → safe (cluster_run q ops).
Proof.
  revert q. induction ops as [|[net op] ops IH]; intros q Hq; [done|]. cbn [cluster_run]. by apply IH, step_safe, set_network_safe.
Qed.

Lemma start_safe : safe (empty_queue (mk_cluster [] [])).
Proof.
  split; try done.
  - apply empty_queue_ok.
  - intros n k. apply new_good.
  - by intros k n b h Hin%not_elem_of_nil.
Qed.

(** A chain with the committed prefix has the records above the floor. *)
Definition holds (c : Chain) (pt : Part) : Prop :=
  c_base c <= floor pt ∧ take (Z.to_nat (hwm pt + 1 - floor pt)) (drop (Z.to_nat (floor pt - c_base c)) (c_values c)) = records pt.

Lemma has_holds c pt : Chain.chain_ok digest size_of c → part_ok digest pt → has c pt → holds c pt ∨ collision digest.
Proof.
  intros Hc [P1 P2 P3 P4] [H1 H2]. pose proof (c_hash_at_range _ _ _ H2) as Hr. unfold c_next in Hr.
  assert (length (records pt) = Z.to_nat (hwm pt + 1 - floor pt)) as Hl by (unfold records; rewrite length_drop; lia).
  assert (chained digest (floor pt) (last_hash ZERO (take (Z.to_nat (floor pt)) (log pt))) (records pt)) as Hp.
  { replace (floor pt) with (0 + Z.of_nat (Z.to_nat (floor pt))) at 1 by lia. apply chained_drop; [lia|exact P3]. }
  set (i := Z.to_nat (floor pt - c_base c)). set (n := Z.to_nat (hwm pt + 1 - floor pt)) in *.
  assert (chained digest (floor pt) (last_hash (c_hash c) (take i (c_values c))) (take n (drop i (c_values c)))) as Hd.
  { apply chained_take. replace (floor pt) with (c_base c + Z.of_nat i) by lia. apply chained_drop; [lia|apply Hc]. }
  assert (length (take n (drop i (c_values c))) = length (records pt)) as Hln by (rewrite Hl, length_take, length_drop; lia).
  destruct (chained_agree digest _ _ _ _ Hln _ Hd Hp) as [[_ E]|]; [|by left|by right].
  unfold records. rewrite <- !last_hash_app, take_drop, take_take_drop. rewrite (c_hash_at_last digest size_of) in H2 by (done || (unfold c_next; lia)).
  injection H2 as <-. do 2 f_equal. lia.
Qed.

(** C2: in every state that operations, events, restarts and lost or unanswered calls lead to,
    each partition has a quorum of brokers that hold all of its committed records from the
    floor on, exactly as they were committed - or two inputs of the hash collide. *)
Theorem quorum_durable ops k pt :
  let q := cluster_run (empty_queue (mk_cluster [] [])) ops in
  dget k (parts q) = Some pt → majority (λ n, holds (chain n k (world q)) pt ∨ collision digest).
Proof.
  intros q Hk. pose proof (cluster_run_safe _ ops start_safe) as Hq. fold q in Hq.
  eapply majority_impl; [by apply (sf_quorum _ _ _ _ _ _ Hq k)|]. intros n Hh. apply has_holds; [|by apply (lo_parts _ _ _ (sf_logs _ _ _ _ _ _ Hq) k)|done].
  apply good_ok, (sf_brokers _ _ _ _ _ _ Hq).
Qed.
End durable.

(** ** Witness *)

(** Values of one hexadecimal digit, and their last 64 as the hash.  The network loses the
    requests to one broker and the answer of another. *)
Module Faults.
Definition digest (previous : string) (r : Rec) : string := String.substring 1 63 previous +:+ r_value r.
Definition history : list (list Net * Op) :=
  [([], Happen (Create "in" 1 1000 4096 4096)); ([], OpenProducer "p");
   ([], Produce "in" "p" 0 0 [Demo.message "a"; Demo.message "b"] None false 5);
   ([Answered; Answered; Unanswered; Unreached], Produce "in" "p" 0 1 [Demo.message "c"] None false 6);
   ([], Maintain (λ _, 7)); ([], Restart)].
Definition state : Queue Cluster :=
  cluster_run digest Demo.size_of (λ _, 4096) Demo.nodes 100 Demo.fingerprint Demo.tx_hash Demo.crc (empty_queue (mk_cluster [] [])) history.
End Faults.

Lemma quorum_durable_witness :
  ∃ pt, dget ("in", 0) (parts Faults.state) = Some pt ∧ map (λ v, r_value (record v)) (log pt) = ["a"; "b"; "c"] ∧
    majority Demo.nodes (λ n, holds (replica (λ _, 4096) n ("in", 0) (world Faults.state)) pt ∨ collision Faults.digest).
Proof.
  destruct (dget ("in", 0) (parts Faults.state)) as [pt|] eqn:E; [|vm_compute in E; discriminate E].
  exists pt. split; [reflexivity|]. split; [vm_compute in E; injection E as <-; reflexivity|].
  apply (quorum_durable Faults.digest Demo.size_of (λ _, 4096) Demo.nodes 100 Demo.fingerprint Demo.tx_hash Demo.crc ltac:(done)
    ltac:(apply (bool_decide_unpack _); vm_compute; exact I) Faults.history ("in", 0) pt E).
Defined.
