(* ===== verification/Codec.v ===== *)
(** * Bytes, UTF-8 and packed fields

    What the storage engine uses of Python's [struct] and [str.encode]: bytes are
    integers in 0..255, a string is the list of its UTF-8 bytes, and [unpack] reads an
    unsigned little-endian field at a position.  Timestamps are an ordered type with the
    eight bytes of [struct.pack("<d", _)]. *)
From S2P Require Import Prelude PyList Bloom.
Local Open Scope Z_scope.

(** Times that the engine accepts lie between 0 and 10^12. *)
Class Time (T : Type) `{PyOrd T} := {
  time_zero : T;
  time_max : T;
  f_encode : T → list Z;
  f_decode : list Z → T;
  f_encode_length : ∀ t, length (f_encode t) = 8%nat;
  f_encode_bytes : ∀ t b, b ∈ f_encode t → byte b;
  f_decode_encode : ∀ t, pyle time_zero t = true → pyle t time_max = true → f_decode (f_encode t) = t;
}.
Definition finite_time {T} `{Time T} (t : T) : bool := pyle time_zero t && pyle t time_max.

Definition zlen {A} (l : list A) : Z := Z.of_nat (length l).

(** Injectivity that leaves encodings folded. *)
Lemma Ok_inj {A} (x y : A) : Ok x = Ok y → x = y.
Proof. by intros [= ->]. Qed.

(** ** Strings *)

(** [s.encode("utf-8")] *)
Definition utf8 (s : string) : list Z := (λ a, Z.of_N (Ascii.N_of_ascii a)) <$> String.list_ascii_of_string s.

Definition between (a b x : Z) : bool := (a <=? x) && (x <=? b).
Definition tail_byte : Z → bool := between 0x80 0xBF.

(** The bytes that [bytes.decode("utf-8")] accepts. *)
Fixpoint utf8_valid (bs : list Z) : bool :=
  match bs with
  | [] => true
  | b :: r =>
      if between 0 0x7F b then utf8_valid r
      else match r with
           | c1 :: r1 =>
               if between 0xC2 0xDF b then tail_byte c1 && utf8_valid r1
               else match r1 with
                    | c2 :: r2 =>
                        if b =? 0xE0 then between 0xA0 0xBF c1 && tail_byte c2 && utf8_valid r2
                        else if b =? 0xED then between 0x80 0x9F c1 && tail_byte c2 && utf8_valid r2
                        else if between 0xE1 0xEF b then tail_byte c1 && tail_byte c2 && utf8_valid r2
                        else match r2 with
                             | c3 :: r3 =>
                                 (if b =? 0xF0 then between 0x90 0xBF c1
                                  else if b =? 0xF4 then between 0x80 0x8F c1
                                  else between 0xF1 0xF3 b && tail_byte c1)
                                 && tail_byte c2 && tail_byte c3 && utf8_valid r3
                             | [] => false
                             end
                    | [] => false
                    end
           | [] => false
           end
  end.

(** [bs.decode("utf-8")]; UnicodeDecodeError is a ValueError. *)
Definition decode (bs : list Z) : result string :=
  if utf8_valid bs then Ok (String.string_of_list_ascii ((λ b, Ascii.ascii_of_N (Z.to_N b)) <$> bs)) else Raise ValueError.

Lemma utf8_length s : length (utf8 s) = String.length s.
Proof.
  unfold utf8. rewrite length_fmap. induction s as [|a s IH]; [done|]. cbn. by rewrite IH.
Qed.

Lemma decode_utf8 s : utf8_valid (utf8 s) = true → decode (utf8 s) = Ok s.
Proof.
  intros H. unfold decode. rewrite H. f_equal. unfold utf8. rewrite <- list_fmap_compose.
  rewrite <- (String.string_of_list_ascii_of_string s) at 2. f_equal. induction (String.list_ascii_of_string s) as [|a l IH]; [done|].
  cbn. rewrite N2Z.id, Ascii.ascii_N_embedding. f_equal. apply IH.
Qed.

Lemma utf8_byte s b : b ∈ utf8 s → byte b.
Proof.
  unfold utf8. intros (a & -> & _)%list_elem_of_fmap. unfold byte.
  pose proof (Ascii.N_ascii_bounded a). lia.
Qed.

(** ** Fields *)

(** [data[a:b]] with non-negative bounds *)
Definition slice (data : list Z) (a b : Z) : list Z :=
  let n := zlen data in
  take (Z.to_nat (Z.min b n - Z.min a n)) (drop (Z.to_nat (Z.min a n)) data).

(** [struct.unpack_from] of one unsigned field *)
Definition unpack (width : Z) (data : list Z) (pos : Z) : result Z :=
  if pos + width <=? zlen data then Ok (le_decode (slice data pos (pos + width))) else Raise StructError.

Lemma zlen_app {A} (l1 l2 : list A) : zlen (l1 ++ l2) = zlen l1 + zlen l2.
Proof. unfold zlen. rewrite length_app. lia. Qed.
Lemma zlen_cons {A} (x : A) l : zlen (x :: l) = 1 + zlen l.
Proof. unfold zlen. cbn. lia. Qed.
Lemma zlen_nil {A} : zlen (@nil A) = 0.
Proof. done. Qed.
Lemma zlen_nonneg {A} (l : list A) : 0 <= zlen l.
Proof. unfold zlen. lia. Qed.
Lemma zlen_encode w z : zlen (le_encode w z) = Z.of_nat w.
Proof. unfold zlen. by rewrite le_encode_length. Qed.
Lemma zlen_time {T} `{Time T} t : zlen (f_encode t) = 8.
Proof. unfold zlen. by rewrite f_encode_length. Qed.

Lemma slice_mid pre mid post a b : a = zlen pre → b = zlen pre + zlen mid → slice (pre ++ mid ++ post) a b = mid.
Proof.
  intros -> ->. unfold slice. pose proof (zlen_nonneg post). pose proof (zlen_nonneg mid). rewrite !zlen_app, !Z.min_l by lia.
  unfold zlen. rewrite Nat2Z.id, drop_app_length. replace (Z.to_nat _) with (length mid) by lia. by rewrite take_app_length.
Qed.

Lemma slice_over data a b : zlen data <= b → 0 <= a → slice data a b = drop (Z.to_nat a) data.
Proof.
  intros Hb Ha. unfold slice. rewrite (Z.min_r b) by done. unfold zlen in *. destruct (Z.le_gt_cases a (Z.of_nat (length data))).
  - rewrite Z.min_l by done. apply take_ge. rewrite length_drop. lia.
  - rewrite Z.min_r by lia. rewrite Z.sub_diag. rewrite (drop_ge data (Z.to_nat a)) by lia. done.
Qed.

Lemma slice_length data a b : 0 <= a <= b → b <= zlen data → zlen (slice data a b) = b - a.
Proof. intros H1 H2. unfold slice, zlen in *. rewrite !Z.min_l by lia. rewrite length_take, length_drop. lia. Qed.

Lemma unpack_mid pre post w z :
  0 <= z < 256 ^ Z.of_nat w → unpack (Z.of_nat w) (pre ++ le_encode w z ++ post) (zlen pre) = Ok z.
Proof.
  intros Hz. unfold unpack. rewrite !zlen_app, zlen_encode. pose proof (zlen_nonneg post). replace (_ <=? _) with true by lia.
  rewrite (slice_mid pre (le_encode w z) post); [|done|by rewrite zlen_encode]. by rewrite le_decode_encode.
Qed.

Lemma le_decode_bound bs : (∀ b, b ∈ bs → byte b) → 0 <= le_decode bs < 256 ^ zlen bs.
Proof.
  induction bs as [|b bs IH]; intros H; cbn [le_decode]; [unfold zlen; cbn; lia|].
  specialize (IH ltac:(intros; apply H; by right)). specialize (H b ltac:(by left)). unfold byte in H.
  pose proof (zlen_nonneg bs). rewrite zlen_cons, Z.pow_add_r by lia. lia.
Qed.

Lemma slice_elem pre data a b x : zlen pre <= a → x ∈ slice (pre ++ data) a b → x ∈ data.
Proof.
  intros Ha. unfold slice. set (n := Z.min a _). intros (i & Hi & _)%elem_of_take. rewrite lookup_drop in Hi.
  rewrite lookup_app_r in Hi; [by eapply list_elem_of_lookup_2|]. subst n. unfold zlen in *.
  destruct (Z.le_gt_cases a (Z.of_nat (length (pre ++ data)))); [rewrite Z.min_l by done; lia|].
  rewrite Z.min_r by lia. rewrite length_app. lia.
Qed.

Lemma le_encode_byte w z b : b ∈ le_encode w z → byte b.
Proof.
  revert z. induction w as [|w IH]; intros z; cbn [le_encode]; [by intros ?%not_elem_of_nil|].
  intros [->|Hb]%elem_of_cons; [|by eapply IH]. unfold byte. pose proof (Z.mod_pos_bound z 256). lia.
Qed.

(** A field is at least its bytes in their places. *)
Lemma le_decode_ge bs i x : (∀ b, b ∈ bs → byte b) → bs !! i = Some x → 256 ^ Z.of_nat i * x <= le_decode bs.
Proof.
  revert i. induction bs as [|b bs IH]; intros i Hb; [done|]. pose proof (Hb b ltac:(by left)) as H1. unfold byte in H1.
  assert (∀ b, b ∈ bs → byte b) as Hb' by (intros; apply Hb; by right). pose proof (le_decode_bound bs Hb') as H2.
  destruct i as [|i]; cbn [le_decode]; [intros [= <-]; change (256 ^ Z.of_nat 0) with 1; lia|].
  intros Hi. pose proof (IH i Hb' Hi). rewrite Nat2Z.inj_succ, Z.pow_succ_r by lia. lia.
Qed.

Lemma unpack_ge data pos w z i x :
  (∀ b, b ∈ slice data pos (pos + w) → byte b) → unpack w data pos = Ok z → 0 <= pos → 0 <= i < w → data !! Z.to_nat (pos + i) = Some x → 256 ^ i * x <= z.
Proof.
  intros Hb H Hp Hi Hx. unfold unpack in H. destruct (pos + w <=? zlen data) eqn:E; [|done]. injection H as <-.
  replace i with (Z.of_nat (Z.to_nat i)) at 1 by lia. apply le_decode_ge; [done|].
  unfold slice, zlen in *. rewrite !Z.min_l by lia. rewrite lookup_take_lt by lia. rewrite lookup_drop. rewrite <- Hx. f_equal. lia.
Qed.

Lemma unpack_nonneg data pos w z : (∀ b, b ∈ slice data pos (pos + w) → byte b) → unpack w data pos = Ok z → 0 <= z.
Proof. intros Hb H. unfold unpack in H. destruct (_ <=? _); [|done]. injection H as <-. by apply le_decode_bound. Qed.

Lemma unpack_raise w data pos e : unpack w data pos = Raise e → e = StructError.
Proof. unfold unpack. destruct (_ <=? _); congruence. Qed.
Lemma decode_raise bs e : decode bs = Raise e → e = ValueError.
Proof. unfold decode. destruct (utf8_valid bs); congruence. Qed.

#[export] Hint Rewrite @zlen_app @zlen_cons @zlen_nil zlen_encode @zlen_time : zlen.

(** A field or a piece in the middle of bytes. *)
Lemma unpack_at data pre post w z pos :
  data = pre ++ le_encode w z ++ post → pos = zlen pre → 0 <= z < 256 ^ Z.of_nat w → unpack (Z.of_nat w) data pos = Ok z.
Proof. intros -> ->. apply unpack_mid. Qed.
Lemma slice_at data pre mid post a b : data = pre ++ mid ++ post → a = zlen pre → b = zlen pre + zlen mid → slice data a b = mid.
Proof. intros ->. apply slice_mid. Qed.

(** Bytes as one concatenation, and positions in it. *)
Ltac pieces := cbn [app]; rewrite <- ?app_assoc; reflexivity.
Ltac places := autorewrite with zlen; unfold zlen; lia.

(** Whole seconds as times, for concrete inputs. *)
Module Seconds.
#[export] Program Instance time_Z : Time Z := {|
  time_zero := 0;
  time_max := 10 ^ 12;
  f_encode := le_encode 8;
  f_decode := le_decode;
|}.
Next Obligation. intros t. apply le_encode_length. Qed.
Next Obligation. intros t b. apply le_encode_byte. Qed.
Next Obligation. intros t H1%Z.leb_le H2%Z.leb_le. apply le_decode_encode. change (256 ^ Z.of_nat 8) with (256 ^ 8). lia. Qed.
End Seconds.
