(* ===== verification/SSTable.v ===== *)
(** * Sorted tables on disk

    Models src/key-value-store/src/kv_store/storage/sstable.py: the bytes of a table
    (data block, sparse index, Bloom filter, footer), opening them by searching the
    footer, and lookups by filter, index and scan.  [MemTableEntry] is also the record
    of an entry of a table.  The digests and the size formulas of the Bloom filter are
    parameters, as in Bloom.v; loops over bytes have the number of bytes as fuel. *)
From S2P Require Import Prelude PyList PyDict Bloom MemTable Codec.
Local Open Scope Z_scope.

Definition _MAGIC_NUMBER : Z := 0x53535442.
Definition _INDEX_INTERVAL : Z := 16.

Record IndexEntry := mk_index { ix_key : string; ix_offset : Z }.

Section records.
Context {T : Type}.

Record SSTableMetadata := mk_metadata {
  file_path : string;
  level : Z;
  min_key : string;
  max_key : string;
  entry_count : Z;
  size_bytes : Z;
  created_at : T;
}.

Record SSTable := mk_table {
  metadata : SSTableMetadata;
  raw_data : list Z;
  index : list IndexEntry;
  bloom : BloomFilter;
  data_block_size : Z;
}.
End records.
Arguments SSTableMetadata T : clear implicits.
Arguments SSTable T : clear implicits.

(** The parameters of the filters. *)
Record Hashing := mk_hashing {
  md5 : string → list Z;
  sha256 : string → list Z;
  bloom_bits : Z → Z;
  bloom_hashes : Z → Z;
  bloom_rate : list Z;
}.

Section sstable.
Context {T : Type} `{Time T} (hs : Hashing).
Local Notation Entry := (@MemTableEntry T).

(** ** Writing *)

Definition encode_entry (e : Entry) : result (list Z) :=
  let key_bytes := utf8 (me_key e) in
  let value_bytes := default [] (me_value e) in
  let* key_len := pack 4 (zlen key_bytes) in
  let* value_len := pack 4 (zlen value_bytes) in
  Ok (key_len ++ key_bytes ++ value_len ++ value_bytes ++ f_encode (me_timestamp e) ++ [if is_tombstone e then 1 else 0]).

(** The loop over the entries. *)
Record Build := mk_build { b_data : list Z; b_index : list IndexEntry; b_bloom : BloomFilter }.
Fixpoint build (i : Z) (es : list Entry) (b : Build) : result Build :=
  match es with
  | [] => Ok b
  | e :: es' =>
      let index := if i mod _INDEX_INTERVAL =? 0 then b_index b ++ [mk_index (me_key e) (zlen (b_data b))] else b_index b in
      let* filter := Bloom.add (md5 hs) (sha256 hs) (b_bloom b) (me_key e) in
      let* bytes := encode_entry e in
      build (i + 1) es' (mk_build (b_data b ++ bytes) index filter)
  end.

Fixpoint encode_index (l : list IndexEntry) : result (list Z) :=
  match l with
  | [] => Ok []
  | x :: l' =>
      let* key_len := pack 4 (zlen (utf8 (ix_key x))) in
      let* offset := pack 8 (ix_offset x) in
      let* rest := encode_index l' in
      Ok (key_len ++ utf8 (ix_key x) ++ offset ++ rest)
  end.

Definition encode_footer (data_size index_size bloom_size count level : Z) (min_key max_key : string) (created : T) : result (list Z) :=
  let* f1 := pack 8 data_size in
  let* f2 := pack 8 index_size in
  let* f3 := pack 8 bloom_size in
  let* f4 := pack 4 count in
  let* f5 := pack 4 level in
  let* f6 := pack 4 (zlen (utf8 min_key)) in
  let* f7 := pack 4 (zlen (utf8 max_key)) in
  let* f8 := pack 4 _MAGIC_NUMBER in
  Ok (f1 ++ f2 ++ f3 ++ f4 ++ f5 ++ f6 ++ utf8 min_key ++ f7 ++ utf8 max_key ++ f_encode created ++ f8).

(** The bytes of a table of sorted entries. *)
Definition encode_table (es : list Entry) (level : Z) (created : T) : result (list Z) :=
  match es, last es with
  | first :: _, Some final =>
      let n := Z.max (zlen es) 1 in
      let* filter := Bloom.init n (bloom_rate hs) (bloom_bits hs n) (bloom_hashes hs n) in
      let* b := build 0 es (mk_build [] [] filter) in
      let* index_block := encode_index (b_index b) in
      let* bloom_data := Bloom.serialize (b_bloom b) in
      let* footer := encode_footer (zlen (b_data b)) (zlen index_block) (zlen bloom_data) (zlen es) level (me_key first) (me_key final) created in
      Ok (b_data b ++ index_block ++ bloom_data ++ footer)
  | _, _ => Raise ValueError
  end.

(** ** Opening *)

Fixpoint parse_index_block (fuel : nat) (data : list Z) (pos : Z) : result (list IndexEntry) :=
  if zlen data <=? pos then Ok [] else
  match fuel with
  | O => Raise OutOfFuel
  | S fuel' =>
      if zlen data <? pos + 4 then Ok [] else
      let* key_len := unpack 4 data pos in
      let pos := pos + 4 in
      if zlen data <? pos + key_len then Ok [] else
      let* key := decode (slice data pos (pos + key_len)) in
      let pos := pos + key_len in
      if zlen data <? pos + 8 then Ok [] else
      let* offset := unpack 8 data pos in
      let* rest := parse_index_block fuel' data (pos + 8) in
      Ok (mk_index key offset :: rest)
  end.

Definition parse_footer_at (path : string) (data : list Z) (footer_start data_size index_size bloom_size : Z) : result (SSTable T) :=
  let pos := footer_start + 24 in
  let* count := unpack 4 data pos in
  let pos := pos + 4 in
  let* level := unpack 4 data pos in
  let pos := pos + 4 in
  let* min_len := unpack 4 data pos in
  let pos := pos + 4 in
  let* min := decode (slice data pos (pos + min_len)) in
  let pos := pos + min_len in
  let* max_len := unpack 4 data pos in
  let pos := pos + 4 in
  let* max := decode (slice data pos (pos + max_len)) in
  let pos := pos + max_len in
  if zlen data <? pos + 8 then Raise StructError else
  let created := f_decode (slice data pos (pos + 8)) in
  let pos := pos + 8 in
  let* magic := unpack 4 data pos in
  let pos := pos + 4 in
  raise_if (negb (magic =? _MAGIC_NUMBER)) ValueError (
  raise_if (negb (pos =? zlen data)) ValueError (
  let index_end := data_size + index_size in
  let* index := parse_index_block (Z.to_nat (Z.min index_size (zlen data))) (slice data data_size index_end) 0 in
  let* filter := Bloom.deserialize (slice data index_end (index_end + bloom_size)) in
  Ok (mk_table (mk_metadata path level min max count (zlen data) created) data index filter data_size))).

(** The loop over the candidate sizes of the footer. *)
Fixpoint parse_footer_from_end (path : string) (data : list Z) (candidates : list Z) : result (SSTable T) :=
  match candidates with
  | [] => Raise ValueError
  | footer_size :: candidates' =>
      let footer_start := zlen data - footer_size in
      if footer_start <? 0 then Raise ValueError
      else if zlen data <? footer_start + 24 then parse_footer_from_end path data candidates'
      else
        let* data_size := unpack 8 data footer_start in
        let* index_size := unpack 8 data (footer_start + 8) in
        let* bloom_size := unpack 8 data (footer_start + 16) in
        if data_size + index_size + bloom_size =? footer_start
        then match parse_footer_at path data footer_start data_size index_size bloom_size with
             | Ok t => Ok t
             | Raise e => if bool_decide (e = StructError ∨ e = ValueError) then parse_footer_from_end path data candidates' else Raise e
             end
        else parse_footer_from_end path data candidates'
  end.

Definition load_from_bytes (path : string) (data : list Z) : result (SSTable T) :=
  raise_if (zlen data <? 4) ValueError (
  let* magic := unpack 4 data (zlen data - 4) in
  raise_if (negb (magic =? _MAGIC_NUMBER)) ValueError (
  raise_if (zlen data <? 12) StructError (
  let max_footer_size := Z.min (zlen data) (52 + 65536) in
  parse_footer_from_end path data (seqZ 52 (max_footer_size + 1 - 52))))).

(** ** Reading *)

(** An entry of the data block and the position behind it. *)
Definition read_entry_at (data : list Z) (size pos : Z) : option (Entry * Z) :=
  let fits n k : result (Entry * Z) := if size <? n then Raise StructError else k in
  match
    fits (pos + 4) (
    let* key_len := unpack 4 data pos in
    let pos := pos + 4 in
    fits (pos + key_len) (
    let* key := decode (slice data pos (pos + key_len)) in
    let pos := pos + key_len in
    fits (pos + 4) (
    let* value_len := unpack 4 data pos in
    let pos := pos + 4 in
    fits (pos + value_len) (
    let value_bytes := slice data pos (pos + value_len) in
    let pos := pos + value_len in
    fits (pos + 8) (
    if zlen data <? pos + 8 then Raise StructError else
    let timestamp := f_decode (slice data pos (pos + 8)) in
    let pos := pos + 8 in
    fits (pos + 1) (
    let* flag := unpack 1 data pos in
    let tombstone := flag =? 1 in
    Ok (mk_entry key (if tombstone then None else Some value_bytes) timestamp tombstone, pos + 1)))))))
  with
  | Ok r => Some r
  | Raise _ => None
  end.

Fixpoint scan_data_block (fuel : nat) (data : list Z) (size : Z) (key : string) (pos end_offset : Z) : option Entry :=
  if end_offset <=? pos then None else
  match fuel with
  | O => None
  | S fuel' =>
      match read_entry_at data size pos with
      | None => None
      | Some (e, next) =>
          if decide (me_key e = key) then Some e
          else if pylt key (me_key e) then None
          else scan_data_block fuel' data size key next end_offset
      end
  end.

(** Binary search for the last index entry with a key not above the given one. *)
Fixpoint search (fuel : nat) (l : list IndexEntry) (key : string) (lo hi found : Z) : Z :=
  match fuel with
  | O => found
  | S fuel' =>
      if hi <? lo then found else
      let mid := (lo + hi) / 2 in
      match l !! Z.to_nat mid with
      | Some x => if pyle (ix_key x) key then search fuel' l key (mid + 1) hi mid else search fuel' l key lo (mid - 1) found
      | None => found
      end
  end.

Definition find_scan_range (t : SSTable T) (key : string) : Z * Z :=
  match index t with
  | [] => (0, data_block_size t)
  | _ =>
      let i := search (length (index t)) (index t) key 0 (zlen (index t) - 1) 0 in
      (match index t !! Z.to_nat i with Some x => ix_offset x | None => 0 end,
       match index t !! Z.to_nat (i + 1) with Some x => ix_offset x | None => data_block_size t end)
  end.

Definition may_contain (t : SSTable T) (key : string) : result bool := Bloom.might_contain (md5 hs) (sha256 hs) (bloom t) key.

Definition get (t : SSTable T) (key : string) : result (option Entry) :=
  let* b := may_contain t key in
  if negb b then Ok None
  else if pylt key (min_key (metadata t)) || pylt (max_key (metadata t)) key then Ok None
  else
    let (start_offset, end_offset) := find_scan_range t key in
    Ok (scan_data_block (length (raw_data t)) (raw_data t) (data_block_size t) key start_offset end_offset).

(** All entries, in the order of the data block. *)
Fixpoint entries_from (fuel : nat) (data : list Z) (size pos : Z) : list Entry :=
  if size <=? pos then [] else
  match fuel with
  | O => []
  | S fuel' =>
      match read_entry_at data size pos with
      | None => []
      | Some (e, next) => e :: entries_from fuel' data size next
      end
  end.
Definition entries (t : SSTable T) : list Entry := entries_from (length (raw_data t)) (raw_data t) (data_block_size t) 0.
End sstable.
