(* ===== verification/SSTableRead.v ===== *)
(** * Lookups in a sorted table

    An opened table represents its entries ([represents]): the scan behind the sparse
    index finds exactly the entry of a key. *)
From S2P Require Import Prelude PyList PyDict Bloom MemTable Codec SSTable.
Local Open Scope Z_scope.

Section read.
Context {T : Type} `{Time T} (hs : Hashing).
Local Notation Entry := (@MemTableEntry T).
Implicit Types e : Entry.

Record entry_ok e : Prop := {
  eo_key : utf8_valid (utf8 (me_key e)) = true;
  eo_time : finite_time (me_timestamp e) = true;
  eo_kind : is_tombstone e = true ↔ me_value e = None;
}.

Definition encoding e (bs : list Z) : Prop :=
  bs = le_encode 4 (zlen (utf8 (me_key e))) ++ utf8 (me_key e) ++ le_encode 4 (zlen (default [] (me_value e))) ++ default [] (me_value e)
       ++ f_encode (me_timestamp e) ++ [if is_tombstone e then 1 else 0]
  ∧ zlen (utf8 (me_key e)) < 256 ^ 4 ∧ zlen (default [] (me_value e)) < 256 ^ 4.

Lemma encode_entry_inv e bs : encode_entry e = Ok bs → encoding e bs.
Proof.
  unfold encode_entry. destruct (pack 4 (zlen (utf8 _))) as [kl|] eqn:E1; [|done]. cbn [rbind].
  destruct (pack 4 (zlen (default [] _))) as [vl|] eqn:E2; [|done]. cbn [rbind]. intros [= <-].
  apply pack_inv in E1 as [-> H1], E2 as [-> H2]. split; [done|]. change (Z.of_nat 4) with 4 in *. lia.
Qed.

Lemma encoding_length e bs : encoding e bs → zlen bs = zlen (utf8 (me_key e)) + zlen (default [] (me_value e)) + 17.
Proof. intros [-> _]. autorewrite with zlen. lia. Qed.

(** An entry is read back where it is. *)
Lemma read_encoding pre e bs post size :
  encoding e bs → entry_ok e → zlen pre + zlen bs <= size →
  read_entry_at (pre ++ bs ++ post) size (zlen pre) = Some (e, zlen pre + zlen bs).
Proof.
  intros Hbs [H1 H2 H3] Hs. rewrite (encoding_length e bs Hbs) in *. destruct Hbs as (-> & Hk & Hv).
  set (kb := utf8 (me_key e)) in *. set (vb := default [] (me_value e)) in *. set (data := pre ++ _ ++ post).
  pose proof (zlen_nonneg kb) as Pk. pose proof (zlen_nonneg vb) as Pv. pose proof (zlen_nonneg post) as Pp. pose proof (zlen_nonneg pre).
  assert (zlen data = zlen pre + (zlen kb + zlen vb + 17) + zlen post) as Hd by (subst data; autorewrite with zlen; lia).
  assert (unpack 4 data (zlen pre) = Ok (zlen kb)) as U1 by (apply (unpack_at data pre (kb ++ le_encode 4 (zlen vb) ++ vb ++ f_encode (me_timestamp e) ++ [if is_tombstone e then 1 else 0] ++ post) 4);
    [subst data; pieces|done|split; [lia|exact Hk]]).
  assert (slice data (zlen pre + 4) (zlen pre + 4 + zlen kb) = kb) as S1 by (apply (slice_at data (pre ++ le_encode 4 (zlen kb)) kb
    (le_encode 4 (zlen vb) ++ vb ++ f_encode (me_timestamp e) ++ [if is_tombstone e then 1 else 0] ++ post)); [subst data; pieces|places|places]).
  assert (unpack 4 data (zlen pre + 4 + zlen kb) = Ok (zlen vb)) as U2 by (apply (unpack_at data (pre ++ le_encode 4 (zlen kb) ++ kb)
    (vb ++ f_encode (me_timestamp e) ++ [if is_tombstone e then 1 else 0] ++ post) 4); [subst data; pieces|places|split; [lia|exact Hv]]).
  assert (slice data (zlen pre + 4 + zlen kb + 4) (zlen pre + 4 + zlen kb + 4 + zlen vb) = vb) as S2
    by (apply (slice_at data (pre ++ le_encode 4 (zlen kb) ++ kb ++ le_encode 4 (zlen vb)) vb (f_encode (me_timestamp e) ++ [if is_tombstone e then 1 else 0] ++ post));
    [subst data; pieces|places|places]).
  assert (slice data (zlen pre + 4 + zlen kb + 4 + zlen vb) (zlen pre + 4 + zlen kb + 4 + zlen vb + 8) = f_encode (me_timestamp e)) as S3
    by (apply (slice_at data (pre ++ le_encode 4 (zlen kb) ++ kb ++ le_encode 4 (zlen vb) ++ vb) (f_encode (me_timestamp e)) ([if is_tombstone e then 1 else 0] ++ post));
    [subst data; pieces|places|places]).
  assert (unpack 1 data (zlen pre + 4 + zlen kb + 4 + zlen vb + 8) = Ok (if is_tombstone e then 1 else 0)) as U3.
  { apply (unpack_at data (pre ++ le_encode 4 (zlen kb) ++ kb ++ le_encode 4 (zlen vb) ++ vb ++ f_encode (me_timestamp e)) post 1);
      [subst data; destruct (is_tombstone e); pieces|places|by destruct (is_tombstone e)]. }
  unfold read_entry_at. cbv zeta. rewrite U1. cbn [rbind]. rewrite S1, (decode_utf8 _ H1 : decode kb = _). cbn [rbind]. rewrite U2. cbn [rbind].
  rewrite S2, S3, U3. cbn [rbind]. unfold finite_time in H2. apply andb_true_iff in H2 as [H2 H2'].
  repeat match goal with |- context [?a <? ?b] => replace (a <? b) with false by lia end.
  rewrite f_decode_encode by done.
  replace (zlen pre + 4 + zlen kb + 4 + zlen vb + 8 + 1) with (zlen pre + (zlen kb + zlen vb + 17)) by lia. do 2 f_equal. destruct e as [key value ts tomb]. cbn in *. destruct tomb.
  - assert (value = None) as -> by (by apply H3). done.
  - destruct value as [v|]; [done|]. destruct H3 as [_ H3]. by specialize (H3 eq_refl).
Qed.

(** ** The data block *)

Definition chunks_of (es : list Entry) (cs : list (list Z)) : Prop := Forall2 encoding es cs.
Definition offset (cs : list (list Z)) (i : nat) : Z := zlen (concat (take i cs)).

Lemma offset_S cs i c : cs !! i = Some c → offset cs (S i) = offset cs i + zlen c.
Proof. intros Hc. unfold offset. rewrite (take_S_r _ _ _ Hc), concat_app, zlen_app. cbn. by rewrite app_nil_r. Qed.

Lemma offset_full cs : offset cs (length cs) = zlen (concat cs).
Proof. unfold offset. by rewrite firstn_all. Qed.

Lemma offset_mono cs i j : (i ≤ j)%nat → offset cs i <= offset cs j.
Proof.
  intros Hij. unfold offset. replace (take j cs) with (take i cs ++ take (j - i) (drop i cs)).
  - rewrite concat_app, zlen_app. pose proof (zlen_nonneg (concat (take (j - i) (drop i cs)))). lia.
  - rewrite take_take_drop. f_equal. lia.
Qed.

Lemma chunk_pos es cs c i : chunks_of es cs → cs !! i = Some c → 17 <= zlen c.
Proof.
  intros Hc Hi. destruct (Forall2_lookup_r _ _ _ _ _ Hc Hi) as (e & _ & He). rewrite (encoding_length _ _ He).
  pose proof (zlen_nonneg (utf8 (me_key e))). pose proof (zlen_nonneg (default [] (me_value e))). lia.
Qed.

Lemma chunks_length es cs : chunks_of es cs → 17 * zlen es <= zlen (concat cs).
Proof.
  induction 1 as [|e c es cs He Hr IH]; [done|]. cbn [concat]. rewrite zlen_app, zlen_cons, (encoding_length _ _ He).
  pose proof (zlen_nonneg (utf8 (me_key e))). pose proof (zlen_nonneg (default [] (me_value e))). lia.
Qed.

Lemma offset_inj es cs i j : chunks_of es cs → (j < i)%nat → (i ≤ length cs)%nat → offset cs j < offset cs i.
Proof.
  intros Hc Hij Hi. destruct (lookup_lt_is_Some_2 cs j) as [c E]; [lia|]. pose proof (offset_S _ _ _ E). pose proof (chunk_pos _ _ _ _ Hc E).
  pose proof (offset_mono cs (S j) i ltac:(lia)). lia.
Qed.

(** The entry at an offset. *)
Lemma read_chunk es cs post i e :
  chunks_of es cs → Forall entry_ok es → es !! i = Some e →
  read_entry_at (concat cs ++ post) (zlen (concat cs)) (offset cs i) = Some (e, offset cs (S i)).
Proof.
  intros Hc Hok He. destruct (Forall2_lookup_l _ _ _ _ _ Hc He) as (c & Ei & Hec). rewrite (offset_S _ _ _ Ei).
  assert (concat cs = concat (take i cs) ++ c ++ concat (drop (S i) cs)) as E.
  { rewrite <- (take_drop_middle cs i c Ei) at 1. by rewrite concat_app. }
  pose proof (f_equal zlen E) as El. rewrite !zlen_app in El. pose proof (zlen_nonneg (concat (drop (S i) cs))).
  rewrite El. rewrite E. rewrite <- !app_assoc.
  unfold offset. apply read_encoding; [done| |lia]. eapply Forall_lookup_1; done.
Qed.

Lemma entries_from_chunks es cs post :
  chunks_of es cs → Forall entry_ok es → ∀ n i, (i + n = length es)%nat → ∀ fuel, (n ≤ fuel)%nat →
  entries_from fuel (concat cs ++ post) (zlen (concat cs)) (offset cs i) = drop i es.
Proof.
  intros Hc Hok. pose proof (Forall2_length _ _ _ Hc) as Hlen. induction n as [|n IH]; intros i Hi fuel Hf.
  - assert (offset cs i = zlen (concat cs)) as -> by (rewrite <- (offset_full cs); do 2 f_equal; lia).
    rewrite drop_ge by lia. destruct fuel; cbn [entries_from]; by rewrite Z.leb_refl.
  - destruct (lookup_lt_is_Some_2 es i) as [e He]; [lia|]. destruct fuel as [|fuel]; [lia|]. cbn [entries_from].
    pose proof (offset_inj es cs (length cs) i Hc ltac:(lia) ltac:(lia)) as Hlt. rewrite offset_full in Hlt.
    replace (_ <=? _) with false by lia. rewrite (read_chunk es cs post i e Hc Hok He). rewrite (IH (S i)) by lia.
    symmetry. by apply drop_S.
Qed.

(** ** Keys in order *)

Definition keys_ascend (es : list Entry) : Prop := StronglySorted (λ x y, pylt (me_key x) (me_key y) = true) es.
Definition lookup_key (key : string) (es : list Entry) : option Entry := head (filter (λ e, me_key e = key) es).

Lemma ascend_lookup es i j x y : keys_ascend es → es !! i = Some x → es !! j = Some y → (i < j)%nat → pylt (me_key x) (me_key y) = true.
Proof.
  intros Hs. revert i j. induction Hs as [|z l Hs IH Hall]; intros i j Hx Hy Hij; [done|]. destruct j as [|j]; [lia|]. destruct i as [|i].
  - injection Hx as <-. rewrite Forall_forall in Hall. apply Hall. by eapply list_elem_of_lookup_2.
  - apply (IH i j); [done|done|lia].
Qed.

Lemma lookup_key_at es i e : keys_ascend es → es !! i = Some e → lookup_key (me_key e) es = Some e.
Proof.
  intros Hs. revert i. unfold lookup_key. induction Hs as [|z l Hs IH Hall]; intros i; [done|]. rewrite filter_cons. destruct i as [|i].
  - intros [= ->]. by rewrite decide_True.
  - intros Hi. rewrite decide_False; [by eapply IH|]. rewrite Forall_forall in Hall. specialize (Hall e ltac:(by eapply list_elem_of_lookup_2)).
    intros E. rewrite E, pylt_irrefl in Hall. done.
Qed.

Lemma lookup_key_elem es key e : lookup_key key es = Some e → e ∈ es ∧ me_key e = key.
Proof. unfold lookup_key. intros Hh%head_Some_elem_of. apply list_elem_of_filter in Hh as [? ?]. done. Qed.

Lemma lookup_key_None es key : lookup_key key es = None ↔ ∀ e, e ∈ es → me_key e ≠ key.
Proof.
  unfold lookup_key. split.
  - intros Hh%head_None e He E. assert (e ∈ filter (λ e, me_key e = key) es) as Hin by (by apply list_elem_of_filter).
    rewrite Hh in Hin. by apply not_elem_of_nil in Hin.
  - intros Hn. by rewrite filter_none.
Qed.

(** The scan from one offset to another. *)
Lemma scan_chunks es cs post key :
  chunks_of es cs → Forall entry_ok es → keys_ascend es → ∀ n i, (i + n ≤ length es)%nat → ∀ fuel, (n ≤ fuel)%nat →
  scan_data_block fuel (concat cs ++ post) (zlen (concat cs)) key (offset cs i) (offset cs (i + n)) = lookup_key key (take n (drop i es)).
Proof.
  intros Hc Hok Hs. pose proof (Forall2_length _ _ _ Hc) as Hlen. induction n as [|n IH]; intros i Hi fuel Hf.
  - replace (i + 0)%nat with i by lia. rewrite take_0. destruct fuel; cbn [scan_data_block]; by rewrite Z.leb_refl.
  - destruct (lookup_lt_is_Some_2 es i) as [e He]; [lia|]. destruct fuel as [|fuel]; [lia|]. cbn [scan_data_block].
    pose proof (offset_inj es cs (i + S n) i Hc ltac:(lia) ltac:(lia)) as Hlt. replace (_ <=? _) with false by lia.
    rewrite (read_chunk es cs post i e Hc Hok He), (drop_S _ _ _ He). cbn [take]. unfold lookup_key. rewrite filter_cons.
    destruct (decide (me_key e = key)) as [E|E]; [done|]. destruct (pylt key (me_key e)) eqn:El.
    + symmetry. rewrite filter_none; [done|]. intros e' (j & Hj & _)%elem_of_take E'. rewrite lookup_drop in Hj.
      pose proof (ascend_lookup es i (S i + j) e e' Hs He Hj ltac:(lia)) as Hlt'. rewrite E' in Hlt'. exact (pylt_antisym _ _ El Hlt').
    + replace (i + S n)%nat with (S i + n)%nat by lia. apply IH; lia.
Qed.

(** ** The sparse index *)

(** Index entries are the entries at increasing positions [js], from the first on. *)
Record index_of (es : list Entry) (cs : list (list Z)) (js : list nat) (l : list IndexEntry) : Prop := {
  io_entries : Forall2 (λ j x, ∃ e, es !! j = Some e ∧ x = mk_index (me_key e) (offset cs j)) js l;
  io_order : StronglySorted lt js;
  io_first : head js = Some 0%nat;
}.

Lemma sorted_lt_lookup js i i' j j' : StronglySorted lt js → js !! i = Some j → js !! i' = Some j' → (i < i')%nat → (j < j')%nat.
Proof.
  intros Hs. revert i i'. induction Hs as [|x l Hs IH Hall]; intros i i' Hi Hi' Hlt; [done|]. destruct i' as [|i']; [lia|]. destruct i as [|i].
  - injection Hi as <-. rewrite Forall_forall in Hall. apply Hall. by eapply list_elem_of_lookup_2.
  - apply (IH i i'); [done|done|lia].
Qed.

Lemma index_ascends es cs js l i i' x x' :
  keys_ascend es → index_of es cs js l → l !! i = Some x → l !! i' = Some x' → (i < i')%nat → pylt (ix_key x) (ix_key x') = true.
Proof.
  intros Hs [Hf Ho _] Hi Hi' Hlt. destruct (Forall2_lookup_r _ _ _ _ _ Hf Hi) as (j & Hj & e & He & ->).
  destruct (Forall2_lookup_r _ _ _ _ _ Hf Hi') as (j' & Hj' & e' & He' & ->). cbn.
  eapply ascend_lookup; [done|exact He|exact He'|]. by eapply sorted_lt_lookup.
Qed.

(** The loop invariant of the binary search. *)
Lemma search_ok es cs js l key :
  keys_ascend es → index_of es cs js l → ∀ fuel lo hi found, (Z.to_nat (hi + 1 - lo) ≤ fuel)%nat →
  0 <= lo → lo <= hi + 1 → hi < zlen l → found = Z.max 0 (lo - 1) →
  (∀ i x, l !! i = Some x → Z.of_nat i < lo → pyle (ix_key x) key = true) →
  (∀ i x, l !! i = Some x → hi < Z.of_nat i → pylt key (ix_key x) = true) →
  let i := search fuel l key lo hi found in
  0 <= i ∧ (∀ n x, l !! n = Some x → i < Z.of_nat n → pylt key (ix_key x) = true) ∧
  (i = 0 ∨ ∃ x, l !! Z.to_nat i = Some x ∧ pyle (ix_key x) key = true).
Proof.
  intros Hs Hix. induction fuel as [|fuel IH]; intros lo hi found Hf L0 L1 L2 -> Hlo Hhi.
  - cbn [search]. split; [lia|]. split; [intros n x Hn Hi; apply (Hhi n x Hn); lia|].
    destruct (Z.le_gt_cases lo 0); [left; lia|right]. destruct (lookup_lt_is_Some_2 l (Z.to_nat (lo - 1))) as [x Hx]; [unfold zlen in *; lia|].
    exists x. rewrite Z.max_r by lia. split; [done|]. apply (Hlo _ _ Hx). lia.
  - cbn [search]. destruct (hi <? lo) eqn:El.
    + split; [lia|]. split; [intros n x Hn Hi; apply (Hhi n x Hn); lia|].
      destruct (Z.le_gt_cases lo 0); [left; lia|right]. destruct (lookup_lt_is_Some_2 l (Z.to_nat (lo - 1))) as [x Hx]; [unfold zlen in *; lia|].
      exists x. rewrite Z.max_r by lia. split; [done|]. apply (Hlo _ _ Hx). lia.
    + set (mid := (lo + hi) / 2). assert (lo <= mid <= hi) as Hm by (subst mid; Z.to_euclidean_division_equations; lia).
      destruct (lookup_lt_is_Some_2 l (Z.to_nat mid)) as [x Hx]; [unfold zlen in *; lia|]. rewrite Hx.
      destruct (pyle (ix_key x) key) eqn:Ex.
      * apply IH; try lia; [|exact Hhi]. intros i y Hy Hi. destruct (decide (i = Z.to_nat mid)) as [->|Hne]; [congruence|].
        eapply pyle_trans; [|exact Ex]. apply pylt_le. eapply (index_ascends es cs js l i (Z.to_nat mid)); try done. lia.
      * apply IH; try lia; [exact Hlo|].
        intros i y Hy Hi. destruct (decide (i = Z.to_nat mid)) as [->|Hne]; [assert (y = x) as -> by congruence; by apply pyle_false|].
        eapply pylt_trans; [by apply pyle_false|]. eapply (index_ascends es cs js l (Z.to_nat mid) i); try done. lia.
Qed.

(** What an opened table stands for. *)
Record represents (t : SSTable T) (es : list Entry) : Prop := {
  rp_nonempty : es ≠ [];
  rp_entries : Forall entry_ok es;
  rp_order : keys_ascend es;
  rp_bytes : ∃ cs js post, chunks_of es cs ∧ raw_data t = concat cs ++ post ∧ data_block_size t = zlen (concat cs) ∧ index_of es cs js (index t);
  rp_min : Some (min_key (metadata t)) = me_key <$> head es;
  rp_max : Some (max_key (metadata t)) = me_key <$> last es;
  rp_filter : ∀ key, ∃ b, may_contain hs t key = Ok b ∧ (b = false → lookup_key key es = None);
}.

Lemma entries_ok t es : represents t es → entries t = es.
Proof.
  intros [_ Hok _ (cs & js & post & Hc & Hr & Hd & _) _ _ _]. unfold entries. rewrite Hd, Hr.
  pose proof (chunks_length es cs Hc) as Hl. transitivity (drop 0 es); [|done].
  apply (entries_from_chunks es cs post Hc Hok (length es) 0 eq_refl). unfold zlen in Hl. rewrite length_app. lia.
Qed.

Lemma lookup_split key es i j :
  keys_ascend es → (i ≤ j)%nat → (∀ n e, es !! n = Some e → me_key e = key → (i ≤ n < j)%nat) →
  lookup_key key (take (j - i) (drop i es)) = lookup_key key es.
Proof.
  intros Hs Hij Hn. unfold lookup_key. rewrite <- (take_drop i es) at 2. rewrite <- (take_drop (j - i) (drop i es)) at 2. rewrite !filter_app.
  rewrite (filter_none _ (take i es)), (filter_none _ (drop (j - i) (drop i es))), app_nil_r; [done|..].
  - intros e (n & He)%list_elem_of_lookup E. rewrite !lookup_drop in He. specialize (Hn _ _ He E). lia.
  - intros e (n & He & Hlt)%elem_of_take E. specialize (Hn _ _ He E). lia.
Qed.

(** [get] is the lookup in the list of entries. *)
Lemma get_ok t es key : represents t es → SSTable.get hs t key = Ok (lookup_key key es).
Proof.
  intros Hrep. pose proof Hrep as [Hne Hok Hs (cs & js & post & Hc & Hr & Hd & Hix) Hmin Hmax Hb]. unfold SSTable.get.
  destruct (Hb key) as (b & -> & Hf). cbn [rbind]. destruct b; [|by rewrite Hf]. cbn [negb].
  assert (∀ x y : string, pylt x y = true → x ≠ y) as Hlt by (intros x y H1 ->; by rewrite pylt_irrefl in H1).
  destruct (pylt key (min_key (metadata t))) eqn:E1.
  { f_equal. symmetry. apply lookup_key_None. intros e (n & He)%list_elem_of_lookup E. cbn.
    destruct es as [|e0 es]; [done|]. injection Hmin as Hmin. rewrite Hmin in E1. destruct n as [|n]; [injection He as ->; exact (Hlt _ _ E1 (eq_sym E))|].
    pose proof (ascend_lookup (e0 :: es) 0 (S n) e0 e Hs eq_refl He ltac:(lia)) as H2. rewrite E in H2. exact (pylt_antisym _ _ E1 H2). }
  cbn [orb]. destruct (pylt (max_key (metadata t)) key) eqn:E2.
  { f_equal. symmetry. apply lookup_key_None. intros e (n & He)%list_elem_of_lookup E.
    destruct (last es) as [el|] eqn:El; [|done]. injection Hmax as Hmax. rewrite Hmax in E2. rewrite last_lookup in El.
    pose proof (lookup_lt_Some _ _ _ He). destruct (decide (n = Init.Nat.pred (length es))) as [->|Hne'].
    { assert (e = el) as -> by congruence. exact (Hlt _ _ E2 E). }
    pose proof (ascend_lookup es n _ e el Hs He El ltac:(lia)) as H2. rewrite E in H2. exact (pylt_antisym _ _ E2 H2). }
  pose proof (Forall2_length _ _ _ Hc) as Hlen. pose proof Hix as [Hf2 Ho Hjs0].
  assert (index t ≠ []) as Hne2 by (intros E; rewrite E in Hf2; inversion Hf2; subst js; done).
  unfold find_scan_range. destruct (index t) as [|x0 l0] eqn:Ei; [done|]. rewrite <- Ei in *. clear x0 l0 Ei.
  assert (∀ n, offset cs n <= zlen (concat cs)) as Hoff.
  { intros n. destruct (Nat.le_gt_cases n (length cs)); [rewrite <- offset_full; by apply offset_mono|]. unfold offset. by rewrite take_ge by lia. }
  destruct (search_ok es cs js (index t) key Hs Hix (length (index t)) 0 (zlen (index t) - 1) 0) as (Hi0 & Hafter & Hbefore);
    [unfold zlen; lia|lia|unfold zlen; lia|lia|lia|intros; lia|intros i x Hx; apply lookup_lt_Some in Hx; unfold zlen; lia|].
  set (i := search _ _ _ _ _ _) in *. clearbody i.
  assert (∃ j e, js !! Z.to_nat i = Some j ∧ es !! j = Some e ∧ index t !! Z.to_nat i = Some (mk_index (me_key e) (offset cs j)) ∧ pyle (me_key e) key = true) as (j & e & Hj & He & Hxi & Hke).
  { destruct Hbefore as [->|(x & Hx & Hle)].
    - destruct js as [|j0 js0]; [done|]. injection Hjs0 as ->. destruct (Forall2_lookup_l _ _ _ 0%nat 0%nat Hf2 eq_refl) as (x & Hx & e & He & ->).
      exists 0%nat, e. split; [done|]. split; [done|]. split; [done|]. destruct es as [|e0 es0]; [done|]. injection He as ->. injection Hmin as <-.
      by apply pylt_false.
    - destruct (Forall2_lookup_r _ _ _ _ _ Hf2 Hx) as (j & Hj & e & He & ->). by exists j, e. }
  rewrite Hxi. cbn [ix_offset].
  (* entries with the key are at or behind [j] *)
  assert (∀ n e', es !! n = Some e' → me_key e' = key → (j ≤ n)%nat) as Hlow.
  { intros n e' He' E. destruct (Nat.le_gt_cases j n); [done|]. pose proof (ascend_lookup es n j e' e Hs He' He ltac:(lia)) as H2.
    rewrite E in H2. unfold pylt in H2. rewrite Hke in H2. done. }
  assert (∃ j', (j ≤ j' ≤ length es)%nat ∧ (match index t !! Z.to_nat (i + 1) with Some x => ix_offset x | None => data_block_size t end) = offset cs j' ∧
    ∀ n e', es !! n = Some e' → me_key e' = key → (n < j')%nat) as (j' & Hjj & -> & Hhigh).
  { destruct (index t !! Z.to_nat (i + 1)) as [x|] eqn:Ex.
    - destruct (Forall2_lookup_r _ _ _ _ _ Hf2 Ex) as (j' & Hj' & e' & He' & ->). exists j'.
      pose proof (sorted_lt_lookup js _ _ j j' Ho Hj Hj' ltac:(lia)). apply lookup_lt_Some in He' as Hl. split; [lia|]. split; [done|].
      intros n e2 He2 E. destruct (Nat.le_gt_cases j' n) as [Hle|]; [|done]. exfalso. pose proof (Hafter _ _ Ex ltac:(lia)) as H2. cbn in H2.
      destruct (decide (n = j')) as [->|Hne']; [assert (e2 = e') as -> by congruence; exact (Hlt _ _ H2 (eq_sym E))|].
      pose proof (ascend_lookup es j' n e' e2 Hs He' He2 ltac:(lia)) as H3. rewrite E in H3. exact (pylt_antisym _ _ H2 H3).
    - exists (length es). apply lookup_lt_Some in He as Hl. split; [lia|]. split; [by rewrite Hd, Hlen, offset_full|].
      intros n e2 He2 _. by apply lookup_lt_Some in He2. }
  f_equal. rewrite Hr, Hd. pose proof (chunks_length es cs Hc) as Hl17.
  replace j' with (j + (j' - j))%nat at 1 by lia.
  rewrite (scan_chunks es cs post key Hc Hok Hs (j' - j) j ltac:(lia)).
  - apply lookup_split; [done|lia|]. intros n e2 He2 E. split; [by eapply Hlow|by eapply Hhigh].
  - rewrite length_app. unfold zlen in Hl17. lia.
Qed.
End read.
