(* ===== verification/SSTableOpen.v ===== *)
(** * A written table opens to its entries

    The bytes of [encode_table] are read back: the index and the filter by their
    encodings, and the footer because no shorter candidate parses - which needs keys
    without zero bytes ([plain]): a key can otherwise contain a footer. *)
From S2P Require Import Prelude PyList PyDict Bloom MemTable Codec SSTable SSTableRead.
Local Open Scope Z_scope.

Section open.
Context {T : Type} `{Time T} (hs : Hashing).
Local Notation Entry := (@MemTableEntry T).
Implicit Types (e : Entry) (es : list Entry).

(** ** The blocks *)

Record built (i : Z) es (b b' : Build) : Prop := {
  bt_parts : ∃ cs js l, chunks_of es cs ∧ b_data b' = b_data b ++ concat cs ∧ b_index b' = b_index b ++ l
    ∧ Forall2 (λ j x, ∃ e, es !! j = Some e ∧ x = mk_index (me_key e) (zlen (b_data b) + offset cs j)) js l
    ∧ StronglySorted lt js ∧ ∀ j, j ∈ js ↔ (j < length es)%nat ∧ (i + Z.of_nat j) mod _INDEX_INTERVAL = 0;
  bt_bloom : add_all (md5 hs) (sha256 hs) (b_bloom b) (me_key <$> es) = Ok (b_bloom b');
}.

Lemma build_ok es i b b' : build hs i es b = Ok b' → built i es b b'.
Proof.
  revert i b. induction es as [|e es IH]; intros i b; cbn [build].
  { intros [= <-]. split; [|done]. exists [], [], []. rewrite !app_nil_r. split_and!; try done; try constructor.
    - by intros Hj%not_elem_of_nil.
    - intros [Hj _]. cbn in Hj. lia. }
  destruct (Bloom.add _ _ _ _) as [fl|] eqn:Ea; [|done]. cbn [rbind].
  destruct (encode_entry e) as [bs|] eqn:Ee; [|done]. cbn [rbind]. apply encode_entry_inv in Ee.
  intros Hb. destruct (IH _ _ Hb) as [(cs & js & l & Hc & Hd & Hi & Hf & Ho & Hj) Hbl]. cbn [b_data b_index b_bloom] in *.
  split; [|cbn [add_all fmap list_fmap]; by rewrite Ea].
  set (here := i mod _INDEX_INTERVAL =? 0) in *.
  exists (bs :: cs), ((if here then [0%nat] else []) ++ (S <$> js)), ((if here then [mk_index (me_key e) (zlen (b_data b))] else []) ++ l).
  split; [by constructor|]. split; [by rewrite Hd, <- app_assoc|]. split; [rewrite Hi; destruct here; [by rewrite <- app_assoc|done]|].
  assert (Forall2 (λ j x, ∃ e', (e :: es) !! j = Some e' ∧ x = mk_index (me_key e') (zlen (b_data b) + offset (bs :: cs) j)) (S <$> js) l) as Hf'.
  { apply Forall2_fmap_l. eapply Forall2_impl; [exact Hf|]. intros j x (e' & He' & ->). exists e'. split; [done|].
    f_equal. unfold offset. cbn [take concat]. rewrite !zlen_app. lia. }
  split; [|split].
  - apply Forall2_app; [|done]. destruct here; [|constructor]. constructor; [|constructor]. exists e. split; [done|].
    f_equal. unfold offset. cbn. rewrite zlen_nil. lia.
  - assert (StronglySorted lt (S <$> js)) as Hs.
    { clear -Ho. induction Ho as [|j js Ho IH Hall]; [constructor|]. cbn. constructor; [done|]. rewrite Forall_fmap.
      eapply Forall_impl; [exact Hall|]. cbn. lia. }
    destruct here; [|done]. cbn. constructor; [done|]. rewrite Forall_fmap. apply Forall_forall. cbn. lia.
  - intros j. rewrite elem_of_app, list_elem_of_fmap. split.
    + intros [Hin|(j' & -> & Hin)].
      * destruct here eqn:E; [|by apply not_elem_of_nil in Hin]. apply list_elem_of_singleton in Hin as ->. cbn. subst here.
        split; [lia|]. rewrite Z.add_0_r. lia.
      * apply Hj in Hin as [H1 H2]. cbn. split; [lia|]. rewrite <- H2. f_equal. lia.
    + intros [H1 H2]. cbn in H1. destruct j as [|j].
      * left. replace (i + Z.of_nat 0) with i in H2 by lia. subst here. rewrite H2. cbn. by left.
      * right. exists j. split; [done|]. apply Hj. split; [lia|]. rewrite <- H2. f_equal. lia.
Qed.

(** ** The index block *)

Lemma parse_index l bs pre fuel :
  encode_index l = Ok bs → Forall (λ x, utf8_valid (utf8 (ix_key x)) = true) l → (length l ≤ fuel)%nat →
  parse_index_block fuel (pre ++ bs) (zlen pre) = Ok l.
Proof.
  revert pre bs fuel. induction l as [|x l IH]; intros pre bs fuel; cbn [encode_index].
  { intros [= <-] _ _. rewrite app_nil_r. destruct fuel; cbn [parse_index_block]; by rewrite Z.leb_refl. }
  destruct (pack 4 (zlen (utf8 (ix_key x)))) as [kl|] eqn:E1; [|done]. cbn [rbind]. destruct (pack 8 (ix_offset x)) as [ofs|] eqn:E2; [|done]. cbn [rbind].
  destruct (encode_index l) as [rest|] eqn:Er; [|done]. cbn [rbind]. intros [= <-] [Hv Hl]%Forall_cons Hf.
  apply pack_inv in E1 as [-> H1], E2 as [-> H2]. destruct fuel as [|fuel]; [cbn in Hf; lia|]. cbn [parse_index_block].
  set (kb := utf8 (ix_key x)) in *. set (data := pre ++ _).
  pose proof (zlen_nonneg kb). pose proof (zlen_nonneg rest).
  assert (zlen data = zlen pre + zlen kb + 12 + zlen rest) as Hd by (subst data; places).
  assert (unpack 4 data (zlen pre) = Ok (zlen kb)) as -> by (apply (unpack_at data pre (kb ++ le_encode 8 (ix_offset x) ++ rest) 4); [subst data; pieces|done|exact H1]).
  assert (slice data (zlen pre + 4) (zlen pre + 4 + zlen kb) = kb) as S1
    by (apply (slice_at data (pre ++ le_encode 4 (zlen kb)) kb (le_encode 8 (ix_offset x) ++ rest)); [subst data; pieces|places|places]).
  assert (unpack 8 data (zlen pre + 4 + zlen kb) = Ok (ix_offset x)) as U2
    by (apply (unpack_at data (pre ++ le_encode 4 (zlen kb) ++ kb) rest 8); [subst data; pieces|places|exact H2]).
  cbn [rbind]. rewrite S1, (decode_utf8 _ Hv : decode kb = _). cbn [rbind]. rewrite U2. cbn [rbind].
  replace (zlen data <=? zlen pre) with false by lia. replace (zlen data <? zlen pre + 4) with false by lia.
  replace (zlen data <? zlen pre + 4 + zlen kb) with false by lia. replace (zlen data <? zlen pre + 4 + zlen kb + 8) with false by lia.
  pose proof (IH (pre ++ le_encode 4 (zlen kb) ++ kb ++ le_encode 8 (ix_offset x)) rest fuel eq_refl Hl ltac:(cbn in Hf; lia)) as Hrec.
  replace ((pre ++ le_encode 4 (zlen kb) ++ kb ++ le_encode 8 (ix_offset x)) ++ rest) with data in Hrec by (subst data; pieces).
  replace (zlen (pre ++ le_encode 4 (zlen kb) ++ kb ++ le_encode 8 (ix_offset x))) with (zlen pre + 4 + zlen kb + 8) in Hrec by places.
  rewrite Hrec. by destruct x.
Qed.

Lemma encode_index_length l bs : encode_index l = Ok bs → 12 * zlen l <= zlen bs.
Proof.
  revert bs. induction l as [|x l IH]; intros bs; cbn [encode_index]; [by intros [= <-]|].
  destruct (pack 4 _) as [kl|] eqn:E1; [|done]. cbn [rbind]. destruct (pack 8 _) as [ofs|] eqn:E2; [|done]. cbn [rbind].
  destruct (encode_index l) as [rest|]; [|done]. cbn [rbind]. intros [= <-]. specialize (IH _ eq_refl).
  apply pack_inv in E1 as [-> _], E2 as [-> _]. autorewrite with zlen. pose proof (zlen_nonneg (utf8 (ix_key x))). lia.
Qed.
(** ** The footer *)

Definition plain (key : string) : Prop := utf8_valid (utf8 key) = true ∧ zlen (utf8 key) <= 256 ∧ ∀ x, x ∈ utf8 key → x ≠ 0.

Definition footer (sizes : list Z) (mn mx : string) (created : T) : list Z :=
  sizes ++ le_encode 4 (zlen (utf8 mn)) ++ utf8 mn ++ le_encode 4 (zlen (utf8 mx)) ++ utf8 mx ++ f_encode created ++ le_encode 4 _MAGIC_NUMBER.

Section candidate.
Context (A sizes : list Z) (mn mx : string) (created : T).
Hypothesis sizes_length : zlen sizes = 32.
Hypothesis sizes_bytes : ∀ x, x ∈ sizes → byte x.
Hypothesis mn_plain : plain mn.
Hypothesis mx_plain : plain mx.
Hypothesis mn_empty : utf8 mx = [] → utf8 mn = [].
Local Notation F := (footer sizes mn mx created).
Local Notation data := (A ++ F).
Local Notation a := (zlen (utf8 mn)).
Local Notation b := (zlen (utf8 mx)).

Lemma footer_bytes x : x ∈ F → byte x.
Proof.
  unfold footer. rewrite !elem_of_app.
  intros [?|[?|[?|[?|[?|[?|?]]]]]]; eauto using le_encode_byte, utf8_byte, f_encode_bytes.
Qed.

Lemma footer_length : zlen data = zlen A + 52 + a + b.
Proof. unfold footer. autorewrite with zlen. lia. Qed.

Lemma field_bytes p w x : zlen A <= p → x ∈ slice data p (p + w) → byte x.
Proof. intros Hp Hx. apply footer_bytes. by eapply slice_elem. Qed.

(** The byte that is [k] behind the start of the first key. *)
Lemma key_byte k : 0 <= k < a + 4 + b → ∃ x, data !! Z.to_nat (zlen A + 36 + k) = Some x ∧ 0 <= x ∧
  (k < a → 1 <= x) ∧ (k = a → x = b mod 256) ∧ (k = a + 1 → x = b / 256 mod 256) ∧ (a + 4 <= k → 1 <= x).
Proof.
  intros Hk. destruct mn_plain as (_ & _ & Ha), mx_plain as (_ & Hb' & Hb).
  assert (data = (A ++ sizes ++ le_encode 4 a) ++ (utf8 mn ++ le_encode 4 b ++ utf8 mx) ++ f_encode created ++ le_encode 4 _MAGIC_NUMBER) as -> by (unfold footer; pieces).
  assert (length (A ++ sizes ++ le_encode 4 a) = Z.to_nat (zlen A + 36)) as Hl by (unfold zlen in *; rewrite !length_app, le_encode_length; lia).
  rewrite lookup_app_r by lia. replace (Z.to_nat (zlen A + 36 + k) - _)%nat with (Z.to_nat k) by (unfold zlen in *; lia).
  rewrite lookup_app_l by (unfold zlen in *; rewrite !length_app, le_encode_length; lia).
  destruct (Z.lt_ge_cases k a) as [Hka|Hka].
  - rewrite lookup_app_l by (unfold zlen in *; lia). destruct (lookup_lt_is_Some_2 (utf8 mn) (Z.to_nat k)) as [x Hx]; [unfold zlen in *; lia|].
    exists x. split; [exact Hx|]. apply list_elem_of_lookup_2 in Hx. pose proof (utf8_byte _ _ Hx) as Hx'. specialize (Ha _ Hx). unfold byte in Hx'. lia.
  - rewrite lookup_app_r by (unfold zlen in *; lia). destruct (Z.lt_ge_cases k (a + 4)) as [Hk4|Hk4].
    + rewrite lookup_app_l by (rewrite le_encode_length; unfold zlen in *; lia).
      replace (Z.to_nat k - length (utf8 mn))%nat with (Z.to_nat (k - a)) by (unfold zlen; lia).
      assert (k - a = 0 ∨ k - a = 1 ∨ k - a = 2 ∨ k - a = 3) as [E|[E|[E|E]]] by lia; rewrite E; cbn [le_encode lookup list_lookup Z.to_nat Pos.to_nat Pos.iter_op Nat.add];
        (eexists; split; [reflexivity|]); Z.to_euclidean_division_equations; lia.
    + rewrite lookup_app_r by (rewrite le_encode_length; unfold zlen in *; lia). rewrite le_encode_length.
      destruct (lookup_lt_is_Some_2 (utf8 mx) (Z.to_nat k - length (utf8 mn) - 4)%nat) as [x Hx]; [unfold zlen in *; lia|].
      exists x. split; [exact Hx|]. apply list_elem_of_lookup_2 in Hx. pose proof (utf8_byte _ _ Hx) as Hx'. specialize (Hb _ Hx). unfold byte in Hx'. lia.
Qed.

(** A shorter candidate reads the length of its first key out of the keys, and it is too long. *)
Lemma candidate_too_long d min_len max_len :
  1 <= d <= a + b → unpack 4 data (zlen A + d + 32) = Ok min_len → unpack 4 data (zlen A + d + 36 + min_len) = Ok max_len →
  min_len + max_len <> a + b - d.
Proof.
  intros Hd U1 U2 E. pose proof (zlen_nonneg A) as HA. destruct mn_plain as (_ & Ha & _), mx_plain as (_ & Hb & _).
  pose proof (zlen_nonneg (utf8 mn)) as Ha0. pose proof (zlen_nonneg (utf8 mx)) as Hb0.
  assert (0 <= min_len) as Hm0 by (eapply unpack_nonneg; [|exact U1]; intros x; apply field_bytes; lia).
  assert (0 <= max_len) as Hx0 by (eapply unpack_nonneg; [|exact U2]; intros x; apply field_bytes; lia).
  assert (∀ i x, 0 <= i < 4 → data !! Z.to_nat (zlen A + 36 + (d - 4 + i)) = Some x → 256 ^ i * x <= min_len) as Hge.
  { intros i x Hi Hx. eapply (unpack_ge data (zlen A + d + 32) 4); [|exact U1|lia|lia|].
    - intros y. apply field_bytes. lia.
    - rewrite <- Hx. do 2 f_equal. lia. }
  assert (b = 0 → a = 0) as Hab. { intros E0. rewrite mn_empty; [done|]. apply nil_length_inv. unfold zlen in E0. lia. }
  assert (∀ i, 0 <= i < 4 → 0 <= d - 4 + i → ∃ x, 256 ^ i * x <= min_len ∧ 0 <= x ∧ (d - 4 + i < a → 1 <= x) ∧ (d - 4 + i = a → x = b mod 256)
    ∧ (d - 4 + i = a + 1 → x = b / 256 mod 256) ∧ (a + 4 <= d - 4 + i → 1 <= x)) as Hbyte.
  { intros i Hi Hk. destruct (key_byte (d - 4 + i)) as (x & Hx & H'); [lia|]. exists x. split; [by apply Hge|exact H']. }
  destruct (Hbyte 3 ltac:(lia) ltac:(lia)) as (x3 & G3 & P3 & K1 & K2 & K3 & K4). change (256 ^ 3) with 16777216 in G3.
  destruct (Z.lt_ge_cases (d - 1) a); [lia|]. destruct (Z.lt_ge_cases (d - 1) (a + 4)); [|lia].
  assert (d = a + 1 ∨ d = a + 2 ∨ d = a + 3 ∨ d = a + 4) as [->|[->|[->| ->]]] by lia.
  - specialize (K2 ltac:(lia)). destruct (decide (b = 256)) as [Eb|Nb]; [|rewrite Z.mod_small in K2 by lia; lia].
    destruct (decide (a = 0)) as [Ea|Na].
    + assert (utf8 mn = []) as En by (apply nil_length_inv; unfold zlen in Ea; lia).
      assert (data = (A ++ sizes ++ [0]) ++ le_encode 4 0 ++ ([1; 0; 0] ++ utf8 mx ++ f_encode created ++ le_encode 4 _MAGIC_NUMBER)) as Ed.
      { unfold footer. rewrite Eb, En. rewrite zlen_nil. cbn [app le_encode]. change (256 mod 256) with 0. change (256 / 256) with 1.
        change (1 mod 256) with 1. change (1 / 256) with 0. change (0 mod 256) with 0. change (0 / 256) with 0. pieces. }
      assert (min_len = 0) as Em.
      { assert (unpack (Z.of_nat 4) data (zlen A + (a + 1) + 32) = Ok 0) as U0 by (eapply unpack_at; [exact Ed|autorewrite with zlen; lia|done]).
        change (Z.of_nat 4) with 4 in U0. congruence. }
      destruct (key_byte 4) as (x & Hx & _ & _ & _ & _ & Hx1); [lia|]. specialize (Hx1 ltac:(lia)).
      assert (256 ^ 3 * x <= max_len) as Hbig.
      { eapply (unpack_ge data (zlen A + (a + 1) + 36 + min_len) 4); [|exact U2|lia|lia|].
        - intros y. apply field_bytes. lia.
        - rewrite <- Hx. do 2 f_equal. lia. }
      change (256 ^ 3) with 16777216 in Hbig. lia.
    + destruct (Hbyte 2 ltac:(lia) ltac:(lia)) as (x2 & G2 & P2 & K1' & _). change (256 ^ 2) with 65536 in G2. specialize (K1' ltac:(lia)). lia.
  - specialize (K3 ltac:(lia)). destruct (Hbyte 2 ltac:(lia) ltac:(lia)) as (x2 & G2 & P2 & _ & K2' & _). change (256 ^ 2) with 65536 in G2.
    specialize (K2' ltac:(lia)). destruct (decide (b = 256)) as [Eb|Nb]; [rewrite Eb in K3; change (256 / 256 mod 256) with 1 in K3; lia|].
    rewrite Z.mod_small in K2' by lia. lia.
  - destruct (decide (b = 256)) as [Eb|Nb].
    + destruct (Hbyte 2 ltac:(lia) ltac:(lia)) as (x2 & G2 & P2 & _ & _ & K3' & _). change (256 ^ 2) with 65536 in G2.
      specialize (K3' ltac:(lia)). rewrite Eb in K3'. change (256 / 256 mod 256) with 1 in K3'. lia.
    + destruct (Hbyte 1 ltac:(lia) ltac:(lia)) as (x1 & G1 & P1 & _ & K2' & _). change (256 ^ 1) with 256 in G1.
      specialize (K2' ltac:(lia)). rewrite Z.mod_small in K2' by lia. lia.
  - destruct (decide (b = 256)) as [Eb|Nb].
    + destruct (Hbyte 1 ltac:(lia) ltac:(lia)) as (x1 & G1 & P1 & _ & _ & K3' & _). change (256 ^ 1) with 256 in G1.
      specialize (K3' ltac:(lia)). rewrite Eb in K3'. change (256 / 256 mod 256) with 1 in K3'. lia.
    + destruct (Hbyte 0 ltac:(lia) ltac:(lia)) as (x0 & G0 & P0 & _ & K2' & _). change (256 ^ 0) with 1 in G0.
      specialize (K2' ltac:(lia)). rewrite Z.mod_small in K2' by lia. lia.
Qed.

Lemma candidate_fails path d s1 s2 s3 :
  1 <= d <= a + b → ∃ err : exn, parse_footer_at path data (zlen A + d) s1 s2 s3 = Raise err ∧ (err = StructError ∨ err = ValueError).
Proof.
  intros Hd. unfold parse_footer_at. cbv zeta.
  destruct (unpack 4 data (zlen A + d + 24)) as [c1|e] eqn:E; [|eexists; split; [done|]; left; by eapply unpack_raise]. cbn [rbind]. clear E.
  destruct (unpack 4 data (zlen A + d + 24 + 4)) as [c2|e] eqn:E; [|eexists; split; [done|]; left; by eapply unpack_raise]. cbn [rbind]. clear E.
  destruct (unpack 4 data (zlen A + d + 24 + 4 + 4)) as [min_len|e] eqn:U1; [|eexists; split; [done|]; left; by eapply unpack_raise]. cbn [rbind].
  destruct (decode _) as [m1|e] eqn:E; [|eexists; split; [done|]; right; by eapply decode_raise]. cbn [rbind]. clear E.
  destruct (unpack 4 data (zlen A + d + 24 + 4 + 4 + 4 + min_len)) as [max_len|e] eqn:U2; [|eexists; split; [done|]; left; by eapply unpack_raise]. cbn [rbind].
  destruct (decode _) as [m2|e] eqn:E; [|eexists; split; [done|]; right; by eapply decode_raise]. cbn [rbind]. clear E.
  destruct (zlen data <? _) eqn:El; [eexists; split; [done|]; by left|].
  destruct (unpack 4 data (zlen A + d + 24 + 4 + 4 + 4 + min_len + 4 + max_len + 8)) as [magic|e] eqn:E; [|eexists; split; [done|]; left; by eapply unpack_raise]. cbn [rbind].
  destruct (negb (magic =? _)); [eexists; split; [done|]; by right|]. cbn [raise_if].
  destruct (_ =? zlen data) eqn:Ez; [|eexists; split; [done|]; by right]. exfalso. apply Z.eqb_eq in Ez. rewrite footer_length in Ez.
  apply (candidate_too_long d min_len max_len Hd); [rewrite <- U1; f_equal; lia|rewrite <- U2; f_equal; lia|lia].
Qed.

(** The loop passes over all of them. *)
Lemma candidates_skipped path rest cs :
  (∀ c, c ∈ cs → 52 <= c < 52 + a + b) →
  parse_footer_from_end path data (cs ++ rest) = parse_footer_from_end path data rest.
Proof.
  induction cs as [|c cs IH]; intros Hc; [done|]. cbn [app parse_footer_from_end]. rewrite IH by (intros; apply Hc; by right).
  specialize (Hc c ltac:(by left)). pose proof footer_length as Hl. pose proof (zlen_nonneg A).
  assert ((zlen data - c <? 0) = false) as -> by lia. assert ((zlen data <? zlen data - c + 24) = false) as -> by lia.
  assert (∀ pos, pos + 8 <= zlen data → ∃ z, unpack 8 data pos = Ok z) as Hu.
  { intros pos Hp. unfold unpack. replace (_ <=? _) with true by lia. by eexists. }
  set (fs := zlen data - c). assert (fs = zlen A + (52 + a + b - c)) as Ef by (subst fs; lia).
  destruct (Hu fs ltac:(lia)) as [z1 ->]. cbn [rbind]. destruct (Hu (fs + 8) ltac:(lia)) as [z2 ->]. cbn [rbind].
  destruct (Hu (fs + 16) ltac:(lia)) as [z3 ->]. cbn [rbind]. destruct (_ =? fs); [|done].
  rewrite Ef. destruct (candidate_fails path (52 + a + b - c) z1 z2 z3) as (err & -> & He); [lia|]. by rewrite bool_decide_eq_true_2.
Qed.
End candidate.

(** The right candidate. *)
Lemma footer_parses path db ib bb count lvl mn mx created l filter :
  plain mn → plain mx → zlen db < 256 ^ 8 → zlen ib < 256 ^ 8 → zlen bb < 256 ^ 8 → 0 <= count < 256 ^ 4 → 0 <= lvl < 256 ^ 4 →
  encode_index l = Ok ib → Forall (λ x, utf8_valid (utf8 (ix_key x)) = true) l → deserialize bb = Ok filter →
  let sizes := le_encode 8 (zlen db) ++ le_encode 8 (zlen ib) ++ le_encode 8 (zlen bb) ++ le_encode 4 count ++ le_encode 4 lvl in
  let data := (db ++ ib ++ bb) ++ footer sizes mn mx created in
  parse_footer_at path data (zlen (db ++ ib ++ bb)) (zlen db) (zlen ib) (zlen bb) =
    Ok (mk_table (mk_metadata path lvl mn mx count (zlen data) (f_decode (f_encode created))) data l filter (zlen db)).
Proof.
  intros (Va & Ha & _) (Vb & Hb & _) H1 H2 H3 H4 H5 Hi Hl Hf sizes data.
  set (A := db ++ ib ++ bb) in *. set (ka := utf8 mn) in *. set (kb := utf8 mx) in *.
  pose proof (zlen_nonneg ka) as P1. pose proof (zlen_nonneg kb) as P2. pose proof (zlen_nonneg A) as P3.
  set (s1 := le_encode 8 (zlen db)) in *. set (s2 := le_encode 8 (zlen ib)) in *. set (s3 := le_encode 8 (zlen bb)) in *.
  assert (zlen s1 = 8 ∧ zlen s2 = 8 ∧ zlen s3 = 8) as (L1 & L2 & L3) by (subst s1 s2 s3; by rewrite !zlen_encode).
  set (mg := le_encode 4 _MAGIC_NUMBER). set (ct := f_encode created).
  assert (zlen ct = 8) as Lc by apply zlen_time.
  assert (data = A ++ s1 ++ s2 ++ s3 ++ le_encode 4 count ++ le_encode 4 lvl ++ le_encode 4 (zlen ka) ++ ka ++ le_encode 4 (zlen kb) ++ kb ++ ct ++ mg) as Ed
    by (subst data sizes; unfold footer; pieces).
  assert (zlen data = zlen A + 52 + zlen ka + zlen kb) as Hd by (rewrite Ed; subst mg; autorewrite with zlen; lia).
  assert (unpack 4 data (zlen A + 24) = Ok count) as U1 by (apply (unpack_at data (A ++ s1 ++ s2 ++ s3)
    (le_encode 4 lvl ++ le_encode 4 (zlen ka) ++ ka ++ le_encode 4 (zlen kb) ++ kb ++ ct ++ mg) 4); [rewrite Ed; pieces|autorewrite with zlen; lia|exact H4]).
  assert (unpack 4 data (zlen A + 24 + 4) = Ok lvl) as U2 by (apply (unpack_at data (A ++ s1 ++ s2 ++ s3 ++ le_encode 4 count)
    (le_encode 4 (zlen ka) ++ ka ++ le_encode 4 (zlen kb) ++ kb ++ ct ++ mg) 4); [rewrite Ed; pieces|autorewrite with zlen; lia|exact H5]).
  assert (unpack 4 data (zlen A + 24 + 4 + 4) = Ok (zlen ka)) as U3 by (apply (unpack_at data (A ++ s1 ++ s2 ++ s3 ++ le_encode 4 count ++ le_encode 4 lvl)
    (ka ++ le_encode 4 (zlen kb) ++ kb ++ ct ++ mg) 4); [rewrite Ed; pieces|autorewrite with zlen; lia|change (256 ^ Z.of_nat 4) with 4294967296; lia]).
  assert (slice data (zlen A + 24 + 4 + 4 + 4) (zlen A + 24 + 4 + 4 + 4 + zlen ka) = ka) as S1
    by (apply (slice_at data (A ++ s1 ++ s2 ++ s3 ++ le_encode 4 count ++ le_encode 4 lvl ++ le_encode 4 (zlen ka)) ka (le_encode 4 (zlen kb) ++ kb ++ ct ++ mg));
      [rewrite Ed; pieces|autorewrite with zlen; lia|autorewrite with zlen; lia]).
  assert (unpack 4 data (zlen A + 24 + 4 + 4 + 4 + zlen ka) = Ok (zlen kb)) as U4
    by (apply (unpack_at data (A ++ s1 ++ s2 ++ s3 ++ le_encode 4 count ++ le_encode 4 lvl ++ le_encode 4 (zlen ka) ++ ka) (kb ++ ct ++ mg) 4);
      [rewrite Ed; pieces|autorewrite with zlen; lia|change (256 ^ Z.of_nat 4) with 4294967296; lia]).
  set (p := zlen A + 24 + 4 + 4 + 4 + zlen ka + 4) in *.
  assert (slice data p (p + zlen kb) = kb) as S2
    by (apply (slice_at data (A ++ s1 ++ s2 ++ s3 ++ le_encode 4 count ++ le_encode 4 lvl ++ le_encode 4 (zlen ka) ++ ka ++ le_encode 4 (zlen kb)) kb (ct ++ mg));
      [rewrite Ed; pieces|autorewrite with zlen; lia|autorewrite with zlen; lia]).
  assert (slice data (p + zlen kb) (p + zlen kb + 8) = ct) as S3
    by (apply (slice_at data (A ++ s1 ++ s2 ++ s3 ++ le_encode 4 count ++ le_encode 4 lvl ++ le_encode 4 (zlen ka) ++ ka ++ le_encode 4 (zlen kb) ++ kb) ct mg);
      [rewrite Ed; pieces|autorewrite with zlen; lia|autorewrite with zlen; lia]).
  assert (unpack 4 data (p + zlen kb + 8) = Ok _MAGIC_NUMBER) as U5
    by (apply (unpack_at data (A ++ s1 ++ s2 ++ s3 ++ le_encode 4 count ++ le_encode 4 lvl ++ le_encode 4 (zlen ka) ++ ka ++ le_encode 4 (zlen kb) ++ kb ++ ct) [] 4);
      [rewrite app_nil_r, Ed; subst mg; pieces|autorewrite with zlen; lia|done]).
  assert (slice data (zlen db) (zlen db + zlen ib) = ib) as S4
    by (apply (slice_at data db ib (bb ++ footer sizes mn mx created)); [subst data A; pieces|done|done]).
  assert (slice data (zlen db + zlen ib) (zlen db + zlen ib + zlen bb) = bb) as S5
    by (apply (slice_at data (db ++ ib) bb (footer sizes mn mx created)); [subst data A; pieces|autorewrite with zlen; lia|autorewrite with zlen; lia]).
  unfold parse_footer_at. cbv zeta. rewrite U1. cbn [rbind]. rewrite U2. cbn [rbind]. rewrite U3. cbn [rbind]. rewrite S1, (decode_utf8 _ Va : decode ka = _). cbn [rbind].
  rewrite U4. cbn [rbind]. fold p. rewrite S2, (decode_utf8 _ Vb : decode kb = _). cbn [rbind].
  replace (zlen data <? p + zlen kb + 8) with false by (subst p; lia). rewrite U5. cbn [rbind]. rewrite Z.eqb_refl. cbn [negb raise_if].
  replace (_ =? zlen data) with true by (subst p; lia). cbn [negb raise_if]. rewrite S4, S5.
  assert (parse_index_block (Z.to_nat (Z.min (zlen ib) (zlen data))) ib 0 = Ok l) as ->.
  { apply (parse_index l ib []); [done|done|]. pose proof (encode_index_length _ _ Hi). assert (zlen ib <= zlen data) by (rewrite Hd; subst A; autorewrite with zlen; pose proof (zlen_nonneg db); pose proof (zlen_nonneg bb); lia).
    unfold zlen in *. lia. }
  cbn [rbind]. rewrite Hf. cbn [rbind]. by rewrite S3.
Qed.
(** ** The whole file *)

Lemma add_all_rate bf keys bf' : add_all (md5 hs) (sha256 hs) bf keys = Ok bf' → _false_positive_rate bf' = _false_positive_rate bf.
Proof.
  revert bf. induction keys as [|key keys IH]; intros bf; cbn [add_all]; [by intros [= ->]|].
  destruct (Bloom.add _ _ bf key) as [bf1|] eqn:E; [|done]. cbn [rbind]. intros Hk. rewrite (IH _ Hk).
  unfold Bloom.add in E. destruct (set_bits _ _); [|done]. by injection E as <-.
Qed.

Lemma filter_ok n es bf bf' :
  length (bloom_rate hs) = 8%nat → Bloom.init n (bloom_rate hs) (bloom_bits hs n) (bloom_hashes hs n) = Ok bf →
  add_all (md5 hs) (sha256 hs) bf (me_key <$> es) = Ok bf' →
  length (_false_positive_rate bf') = 8%nat ∧
  ∀ key, ∃ b, might_contain (md5 hs) (sha256 hs) bf' key = Ok b ∧ (b = false → lookup_key key es = None).
Proof.
  intros Hr Hi Ha. pose proof (init_ok _ _ _ _ _ Hi) as Hok. split.
  { rewrite (add_all_rate _ _ _ Ha). unfold Bloom.init in Hi. destruct (n <? 1); [done|]. by injection Hi as <-. }
  destruct (add_all_spec (md5 hs) (sha256 hs) bf (me_key <$> es) Hok) as (bf2 & E2 & Hok2 & Hsh & Hq).
  rewrite Ha in E2. injection E2 as <-. intros key. destruct (might_contain_spec (md5 hs) (sha256 hs) bf' key Hok2) as (b & Hb & Hiff).
  exists b. split; [done|]. intros ->. apply lookup_key_None. intros e He E. assert (false = true); [|done]. apply Hiff. intros p Hp.
  assert (_get_bit_positions (md5 hs) (sha256 hs) bf' key = _get_bit_positions (md5 hs) (sha256 hs) bf key) as Ep by (by apply same_shape_positions).
  rewrite Ep in Hp. apply Hq; [exact (positions_nonneg (md5 hs) (sha256 hs) bf key p Hok Hp)|]. right. exists key. split; [|done]. rewrite <- E. by apply list_elem_of_fmap_2.
Qed.

Lemma empty_last es first final : keys_ascend es → head es = Some first → last es = Some final → utf8 (me_key final) = [] → utf8 (me_key first) = [].
Proof.
  intros Hs Hh Hl E. destruct es as [|e0 es]; [done|]. injection Hh as ->. rewrite last_lookup in Hl. destruct es as [|e1 es].
  - by injection Hl as ->.
  - pose proof (ascend_lookup (first :: e1 :: es) 0 _ first final Hs eq_refl Hl ltac:(cbn; lia)) as Hlt.
    assert (me_key final = "") as En by (destruct (me_key final); [done|discriminate E]).
    rewrite En in Hlt. unfold pylt in Hlt. by destruct (me_key first).
Qed.

Record opened (path : string) es (lvl : Z) (created : T) (data : list Z) (t : SSTable T) : Prop := {
  op_represents : represents hs t es;
  op_path : file_path (metadata t) = path;
  op_level : level (metadata t) = lvl;
  op_count : entry_count (metadata t) = zlen es;
  op_created : created_at (metadata t) = f_decode (f_encode created);
  op_raw : raw_data t = data;
}.

Lemma table_opens path es lvl created data :
  length (bloom_rate hs) = 8%nat → Forall entry_ok es → keys_ascend es → (∀ e, e ∈ es → plain (me_key e)) →
  encode_table hs es lvl created = Ok data → ∃ t, load_from_bytes path data = Ok t ∧ opened path es lvl created data t.
Proof.
  intros Hr Hok Hs Hp. unfold encode_table. destruct es as [|first es'] eqn:Ees; [done|]. rewrite <- Ees in *.
  destruct (last es) as [final|] eqn:El; [|done]. destruct (Bloom.init _ _ _ _) as [bf|] eqn:Ei; [|done]. cbn [rbind].
  destruct (build hs 0 es (mk_build [] [] bf)) as [b|] eqn:Eb; [|done]. cbn [rbind]. apply build_ok in Eb as [(cs & js & l & Hc & Hd & Hi & Hf & Ho & Hj) Hbl].
  cbn [b_data b_index b_bloom app] in *. destruct (encode_index (b_index b)) as [ib|] eqn:Eix; [|done]. cbn [rbind].
  destruct (Bloom.serialize (b_bloom b)) as [bb|] eqn:Es; [|done]. cbn [rbind].
  destruct (filter_ok _ _ _ _ Hr Ei Hbl) as [Hrate Hmay]. destruct (bloom_roundtrip (b_bloom b) Hrate) as [Hrt _].
  destruct (Hrt _ Es) as [Hde _]. specialize (Hde []). rewrite app_nil_r in Hde. clear Hrt.
  unfold encode_footer. destruct (pack 8 (zlen (b_data b))) as [f1|] eqn:E1; [|done]. cbn [rbind]. destruct (pack 8 (zlen ib)) as [f2|] eqn:E2; [|done]. cbn [rbind].
  destruct (pack 8 (zlen bb)) as [f3|] eqn:E3; [|done]. cbn [rbind]. destruct (pack 4 (zlen es)) as [f4|] eqn:E4; [|done]. cbn [rbind].
  destruct (pack 4 lvl) as [f5|] eqn:E5; [|done]. cbn [rbind]. destruct (pack 4 (zlen (utf8 (me_key first)))) as [f6|] eqn:E6; [|done]. cbn [rbind].
  destruct (pack 4 (zlen (utf8 (me_key final)))) as [f7|] eqn:E7; [|done]. cbn [rbind]. destruct (pack 4 _MAGIC_NUMBER) as [f8|] eqn:E8; [|done]. cbn [rbind].
  apply pack_inv in E1 as [-> H1], E2 as [-> H2], E3 as [-> H3], E4 as [-> H4], E5 as [-> H5], E6 as [-> _], E7 as [-> _], E8 as [-> _].
  intros [= <-]. set (sizes := le_encode 8 (zlen (b_data b)) ++ le_encode 8 (zlen ib) ++ le_encode 8 (zlen bb) ++ le_encode 4 (zlen es) ++ le_encode 4 lvl).
  set (A := b_data b ++ ib ++ bb). set (F := footer sizes (me_key first) (me_key final) created).
  match goal with |- ∃ t, load_from_bytes path ?d = _ ∧ _ => assert (d = A ++ F) as -> by (subst A F sizes; unfold footer; pieces) end.
  assert (first ∈ es) as Hfirst by (rewrite Ees; by left). assert (final ∈ es) as Hfinal by (apply last_Some in El as [l0 ->]; apply elem_of_app; right; by left).
  pose proof (Hp _ Hfirst) as Pa. pose proof (Hp _ Hfinal) as Pb.
  assert (utf8 (me_key final) = [] → utf8 (me_key first) = []) as Hempty by (apply (empty_last es); [done|by rewrite Ees|done]).
  assert (zlen sizes = 32) as Hsz by (subst sizes; autorewrite with zlen; lia).
  pose proof (footer_length A sizes (me_key first) (me_key final) created Hsz) as Hlen. fold F in Hlen.
  pose proof (zlen_nonneg A) as PA. pose proof (zlen_nonneg (utf8 (me_key first))) as P1. pose proof (zlen_nonneg (utf8 (me_key final))) as P2.
  set (a := zlen (utf8 (me_key first))) in *. set (b2 := zlen (utf8 (me_key final))) in *.
  assert (Forall (λ x, utf8_valid (utf8 (ix_key x)) = true) (b_index b)) as Hval.
  { rewrite Hi. apply Forall_forall. intros x (i & Hx)%list_elem_of_lookup. destruct (Forall2_lookup_r _ _ _ _ _ Hf Hx) as (j & _ & e & He & ->).
    cbn. apply (Hp e). by eapply list_elem_of_lookup_2. }
  pose proof (footer_parses path (b_data b) ib bb (zlen es) lvl (me_key first) (me_key final) created (b_index b) (b_bloom b) Pa Pb
    (proj2 H1) (proj2 H2) (proj2 H3) H4 H5 Eix Hval Hde) as Hparse. cbv zeta in Hparse. fold A sizes F in Hparse.
  match type of Hparse with _ = Ok ?t => set (tbl := t) in *; exists tbl end. split.
  - unfold load_from_bytes.
    assert (unpack 4 (A ++ F) (zlen (A ++ F) - 4) = Ok _MAGIC_NUMBER) as ->.
    { apply (unpack_at _ (A ++ sizes ++ le_encode 4 a ++ utf8 (me_key first) ++ le_encode 4 b2 ++ utf8 (me_key final) ++ f_encode created) [] 4);
        [rewrite app_nil_r; subst F; unfold footer; pieces|rewrite Hlen; autorewrite with zlen; lia|done]. }
    replace (zlen (A ++ F) <? 4) with false by lia. replace (zlen (A ++ F) <? 12) with false by lia. cbn [raise_if rbind]. rewrite Z.eqb_refl. cbn [negb raise_if].
    pose proof (proj1 (proj2 Pa)) as La. pose proof (proj1 (proj2 Pb)) as Lb.
    assert (∃ rest, seqZ 52 (Z.min (zlen (A ++ F)) (52 + 65536) + 1 - 52) = seqZ 52 (a + b2) ++ (52 + a + b2) :: rest) as [rest ->].
    { set (m := Z.min _ _ + 1 - 52). assert (a + b2 < m) by (subst m a b2; lia). exists (seqZ (52 + (a + b2) + 1) (m - (a + b2) - 1)).
      replace m with ((a + b2) + (m - (a + b2))) by lia. rewrite seqZ_app by lia. f_equal. rewrite seqZ_cons by lia. f_equal; [lia|]. f_equal; lia. }
    assert (∀ x, x ∈ sizes → byte x) as Hbytes.
    { subst sizes. intros x. rewrite !elem_of_app. intros [?|[?|[?|[?|?]]]]; by eapply le_encode_byte. }
    pose proof (candidates_skipped A sizes (me_key first) (me_key final) created Hsz Hbytes Pa Pb Hempty path ((52 + a + b2) :: rest) (seqZ 52 (a + b2))) as Hskip.
    fold F in Hskip. rewrite Hskip by (intros c Hcin%elem_of_seqZ; subst a b2; lia).
    cbn [parse_footer_from_end]. replace (zlen (A ++ F) - (52 + a + b2)) with (zlen A) by lia.
      replace (zlen A <? 0) with false by lia. replace (zlen (A ++ F) <? zlen A + 24) with false by lia.
      assert (unpack 8 (A ++ F) (zlen A) = Ok (zlen (b_data b))) as -> by (apply (unpack_at _ A (le_encode 8 (zlen ib) ++ le_encode 8 (zlen bb) ++ le_encode 4 (zlen es) ++ le_encode 4 lvl
        ++ le_encode 4 a ++ utf8 (me_key first) ++ le_encode 4 b2 ++ utf8 (me_key final) ++ f_encode created ++ le_encode 4 _MAGIC_NUMBER) 8); [subst F sizes; unfold footer; pieces|done|exact H1]).
      assert (unpack 8 (A ++ F) (zlen A + 8) = Ok (zlen ib)) as -> by (apply (unpack_at _ (A ++ le_encode 8 (zlen (b_data b))) (le_encode 8 (zlen bb) ++ le_encode 4 (zlen es) ++ le_encode 4 lvl
        ++ le_encode 4 a ++ utf8 (me_key first) ++ le_encode 4 b2 ++ utf8 (me_key final) ++ f_encode created ++ le_encode 4 _MAGIC_NUMBER) 8);
        [subst F sizes; unfold footer; pieces|autorewrite with zlen; lia|exact H2]).
      assert (unpack 8 (A ++ F) (zlen A + 16) = Ok (zlen bb)) as -> by (apply (unpack_at _ (A ++ le_encode 8 (zlen (b_data b)) ++ le_encode 8 (zlen ib)) (le_encode 4 (zlen es) ++ le_encode 4 lvl
        ++ le_encode 4 a ++ utf8 (me_key first) ++ le_encode 4 b2 ++ utf8 (me_key final) ++ f_encode created ++ le_encode 4 _MAGIC_NUMBER) 8);
        [subst F sizes; unfold footer; pieces|autorewrite with zlen; lia|exact H3]).
      cbn [rbind]. replace (_ =? zlen A) with true by (subst A; autorewrite with zlen; lia). by rewrite Hparse.
  - split; try done. split; try done.
    + by rewrite Ees.
    + exists cs, js, (ib ++ bb ++ F). split; [done|]. split; [cbn; rewrite <- Hd; subst A; pieces|]. split; [by rewrite <- Hd|]. cbn [index tbl]. rewrite Hi.
      split; [|done|].
      * eapply Forall2_impl; [exact Hf|]. intros j x (e & He & ->). by exists e.
      * assert (0%nat ∈ js) as H0in by (apply Hj; split; [rewrite Ees; cbn; lia|done]). destruct Ho as [|j js Ho Hall]; [by apply not_elem_of_nil in H0in|].
        apply elem_of_cons in H0in as [<-|H0in]; [done|]. rewrite Forall_forall in Hall. specialize (Hall _ H0in). lia.
    + by rewrite Ees.
    + by rewrite El.
Qed.
End open.

(** C35: a written table is read back.  The bytes of sorted entries, each with a key that
    has no zero byte, open by the search of the footer from the end, whichever of the
    candidate sizes is tried first; the opened table lists exactly the entries, has the
    level, and answers every lookup - by filter, key range, sparse index and scan - with
    the entry of the key, or nothing exactly when no entry has it. *)
Theorem sstable_lookup {T} `{Time T} (hs : Hashing) path (es : list (@MemTableEntry T)) lvl created data :
  length (bloom_rate hs) = 8%nat → Forall entry_ok es → keys_ascend es → (∀ e, e ∈ es → plain (me_key e)) →
  encode_table hs es lvl created = Ok data →
  ∃ t, load_from_bytes path data = Ok t ∧ entries t = es ∧ level (metadata t) = lvl ∧ file_path (metadata t) = path ∧
    ∀ key, SSTable.get hs t key = Ok (lookup_key key es).
Proof.
  intros Hr Hok Hs Hp He. destruct (table_opens hs path es lvl created data Hr Hok Hs Hp He) as (t & Hl & [Hrep Hpath Hlvl _ _ _]).
  exists t. split; [done|]. split; [by eapply entries_ok|]. split; [done|]. split; [done|]. intros key. by apply get_ok.
Qed.

(** Parameters of the filters, for concrete inputs. *)
Definition demo_hashing : Hashing := mk_hashing (demo_digest 3) (demo_digest 5) (λ _, 24) (λ _, 2) (replicate 8 0).

Import Seconds.
Lemma sstable_lookup_witness :
  let es := [mk_entry "a" (Some [1; 2]) 5 false; mk_entry "b" None 7 true] in
  ∃ data t, encode_table demo_hashing es 0 9 = Ok data ∧ load_from_bytes "t" data = Ok t ∧
    SSTable.get demo_hashing t "b" = Ok (Some (mk_entry "b" None 7 true)) ∧ SSTable.get demo_hashing t "c" = Ok None.
Proof.
  intros es. eexists.
  edestruct (sstable_lookup demo_hashing "t" es 0 9) as (t & Hl & _ & _ & _ & Hg).
  - reflexivity.
  - repeat constructor; intros; discriminate.
  - repeat constructor.
  - intros e [->|[->|[]%not_elem_of_nil]%elem_of_cons]%elem_of_cons.
    all: split; [vm_compute; reflexivity|split; [vm_compute; discriminate|]].
    all: intros x [->|[]%not_elem_of_nil]%elem_of_cons; vm_compute; discriminate.
  - vm_compute. reflexivity.
  - exists t. split; [vm_compute; reflexivity|]. split; [exact Hl|]. split; [rewrite Hg|rewrite Hg]; vm_compute; reflexivity.
Defined.
