(* ===== verification/Wal.v ===== *)
(** * The write-ahead log

    Models src/key-value-store/src/kv_store/storage/wal.py: entries as length-prefixed
    frames with a checksum, and the replay that skips frames that do not check and cuts
    off an incomplete end.  The file is its bytes; what a failing write leaves is in
    Engine.v.  The checksum of zlib is a parameter. *)
From S2P Require Import Prelude PyList Bloom Codec.
Local Open Scope Z_scope.

Inductive WALEntryType := PUT | DELETE.

Section wal.
Context {T : Type} `{Time T} (crc32 : list Z → Z).

Record WALEntry := mk_wal {
  sequence_number : Z;
  entry_type : WALEntryType;
  w_key : string;
  w_value : option (list Z);
  w_timestamp : T;
}.

Definition type_byte (t : WALEntryType) : Z := match t with PUT => 0 | DELETE => 1 end.
Definition byte_type (b : Z) : option WALEntryType := if b =? 0 then Some PUT else if b =? 1 then Some DELETE else None.

Definition checksum (data : list Z) : Z := Z.land (crc32 data) 0xFFFFFFFF.

(** [_serialize_entry] *)
Definition serialize_entry (e : WALEntry) : result (list Z) :=
  let key_bytes := utf8 (w_key e) in
  let value_bytes := default [] (w_value e) in
  let* number := pack 8 (sequence_number e) in
  let* key_len := pack 4 (zlen key_bytes) in
  let* value_len := pack 4 (zlen value_bytes) in
  let checksummed := number ++ [type_byte (entry_type e)] ++ key_len ++ key_bytes ++ value_len ++ value_bytes ++ f_encode (w_timestamp e) in
  let* sum := pack 4 (checksum checksummed) in
  let payload := checksummed ++ sum in
  let* len := pack 4 (zlen payload) in
  Ok (len ++ payload).

(** [_deserialize_entry]; [None] for a frame that is skipped *)
Definition deserialize_entry (data : list Z) : result (option WALEntry) :=
  if zlen data <? 4 then Ok None else
  let checksummed := slice data 0 (zlen data - 4) in
  let* stored := unpack 4 data (zlen data - 4) in
  if negb (checksum checksummed =? stored) then Ok None else
  let n := zlen checksummed in
  if n <? 9 then Ok None else
  let* number := unpack 8 checksummed 0 in
  let* kind := unpack 1 checksummed 8 in
  match byte_type kind with
  | None => Ok None
  | Some kind =>
      if n <? 9 + 4 then Ok None else
      let* key_len := unpack 4 checksummed 9 in
      let pos := 13 in
      if n <? pos + key_len then Ok None else
      let* key := decode (slice checksummed pos (pos + key_len)) in
      let pos := pos + key_len in
      if n <? pos + 4 then Ok None else
      let* value_len := unpack 4 checksummed pos in
      let pos := pos + 4 in
      if n <? pos + value_len then Ok None else
      let value := if 0 <? value_len then Some (slice checksummed pos (pos + value_len)) else None in
      let pos := pos + value_len in
      if n <? pos + 8 then Ok None else
      Ok (Some (mk_wal number kind key value (f_decode (slice checksummed pos (pos + 8)))))
  end.

(** [_read_all_entries]: the entries and the end of the last complete frame *)
Fixpoint read_frames (fuel : nat) (data : list Z) (offset complete_end : Z) : result (list WALEntry * Z) :=
  if zlen data <=? offset then Ok ([], complete_end) else
  match fuel with
  | O => Raise OutOfFuel
  | S fuel' =>
      if zlen data <? offset + 4 then Ok ([], complete_end) else
      let* len := unpack 4 data offset in
      let offset := offset + 4 in
      if zlen data <? offset + len then Ok ([], complete_end) else
      let* entry := deserialize_entry (slice data offset (offset + len)) in
      let offset := offset + len in
      let* rest := read_frames fuel' data offset offset in
      Ok (match entry with Some e => e :: rest.1 | None => rest.1 end, rest.2)
  end.
Definition read_all_entries (data : list Z) : result (list WALEntry * Z) := read_frames (length data) data 0 0.
End wal.
Arguments WALEntry T : clear implicits.

(** ** A log of whole frames and a torn end is replayed to its entries *)

Section replay.
Context {T : Type} `{Time T} (crc32 : list Z → Z).
Local Notation Entry := (WALEntry T).
Implicit Types w : Entry.

(** What an entry is after its frame: an empty value is [None]. *)
Definition normal w : Entry :=
  mk_wal (sequence_number w) (entry_type w) (w_key w)
    (match w_value w with Some (_ :: _) => w_value w | _ => None end) (w_timestamp w).

Definition wal_ok w : Prop := utf8_valid (utf8 (w_key w)) = true ∧ finite_time (w_timestamp w) = true.

Lemma checksum_range data : 0 <= checksum crc32 data < 256 ^ 4.
Proof.
  unfold checksum. change 0xFFFFFFFF with (Z.ones 32). rewrite Z.land_ones by lia. change (256 ^ 4) with (2 ^ 32). apply Z.mod_pos_bound. lia.
Qed.

Lemma serialize_entry_inv w frame : serialize_entry crc32 w = Ok frame →
  ∃ body, frame = le_encode 4 (zlen body + 4) ++ body ++ le_encode 4 (checksum crc32 body) ∧ zlen body + 4 < 256 ^ 4 ∧
    body = le_encode 8 (sequence_number w) ++ le_encode 1 (type_byte (entry_type w)) ++ le_encode 4 (zlen (utf8 (w_key w))) ++ utf8 (w_key w)
      ++ le_encode 4 (zlen (default [] (w_value w))) ++ default [] (w_value w) ++ f_encode (w_timestamp w) ∧
    0 <= sequence_number w < 256 ^ 8.
Proof.
  unfold serialize_entry. destruct (pack 8 _) as [n|] eqn:E1; [|done]. cbn [rbind]. destruct (pack 4 (zlen (utf8 _))) as [kl|] eqn:E2; [|done]. cbn [rbind].
  destruct (pack 4 (zlen (default [] _))) as [vl|] eqn:E3; [|done]. cbn [rbind]. apply pack_inv in E1 as [-> H1], E2 as [-> H2], E3 as [-> H3].
  set (body := le_encode 8 _ ++ _). destruct (pack 4 (checksum crc32 body)) as [s|] eqn:E4; [|done]. cbn [rbind]. apply pack_inv in E4 as [-> H4].
  destruct (pack 4 (zlen _)) as [l|] eqn:E5; [|done]. cbn [rbind]. apply pack_inv in E5 as [-> H5]. intros <-%Ok_inj.
  assert (zlen (body ++ le_encode 4 (checksum crc32 body)) = zlen body + 4) as El by (autorewrite with zlen; lia). rewrite El in *. exists body. split; [done|]. split; [exact (proj2 H5)|]. split; [|exact H1].
  subst body. by destruct (entry_type w).
Qed.

Lemma frame_length w frame : serialize_entry crc32 w = Ok frame → 29 <= zlen frame.
Proof.
  intros (body & -> & _ & -> & _)%serialize_entry_inv. autorewrite with zlen.
  pose proof (zlen_nonneg (utf8 (w_key w))). pose proof (zlen_nonneg (default [] (w_value w))). lia.
Qed.

Lemma deserialize_body w body :
  body = le_encode 8 (sequence_number w) ++ le_encode 1 (type_byte (entry_type w)) ++ le_encode 4 (zlen (utf8 (w_key w))) ++ utf8 (w_key w)
      ++ le_encode 4 (zlen (default [] (w_value w))) ++ default [] (w_value w) ++ f_encode (w_timestamp w) →
  0 <= sequence_number w < 256 ^ 8 → zlen body < 256 ^ 4 → wal_ok w →
  deserialize_entry crc32 (body ++ le_encode 4 (checksum crc32 body)) = Ok (Some (normal w)).
Proof.
  intros Hb Hn Hlen [Hv Ht]. unfold deserialize_entry. pose proof (zlen_nonneg (utf8 (w_key w))) as P1. pose proof (zlen_nonneg (default [] (w_value w))) as P2.
  assert (zlen body = 25 + zlen (utf8 (w_key w)) + zlen (default [] (w_value w))) as Hl by (rewrite Hb; autorewrite with zlen; lia).
  set (data := body ++ _). assert (zlen data = zlen body + 4) as Hd by (subst data; autorewrite with zlen; lia).
  replace (zlen data - 4) with (zlen body) by lia. replace (zlen data <? 4) with false by lia.
  assert (slice data 0 (zlen body) = body) as -> by (apply (slice_mid [] body (le_encode 4 (checksum crc32 body))); done).
  assert (unpack 4 data (zlen body) = Ok (checksum crc32 body)) as ->
    by (apply (unpack_at data body [] 4); [by rewrite app_nil_r|done|apply checksum_range]).
  cbn [rbind]. rewrite Z.eqb_refl. cbn [negb]. cbv zeta.
  set (kb := utf8 (w_key w)) in *. set (vb := default [] (w_value w)) in *. set (n8 := le_encode 8 (sequence_number w)) in *. set (tb := le_encode 1 (type_byte (entry_type w))) in *.
  set (kl := le_encode 4 (zlen kb)) in *. set (vl := le_encode 4 (zlen vb)) in *. set (ct := f_encode (w_timestamp w)) in *.
  assert (zlen n8 = 8 ∧ zlen tb = 1 ∧ zlen kl = 4 ∧ zlen vl = 4 ∧ zlen ct = 8) as (L1 & L2 & L3 & L4 & L5) by (subst n8 tb kl vl ct; autorewrite with zlen; done).
  assert (unpack 8 body 0 = Ok (sequence_number w)) as -> by (rewrite Hb; apply (unpack_mid [] _ 8); exact Hn).
  assert (unpack 1 body 8 = Ok (type_byte (entry_type w))) as -> by (rewrite Hb; replace 8 with (zlen n8); apply (unpack_mid n8 _ 1); by destruct (entry_type w)).
  replace (zlen body <? 9) with false by lia. cbn [rbind].
  assert (byte_type (type_byte (entry_type w)) = Some (entry_type w)) as -> by (by destruct (entry_type w)).
  replace (zlen body <? 9 + 4) with false by lia.
  assert (unpack 4 body 9 = Ok (zlen kb)) as ->.
  { rewrite Hb. replace (n8 ++ tb ++ kl ++ kb ++ vl ++ vb ++ ct) with ((n8 ++ tb) ++ kl ++ (kb ++ vl ++ vb ++ ct)) by (by rewrite <- !app_assoc).
    replace 9 with (zlen (n8 ++ tb)) by (autorewrite with zlen; lia). apply (unpack_mid (n8 ++ tb) _ 4). change (256 ^ Z.of_nat 4) with (256 ^ 4). lia. }
  cbn [rbind]. replace (zlen body <? 13 + zlen kb) with false by lia.
  assert (slice body 13 (13 + zlen kb) = kb) as ->.
  { rewrite Hb. replace (n8 ++ tb ++ kl ++ kb ++ vl ++ vb ++ ct) with ((n8 ++ tb ++ kl) ++ kb ++ (vl ++ vb ++ ct)) by (by rewrite <- !app_assoc).
    apply slice_mid; autorewrite with zlen; lia. }
  rewrite (decode_utf8 _ Hv : decode kb = _). cbn [rbind]. replace (zlen body <? 13 + zlen kb + 4) with false by lia.
  assert (unpack 4 body (13 + zlen kb) = Ok (zlen vb)) as ->.
  { rewrite Hb. replace (n8 ++ tb ++ kl ++ kb ++ vl ++ vb ++ ct) with ((n8 ++ tb ++ kl ++ kb) ++ vl ++ (vb ++ ct)) by (by rewrite <- !app_assoc).
    replace (13 + zlen kb) with (zlen (n8 ++ tb ++ kl ++ kb)) by (autorewrite with zlen; lia). apply (unpack_mid _ _ 4). change (256 ^ Z.of_nat 4) with (256 ^ 4). lia. }
  cbn [rbind]. replace (zlen body <? 13 + zlen kb + 4 + zlen vb) with false by lia. replace (zlen body <? 13 + zlen kb + 4 + zlen vb + 8) with false by lia.
  assert (slice body (13 + zlen kb + 4) (13 + zlen kb + 4 + zlen vb) = vb) as ->.
  { rewrite Hb. replace (n8 ++ tb ++ kl ++ kb ++ vl ++ vb ++ ct) with ((n8 ++ tb ++ kl ++ kb ++ vl) ++ vb ++ ct) by (by rewrite <- !app_assoc).
    apply slice_mid; autorewrite with zlen; lia. }
  assert (slice body (13 + zlen kb + 4 + zlen vb) (13 + zlen kb + 4 + zlen vb + 8) = ct) as ->.
  { rewrite Hb. replace (n8 ++ tb ++ kl ++ kb ++ vl ++ vb ++ ct) with ((n8 ++ tb ++ kl ++ kb ++ vl ++ vb) ++ ct ++ []) by (by rewrite app_nil_r, <- !app_assoc).
    apply slice_mid; autorewrite with zlen; lia. }
  subst ct. unfold finite_time in Ht. apply andb_true_iff in Ht as [Ht1 Ht2]. rewrite f_decode_encode by done.
  unfold normal. do 3 f_equal. subst vb. destruct (w_value w) as [[|v vs]|]; done.
Qed.

(** Whole frames of [ws], and what a torn write left behind them. *)
Definition frames (ws : list Entry) (fs : list (list Z)) : Prop := Forall2 (λ w f, serialize_entry crc32 w = Ok f ∧ wal_ok w) ws fs.
Definition torn (tail : list Z) : Prop := tail = [] ∨ ∃ w f n, serialize_entry crc32 w = Ok f ∧ (n < length f)%nat ∧ tail = take n f.

Lemma torn_stops tail pre fuel e :
  torn tail → (tail = [] ∨ fuel ≠ O) → read_frames crc32 fuel (pre ++ tail) (zlen pre) e = Ok ([], e).
Proof.
  intros Ht Hf. destruct (decide (tail = [])) as [->|Hne].
  { rewrite app_nil_r. destruct fuel; cbn [read_frames]; by rewrite Z.leb_refl. }
  destruct Hf as [|Hf]; [done|]. destruct fuel as [|fuel]; [done|]. cbn [read_frames].
  destruct Ht as [|(w & f & n & Hs & Hn & ->)]; [done|]. destruct (serialize_entry_inv _ _ Hs) as (body & -> & Hl & Hb & _). pose proof (zlen_nonneg pre) as P.
  set (f := le_encode 4 (zlen body + 4) ++ body ++ le_encode 4 (checksum crc32 body)) in *.
  assert (zlen f = zlen body + 8) as Hf' by (subst f; autorewrite with zlen; lia).
  assert (zlen (take n f) = Z.of_nat n) as Hn' by (unfold zlen; rewrite length_take; lia). pose proof (zlen_nonneg body).
  destruct (zlen (pre ++ take n f) <=? zlen pre) eqn:E0; [done|]. rewrite zlen_app, Hn'. destruct (_ <? zlen pre + 4) eqn:E1; [done|].
  assert (take n f = le_encode 4 (zlen body + 4) ++ take (n - 4) (body ++ le_encode 4 (checksum crc32 body))) as Etk.
  { subst f. rewrite take_app_ge by (rewrite le_encode_length; lia). by rewrite le_encode_length. }
  assert (unpack 4 (pre ++ take n f) (zlen pre) = Ok (zlen body + 4)) as -> by (rewrite Etk; apply (unpack_mid pre _ 4); split; [lia|exact Hl]).
  cbn [rbind]. assert ((zlen pre + Z.of_nat n <? zlen pre + 4 + (zlen body + 4)) = true) as -> by (unfold zlen in *; lia). done.
Qed.

(** The bytes of one frame of the log and what is read of it: an entry as it was
    appended, or any bytes behind a checksum that is not theirs. *)
Inductive framed : list Z → option Entry → Prop :=
| framed_entry w f : serialize_entry crc32 w = Ok f → wal_ok w → framed f (Some (normal w))
| framed_corrupt body sum : zlen body + 4 < 256 ^ 4 → 0 <= sum < 256 ^ 4 → sum ≠ checksum crc32 body →
    framed (le_encode 4 (zlen body + 4) ++ body ++ le_encode 4 sum) None.

Lemma framed_payload f o : framed f o →
  ∃ body sum, f = le_encode 4 (zlen body + 4) ++ body ++ le_encode 4 sum ∧ zlen body + 4 < 256 ^ 4 ∧ deserialize_entry crc32 (body ++ le_encode 4 sum) = Ok o.
Proof.
  destruct 1 as [w f Hs Hok|body sum Hl Hsum Hne].
  - destruct (serialize_entry_inv _ _ Hs) as (body & -> & Hl & Hb & Hn). exists body, (checksum crc32 body). split; [done|]. split; [done|].
    pose proof (frame_length _ _ Hs) as H29. autorewrite with zlen in H29. apply (deserialize_body w body Hb Hn); [lia|done].
  - exists body, sum. split; [done|]. split; [done|]. pose proof (zlen_nonneg body). unfold deserialize_entry. rewrite !zlen_app, zlen_encode. change (Z.of_nat 4) with 4.
    replace (zlen body + 4 <? 4) with false by (clear -H1; lia). replace (zlen body + 4 - 4) with (zlen body) by lia.
    rewrite (slice_at _ [] body (le_encode 4 sum)) by (done || places).
    assert (unpack 4 (body ++ le_encode 4 sum) (zlen body) = Ok sum) as -> by (apply (unpack_at _ body [] 4); [by rewrite app_nil_r|done|exact Hsum]). cbn [rbind].
    by rewrite (proj2 (Z.eqb_neq _ _)) by done.
Qed.

Lemma read_frames_ok fs os tail pre fuel e :
  Forall2 framed fs os → torn tail → (length (concat fs) + length tail ≤ fuel)%nat →
  read_frames crc32 fuel (pre ++ concat fs ++ tail) (zlen pre) e =
    Ok (omap id os, match fs with [] => e | _ => zlen pre + zlen (concat fs) end).
Proof.
  intros Hf Ht. revert pre fuel e. induction Hf as [|f o fs os Hfo Hf IH]; intros pre fuel e Hfu.
  { cbn [concat app omap list_omap]. apply torn_stops; [done|]. destruct tail; [by left|]. cbn in Hfu. right. lia. }
  destruct (framed_payload _ _ Hfo) as (body & sum & Ef & Hl & Hde). cbn [concat] in *. pose proof (zlen_nonneg body) as P1.
  assert (zlen f = zlen body + 8) as Hf' by (rewrite Ef; autorewrite with zlen; lia).
  rewrite length_app in Hfu. destruct fuel as [|fuel]; [unfold zlen in Hf'; lia|]. cbn [read_frames].
  set (data := pre ++ (f ++ concat fs) ++ tail). pose proof (zlen_nonneg (concat fs)) as P2. pose proof (zlen_nonneg tail) as P3. pose proof (zlen_nonneg pre) as P4.
  assert (zlen data = zlen pre + (zlen body + 8) + zlen (concat fs) + zlen tail) as Hd by (subst data; autorewrite with zlen; lia).
  replace (zlen data <=? zlen pre) with false by lia. replace (zlen data <? zlen pre + 4) with false by lia.
  assert (unpack 4 data (zlen pre) = Ok (zlen body + 4)) as ->.
  { subst data. rewrite Ef. rewrite <- !app_assoc. apply (unpack_mid pre _ 4). split; [lia|exact Hl]. }
  cbn [rbind]. replace (zlen data <? zlen pre + 4 + (zlen body + 4)) with false by lia.
  assert (slice data (zlen pre + 4) (zlen pre + 4 + (zlen body + 4)) = body ++ le_encode 4 sum) as ->.
  { apply (slice_at _ (pre ++ le_encode 4 (zlen body + 4)) _ (concat fs ++ tail)); [subst data; rewrite Ef; rewrite <- !app_assoc; reflexivity|places..]. }
  rewrite Hde. cbn [rbind].
  replace (zlen pre + 4 + (zlen body + 4)) with (zlen (pre ++ f)) by (autorewrite with zlen; lia).
  assert (data = (pre ++ f) ++ concat fs ++ tail) as -> by (subst data; pieces).
  rewrite (IH (pre ++ f) fuel (zlen (pre ++ f))) by (unfold zlen in Hf'; lia). cbn [rbind fst snd]. do 2 f_equal.
  destruct fs; cbn [concat]; rewrite ?app_nil_r; autorewrite with zlen; lia.
Qed.

Lemma read_framed fs os tail : Forall2 framed fs os → torn tail → read_all_entries crc32 (concat fs ++ tail) = Ok (omap id os, zlen (concat fs)).
Proof.
  intros Hf Ht. unfold read_all_entries.
  pose proof (read_frames_ok fs os tail [] (length (concat fs ++ tail)) 0 Hf Ht) as E. rewrite length_app in *. specialize (E ltac:(lia)).
  cbn [app] in E. change (zlen []) with 0 in E. rewrite E. do 2 f_equal. by destruct fs.
Qed.

Lemma read_all_ok ws fs tail :
  frames ws fs → torn tail → read_all_entries crc32 (concat fs ++ tail) = Ok (normal <$> ws, zlen (concat fs)).
Proof.
  intros Hf Ht. rewrite (read_framed fs (Some <$> (normal <$> ws)) tail); [|clear Ht|done].
  - do 2 f_equal. clear Hf. induction ws as [|w ws IH]; [done|]. rewrite !fmap_cons. cbn. f_equal. exact IH.
  - induction Hf as [|w f ws fs [Hs Hok] Hf IH]; constructor; [by constructor|done].
Qed.
End replay.

(** C36: the log is read back.  Replay of frames, each an appended entry or bytes whose
    checksum does not match, with the beginning of one more frame at the end, raises
    nothing and returns exactly the appended entries in their order, and the length of
    the whole frames, which is where the file is cut. *)
Theorem wal_replay {T} `{Time T} (crc32 : list Z → Z) fs os tail :
  Forall2 (framed crc32) fs os → torn crc32 tail → read_all_entries crc32 (concat fs ++ tail) = Ok (omap id os, zlen (concat fs)).
Proof. apply read_framed. Qed.

Import Seconds.
Lemma wal_replay_witness :
  let w := mk_wal 1 PUT "k" (Some [7; 8]) 5 in let v := mk_wal 2 DELETE "kk" None 6 in
  ∃ f g, serialize_entry (foldr Z.add 0) w = Ok f ∧ serialize_entry (foldr Z.add 0) v = Ok g ∧
    read_all_entries (foldr Z.add 0) (concat [f; le_encode 4 5 ++ [9] ++ le_encode 4 8; g] ++ take 30 f) = Ok ([w; v], 80).
Proof.
  intros w v. do 2 eexists. split; [vm_compute; reflexivity|]. split; [vm_compute; reflexivity|].
  match goal with |- read_all_entries _ (concat [?f; ?b; ?g] ++ ?tail) = _ =>
    pose proof (wal_replay (foldr Z.add 0) [f; b; g] [Some w; None; Some v] tail) as Hw end.
  etransitivity; [apply Hw|vm_compute; reflexivity].
  - constructor; [apply (framed_entry _ w); [vm_compute; reflexivity|split; vm_compute; reflexivity]|].
    constructor; [apply (framed_corrupt _ [9] 8); [vm_compute; reflexivity|split; vm_compute; [discriminate|reflexivity]|intros E; vm_compute in E; discriminate]|].
    constructor; [apply (framed_entry _ v); [vm_compute; reflexivity|split; vm_compute; reflexivity]|constructor].
  - right. eexists w, _, 30%nat. split; [vm_compute; reflexivity|]. split; [|reflexivity]. cbn. lia.
Defined.
