(* ===== verification/Compaction.v ===== *)
(** * Compaction

    Models src/key-value-store/src/kv_store/storage/compaction.py: the choice of the
    level to compact and the merge of its tables by a heap of iterators.  What is left
    of an iterator is the list of its entries; the key of an item of the heap is
    [(key, -timestamp, idx)]. *)
From S2P Require Import Prelude PyList PyDict Bloom MemTable Codec SSTable SSTableRead.

(** [-timestamp] as a key *)
Inductive Negated (T : Type) := negated (t : T).
Arguments negated {T} t.
#[export] Program Instance negated_pyord {T} `{PyOrd T} : PyOrd (Negated T) :=
  {| pyle x y := let 'negated a := x in let 'negated b := y in pyle b a |}.
Next Obligation. intros T ? [x] [y]. apply pyle_total. Qed.
Next Obligation. intros T ? [x] [y] [z] H1 H2. exact (pyle_trans _ _ _ H2 H1). Qed.
Next Obligation. intros T ? [x] [y] H1 H2. f_equal. by apply pyle_antisym. Qed.

Section compaction.
Context {T : Type} `{Time T}.
Local Notation Entry := (@MemTableEntry T).
Implicit Types (e x y : Entry) (expired : T → bool).

Record Item := mk_item { it_entry : Entry; it_index : nat; it_rest : list Entry }.
Definition item_key (i : Item) : string * (Negated T * nat) := (me_key (it_entry i), (negated (me_timestamp (it_entry i)), it_index i)).

(** The next entry of an iterator, if any, is pushed. *)
Definition push (idx : nat) (es : list Entry) (heap : list Item) : list Item :=
  match es with [] => heap | e :: rest => heappush item_key (mk_item e idx rest) heap end.

Fixpoint initial_heap (idx : nat) (tables : list (list Entry)) (heap : list Item) : list Item :=
  match tables with [] => heap | es :: tables' => initial_heap (S idx) tables' (push idx es heap) end.

(** The loop; [expired] tells of the time of a tombstone whether its grace period is over. *)
Fixpoint merge_loop expired (fuel : nat) (heap : list Item) (last_key : option string) : list Entry :=
  match fuel, heappop heap with
  | S fuel', Some (i, heap') =>
      let heap' := push (it_index i) (it_rest i) heap' in
      let key := me_key (it_entry i) in
      if bool_decide (Some key = last_key) then merge_loop expired fuel' heap' last_key
      else if is_tombstone (it_entry i) && expired (me_timestamp (it_entry i)) then merge_loop expired fuel' heap' (Some key)
      else it_entry i :: merge_loop expired fuel' heap' (Some key)
  | _, _ => []
  end.

Definition _k_way_merge expired (tables : list (list Entry)) : list Entry :=
  merge_loop expired (length (concat tables)) (initial_heap 0 tables []) None.

(** [maybe_compact]: the tables of the first level that reaches the threshold. *)
Definition levels (tables : list (SSTable T)) : list Z := sort_by (λ l, l) (remove_dups ((λ t, level (metadata t)) <$> tables)).
Definition at_level (l : Z) (tables : list (SSTable T)) : list (SSTable T) := filter (λ t, level (metadata t) = l) tables.
Definition level_to_compact (threshold : Z) (tables : list (SSTable T)) : option Z :=
  head (filter (λ l, (threshold <= zlen (at_level l tables))%Z) (levels tables)).

(** ** The merge keeps the newest entry of every key *)

Definition stream (i : Item) : list Entry := it_entry i :: it_rest i.
Definition pool (heap : list Item) : list Entry := concat (stream <$> heap).

Record heap_ok (heap : list Item) (last_key : option string) : Prop := {
  ho_order : ordered item_key heap;
  ho_streams : Forall (λ i, keys_ascend (stream i)) heap;
  ho_last : ∀ k x, last_key = Some k → x ∈ pool heap → pyle k (me_key x) = true;
}.

Lemma pool_perm h1 h2 : h1 ≡ₚ h2 → pool h1 ≡ₚ pool h2.
Proof. intros Hp. unfold pool. by rewrite Hp. Qed.

Lemma push_perm idx es heap : pool (push idx es heap) ≡ₚ es ++ pool heap.
Proof. destruct es as [|e rest]; [done|]. cbn [push]. unfold heappush. by rewrite (pool_perm _ _ (insert_by_perm _ _ _)). Qed.

Lemma elem_of_pool x heap : x ∈ pool heap ↔ ∃ i, i ∈ heap ∧ x ∈ stream i.
Proof.
  unfold pool. rewrite list_elem_of_In, in_concat. setoid_rewrite <- list_elem_of_In. split.
  - intros (l & (i & -> & Hi)%list_elem_of_fmap & Hx). eauto.
  - intros (i & Hi & Hx). exists (stream i). split; [by apply list_elem_of_fmap_2|done].
Qed.

Lemma push_ok idx es heap last_key :
  keys_ascend es → heap_ok heap last_key → (∀ k x, last_key = Some k → x ∈ es → pyle k (me_key x) = true) → heap_ok (push idx es heap) last_key.
Proof.
  intros Hs [Ho Hst Hl] Hes. split.
  - destruct es; [done|]. by apply insert_by_ordered.
  - destruct es; [done|]. cbn [push]. unfold heappush. rewrite insert_by_perm. by constructor.
  - intros k x Hk. rewrite push_perm, elem_of_app. naive_solver.
Qed.

Lemma pop_least i heap last_key x : heap_ok (i :: heap) last_key → x ∈ pool (i :: heap) →
  pyle (me_key (it_entry i)) (me_key x) = true ∧ (me_key x = me_key (it_entry i) → pyle (me_timestamp x) (me_timestamp (it_entry i)) = true).
Proof.
  intros [Ho Hst _] (j & Hj & Hx)%elem_of_pool. rewrite Forall_forall in Hst. specialize (Hst j Hj).
  assert (pyle (item_key i) (item_key j) = true) as Hij.
  { apply elem_of_cons in Hj as [->|Hj]; [apply pyle_refl|]. inversion Ho as [|? ? _ Hall]. rewrite Forall_forall in Hall. by apply Hall. }
  apply pair_pyle in Hij. unfold item_key in Hij. cbn [fst snd] in Hij.
  assert (pyle (me_key (it_entry i)) (me_key (it_entry j)) = true) as H1 by (destruct Hij as [Hlt|[-> _]]; [by apply pylt_le|apply pyle_refl]).
  unfold stream in Hx. apply elem_of_cons in Hx as [->|Hx].
  - split; [done|]. intros E. destruct Hij as [Hlt|[_ Hts]]; [by rewrite E, pylt_irrefl in Hlt|].
    apply pair_pyle in Hts as [Hts%pylt_le|[E' _]]; [done|]. injection E' as E'. cbn [fst] in *. rewrite E'. apply pyle_refl.
  - inversion Hst as [|? ? _ Hall]. rewrite Forall_forall in Hall. specialize (Hall x Hx). cbn in Hall.
    split; [eapply pyle_trans; [exact H1|by apply pylt_le]|]. intros E. exfalso. rewrite E in Hall.
    pose proof (pyle_lt_trans _ _ _ H1 Hall) as Hlt. by rewrite pylt_irrefl in Hlt.
Qed.

Record merged expired (src : list Entry) (last_key : option string) (out : list Entry) : Prop := {
  mg_order : keys_ascend out;
  mg_above : ∀ k x, last_key = Some k → x ∈ out → pylt k (me_key x) = true;
  mg_sound : ∀ x, x ∈ out → x ∈ src;
  mg_max : ∀ x z, x ∈ out → z ∈ src → me_key z = me_key x → pyle (me_timestamp z) (me_timestamp x) = true;
  mg_newest : ∀ x, x ∈ src → last_key ≠ Some (me_key x) → ∃ y, y ∈ src ∧ me_key y = me_key x ∧ pyle (me_timestamp x) (me_timestamp y) = true ∧
    (y ∈ out ∨ is_tombstone y = true ∧ expired (me_timestamp y) = true);
}.

Lemma merged_nil expired last_key : merged expired [] last_key [].
Proof. split; [constructor|intros ? ? _ []%not_elem_of_nil|intros ? []%not_elem_of_nil|intros ? ? []%not_elem_of_nil|intros ? []%not_elem_of_nil]. Qed.

Lemma heap_merge_ok expired fuel heap last_key :
  heap_ok heap last_key → length (pool heap) ≤ fuel → merged expired (pool heap) last_key (merge_loop expired fuel heap last_key).
Proof.
  revert heap last_key. induction fuel as [|fuel IH]; intros heap last_key Hh Hf.
  { destruct heap; [apply merged_nil|cbn in Hf; lia]. }
  destruct heap as [|i heap]; [apply merged_nil|]. cbn [merge_loop heappop].
  set (heap' := push (it_index i) (it_rest i) heap). set (e := it_entry i).
  assert (pool (i :: heap) ≡ₚ e :: pool heap') as Hp by (unfold heap'; rewrite push_perm; done).
  assert (∀ x, x ∈ pool (i :: heap) → _) as Hleast by (intros x; exact (pop_least i heap last_key x Hh)). fold e in Hleast.
  assert (∀ lk, (∀ k x, lk = Some k → x ∈ pool heap' → pyle k (me_key x) = true) → heap_ok heap' lk) as Hok'.
  { intros lk Hlk. destruct Hh as [Ho Hst _]. inversion Ho; subst. inversion Hst as [|? ? Hi Hst']; subst. unfold heap'. inversion Hi; subst.
    apply push_ok; [done|split; [done|done|]|]; intros k x Hk Hx; apply (Hlk k x Hk); unfold heap'; rewrite push_perm, elem_of_app; auto. }
  assert (length (pool heap') ≤ fuel) as Hf' by (rewrite Hp in Hf; cbn in Hf; lia).
  case_bool_decide as Hlk.
  - destruct (IH heap' last_key) as [H1 H2 H3 Hm H4]; [|done|].
    { apply Hok'. intros k x Hk Hx. apply (ho_last _ _ Hh k x Hk). rewrite Hp. by right. }
    split; [done|done|intros x Hx; rewrite Hp; right; auto| |].
    { intros x z Hx Hz Ek. rewrite Hp in Hz. apply elem_of_cons in Hz as [->|Hz]; [|by apply Hm].
      pose proof (H2 _ x (eq_sym Hlk) Hx) as Hlt. rewrite <- Ek, pylt_irrefl in Hlt. done. }
    intros x. rewrite Hp. intros [->|Hx]%elem_of_cons Hne; [congruence|].
    destruct (H4 x Hx Hne) as (y & Hy & ?). exists y. split; [rewrite Hp; by right|done].
  - destruct (IH heap' (Some (me_key e))) as [H1 H2 H3 Hm H4]; [|done|].
    { apply Hok'. intros k x [= <-] Hx. apply Hleast. rewrite Hp. by right. }
    assert (∀ k, last_key = Some k → pylt k (me_key e) = true) as Hlt.
    { intros k Hk. apply pylt_spec. split; [|congruence]. apply (ho_last _ _ Hh k e Hk). rewrite Hp. by left. }
    assert (∀ out : list Entry, (e ∈ out ∨ is_tombstone e = true ∧ expired (me_timestamp e) = true) → (∀ x, x ∈ merge_loop expired fuel heap' (Some (me_key e)) → x ∈ out) →
      ∀ x, x ∈ pool (i :: heap) → last_key ≠ Some (me_key x) → ∃ y, y ∈ pool (i :: heap) ∧ me_key y = me_key x ∧
      pyle (me_timestamp x) (me_timestamp y) = true ∧ (y ∈ out ∨ is_tombstone y = true ∧ expired (me_timestamp y) = true)) as Hnew.
    { intros out Hout Hsub x Hx _. destruct (decide (me_key x = me_key e)) as [E|E].
      - exists e. destruct (Hleast x Hx) as [_ Hts]. split; [rewrite Hp; by left|]. split; [done|]. split; [by apply Hts|done].
      - rewrite Hp in Hx. apply elem_of_cons in Hx as [->|Hx]; [done|]. destruct (H4 x Hx ltac:(congruence)) as (y & Hy & Hk & Hts & Ho).
        exists y. split; [rewrite Hp; by right|]. split; [done|]. split; [done|]. destruct Ho; auto. }
    assert (∀ x z, x ∈ merge_loop expired fuel heap' (Some (me_key e)) → z ∈ pool (i :: heap) → me_key z = me_key x → pyle (me_timestamp z) (me_timestamp x) = true) as Hmax.
    { intros x z Hx Hz Ek. rewrite Hp in Hz. apply elem_of_cons in Hz as [->|Hz]; [|by apply Hm].
      pose proof (H2 _ x eq_refl Hx) as Hlt'. rewrite <- Ek, pylt_irrefl in Hlt'. done. }
    destruct (is_tombstone e && _) eqn:Ex.
    + split; [done| |intros x Hx; rewrite Hp; right; auto|done|apply Hnew; [right; by apply andb_true_iff|done]].
      intros k x Hk Hx. eapply pylt_trans; [by apply Hlt|]. by apply (H2 _ x eq_refl).
    + split.
      * constructor; [done|]. apply Forall_forall. intros x Hx. by apply (H2 _ x eq_refl).
      * intros k x Hk [->|Hx]%elem_of_cons; [by apply Hlt|]. eapply pylt_trans; [by apply Hlt|]. by apply (H2 _ x eq_refl).
      * intros x [->|Hx]%elem_of_cons; rewrite Hp; [by left|right; auto].
      * intros x z [->|Hx]%elem_of_cons Hz Ek; [by apply Hleast|by apply (Hmax x z)].
      * apply Hnew; [left; by left|]. intros x Hx. by right.
Qed.

Lemma initial_heap_ok idx tables heap :
  Forall keys_ascend tables → heap_ok heap None → heap_ok (initial_heap idx tables heap) None ∧ pool (initial_heap idx tables heap) ≡ₚ concat tables ++ pool heap.
Proof.
  revert idx heap. induction tables as [|es tables IH]; intros idx heap Hs Hh; [done|]. inversion Hs; subst. cbn [initial_heap concat].
  destruct (IH (S idx) (push idx es heap)) as [H1 H2]; [done|by apply push_ok|]. split; [done|].
  rewrite H2, push_perm, !app_assoc. by rewrite (Permutation_app_comm (concat tables)).
Qed.

Lemma k_way_merge_ok expired tables : Forall keys_ascend tables → merged expired (concat tables) None (_k_way_merge expired tables).
Proof.
  intros Hs. unfold _k_way_merge. destruct (initial_heap_ok 0 tables [] Hs) as [Hh Hp]; [split; [constructor..|by intros ? ?]|].
  rewrite app_nil_r in Hp. destruct (heap_merge_ok expired (length (concat tables)) _ None Hh) as [H1 H2 H3 Hm H4]; [by rewrite Hp|].
  split; [done|done|intros x Hx; rewrite <- Hp; auto|intros x z Hx Hz; rewrite <- Hp in Hz; by apply Hm|]. intros x Hx Hn. rewrite <- Hp in Hx. destruct (H4 x Hx Hn) as (y & Hy & ?).
  exists y. split; [by rewrite <- Hp|done].
Qed.
End compaction.
Arguments Item T : clear implicits.

(** C37: compaction keeps the newest entry of every key.  The merge of sorted tables by
    the heap of their iterators is sorted with one entry for each key, has only entries of
    the tables that no entry of their key is newer than - no older version comes back when
    a tombstone is dropped -, and for every entry of a table there is one of its key that is at least as
    new, which it kept, or dropped as a tombstone whose grace period is over. *)
Theorem compaction_newest {T} `{Time T} (expired : T → bool) (tables : list (list (@MemTableEntry T))) :
  Forall keys_ascend tables → let out := _k_way_merge expired tables in
  keys_ascend out ∧
  (∀ x, x ∈ out → x ∈ concat tables ∧ ∀ z, z ∈ concat tables → me_key z = me_key x → pyle (me_timestamp z) (me_timestamp x) = true) ∧
  ∀ x, x ∈ concat tables → ∃ y, y ∈ concat tables ∧ me_key y = me_key x ∧ pyle (me_timestamp x) (me_timestamp y) = true ∧
    (y ∈ out ∨ is_tombstone y = true ∧ expired (me_timestamp y) = true).
Proof. intros Hs out. destruct (k_way_merge_ok expired tables Hs) as [H1 _ H3 Hm H4]. split; [done|]. split; [by eauto|]. intros x Hx. by apply H4. Qed.

Import Seconds.
Lemma compaction_newest_witness :
  let old := [mk_entry "a" (Some [1%Z]) 1%Z false; mk_entry "b" (Some [2%Z]) 5%Z false] in
  let new := [mk_entry "a" (Some [3%Z]) 4%Z false; mk_entry "b" None 6%Z true] in
  let out := _k_way_merge (λ t, Z.ltb t 6%Z) [new; old] in
  out = new ∧ ∃ y, me_key y = "b" ∧ pyle 5%Z (me_timestamp y) = true ∧ y ∈ out.
Proof.
  intros old new out. split; [vm_compute; reflexivity|].
  destruct (compaction_newest (λ t, Z.ltb t 6%Z) [new; old] ltac:(repeat constructor)) as (_ & _ & Hn).
  destruct (Hn (mk_entry "b" (Some [2%Z]) 5%Z false)) as (y & Hy & Hk & Hle & Hor); [right; right; right; left|].
  exists y. split; [exact Hk|]. split; [exact Hle|]. destruct Hor as [Hin|[Ht He]]; [exact Hin|].
  apply Z.ltb_lt in He. apply Z.leb_le in Hle. assert (me_timestamp y = 5%Z) as E by (cbn in *; lia).
  exfalso. cbn in Hy. repeat (apply elem_of_cons in Hy as [->|Hy]; [discriminate|]). by apply not_elem_of_nil in Hy.
Defined.
