(* ===== verification/Engine.v ===== *)
(** * The storage engine

    Models src/key-value-store/src/kv_store/storage/engine.py, with files.py and what
    wal.py and compaction.py do with files: the log of writes, the table in memory, the
    tables on disk, and the operations on them.  An [Env] says how the calls of one
    operation to the operating system end (every one of them may raise, with or without
    its effect), which identifiers and times it draws, and in which order a directory
    lists.  The writer lock serializes the operations; [await] records the states that a
    concurrent [get] can see.  [Crash] loses the process and keeps the disk. *)
From stdpp Require Import pretty.
From S2P Require Import Prelude PyList PyDict Effects Bloom MemTable Codec SSTable SSTableRead Wal Compaction.
Local Open Scope Z_scope.

Definition _MAX_KEY_SIZE_BYTES : Z := 256.

Record StorageConfig := mk_config {
  memtable_size_bytes : Z;
  compaction_threshold : Z;
  max_value_size_bytes : Z;
}.

(** The name of a table in the directory of the tables; the identifier is twelve digits of a [uuid4]. *)
Definition sstable_filename (level : Z) (id : string) : string := "sstable_L" +:+ pretty level +:+ "_" +:+ id +:+ ".sst".

Section engine.
Context {T : Type} `{Time T} (hs : Hashing) (crc32 : list Z → Z) (config : StorageConfig).
Local Notation Entry := (@MemTableEntry T).

Record Engine := mk_engine {
  wal_file : list Z;
  files : dict string (list Z);
  memtable : MemTable T;
  sstables : list (SSTable T);
  started : bool;
  wal_sequence : Z;
  io_error : bool;
}.

Definition with_disk (w : list Z) (f : dict string (list Z)) (s : Engine) : Engine :=
  mk_engine w f (memtable s) (sstables s) (started s) (wal_sequence s) (io_error s).
Definition with_wal w s : Engine := with_disk w (files s) s.
Definition with_files f s : Engine := with_disk (wal_file s) f s.
Definition with_tables m ts s : Engine := mk_engine (wal_file s) (files s) m ts (started s) (wal_sequence s) (io_error s).
Definition with_memtable m s : Engine := with_tables m (sstables s) s.
Definition with_log n err s : Engine := mk_engine (wal_file s) (files s) (memtable s) (sstables s) (started s) n err.
Definition with_started b s : Engine := mk_engine (wal_file s) (files s) (memtable s) (sstables s) b (wal_sequence s) (io_error s).

(** How the calls of an operation end; [None] is without an error. *)
Record Env := mk_env {
  write_raises : option nat;      (* how many bytes reached the log *)
  truncate_raises : option bool;  (* whether the log was emptied *)
  flush_raises : option bool;     (* whether the new file is in its place *)
  compact_raises : option bool;
  unlink_raises : string → bool;
  sync_raises : bool;
  close_raises : bool;
  read_raises : bool;
  repair_raises : option bool;    (* whether the incomplete end was cut off *)
  flush_id : string;
  compact_id : string;
  flush_time : T;
  compact_time : T;
  listing : list string;
}.

(** The engine of a new process on the same disk. *)
Definition new_engine (w : list Z) (f : dict string (list Z)) : Engine :=
  mk_engine w f (MemTable.empty (memtable_size_bytes config)) [] false 0 false.

(** ** Computations: the state and the states that were seen at an [await] *)

Record World := mk_world { now : Engine; seen : list Engine }.
Local Notation Act := (M World).

Definition modify (f : Engine → Engine) : Act unit := λ w, (mk_world (f (now w)) (seen w), Ok ()).
Definition observe {A} (f : Engine → A) : Act A := λ w, (w, Ok (f (now w))).
Definition await : Act unit := λ w, (mk_world (now w) (now w :: seen w), Ok ()).

(** [r] of a call that raises: its effect if it had one, and [OSError]. *)
Definition disk_io {A} (fence : bool) (failure : option A) (success : Engine → Engine) (partial : A → Engine → Engine) : Act unit :=
  match failure with
  | None => do* _ := modify success in await
  | Some x =>
      do* _ := modify (λ s, let s := partial x s in if fence then with_log (wal_sequence s) true s else s) in
      do* _ := await in mraise OSError
  end.

(** ** The log *)

Definition _require_healthy : Act unit :=
  do* bad := observe io_error in if bad : bool then mraise RuntimeError else mret ().

Definition append (env : Env) (kind : WALEntryType) (key : string) (value : option (list Z)) (ts : T) : Act unit :=
  do* _ := _require_healthy in
  do* _ := modify (λ s, with_log (wal_sequence s + 1) (io_error s) s) in
  do* n := observe wal_sequence in
  do* data := mlift (serialize_entry crc32 (mk_wal n kind key value ts)) in
  disk_io true (write_raises env)
    (λ s, with_wal (wal_file s ++ data) s) (λ written s, with_wal (wal_file s ++ take written data) s).

Definition truncate (env : Env) : Act unit :=
  do* _ := _require_healthy in
  disk_io true (truncate_raises env) (with_wal []) (λ emptied s, if emptied : bool then with_wal [] s else s).

Definition max_sequence (entries : list (WALEntry T)) (old : Z) : Z :=
  match entries with
  | [] => old
  | w :: ws => foldl Z.max (sequence_number w) (sequence_number <$> ws)
  end.

Definition replay (env : Env) : Act (list (WALEntry T)) :=
  do* _ := disk_io true (if read_raises env then Some () else None) id (λ _, id) in
  do* data := observe wal_file in
  do* r := mlift (read_all_entries crc32 data) in
  do* _ := (if r.2 <? zlen data
            then disk_io true (repair_raises env) (with_wal (take (Z.to_nat r.2) data))
                   (λ cut s, if cut : bool then with_wal (take (Z.to_nat r.2) data) s else s)
            else mret ()) in
  do* _ := modify (λ s, with_log (max_sequence r.1 (wal_sequence s)) false s) in
  do* _ := await in mret r.1.

(** ** Tables *)

(** [publish] and reading the new file *)
Definition create_sstable (failure : option bool) (path : string) (es : list Entry) (level : Z) (created : T) : Act (SSTable T) :=
  do* data := mlift (encode_table hs es level created) in
  do* _ := disk_io false failure (λ s, with_files (dset path data (files s)) s)
             (λ there s, if there : bool then with_files (dset path data (files s)) s else s) in
  mlift (load_from_bytes path data).

(** Where the merged table goes. *)
Fixpoint insert_compacted (t : SSTable T) (tables : list (SSTable T)) : list (SSTable T) :=
  match tables with
  | [] => [t]
  | x :: tables' => if pylt (created_at (metadata x)) (created_at (metadata t)) then t :: tables else x :: insert_compacted t tables'
  end.

Definition unlink_all (env : Env) (retired : list (SSTable T)) (f : dict string (list Z)) : dict string (list Z) :=
  foldl (λ f t, let p := file_path (metadata t) in if unlink_raises env p then f else ddel p f) f retired.

Definition _replace_compacted_sstables (env : Env) (compacted : SSTable T) : Act unit :=
  let compacted_level := level (metadata compacted) - 1 in
  do* retired := observe (λ s, at_level compacted_level (sstables s)) in
  do* _ := modify (λ s, with_tables (memtable s)
             (insert_compacted compacted (filter (λ t, level (metadata t) ≠ compacted_level) (sstables s))) s) in
  do* _ := modify (λ s, with_files (unlink_all env retired (files s)) s) in
  if negb (bool_decide (retired = [])) && sync_raises env then mraise OSError else mret ().

(** [maybe_compact] and the exchange of the tables; the engine's grace period of a tombstone is infinite. *)
Definition compaction (env : Env) : Act unit :=
  do* tables := observe sstables in
  match level_to_compact (compaction_threshold config) tables with
  | None => mret ()
  | Some l =>
      let merged := _k_way_merge (λ _, false) (entries <$> at_level l tables) in
      do* t := create_sstable (compact_raises env) (sstable_filename (l + 1) (compact_id env)) merged (l + 1) (compact_time env) in
      _replace_compacted_sstables env t
  end.

Definition _flush_memtable (env : Env) : Act unit :=
  do* m := observe memtable in
  match _entries m with
  | [] => mret ()
  | _ =>
      do* t := create_sstable (flush_raises env) (sstable_filename 0 (flush_id env)) (entries_sorted m) 0 (flush_time env) in
      do* _ := modify (λ s, with_tables (MemTable.clear (memtable s)) (t :: sstables s) s) in
      do* _ := truncate env in
      compaction env
  end.

(** ** Operations *)

(** [key.encode] refuses a string that has no UTF-8 form. *)
Definition _validate_key (key : string) : result unit :=
  raise_if (negb (utf8_valid (utf8 key))) ValueError (
  raise_if (_MAX_KEY_SIZE_BYTES <? zlen (utf8 key)) ValueError (Ok ())).
Definition _validate_value (value : list Z) : result unit :=
  raise_if (max_value_size_bytes config <? zlen value) ValueError (Ok ()).
Definition _validate_write (key : string) (value : option (list Z)) (ts : T) : result unit :=
  let* _ := _validate_key key in
  raise_if (negb (finite_time ts)) ValueError (
  match value with Some v => _validate_value v | None => Ok () end).

(** What [put] and [delete] share: [None] is a tombstone. *)
Definition write (env : Env) (key : string) (value : option (list Z)) (ts : T) : Act unit :=
  do* up := observe started in
  if negb up then mraise RuntimeError else
  do* _ := mlift (_validate_write key value ts) in
  do* _ := append env (if value then PUT else DELETE) key value ts in
  do* _ := modify (λ s, with_memtable
             match value with Some v => MemTable.put (memtable s) key v ts | None => MemTable.delete (memtable s) key ts end s) in
  do* full := observe (λ s, is_full (memtable s)) in
  if full : bool then _flush_memtable env else mret ().

Definition put (env : Env) (key : string) (value : list Z) (ts : T) : Act unit := write env key (Some value) ts.
Definition delete (env : Env) (key : string) (ts : T) : Act unit := write env key None ts.

Definition stop (env : Env) : Act unit := λ w,
  let (w, r) := _flush_memtable env w in
  if close_raises env then (w, Raise OSError) else (mk_world (with_started false (now w)) (seen w), r).

(** One entry of the log into the table in memory. *)
Definition restore (m : MemTable T) (w : WALEntry T) : MemTable T :=
  match entry_type w with
  | PUT => MemTable.put m (w_key w) (default [] (w_value w)) (w_timestamp w)
  | DELETE => MemTable.delete m (w_key w) (w_timestamp w)
  end.

Definition _load_sstables (env : Env) (f : dict string (list Z)) : result (list (SSTable T)) :=
  let* tables := mapR (λ p, match dget p f with Some data => load_from_bytes p data | None => Raise ValueError end) (listing env) in
  Ok (sort_by (λ t, negated (created_at (metadata t))) tables).

Definition start (env : Env) : Act unit :=
  do* up := observe started in
  if up : bool then mraise RuntimeError else
  do* f := observe files in
  do* tables := mlift (_load_sstables env f) in
  do* _ := modify (λ s, with_tables (memtable s) tables s) in
  do* ws := replay env in
  do* _ := modify (λ s, with_memtable (foldl restore (memtable s) ws) s) in
  modify (with_started true).

Record StorageResult := mk_result {
  r_key : string;
  r_value : option (list Z);
  r_timestamp : T;
  r_tombstone : bool;
  found : bool;
}.
Definition storage_result (e : Entry) (found : bool) : StorageResult :=
  mk_result (me_key e) (me_value e) (me_timestamp e) (is_tombstone e) found.

(** The newest of [best] and what the tables have. *)
Fixpoint newest_of (key : string) (tables : list (SSTable T)) (best : option Entry) : result (option Entry) :=
  match tables with
  | [] => Ok best
  | t :: tables' =>
      let* b := may_contain hs t key in
      let* candidate := (if b then SSTable.get hs t key else Ok None) in
      newest_of key tables'
        match candidate, best with
        | Some c, Some x => if pylt (me_timestamp x) (me_timestamp c) then Some c else best
        | Some c, None => Some c
        | None, _ => best
        end
  end.

Definition get (s : Engine) (key : string) : result (option StorageResult) :=
  let* _ := _validate_key key in
  let* best := newest_of key (sstables s) (MemTable.get (memtable s) key) in
  Ok ((λ e, storage_result e true) <$> best).

(** [scan]: the entries one after the other, a later one unless it is older. *)
Definition scan_entry (d : dict string Entry) (e : Entry) : dict string Entry :=
  match dget (me_key e) d with
  | Some previous => if pyle (me_timestamp previous) (me_timestamp e) then dset (me_key e) e d else d
  | None => dset (me_key e) e d
  end.
Definition scan (s : Engine) : dict string StorageResult :=
  let tables := foldl (λ d t, foldl scan_entry d (entries t)) [] (rev (sstables s)) in
  (λ kv, (kv.1, storage_result kv.2 (negb (is_tombstone kv.2)))) <$> foldl scan_entry tables (entries_sorted (memtable s)).

Inductive Op := Put (key : string) (value : list Z) (ts : T) | Delete (key : string) (ts : T) | Stop | Start | Crash.

Definition act (env : Env) (op : Op) : Act unit :=
  match op with
  | Put key value ts => put env key value ts
  | Delete key ts => delete env key ts
  | Stop => stop env
  | Start => start env
  | Crash => modify (λ s, new_engine (wal_file s) (files s))
  end.

(** The states on the way, the state and the result. *)
Definition run (env : Env) (op : Op) (s : Engine) : list Engine * Engine * result unit :=
  let (w, r) := act env op (mk_world s []) in (seen w, now w, r).
End engine.
Arguments Engine T : clear implicits.
Arguments Env T : clear implicits.
Arguments Op T : clear implicits.
Arguments World T : clear implicits.
Arguments StorageResult T : clear implicits.
