(* ===== verification/EngineInv.v ===== *)
(** * The invariant of the storage engine

    What holds of the memory and the disk of the engine at every [await], whatever
    calls to the operating system raise: every file opens, every entry was submitted,
    and what was acknowledged is covered by the log and the files together, and by the
    tables in memory once the engine has started.  The steps keep it by a small Hoare
    logic for the computations of Engine.v: [triple B P m Q] says that from [P] the
    computation ends with [Q] or raises with [B], and that [B] holds of every state seen
    on the way. *)
From S2P Require Import Prelude PyList PyDict MemTable Bloom Effects Codec SSTable SSTableRead SSTableOpen Wal Compaction Engine.
Local Open Scope Z_scope.

Section inv.
Context {T : Type} `{Time T} (hs : Hashing) (crc32 : list Z → Z).
Local Notation Entry := (@MemTableEntry T).
Implicit Types (x y a : Entry) (es : list Entry) (s : Engine T) (t : SSTable T).
(** An entry the engine can store and read back. *)
Definition fine x : Prop := entry_ok x ∧ plain (me_key x).

(** Some entry with [P] is at least as new as [a]. *)
Definition covers (P : Entry → Prop) a : Prop := ∃ x, P x ∧ me_key x = me_key a ∧ pyle (me_timestamp a) (me_timestamp x) = true.

Lemma covers_mono (P Q : Entry → Prop) a : (∀ x, P x → covers Q x) → covers P a → covers Q a.
Proof.
  intros HPQ (x & Hx & Hk & Ht). destruct (HPQ x Hx) as (y & Hy & Hk' & Ht'). exists y. split; [done|].
  split; [congruence|by eapply pyle_trans].
Qed.
Lemma covers_self (P : Entry → Prop) a : P a → covers P a.
Proof. intros Ha. exists a. auto using pyle_refl. Qed.

(** ** The memory *)

Definition in_mem (m : MemTable T) x : Prop := MemTable.get m (me_key x) = Some x.
Definition in_tables (ts : list (SSTable T)) x : Prop := ∃ t, t ∈ ts ∧ x ∈ entries t.
Definition on_disk (f : dict string (list Z)) x : Prop := ∃ p data t, dget p f = Some data ∧ load_from_bytes p data = Ok t ∧ x ∈ entries t.

Lemma in_mem_store m e x : in_mem (store m e) x → x = e ∨ in_mem m x.
Proof. unfold in_mem. rewrite get_store. case_decide; [destruct (MemTable.get m _); [destruct (pylt _ _)|]|]; naive_solver. Qed.

Lemma store_covers m e x : memtable_ok m → x = e ∨ in_mem m x → covers (in_mem (store m e)) x.
Proof.
  intros Hm Hx. assert (∀ b, MemTable.get m (me_key e) = Some b → me_key b = me_key e) as Hb by (intros b; apply (mt_keys _ Hm)).
  unfold covers, in_mem in *. destruct (decide (me_key e = me_key x)) as [E|E].
  - destruct (MemTable.get m (me_key e)) as [b|] eqn:Eb; [destruct (pylt (me_timestamp e) (me_timestamp b)) eqn:El|].
    + exists b. rewrite get_store, (Hb _ eq_refl), decide_True, Eb, El by done. split; [done|]. split; [done|].
      destruct Hx as [->|Hx]; [by apply pylt_le|]. rewrite <- E, Eb in Hx. injection Hx as ->. apply pyle_refl.
    + exists e. rewrite get_store, decide_True, Eb, El by done. split; [done|]. split; [done|].
      destruct Hx as [->|Hx]; [apply pyle_refl|]. rewrite <- E, Eb in Hx. injection Hx as ->. by apply pylt_false.
    + exists e. rewrite get_store, decide_True, Eb by done. split; [done|]. split; [done|].
      destruct Hx as [->|Hx]; [apply pyle_refl|]. rewrite <- E, Eb in Hx. done.
  - exists x. rewrite get_store, decide_False by done. destruct Hx as [->|Hx]; [done|]. auto using pyle_refl.
Qed.

Lemma sorted_in_mem (m : MemTable T) x : memtable_ok m → x ∈ entries_sorted m ↔ in_mem m x.
Proof. intros Hm. by apply entries_sorted_elem. Qed.

Lemma sorted_ascend (m : MemTable T) : memtable_ok m → keys_ascend (entries_sorted m).
Proof.
  intros Hm. assert (ordered id (me_key <$> entries_sorted m)) as Ho by (rewrite entries_sorted_keys by done; apply py_sorted_ordered).
  assert (NoDup (me_key <$> entries_sorted m)) as Hn by (rewrite entries_sorted_keys, py_sorted_perm by done; apply Hm).
  unfold keys_ascend. induction (entries_sorted m) as [|e es IH]; [constructor|]. rewrite fmap_cons in Ho, Hn.
  apply ordered_cons in Ho as [Ho Hall]. apply NoDup_cons in Hn as [He Hn]. constructor; [by apply IH|].
  apply Forall_forall. intros x Hx. assert (me_key x ∈ me_key <$> es) as Hin by (by apply list_elem_of_fmap_2).
  apply pylt_spec. split; [by apply (Hall (me_key x))|]. intros E. apply He. by rewrite E.
Qed.

(** ** The log *)

Definition entry_of (w : WALEntry T) : Entry :=
  match entry_type w with
  | PUT => mk_entry (w_key w) (Some (default [] (w_value w))) (w_timestamp w) false
  | DELETE => mk_entry (w_key w) None (w_timestamp w) true
  end.

Lemma entry_of_normal w : entry_of (normal w) = entry_of w.
Proof. destruct w as [n [] k [[|b v]|] ts]; done. Qed.

Lemma restore_store m w : restore m w = store m (entry_of w).
Proof. destruct w as [n [] k v ts]; done. Qed.

(** The log has the entries [es]; a clean one nothing else. *)
Definition log_of (wal : list Z) es (clean : bool) : Prop :=
  ∃ ws fs tail, wal = concat fs ++ tail ∧ frames crc32 ws fs ∧ torn crc32 tail ∧ (clean = true → tail = []) ∧ es = entry_of <$> ws.

Lemma log_nil : log_of [] [] true.
Proof. exists [], [], []. split; [done|]. split; [constructor|]. split; [by left|done]. Qed.

Lemma log_unclean wal es b : log_of wal es true → log_of wal es b.
Proof. intros (ws & fs & tail & ? & ? & ? & Ht & ?). exists ws, fs, tail. auto 10. Qed.

Lemma log_append wal es w f : log_of wal es true → serialize_entry crc32 w = Ok f → wal_ok w → log_of (wal ++ f) (es ++ [entry_of w]) true.
Proof.
  intros (ws & fs & tail & -> & Hf & _ & Ht & ->) Hs Hw. rewrite (Ht eq_refl), app_nil_r. exists (ws ++ [w]), (fs ++ [f]), [].
  split; [rewrite concat_app; cbn; by rewrite !app_nil_r|]. split; [apply Forall2_app; [done|]; constructor; [done|constructor]|]. split; [by left|].
  split; [done|]. by rewrite fmap_app.
Qed.

Lemma log_torn wal es w f n : log_of wal es true → serialize_entry crc32 w = Ok f → wal_ok w →
  ∃ es', log_of (wal ++ take n f) es' false ∧ (∀ x, x ∈ es → x ∈ es') ∧ ∀ x, x ∈ es' → x ∈ es ∨ x = entry_of w.
Proof.
  intros Hl Hs Hw. destruct (decide (n < length f)%nat) as [Hn|Hn].
  - destruct Hl as (ws & fs & tail & -> & Hf & _ & Ht & ->). rewrite (Ht eq_refl), app_nil_r. exists (entry_of <$> ws). split; [|auto].
    exists ws, fs, (take n f). split; [done|]. split; [done|]. split; [|done]. right. by exists w, f, n.
  - exists (es ++ [entry_of w]). rewrite take_ge by lia. split; [by apply log_unclean, log_append|].
    split; [intros x Hx; apply elem_of_app; auto|]. intros x [Hx|Hx%list_elem_of_singleton]%elem_of_app; auto.
Qed.

Lemma log_read wal es b : log_of wal es b →
  ∃ ws n, read_all_entries crc32 wal = Ok (ws, n) ∧ entry_of <$> ws = es ∧ log_of (take (Z.to_nat n) wal) es true ∧ (zlen wal <= n → log_of wal es true).
Proof.
  intros (ws & fs & tail & -> & Hf & Ht & _ & ->). exists (normal <$> ws), (zlen (concat fs)). split; [by apply read_all_ok|].
  split; [rewrite <- list_fmap_compose; apply list_fmap_ext; intros; apply entry_of_normal|].
  assert (log_of (concat fs) (entry_of <$> ws) true) as Hl by (exists ws, fs, []; rewrite app_nil_r; split; [done|]; split; [done|]; split; [by left|done]).
  split; [unfold zlen; by rewrite Nat2Z.id, take_app_length|]. rewrite zlen_app. intros Hle. assert (tail = []) as ->; [|by rewrite app_nil_r].
  destruct tail; [done|]. rewrite zlen_cons in Hle. pose proof (zlen_nonneg tail). lia.
Qed.

(** ** The invariant *)

Context (sub : list Entry).
Hypothesis sub_fine : ∀ x, x ∈ sub → fine x.

Record table_ok (p : string) (data : list Z) t : Prop := {
  tk_load : load_from_bytes p data = Ok t;
  tk_represents : represents hs t (entries t);
  tk_path : file_path (metadata t) = p;
  tk_raw : raw_data t = data;
  tk_sub : ∀ x, x ∈ entries t → x ∈ sub;
}.

Record inv (ack : list Entry) s : Prop := {
  iv_mem : memtable_ok (memtable s);
  iv_mem_sub : ∀ x, in_mem (memtable s) x → x ∈ sub;
  iv_files : ∀ p data, dget p (files s) = Some data → ∃ t, table_ok p data t;
  iv_dict : dict_ok (files s);
  iv_tables : ∀ t, t ∈ sstables s → ∃ data, dget (file_path (metadata t)) (files s) = Some data ∧ table_ok (file_path (metadata t)) data t;
  iv_paths : NoDup ((λ t, file_path (metadata t)) <$> sstables s);
  iv_disk : ∃ es, log_of (wal_file s) es (started s && negb (io_error s)) ∧ (∀ x, x ∈ es → x ∈ sub) ∧
    ∀ a, a ∈ ack → covers (λ x, x ∈ es ∨ on_disk (files s) x) a;
  iv_live : _entries (memtable s) ≠ [] → ∀ a, a ∈ ack → covers (λ x, in_mem (memtable s) x ∨ on_disk (files s) x) a;
  iv_read : started s = true → ∀ a, a ∈ ack → covers (λ x, in_mem (memtable s) x ∨ in_tables (sstables s) x) a;
}.

Lemma inv_mono ack ack' s : (∀ a, a ∈ ack' → a ∈ ack) → inv ack s → inv ack' s.
Proof. intros Hsub [H1 H2 H3 H4 H5 H6 (es & Hl & Hs & Hc) H8 H9]. split; eauto. exists es. eauto. Qed.

Lemma tables_on_disk ack s x : inv ack s → in_tables (sstables s) x → on_disk (files s) x.
Proof.
  intros Hi (t & Ht & Hx). destruct (iv_tables _ _ Hi t Ht) as (data & Hd & Hk). exists (file_path (metadata t)), data, t.
  split; [done|]. split; [apply Hk|done].
Qed.

Hypothesis rate_length : length (bloom_rate hs) = 8%nat.

(** A file made of submitted entries opens. *)
Lemma new_table p es lvl created data : (∀ x, x ∈ es → x ∈ sub) → keys_ascend es → encode_table hs es lvl created = Ok data →
  ∃ t, table_ok p data t ∧ entries t = es ∧ level (metadata t) = lvl.
Proof.
  intros Hes Hs He. destruct (table_opens hs p es lvl created data) as (t & Hl & [Hr Hp Hlv _ _ Hraw]); try done.
  - apply Forall_forall. intros x Hx. by apply sub_fine, Hes.
  - intros x Hx. by apply sub_fine, Hes.
  - pose proof (entries_ok hs t es Hr) as E. exists t. split; [|done]. by split; rewrite ?E.
Qed.

Lemma on_disk_dset p data f x : p ∉ dkeys f → on_disk f x → on_disk (dset p data f) x.
Proof.
  intros Hp (q & d & t & Hq & Hrest). exists q, d, t. split; [|done]. rewrite dget_dset_ne; [done|]. intros <-.
  apply Hp, dmem_spec, dmem_true. by eexists.
Qed.

Lemma add_file ack s p data t : inv ack s → p ∉ dkeys (files s) → table_ok p data t → inv ack (with_files (dset p data (files s)) s).
Proof.
  intros [H1 H2 H3 H4 H5 H6 (es & Hl & Hs & Hc) H8 H9] Hp Ht. split; cbn [with_files with_disk wal_file files memtable sstables started io_error]; try done.
  - intros q d. rewrite dget_dset. case_decide; [intros [= <-]; subst; eauto|eauto].
  - by apply dset_ok.
  - intros t' Ht'. destruct (H5 t' Ht') as (d & Hd & Hk). exists d. split; [|done]. rewrite dget_dset_ne; [done|]. intros E. rewrite <- E in Hd.
    apply Hp, dmem_spec, dmem_true. by eexists.
  - exists es. split; [done|]. split; [done|]. intros a Ha. eapply covers_mono; [|by apply Hc]. intros x [Hx|Hx]; apply covers_self; [auto|].
    right. by apply on_disk_dset.
  - intros Hm a Ha. eapply covers_mono; [|by apply H8]. intros x [Hx|Hx]; apply covers_self; [auto|]. right. by apply on_disk_dset.
Qed.
End inv.

(** ** Triples *)

Section triples.
Context {T : Type} `{Time T}.
Local Notation Engine := (Engine T).
Implicit Types (B P : Engine → Prop).

Definition triple {A} B P (m : M (World T) A) (Q : A → Engine → Prop) : Prop :=
  ∀ w, P (now w) → Forall B (seen w) →
    wp m (λ a w', Q a (now w') ∧ Forall B (seen w')) (λ _ w', B (now w') ∧ Forall B (seen w')) w.

Lemma triple_bind {A C} B P (m : M (World T) A) (f : A → M (World T) C) Q R :
  triple B P m Q → (∀ a, triple B (Q a) (f a) R) → triple B P (mbind m f) R.
Proof.
  intros Hm Hf w Hp Hs. apply wp_bind. eapply wp_mono; [by apply Hm| |done]. intros a w' [Hq Hs']. by apply Hf.
Qed.

Lemma triple_pre {A} B P P' (m : M (World T) A) Q : triple B P' m Q → (∀ s, P s → P' s) → triple B P m Q.
Proof. intros Hm Hp w Hw Hs. apply Hm; auto. Qed.

Lemma triple_post {A} B P (m : M (World T) A) Q Q' : triple B P m Q → (∀ a s, Q a s → Q' a s) → triple B P m Q'.
Proof. intros Hm Hq w Hw Hs. eapply wp_mono; [by apply Hm| |done]. intros a w' [??]. auto. Qed.

Lemma triple_ret {A} B (Q : A → Engine → Prop) (a : A) : triple B (Q a) (mret a) Q.
Proof. by intros w Hp Hs. Qed.

Lemma triple_raise {A} B P (Q : A → Engine → Prop) e : (∀ s, P s → B s) → triple B P (mraise e) Q.
Proof. intros HB w Hp Hs. split; auto. Qed.

Lemma triple_lift {A} B P (r : result A) : (∀ s, P s → B s) → triple B P (mlift r) (λ a s, P s ∧ r = Ok a).
Proof. intros HB w Hp Hs. unfold wp, mlift. destruct r; auto. Qed.

Lemma triple_modify B P f (Q : unit → Engine → Prop) : (∀ s, P s → Q () (f s)) → triple B P (modify f) Q.
Proof. intros HQ w Hp Hs. split; cbn; auto. Qed.

Lemma triple_observe {A} B P (f : Engine → A) : triple B P (observe f) (λ a s, P s ∧ a = f s).
Proof. by intros w Hp Hs. Qed.

Lemma triple_await B P : (∀ s, P s → B s) → triple B P await (λ _, P).
Proof. intros HB w Hp Hs. split; cbn; auto. Qed.

(** A call that may raise: only the effect of a failure must keep [B]. *)
Lemma triple_disk_io {A} B P (Q : unit → Engine → Prop) (fence : bool) (failure : option A) (success : Engine → Engine) (partial : A → Engine → Engine) :
  (∀ s, P s → Q () (success s)) → (∀ s, Q () s → B s) →
  (∀ s x, P s → B (let s := partial x s in if fence then with_log (wal_sequence s) true s else s)) →
  triple B P (disk_io fence failure success partial) Q.
Proof.
  intros Hs HQ Hp. unfold disk_io. destruct failure as [x|].
  - eapply (triple_bind _ _ _ _ (λ _ : unit, B)); [apply triple_modify; intros s Hps; by apply Hp|]. intros [].
    eapply (triple_bind _ _ _ _ (λ _ : unit, B)); [by apply triple_await|]. intros []. by apply triple_raise.
  - eapply (triple_bind _ _ _ _ Q); [by apply triple_modify|]. intros []. eapply triple_post; [by apply triple_await|]. by intros [].
Qed.

Lemma triple_run B P (m : M (World T) unit) Q s w r :
  triple B P m (λ _, Q) → (∀ s, Q s → B s) → P s → m (mk_world s []) = (w, r) → B (now w) ∧ Forall B (seen w) ∧ (r = Ok () → Q (now w)).
Proof.
  intros Hm HQ Hp E. specialize (Hm (mk_world s []) Hp (Forall_nil_2 _)). unfold wp in Hm. rewrite E in Hm.
  destruct r as [[]|e]; destruct Hm as [H1 H2]; auto 6. by split_and!.
Qed.
End triples.

(** Take the next call of a computation. *)
Ltac next Q := eapply (triple_bind _ _ _ _ Q).

Section steps.
Context {T : Type} `{Time T} (hs : Hashing) (crc32 : list Z → Z) (config : StorageConfig).
Local Notation Entry := (@MemTableEntry T).
Implicit Types (x y a : Entry) (es : list Entry) (s : Engine T) (t : SSTable T).
Context (sub : list Entry).
Hypothesis sub_fine : ∀ x, x ∈ sub → fine x.
Local Notation inv := (inv hs crc32 sub).
Local Notation table_ok := (table_ok hs sub).

(** ** The log *)

Lemma require_healthy_triple B P : (∀ s, P s → B s) → triple B P (_require_healthy (T:=T)) (λ _ s, P s ∧ io_error s = false).
Proof.
  intros HB. unfold _require_healthy. next (λ b s, P s ∧ b = io_error s); [apply triple_observe|]. intros [].
  - apply triple_raise. intros s [Hs _]. auto.
  - eapply triple_pre; [apply (triple_ret _ (λ _ s, P s ∧ io_error s = false))|]. intros s [Hs ->]. done.
Qed.

(** The log has [x] besides what was acknowledged. *)
Definition appended (ack : list Entry) x s : Prop :=
  inv ack s ∧ started s = true ∧ ∃ es, log_of crc32 (wal_file s) es (negb (io_error s)) ∧ (∀ y, y ∈ es → y ∈ sub) ∧ x ∈ es ∧
    ∀ a, a ∈ ack → covers (λ x, x ∈ es ∨ on_disk (files s) x) a.

Lemma inv_log ack s wal es n err : inv ack s → (∀ x, x ∈ es → x ∈ sub) → log_of crc32 wal es (started s && negb err) →
  (∀ a, a ∈ ack → covers (λ x, x ∈ es ∨ on_disk (files s) x) a) → inv ack (with_log n err (with_wal wal s)).
Proof. intros [H1 H2 H3 H4 H5 H6 _ H8 H9] Hs Hl Hc. split; cbn; try done. by exists es. Qed.

Lemma append_triple ack base env kind key value ts x :
  (∀ n, entry_of (mk_wal n kind key value ts) = x) → x ∈ sub → utf8_valid (utf8 key) = true → finite_time ts = true → (∀ a, a ∈ base → a ∈ ack) →
  triple (inv base) (λ s, inv ack s ∧ started s = true) (append crc32 env kind key value ts) (λ _, appended ack x).
Proof.
  intros Hx Hsub Hk Ht Hb. assert (∀ s, inv ack s → inv base s) as HB by (intros s; by apply inv_mono). unfold append.
  next (λ (_ : unit) s, (inv ack s ∧ started s = true) ∧ io_error s = false); [apply require_healthy_triple; intros s [??]; auto|]. intros _.
  next (λ (_ : unit) s, (inv ack s ∧ started s = true) ∧ io_error s = false).
  { apply triple_modify. intros s [[Hi Hst] Hio]. split; [|done]. split; [|done]. destruct (iv_disk _ _ _ _ _ Hi) as (es & Hl & Hs & Hc).
    replace s with (with_wal (wal_file s) s) at 3 by (by destruct s). by apply (inv_log _ _ _ es). }
  intros _. next (λ (_ : Z) s, (inv ack s ∧ started s = true) ∧ io_error s = false); [eapply triple_post; [apply triple_observe|]; intros n s [? _]; done|].
  intros n. next (λ data s, ((inv ack s ∧ started s = true) ∧ io_error s = false) ∧ serialize_entry crc32 (mk_wal n kind key value ts) = Ok data);
    [apply triple_lift; intros s [[??]?]; auto|]. intros data. apply triple_disk_io.
  - intros s [[[Hi Hst] Hio] Hser]. destruct (iv_disk _ _ _ _ _ Hi) as (es & Hl & Hs & Hc). rewrite Hst, Hio in Hl. cbn in Hl.
    pose proof (log_append crc32 _ _ _ _ Hl Hser (conj Hk Ht)) as Hl'. rewrite Hx in Hl'.
    assert (∀ y, y ∈ es ++ [x] → y ∈ sub) as Hs' by (intros y [Hy|Hy%list_elem_of_singleton]%elem_of_app; subst; auto).
    assert (∀ a, a ∈ ack → covers (λ y, y ∈ es ++ [x] ∨ on_disk (files s) y) a) as Hc'.
    { intros a Ha. eapply covers_mono; [|by apply Hc]. intros y Hy. apply covers_self. destruct Hy; [left; apply elem_of_app; auto|auto]. }
    split; [|split; [done|]].
    + replace (with_wal _ s) with (with_log (wal_sequence s) (io_error s) (with_wal (wal_file s ++ data) s)) by (by destruct s).
      apply (inv_log _ _ _ (es ++ [x])); try done. by apply log_unclean.
    + exists (es ++ [x]). cbn. split; [by apply log_unclean|]. split; [done|]. split; [apply elem_of_app; right; by left|done].
  - intros s [Hi _]. auto.
  - intros s m [[[Hi Hst] Hio] Hser]. apply HB. destruct (iv_disk _ _ _ _ _ Hi) as (es & Hl & Hs & Hc). rewrite Hst, Hio in Hl. cbn in Hl.
    destruct (log_torn crc32 _ _ _ _ m Hl Hser (conj Hk Ht)) as (es' & Hl' & H1 & H2). cbv zeta. apply (inv_log _ _ _ es'); try done.
    + intros y Hy. destruct (H2 y Hy) as [| ->]; [auto|by rewrite Hx].
    + by rewrite andb_false_r.
    + intros a Ha. eapply covers_mono; [|by apply Hc]. intros y Hy. apply covers_self. cbn. naive_solver.
Qed.

(** The new entry in memory. *)
Lemma insert_inv ack x s : x ∈ sub → appended ack x s → inv (x :: ack) (with_memtable (store (memtable s) x) s).
Proof.
  intros Hx (Hi & Hst & es & Hl & Hs & Hxs & Hc). pose proof (λ y, tables_on_disk hs crc32 sub ack s y Hi) as Htd. destruct Hi as [H1 H2 H3 H4 H5 H6 _ H8 H9].
  assert (∀ P : Entry → Prop, ∀ a, a ∈ x :: ack → (∀ a, a ∈ ack → covers (λ y, in_mem (memtable s) y ∨ P y) a) →
    covers (λ y, in_mem (store (memtable s) x) y ∨ P y) a) as Hcov.
  { intros P a Ha HP. assert (∀ y, y = x ∨ in_mem (memtable s) y → covers (λ y, in_mem (store (memtable s) x) y ∨ P y) y) as Hst'.
    { intros y Hy. destruct (store_covers (memtable s) x y H1 Hy) as (z & Hz & ?). exists z. auto. }
    apply elem_of_cons in Ha as [->|Ha]; [by apply Hst'; left|]. eapply covers_mono; [|by apply HP]. intros y [Hy|Hy]; [by apply Hst'; right|].
    apply covers_self. auto. }
  split; cbn; try done.
  - apply store_ok; [done|]. apply sub_fine in Hx as [[] _]. done.
  - intros y Hy%in_mem_store. destruct Hy as [->|Hy]; auto.
  - exists es. rewrite Hst. split; [done|]. split; [done|]. intros a [->|Ha]%elem_of_cons; [apply covers_self; auto|by apply Hc].
  - intros _ a Ha. apply Hcov; [done|]. intros b Hb. eapply covers_mono; [|by apply H9]. intros y Hy. apply covers_self. naive_solver.
  - intros _ a Ha. apply Hcov; [done|]. by apply H9.
Qed.

(** ** New tables *)

Hypothesis rate_length : length (bloom_rate hs) = 8%nat.

Lemma create_triple ack base P failure path es lvl created :
  (∀ a, a ∈ base → a ∈ ack) → (∀ s, P s → inv ack s ∧ path ∉ dkeys (files s)) → (∀ x, x ∈ es → x ∈ sub) → keys_ascend es →
  triple (inv base) P (create_sstable hs failure path es lvl created)
    (λ t s, ∃ s0 data, P s0 ∧ s = with_files (dset path data (files s0)) s0 ∧ table_ok path data t ∧ entries t = es ∧ level (metadata t) = lvl).
Proof.
  intros Hb HP Hsub Hs. assert (∀ s, inv ack s → inv base s) as HB by (intros s; by apply inv_mono). unfold create_sstable.
  next (λ data s, P s ∧ encode_table hs es lvl created = Ok data); [apply triple_lift; intros s Hp; by apply HB, HP|]. intros data.
  assert (∀ s, P s → encode_table hs es lvl created = Ok data → inv base (with_files (dset path data (files s)) s)) as Hadd.
  { intros s Hp He. destruct (HP s Hp) as [Hi Hf]. destruct (new_table hs sub sub_fine rate_length path _ _ _ _ Hsub Hs He) as (t & Ht & _).
    apply HB. by eapply add_file. }
  next (λ (_ : unit) s, ∃ s0, P s0 ∧ encode_table hs es lvl created = Ok data ∧ s = with_files (dset path data (files s0)) s0).
  - apply triple_disk_io.
    + intros s [Hp He]. by exists s.
    + intros s (s0 & Hp & He & ->). auto.
    + intros s [] [Hp He]; cbn; [auto|by apply HB, HP].
  - intros []. eapply triple_post; [apply triple_lift; intros s (s0 & Hp & He & ->); auto|]. intros t s [(s0 & Hp & He & ->) Hl].
    exists s0, data. split; [done|]. split; [done|]. destruct (new_table hs sub sub_fine rate_length path _ _ _ _ Hsub Hs He) as (t' & Ht & ?).
    pose proof (tk_load _ _ _ _ _ Ht) as Hl'. injection (eq_trans (eq_sym Hl) Hl') as ->. done.
Qed.

Lemma swap_inv ack s path data t :
  inv ack s → path ∉ dkeys (files s) → table_ok path data t → entries t = entries_sorted (memtable s) → _entries (memtable s) ≠ [] →
  let s' := with_tables (MemTable.clear (memtable s)) (t :: sstables s) (with_files (dset path data (files s)) s) in
  inv ack s' ∧ ∀ a, a ∈ ack → covers (on_disk (files s')) a.
Proof.
  intros Hi Hp Ht He Hm. assert (inv ack (with_files (dset path data (files s)) s)) as [H1 H2 H3 H4 H5 H6 H7 H8 H9] by (by eapply add_file).
  cbn in *. assert (∀ x, in_mem (memtable s) x → x ∈ entries t) as Hmem by (intros x; rewrite He; by apply sorted_in_mem).
  pose proof (tk_path _ _ _ _ _ Ht) as Hpath.
  assert (dget path (dset path data (files s)) = Some data) as Hd by apply dget_dset_eq. split; [split; cbn; try done|].
  - by apply (apply_write_ok (memtable s) MemTable.Clear).
  - intros t' [->|Ht']%elem_of_cons; [exists data; by rewrite Hpath|auto].
  - apply NoDup_cons. rewrite Hpath. split; [|done]. intros (t' & -> & Ht')%list_elem_of_fmap.
    destruct (iv_tables _ _ _ _ _ Hi t' Ht') as (d & Hd' & _). apply Hp, dmem_spec, dmem_true. by eexists.
  - intros Hst a Ha. eapply covers_mono; [|by apply H9]. intros x [Hx|(t' & Ht' & Hx)]; apply covers_self; right.
    + exists t. split; [by left|auto].
    + exists t'. split; [by right|done].
  - intros a Ha. eapply covers_mono; [|by apply H8]. intros x [Hx|Hx]; apply covers_self; [|done].
    exists path, data, t. split; [done|]. split; [apply Ht|auto].
Qed.

Lemma truncate_triple ack base (F : dict string (list Z) → Prop) env :
  (∀ a, a ∈ base → a ∈ ack) →
  triple (inv base) (λ s, (inv ack s ∧ ∀ a, a ∈ ack → covers (on_disk (files s)) a) ∧ F (files s)) (truncate env) (λ _ s, inv ack s ∧ F (files s)).
Proof.
  intros Hb. assert (∀ s, inv ack s → inv base s) as HB by (intros s; by apply inv_mono). unfold truncate.
  next (λ (_ : unit) s, ((inv ack s ∧ ∀ a, a ∈ ack → covers (on_disk (files s)) a) ∧ F (files s)) ∧ io_error s = false);
    [apply require_healthy_triple; intros s [[]]; auto|]. intros _.
  assert (∀ s n err, (inv ack s ∧ ∀ a, a ∈ ack → covers (on_disk (files s)) a) → inv ack (with_log n err (with_wal [] s))) as Hnil.
  { intros s n err [Hi Hc]. apply (inv_log _ _ _ []); [done|by intros ? ?%not_elem_of_nil|by apply log_unclean, log_nil|].
    intros a Ha. eapply covers_mono; [|by apply Hc]. intros x Hx. apply covers_self. auto. }
  apply triple_disk_io.
  - intros s [[Hi Hf] _]. split; [|done]. replace (with_wal [] s) with (with_log (wal_sequence s) (io_error s) (with_wal [] s)) by (by destruct s). auto.
  - intros s [Hi _]. auto.
  - intros s [] [[Hi Hf] Hio]; cbv zeta; apply HB; [by apply Hnil|]. destruct Hi as [Hi _]. destruct (iv_disk _ _ _ _ _ Hi) as (es & Hl & Hs & Hc).
    replace s with (with_wal (wal_file s) s) at 2 by (by destruct s). apply (inv_log _ _ _ es); try done. rewrite andb_false_r.
    destruct (started s); [|done]. rewrite Hio in Hl. by apply log_unclean.
Qed.

(** ** Compaction *)

Lemma insert_compacted_perm t ts : insert_compacted t ts ≡ₚ t :: ts.
Proof.
  induction ts as [|x ts IH]; cbn [insert_compacted]; [done|]. destruct (pylt _ _); [done|]. rewrite IH. apply Permutation_swap.
Qed.

Lemma unlink_ok env (ts : list (SSTable T)) f : dict_ok f → dict_ok (unlink_all env ts f) ∧
  (∀ p d, dget p (unlink_all env ts f) = Some d → dget p f = Some d) ∧
  ∀ p, p ∉ ((λ t, file_path (metadata t)) <$> ts) → dget p (unlink_all env ts f) = dget p f.
Proof.
  unfold unlink_all. revert f. induction ts as [|t ts IH]; intros f Hf; [done|]. cbn [foldl]. rewrite fmap_cons.
  set (q := file_path (metadata t)) in *. destruct (unlink_raises env q).
  - destruct (IH f Hf) as (H1 & H2 & H3). split; [done|]. split; [done|]. intros p Hp. apply H3. set_solver.
  - destruct (IH (ddel q f) (ddel_ok _ _ Hf)) as (H1 & H2 & H3). split; [done|]. split.
    + intros p d Hd. specialize (H2 p d Hd). rewrite dget_ddel in H2 by done. by case_decide.
    + intros p Hp. rewrite H3 by set_solver. rewrite dget_ddel_ne; [done|]. set_solver.
Qed.

Lemma replace_inv ack s path data t l env :
  inv ack s → path ∉ dkeys (files s) → table_ok path data t →
  entries t = _k_way_merge (λ _, false) (entries <$> at_level l (sstables s)) →
  inv ack (with_files (unlink_all env (at_level l (sstables s)) (dset path data (files s)))
    (with_tables (memtable s) (insert_compacted t (filter (λ t, level (metadata t) ≠ l) (sstables s))) s)).
Proof.
  intros Hi Hp Ht He. assert (inv ack (with_files (dset path data (files s)) s)) as [H1 H2 H3 H4 H5 H6 H7 H8 H9] by (by eapply add_file).
  cbn in *. destruct (unlink_ok env (at_level l (sstables s)) _ H4) as (U1 & U2 & U3). set (f := unlink_all _ _ _) in *.
  pose proof (tk_path _ _ _ _ _ Ht) as Hpath.
  assert (∀ t', t' ∈ sstables s → path ≠ file_path (metadata t')) as Hfresh.
  { intros t' Ht' E. destruct (iv_tables _ _ _ _ _ Hi t' Ht') as (d & Hd' & _). rewrite <- E in Hd'. apply Hp, dmem_spec, dmem_true. by eexists. }
  assert (∀ t1 t2, t1 ∈ sstables s → t2 ∈ sstables s → file_path (metadata t1) = file_path (metadata t2) → t1 = t2) as Hinj.
  { intros t1 t2 T1 T2 E. destruct (H5 t1 T1) as (d1 & D1 & K1), (H5 t2 T2) as (d2 & D2 & K2). rewrite E in D1, K1. pose proof (tk_load _ _ _ _ _ K1) as L1.
    pose proof (tk_load _ _ _ _ _ K2) as L2. injection (eq_trans (eq_sym D1) D2) as ->. injection (eq_trans (eq_sym L1) L2) as ->. done. }
  assert (dget path f = Some data) as Hnew.
  { rewrite U3; [apply dget_dset_eq|]. intros (t' & E & [_ Ht']%list_elem_of_filter)%list_elem_of_fmap. by apply (Hfresh t'). }
  assert (merged (λ _, false) (concat (entries <$> at_level l (sstables s))) None (entries t)) as Hmg.
  { rewrite He. apply k_way_merge_ok. apply Forall_fmap, Forall_forall. intros t' [_ Ht']%list_elem_of_filter.
    destruct (H5 t' Ht') as (d & _ & K). apply (rp_order _ _ _ (tk_represents _ _ _ _ _ K)). }
  assert (∀ t' x, t' ∈ sstables s → level (metadata t') = l → x ∈ entries t' → covers (λ y, y ∈ entries t) x) as Hold.
  { intros t' x Ht' Hl Hx. destruct (mg_newest _ _ _ _ Hmg x) as (y & _ & Hk & Hts & [Hy|[_ Hy]]); [|done| |done].
    - apply list_elem_of_In, in_concat. exists (entries t'). rewrite <- !list_elem_of_In. split; [|done].
      apply list_elem_of_fmap_2. apply list_elem_of_filter. done.
    - by exists y. }
  assert (∀ x, on_disk (dset path data (files s)) x → covers (on_disk f) x) as Hdisk.
  { intros x (q & d & t' & Hq & Hl & Hx). destruct (decide (q ∈ (λ t, file_path (metadata t)) <$> at_level l (sstables s))) as [Hin|Hin].
    - apply list_elem_of_fmap in Hin as (t2 & -> & [Hlv Ht2]%list_elem_of_filter). destruct (H5 t2 Ht2) as (d2 & D2 & K2).
      pose proof (tk_load _ _ _ _ _ K2) as L2. injection (eq_trans (eq_sym D2) Hq) as ->. injection (eq_trans (eq_sym L2) Hl) as ->.
      destruct (Hold t' x Ht2 Hlv Hx) as (y & Hy & ?). exists y. split; [|done]. exists path, data, t. split; [done|]. split; [apply Ht|done].
    - apply covers_self. exists q, d, t'. rewrite U3 by done. done. }
  assert (∀ t', t' ∈ insert_compacted t (filter (λ t, level (metadata t) ≠ l) (sstables s)) ↔ t' = t ∨ (level (metadata t') ≠ l ∧ t' ∈ sstables s)) as Hel.
  { intros t'. by rewrite insert_compacted_perm, elem_of_cons, list_elem_of_filter. }
  split; cbn; try done.
  - intros q d Hq. eauto.
  - intros t' [->|[Hlv Ht']]%Hel; [exists data; by rewrite Hpath|]. destruct (H5 t' Ht') as (d & D & K). exists d. split; [|done].
    rewrite U3; [done|]. intros (t2 & E & [Hl2 Ht2]%list_elem_of_filter)%list_elem_of_fmap. by rewrite (Hinj _ _ Ht' Ht2 E) in Hlv.
  - rewrite insert_compacted_perm, fmap_cons. apply NoDup_cons. split; [|by apply NoDup_fmap_filter].
    rewrite Hpath. intros (t' & E & [_ Ht']%list_elem_of_filter)%list_elem_of_fmap. by apply (Hfresh t').
  - destruct H7 as (es & Hl & Hs & Hc). exists es. split; [done|]. split; [done|]. intros a Ha. eapply covers_mono; [|by apply Hc].
    intros x [Hx|Hx]; [apply covers_self; auto|]. destruct (Hdisk x Hx) as (y & ? & ?). exists y. auto.
  - intros Hm a Ha. eapply covers_mono; [|by apply H8]. intros x [Hx|Hx]; [apply covers_self; auto|]. destruct (Hdisk x Hx) as (y & ? & ?). exists y. auto.
  - intros Hst a Ha. eapply covers_mono; [|by apply H9]. intros x [Hx|(t' & Ht' & Hx)]; [apply covers_self; auto|].
    destruct (decide (level (metadata t') = l)) as [Hlv|Hlv].
    + destruct (Hold t' x Ht' Hlv Hx) as (y & Hy & ?). exists y. split; [|done]. right. exists t. split; [apply Hel; auto|done].
    + apply covers_self. right. exists t'. split; [apply Hel; auto|done].
Qed.
End steps.
