(* ===== verification/EngineRun.v ===== *)
(** * Runs of the storage engine

    The operations of Engine.v keep the invariant, and what follows for every state of
    a run in which calls to the operating system raise and processes crash. *)
From S2P Require Import Prelude PyList PyDict MemTable Bloom Effects Codec SSTable SSTableRead SSTableOpen Wal Compaction Engine EngineInv.
Local Open Scope Z_scope.

Lemma triple_fact {T A} `{Time T} (B P : Engine T → Prop) (F : Prop) (m : M (World T) A) Q :
  (∀ s, P s → F) → (F → triple B P m Q) → triple B P m Q.
Proof. intros HF Hm w Hp Hs. exact (Hm (HF _ Hp) w Hp Hs). Qed.

Lemma mapR_exists {A B} (f : A → result B) (l : list A) : (∀ x, x ∈ l → ∃ y, f x = Ok y) → ∃ ys, mapR f l = Ok ys.
Proof.
  induction l as [|x l IH]; intros Hf; [by exists []|]. destruct (Hf x (list_elem_of_here _ _)) as [y Hy].
  destruct IH as [ys Hys]; [intros z Hz; apply Hf; by right|]. exists (y :: ys). cbn. by rewrite Hy, Hys.
Qed.

(** Identifiers of one length make different names. *)
Lemma filename_inj l l' id id' : String.length id = String.length id' → sstable_filename l id = sstable_filename l' id' → id = id'.
Proof.
  assert (∀ a b, String.list_ascii_of_string (a +:+ b) = String.list_ascii_of_string a ++ String.list_ascii_of_string b) as Happ.
  { intros a b. induction a as [|c a IH]; [done|]. cbn. by rewrite <- IH. }
  assert (∀ a, length (String.list_ascii_of_string a) = String.length a) as Hlen by (intros a; induction a; cbn; congruence).
  intros Hl E. unfold sstable_filename in E. apply (f_equal String.list_ascii_of_string) in E. rewrite !Happ in E.
  rewrite !app_assoc in E. apply app_inj_2 in E as [E _]; [|done]. apply app_inj_2 in E as [_ E]; [|by rewrite !Hlen].
  rewrite <- (String.string_of_list_ascii_of_string id), <- (String.string_of_list_ascii_of_string id'). by rewrite E.
Qed.

Section run.
Context {T : Type} `{Time T} (hs : Hashing) (crc32 : list Z → Z) (config : StorageConfig).
Local Notation Entry := (@MemTableEntry T).
Implicit Types (x y a : Entry) (es : list Entry) (s : Engine T) (t : SSTable T) (env : Env T) (op : Op T).
Hypothesis rate_length : length (bloom_rate hs) = 8%nat.

(** The identifiers that an operation draws name no file, and the listing is of the directory. *)
Record env_ok env s : Prop := {
  eo_flush : ∀ l, sstable_filename l (flush_id env) ∉ dkeys (files s);
  eo_compact : ∀ l, sstable_filename l (compact_id env) ∉ dkeys (files s);
  eo_distinct : ∀ l l', sstable_filename l (flush_id env) ≠ sstable_filename l' (compact_id env);
  eo_listing : listing env ≡ₚ dkeys (files s);
}.

Section keeps.
Context (sub : list Entry).
Hypothesis sub_fine : ∀ x, x ∈ sub → fine x.
Local Notation inv := (inv hs crc32 sub).
Local Notation table_ok := (table_ok hs sub).

Lemma merged_sub ack s l : inv ack s → let out := _k_way_merge (λ _, false) (entries <$> at_level l (sstables s)) in
  (∀ x, x ∈ out → x ∈ sub) ∧ keys_ascend out.
Proof.
  intros Hi out. assert (Forall keys_ascend (entries <$> at_level l (sstables s))) as Hs.
  { apply Forall_fmap, Forall_forall. intros t [_ Ht]%list_elem_of_filter. destruct (iv_tables _ _ _ _ _ Hi t Ht) as (d & _ & K).
    apply (rp_order _ _ _ (tk_represents _ _ _ _ _ K)). }
  pose proof (k_way_merge_ok (λ _, false) _ Hs) as [H1 _ H3 _ _]. split; [|done]. intros x Hx.
  specialize (H3 x Hx). apply list_elem_of_In, in_concat in H3 as (es & Hes & Hin). rewrite <- !list_elem_of_In in *.
  apply list_elem_of_fmap in Hes as (t & -> & [_ Ht]%list_elem_of_filter). destruct (iv_tables _ _ _ _ _ Hi t Ht) as (d & _ & K). by apply (tk_sub _ _ _ _ _ K).
Qed.

Lemma compaction_triple ack base env : (∀ a, a ∈ base → a ∈ ack) →
  triple (inv base) (λ s, inv ack s ∧ ∀ l, sstable_filename l (compact_id env) ∉ dkeys (files s)) (compaction hs config env) (λ _, inv ack).
Proof.
  intros Hb. assert (∀ s, inv ack s → inv base s) as HB by (intros s; by apply inv_mono). unfold compaction.
  next (λ tables s, (inv ack s ∧ ∀ l, sstable_filename l (compact_id env) ∉ dkeys (files s)) ∧ tables = sstables s); [apply triple_observe|]. intros tables.
  destruct (level_to_compact _ tables) as [l|]; [|eapply triple_pre; [apply (triple_ret _ (λ _, inv ack))|]; intros s [[? _] _]; done].
  eapply (triple_fact _ _ (let out := _k_way_merge (λ _, false) (entries <$> at_level l tables) in (∀ x, x ∈ out → x ∈ sub) ∧ keys_ascend out)).
  { intros s [[Hi _] ->]. by eapply merged_sub. }
  intros [Hsub Hs]. eapply triple_bind.
  { eapply (create_triple hs crc32 sub sub_fine rate_length ack base); [done| |done|done]. intros s [[Hi Hf] _]. auto. }
  intros t. cbv beta. unfold _replace_compacted_sstables. set (R := λ s : Engine T, ∃ s0 data, _).
  next (λ retired s, R s ∧ retired = at_level (level (metadata t) - 1) (sstables s)); [apply triple_observe|]. intros retired.
  next (λ (_ : unit) s, ∃ s0, R s0 ∧ retired = at_level (level (metadata t) - 1) (sstables s0) ∧
    s = with_tables (memtable s0) (insert_compacted t (filter (λ t', level (metadata t') ≠ level (metadata t) - 1) (sstables s0))) s0).
  { apply triple_modify. intros s [Hr ->]. by exists s. }
  intros _. next (λ (_ : unit), inv ack).
  - apply triple_modify. intros s (s1 & (s0 & data & [[Hi Hf] ->] & -> & Ht & He & Hl) & -> & ->). rewrite Hl. replace (l + 1 - 1) with l by lia.
    exact (replace_inv hs crc32 sub sub_fine rate_length ack s0 _ data t l env Hi (Hf _) Ht He).
  - intros []. destruct (_ && _); [by apply triple_raise|apply (triple_ret _ (λ _, inv ack))].
Qed.

Lemma flush_triple ack base env : (∀ a, a ∈ base → a ∈ ack) →
  triple (inv base) (λ s, inv ack s ∧ env_ok env s) (_flush_memtable hs config env) (λ _, inv ack).
Proof.
  intros Hb. assert (∀ s, inv ack s → inv base s) as HB by (intros s; by apply inv_mono). unfold _flush_memtable.
  next (λ m s, (inv ack s ∧ env_ok env s) ∧ m = memtable s); [apply triple_observe|]. intros m.
  destruct (_entries m) as [|kv d] eqn:Em; [eapply triple_pre; [apply (triple_ret _ (λ _, inv ack))|]; intros s [[? _] _]; done|].
  eapply (triple_fact _ _ ((∀ x, x ∈ entries_sorted m → x ∈ sub) ∧ keys_ascend (entries_sorted m))).
  { intros s [[Hi _] ->]. pose proof (iv_mem _ _ _ _ _ Hi) as Hm. split; [|by apply sorted_ascend].
    intros x Hx%sorted_in_mem; [|done]. by apply (iv_mem_sub _ _ _ _ _ Hi). }
  intros [Hsub Hs]. eapply triple_bind.
  { eapply (create_triple hs crc32 sub sub_fine rate_length ack base); [done| |done|done]. intros s [[Hi He] _]. split; [done|apply He]. }
  intros t. cbv beta. set (F := λ f : dict string (list Z), ∀ l, sstable_filename l (compact_id env) ∉ dkeys f).
  next (λ (_ : unit) s, (inv ack s ∧ ∀ a, a ∈ ack → covers (on_disk (files s)) a) ∧ F (files s)).
  - apply triple_modify. intros s (s0 & data & [[Hi Hok] ->] & -> & Ht & He & _). cbn. split.
    + apply (swap_inv hs crc32 sub ack s0 _ data t); try done; [apply Hok|by rewrite Em].
    + intros l. rewrite elem_of_dkeys_dset. intros [E|Hin]; [by apply (eo_distinct _ _ Hok 0 l)|by apply (eo_compact _ _ Hok l)].
  - intros []. next (λ (_ : unit) s, inv ack s ∧ F (files s)); [by apply truncate_triple|]. intros []. by apply compaction_triple.
Qed.

(** ** Writing *)

Definition new_entry (key : string) (value : option (list Z)) (ts : T) : Entry := mk_entry key value ts (if value then false else true).

Lemma env_ok_frame env s s' : files s' = files s → env_ok env s → env_ok env s'.
Proof. intros E [H1 H2 H3 H4]. by split; rewrite ?E. Qed.

Lemma validate_write_inv key value ts : _validate_write config key value ts = Ok () →
  utf8_valid (utf8 key) = true ∧ zlen (utf8 key) <= 256 ∧ finite_time ts = true.
Proof.
  clear. unfold _validate_write, _validate_key, raise_if, _MAX_KEY_SIZE_BYTES. destruct (utf8_valid _); [|done]. cbn.
  destruct (256 <? _) eqn:E; [done|]. cbn. destruct (finite_time ts); [|done]. intros _. lia.
Qed.

Lemma append_frame env kind key value ts env' : triple (λ _ : Engine T, True) (env_ok env') (append crc32 env kind key value ts) (λ _, env_ok env').
Proof.
  unfold append, _require_healthy. next (λ (_ : unit), env_ok env').
  { next (λ (b : bool), env_ok env'); [eapply triple_post; [apply triple_observe|]; intros b s [? _]; done|].
    intros []; [by apply triple_raise|apply (triple_ret _ (λ _, env_ok env'))]. }
  intros _. next (λ (_ : unit), env_ok env'); [apply triple_modify; intros s; by apply env_ok_frame|]. intros _.
  next (λ (_ : Z), env_ok env'); [eapply triple_post; [apply triple_observe|]; intros b s [? _]; done|]. intros n.
  next (λ (_ : list Z), env_ok env'); [eapply triple_post; [by apply triple_lift|]; intros b s [? _]; done|]. intros data.
  apply triple_disk_io; [intros s; by apply env_ok_frame|done|done].
Qed.

Lemma triple_and {A} (B P P' : Engine T → Prop) (m : M (World T) A) Q Q' :
  triple B P m Q → triple (λ _, True) P' m Q' → triple B (λ s, P s ∧ P' s) m (λ v s, Q v s ∧ Q' v s).
Proof.
  intros H1 H2 w [Hp Hp'] Hs. specialize (H1 w Hp Hs). specialize (H2 w Hp' ltac:(by apply Forall_true)). unfold wp in *.
  destruct (m w) as [w' [b|e]]; naive_solver.
Qed.

Lemma write_triple ack env key value ts : (_validate_write config key value ts = Ok () → new_entry key value ts ∈ sub) →
  triple (inv ack) (λ s, inv ack s ∧ env_ok env s) (write hs crc32 config env key value ts) (λ _, inv (new_entry key value ts :: ack)).
Proof.
  intros Hx. set (x := new_entry key value ts). unfold write.
  next (λ up s, (inv ack s ∧ env_ok env s) ∧ up = started s); [apply triple_observe|]. intros [|]; [|apply triple_raise; intros s [[? _] _]; done]. cbn [negb].
  next (λ (u : unit) s, ((inv ack s ∧ env_ok env s) ∧ true = started s) ∧ _validate_write config key value ts = Ok u);
    [apply triple_lift; intros s [[? _] _]; done|]. intros [].
  eapply (triple_fact _ _ (_validate_write config key value ts = Ok ())); [by intros s [_ ?]|]. intros Hv.
  specialize (Hx Hv). destruct (validate_write_inv _ _ _ Hv) as (Hk & _ & Ht).
  next (λ (_ : unit) s, appended hs crc32 sub ack x s ∧ env_ok env s).
  - eapply triple_pre; [eapply triple_and; [|apply append_frame]|intros s [[[Hi He] Hst] _]; exact (conj (conj Hi (eq_sym Hst)) He)].
    apply append_triple; try done. intros n. unfold x, new_entry. by destruct value as [v|].
  - intros []. next (λ (_ : unit) s, inv (x :: ack) s ∧ env_ok env s).
    + apply triple_modify. intros s [Ha He]. split; [|by apply (env_ok_frame env s)].
      replace (match value with Some v => _ | None => _ end) with (store (memtable s) x) by (unfold x, new_entry; by destruct value).
      by apply insert_inv.
    + intros []. next (λ (_ : bool) s, inv (x :: ack) s ∧ env_ok env s); [eapply triple_post; [apply triple_observe|]; intros b s [? _]; done|].
      assert (∀ a, a ∈ ack → a ∈ x :: ack) as Hb by (intros a Ha; by right). intros []; [by apply flush_triple|].
      eapply triple_pre; [apply (triple_ret _ (λ _, inv (x :: ack)))|]. by intros s [? _].
Qed.

(** ** Stopping and crashing *)

Lemma stopped_inv ack s : inv ack s → inv ack (with_started false s).
Proof.
  intros [H1 H2 H3 H4 H5 H6 (es & Hl & Hs & Hc) H8 _]. split; cbn; try done. exists es. split; [|done].
  destruct (started s && _); [by apply log_unclean|done].
Qed.

Lemma stop_triple ack env : triple (inv ack) (λ s, inv ack s ∧ env_ok env s) (stop hs config env) (λ _, inv ack).
Proof.
  intros w Hp Hs. pose proof (flush_triple ack ack env ltac:(done) w Hp Hs) as Hf. unfold stop, wp in *.
  destruct (_flush_memtable hs config env w) as [w' r]. destruct (close_raises env); [destruct r; done|].
  destruct r as [[]|e]; destruct Hf as [H1 H2]; split; try done; cbn; by apply stopped_inv.
Qed.

Lemma crash_inv ack s : inv ack s → inv ack (new_engine config (wal_file s) (files s)).
Proof.
  intros [H1 H2 H3 H4 _ _ (es & Hl & Hs & Hc) _ _]. split; cbn; try done.
  - apply empty_ok.
  - by intros t Ht%not_elem_of_nil.
  - constructor.
  - exists es. split; [|done]. destruct (started s && _); [by apply log_unclean|done].
Qed.

(** ** Starting *)

Lemma load_ok ack s env : inv ack s → listing env ≡ₚ dkeys (files s) → ∃ tables, _load_sstables env (files s) = Ok tables ∧
  (∀ t, t ∈ tables → ∃ data, dget (file_path (metadata t)) (files s) = Some data ∧ table_ok (file_path (metadata t)) data t) ∧
  NoDup ((λ t, file_path (metadata t)) <$> tables) ∧ ∀ x, on_disk (files s) x → in_tables tables x.
Proof.
  intros Hi Hl. unfold _load_sstables. set (open := λ p, match dget p (files s) with Some data => load_from_bytes p data | None => Raise ValueError end).
  assert (∀ p, p ∈ listing env → ∃ t data, open p = Ok t ∧ dget p (files s) = Some data ∧ table_ok p data t) as Hopen.
  { intros p Hp. rewrite Hl in Hp. apply dmem_spec, dmem_true in Hp as [data Hd]. destruct (iv_files _ _ _ _ _ Hi p data Hd) as [t Ht].
    exists t, data. unfold open. rewrite Hd. split; [apply Ht|done]. }
  destruct (mapR_exists open (listing env)) as [ts Hts]; [intros p Hp; destruct (Hopen p Hp) as (t & _ & E & _); eauto|]. rewrite Hts. cbn [rbind].
  pose proof (mapR_Ok_inv _ _ _ Hts) as Hf. eexists. split; [done|].
  assert (∀ t, t ∈ ts → ∃ p data, p ∈ listing env ∧ open p = Ok t ∧ dget p (files s) = Some data ∧ table_ok p data t) as Hall.
  { intros t (i & Ht)%list_elem_of_lookup. destruct (Forall2_lookup_r _ _ _ _ _ Hf Ht) as (p & Hp & E). apply list_elem_of_lookup_2 in Hp.
    destruct (Hopen p Hp) as (t' & data & E' & Hd & K). injection (eq_trans (eq_sym E) E') as ->. by exists p, data. }
  split; [|split].
  - intros t Ht. rewrite sort_by_perm in Ht. destruct (Hall t Ht) as (p & data & _ & _ & Hd & K). exists data. by rewrite (tk_path _ _ _ _ _ K).
  - rewrite sort_by_perm. assert ((λ t, file_path (metadata t)) <$> ts = listing env) as ->.
    { clear Hts Hall. rewrite <- (list_fmap_id (listing env)) at 1. clear Hl. revert Hopen. induction Hf as [|p t l ts E Hf IH]; intros Hopen; [done|]. rewrite !fmap_cons. f_equal.
      - destruct (Hopen p (list_elem_of_here _ _)) as (t' & data & E' & _ & K). injection (eq_trans (eq_sym E) E') as ->. by apply (tk_path _ _ _ _ _ K).
      - apply IH. intros q Hq. apply Hopen. by right. }
    rewrite Hl. apply (iv_dict _ _ _ _ _ Hi).
  - intros x (p & data & t & Hd & Hld & Hx). exists t. split; [|done]. rewrite sort_by_perm.
    assert (p ∈ listing env) as (i & Hp)%list_elem_of_lookup by (rewrite Hl; apply dmem_spec, dmem_true; by eexists).
    destruct (Forall2_lookup_l _ _ _ _ _ Hf Hp) as (t' & Ht' & E). unfold open in E. rewrite Hd, Hld in E. injection E as ->. by eapply list_elem_of_lookup_2.
Qed.

(** The tables in memory are all of the directory. *)
Definition loaded s : Prop := started s = false ∧ ∀ x, on_disk (files s) x → in_tables (sstables s) x.

(** The log is clean and has the entries of [ws]. *)
Definition replayed (ack : list Entry) (ws : list (WALEntry T)) s : Prop :=
  log_of crc32 (wal_file s) (entry_of <$> ws) true ∧ (∀ x, x ∈ entry_of <$> ws → x ∈ sub) ∧
  ∀ a, a ∈ ack → covers (λ x, x ∈ entry_of <$> ws ∨ on_disk (files s) x) a.

Lemma replay_triple ack env :
  triple (inv ack) (λ s, inv ack s ∧ loaded s) (replay crc32 env) (λ ws s, (inv ack s ∧ loaded s) ∧ replayed ack ws s).
Proof.
  clear rate_length. unfold replay. next (λ (_ : unit) s, inv ack s ∧ loaded s).
  { apply triple_disk_io; [done|by intros s [? _]|]. intros s _ [Hi [Hst Hld]]. cbn. destruct (iv_disk _ _ _ _ _ Hi) as (es & Hl & Hs & Hc).
    replace (id s) with (with_wal (wal_file s) s) by (by destruct s). apply (inv_log _ _ _ _ _ _ es); try done. rewrite Hst in *. done. }
  intros _. next (λ data s, (inv ack s ∧ loaded s) ∧ data = wal_file s); [apply triple_observe|]. intros data.
  next (λ r s, ((inv ack s ∧ loaded s) ∧ data = wal_file s) ∧ read_all_entries crc32 data = Ok r); [apply triple_lift; intros s [[? _] _]; done|].
  intros [ws n]. cbn [fst snd].
  set (R := λ s : Engine T, (inv ack s ∧ loaded s) ∧ replayed ack ws s).
  assert (∀ s cut err, ((inv ack s ∧ loaded s) ∧ data = wal_file s) ∧ read_all_entries crc32 data = Ok (ws, n) → (cut = true ∨ (err = false → zlen data <= n)) →
    let wal := if cut : bool then take (Z.to_nat n) data else data in
    inv ack (with_log (max_sequence ws (wal_sequence s)) err (with_wal wal s)) ∧ inv ack (with_log (wal_sequence s) err (with_wal wal s)) ∧
    (cut = true ∨ zlen data <= n → replayed ack ws (with_wal wal s))) as Hcut.
  { intros s cut err [[[Hi [Hst Hld]] ->] Hr] Hce. destruct (iv_disk _ _ _ _ _ Hi) as (es & Hl & Hs & Hc). rewrite Hst in Hl.
    destruct (log_read crc32 _ _ _ Hl) as (ws' & n' & Hr' & <- & Htk & Hfull). injection (eq_trans (eq_sym Hr) Hr') as <- <-. cbv zeta.
    assert (log_of crc32 (if cut then take (Z.to_nat n) (wal_file s) else wal_file s) (entry_of <$> ws) (started s && negb err)) as Hl'.
    { rewrite Hst. cbn. destruct cut; [by apply log_unclean|done]. }
    split; [|split]; [by apply (inv_log _ _ _ _ _ _ (entry_of <$> ws))..|]. intros Hor. split; [|done]. cbn. destruct cut; [done|]. apply Hfull. by destruct Hor. }
  next (λ (_ : unit) s, R s).
  { destruct (n <? zlen data) eqn:En.
    - apply triple_disk_io.
      + intros s Hp. destruct (Hcut s true (io_error s) Hp) as (_ & H1 & H2); [auto|]. cbv zeta in *. split; [|by apply H2; left].
        destruct Hp as [[[_ Hld] _] _]. split; [|done].
        replace (with_wal _ s) with (with_log (wal_sequence s) (io_error s) (with_wal (take (Z.to_nat n) data) s)) by (by destruct s). done.
      + by intros s [[? _] _].
      + intros s cut Hp. destruct (Hcut s cut true Hp) as (_ & H1 & _); [by right|]. cbv zeta in *. destruct Hp as [[_ ->] _]. destruct cut; [done|].
        by destruct s.
    - eapply triple_pre; [apply (triple_ret _ (λ _, R))|]. intros s Hp. destruct (Hcut s false (io_error s) Hp) as (_ & _ & H2); [right; lia|].
      cbv zeta in H2. destruct Hp as [[Hp ->] _]. split; [done|]. specialize (H2 ltac:(right; lia)). by destruct s. }
  intros _. next (λ (_ : unit) s, R s).
  { apply triple_modify. intros s [[Hi Hld] (H1 & H2 & H3)]. split; [|done]. split; [|done].
    replace s with (with_wal (wal_file s) s) at 2 by (by destruct s). apply (inv_log _ _ _ _ _ _ (entry_of <$> ws)); try done. by apply log_unclean. }
  intros _. next (λ (_ : unit) s, R s); [apply triple_await; by intros s [[? _] _]|]. intros _. apply (triple_ret _ (λ ws s, (inv ack s ∧ loaded s) ∧ replayed ack ws s)).
Qed.

Lemma restore_all (ws : list (WALEntry T)) m : memtable_ok m → (∀ x, x ∈ entry_of <$> ws → x ∈ sub) →
  memtable_ok (foldl restore m ws) ∧ (∀ x, in_mem (foldl restore m ws) x → x ∈ entry_of <$> ws ∨ in_mem m x) ∧
  ∀ x, x ∈ entry_of <$> ws ∨ in_mem m x → covers (in_mem (foldl restore m ws)) x.
Proof.
  revert m. induction ws as [|w ws IH]; intros m Hm Hs; cbn [foldl].
  { split; [done|]. split; [auto|]. intros x [Hx%not_elem_of_nil|Hx]; [done|by apply covers_self]. }
  rewrite fmap_cons in *. rewrite restore_store. assert (memtable_ok (store m (entry_of w))) as Hm'.
  { apply store_ok; [done|]. specialize (Hs (entry_of w) ltac:(by left)). apply sub_fine in Hs as [[] _]. done. }
  destruct (IH _ Hm' ltac:(intros x Hx; apply Hs; by right)) as (H1 & H2 & H3). split; [done|]. split.
  - intros x Hx. destruct (H2 x Hx) as [Hin|Hin%in_mem_store]; [left; by right|]. destruct Hin as [->|Hin]; [left; by left|auto].
  - intros x Hx. assert (x ∈ entry_of <$> ws ∨ (x = entry_of w ∨ in_mem m x)) as [Hin|Hin].
    { destruct Hx as [[->|Hx]%elem_of_cons|Hx]; auto. }
    + apply H3. auto.
    + eapply covers_mono; [|by apply (store_covers m (entry_of w) x)]. intros y Hy. apply H3. auto.
Qed.

Lemma start_triple ack env : triple (inv ack) (λ s, inv ack s ∧ listing env ≡ₚ dkeys (files s)) (start crc32 env) (λ _ s, inv ack s ∧ started s = true).
Proof.
  unfold start. next (λ up s, (inv ack s ∧ listing env ≡ₚ dkeys (files s)) ∧ up = started s); [apply triple_observe|].
  intros [|]; [apply triple_raise; by intros s [[? _] _]|].
  next (λ f s, ((inv ack s ∧ listing env ≡ₚ dkeys (files s)) ∧ false = started s) ∧ f = files s); [apply triple_observe|]. intros f.
  next (λ tables s, (((inv ack s ∧ listing env ≡ₚ dkeys (files s)) ∧ false = started s) ∧ f = files s) ∧ _load_sstables env f = Ok tables);
    [apply triple_lift; by intros s [[[? _] _] _]|]. intros tables.
  next (λ (_ : unit) s, inv ack s ∧ loaded s).
  { apply triple_modify. intros s [[[[Hi Hl] Hst] ->] Hload]. destruct (load_ok ack s env Hi Hl) as (tables' & E & H1 & H2 & H3).
    injection (eq_trans (eq_sym Hload) E) as <-. destruct Hi as [I1 I2 I3 I4 _ _ I7 I8 _]. split; [|done]. split; cbn; try done. by rewrite <- Hst. }
  intros _. eapply triple_bind; [apply replay_triple|]. intros ws. cbv beta. next (λ (_ : unit) s, inv ack (with_started true s)).
  - apply triple_modify. intros s [[Hi [Hst Hld]] (Hl & Hs & Hc)]. destruct Hi as [I1 I2 I3 I4 I5 I6 I7 I8 _].
    destruct (restore_all ws (memtable s) I1 Hs) as (R1 & R2 & R3).
    assert (∀ a, a ∈ ack → covers (λ x, in_mem (foldl restore (memtable s) ws) x ∨ on_disk (files s) x) a) as Hcov.
    { intros a Ha. eapply covers_mono; [|by apply Hc]. intros x [Hx|Hx]; [|apply covers_self; auto].
      destruct (R3 x ltac:(auto)) as (y & Hy & ?). exists y. auto. }
    split; cbn; try done.
    + intros x Hx. destruct (R2 x Hx); auto.
    + exists (entry_of <$> ws). split; [by apply log_unclean|done].
    + intros _ a Ha. eapply covers_mono; [|by apply Hcov]. intros x [Hx|Hx]; apply covers_self; auto.
  - intros _. apply triple_modify. intros s Hi. split; [done|by destruct s].
Qed.
End keeps.
End run.
