(* ===== verification/EngineProps.v ===== *)
(** * Correctness of the storage engine

    Reads of a started engine return submitted writes that are at least as new as every
    acknowledged one, a stopped engine starts again on a working disk, and a scan agrees
    with the lookups. *)
From S2P Require Import Prelude PyList PyDict MemTable Bloom Effects Codec SSTable SSTableRead SSTableOpen Wal Compaction Engine EngineInv EngineRun.
Local Open Scope Z_scope.

Section history.
Context {T : Type} `{Time T} (hs : Hashing) (crc32 : list Z → Z) (config : StorageConfig).
Local Notation Entry := (@MemTableEntry T).
Implicit Types (x y a : Entry) (es : list Entry) (s v : Engine T) (t : SSTable T) (env : Env T) (op : Op T).
Local Notation inv := (inv hs crc32).

(** The writes that pass validation. *)
Definition submitted op : list Entry :=
  match op with
  | Put key value ts => if decide (_validate_write config key (Some value) ts = Ok ()) then [new_entry key (Some value) ts] else []
  | Delete key ts => if decide (_validate_write config key None ts = Ok ()) then [new_entry key None ts] else []
  | _ => []
  end.

(** No key among the writes has a zero byte. *)
Definition zero_free es : Prop := ∀ x, x ∈ es → ∀ b, b ∈ utf8 (me_key x) → b ≠ 0.

(** [sub] was submitted, [ack] was acknowledged. *)
Inductive reach : list Entry → list Entry → Engine T → Prop :=
| reach_new : reach [] [] (new_engine config [] [])
| reach_op sub ack s env op mid s' r :
    reach sub ack s → env_ok env s → run hs crc32 config env op s = (mid, s', r) →
    reach (submitted op ++ sub) (if decide (r = Ok ()) then submitted op ++ ack else ack) s'.

(** Every key that passes validation is read as a submitted write, at least as new as the acknowledged ones. *)
Definition serves (sub ack : list Entry) v : Prop :=
  ∀ key, _validate_key key = Ok () → ∃ res, get hs v key = Ok res ∧
    match res with
    | Some r => (∃ x, x ∈ sub ∧ me_key x = key ∧ r = storage_result x true) ∧
        ∀ a, a ∈ ack → me_key a = key → pyle (me_timestamp a) (r_timestamp r) = true
    | None => ∀ a, a ∈ ack → me_key a ≠ key
    end.

(** ** Lookups *)

Definition newer (best candidate : option Entry) : option Entry :=
  match candidate, best with
  | Some c, Some x => if pylt (me_timestamp x) (me_timestamp c) then Some c else best
  | Some c, None => Some c
  | None, _ => best
  end.

Lemma newest_of_eq key ts best : (∀ t, t ∈ ts → represents hs t (entries t)) →
  newest_of hs key ts best = Ok (foldl newer best ((λ t, lookup_key key (entries t)) <$> ts)).
Proof.
  revert best. induction ts as [|t ts IH]; intros best Hr; [done|]. cbn [newest_of fmap list_fmap foldl].
  pose proof (Hr t (list_elem_of_here _ _)) as Ht. destruct (rp_filter _ _ _ Ht key) as (b & -> & Hb). cbn [rbind].
  assert ((if b then SSTable.get hs t key else Ok None) = Ok (lookup_key key (entries t))) as ->.
  { destruct b; [by apply get_ok|]. by rewrite Hb. }
  cbn [rbind]. rewrite IH by (intros; apply Hr; by right). done.
Qed.

Lemma newer_best (l : list (option Entry)) best :
  (∀ x, foldl newer best l = Some x → best = Some x ∨ Some x ∈ l) ∧
  ∀ x, best = Some x ∨ Some x ∈ l → ∃ y, foldl newer best l = Some y ∧ pyle (me_timestamp x) (me_timestamp y) = true.
Proof.
  revert best. induction l as [|c l IH]; intros best; cbn [foldl].
  { split; [auto|]. intros x [->|Hx%not_elem_of_nil]; [|done]. exists x. auto using pyle_refl. }
  destruct (IH (newer best c)) as [IH1 IH2]. split.
  - intros x Hx. destruct (IH1 x Hx) as [E|Hin]; [|right; by right]. unfold newer in E.
    destruct c as [c|], best as [b|]; [destruct (pylt _ _)|..]; simplify_eq; auto; right; by left.
  - intros x Hx. assert (∃ z, (newer best c = Some z ∨ Some z ∈ l) ∧ pyle (me_timestamp x) (me_timestamp z) = true) as (z & Hz & Hle).
    { rewrite elem_of_cons in Hx. unfold newer. destruct Hx as [->|[<-|Hx]]; [| |exists x; auto using pyle_refl].
      - destruct c as [c|]; [destruct (pylt _ _) eqn:El|]; eauto using pyle_refl. exists c. split; [auto|by apply pylt_le].
      - destruct best as [b|]; [destruct (pylt _ _) eqn:El|]; eauto using pyle_refl. exists b. split; [auto|by apply pylt_false]. }
    destruct (IH2 z Hz) as (y & Hy & Hle'). exists y. split; [done|by eapply pyle_trans].
Qed.

Lemma tables_represent sub ack v t : inv sub ack v → t ∈ sstables v → represents hs t (entries t).
Proof. intros Hi Ht. destruct (iv_tables _ _ _ _ _ Hi t Ht) as (d & _ & K). apply K. Qed.

Lemma lookup_key_in t x : represents hs t (entries t) → x ∈ entries t → lookup_key (me_key x) (entries t) = Some x.
Proof. intros Hr (i & Hx)%list_elem_of_lookup. eapply lookup_key_at; [apply Hr|done]. Qed.

Lemma inv_serves sub ack v : inv sub ack v → started v = true → serves sub ack v.
Proof.
  intros Hi Hst key Hk. unfold get. rewrite Hk. cbn [rbind]. rewrite newest_of_eq by (intros t; by eapply tables_represent). cbn [rbind].
  set (l := _ <$> sstables v). set (b := MemTable.get (memtable v) key). destruct (newer_best l b) as [Hs Hn].
  assert (∀ x, b = Some x ∨ Some x ∈ l → me_key x = key ∧ x ∈ sub) as Hall.
  { intros x [Hx|(t & E & Ht)%list_elem_of_fmap].
    - assert (me_key x = key) as E by (by apply (mt_keys _ (iv_mem _ _ _ _ _ Hi))). split; [done|]. apply (iv_mem_sub _ _ _ _ _ Hi). unfold in_mem. by rewrite E.
    - symmetry in E. apply lookup_key_elem in E as [Hx Ek]. split; [done|]. destruct (iv_tables _ _ _ _ _ Hi t Ht) as (d & _ & K). by apply (tk_sub _ _ _ _ _ K). }
  assert (∀ a, a ∈ ack → me_key a = key → ∃ x, (b = Some x ∨ Some x ∈ l) ∧ pyle (me_timestamp a) (me_timestamp x) = true) as Hcov.
  { intros a Ha Ek. destruct (iv_read _ _ _ _ _ Hi Hst a Ha) as (x & Hx & Hkx & Hle). exists x. split; [|done].
    destruct Hx as [Hx|(t & Ht & Hx)]; [left; by rewrite <- Hx, Hkx, Ek|right]. apply list_elem_of_fmap. exists t. split; [|done].
    rewrite <- Ek, <- Hkx. symmetry. apply lookup_key_in; [by eapply tables_represent|done]. }
  eexists. split; [done|]. destruct (foldl newer b l) as [y|] eqn:Ey; cbn.
  - destruct (Hall y (Hs y eq_refl)) as [Hyk Hy]. split; [by exists y|]. intros a Ha Ek. destruct (Hcov a Ha Ek) as (x & Hx & Hle).
    destruct (Hn x Hx) as (y' & [= <-] & Hle'). by eapply pyle_trans.
  - intros a Ha Ek. destruct (Hcov a Ha Ek) as (x & Hx & _). by destruct (Hn x Hx) as (y & ? & _).
Qed.

(** ** Steps of a run *)

Hypothesis rate_length : length (bloom_rate hs) = 8%nat.

Lemma act_ok sub ack env op s mid s' r : (∀ x, x ∈ sub → fine x) → inv sub ack s → env_ok env s → (∀ x, x ∈ submitted op → x ∈ sub) →
  run hs crc32 config env op s = (mid, s', r) → inv sub ack s' ∧ Forall (inv sub ack) mid ∧ (r = Ok () → inv sub (submitted op ++ ack) s').
Proof.
  intros Hf Hi He Hop. unfold run. destruct (act _ _ _ env op _) as [w r'] eqn:E. intros [= <- <- <-].
  assert (∀ s0 x, inv sub (x :: ack) s0 → inv sub ack s0) as Hc by (intros s0 x; apply inv_mono; intros; by right).
  destruct op as [key value ts|key ts| | |]; cbn [submitted act] in *.
  - edestruct (triple_run (inv sub ack) _ _ (λ s, inv sub (new_entry key (Some value) ts :: ack) s) s w r'
      (write_triple hs crc32 config rate_length sub Hf ack env key (Some value) ts ltac:(intros; apply Hop; rewrite decide_True by done; by left))
      ltac:(intros; by eapply Hc) (conj Hi He) E) as (H1 & H2 & H3). split; [done|]. split; [done|]. intros Hr. specialize (H3 Hr). case_decide; [done|by eapply Hc].
  - edestruct (triple_run (inv sub ack) _ _ (λ s, inv sub (new_entry key None ts :: ack) s) s w r'
      (write_triple hs crc32 config rate_length sub Hf ack env key None ts ltac:(intros; apply Hop; rewrite decide_True by done; by left))
      ltac:(intros; by eapply Hc) (conj Hi He) E) as (H1 & H2 & H3). split; [done|]. split; [done|]. intros Hr. specialize (H3 Hr). case_decide; [done|by eapply Hc].
  - edestruct (triple_run (inv sub ack) _ _ (inv sub ack) s w r' (stop_triple hs crc32 config rate_length sub Hf ack env) ltac:(done) (conj Hi He) E) as (? & ? & ?). auto.
  - edestruct (triple_run (inv sub ack) _ _ (λ s, inv sub ack s ∧ started s = true) s w r' (start_triple hs crc32 sub Hf ack env) ltac:(by intros ? [? _]) (conj Hi (eo_listing _ _ He)) E) as (? & ? & H3).
    split; [done|]. split; [done|]. intros Hr. by apply H3.
  - injection E as <- <-. cbn. split; [by apply crash_inv|]. split; [done|]. intros _. by apply crash_inv.
Qed.

Lemma submitted_fine op x : zero_free (submitted op) → x ∈ submitted op → fine x.
Proof.
  intros Ho Hx. specialize (Ho x Hx).
  assert (∃ key value ts, _validate_write config key value ts = Ok () ∧ x = new_entry key value ts) as (key & value & ts & Hv & ->).
  { destruct op as [key value ts|key ts| | |]; cbn in *; try by apply not_elem_of_nil in Hx.
    all: case_decide as Hd; [apply list_elem_of_singleton in Hx as ->; eauto|by apply not_elem_of_nil in Hx]. }
  destruct (validate_write_inv config _ _ _ Hv) as (Hk & Hl & Ht). split; [split; try done; by destruct value|]. by split.
Qed.

Lemma inv_more sub sub' ack s : (∀ x, x ∈ sub → x ∈ sub') → inv sub ack s → inv sub' ack s.
Proof.
  intros Hsub [H1 H2 H3 H4 H5 H6 (es & Hl & Hs & Hc) H8 H9].
  assert (∀ p d t, table_ok hs sub p d t → table_ok hs sub' p d t) as Ht by (intros p d t []; split; auto).
  split; try done.
  - auto.
  - intros p d Hd. destruct (H3 p d Hd) as [t K]. eauto.
  - intros t Hin. destruct (H5 t Hin) as (d & Hd & K). eauto.
  - exists es. auto.
Qed.

Lemma zero_free_app es1 es2 : zero_free (es1 ++ es2) ↔ zero_free es1 ∧ zero_free es2.
Proof. unfold zero_free. setoid_rewrite elem_of_app. naive_solver. Qed.

Lemma reach_inv sub ack s : reach sub ack s → zero_free sub → inv sub ack s ∧ ∀ x, x ∈ sub → fine x.
Proof.
  induction 1 as [|sub ack s env op mid s' r Hr IH He Hrun]; intros Hz.
  - split; [|by intros ? ?%not_elem_of_nil]. split; cbn; try done.
    + apply empty_ok.
    + apply dict_nil_ok.
    + by intros t Ht%not_elem_of_nil.
    + constructor.
    + exists []. split; [apply log_unclean, log_nil|]. by split; intros ? ?%not_elem_of_nil.
  - apply zero_free_app in Hz as [Ho Hz]. destruct (IH Hz) as [Hi Hf].
    assert (∀ x, x ∈ submitted op ++ sub → fine x) as Hf'.
    { intros x [Hx|Hx]%elem_of_app; [by eapply submitted_fine|auto]. }
    split; [|done]. edestruct (act_ok (submitted op ++ sub) ack env op s mid s' r) as (H1 & _ & H3); try done.
    + eapply inv_more; [|done]. intros x Hx. apply elem_of_app. auto.
    + intros x Hx. apply elem_of_app. auto.
    + case_decide; auto.
Qed.

(** ** A scan *)

(** The later of two entries, the second one on a tie. *)
Definition later (old new : option Entry) : option Entry :=
  match old, new with
  | Some o, Some n => if pyle (me_timestamp o) (me_timestamp n) then new else old
  | _, None => old
  | None, _ => new
  end.

Lemma scan_entry_get d e key : (∀ k x, dget k d = Some x → me_key x = k) →
  dget key (scan_entry d e) = (if decide (me_key e = key) then later (dget key d) (Some e) else dget key d) ∧
  (∀ k x, dget k (scan_entry d e) = Some x → me_key x = k).
Proof.
  intros Hd. assert (scan_entry d e = d ∨ scan_entry d e = dset (me_key e) e d) as Hor.
  { unfold scan_entry. destruct (dget _ d); [destruct (pyle _ _)|]; auto. }
  split.
  - unfold scan_entry, later. case_decide as Ek; [subst key|].
    + destruct (dget (me_key e) d) as [o|] eqn:Eo; [destruct (pyle _ _); [|done]|]; apply dget_dset_eq.
    + destruct (dget (me_key e) d) as [o|]; [destruct (pyle _ _); [|done]|]; by apply dget_dset_ne.
  - intros k x. destruct Hor as [->| ->]; [apply Hd|]. rewrite dget_dset. case_decide; [by intros [= <-]|apply Hd].
Qed.

Lemma scan_entries_get es d key : keys_ascend es → (∀ k x, dget k d = Some x → me_key x = k) →
  dget key (foldl scan_entry d es) = later (dget key d) (lookup_key key es) ∧ (∀ k x, dget k (foldl scan_entry d es) = Some x → me_key x = k).
Proof.
  intros Hs. revert d. induction Hs as [|e es Hs IH Hall]; intros d Hd; cbn [foldl]; [split; [by destruct (dget key d)|done]|].
  destruct (scan_entry_get d e key Hd) as [H1 H2]. destruct (IH _ H2) as [H3 H4]. split; [|done]. rewrite H3, H1.
  unfold lookup_key. rewrite filter_cons. case_decide as Ek; [|done]. cbn [head]. rewrite filter_none; [by destruct (later _ _)|].
  intros x Hx E. rewrite Forall_forall in Hall. specialize (Hall x Hx). rewrite Ek, E, pylt_irrefl in Hall. done.
Qed.

Lemma scan_tables_get ts key : (∀ t, t ∈ ts → keys_ascend (entries t)) →
  let d := foldl (λ d t, foldl scan_entry d (entries t)) [] (rev ts) in
  dget key d = foldl later None (rev ((λ t, lookup_key key (entries t)) <$> ts)) ∧ (∀ k x, dget k d = Some x → me_key x = k).
Proof.
  induction ts as [|t ts IH]; intros Hs; [done|]. rewrite fmap_cons. cbn [rev]. rewrite !foldl_app. cbn [foldl].
  destruct IH as [H1 H2]; [intros; apply Hs; by right|]. rewrite <- H1. apply scan_entries_get; [apply Hs; by left|done].
Qed.

(** The first of the newest, from the left, is the last of the newest, from the right. *)
Lemma newer_later (l : list (option Entry)) best : foldl newer best l = later (foldl later None (rev l)) best.
Proof.
  revert best. induction l as [|c l IH]; intros best; [by destruct best|]. cbn [foldl rev]. rewrite IH, foldl_app. cbn [foldl].
  set (o := foldl later None (rev l)). unfold newer, later. destruct c as [c|], best as [b|], o as [o|]; try done.
  - destruct (pylt (me_timestamp b) (me_timestamp c)) eqn:E1, (pyle (me_timestamp o) (me_timestamp c)) eqn:E2; cbn.
    + apply negb_true_iff in E1. by rewrite E1.
    + destruct (pyle (me_timestamp o) (me_timestamp b)) eqn:E3; [|done]. rewrite (pyle_trans _ _ _ E3 (pylt_le _ _ E1)) in E2. done.
    + rewrite (pylt_false _ _ E1), (pyle_trans _ _ _ E2 (pylt_false _ _ E1)). done.
    + done.
  - unfold pylt. by destruct (pyle (me_timestamp c) (me_timestamp b)).
  - destruct (pyle _ _); done.
Qed.

Lemma dget_fmap {A B} (f : A → B) (d : dict string A) key : dget key ((λ kv, (kv.1, f kv.2)) <$> d) = f <$> dget key d.
Proof. induction d as [|[k v] d IH]; [done|]. rewrite fmap_cons. cbn. by destruct (decide (key = k)). Qed.

Lemma scan_lookup sub ack s key : inv sub ack s → _validate_key key = Ok () → ∃ best, get hs s key = Ok ((λ e, storage_result e true) <$> best) ∧
  dget key (scan s) = (λ e, storage_result e (negb (is_tombstone e))) <$> best.
Proof.
  intros Hi Hk. pose proof (iv_mem _ _ _ _ _ Hi) as Hm. unfold get, scan. rewrite Hk. cbn [rbind].
  rewrite newest_of_eq by (intros t; by eapply tables_represent). cbn [rbind]. eexists. split; [done|]. rewrite (dget_fmap (λ e, storage_result e (negb (is_tombstone e)))). f_equal.
  destruct (scan_tables_get (sstables s) key) as [H1 H2]; [intros t Ht; apply (tables_represent _ _ _ _ Hi Ht)|].
  destruct (scan_entries_get (entries_sorted (memtable s)) _ key (sorted_ascend _ Hm) H2) as [-> _]. rewrite H1, newer_later. f_equal.
  destruct (MemTable.get (memtable s) key) as [x|] eqn:Ex.
  - assert (me_key x = key) as <- by (by apply (mt_keys _ Hm)). assert (x ∈ entries_sorted (memtable s)) as (i & Hx)%list_elem_of_lookup by (by apply sorted_in_mem).
    by apply (lookup_key_at _ i), Hx; apply sorted_ascend.
  - apply lookup_key_None. intros x Hx%sorted_in_mem E; [|done]. unfold in_mem in Hx. congruence.
Qed.

(** ** A restart *)

Lemma start_succeeds sub ack s env : (∀ x, x ∈ sub → fine x) → inv sub ack s → started s = false → env_ok env s → read_raises env = false → repair_raises env = None →
  ∃ mid s', run hs crc32 config env Start s = (mid, s', Ok ()) ∧ started s' = true ∧ inv sub ack s'.
Proof.
  intros Hf Hi Hst He Hr Hp. assert (∃ mid s', run hs crc32 config env Start s = (mid, s', Ok ()) ∧ started s' = true) as (mid & s' & E & Hst').
  { destruct (load_ok hs crc32 sub ack s env Hi (eo_listing _ _ He)) as (ts & Hl & _). destruct (iv_disk _ _ _ _ _ Hi) as (es & Hlog & _).
    destruct (log_read crc32 _ _ _ Hlog) as (ws & n & Hread & _). unfold run. cbn [act]. unfold start, mbind, observe, mlift, modify, mret. cbn [now seen].
    rewrite Hst. cbn [now seen]. rewrite Hl. unfold replay, mbind, disk_io, mbind, observe, mlift, modify, await, mret. rewrite Hr, Hp. cbn.
    unfold read_all_entries in Hread. rewrite Hread. cbn. destruct (n <? zlen (wal_file s)); cbn; eauto. }
  exists mid, s'. split; [done|]. split; [done|]. by destruct (act_ok sub ack env Start s mid s' (Ok ()) Hf Hi He ltac:(by intros ? ?%not_elem_of_nil) E) as (? & _).
Qed.
End history.

(** C3: acknowledged writes survive.  Whatever the calls to the operating system of the
    operations so far did - raise after any prefix of a write to the log, leave or not
    leave a published, truncated or unlinked file - and wherever processes crashed: in
    every state that a started engine can be observed in, also in the middle of an
    operation, a lookup succeeds and returns a write that was submitted for the key, no
    older than every acknowledged write of it; if it finds nothing, nothing was.  This is
    so as long as no key written until then has a zero byte: the code accepts such keys,
    and [zero_byte_key_lost] shows an acknowledged write of one that is lost. *)
Theorem storage_durable {T} `{Time T} hs crc32 config sub ack (s : Engine T) env op mid s' r :
  length (bloom_rate hs) = 8%nat → reach hs crc32 config sub ack s → env_ok env s → zero_free (submitted config op ++ sub) →
  run hs crc32 config env op s = (mid, s', r) →
  (∀ v, v ∈ mid → started v = true → serves hs (submitted config op ++ sub) ack v) ∧
  (started s' = true → serves hs (submitted config op ++ sub) (if decide (r = Ok ()) then submitted config op ++ ack else ack) s').
Proof.
  intros Hr Hre He Hz Hrun. pose proof (proj2 (proj1 (zero_free_app _ _) Hz)) as Hz0.
  destruct (reach_inv hs crc32 config Hr _ _ _ Hre Hz0) as [Hi Hf].
  destruct (reach_inv hs crc32 config Hr _ _ _ (reach_op _ _ _ _ _ _ _ _ _ _ _ Hre He Hrun) Hz) as [Hi' Hf'].
  destruct (act_ok hs crc32 config Hr (submitted config op ++ sub) ack env op s mid s' r) as (_ & Hmid & _); try done.
  - eapply inv_more; [|done]. intros x Hx. apply elem_of_app. auto.
  - intros x Hx. apply elem_of_app. auto.
  - rewrite Forall_forall in Hmid. split; [intros v Hv; eapply inv_serves; by apply Hmid|by eapply inv_serves].
Qed.

(** C4: recovery succeeds.  From every reachable state that is not started - after a
    stop, a failed start or a crash, with whatever a torn write or an interrupted flush or
    compaction left on the disk - [start] on a disk that now works raises nothing, and the
    engine serves every acknowledged write, as long as no key written before has a zero
    byte ([zero_byte_key_lost] shows why). *)
Theorem storage_restarts {T} `{Time T} hs crc32 config sub ack (s : Engine T) env :
  length (bloom_rate hs) = 8%nat → reach hs crc32 config sub ack s → zero_free sub → started s = false →
  env_ok env s → read_raises env = false → repair_raises env = None →
  ∃ mid s', run hs crc32 config env Start s = (mid, s', Ok ()) ∧ started s' = true ∧ serves hs sub ack s'.
Proof.
  intros Hr Hre Hz Hst He H1 H2. destruct (reach_inv hs crc32 config Hr _ _ _ Hre Hz) as [Hi Hf].
  destruct (start_succeeds hs crc32 config Hr sub ack s env Hf Hi Hst He H1 H2) as (mid & s' & ? & ? & ?). exists mid, s'. eauto using inv_serves.
Qed.

(** A scan is all lookups.  In every reachable state [scan] has, for each key, the
    same entry that [get] finds, also when several tables and the table in memory have
    entries of the key with the same timestamp. *)
Theorem scan_agrees {T} `{Time T} hs crc32 config sub ack (s : Engine T) key :
  length (bloom_rate hs) = 8%nat → reach hs crc32 config sub ack s → zero_free sub → _validate_key key = Ok () →
  ∃ best, get hs s key = Ok ((λ e, storage_result e true) <$> best) ∧
    dget key (scan s) = (λ e, storage_result e (negb (is_tombstone e))) <$> best.
Proof. intros Hr Hre Hz Hk. destruct (reach_inv hs crc32 config Hr _ _ _ Hre Hz) as [Hi _]. by eapply scan_lookup. Qed.

(** ** Concrete runs *)

Module Demo.
Import Seconds.
Definition crc : list Z → Z := foldr Z.add 0.
Definition env (n : string) (time : Z) (l : list string) (torn : option nat) : Env Z :=
  mk_env torn None None None (λ _, false) false false false None ("f" +:+ n) ("c" +:+ n) time (time + 1) l.
(** Every write flushes; two tables of a level are compacted. *)
Definition config : StorageConfig := mk_config 1 2 1000.
Definition step (s : Engine Z) (x : Env Z * Op Z) : Engine Z := (run demo_hashing crc config x.1 x.2 s).1.2.
Definition runs : list (Env Z * Op Z) → Engine Z := foldl step (new_engine config [] []).
Definition file (n : string) : string := sstable_filename 0 ("f" +:+ n).

(** A write is flushed, the next one is torn, and the process crashes. *)
Definition crashed : Engine Z := runs
  [(env "0" 10 [] None, Start); (env "1" 11 [] None, Engine.Put "k" [1] 5); (env "2" 13 [file "1"] (Some 10%nat), Engine.Put "k" [2] 6);
   (env "3" 14 [file "1"] None, Crash)].

Lemma env_fresh n time l w (s : Engine Z) ns : String.length n = 1%nat → n ∉ ns → dkeys (files s) = file <$> ns → Forall (λ m, String.length m = 1%nat) ns →
  l = dkeys (files s) → env_ok (env n time l w) s.
Proof.
  intros Hn Hin Hf Hl ->. assert (∀ lv c, String.length c = 1%nat → (∀ m, m ∈ ns → c +:+ n ≠ "f" +:+ m) → sstable_filename lv (c +:+ n) ∉ dkeys (files s)) as Hall.
  { intros lv c Hc Hne. rewrite Hf. intros (m & E & Hm)%list_elem_of_fmap. rewrite Forall_forall in Hl. apply (Hne m Hm), (filename_inj lv 0); [|done].
    destruct c as [|c1 [|]]; [done| |done]. change (S (String.length n) = S (String.length m)). by rewrite Hn, Hl. }
  split; cbn [flush_id compact_id listing env]; [intros lv; apply Hall; [done|]|intros lv; apply Hall; [done|]| |done].
  - intros m Hm E. unfold String.append in E. injection E as E. by subst.
  - intros m Hm. discriminate.
  - intros lv lv' E. apply filename_inj in E; [discriminate|done].
Qed.

Lemma reach_next sub ack l e op : reach demo_hashing crc config sub ack (runs l) → env_ok e (runs l) →
  reach demo_hashing crc config (submitted config op ++ sub) (if decide ((run demo_hashing crc config e op (runs l)).2 = Ok ()) then submitted config op ++ ack else ack)
    (runs (l ++ [(e, op)])).
Proof.
  intros Hr He. assert (runs (l ++ [(e, op)]) = (run demo_hashing crc config e op (runs l)).1.2) as -> by (unfold runs; by rewrite foldl_app).
  apply (reach_op demo_hashing crc config sub ack (runs l) e op (run demo_hashing crc config e op (runs l)).1.1 _ (run demo_hashing crc config e op (runs l)).2); [done|done|].
  by destruct (run demo_hashing crc config e op (runs l)) as [[m s'] r].
Qed.

Definition one := [new_entry "k" (Some [1]) 5].

Ltac new_ids ns := apply (env_fresh _ _ _ _ _ ns);
  [reflexivity|apply (bool_decide_unpack _); vm_compute; exact I|vm_compute; reflexivity|repeat constructor|vm_compute; reflexivity].

Lemma crashed_reach : reach demo_hashing crc config (new_entry "k" (Some [2]) 6 :: one) one crashed.
Proof.
  assert (reach demo_hashing crc config [] [] (runs [])) as R by apply reach_new.
  apply (reach_next _ _ _ (env "0" 10 [] None) Start) in R; [|by new_ids (@nil string)].
  apply (reach_next _ _ _ (env "1" 11 [] None) (Engine.Put "k" [1] 5)) in R; [|by new_ids (@nil string)].
  apply (reach_next _ _ _ (env "2" 13 [file "1"] (Some 10%nat)) (Engine.Put "k" [2] 6)) in R; [|by new_ids ["1"]].
  apply (reach_next _ _ _ (env "3" 14 [file "1"] None) Crash) in R; [|by new_ids ["1"]].
  match type of R with reach _ _ _ ?a ?b _ => assert (a = new_entry "k" (Some [2]) 6 :: one) as Ea by (vm_compute; reflexivity);
    assert (b = one) as Eb by (vm_compute; reflexivity) end.
  rewrite Ea, Eb in R. exact R.
Qed.

Lemma crashed_env : env_ok (env "4" 20 [file "1"] None) crashed.
Proof. new_ids ["1"]. Qed.

Lemma crashed_zero_free : zero_free (new_entry "k" (Some [2]) 6 :: one).
Proof.
  intros x Hx. assert (utf8 (me_key x) = [107]) as -> by (repeat apply elem_of_cons in Hx as [->|Hx]; try reflexivity; by apply not_elem_of_nil in Hx).
  intros b Hb. apply list_elem_of_singleton in Hb as ->. discriminate.
Qed.
End Demo.
Import Seconds.

Lemma storage_durable_witness :
  let s := (run demo_hashing Demo.crc Demo.config (Demo.env "4" 20 [Demo.file "1"] None) Start Demo.crashed).1.2 in
  started s = true ∧ get demo_hashing s "k" = Ok (Some (mk_result "k" (Some [1]) 5 false true)) ∧
  serves demo_hashing (new_entry "k" (Some [2]) 6 :: Demo.one) Demo.one s.
Proof.
  intros s. assert (started s = true) as Hs by (vm_compute; reflexivity). split; [exact Hs|]. split; [vm_compute; reflexivity|].
  pose proof (storage_durable demo_hashing Demo.crc Demo.config (new_entry "k" (Some [2]) 6 :: Demo.one) Demo.one Demo.crashed (Demo.env "4" 20 [Demo.file "1"] None) Start
    (run demo_hashing Demo.crc Demo.config (Demo.env "4" 20 [Demo.file "1"] None) Start Demo.crashed).1.1 s
    (run demo_hashing Demo.crc Demo.config (Demo.env "4" 20 [Demo.file "1"] None) Start Demo.crashed).2 eq_refl Demo.crashed_reach Demo.crashed_env Demo.crashed_zero_free) as Hd.
  destruct Hd as [_ Hd]; [unfold s; by destruct (run _ _ _ _ _ _) as [[? ?] ?]|]. specialize (Hd Hs). cbn [submitted app] in Hd. by case_decide.
Defined.

Lemma storage_restarts_witness :
  ∃ mid s', run demo_hashing Demo.crc Demo.config (Demo.env "4" 20 [Demo.file "1"] None) Start Demo.crashed = (mid, s', Ok ()) ∧ started s' = true ∧
    serves demo_hashing (new_entry "k" (Some [2]) 6 :: Demo.one) Demo.one s'.
Proof. apply (storage_restarts demo_hashing Demo.crc Demo.config); [reflexivity|apply Demo.crashed_reach|apply Demo.crashed_zero_free|vm_compute; reflexivity|apply Demo.crashed_env|reflexivity|reflexivity]. Defined.

Lemma scan_agrees_witness :
  ∃ best, get demo_hashing Demo.crashed "k" = Ok ((λ e, storage_result e true) <$> best) ∧
    dget "k" (scan Demo.crashed) = (λ e, storage_result e (negb (is_tombstone e))) <$> best.
Proof. apply (scan_agrees demo_hashing Demo.crc Demo.config (new_entry "k" (Some [2]) 6 :: Demo.one) Demo.one Demo.crashed "k"); [reflexivity|apply Demo.crashed_reach|apply Demo.crashed_zero_free|reflexivity]. Defined.

(** A key with zero bytes can end in a footer of its own: the 40 bytes behind its first
    byte are taken for the footer of the table, whose smallest and greatest key are then
    empty.  The write is acknowledged, flushed and cut from the log, and no lookup finds
    it: the condition on zero bytes cannot be dropped from the theorems. *)
Definition footer_key : string := String.string_of_list_ascii ((λ b, Ascii.ascii_of_N (Z.to_N b)) <$>
  97 :: le_encode 8 59 ++ le_encode 8 53 ++ le_encode 8 108 ++ le_encode 4 1 ++ replicate 12 0).
Lemma zero_byte_key_lost :
  let s := Demo.runs [(Demo.env "0" 10 [] None, Start)] in
  let '(_, s', r) := run demo_hashing Demo.crc Demo.config (Demo.env "1" 11 [] None) (Engine.Put footer_key [1] 5) s in
  r = Ok () ∧ wal_file s' = [] ∧ _validate_key footer_key = Ok () ∧ get demo_hashing s' footer_key = Ok None.
Proof. vm_compute. split_and!; reflexivity. Qed.

(** With equal timestamps the last write of a key wins in memory and among the tables in
    the order they were written, but a compacted table goes in front of newer tables of
    lower levels: the first value of [k] is read after it was overwritten. *)
Lemma compaction_reorders_ties :
  let put n time key v := (Demo.env n time [] None, Engine.Put key [v] 5) in
  let s := Demo.runs [(Demo.env "0" 10 [] None, Start); put "1" 11 "k" 1; put "2" 13 "a" 1; put "3" 15 "b" 1; put "4" 17 "c" 1] in
  let '(_, s', r) := run demo_hashing Demo.crc Demo.config (put "5" 19 "k" 2).1 (put "5" 19 "k" 2).2 s in
  r = Ok () ∧ (λ t, level (metadata t)) <$> sstables s' = [2; 0] ∧ get demo_hashing s' "k" = Ok (Some (mk_result "k" (Some [1]) 5 false true)).
Proof. vm_compute. split_and!; reflexivity. Qed.
