(* ===== verification/HotelStore.v ===== *)
(** * The shard of a hotel: catalog, inventory and bookings

    Models the tables of schema.py and bookings.py, catalog.py and store.py of
    src/hotel-reservation-system/src/hotel_reservation, but for the reads of
    HotelReads.v.  A table is a dictionary by its primary key; an operation is a
    transaction, which raises with the tables as they were.  Dates are the numbers of
    days of the calendar and times are milliseconds, added exactly; the currency is the
    constant USD and has no field.  The digests of requests and of hotels are parameters. *)
From Stdlib Require Import Ascii.
From S2P Require Import Prelude PyList PyDict Checks Effects.
Local Open Scope Z_scope.

Record Hotel := mk_hotel { h_name : string; h_address : string; h_active : bool }.
Record Room := mk_room { r_name : string; r_description : string; r_active : bool }.
Record Inventory := mk_inventory { capacity : Z; overbook : Z; price : Z; reserved : Z; version : Z }.

Inductive Status := PENDING | CONFIRMED | CANCELLED | EXPIRED | REJECTED.
Inductive Payment := NONE | CHARGING | PAID | DECLINED | REFUND_PENDING | REFUNDED.
Inductive JobStatus := pending | inflight | finished.
Inductive Action := charge | refund.
#[export] Instance status_eq_dec : EqDecision Status. Proof. solve_decision. Defined.
#[export] Instance payment_eq_dec : EqDecision Payment. Proof. solve_decision. Defined.
#[export] Instance jobstatus_eq_dec : EqDecision JobStatus. Proof. solve_decision. Defined.
#[export] Instance action_eq_dec : EqDecision Action. Proof. solve_decision. Defined.

Record Booking := mk_booking {
  b_hotel : string; b_room : string; b_user : string; b_key : string; b_hash : string;
  b_start : Z; b_end : Z; b_quantity : Z; b_amount : Z;
  b_status : Status; b_payment : Payment; b_held : bool;
  b_expires : Z; b_created : Z; b_method : string;
}.

Record Job := mk_job {
  j_booking : string; j_action : Action; j_status : JobStatus;
  j_attempts : Z; j_due : Z; j_lease : Z; j_token : string; j_error : string;
}.

(** A row of the journal; its sequence number is its place. *)
Record Event := mk_event { e_booking : string; e_kind : string; e_amount : option Z; e_created : Z }.

Notation Day := (string * string * Z)%type.

Record Shard := mk_shard {
  hotels : dict string Hotel;
  rooms : dict (string * string) Room;
  inventory : dict Day Inventory;
  bookings : dict string Booking;
  nights : dict (string * Z) Z;
  jobs : dict string Job;
  events : list Event;
  revision : Z;
}.

Definition set_catalog h r (s : Shard) : Shard := mk_shard h r (inventory s) (bookings s) (nights s) (jobs s) (events s) (revision s).
Definition set_inventory i (s : Shard) : Shard := mk_shard (hotels s) (rooms s) i (bookings s) (nights s) (jobs s) (events s) (revision s).
Definition set_bookings b n (s : Shard) : Shard := mk_shard (hotels s) (rooms s) (inventory s) b n (jobs s) (events s) (revision s).
Definition set_jobs j (s : Shard) : Shard := mk_shard (hotels s) (rooms s) (inventory s) (bookings s) (nights s) j (events s) (revision s).
Definition set_booking id b (s : Shard) : Shard := set_bookings (dset id b (bookings s)) (nights s) s.
Definition with_status st held (b : Booking) : Booking :=
  mk_booking (b_hotel b) (b_room b) (b_user b) (b_key b) (b_hash b) (b_start b) (b_end b) (b_quantity b) (b_amount b)
    st (b_payment b) held (b_expires b) (b_created b) (b_method b).
Definition with_payment p (b : Booking) : Booking :=
  mk_booking (b_hotel b) (b_room b) (b_user b) (b_key b) (b_hash b) (b_start b) (b_end b) (b_quantity b) (b_amount b)
    (b_status b) p (b_held b) (b_expires b) (b_created b) (b_method b).

Definition emit booking kind amount now (s : Shard) : Shard :=
  mk_shard (hotels s) (rooms s) (inventory s) (bookings s) (nights s) (jobs s) (events s ++ [mk_event booking kind amount now]) (revision s).
Definition changed (s : Shard) : Shard :=
  mk_shard (hotels s) (rooms s) (inventory s) (bookings s) (nights s) (jobs s) (events s) (revision s + 1).

Definition action_name (a : Action) : string := match a with charge => "charge" | refund => "refund" end.
Definition job_id (a : Action) (booking : string) : string := action_name a +:+ ":" +:+ booking.

(** [INSERT OR IGNORE]; due now. *)
Definition add_job booking action now (s : Shard) : Shard :=
  let id := job_id action booking in
  if dmem id (jobs s) then s else set_jobs (dset id (mk_job booking action pending 0 now 0 "" "") (jobs s)) s.

(** ** Times and stays *)

Definition MS_PER_DAY : Z := 86400000.
Definition _now (clock : Z) : result Z := raise_if (negb (integer clock 0 253402300799000)) ValueError (Ok clock).
Definition today (now : Z) : Z := now / MS_PER_DAY.

(** The days from [start] to [end]. *)
Definition days (first last : Z) : list Z := seqZ first (last - first).

Definition stay (first last now : Z) : result (list Z) :=
  raise_if (negb (integer (last - first) 1 30)) ValueError (
  raise_if ((first <? today now) || (today now + 730 <? last)) ValueError (Ok (days first last))).

Definition text (s : string) (maximum : Z) : result string := raise_if (negb (integer (text_length s) 1 maximum)) ValueError (Ok s).

(** ** Identifiers of bookings *)

Fixpoint split_dot (l acc : list ascii) : list (list ascii) :=
  match l with
  | [] => [rev acc]
  | c :: l' => if bool_decide (c = "."%char) then rev acc :: split_dot l' [] else split_dot l' (c :: acc)
  end.
Definition hex_char (c : ascii) : bool := let n := Z.of_N (N_of_ascii c) in integer n 97 102 || integer n 48 57.
Definition booking_hotel (id : string) : result string :=
  match split_dot (String.list_ascii_of_string id) [] with
  | [h; d] =>
      raise_if (negb ((length d =? 32)%nat && forallb hex_char d)) ValueError (
      let hotel := String.string_of_list_ascii h in raise_if (negb (identifier hotel)) ValueError (Ok hotel))
  | _ => Raise ValueError
  end.

(** ** Inventory *)

Definition limit (i : Inventory) : Z := capacity i + capacity i * overbook i / 100.
Definition occupy (n : Z) (i : Inventory) : Inventory := mk_inventory (capacity i) (overbook i) (price i) (reserved i + n) (version i + 1).

(** The rows of a room in a range of days, in their order. *)
Definition select_days (hotel room : string) (ds : list Z) (inv : dict Day Inventory) : list (Z * Inventory) :=
  omap (λ d, pair d <$> dget (hotel, room, d) inv) ds.

(** One conditional update for each day. *)
Fixpoint reserve_days (hotel room : string) (quantity : Z) (ds : list Z) (inv : dict Day Inventory) : result (dict Day Inventory) :=
  match ds with
  | [] => Ok inv
  | d :: ds' =>
      match dget (hotel, room, d) inv with
      | Some i => if reserved i + quantity <=? limit i
                  then reserve_days hotel room quantity ds' (dset (hotel, room, d) (occupy quantity i) inv)
                  else Raise (StatusError 409)
      | None => Raise (StatusError 409)
      end
  end.

(** One update of the range, with the number of rows it changes. *)
Fixpoint release_days (hotel room : string) (quantity : Z) (ds : list Z) (inv : dict Day Inventory) : dict Day Inventory * Z :=
  match ds with
  | [] => (inv, 0)
  | d :: ds' =>
      match dget (hotel, room, d) inv with
      | Some i => if quantity <=? reserved i
                  then let r := release_days hotel room quantity ds' (dset (hotel, room, d) (occupy (- quantity) i) inv) in (r.1, r.2 + 1)
                  else release_days hotel room quantity ds' inv
      | None => release_days hotel room quantity ds' inv
      end
  end.

Record View := mk_view { v_id : string; v_booking : Booking; v_nights : list (Z * Z) }.

Definition nights_of (id : string) (s : Shard) : list (Z * Z) :=
  sort_by fst ((λ kv, (kv.1.2, kv.2)) <$> filter (λ kv, kv.1.1 = id) (nights s)).

Record ReserveBody := mk_reserve {
  rb_hotel : string; rb_room : string; rb_start : Z; rb_end : Z; rb_quantity : Z;
  rb_request_key : string; rb_expected_total : Z; rb_payment_method : string;
}.

(** The shard of a hotel, the digest of a body, and the first 32 digits of the digest of a user and a key. *)
Record Digests := mk_digests {
  shard_for : string → Z → Z;
  fingerprint_of : ReserveBody → string;
  key_digest : string → string → string;
}.
Record Settings := mk_settings { shard : Z; shards : Z; hold_time : Z }.

Section store.
Context (dg : Digests) (cf : Settings).
Implicit Types (s : Shard) (hotel room user id : string) (now : Z).

Definition owner hotel : result unit :=
  raise_if (negb (identifier hotel)) ValueError (
  raise_if (negb (shard_for dg hotel (shards cf) =? shard cf)) (StatusError 409) (Ok ())).

Definition check_identifier (v : string) : result unit := raise_if (negb (identifier v)) ValueError (Ok ()).

(** ** Bookings *)

(** [booking]; what it does not show (hash, key, method) stays in the row. *)
Definition booking s id (user : option string) : result View :=
  let* _ := booking_hotel id in
  let* _ := match user with Some u => check_identifier u | None => Ok () end in
  match dget id (bookings s) with
  | Some b => if match user with Some u => bool_decide (u ≠ b_user b) | None => false end then Raise (StatusError 404)
              else Ok (mk_view id b (nights_of id s))
  | None => Raise (StatusError 404)
  end.

Definition room_active s hotel room : bool :=
  match dget (hotel, room) (rooms s), dget hotel (hotels s) with Some r, Some h => r_active r && h_active h | _, _ => false end.

(** The booking of a request key. *)
Definition find_request s hotel user key : option (string * Booking) :=
  head (filter (λ kv, b_hotel kv.2 = hotel ∧ b_user kv.2 = user ∧ b_key kv.2 = key) (bookings s)).

Definition reserve user (body : ReserveBody) (clock : Z) s : result (Shard * View) :=
  let hotel := rb_hotel body in let room := rb_room body in let key := rb_request_key body in
  let* _ := check_identifier hotel in
  let* _ := check_identifier room in
  let* _ := check_identifier key in
  let* _ := owner hotel in
  let* _ := check_identifier user in
  raise_if (negb (integer (rb_quantity body) 1 10)) ValueError (
  raise_if (negb (integer (rb_expected_total body) 0 30000000000)) ValueError (
  raise_if (bool_decide (rb_payment_method body ≠ "test-ok" ∧ rb_payment_method body ≠ "test-decline")) ValueError (
  let id := hotel +:+ "." +:+ key_digest dg user key in
  match find_request s hotel user key with
  | Some (old, b) =>
      raise_if (bool_decide (b_hash b ≠ fingerprint_of dg body)) (StatusError 409) (
      let* v := booking s old (Some user) in Ok (s, v))
  | None =>
      let* now := _now clock in
      let* ds := stay (rb_start body) (rb_end body) now in
      raise_if (negb (room_active s hotel room)) (StatusError 404) (
      let rows := select_days hotel room ds (inventory s) in
      raise_if (negb (length rows =? length ds)%nat) (StatusError 409) (
      let total := rb_quantity body * zsum (λ r, price r.2) rows in
      raise_if (negb (total =? rb_expected_total body)) (StatusError 409) (
      let* inv := reserve_days hotel room (rb_quantity body) ds (inventory s) in
      raise_if (dmem id (bookings s)) IntegrityError (
      let b := mk_booking hotel room user key (fingerprint_of dg body) (rb_start body) (rb_end body) (rb_quantity body) total
                 PENDING NONE true (now + hold_time cf) now (rb_payment_method body) in
      let s := set_bookings (dset id b (bookings s)) (foldl (λ n r, dset (id, r.1) (price r.2) n) (nights s) rows) (set_inventory inv s) in
      let s := changed (emit id "HELD" (Some total) now (add_job id charge now s)) in
      let* v := booking s id (Some user) in Ok (s, v)))))
  end))).

Definition status_name (st : Status) : string :=
  match st with PENDING => "PENDING" | CONFIRMED => "CONFIRMED" | CANCELLED => "CANCELLED" | EXPIRED => "EXPIRED" | REJECTED => "REJECTED" end.

(** [release] of the row [b], which the caller has read. *)
Definition release id (b : Booking) (st : Status) now s : result Shard :=
  let* s := (if b_held b
             then let r := release_days (b_hotel b) (b_room b) (b_quantity b) (days (b_start b) (b_end b)) (inventory s) in
                  raise_if (negb (r.2 =? Z.of_nat (length (nights_of id s)))) (StatusError 503) (Ok (set_inventory r.1 s))
             else Ok s) in
  let s := match dget id (bookings s) with Some row => set_booking id (with_status st false row) s | None => s end in
  Ok (changed (emit id (status_name st) None now s)).

Definition set_payment id (p : Payment) s : Shard :=
  match dget id (bookings s) with Some row => set_booking id (with_payment p row) s | None => s end.

Definition cancel id (user : option string) (clock : Z) s : result (Shard * View) :=
  let* _ := booking s id user in
  match dget id (bookings s) with
  | None => Raise (StatusError 404)
  | Some row =>
      let* s :=
        (if bool_decide (b_status row = PENDING ∨ b_status row = CONFIRMED)
         then
           let* now := _now clock in
           let* s := release id row CANCELLED now s in
           Ok (if bool_decide (b_payment row = PAID) then add_job id refund now (set_payment id REFUND_PENDING s) else s)
         else Ok s) in
      let* v := booking s id user in Ok (s, v)
  end.

Definition history hotel user (after : string) s : result (list View * option string) :=
  let* _ := owner hotel in
  let* _ := check_identifier user in
  let* _ := (if bool_decide (after = "") then Ok () else let* h := booking_hotel after in raise_if (bool_decide (h ≠ hotel)) ValueError (Ok ())) in
  let ids := take 101 (py_sorted (fst <$> filter (λ kv, b_hotel kv.2 = hotel ∧ b_user kv.2 = user ∧ pylt after kv.1 = true) (bookings s))) in
  let* views := mapR (λ id, booking s id (Some user)) (take 100 ids) in
  Ok (views, if (100 <? length ids)%nat then ids !! 99%nat else None).

(** ** Catalog *)

Inductive Manage := Delete | Update (name detail : string).

Definition manage hotel (room : option string) (m : Manage) s : result Shard :=
  let* _ := owner hotel in
  let* _ := match room with Some r => check_identifier r | None => Ok () end in
  let* s :=
    match m, room with
    | Delete, None =>
        match dget hotel (hotels s) with
        | Some h => Ok (set_catalog (dset hotel (mk_hotel (h_name h) (h_address h) false) (hotels s)) (rooms s) s)
        | None => Raise (StatusError 404)
        end
    | Delete, Some r =>
        match dget (hotel, r) (rooms s) with
        | Some x => Ok (set_catalog (hotels s) (dset (hotel, r) (mk_room (r_name x) (r_description x) false) (rooms s)) s)
        | None => Raise (StatusError 404)
        end
    | Update name address, None =>
        let* name := text name 200 in
        let* address := text address 1000 in
        Ok (set_catalog (dset hotel (mk_hotel name address true) (hotels s)) (rooms s) s)
    | Update name description, Some r =>
        raise_if (negb match dget hotel (hotels s) with Some h => h_active h | None => false end) (StatusError 404) (
        let* name := text name 200 in
        let* description := text description 1000 in
        Ok (set_catalog (hotels s) (dset (hotel, r) (mk_room name description true) (rooms s)) s))
    end in
  Ok (changed s).

Record DayRow := mk_day { d_day : Z; d_capacity : Z; d_overbook : Z; d_price : Z }.

(** The upsert of one day; the table's check refuses a limit below what is reserved. *)
Definition put_day hotel room (row : DayRow) (inv : dict Day Inventory) : result (dict Day Inventory) :=
  let k := (hotel, room, d_day row) in
  match dget k inv with
  | None => Ok (dset k (mk_inventory (d_capacity row) (d_overbook row) (d_price row) 0 0) inv)
  | Some i =>
      let i' := mk_inventory (d_capacity row) (d_overbook row) (d_price row) (reserved i) (version i + 1) in
      if reserved i' <=? limit i' then Ok (dset k i' inv) else Raise (StatusError 409)
  end.
Fixpoint put_days hotel room (rows : list DayRow) (inv : dict Day Inventory) : result (dict Day Inventory) :=
  match rows with [] => Ok inv | r :: rows' => let* inv := put_day hotel room r inv in put_days hotel room rows' inv end.

Definition day_ok (r : DayRow) : bool :=
  integer (d_capacity r) 0 100000 && integer (d_overbook r) 0 10 && integer (d_price r) 0 100000000.

Definition set_days hotel room (rows : list DayRow) s : result (Shard * Z) :=
  let* _ := owner hotel in
  let* _ := check_identifier room in
  raise_if (negb (integer (Z.of_nat (length rows)) 1 730)) ValueError (
  raise_if (negb (forallb day_ok rows)) ValueError (
  raise_if (bool_decide (¬ NoDup (d_day <$> rows))) ValueError (
  raise_if (negb (dmem (hotel, room) (rooms s))) (StatusError 404) (
  let* inv := put_days hotel room rows (inventory s) in
  Ok (changed (set_inventory inv s), Z.of_nat (length rows)))))).
End store.
