(* ===== verification/HotelSaga.v ===== *)
(** * The payment jobs of a hotel shard

    Models payment_contracts.py and saga.py of
    src/hotel-reservation-system/src/hotel_reservation: the contracts of operations, jobs
    and receipts, and the expiry of holds, the leases of jobs and their settlement.  A
    body that reached a contract has the fields the code asks for.  The token of a claim
    is an argument, for the random number the code draws. *)
From Stdlib Require Import Ascii.
From S2P Require Import Prelude PyList PyDict Checks HotelStore.
Local Open Scope Z_scope.

(** ** Contracts *)

Record Operation := mk_operation {
  o_id : string; o_action : string; o_booking : string; o_amount : Z; o_currency : string; o_method : string;
}.
#[export] Instance operation_eq_dec : EqDecision Operation. Proof. solve_decision. Defined.
Record Ticket := mk_ticket { t_operation : Operation; t_token : string }.
Record Receipt := mk_receipt {
  r_booking : string; r_amount : Z; r_currency : string; r_status : string; r_simulated : option bool;
}.

Definition MAX_AMOUNT : Z := 30000000000.

Definition normalize_operation (o : Operation) : result Operation :=
  let* _ := booking_hotel (o_booking o) in
  raise_if (bool_decide ((o_action o ≠ "charge" ∧ o_action o ≠ "refund") ∨ o_id o ≠ o_action o +:+ ":" +:+ o_booking o)) ValueError (
  raise_if (negb (integer (o_amount o) 0 MAX_AMOUNT)) ValueError (
  raise_if (bool_decide (o_currency o ≠ "USD" ∨ (o_method o ≠ "test-ok" ∧ o_method o ≠ "test-decline"))) ValueError (Ok o))).

Definition hex32 (token : string) : bool :=
  let l := String.list_ascii_of_string token in (length l =? 32)%nat && forallb hex_char l.

Definition normalize_job (t : Ticket) : result Ticket :=
  let* _ := normalize_operation (t_operation t) in raise_if (negb (hex32 (t_token t))) ValueError (Ok t).

Definition normalize_receipt (r : Receipt) (o : Operation) : result Receipt :=
  raise_if (negb (integer (r_amount r) 0 MAX_AMOUNT)) (StatusError 409) (
  raise_if (bool_decide (r_booking r ≠ o_booking o ∨ r_amount r ≠ o_amount o ∨ r_currency r ≠ "USD")) (StatusError 409) (
  let statuses := if bool_decide (o_action o = "charge") then ["paid"; "declined"] else ["refunded"] in
  raise_if (bool_decide (r_status r ∉ statuses ∨ r_simulated r = Some false)) (StatusError 409) (Ok r))).

(** ** Jobs *)

Definition with_job st attempts due lease token error (j : Job) : Job :=
  mk_job (j_booking j) (j_action j) st attempts due lease token error.
Definition finish_job (j : Job) : Job := with_job finished (j_attempts j) (j_due j) (j_lease j) (j_token j) (j_error j) j.
Definition settle_job (j : Job) : Job := with_job finished (j_attempts j) (j_due j) (j_lease j) (j_token j) "" j.
Definition lease_job (lease : Z) (token : string) (j : Job) : Job :=
  with_job inflight (j_attempts j + 1) (j_due j) lease token (j_error j) j.
Definition retry_job (due : Z) (error : string) (j : Job) : Job :=
  with_job pending (j_attempts j) due (j_lease j) (j_token j) error j.

(** One [UPDATE jobs ... WHERE id=?]. *)
Definition update_job (id : string) (f : Job → Job) (s : Shard) : Shard :=
  match dget id (jobs s) with Some j => set_jobs (dset id (f j) (jobs s)) s | None => s end.

(** The operation of a job, from the row of its booking. *)
Definition intent (id : string) (a : Action) (booking : string) (b : Booking) : Operation :=
  mk_operation id (action_name a) booking (b_amount b) "USD" (b_method b).

(** The fields that [retry] and [finish] compare with the durable intent. *)
Definition same_intent (o : Operation) (a : Action) (booking : string) (b : Booking) : bool :=
  bool_decide (o_booking o = booking ∧ o_action o = action_name a ∧ o_amount o = b_amount b ∧ o_currency o = "USD" ∧ o_method o = b_method b).

Section saga.
Implicit Types (s : Shard) (id : string) (now clock : Z).

Definition overdue now s : list (string * Booking) :=
  take 100 (sort_by (λ kv, (b_expires kv.2, kv.1)) (filter (λ kv, b_status kv.2 = PENDING ∧ b_expires kv.2 <= now) (bookings s))).

Fixpoint expire_all now (rows : list (string * Booking)) s : result Shard :=
  match rows with
  | [] => Ok s
  | (id, b) :: rows' => let* s := release id b EXPIRED now s in expire_all now rows' s
  end.

Definition sweep clock s : result (Shard * Z) :=
  let* now := _now clock in
  let rows := overdue now s in
  let* s := expire_all now rows s in Ok (s, Z.of_nat (length rows)).

Definition ready now (j : Job) : bool :=
  bool_decide (j_status j = pending ∧ j_due j <= now ∨ j_status j = inflight ∧ j_lease j <= now).
Definition next_job now s : option (string * Job) :=
  head (sort_by (λ kv, (j_due kv.2, kv.1)) (filter (λ kv, ready now kv.2 = true) (jobs s))).

Definition claim (lease_ms : Z) (token : string) clock s : result (Shard * option Ticket) :=
  raise_if (negb (integer lease_ms 10 3600000)) ValueError (
  let* now := _now clock in
  match next_job now s with
  | None => Ok (s, None)
  | Some (id, j) =>
      let bid := j_booking j in
      match dget bid (bookings s) with
      | None => Raise TypeError
      | Some b =>
          let first := bool_decide (j_action j = charge) && (j_attempts j =? 0) in
          let* s := (if first && bool_decide (b_status b = PENDING) && (b_expires b <=? now) then release bid b EXPIRED now s else Ok s) in
          match dget bid (bookings s) with
          | None => Raise TypeError
          | Some b =>
              if first && bool_decide (b_status b ≠ PENDING)
              then Ok (emit bid "UNCHARGED" None now (update_job id finish_job s), None)
              else
                let s := update_job id (lease_job (now + lease_ms) token) s in
                let s := if bool_decide (j_action j = charge ∧ b_payment b = NONE) then set_payment bid CHARGING s else s in
                Ok (s, Some (mk_ticket (intent id (j_action j) bid b) token))
          end
      end
  end).

Definition retry_delay (attempts : Z) : Z := Z.min 30000 (100 * 2 ^ Z.min attempts 8).

(** The job that [t] holds the lease of. *)
Definition held_job (t : Ticket) s : option Job :=
  match dget (o_id (t_operation t)) (jobs s) with
  | Some j => if bool_decide (j_status j = inflight ∧ j_token j = t_token t) then Some j else None
  | None => None
  end.

Definition retry (t : Ticket) (message : string) clock s : result Shard :=
  let* t := normalize_job t in
  let message := clip message in
  match held_job t s with
  | None => Ok s
  | Some j =>
      match dget (j_booking j) (bookings s) with
      | None => Ok s
      | Some b =>
          raise_if (negb (same_intent (t_operation t) (j_action j) (j_booking j) b)) (StatusError 409) (
          let* now := _now clock in
          Ok (update_job (o_id (t_operation t)) (retry_job (now + retry_delay (j_attempts j)) message) s))
      end
  end.

(** The effects of a receipt on the booking [row], which [finish] has read. *)
Definition settle id (row : Booking) (o : Operation) (r : Receipt) now s : result Shard :=
  if bool_decide (o_action o = "charge") then
    if bool_decide (r_status r = "declined") then
      let* s := (if bool_decide (b_status row = PENDING) then release id row REJECTED now s else Ok s) in
      Ok (set_payment id DECLINED s)
    else if bool_decide (b_status row = PENDING ∧ now < b_expires row) then
      let s := match dget id (bookings s) with
               | Some b => set_booking id (with_payment PAID (with_status CONFIRMED (b_held b) b)) s
               | None => s
               end in
      Ok (emit id "CONFIRMED" None now s)
    else
      let* s := (if bool_decide (b_status row = PENDING) then release id row EXPIRED now s else Ok s) in
      Ok (emit id "COMPENSATION_REQUIRED" None now (add_job id refund now (set_payment id REFUND_PENDING s)))
  else Ok (emit id "REFUNDED" None now (set_payment id REFUNDED s)).

(** [false]: the lease is another's, or the job is finished. *)
Definition finish (t : Ticket) (r : Receipt) clock s : result (Shard * bool) :=
  let* t := normalize_job t in
  let* r := normalize_receipt r (t_operation t) in
  match held_job t s with
  | None => Ok (s, false)
  | Some j =>
      match dget (j_booking j) (bookings s) with
      | None => Raise TypeError
      | Some row =>
          raise_if (negb (same_intent (t_operation t) (j_action j) (j_booking j) row)) (StatusError 409) (
          let* now := _now clock in
          let* s := settle (j_booking j) row (t_operation t) r now s in
          Ok (update_job (o_id (t_operation t)) settle_job s, true))
      end
  end.

(** ** Reports *)

Record Report := mk_report {
  rp_revision : Z; rp_bookings : nat; rp_unfinished : nat;
  rp_errors : list (string * Z * string); rp_expired : nat;
}.
Definition status clock s : result Report :=
  let* now := _now clock in
  let errors := filter (λ kv, j_status kv.2 ≠ finished ∧ j_error kv.2 ≠ "") (jobs s) in
  Ok (mk_report (revision s) (length (bookings s)) (length (filter (λ kv, j_status kv.2 ≠ finished) (jobs s)))
        ((λ kv, (kv.1, j_attempts kv.2, j_error kv.2)) <$> take 20 (sort_by (λ kv, j_due kv.2) errors))
        (length (filter (λ kv, b_status kv.2 = PENDING ∧ b_expires kv.2 <= now) (bookings s)))).

(** A page of the journal, with the sequence numbers, and where the next begins. *)
Definition events_after (after : Z) s : result (list (Z * Event) * Z) :=
  raise_if (negb (integer after 0 (2 ^ 53))) ValueError (
  let rows := take 100 (filter (λ r, after < r.1) (imap (λ i e, (Z.of_nat i + 1, e)) (events s))) in
  Ok (rows, match last rows with Some r => r.1 | None => after end)).
End saga.
