(* ===== verification/HotelPayment.v ===== *)
(** * The simulated payment provider and the worker of a hotel shard

    Models payment.py and the work of worker.py of
    src/hotel-reservation-system/src/hotel_reservation.  A call of the worker to the shard
    or to the provider is lost on its way, answered, or carried out with its answer lost;
    whatever is not an answer raises in the worker.  Every call reads its clock when it is
    served.  The world is the tables of one shard and of the provider it shares with the
    other shards, with the jobs and the receipts that workers ever received. *)
From S2P Require Import Prelude PyList PyDict Checks Effects HotelStore HotelSaga.
Local Open Scope Z_scope.

Record OperationRow := mk_oprow { op_hash : string; op_result : Receipt; op_attempts : Z }.
Record Charge := mk_charge { c_amount : Z; c_currency : string; c_status : string }.
Record Ledger := mk_ledger {
  operations : dict string OperationRow;
  charges : dict string Charge;
  fail_after_commit : bool;
  fail_refunds : bool;
}.
Definition ledger_empty : Ledger := mk_ledger [] [] false false.
Definition set_operation id row (p : Ledger) : Ledger :=
  mk_ledger (dset id row (operations p)) (charges p) (fail_after_commit p) (fail_refunds p).
Definition set_charge id c (p : Ledger) : Ledger :=
  mk_ledger (operations p) (dset id c (charges p)) (fail_after_commit p) (fail_refunds p).

Definition control (body : option (bool * bool)) (p : Ledger) : Ledger :=
  match body with Some (a, r) => mk_ledger (operations p) (charges p) a r | None => p end.

Section ledger.
(** The digest of an operation. *)
Context (digest : Operation → string).
Implicit Types (p : Ledger) (o : Operation).

(** A new operation: its effect on the charges and its status. *)
Definition apply_operation o p : result (Ledger * string) :=
  raise_if (bool_decide (o_action o = "refund") && fail_refunds p) (StatusError 503) (
  if bool_decide (o_action o = "charge") then
    raise_if (dmem (o_booking o) (charges p)) (StatusError 409) (
    let st := if bool_decide (o_method o = "test-decline") then "declined" else "paid" in
    Ok (set_charge (o_booking o) (mk_charge (o_amount o) "USD" st) p, st))
  else
    match dget (o_booking o) (charges p) with
    | Some c =>
        raise_if (bool_decide (c_status c ≠ "paid" ∨ c_amount c ≠ o_amount o ∨ c_currency c ≠ o_currency o)) (StatusError 409) (
        Ok (set_charge (o_booking o) (mk_charge (c_amount c) (c_currency c) "refunded") p, "refunded"))
    | None => Raise (StatusError 409)
    end).

(** The transaction of [execute]. *)
Definition execute_commit o p : result (Ledger * Receipt) :=
  match dget (o_id o) (operations p) with
  | Some old =>
      raise_if (bool_decide (op_hash old ≠ digest o)) (StatusError 409) (
      Ok (set_operation (o_id o) (mk_oprow (op_hash old) (op_result old) (op_attempts old + 1)) p, op_result old))
  | None =>
      let* x := apply_operation o p in
      let r := mk_receipt (o_booking o) (o_amount o) "USD" x.2 (Some true) in
      Ok (set_operation (o_id o) (mk_oprow (digest o) r 1) x.1, r)
  end.

(** The answer may be lost once the transaction is committed. *)
Definition execute o : M Ledger Receipt := λ p,
  match (let* o := normalize_operation o in execute_commit o p) with
  | Ok (p', r) => (p', if fail_after_commit p then Raise (StatusError 503) else Ok r)
  | Raise e => (p, Raise e)
  end.

Definition provider_status p : nat * Z * list (string * Charge) * nat * bool :=
  let n := length (charges p) in
  (length (operations p), zsum op_attempts (dvalues (operations p)), take 1000 (sort_by fst (charges p)), n, (1000 <? n)%nat).
End ledger.

(** ** The worker *)

Record World := mk_world { w_shard : Shard; w_ledger : Ledger; w_tickets : list Ticket; w_receipts : list (Ticket * Receipt) }.
Definition on_shard s (w : World) : World := mk_world s (w_ledger w) (w_tickets w) (w_receipts w).
Definition on_ledger p (w : World) : World := mk_world (w_shard w) p (w_tickets w) (w_receipts w).
Definition got_ticket t (w : World) : World := mk_world (w_shard w) (w_ledger w) (t :: w_tickets w) (w_receipts w).
Definition got_receipt t r (w : World) : World := mk_world (w_shard w) (w_ledger w) (w_tickets w) ((t, r) :: w_receipts w).

Inductive Delivery := answered | unanswered | lost.

(** What befalls the calls of one round, and the clocks at which they are served. *)
Record Round := mk_round {
  f_sweep : Delivery; f_claim : Delivery; f_execute : Delivery; f_finish : Delivery; f_retry : Delivery;
  k_sweep : Z; k_claim : Z; k_finish : Z; k_retry : Z; k_token : string;
}.

(** One call: an operation that raises has changed nothing on the shard. *)
Definition call {A} (f : Delivery) (op : Shard → result (Shard * A)) : M World A := λ w,
  match f with
  | lost => (w, Raise OSError)
  | _ =>
      match op (w_shard w) with
      | Ok (s, a) => (on_shard s w, match f with answered => Ok a | _ => Raise OSError end)
      | Raise e => (w, Raise e)
      end
  end.

Section worker.
Context (digest : Operation → string).

Definition pay (f : Delivery) (t : Ticket) : M World Receipt := λ w,
  match f with
  | lost => (w, Raise OSError)
  | _ =>
      let x := execute digest (t_operation t) (w_ledger w) in
      (on_ledger x.1 w, match f with answered => x.2 | _ => Raise OSError end)
  end.

Definition remember_receipt (t : Ticket) (r : Receipt) : M World unit := λ w, (got_receipt t r w, Ok ()).

(** The default lease of [/internal/claim] is two seconds. *)
Definition LEASE_MS : Z := 2000.

(** From the execution of the payment to its settlement. *)
Definition settle_work (k : Round) (t : Ticket) : M World bool :=
  do* r := pay (f_execute k) t in
  do* _ := mlift (normalize_receipt r (t_operation t)) in
  do* _ := remember_receipt t r in
  do* _ := call (f_finish k) (finish t r (k_finish k)) in
  mret true.

Definition retry_work (k : Round) (t : Ticket) : M World bool := λ w,
  ((call (f_retry k) (λ s, let* s := retry t "payment or settlement confirmation unavailable" (k_retry k) s in Ok (s, ())) w).1, Ok false).

Definition work (k : Round) : M World bool := λ w,
  match call (f_sweep k) (sweep (k_sweep k)) w with
  | (w, Raise _) => (w, Ok false)
  | (w, Ok _) =>
      match call (f_claim k) (claim LEASE_MS (k_token k) (k_claim k)) w with
      | (w, Raise _) | (w, Ok None) => (w, Ok false)
      | (w, Ok (Some t)) =>
          match normalize_job t with
          | Raise _ => (w, Ok false)
          | Ok t =>
              match settle_work k t (got_ticket t w) with
              | (w, Raise _) => retry_work k t w
              | x => x
              end
          end
      end
  end.
End worker.

(** ** Moves *)

Section moves.
Context (dg : Digests) (cf : Settings) (digest : Operation → string).
Implicit Types w : World.

(** A booking of this shard. *)
Definition ours (id : string) : Prop :=
  ∃ h, booking_hotel id = Ok h ∧ shard_for dg h (shards cf) = shard cf.

(** The requests of users and of operators. *)
Inductive Request :=
| Reserve (user : string) (body : ReserveBody)
| Cancel (id : string) (user : option string)
| ManageCatalog (hotel : string) (room : option string) (m : Manage)
| SetDays (hotel room : string) (rows : list DayRow).

Definition serve (r : Request) (clock : Z) (s : Shard) : result Shard :=
  match r with
  | Reserve user body => let* x := reserve dg cf user body clock s in Ok x.1
  | Cancel id user => let* x := cancel id user clock s in Ok x.1
  | ManageCatalog hotel room m => manage dg cf hotel room m s
  | SetDays hotel room rows => let* x := set_days dg cf hotel room rows s in Ok x.1
  end.

(** Requests and the calls of any number of workers, in any order: each call of a worker
    is made with a job that it was given, at any later time and any number of times, and
    the worker may or may not learn its answer. *)
Inductive move : World → World → Prop :=
| move_request w r clock s : serve r clock (w_shard w) = Ok s → move w (on_shard s w)
| move_sweep w clock s n : sweep clock (w_shard w) = Ok (s, n) → move w (on_shard s w)
| move_claim w lease token clock s t :
    claim lease token clock (w_shard w) = Ok (s, t) → move w (on_shard s w)
| move_claimed w lease token clock s t :
    claim lease token clock (w_shard w) = Ok (s, Some t) → move w (got_ticket t (on_shard s w))
| move_execute w t p x :
    t ∈ w_tickets w → execute digest (t_operation t) (w_ledger w) = (p, x) → move w (on_ledger p w)
| move_executed w t p r :
    t ∈ w_tickets w → execute digest (t_operation t) (w_ledger w) = (p, Ok r) → move w (got_receipt t r (on_ledger p w))
| move_finish w t r clock s b :
    (t, r) ∈ w_receipts w → finish t r clock (w_shard w) = Ok (s, b) → move w (on_shard s w)
| move_retry w t message clock s :
    t ∈ w_tickets w → retry t message clock (w_shard w) = Ok s → move w (on_shard s w)
| move_control w body : move w (on_ledger (control body (w_ledger w)) w)
| move_other w o p x :
    ¬ ours (o_booking o) → execute digest o (w_ledger w) = (p, x) → move w (on_ledger p w).

Definition shard_empty : Shard := mk_shard [] [] [] [] [] [] [] 0.
Definition world_start : World := mk_world shard_empty ledger_empty [] [].
Definition reachable (w : World) : Prop := rtc move world_start w.
End moves.
