(* ===== verification/HotelStock.v ===== *)
(** * The inventory of a hotel shard is what its bookings hold

    The invariant of the tables of inventory, bookings and nights of HotelStore.v: a day
    has reserved exactly what the held bookings that cover it ask for, which is never more
    than its limit, and a booking has one night for each of its days.  It is kept by every
    request, and makes the release of a booking succeed. *)
From S2P Require Import Prelude PyList PyDict Checks HotelStore HotelSaga.
Local Open Scope Z_scope.

(** ** Days of a range *)

Lemma elem_days d first last : d ∈ days first last ↔ first <= d < last.
Proof. unfold days. rewrite elem_of_seqZ. lia. Qed.

Lemma days_nodup first last : NoDup (days first last).
Proof. apply NoDup_seqZ. Qed.

Lemma days_length first last : length (days first last) = Z.to_nat (last - first).
Proof. unfold days. apply length_seqZ. Qed.

Definition day_key (hotel room : string) (d : Z) : Day := (hotel, room, d).

#[export] Instance day_key_inj hotel room : Inj eq eq (day_key hotel room).
Proof. by intros d d' [= ->]. Qed.

Lemma day_key_notin hotel room d (ds : list Z) : d ∉ ds → day_key hotel room d ∉ day_key hotel room <$> ds.
Proof. intros Hd (d' & ->%(inj _) & Hd')%list_elem_of_fmap. done. Qed.

(** The rows of [keys] occupied by [n]; the others as they were. *)
Definition occupied (n : Z) (keys : list Day) (inv inv' : dict Day Inventory) : Prop :=
  dict_ok inv' ∧ ∀ k, dget k inv' = (if bool_decide (k ∈ keys) then occupy n <$> dget k inv else dget k inv).

Lemma occupied_nil n inv : dict_ok inv → occupied n [] inv inv.
Proof. intros Hok. split; [done|]. intros k. by rewrite bool_decide_eq_false_2 by set_solver. Qed.

Lemma occupied_cons n k keys i inv inv' :
  k ∉ keys → dget k inv = Some i → occupied n keys (dset k (occupy n i) inv) inv' → occupied n (k :: keys) inv inv'.
Proof.
  intros Hn Hi [Hok Hk]. split; [done|]. intros k'. rewrite Hk, dget_dset. destruct (decide (k = k')) as [<-|Hne].
  - rewrite bool_decide_eq_false_2 by done. rewrite bool_decide_eq_true_2 by set_solver. by rewrite Hi.
  - case_bool_decide; case_bool_decide; set_solver.
Qed.

Lemma occupied_limit n keys inv inv' k i' :
  occupied n keys inv inv' → dget k inv' = Some i' →
  ∃ i, dget k inv = Some i ∧ limit i' = limit i ∧ reserved i' = reserved i + when (bool_decide (k ∈ keys)) n.
Proof.
  intros [_ Hk] Hi. rewrite Hk in Hi. case_bool_decide; simpl.
  - destruct (dget k inv) as [i|]; [|done]. injection Hi as <-. by exists i.
  - exists i'. split; [done|]. split; [done|lia].
Qed.

Lemma occupied_some n keys inv inv' k : occupied n keys inv inv' → is_Some (dget k inv') ↔ is_Some (dget k inv).
Proof. intros [_ ->]. case_bool_decide; [by rewrite fmap_is_Some|done]. Qed.

Lemma release_days_ok hotel room n ds inv :
  dict_ok inv → NoDup ds → (∀ d, d ∈ ds → ∃ i, dget (day_key hotel room d) inv = Some i ∧ n <= reserved i) →
  ∃ inv', release_days hotel room n ds inv = (inv', Z.of_nat (length ds)) ∧ occupied (- n) (day_key hotel room <$> ds) inv inv'.
Proof.
  revert inv. induction ds as [|d ds IH]; intros inv Hok Hnd Hds; simpl.
  - exists inv. split; [done|]. by apply occupied_nil.
  - apply NoDup_cons in Hnd as [Hd Hnd]. destruct (Hds d) as (i & Hi & Hn); [set_solver|]. unfold day_key in Hi. rewrite Hi.
    rewrite (proj2 (Z.leb_le _ _)) by lia.
    destruct (IH (dset (hotel, room, d) (occupy (- n) i) inv)) as (inv' & E & Hocc); [by apply dset_ok|done| |].
    + intros d' Hd'. rewrite dget_dset. unfold day_key. rewrite decide_False by (intros [= ->]; done). apply Hds. set_solver.
    + exists inv'. rewrite E. simpl. split; [f_equal; lia|].
      eapply occupied_cons; [|exact Hi|exact Hocc]. by apply day_key_notin.
Qed.

Lemma reserve_days_ok hotel room n ds inv inv' :
  dict_ok inv → NoDup ds → reserve_days hotel room n ds inv = Ok inv' →
  occupied n (day_key hotel room <$> ds) inv inv' ∧
  ∀ d, d ∈ ds → ∃ i, dget (day_key hotel room d) inv = Some i ∧ reserved i + n <= limit i.
Proof.
  revert inv. induction ds as [|d ds IH]; intros inv Hok Hnd; simpl.
  - intros [= <-]. split; [by apply occupied_nil|set_solver].
  - apply NoDup_cons in Hnd as [Hd Hnd]. destruct (dget (hotel, room, d) inv) as [i|] eqn:Hi; [|done].
    destruct (Z.leb_spec (reserved i + n) (limit i)) as [Hle|]; [|done]. intros E.
    destruct (IH (dset (hotel, room, d) (occupy n i) inv)) as [Hocc Hlim]; [by apply dset_ok|done|done|].
    split; [eapply occupied_cons; [|exact Hi|exact Hocc]; by apply day_key_notin|].
    intros d' [->|Hd']%elem_of_cons; [by exists i|]. destruct (Hlim d' Hd') as (i' & Hi' & ?). exists i'. split; [|done].
    rewrite dget_dset in Hi'. unfold day_key in Hi'. by rewrite decide_False in Hi' by (intros [= ->]; done).
Qed.

(** ** The invariant *)

Definition live (st : Status) : bool := bool_decide (st = PENDING ∨ st = CONFIRMED).

(** [b] holds a room of the day [k]. *)
Definition covers (k : Day) (b : Booking) : bool :=
  b_held b && bool_decide (k ∈ day_key (b_hotel b) (b_room b) <$> days (b_start b) (b_end b)).
Definition taken (k : Day) (s : Shard) : Z := zsum (λ b, when (covers k b) (b_quantity b)) (dvalues (bookings s)).

Record stock_ok (s : Shard) : Prop := mk_stock_ok {
  so_bookings : dict_ok (bookings s);
  so_inventory : dict_ok (inventory s);
  so_quantity : ∀ id b, dget id (bookings s) = Some b → 1 <= b_quantity b;
  so_reserved : ∀ k i, dget k (inventory s) = Some i → reserved i = taken k s ∧ reserved i <= limit i;
  so_days : ∀ id b d, dget id (bookings s) = Some b → d ∈ days (b_start b) (b_end b) →
    is_Some (dget (day_key (b_hotel b) (b_room b) d) (inventory s));
  so_nights : ∀ id b, dget id (bookings s) = Some b → length (nights_of id s) = length (days (b_start b) (b_end b));
  so_orphans : ∀ id d, is_Some (dget (id, d) (nights s)) → is_Some (dget id (bookings s));
}.

(** The fields that the inventory depends on. *)
Definition same_stay (b b' : Booking) : Prop :=
  b_hotel b' = b_hotel b ∧ b_room b' = b_room b ∧ b_start b' = b_start b ∧ b_end b' = b_end b ∧ b_quantity b' = b_quantity b.

Lemma covers_same k b b' : same_stay b b' → b_held b' = b_held b → covers k b' = covers k b.
Proof. unfold covers. by intros (-> & -> & -> & -> & _) ->. Qed.

Lemma taken_dset id b b' k s s' :
  dget id (bookings s) = Some b → bookings s' = dset id b' (bookings s) →
  taken k s' = taken k s - when (covers k b) (b_quantity b) + when (covers k b') (b_quantity b').
Proof. unfold taken. intros Hb ->. by rewrite (zsum_dset _ id b). Qed.

Lemma taken_nonneg s k : stock_ok s → 0 <= taken k s.
Proof.
  intros Hs. apply zsum_nonneg. intros b Hb. apply elem_dvalues in Hb as [id Hb]; [|apply (so_bookings _ Hs)].
  pose proof (so_quantity _ Hs _ _ Hb). unfold when. destruct (covers k b); lia.
Qed.

(** A booking that covers a day is within what the day has reserved. *)
Lemma taken_covers s id b k : stock_ok s → dget id (bookings s) = Some b → covers k b = true → b_quantity b <= taken k s.
Proof.
  intros Hs Hb Hk. destruct (dget_split id b (bookings s) (so_bookings _ Hs) Hb) as (d1 & d2 & E & _ & _ & _ & _).
  assert (∀ d, (∀ x, x ∈ d → x ∈ bookings s) → 0 <= zsum (λ b, when (covers k b) (b_quantity b)) (dvalues d)) as Hpos.
  { intros d Hd. apply zsum_nonneg. intros x (y & -> & Hy)%list_elem_of_fmap. destruct y as [i x]. apply Hd, dget_Some in Hy; [|apply (so_bookings _ Hs)].
    pose proof (so_quantity _ Hs _ _ Hy). simpl. unfold when. destruct (covers k x); lia. }
  pose proof (Hpos d1 ltac:(rewrite E; set_solver)). pose proof (Hpos d2 ltac:(rewrite E; set_solver)).
  unfold taken. rewrite E. unfold dvalues in *. rewrite fmap_app, fmap_cons, zsum_app. simpl. rewrite Hk. simpl. lia.
Qed.

Lemma taken_free s k : stock_ok s → dget k (inventory s) = None → taken k s = 0.
Proof.
  intros Hs Hk. apply zsum_zero. intros b Hb. apply elem_dvalues in Hb as [id Hb]; [|apply (so_bookings _ Hs)].
  destruct (covers k b) eqn:Hc; [|done]. apply andb_prop in Hc as [_ Hc]. apply bool_decide_eq_true in Hc.
  apply list_elem_of_fmap in Hc as (d & -> & Hd). destruct (so_days _ Hs id b d Hb Hd). congruence.
Qed.

(** What does not change stays, holds or nights keeps the invariant. *)
Lemma stock_frame s s' :
  stock_ok s → inventory s' = inventory s → bookings s' = bookings s → nights s' = nights s → stock_ok s'.
Proof.
  intros [H1 H2 H3 H4 H5 H6 H7] Ei Eb En. unfold taken, nights_of in *. split; unfold taken, nights_of; rewrite ?Ei, ?Eb, ?En; done.
Qed.

(** One booking changes but for its stay, and the inventory by what it no longer holds. *)
Lemma stock_update s s' id b b' keys :
  stock_ok s → dget id (bookings s) = Some b → bookings s' = dset id b' (bookings s) → same_stay b b' → nights s' = nights s →
  occupied (- b_quantity b) keys (inventory s) (inventory s') →
  (∀ k, when (bool_decide (k ∈ keys)) (b_quantity b) = when (covers k b) (b_quantity b) - when (covers k b') (b_quantity b')) →
  stock_ok s'.
Proof.
  intros Hs Hb Eb (E1 & E2 & E3 & E4 & E5) En Hocc Hk. pose proof Hs as [H1 H2 H3 H4 H5 H6 H7]. split.
  - rewrite Eb. by apply dset_ok.
  - apply Hocc.
  - intros id' x. rewrite Eb, dget_dset. case_decide; [intros [= <-]; rewrite E5; eauto|apply H3].
  - intros k i' Hi'. destruct (occupied_limit _ _ _ _ _ _ Hocc Hi') as (i & Hi & -> & ->). destruct (H4 k i Hi) as [Hr Hl].
    rewrite (taken_dset id b b' k s s') by done. specialize (Hk k). pose proof (H3 _ _ Hb). unfold when in *. destruct (bool_decide _); lia.
  - intros id' x d. rewrite Eb, dget_dset, (occupied_some _ _ _ _ _ Hocc). case_decide; [|apply H5].
    intros [= <-]. rewrite E1, E2, E3, E4. by apply (H5 id).
  - intros id' x. unfold nights_of. rewrite En, Eb, dget_dset. case_decide; [|apply H6]. intros [= <-]. subst id'. rewrite E3, E4. by apply H6.
  - intros id' d. rewrite En, Eb, dget_dset. intros Hd. case_decide; [done|by apply (H7 _ d)].
Qed.

(** A change of payment, or of a status that keeps the hold. *)
Lemma stock_same s id b b' :
  stock_ok s → dget id (bookings s) = Some b → same_stay b b' → b_held b' = b_held b → stock_ok (set_booking id b' s).
Proof.
  intros Hs Hb Hsame Hheld. eapply (stock_update s _ id b b' []); try done.
  - apply occupied_nil, Hs.
  - intros k. rewrite bool_decide_eq_false_2 by set_solver. simpl. rewrite (covers_same k b b') by done.
    destruct Hsame as (_ & _ & _ & _ & ->). lia.
Qed.

(** ** Release *)

(** The other tables of a shard whose booking [id] changed. *)
Definition rebooked (id : string) (b' : Booking) (s s' : Shard) : Prop :=
  bookings s' = dset id b' (bookings s) ∧ jobs s' = jobs s ∧ nights s' = nights s.

Lemma release_ok id b st now s :
  stock_ok s → dget id (bookings s) = Some b →
  ∃ s', release id b st now s = Ok s' ∧ stock_ok s' ∧ rebooked id (with_status st false b) s s'.
Proof.
  intros Hs Hb. unfold release. destruct (b_held b) eqn:Hheld; simpl.
  - destruct (release_days_ok (b_hotel b) (b_room b) (b_quantity b) (days (b_start b) (b_end b)) (inventory s)) as (inv' & E & Hocc).
    + apply Hs.
    + apply days_nodup.
    + intros d Hd. destruct (so_days _ Hs id b d Hb Hd) as [i Hi]. exists i. split; [done|].
      destruct (so_reserved _ Hs _ _ Hi) as [-> _]. apply (taken_covers s id); [done|done|]. unfold covers. rewrite Hheld.
      apply bool_decide_eq_true. by apply list_elem_of_fmap_2.
    + rewrite E. simpl. rewrite (so_nights _ Hs id b Hb), Z.eqb_refl. simpl. rewrite Hb. eexists. split; [done|].
      split; [|done]. eapply (stock_update s _ id b); [done|done|reflexivity|done|done|exact Hocc|].
      intros k. unfold covers, with_status. simpl. rewrite Hheld. simpl. lia.
  - rewrite Hb. eexists. split; [done|]. split; [|done].
    eapply (stock_frame (set_booking id (with_status st false b) s)); [|done..]. by apply (stock_same s id b).
Qed.

(** ** Reservations *)

Lemma select_days_sublist hotel room ds inv : sublist (select_days hotel room ds inv).*1 ds.
Proof.
  induction ds as [|d ds IH]; [done|]. unfold select_days. cbn [omap list_omap].
  destruct (dget (hotel, room, d) inv) as [i|]; simpl; by constructor.
Qed.

Lemma sublist_full {A} (l1 l2 : list A) : sublist l1 l2 → (length l2 <= length l1)%nat → l1 = l2.
Proof.
  induction 1 as [|x l1 l2 Hsub IH|x l1 l2 Hsub IH]; simpl; intros Hle; [done|f_equal; apply IH; lia|].
  apply sublist_length in Hsub. lia.
Qed.

(** The nights of a new booking follow those of the others. *)
Lemma add_nights id (rows : list (Z * Inventory)) (ns : dict (string * Z) Z) :
  (∀ d, dget (id, d) ns = None) → NoDup rows.*1 →
  foldl (λ n r, dset (id, r.1) (price r.2) n) ns rows = ns ++ ((λ r, ((id, r.1), price r.2)) <$> rows).
Proof.
  intros Hns Hnd.
  assert (∀ rest : list (Z * Inventory), NoDup ((rest ++ rows).*1) →
    foldl (λ n r, dset (id, r.1) (price r.2) n) (ns ++ ((λ r, ((id, r.1), price r.2)) <$> rest)) rows =
    ns ++ ((λ r, ((id, r.1), price r.2)) <$> rest ++ rows)) as Hfold.
  { clear Hnd. induction rows as [|r rows IH]; intros rest Hnd; simpl; [by rewrite app_nil_r|].
    rewrite dset_new.
    - specialize (IH (rest ++ [r])). rewrite (fmap_app _ rest [r]), app_assoc in IH.
      rewrite <- (app_assoc rest) in IH. by apply IH.
    - unfold dkeys. rewrite fmap_app, elem_of_app. intros [Hin|Hin].
      + by apply (proj1 (dget_None _ _) (Hns r.1)).
      + rewrite <- list_fmap_compose in Hin. apply list_elem_of_fmap in Hin as (r' & E & Hr'). simpl in E. injection E as E.
        rewrite fmap_app, NoDup_app in Hnd. destruct Hnd as (_ & Hd & _). apply (Hd r.1); [|simpl; left].
        rewrite E. by apply list_elem_of_fmap_2. }
  specialize (Hfold []). rewrite fmap_nil, app_nil_r in Hfold. by apply Hfold.
Qed.

Definition night_rows (id : string) (l : list (string * Z * Z)) : list (string * Z * Z) := filter (λ kv, kv.1.1 = id) l.

Lemma night_rows_app id l1 l2 : night_rows id (l1 ++ l2) = night_rows id l1 ++ night_rows id l2.
Proof. apply filter_app. Qed.

Lemma nights_of_length id s : length (nights_of id s) = length (night_rows id (nights s)).
Proof. unfold nights_of. by rewrite sort_by_length, length_fmap. Qed.

Section requests.
Context (dg : Digests) (cf : Settings).

(** What a new reservation has checked and written. *)
Record reserved_as (user : string) (body : ReserveBody) (now : Z) (id : string) (b : Booking) (s s' : Shard) : Prop := mk_reserved_as {
  ra_bookings : bookings s' = dset id b (bookings s);
  ra_id : id = rb_hotel body +:+ "." +:+ key_digest dg user (rb_request_key body);
  ra_hotel : identifier (rb_hotel body) = true ∧ shard_for dg (rb_hotel body) (shards cf) = shard cf;
  ra_new : dget id (bookings s) = None;
  ra_quantity : 1 <= rb_quantity body <= 10;
  ra_dates : rb_end body - rb_start body = Z.of_nat (length (days (rb_start body) (rb_end body)));
  ra_rows : length (select_days (rb_hotel body) (rb_room body) (days (rb_start body) (rb_end body)) (inventory s)) = length (days (rb_start body) (rb_end body));
  ra_amount : 0 <= b_amount b <= MAX_AMOUNT;
  ra_method : b_method b = "test-ok" ∨ b_method b = "test-decline";
  ra_booking : ∃ hash total, b = mk_booking (rb_hotel body) (rb_room body) user (rb_request_key body) hash (rb_start body) (rb_end body) (rb_quantity body) total PENDING NONE true (now + hold_time cf) now (rb_payment_method body);
  ra_inventory : reserve_days (rb_hotel body) (rb_room body) (rb_quantity body) (days (rb_start body) (rb_end body)) (inventory s) = Ok (inventory s');
  ra_nights : nights s' = foldl (λ n r, dset (id, r.1) (price r.2) n) (nights s)
    (select_days (rb_hotel body) (rb_room body) (days (rb_start body) (rb_end body)) (inventory s));
  ra_jobs : ∀ jid, dget jid (jobs s') = if decide (job_id charge id = jid)
    then match dget jid (jobs s) with Some j => Some j | None => Some (mk_job id charge pending 0 now 0 "" "") end else dget jid (jobs s);
  ra_jobs_ok : dict_ok (jobs s) → dict_ok (jobs s');
}.

Lemma stay_days first last now ds : stay first last now = Ok ds → ds = days first last ∧ last - first = Z.of_nat (length ds).
Proof.
  unfold stay. intros [H1 H]%raise_if_Ok. apply raise_if_Ok in H as [_ H]. injection H as <-. split; [done|].
  rewrite days_length. apply negb_false_iff, integer_spec in H1. lia.
Qed.

Lemma add_job_get id a now s jid :
  dget jid (jobs (add_job id a now s)) = if decide (job_id a id = jid)
    then match dget jid (jobs s) with Some j => Some j | None => Some (mk_job id a pending 0 now 0 "" "") end else dget jid (jobs s).
Proof.
  unfold add_job, dmem. case_decide as Hid.
  - subst jid. destruct (dget (job_id a id) (jobs s)) eqn:E; [done|]. simpl. by rewrite dget_dset_eq.
  - destruct (dget (job_id a id) (jobs s)) eqn:E; [done|]. simpl. by rewrite dget_dset_ne.
Qed.

Lemma add_job_ok id a now s : dict_ok (jobs s) → dict_ok (jobs (add_job id a now s)).
Proof. unfold add_job. destruct (dmem _ _); [done|]. apply dset_ok. Qed.

Lemma reserve_inv user body clock s s' v :
  reserve dg cf user body clock s = Ok (s', v) → s' = s ∨ ∃ now id b, reserved_as user body now id b s s'.
Proof.
  unfold reserve, check_identifier, owner. intros H.
  destruct (raise_if _ _ _) as [[]|] eqn:E1 in H; [|done]. simpl in H.
  destruct (raise_if _ _ _) as [[]|] eqn:E2 in H; [|done]. simpl in H.
  destruct (raise_if _ _ _) as [[]|] eqn:E3 in H; [|done]. simpl in H.
  destruct (raise_if _ _ _) as [[]|] eqn:E4 in H; [|done]. simpl in H.
  destruct (raise_if _ _ _) as [[]|] eqn:E5 in H; [|done]. simpl in H.
  apply raise_if_Ok in H as [Hq H]. apply raise_if_Ok in H as [Ha H]. apply raise_if_Ok in H as [Hm H].
  destruct (find_request _ _ _ _) as [[old b]|].
  { apply raise_if_Ok in H as [_ H]. destruct (booking _ _ _) as [v'|]; [|done]. injection H as <- <-. by left. }
  destruct (_now clock) as [now|]; [|done]. simpl in H. destruct (stay _ _ _) as [ds|] eqn:Es; [|done]. simpl in H.
  apply stay_days in Es as [-> Hlen].
  apply raise_if_Ok in H as [_ H]. apply raise_if_Ok in H as [Hrows H]. apply raise_if_Ok in H as [Ht H].
  destruct (reserve_days _ _ _ _ _) as [inv|] eqn:Einv; [|done]. simpl in H. apply raise_if_Ok in H as [Hid H].
  destruct (booking _ _ _) as [v'|]; [|done]. injection H as <- <-. right.
  apply raise_if_Ok in E4 as [E4 E4']. apply raise_if_Ok in E4' as [E4' _].
  apply negb_false_iff in E4, E4', Hq, Ha, Hrows, Ht. apply Z.eqb_eq in E4', Ht. apply Nat.eqb_eq in Hrows.
  apply integer_spec in Hq, Ha. apply bool_decide_eq_false in Hm. apply dmem_false in Hid.
  eexists now, _, _. split; [unfold add_job, dmem; simpl; by destruct (dget _ (jobs s))|..]; try done; simpl.
  - unfold MAX_AMOUNT. simpl. lia.
  - destruct (decide (rb_payment_method body = "test-ok")), (decide (rb_payment_method body = "test-decline")); tauto.
  - by eexists _, _.
  - unfold add_job, dmem. simpl. by destruct (dget _ (jobs s)).
  - unfold add_job, dmem. simpl. by destruct (dget _ (jobs s)).
  - intros jid. etransitivity; [apply add_job_get|done].
  - intros Hok. unfold add_job. simpl. destruct (dmem _ _); [done|]. by apply dset_ok.
Qed.

Lemma stock_reserve user body now id b s s' : stock_ok s → reserved_as user body now id b s s' → stock_ok s'.
Proof.
  intros Hs [Eb Hid Hown Hnew Hq Hdates Hrows Ha Hm (hash & total & ->) Hinv En _ _].
  pose proof Hs as [H1 H2 H3 H4 H5 H6 H7]. set (ds := days (rb_start body) (rb_end body)) in *.
  destruct (reserve_days_ok _ _ _ _ _ _ H2 (days_nodup _ _) Hinv) as [Hocc Hlim]. fold ds in Hocc, Hlim.
  set (rows := select_days _ _ ds _) in *.
  assert (rows.*1 = ds) as Hfst.
  { pose proof (select_days_sublist (rb_hotel body) (rb_room body) ds (inventory s)) as Hsub. fold rows in Hsub.
    apply sublist_full; [done|]. rewrite length_fmap. lia. }
  rewrite add_nights in En; [|intros d; destruct (dget (id, d) (nights s)) eqn:E; [|done]; destruct (H7 id d) as [x Hx]; [by eexists|congruence]
    |rewrite Hfst; apply days_nodup].
  split.
  - rewrite Eb. by apply dset_ok.
  - apply Hocc.
  - intros id' x. rewrite Eb, dget_dset. case_decide; [intros [= <-]; simpl; lia|apply H3].
  - intros k i' Hi'. pose proof (occupied_limit _ _ _ _ _ _ Hocc Hi') as (i & Hi & -> & ->). destruct (H4 k i Hi) as [Hr Hl].
    unfold taken. rewrite Eb, zsum_dset_new by done. fold (taken k s). unfold covers. cbn [b_held b_hotel b_room b_start b_end b_quantity]. fold ds. simpl.
    split; [lia|]. unfold when. case_bool_decide as Hk; [|lia].
    apply list_elem_of_fmap in Hk as (d & -> & Hd). destruct (Hlim d Hd) as (i2 & Hi2 & Hle). rewrite Hi in Hi2. injection Hi2 as <-. lia.
  - intros id' x d. rewrite Eb, dget_dset, (occupied_some _ _ _ _ _ Hocc). case_decide; [|apply H5].
    intros [= <-]. simpl. intros Hd. destruct (Hlim d Hd) as (i & Hi & _). by eexists.
  - intros id' x. rewrite Eb, dget_dset, (nights_of_length id' s'), En.
    rewrite night_rows_app, length_app, <- nights_of_length. case_decide as Hne.
    + intros [= <-]. subst id'. simpl. fold ds. unfold night_rows at 1. rewrite filter_all.
      * rewrite length_fmap, Hrows. rewrite nights_of_length. unfold night_rows. rewrite filter_none; [done|].
        intros [[i d] p] Hin E. simpl in E. subst i. destruct (H7 id d) as [x Hx]; [|congruence].
        destruct (dget (id, d) (nights s)) eqn:E; [by eexists|]. apply dget_None in E. destruct E. by apply (list_elem_of_fmap_2 fst _ ((id, d), p)).
      * by intros x (r & -> & _)%list_elem_of_fmap.
    + intros Hx. rewrite (H6 id' x Hx). unfold night_rows. rewrite filter_none; [simpl; lia|]. by intros y (r & -> & _)%list_elem_of_fmap.
  - intros id' d. rewrite En, Eb, dget_dset. case_decide; [done|]. intros [p Hp]. apply (H7 id' d).
    apply dget_Some_elem, elem_of_app in Hp as [Hp|Hp].
    + destruct (dget (id', d) (nights s)) eqn:E; [by eexists|]. apply dget_None in E. destruct E. by apply (list_elem_of_fmap_2 fst _ ((id', d), p)).
    + apply list_elem_of_fmap in Hp as (r & [= <- _ _] & _). done.
Qed.

(** ** The calendar *)

Lemma put_day_ok hotel room row inv inv' :
  dict_ok inv → integer (d_capacity row) 0 100000 = true ∧ integer (d_overbook row) 0 10 = true → put_day hotel room row inv = Ok inv' →
  dict_ok inv' ∧ ∀ k i', dget k inv' = Some i' →
    match dget k inv with Some i => reserved i' = reserved i ∧ (reserved i <= limit i → reserved i' <= limit i') | None => reserved i' = 0 ∧ 0 <= limit i' end.
Proof.
  intros Hok [Hc Ho] H. apply integer_spec in Hc, Ho. unfold put_day in H. destruct (dget (hotel, room, d_day row) inv) as [i|] eqn:Hi.
  - simpl in H. destruct (_ <=? _) eqn:Hle; [|done]. injection H as <-. split; [by apply dset_ok|].
    intros k i' Hk. rewrite dget_dset in Hk. case_decide as Hne; [|by rewrite Hk].
    injection Hk as <-. subst k. rewrite Hi. split; [done|]. intros _. apply Z.leb_le in Hle. exact Hle.
  - injection H as <-. split; [by apply dset_ok|]. intros k i' Hk. rewrite dget_dset in Hk. case_decide as Hne; [|by rewrite Hk].
    injection Hk as <-. subst k. rewrite Hi. split; [done|]. unfold limit. simpl. pose proof (Z.div_pos (d_capacity row * d_overbook row) 100). nia.
Qed.

Lemma put_day_some hotel room row inv inv' k : put_day hotel room row inv = Ok inv' → is_Some (dget k inv) → is_Some (dget k inv').
Proof.
  unfold put_day. intros H Hk. destruct (dget (hotel, room, d_day row) inv).
  - simpl in H. destruct (_ <=? _); [|done]. injection H as <-. rewrite dget_dset. by case_decide.
  - injection H as <-. rewrite dget_dset. by case_decide.
Qed.

Lemma put_days_stock hotel room rows s inv' :
  stock_ok s → Forall (λ r, day_ok r = true) rows →
  put_days hotel room rows (inventory s) = Ok inv' → stock_ok (set_inventory inv' s).
Proof.
  intros Hs Hrows. revert s Hs. induction Hrows as [|r rows Hr _ IH]; intros s Hs; simpl.
  - intros [= <-]. by apply (stock_frame s).
  - destruct (put_day hotel room r (inventory s)) as [inv|] eqn:E; [|done]. simpl. intros H.
    unfold day_ok in Hr. apply andb_prop in Hr as [Hr _]. apply andb_prop in Hr.
    destruct (put_day_ok _ _ _ _ _ (so_inventory _ Hs) Hr E) as [Hok Hget].
    pose proof (λ k, put_day_some _ _ _ _ _ k E) as Hsome.
    apply (IH (set_inventory inv s)); [|done]. pose proof (λ k, taken_free s k Hs) as Hfree.
    destruct Hs as [H1 H2 H3 H4 H5 H6 H7]. split; try done.
    + intros k i' Hi'. specialize (Hget k i' Hi'). change (taken k (set_inventory inv s)) with (taken k s).
      destruct (dget k (inventory s)) as [i|] eqn:Ei.
      * destruct Hget as [-> Hl]. destruct (H4 k i Ei). auto.
      * destruct Hget as [-> Hl]. rewrite Hfree by done. done.
    + intros id b d Hb Hd. apply Hsome. by apply (H5 id).
Qed.
End requests.
