(* ===== verification/HotelSteps.v ===== *)
(** * The life of one booking

    An abstract account of a booking and its two jobs: the turns that a reservation, an
    expiry, a cancellation, a claim, a retry and a settlement make of it.  Every operation
    of HotelStore.v and HotelSaga.v keeps the inventory invariant and makes turns of its
    bookings, one booking at a time: one for most requests, one for each booking that a
    sweep expires, two where a claim or a settlement also expires the booking. *)
From Stdlib Require Import Ascii.
From S2P Require Import Prelude PyList PyDict Checks HotelStore HotelSaga HotelStock.
Local Open Scope Z_scope.

(** ** The turns *)

(** A booking with its charge and its refund job. *)
Definition Saga : Type := option Booking * option Job * option Job.
Definition saga_at (id : string) (s : Shard) : Saga :=
  (dget id (bookings s), dget (job_id charge id) (jobs s), dget (job_id refund id) (jobs s)).

Definition new_job (id : string) (a : Action) (now : Z) : Job := mk_job id a pending 0 now 0 "" "".

(** What a reservation writes. *)
Record held_booking (b : Booking) : Prop := mk_held_booking {
  hb_status : b_status b = PENDING;
  hb_payment : b_payment b = NONE;
  hb_held : b_held b = true;
  hb_amount : 0 <= b_amount b <= MAX_AMOUNT;
  hb_method : b_method b = "test-ok" ∨ b_method b = "test-decline";
}.

Definition confirm (b : Booking) : Booking := with_payment PAID (with_status CONFIRMED (b_held b) b).

Section turns.
(** The statuses that the provider is known to have answered for a job. *)
Context (answer : Action → string → string → Prop).

(** The turns of one booking with its jobs. *)
Inductive turn (id : string) : Saga → Saga → Prop :=
| turn_idle x : turn id x x
| turn_hold b now : held_booking b → turn id (None, None, None) (Some b, Some (new_job id charge now), None)
| turn_expire b c r : b_status b = PENDING → turn id (Some b, c, r) (Some (with_status EXPIRED false b), c, r)
| turn_cancel b c r :
    live (b_status b) = true → b_payment b ≠ PAID → turn id (Some b, c, r) (Some (with_status CANCELLED false b), c, r)
| turn_cancel_paid b c r now :
    live (b_status b) = true → b_payment b = PAID →
    turn id (Some b, c, r) (Some (with_payment REFUND_PENDING (with_status CANCELLED false b)), c, Some (default (new_job id refund now) r))
| turn_uncharged b c r :
    j_status c ≠ finished → j_attempts c = 0 → b_status b ≠ PENDING → turn id (Some b, Some c, r) (Some b, Some (finish_job c), r)
| turn_charge b c r lease token :
    j_status c ≠ finished → (j_attempts c = 0 → b_status b = PENDING) →
    turn id (Some b, Some c, r) (Some (if bool_decide (b_payment b = NONE) then with_payment CHARGING b else b), Some (lease_job lease token c), r)
| turn_refund b c r lease token :
    j_status r ≠ finished → turn id (Some b, c, Some r) (Some b, c, Some (lease_job lease token r))
| turn_retry_charge b c r due error :
    j_status c = inflight → turn id (Some b, Some c, r) (Some b, Some (retry_job due error c), r)
| turn_retry_refund b c r due error :
    j_status r = inflight → turn id (Some b, c, Some r) (Some b, c, Some (retry_job due error r))
| turn_declined b c r :
    j_status c = inflight → answer charge id "declined" →
    turn id (Some b, Some c, r)
      (Some (with_payment DECLINED (if bool_decide (b_status b = PENDING) then with_status REJECTED false b else b)), Some (settle_job c), r)
| turn_paid b c r :
    j_status c = inflight → answer charge id "paid" → b_status b = PENDING → turn id (Some b, Some c, r) (Some (confirm b), Some (settle_job c), r)
| turn_late b c r now :
    j_status c = inflight → answer charge id "paid" →
    turn id (Some b, Some c, r)
      (Some (with_payment REFUND_PENDING (if bool_decide (b_status b = PENDING) then with_status EXPIRED false b else b)),
       Some (settle_job c), Some (default (new_job id refund now) r))
| turn_refunded b c r :
    j_status r = inflight → answer refund id "refunded" →
    turn id (Some b, c, Some r) (Some (with_payment REFUNDED b), c, Some (settle_job r)).

(** The shard makes a turn of the booking [id] and leaves the others alone. *)
Definition elsewhere (id : string) (s s' : Shard) : Prop := ∀ id', id' ≠ id → saga_at id' s' = saga_at id' s.
Definition turned (s s' : Shard) : Prop := ∃ id, elsewhere id s s' ∧ turn id (saga_at id s) (saga_at id s').
End turns.

(** ** Names of jobs *)

Lemma job_id_inj a a' id id' : job_id a id = job_id a' id' → a = a' ∧ id = id'.
Proof. unfold job_id. destruct a, a'; simpl; intros H; try discriminate H; injection H as H; done. Qed.

Lemma job_id_eq a a' id id' : job_id a id = job_id a' id' ↔ a = a' ∧ id = id'.
Proof. split; [apply job_id_inj|by intros [-> ->]]. Qed.

Lemma job_id_ne a a' id id' : id ≠ id' → job_id a id ≠ job_id a' id'.
Proof. intros Hne E. by apply job_id_inj in E as [_ E]. Qed.

Lemma job_id_action a a' id id' : a ≠ a' → job_id a id ≠ job_id a' id'.
Proof. intros Hne E. by apply job_id_inj in E as [E _]. Qed.

#[global] Arguments job_id : simpl never.

Create HintDb jobs discriminated.
#[export] Hint Resolve job_id_ne job_id_action : jobs.

(** The tables of jobs and bookings decide the sagas. *)
Record tables_ok (dg : Digests) (cf : Settings) (s : Shard) : Prop := mk_tables_ok {
  tb_stock : stock_ok s;
  tb_jobs : dict_ok (jobs s);
  tb_named : ∀ jid j, dget jid (jobs s) = Some j →
    (jid = job_id (j_action j) (j_booking j) ∧ is_Some (dget (j_booking j) (bookings s))) ∧ 0 <= j_attempts j;
  tb_owned : ∀ id b, dget id (bookings s) = Some b →
    (booking_hotel id = Ok (b_hotel b) ∧ shard_for dg (b_hotel b) (shards cf) = shard cf) ∧ 0 <= b_amount b <= MAX_AMOUNT ∧
    (b_method b = "test-ok" ∨ b_method b = "test-decline");
  tb_keyed : ∀ id b, dget id (bookings s) = Some b → id = b_hotel b +:+ "." +:+ key_digest dg (b_user b) (b_key b);
}.

(** The fields of a booking that never change. *)
Definition same_order (b b' : Booking) : Prop :=
  b_hotel b' = b_hotel b ∧ b_amount b' = b_amount b ∧ b_method b' = b_method b ∧
  b_user b' = b_user b ∧ b_key b' = b_key b ∧ b_hash b' = b_hash b.

Lemma saga_at_same s s' id : bookings s' = bookings s → jobs s' = jobs s → saga_at id s' = saga_at id s.
Proof. unfold saga_at. by intros -> ->. Qed.

Section tables.
Context (dg : Digests) (cf : Settings).
Notation tables := (tables_ok dg cf).

Lemma tables_frame s s' :
  tables s → inventory s' = inventory s → bookings s' = bookings s → nights s' = nights s → jobs s' = jobs s → tables s'.
Proof.
  intros [H1 H2 H3 H4 H5] Ei Eb En Ej. split; rewrite ?Eb, ?Ej; try done. by apply (stock_frame s).
Qed.

(** One booking changes but for what was ordered. *)
Lemma tables_booking s s' id b b' :
  tables s → stock_ok s' → dget id (bookings s) = Some b → same_order b b' →
  (∀ i, dget i (bookings s') = if decide (id = i) then Some b' else dget i (bookings s)) → jobs s' = jobs s → tables s'.
Proof.
  intros [H1 H2 H3 H4 H5] Hs' Hb (E1 & E2 & E3 & E4 & E5 & _) Eb Ej. split; rewrite ?Ej; try done.
  - intros jid j Hj. destruct (H3 jid j Hj) as [[-> Hx] Ha]. split; [|done]. split; [done|]. rewrite Eb. by case_decide.
  - intros i x. rewrite Eb. case_decide; [|apply H4]. intros [= <-]. subst i. rewrite E1, E2, E3. by apply H4.
  - intros i x. rewrite Eb. case_decide; [|apply H5]. intros [= <-]. subst i. rewrite E1, E4, E5. by apply H5.
Qed.

(** One job changes but for its name, or a booking gets one. *)
Lemma tables_job s s' jid j :
  tables s → inventory s' = inventory s → bookings s' = bookings s → nights s' = nights s → jobs s' = dset jid j (jobs s) →
  jid = job_id (j_action j) (j_booking j) → is_Some (dget (j_booking j) (bookings s)) → 0 <= j_attempts j → tables s'.
Proof.
  intros [H1 H2 H3 H4 H5] Ei Eb En Ej Hid Hx Ha. split; rewrite ?Eb, ?Ej; try done.
  - by apply (stock_frame s).
  - by apply dset_ok.
  - intros jid' j'. rewrite dget_dset. case_decide; [intros [= <-]; by subst jid'|apply H3].
Qed.

(** ** Elementary changes *)

Lemma set_payment_booking id p s b : dget id (bookings s) = Some b → set_payment id p s = set_booking id (with_payment p b) s.
Proof. unfold set_payment. by intros ->. Qed.

Lemma set_booking_tables id b b' s :
  tables s → dget id (bookings s) = Some b → same_stay b b' → b_held b' = b_held b → same_order b b' → tables (set_booking id b' s).
Proof.
  intros Hs Hb Hsame Hheld Hord. apply (tables_booking s _ id b b'); try done.
  - apply (stock_same s id b); [apply Hs|done..].
  - intros i. simpl. apply dget_dset.
Qed.

Lemma update_job_tables jid f s j :
  tables s → dget jid (jobs s) = Some j → j_action (f j) = j_action j → j_booking (f j) = j_booking j → 0 <= j_attempts (f j) → tables (update_job jid f s).
Proof.
  intros Hs Hj Ea Eb Ha. unfold update_job. rewrite Hj. destruct (tb_named _ _ _ Hs _ _ Hj) as [[-> Hx] _].
  eapply (tables_job s); try done; rewrite ?Ea, ?Eb; done.
Qed.

Lemma add_job_tables id a now s : tables s → is_Some (dget id (bookings s)) → tables (add_job id a now s).
Proof.
  intros Hs Hx. unfold add_job. destruct (dmem _ _); [done|]. by eapply (tables_job s).
Qed.

Lemma emit_tables id kind am now s : tables s → tables (emit id kind am now s).
Proof. intros Hs. by apply (tables_frame s). Qed.

Lemma changed_tables s : tables s → tables (changed s).
Proof. intros Hs. by apply (tables_frame s). Qed.

Lemma release_tables id b st now s :
  tables s → dget id (bookings s) = Some b →
  ∃ s', release id b st now s = Ok s' ∧ tables s' ∧ rebooked id (with_status st false b) s s'.
Proof.
  intros Hs Hb. destruct (release_ok id b st now s (tb_stock _ _ _ Hs) Hb) as (s' & E & Hs' & Hre). exists s'.
  split; [done|]. split; [|done]. destruct Hre as (Eb & Ej & _).
  apply (tables_booking s s' id b (with_status st false b)); try done. intros i. by rewrite Eb, dget_dset.
Qed.

(** ** Sagas after elementary changes *)

Lemma rebooked_saga id b' s s' i :
  rebooked id b' s s' → saga_at i s' = if decide (id = i) then (Some b', dget (job_id charge i) (jobs s), dget (job_id refund i) (jobs s)) else saga_at i s.
Proof. intros (Eb & Ej & _). unfold saga_at. rewrite Eb, Ej, dget_dset. by case_decide. Qed.

Lemma set_booking_saga id b' s i :
  saga_at i (set_booking id b' s) = if decide (id = i) then (Some b', dget (job_id charge i) (jobs s), dget (job_id refund i) (jobs s)) else saga_at i s.
Proof. apply rebooked_saga. done. Qed.

Lemma emit_saga id kind am now s i : saga_at i (emit id kind am now s) = saga_at i s.
Proof. done. Qed.

Lemma changed_saga s i : saga_at i (changed s) = saga_at i s.
Proof. done. Qed.

Lemma dset_job_saga a id j s s' i :
  bookings s' = bookings s → jobs s' = dset (job_id a id) j (jobs s) →
  saga_at i s' = if decide (id = i) then (dget i (bookings s), match a with charge => Some j | refund => dget (job_id charge i) (jobs s) end,
      match a with refund => Some j | charge => dget (job_id refund i) (jobs s) end) else saga_at i s.
Proof.
  intros Eb Ej. unfold saga_at. rewrite Eb, Ej, !dget_dset. destruct (decide (id = i)) as [<-|Hid].
  - destruct a; [rewrite decide_True, decide_False|rewrite decide_False, decide_True]; try done; by apply job_id_action.
  - rewrite !decide_False by auto with jobs. done.
Qed.

Lemma update_job_saga a id f s j i :
  dget (job_id a id) (jobs s) = Some j →
  saga_at i (update_job (job_id a id) f s) =
    if decide (id = i) then (dget i (bookings s), match a with charge => Some (f j) | refund => dget (job_id charge i) (jobs s) end,
      match a with refund => Some (f j) | charge => dget (job_id refund i) (jobs s) end) else saga_at i s.
Proof. intros Hj. unfold update_job. rewrite Hj. by apply dset_job_saga. Qed.

Lemma add_job_saga a id now s i :
  saga_at i (add_job id a now s) =
    if decide (id = i) then (dget i (bookings s),
      match a with charge => Some (default (new_job id a now) (dget (job_id charge i) (jobs s))) | refund => dget (job_id charge i) (jobs s) end,
      match a with refund => Some (default (new_job id a now) (dget (job_id refund i) (jobs s))) | charge => dget (job_id refund i) (jobs s) end)
    else saga_at i s.
Proof.
  unfold add_job, dmem. destruct (dget (job_id a id) (jobs s)) as [j|] eqn:E.
  - case_decide as Hid; [subst i|done]. unfold saga_at. destruct a; rewrite E; done.
  - rewrite (dset_job_saga a id (new_job id a now) s) by done. case_decide as Hid; [subst i|done]. destruct a; rewrite E; done.
Qed.
End tables.

(** ** Operations as turns *)

Lemma identifier_nodot h c : identifier h = true → c ∈ String.list_ascii_of_string h → c ≠ "."%char.
Proof.
  unfold identifier. intros [_ Hall]%andb_prop Hc ->. rewrite forallb_elem in Hall. by apply Hall in Hc.
Qed.

Lemma hex_nodot d c : hex32 d = true → c ∈ String.list_ascii_of_string d → c ≠ "."%char.
Proof.
  unfold hex32. intros [_ Hall]%andb_prop Hc ->. rewrite forallb_elem in Hall. by apply Hall in Hc.
Qed.

Lemma split_dot_plain l acc : (∀ c, c ∈ l → c ≠ "."%char) → split_dot l acc = [rev acc ++ l].
Proof.
  revert acc. induction l as [|c l IH]; intros acc Hl; simpl; [by rewrite app_nil_r|].
  rewrite bool_decide_eq_false_2 by (apply Hl; left). rewrite IH by (intros x Hx; apply Hl; by right).
  simpl. by rewrite <- app_assoc.
Qed.

Lemma split_dot_pair h d acc :
  (∀ c, c ∈ h → c ≠ "."%char) → (∀ c, c ∈ d → c ≠ "."%char) → split_dot (h ++ "."%char :: d) acc = [rev acc ++ h; d].
Proof.
  intros Hh Hd. revert acc. induction h as [|c h IH]; intros acc; simpl.
  - rewrite split_dot_plain by done. by rewrite app_nil_r.
  - rewrite bool_decide_eq_false_2 by (apply Hh; left). rewrite IH by (intros x Hx; apply Hh; by right).
    simpl. by rewrite <- app_assoc.
Qed.

Lemma list_ascii_app s t : String.list_ascii_of_string (s +:+ t) = String.list_ascii_of_string s ++ String.list_ascii_of_string t.
Proof. induction s as [|c s IH]; [done|]. simpl. by rewrite IH. Qed.

(** The identifier of a booking names its hotel. *)
Lemma booking_hotel_id h d : identifier h = true → hex32 d = true → booking_hotel (h +:+ "." +:+ d) = Ok h.
Proof.
  intros Hh Hd. unfold booking_hotel. rewrite !list_ascii_app. simpl.
  rewrite split_dot_pair by (eauto using identifier_nodot, hex_nodot). simpl.
  unfold hex32 in Hd. rewrite Hd. simpl. by rewrite String.string_of_list_ascii_of_string, Hh.
Qed.

Section steps.
Context (dg : Digests) (cf : Settings).
Context (hex_digest : ∀ u k, hex32 (key_digest dg u k) = true).
Context (answer : Action → string → string → Prop).
Notation tables := (tables_ok dg cf).
Notation turns := (rtc (turned answer)).
Implicit Types s : Shard.

Lemma turn_once s s' id x y :
  (∀ i, saga_at i s' = if decide (id = i) then y else saga_at i s) → saga_at id s = x → turn answer id x y → turned answer s s'.
Proof.
  intros Hs' <- Ht. exists id. split.
  - intros i Hi. rewrite Hs'. by rewrite decide_False.
  - rewrite Hs'. by rewrite decide_True.
Qed.

Lemma turns_frame s s' s'' : turned answer s s' → (∀ i, saga_at i s'' = saga_at i s') → turned answer s s''.
Proof.
  intros (id & He & Ht) Hs. exists id. split; [|by rewrite Hs]. intros i Hi. rewrite Hs. by apply He.
Qed.

Lemma turned_idle s s' : (∀ i, saga_at i s' = saga_at i s) → turned answer s s'.
Proof. intros Hs. exists "". split; [by intros i _|]. rewrite Hs. apply turn_idle. Qed.

(** No booking, no jobs. *)
Lemma saga_at_none s id : tables s → dget id (bookings s) = None → saga_at id s = (None, None, None).
Proof.
  intros Hs Hb. unfold saga_at. rewrite Hb.
  assert (∀ a, dget (job_id a id) (jobs s) = None) as Hj.
  { intros a. destruct (dget (job_id a id) (jobs s)) as [j|] eqn:E; [|done].
    destruct (tb_named _ _ _ Hs _ _ E) as [[[_ Hid]%job_id_inj [b Hx]] _]. congruence. }
  by rewrite !Hj.
Qed.

Lemma reserve_turns user body clock s s' v : tables s → reserve dg cf user body clock s = Ok (s', v) → tables s' ∧ turns s s'.
Proof.
  intros Hs [->|(now & id & b & Hr)]%reserve_inv; [by split|].
  pose proof (stock_reserve dg cf _ _ _ _ _ _ _ (tb_stock _ _ _ Hs) Hr) as Hstock.
  destruct Hr as [Eb Hid [Hh Hshard] Hnew Hq Hdates Hrows Ha Hm (hash & total & ->) Hinv En Ej Hjok].
  pose proof (saga_at_none s id Hs Hnew) as Hnone.
  split.
  - split; [done|by apply Hjok, (tb_jobs _ _ _ Hs)|..].
    + intros jid j. rewrite Ej, Eb, dget_dset. case_decide as Hjid.
      * subst jid. unfold saga_at in Hnone. injection Hnone as _ -> _. intros [= <-]. simpl. by rewrite decide_True.
      * intros [[-> Hx] Hatt]%(tb_named _ _ _ Hs). split; [|done]. split; [done|]. by case_decide.
    + intros i x. rewrite Eb, dget_dset. case_decide; [|apply (tb_owned _ _ _ Hs)]. intros [= <-]. subst i. simpl.
      split; [|done]. split; [|done]. subst id. by apply booking_hotel_id.
    + intros i x. rewrite Eb, dget_dset. case_decide; [|apply (tb_keyed _ _ _ Hs)]. intros [= <-]. by subst i.
  - apply rtc_once. eapply (turn_once s s' id (None, None, None)); [|done|].
    + intros i. unfold saga_at. rewrite Eb, !Ej, dget_dset. case_decide as Hi.
      * subst i. unfold saga_at in Hnone. injection Hnone as _ -> ->. rewrite decide_True by done.
        rewrite decide_False by (by apply job_id_action). reflexivity.
      * rewrite !decide_False by (by apply job_id_ne). done.
    + by apply turn_hold.
Qed.

Lemma cancel_turns id user clock s s' v : tables s → cancel id user clock s = Ok (s', v) → tables s' ∧ turns s s'.
Proof.
  intros Hs H. unfold cancel in H. destruct (booking s id user); [|done]. simpl in H.
  destruct (dget id (bookings s)) as [b|] eqn:Hb; [|done]. case_bool_decide as Hlive; simpl in H.
  2: { destruct (booking _ _ _); [|done]. simpl in H. by injection H as <- <-. }
  destruct (_now clock) as [now|]; [|done]. simpl in H.
  destruct (release_tables dg cf id b CANCELLED now s Hs Hb) as (s1 & E & Hs1 & Hre). rewrite E in H. simpl in H.
  assert (live (b_status b) = true) as Hl by (by apply bool_decide_eq_true).
  pose proof (rebooked_saga _ _ _ _ id Hre) as Hsaga. rewrite decide_True in Hsaga by done.
  case_bool_decide as Hpaid; destruct (booking _ _ _); try done; simpl in H; injection H as <- <-.
  - assert (dget id (bookings s1) = Some (with_status CANCELLED false b)) as Hb1 by (destruct Hre as [-> _]; apply dget_dset_eq).
    rewrite (set_payment_booking _ _ _ _ Hb1). split.
    + apply add_job_tables; [by apply (set_booking_tables dg cf _ _ _ _ Hs1 Hb1)|]. simpl. rewrite dget_dset_eq. by eexists.
    + apply rtc_once. eapply (turn_once s _ id); [|reflexivity|unfold saga_at; rewrite Hb; by apply (turn_cancel_paid _ _ _ _ _ now)].
      intros i. rewrite add_job_saga, set_booking_saga, (rebooked_saga _ _ _ _ i Hre).
      destruct Hre as (_ & Ej & _). case_decide as Hi; [subst i|done]. simpl. by rewrite dget_dset_eq, Ej.
  - split; [done|]. apply rtc_once. eapply (turn_once s _ id); [|reflexivity|unfold saga_at; rewrite Hb; by apply turn_cancel].
    intros i. rewrite (rebooked_saga _ _ _ _ i Hre). by case_decide; subst.
Qed.

Lemma manage_turns hotel room m s s' : tables s → manage dg cf hotel room m s = Ok s' → tables s' ∧ turns s s'.
Proof.
  intros Hs H.
  assert (inventory s' = inventory s ∧ bookings s' = bookings s ∧ nights s' = nights s ∧ jobs s' = jobs s) as (E1 & E2 & E3 & E4).
  { unfold manage in H. destruct (owner _ _ _); [|done]. simpl in H. destruct room as [r|]; simpl in H.
    - destruct (check_identifier r); [|done]. simpl in H. destruct m as [|name detail].
      + destruct (dget _ (rooms s)); [|done]. by injection H as <-.
      + destruct (negb _); [done|]. simpl in H. destruct (text name 200); [|done]. simpl in H. destruct (text detail 1000); [|done]. by injection H as <-.
    - destruct m as [|name detail].
      + destruct (dget _ (hotels s)); [|done]. by injection H as <-.
      + destruct (text name 200); [|done]. simpl in H. destruct (text detail 1000); [|done]. by injection H as <-. }
  split; [by apply (tables_frame dg cf s)|]. apply rtc_once, (turned_idle s s'). intros i. by apply saga_at_same.
Qed.

Lemma set_days_turns hotel room rows s s' n : tables s → set_days dg cf hotel room rows s = Ok (s', n) → tables s' ∧ turns s s'.
Proof.
  intros Hs H. unfold set_days in H. destruct (owner _ _ _); [|done]. simpl in H. destruct (check_identifier room); [|done]. simpl in H.
  apply raise_if_Ok in H as [_ H]. apply raise_if_Ok in H as [Hok H]. apply raise_if_Ok in H as [_ H]. apply raise_if_Ok in H as [_ H].
  destruct (put_days _ _ _ _) as [inv|] eqn:E; [|done]. simpl in H. injection H as <- _.
  assert (stock_ok (set_inventory inv s)) as Hstock.
  { eapply put_days_stock; [apply Hs| |exact E]. apply Forall_forall. apply negb_false_iff in Hok. by rewrite forallb_elem in Hok. }
  split; [|by apply rtc_once, (turned_idle s)]. apply changed_tables. destruct Hs as [H1 H2 H3 H4 H5]. by split.
Qed.

(** ** Sweeps and claims *)

Lemma expire_turn id b now s :
  tables s → dget id (bookings s) = Some b → b_status b = PENDING →
  ∃ s', release id b EXPIRED now s = Ok s' ∧ tables s' ∧ rebooked id (with_status EXPIRED false b) s s' ∧ turned answer s s'.
Proof.
  intros Hs Hb Hp. destruct (release_tables dg cf id b EXPIRED now s Hs Hb) as (s' & E & Hs' & Hre). exists s'.
  split; [done|]. split; [done|]. split; [done|]. eapply (turn_once s _ id); [|reflexivity|unfold saga_at; rewrite Hb; by apply turn_expire].
  intros i. rewrite (rebooked_saga _ _ _ _ i Hre). by case_decide; subst.
Qed.

Lemma expire_all_turns now rows s :
  tables s → NoDup rows.*1 → (∀ id b, (id, b) ∈ rows → dget id (bookings s) = Some b ∧ b_status b = PENDING) →
  ∃ s', expire_all now rows s = Ok s' ∧ tables s' ∧ jobs s' = jobs s ∧ turns s s'.
Proof.
  revert s. induction rows as [|[id b] rows IH]; intros s Hs Hnd Hrows; simpl in *; [by exists s|].
  apply NoDup_cons in Hnd as [Hid Hnd]. destruct (Hrows id b ltac:(left)) as [Hb Hp].
  destruct (expire_turn id b now s Hs Hb Hp) as (s1 & -> & Hs1 & (Eb & Ej & _) & Ht). simpl.
  destruct (IH s1) as (s' & -> & Hs' & Ej' & Ht'); [done|done| |].
  - intros i x Hin. rewrite Eb, dget_dset, decide_False; [apply Hrows; by right|]. intros <-. apply Hid. by apply (list_elem_of_fmap_2 fst _ (id, x)).
  - exists s'. split; [done|]. split; [done|]. split; [congruence|]. by eapply rtc_l.
Qed.

Lemma overdue_rows now s :
  tables s → NoDup (overdue now s).*1 ∧ ∀ id b, (id, b) ∈ overdue now s → dget id (bookings s) = Some b ∧ b_status b = PENDING ∧ b_expires b <= now.
Proof.
  intros Hs. pose proof (so_bookings _ (tb_stock _ _ _ Hs)) as Hok. unfold overdue. split.
  - eapply sublist_NoDup; [|apply fmap_sublist, sublist_take]. rewrite sort_by_perm. by apply NoDup_fmap_filter.
  - intros id b Hin. apply (subseteq_take _ _) in Hin. rewrite elem_of_sort_by, list_elem_of_filter in Hin.
    destruct Hin as [[Hp He] Hin]. split; [by apply dget_Some|done].
Qed.

Lemma sweep_turns clock s :
  tables s → 0 <= clock <= 253402300799000 →
  ∃ s' n, sweep clock s = Ok (s', n) ∧ tables s' ∧ jobs s' = jobs s ∧ turns s s'.
Proof.
  intros Hs Hc. unfold sweep, _now. rewrite (proj2 (integer_spec _ _ _) Hc). simpl.
  destruct (overdue_rows clock s Hs) as [Hnd Hrows].
  destruct (expire_all_turns clock (overdue clock s) s Hs Hnd) as (s' & -> & Hs' & Ej & Ht).
  - intros id b Hin. destruct (Hrows id b Hin) as (? & ? & _). done.
  - by exists s', (Z.of_nat (length (overdue clock s))).
Qed.

Lemma sweep_clock clock s x : sweep clock s = Ok x → 0 <= clock <= 253402300799000.
Proof. unfold sweep, _now. destruct (integer _ _ _) eqn:E; [|done]. intros _. by apply integer_spec. Qed.

(** ** Jobs in the hands of workers *)

(** [t] is the durable intent of a job that was claimed. *)
Record ticket_ok (t : Ticket) (a : Action) (id : string) (s : Shard) : Prop := mk_ticket_ok {
  tk_booking : ∃ b, dget id (bookings s) = Some b ∧ t_operation t = intent (job_id a id) a id b;
  tk_job : ∃ j, dget (job_id a id) (jobs s) = Some j ∧ 1 <= j_attempts j;
}.

Lemma next_job_ready now s jid j :
  tables s → next_job now s = Some (jid, j) → dget jid (jobs s) = Some j ∧ ready now j = true.
Proof.
  intros Hs H. unfold next_job in H. apply head_Some_elem_of in H. rewrite elem_of_sort_by, list_elem_of_filter in H.
  destruct H as [Hr Hin]. split; [|done]. apply dget_Some; [apply Hs|done].
Qed.

Lemma ready_unfinished now j : ready now j = true → j_status j ≠ finished.
Proof. intros [[-> _]|[-> _]]%bool_decide_eq_true; done. Qed.

(** What a claim does to the job it finds. *)
Inductive claimed (now lease : Z) (token : string) (s s' : Shard) : option Ticket → Prop :=
| claimed_idle : next_job now s = None → s' = s → claimed now lease token s s' None
| claimed_uncharged id c :
    dget (job_id charge id) (jobs s) = Some c → j_status c ≠ finished →
    jobs s' = dset (job_id charge id) (finish_job c) (jobs s) → claimed now lease token s s' None
| claimed_leased a id j t :
    dget (job_id a id) (jobs s) = Some j → j_status j ≠ finished →
    jobs s' = dset (job_id a id) (lease_job (now + lease) token j) (jobs s) → ticket_ok t a id s' → t_token t = token →
    claimed now lease token s s' (Some t).

Lemma tables_booking_ok s id b : tables s → dget id (bookings s) = Some b →
  booking_hotel id = Ok (b_hotel b) ∧ 0 <= b_amount b <= MAX_AMOUNT ∧ (b_method b = "test-ok" ∨ b_method b = "test-decline").
Proof. intros Hs Hb. destruct (tb_owned _ _ _ Hs _ _ Hb) as ([? _] & ? & ?). done. Qed.

Lemma lease_turns s a id b j lease token :
  tables s → dget id (bookings s) = Some b → dget (job_id a id) (jobs s) = Some j → j_action j = a → j_booking j = id →
  j_status j ≠ finished → (a = charge → j_attempts j = 0 → b_status b = PENDING) →
  let s' := update_job (job_id a id) (lease_job lease token) s in
  let s' := if bool_decide (j_action j = charge ∧ b_payment b = NONE) then set_payment id CHARGING s' else s' in
  tables s' ∧ turned answer s s' ∧ jobs s' = dset (job_id a id) (lease_job lease token j) (jobs s) ∧
  ticket_ok (mk_ticket (intent (job_id a id) a id b) token) a id s'.
Proof.
  clear hex_digest. intros Hs Hb Hj Ha Hid Hunf Hfirst s1 s'.
  assert (tables s1) as Hs1.
  { apply (update_job_tables dg cf _ _ s j); try done. destruct (tb_named _ _ _ Hs _ _ Hj) as [_ ?]. simpl. lia. }
  assert (bookings s1 = bookings s ∧ jobs s1 = dset (job_id a id) (lease_job lease token j) (jobs s)) as [Eb1 Ej1].
  { unfold s1, update_job. by rewrite Hj. }
  assert (dget id (bookings s1) = Some b) as Hb1 by (by rewrite Eb1).
  assert (tables s' ∧ jobs s' = jobs s1 ∧ ∃ b', dget id (bookings s') = Some b' ∧ same_order b b' ∧
    b' = (if bool_decide (a = charge ∧ b_payment b = NONE) then with_payment CHARGING b else b) ∧
    ∀ i, saga_at i s' = if decide (id = i) then (Some b', dget (job_id charge i) (jobs s1), dget (job_id refund i) (jobs s1)) else saga_at i s1)
    as (Hs' & Ej' & b' & Hb' & Hord & Eb' & Hsaga).
  { unfold s'. rewrite Ha. case_bool_decide.
    - rewrite (set_payment_booking _ _ _ _ Hb1). split; [by apply (set_booking_tables dg cf id b)|]. split; [done|].
      eexists. split; [apply dget_dset_eq|]. split; [done|]. split; [done|]. apply set_booking_saga.
    - split; [done|]. split; [done|]. exists b. split; [done|]. split; [done|]. split; [done|].
      intros i. case_decide; [|done]. subst i. unfold saga_at. by rewrite Hb1. }
  split; [done|]. split; [|split; [by rewrite Ej'|]].
  - eapply (turn_once s s' id); [|reflexivity|].
    + intros i. rewrite Hsaga. destruct (decide (id = i)) as [<-|Hi]; [reflexivity|].
      unfold s1. rewrite (update_job_saga a id _ s j) by done. by rewrite decide_False.
    + unfold saga_at. rewrite Hb, Ej1, !dget_dset, Eb'. destruct a.
      * rewrite decide_True by done. rewrite decide_False by (by apply job_id_action). rewrite Hj.
        replace (bool_decide (charge = charge ∧ b_payment b = NONE)) with (bool_decide (b_payment b = NONE)) by (by apply bool_decide_ext; naive_solver).
        apply turn_charge; [done|]. auto.
      * rewrite decide_False by (by apply job_id_action). rewrite decide_True by done. rewrite Hj. by apply turn_refund.
  - split.
    + exists b'. split; [done|]. simpl. destruct Hord as (_ & E1 & E2 & _). unfold intent. by rewrite E1, E2.
    + exists (lease_job lease token j). rewrite Ej', Ej1. split; [apply dget_dset_eq|].
      destruct (tb_named _ _ _ Hs _ _ Hj) as [_ ?]. simpl. lia.
Qed.

(** The booking a claim acts on: expired when its hold ran out before the first attempt. *)
Lemma claim_expiry s id b now first :
  tables s → dget id (bookings s) = Some b →
  ∃ s1 b1, (if first && bool_decide (b_status b = PENDING) && (b_expires b <=? now) then release id b EXPIRED now s else Ok s) = Ok s1 ∧
    tables s1 ∧ turned answer s s1 ∧ jobs s1 = jobs s ∧ dget id (bookings s1) = Some b1 ∧ (b1 = b ∨ first = true ∧ b1 = with_status EXPIRED false b).
Proof.
  intros Hs Hb. destruct (first && _ && _) eqn:E.
  - apply andb_prop in E as [E _]. apply andb_prop in E as [Hf Hp]. apply bool_decide_eq_true in Hp.
    destruct (expire_turn id b now s Hs Hb Hp) as (s1 & -> & Hs1 & (Eb & Ej & _) & Ht).
    exists s1, (with_status EXPIRED false b). rewrite Eb, dget_dset_eq. auto 10.
  - exists s, b. split; [done|]. split; [done|]. split; [by apply turned_idle|]. auto.
Qed.

Lemma claim_turns lease token clock s :
  tables s → 10 <= lease <= 3600000 → 0 <= clock <= 253402300799000 →
  ∃ s' t, claim lease token clock s = Ok (s', t) ∧ tables s' ∧ turns s s' ∧ claimed clock lease token s s' t.
Proof.
  clear hex_digest. intros Hs Hl Hc. unfold claim, _now. rewrite (proj2 (integer_spec _ _ _) Hl), (proj2 (integer_spec _ _ _) Hc). simpl.
  destruct (next_job clock s) as [[jid j]|] eqn:Hnext.
  2: { exists s, None. split; [done|]. split; [done|]. split; [done|]. by apply claimed_idle. }
  destruct (next_job_ready _ _ _ _ Hs Hnext) as [Hj Hready]. pose proof (ready_unfinished _ _ Hready) as Hunf.
  destruct (tb_named _ _ _ Hs _ _ Hj) as [[-> [b Hb]] Hatt]. rewrite Hb.
  set (first := bool_decide (j_action j = charge) && (j_attempts j =? 0)).
  destruct (claim_expiry s (j_booking j) b clock first Hs Hb) as (s1 & b1 & -> & Hs1 & Ht1 & Ej1 & Hb1 & Hcase). simpl. rewrite Hb1.
  destruct (first && bool_decide (b_status b1 ≠ PENDING)) eqn:E.
  - apply andb_prop in E as [Hf Hst]. apply bool_decide_eq_true in Hst. unfold first in Hf. apply andb_prop in Hf as [Ha Hn].
    apply bool_decide_eq_true in Ha. apply Z.eqb_eq in Hn. rewrite Ha in *.
    assert (dget (job_id charge (j_booking j)) (jobs s1) = Some j) as Hj1 by (by rewrite Ej1).
    eexists _, _. split; [done|]. split; [by apply emit_tables, (update_job_tables dg cf _ _ _ j)|].
    split; [|apply (claimed_uncharged _ _ _ _ _ (j_booking j) j); [done|done|simpl; unfold update_job; by rewrite Hj1, <- Ej1]].
    eapply rtc_l; [exact Ht1|]. apply rtc_once. eapply (turn_once s1 _ (j_booking j)); [|reflexivity|].
    + intros i. rewrite emit_saga, (update_job_saga charge _ _ _ j) by done. destruct (decide (j_booking j = i)) as [<-|]; reflexivity.
    + unfold saga_at. rewrite Hb1, Hj1. by apply turn_uncharged.
  - destruct (lease_turns s1 (j_action j) (j_booking j) b1 j (clock + lease) token) as (Hs' & Ht & Ej & Htk); try done.
    + by rewrite Ej1.
    + intros Ha Hn. unfold first in E. rewrite Ha, Hn in E. simpl in E. by apply bool_decide_eq_false, dec_stable in E.
    + eexists _, _. split; [done|]. split; [done|]. split; [eapply rtc_l; [exact Ht1|]; by apply rtc_once|].
      eapply (claimed_leased _ _ _ _ _ _ _ j); [done|done|by rewrite Ej, Ej1|done|done].
Qed.

Lemma claim_valid lease token clock s x : claim lease token clock s = Ok x → 10 <= lease <= 3600000 ∧ 0 <= clock <= 253402300799000.
Proof.
  unfold claim, _now. intros [H1 H]%raise_if_Ok. apply negb_false_iff, integer_spec in H1.
  destruct (integer clock _ _) eqn:E; [|done]. by apply integer_spec in E.
Qed.

(** ** Retries and settlements *)

Lemma held_job_Some t s j :
  held_job t s = Some j ↔ dget (o_id (t_operation t)) (jobs s) = Some j ∧ j_status j = inflight ∧ j_token j = t_token t.
Proof.
  unfold held_job. destruct (dget _ (jobs s)) as [j'|]; [|naive_solver]. case_bool_decide; naive_solver.
Qed.

Lemma ticket_held t a id s j :
  tables s → ticket_ok t a id s → held_job t s = Some j →
  ∃ b, o_id (t_operation t) = job_id a id ∧ dget (job_id a id) (jobs s) = Some j ∧ j_status j = inflight ∧ j_action j = a ∧ j_booking j = id ∧
    dget id (bookings s) = Some b ∧ same_intent (t_operation t) a id b = true ∧ o_action (t_operation t) = action_name a.
Proof.
  intros Hs [(b & Hb & Hop) _] (Hj & Hin & _)%held_job_Some. rewrite Hop in *. simpl in *. exists b.
  destruct (tb_named _ _ _ Hs _ _ Hj) as [[[-> ->]%job_id_inj _] _].
  do 6 (split; [done|]). split; [by apply bool_decide_eq_true|done].
Qed.

Lemma retry_turns t a id message clock s s' :
  tables s → ticket_ok t a id s → retry t message clock s = Ok s' → tables s' ∧ turns s s'.
Proof.
  intros Hs Ht H. unfold retry in H. destruct (normalize_job t) as [t'|] eqn:En; [|done]. simpl in H.
  assert (t' = t) as ->.
  { unfold normalize_job in En. destruct (normalize_operation _); [|done]. simpl in En. apply raise_if_Ok in En as [_ En]. by injection En. }
  destruct (held_job t s) as [j|] eqn:Hj; [|by injection H as <-].
  destruct (ticket_held _ _ _ _ _ Hs Ht Hj) as (b & Hid & Hget & Hin & Ha & Hbk & Hb & _). rewrite Hbk, Hb in H.
  apply raise_if_Ok in H as [_ H]. destruct (_now clock) as [now|]; [|done]. simpl in H. injection H as <-. rewrite Hid.
  destruct (tb_named _ _ _ Hs _ _ Hget) as [_ Hatt].
  split; [by apply (update_job_tables dg cf _ _ _ j)|]. apply rtc_once.
  eapply (turn_once s _ id); [|reflexivity|].
  - intros i. rewrite (update_job_saga a id _ s j) by done. destruct (decide (id = i)) as [<-|]; reflexivity.
  - unfold saga_at. rewrite Hb. destruct a; rewrite Hget; [by apply turn_retry_charge|by apply turn_retry_refund].
Qed.

(** The release of a booking that is still pending. *)
Definition ended (st : Status) (b : Booking) : Booking := if bool_decide (b_status b = PENDING) then with_status st false b else b.

Lemma settle_release s id b st now :
  tables s → dget id (bookings s) = Some b →
  ∃ s1, (if bool_decide (b_status b = PENDING) then release id b st now s else Ok s) = Ok s1 ∧ tables s1 ∧ jobs s1 = jobs s ∧
    dget id (bookings s1) = Some (ended st b) ∧
    ∀ i, saga_at i s1 = if decide (id = i) then (Some (ended st b), dget (job_id charge i) (jobs s), dget (job_id refund i) (jobs s)) else saga_at i s.
Proof.
  intros Hs Hb. unfold ended. case_bool_decide.
  - destruct (release_tables dg cf id b st now s Hs Hb) as (s1 & -> & Hs1 & Hre). exists s1. do 2 (split; [done|]).
    split; [apply Hre|]. split; [destruct Hre as [-> _]; apply dget_dset_eq|]. intros i. by apply rebooked_saga.
  - exists s. do 4 (split; [done|]). intros i. case_decide; [|done]. subst i. unfold saga_at. by rewrite Hb.
Qed.

(** The job of a settlement, and the refund that a late payment needs. *)
Definition settled_jobs (a : Action) (id : string) (j : Job) (now : Z) (s s' : Shard) : Prop :=
  jobs s' = dset (job_id a id) (settle_job j) (jobs s) ∨
  a = charge ∧ jobs s' = dset (job_id charge id) (settle_job j) (jobs (add_job id refund now s)).

(** A settlement that leaves the shard at [s1], where only the booking and maybe the refund job changed. *)
Lemma settle_close s s1 a id j b1 rj :
  tables s1 → dget (job_id a id) (jobs s1) = Some j → 0 <= j_attempts j →
  (∀ i, saga_at i s1 = if decide (id = i) then (Some b1, dget (job_id charge id) (jobs s), rj) else saga_at i s) →
  turn answer id (saga_at id s) (Some b1, match a with charge => Some (settle_job j) | refund => dget (job_id charge id) (jobs s) end,
    match a with charge => rj | refund => Some (settle_job j) end) →
  tables (update_job (job_id a id) settle_job s1) ∧ turned answer s (update_job (job_id a id) settle_job s1).
Proof.
  clear hex_digest. intros Hs1 Hj Hatt Hsaga Ht. split; [by apply (update_job_tables dg cf _ _ _ j)|].
  pose proof (Hsaga id) as Hid. rewrite decide_True in Hid by done. unfold saga_at at 1 in Hid. injection Hid as E1 E2 E3.
  eapply (turn_once s _ id); [|reflexivity|exact Ht].
  intros i. rewrite (update_job_saga a id _ s1 j), Hsaga by done. destruct (decide (id = i)) as [<-|]; [|done].
  rewrite E1, E2, E3. by destruct a.
Qed.

Lemma settle_turns s a id b j o r now :
  tables s → dget id (bookings s) = Some b → dget (job_id a id) (jobs s) = Some j → j_status j = inflight →
  o_action o = action_name a → r_status r ∈ match a with charge => ["paid"; "declined"] | refund => ["refunded"] end →
  answer a id (r_status r) →
  ∃ s1, settle id b o r now s = Ok s1 ∧ let s' := update_job (job_id a id) settle_job s1 in
    tables s' ∧ turned answer s s' ∧ settled_jobs a id j now s s'.
Proof.
  clear hex_digest. intros Hs Hb Hj Hin Ho Hst Hans. unfold settle. rewrite Ho. pose proof (tb_named _ _ _ Hs _ _ Hj) as [_ Hatt].
  assert (∀ s1, jobs s1 = jobs s → settled_jobs a id j now s (update_job (job_id a id) settle_job s1)) as Hplain.
  { intros s1 E. left. unfold update_job. by rewrite E, Hj, <- E. }
  destruct a; simpl.
  - case_bool_decide as Hdec; [|assert (r_status r = "paid") as Hpaid by set_solver; rewrite Hpaid in Hans; case_bool_decide as Hp].
    + rewrite Hdec in Hans. destruct (settle_release s id b REJECTED now Hs Hb) as (s1 & -> & Hs1 & Ej & Hb1 & Hsaga). simpl.
      eexists. split; [done|]. rewrite (set_payment_booking _ _ _ _ Hb1).
      split; [|split]; [| |by apply Hplain]; eapply (settle_close s _ charge id j _ (dget (job_id refund id) (jobs s)));
        try apply (set_booking_tables dg cf _ _ _ _ Hs1 Hb1); try done; try (simpl; rewrite Ej; done).
      all: try (intros i; rewrite set_booking_saga, Hsaga, Ej; destruct (decide (id = i)) as [<-|]; reflexivity).
      all: unfold saga_at; rewrite Hb, Hj; by apply turn_declined.
    + destruct Hp as [Hp Hexp]. rewrite Hb. eexists. split; [done|].
      split; [|split]; [| |by apply Hplain]; eapply (settle_close s _ charge id j _ (dget (job_id refund id) (jobs s)));
        try apply emit_tables, (set_booking_tables dg cf _ _ _ _ Hs Hb); try done.
      all: try (intros i; rewrite emit_saga, set_booking_saga; destruct (decide (id = i)) as [<-|]; reflexivity).
      all: unfold saga_at; rewrite Hb, Hj; by apply turn_paid.
    + destruct (settle_release s id b EXPIRED now Hs Hb) as (s1 & -> & Hs1 & Ej & Hb1 & Hsaga). simpl.
      eexists. split; [done|]. rewrite (set_payment_booking _ _ _ _ Hb1).
      assert (tables (add_job id refund now (set_booking id (with_payment REFUND_PENDING (ended EXPIRED b)) s1))) as Hs2.
      { apply add_job_tables; [by apply (set_booking_tables dg cf _ _ _ _ Hs1 Hb1)|]. simpl. rewrite dget_dset_eq. by eexists. }
      assert (jobs (add_job id refund now (set_booking id (with_payment REFUND_PENDING (ended EXPIRED b)) s1)) = jobs (add_job id refund now s)) as Ej2.
      { unfold add_job. simpl. rewrite Ej. by destruct (dmem _ _). }
      assert (dget (job_id charge id) (jobs (add_job id refund now s)) = Some j) as Hj2.
      { rewrite add_job_get, decide_False by (by apply job_id_action). done. }
      split; [|split]; [| |right; split; [done|]; unfold update_job; simpl; by rewrite Ej2, Hj2, <- Ej2];
        eapply (settle_close s _ charge id j _ (Some (default (new_job id refund now) (dget (job_id refund id) (jobs s)))));
        try apply emit_tables, Hs2; try done; try (simpl; by rewrite Ej2).
      all: try (intros i; rewrite emit_saga, add_job_saga, set_booking_saga, Hsaga; simpl; rewrite Ej, dget_dset;
        destruct (decide (id = i)) as [<-|]; reflexivity).
      all: unfold saga_at; rewrite Hb, Hj; by apply turn_late.
  - assert (r_status r = "refunded") as E by set_solver. rewrite E in Hans. eexists. split; [done|]. rewrite (set_payment_booking _ _ _ _ Hb).
    split; [|split]; [| |by apply Hplain]; eapply (settle_close s _ refund id j _ (dget (job_id refund id) (jobs s)));
      try apply emit_tables, (set_booking_tables dg cf _ _ _ _ Hs Hb); try done.
    all: try (intros i; rewrite emit_saga, set_booking_saga; destruct (decide (id = i)) as [<-|]; reflexivity).
    all: unfold saga_at; rewrite Hb, Hj; by apply turn_refunded.
Qed.

Lemma normalize_receipt_Ok r o r' a :
  normalize_receipt r o = Ok r' → o_action o = action_name a →
  r' = r ∧ r_status r ∈ match a with charge => ["paid"; "declined"] | refund => ["refunded"] end.
Proof.
  unfold normalize_receipt. intros [_ H]%raise_if_Ok Ha. apply raise_if_Ok in H as [_ H]. apply raise_if_Ok in H as [H E].
  injection E as <-. split; [done|]. apply bool_decide_eq_false in H. rewrite Ha in H.
  destruct a; simpl in H; apply dec_stable; tauto.
Qed.

Lemma normalize_job_Ok t t' : normalize_job t = Ok t' → t' = t.
Proof.
  unfold normalize_job. destruct (normalize_operation _); [|done]. simpl. intros [_ H]%raise_if_Ok. by injection H.
Qed.

Lemma finish_held t a id r s j clock :
  tables s → ticket_ok t a id s → normalize_job t = Ok t → normalize_receipt r (t_operation t) = Ok r → answer a id (r_status r) →
  held_job t s = Some j → 0 <= clock <= 253402300799000 →
  ∃ s', finish t r clock s = Ok (s', true) ∧ tables s' ∧ turned answer s s' ∧ settled_jobs a id j clock s s'.
Proof.
  clear hex_digest. intros Hs Ht Hn Hr Hans Hj Hc. destruct (ticket_held _ _ _ _ _ Hs Ht Hj) as (b & Hid & Hget & Hin & Ha & Hbk & Hb & Hsame & Hact).
  unfold finish, _now. rewrite Hn. simpl. rewrite Hr. simpl. rewrite Hj, Hbk, Hb, Ha, Hsame, (proj2 (integer_spec _ _ _) Hc), Hid. simpl.
  destruct (normalize_receipt_Ok _ _ _ _ Hr Hact) as [_ Hst].
  destruct (settle_turns s a id b j (t_operation t) r clock) as (s1 & -> & Hs' & Hturn & Hjobs); try done.
  by exists (update_job (job_id a id) settle_job s1).
Qed.

Lemma finish_turns t a id r clock s s' x :
  tables s → ticket_ok t a id s → answer a id (r_status r) → finish t r clock s = Ok (s', x) → tables s' ∧ turns s s'.
Proof.
  clear hex_digest. intros Hs Ht Hans H. pose proof H as Hfin. unfold finish in H. destruct (normalize_job t) as [t'|] eqn:En; [|done]. simpl in H.
  pose proof (normalize_job_Ok _ _ En) as ->. destruct (normalize_receipt r _) as [r'|] eqn:Er; [|done]. simpl in H.
  destruct (held_job t s) as [j|] eqn:Hj; [|by injection H as <- <-].
  destruct (ticket_held _ _ _ _ _ Hs Ht Hj) as (b & _ & _ & _ & _ & Hbk & Hb & _ & Hact).
  destruct (normalize_receipt_Ok _ _ _ _ Er Hact) as [-> _].
  rewrite Hbk, Hb in H. apply raise_if_Ok in H as [_ H]. unfold _now in H. destruct (integer clock _ _) eqn:Hc; [|done]. apply integer_spec in Hc.
  destruct (finish_held t a id r s j clock) as (s2 & E & Hs2 & Hturn & _); try done.
  rewrite E in Hfin. injection Hfin as <- <-. split; [done|]. by apply rtc_once.
Qed.
End steps.
