(* ===== verification/HotelWorld.v ===== *)
(** * The money of a hotel

    The invariant that joins the tables of a shard with those of the payment provider: the
    phase of every booking, by its payment, says how far its jobs are and what the
    provider has recorded for it.  Every move of HotelPayment.v keeps it: the turns of
    HotelSteps.v on the shard, and the operations of the provider. *)
From S2P Require Import Prelude PyList PyDict Checks HotelStore HotelSaga HotelPayment HotelStock HotelSteps.
Local Open Scope Z_scope.

Definition outcome (b : Booking) : string := if bool_decide (b_method b = "test-decline") then "declined" else "paid".
Definition charge_of (b : Booking) (st : string) : Charge := mk_charge (b_amount b) "USD" st.
Definition receipt_of (id : string) (b : Booking) (st : string) : Receipt := mk_receipt id (b_amount b) "USD" st (Some true).

(** How far the jobs of a booking are, and what the provider charged. *)
Definition phase_ok (b : Booking) (cj : Job) (rj : option Job) (c : option Charge) : Prop :=
  match b_payment b with
  | NONE => j_attempts cj = 0 ∧ j_status cj ≠ inflight ∧ rj = None ∧ c = None ∧ b_status b ≠ CONFIRMED ∧ (b_status b = PENDING → j_status cj = pending)
  | CHARGING => 1 <= j_attempts cj ∧ j_status cj ≠ finished ∧ rj = None ∧ b_status b ≠ CONFIRMED ∧ (c = None ∨ c = Some (charge_of b (outcome b)))
  | PAID => b_status b = CONFIRMED ∧ j_status cj = finished ∧ rj = None ∧ outcome b = "paid" ∧ c = Some (charge_of b "paid")
  | DECLINED => live (b_status b) = false ∧ j_status cj = finished ∧ rj = None ∧ outcome b = "declined" ∧ c = Some (charge_of b "declined")
  | REFUND_PENDING => live (b_status b) = false ∧ j_status cj = finished ∧ outcome b = "paid" ∧
      ∃ r, rj = Some r ∧ j_status r ≠ finished ∧ 0 <= j_attempts r ∧ (c = Some (charge_of b "paid") ∨ c = Some (charge_of b "refunded") ∧ 1 <= j_attempts r)
  | REFUNDED => live (b_status b) = false ∧ j_status cj = finished ∧ outcome b = "paid" ∧
      ∃ r, rj = Some r ∧ j_status r = finished ∧ c = Some (charge_of b "refunded")
  end.

Section world.
Context (dg : Digests) (cf : Settings) (digest : Operation → string).
Context (hex_digest : ∀ u k, hex32 (key_digest dg u k) = true).
Notation tables := (tables_ok dg cf).

(** What the provider has recorded for a booking. *)
Definition entry (id : string) (p : Ledger) : option Charge * option OperationRow * option OperationRow :=
  (dget id (charges p), dget (job_id charge id) (operations p), dget (job_id refund id) (operations p)).

Definition row_of (id : string) (b : Booking) (a : Action) (st : string) (row : option OperationRow) : Prop :=
  ∃ n, row = Some (mk_oprow (digest (intent (job_id a id) a id b)) (receipt_of id b st) n).

(** Every charge has the receipt of its operation, and every refund too. *)
Definition entry_ok (id : string) (b : Booking) (e : option Charge * option OperationRow * option OperationRow) : Prop :=
  match e with
  | (None, oc, orf) => oc = None ∧ orf = None
  | (Some c, oc, orf) => row_of id b charge (outcome b) oc ∧
      (c = charge_of b (outcome b) ∧ orf = None ∨ outcome b = "paid" ∧ c = charge_of b "refunded" ∧ row_of id b refund "refunded" orf)
  end.

Definition saga_ok (id : string) (x : Saga) (e : option Charge * option OperationRow * option OperationRow) : Prop :=
  match x with
  | (Some b, Some cj, rj) => b_held b = live (b_status b) ∧ phase_ok b cj rj e.1.1 ∧ entry_ok id b e
  | (Some b, None, _) => False
  | (None, _, _) => e = (None, None, None)
  end.

Record world_ok (w : World) : Prop := mk_world_ok {
  wo_tables : tables (w_shard w);
  wo_sagas : ∀ id, ours dg cf id → saga_ok id (saga_at id (w_shard w)) (entry id (w_ledger w));
  wo_tickets : ∀ t, t ∈ w_tickets w → ∃ a id, ticket_ok t a id (w_shard w);
  wo_receipts : ∀ t r, (t, r) ∈ w_receipts w → ∃ a id row, ticket_ok t a id (w_shard w) ∧ dget (job_id a id) (operations (w_ledger w)) = Some row ∧ op_result row = r;
}.

(** ** Turns *)

(** A turn keeps the order of a booking and never takes back an attempt. *)
Lemma turn_order answer id x y b :
  turn answer id x y → x.1.1 = Some b → ∃ b', y.1.1 = Some b' ∧ same_order b b'.
Proof.
  intros Ht Hb. destruct Ht; simpl in *; [by exists b|discriminate Hb|..]; injection Hb as ->.
  all: eexists; split; [reflexivity|]; unfold same_order; simpl; by repeat case_bool_decide.
Qed.

Definition job_of (a : Action) (x : Saga) : option Job := match a with charge => x.1.2 | refund => x.2 end.

Lemma turn_attempts answer a id x y j :
  turn answer id x y → job_of a x = Some j → ∃ j', job_of a y = Some j' ∧ j_attempts j <= j_attempts j'.
Proof.
  intros Ht Hj. destruct Ht, a; simpl in *; try done; try (injection Hj as ->); try (rewrite Hj); try (by exists j);
    try (eexists; split; [reflexivity|simpl; lia]).
Qed.

Lemma job_of_saga a id s : job_of a (saga_at id s) = dget (job_id a id) (jobs s).
Proof. by destruct a. Qed.

Lemma ticket_turned answer t a id s s' : turned answer s s' → ticket_ok t a id s → ticket_ok t a id s'.
Proof.
  intros (i & He & Ht) [(b & Hb & Hop) (j & Hj & Hatt)]. destruct (decide (id = i)) as [->|Hne].
  - destruct (turn_order _ _ _ _ b Ht) as (b' & Hb' & _ & Ea & Em & _); [done|].
    rewrite <- job_of_saga in Hj. destruct (turn_attempts _ a _ _ _ j Ht Hj) as (j' & Hj' & Hle). rewrite job_of_saga in Hj'.
    split; [|exists j'; split; [done|lia]]. exists b'. split; [done|]. unfold intent in *. by rewrite Ea, Em.
  - pose proof (He id Hne) as Hs. split; [exists b; split; [|done]|exists j; split; [|done]].
    + unfold saga_at in Hs. by injection Hs as -> _ _.
    + by rewrite <- job_of_saga, Hs, job_of_saga.
Qed.

(** The provider has answered with the receipt it keeps. *)
Definition answered_by (p : Ledger) (a : Action) (id st : string) : Prop :=
  ∃ row, dget (job_id a id) (operations p) = Some row ∧ r_status (op_result row) = st.

Lemma entry_charged id b e p st :
  entry_ok id b e → e = entry id p → answered_by p charge id st → st = outcome b ∧ e.1.1 ≠ None.
Proof.
  intros He -> (row & Hrow & <-). unfold entry_ok, entry in He. destruct (dget id (charges p)) as [c|] eqn:Hc.
  - destruct He as [(n & E) _]. rewrite Hrow in E. injection E as ->. split; [done|]. unfold entry. simpl. by rewrite Hc.
  - destruct He as [E _]. congruence.
Qed.

Lemma entry_refunded id b e p st :
  entry_ok id b e → e = entry id p → answered_by p refund id st → e.1.1 = Some (charge_of b "refunded").
Proof.
  intros He -> (row & Hrow & <-). unfold entry_ok, entry in He. simpl. destruct (dget id (charges p)) as [c|] eqn:Hc.
  - destruct He as [_ [[_ E]|(_ & -> & _)]]; [congruence|done].
  - destruct He as [_ E]. congruence.
Qed.

Lemma live_PENDING : live PENDING = true. Proof. done. Qed.

Lemma ended_not_live st b : b_status b ≠ CONFIRMED → live st = false → live (b_status (ended st b)) = false.
Proof.
  intros Hc Hst. unfold ended. case_bool_decide as Hp; [done|]. unfold live. apply bool_decide_eq_false. tauto.
Qed.

Lemma entry_order id b b' e : b_amount b' = b_amount b → b_method b' = b_method b → entry_ok id b e → entry_ok id b' e.
Proof. unfold entry_ok, row_of, outcome, charge_of, receipt_of, intent. by intros -> ->. Qed.

(** What the answers say of the entry of a booking. *)
Definition answers_know (answer : Action → string → string → Prop) (id : string) (e : option Charge * option OperationRow * option OperationRow) : Prop :=
  (∀ b st, answer charge id st → entry_ok id b e → st = outcome b ∧ e.1.1 ≠ None) ∧
  (∀ b st, answer refund id st → entry_ok id b e → e.1.1 = Some (charge_of b "refunded")).

Lemma live_ended b st : live (b_status b) = true → live st = false → b_held (with_status st false b) = live (b_status (with_status st false b)).
Proof. simpl. by intros _ ->. Qed.

(** A charge job in flight is one whose booking awaits the provider. *)
Lemma phase_inflight b c r ch :
  j_status c = inflight → phase_ok b c r ch → r = None ∧ b_status b ≠ CONFIRMED ∧ (ch = None ∨ ch = Some (charge_of b (outcome b))).
Proof. unfold phase_ok. intros Hi. destruct (b_payment b); naive_solver congruence. Qed.

Lemma ended_fields st b : b_amount (ended st b) = b_amount b ∧ b_method (ended st b) = b_method b ∧
  (b_held b = live (b_status b) → live st = false → b_held (ended st b) = live (b_status (ended st b))).
Proof. unfold ended. case_bool_decide; simpl; split_and!; done. Qed.

(** Case analysis on the payment of a booking in its phase. *)
Ltac phases b :=
  unfold phase_ok in *; simpl; try match goal with H : b_status b = PENDING |- _ => rewrite H in * end;
  destruct (b_payment b) eqn:?; simpl in *; try naive_solver (congruence || lia).

Lemma saga_turn answer id x y e : turn answer id x y → answers_know answer id e → saga_ok id x e → saga_ok id y e.
Proof.
  intros Ht [Kc Kr] Hx. destruct Ht as [x|b now Hb|b c r Hp|b c r Hl Hp|b c r now Hl Hp|b c r Hf Ha Hp|b c r lease token Hf Ha|b c r lease token Hf
    |b c r due error Hi|b c r due error Hi|b c r Hi Hst|b c r Hi Hst Hp|b c r now Hi Hst|b c r Hi Hst]; unfold saga_ok in *.
  - done.
  - rewrite Hx. destruct Hb as [E1 E2 E3 _ _]. unfold phase_ok. rewrite E1, E2, E3. simpl. auto 10.
  - destruct c as [c|]; [|done]. destruct Hx as (Hh & Hph & He). split; [done|]. split; [|by apply (entry_order id b)].
    phases b.
  - destruct c as [c|]; [|done]. destruct Hx as (Hh & Hph & He). split; [done|]. split; [|by apply (entry_order id b)].
    phases b.
  - destruct c as [c|]; [|done]. destruct Hx as (Hh & Hph & He). split; [done|]. split; [|by apply (entry_order id b)].
    unfold phase_ok in *. simpl. rewrite Hp in Hph. destruct Hph as (_ & Hc & -> & Ho & ->). do 3 (split; [done|]). exists (new_job id refund now). do 3 (split; [done|]). by left.
  - destruct Hx as (Hh & Hph & He). split; [done|]. split; [|done].
    phases b.
  - destruct Hx as (Hh & Hph & He). case_bool_decide as Hn.
    + split; [done|]. split; [|by apply (entry_order id b)]. unfold phase_ok in *. simpl. rewrite Hn in Hph.
      destruct Hph as (E & _ & -> & -> & Hs & _). rewrite E. split; [lia|auto 10].
    + split; [done|]. split; [|done]. phases b.
  - destruct c as [c|]; [|done]. destruct Hx as (Hh & Hph & He). split; [done|]. split; [|done].
    phases b.
  - destruct Hx as (Hh & Hph & He). split; [done|]. split; [|done]. phases b.
  - destruct c as [c|]; [|done]. destruct Hx as (Hh & Hph & He). split; [done|]. split; [|done].
    phases b.
  - destruct Hx as (Hh & Hph & He). destruct (Kc b _ Hst He) as [Ho Hne].
    change (if bool_decide (b_status b = PENDING) then _ else _) with (ended REJECTED b).
    destruct (phase_inflight b c r _ Hi Hph) as (-> & Hs & Hch). destruct Hch as [Hch|Hch]; [done|].
    rewrite Hch, <- Ho. unfold phase_ok, entry_ok in *. simpl.
    pose proof (ended_not_live REJECTED b Hs eq_refl) as Hl. destruct (ended_fields REJECTED b) as (E1 & E2 & E3). rewrite E3 by done.
    split; [done|]. split; [|by apply (entry_order id b)].
    unfold outcome, charge_of. simpl. rewrite E1, E2. auto 10.
  - destruct Hx as (Hh & Hph & He). destruct (Kc b _ Hst He) as [Ho Hne].
    destruct (phase_inflight b c r _ Hi Hph) as (-> & Hs & Hch). destruct Hch as [Hch|Hch]; [done|].
    rewrite Hch, <- Ho. unfold phase_ok. simpl. split; [by rewrite Hh, Hp|]. split; [|by apply (entry_order id b)].
    unfold outcome, charge_of in *. simpl. auto 10.
  - destruct Hx as (Hh & Hph & He). destruct (Kc b _ Hst He) as [Ho Hne].
    change (if bool_decide (b_status b = PENDING) then _ else _) with (ended EXPIRED b).
    destruct (phase_inflight b c r _ Hi Hph) as (-> & Hs & Hch). destruct Hch as [Hch|Hch]; [done|].
    rewrite Hch, <- Ho. unfold phase_ok. simpl.
    pose proof (ended_not_live EXPIRED b Hs eq_refl) as Hl. destruct (ended_fields EXPIRED b) as (E1 & E2 & E3).
    split; [by apply E3|]. split; [|by apply (entry_order id b)].
    unfold outcome, charge_of in *. simpl. rewrite E1, E2.
    do 3 (split; [done|]). exists (new_job id refund now). do 3 (split; [done|]). by left.
  - destruct c as [c|]; [|done]. destruct Hx as (Hh & Hph & He). pose proof (Kr b _ Hst He) as Hch.
    split; [done|]. split; [|by apply (entry_order id b)]. unfold phase_ok in *. simpl.
    destruct (b_payment b) eqn:Ep; naive_solver (congruence || lia).
Qed.

Lemma elsewhere_other id id' s s' : elsewhere id s s' → id' ≠ id → saga_at id' s' = saga_at id' s.
Proof. auto. Qed.

Lemma sagas_turned answer s s' (e : string → option Charge * option OperationRow * option OperationRow) :
  turned answer s s' → (∀ id, answers_know answer id (e id)) →
  (∀ id, ours dg cf id → saga_ok id (saga_at id s) (e id)) → ∀ id, ours dg cf id → saga_ok id (saga_at id s') (e id).
Proof.
  intros (i & He & Ht) Hk Hs id Hid. destruct (decide (id = i)) as [->|Hne]; [|rewrite He by done; by apply Hs].
  by eapply saga_turn, Hs.
Qed.

(** Moves on the shard: the turns keep the sagas and whatever the workers hold. *)
Lemma world_turns answer w s' :
  world_ok w → rtc (turned answer) (w_shard w) s' → tables s' →
  (∀ id, answers_know answer id (entry id (w_ledger w))) → world_ok (on_shard s' w).
Proof.
  intros [Ht Hs Htk Hrc] Hturns Hs' Hk.
  assert (∀ t a id, ticket_ok t a id (w_shard w) → ticket_ok t a id s') as Hticket.
  { clear Hs Htk Hrc Ht Hs'. induction Hturns as [|s1 s2 s3 H1 _ IH]; [done|]. intros t a id Hok. by eapply IH, ticket_turned. }
  split; simpl; [done| | |].
  - clear Htk Hrc Ht Hs' Hticket. induction Hturns as [|s1 s2 s3 H1 _ IH]; [done|]. apply IH. by apply (sagas_turned answer s1).
  - intros t (a & id & Hok)%Htk. eauto.
  - intros t r (a & id & row & Hok & ?)%Hrc. exists a, id, row. auto.
Qed.

Lemma no_answers id e : answers_know (λ _ _ _, False) id e.
Proof. by split. Qed.

(** ** The provider *)

(** An operation on [id] leaves the entries of other bookings. *)
Lemma execute_commit_elsewhere a id o p p' r :
  execute_commit digest o p = Ok (p', r) → o_id o = job_id a id → o_booking o = id →
  (∀ id', id' ≠ id → entry id' p' = entry id' p) ∧
  (∀ jid row, dget jid (operations p) = Some row → ∃ row', dget jid (operations p') = Some row' ∧ op_result row' = op_result row) ∧
  (∃ row, dget (job_id a id) (operations p') = Some row ∧ op_result row = r).
Proof.
  intros H Hid Hb. unfold execute_commit in H. rewrite Hid in H. destruct (dget (job_id a id) (operations p)) as [old|] eqn:Hold.
  - apply raise_if_Ok in H as [_ H]. injection H as <- <-. split; [|split].
    + intros id' Hne. unfold entry. simpl. rewrite !dget_dset_ne by (by apply job_id_ne). done.
    + intros jid row Hrow. simpl. rewrite dget_dset. case_decide; [|by exists row]. subst jid. rewrite Hold in Hrow. injection Hrow as <-. by eexists.
    + simpl. rewrite dget_dset_eq. by eexists.
  - destruct (apply_operation o p) as [[p1 st]|] eqn:Happ; [|done]. simpl in H. injection H as <- <-.
    assert (operations p1 = operations p ∧ ∀ i, i ≠ id → dget i (charges p1) = dget i (charges p)) as [Eo Ec].
    { unfold apply_operation in Happ. apply raise_if_Ok in Happ as [_ Happ]. rewrite Hb in Happ. case_bool_decide.
      - apply raise_if_Ok in Happ as [_ Happ]. injection Happ as <- _. split; [done|]. intros i Hi. simpl. by apply dget_dset_ne.
      - destruct (dget id (charges p)); [|done]. apply raise_if_Ok in Happ as [_ Happ]. injection Happ as <- _.
        split; [done|]. intros i Hi. simpl. by apply dget_dset_ne. }
    split; [|split].
    + intros id' Hne. unfold entry. simpl. rewrite Eo, !dget_dset_ne by (by apply job_id_ne). by rewrite Ec.
    + intros jid row Hrow. simpl. rewrite Eo, dget_dset_ne; [by exists row|]. intros E. congruence.
    + simpl. rewrite Eo, dget_dset_eq. by eexists.
Qed.

Lemma execute_commit_controls o p p' r :
  execute_commit digest o p = Ok (p', r) → fail_after_commit p' = fail_after_commit p ∧ fail_refunds p' = fail_refunds p.
Proof.
  unfold execute_commit. destruct (dget (o_id o) (operations p)) as [old|].
  - intros [_ H]%raise_if_Ok. by injection H as <- _.
  - destruct (apply_operation o p) as [[p1 st]|] eqn:E; [|done]. intros [= <- _]. simpl. unfold apply_operation in E.
    apply raise_if_Ok in E as [_ E]. case_bool_decide; [|destruct (dget _ (charges p)); [|done]];
      apply raise_if_Ok in E as [_ E]; by injection E as <- _.
Qed.

(** An operation that the provider has done is answered from its receipt. *)
Lemma execute_replay a id b p old :
  entry_ok id b (entry id p) → dget (job_id a id) (operations p) = Some old →
  ∃ p' r, execute_commit digest (intent (job_id a id) a id b) p = Ok (p', r) ∧ (entry id p').1.1 = (entry id p).1.1 ∧ entry_ok id b (entry id p').
Proof.
  intros He Hold. unfold execute_commit. simpl. unfold entry, entry_ok in He. rewrite Hold.
  destruct (dget id (charges p)) as [c|] eqn:Hc; [|destruct a; naive_solver].
  assert (∃ st n, old = mk_oprow (digest (intent (job_id a id) a id b)) (receipt_of id b st) n) as (st & n & ->).
  { destruct a; rewrite Hold in He.
    - destruct He as [(n & [= ->]) _]. by eexists _, n.
    - destruct He as [_ [[_ ?]|(_ & _ & n & [= ->])]]; [done|]. by eexists _, n. }
  simpl. rewrite bool_decide_eq_false_2 by tauto. eexists _, _. split; [done|]. split; [done|].
  unfold entry, entry_ok. simpl. rewrite Hc.
  destruct a; [rewrite dget_dset_eq, (dget_dset_ne _ (job_id refund id)) by (by apply job_id_action)
              |rewrite (dget_dset_ne _ (job_id charge id)), dget_dset_eq by (by apply job_id_action)]; rewrite Hold in He.
  - destruct He as [(m & [= -> ->]) He]. split; [by eexists|done].
  - destruct He as [He [[_ ?]|(Ho & -> & m & [= -> ->])]]; [done|]. split; [done|]. right. split; [done|]. split; [done|]. by eexists.
Qed.

(** A charge that was claimed and not yet made is made. *)
Lemma execute_charge id b cj rj p :
  saga_ok id (Some b, Some cj, rj) (entry id p) → 1 <= j_attempts cj → dget (job_id charge id) (operations p) = None →
  ∃ p' r, execute_commit digest (intent (job_id charge id) charge id b) p = Ok (p', r) ∧ saga_ok id (Some b, Some cj, rj) (entry id p').
Proof.
  intros (Hh & Hph & He) Hatt Hnew. unfold execute_commit. simpl. rewrite Hnew. unfold entry, entry_ok in He. simpl in Hph. rewrite Hnew in He.
  destruct (dget id (charges p)) as [c|] eqn:Hc; [destruct He as [(n & ?) _]; done|]. destruct He as [_ Hr].
  unfold apply_operation, dmem. simpl. rewrite Hc. simpl. eexists _, _. split; [done|]. split; [done|].
  unfold entry. simpl. rewrite !dget_dset_eq, (dget_dset_ne _ (job_id refund id)), Hr by (by apply job_id_action). split.
  - unfold phase_ok in *. destruct (b_payment b); naive_solver lia.
  - unfold entry_ok. split; [by exists 1|]. by left.
Qed.

(** A refund that was claimed and not yet made finds its charge paid. *)
Lemma execute_refund id b cj rj p :
  saga_ok id (Some b, Some cj, Some rj) (entry id p) → 1 <= j_attempts rj → dget (job_id refund id) (operations p) = None → fail_refunds p = false →
  ∃ p' r, execute_commit digest (intent (job_id refund id) refund id b) p = Ok (p', r) ∧ saga_ok id (Some b, Some cj, Some rj) (entry id p').
Proof.
  intros (Hh & Hph & He) Hatt Hnew Hf. unfold execute_commit. simpl. rewrite Hnew. unfold entry, entry_ok in He. simpl in Hph. rewrite Hnew in He.
  assert (b_payment b = REFUND_PENDING ∧ dget id (charges p) = Some (charge_of b "paid")) as [Hp Hc].
  { unfold phase_ok in Hph. destruct (b_payment b); try naive_solver.
    - split; [done|]. destruct Hph as (_ & _ & _ & r & _ & _ & _ & [?|[Hr _]]); [done|]. rewrite Hr in He.
      destruct He as [_ [[E _]|(_ & _ & n & ?)]]; [|done]. unfold charge_of, outcome in E. by destruct (bool_decide _) in E.
    - destruct Hph as (_ & _ & _ & r & _ & _ & Hr). rewrite Hr in He.
      destruct He as [_ [[E _]|(_ & _ & n & ?)]]; [|done]. unfold charge_of, outcome in E. by destruct (bool_decide _) in E. }
  unfold phase_ok in Hph. rewrite Hp, Hc in *. destruct Hph as (Hl & Hcj & Ho & r & [= <-] & Hr & _ & _).
  unfold apply_operation. simpl. rewrite Hf. simpl. rewrite Hc. simpl. rewrite bool_decide_eq_false_2 by naive_solver. simpl.
  eexists _, _. split; [done|]. split; [done|].
  unfold entry. simpl. rewrite !dget_dset_eq, (dget_dset_ne _ (job_id charge id)) by (by apply job_id_action). split.
  - unfold phase_ok. rewrite Hp. do 3 (split; [done|]). exists rj. do 2 (split; [done|]). split; [lia|]. by right.
  - destruct He as [He _]. split; [done|]. right. do 2 (split; [done|]). by exists 1.
Qed.

(** A charge that was claimed is made once; a refund finds its charge; only an outage refuses. *)
Lemma execute_intent a id b cj rj p j :
  saga_ok id (Some b, Some cj, rj) (entry id p) → job_of a (Some b, Some cj, rj) = Some j → 1 <= j_attempts j →
  (a = refund ∧ fail_refunds p = true ∧ execute_commit digest (intent (job_id a id) a id b) p = Raise (StatusError 503)) ∨
  ∃ p' r, execute_commit digest (intent (job_id a id) a id b) p = Ok (p', r) ∧ saga_ok id (Some b, Some cj, rj) (entry id p').
Proof.
  intros Hok Hj Hatt. destruct (dget (job_id a id) (operations p)) as [old|] eqn:Hold.
  - right. destruct Hok as (Hh & Hph & He). destruct (execute_replay a id b p old He Hold) as (p' & r & E & Ec & He').
    exists p', r. split; [done|]. split; [done|]. split; [by rewrite Ec|done].
  - destruct a; simpl in Hj.
    + injection Hj as ->. right. by apply execute_charge.
    + subst rj. destruct (fail_refunds p) eqn:Hf; [|right; by apply execute_refund].
      left. split; [done|]. split; [done|]. unfold execute_commit, apply_operation. simpl. by rewrite Hold, Hf.
Qed.

#[local] Arguments saga_ok : simpl never.
#[local] Arguments saga_at : simpl never.
#[local] Arguments entry : simpl never.

Lemma normalize_intent s a id b : tables s → dget id (bookings s) = Some b →
  normalize_operation (intent (job_id a id) a id b) = Ok (intent (job_id a id) a id b).
Proof.
  intros Hs Hb. destruct (tb_owned _ _ _ Hs _ _ Hb) as ((Eh & _) & Ha & Hm). unfold normalize_operation. simpl. rewrite Eh. simpl.
  rewrite bool_decide_eq_false_2 by (unfold job_id; destruct a; naive_solver). simpl.
  rewrite (proj2 (integer_spec _ _ _) Ha). simpl. by rewrite bool_decide_eq_false_2 by naive_solver.
Qed.

Lemma normalize_operation_Ok o o' : normalize_operation o = Ok o' → o' = o ∧ ∃ a, o_id o = job_id a (o_booking o).
Proof.
  unfold normalize_operation. destruct (booking_hotel _); [|done]. simpl. intros [H1 H]%raise_if_Ok.
  apply raise_if_Ok in H as [_ H]. apply raise_if_Ok in H as [_ H]. injection H as <-. split; [done|].
  apply bool_decide_eq_false in H1. unfold job_id.
  destruct (decide (o_action o = "charge")) as [E|], (decide (o_action o = "refund")) as [E'|];
    destruct (decide (o_id o = o_action o +:+ ":" +:+ o_booking o)) as [Eid|]; try tauto;
    rewrite Eid, ?E, ?E'; [by exists charge|by exists charge|by exists refund].
Qed.

(** The booking of a job in a worker's hands, in its phase. *)
Lemma ticket_saga w t a id :
  world_ok w → ticket_ok t a id (w_shard w) →
  ∃ b cj rj j, t_operation t = intent (job_id a id) a id b ∧ dget id (bookings (w_shard w)) = Some b ∧
    saga_at id (w_shard w) = (Some b, Some cj, rj) ∧ job_of a (Some b, Some cj, rj) = Some j ∧ 1 <= j_attempts j ∧
    saga_ok id (Some b, Some cj, rj) (entry id (w_ledger w)).
Proof.
  intros Hw [(b & Hb & Hop) (j & Hj & Hatt)]. pose proof (wo_sagas _ Hw id) as Hs.
  destruct (tb_owned _ _ _ (wo_tables _ Hw) _ _ Hb) as [Hown _]. specialize (Hs ltac:(by exists (b_hotel b))).
  pose proof (job_of_saga a id (w_shard w)) as Ej. rewrite Hj in Ej. unfold saga_at in *. rewrite Hb in *.
  destruct (dget (job_id charge id) (jobs (w_shard w))) as [cj|]; [|done]. eexists b, cj, _, j. split; [done|]. split; [done|]. by split.
Qed.

(** The worker's payment of a job that it holds. *)
Lemma execute_ticket w t a id p x :
  world_ok w → ticket_ok t a id (w_shard w) → execute digest (t_operation t) (w_ledger w) = (p, x) →
  (∀ i, ours dg cf i → saga_ok i (saga_at i (w_shard w)) (entry i p)) ∧
  (∀ jid row, dget jid (operations (w_ledger w)) = Some row → ∃ row', dget jid (operations p) = Some row' ∧ op_result row' = op_result row) ∧
  match x with
  | Ok r => ∃ row, dget (job_id a id) (operations p) = Some row ∧ op_result row = r
  | Raise e => e = StatusError 503 ∧ (fail_after_commit (w_ledger w) = true ∨ a = refund ∧ fail_refunds (w_ledger w) = true)
  end.
Proof.
  intros Hw Ht. destruct (ticket_saga w t a id Hw Ht) as (b & cj & rj & j & -> & Hb & Hsaga & Hj & Hatt & Hok).
  unfold execute. rewrite (normalize_intent _ _ _ _ (wo_tables _ Hw) Hb). simpl.
  destruct (execute_intent a id b cj rj (w_ledger w) j Hok Hj Hatt) as [(-> & Hf & ->)|(p' & r & E & Hok')].
  - intros [= <- <-]. split; [apply Hw|]. split; [by eauto|]. auto.
  - rewrite E. intros [= <- <-]. destruct (execute_commit_elsewhere a id _ _ _ _ E) as (He & Hrow & Hres); [done|done|].
    split; [|split; [done|destruct (fail_after_commit (w_ledger w)); auto]].
    intros i Hi. destruct (decide (i = id)) as [->|Hne]; [by rewrite Hsaga|]. rewrite He by done. by apply Hw.
Qed.

Lemma execute_other w o p x :
  world_ok w → ¬ ours dg cf (o_booking o) → execute digest o (w_ledger w) = (p, x) →
  (∀ i, ours dg cf i → entry i p = entry i (w_ledger w)) ∧
  (∀ jid row, dget jid (operations (w_ledger w)) = Some row → ∃ row', dget jid (operations p) = Some row' ∧ op_result row' = op_result row).
Proof.
  intros Hw Ho. unfold execute. destruct (normalize_operation o) as [o'|] eqn:En; simpl; [|intros [= <- _]; eauto].
  destruct (normalize_operation_Ok _ _ En) as [-> [a Hid]].
  destruct (execute_commit digest o (w_ledger w)) as [[p' r]|] eqn:E; [|intros [= <- _]; eauto]. intros [= <- _].
  destruct (execute_commit_elsewhere a (o_booking o) _ _ _ _ E) as (He & Hrow & _); [done|done|]. split; [|done].
  intros i Hi. apply He. by intros ->.
Qed.

(** The provider changed: the workers keep what they have. *)
Lemma world_ledger w p :
  world_ok w → (∀ i, ours dg cf i → saga_ok i (saga_at i (w_shard w)) (entry i p)) →
  (∀ jid row, dget jid (operations (w_ledger w)) = Some row → ∃ row', dget jid (operations p) = Some row' ∧ op_result row' = op_result row) →
  world_ok (on_ledger p w).
Proof.
  intros [H1 H2 H3 H4] Hs Hrow. split; simpl; [done|done|done|].
  intros t r Hin. destruct (H4 t r Hin) as (a & id & row & Ht & Hg & Hr). destruct (Hrow _ _ Hg) as (row' & ? & ?).
  exists a, id, row'. split; [done|]. split; [done|congruence].
Qed.

(** The receipts of the provider are what its entries say. *)
Lemma receipts_know a id st p :
  answered_by p a id st → answers_know (λ a' i st', a' = a ∧ i = id ∧ st' = st) id (entry id p).
Proof.
  intros Hans. split; intros b st' (<- & _ & ->) He; [by eapply entry_charged|by eapply entry_refunded].
Qed.

Lemma receipt_answers a id r w row :
  world_ok w → dget (job_id a id) (operations (w_ledger w)) = Some row → op_result row = r →
  ∀ i, answers_know (λ a' i' st', a' = a ∧ i' = id ∧ st' = r_status r) i (entry i (w_ledger w)).
Proof.
  intros Hw Hrow <- i. destruct (decide (i = id)) as [->|Hne].
  - apply receipts_know. by exists row.
  - split; by intros b st' (_ & -> & _).
Qed.

Lemma serve_turns r clock s s' : tables s → serve dg cf r clock s = Ok s' → tables s' ∧ rtc (turned (λ _ _ _, False)) s s'.
Proof.
  intros Hs H. destruct r as [user body|id user|hotel room m|hotel room rows]; simpl in H.
  - destruct (reserve _ _ _ _ _ _) as [[s1 v]|] eqn:E; [|done]. injection H as <-. by eapply reserve_turns.
  - destruct (cancel _ _ _ _) as [[s1 v]|] eqn:E; [|done]. injection H as <-. by eapply cancel_turns.
  - by eapply manage_turns.
  - destruct (set_days _ _ _ _ _ _) as [[s1 v]|] eqn:E; [|done]. injection H as <-. by eapply set_days_turns.
Qed.

(** What was ordered stays. *)
Definition keeps (s s' : Shard) : Prop := ∀ id b, dget id (bookings s) = Some b → ∃ b', dget id (bookings s') = Some b' ∧ same_order b b'.

Lemma turns_keep answer s s' : rtc (turned answer) s s' → keeps s s'.
Proof.
  induction 1 as [|s1 s2 s3 (i & He & Ht) _ IH]; intros id b Hb; [by exists b|].
  assert (∃ b', dget id (bookings s2) = Some b' ∧ same_order b b') as (b' & Hb' & Hsame).
  { destruct (decide (id = i)) as [->|Hne].
    - by apply (turn_order _ _ _ _ b Ht).
    - pose proof (He id Hne) as Hs. unfold saga_at in Hs. injection Hs as -> _ _. by exists b. }
  destruct (IH id b' Hb') as (b2 & Hb2 & Hsame2). exists b2. split; [done|]. unfold same_order in *. naive_solver congruence.
Qed.

Lemma got_ticket_ok w t a id : world_ok w → ticket_ok t a id (w_shard w) → world_ok (got_ticket t w).
Proof.
  intros [H1 H2 H3 H4] Ht. split; simpl; [done|done| |done]. intros t' [->|Hin]%elem_of_cons; [eauto|by apply H3].
Qed.

Lemma got_receipt_ok w t r a id row :
  world_ok w → ticket_ok t a id (w_shard w) → dget (job_id a id) (operations (w_ledger w)) = Some row → op_result row = r →
  world_ok (got_receipt t r w).
Proof.
  intros [H1 H2 H3 H4] Ht Hrow Hr. split; simpl; [done|done|done|]. intros t' r' [[= -> ->]|Hin]%elem_of_cons; [by exists a, id, row|by apply H4].
Qed.

Lemma sweep_ok w clock s n : world_ok w → sweep clock (w_shard w) = Ok (s, n) → world_ok (on_shard s w).
Proof.
  intros Hw H. destruct (sweep_turns dg cf (λ _ _ _, False) clock (w_shard w) (wo_tables _ Hw) (sweep_clock _ _ _ H)) as (s' & n' & E & Hs' & _ & Ht).
  rewrite H in E. injection E as <- _. eapply world_turns; [done|exact Ht|done|]. intros i. apply no_answers.
Qed.

Lemma claim_ok w lease token clock s t :
  world_ok w → claim lease token clock (w_shard w) = Ok (s, t) →
  world_ok (on_shard s w) ∧ match t with Some t => world_ok (got_ticket t (on_shard s w)) | None => True end.
Proof.
  intros Hw H. destruct (claim_valid _ _ _ _ _ H) as [Hl Hc].
  destruct (claim_turns dg cf (λ _ _ _, False) lease token clock (w_shard w) (wo_tables _ Hw) Hl Hc) as (s' & t' & E & Hs' & Ht & Hcl).
  rewrite H in E. injection E as <- <-.
  assert (world_ok (on_shard s w)) as Hw' by (eapply world_turns; [done|exact Ht|done|]; intros i; apply no_answers).
  split; [done|]. destruct t as [t|]; [|done]. inversion Hcl; subst. by eapply got_ticket_ok.
Qed.

Lemma execute_ok w t p x :
  world_ok w → t ∈ w_tickets w → execute digest (t_operation t) (w_ledger w) = (p, x) →
  world_ok (on_ledger p w) ∧ match x with Ok r => world_ok (got_receipt t r (on_ledger p w)) | Raise _ => True end.
Proof.
  intros Hw Hin H. destruct (wo_tickets _ Hw t Hin) as (a & id & Ht).
  destruct (execute_ticket w t a id p x Hw Ht H) as (Hs & Hrow & Hx). pose proof (world_ledger w p Hw Hs Hrow) as Hw'.
  split; [done|]. destruct x as [r|]; [|done]. destruct Hx as (row & ? & ?). by eapply got_receipt_ok.
Qed.

Lemma finish_ok w t r clock s b :
  world_ok w → (t, r) ∈ w_receipts w → finish t r clock (w_shard w) = Ok (s, b) → world_ok (on_shard s w).
Proof.
  intros Hw Hin H. destruct (wo_receipts _ Hw t r Hin) as (a & id & row & Ht & Hrow & Hr).
  pose proof (receipt_answers a id r w row Hw Hrow Hr) as Hk.
  destruct (finish_turns dg cf (λ a' i' st', a' = a ∧ i' = id ∧ st' = r_status r) t a id r clock (w_shard w) s b (wo_tables _ Hw) Ht (conj eq_refl (conj eq_refl eq_refl)) H) as [Hs' Hturns].
  eapply world_turns; [done|exact Hturns|done|exact Hk].
Qed.

Lemma retry_ok w t message clock s : world_ok w → t ∈ w_tickets w → retry t message clock (w_shard w) = Ok s → world_ok (on_shard s w).
Proof.
  intros Hw Hin H. destruct (wo_tickets _ Hw t Hin) as (a & id & Ht).
  destruct (retry_turns dg cf (λ _ _ _, False) _ _ _ _ _ _ _ (wo_tables _ Hw) Ht H) as [Hs' Hturns].
  eapply world_turns; [done|exact Hturns|done|]. intros i. apply no_answers.
Qed.

Lemma move_ok w w' : world_ok w → move dg cf digest w w' → world_ok w'.
Proof.
  intros Hw Hm. destruct Hm as [w r clock s H|w clock s n H|w lease token clock s t H|w lease token clock s t H|w t p x Hin H|w t p r Hin H|w t r clock s b Hin H|w t m clock s Hin H|w body|w o p x Ho H].
  - destruct (serve_turns _ _ _ _ (wo_tables _ Hw) H) as [Hs Ht]. eapply world_turns; [done|exact Ht|done|]. intros i. apply no_answers.
  - by eapply sweep_ok.
  - by eapply (claim_ok w).
  - by eapply (claim_ok w _ _ _ _ (Some t)).
  - by eapply (execute_ok w t).
  - by eapply (execute_ok w t _ (Ok r)).
  - by eapply finish_ok.
  - by eapply retry_ok.
  - apply world_ledger; [done| |]; destruct body as [[]|]; simpl; eauto; apply Hw.
  - destruct (execute_other _ _ _ _ Hw Ho H) as [He Hrow]. apply world_ledger; [done| |done].
    intros i Hi. rewrite He by done. by apply Hw.
Qed.

Lemma world_start_ok : world_ok world_start.
Proof.
  split; simpl; [|done|by intros t ?%elem_of_nil|by intros t r ?%elem_of_nil].
  split; simpl; [|apply dict_nil_ok|done|done|done]. split; simpl; try done; apply dict_nil_ok.
Qed.

Lemma moves_ok w w' : rtc (move dg cf digest) w w' → world_ok w → world_ok w'.
Proof. induction 1 as [|w1 w2 w3 Hm _ IH]; [done|]. intros Hok. by eapply IH, move_ok. Qed.

Lemma hotel_reached w : reachable dg cf digest w → world_ok w.
Proof. intros Hr. eapply moves_ok; [exact Hr|apply world_start_ok]. Qed.

Lemma move_keeps w w' : world_ok w → move dg cf digest w w' → keeps (w_shard w) (w_shard w').
Proof.
  intros Hw Hm. set (no := λ (_ : Action) (_ _ : string), False).
  assert (∀ lease token clock s t, claim lease token clock (w_shard w) = Ok (s, t) → keeps (w_shard w) s) as Hclaim.
  { intros lease token clock s t H. destruct (claim_valid _ _ _ _ _ H) as [Hl Hc].
    destruct (claim_turns dg cf no lease token clock (w_shard w) (wo_tables _ Hw) Hl Hc) as (s' & t' & E & _ & Ht & _).
    rewrite H in E. injection E as <- _. by eapply turns_keep. }
  destruct Hm as [w r clock s H|w clock s n H|w lease token clock s t H|w lease token clock s t H|w t p x Hin H|w t p r Hin H|w t r clock s b Hin H|w t m clock s Hin H|w body|w o p x Ho H];
    simpl; try (intros id b' Hb'; by exists b').
  - eapply turns_keep, serve_turns; [apply Hw|done].
  - destruct (sweep_turns dg cf no clock (w_shard w) (wo_tables _ Hw) (sweep_clock _ _ _ H)) as (s' & n' & E & _ & _ & Ht).
    rewrite H in E. injection E as <- _. by eapply turns_keep.
  - by eapply Hclaim.
  - by eapply Hclaim.
  - destruct (wo_receipts _ Hw t r Hin) as (a & id & row & Ht & _ & _).
    eapply turns_keep, (finish_turns dg cf (λ _ _ _, True)); [apply Hw|exact Ht|done|exact H].
  - destruct (wo_tickets _ Hw t Hin) as (a & id & Ht). eapply turns_keep, (retry_turns dg cf no); [apply Hw|exact Ht|exact H].
Qed.

Lemma moves_keep w w' : rtc (move dg cf digest) w w' → world_ok w → keeps (w_shard w) (w_shard w').
Proof.
  induction 1 as [|w1 w2 w3 Hm _ IH]; intros Hw id b Hb; [by exists b|].
  destruct (move_keeps w1 w2 Hw Hm id b Hb) as (b' & Hb' & Hs). destruct (IH (move_ok _ _ Hw Hm) id b' Hb') as (b2 & Hb2 & Hs2).
  exists b2. split; [done|]. unfold same_order in *. naive_solver congruence.
Qed.
End world.
