(* ===== verification/HotelProps.v ===== *)
(** * What the hotel reservation system promises

    The theorems on the world of HotelPayment.v: no night is sold beyond its limit, the
    provider's money agrees with the bookings, a worker only makes the moves of the world
    whatever it loses, and undisturbed rounds of work settle every booking. *)
From S2P Require Import Prelude PyList PyDict Checks Effects HotelStore HotelSaga HotelPayment HotelStock HotelSteps HotelWorld.
Local Open Scope Z_scope.

Section props.
Context (dg : Digests) (cf : Settings) (digest : Operation → string).
Context (hex_digest : ∀ u k, hex32 (key_digest dg u k) = true).
Notation ok := (world_ok dg cf digest).
Notation moves := (rtc (move dg cf digest)).
Notation work := (work digest).

(** ** A round of work is a sequence of moves *)

Lemma call_moves {A} f (op : Shard → result (Shard * A)) w :
  (∀ s a, op (w_shard w) = Ok (s, a) → move dg cf digest w (on_shard s w)) → moves w (call f op w).1.
Proof.
  intros Hop. unfold call. destruct f; [..|done]; destruct (op (w_shard w)) as [[s a]|] eqn:E; try done; apply rtc_once; by eapply Hop.
Qed.

Lemma call_Ok {A} f (op : Shard → result (Shard * A)) w w' a :
  call f op w = (w', Ok a) → ∃ s, op (w_shard w) = Ok (s, a) ∧ w' = on_shard s w.
Proof.
  unfold call. destruct f; [| |done]; destruct (op (w_shard w)) as [[s x]|]; intros [= <- H]; subst; by eexists.
Qed.

Lemma on_shard_twice s s' w : on_shard s (on_shard s' w) = on_shard s w.
Proof. done. Qed.

(** The settlement of a job that the worker holds. *)
Lemma settle_work_moves k t w : t ∈ w_tickets w → moves w (settle_work digest k t w).1 ∧ t ∈ w_tickets (settle_work digest k t w).1.
Proof.
  intros Hin. unfold settle_work, mbind, pay, mlift, remember_receipt, mret.
  destruct (execute digest (t_operation t) (w_ledger w)) as [p x] eqn:E.
  assert (moves w (on_ledger p w)) as Hlost by (apply rtc_once; by eapply move_execute).
  destruct (f_execute k); [| |done]; [|by simpl].
  destruct x as [r|]; [|by simpl]. simpl. destruct (normalize_receipt r (t_operation t)) as [r'|]; [|by simpl].
  set (w1 := got_receipt t r (on_ledger p w)).
  assert (moves w w1) as H1 by (apply rtc_once; by eapply move_executed).
  pose proof (call_moves (f_finish k) (finish t r (k_finish k)) w1) as Hf.
  destruct (call (f_finish k) (finish t r (k_finish k)) w1) as [w2 y] eqn:E2. simpl in Hf.
  assert (moves w1 w2) as H2 by (apply Hf; intros s b Hs; eapply move_finish; [simpl; left|exact Hs]).
  assert (w_tickets w2 = w_tickets w) as Ht.
  { unfold call in E2. destruct (f_finish k); [..|by injection E2 as <- _]; destruct (finish _ _ _ _) as [[s b]|]; by injection E2 as <- _. }
  destruct y as [b|e]; simpl; (split; [by etrans|by rewrite Ht]).
Qed.

Lemma retry_work_moves k t w : t ∈ w_tickets w → moves w (retry_work k t w).1.
Proof.
  intros Hin. unfold retry_work. simpl. apply call_moves. intros s [] H.
  destruct (retry _ _ _ _) as [s'|] eqn:E; [|done]. injection H as ->. by eapply move_retry.
Qed.

Lemma work_moves k w : moves w (work k w).1.
Proof.
  unfold HotelPayment.work. destruct (call (f_sweep k) (sweep (k_sweep k)) w) as [w1 x] eqn:E1.
  assert (moves w w1) as H1.
  { pose proof (call_moves (f_sweep k) (sweep (k_sweep k)) w) as H. rewrite E1 in H. apply H. intros s n Hs. by eapply move_sweep. }
  destruct x as [n|]; [|done]. destruct (call (f_claim k) _ w1) as [w2 y] eqn:E2.
  assert (moves w1 w2) as H2.
  { pose proof (call_moves (f_claim k) (claim LEASE_MS (k_token k) (k_claim k)) w1) as H. rewrite E2 in H. apply H. intros s t Hs. by eapply move_claim. }
  destruct y as [[t|]|]; [|by etrans|by etrans]. destruct (normalize_job t) as [t'|] eqn:En; [|by etrans].
  apply normalize_job_Ok in En as ->. destruct (call_Ok _ _ _ _ _ E2) as (s & Hs & ->).
  assert (moves w (got_ticket t (on_shard s w1))) as H3 by (etrans; [exact H1|]; apply rtc_once; by eapply move_claimed).
  destruct (settle_work_moves k t (got_ticket t (on_shard s w1))) as [H4 Hin]; [by left|].
  destruct (settle_work digest k t _) as [w3 z]. simpl in *. destruct z as [b|]; [by etrans|].
  etrans; [exact H3|]. etrans; [exact H4|]. by apply retry_work_moves.
Qed.

(** ** Undisturbed rounds *)

(** Everything is answered, at the time [T]. *)
Definition calm (T : Z) (token : string) : Round := mk_round answered answered answered answered answered T T T T token.
Fixpoint rounds (n : nat) (T : Z) (token : string) (w : World) : World :=
  match n with O => w | S m => rounds m T token (work (calm T token) w).1 end.

Definition all_ready (T : Z) (s : Shard) : Prop := ∀ jid j, dget jid (jobs s) = Some j → j_status j = finished ∨ ready T j = true.
Definition controls_off (w : World) : Prop := fail_after_commit (w_ledger w) = false ∧ fail_refunds (w_ledger w) = false.

(** A charge may still need its refund. *)
Definition job_weight (j : Job) : Z :=
  if bool_decide (j_status j = finished) then 0 else match j_action j with charge => 2 | refund => 1 end.
Definition unsettled (js : dict string Job) : Z := zsum job_weight (dvalues js).

Lemma job_weight_pos j : 0 <= job_weight j.
Proof. unfold job_weight. case_bool_decide; [done|]. by destruct (j_action j). Qed.

Lemma unsettled_pos js : 0 <= unsettled js.
Proof. apply zsum_nonneg. intros j _. apply job_weight_pos. Qed.

Lemma unsettled_zero js jid j : unsettled js <= 0 → dget jid js = Some j → j_status j = finished.
Proof.
  intros Hz Hj. unfold unsettled in Hz. destruct (dset_split jid j j js Hj) as (d1 & d2 & -> & _). unfold dvalues in Hz.
  rewrite fmap_app, fmap_cons, zsum_app in Hz. simpl in Hz.
  pose proof (zsum_nonneg job_weight d1.*2 (λ j _, job_weight_pos j)). pose proof (zsum_nonneg job_weight d2.*2 (λ j _, job_weight_pos j)).
  assert (job_weight j <= 0) as Hw by lia. unfold job_weight in Hw. case_bool_decide; [done|]. by destruct (j_action j).
Qed.

Lemma next_job_none T s : all_ready T s → next_job T s = None → ∀ jid j, dget jid (jobs s) = Some j → j_status j = finished.
Proof.
  intros Hr Hn jid j Hj. destruct (Hr jid j Hj) as [|Hready]; [done|]. exfalso. unfold next_job in Hn.
  apply head_None in Hn. assert ((jid, j) ∈ sort_by (λ kv, (j_due kv.2, kv.1)) (filter (λ kv, ready T kv.2 = true) (jobs s))) as Hin.
  { rewrite elem_of_sort_by, list_elem_of_filter. split; [done|]. by apply dget_Some_elem. }
  rewrite Hn in Hin. by apply elem_of_nil in Hin.
Qed.

Lemma all_ready_dset T s s' jid j :
  all_ready T s → jobs s' = dset jid j (jobs s) → j_status j = finished ∨ ready T j = true → all_ready T s'.
Proof. intros Hr Ej Hj jid' j'. rewrite Ej, dget_dset. case_decide; [by intros [= <-]|apply Hr]. Qed.

(** A settlement finishes a job, for at most one lighter job. *)
Lemma settled_progress a id j T s s' :
  dget (job_id a id) (jobs s) = Some j → j_action j = a → j_status j ≠ finished → settled_jobs a id j T s s' →
  unsettled (jobs s') < unsettled (jobs s) ∧
  ∀ jid j', dget jid (jobs s') = Some j' → j_status j' = finished ∨ ready T j' = true ∨ jid ≠ job_id a id ∧ dget jid (jobs s) = Some j'.
Proof.
  intros Hj Ha Hunf Hset. assert (job_weight j = match a with charge => 2 | refund => 1 end) as Hw.
  { unfold job_weight. by rewrite bool_decide_eq_false_2, Ha. }
  destruct Hset as [E|[-> E]]; rewrite E.
  - split.
    + unfold unsettled. rewrite (zsum_dset job_weight (job_id a id) j) by done. change (job_weight (settle_job j)) with 0. destruct a; lia.
    + intros jid j'. rewrite dget_dset. case_decide as Hjid; [intros [= <-]; by left|auto].
  - assert (unsettled (jobs (add_job id refund T s)) <= unsettled (jobs s) + 1) as Hle.
    { unfold add_job, dmem. destruct (dget (job_id refund id) (jobs s)) eqn:Er; [lia|]. unfold unsettled. simpl. rewrite zsum_dset_new by done. change (job_weight _) with 1. lia. }
    assert (dget (job_id charge id) (jobs (add_job id refund T s)) = Some j) as Hj2 by (rewrite add_job_get, decide_False; [done|by apply job_id_action]).
    split.
    + unfold unsettled in *. rewrite (zsum_dset job_weight (job_id charge id) j) by done. change (job_weight (settle_job j)) with 0. lia.
    + intros jid j'. rewrite dget_dset, add_job_get. destruct (decide (job_id charge id = jid)) as [<-|Hc]; [intros [= <-]; by left|].
      case_decide; [|by auto]. destruct (dget jid (jobs s)) eqn:Ej; intros [= <-]; [by auto|]. right; left.
      apply bool_decide_eq_true. left. simpl. split; [done|lia].
Qed.

(** The receipt of a job in a worker's hands is one that the shard accepts. *)
Lemma receipt_accepted w t a id row :
  ok w → ticket_ok t a id (w_shard w) → dget (job_id a id) (operations (w_ledger w)) = Some row →
  normalize_receipt (op_result row) (t_operation t) = Ok (op_result row).
Proof.
  intros Hw Ht Hrow. destruct (ticket_saga _ _ _ _ _ _ _ Hw Ht) as (b & cj & rj & j & -> & Hb & _ & _ & _ & _ & _ & He).
  destruct (tb_owned _ _ _ (wo_tables _ _ _ _ Hw) _ _ Hb) as (_ & Ham & _). unfold entry, entry_ok in He.
  assert (∃ st, op_result row = receipt_of id b st ∧ st ∈ match a with charge => ["paid"; "declined"] | refund => ["refunded"] end) as (st & -> & Hst).
  { destruct (dget id (charges (w_ledger w))) as [c|]; [|destruct a; naive_solver]. destruct a; rewrite Hrow in He.
    - destruct He as [(n & [= ->]) _]. exists (outcome b). split; [done|]. unfold outcome. case_bool_decide; set_solver.
    - destruct He as [_ [[_ ?]|(_ & _ & n & [= ->])]]; [done|]. exists "refunded". split; [done|set_solver]. }
  unfold normalize_receipt. simpl. rewrite (proj2 (integer_spec _ _ _) Ham). simpl.
  rewrite (bool_decide_eq_false_2 (id ≠ id ∨ _)) by naive_solver. simpl.
  rewrite bool_decide_eq_false_2; [done|]. intros [Hn|Hn]; [|done]. apply Hn. by destruct a.
Qed.

(** The normal form of a job in a worker's hands. *)
Lemma ticket_normal w t a id :
  ok w → ticket_ok t a id (w_shard w) → hex32 (t_token t) = true → normalize_job t = Ok t.
Proof.
  intros Hw [(b & Hb & Hop) _] Htok. unfold normalize_job. rewrite Hop.
  rewrite (normalize_intent _ _ _ _ _ _ (wo_tables _ _ _ _ Hw) Hb). simpl. by rewrite Htok.
Qed.

(** An undisturbed payment and settlement of the job that [t] leases. *)
Lemma settle_calm T token t a id j w :
  ok w → controls_off w → t ∈ w_tickets w → ticket_ok t a id (w_shard w) → t_token t = token → hex32 token = true →
  held_job t (w_shard w) = Some j → 0 <= T <= 253402300799000 →
  ∃ w', settle_work digest (calm T token) t w = (w', Ok true) ∧ ok w' ∧ controls_off w' ∧ settled_jobs a id j T (w_shard w) (w_shard w').
Proof.
  intros Hw [Hc1 Hc2] Hin Ht Htok Hhex Hj HT. unfold settle_work, mbind, pay, mlift, remember_receipt, mret. simpl.
  destruct (execute digest (t_operation t) (w_ledger w)) as [p x] eqn:E.
  pose proof (execute_ok _ _ _ w t p x Hw Hin E) as [Hp Hx].
  destruct (execute_ticket _ _ _ w t a id p x Hw Ht E) as (_ & _ & Hrow).
  destruct x as [r|e]; [|destruct Hrow as [_ [?|[_ ?]]]; congruence]. destruct Hrow as (row & Hrow & <-).
  pose proof (receipt_accepted (on_ledger p w) t a id row Hp Ht Hrow) as Hn. simpl. rewrite Hn.
  assert (controls_off (on_ledger p w)) as Hoff.
  { unfold execute in E. destruct (normalize_operation _) as [o|]; [|by injection E as <- _]. simpl in E.
    destruct (execute_commit digest o (w_ledger w)) as [[p' r']|] eqn:Ec; [|by injection E as <- _]. injection E as <- _.
    destruct (execute_commit_controls _ _ _ _ _ Ec) as [E1 E2]. unfold controls_off. simpl. by rewrite E1, E2. }
  destruct (finish_held dg cf (answered_by p) t a id (op_result row) (w_shard w) j T) as (s' & Hf & Hs' & Hturn & Hjobs);
    try done; [apply Hw|by eapply ticket_normal; [exact Hw|exact Ht|subst]|by exists row|].
  unfold call. simpl. rewrite Hf. eexists. split; [done|]. split; [|by split].
  eapply (finish_ok _ _ _ (got_receipt t (op_result row) (on_ledger p w))); [done|simpl; left|exact Hf].
Qed.

Lemma round_progress T token w :
  ok w → controls_off w → all_ready T (w_shard w) → hex32 token = true → 0 <= T <= 253402300799000 →
  let w' := (work (calm T token) w).1 in
  ok w' ∧ controls_off w' ∧ all_ready T (w_shard w') ∧
  (unsettled (jobs (w_shard w')) < unsettled (jobs (w_shard w)) ∨ unsettled (jobs (w_shard w')) <= 0).
Proof.
  intros Hw Hoff Hready Hhex HT w'. subst w'. unfold HotelPayment.work, call. simpl.
  destruct (sweep_turns dg cf (λ _ _ _, False) T (w_shard w) (wo_tables _ _ _ _ Hw) HT) as (s1 & n & Esw & _ & Ej1 & _).
  rewrite Esw. pose proof (sweep_ok _ _ _ w T s1 n Hw Esw) as Hw1. simpl.
  assert (all_ready T s1) as Hready1 by (intros jid j; rewrite Ej1; apply Hready).
  destruct (claim_turns dg cf (λ _ _ _, False) LEASE_MS token T s1 (wo_tables _ _ _ _ Hw1) ltac:(unfold LEASE_MS; lia) HT) as (s2 & t & Ecl & _ & _ & Hcl).
  rewrite Ecl. pose proof (claim_ok _ _ _ (on_shard s1 w) _ _ _ _ _ Hw1 Ecl) as [Hw2 Ht2]. rewrite <- Ej1. simpl in *. rewrite on_shard_twice in *.
  destruct Hcl as [Hnone Es|id c Hc Hunf Ej|a id j t Hj Hunf Ej Htk Htok].
  - rewrite Es in *. split; [done|]. split; [done|]. split; [done|]. right. simpl. unfold unsettled. rewrite (zsum_zero job_weight); [done|].
    intros j Hj. apply elem_dvalues in Hj as [jid Hj]; [|apply (tb_jobs _ _ _ (wo_tables _ _ _ _ Hw1))].
    unfold job_weight. by rewrite (next_job_none T s1 Hready1 Hnone jid j Hj).
  - split; [done|]. split; [done|]. simpl. split; [eapply all_ready_dset; [exact Hready1|exact Ej|by left]|]. left.
    rewrite Ej. unfold unsettled. rewrite (zsum_dset job_weight (job_id charge id) c) by done. change (job_weight (finish_job c)) with 0.
    unfold job_weight at 2. rewrite bool_decide_eq_false_2 by done. destruct (j_action c); lia.
  - assert (normalize_job t = Ok t) as Hnorm by (eapply (ticket_normal (on_shard s2 w)); [done|exact Htk|by rewrite Htok]). rewrite Hnorm.
    destruct (tb_named _ _ _ (wo_tables _ _ _ _ Hw1) _ _ Hj) as [[Hid _] _]. apply job_id_inj in Hid as [Ha Hbk].
    assert (dget (job_id a id) (jobs s2) = Some (lease_job (T + LEASE_MS) token j)) as Hj2 by (rewrite Ej; apply dget_dset_eq).
    destruct (settle_calm T token t a id (lease_job (T + LEASE_MS) token j) (got_ticket t (on_shard s2 w))) as (w' & -> & Hw' & Hoff' & Hset);
      [done|done|left|done|done|done| |done|].
    { apply held_job_Some. destruct Htk as [(b & _ & ->) _]. simpl. by rewrite Htok. }
    split; [done|]. split; [done|]. destruct (settled_progress a id _ T _ _ Hj2 (eq_sym Ha) ltac:(done) Hset) as [Hlt Hleft]. simpl in Hlt, Hleft.
    split.
    + intros jid j' Hj'. destruct (Hleft jid j' Hj') as [|[|[Hne Hin]]]; [by left|by right|]. rewrite Ej, dget_dset_ne in Hin by done. exact (Hready1 _ _ Hin).
    + left. simpl. rewrite Ej in Hlt. unfold unsettled in Hlt at 2. rewrite (zsum_dset job_weight (job_id a id) j) in Hlt by done.
      assert (job_weight (lease_job (T + LEASE_MS) token j) = job_weight j) as Ew.
      { unfold job_weight. simpl. by rewrite bool_decide_eq_false_2. }
      rewrite Ew in Hlt. unfold unsettled at 2. lia.
Qed.

Lemma rounds_settle n T token w :
  ok w → controls_off w → all_ready T (w_shard w) → hex32 token = true → 0 <= T <= 253402300799000 →
  unsettled (jobs (w_shard w)) <= Z.of_nat n → ok (rounds n T token w) ∧ ∀ jid j, dget jid (jobs (w_shard (rounds n T token w))) = Some j → j_status j = finished.
Proof.
  revert w. induction n as [|n IH]; intros w Hw Hoff Hready Hhex HT Hn; cbn [rounds].
  - split; [done|]. intros jid j Hj. eapply unsettled_zero; [|exact Hj]. lia.
  - destruct (round_progress T token w Hw Hoff Hready Hhex HT) as (Hw' & Hoff' & Hready' & Hlt). apply IH; try done.
    pose proof (unsettled_pos (jobs (w_shard w))). lia.
Qed.

(** The end of a booking whose jobs are finished. *)
Lemma settled_booking w id b :
  ok w → (∀ jid j, dget jid (jobs (w_shard w)) = Some j → j_status j = finished) → dget id (bookings (w_shard w)) = Some b →
  b_status b = CONFIRMED ∧ dget id (charges (w_ledger w)) = Some (charge_of b "paid") ∨
  live (b_status b) = false ∧ (dget id (charges (w_ledger w)) = None ∨ dget id (charges (w_ledger w)) = Some (charge_of b "declined") ∨
    dget id (charges (w_ledger w)) = Some (charge_of b "refunded")).
Proof.
  intros Hw Hfin Hb. pose proof (wo_sagas _ _ _ _ Hw id) as Hs. destruct (tb_owned _ _ _ (wo_tables _ _ _ _ Hw) _ _ Hb) as [Hown _].
  specialize (Hs ltac:(by exists (b_hotel b))). unfold saga_ok, saga_at, entry in Hs. rewrite Hb in Hs.
  destruct (dget (job_id charge id) (jobs (w_shard w))) as [cj|] eqn:Ec; [|done]. destruct Hs as (_ & Hph & _). simpl in Hph.
  pose proof (Hfin _ _ Ec) as Hcj. unfold phase_ok in Hph. destruct (b_payment b).
  - destruct Hph as (_ & _ & _ & Hc & Hs & Hp). right. split; [|by left]. unfold live. apply bool_decide_eq_false. intros [E|E]; [|done].
    apply Hp in E. congruence.
  - destruct Hph as (_ & ? & _). done.
  - destruct Hph as (? & _ & _ & _ & ?). by left.
  - destruct Hph as (? & _ & _ & _ & ?). right. auto.
  - destruct Hph as (_ & _ & _ & r & Hr & Hrf & _). by apply Hfin in Hr.
  - destruct Hph as (? & _ & _ & r & _ & _ & ?). right. auto.
Qed.

(** ** Repeated requests *)

Lemma find_request_keyed s id b :
  tables_ok dg cf s → dget id (bookings s) = Some b → find_request s (b_hotel b) (b_user b) (b_key b) = Some (id, b).
Proof.
  intros Hs Hb. unfold find_request.
  assert ((id, b) ∈ filter (λ kv : string * Booking, b_hotel kv.2 = b_hotel b ∧ b_user kv.2 = b_user b ∧ b_key kv.2 = b_key b) (bookings s)) as Hin.
  { rewrite list_elem_of_filter. split; [done|]. by apply dget_Some_elem. }
  destruct (filter _ _) as [|[id' b'] l] eqn:E; [by apply elem_of_nil in Hin|]. simpl.
  assert ((id', b') ∈ (id', b') :: l) as Hin' by left. rewrite <- E, list_elem_of_filter in Hin'. simpl in Hin'.
  destruct Hin' as [(E1 & E2 & E3) Hin']. apply dget_Some in Hin'; [|apply Hs].
  pose proof (tb_keyed _ _ _ Hs _ _ Hb) as K. pose proof (tb_keyed _ _ _ Hs _ _ Hin') as K'. rewrite E1, E2, E3, <- K in K'. subst id'.
  rewrite Hb in Hin'. by injection Hin' as ->.
Qed.

Lemma booking_Ok s id user v : booking s id user = Ok v → v_id v = id.
Proof.
  unfold booking. destruct (booking_hotel id); [|done]. simpl. destruct (match user with Some u => check_identifier u | None => Ok () end); [|done]. simpl.
  destruct (dget id (bookings s)); [|done]. destruct (match user with Some u => _ | None => false end); [done|]. by intros [= <-].
Qed.

(** The booking that a reservation answers with. *)
Lemma reserve_booked user body clock s s' v :
  dict_ok (bookings s) → reserve dg cf user body clock s = Ok (s', v) →
  ∃ b, dget (v_id v) (bookings s') = Some b ∧ b_hotel b = rb_hotel body ∧ b_user b = user ∧ b_key b = rb_request_key body ∧ b_hash b = fingerprint_of dg body.
Proof.
  intros Hok H. unfold reserve in H.
  destruct (check_identifier (rb_hotel body)); [|done]. simpl in H. destruct (check_identifier (rb_room body)); [|done]. simpl in H.
  destruct (check_identifier (rb_request_key body)); [|done]. simpl in H. destruct (owner _ _ _); [|done]. simpl in H.
  destruct (check_identifier user); [|done]. simpl in H. do 3 apply raise_if_Ok in H as [_ H].
  destruct (find_request _ _ _ _) as [[old b]|] eqn:Ef.
  - apply raise_if_Ok in H as [Hh H]. apply bool_decide_eq_false, dec_stable in Hh. destruct (booking s old (Some user)) as [v'|] eqn:Eb; [|done].
    injection H as <- <-. apply booking_Ok in Eb as ->. unfold find_request in Ef. apply head_Some_elem_of in Ef.
    rewrite list_elem_of_filter in Ef. destruct Ef as [(E1 & E2 & E3) Hin]. apply dget_Some in Hin; [|done]. by exists b.
  - destruct (_now clock) as [now|]; [|done]. simpl in H. destruct (stay _ _ _) as [ds|]; [|done]. simpl in H.
    do 3 apply raise_if_Ok in H as [_ H]. destruct (reserve_days _ _ _ _ _) as [inv|]; [|done]. simpl in H. apply raise_if_Ok in H as [_ H].
    destruct (booking _ _ (Some user)) as [v'|] eqn:Eb; [|done]. injection H as <- <-. apply booking_Ok in Eb as ->.
    unfold add_job. destruct (dmem _ _); simpl; rewrite dget_dset_eq; by eexists.
Qed.

(** A request whose key has a booking: what it answers depends on its digest only. *)
Lemma reserve_repeat user body clock s s' v clock' s2 old b :
  reserve dg cf user body clock s = Ok (s', v) → find_request s2 (rb_hotel body) user (rb_request_key body) = Some (old, b) →
  b_hash b = fingerprint_of dg body → reserve dg cf user body clock' s2 = let* v := booking s2 old (Some user) in Ok (s2, v).
Proof.
  intros H Hf Hh. unfold reserve in *.
  destruct (check_identifier (rb_hotel body)); [|done]. simpl in *. destruct (check_identifier (rb_room body)); [|done]. simpl in *.
  destruct (check_identifier (rb_request_key body)); [|done]. simpl in *. destruct (owner _ _ _); [|done]. simpl in *.
  destruct (check_identifier user); [|done]. simpl in *.
  apply raise_if_Ok in H as [-> H]. apply raise_if_Ok in H as [-> H]. apply raise_if_Ok in H as [-> H]. simpl.
  rewrite Hf, Hh. by rewrite bool_decide_eq_false_2 by tauto.
Qed.

Lemma reserve_conflict user body clock s old b :
  find_request s (rb_hotel body) user (rb_request_key body) = Some (old, b) → b_hash b ≠ fingerprint_of dg body →
  is_ok (reserve dg cf user body clock s) = false.
Proof.
  intros Hf Hh. unfold reserve. destruct (check_identifier (rb_hotel body)); [|done]. simpl. destruct (check_identifier (rb_room body)); [|done]. simpl.
  destruct (check_identifier (rb_request_key body)); [|done]. simpl. destruct (owner _ _ _); [|done]. simpl.
  destruct (check_identifier user); [|done]. simpl. destruct (negb _); [done|]. simpl. destruct (negb _); [done|]. simpl.
  destruct (bool_decide _); [done|]. simpl. rewrite Hf. by rewrite bool_decide_eq_true_2.
Qed.

Lemma booking_total s id b :
  tables_ok dg cf s → dget id (bookings s) = Some b → identifier (b_user b) = true → ∃ v, booking s id (Some (b_user b)) = Ok v ∧ v_id v = id.
Proof.
  intros Hs Hb Hu. destruct (tb_owned _ _ _ Hs _ _ Hb) as [[Eh _] _]. unfold booking, check_identifier. rewrite Eh. simpl. rewrite Hu. simpl.
  rewrite Hb, bool_decide_eq_false_2 by tauto. by eexists.
Qed.

Lemma reserve_user user body clock s x : reserve dg cf user body clock s = Ok x → identifier user = true.
Proof.
  unfold reserve. intros H. destruct (check_identifier (rb_hotel body)); [|done]. simpl in H. destruct (check_identifier (rb_room body)); [|done]. simpl in H.
  destruct (check_identifier (rb_request_key body)); [|done]. simpl in H. destruct (owner _ _ _); [|done]. simpl in H.
  unfold check_identifier in H. by destruct (identifier user).
Qed.

(** ** The theorems *)

(** The rooms sold for a day: the quantities of the bookings that are pending or confirmed. *)
Definition sold (k : Day) (s : Shard) : Z :=
  zsum (λ b, when (live (b_status b) && bool_decide (k ∈ day_key (b_hotel b) (b_room b) <$> days (b_start b) (b_end b))) (b_quantity b)) (dvalues (bookings s)).

Lemma taken_sold w k : ok w → taken k (w_shard w) = sold k (w_shard w).
Proof.
  intros Hw. apply zsum_ext. intros b Hb. apply elem_dvalues in Hb as [id Hb]; [|apply (wo_tables _ _ _ _ Hw)].
  destruct (tb_owned _ _ _ (wo_tables _ _ _ _ Hw) _ _ Hb) as [Hown _].
  pose proof (wo_sagas _ _ _ _ Hw id ltac:(by exists (b_hotel b))) as Hs. unfold saga_ok, saga_at in Hs. rewrite Hb in Hs.
  destruct (dget (job_id charge id) _); [|done]. destruct Hs as [Hh _]. unfold covers. by rewrite Hh.
Qed.

(** C12: no night is oversold: in any world that requests of users and operators and the
    calls of any number of workers can reach, whatever is lost, late or repeated, a day's
    reserved rooms are exactly those of the pending and confirmed bookings that stay that
    night, and are within the capacity with its permitted overbooking. *)
Theorem hotel_not_oversold w k i :
  reachable dg cf digest w → dget k (inventory (w_shard w)) = Some i → reserved i = sold k (w_shard w) ∧ 0 <= sold k (w_shard w) <= limit i.
Proof.
  intros Hr Hi. pose proof (hotel_reached _ _ _ hex_digest w Hr) as Hw. pose proof (tb_stock _ _ _ (wo_tables _ _ _ _ Hw)) as Hs.
  destruct (so_reserved _ Hs k i Hi) as [E Hl]. pose proof (taken_nonneg _ k Hs). rewrite <- (taken_sold w k Hw). lia.
Qed.

(** C13: the money follows the bookings: a confirmed booking was charged its exact price
    and not refunded, a charge that is kept for another booking has a job that is still to
    settle or refund it, and what was refunded is not held. *)
Theorem hotel_money w id b c :
  reachable dg cf digest w → dget id (bookings (w_shard w)) = Some b → dget id (charges (w_ledger w)) = c →
  (b_status b = CONFIRMED → c = Some (mk_charge (b_amount b) "USD" "paid")) ∧
  (∀ x, c = Some x → c_amount x = b_amount b) ∧
  (∀ x, c = Some x → c_status x = "paid" → b_status b = CONFIRMED ∨
    ∃ a j, dget (job_id a id) (jobs (w_shard w)) = Some j ∧ j_status j ≠ finished) ∧
  (∀ x, c = Some x → c_status x = "refunded" → live (b_status b) = false).
Proof.
  intros Hr Hb Hc. pose proof (hotel_reached _ _ _ hex_digest w Hr) as Hw. pose proof (wo_sagas _ _ _ _ Hw id) as Hs.
  destruct (tb_owned _ _ _ (wo_tables _ _ _ _ Hw) _ _ Hb) as [Hown _]. specialize (Hs ltac:(by exists (b_hotel b))).
  unfold saga_ok, saga_at, entry in Hs. rewrite Hb, Hc in Hs. destruct (dget (job_id charge id) (jobs (w_shard w))) as [cj|] eqn:Ec; [|done].
  destruct Hs as (_ & Hph & _). simpl in Hph. unfold phase_ok in Hph.
  assert (outcome b = "paid" ∨ outcome b = "declined") as Ho by (unfold outcome; case_bool_decide; auto).
  destruct (b_payment b).
  - destruct Hph as (_ & _ & _ & -> & ? & _). naive_solver.
  - destruct Hph as (_ & Hcj & _ & ? & [-> | ->]); [naive_solver|]. split; [done|]. split; [by intros x [= <-]|]. split; [intros x _ _; right; by exists charge, cj|].
    intros x [= <-]. simpl. intros E. rewrite E in Ho. naive_solver.
  - destruct Hph as (-> & _ & _ & _ & ->). split; [done|]. split; [by intros x [= <-]|]. split; [auto|]. by intros x [= <-].
  - destruct Hph as (Hl & _ & _ & _ & ->). split; [by destruct (b_status b)|]. split; [by intros x [= <-]|]. split; by intros x [= <-].
  - destruct Hph as (Hl & _ & _ & r & Hj & Hrf & _ & Hch). split; [by destruct (b_status b)|].
    split; [destruct Hch as [->|[-> _]]; by intros x [= <-]|]. split; [intros x _ _; right; by exists refund, r|auto].
  - destruct Hph as (Hl & _ & _ & r & _ & _ & ->). split; [by destruct (b_status b)|]. split; [by intros x [= <-]|]. split; by intros x [= <-].
Qed.

(** C15: the protocol never jams: whatever job a worker holds, however old, the provider
    executes it or is in one of its two simulated outages, never in a conflict; and the
    shard takes whatever receipt a worker received, at any time. *)
Theorem hotel_calls_succeed w t clock :
  reachable dg cf digest w → hex32 (t_token t) = true → 0 <= clock <= 253402300799000 →
  (t ∈ w_tickets w → ∀ p e, execute digest (t_operation t) (w_ledger w) = (p, Raise e) →
    e = StatusError 503 ∧ (fail_after_commit (w_ledger w) = true ∨ fail_refunds (w_ledger w) = true)) ∧
  (∀ r, (t, r) ∈ w_receipts w → ∃ s b, finish t r clock (w_shard w) = Ok (s, b)).
Proof.
  intros Hr Htok Hc. pose proof (hotel_reached _ _ _ hex_digest w Hr) as Hw. split.
  - intros Hin p e H. destruct (wo_tickets _ _ _ _ Hw t Hin) as (a & id & Ht).
    destruct (execute_ticket _ _ _ w t a id p _ Hw Ht H) as (_ & _ & -> & Hf). split; [done|]. naive_solver.
  - intros r Hin. destruct (wo_receipts _ _ _ _ Hw t r Hin) as (a & id & row & Ht & Hrow & <-).
    pose proof (ticket_normal w t a id Hw Ht Htok) as Hn. pose proof (receipt_accepted w t a id row Hw Ht Hrow) as Hrn.
    destruct (held_job t (w_shard w)) as [j|] eqn:Hj.
    + destruct (finish_held dg cf (λ _ _ _, True) t a id (op_result row) (w_shard w) j clock) as (s' & -> & _); try done; [apply Hw|].
      by exists s', true.
    + exists (w_shard w), false. unfold finish. rewrite Hn. simpl. rewrite Hrn. simpl. by rewrite Hj.
Qed.

(** C17: a worker makes only the moves of the world, whichever of its calls are lost before
    or after they take effect and whenever they are served; so does any number of them, a
    round at a time, and the guarantees above hold after every one of their calls. *)
Theorem hotel_worker_refines k w : rtc (move dg cf digest) w (work k w).1.
Proof. apply work_moves. Qed.

(** C14: every booking is settled: from any reachable world, once the provider answers and
    the due times and leases are past, as many undisturbed rounds as the unfinished jobs
    weigh (a charge 2, a refund 1) finish every job; then each booking is confirmed and
    paid, or holds nothing and its customer was not charged, declined or refunded. *)
Theorem hotel_settles w n T token id b :
  reachable dg cf digest w → controls_off w → all_ready T (w_shard w) → hex32 token = true → 0 <= T <= 253402300799000 →
  unsettled (jobs (w_shard w)) <= Z.of_nat n →
  let w' := rounds n T token w in
  (∀ jid j, dget jid (jobs (w_shard w')) = Some j → j_status j = finished) ∧
  (dget id (bookings (w_shard w')) = Some b →
    b_status b = CONFIRMED ∧ dget id (charges (w_ledger w')) = Some (mk_charge (b_amount b) "USD" "paid") ∨
    live (b_status b) = false ∧ ∀ c, dget id (charges (w_ledger w')) = Some c → c_status c = "declined" ∨ c_status c = "refunded").
Proof.
  intros Hr Hoff Hready Hhex HT Hn w'. pose proof (hotel_reached _ _ _ hex_digest w Hr) as Hw.
  destruct (rounds_settle n T token w Hw Hoff Hready Hhex HT Hn) as [Hw' Hfin]. split; [exact Hfin|]. intros Hb.
  destruct (settled_booking w' id b Hw' Hfin Hb) as [[? ?]|[? Hc]]; [by left|]. right. split; [done|].
  fold w' in Hc. intros c Ec. rewrite Ec in Hc. destruct Hc as [Hc|[[= ->]|[= ->]]]; [done|by left|by right].
Qed.

(** C16: a reservation is made once: after any further moves of the world (a cancellation,
    a payment, a sweep), the same request of the same user answers with the same booking
    and changes nothing, and another request under the same key is refused. *)
Theorem reserve_idempotent w user body clock s v w' clock' :
  reachable dg cf digest w → reserve dg cf user body clock (w_shard w) = Ok (s, v) → rtc (move dg cf digest) (on_shard s w) w' →
  (∃ v', reserve dg cf user body clock' (w_shard w') = Ok (w_shard w', v') ∧ v_id v' = v_id v) ∧
  ∀ body', rb_hotel body' = rb_hotel body → rb_request_key body' = rb_request_key body → fingerprint_of dg body' ≠ fingerprint_of dg body →
    is_ok (reserve dg cf user body' clock' (w_shard w')) = false.
Proof.
  intros Hr H Hm. pose proof (hotel_reached _ _ _ hex_digest w Hr) as Hw.
  assert (ok (on_shard s w)) as Hw1.
  { eapply move_ok; [exact hex_digest|exact Hw|]. apply (move_request _ _ _ w (Reserve user body) clock). simpl. by rewrite H. }
  destruct (reserve_booked _ _ _ _ _ _ (so_bookings _ (tb_stock _ _ _ (wo_tables _ _ _ _ Hw))) H) as (b & Hb & E1 & E2 & E3 & E4).
  pose proof (moves_ok _ _ _ hex_digest _ _ Hm Hw1) as Hw2.
  destruct (moves_keep _ _ _ hex_digest _ _ Hm Hw1 _ _ Hb) as (b2 & Hb2 & F1 & _ & _ & F2 & F3 & F4).
  pose proof (find_request_keyed _ _ _ (wo_tables _ _ _ _ Hw2) Hb2) as Hf. rewrite F1, F2, F3, E1, E2, E3 in Hf. split.
  - rewrite (reserve_repeat _ _ _ _ _ _ clock' _ _ _ H Hf) by congruence.
    destruct (booking_total _ _ _ (wo_tables _ _ _ _ Hw2) Hb2) as (v' & Ev & Hv); [rewrite F2, E2; by eapply reserve_user|].
    rewrite F2, E2 in Ev. rewrite Ev. by exists v'.
  - intros body' Eh Ek Hne. eapply reserve_conflict; [rewrite Eh, Ek; exact Hf|congruence].
Qed.
End props.

(** ** A hotel of one room type *)

Module Demo.
Definition dg : Digests := mk_digests (λ _ _, 0) (λ b, rb_room b +:+ (if rb_quantity b =? 1 then "1" else "2")) (λ _ _, "0123456789abcdef0123456789abcdef").
Definition cf : Settings := mk_settings 0 1 120000.
Definition token : string := "abcdefabcdefabcdefabcdefabcdef01".
Definition id : string := "inn.0123456789abcdef0123456789abcdef".
Definition body (quantity total : Z) : ReserveBody := mk_reserve "inn" "twin" 1 3 quantity "trip" total "test-ok".

Definition request (r : Request) (clock : Z) (w : World) : World :=
  match serve dg cf r clock (w_shard w) with Ok s => on_shard s w | Raise _ => w end.

Lemma request_moves r clock w : rtc (move dg cf o_id) w (request r clock w).
Proof. unfold request. destruct (serve _ _ _ _ _) eqn:E; [|done]. apply rtc_once. by eapply move_request. Qed.

(** The hotel opens with two rooms for three days. *)
Definition opened : World :=
  request (SetDays "inn" "twin" [mk_day 1 2 0 100; mk_day 2 2 10 100; mk_day 3 2 0 100]) 1000
    (request (ManageCatalog "inn" (Some "twin") (Update "Twin" "Two beds")) 1000
      (request (ManageCatalog "inn" None (Update "Inn" "Road 1")) 1000 world_start)).
Definition booked : World := request (Reserve "alice" (body 2 400)) 2000 opened.
(** The payment is made, but the settlement and the retry do not reach the shard. *)
Definition paying : World :=
  (work o_id (mk_round answered answered answered lost lost 3000 3000 3000 3000 token) booked).1.
Definition paid : World := (work o_id (calm 6000 token) paying).1.

Lemma opened_reachable : reachable dg cf o_id opened.
Proof. unfold reachable, opened. do 2 (etrans; [|apply request_moves]). apply request_moves. Qed.
Lemma booked_reachable : reachable dg cf o_id booked.
Proof. unfold reachable. etrans; [apply opened_reachable|apply request_moves]. Qed.
Lemma paying_reachable : reachable dg cf o_id paying.
Proof. unfold reachable. etrans; [apply booked_reachable|apply work_moves]. Qed.
Lemma paid_reachable : reachable dg cf o_id paid.
Proof. unfold reachable. etrans; [apply paying_reachable|apply work_moves]. Qed.

Lemma hex : ∀ u k, hex32 (key_digest dg u k) = true.
Proof. done. Qed.
End Demo.

Lemma hotel_not_oversold_witness :
  ∃ i, dget ("inn", "twin", 1) (inventory (w_shard Demo.paid)) = Some i ∧ reserved i = 2 ∧ reserved i = sold ("inn", "twin", 1) (w_shard Demo.paid) ∧
    0 <= sold ("inn", "twin", 1) (w_shard Demo.paid) <= limit i.
Proof.
  eexists. split; [vm_compute; reflexivity|]. split; [reflexivity|].
  apply (hotel_not_oversold Demo.dg Demo.cf o_id Demo.hex Demo.paid); [apply Demo.paid_reachable|vm_compute; reflexivity].
Defined.

Lemma hotel_money_witness :
  ∃ b, dget Demo.id (bookings (w_shard Demo.paid)) = Some b ∧ b_status b = CONFIRMED ∧
    dget Demo.id (charges (w_ledger Demo.paid)) = Some (mk_charge (b_amount b) "USD" "paid").
Proof.
  eexists. split; [vm_compute; reflexivity|]. split; [reflexivity|].
  eapply (hotel_money Demo.dg Demo.cf o_id Demo.hex Demo.paid Demo.id); [apply Demo.paid_reachable|vm_compute; reflexivity|reflexivity|reflexivity].
Defined.

Lemma hotel_calls_succeed_witness :
  ∃ t r s b, t ∈ w_tickets Demo.paying ∧ (t, r) ∈ w_receipts Demo.paying ∧ r_status r = "paid" ∧ finish t r 500000 (w_shard Demo.paying) = Ok (s, b).
Proof.
  destruct (w_receipts Demo.paying) as [|[t r] l] eqn:E; [vm_compute in E; discriminate E|].
  destruct (hotel_calls_succeed Demo.dg Demo.cf o_id Demo.hex Demo.paying t 500000) as [_ Hf].
  - apply Demo.paying_reachable.
  - vm_compute in E. injection E as <- _ _. reflexivity.
  - lia.
  - destruct (Hf r) as (s & b & H); [rewrite E; left|]. exists t, r, s, b. vm_compute in E. injection E as <- <- <-.
    split; [vm_compute; left|]. split; [left|]. split; [reflexivity|exact H].
Defined.

Lemma hotel_settles_witness :
  ∃ b, dget Demo.id (bookings (w_shard (rounds o_id 2 6000 Demo.token Demo.paying))) = Some b ∧
    (b_status b = CONFIRMED ∧ dget Demo.id (charges (w_ledger (rounds o_id 2 6000 Demo.token Demo.paying))) = Some (mk_charge (b_amount b) "USD" "paid") ∨
     live (b_status b) = false ∧ ∀ c, dget Demo.id (charges (w_ledger (rounds o_id 2 6000 Demo.token Demo.paying))) = Some c → c_status c = "declined" ∨ c_status c = "refunded").
Proof.
  eexists. split; [vm_compute; reflexivity|].
  refine (proj2 (hotel_settles Demo.dg Demo.cf o_id Demo.hex Demo.paying 2 6000 Demo.token Demo.id _ Demo.paying_reachable _ _ _ _ _) _).
  - by split.
  - intros jid j Hj. right. apply dget_Some_elem in Hj.
    assert (jobs (w_shard Demo.paying) = [(job_id charge Demo.id, mk_job Demo.id charge inflight 1 2000 5000 Demo.token "")]) as E by (vm_compute; reflexivity).
    rewrite E in Hj. apply list_elem_of_singleton in Hj. injection Hj as _ ->. reflexivity.
  - reflexivity.
  - lia.
  - vm_compute. discriminate.
  - vm_compute. reflexivity.
Defined.

Lemma reserve_idempotent_witness :
  ∃ s v, reserve Demo.dg Demo.cf "alice" (Demo.body 2 400) 2000 (w_shard Demo.opened) = Ok (s, v) ∧
    let w := Demo.request (Cancel Demo.id None) 4000 (on_shard s Demo.opened) in
    (∃ v', reserve Demo.dg Demo.cf "alice" (Demo.body 2 400) 9000 (w_shard w) = Ok (w_shard w, v') ∧ v_id v' = v_id v) ∧
    is_ok (reserve Demo.dg Demo.cf "alice" (Demo.body 1 200) 9000 (w_shard w)) = false.
Proof.
  destruct (reserve Demo.dg Demo.cf "alice" (Demo.body 2 400) 2000 (w_shard Demo.opened)) as [[s v]|] eqn:E; [|vm_compute in E; discriminate E].
  exists s, v. split; [reflexivity|].
  destruct (reserve_idempotent Demo.dg Demo.cf o_id Demo.hex Demo.opened "alice" (Demo.body 2 400) 2000 s v
    (Demo.request (Cancel Demo.id None) 4000 (on_shard s Demo.opened)) 9000 Demo.opened_reachable E (Demo.request_moves _ _ _)) as [Hsame Hother].
  split; [exact Hsame|]. apply Hother; [reflexivity|reflexivity|discriminate].
Defined.
