(* ===== verification/HotelReads.v ===== *)
(** * Cached and uncached reads of a hotel shard

    Models cache.py, the reads of catalog.py and catalog_queries.py of
    src/hotel-reservation-system/src/hotel_reservation.  The cache keeps the texts of the
    answers, so its values are never shared; it is modelled by them.  A read sees one
    snapshot of the tables.  Since every change of the catalog and of the inventory counts
    the revision up, which is a part of the key, a cached answer is the fresh one; and an
    availability that is answered is exactly what can be reserved. *)
From S2P Require Import Prelude PyList PyDict Checks Effects HotelStore HotelSaga HotelPayment HotelStock HotelSteps HotelWorld HotelProps.
Local Open Scope Z_scope.

(** ** Answers *)

Record DayAvailable := mk_available { da_day : Z; da_row : Inventory; da_limit : Z; da_available : Z }.
Record Availability := mk_availability {
  av_hotel : string; av_room : string; av_start : Z; av_end : Z;
  av_days : list DayAvailable; av_available : Z; av_unit_total : Z;
}.
Inductive Answer :=
| HotelAnswer (id : string) (h : Hotel) (rs : list (string * Room))
| RoomAnswer (hotel id : string) (r : Room)
| DaysAnswer (a : Availability).

(** The first component of the key of the cache is the revision. *)
Inductive Query := CatalogQuery (hotel : string) (room : option string) | AvailabilityQuery (hotel room : string) (first last : Z).
#[export] Instance query_eq_dec : EqDecision Query. Proof. solve_decision. Defined.
Notation CacheKey := (Z * Query)%type.

(** ** The cache *)

Record CacheConfig := mk_cache_config { ttl : Z; cache_limit : Z }.
Definition Cache : Type := dict CacheKey (Z * Answer).

Section cache.
Context (cc : CacheConfig).
Implicit Types (c : Cache) (k : CacheKey).

Definition cache_now (clock : Z) : result Z := raise_if (negb (integer clock 0 (2 ^ 53))) ValueError (Ok clock).
Definition move_to_end k (v : Z * Answer) c : Cache := ddel k c ++ [(k, v)].

(** The clock is read only for a key that is present. *)
Definition cache_get k (clock : Z) : M Cache (option Answer) := λ c,
  match dget k c with
  | None => (c, Ok None)
  | Some (expires, v) =>
      match cache_now clock with
      | Raise e => (c, Raise e)
      | Ok now => if expires <=? now then (ddel k c, Ok None) else (move_to_end k (expires, v) c, Ok (Some v))
      end
  end.

(** [popitem(last=False)] until the limit is kept. *)
Definition trim c : Cache := drop (length c - Z.to_nat (cache_limit cc)) c.

Definition cache_put k (v : Answer) (clock : Z) : M Cache unit := λ c,
  match cache_now clock with
  | Raise e => (c, Raise e)
  | Ok now => (trim (move_to_end k (now + ttl cc, v) c), Ok ())
  end.

(** The clocks of the three accesses; the second look-up is made under the lock of the key. *)
Definition cache_load k (loader : result Answer) (clocks : Z * Z * Z) : M Cache Answer :=
  do* x := cache_get k clocks.1.1 in
  match x with
  | Some v => mret v
  | None =>
      do* x := cache_get k clocks.1.2 in
      match x with
      | Some v => mret v
      | None => do* v := mlift loader in do* _ := cache_put k v clocks.2 in mret v
      end
  end.
End cache.

(** ** The reads *)

Definition rooms_of (hotel : string) (s : Shard) : list (string * Room) :=
  take 101 (sort_by fst ((λ kv, (kv.1.2, kv.2)) <$> filter (λ kv, kv.1.1 = hotel ∧ r_active kv.2 = true) (rooms s))).

Definition _catalog (hotel : string) (room : option string) (s : Shard) : result Answer :=
  match dget hotel (hotels s) with
  | Some h =>
      raise_if (negb (h_active h)) (StatusError 404) (
      match room with
      | Some r =>
          match dget (hotel, r) (rooms s) with
          | Some x => raise_if (negb (r_active x)) (StatusError 404) (Ok (RoomAnswer hotel r x))
          | None => Raise (StatusError 404)
          end
      | None =>
          let rs := rooms_of hotel s in
          raise_if (100 <? length rs)%nat (StatusError 422) (Ok (HotelAnswer hotel h rs))
      end)
  | None => Raise (StatusError 404)
  end.

Definition available_day (r : Z * Inventory) : DayAvailable := mk_available r.1 r.2 (limit r.2) (limit r.2 - reserved r.2).
(** [min] of the rows, of which there is at least one. *)
Definition zmin (l : list Z) : Z := match l with [] => 0 | x :: l' => foldl Z.min x l' end.

Definition load_availability (hotel room : string) (first last : Z) (ds : list Z) (s : Shard) : result Answer :=
  let* _ := _catalog hotel (Some room) s in
  let rows := select_days hotel room ds (inventory s) in
  raise_if (negb (length rows =? length ds)%nat) (StatusError 409) (
  Ok (DaysAnswer (mk_availability hotel room first last (available_day <$> rows)
        (zmin ((λ r, limit r.2 - reserved r.2) <$> rows)) (zsum (λ r, price r.2) rows)))).

Section reads.
Context (dg : Digests) (cf : Settings) (cc : CacheConfig).
Implicit Types (s : Shard) (hotel room : string).

(** What a query answers from the tables. *)
Definition answer (q : Query) s : result Answer :=
  match q with
  | CatalogQuery hotel room => _catalog hotel room s
  | AvailabilityQuery hotel room first last => load_availability hotel room first last (days first last) s
  end.

(** The checks in front of the cache. *)
Definition admit_query (q : Query) (clock : Z) : result unit :=
  match q with
  | CatalogQuery hotel room =>
      let* _ := owner dg cf hotel in match room with Some r => check_identifier r | None => Ok () end
  | AvailabilityQuery hotel room first last =>
      let* _ := owner dg cf hotel in
      let* _ := check_identifier room in
      let* now := _now clock in
      let* _ := stay first last now in Ok ()
  end.

(** [catalog] and [availability]. *)
Definition read (q : Query) (clock : Z) (clocks : Z * Z * Z) s : M Cache Answer :=
  do* _ := mlift (admit_query q clock) in
  cache_load cc (revision s, q) (answer q s) clocks.

Definition fresh_read (q : Query) (clock : Z) s : result Answer := let* _ := admit_query q clock in answer q s.

Record Offer := mk_offer { of_id : string; of_room : Room; of_available : Z; of_unit_total : Z; of_total : Z }.

Definition offer hotel (ds : list Z) (quantity : Z) s (r : string * Room) : option (result Offer) :=
  let rows := select_days hotel r.1 ds (inventory s) in
  let available := zmin ((λ r, limit r.2 - reserved r.2) <$> rows) in
  if (length rows =? length ds)%nat && (quantity <=? available)
  then Some (let* _ := check_identifier r.1 in
             let unit := zsum (λ r, price r.2) rows in Ok (mk_offer r.1 r.2 available unit (unit * quantity)))
  else None.

Definition available_rooms hotel (first last quantity clock : Z) s : result (list Offer * Z) :=
  let* _ := owner dg cf hotel in
  raise_if (negb (integer quantity 1 10)) ValueError (
  let* now := _now clock in
  let* ds := stay first last now in
  raise_if (negb match dget hotel (hotels s) with Some h => h_active h | None => false end) (StatusError 404) (
  let rs := rooms_of hotel s in
  raise_if (100 <? length rs)%nat (StatusError 422) (
  let* offers := mapR id (omap (offer hotel ds quantity s) rs) in Ok (offers, revision s)))).
End reads.

(** ** The revision *)

(** What the answers depend on. *)
Definition same_tables (s s' : Shard) : Prop := hotels s' = hotels s ∧ rooms s' = rooms s ∧ inventory s' = inventory s.

(** The revision never goes back, and stands for the tables. *)
Definition advances (s s' : Shard) : Prop := revision s <= revision s' ∧ (revision s' = revision s → same_tables s s').

Lemma advances_self s : advances s s.
Proof. done. Qed.

Lemma advances_chain s1 s2 s3 : advances s1 s2 → advances s2 s3 → advances s1 s3.
Proof.
  intros [H1 E1] [H2 E2]. split; [lia|]. intros E. destruct E1 as (? & ? & ?); [lia|]. destruct E2 as (? & ? & ?); [lia|].
  unfold same_tables. naive_solver congruence.
Qed.

Lemma advances_changed s s' : revision s <= revision s' → advances s (changed s').
Proof. intros Hle. split; simpl; [lia|]. intros E. lia. Qed.

(** An operation that leaves the tables and the revision. *)
Lemma advances_same s s' : same_tables s s' → revision s' = revision s → advances s s'.
Proof. intros Ht E. split; [lia|done]. Qed.

Lemma add_job_advances id a now s : advances s (add_job id a now s).
Proof. unfold add_job. destruct (dmem _ _); by apply advances_same. Qed.

Lemma set_payment_advances id p s : advances s (set_payment id p s).
Proof. unfold set_payment. destruct (dget id (bookings s)); by apply advances_same. Qed.

Lemma update_job_advances id f s : advances s (update_job id f s).
Proof. unfold update_job. destruct (dget id (jobs s)); by apply advances_same. Qed.

Lemma emit_advances id kind am now s : advances s (emit id kind am now s).
Proof. by apply advances_same. Qed.

Lemma release_advances id b st now s s' : release id b st now s = Ok s' → advances s s'.
Proof.
  unfold release. intros H. destruct (if b_held b then _ else _) as [s1|] eqn:E; [|done]. simpl in H. injection H as <-.
  apply advances_changed. simpl. assert (revision s1 = revision s) as E1.
  { destruct (b_held b); [|by injection E as <-]. apply raise_if_Ok in E as [_ E]. by injection E as <-. }
  destruct (dget id (bookings s1)); simpl; lia.
Qed.

Lemma maybe_release_advances (c : bool) id b st now s s' : (if c then release id b st now s else Ok s) = Ok s' → advances s s'.
Proof. destruct c; [apply release_advances|intros [= <-]; apply advances_self]. Qed.

Create HintDb advance discriminated.
#[local] Hint Resolve add_job_advances set_payment_advances update_job_advances emit_advances advances_self : advance.
#[local] Hint Extern 5 (advances _ (emit _ _ _ _ _)) => eapply advances_chain; [|apply emit_advances] : advance.
#[local] Hint Extern 5 (advances _ (add_job _ _ _ _)) => eapply advances_chain; [|apply add_job_advances] : advance.
#[local] Hint Extern 5 (advances _ (set_payment _ _ _)) => eapply advances_chain; [|apply set_payment_advances] : advance.
#[local] Hint Extern 5 (advances _ (update_job _ _ _)) => eapply advances_chain; [|apply update_job_advances] : advance.

Section advance.
Context (dg : Digests) (cf : Settings).

Lemma reserve_advances user body clock s s' v : reserve dg cf user body clock s = Ok (s', v) → advances s s'.
Proof.
  unfold reserve. intros H.
  destruct (check_identifier (rb_hotel body)); [|done]. simpl in H. destruct (check_identifier (rb_room body)); [|done]. simpl in H.
  destruct (check_identifier (rb_request_key body)); [|done]. simpl in H. destruct (owner _ _ _); [|done]. simpl in H.
  destruct (check_identifier user); [|done]. simpl in H. do 3 apply raise_if_Ok in H as [_ H].
  destruct (find_request _ _ _ _) as [[old b]|].
  { apply raise_if_Ok in H as [_ H]. destruct (booking _ _ _); [|done]. injection H as <- _. apply advances_self. }
  destruct (_now clock) as [now|]; [|done]. simpl in H. destruct (stay _ _ _) as [ds|]; [|done]. simpl in H.
  do 3 apply raise_if_Ok in H as [_ H]. destruct (reserve_days _ _ _ _ _) as [inv|]; [|done]. simpl in H. apply raise_if_Ok in H as [_ H].
  destruct (booking _ _ _); [|done]. injection H as <- _. apply advances_changed. unfold add_job. by destruct (dmem _ _).
Qed.

Lemma cancel_advances id user clock s s' v : cancel id user clock s = Ok (s', v) → advances s s'.
Proof.
  unfold cancel. intros H. destruct (booking s id user); [|done]. simpl in H. destruct (dget id (bookings s)) as [b|]; [|done].
  destruct (bool_decide _); simpl in H; [|destruct (booking _ _ _); [|done]; injection H as <- _; apply advances_self].
  destruct (_now clock) as [now|]; [|done]. simpl in H. destruct (release _ _ _ _ _) as [s1|] eqn:E; [|done]. simpl in H.
  apply release_advances in E. destruct (booking _ _ _); [|done]. injection H as <- _.
  destruct (bool_decide _); eauto using advances_chain with advance.
Qed.

Lemma serve_advances r clock s s' : serve dg cf r clock s = Ok s' → advances s s'.
Proof.
  intros H. destruct r as [user body|id user|hotel room m|hotel room rows]; simpl in H.
  - destruct (reserve _ _ _ _ _ _) as [[s1 v]|] eqn:E; [|done]. injection H as <-. by eapply reserve_advances.
  - destruct (cancel _ _ _ _) as [[s1 v]|] eqn:E; [|done]. injection H as <-. by eapply cancel_advances.
  - unfold manage in H. destruct (owner _ _ _); [|done]. simpl in H. destruct room as [r|]; simpl in H.
    + destruct (check_identifier r); [|done]. simpl in H. destruct m as [|name detail].
      * destruct (dget _ (rooms s)); [|done]. injection H as <-. by apply advances_changed.
      * destruct (negb _); [done|]. simpl in H. destruct (text name 200); [|done]. simpl in H. destruct (text detail 1000); [|done].
        injection H as <-. by apply advances_changed.
    + destruct m as [|name detail].
      * destruct (dget _ (hotels s)); [|done]. injection H as <-. by apply advances_changed.
      * destruct (text name 200); [|done]. simpl in H. destruct (text detail 1000); [|done]. injection H as <-. by apply advances_changed.
  - unfold set_days in H. destruct (owner _ _ _); [|done]. simpl in H. destruct (check_identifier room); [|done]. simpl in H.
    destruct (negb _); [done|]. destruct (negb _); [done|]. simpl in H. destruct (bool_decide _); [done|]. simpl in H. destruct (negb _); [done|]. simpl in H.
    destruct (put_days _ _ _ _) as [inv|]; [|done]. injection H as <-. by apply advances_changed.
Qed.

Lemma expire_all_advances now rows s s' : expire_all now rows s = Ok s' → advances s s'.
Proof.
  revert s. induction rows as [|[id b] rows IH]; intros s; simpl; [intros [= <-]; apply advances_self|].
  destruct (release _ _ _ _ _) as [s1|] eqn:E; [|done]. simpl. intros H. eapply advances_chain; [by eapply release_advances|by apply IH].
Qed.

Lemma claim_advances lease token clock s s' t : claim lease token clock s = Ok (s', t) → advances s s'.
Proof.
  unfold claim. intros [_ H]%raise_if_Ok. destruct (_now clock) as [now|]; [|done]. simpl in H.
  destruct (next_job now s) as [[jid j]|]; [|injection H as <- _; apply advances_self].
  destruct (dget _ (bookings s)) as [b|]; [|done].
  destruct (if (bool_decide _ && _) && _ && _ then release _ _ _ _ _ else Ok _) as [s1|] eqn:E; [|done]. simpl in H.
  apply maybe_release_advances in E. destruct (dget _ (bookings s1)) as [b1|]; [|done].
  eapply advances_chain; [exact E|].
  destruct (_ && _); injection H as <- _; [|destruct (bool_decide _)]; eauto using advances_chain with advance.
Qed.

Lemma settle_advances id b o r now s s' : settle id b o r now s = Ok s' → advances s s'.
Proof.
  unfold settle. intros H. destruct (bool_decide (o_action o = "charge")); [|injection H as <-; eauto using advances_chain with advance].
  destruct (bool_decide (r_status r = "declined")).
  { destruct (if bool_decide _ then release _ _ _ _ _ else Ok _) as [s1|] eqn:E; [|done]. injection H as <-. apply maybe_release_advances in E. eauto using advances_chain with advance. }
  destruct (bool_decide _).
  { injection H as <-. destruct (dget id (bookings s)); by apply advances_same. }
  destruct (if bool_decide _ then release _ _ _ _ _ else Ok _) as [s1|] eqn:E; [|done]. injection H as <-. apply maybe_release_advances in E. eauto 6 using advances_chain with advance.
Qed.

Lemma move_advances digest w w' : move dg cf digest w w' → advances (w_shard w) (w_shard w').
Proof.
  intros Hm. destruct Hm as [w r clock s H|w clock s n H|w lease token clock s t H|w lease token clock s t H|w t p x Hin H|w t p r Hin H|w t r clock s b Hin H|w t m clock s Hin H|w body|w o p x Ho H];
    simpl; try apply advances_self.
  - by eapply serve_advances.
  - unfold sweep in H. destruct (_now clock) as [now|]; [|done]. simpl in H. destruct (expire_all _ _ _) as [s1|] eqn:E; [|done].
    injection H as <- _. by eapply expire_all_advances.
  - by eapply claim_advances.
  - by eapply claim_advances.
  - unfold finish in H. destruct (normalize_job t) as [t'|]; [|done]. simpl in H. destruct (normalize_receipt r _) as [r'|]; [|done]. simpl in H.
    destruct (held_job _ _) as [j|]; [|injection H as <- _; apply advances_self]. destruct (dget _ (bookings _)) as [row|]; [|done].
    apply raise_if_Ok in H as [_ H]. destruct (_now clock) as [now|]; [|done]. simpl in H. destruct (settle _ _ _ _ _ _) as [s1|] eqn:E; [|done].
    injection H as <- _. apply settle_advances in E. eauto using advances_chain with advance.
  - unfold retry in H. destruct (normalize_job t) as [t'|]; [|done]. simpl in H.
    destruct (held_job _ _) as [j|]; [|injection H as <-; apply advances_self]. destruct (dget _ (bookings _)) as [row|]; [|injection H as <-; apply advances_self].
    apply raise_if_Ok in H as [_ H]. destruct (_now clock) as [now|]; [|done]. injection H as <-. eauto with advance.
Qed.
End advance.

(** ** The cache answers what the tables say *)

Lemma answer_same q s s' : same_tables s s' → answer q s' = answer q s.
Proof. intros (E1 & E2 & E3). destruct q; simpl; unfold load_availability, _catalog, rooms_of; by rewrite ?E1, ?E2, ?E3. Qed.

Section sound.
Context (dg : Digests) (cf : Settings) (cc : CacheConfig) (digest : Operation → string).

(** The shard's past and present states, each after the ones it follows. *)
Definition lineage (h : list Shard) : Prop := ∀ s s', s ∈ h → s' ∈ h → advances s s' ∨ advances s' s.

(** An entry is what some state of its revision answered. *)
Definition entry_sound (h : list Shard) (k : CacheKey) (v : Answer) : Prop := ∃ s, s ∈ h ∧ revision s = k.1 ∧ answer k.2 s = Ok v.
Definition cache_sound (h : list Shard) (c : Cache) : Prop := dict_ok c ∧ ∀ k e v, (k, (e, v)) ∈ c → entry_sound h k v.

Lemma lineage_answer h k v s : lineage h → entry_sound h k v → s ∈ h → revision s = k.1 → answer k.2 s = Ok v.
Proof.
  intros Hl (s0 & Hin0 & Hr0 & <-) Hin Hr. destruct (Hl s0 s Hin0 Hin) as [[_ Hsame]|[_ Hsame]].
  - apply answer_same, Hsame. congruence.
  - symmetry. apply answer_same, Hsame. congruence.
Qed.

Lemma sound_sub h c c' : cache_sound h c → dict_ok c' → c' ⊆ c → cache_sound h c'.
Proof. intros [_ Hs] Hok Hsub. split; [done|]. intros k e v Hin. by eapply Hs, Hsub. Qed.

Lemma ddel_subset (k : CacheKey) (c : Cache) : ddel k c ⊆ c.
Proof.
  induction c as [|[k' v] c IH]; simpl; [done|]. case_decide; [set_solver|]. set_solver.
Qed.

Lemma move_to_end_ok k v (c : Cache) : dict_ok c → dict_ok (move_to_end k v c).
Proof.
  intros Hok. unfold move_to_end, dict_ok, dkeys. rewrite fmap_app. simpl. apply NoDup_app. split; [by apply ddel_ok|].
  split; [|apply NoDup_singleton]. intros x Hx ->%list_elem_of_singleton. by eapply (proj1 (dget_None k (ddel k c))); [apply dget_ddel_eq|].
Qed.

Lemma move_to_end_sound h k e v c : cache_sound h c → entry_sound h k v → cache_sound h (move_to_end k (e, v) c).
Proof.
  intros [Hok Hs] Hv. split; [by apply move_to_end_ok|]. intros k' e' v'. unfold move_to_end. rewrite elem_of_app.
  intros [Hin|Hin].
  - apply ddel_subset in Hin. by eapply Hs.
  - apply list_elem_of_singleton in Hin. by injection Hin as -> -> ->.
Qed.

Lemma trim_sound h c : cache_sound h c → cache_sound h (trim cc c).
Proof.
  intros [Hok Hs]. apply (sound_sub h c); [by split| |].
  - unfold trim, dict_ok, dkeys. rewrite fmap_drop. eapply sublist_NoDup; [exact Hok|apply sublist_drop].
  - intros x Hx. eapply elem_of_sublist; [exact Hx|apply sublist_drop].
Qed.

Lemma trim_length (c : Cache) : (length (trim cc c) <= Z.to_nat (cache_limit cc))%nat.
Proof. unfold trim. rewrite length_drop. lia. Qed.

(** The entries of a cache after a look-up, and what it answers. *)
Lemma cache_get_sound h k clock c c' x :
  cache_sound h c → cache_get k clock c = (c', x) →
  cache_sound h c' ∧ (length c' <= length c)%nat ∧
  match x with Ok (Some v) => entry_sound h k v | Ok None => True | Raise e => e = ValueError end.
Proof.
  intros Hs H. unfold cache_get in H. destruct (dget k c) as [[e v]|] eqn:Hk; [|by injection H as <- <-].
  unfold cache_now in H. destruct (integer clock _ _); simpl in H; [|by injection H as <- <-].
  destruct (e <=? clock); injection H as <- <-.
  - split; [eapply sound_sub; [exact Hs|by apply ddel_ok, Hs|apply ddel_subset]|]. rewrite ddel_length. split; [|done]. case_match; lia.
  - assert (entry_sound h k v) as Hv by (eapply (proj2 Hs k e v); by apply dget_Some_elem).
    split; [by apply move_to_end_sound|]. split; [|done]. unfold move_to_end. rewrite length_app, ddel_length. unfold dmem. rewrite Hk. simpl.
    apply dget_Some_elem in Hk. destruct c; [by apply elem_of_nil in Hk|]. simpl. lia.
Qed.

Lemma cache_load_sound h s q clocks c c' x :
  lineage h → s ∈ h → cache_sound h c → (length c <= Z.to_nat (cache_limit cc))%nat → cache_load cc (revision s, q) (answer q s) clocks c = (c', x) →
  cache_sound h c' ∧ (length c' <= Z.to_nat (cache_limit cc))%nat ∧
  match x with Ok v => answer q s = Ok v | Raise e => answer q s = Raise e ∨ e = ValueError end.
Proof.
  intros Hl Hin Hs Hlen H. unfold cache_load, mbind in H.
  destruct (cache_get _ clocks.1.1 c) as [c1 [[v|]|e]] eqn:E1; destruct (cache_get_sound h _ _ _ _ _ Hs E1) as (Hs1 & Hlen1 & Hx1); simpl in Hx1.
  - injection H as <- <-. split; [done|]. split; [lia|]. by apply (lineage_answer h (revision s, q)).
  - destruct (cache_get _ clocks.1.2 c1) as [c2 [[v|]|e]] eqn:E2; destruct (cache_get_sound h _ _ _ _ _ Hs1 E2) as (Hs2 & Hlen2 & Hx2); simpl in Hx2.
    + injection H as <- <-. split; [done|]. split; [lia|]. by apply (lineage_answer h (revision s, q)).
    + unfold mlift in H. destruct (answer q s) as [v|e] eqn:Ea; [|injection H as <- <-; split; [done|]; split; [lia|]; by left].
      unfold cache_put in H. destruct (cache_now clocks.2) as [now|e] eqn:En.
      * injection H as <- <-. split; [|split; [apply trim_length|done]]. apply trim_sound, move_to_end_sound; [done|]. by exists s.
      * injection H as <- <-. split; [done|]. split; [lia|]. right. unfold cache_now in En. by destruct (integer _ _ _); [|injection En as <-].
    + injection H as <- <-. split; [done|]. split; [lia|]. by right.
  - injection H as <- <-. split; [done|]. split; [lia|]. by right.
Qed.

(** The life of a shard with one cache: the moves of the world, and reads of the present
    or of an older snapshot, by a transaction that began before. *)
Inductive session : World → list Shard → Cache → Prop :=
| session_start : session world_start [shard_empty] []
| session_move w h c w' : session w h c → move dg cf digest w w' → session w' (w_shard w' :: h) c
| session_read w h c s q clock clocks c' x :
    session w h c → s ∈ h → read dg cf cc q clock clocks s c = (c', x) → session w h c'.

Lemma session_ok w h c :
  session w h c → (∀ s, s ∈ h → advances s (w_shard w)) ∧ lineage h ∧ cache_sound h c ∧ (length c <= Z.to_nat (cache_limit cc))%nat.
Proof.
  induction 1 as [|w h c w' _ (Hlast & Hl & Hs & Hlen) Hm|w h c s q clock clocks c' x _ (Hlast & Hl & Hs & Hlen) Hin Hr].
  - split; [intros s ->%list_elem_of_singleton; apply advances_self|]. split; [intros s s' ->%list_elem_of_singleton ->%list_elem_of_singleton; left; apply advances_self|].
    split; [|simpl; lia]. split; [apply dict_nil_ok|]. intros k e v Hin. by apply elem_of_nil in Hin.
  - apply move_advances in Hm.
    assert (∀ s, s ∈ w_shard w' :: h → advances s (w_shard w')) as Hnew.
    { intros s [->|Hin]%elem_of_cons; [apply advances_self|]. eapply advances_chain; [by apply Hlast|done]. }
    split; [done|]. split; [|split; [|done]].
    + intros s s' [->|Hin]%elem_of_cons [->|Hin']%elem_of_cons; [left; apply advances_self|right|left|by apply Hl]; apply Hnew; by right.
    + split; [apply Hs|]. intros k e v Hk. destruct (proj2 Hs k e v Hk) as (s & Hin & ?). exists s. split; [by right|done].
  - split; [done|]. split; [done|]. unfold read, mbind, mlift in Hr. destruct (admit_query _ _ _ _) as [[]|]; [|by injection Hr as <- _].
    by destruct (cache_load_sound h s q clocks c c' x Hl Hin Hs Hlen Hr) as (? & ? & _).
Qed.

(** C18: a cached read is a fresh one: whatever requests, workers, evictions and older
    snapshots came before, a catalog or availability read through the cache answers what
    the tables of its snapshot say, errors included (but for an invalid cache clock), and
    the cache stays within its limit. *)
Theorem cached_reads_fresh w h c s q clock clocks c' x :
  session w h c → s ∈ h → read dg cf cc q clock clocks s c = (c', x) →
  (length c' <= Z.to_nat (cache_limit cc))%nat ∧
  match x with Ok v => fresh_read dg cf q clock s = Ok v | Raise e => fresh_read dg cf q clock s = Raise e ∨ e = ValueError end.
Proof.
  intros Hsess Hin Hr. destruct (session_ok _ _ _ Hsess) as (_ & Hl & Hs & Hlen). unfold read, mbind, mlift in Hr. unfold fresh_read.
  destruct (admit_query _ _ _ _) as [[]|e]; [|injection Hr as <- <-; split; [lia|by left]]. simpl.
  by destruct (cache_load_sound h s q clocks c c' x Hl Hin Hs Hlen Hr) as (_ & ? & ?).
Qed.
End sound.

(** ** What is available can be reserved *)

Lemma foldl_min_le l x q : q <= foldl Z.min x l ↔ q <= x ∧ ∀ y, y ∈ l → q <= y.
Proof.
  revert x. induction l as [|y l IH]; intros x; simpl; [split; [intros ?; split; [done|set_solver]|tauto]|].
  rewrite IH, Z.min_glb_iff. set_solver.
Qed.

Lemma zmin_le l q : l ≠ [] → q <= zmin l ↔ ∀ y, y ∈ l → q <= y.
Proof. destruct l as [|x l]; [done|]. intros _. simpl. rewrite foldl_min_le. set_solver. Qed.

(** The updates of a reservation succeed when each day has room. *)
Lemma reserve_days_total hotel room n ds inv :
  NoDup ds → (∀ d, d ∈ ds → ∃ i, dget (day_key hotel room d) inv = Some i ∧ reserved i + n <= limit i) →
  ∃ inv', reserve_days hotel room n ds inv = Ok inv'.
Proof.
  revert inv. induction ds as [|d ds IH]; intros inv Hnd Hds; simpl; [by eexists|].
  apply NoDup_cons in Hnd as [Hd Hnd]. destruct (Hds d) as (i & Hi & Hle); [left|]. unfold day_key in Hi. rewrite Hi, (proj2 (Z.leb_le _ _) Hle).
  apply IH; [done|]. intros d' Hd'. rewrite dget_dset. unfold day_key. rewrite decide_False by (intros [= ->]; done). apply Hds. by right.
Qed.

(** The rows of a range that is complete. *)
Lemma select_days_complete hotel room ds inv :
  length (select_days hotel room ds inv) = length ds →
  (∀ d, d ∈ ds → ∃ i, dget (day_key hotel room d) inv = Some i ∧ (d, i) ∈ select_days hotel room ds inv) ∧
  ∀ d i, (d, i) ∈ select_days hotel room ds inv → d ∈ ds ∧ dget (day_key hotel room d) inv = Some i.
Proof.
  intros Hlen. assert ((select_days hotel room ds inv).*1 = ds) as Hfst.
  { apply sublist_full; [apply select_days_sublist|]. rewrite length_fmap. lia. }
  assert (∀ d i, (d, i) ∈ select_days hotel room ds inv → d ∈ ds ∧ dget (day_key hotel room d) inv = Some i) as Hrow.
  { intros d i Hin. split; [rewrite <- Hfst; by apply (list_elem_of_fmap_2 fst _ (d, i))|].
    unfold select_days in Hin. apply list_elem_of_omap in Hin as (d' & _ & Hd). unfold day_key.
    destruct (dget (hotel, room, d') inv) eqn:E; [|done]. by injection Hd as <- <-. }
  split; [|done]. intros d Hd. rewrite <- Hfst in Hd. apply list_elem_of_fmap in Hd as ([d' i] & -> & Hin).
  exists i. split; [by apply Hrow|done].
Qed.

Section exact.
Context (dg : Digests) (cf : Settings) (digest : Operation → string).
Context (hex_digest : ∀ u k, hex32 (key_digest dg u k) = true).

(** What a read of availability has checked. *)
Lemma availability_inv hotel room first last clock s a :
  fresh_read dg cf (AvailabilityQuery hotel room first last) clock s = Ok (DaysAnswer a) →
  let rows := select_days hotel room (days first last) (inventory s) in
  owner dg cf hotel = Ok () ∧ identifier hotel = true ∧ identifier room = true ∧ _now clock = Ok clock ∧ stay first last clock = Ok (days first last) ∧
  room_active s hotel room = true ∧ length rows = length (days first last) ∧ rows ≠ [] ∧
  av_available a = zmin ((λ r, limit r.2 - reserved r.2) <$> rows) ∧ av_unit_total a = zsum (λ r, price r.2) rows.
Proof.
  unfold fresh_read. simpl. intros H. destruct (owner dg cf hotel) as [[]|] eqn:Eo; [|done]. simpl in H.
  unfold check_identifier in H. destruct (identifier room); [|done]. simpl in H.
  destruct (_now clock) as [now|] eqn:En; [|done]. simpl in H. assert (now = clock) as ->.
  { unfold _now in En. destruct (integer _ _ _); [|done]. by injection En. }
  destruct (stay first last clock) as [ds|] eqn:Es; [|done]. simpl in H. pose proof (stay_days _ _ _ _ Es) as [-> Hlen].
  unfold load_availability in H. destruct (_catalog hotel (Some room) s) as [v|] eqn:Ec; [|done]. simpl in H.
  apply raise_if_Ok in H as [Hrows H]. apply negb_false_iff, Nat.eqb_eq in Hrows. injection H as <-. simpl.
  split; [done|]. split; [unfold owner in Eo; by destruct (identifier hotel)|]. do 3 (split; [done|]). split; [|split; [done|]].
  - unfold _catalog in Ec. unfold room_active. destruct (dget hotel (hotels s)) as [h|]; [|done]. destruct (h_active h); [|done]. simpl in Ec.
    destruct (dget (hotel, room) (rooms s)) as [r|]; [|done]. by destruct (r_active r).
  - split; [|done]. intros E. rewrite E in Hrows. simpl in Hrows. unfold stay in Es. apply raise_if_Ok in Es as [Hi _].
    apply negb_false_iff, integer_spec in Hi. lia.
Qed.

(** All other conditions being met, the updates of the days decide. *)
Lemma reserve_decided s user body clock :
  tables_ok dg cf s → owner dg cf (rb_hotel body) = Ok () → identifier (rb_hotel body) = true → identifier (rb_room body) = true →
  identifier user = true → identifier (rb_request_key body) = true → _now clock = Ok clock →
  stay (rb_start body) (rb_end body) clock = Ok (days (rb_start body) (rb_end body)) → room_active s (rb_hotel body) (rb_room body) = true →
  let rows := select_days (rb_hotel body) (rb_room body) (days (rb_start body) (rb_end body)) (inventory s) in
  length rows = length (days (rb_start body) (rb_end body)) → rb_expected_total body = rb_quantity body * zsum (λ r, price r.2) rows →
  dget (rb_hotel body +:+ "." +:+ key_digest dg user (rb_request_key body)) (bookings s) = None →
  1 <= rb_quantity body <= 10 → 0 <= rb_expected_total body <= MAX_AMOUNT →
  rb_payment_method body = "test-ok" ∨ rb_payment_method body = "test-decline" →
  is_ok (reserve dg cf user body clock s) = is_ok (reserve_days (rb_hotel body) (rb_room body) (rb_quantity body) (days (rb_start body) (rb_end body)) (inventory s)).
Proof.
  intros Hs Ho Hh Hroom Hu Hk Hnow Hstay Hact rows Hrows Ht Hnew Hq Hmax Hm. subst rows.
  assert (find_request s (rb_hotel body) user (rb_request_key body) = None) as Hfind.
  { destruct (find_request _ _ _ _) as [[old b]|] eqn:E; [|done]. unfold find_request in E. apply head_Some_elem_of in E.
    rewrite list_elem_of_filter in E. destruct E as [(E1 & E2 & E3) Hin]. apply dget_Some in Hin; [|apply Hs].
    pose proof (tb_keyed _ _ _ Hs _ _ Hin) as K. simpl in *. rewrite E1, E2, E3 in K. congruence. }
  unfold reserve, check_identifier. rewrite Hh, Hroom, Hk, Hu, Ho. simpl.
  rewrite (proj2 (integer_spec _ _ _) Hq), (proj2 (integer_spec _ 0 30000000000) Hmax). simpl.
  rewrite bool_decide_eq_false_2 by naive_solver. simpl. rewrite Hfind, Hnow. simpl. rewrite Hstay. simpl. rewrite Hact. simpl.
  rewrite (proj2 (Nat.eqb_eq _ _) Hrows). simpl. rewrite (proj2 (Z.eqb_eq _ _) (eq_sym Ht)). simpl.
  destruct (reserve_days _ _ _ _ _) as [inv|]; [|done]. simpl. rewrite (proj2 (dmem_false _ _) Hnew). simpl.
  unfold booking, check_identifier. rewrite booking_hotel_id by done. simpl. rewrite Hu. simpl.
  unfold add_job. destruct (dmem _ _); simpl; rewrite dget_dset_eq; simpl; by rewrite bool_decide_eq_false_2 by tauto.
Qed.

(** Availability is exact: what a read answers as available at its revision is the
    number of rooms that a reservation with the quoted price gets, and one room more is
    refused; all other conditions of the request being met. *)
Theorem availability_exact w a user body clock :
  reachable dg cf digest w →
  fresh_read dg cf (AvailabilityQuery (rb_hotel body) (rb_room body) (rb_start body) (rb_end body)) clock (w_shard w) = Ok (DaysAnswer a) →
  identifier user = true → identifier (rb_request_key body) = true →
  dget (rb_hotel body +:+ "." +:+ key_digest dg user (rb_request_key body)) (bookings (w_shard w)) = None →
  1 <= rb_quantity body <= 10 → rb_expected_total body = rb_quantity body * av_unit_total a → 0 <= rb_expected_total body <= MAX_AMOUNT →
  rb_payment_method body = "test-ok" ∨ rb_payment_method body = "test-decline" →
  is_ok (reserve dg cf user body clock (w_shard w)) = true ↔ rb_quantity body <= av_available a.
Proof.
  intros Hr Ha Hu Hk Hnew Hq Ht Hmax Hm. pose proof (hotel_reached _ _ _ hex_digest w Hr) as Hw.
  pose proof (wo_tables _ _ _ _ Hw) as Hs. destruct (availability_inv _ _ _ _ _ _ _ Ha) as (Ho & Hh & Hroom & Hnow & Hstay & Hact & Hrows & Hne & Eav & Eut).
  rewrite (reserve_decided _ _ _ _ Hs) by (done || congruence). rewrite Eav, zmin_le by (intros E%fmap_nil_inv; done).
  destruct (select_days_complete _ _ _ _ Hrows) as [Hdays Hin]. split.
  - destruct (reserve_days _ _ _ _ _) as [inv|] eqn:E; [|done]. intros _ y Hy. apply list_elem_of_fmap in Hy as ([d i] & -> & Hy).
    destruct (reserve_days_ok _ _ _ _ _ _ (so_inventory _ (tb_stock _ _ _ Hs)) (days_nodup _ _) E) as [_ Hlim].
    destruct (Hin d i Hy) as [Hd Hi]. destruct (Hlim d Hd) as (i' & Hi' & ?). rewrite Hi in Hi'. injection Hi' as <-. simpl. lia.
  - intros Hall. destruct (reserve_days_total (rb_hotel body) (rb_room body) (rb_quantity body) _ (inventory (w_shard w)) (days_nodup (rb_start body) (rb_end body))) as (inv & ->); [|done].
    intros d Hd. destruct (Hdays d Hd) as (i & Hi & Hrow). exists i. split; [done|].
    specialize (Hall (limit i - reserved i)). ospecialize (Hall _); [|lia]. by apply (list_elem_of_fmap_2 (λ r : Z * Inventory, limit r.2 - reserved r.2) _ (d, i)).
Qed.
End exact.

(** ** The hotel of HotelProps.v, read twice *)

Lemma session_moves dg cf cc digest w h c w' :
  session dg cf cc digest w h c → w_shard w ∈ h → rtc (move dg cf digest) w w' → ∃ h', session dg cf cc digest w' h' c ∧ w_shard w' ∈ h'.
Proof.
  intros Hs Hin Hm. revert h Hs Hin. induction Hm as [w|w1 w2 w3 H12 _ IH]; intros h Hs Hin; [by exists h|].
  apply (IH (w_shard w2 :: h)); [by eapply session_move|left].
Qed.

Module ReadsDemo.
Definition cc : CacheConfig := mk_cache_config 1 2.
Definition query : Query := AvailabilityQuery "inn" "twin" 1 3.
Definition first_read : Cache * result Answer := read Demo.dg Demo.cf cc query 2000 (5, 5, 5) (w_shard Demo.opened) [].
Definition second_read : Cache * result Answer := read Demo.dg Demo.cf cc query 2000 (5, 5, 5) (w_shard Demo.opened) first_read.1.

Lemma opened_session : ∃ h, session Demo.dg Demo.cf cc o_id Demo.opened h [] ∧ w_shard Demo.opened ∈ h.
Proof. eapply session_moves; [apply session_start|left|apply Demo.opened_reachable]. Qed.
End ReadsDemo.

(** The second answer comes from the cache. *)
Lemma cached_reads_fresh_witness :
  (length ReadsDemo.second_read.1 <= 2)%nat ∧ ∃ a, ReadsDemo.second_read.2 = Ok (DaysAnswer a) ∧ av_available a = 2 ∧
  fresh_read Demo.dg Demo.cf ReadsDemo.query 2000 (w_shard Demo.opened) = Ok (DaysAnswer a).
Proof.
  destruct ReadsDemo.opened_session as (h & Hs & Hin).
  pose proof (session_read _ _ _ _ _ _ _ _ _ _ (5, 5, 5) ReadsDemo.first_read.1 ReadsDemo.first_read.2 Hs Hin (surjective_pairing _)) as Hs2.
  destruct (cached_reads_fresh Demo.dg Demo.cf ReadsDemo.cc o_id Demo.opened h ReadsDemo.first_read.1 (w_shard Demo.opened) ReadsDemo.query 2000 (5, 5, 5)
    ReadsDemo.second_read.1 ReadsDemo.second_read.2 Hs2 Hin (surjective_pairing _)) as [Hlen Hx].
  split; [exact Hlen|]. destruct ReadsDemo.second_read.2 as [v|e] eqn:E; [|vm_compute in E; discriminate E].
  vm_compute in E. injection E as <-. eexists. split; [reflexivity|]. split; [reflexivity|exact Hx].
Defined.

Lemma availability_exact_witness :
  is_ok (reserve Demo.dg Demo.cf "alice" (Demo.body 2 400) 2000 (w_shard Demo.opened)) = true ↔ 2 <= 2.
Proof.
  destruct (fresh_read Demo.dg Demo.cf ReadsDemo.query 2000 (w_shard Demo.opened)) as [[| |a]|] eqn:E; try (vm_compute in E; discriminate E).
  pose proof (availability_exact Demo.dg Demo.cf o_id Demo.hex Demo.opened a "alice" (Demo.body 2 400) 2000 Demo.opened_reachable E
    eq_refl eq_refl ltac:(vm_compute; reflexivity) ltac:(simpl; lia)) as H.
  vm_compute in E. injection E as <-. apply H; [reflexivity|vm_compute; split; discriminate|by left].
Defined.
