(* ===== verification/HotelCalendar.v ===== *)
(** * Rolling calendars of a hotel shard

    Models calendar_policy.py of src/hotel-reservation-system/src/hotel_reservation: the
    default terms of a room, and the bounded rounds that fill the missing days of its
    horizon.  A round reads the due policies and then makes one transaction for each of
    them; other requests may come in between ([between]), and each transaction reads its
    clock.  The generation of a policy, which the code draws at random, is an argument. *)
From S2P Require Import Prelude PyList PyDict Checks Effects HotelStore HotelSaga HotelPayment HotelStock HotelSteps HotelWorld HotelProps.
Local Open Scope Z_scope.

Record Policy := mk_policy {
  p_capacity : Z; p_overbook : Z; p_price : Z; p_horizon : Z;
  p_version : Z; p_next : Z; p_served : Z; p_updated : Z; p_generation : string;
}.
Record Calendar := mk_calendar { cal_shard : Shard; policies : dict (string * string) Policy }.
Definition set_policies ps (c : Calendar) : Calendar := mk_calendar (cal_shard c) ps.

Record PolicyBody := mk_policy_body { pb_capacity : Z; pb_overbook : Z; pb_price : Z; pb_horizon : option Z }.

Section calendar.
Context (dg : Digests) (cf : Settings).
Implicit Types (hotel room : string) (c : Calendar).

Definition _key hotel room : result unit := let* _ := owner dg cf hotel in check_identifier room.

Definition get_policy hotel room c : result Policy :=
  let* _ := _key hotel room in
  match dget (hotel, room) (policies c) with Some p => Ok p | None => Raise (StatusError 404) end.

Definition same_terms (p : Policy) capacity overbook price horizon : bool :=
  bool_decide (p_capacity p = capacity ∧ p_overbook p = overbook ∧ p_price p = price ∧ p_horizon p = horizon).

Definition put_policy hotel room (body : PolicyBody) (generation : string) (clock : Z) c : result (Calendar * Policy) :=
  let* _ := _key hotel room in
  let horizon := default 730 (pb_horizon body) in
  raise_if (negb (integer (pb_capacity body) 0 100000 && integer (pb_overbook body) 0 10 && integer (pb_price body) 0 100000000 && integer horizon 1 730)) ValueError (
  let* now := _now clock in
  raise_if (negb (room_active (cal_shard c) hotel room)) (StatusError 404) (
  let fresh_policy v := mk_policy (pb_capacity body) (pb_overbook body) (pb_price body) horizon v (today now) 0 now generation in
  match dget (hotel, room) (policies c) with
  | Some p =>
      if same_terms p (pb_capacity body) (pb_overbook body) (pb_price body) horizon then Ok (c, p)
      else let p' := fresh_policy (p_version p + 1) in Ok (set_policies (dset (hotel, room) p' (policies c)) c, p')
  | None =>
      raise_if (10000 <=? Z.of_nat (length (policies c))) (StatusError 429) (
      let p' := fresh_policy 1 in Ok (set_policies (dset (hotel, room) p' (policies c)) c, p'))
  end)).

Definition delete_policy hotel room c : result Calendar :=
  let* _ := _key hotel room in Ok (set_policies (ddel (hotel, room) (policies c)) c).

(** The policies of active rooms that do not reach their horizon. *)
Definition is_due (day : Z) c (kp : string * string * Policy) : bool :=
  room_active (cal_shard c) kp.1.1 kp.1.2 && (p_next kp.2 <? day + p_horizon kp.2).
Definition _due (day : Z) (limit : Z) c : list (string * string * Policy) :=
  take (Z.to_nat limit) (sort_by (λ kp, (p_served kp.2, kp.1)) (filter (λ kp, is_due day c kp = true) (policies c))).

(** [INSERT OR IGNORE] of days, with how many were new. *)
Fixpoint insert_days hotel room (p : Policy) (ds : list Z) (inv : dict Day Inventory) : dict Day Inventory * Z :=
  match ds with
  | [] => (inv, 0)
  | d :: ds' =>
      if dmem (hotel, room, d) inv then insert_days hotel room p ds' inv
      else let r := insert_days hotel room p ds' (dset (hotel, room, d) (mk_inventory (p_capacity p) (p_overbook p) (p_price p) 0 0) inv) in (r.1, r.2 + 1)
  end.

Definition served_policy (next served : Z) (p : Policy) : Policy :=
  mk_policy (p_capacity p) (p_overbook p) (p_price p) (p_horizon p) (p_version p) next served (p_updated p) (p_generation p).

(** The transaction of one policy. *)
Inductive Turnout := Stopped | Skipped | Rolled (added : Z).

Definition roll_policy (day : Z) (kp : string * string * Policy) (first count : Z) (clock : Z) : M Calendar Turnout := λ c,
  match _now clock with
  | Raise e => (c, Raise e)
  | Ok now =>
      if bool_decide (today now ≠ day) then (c, Ok Stopped)
      else
        match dget kp.1 (policies c) with
        | Some q =>
            if bool_decide (p_version q ≠ p_version kp.2 ∨ p_next q ≠ p_next kp.2 ∨ p_generation q ≠ p_generation kp.2) || negb (room_active (cal_shard c) kp.1.1 kp.1.2)
            then (c, Ok Skipped)
            else
              let r := insert_days kp.1.1 kp.1.2 kp.2 (days first (first + count)) (inventory (cal_shard c)) in
              let s := set_inventory r.1 (cal_shard c) in
              (mk_calendar (if r.2 =? 0 then s else changed s) (dset kp.1 (served_policy (first + count) now q) (policies c)), Ok (Rolled r.2))
        | None => (c, Ok Skipped)
        end
  end.

Record Tally := mk_tally { inserted : Z; examined : Z; processed : Z }.

(** The loop over the policies that were due; the [i]-th transaction is made at the
    [i]-th clock, after what other requests did in between. *)
Fixpoint roll_loop (between : nat → Calendar → Calendar) (clocks : nat → Z) (day max_rows : Z) (i : nat) (l : list (string * string * Policy)) (t : Tally) : M Calendar Tally := λ c,
  match l with
  | [] => (c, Ok t)
  | kp :: l' =>
      if max_rows <=? examined t then (c, Ok t)
      else
        match _key kp.1.1 kp.1.2 with
        | Raise e => (c, Raise e)
        | Ok _ =>
            let first := Z.max day (p_next kp.2) in
            let count := Z.min (day + p_horizon kp.2 - first) (max_rows - examined t) in
            if count <=? 0 then roll_loop between clocks day max_rows i l' t c
            else
              match roll_policy day kp first count (clocks i) (between i c) with
              | (c, Raise e) => (c, Raise e)
              | (c, Ok Stopped) => (c, Ok t)
              | (c, Ok Skipped) => roll_loop between clocks day max_rows (S i) l' t c
              | (c, Ok (Rolled added)) =>
                  roll_loop between clocks day max_rows (S i) l' (mk_tally (inserted t + added) (examined t + count) (processed t + 1)) c
              end
        end
  end.

Record Rolling := mk_rolling { as_of : Z; tally : Tally; still_due : bool }.

Definition roll_once (between : nat → Calendar → Calendar) (clocks : nat → Z) (max_policies max_rows clock : Z) : M Calendar Rolling := λ c,
  if negb (integer max_policies 1 128 && integer max_rows 1 8192) then (c, Raise ValueError)
  else
    match _now clock with
    | Raise e => (c, Raise e)
    | Ok now =>
        let day := today now in
        match roll_loop between clocks day max_rows 0 (_due day max_policies c) (mk_tally 0 0 0) c with
        | (c, Raise e) => (c, Raise e)
        | (c, Ok t) => (c, Ok (mk_rolling day t (negb (bool_decide (_due day 1 c = [])))))
        end
    end.
End calendar.

(** ** The rows of a round *)

Lemma insert_days_ok hotel room p ds inv :
  dict_ok inv →
  let r := insert_days hotel room p ds inv in
  dict_ok r.1 ∧ (∀ k i, dget k inv = Some i → dget k r.1 = Some i) ∧ (∀ d, d ∈ ds → is_Some (dget (hotel, room, d) r.1)) ∧
  (∀ k i, dget k r.1 = Some i → dget k inv = Some i ∨ dget k inv = None ∧ i = mk_inventory (p_capacity p) (p_overbook p) (p_price p) 0 0) ∧ 0 <= r.2.
Proof.
  revert inv. induction ds as [|d ds IH]; intros inv Hok; simpl.
  - split; [done|]. split; [done|]. split; [set_solver|]. split; [by left|lia].
  - destruct (dmem (hotel, room, d) inv) eqn:Hd.
    + destruct (IH inv Hok) as (H1 & H2 & H3 & H4 & H5). split; [done|]. split; [done|]. split; [|done].
      intros d' [->|Hd']%elem_of_cons; [|by apply H3]. apply dmem_true in Hd as [i Hi]. apply H2 in Hi. by eexists.
    + apply dmem_false in Hd. set (i0 := mk_inventory _ _ _ 0 0).
      destruct (IH (dset (hotel, room, d) i0 inv)) as (H1 & H2 & H3 & H4 & H5); [by apply dset_ok|]. simpl.
      split; [done|]. split; [|split; [|split; [|lia]]].
      * intros k i Hi. apply H2. rewrite dget_dset_ne; [done|]. intros <-. congruence.
      * intros d' [->|Hd']%elem_of_cons; [|by apply H3]. exists i0. apply H2, dget_dset_eq.
      * intros k i Hi. destruct (H4 k i Hi) as [Hk|[Hk ->]].
        { rewrite dget_dset in Hk. case_decide as E; [|by left]. injection Hk as <-. subst k. by right. }
        { rewrite dget_dset in Hk. case_decide; [done|]. by right. }
Qed.

Definition terms_ok (p : Policy) : Prop := 0 <= p_capacity p ∧ 0 <= p_overbook p ∧ 1 <= p_horizon p.

(** New rows are free, so that the inventory stays what the bookings take. *)
Lemma insert_days_stock hotel room p ds s :
  stock_ok s → terms_ok p → stock_ok (set_inventory (insert_days hotel room p ds (inventory s)).1 s).
Proof.
  intros Hs (Hc & Ho & _). destruct (insert_days_ok hotel room p ds (inventory s) (so_inventory _ Hs)) as (H1 & H2 & _ & H4 & _).
  destruct Hs as [S1 S2 S3 S4 S5 S6 S7]. split; try done.
  - intros k i Hi. simpl in Hi. change (taken k (set_inventory _ s)) with (taken k s). destruct (H4 k i Hi) as [Hk|[Hk ->]]; [by apply S4|].
    rewrite taken_free; [|by split|done]. split; [done|]. unfold limit. simpl. pose proof (Z.div_pos (p_capacity p * p_overbook p) 100). nia.
  - intros id b d Hb Hd. destruct (S5 id b d Hb Hd) as [i Hi]. apply H2 in Hi. by eexists.
Qed.

Section calendar_props.
Context (dg : Digests) (cf : Settings).

Record calendar_ok (day : Z) (c : Calendar) : Prop := mk_calendar_ok {
  co_tables : tables_ok dg cf (cal_shard c);
  co_policies : dict_ok (policies c);
  co_terms : ∀ k p, dget k (policies c) = Some p → terms_ok p ∧ _key dg cf k.1 k.2 = Ok ();
  co_filled : ∀ hotel room p d, dget (hotel, room) (policies c) = Some p → day <= d < p_next p → is_Some (dget (hotel, room, d) (inventory (cal_shard c)));
}.

Lemma calendar_later day day' c : day <= day' → calendar_ok day c → calendar_ok day' c.
Proof. intros Hle [H1 H2 H3 H4]. split; try done. intros hotel room p d Hp Hd. apply (H4 hotel room p d Hp). lia. Qed.

(** Other requests may come in between, as long as no day loses its row. *)
Lemma calendar_shard day c s :
  calendar_ok day c → tables_ok dg cf s → (∀ k, is_Some (dget k (inventory (cal_shard c))) → is_Some (dget k (inventory s))) →
  calendar_ok day (mk_calendar s (policies c)).
Proof. intros [H1 H2 H3 H4] Hs Hk. split; try done. intros hotel room p d Hp Hd. by apply Hk, (H4 hotel room p d). Qed.

Lemma put_policy_ok day hotel room body generation clock c c' p :
  calendar_ok day c → today clock <= day → put_policy dg cf hotel room body generation clock c = Ok (c', p) → calendar_ok day c'.
Proof.
  intros Hc Hday H. unfold put_policy in H. destruct (_key dg cf hotel room) as [[]|] eqn:Ek; [|done]. simpl in H.
  apply raise_if_Ok in H as [Hi H]. destruct (_now clock) as [now|] eqn:En; [|done]. simpl in H.
  assert (now = clock) as -> by (unfold _now in En; destruct (integer clock _ _); simpl in En; [by injection En|done]).
  apply raise_if_Ok in H as [_ H]. apply negb_false_iff in Hi. do 3 apply andb_prop in Hi as [Hi ?].
  assert (∀ v, calendar_ok day (set_policies (dset (hotel, room) (mk_policy (pb_capacity body) (pb_overbook body) (pb_price body) (default 730 (pb_horizon body)) v
    (today clock) 0 clock generation) (policies c)) c)) as Hnew.
  { intros v. destruct Hc as [C1 C2 C3 C4]. split; simpl; [done|by apply dset_ok| |].
    - intros k q. rewrite dget_dset. case_decide; [|apply C3]. intros [= <-]. subst k. split; [|done].
      repeat match goal with H : integer _ _ _ = true |- _ => apply integer_spec in H end. unfold terms_ok. simpl. lia.
    - intros h r q d. rewrite dget_dset. case_decide; [|by apply C4]. intros [= <-]. simpl. lia. }
  destruct (dget (hotel, room) (policies c)) as [q|].
  - destruct (same_terms _ _ _ _ _); injection H as <- _; [done|apply Hnew].
  - apply raise_if_Ok in H as [_ H]. injection H as <- _. apply Hnew.
Qed.

Lemma delete_policy_ok day hotel room c c' : calendar_ok day c → delete_policy dg cf hotel room c = Ok c' → calendar_ok day c'.
Proof.
  intros [H1 H2 H3 H4] H. unfold delete_policy in H. destruct (_key dg cf hotel room); [|done]. injection H as <-.
  assert (∀ k p, dget k (ddel (hotel, room) (policies c)) = Some p → dget k (policies c) = Some p) as Hsub.
  { intros k p. rewrite dget_ddel by done. by case_decide. }
  split; simpl; [done|by apply ddel_ok| |].
  - intros k p Hk. by apply H3, Hsub.
  - intros h r p d Hp. by apply H4, Hsub.
Qed.

(** The transaction of a policy leaves every row that was there, and the other policies. *)
Lemma roll_policy_ok day kp first count clock c c' x :
  calendar_ok day c → terms_ok kp.2 → first = Z.max day (p_next kp.2) →
  roll_policy day kp first count clock c = (c', x) →
  calendar_ok day c' ∧ (∀ k i, dget k (inventory (cal_shard c)) = Some i → dget k (inventory (cal_shard c')) = Some i).
Proof.
  intros Hc Hterms Hfirst H. unfold roll_policy in H. destruct (_now clock) as [now|]; [|by injection H as <- _].
  case_bool_decide; [by injection H as <- _|]. destruct (dget kp.1 (policies c)) as [q|] eqn:Hq; [|by injection H as <- _].
  destruct (_ || _) eqn:E; [by injection H as <- _|]. injection H as <- _. apply orb_false_iff in E as [E _]. apply bool_decide_eq_false in E.
  assert (p_next q = p_next kp.2) as Enext by (destruct (decide (p_next q = p_next kp.2)); [done|tauto]).
  pose proof Hc as [H1 H2 H3 H4].
  destruct (insert_days_ok kp.1.1 kp.1.2 kp.2 (days first (first + count)) (inventory (cal_shard c)) (so_inventory _ (tb_stock _ _ _ H1))) as (I1 & I2 & I3 & _ & _).
  set (r := insert_days _ _ _ _ _) in *.
  assert (tables_ok dg cf (set_inventory r.1 (cal_shard c))) as Htab.
  { destruct H1 as [T1 T2 T3 T4 T5]. split; try done. by apply insert_days_stock. }
  split; [|destruct (r.2 =? 0); exact I2]. split; simpl.
  - destruct (r.2 =? 0); [done|]. by apply changed_tables.
  - by apply dset_ok.
  - intros k p. rewrite dget_dset. case_decide; [|apply H3]. intros [= <-]. subst k. by apply (H3 _ q).
  - intros h rm p d. rewrite dget_dset. replace (inventory (if r.2 =? 0 then _ else _)) with r.1 by (by destruct (r.2 =? 0)).
    case_decide as Ek.
    + intros [= <-]. simpl. intros Hd. destruct kp as [[h' r'] p']. simpl in *. injection Ek as -> ->.
      destruct (decide (d < first)) as [Hlt|Hge].
      * destruct (H4 h rm q d Hq) as [i Hi]; [lia|]. apply I2 in Hi. by eexists.
      * apply I3, elem_days. lia.
    + intros Hp Hd. destruct (H4 h rm p d Hp Hd) as [i Hi]. apply I2 in Hi. by eexists.
Qed.

(** ** Quiet rounds fill the horizons *)

(** The days that a policy still has to reach. *)
Definition gap (day : Z) (c : Calendar) (kp : string * string * Policy) : Z :=
  if is_due day c kp then day + p_horizon kp.2 - Z.max day (p_next kp.2) else 0.
Definition deficit (day : Z) (c : Calendar) : Z := zsum (gap day c) (policies c).

Lemma gap_nonneg day c kp : terms_ok kp.2 → 0 <= gap day c kp.
Proof. intros (_ & _ & Hh). unfold gap, is_due. destruct (room_active _ _ _); simpl; [|lia]. destruct (Z.ltb_spec (p_next kp.2) (day + p_horizon kp.2)); lia. Qed.

Lemma deficit_nonneg day c : calendar_ok day c → 0 <= deficit day c.
Proof.
  intros Hc. apply zsum_nonneg. intros [k p] Hin. apply gap_nonneg. apply dget_Some in Hin; [|apply Hc]. by apply (co_terms _ _ Hc) in Hin as [? _].
Qed.

(** What a transaction does to a due policy that nothing has touched. *)
Lemma roll_policy_quiet day kp count clock c :
  calendar_ok day c → dget kp.1 (policies c) = Some kp.2 → is_due day c kp = true → _now clock = Ok clock → today clock = day →
  0 < count <= day + p_horizon kp.2 - Z.max day (p_next kp.2) →
  ∃ c' added, roll_policy day kp (Z.max day (p_next kp.2)) count clock c = (c', Ok (Rolled added)) ∧
    (hotels (cal_shard c') = hotels (cal_shard c) ∧ rooms (cal_shard c') = rooms (cal_shard c)) ∧
    policies c' = dset kp.1 (served_policy (Z.max day (p_next kp.2) + count) clock kp.2) (policies c) ∧ deficit day c' <= deficit day c - count.
Proof.
  intros Hc Hq Hdue Hn Ht Hcount. unfold roll_policy. rewrite Hn. rewrite bool_decide_eq_false_2 by tauto. rewrite Hq.
  pose proof Hdue as Hact. unfold is_due in Hact. apply andb_prop in Hact as [Hact Hnext]. apply Z.ltb_lt in Hnext.
  rewrite bool_decide_eq_false_2 by tauto. rewrite Hact. simpl. eexists _, _. split; [done|].
  set (r := insert_days _ _ _ _ _). set (first := Z.max day (p_next kp.2)) in *. set (c' := mk_calendar _ _).
  assert (hotels (cal_shard c') = hotels (cal_shard c) ∧ rooms (cal_shard c') = rooms (cal_shard c)) as [Eh Er].
  { unfold c'. simpl. by destruct (r.2 =? 0). }
  split; [done|]. split; [done|].
  assert (∀ x, gap day c' x = gap day c x) as Hgap by (intros x; unfold gap, is_due, room_active; by rewrite Eh, Er).
  unfold deficit. rewrite (zsum_ext _ (gap day c)) by auto. unfold c'. simpl policies.
  destruct (dset_split kp.1 kp.2 (served_policy (first + count) clock kp.2) (policies c) Hq) as (d1 & d2 & E & ->). rewrite E.
  rewrite !zsum_app. simpl. rewrite <- surjective_pairing.
  assert (gap day c kp = day + p_horizon kp.2 - first) as G1 by (unfold gap; by rewrite Hdue).
  assert (gap day c (kp.1, served_policy (first + count) clock kp.2) <= day + p_horizon kp.2 - first - count) as G2.
  { unfold gap, is_due. simpl. rewrite Hact. simpl. destruct (Z.ltb_spec (first + count) (day + p_horizon kp.2)); lia. }
  lia.
Qed.

Lemma roll_loop_quiet day max_rows clocks l : (∀ i, _now (clocks i) = Ok (clocks i) ∧ today (clocks i) = day) → ∀ i t c,
  calendar_ok day c → NoDup l.*1 → (∀ kp, kp ∈ l → dget kp.1 (policies c) = Some kp.2 ∧ is_due day c kp = true) → examined t <= max_rows →
  ∃ c' t', roll_loop dg cf (λ _ c, c) clocks day max_rows i l t c = (c', Ok t') ∧ calendar_ok day c' ∧
    (∀ k x, dget k (inventory (cal_shard c)) = Some x → dget k (inventory (cal_shard c')) = Some x) ∧
    deficit day c' <= deficit day c ∧ (l ≠ [] → examined t < max_rows → deficit day c' < deficit day c) ∧ examined t' <= max_rows.
Proof.
  intros Hclock. induction l as [|kp l IH]; intros i t c Hc Hnd Hl Ht; simpl.
  - exists c, t. split; [done|]. split; [done|]. split; [done|]. split; [lia|]. split; [done|done].
  - destruct (Z.leb_spec max_rows (examined t)) as [Hmax|Hmax].
    { exists c, t. split; [done|]. split; [done|]. split; [done|]. split; [lia|]. split; [lia|done]. }
    apply NoDup_cons in Hnd as [Hk Hnd]. destruct (Hl kp ltac:(left)) as [Hq Hdue]. destruct (co_terms _ _ Hc _ _ Hq) as [Hterms ->].
    pose proof Hdue as Hnext. unfold is_due in Hnext. apply andb_prop in Hnext as [_ Hnext]. apply Z.ltb_lt in Hnext.
    set (count := Z.min _ _). assert (0 < count) as Hpos by (destruct Hterms as (_ & _ & ?); lia). rewrite (proj2 (Z.leb_gt _ _) Hpos).
    destruct (Hclock i) as [Hn Hday].
    destruct (roll_policy_quiet day kp count (clocks i) c Hc Hq Hdue Hn Hday ltac:(lia)) as (c1 & added & E & [Eh Er] & Ep & Hdef). rewrite E.
    destruct (roll_policy_ok day kp _ count _ c c1 _ Hc Hterms eq_refl E) as [Hc1 Hrows].
    destruct (IH (S i) (mk_tally (inserted t + added) (examined t + count) (processed t + 1)) c1 Hc1 Hnd) as (c' & t' & -> & Hc' & Hrows' & Hdef' & _ & Hex).
    + intros kp' Hin. destruct (Hl kp' ltac:(by right)) as [Hq' Hdue']. split.
      * rewrite Ep, dget_dset_ne; [done|]. intros Ek. apply Hk. rewrite Ek. by apply list_elem_of_fmap_2.
      * unfold is_due, room_active in *. by rewrite Eh, Er.
    + simpl. lia.
    + exists c', t'. split; [done|]. split; [done|]. split; [by auto|]. split; [lia|]. split; [lia|done].
Qed.

Lemma due_spec day limit c kp : kp ∈ _due day limit c → kp ∈ policies c ∧ is_due day c kp = true.
Proof. unfold _due. intros Hin. apply (subseteq_take _ _) in Hin. rewrite elem_of_sort_by, list_elem_of_filter in Hin. tauto. Qed.

Lemma due_nodup day limit c : dict_ok (policies c) → NoDup (_due day limit c).*1.
Proof.
  intros Hok. unfold _due. eapply sublist_NoDup; [|apply fmap_sublist, sublist_take]. rewrite sort_by_perm. by apply NoDup_fmap_filter.
Qed.

Lemma due_empty day limit c : 1 <= limit → _due day limit c = [] → ∀ kp, kp ∈ policies c → is_due day c kp = false.
Proof.
  intros Hl He kp Hin. destruct (is_due day c kp) eqn:E; [|done]. exfalso. unfold _due in He.
  assert (kp ∈ sort_by (λ kp, (p_served kp.2, kp.1)) (filter (λ kp, is_due day c kp = true) (policies c))) as Hs by (by rewrite elem_of_sort_by, list_elem_of_filter).
  destruct (sort_by _ _) as [|x l]; [by apply elem_of_nil in Hs|]. destruct (Z.to_nat limit) eqn:En; [lia|]. done.
Qed.

(** [n] rounds on the day of [clock], with nothing in between. *)
Fixpoint rolls (n : nat) (clock max_policies max_rows : Z) (c : Calendar) : Calendar :=
  match n with
  | O => c
  | S m => rolls m clock max_policies max_rows (roll_once dg cf (λ _ c, c) (λ _, clock) max_policies max_rows clock c).1
  end.

Lemma roll_once_quiet clock max_policies max_rows c :
  calendar_ok (today clock) c → _now clock = Ok clock → 1 <= max_policies <= 128 → 1 <= max_rows <= 8192 →
  ∃ c' r, roll_once dg cf (λ _ c, c) (λ _, clock) max_policies max_rows clock c = (c', Ok r) ∧ calendar_ok (today clock) c' ∧
    (∀ k x, dget k (inventory (cal_shard c)) = Some x → dget k (inventory (cal_shard c')) = Some x) ∧
    deficit (today clock) c' <= deficit (today clock) c ∧ (_due (today clock) max_policies c ≠ [] → deficit (today clock) c' < deficit (today clock) c) ∧
    examined (tally r) <= max_rows.
Proof.
  intros Hc Hn Hp Hr. unfold roll_once. rewrite (proj2 (integer_spec _ _ _) Hp), (proj2 (integer_spec _ _ _) Hr). simpl. rewrite Hn.
  destruct (roll_loop_quiet (today clock) max_rows (λ _, clock) (_due (today clock) max_policies c) ltac:(auto) 0 (mk_tally 0 0 0) c)
    as (c' & t' & -> & H1 & H2 & H3 & H4 & H5); [done|apply due_nodup, Hc| |simpl; lia|].
  - intros kp Hin. apply due_spec in Hin as [Hin Hdue]. split; [|done]. destruct kp as [k p]. apply dget_Some; [apply Hc|done].
  - eexists _, _. split; [done|]. split; [done|]. split; [done|]. split; [done|]. split; [|done]. intros Hne. apply H4; [done|simpl; lia].
Qed.

Lemma due_none day limit c : (∀ kp, kp ∈ policies c → is_due day c kp = false) → _due day limit c = [].
Proof.
  intros Hall. destruct (_due day limit c) as [|kp l] eqn:E; [done|]. exfalso.
  destruct (due_spec day limit c kp) as [Hin Hdue]; [rewrite E; left|]. by rewrite Hall in Hdue.
Qed.

Lemma rolls_quiet clock max_policies max_rows n c :
  calendar_ok (today clock) c → _now clock = Ok clock → 1 <= max_policies <= 128 → 1 <= max_rows <= 8192 → deficit (today clock) c <= Z.of_nat n →
  let c' := rolls n clock max_policies max_rows c in
  calendar_ok (today clock) c' ∧ (∀ k x, dget k (inventory (cal_shard c)) = Some x → dget k (inventory (cal_shard c')) = Some x) ∧
  _due (today clock) max_policies c' = [].
Proof.
  intros Hc Hn Hp Hr. revert c Hc. induction n as [|n IH]; intros c Hc Hdef; simpl.
  - split; [done|]. split; [done|]. destruct (_due (today clock) max_policies c) eqn:E; [done|]. exfalso.
    destruct (roll_once_quiet clock max_policies max_rows c Hc Hn Hp Hr) as (c' & r & _ & Hc' & _ & _ & Hlt & _).
    pose proof (deficit_nonneg _ _ Hc'). rewrite E in Hlt. specialize (Hlt ltac:(done)). lia.
  - destruct (roll_once_quiet clock max_policies max_rows c Hc Hn Hp Hr) as (c' & r & E & Hc' & Hrows & Hle & Hlt & _). rewrite E. simpl.
    destruct (decide (_due (today clock) max_policies c = [])) as [Hnone|Hsome].
    + assert (deficit (today clock) c = 0) as Hz.
      { apply zsum_zero. intros kp Hin. unfold gap. by rewrite (due_empty (today clock) max_policies c ltac:(lia) Hnone kp Hin). }
      destruct (IH c' Hc') as (H1 & H2 & H3); [lia|]. split; [done|]. split; [by auto|done].
    + destruct (IH c' Hc') as (H1 & H2 & H3); [specialize (Hlt Hsome); lia|]. split; [done|]. split; [by auto|done].
Qed.

(** C19: calendars fill: on one day, with no other change, as many rounds as days are
    missing leave no policy due, whatever the bounds of a round; then every day of the
    horizon of every policy of an active room is for sale, no row that was there has
    changed, and the inventory is still what the bookings take. *)
Theorem calendar_fills clock max_policies max_rows n c hotel room p d :
  calendar_ok (today clock) c → _now clock = Ok clock → 1 <= max_policies <= 128 → 1 <= max_rows <= 8192 → deficit (today clock) c <= Z.of_nat n →
  let c' := rolls n clock max_policies max_rows c in
  _due (today clock) 1 c' = [] ∧
  (∀ k x, dget k (inventory (cal_shard c)) = Some x → dget k (inventory (cal_shard c')) = Some x) ∧ stock_ok (cal_shard c') ∧
  (dget (hotel, room) (policies c') = Some p → room_active (cal_shard c') hotel room = true → today clock <= d < today clock + p_horizon p →
    is_Some (dget (hotel, room, d) (inventory (cal_shard c')))).
Proof.
  intros Hc Hn Hp Hr Hdef. destruct (rolls_quiet clock max_policies max_rows n c Hc Hn Hp Hr Hdef) as (Hc' & Hrows & Hend). intros c'.
  assert (_due (today clock) 1 c' = []) as Hdue.
  { apply due_none. intros kp Hin. by apply (due_empty (today clock) max_policies); [lia|..]. }
  split; [done|]. split; [done|]. split; [apply Hc'|]. intros Hpol Hact Hd.
  pose proof (due_empty (today clock) 1 c' ltac:(lia) Hdue (hotel, room, p) (dget_Some_elem _ _ _ Hpol)) as Hno.
  unfold is_due in Hno. simpl in Hno. rewrite Hact in Hno. simpl in Hno. apply Z.ltb_ge in Hno.
  apply (co_filled _ _ Hc' hotel room p d Hpol). lia.
Qed.
End calendar_props.

(** ** The calendar of the hotel of HotelProps.v *)

Module CalendarDemo.
Definition body : PolicyBody := mk_policy_body 3 0 80 (Some 5).
Definition started : Calendar :=
  match put_policy Demo.dg Demo.cf "inn" "twin" body "g" 2000 (mk_calendar (w_shard Demo.opened) []) with Ok (c, _) => c | Raise _ => mk_calendar (w_shard Demo.opened) [] end.

Lemma started_ok : calendar_ok Demo.dg Demo.cf (today 2000) started.
Proof.
  assert (calendar_ok Demo.dg Demo.cf (today 2000) (mk_calendar (w_shard Demo.opened) [])) as Hc.
  { split; [|apply dict_nil_ok|done|done]. eapply (wo_tables _ _ o_id Demo.opened), hotel_reached; [exact Demo.hex|apply Demo.opened_reachable]. }
  unfold started. destruct (put_policy _ _ _ _ _ _ _ _) as [[c p]|] eqn:E; [|done]. by eapply put_policy_ok; [exact Hc| |exact E].
Qed.
End CalendarDemo.

(** Five rounds of one row each; the three days that were open keep their terms. *)
Lemma calendar_fills_witness :
  let c := rolls Demo.dg Demo.cf 5 2000 1 1 CalendarDemo.started in
  _due (today 2000) 1 c = [] ∧ dget ("inn", "twin", 1) (inventory (cal_shard c)) = Some (mk_inventory 2 0 100 0 0) ∧
  dget ("inn", "twin", 4) (inventory (cal_shard c)) = Some (mk_inventory 3 0 80 0 0).
Proof.
  destruct (calendar_fills Demo.dg Demo.cf 2000 1 1 5 CalendarDemo.started "inn" "twin" (mk_policy 3 0 80 5 1 0 0 2000 "g") 4
    CalendarDemo.started_ok) as (Hdue & Hrows & _ & _); [reflexivity|lia|lia|vm_compute; discriminate|].
  split; [exact Hdue|]. split; [apply Hrows; vm_compute; reflexivity|vm_compute; reflexivity].
Defined.
