(* ===== verification/PayBooks.v ===== *)
(** * The books of the payment system: wallets, operations and the ledger

    Models schema.py, contracts.py, ledger.py and operations.py of
    src/payment-system/src/payment_system with the parts of jobs.py and reconciliation.py
    that they call.  A table is a dictionary by its primary key; an operation is a
    transaction, which raises with the tables as they were and reads the clock once, at
    its start.  Times are milliseconds.  The currency of what is stored is always USD and
    has no field; the lines of a ledger entry are stored with it.  A body that reached an
    operation has the fields the code asks for.  The digests, the parser of
    URLs and the random identifiers are parameters or arguments. *)
From Stdlib Require Import Ascii.
From S2P Require Import Prelude PyList PyDict Checks.
Local Open Scope Z_scope.

(** ** Data *)

Inductive Kind := payin | payout | refund.
Inductive Status := CREATED | PENDING | SUCCEEDED | FAILED | UNKNOWN.
Inductive EntryKind := reserve | release | settle.
Inductive Account := Clearing | Available (merchant : string) | Held (merchant : string).
#[export] Instance kind_eq_dec : EqDecision Kind. Proof. solve_decision. Defined.
#[export] Instance status_eq_dec : EqDecision Status. Proof. solve_decision. Defined.
#[export] Instance entry_kind_eq_dec : EqDecision EntryKind. Proof. solve_decision. Defined.
#[export] Instance account_eq_dec : EqDecision Account. Proof. solve_decision. Defined.

Record Wallet := mk_wallet { available : Z; held : Z }.
Record Op := mk_op {
  op_merchant : string; op_kind : Kind; op_order : option string; op_parent : option string; op_amount : Z;
  op_destination : string; op_key : string; op_hash : string; op_status : Status; op_provider : option string;
  op_revision : Z; op_checkout : option string; op_created : Z;
}.
Record Line := mk_line { ln_account : Account; ln_debit : Z; ln_credit : Z }.
#[export] Instance line_eq_dec : EqDecision Line. Proof. solve_decision. Defined.
Record Entry := mk_entry {
  en_operation : string; en_kind : EntryKind; en_provider : option string; en_posted : bool; en_created : Z; en_lines : list Line;
}.

(** What the provider says of an operation. *)
Record Receipt := mk_receipt {
  r_id : string; r_merchant : string; r_kind : Kind; r_parent : option string; r_amount : Z; r_currency : string;
  r_provider : string; r_status : Status; r_revision : Z; r_checkout : option string;
}.

(** The event of a terminal operation, and the payloads of jobs. *)
Record Event := mk_event { ev_id : string; ev_operation : string; ev_merchant : string; ev_status : Status; ev_amount : Z }.
Inductive Payload := Execute (op : string) | Notify (e : Event) | Reconcile (run : string).
Inductive JobStatus := pending | inflight | finished | dead.
#[export] Instance job_status_eq_dec : EqDecision JobStatus. Proof. solve_decision. Defined.
Record Job := mk_job {
  jb_payload : Payload; jb_status : JobStatus; jb_attempts : Z; jb_failures : Z; jb_due : Z; jb_lease : Z; jb_token : string; jb_error : string;
}.

Inductive AuditError := WalletMismatch (merchant : string) (is_held : bool) | Unbalanced | AssetMismatch.
Inductive Detail := OfReceipt (r : Receipt) | OfJob (job error : string) | OfStatement (local : Status) (r : option Receipt) | OfAudit (e : AuditError).
Record Review := mk_review { rv_operation : string; rv_reason : string; rv_detail : Detail; rv_state : string; rv_created : Z }.
Record Applied := mk_applied { ap_applied : bool; ap_duplicate : bool; ap_review : option string; ap_ignored : option string }.

Record Audit := mk_audit { au_cash : Z; au_liability : Z; au_errors : list AuditError }.
Record Difference := mk_difference { df_operation : option string; df_reason : string; df_review : string }.
Inductive RunStatus := run_pending | run_done | run_failed.
Inductive RunResult := Matched (differences : list Difference) (audit : Audit) (snapshot : string) | RunError (error : string).
Record Run := mk_run { rn_status : RunStatus; rn_result : option RunResult; rn_created : Z }.
Record Execution := mk_execution { ex_job : string; ex_action : string; ex_detail : string; ex_created : Z }.

Record Books := mk_books {
  wallets : dict string Wallet;
  operations : dict string Op;
  entries : dict string Entry;
  jobs : dict string Job;
  executions : list Execution;
  inbox : dict string (string * Applied);
  reviews : dict string Review;
  runs : dict string Run;
  checkouts : dict string (string * list string * Z);
  versions : dict (string * Z) string;
}.
Definition with_money ws es (b : Books) : Books := mk_books ws (operations b) es (jobs b) (executions b) (inbox b) (reviews b) (runs b) (checkouts b) (versions b).
Definition with_operations os (b : Books) : Books := mk_books (wallets b) os (entries b) (jobs b) (executions b) (inbox b) (reviews b) (runs b) (checkouts b) (versions b).
Definition with_jobs js xs (b : Books) : Books := mk_books (wallets b) (operations b) (entries b) js xs (inbox b) (reviews b) (runs b) (checkouts b) (versions b).
Definition with_inbox i (b : Books) : Books := mk_books (wallets b) (operations b) (entries b) (jobs b) (executions b) i (reviews b) (runs b) (checkouts b) (versions b).
Definition with_reviews r (b : Books) : Books := mk_books (wallets b) (operations b) (entries b) (jobs b) (executions b) (inbox b) r (runs b) (checkouts b) (versions b).
Definition with_runs r (b : Books) : Books := mk_books (wallets b) (operations b) (entries b) (jobs b) (executions b) (inbox b) (reviews b) r (checkouts b) (versions b).
Definition with_checkouts c (b : Books) : Books := mk_books (wallets b) (operations b) (entries b) (jobs b) (executions b) (inbox b) (reviews b) (runs b) c (versions b).
Definition with_versions v (b : Books) : Books := mk_books (wallets b) (operations b) (entries b) (jobs b) (executions b) (inbox b) (reviews b) (runs b) (checkouts b) v.

(** [Store.__init__] *)
Definition new_books (merchants : list string) : result Books :=
  let* ms := mapR (λ m, raise_if (negb (identifier m)) ValueError (Ok m)) merchants in
  Ok (mk_books (foldl (λ ws m, if dmem m ws then ws else dset m (mk_wallet 0 0) ws) [] ms) [] [] [] [] [] [] [] [] []).

Definition check_identifier (v : string) : result unit := raise_if (negb (identifier v)) ValueError (Ok ()).
Definition money (v : Z) : result Z := raise_if (negb (integer v 1 100000000)) ValueError (Ok v).
(** The clock of a transaction. *)
Definition timestamp (clock : Z) : result Z := raise_if (clock <? 0) ValueError (Ok clock).

Record CreateBody := mk_create { cb_request_key : string; cb_amount : Z; cb_currency : string; cb_field : string }.

(** What [urlsplit] finds in a URL; what it lacks is empty. *)
Record Target := mk_target {
  tg_scheme : string; tg_hostname : string; tg_username : string; tg_password : string; tg_path : string; tg_query : string; tg_fragment : string;
}.

(** The digests of a request, of a receipt and of a review; [urlsplit], which may raise,
    and whether a host is the text of a loopback address. *)
Record Digests := mk_digests {
  digest_request : Kind → CreateBody → string;
  digest_receipt : Receipt → string;
  digest_review : string → string → Detail → string;
  url_split : string → option Target;
  loopback : string → bool;
}.

(** What follows a prefix. *)
Fixpoint strip_prefix (p s : string) : option string :=
  match p, s with
  | EmptyString, _ => Some s
  | String c p, String c' s => if bool_decide (c = c') then strip_prefix p s else None
  | String _ _, EmptyString => None
  end.

(** The check of a checkout URL. *)
Definition local_checkout (dg : Digests) (url : string) : bool :=
  match url_split dg url with
  | Some t =>
      bool_decide (tg_scheme t = "http" ∧ tg_hostname t ≠ "") && loopback dg (tg_hostname t) &&
      bool_decide (tg_username t = "" ∧ tg_password t = "" ∧ tg_query t = "" ∧ tg_fragment t = "") &&
      match strip_prefix "/checkout/" (tg_path t) with Some id => identifier id | None => false end
  | None => false
  end.

Section books.
Context (dg : Digests).
Implicit Types (b : Books) (op merchant : string) (now : Z).

(** ** Receipts *)

Definition receipt_copy (r : Receipt) : result Receipt :=
  let* _ := check_identifier (r_id r) in
  let* _ := check_identifier (r_merchant r) in
  let* _ := check_identifier (r_provider r) in
  let* _ := money (r_amount r) in
  raise_if (negb (integer (r_revision r) 1 (2 ^ 53))) ValueError (
  raise_if (bool_decide (r_currency r ≠ "USD" ∨ (r_status r ≠ PENDING ∧ r_status r ≠ SUCCEEDED ∧ r_status r ≠ FAILED))) ValueError (
  let* _ := match r_kind r, r_parent r with
            | refund, Some p => check_identifier p
            | refund, None => Raise ValueError
            | _, Some _ => Raise ValueError
            | _, None => Ok ()
            end in
  match r_checkout r with
  | Some url => raise_if (negb (bool_decide (r_kind r = payin) && local_checkout dg url)) ValueError (Ok r)
  | None => Ok r
  end)).

(** ** Jobs and reviews *)

Definition execute_id op : string := "execute:" +:+ op.
Definition notify_id op : string := "notify:" +:+ op.
Definition reconcile_id (run : string) : string := "reconcile:" +:+ run.

(** [INSERT OR IGNORE]; due now. *)
Definition enqueue (id : string) (p : Payload) now b : Books :=
  if dmem id (jobs b) then b else with_jobs (dset id (mk_job p pending 0 0 now 0 "" "") (jobs b)) (executions b) b.

Definition review op (reason : string) (d : Detail) now b : Books * string :=
  let id := digest_review dg op reason d in
  (if dmem id (reviews b) then b else with_reviews (dset id (mk_review op reason d "open" now) (reviews b)) b, id).

(** ** Operations and the ledger *)

Definition operation op (merchant : option string) b : result Op :=
  match dget op (operations b) with
  | Some o => if match merchant with Some m => bool_decide (op_merchant o ≠ m) | None => false end then Raise (StatusError 404) else Ok o
  | None => Raise (StatusError 404)
  end.

Definition expected_posting (o : Op) (k : EntryKind) : Account * Account :=
  let a := Available (op_merchant o) in let h := Held (op_merchant o) in
  match k with
  | reserve => (a, h)
  | release => (h, a)
  | settle => match op_kind o with payin => (Clearing, a) | _ => (h, Clearing) end
  end.

(** The update of the wallet of an account; clearing has none. *)
Definition move_wallet (a : Account) (delta : Z) (ws : dict string Wallet) : result (dict string Wallet) :=
  match a with
  | Clearing => Ok ws
  | Available m =>
      match dget m ws with
      | Some w => if 0 <=? available w + delta then Ok (dset m (mk_wallet (available w + delta) (held w)) ws) else Raise (StatusError 409)
      | None => Raise (StatusError 409)
      end
  | Held m =>
      match dget m ws with
      | Some w => if 0 <=? held w + delta then Ok (dset m (mk_wallet (available w) (held w + delta)) ws) else Raise (StatusError 409)
      | None => Raise (StatusError 409)
      end
  end.

(** The trigger [finalize_balanced]. *)
Definition balanced (l : list Line) : bool := (2 <=? length l)%nat && (zsum ln_debit l - zsum ln_credit l =? 0).

Definition post (id op : string) (k : EntryKind) (debit credit : Account) (amount : Z) (provider : option string) now b : result (Books * bool) :=
  let* amount := money amount in
  let* source := operation op None b in
  raise_if (bool_decide ((debit, credit) ≠ expected_posting source k ∨ amount ≠ op_amount source ∨ (op_kind source = payin ∧ k ≠ settle))) (StatusError 409) (
  let lines := [mk_line debit amount 0; mk_line credit 0 amount] in
  match dget id (entries b) with
  | Some old =>
      raise_if (bool_decide (en_operation old ≠ op ∨ en_kind old ≠ k ∨ en_provider old ≠ provider ∨ en_posted old ≠ true ∨ en_lines old ≠ lines)) (StatusError 409) (
      Ok (b, false))
  | None =>
      let* ws := move_wallet debit (- amount) (wallets b) in
      let* ws := move_wallet credit amount ws in
      raise_if (negb (balanced lines)) IntegrityError (
      Ok (with_money ws (dset id (mk_entry op k provider true now lines) (entries b)) b, true))
  end).

(** The operations that refund a pay-in, but for the failed ones. *)
Definition refunds_of (parent : string) (os : dict string Op) : Z :=
  zsum (λ o, when (bool_decide (op_parent o = Some parent ∧ op_status o ≠ FAILED)) (op_amount o)) (dvalues os).

Definition find_key merchant (key : string) b : option (string * Op) :=
  head (filter (λ kv : string * Op, op_merchant kv.2 = merchant ∧ op_key kv.2 = key) (operations b)).
Definition has_order merchant (order : string) b : bool :=
  existsb (λ o, bool_decide (op_merchant o = merchant ∧ op_kind o = payin ∧ op_order o = Some order)) (dvalues (operations b)).

(** The checks of a body in front of the transaction; [cb_field] is the order, the
    destination or the refunded payment. *)
Definition check_create merchant (k : Kind) (body : CreateBody) : result unit :=
  let* _ := check_identifier merchant in
  let* _ := check_identifier (cb_request_key body) in
  let* _ := money (cb_amount body) in
  raise_if (bool_decide (cb_currency body ≠ "USD")) ValueError (
  match k with
  | payin | refund => check_identifier (cb_field body)
  | payout => raise_if (bool_decide (cb_field body ≠ "test-bank-ok" ∧ cb_field body ≠ "test-bank-decline")) ValueError (Ok ())
  end).

(** The transaction of [create]. *)
Definition create_row merchant (k : Kind) (body : CreateBody) (op : string) now b : result (Books * (string * Op)) :=
  let amount := cb_amount body in
  match find_key merchant (cb_request_key body) b with
  | Some (old, o) =>
      raise_if (bool_decide (op_hash o ≠ digest_request dg k body)) (StatusError 409) (
      let* o := operation old (Some merchant) b in Ok (b, (old, o)))
  | None =>
      raise_if (10000 <=? Z.of_nat (length (operations b))) (StatusError 429) (
      raise_if (bool_decide (k = payin) && has_order merchant (cb_field body) b) (StatusError 409) (
      raise_if (negb (dmem merchant (wallets b))) (StatusError 404) (
      let* _ := (if bool_decide (k = refund) then
                   let* source := operation (cb_field body) (Some merchant) b in
                   raise_if (bool_decide (op_kind source ≠ payin ∨ op_status source ≠ SUCCEEDED)) (StatusError 409) (
                   raise_if (op_amount source <? refunds_of (cb_field body) (operations b) + amount) (StatusError 409) (Ok ()))
                 else Ok ()) in
      raise_if (dmem op (operations b)) IntegrityError (
      let o := mk_op merchant k (match k with payin => Some (cb_field body) | _ => None end) (match k with refund => Some (cb_field body) | _ => None end) amount
                 (match k with payin => "hosted" | payout => cb_field body | refund => "test-refund" end)
                 (cb_request_key body) (digest_request dg k body) CREATED None 0 None now in
      let b := with_operations (dset op o (operations b)) b in
      let* b := match k with
                | payin => Ok b
                | _ => rmap fst (post ("reserve:" +:+ op) op reserve (Available merchant) (Held merchant) amount None now b)
                end in
      let b := enqueue (execute_id op) (Execute op) now b in
      let* o := operation op (Some merchant) b in Ok (b, (op, o))))))
  end.

Definition create merchant (k : Kind) (body : CreateBody) (op : string) (clock : Z) b : result (Books * (string * Op)) :=
  let* _ := check_create merchant k body in
  let* now := timestamp clock in
  create_row merchant k body op now b.

Definition with_receipt (r : Receipt) (o : Op) : Op :=
  mk_op (op_merchant o) (op_kind o) (op_order o) (op_parent o) (op_amount o) (op_destination o) (op_key o) (op_hash o)
    (r_status r) (Some (r_provider r)) (r_revision r) (r_checkout r) (op_created o).
Definition with_op_status (st : Status) (o : Op) : Op :=
  mk_op (op_merchant o) (op_kind o) (op_order o) (op_parent o) (op_amount o) (op_destination o) (op_key o) (op_hash o)
    st (op_provider o) (op_revision o) (op_checkout o) (op_created o).
Definition terminal (st : Status) : bool := bool_decide (st = SUCCEEDED ∨ st = FAILED).

Definition update_job (id : string) (f : Job → Job) b : Books :=
  match dget id (jobs b) with Some j => with_jobs (dset id (f j) (jobs b)) (executions b) b | None => b end.
Definition done_job (j : Job) : Job :=
  mk_job (jb_payload j) finished (jb_attempts j) (jb_failures j) (jb_due j) (jb_lease j) (jb_token j) (jb_error j).

(** The posting of a new status. *)
Definition post_status op (o : Op) (r : Receipt) now b : result Books :=
  let h := Held (op_merchant o) in let a := Available (op_merchant o) in
  match r_status r with
  | SUCCEEDED =>
      let ac := match op_kind o with payin => (Clearing, a) | _ => (h, Clearing) end in
      rmap fst (post ("settle:" +:+ op) op settle ac.1 ac.2 (op_amount o) (Some (r_provider r)) now b)
  | FAILED =>
      match op_kind o with
      | payin => Ok b
      | _ => rmap fst (post ("release:" +:+ op) op release h a (op_amount o) (Some (r_provider r)) now b)
      end
  | _ => Ok b
  end.

(** The last branch of [apply]: a new revision of an unfinished operation. *)
Definition advance op (o : Op) (r : Receipt) now b : result Books :=
  let* b := post_status op o r now b in
  let b := match dget op (operations b) with Some row => with_operations (dset op (with_receipt r row) (operations b)) b | None => b end in
  Ok (if bool_decide (r_status r = PENDING) then b
      else enqueue (notify_id op) (Notify (mk_event ("terminal_" +:+ op) op (op_merchant o) (r_status r) (op_amount o))) now
             (update_job (execute_id op) done_job b)).

Definition same_order (o : Op) (r : Receipt) : bool :=
  bool_decide (op_merchant o = r_merchant r ∧ op_kind o = r_kind r ∧ op_parent o = r_parent r ∧ op_amount o = r_amount r ∧ r_currency r = "USD").
Definition provider_reused op (provider : string) b : bool :=
  existsb (λ kv, bool_decide (op_provider kv.2 = Some provider ∧ kv.1 ≠ op)) (operations b).

Definition reviewed (x : Books * string) : Books * Applied := (x.1, mk_applied false false (Some x.2) None).
Definition ignored (why : string) b : Books * Applied := (b, mk_applied false false None (Some why)).

(** The branches of [apply] on the row of the operation. *)
Definition judge op (o : Op) (r : Receipt) now b : result (Books * Applied) :=
  let conflict reason := Ok (reviewed (review op reason (OfReceipt r) now b)) in
  if negb (same_order o r) || match op_provider o with Some p => bool_decide (p ≠ r_provider r) | None => false end then conflict "RECEIPT_MISMATCH"
  else if provider_reused op (r_provider r) b then conflict "PROVIDER_ID_REUSED"
  else if match dget (op, r_revision r) (versions b) with Some h => bool_decide (h ≠ digest_receipt dg r) | None => false end then conflict "REVISION_CONFLICT"
  else if r_revision r <? op_revision o then Ok (ignored "older revision" b)
  else if terminal (op_status o) then
    if bool_decide (r_status r ≠ op_status o) then conflict "TERMINAL_CONFLICT" else Ok (ignored "already terminal" b)
  else if (r_revision r =? op_revision o) && bool_decide (op_status o ≠ UNKNOWN ∧ op_status o ≠ CREATED) then
    if bool_decide (r_status r ≠ op_status o ∨ r_checkout r ≠ op_checkout o) then conflict "REVISION_CONFLICT" else Ok (ignored "already applied revision" b)
  else let* b := advance op o r now b in Ok (b, mk_applied true false None None).

Definition add_version op (r : Receipt) b : Books :=
  if dmem (op, r_revision r) (versions b) then b else with_versions (dset (op, r_revision r) (digest_receipt dg r) (versions b)) b.

Definition apply (r : Receipt) (event : option string) (clock : Z) b : result (Books * Applied) :=
  let* r := receipt_copy r in
  let* _ := match event with Some e => check_identifier e | None => Ok () end in
  let* now := timestamp clock in
  match (match event with Some e => dget e (inbox b) | None => None end) with
  | Some (hash, old) =>
      raise_if (bool_decide (hash ≠ digest_receipt dg r)) (StatusError 409) (
      Ok (b, mk_applied (ap_applied old) true (ap_review old) (ap_ignored old)))
  | None =>
      let* x :=
        match dget (r_id r) (operations b) with
        | None => Ok (reviewed (review (r_id r) "UNKNOWN_PROVIDER_OPERATION" (OfReceipt r) now b))
        | Some o =>
            let* x := judge (r_id r) o r now b in
            Ok (match ap_review x.2 with None => add_version (r_id r) r x.1 | Some _ => x.1 end, x.2)
        end in
      Ok (match event with Some e => with_inbox (dset e (digest_receipt dg r, x.2) (inbox x.1)) x.1 | None => x.1 end, x.2)
  end.
End books.
