(* ===== verification/PayJobs.v ===== *)
(** * Jobs, checkouts, the audit and the reconciliation of the payment system

    Models jobs.py, checkouts.py and reconciliation.py of
    src/payment-system/src/payment_system, with the views and the audit of ledger.py.  A
    claimed job is a ticket: the identifier, the token and the payload that a worker
    sends back.  A dead lease is one that another claim may take. *)
From Stdlib Require Import Ascii.
From S2P Require Import Prelude PyList PyDict Checks PayBooks.
Local Open Scope Z_scope.

Record Ticket := mk_ticket { t_id : string; t_token : string; t_payload : Payload }.

(** A statement of the provider: its operations and their digest. *)
Record Statement := mk_statement { st_operations : list Receipt; st_snapshot : string }.

Record Order := mk_order { or_merchant : string; or_order : string; or_amount : Z; or_currency : string }.

(** The digests of a statement, of a checkout and of the request of one of its orders. *)
Record JobDigests := mk_job_digests {
  digest_statement : list Receipt → string;
  digest_checkout : string → list Order → string;
  digest_index : string → nat → string;
}.

(** The pattern [[A-Za-z0-9_:-]{1,160}] *)
Definition job_name (s : string) : bool :=
  let n := String.length s in
  (1 <=? n)%nat && (n <=? 160)%nat && forallb (λ c, id_char c || bool_decide (c = ":"%char)) (String.list_ascii_of_string s).
Definition job_identity (t : Ticket) : result (string * string) :=
  raise_if (negb (job_name (t_id t))) ValueError (
  let* _ := check_identifier (t_token t) in Ok (t_id t, t_token t)).

Definition set_lease (status : JobStatus) (failures due : Z) (error : string) (j : Job) : Job :=
  mk_job (jb_payload j) status (jb_attempts j) failures due 0 "" error.
Definition lease_job (lease : Z) (token : string) (j : Job) : Job :=
  mk_job (jb_payload j) inflight (jb_attempts j + 1) (jb_failures j) (jb_due j) lease token (jb_error j).
Definition log_execution (job action detail : string) (now : Z) (b : Books) : Books :=
  with_jobs (jobs b) (executions b ++ [mk_execution job action detail now]) b.
Definition set_run (run : string) (st : RunStatus) (res : option RunResult) (b : Books) : Books :=
  match dget run (runs b) with Some r => with_runs (dset run (mk_run st res (rn_created r)) (runs b)) b | None => b end.

(** What the code relies on of the digits of a random identifier. *)
Definition drawn (id : string) : bool := identifier id && bool_decide (String.length id = 32%nat).

(** ** Jobs *)

Definition ready (now : Z) (j : Job) : bool :=
  bool_decide (jb_status j = pending ∧ jb_due j <= now) || bool_decide (jb_status j = inflight ∧ jb_lease j <= now).
Definition next_job (now : Z) (b : Books) : option (string * Job) :=
  head (sort_by (λ kv : string * Job, (jb_due kv.2, kv.1)) (filter (λ kv, ready now kv.2 = true) (jobs b))).

Definition claim (lease_seconds : Z) (token : string) (clock : Z) (b : Books) : result (Books * option Ticket) :=
  raise_if (negb (integer lease_seconds 1 60)) ValueError (
  let* now := timestamp clock in
  match next_job now b with
  | None => Ok (b, None)
  | Some (id, j) =>
      let b := update_job id (lease_job (now + 1000 * lease_seconds) token) b in
      Ok (log_execution id "claim" token now b, Some (mk_ticket id token (jb_payload j)))
  end).

(** The row of a job that its lease still holds. *)
Definition held_job (t : Ticket) (now : Z) (b : Books) : option Job :=
  match dget (t_id t) (jobs b) with
  | Some j => if bool_decide (jb_token j = t_token t ∧ jb_status j = inflight ∧ now < jb_lease j) then Some j else None
  | None => None
  end.

(** Milliseconds: [0.2] and [min(30, 0.1 * 2 ** min(failures, 8))]. *)
Definition job_delay (pending : bool) (failures : Z) : Z :=
  if pending then 200 else Z.min 30000 (100 * 2 ^ Z.min failures 8).

Definition status_name (st : JobStatus) : string :=
  match st with pending => "pending" | inflight => "inflight" | finished => "done" | dead => "dead" end.

(** An execution that failed leaves its operation in doubt. *)
Definition doubt (p : Payload) (b : Books) : Books :=
  match p with
  | Execute op =>
      match dget op (operations b) with
      | Some o => if terminal (op_status o) then b else with_operations (dset op (with_op_status UNKNOWN o) (operations b)) b
      | None => b
      end
  | _ => b
  end.

Definition subject (id : string) (p : Payload) : string :=
  match p with Execute op => op | Notify e => ev_operation e | Reconcile _ => id end.

(** [str(error)[:300]], of a missing error too. *)
Definition error_text (error : option string) : string := match error with Some e => clip e | None => "None" end.

Section jobs.
Context (dg : Digests) (jd : JobDigests).
Implicit Types b : Books.

(** The fifth failure of a job ends its retries. *)
Definition exhaust (t : Ticket) (j : Job) (error : option string) (now : Z) b : Books :=
  let b := (review dg (subject (t_id t) (jb_payload j)) "RETRY_EXHAUSTED" (OfJob (t_id t) (error_text error)) now b).1 in
  match jb_payload j with
  | Reconcile run => set_run run run_failed (Some (RunError (error_text error))) b
  | _ => b
  end.

Definition finish_job (t : Ticket) (is_pending : bool) (error : option string) (clock : Z) b : result (Books * bool) :=
  let* id_token := job_identity t in
  raise_if (match error with Some e => 1000 <? text_length e | None => false end) ValueError (
  let* now := timestamp clock in
  match held_job t now b with
  | None => Ok (b, false)
  | Some j =>
      let failures := jb_failures j + match error with Some _ => 1 | None => 0 end in
      let status := if is_pending || bool_decide (error ≠ None) then pending else finished in
      let delay := job_delay (is_pending && bool_decide (error = None)) failures in
      let b := match error with Some _ => doubt (jb_payload j) b | None => b end in
      let dies := 5 <=? failures in
      let b := if dies then exhaust t j error now b else b in
      let status := if dies then dead else status in
      let text := match error with Some e => clip e | None => "" end in
      let b := update_job (t_id t) (set_lease status failures (now + delay) text) b in
      Ok (log_execution (t_id t) (status_name status) text now b, true)
  end).

Definition retry (op : string) (clock : Z) b : result Books :=
  let* now := timestamp clock in
  let* o := operation op None b in
  raise_if (terminal (op_status o)) (StatusError 409) (
  Ok (update_job (execute_id op) (λ j, set_lease pending 0 now (jb_error j) j) b)).

Definition retry_job (id : string) (clock : Z) b : result Books :=
  let* now := timestamp clock in
  match dget id (jobs b) with
  | None => Raise (StatusError 404)
  | Some j =>
      raise_if (bool_decide (jb_status j ≠ dead)) (StatusError 409) (
      let b := update_job id (set_lease pending 0 now "") b in
      Ok (match jb_payload j with Reconcile run => set_run run run_pending None b | _ => b end))
  end.

(** ** The audit *)

Definition flow (a : Account) (e : Entry) : Z :=
  zsum (λ l, when (bool_decide (ln_account l = a)) (ln_credit l - ln_debit l)) (en_lines e).
(** The posted total of an account. *)
Definition account_total (a : Account) (es : dict string Entry) : Z := zsum (λ e, when (en_posted e) (flow a e)) (dvalues es).
Definition imbalance (es : dict string Entry) : Z :=
  zsum (λ e, when (en_posted e) (zsum (λ l, ln_debit l - ln_credit l) (en_lines e))) (dvalues es).
Definition liability (ws : dict string Wallet) : Z := zsum (λ w, available w + held w) (dvalues ws).

Definition wallet_errors (es : dict string Entry) (mw : string * Wallet) : list AuditError :=
  (if bool_decide (available mw.2 ≠ account_total (Available mw.1) es) then [WalletMismatch mw.1 false] else []) ++
  (if bool_decide (held mw.2 ≠ account_total (Held mw.1) es) then [WalletMismatch mw.1 true] else []).

Definition audit b : Audit :=
  let es := entries b in
  let cash := - account_total Clearing es in
  mk_audit cash (liability (wallets b))
    (concat (map (wallet_errors es) (wallets b)) ++
     (if bool_decide (imbalance es ≠ 0) || existsb (λ e, negb (en_posted e)) (dvalues es) then [Unbalanced] else []) ++
     (if bool_decide (cash ≠ liability (wallets b)) then [AssetMismatch] else [])).
Definition audit_matches (a : Audit) : bool := match au_errors a with [] => true | _ => false end.

(** ** Views *)

Definition wallet merchant b : result Wallet :=
  match dget merchant (wallets b) with Some w => Ok w | None => Raise (StatusError 404) end.
Definition ledger (merchant : string) b : result (list (string * Entry)) :=
  let mine := filter (λ kv : string * Entry,
    en_posted kv.2 && match dget (en_operation kv.2) (operations b) with Some o => bool_decide (op_merchant o = merchant) | None => false end = true) (entries b) in
  let rows := take 101 (sort_by (λ kv : string * Entry, (en_created kv.2, kv.1)) mine) in
  raise_if (100 <? Z.of_nat (length rows)) (StatusError 422) (Ok rows).

(** The counts of operations, of unfinished and dead jobs, the open reviews and the audit. *)
Definition status b : nat * nat * nat * list (string * Review) * Audit :=
  (length (operations b),
   length (filter (λ kv : string * Job, jb_status kv.2 = pending ∨ jb_status kv.2 = inflight) (jobs b)),
   length (filter (λ kv : string * Job, jb_status kv.2 = dead) (jobs b)),
   take 100 (sort_by (λ kv : string * Review, rv_created kv.2) (filter (λ kv : string * Review, rv_state kv.2 = "open") (reviews b))),
   audit b).
Definition reconciliation (id : string) b : result Run :=
  match dget id (runs b) with Some r => Ok r | None => Raise (StatusError 404) end.

(** ** Reconciliation *)

Definition schedule_reconcile (run : string) (clock : Z) b : result Books :=
  let* now := timestamp clock in
  raise_if (dmem run (runs b)) IntegrityError (
  let b := with_runs (dset run (mk_run run_pending None now) (runs b)) b in
  Ok (enqueue (reconcile_id run) (Reconcile run) now b)).

Definition statement_copy (s : Statement) : result Statement :=
  raise_if (10000 <? Z.of_nat (length (st_operations s))) ValueError (
  raise_if (bool_decide (digest_statement jd (st_operations s) ≠ st_snapshot s)) (StatusError 409) (
  let* rows := mapR (receipt_copy dg) (st_operations s) in
  raise_if (negb (bool_decide (NoDup (map r_id rows) ∧ NoDup (map r_provider rows)))) (StatusError 409) (
  Ok (mk_statement rows (st_snapshot s))))).

Definition settled op b : bool :=
  existsb (λ e, bool_decide (en_operation e = op ∧ en_kind e = settle ∧ en_posted e = true)) (dvalues (entries b)).

(** What is wrong with an operation, given its row in the statement. *)
Definition mismatch op (o : Op) (r : option Receipt) b : option string :=
  let reason :=
    match r with
    | None => if bool_decide (op_status o = SUCCEEDED) then Some "MISSING_PROVIDER_TRANSACTION" else None
    | Some r =>
        if negb (same_order o r) then Some "STATEMENT_AMOUNT_OR_IDENTITY_MISMATCH"
        else if bool_decide (op_status o ≠ r_status r) then Some "PROVIDER_AHEAD_OR_STATUS_MISMATCH"
        else if match op_provider o with Some p => bool_decide (p ≠ r_provider r) | None => false end then Some "PROVIDER_ID_MISMATCH"
        else None
    end in
  if negb (Bool.eqb (settled op b) (bool_decide (op_status o = SUCCEEDED))) then Some "OPERATION_LEDGER_MISMATCH" else reason.

Definition report op (reason : string) (d : Detail) (now : Z) (x : Books * list Difference) : Books * list Difference :=
  let y := review dg op reason d now x.1 in
  (y.1, x.2 ++ [mk_difference (Some op) reason y.2]).

(** One operation, with the receipts that no operation has taken. *)
Definition reconcile_operation (now : Z) (x : Books * list Difference * dict string Receipt) (kv : string * Op) :=
  let r := dget kv.1 x.2 in
  let left_ := ddel kv.1 x.2 in
  match mismatch kv.1 kv.2 r x.1.1 with
  | Some reason => (report kv.1 reason (OfStatement (op_status kv.2) r) now x.1, left_)
  | None => (x.1, left_)
  end.

Definition audit_reason (e : AuditError) : string :=
  match e with WalletMismatch _ _ => "WALLET_LEDGER_MISMATCH" | Unbalanced => "UNBALANCED_OR_UNPOSTED_LEDGER" | AssetMismatch => "ASSET_LIABILITY_MISMATCH" end.

Definition orphan (now : Z) (x : Books * list Difference) (kv : string * Receipt) :=
  report kv.1 "ORPHAN_PROVIDER_OPERATION" (OfReceipt kv.2) now x.
Definition audit_difference (now : Z) (x : Books * list Difference) (e : AuditError) :=
  let y := review dg "internal" (audit_reason e) (OfAudit e) now x.1 in
  (y.1, x.2 ++ [mk_difference None (audit_reason e) y.2]).

(** The comparison of the tables with a statement. *)
Definition compare (rows : list Receipt) (now : Z) b : Books * list Difference * Audit :=
  let provider := foldl (λ d r, dset (r_id r) r d) [] rows in
  let '(b, ds, rest) := foldl (reconcile_operation now) (b, [], provider) (sort_by fst (operations b)) in
  let x := foldl (orphan now) (b, ds) rest in
  let a := audit x.1 in
  (foldl (audit_difference now) x (au_errors a), a).

Definition owns_run (t : Ticket) (run : string) (now : Z) b : bool :=
  match held_job t now b with
  | Some j => match jb_payload j with Reconcile r => bool_decide (r = run) | _ => false end
  | None => false
  end.

Definition reconcile (run : string) (s : Statement) (job : option Ticket) (clock : Z) b : result (Books * RunResult) :=
  let* _ := check_identifier run in
  let* s := statement_copy s in
  let* now := timestamp clock in
  match dget run (runs b) with
  | None => Raise (StatusError 404)
  | Some r =>
      match rn_status r, rn_result r with
      | run_done, Some res => Ok (b, res)
      | run_done, None => Raise TypeError
      | _, _ =>
          let* _ := match job with
                    | Some t => let* _ := job_identity t in raise_if (negb (owns_run t run now b)) (StatusError 409) (Ok ())
                    | None => Ok ()
                    end in
          let '(b, ds, a) := compare (st_operations s) now b in
          let res := Matched ds a (st_snapshot s) in
          Ok (set_run run run_done (Some res) b, res)
      end
  end.

(** ** Checkouts *)

Definition check_order (seen : list (string * string)) (o : Order) : result (list (string * string)) :=
  let* _ := check_identifier (or_merchant o) in
  let* _ := check_identifier (or_order o) in
  let* _ := money (or_amount o) in
  raise_if (bool_decide (or_currency o ≠ "USD" ∨ (or_merchant o, or_order o) ∈ seen)) ValueError (
  Ok ((or_merchant o, or_order o) :: seen)).
Definition check_checkout (id : string) (orders : list Order) : result unit :=
  let* _ := check_identifier id in
  raise_if (negb (integer (Z.of_nat (length orders)) 1 20)) ValueError (
  rmap (λ _, ()) (foldl (λ acc o, let* seen := acc in check_order seen o) (Ok []) orders)).

Definition checkout_body (id : string) (index : nat) (o : Order) : CreateBody :=
  mk_create ("checkout_" +:+ digest_index jd id index) (or_amount o) (or_currency o) (or_order o).

(** The pay-ins of the orders from [index] on; [fresh_id index] is the random identifier
    drawn for an order. *)
Fixpoint create_orders (id : string) (index : nat) (orders : list Order) (fresh_id : nat → string) (now : Z) b : result (Books * list string) :=
  match orders with
  | [] => Ok (b, [])
  | o :: orders =>
      let body := checkout_body id index o in
      let* _ := check_create (or_merchant o) payin body in
      let* x := create_row dg (or_merchant o) payin body (fresh_id index) now b in
      let* y := create_orders id (S index) orders fresh_id now x.1 in
      Ok (y.1, x.2.1 :: y.2)
  end.

Definition create_checkout (id : string) (orders : list Order) (fresh_id : nat → string) (clock : Z) b : result (Books * list (string * Op)) :=
  let* _ := check_checkout id orders in
  let* now := timestamp clock in
  let* x := match dget id (checkouts b) with
            | Some (hash, ids, _) => raise_if (bool_decide (hash ≠ digest_checkout jd id orders)) (StatusError 409) (Ok (b, ids))
            | None =>
                let* x := create_orders id 0 orders fresh_id now b in
                Ok (with_checkouts (dset id (digest_checkout jd id orders, x.2, now) (checkouts x.1)) x.1, x.2)
            end in
  let* ops := mapR (λ op, let* o := operation op None x.1 in Ok (op, o)) x.2 in
  Ok (x.1, ops).

Definition checkout (id : string) b : result (list (string * Op)) :=
  let* _ := check_identifier id in
  match dget id (checkouts b) with
  | Some (_, ids, _) => mapR (λ op, let* o := operation op None b in Ok (op, o)) ids
  | None => Raise (StatusError 404)
  end.
End jobs.
