(* ===== verification/PayProvider.v ===== *)
(** * The simulated provider, its callbacks, the receiver and the worker of payments

    Models provider.py, provider_delivery.py, receiver.py and the work of worker.py of
    src/payment-system/src/payment_system.  A call is lost on its way, answered, or carried
    out with its answer lost; whatever is not an answer raises in the caller, and every
    call reads its clock when it is served.  The world is the tables of the books, of the
    provider and of the receiver, with the jobs that workers ever claimed and the receipts
    that the provider ever sent. *)
From stdpp Require Import pretty.
From S2P Require Import Prelude PyList PyDict Checks Effects PayBooks PayJobs.
Local Open Scope Z_scope.

(** What is asked of the provider. *)
Record Intent := mk_intent {
  in_id : string; in_merchant : string; in_kind : Kind; in_parent : option string; in_amount : Z; in_currency : string; in_destination : string;
}.
(** A row of the provider: the columns that make its receipt, and the others. *)
Record Row := mk_row { row_hash : string; row_receipt : Receipt; row_token : string; row_expires : Z }.
Record Hook := mk_hook {
  hk_payload : Receipt; hk_status : JobStatus; hk_attempts : Z; hk_due : Z; hk_error : string; hk_lease : Z; hk_token : string;
}.
Record Control := mk_control { lose_response : bool; webhooks_down : bool; query_down : bool; statement_delta : Z }.
Record PSP := mk_psp { rows : dict string Row; hooks : dict string Hook; control : Control }.
Definition psp_empty : PSP := mk_psp [] [] (mk_control false false false 0).
Definition set_row id r (p : PSP) : PSP := mk_psp (dset id r (rows p)) (hooks p) (control p).
Definition set_hook e h (p : PSP) : PSP := mk_psp (rows p) (dset e h (hooks p)) (control p).

Definition intent_of op (o : Op) : Intent := mk_intent op (op_merchant o) (op_kind o) (op_parent o) (op_amount o) "USD" (op_destination o).

Definition set_control (body : Control) (p : PSP) : result PSP :=
  raise_if (1000000 <? Z.abs (statement_delta body)) ValueError (Ok (mk_psp (rows p) (hooks p) body)).

(** ** The provider *)

Section provider.
Context (dg : Digests) (jd : JobDigests) (digest_intent : Intent → string) (provider_url : string).
Implicit Types p : PSP.

Definition event_id (r : Receipt) : string := "event_" +:+ r_id r +:+ "_" +:+ pretty (r_revision r).
Definition queue_event (r : Row) (now : Z) p : PSP :=
  let e := event_id (row_receipt r) in
  if dmem e (hooks p) then p else set_hook e (mk_hook (row_receipt r) pending 0 now "" 0 "") p.

Definition allowed (k : Kind) (destination : string) : bool :=
  match k with
  | payin => bool_decide (destination = "hosted")
  | payout => bool_decide (destination = "test-bank-ok" ∨ destination = "test-bank-decline")
  | refund => bool_decide (destination = "test-refund")
  end.
Definition check_intent (i : Intent) : result unit :=
  let* _ := check_identifier (in_id i) in
  let* _ := check_identifier (in_merchant i) in
  let* _ := money (in_amount i) in
  raise_if (bool_decide (in_currency i ≠ "USD")) ValueError (
  raise_if (negb (allowed (in_kind i) (in_destination i))) ValueError (
  match in_kind i, in_parent i with
  | refund, Some parent => check_identifier parent
  | refund, None => Raise ValueError
  | _, Some _ => Raise ValueError
  | _, None => Ok ()
  end)).

(** What the successful refunds of a charge sum to. *)
Definition refunded (parent : string) p : Z :=
  zsum (λ r, when (bool_decide (r_parent (row_receipt r) = Some parent ∧ r_status (row_receipt r) = SUCCEEDED)) (r_amount (row_receipt r))) (dvalues (rows p)).
Definition refundable (i : Intent) (parent : string) p : bool :=
  match dget parent (rows p) with
  | Some r =>
      let r := row_receipt r in
      bool_decide (r_kind r = payin ∧ r_status r = SUCCEEDED ∧ r_merchant r = in_merchant i) && (refunded parent p + in_amount i <=? r_amount r)
  | None => false
  end.

Definition new_row (i : Intent) (provider token : string) (now : Z) : Row :=
  mk_row (digest_intent i)
    (mk_receipt (in_id i) (in_merchant i) (in_kind i) (in_parent i) (in_amount i) "USD" provider
       (match in_kind i with payin => PENDING | _ => if bool_decide (in_destination i = "test-bank-decline") then FAILED else SUCCEEDED end) 1
       (match in_kind i with payin => Some (provider_url +:+ "/checkout/" +:+ token) | _ => None end))
    token (now + 600000).

(** The transaction of [create]; [provider] and [token] are its random identifiers. *)
Definition create_commit (i : Intent) (provider token : string) (clock : Z) p : result (PSP * Receipt) :=
  let* _ := check_intent i in
  let* now := timestamp clock in
  match dget (in_id i) (rows p) with
  | Some old => raise_if (bool_decide (row_hash old ≠ digest_intent i)) (StatusError 409) (Ok (p, row_receipt old))
  | None =>
      raise_if (10000 <=? Z.of_nat (length (rows p))) (StatusError 429) (
      raise_if (match in_kind i, in_parent i with refund, Some parent => negb (refundable i parent p) | _, _ => false end) (StatusError 409) (
      raise_if (existsb (λ r, bool_decide (row_token r = token)) (dvalues (rows p))) IntegrityError (
      let r := new_row i provider token now in
      Ok (queue_event r now (set_row (in_id i) r p), row_receipt r))))
  end.

(** The answer may be lost once the transaction is committed. *)
Definition create (i : Intent) (provider token : string) (clock : Z) : M PSP Receipt := λ p,
  match create_commit i provider token clock p with
  | Ok (p', r) => (p', if lose_response (control p) then Raise (StatusError 503) else Ok r)
  | Raise e => (p, Raise e)
  end.

Definition set_outcome (st : Status) (r : Receipt) : Receipt :=
  mk_receipt (r_id r) (r_merchant r) (r_kind r) (r_parent r) (r_amount r) (r_currency r) (r_provider r) st (r_revision r + 1) (r_checkout r).
Definition settle_row (st : Status) (r : Row) : Row := mk_row (row_hash r) (set_outcome st (row_receipt r)) (row_token r) (row_expires r).

(** The next revision of a row, with its event. *)
Definition decide_row id (st : Status) (r : Row) (now : Z) p : PSP * Row :=
  let r := settle_row st r in (queue_event r now (set_row id r p), r).
Definition expire id (r : Row) (now : Z) p : PSP * Row :=
  if bool_decide (r_status (row_receipt r) = PENDING) && (row_expires r <=? now) then decide_row id FAILED r now p else (p, r).

Definition get (id : string) (clock : Z) p : result (PSP * Receipt) :=
  let* _ := check_identifier id in
  raise_if (query_down (control p)) (StatusError 503) (
  let* now := timestamp clock in
  match dget id (rows p) with
  | None => Raise (StatusError 404)
  | Some r => let x := expire id r now p in Ok (x.1, row_receipt x.2)
  end).

Definition find_token (token : string) p : option (string * Row) :=
  head (filter (λ kv : string * Row, row_token kv.2 = token ∧ r_kind (row_receipt kv.2) = payin) (rows p)).

(** A choice of the buyer. *)
Definition choose id (choice : string) (r : Row) (now : Z) p : result (PSP * Row) :=
  raise_if (bool_decide (choice ≠ "test-success" ∧ choice ≠ "test-decline")) ValueError (
  if bool_decide (r_status (row_receipt r) = PENDING) then
    Ok (decide_row id (if bool_decide (choice = "test-success") && (now <? row_expires r) then SUCCEEDED else FAILED) r now p)
  else Ok (p, r)).

Definition checkout_commit (token : string) (choice : option string) (clock : Z) p : result (PSP * Receipt) :=
  let* _ := check_identifier token in
  let* now := timestamp clock in
  match find_token token p with
  | None => Raise (StatusError 404)
  | Some (id, r) =>
      let x := expire id r now p in
      let* x := match choice with Some c => choose id c x.2 now x.1 | None => Ok x end in
      Ok (x.1, row_receipt x.2)
  end.
Definition checkout (token : string) (choice : option string) (clock : Z) : M PSP Receipt := λ p,
  match checkout_commit token choice clock p with
  | Ok (p', r) => (p', if bool_decide (choice ≠ None) && lose_response (control p) then Raise (StatusError 503) else Ok r)
  | Raise e => (p, Raise e)
  end.

Definition add_amount (d : Z) (r : Receipt) : Receipt :=
  mk_receipt (r_id r) (r_merchant r) (r_kind r) (r_parent r) (r_amount r + d) (r_currency r) (r_provider r) (r_status r) (r_revision r) (r_checkout r).
(** The simulated error of a statement: the amount of its first successful row. *)
Fixpoint skew (d : Z) (l : list Receipt) : list Receipt :=
  match l with
  | [] => []
  | r :: l => if bool_decide (r_status r = SUCCEEDED) then add_amount d r :: l else r :: skew d l
  end.
Definition statements p : Statement :=
  let l := map (λ kv, row_receipt kv.2) (sort_by fst (rows p)) in
  let l := if bool_decide (statement_delta (control p) = 0) then l else skew (statement_delta (control p)) l in
  mk_statement l (digest_statement jd l).

Definition psp_status p : nat * nat * nat :=
  (length (rows p), length (filter (λ kv : string * Row, r_status (row_receipt kv.2) = SUCCEEDED) (rows p)),
   length (filter (λ kv : string * Hook, hk_status kv.2 ≠ finished) (hooks p))).

(** ** Callbacks *)

Definition ready_hook (now : Z) (h : Hook) : bool :=
  bool_decide (hk_status h = pending ∧ hk_due h <= now) || bool_decide (hk_status h = inflight ∧ hk_lease h <= now).
Definition next_hook (now : Z) p : option (string * Hook) :=
  head (sort_by (λ kv : string * Hook, (hk_due kv.2, kv.1)) (filter (λ kv, ready_hook now kv.2 = true) (hooks p))).

(** The first transaction of [dispatch_once], and the row it read. *)
Definition claim_hook (token : string) (clock : Z) p : result (PSP * option (string * Hook)) :=
  let* now := timestamp clock in
  if webhooks_down (control p) then Ok (p, None)
  else match next_hook now p with
       | None => Ok (p, None)
       | Some (e, h) =>
           Ok (set_hook e (mk_hook (hk_payload h) inflight (hk_attempts h + 1) (hk_due h) (hk_error h) (now + 15000) token) p, Some (e, h))
       end.
(** Its last transaction, on the row that the lease still holds. *)
Definition finish_hook (e : string) (h : Hook) (token : string) (error : option string) (clock : Z) p : result PSP :=
  let* now := timestamp clock in
  match dget e (hooks p) with
  | Some x =>
      if bool_decide (hk_status x = inflight ∧ hk_token x = token ∧ now < hk_lease x) then
        Ok (match error with
            | None => set_hook e (mk_hook (hk_payload x) finished (hk_attempts x) (hk_due x) "" 0 "") p
            | Some m => set_hook e (mk_hook (hk_payload x) pending (hk_attempts x) (now + job_delay false (hk_attempts h)) m 0 "") p
            end)
      else Ok p
  | None => Ok p
  end.
End provider.

(** ** The receiver of terminal events *)

Record Received := mk_received { re_hash : string; re_event : Event; re_attempts : Z }.
Record Receiver := mk_receiver { received : dict string Received; lose_ack : bool }.
Definition receiver_empty : Receiver := mk_receiver [] false.

Section receiver.
Context (digest_event : Event → string).

Definition check_event (e : Event) : result unit :=
  let* _ := check_identifier (ev_id e) in
  let* _ := check_identifier (ev_operation e) in
  let* _ := check_identifier (ev_merchant e) in
  let* _ := money (ev_amount e) in
  raise_if (negb (terminal (ev_status e))) ValueError (Ok ()).
Definition receive_commit (e : Event) (v : Receiver) : result (Receiver * string) :=
  let* _ := check_event e in
  let* r := match dget (ev_id e) (received v) with
            | Some old =>
                raise_if (bool_decide (re_hash old ≠ digest_event e)) (StatusError 409) (Ok (mk_received (re_hash old) (re_event old) (re_attempts old + 1)))
            | None => Ok (mk_received (digest_event e) e 1)
            end in
  Ok (mk_receiver (dset (ev_id e) r (received v)) (lose_ack v), ev_id e).
Definition receive (e : Event) : M Receiver string := λ v,
  match receive_commit e v with
  | Ok (v', x) => (v', if lose_ack v then Raise (StatusError 503) else Ok x)
  | Raise x => (v, Raise x)
  end.
Definition receiver_control (lose : bool) (v : Receiver) : Receiver := mk_receiver (received v) lose.
Definition receiver_status (v : Receiver) : nat * Z := (length (received v), zsum re_attempts (dvalues (received v))).
End receiver.
