(* ===== verification/PayWork.v ===== *)
(** * The worker of payments and the world of its calls

    Models work_once of worker.py and dispatch_once of provider_delivery.py in
    src/payment-system/src/payment_system, call by call.  The world is the tables of the
    books, of the provider and of the receiver, with the jobs that workers ever claimed
    and the receipts that the provider ever sent. *)
From Stdlib Require Import Ascii.
From S2P Require Import Prelude PyList PyDict Checks Effects PayBooks PayJobs PayProvider.
Local Open Scope Z_scope.

Record World := mk_world { w_books : Books; w_psp : PSP; w_receiver : Receiver; w_tickets : list Ticket; w_sent : list Receipt }.
Definition on_books b (w : World) : World := mk_world b (w_psp w) (w_receiver w) (w_tickets w) (w_sent w).
Definition on_psp p (w : World) : World := mk_world (w_books w) p (w_receiver w) (w_tickets w) (w_sent w).
Definition on_receiver v (w : World) : World := mk_world (w_books w) (w_psp w) v (w_tickets w) (w_sent w).
Definition got_ticket t (w : World) : World := mk_world (w_books w) (w_psp w) (w_receiver w) (t :: w_tickets w) (w_sent w).
Definition sends r (w : World) : World := mk_world (w_books w) (w_psp w) (w_receiver w) (w_tickets w) (r :: w_sent w).

Inductive Delivery := answered | unanswered | lost.
Definition reply {A} (f : Delivery) (x : result A) : result A := match f with answered => x | _ => Raise OSError end.

(** A call to the books: an operation that raises has changed nothing. *)
Definition call {A} (f : Delivery) (op : Books → result (Books * A)) : M World A := λ w,
  match f with
  | lost => (w, Raise OSError)
  | _ => match op (w_books w) with
         | Ok (b, a) => (on_books b w, reply f (Ok a))
         | Raise e => (w, reply f (Raise e))
         end
  end.
Definition read {A} (f : Delivery) (op : Books → result A) : M World A :=
  call f (λ b, let* a := op b in Ok (b, a)).

(** A call to the provider for a receipt. *)
Definition ask (f : Delivery) (op : M PSP Receipt) : M World Receipt := λ w,
  match f with
  | lost => (w, Raise OSError)
  | _ => match op (w_psp w) with
         | (p, Ok r) => (sends r (on_psp p w), reply f (Ok r))
         | (p, Raise e) => (on_psp p w, reply f (Raise e))
         end
  end.
Definition tell {A} (f : Delivery) (op : M Receiver A) : M World A := λ w,
  match f with
  | lost => (w, Raise OSError)
  | _ => let x := op (w_receiver w) in (on_receiver x.1 w, reply f x.2)
  end.

(** What befalls the calls of one round, the clocks at which they are served, the random
    identifiers drawn in it and the text of an exception. *)
Record Round := mk_round {
  f_claim : Delivery; f_read : Delivery; f_query : Delivery; f_create : Delivery; f_apply : Delivery; f_finish : Delivery; f_report : Delivery;
  k_claim : Z; k_query : Z; k_create : Z; k_apply : Z; k_finish : Z; k_report : Z;
  k_token : string; k_provider : string; k_checkout : string; k_error : string;
}.

Section worker.
Context (dg : Digests) (jd : JobDigests) (digest_intent : Intent → string) (digest_event : Event → string) (provider_url : string).
Implicit Types w : World.

(** [/internal/claim] *)
Definition LEASE_SECONDS : Z := 30.

Definition same_intent op (o : Op) (r : Receipt) : bool := bool_decide (r_id r = op) && same_order o r.

(** [MockHTTPProvider.query] and [MockHTTPProvider.create] *)
Definition query (k : Round) op : M World Receipt :=
  do* _ := mlift (check_identifier op) in
  do* r := ask (f_query k) (λ p, match get op (k_query k) p with Ok (p, r) => (p, Ok r) | Raise e => (p, Raise e) end) in
  mlift (receipt_copy dg r).
Definition submit (k : Round) op (o : Op) : M World Receipt :=
  do* r := ask (f_create k) (create digest_intent provider_url (intent_of op o) (k_provider k) (k_checkout k) (k_create k)) in
  mlift (receipt_copy dg r).
Definition query_or_submit (k : Round) op (o : Op) : M World Receipt := λ w,
  match query k op w with
  | (w, Raise e) => if bool_decide (e = StatusError 404) then submit k op o w else (w, Raise e)
  | x => x
  end.

Definition finish (k : Round) (t : Ticket) (is_pending : bool) : M World bool :=
  do* _ := call (f_finish k) (finish_job dg t is_pending None (k_finish k)) in mret true.

Definition run_execute (k : Round) (t : Ticket) op : M World bool :=
  do* o := read (f_read k) (operation op None) in
  if terminal (op_status o) then finish k t false
  else
    do* r := query_or_submit k op o in
    if negb (same_intent op o r) then mraise ValueError
    else
      do* applied := call (f_apply k) (apply dg r None (k_apply k)) in
      if bool_decide (ap_review applied = None) then finish k t (bool_decide (r_status r = PENDING)) else mraise ValueError.

Definition run_notify (k : Round) (t : Ticket) (e : Event) : M World bool :=
  do* x := tell (f_create k) (receive digest_event e) in
  if bool_decide (x = ev_id e) then finish k t false else mraise ValueError.

Definition run_reconcile (k : Round) (t : Ticket) (run : string) : M World bool := λ w,
  match f_query k with
  | answered =>
      (do* _ := call (f_apply k) (reconcile dg jd run (statements jd (w_psp w)) (Some t) (k_apply k)) in finish k t false) w
  | _ => (w, Raise OSError)
  end.

Definition run_job (k : Round) (t : Ticket) : M World bool :=
  match t_payload t with
  | Execute op => run_execute k t op
  | Notify e => run_notify k t e
  | Reconcile run => run_reconcile k t run
  end.

(** [str(exc)[:1000]] *)
Definition report_text (message : string) : string := String.string_of_list_ascii (take_chars 1000 (String.list_ascii_of_string message)).

Definition work_once (k : Round) : M World bool := λ w,
  match call (f_claim k) (claim LEASE_SECONDS (k_token k) (k_claim k)) w with
  | (w, Raise _) | (w, Ok None) => (w, Ok false)
  | (w, Ok (Some t)) =>
      match run_job k t (got_ticket t w) with
      | (w, Raise _) => ((call (f_report k) (finish_job dg t false (Some (report_text (k_error k))) (k_report k)) w).1, Ok true)
      | x => x
      end
  end.

(** [dispatch_once]: the delivery of one callback to the books. *)
Definition dispatch_once (k : Round) : M World bool := λ w,
  match claim_hook (k_token k) (k_claim k) (w_psp w) with
  | Raise e => (w, Raise e)
  | Ok (p, None) => (w, Ok false)
  | Ok (p, Some (e, h)) =>
      let x := call (f_apply k) (apply dg (hk_payload h) (Some e) (k_apply k)) (on_psp p w) in
      let error := match x.2 with Ok _ => None | Raise _ => Some (clip (k_error k)) end in
      match finish_hook e h (k_token k) error (k_finish k) (w_psp x.1) with
      | Ok p => (on_psp p x.1, Ok true)
      | Raise e => (x.1, Raise e)
      end
  end.

(** ** Moves *)

(** The requests of merchants and operators. *)
Inductive Request :=
| Create (merchant : string) (k : Kind) (body : CreateBody) (op : string)
| CreateCheckout (id : string) (orders : list Order) (fresh_id : nat → string)
| Retry (op : string)
| RetryJob (id : string)
| ScheduleReconcile (run : string).

Definition serve (r : Request) (clock : Z) (b : Books) : result Books :=
  match r with
  | Create merchant k body op => rmap fst (PayBooks.create dg merchant k body op clock b)
  | CreateCheckout id orders fresh_id => rmap fst (create_checkout dg jd id orders fresh_id clock b)
  | Retry op => retry op clock b
  | RetryJob id => retry_job id clock b
  | ScheduleReconcile run => schedule_reconcile run clock b
  end.
(** The identifiers drawn for a request are like those of [uuid4().hex]. *)
Definition drawn_ok (r : Request) : Prop :=
  match r with
  | Create _ _ _ op => drawn op = true
  | CreateCheckout _ _ fresh_id => ∀ i, drawn (fresh_id i) = true
  | _ => True
  end.

(** The steps of the books alone, with receipts from anyone. *)
Inductive books_step : Books → Books → Prop :=
| step_serve b r clock b' : drawn_ok r → serve r clock b = Ok b' → books_step b b'
| step_apply b r event clock b' a : apply dg r event clock b = Ok (b', a) → books_step b b'
| step_claim b lease token clock b' t : claim lease token clock b = Ok (b', t) → books_step b b'
| step_finish b t is_pending error clock b' x : finish_job dg t is_pending error clock b = Ok (b', x) → books_step b b'
| step_reconcile b run s job clock b' x : reconcile dg jd run s job clock b = Ok (b', x) → books_step b b'.

(** A charge that the provider has not used. *)
Definition charge_fresh (provider token : string) (p : PSP) : Prop :=
  identifier provider = true ∧ identifier token = true ∧ ∀ id r, dget id (rows p) = Some r → r_provider (row_receipt r) ≠ provider.

(** Requests, the calls of any number of workers and the callbacks, in any order: a call
    may come at any later time, any number of times, and its answer may be lost. *)
Inductive move : World → World → Prop :=
| move_serve w r clock b : drawn_ok r → serve r clock (w_books w) = Ok b → move w (on_books b w)
| move_claim w lease token clock b t : claim lease token clock (w_books w) = Ok (b, t) → move w (on_books b w)
| move_claimed w lease token clock b t : claim lease token clock (w_books w) = Ok (b, Some t) → move w (got_ticket t (on_books b w))
| move_finish w t is_pending error clock b x :
    t ∈ w_tickets w → finish_job dg t is_pending error clock (w_books w) = Ok (b, x) → move w (on_books b w)
| move_reconcile w run s job clock b x : reconcile dg jd run s job clock (w_books w) = Ok (b, x) → move w (on_books b w)
| move_apply w r clock b a : r ∈ w_sent w → apply dg r None clock (w_books w) = Ok (b, a) → move w (on_books b w)
| move_callback w e h clock b a :
    dget e (hooks (w_psp w)) = Some h → apply dg (hk_payload h) (Some e) clock (w_books w) = Ok (b, a) → move w (on_books b w)
| move_submit w op o provider token clock p r :
    dget op (operations (w_books w)) = Some o → charge_fresh provider token (w_psp w) →
    create_commit digest_intent provider_url (intent_of op o) provider token clock (w_psp w) = Ok (p, r) → move w (on_psp p w)
| move_submitted w op o provider token clock p r :
    dget op (operations (w_books w)) = Some o → charge_fresh provider token (w_psp w) →
    create_commit digest_intent provider_url (intent_of op o) provider token clock (w_psp w) = Ok (p, r) → move w (sends r (on_psp p w))
| move_get w id clock p r : get id clock (w_psp w) = Ok (p, r) → move w (sends r (on_psp p w))
| move_choose w token choice clock p r : checkout_commit token choice clock (w_psp w) = Ok (p, r) → move w (on_psp p w)
| move_control w body p : set_control body (w_psp w) = Ok p → move w (on_psp p w)
| move_claim_hook w token clock p x : claim_hook token clock (w_psp w) = Ok (p, x) → move w (on_psp p w)
| move_finish_hook w e h token error clock p : finish_hook e h token error clock (w_psp w) = Ok p → move w (on_psp p w)
| move_receive w t e v x :
    t ∈ w_tickets w → t_payload t = Notify e → receive_commit digest_event e (w_receiver w) = Ok (v, x) → move w (on_receiver v w)
| move_lose_ack w b : move w (on_receiver (receiver_control b (w_receiver w)) w).

Definition world_start (b : Books) : World := mk_world b psp_empty receiver_empty [] [].
(** What is reached from the empty tables of some merchants. *)
Definition books_reachable (b : Books) : Prop := ∃ ms b0, new_books ms = Ok b0 ∧ rtc books_step b0 b.
Definition reachable (w : World) : Prop := ∃ ms b0, new_books ms = Ok b0 ∧ rtc move (world_start b0) w.
End worker.
