(* ===== verification/PayInv.v ===== *)
(** * The invariant of the payment books

    First the wallets and the ledger, which the audit of PayJobs.v checks: every wallet is
    the total of its accounts in the posted ledger, nothing is negative, and the clearing
    account owes what the merchants hold.  Then the operations: which postings each has,
    what the held balances are for, and how far refunds go.  The writes that matter are a
    new operation, a new status of an unfinished one, and nothing else. *)
From S2P Require Import Prelude PyList PyDict Checks PayBooks PayJobs PayProvider.
Local Open Scope Z_scope.

(** ** Wallets *)

Definition credited (f : Account → Z) (a : Account) (d : Z) (x : Account) : Z := f x + when (bool_decide (a = x)) d.

(** The wallets hold the balances [f]; [c] is what clearing and the wallets sum to. *)
Record wallets_ok (ws : dict string Wallet) (f : Account → Z) (c : Z) : Prop := mk_wallets_ok {
  wk_dict : dict_ok ws;
  wk_get : ∀ m w, dget m ws = Some w → (available w = f (Available m) ∧ 0 <= available w) ∧ held w = f (Held m) ∧ 0 <= held w;
  wk_sum : liability ws + f Clearing = c;
}.

Lemma wallets_ok_ext ws f g c : wallets_ok ws f c → (∀ a, f a = g a) → wallets_ok ws g c.
Proof. intros [H1 H2 H3] E. split; [done|intros m w; rewrite <- !E; apply H2|by rewrite <- E]. Qed.

(** The merchant of an account. *)
Definition merchant_of (a : Account) : option string :=
  match a with Clearing => None | Available m | Held m => Some m end.
Definition has_wallet (a : Account) (ws : dict string Wallet) : Prop :=
  ∀ m, merchant_of a = Some m → dmem m ws = true.

Lemma liability_dset m w w' ws : dget m ws = Some w → liability (dset m w' ws) = liability ws - (available w + held w) + (available w' + held w').
Proof. intros Hm. unfold liability. by rewrite (zsum_dset _ m w). Qed.

Lemma credited_eq f a d : credited f a d a = f a + d.
Proof. unfold credited. by rewrite bool_decide_eq_true_2. Qed.
Lemma credited_ne f a d x : a ≠ x → credited f a d x = f x.
Proof. intros Hne. unfold credited. rewrite bool_decide_eq_false_2 by done. simpl. lia. Qed.

(** A new balance of one merchant. *)
Lemma wallets_ok_set ws f g c d m w w' :
  wallets_ok ws f c → dget m ws = Some w → (∀ m', m' ≠ m → g (Available m') = f (Available m') ∧ g (Held m') = f (Held m')) →
  (available w' = g (Available m) ∧ 0 <= available w') ∧ held w' = g (Held m) ∧ 0 <= held w' →
  available w' + held w' = available w + held w + d → g Clearing = f Clearing → wallets_ok (dset m w' ws) g (c + d).
Proof.
  intros [Hd Hg Hs] E Hother Hw Hsum Hclear. split; [by apply dset_ok| |rewrite (liability_dset m w) by done; lia].
  intros m' x. rewrite dget_dset. case_decide as Hm; [intros [= <-]; by subst|].
  intros Hx. destruct (Hother m' ltac:(done)) as [-> ->]. by apply Hg.
Qed.

Lemma move_wallet_ok a d ws ws' f c :
  move_wallet a d ws = Ok ws' → wallets_ok ws f c → wallets_ok ws' (credited f a d) (c + d) ∧ dkeys ws' = dkeys ws.
Proof.
  intros H Hok. pose proof Hok as [Hd Hg Hs]. destruct a as [|m|m]; simpl in H.
  - injection H as <-. split; [|done]. split; [done|intros m w; rewrite !credited_ne by done; apply Hg|]. rewrite credited_eq. lia.
  - destruct (dget m ws) as [w|] eqn:E; [|done]. destruct (0 <=? available w + d) eqn:Hle; [|done]. injection H as <-.
    split; [|by apply dkeys_dset_in, (dget_in_key _ _ _ E)]. destruct (Hg m w E) as [[Ha ?] [Hh ?]].
    apply (wallets_ok_set ws f _ c d m w); [done|done|..]; [intros m' Hne; rewrite !credited_ne by congruence; done|..].
    + rewrite credited_eq, credited_ne by done. cbn [available held]. lia.
    + cbn [available held]. lia.
    + by rewrite credited_ne.
  - destruct (dget m ws) as [w|] eqn:E; [|done]. destruct (0 <=? held w + d) eqn:Hle; [|done]. injection H as <-.
    split; [|by apply dkeys_dset_in, (dget_in_key _ _ _ E)]. destruct (Hg m w E) as [[Ha ?] [Hh ?]].
    apply (wallets_ok_set ws f _ c d m w); [done|done|..]; [intros m' Hne; rewrite !credited_ne by congruence; done|..].
    + rewrite credited_eq, credited_ne by done. cbn [available held]. lia.
    + cbn [available held]. lia.
    + by rewrite credited_ne.
Qed.

Lemma move_wallet_total a d ws f c :
  wallets_ok ws f c → has_wallet a ws → (a ≠ Clearing → 0 <= f a + d) → ∃ ws', move_wallet a d ws = Ok ws'.
Proof.
  intros [_ Hg _] Hw Hpos. destruct a as [|m|m]; simpl; [by eexists|..];
    destruct (proj1 (dmem_true _ _) (Hw m eq_refl)) as [w E]; rewrite E;
    destruct (Hg m w E) as [[Ha _] [Hh _]]; specialize (Hpos ltac:(done));
    rewrite (proj2 (Z.leb_le _ _)) by lia; by eexists.
Qed.

(** ** Postings *)

Definition posting_lines (debit credit : Account) (amount : Z) : list Line := [mk_line debit amount 0; mk_line credit 0 amount].
Definition entry_id (k : EntryKind) (op : string) : string :=
  match k with reserve => "reserve:" | release => "release:" | settle => "settle:" end +:+ op.
#[global] Arguments entry_id : simpl never.

Lemma entry_id_inj k k' op op' : entry_id k op = entry_id k' op' → k = k' ∧ op = op'.
Proof. unfold entry_id. destruct k, k'; simpl; intros H; try discriminate H; injection H as H; done. Qed.

Lemma flow_posting a e d c n :
  en_lines e = posting_lines d c n → flow a e = when (bool_decide (d = a)) (- n) + when (bool_decide (c = a)) n.
Proof. unfold flow. intros ->. simpl. unfold when. repeat case_bool_decide; lia. Qed.

Lemma account_total_new a id e (es : dict string Entry) :
  dget id es = None → en_posted e = true → account_total a (dset id e es) = account_total a es + flow a e.
Proof. intros Hid He. unfold account_total. rewrite zsum_dset_new by done. by rewrite He. Qed.

Record money_ok (b : Books) : Prop := mk_money_ok {
  mo_wallets : wallets_ok (wallets b) (λ a, account_total a (entries b)) 0;
  mo_entries : dict_ok (entries b);
  mo_posted : ∀ id e, dget id (entries b) = Some e →
    en_posted e = true ∧ ∃ d c, en_lines e = posting_lines d c (zsum ln_debit (en_lines e)) ∧ has_wallet d (wallets b) ∧ has_wallet c (wallets b);
}.

Lemma money_frame b b' : wallets b' = wallets b → entries b' = entries b → money_ok b → money_ok b'.
Proof. intros Ew Ee [H1 H2 H3]. split; by rewrite ?Ew, ?Ee. Qed.

(** The audit finds nothing. *)
Lemma money_audit b : money_ok b → audit_matches (audit b) = true ∧ au_errors (audit b) = [] ∧ au_cash (audit b) = au_liability (audit b).
Proof.
  intros [[Hd Hg Hs] He Hp].
  assert (au_cash (audit b) = au_liability (audit b)) as Hcash by (simpl; lia).
  assert (au_errors (audit b) = []) as Herr; [|by unfold audit_matches; rewrite Herr].
  unfold audit in *. simpl in *. rewrite (bool_decide_eq_false_2 (- _ ≠ _)) by lia.
  assert (imbalance (entries b) = 0) as ->.
  { apply zsum_zero. intros e [id Hid]%elem_dvalues; [|done]. destruct (Hp id e Hid) as (-> & d & c & -> & _). simpl. lia. }
  rewrite (proj2 (existsb_false _ _)).
  - simpl. rewrite app_nil_r. rewrite concat_nil_Forall, Forall_map, Forall_forall. intros [m w] Hin%dget_Some; [|done].
    destruct (Hg m w Hin) as [[-> _] [-> _]]. unfold wallet_errors. simpl. by rewrite !bool_decide_eq_false_2 by naive_solver.
  - intros e [id Hid]%elem_dvalues; [|done]. by destruct (Hp id e Hid) as (-> & _).
Qed.

Definition posting (op : string) (k : EntryKind) (debit credit : Account) (amount : Z) (provider : option string) (now : Z) : Entry :=
  mk_entry op k provider true now (posting_lines debit credit amount).

(** A posting that succeeds under a new identifier. *)
Lemma post_inv id op k d c n provider now b b' new :
  post id op k d c n provider now b = Ok (b', new) → dget id (entries b) = None →
  ∃ o ws1 ws2, dget op (operations b) = Some o ∧ move_wallet d (- n) (wallets b) = Ok ws1 ∧ move_wallet c n ws1 = Ok ws2 ∧
    b' = with_money ws2 (dset id (posting op k d c n provider now) (entries b)) b.
Proof.
  unfold post. intros H Hid. destruct (money n) as [n'|] eqn:En; [|done]. simpl in H. unfold money in En.
  apply raise_if_Ok in En as [_ [= <-]]. unfold operation in H. destruct (dget op (operations b)) as [o|]; [|done]. simpl in H.
  apply raise_if_Ok in H as [_ H]. rewrite Hid in H. destruct (move_wallet d (- n) (wallets b)) as [ws1|] eqn:E1; [|done]. simpl in H.
  destruct (move_wallet c n ws1) as [ws2|] eqn:E2; [|done]. simpl in H. apply raise_if_Ok in H as [_ [= <- _]]. by exists o, ws1, ws2.
Qed.

Lemma post_total id op o k n provider now b ws1 ws2 :
  let d := (expected_posting o k).1 in let c := (expected_posting o k).2 in
  dget op (operations b) = Some o → op_amount o = n → 1 <= n <= 100000000 → (op_kind o = payin → k = settle) → dget id (entries b) = None →
  move_wallet d (- n) (wallets b) = Ok ws1 → move_wallet c n ws1 = Ok ws2 →
  post id op k d c n provider now b = Ok (with_money ws2 (dset id (posting op k d c n provider now) (entries b)) b, true).
Proof.
  intros d c Ho Hn Hr Hk Hid E1 E2. unfold post, money. rewrite (proj2 (integer_spec _ _ _)) by done. simpl.
  unfold operation. rewrite Ho. simpl. subst d c. rewrite <- surjective_pairing.
  rewrite bool_decide_eq_false_2 by naive_solver. simpl. rewrite Hid, E1. simpl. rewrite E2. simpl. unfold balanced. simpl.
  replace (_ =? 0) with true by lia. done.
Qed.

Lemma post_money id op k d c n provider now b ws1 ws2 :
  money_ok b → dget id (entries b) = None → has_wallet d (wallets b) → has_wallet c (wallets b) →
  move_wallet d (- n) (wallets b) = Ok ws1 → move_wallet c n ws1 = Ok ws2 →
  let b' := with_money ws2 (dset id (posting op k d c n provider now) (entries b)) b in
  money_ok b' ∧ dkeys ws2 = dkeys (wallets b) ∧
  ∀ a, account_total a (entries b') = account_total a (entries b) + when (bool_decide (d = a)) (- n) + when (bool_decide (c = a)) n.
Proof.
  intros [Hw He Hp] Hid Hd Hc E1 E2 b'.
  assert (∀ a, account_total a (entries b') = account_total a (entries b) + when (bool_decide (d = a)) (- n) + when (bool_decide (c = a)) n) as Htot.
  { intros a. unfold b'. simpl. rewrite account_total_new by done. rewrite (flow_posting a _ d c n) by done. lia. }
  destruct (move_wallet_ok _ _ _ _ _ _ E1 Hw) as [Hw1 Hk1]. destruct (move_wallet_ok _ _ _ _ _ _ E2 Hw1) as [Hw2 Hk2].
  assert (dkeys ws2 = dkeys (wallets b)) as Hkeys by congruence.
  assert (∀ a, has_wallet a (wallets b) → has_wallet a ws2) as Hhas.
  { intros a Ha m Hm. apply dmem_spec. rewrite Hkeys. by apply dmem_spec, Ha. }
  split; [|done]. split.
  - replace 0 with (0 + - n + n) by lia. eapply wallets_ok_ext; [exact Hw2|]. intros a. rewrite Htot. unfold credited. lia.
  - by apply dset_ok.
  - intros i e. unfold b'. simpl. rewrite dget_dset. case_decide.
    + intros [= <-]. split; [done|]. exists d, c. simpl. split; [|by auto]. f_equal. all: unfold posting_lines; repeat f_equal; lia.
    + intros Hi. destruct (Hp i e Hi) as (? & d' & c' & ? & ? & ?). split; [done|]. exists d', c'. auto.
Qed.

(** ** Operations *)

(** The postings that an operation must have. *)
Definition due (k : EntryKind) (o : Op) : bool :=
  match k with
  | reserve => bool_decide (op_kind o ≠ payin)
  | settle => bool_decide (op_status o = SUCCEEDED)
  | release => bool_decide (op_kind o ≠ payin ∧ op_status o = FAILED)
  end.
(** What an operation holds of its merchant. *)
Definition outstanding (m : string) (o : Op) : Z :=
  when (bool_decide (op_merchant o = m ∧ op_kind o ≠ payin) && negb (terminal (op_status o))) (op_amount o).
Definition refund_share (p : string) (o : Op) : Z := when (bool_decide (op_parent o = Some p ∧ op_status o ≠ FAILED)) (op_amount o).
Definition amount_of (p : string) (os : dict string Op) : Z := match dget p os with Some o => op_amount o | None => 0 end.

(** The fields of an operation that never change. *)
Definition same_fields (o o' : Op) : Prop :=
  op_merchant o' = op_merchant o ∧ op_kind o' = op_kind o ∧ op_parent o' = op_parent o ∧ op_amount o' = op_amount o ∧
  op_destination o' = op_destination o ∧ op_key o' = op_key o ∧ op_hash o' = op_hash o ∧ op_order o' = op_order o.

Record op_ok (id : string) (o : Op) (b : Books) : Prop := mk_op_ok {
  ok_names : drawn id = true ∧ identifier (op_merchant o) = true;
  ok_wallet : dmem (op_merchant o) (wallets b) = true;
  ok_amount : 1 <= op_amount o <= 100000000;
  ok_destination : allowed (op_kind o) (op_destination o) = true;
  ok_parent : match op_kind o, op_parent o with
              | refund, Some p => ∃ po, dget p (operations b) = Some po ∧ op_kind po = payin ∧ op_status po = SUCCEEDED ∧ op_merchant po = op_merchant o
              | refund, None => False
              | _, Some _ => False
              | _, None => True
              end;
}.

Record books_ok (b : Books) : Prop := mk_books_ok {
  bo_money : money_ok b;
  bo_ops : dict_ok (operations b);
  bo_op : ∀ id o, dget id (operations b) = Some o → op_ok id o b;
  bo_entry : ∀ eid e, dget eid (entries b) = Some e →
    eid = entry_id (en_kind e) (en_operation e) ∧ ∃ o, dget (en_operation e) (operations b) = Some o ∧ due (en_kind e) o = true;
  bo_due : ∀ id o k, dget id (operations b) = Some o → due k o = true → is_Some (dget (entry_id k id) (entries b));
  bo_held : ∀ m, account_total (Held m) (entries b) = zsum (outstanding m) (dvalues (operations b));
  bo_refunds : ∀ p, refunds_of p (operations b) <= amount_of p (operations b);
  bo_keys : ∀ id id' o o', dget id (operations b) = Some o → dget id' (operations b) = Some o' →
    op_merchant o = op_merchant o' → op_key o = op_key o' → id = id';
  bo_cap : Z.of_nat (length (operations b)) <= 10000;
}.

(** ** Writes elsewhere *)

Definition same_money (b b' : Books) : Prop := wallets b' = wallets b ∧ operations b' = operations b ∧ entries b' = entries b.
#[export] Instance same_money_preorder : PreOrder same_money.
Proof. split; [done|]. intros b1 b2 b3 (E1 & E2 & E3) (F1 & F2 & F3). split; [|split]; congruence. Qed.

Create HintDb books discriminated.

Lemma same_money_ok b b' : same_money b b' → books_ok b → books_ok b'.
Proof.
  intros (Ew & Eo & Ee) [H1 H2 H3 H4 H5 H6 H7 H8 H9]. split; rewrite ?Eo, ?Ee; try done; [by eapply money_frame|].
  intros id o Hid. destruct (H3 id o Hid) as [A B C D E]. split; by rewrite ?Ew, ?Eo.
Qed.

(** ... nor of the receipts that were taken. *)
Definition same_core (b b' : Books) : Prop := same_money b b' ∧ versions b' = versions b ∧ inbox b' = inbox b.
#[export] Instance same_core_preorder : PreOrder same_core.
Proof.
  split; [done|]. intros b1 b2 b3 (E1 & E2 & E3) (F1 & F2 & F3). split; [by etrans|]. split; congruence.
Qed.
Lemma core_money b b' : same_core b b' → same_money b b'.
Proof. by intros []. Qed.

Lemma same_enqueue id p now b : same_core b (enqueue id p now b).
Proof. unfold enqueue. by case_match. Qed.
Lemma same_update_job id f b : same_core b (update_job id f b).
Proof. unfold update_job. by case_match. Qed.
Lemma same_review dg op reason d now b : same_core b (review dg op reason d now b).1.
Proof. unfold review. by case_match. Qed.
Lemma same_version dg op r b : same_money b (add_version dg op r b).
Proof. unfold add_version. by case_match. Qed.
Lemma same_set_run run st res b : same_core b (set_run run st res b).
Proof. unfold set_run. by case_match. Qed.
Lemma same_log job a d now b : same_core b (log_execution job a d now b).
Proof. done. Qed.
#[export] Hint Resolve core_money same_enqueue same_update_job same_review same_version same_set_run same_log : books.

(** ** The lookup of a fresh posting *)

Lemma entry_absent b id o k : books_ok b → dget id (operations b) = Some o → due k o = false → dget (entry_id k id) (entries b) = None.
Proof.
  intros Hb Ho Hd. destruct (dget (entry_id k id) (entries b)) as [e|] eqn:E; [|done].
  destruct (bo_entry _ Hb _ _ E) as [[Hk Hid]%entry_id_inj (o' & Ho' & Hdue)]. congruence.
Qed.

Lemma outstanding_pos m o b id : books_ok b → dget id (operations b) = Some o → 0 <= outstanding m o.
Proof. intros Hb Ho. destruct (ok_amount _ _ _ (bo_op _ Hb _ _ Ho)). unfold outstanding, when. case_match; lia. Qed.

(** An unfinished operation holds its amount. *)
Lemma held_enough b id o :
  books_ok b → dget id (operations b) = Some o → op_kind o ≠ payin → terminal (op_status o) = false →
  op_amount o <= account_total (Held (op_merchant o)) (entries b).
Proof.
  intros Hb Ho Hk Ht. rewrite (bo_held _ Hb). destruct (dset_split id o o _ Ho) as (d1 & d2 & E & _). rewrite E.
  assert (∀ x, x ∈ dvalues (operations b) → 0 <= outstanding (op_merchant o) x) as Hpos.
  { intros x [i Hi]%elem_dvalues; [|apply Hb]. by eapply outstanding_pos. }
  rewrite E in Hpos. unfold dvalues in *. rewrite fmap_app, fmap_cons, zsum_app in *. cbn [zsum foldr snd] in *.
  pose proof (zsum_nonneg (outstanding (op_merchant o)) d1.*2 ltac:(intros x Hx; apply Hpos; set_solver)).
  pose proof (zsum_nonneg (outstanding (op_merchant o)) d2.*2 ltac:(intros x Hx; apply Hpos; set_solver)).
  assert (outstanding (op_merchant o) o = op_amount o) as Hout by (unfold outstanding; by rewrite bool_decide_eq_true_2, Ht by done).
  unfold zsum in *. lia.
Qed.

Lemma op_wallet b id o a : books_ok b → dget id (operations b) = Some o → merchant_of a = Some (op_merchant o) → has_wallet a (wallets b).
Proof. intros Hb Ho Ha m Hm. rewrite Ha in Hm. injection Hm as <-. apply (bo_op _ Hb _ _ Ho). Qed.

(** ** A new status *)

(** The posting that a new status of an unfinished operation needs. *)
Definition next_posting (o : Op) : option EntryKind :=
  if bool_decide (op_status o = SUCCEEDED) then Some settle
  else if bool_decide (op_kind o ≠ payin ∧ op_status o = FAILED) then Some release else None.

Lemma due_next o o' k :
  same_fields o o' → terminal (op_status o) = false → due k o' = due k o || bool_decide (next_posting o' = Some k).
Proof.
  intros (_ & Ek & _) Ht. unfold terminal in Ht. rewrite bool_decide_eq_false in Ht. unfold next_posting, due. rewrite !Ek.
  destruct k, (op_kind o), (op_status o), (op_status o'); try done; naive_solver.
Qed.

(** The books after a new status of the operation [id]. *)
Record restated (id : string) (o o' : Op) (b b' : Books) : Prop := mk_restated {
  rs_ops : operations b' = dset id o' (operations b);
  rs_keys : dkeys (wallets b') = dkeys (wallets b);
  rs_money : money_ok b';
  rs_total : ∀ m, account_total (Held m) (entries b') = account_total (Held m) (entries b) - outstanding m o + outstanding m o';
  rs_entries : match next_posting o' with
               | Some k => ∃ e, entries b' = dset (entry_id k id) e (entries b) ∧ en_kind e = k ∧ en_operation e = id
               | None => entries b' = entries b
               end;
}.

Lemma restated_ok id o o' b b' :
  books_ok b → dget id (operations b) = Some o → terminal (op_status o) = false → same_fields o o' → restated id o o' b b' → books_ok b'.
Proof.
  intros Hb Ho Ht Hs [Eo Ek Hm Htot He]. pose proof Hs as (S1 & S2 & S3 & S4 & S5 & S6 & S7 & S8).
  split; [done|by rewrite Eo; apply dset_ok, Hb|..].
  - intros i x. rewrite Eo. intros Hi.
    assert (∃ x0, dget i (operations b) = Some x0 ∧ same_fields x0 x) as (x0 & Hx0 & X1 & X2 & X3 & X4 & X5 & X6 & X7 & X8).
    { rewrite dget_dset in Hi. case_decide; [|by exists x]. injection Hi as <-. subst i. by exists o. }
    destruct (bo_op _ Hb _ _ Hx0) as [A B C D E]. split; rewrite ?X1, ?X2, ?X3, ?X4, ?X5; try done.
    + apply dmem_spec. rewrite Ek. by apply dmem_spec.
    + destruct (op_kind x0); try done. destruct (op_parent x0) as [p|]; [|done]. destruct E as (po & Hp & P1 & P2 & P3).
      exists po. split; [|done]. rewrite Eo, dget_dset_ne; [done|]. intros <-. rewrite Ho in Hp. injection Hp as ->. by rewrite P2 in Ht.
  - intros eid e Hin. assert (dget eid (entries b) = Some e ∨ eid = entry_id (en_kind e) id ∧ en_operation e = id ∧ next_posting o' = Some (en_kind e)) as Hcase.
    { destruct (next_posting o') as [k|]; [|rewrite He in Hin; by left]. destruct He as (e0 & E & E1 & E2).
      rewrite E, dget_dset in Hin. case_decide; [|by left]. injection Hin as <-. subst. by right. }
    rewrite Eo. destruct Hcase as [Hold|(-> & <- & Hn)].
    + destruct (bo_entry _ Hb _ _ Hold) as (-> & x & Hx & Hdue). split; [done|]. rewrite dget_dset. case_decide as Hid; [|by exists x].
      exists o'. split; [done|]. rewrite (due_next o o') by done. subst id. rewrite Ho in Hx. injection Hx as ->. by rewrite Hdue.
    + split; [done|]. exists o'. rewrite dget_dset, decide_True by done. split; [done|]. rewrite (due_next o o') by done.
      rewrite bool_decide_eq_true_2 by done. apply orb_true_r.
  - intros i x k. rewrite Eo, dget_dset. assert (∀ eid, is_Some (dget eid (entries b)) → is_Some (dget eid (entries b'))) as Hmono.
    { intros eid Hx. destruct (next_posting o') as [k'|]; [|by rewrite He]. destruct He as (e & -> & _). rewrite dget_dset. by case_decide. }
    case_decide as Hid; [|intros Hx Hdue; by eapply Hmono, (bo_due _ Hb)]. intros [= <-] Hdue. subst i. rewrite (due_next o o') in Hdue by done.
    apply orb_prop in Hdue as [Hdue|Hn%bool_decide_eq_true]; [by eapply Hmono, (bo_due _ Hb)|]. rewrite Hn in He.
    destruct He as (e & -> & _). rewrite dget_dset, decide_True by done. by eexists.
  - intros m. rewrite Htot, Eo, (zsum_dset _ id o) by done. by rewrite (bo_held _ Hb).
  - intros p. pose proof (bo_refunds _ Hb p) as Hp. unfold refunds_of, amount_of in *. rewrite Eo, (zsum_dset _ id o), dget_dset by done.
    destruct (ok_amount _ _ _ (bo_op _ Hb _ _ Ho)). rewrite S3, S4. unfold terminal in Ht. rewrite bool_decide_eq_false in Ht.
    rewrite (bool_decide_ext (op_parent o = Some p ∧ op_status o ≠ FAILED) (op_parent o = Some p)) by naive_solver.
    assert (when (bool_decide (op_parent o = Some p ∧ op_status o' ≠ FAILED)) (op_amount o) <= when (bool_decide (op_parent o = Some p)) (op_amount o)) as Hle.
    { unfold when. repeat case_bool_decide; try lia. naive_solver. }
    destruct (decide (id = p)) as [<-|]; [rewrite Ho in Hp|]; unfold refund_share in *; lia.
  - assert (∀ i x, dget i (operations b') = Some x → ∃ y, dget i (operations b) = Some y ∧ op_merchant y = op_merchant x ∧ op_key y = op_key x) as Hback.
    { intros i x. rewrite Eo, dget_dset. case_decide; [|by eauto]. intros [= <-]. subst i. exists o. by rewrite S1, S6. }
    intros i i' x x' (y & Hy & Y1 & Y2)%Hback (y' & Hy' & Y1' & Y2')%Hback Hmer Hkey.
    apply (bo_keys _ Hb i i' y y'); congruence.
  - rewrite Eo, dset_length. unfold dmem. rewrite Ho. apply Hb.
Qed.

(** The status UNKNOWN. *)
Lemma doubt_ok p b : books_ok b → books_ok (doubt p b).
Proof.
  intros Hb. unfold doubt. destruct p as [op| |]; [|done..]. destruct (dget op (operations b)) as [o|] eqn:Ho; [|done].
  destruct (terminal (op_status o)) eqn:Ht; [done|].
  apply (restated_ok op o (with_op_status UNKNOWN o) b); [done..|]. split; [done|done|by eapply money_frame, Hb|..].
  - intros m. unfold outstanding. rewrite Ht. simpl. rewrite andb_true_r. lia.
  - unfold next_posting. by rewrite !bool_decide_eq_false_2 by (simpl; naive_solver).
Qed.
