(* ===== verification/PaySteps.v ===== *)
(** * The operations of the payment books keep their invariant

    Every operation of PayBooks.v and PayJobs.v keeps the invariant of PayInv.v, never
    changes a finished operation or a posted entry, and never lacks the money that an
    outcome needs. *)
From S2P Require Import Prelude PyList PyDict Checks PayBooks PayJobs PayProvider PayWork PayInv.
Local Open Scope Z_scope.

(** Nothing is taken back. *)
Record grows (b b' : Books) : Prop := mk_grows {
  gr_ops : ∀ id o, dget id (operations b) = Some o →
    ∃ o', dget id (operations b') = Some o' ∧ same_fields o o' ∧ (terminal (op_status o) = true → o' = o);
  gr_entries : ∀ eid e, dget eid (entries b) = Some e → dget eid (entries b') = Some e;
}.

Lemma same_fields_refl o : same_fields o o.
Proof. done. Qed.
Lemma same_fields_trans o1 o2 o3 : same_fields o1 o2 → same_fields o2 o3 → same_fields o1 o3.
Proof. unfold same_fields. intuition congruence. Qed.

#[export] Instance grows_preorder : PreOrder grows.
Proof.
  split; [intros b; split; [intros id o Ho; by exists o|done]|].
  intros b1 b2 b3 [H1 H2] [H3 H4]. split; [|auto]. intros id o Ho. destruct (H1 id o Ho) as (o2 & Ho2 & S1 & T1).
  destruct (H3 id o2 Ho2) as (o3 & Ho3 & S2 & T2). exists o3. split; [done|]. split; [by eapply same_fields_trans|].
  intros Ht. specialize (T1 Ht). subst o2. auto.
Qed.

Lemma same_money_grows b b' : same_money b b' → grows b b'.
Proof. intros (_ & Eo & Ee). split; rewrite ?Eo, ?Ee; [|done]. intros id o Ho. by exists o. Qed.

Definition kept (b b' : Books) : Prop := books_ok b' ∧ grows b b'.
Lemma kept_same b b' : books_ok b → same_money b b' → kept b b'.
Proof. intros Hb Hs. split; [by eapply same_money_ok|by apply same_money_grows]. Qed.
Lemma kept_then b b' b'' : kept b b' → same_money b' b'' → kept b b''.
Proof. intros [Hb Hg] Hs. split; [by eapply same_money_ok|]. etrans; [exact Hg|by apply same_money_grows]. Qed.

Lemma restated_grows id o o' b b' :
  books_ok b → dget id (operations b) = Some o → terminal (op_status o) = false → same_fields o o' → restated id o o' b b' → grows b b'.
Proof.
  intros Hb Ho Ht Hs [Eo _ _ _ He]. split.
  - intros i x Hx. rewrite Eo, dget_dset. case_decide; [|by exists x]. subst i. rewrite Ho in Hx. injection Hx as <-.
    exists o'. split; [done|]. split; [done|]. by rewrite Ht.
  - intros eid e Hin. destruct (next_posting o') as [k|] eqn:Hn; [|by rewrite He]. destruct He as (e' & -> & _).
    rewrite dget_dset_ne; [done|]. intros <-. pose proof (due_next o o' k Hs Ht) as Hdue. rewrite Hn, (bool_decide_eq_true_2 (Some k = Some k)) in Hdue by done.
    destruct (due k o) eqn:Hd; [|by rewrite (entry_absent b id o k) in Hin]. clear Hdue.
    unfold next_posting in Hn. unfold terminal in Ht. rewrite bool_decide_eq_false in Ht.
    repeat case_bool_decide; simplify_eq; apply bool_decide_eq_true in Hd; naive_solver.
Qed.

Lemma restated_kept id o o' b b' :
  books_ok b → dget id (operations b) = Some o → terminal (op_status o) = false → same_fields o o' → restated id o o' b b' → kept b b'.
Proof. intros. split; [by eapply restated_ok|by eapply restated_grows]. Qed.

Lemma doubt_kept p b : books_ok b → kept b (doubt p b).
Proof.
  intros Hb. split; [by apply doubt_ok|]. unfold doubt. destruct p as [op| |]; [|done..].
  destruct (dget op (operations b)) as [o|] eqn:Ho; [|done]. destruct (terminal (op_status o)) eqn:Ht; [done|].
  split; [|done]. intros id x Hx. simpl. rewrite dget_dset. case_decide; [|by exists x]. subst id. rewrite Ho in Hx. injection Hx as <-.
  eexists. split; [done|]. split; [done|]. by rewrite Ht.
Qed.

(** ** The posting of an outcome *)

Lemma balance_nonneg a b : money_ok b → has_wallet a (wallets b) → a ≠ Clearing → 0 <= account_total a (entries b).
Proof.
  intros [[_ Hg _] _ _] Hw Hne. destruct a as [|m|m]; [done|..]; destruct (proj1 (dmem_true _ _) (Hw m eq_refl)) as [w E];
    destruct (Hg m w E) as [[Ha ?] [Hh ?]]; lia.
Qed.

Lemma expected_wallets b id o k :
  books_ok b → dget id (operations b) = Some o →
  has_wallet (expected_posting o k).1 (wallets b) ∧ has_wallet (expected_posting o k).2 (wallets b).
Proof.
  intros Hb Ho. pose proof (ok_wallet _ _ _ (bo_op _ Hb _ _ Ho)) as Hw.
  split; intros m; destruct k, (op_kind o) eqn:Ek; simpl; rewrite ?Ek; simpl; congruence.
Qed.

(** A balanced pair of moves whose debit is covered. *)
Lemma moves_total d c n b :
  money_ok b → has_wallet d (wallets b) → has_wallet c (wallets b) → 0 <= n → d ≠ c → (d ≠ Clearing → n <= account_total d (entries b)) →
  ∃ ws1 ws2, move_wallet d (- n) (wallets b) = Ok ws1 ∧ move_wallet c n ws1 = Ok ws2.
Proof.
  intros Hm Hd Hc Hn Hne Hcov. destruct (move_wallet_total d (- n) _ _ _ (mo_wallets _ Hm) Hd) as [ws1 E1]; [intros ?; specialize (Hcov ltac:(done)); lia|].
  destruct (move_wallet_ok _ _ _ _ _ _ E1 (mo_wallets _ Hm)) as [Hw1 Hk1].
  destruct (move_wallet_total c n _ _ _ Hw1) as [ws2 E2].
  - intros m Hm'. apply dmem_spec. rewrite Hk1. by apply dmem_spec, Hc.
  - intros Hcl. rewrite credited_ne by done. pose proof (balance_nonneg c b Hm Hc Hcl). lia.
  - by exists ws1, ws2.
Qed.

(** The Held accounts follow the operations. *)
Lemma held_delta o o' k m :
  same_fields o o' → terminal (op_status o) = false → next_posting o' = Some k →
  when (bool_decide ((expected_posting o k).1 = Held m)) (- op_amount o) + when (bool_decide ((expected_posting o k).2 = Held m)) (op_amount o)
  = - outstanding m o + outstanding m o'.
Proof.
  intros (Em & Ek & _ & Ea & _) Ht Hn. unfold outstanding. rewrite Em, Ek, Ea, Ht. unfold next_posting in Hn. rewrite Ek in Hn.
  assert (terminal (op_status o') = true) as ->. { unfold terminal. apply bool_decide_eq_true. repeat case_bool_decide; try done; naive_solver. }
  rewrite andb_true_r, andb_false_r. unfold when.
  repeat case_bool_decide; destruct (op_kind o) eqn:Ekind; simplify_eq; simpl in *; rewrite ?Ekind in *; simpl in *; naive_solver (congruence || lia).
Qed.

Lemma post_outcome b op o o' k provider now :
  books_ok b → dget op (operations b) = Some o → terminal (op_status o) = false → same_fields o o' → next_posting o' = Some k →
  ∃ b', post (entry_id k op) op k (expected_posting o k).1 (expected_posting o k).2 (op_amount o) provider now b = Ok (b', true) ∧
    operations b' = operations b ∧ dkeys (wallets b') = dkeys (wallets b) ∧ money_ok b' ∧
    (∀ m, account_total (Held m) (entries b') = account_total (Held m) (entries b) - outstanding m o + outstanding m o') ∧
    (∃ e, entries b' = dset (entry_id k op) e (entries b) ∧ en_kind e = k ∧ en_operation e = op) ∧
    b' = with_money (wallets b') (entries b') b.
Proof.
  intros Hb Ho Ht Hs Hn. destruct (expected_wallets b op o k Hb Ho) as [Hd Hc].
  pose proof (ok_amount _ _ _ (bo_op _ Hb _ _ Ho)) as Ham.
  assert (op_kind o = payin → k = settle) as Hk.
  { intros E. unfold next_posting in Hn. destruct Hs as (_ & Ek & _). rewrite Ek in Hn. repeat case_bool_decide; naive_solver. }
  assert (dget (entry_id k op) (entries b) = None) as Hnew.
  { apply (entry_absent b op o k Hb Ho). pose proof (due_next o o' k Hs Ht) as Hdue. unfold next_posting in Hn. unfold terminal in Ht.
    rewrite bool_decide_eq_false in Ht. repeat case_bool_decide; simplify_eq; apply bool_decide_eq_false; naive_solver. }
  destruct (moves_total (expected_posting o k).1 (expected_posting o k).2 (op_amount o) b) as (ws1 & ws2 & E1 & E2); [apply Hb|done|done|lia|..].
  { destruct k, (op_kind o) eqn:Ek; simpl; rewrite ?Ek; simpl; done. }
  { intros Hcl. assert ((expected_posting o k).1 = Held (op_merchant o) ∧ op_kind o ≠ payin) as [-> Hpay].
    { unfold next_posting in Hn. destruct k, (op_kind o) eqn:Ek; simpl in *; rewrite ?Ek in *; simpl in *; try done;
        try (by specialize (Hk eq_refl)); repeat case_bool_decide; done. }
    by apply (held_enough b op). }
  destruct (post_money (entry_id k op) op k _ _ (op_amount o) provider now b ws1 ws2 (bo_money _ Hb) Hnew Hd Hc E1 E2) as (Hm & Hkeys & Htot).
  eexists. split; [by eapply post_total|]. split; [done|]. split; [done|]. split; [done|]. split; [|split; [by eexists|done]].
  intros m. rewrite Htot. pose proof (held_delta o o' k m Hs Ht Hn). lia.
Qed.

(** ** Receipts *)

(** The tables once the outcome of [r] is posted, with the notification of a final one. *)
Definition with_outcome (op : string) (o : Op) (r : Receipt) (now : Z) (b : Books) : Books :=
  let b := with_operations (dset op (with_receipt r o) (operations b)) b in
  if bool_decide (r_status r = PENDING) then b
  else enqueue (notify_id op) (Notify (mk_event ("terminal_" +:+ op) op (op_merchant o) (r_status r) (op_amount o))) now
         (update_job (execute_id op) done_job b).

Lemma with_outcome_same op o r now b : same_money (with_operations (dset op (with_receipt r o) (operations b)) b) (with_outcome op o r now b).
Proof. unfold with_outcome. case_bool_decide; [done|]. etrans; [|apply core_money, same_enqueue]. apply core_money, same_update_job. Qed.

Lemma with_receipt_fields r o : same_fields o (with_receipt r o).
Proof. done. Qed.

Lemma advance_total b op o r now :
  books_ok b → dget op (operations b) = Some o → terminal (op_status o) = false →
  r_status r = PENDING ∨ r_status r = SUCCEEDED ∨ r_status r = FAILED →
  ∃ ws es, advance op o r now b = Ok (with_outcome op o r now (with_money ws es b)) ∧
    restated op o (with_receipt r o) b (with_outcome op o r now (with_money ws es b)).
Proof.
  intros Hb Ho Ht Hst. set (o' := with_receipt r o). pose proof (with_receipt_fields r o) as Hs. fold o' in Hs.
  assert (∃ ws es b1, b1 = with_money ws es b ∧ restated op o o' b (with_operations (dset op o' (operations b)) b1) ∧
    post_status op o r now b = Ok b1) as (ws & es & b1 & -> & Hr & Hpost).
  2: { exists ws, es. split; [|destruct Hr as [R1 R2 R3 R4 R5]; destruct (with_outcome_same op o r now (with_money ws es b)) as (Ew & Eo & Ee);
         split; [by rewrite Eo|by rewrite Ew|eapply money_frame; [| |exact R3]; done|by rewrite Ee|by rewrite Ee]].
       unfold advance. rewrite Hpost. simpl. rewrite Ho. unfold with_outcome. by case_bool_decide. }
  destruct (next_posting o') as [k|] eqn:Hn.
  - destruct (post_outcome b op o o' k (Some (r_provider r)) now Hb Ho Ht Hs Hn) as (b1 & Hp & Eo & Ek & Hm & Htot & Hent & Hb1).
    exists (wallets b1), (entries b1), b1. split; [done|]. split.
    { split; [done|done|by eapply money_frame; [| |exact Hm]|done|by rewrite Hn]. }
    unfold next_posting in Hn. simpl in Hn. unfold entry_id, expected_posting in Hp.
    destruct (r_status r) eqn:Er; try (destruct Hst as [|[|]]; done); destruct (op_kind o) eqn:Ekd; simpl in *; try done;
      repeat case_bool_decide; simplify_eq; try naive_solver; simpl in Hp; unfold post_status; rewrite ?Er, ?Ekd; simpl; by rewrite Hp.
  - exists (wallets b), (entries b), b. split; [by destruct b|]. split.
    { split; [done|done|by eapply money_frame, Hb| |by rewrite Hn]. intros m. cbn [entries with_operations].
      unfold outstanding, next_posting in *. destruct Hs as (-> & Ek & _ & -> & _). rewrite Ek in *. rewrite Ht. simpl in *.
      unfold terminal, when. repeat case_bool_decide; simpl; naive_solver lia. }
    unfold next_posting in Hn. unfold post_status. simpl in Hn. destruct (r_status r); try done; destruct (op_kind o); try done; repeat case_bool_decide; naive_solver.
Qed.

Section steps.
Context (dg : Digests) (jd : JobDigests).

Lemma receipt_copy_Ok r r' : receipt_copy dg r = Ok r' → r' = r ∧ (r_status r = PENDING ∨ r_status r = SUCCEEDED ∨ r_status r = FAILED).
Proof.
  unfold receipt_copy. intros H. do 3 (destruct (check_identifier _); [|done]; simpl in H). destruct (money _); [|done]. simpl in H.
  apply raise_if_Ok in H as [_ H]. apply raise_if_Ok in H as [Hc%bool_decide_eq_false H].
  assert (r' = r) as ->. { destruct (match r_kind r with payin => _ | _ => _ end); [|done]. simpl in H. destruct (r_checkout r); [|by injection H]. apply raise_if_Ok in H as [_ H]. by injection H. }
  split; [done|]. destruct (r_status r); naive_solver.
Qed.

(** A receipt changes an unfinished operation, or only the reviews. *)
Inductive judged (op : string) (o : Op) (r : Receipt) (now : Z) (b : Books) : Books → Applied → Prop :=
| judged_review reason :
    judged op o r now b (review dg op reason (OfReceipt r) now b).1 (mk_applied false false (Some (review dg op reason (OfReceipt r) now b).2) None)
| judged_ignored why : judged op o r now b b (mk_applied false false None (Some why))
| judged_applied ws es :
    terminal (op_status o) = false → op_revision o <= r_revision r → restated op o (with_receipt r o) b (with_outcome op o r now (with_money ws es b)) →
    judged op o r now b (with_outcome op o r now (with_money ws es b)) (mk_applied true false None None).

Lemma judge_total b op o r now :
  books_ok b → dget op (operations b) = Some o → r_status r = PENDING ∨ r_status r = SUCCEEDED ∨ r_status r = FAILED →
  ∃ b' a, judge dg op o r now b = Ok (b', a) ∧ judged op o r now b b' a.
Proof.
  intros Hb Ho Hst. unfold judge, reviewed, ignored.
  destruct (negb (same_order o r) || _); [eexists _, _; split; [reflexivity|by eapply judged_review]|].
  destruct (provider_reused _ _ _); [eexists _, _; split; [reflexivity|by eapply judged_review]|].
  destruct (match dget (op, r_revision r) (versions b) with Some h => _ | None => _ end); [eexists _, _; split; [reflexivity|by eapply judged_review]|].
  destruct (r_revision r <? op_revision o) eqn:Hrev; [eexists _, _; split; [reflexivity|by constructor]|].
  destruct (terminal (op_status o)) eqn:Ht.
  - case_bool_decide; [eexists _, _; split; [reflexivity|by eapply judged_review]|eexists _, _; split; [reflexivity|by constructor]].
  - destruct ((r_revision r =? op_revision o) && _).
    + case_bool_decide; [eexists _, _; split; [reflexivity|by eapply judged_review]|eexists _, _; split; [reflexivity|by constructor]].
    + destruct (advance_total b op o r now Hb Ho Ht Hst) as (ws & es & E & Hr). rewrite E. simpl.
      eexists _, _. split; [reflexivity|]. constructor; [done|lia|done].
Qed.

Lemma judged_kept b op o r now b' a : books_ok b → dget op (operations b) = Some o → judged op o r now b b' a → kept b b'.
Proof.
  intros Hb Ho [reason|why|ws es Ht _ Hr]; [apply kept_same; [done|apply core_money, same_review]|by split|].
  by eapply restated_kept; [| | | |exact Hr].
Qed.

(** What [apply] needs of its caller; its answer then follows. *)
Definition welcome (r : Receipt) (event : option string) (clock : Z) (b : Books) : Prop :=
  receipt_copy dg r = Ok r ∧ 0 <= clock ∧
  match event with
  | Some e => identifier e = true ∧ ∀ h a, dget e (inbox b) = Some (h, a) → h = digest_receipt dg r
  | None => True
  end.

Lemma apply_total r event clock b : books_ok b → welcome r event clock b → ∃ b' a, apply dg r event clock b = Ok (b', a).
Proof.
  intros Hb (Hr & Hc & He). unfold apply. rewrite Hr. simpl. apply receipt_copy_Ok in Hr as [_ Hst].
  assert (match event with Some e => check_identifier e | None => Ok () end = Ok ()) as ->.
  { destruct event as [e|]; [|done]. unfold check_identifier. by rewrite (proj1 He). }
  simpl. unfold timestamp. replace (clock <? 0) with false by lia. simpl.
  destruct (match event with Some e => dget e (inbox b) | None => None end) as [[h a]|] eqn:Ein.
  { destruct event as [e|]; [|done]. destruct He as [_ He]. specialize (He _ _ Ein). subst h. rewrite bool_decide_eq_false_2 by naive_solver. by eexists _, _. }
  destruct (dget (r_id r) (operations b)) as [o|] eqn:Ho; simpl; [|by eexists _, _].
  destruct (judge_total b (r_id r) o r clock Hb Ho Hst) as (b' & a & E & _). rewrite E. simpl. by eexists _, _.
Qed.

(** What [apply] did, when it answers. *)
Lemma apply_inv r event clock b b' a :
  apply dg r event clock b = Ok (b', a) → books_ok b →
  welcome r event clock b ∧
  ((∃ e h old, event = Some e ∧ dget e (inbox b) = Some (h, old) ∧ b' = b ∧ a = mk_applied (ap_applied old) true (ap_review old) (ap_ignored old)) ∨
   (match event with Some e => dget e (inbox b) = None | None => True end ∧
    ∃ b1, (dget (r_id r) (operations b) = None ∧ (b1, a) = reviewed (review dg (r_id r) "UNKNOWN_PROVIDER_OPERATION" (OfReceipt r) clock b) ∨
            ∃ o b0, dget (r_id r) (operations b) = Some o ∧ judge dg (r_id r) o r clock b = Ok (b0, a) ∧ judged (r_id r) o r clock b b0 a ∧
              b1 = match ap_review a with None => add_version dg (r_id r) r b0 | Some _ => b0 end) ∧
      b' = match event with Some e => with_inbox (dset e (digest_receipt dg r, a) (inbox b1)) b1 | None => b1 end)).
Proof.
  unfold apply. intros H Hb. destruct (receipt_copy dg r) as [r'|] eqn:Er; [|done]. pose proof (receipt_copy_Ok _ _ Er) as [-> Hst]. simpl in H.
  destruct (match event with Some e => check_identifier e | None => Ok () end) as [u|] eqn:Ee; [|done]. simpl in H.
  unfold timestamp in H. destruct (clock <? 0) eqn:Ec; [done|]. simpl in H.
  assert (match event with Some e => identifier e = true | None => True end) as Hev.
  { destruct event; [|done]. unfold check_identifier in Ee. by destruct (identifier _). }
  destruct (match event with Some e => dget e (inbox b) | None => None end) as [[h old]|] eqn:Ein.
  - apply raise_if_Ok in H as [Hh%bool_decide_eq_false [= <- <-]]. destruct event as [e|]; [|done]. apply dec_stable in Hh as ->.
    split; [|left; by eauto 10]. split; [done|]. split; [lia|]. split; [done|]. intros h a. rewrite Ein. by intros [= <- _].
  - split. { split; [done|]. split; [lia|]. destruct event; [|done]. split; [done|]. by rewrite Ein. }
    right. split; [by destruct event|]. destruct (dget (r_id r) (operations b)) as [o|] eqn:Ho.
    + destruct (judge_total b (r_id r) o r clock Hb Ho Hst) as (b0 & a0 & E & Hj). rewrite E in H. simpl in H.
      eexists. destruct event; injection H as <- <-; (split; [right; exists o, b0; split; [done|]; split; [done|]; by split|done]).
    + simpl in H. eexists. destruct event; injection H as <- <-; (split; [left; split; reflexivity|done]).
Qed.

Lemma apply_kept r event clock b b' a : books_ok b → apply dg r event clock b = Ok (b', a) → kept b b'.
Proof.
  intros Hb [_ [(e & h & old & _ & _ & -> & _)|(_ & b1 & Hcase & ->)]]%apply_inv; [by split|..]; [|done].
  assert (kept b b1) as Hk.
  { destruct Hcase as [[_ Hr]|(o & b0 & Ho & _ & Hj & ->)].
    - injection Hr as -> _. apply kept_same; [done|apply core_money, same_review].
    - apply (judged_kept _ _ _ _ _ _ _ Hb Ho) in Hj. case_match; [done|]. eapply kept_then; [exact Hj|apply same_version]. }
  destruct event; [|done]. by eapply kept_then; [exact Hk|].
Qed.

(** ** New operations *)

Lemma find_key_Some m key b id o : dict_ok (operations b) → find_key m key b = Some (id, o) → dget id (operations b) = Some o ∧ op_merchant o = m ∧ op_key o = key.
Proof.
  unfold find_key. intros Hd H%head_Some_elem_of. apply list_elem_of_filter in H as [[H1 H2] Hin]. simpl in *.
  split; [|done]. by apply dget_Some.
Qed.

Lemma find_key_None m key b id o : find_key m key b = None → dget id (operations b) = Some o → op_merchant o = m → op_key o = key → False.
Proof.
  unfold find_key. intros H%head_None Ho Hm Hk. assert ((id, o) ∈ filter (λ kv : string * Op, op_merchant kv.2 = m ∧ op_key kv.2 = key) (operations b)) as Hin.
  { apply list_elem_of_filter. split; [done|]. by apply dget_Some_elem. }
  rewrite H in Hin. by apply elem_of_nil in Hin.
Qed.

(** The operation that a body asks for. *)
Definition fresh_op merchant (k : Kind) (body : CreateBody) (now : Z) : Op :=
  mk_op merchant k (match k with payin => Some (cb_field body) | _ => None end) (match k with refund => Some (cb_field body) | _ => None end) (cb_amount body)
    (match k with payin => "hosted" | payout => cb_field body | refund => "test-refund" end)
    (cb_request_key body) (digest_request dg k body) CREATED None 0 None now.

Record created (op : string) (o : Op) (b b' : Books) : Prop := mk_created {
  cr_new : dget op (operations b) = None;
  cr_ops : operations b' = dset op o (operations b);
  cr_keys : dkeys (wallets b') = dkeys (wallets b);
  cr_money : money_ok b';
  cr_held : ∀ m, account_total (Held m) (entries b') = account_total (Held m) (entries b) + outstanding m o;
  cr_entries : if due reserve o then ∃ e, entries b' = dset (entry_id reserve op) e (entries b) ∧ en_kind e = reserve ∧ en_operation e = op
               else entries b' = entries b;
  cr_cap : Z.of_nat (length (operations b)) < 10000;
  cr_status : op_status o = CREATED;
  cr_op : op_ok op o b;
  cr_refund : ∀ p, refunds_of p (operations b) + refund_share p o <= amount_of p (operations b);
  cr_key : ∀ i x, dget i (operations b) = Some x → op_merchant x = op_merchant o → op_key x = op_key o → False;
}.

Lemma no_entry_yet b op k : books_ok b → dget op (operations b) = None → dget (entry_id k op) (entries b) = None.
Proof.
  intros Hb Ho. destruct (dget (entry_id k op) (entries b)) as [e|] eqn:E; [|done].
  destruct (bo_entry _ Hb _ _ E) as [[_ Hid]%entry_id_inj (o' & Ho' & _)]. congruence.
Qed.

Lemma created_ok op o b b' : books_ok b → created op o b b' → books_ok b'.
Proof.
  intros Hb [Hnew Eo Ek Hm Hheld He Hcap Hst Hop Href Hkey].
  assert (∀ k, due k o = true → k = reserve) as Hdue by (intros []; unfold due; rewrite ?Hst; try done; intros ?%bool_decide_eq_true; naive_solver).
  assert (∀ i x, dget i (operations b') = Some x ↔ i = op ∧ x = o ∨ dget i (operations b) = Some x) as Hget.
  { intros i x. rewrite Eo, dget_dset. case_decide; naive_solver. }
  split; [done|by rewrite Eo; apply dset_ok, Hb|..].
  - intros i x Hi%Hget. assert (op_ok i x b) as [A B C D E] by (destruct Hi as [[-> ->]|Hi]; [done|by apply Hb]).
    split; [done|apply dmem_spec; rewrite Ek; by apply dmem_spec|done|done|]. destruct (op_kind x); try done. destruct (op_parent x) as [p|]; [|done].
    destruct E as (po & Hp & P). exists po. split; [|done]. apply Hget. by right.
  - intros eid e Hin. assert (dget eid (entries b) = Some e ∨ eid = entry_id reserve op ∧ en_kind e = reserve ∧ en_operation e = op ∧ due reserve o = true) as Hcase.
    { destruct (due reserve o); [|rewrite He in Hin; by left]. destruct He as (e0 & E & E1 & E2). rewrite E, dget_dset in Hin. case_decide; [|by left].
      injection Hin as <-. subst. by right. }
    destruct Hcase as [Hold|(-> & E1 & E2 & Hd)].
    + destruct (bo_entry _ Hb _ _ Hold) as (Heid & x & Hx & Hd). split; [done|]. exists x. split; [|done]. apply Hget. by right.
    + rewrite E1, E2. split; [done|]. exists o. split; [|done]. apply Hget. by left.
  - intros i x k Hi%Hget Hd. assert (∀ eid, is_Some (dget eid (entries b)) → is_Some (dget eid (entries b'))) as Hmono.
    { intros eid Hx. destruct (due reserve o); [|by rewrite He]. destruct He as (e & -> & _). rewrite dget_dset. by case_decide. }
    destruct Hi as [[-> ->]|Hi]; [|by eapply Hmono, (bo_due _ Hb)]. pose proof (Hdue k Hd) as ->. rewrite Hd in He.
    destruct He as (e & -> & _). rewrite dget_dset, decide_True by done. by eexists.
  - intros m. rewrite Hheld, Eo, zsum_dset_new, (bo_held _ Hb) by done. done.
  - intros p. specialize (Href p). unfold refunds_of, amount_of, refund_share in *. rewrite Eo, zsum_dset_new, dget_dset by done.
    destruct (decide (op = p)) as [->|]; [|lia]. rewrite Hnew in Href. pose proof (ok_amount _ _ _ Hop). lia.
  - intros i i' x x' Hi%Hget Hi'%Hget Hmer Hk. destruct Hi as [[-> ->]|Hi], Hi' as [[-> ->]|Hi']; [done|..].
    + by destruct (Hkey _ _ Hi').
    + by destruct (Hkey _ _ Hi).
    + by eapply (bo_keys _ Hb).
  - rewrite Eo, dset_length. destruct (dmem op (operations b)); lia.
Qed.

Lemma created_grows op o b b' : books_ok b → created op o b b' → grows b b'.
Proof.
  intros Hb [Hnew Eo _ _ _ He _ _ _ _ _]. split.
  - intros i x Hx. exists x. split; [|done]. rewrite Eo, dget_dset_ne; [done|]. congruence.
  - intros eid e Hin. destruct (due reserve o); [|by rewrite He]. destruct He as (e' & -> & _). rewrite dget_dset_ne; [done|].
    intros <-. by rewrite (no_entry_yet b op reserve Hb Hnew) in Hin.
Qed.

(** The books with a new operation, its reservation posted, before its job. *)
Definition with_new (op : string) (o : Op) ws es (b : Books) : Books := with_money ws es (with_operations (dset op o (operations b)) b).

Lemma check_create_Ok m k body :
  check_create m k body = Ok () →
  identifier m = true ∧ 1 <= cb_amount body <= 100000000 ∧ allowed k (op_destination (fresh_op m k body 0)) = true.
Proof.
  unfold check_create, check_identifier, money. intros H. destruct (identifier m); [|done]. simpl in H. destruct (identifier (cb_request_key body)); [|done]. simpl in H.
  destruct (negb (integer (cb_amount body) 1 100000000)) eqn:Ei; [done|]. apply negb_false_iff, integer_spec in Ei. simpl in H.
  apply raise_if_Ok in H as [_ H]. split; [done|]. split; [done|]. destruct k; simpl; [done| |done].
  apply raise_if_Ok in H as [Hd%bool_decide_eq_false _]. apply bool_decide_eq_true. destruct (decide (cb_field body = "test-bank-ok")); [by left|]. right.
  destruct (decide (cb_field body = "test-bank-decline")); [done|]. by destruct Hd.
Qed.

(** The money that a new operation reserves. *)
Lemma reserve_created m k body op now b b1 ws0 :
  let o := fresh_op m k body now in
  let b0 := with_operations (dset op o (operations b)) b in
  books_ok b → dget op (operations b) = None → dget m (wallets b) = Some ws0 →
  match k with payin => Ok b0 | _ => rmap fst (post ("reserve:" +:+ op) op reserve (Available m) (Held m) (cb_amount body) None now b0) end = Ok b1 →
  ∃ ws es, b1 = with_new op o ws es b ∧ dkeys ws = dkeys (wallets b) ∧ money_ok b1 ∧
    (∀ x, account_total (Held x) es = account_total (Held x) (entries b) + outstanding x o) ∧
    (if due reserve o then ∃ e, es = dset (entry_id reserve op) e (entries b) ∧ en_kind e = reserve ∧ en_operation e = op else es = entries b).
Proof.
  intros o b0 Hb Hnew Hw H. assert (money_ok b0) as Hm0 by (by eapply money_frame, Hb).
  assert (dget (entry_id reserve op) (entries b0) = None) as Hent by (by apply (no_entry_yet b)).
  assert (∀ a, merchant_of a = Some m → has_wallet a (wallets b0)) as Hhas.
  { intros a Ha x Hx. rewrite Ha in Hx. injection Hx as <-. apply dmem_true. by eexists. }
  assert (k = payin ∧ b1 = b0 ∨ k ≠ payin ∧ ∃ new, post (entry_id reserve op) op reserve (Available m) (Held m) (cb_amount body) None now b0 = Ok (b1, new)) as Hcase.
  { destruct k; [left; by injection H as <-|right; split; [done|]..]; unfold entry_id; destruct (post _ _ _ _ _ _ _ _ _) as [[b2 new]|]; try done; injection H as <-; by exists new. }
  destruct Hcase as [[Hk ->]|(Hk & new & Hp)].
  - exists (wallets b), (entries b). unfold due, outstanding, o. simpl. rewrite bool_decide_eq_false_2 by naive_solver.
    split; [done|]. split; [done|]. split; [done|]. split; [|done]. intros x. rewrite bool_decide_eq_false_2 by naive_solver. simpl. lia.
  - destruct (post_inv _ _ _ _ _ _ _ _ _ _ _ Hp Hent) as (o' & ws1 & ws2 & _ & E1 & E2 & ->).
    destruct (post_money (entry_id reserve op) op reserve (Available m) (Held m) (cb_amount body) None now b0 ws1 ws2 Hm0 Hent) as (Hm & Hkeys & Htot); [by apply Hhas|by apply Hhas|done|done|].
    eexists ws2, _. split; [reflexivity|]. split; [done|]. split; [done|]. split.
    + intros x. etrans; [exact (Htot (Held x))|]. unfold outstanding, o.
      rewrite (bool_decide_eq_false_2 (Available m = Held x)) by done. cbn [op_merchant op_kind op_status op_amount fresh_op entries with_operations b0]. unfold when, terminal. repeat case_bool_decide; simpl; naive_solver lia.
    + unfold due, o. simpl. rewrite bool_decide_eq_true_2 by done. by eexists.
Qed.

Lemma create_row_inv m k body op now b b' id o :
  books_ok b → check_create m k body = Ok () → drawn op = true → create_row dg m k body op now b = Ok (b', (id, o)) →
  (find_key m (cb_request_key body) b = Some (id, o) ∧ op_hash o = digest_request dg k body ∧ b' = b) ∨
  id = op ∧ o = fresh_op m k body now ∧ find_key m (cb_request_key body) b = None ∧ Z.of_nat (length (operations b)) < 10000 ∧
  ∃ ws es, created op o b (with_new op o ws es b) ∧ b' = enqueue (execute_id op) (Execute op) now (with_new op o ws es b).
Proof.
  intros Hb Hchk Hid H. pose proof (check_create_Ok _ _ _ Hchk) as (Hm & Ham & Hdest). unfold create_row in H.
  destruct (find_key m (cb_request_key body) b) as [[old x]|] eqn:Hf.
  - left. destruct (find_key_Some _ _ _ _ _ (bo_ops _ Hb) Hf) as (Hx & Hxm & _). apply raise_if_Ok in H as [Hh%bool_decide_eq_false H].
    unfold operation in H. rewrite Hx, (bool_decide_eq_false_2 (op_merchant x ≠ m)) in H by naive_solver. injection H as <- <- <-. split; [done|]. split; [by apply dec_stable|done].
  - right. apply raise_if_Ok in H as [Hcap H]. apply raise_if_Ok in H as [_ H]. apply raise_if_Ok in H as [Hw%negb_false_iff H].
    apply dmem_true in Hw as [w Hw].
    destruct (if bool_decide (k = refund) then _ else _) as [u|] eqn:Eref; [|done]. simpl in H. apply raise_if_Ok in H as [Hnew%dmem_false H].
    match type of H with (let* b := ?x in _) = _ => destruct x as [b1|] eqn:Epost; [|done] end. simpl in H.
    destruct (reserve_created m k body op now b b1 w Hb Hnew Hw Epost) as (ws & es & -> & Hkeys & Hmon & Hheld & Hent).
    set (o1 := fresh_op m k body now) in *.
    assert (operations (enqueue (execute_id op) (Execute op) now (with_new op o1 ws es b)) = dset op o1 (operations b)) as Eops.
    { by rewrite (proj1 (proj2 (core_money _ _ (same_enqueue _ _ _ _)))). }
    unfold operation in H. rewrite Eops, dget_dset, decide_True in H by done. rewrite (bool_decide_eq_false_2 (op_merchant o1 ≠ m)) in H by naive_solver.
    injection H as <- <- <-. split; [done|]. split; [done|]. split; [done|]. split; [lia|]. exists ws, es. split; [|done].
    split; [done|done|done|done|done|done|lia|done|..].
    + split; [done|apply dmem_true; by eexists|done|done|]. destruct k; simpl; [done|done|]. rewrite bool_decide_eq_true_2 in Eref by done.
      unfold operation in Eref. destruct (dget (cb_field body) (operations b)) as [po|] eqn:Ep; [|done].
      destruct (bool_decide (op_merchant po ≠ m)) eqn:Epm; [done|]. apply bool_decide_eq_false, dec_stable in Epm. simpl in Eref.
      apply raise_if_Ok in Eref as [Hpo%bool_decide_eq_false _]. exists po. split; [done|]. destruct (op_kind po), (op_status po); naive_solver.
    + intros p. pose proof (bo_refunds _ Hb p) as Hp. unfold refund_share. simpl. destruct (decide (k = refund ∧ cb_field body = p)) as [[Ek Ef]|Hne].
      * rewrite bool_decide_eq_true_2 in Eref by done. unfold operation in Eref. rewrite Ef in Eref. destruct (dget p (operations b)) as [po|] eqn:Ep; [|done].
        destruct (bool_decide (op_merchant po ≠ m)); [done|]. simpl in Eref. apply raise_if_Ok in Eref as [_ Eref]. apply raise_if_Ok in Eref as [Hle _].
        unfold amount_of. rewrite Ep. rewrite bool_decide_eq_true_2 by (subst k; naive_solver). simpl. lia.
      * rewrite bool_decide_eq_false_2 by (intros [E _]; destruct k; try done; injection E as E; naive_solver). simpl. lia.
    + intros i x Hi Hxm Hxk. eapply find_key_None; [exact Hf|exact Hi|done|done].
Qed.

Lemma create_row_kept m k body op now b b' x :
  books_ok b → check_create m k body = Ok () → drawn op = true → create_row dg m k body op now b = Ok (b', x) → kept b b'.
Proof.
  intros Hb Hc Hid H. destruct x as [id o]. apply create_row_inv in H as [(_ & _ & ->)|(_ & _ & _ & _ & ws & es & Hcr & ->)]; [by split| |done..].
  eapply kept_then; [|apply core_money, same_enqueue]. split; [by eapply created_ok|by eapply created_grows].
Qed.

Lemma pay_kept_trans b b' b'' : kept b b' → kept b' b'' → kept b b''.
Proof. intros [_ Hg] [Hb Hg']. split; [done|by etrans]. Qed.

Lemma create_kept m k body op clock b b' x : books_ok b → drawn op = true → PayBooks.create dg m k body op clock b = Ok (b', x) → kept b b'.
Proof.
  unfold PayBooks.create. intros Hb Hid H. destruct (check_create m k body) as [[]|] eqn:Ec; [|done]. simpl in H.
  destruct (timestamp clock) as [now|]; [|done]. simpl in H. by eapply create_row_kept.
Qed.

Lemma create_orders_kept id i orders fresh_id now b b' ids :
  books_ok b → (∀ i, drawn (fresh_id i) = true) → create_orders dg jd id i orders fresh_id now b = Ok (b', ids) → kept b b'.
Proof.
  revert i b ids. induction orders as [|o orders IH]; intros i b ids Hb Hid H; simpl in H; [injection H as <- _; by split|].
  destruct (check_create _ _ _) as [[]|] eqn:Ec; [|done]. simpl in H. destruct (create_row _ _ _ _ _ _ _) as [[b1 x]|] eqn:E1; [|done]. simpl in H.
  destruct (create_orders _ _ _ _ _ _ _ _) as [[b2 y]|] eqn:E2; [|done]. injection H as <- _.
  pose proof (create_row_kept _ _ _ _ _ _ _ _ Hb Ec (Hid i) E1) as Hk. eapply pay_kept_trans; [exact Hk|]. by eapply IH; [apply Hk| |exact E2].
Qed.

Lemma create_checkout_kept id orders fresh_id clock b b' x :
  books_ok b → (∀ i, drawn (fresh_id i) = true) → create_checkout dg jd id orders fresh_id clock b = Ok (b', x) → kept b b'.
Proof.
  unfold create_checkout. intros Hb Hid H. destruct (check_checkout _ _) as [u|]; [|done]. simpl in H. destruct (timestamp clock) as [now|]; [|done]. simpl in H.
  destruct (dget id (checkouts b)) as [[[hash ids] t]|].
  - destruct (bool_decide _); [done|]. simpl in H. destruct (mapR _ ids); [|done]. injection H as <- _. by split.
  - destruct (create_orders _ _ _ _ _ _ _ _) as [[b1 ids]|] eqn:E; [|done]. simpl in H. destruct (mapR _ ids); [|done]. injection H as <- _.
    by eapply kept_then; [eapply create_orders_kept|].
Qed.

(** ** Jobs and reconciliation *)

Lemma claim_same lease token clock b b' t : claim lease token clock b = Ok (b', t) → same_core b b'.
Proof.
  unfold claim. intros [_ H]%raise_if_Ok. destruct (timestamp clock) as [now|]; [|done]. simpl in H.
  destruct (next_job now b) as [[id j]|]; injection H as <- _; [|done]. etrans; [|apply same_log]. apply same_update_job.
Qed.

Lemma exhaust_same t j error now b : same_core b (exhaust dg t j error now b).
Proof. unfold exhaust. case_match; try apply same_review. etrans; [apply same_review|apply same_set_run]. Qed.

Lemma finish_job_kept t is_pending error clock b b' x : books_ok b → finish_job dg t is_pending error clock b = Ok (b', x) → kept b b'.
Proof.
  intros Hb. unfold finish_job. intros H. destruct (job_identity t); [|done]. simpl in H. apply raise_if_Ok in H as [_ H].
  destruct (timestamp clock) as [now|]; [|done]. simpl in H. destruct (held_job t now b) as [j|]; [|injection H as <- _; by split].
  injection H as <- _. apply (kept_then _ (match error with Some _ => doubt (jb_payload j) b | None => b end)).
  { destruct error; [by apply doubt_kept|by split]. }
  apply core_money. etrans; [|apply same_log]. etrans; [|apply same_update_job]. destruct (5 <=? _); [apply exhaust_same|done].
Qed.

Lemma retry_same op clock b b' : retry op clock b = Ok b' → same_core b b'.
Proof.
  unfold retry. intros H. destruct (timestamp clock) as [now|]; [|done]. simpl in H. destruct (operation op None b) as [o|]; [|done]. simpl in H.
  apply raise_if_Ok in H as [_ [= <-]]. apply same_update_job.
Qed.

Lemma retry_job_same id clock b b' : retry_job id clock b = Ok b' → same_core b b'.
Proof.
  unfold retry_job. intros H. destruct (timestamp clock) as [now|]; [|done]. simpl in H. destruct (dget id (jobs b)) as [j|]; [|done].
  apply raise_if_Ok in H as [_ [= <-]]. case_match; try apply same_update_job. etrans; [apply same_update_job|apply same_set_run].
Qed.

Lemma schedule_same run clock b b' : schedule_reconcile run clock b = Ok b' → same_core b b'.
Proof.
  unfold schedule_reconcile. intros H. destruct (timestamp clock) as [now|]; [|done]. simpl in H. apply raise_if_Ok in H as [_ [= <-]].
  etrans; [|apply same_enqueue]. done.
Qed.

(** A fold that only files reviews. *)
Lemma fold_same {A X} (f : Books * X → A → Books * X) l x :
  (∀ x a, same_core x.1 (f x a).1) → same_core x.1 (foldl f x l).1.
Proof. intros Hf. revert x. induction l as [|a l IH]; intros x; [done|]. simpl. etrans; [apply Hf|apply IH]. Qed.

Lemma reconcile_fold_same now l x : same_core x.1.1 (foldl (reconcile_operation dg now) x l).1.1.
Proof.
  revert x. induction l as [|a l IH]; intros x; [done|]. simpl. etrans; [|apply IH]. unfold reconcile_operation. case_match; [|done]. apply same_review.
Qed.

Lemma compare_same rows now b : same_core b (compare dg rows now b).1.1.
Proof.
  unfold compare. pose proof (reconcile_fold_same now (sort_by fst (operations b)) (b, [], foldl (λ d r, dset (r_id r) r d) [] rows)) as H1.
  destruct (foldl (reconcile_operation dg now) _ _) as [[b1 ds] rest]. simpl in H1. etrans; [exact H1|]. cbn [fst].
  pose proof (fold_same (orphan dg now) rest (b1, ds) ltac:(intros x a; apply same_review)) as H2. simpl in H2. etrans; [exact H2|].
  apply fold_same. intros x a. apply same_review.
Qed.

Lemma reconcile_same run s job clock b b' x : reconcile dg jd run s job clock b = Ok (b', x) → same_core b b'.
Proof.
  unfold reconcile. intros H. destruct (check_identifier run); [|done]. simpl in H. destruct (statement_copy dg jd s) as [s'|]; [|done]. simpl in H.
  destruct (timestamp clock) as [now|]; [|done]. simpl in H. destruct (dget run (runs b)) as [r|]; [|done].
  pose proof (compare_same (st_operations s') now b) as Hc. destruct (compare dg (st_operations s') now b) as [[b1 ds] au]. cbn [fst] in Hc.
  assert (∀ (m : result unit) y, (let* _ := m in Ok (set_run run run_done (Some y) b1, y)) = Ok (b', x) → same_core b b') as Hrun.
  { intros [u|] y Hy; [|done]. injection Hy as <- _. etrans; [exact Hc|apply same_set_run]. }
  destruct (rn_status r); [by eapply Hrun|destruct (rn_result r); [by injection H as <- _|done]|by eapply Hrun].
Qed.

(** ** Reachable books *)

Lemma step_kept b b' : books_ok b → books_step dg jd b b' → kept b b'.
Proof.
  intros Hb Hs. revert Hb. destruct Hs as [b0 r clock b1 Hd H|b0 r event clock b1 a H|b0 lease token clock b1 t H|b0 t p e clock b1 x H|b0 run s job clock b1 x H]; intros Hb.
  - destruct r; simpl in H, Hd.
    + destruct (PayBooks.create _ _ _ _ _ _ _) as [[b2 y]|] eqn:E; [|done]. injection H as <-. by eapply create_kept.
    + destruct (create_checkout _ _ _ _ _ _ _) as [[b2 y]|] eqn:E; [|done]. injection H as <-. by eapply create_checkout_kept.
    + by eapply kept_same, core_money, retry_same.
    + by eapply kept_same, core_money, retry_job_same.
    + by eapply kept_same, core_money, schedule_same.
  - by eapply apply_kept.
  - by eapply kept_same, core_money, claim_same.
  - by eapply finish_job_kept.
  - by eapply kept_same, core_money, reconcile_same.
Qed.

Lemma steps_kept b b' : books_ok b → rtc (books_step dg jd) b b' → kept b b'.
Proof.
  intros Hb H. revert Hb. induction H as [b|b b1 b' Hs _ IH]; intros Hb; [by split|].
  pose proof (step_kept _ _ Hb Hs) as Hk. eapply pay_kept_trans; [exact Hk|apply IH, Hk].
Qed.

Lemma new_books_ok ms b : new_books ms = Ok b → books_ok b ∧ (operations b = [] ∧ entries b = []) ∧ jobs b = [] ∧ versions b = [] ∧ inbox b = [].
Proof.
  unfold new_books. intros H. destruct (mapR _ ms) as [ms'|]; [|done]. injection H as <-. split; [|done].
  assert (∀ l ws, wallets_ok ws (λ _, 0) 0 → wallets_ok (foldl (λ ws m, if dmem m ws then ws else dset m (mk_wallet 0 0) ws) ws l) (λ _, 0) 0) as Hf.
  { induction l as [|m l IH]; intros ws Hws; [done|]. simpl. apply IH. destruct (dmem m ws) eqn:E; [done|]. apply dmem_false in E.
    destruct Hws as [H1 H2 H3]. split; [by apply dset_ok| |].
    - intros m' w. rewrite dget_dset. case_decide; [intros [= <-]; done|apply H2].
    - unfold liability in *. rewrite zsum_dset_new by done. simpl. lia. }
  split; try done; [|apply dict_nil_ok]. split; [|apply dict_nil_ok|done]. apply Hf. split; [apply dict_nil_ok|done|done].
Qed.

Lemma books_reachable_ok b : books_reachable dg jd b → books_ok b.
Proof. intros (ms & b0 & Hn & Hs). by apply (steps_kept b0 b (proj1 (new_books_ok _ _ Hn)) Hs). Qed.
End steps.
