(* ===== verification/PayWorld.v ===== *)
(** * The world of payments

    First what the provider of PayProvider.v keeps of the operations of the books: every
    row answers to one operation, a payout or refund is decided at once and a pay-in once,
    and a receipt that was ever sent is one of the two versions of its row.  Then the
    invariant that joins the books with the provider and the receiver: what the books hold
    of an operation is a version that the provider issued, a receipt already taken was
    issued too, and jobs and events are those of their operations.  Every move of PayWork.v
    keeps it. *)
From stdpp Require Import pretty.
From Stdlib Require Import Ascii.
From S2P Require Import Prelude PyList PyDict Checks Effects PayBooks PayJobs PayProvider PayWork PayInv PaySteps.
Local Open Scope Z_scope.

(** ** Texts *)

Lemma string_app_length (x y : string) : String.length (x +:+ y) = (String.length x + String.length y)%nat.
Proof. induction x; simpl; [done|by rewrite IHx]. Qed.

Lemma append_cancel (s t u v : string) : s +:+ u = t +:+ v → String.length u = String.length v → s = t ∧ u = v.
Proof.
  revert t. induction s as [|c s IH]; intros [|d t] E Hl; simpl in E.
  - by split.
  - apply (f_equal String.length) in E. simpl in E. rewrite (string_app_length t v) in E. change ("" +:+ u) with u in E. lia.
  - apply (f_equal String.length) in E. simpl in E. rewrite (string_app_length s u) in E. change ("" +:+ v) with v in E. lia.
  - injection E as <- E. destruct (IH t E Hl) as [<- <-]. by split.
Qed.

Lemma event_id_inj r r' :
  (r_revision r = 1 ∨ r_revision r = 2) → (r_revision r' = 1 ∨ r_revision r' = 2) → event_id r = event_id r' → r_id r = r_id r' ∧ r_revision r = r_revision r'.
Proof.
  unfold event_id. intros H H' E.
  assert (∀ n : Z, n = 1 ∨ n = 2 → String.length ("_" +:+ pretty n) = 2%nat) as Hlen by (intros n [-> | ->]; reflexivity).
  injection E as E.
  apply (append_cancel (r_id r) (r_id r')) in E as [-> E]; [|etrans; [apply Hlen, H|symmetry; apply Hlen, H']]. split; [done|].
  destruct H as [E1 | E1], H' as [E2 | E2]; rewrite E1, E2 in *; done.
Qed.

(** ** Rows *)

Definition final_status (destination : string) : Status := if bool_decide (destination = "test-bank-decline") then FAILED else SUCCEEDED.

(** The first version of a pay-in that the buyer has decided. *)
Definition earlier (r : Receipt) : Receipt :=
  mk_receipt (r_id r) (r_merchant r) (r_kind r) (r_parent r) (r_amount r) (r_currency r) (r_provider r) PENDING 1 (r_checkout r).
Definition issued (p : PSP) (r : Receipt) : Prop :=
  ∃ row, dget (r_id r) (rows p) = Some row ∧ (r = row_receipt row ∨ r_revision (row_receipt row) = 2 ∧ r = earlier (row_receipt row)).

Section charges.
Context (dg : Digests) (jd : JobDigests) (digest_intent : Intent → string) (provider_url : string).
Context (checkout_local : ∀ token, identifier token = true → local_checkout dg (provider_url +:+ "/checkout/" +:+ token) = true).

Record row_ok (id : string) (row : Row) (o : Op) : Prop := mk_row_ok {
  ro_hash : row_hash row = digest_intent (intent_of id o);
  ro_id : r_id (row_receipt row) = id;
  ro_order : same_order o (row_receipt row) = true;
  ro_provider : identifier (r_provider (row_receipt row)) = true;
  ro_state : let r := row_receipt row in
    match op_kind o with
    | payin => (∃ token, identifier token = true ∧ r_checkout r = Some (provider_url +:+ "/checkout/" +:+ token)) ∧
               (r_revision r = 1 ∧ r_status r = PENDING ∨ r_revision r = 2 ∧ terminal (r_status r) = true)
    | _ => r_checkout r = None ∧ r_revision r = 1 ∧ r_status r = final_status (op_destination o)
    end;
}.

Lemma row_ok_same id row o o' : same_fields o o' → row_ok id row o → row_ok id row o'.
Proof.
  intros (E1 & E2 & E3 & E4 & E5 & _) [H1 H2 H3 H4 H5]. unfold same_order, intent_of in *. split; unfold intent_of, same_order; by rewrite ?E1, ?E2, ?E3, ?E4, ?E5.
Qed.

Record psp_ok (p : PSP) (b : Books) : Prop := mk_psp_ok {
  pk_rows : dict_ok (rows p);
  pk_row : ∀ id row, dget id (rows p) = Some row → ∃ o, dget id (operations b) = Some o ∧ row_ok id row o;
  pk_providers : ∀ id id' row row', dget id (rows p) = Some row → dget id' (rows p) = Some row' →
    r_provider (row_receipt row) = r_provider (row_receipt row') → id = id';
  pk_keys : dict_ok (hooks p);
  pk_hooks : ∀ e h, dget e (hooks p) = Some h → e = event_id (hk_payload h) ∧ issued p (hk_payload h);
}.

Lemma psp_grows_books p b b' : psp_ok p b → grows b b' → psp_ok p b'.
Proof.
  intros [H1 H2 H3 Hk H4] [Hg _]. split; try done. intros id row Hrow. destruct (H2 id row Hrow) as (o & Ho & Hr).
  destruct (Hg id o Ho) as (o' & Ho' & Hs & _). exists o'. split; [done|]. by eapply row_ok_same.
Qed.

(** A row has at most two versions. *)
Lemma row_versions id row o : row_ok id row o → r_revision (row_receipt row) = 1 ∨ r_revision (row_receipt row) = 2 ∧ op_kind o = payin ∧ terminal (r_status (row_receipt row)) = true.
Proof. intros [_ _ _ _ H]. simpl in H. destruct (op_kind o); naive_solver. Qed.

Lemma issued_row p b r : psp_ok p b → issued p r →
  ∃ row o, dget (r_id r) (rows p) = Some row ∧ dget (r_id r) (operations b) = Some o ∧ row_ok (r_id r) row o ∧
    (r = row_receipt row ∨ r_revision (row_receipt row) = 2 ∧ r = earlier (row_receipt row)).
Proof. intros Hp (row & Hrow & Hr). destruct (pk_row _ _ Hp _ _ Hrow) as (o & Ho & Hok). by exists row, o. Qed.

Lemma issued_revision p b r : psp_ok p b → issued p r → r_revision r = 1 ∨ r_revision r = 2.
Proof. intros Hp Hi. destruct (issued_row _ _ _ Hp Hi) as (row & o & _ & _ & Hok & [->|[_ ->]]); [|by left]. destruct (row_versions _ _ _ Hok) as [|[]]; auto. Qed.

Lemma issued_unique p b r r' : psp_ok p b → issued p r → issued p r' → r_id r = r_id r' → r_revision r = r_revision r' → r = r'.
Proof.
  intros Hp Hi Hi' Hid Hrev. destruct (issued_row _ _ _ Hp Hi) as (row & o & Hrow & _ & Hok & Hr). destruct (issued_row _ _ _ Hp Hi') as (row' & o' & Hrow' & _ & _ & Hr').
  rewrite <- Hid, Hrow in Hrow'. injection Hrow' as <-.
  destruct Hr as [E|[E1 E]], Hr' as [E'|[E1' E']]; try congruence; rewrite E, E' in Hrev; simpl in Hrev; congruence.
Qed.

(** An issued receipt is of its operation, and well formed. *)
Lemma issued_order p b r : psp_ok p b → issued p r → ∃ o, dget (r_id r) (operations b) = Some o ∧ same_order o r = true ∧
  (r_status r = PENDING ∨ terminal (r_status r) = true).
Proof.
  intros Hp Hi. destruct (issued_row _ _ _ Hp Hi) as (row & o & _ & Ho & Hok & Hr). exists o. split; [done|].
  destruct Hr as [E|[_ E]]; rewrite E; (split; [apply Hok|]); [|by left].
  pose proof (ro_state _ _ _ Hok) as H. simpl in H. destruct (op_kind o); [naive_solver|..]; right; destruct H as (_ & _ & ->); unfold final_status; by case_bool_decide.
Qed.

Lemma issued_copy p b r : books_ok b → psp_ok p b → issued p r → receipt_copy dg r = Ok r.
Proof.
  intros Hb Hp Hi. destruct (issued_row _ _ _ Hp Hi) as (row & o & _ & Ho & Hok & Hr).
  destruct (issued_order _ _ _ Hp Hi) as (o' & Ho' & Hord & Hst). rewrite Ho in Ho'. injection Ho' as <-.
  destruct (bo_op _ Hb _ _ Ho) as [[[Hid _]%andb_prop Hm] _ Ham _ Hpar]. apply bool_decide_eq_true in Hord as (Em & Ek & Epar & Ea & Ec).
  assert (identifier (r_provider r) = true ∧ 1 <= r_revision r <= 2 ∧ match r_checkout r with Some u => r_kind r = payin ∧ local_checkout dg u = true | None => True end) as (Hpr & Hrev & Hch).
  { destruct Hok as [_ _ Hord' Hpr Hs]. simpl in Hs. apply bool_decide_eq_true in Hord' as (_ & Ek' & _).
    assert (r_provider r = r_provider (row_receipt row) ∧ r_checkout r = r_checkout (row_receipt row)) as [-> ->] by (destruct Hr as [->|[_ ->]]; done). split; [done|].
    destruct (op_kind o) eqn:Ekind; [destruct Hs as [(token & Ht & ->) Hs]|destruct Hs as (-> & Hs & _)..].
    2,3: destruct Hr as [->|[Hr2 _]]; [split; [lia|done]|lia].
    split; [destruct Hr as [->|[_ ->]]; simpl; lia|]. split; [by rewrite <- Ek|]. by apply checkout_local. }
  unfold receipt_copy, check_identifier, money. rewrite Hid, <- Em, Hm, Hpr, <- Ea. simpl. rewrite (proj2 (integer_spec _ _ _)) by done. simpl.
  rewrite (proj2 (integer_spec (r_revision r) _ _)) by lia. simpl.
  rewrite bool_decide_eq_false_2. 2: { unfold terminal in Hst. rewrite bool_decide_eq_true in Hst. naive_solver. } simpl.
  rewrite <- Ek, <- Epar. destruct (op_kind o) eqn:Ekind; destruct (op_parent o) as [par|] eqn:Epo; try done; simpl.
  - destruct (r_checkout r); [|done]. destruct Hch as [_ ->]. done.
  - destruct (r_checkout r); [|done]. destruct Hch; congruence.
  - destruct Hpar as (po & Hpo & _). destruct (bo_op _ Hb _ _ Hpo) as [[[-> _]%andb_prop _] _ _ _ _]. simpl. destruct (r_checkout r); [|done]. destruct Hch; congruence.
Qed.

(** ** Steps of the provider *)

(** Rows stay, and only a pending pay-in gets its second version. *)
Definition psp_grows (p p' : PSP) : Prop :=
  ∀ id row, dget id (rows p) = Some row → ∃ row', dget id (rows p') = Some row' ∧
    (row_receipt row' = row_receipt row ∨
     row_receipt row = earlier (row_receipt row') ∧ r_revision (row_receipt row') = 2).

#[export] Instance psp_grows_refl : Reflexive psp_grows.
Proof. intros p id row Hrow. exists row. auto. Qed.

#[export] Instance psp_grows_trans : Transitive psp_grows.
Proof.
  intros p1 p2 p3 H1 H2 id row Hrow. destruct (H1 id row Hrow) as (row2 & Hrow2 & Hc). destruct (H2 id row2 Hrow2) as (row3 & Hrow3 & Hc').
  exists row3. split; [done|]. destruct Hc as [E|[E E1]], Hc' as [E'|[E' E1']]; [left; congruence|right; split; congruence|right; split; congruence|].
  rewrite E' in E1. done.
Qed.

Lemma issued_grows p p' r : psp_grows p p' → issued p r → issued p' r.
Proof.
  intros Hg (row & Hrow & Hr). destruct (Hg _ _ Hrow) as (row' & Hrow' & Hc). exists row'. split; [done|].
  destruct Hc as [-> |[E E1]]; [done|]. right. split; [done|]. destruct Hr as [->|[E2 ->]]; [done|]. rewrite E in E2. done.
Qed.

Lemma same_rows_grows p p' : rows p' = rows p → psp_grows p p'.
Proof. intros E id row Hrow. exists row. rewrite E. auto. Qed.

(** The hooks of the provider, over the same rows. *)
Lemma psp_hooks_ok p p' b :
  psp_ok p b → rows p' = rows p → dict_ok (hooks p') → (∀ e h, dget e (hooks p') = Some h → ∃ h0, dget e (hooks p) = Some h0 ∧ hk_payload h = hk_payload h0) → psp_ok p' b.
Proof.
  intros [H1 H2 H3 _ H4] E Hk Hh. split; rewrite ?E; try done. intros e h He. destruct (Hh e h He) as (h0 & Hh0 & ->).
  destruct (H4 e h0 Hh0) as [-> Hi]. split; [done|]. by eapply issued_grows; [apply same_rows_grows|].
Qed.

Lemma queue_event_ok row now p b : psp_ok p b → issued p (row_receipt row) → psp_ok (queue_event row now p) b ∧ rows (queue_event row now p) = rows p.
Proof.
  intros Hp Hi. unfold queue_event. destruct (dmem (event_id (row_receipt row)) (hooks p)); [done|]. split; [|done].
  destruct Hp as [H1 H2 H3 Hk H4]. split; try done; [by apply dset_ok|]. intros e h. simpl. rewrite dget_dset. case_decide; [|apply H4].
  intros [= <-]. by subst e.
Qed.

(** A write of one row. *)
Lemma set_row_ok id row o p b :
  psp_ok p b → dget id (operations b) = Some o → row_ok id row o →
  match dget id (rows p) with
  | Some old => r_provider (row_receipt row) = r_provider (row_receipt old) ∧ row_receipt old = earlier (row_receipt row) ∧ r_revision (row_receipt row) = 2
  | None => ∀ i x, dget i (rows p) = Some x → r_provider (row_receipt x) ≠ r_provider (row_receipt row)
  end →
  psp_ok (set_row id row p) b ∧ psp_grows p (set_row id row p) ∧ issued (set_row id row p) (row_receipt row).
Proof.
  intros [H1 H2 H3 Hk H4] Ho Hr Hc.
  assert (psp_grows p (set_row id row p)) as Hg.
  { intros i x Hx. simpl. rewrite dget_dset. case_decide; [|exists x; auto]. subst i. rewrite Hx in Hc. exists row. split; [done|]. right. apply Hc. }
  split; [|split; [done|]].
  - split; [by apply dset_ok|..].
    + intros i x. simpl. rewrite dget_dset. case_decide; [|apply H2]. intros [= <-]. subst i. by exists o.
    + assert (∀ i x, dget i (rows p) = Some x → id ≠ i → r_provider (row_receipt x) ≠ r_provider (row_receipt row)) as Hne.
      { intros i x Hx Hi. destruct (dget id (rows p)) as [old|] eqn:E; [|by apply (Hc i)]. destruct Hc as [-> _]. intros Heq. by apply Hi, (H3 _ _ old x). }
      intros i i' x x'. simpl. rewrite !dget_dset. repeat case_decide; subst; try done.
      * intros [= <-] Hx' E. exfalso. by eapply Hne.
      * intros Hx [= <-] E. exfalso. by eapply Hne.
      * apply H3.
    + done.
    + intros e h He. destruct (H4 e h He) as [-> Hi]. split; [done|]. by eapply issued_grows.
  - exists row. rewrite (ro_id _ _ _ Hr). simpl. rewrite dget_dset, decide_True by done. auto.
Qed.

(** A new row, or a new version of one, with its event. *)
Lemma put_row_ok id row o now p b :
  psp_ok p b → dget id (operations b) = Some o → row_ok id row o →
  match dget id (rows p) with
  | Some old => r_provider (row_receipt row) = r_provider (row_receipt old) ∧ row_receipt old = earlier (row_receipt row) ∧ r_revision (row_receipt row) = 2
  | None => ∀ i x, dget i (rows p) = Some x → r_provider (row_receipt x) ≠ r_provider (row_receipt row)
  end →
  let p' := queue_event row now (set_row id row p) in psp_ok p' b ∧ psp_grows p p' ∧ issued p' (row_receipt row).
Proof.
  intros Hp Ho Hr Hc p'. destruct (set_row_ok id row o p b Hp Ho Hr Hc) as (Hp1 & Hg & Hi).
  destruct (queue_event_ok row now _ _ Hp1 Hi) as [Hp2 E]. split; [done|].
  split; [etrans; [exact Hg|by apply same_rows_grows]|by eapply issued_grows; [apply same_rows_grows|]].
Qed.

Lemma row_issued id row p b : psp_ok p b → dget id (rows p) = Some row → issued p (row_receipt row).
Proof. intros Hp Hrow. destruct (pk_row _ _ Hp _ _ Hrow) as (o & _ & Hr). exists row. rewrite (ro_id _ _ _ Hr). auto. Qed.

Definition decided (b : Books) (p p' : PSP) (row : Row) : Prop := psp_ok p' b ∧ psp_grows p p' ∧ ∃ id, dget id (rows p') = Some row.

Lemma queue_event_rows row now p : rows (queue_event row now p) = rows p.
Proof. unfold queue_event. by case_match. Qed.

Lemma decide_row_ok id st row now p b :
  psp_ok p b → dget id (rows p) = Some row → r_status (row_receipt row) = PENDING → terminal st = true →
  psp_ok (decide_row id st row now p).1 b ∧ psp_grows p (decide_row id st row now p).1 ∧
  dget id (rows (decide_row id st row now p).1) = Some (decide_row id st row now p).2.
Proof.
  intros Hp Hrow Hpend Hst. destruct (pk_row _ _ Hp _ _ Hrow) as (o & Ho & Hr).
  assert (op_kind o = payin ∧ r_revision (row_receipt row) = 1) as [Hk Hrev].
  { pose proof (ro_state _ _ _ Hr) as H. simpl in H. rewrite Hpend in H. destruct (op_kind o).
    - split; [done|]. destruct H as (_ & [[]|[_ ?]]); [done|done].
    - destruct H as (_ & _ & H). unfold final_status in H. by case_bool_decide.
    - destruct H as (_ & _ & H). unfold final_status in H. by case_bool_decide. }
  assert (row_ok id (settle_row st row) o) as Hr'.
  { destruct Hr as [R1 R2 R3 R4 R5]. split; try done. simpl in *. rewrite Hk, Hrev in *. split; [apply R5|]. by right. }
  unfold decide_row. simpl. destruct (put_row_ok id (settle_row st row) o now p b Hp Ho Hr') as (Hp' & Hg & Hi).
  - rewrite Hrow. split; [done|]. simpl. rewrite Hrev. split; [|done]. unfold earlier. simpl. rewrite <- Hpend, <- Hrev. by destruct (row_receipt row).
  - split; [done|]. split; [done|]. rewrite queue_event_rows. simpl. by rewrite dget_dset, decide_True.
Qed.

Lemma expire_ok id row now p b :
  psp_ok p b → dget id (rows p) = Some row →
  let x := expire id row now p in psp_ok x.1 b ∧ psp_grows p x.1 ∧ dget id (rows x.1) = Some x.2.
Proof.
  intros Hp Hrow. unfold expire. case_bool_decide as Hs; simpl; [|done]. destruct (row_expires row <=? now); [|done].
  by apply decide_row_ok.
Qed.

Lemma choose_ok id choice row now p b x :
  psp_ok p b → dget id (rows p) = Some row → choose id choice row now p = Ok x → psp_ok x.1 b ∧ psp_grows p x.1 ∧ dget id (rows x.1) = Some x.2.
Proof.
  intros Hp Hrow H. unfold choose in H. apply raise_if_Ok in H as [_ H]. case_bool_decide as Hs; injection H as <-; [|done].
  apply decide_row_ok; [done|done|done|]. by destruct (_ && _).
Qed.

Lemma pay_get_ok id clock p p' b r : psp_ok p b → get id clock p = Ok (p', r) → psp_ok p' b ∧ psp_grows p p' ∧ issued p' r ∧ r_id r = id.
Proof.
  intros Hp. unfold get. intros H. destruct (check_identifier id); [|done]. simpl in H. apply raise_if_Ok in H as [_ H].
  destruct (timestamp clock) as [now|]; [|done]. simpl in H. destruct (dget id (rows p)) as [row|] eqn:Hrow; [|done].
  destruct (expire_ok id row now p b Hp Hrow) as (Hp' & Hg & Hrow'). injection H as <- <-. split; [done|]. split; [done|].
  split; [by eapply row_issued|]. destruct (pk_row _ _ Hp' _ _ Hrow') as (o & _ & Hr). apply Hr.
Qed.

Lemma checkout_ok token choice clock p p' b r : psp_ok p b → checkout_commit token choice clock p = Ok (p', r) → psp_ok p' b ∧ psp_grows p p' ∧ issued p' r.
Proof.
  intros Hp. unfold checkout_commit. intros H. destruct (check_identifier token); [|done]. simpl in H.
  destruct (timestamp clock) as [now|]; [|done]. simpl in H. destruct (find_token token p) as [[id row]|] eqn:Hf; [|done].
  assert (dget id (rows p) = Some row) as Hrow.
  { unfold find_token in Hf. apply head_Some_elem_of, list_elem_of_filter in Hf as [_ Hf]. by apply dget_Some; [apply Hp|]. }
  destruct (expire_ok id row now p b Hp Hrow) as (Hp' & Hg & Hrow'). destruct choice as [c|].
  - destruct (choose id c (expire id row now p).2 now (expire id row now p).1) as [x|] eqn:Ec; [|done]. injection H as <- <-.
    destruct (choose_ok _ _ _ _ _ _ _ Hp' Hrow' Ec) as (Hp2 & Hg2 & Hrow2). split; [done|]. split; [by etrans|]. by eapply row_issued.
  - injection H as <- <-. split; [done|]. split; [done|]. by eapply row_issued.
Qed.

Lemma create_commit_ok op o provider token clock p p' b r :
  books_ok b → psp_ok p b → dget op (operations b) = Some o → charge_fresh provider token p →
  create_commit digest_intent provider_url (intent_of op o) provider token clock p = Ok (p', r) →
  psp_ok p' b ∧ psp_grows p p' ∧ issued p' r ∧ r_id r = op.
Proof.
  intros Hb Hp Ho (Hpr & Htok & Hfresh). unfold create_commit. intros H. destruct (check_intent _) as [[]|]; [|done]. simpl in H.
  destruct (timestamp clock) as [now|]; [|done]. simpl in H. destruct (dget op (rows p)) as [old|] eqn:Hold.
  - apply raise_if_Ok in H as [_ [= <- <-]]. split; [done|]. split; [done|]. split; [by eapply row_issued|].
    destruct (pk_row _ _ Hp _ _ Hold) as (o' & _ & Hr). apply Hr.
  - do 3 apply raise_if_Ok in H as [_ H]. injection H as <- <-.
    destruct (put_row_ok op (new_row digest_intent provider_url (intent_of op o) provider token now) o now p b Hp Ho) as (H1 & H2 & H3); [|by rewrite Hold|done].
    pose proof (ok_destination _ _ _ (bo_op _ Hb _ _ Ho)) as Hd. split; [done|done|by apply bool_decide_eq_true|done|]. simpl.
    destruct (op_kind o); [split; [by exists token|by left]|split; [done|]; split; [done|]..].
    + done.
    + apply bool_decide_eq_true in Hd. unfold final_status. by rewrite Hd.
Qed.

Lemma set_hook_ok e h h0 p b : psp_ok p b → dget e (hooks p) = Some h0 → hk_payload h = hk_payload h0 → psp_ok (set_hook e h p) b.
Proof.
  intros Hp Hh E. eapply psp_hooks_ok; [exact Hp|done|apply dset_ok, Hp|]. intros e' h'. simpl. rewrite dget_dset. case_decide; [|by eauto].
  intros [= <-]. subst e'. by exists h0.
Qed.

Lemma claim_hook_ok token clock p p' b x : psp_ok p b → claim_hook token clock p = Ok (p', x) →
  (psp_ok p' b ∧ rows p' = rows p) ∧ match x with Some (e, h) => dget e (hooks p) = Some h | None => True end.
Proof.
  intros Hp. unfold claim_hook. intros H. destruct (timestamp clock) as [now|]; [|done]. simpl in H.
  destruct (webhooks_down (control p)); [by injection H as <- <-|]. destruct (next_hook now p) as [[e h]|] eqn:En; injection H as <- <-; [|done].
  unfold next_hook in En. apply head_Some_elem_of in En. rewrite elem_of_sort_by in En. apply list_elem_of_filter in En as [_ En].
  apply dget_Some in En; [|apply Hp]. split; [|done]. split; [|done]. by eapply set_hook_ok.
Qed.

Lemma finish_hook_ok e h token error clock p p' b : psp_ok p b → finish_hook e h token error clock p = Ok p' → psp_ok p' b ∧ rows p' = rows p.
Proof.
  intros Hp. unfold finish_hook. intros H. destruct (timestamp clock) as [now|]; [|done]. simpl in H.
  destruct (dget e (hooks p)) as [x|] eqn:Ex; [|by injection H as <-]. case_bool_decide; [|by injection H as <-].
  destruct error; injection H as <-; (split; [by eapply set_hook_ok|done]).
Qed.

Lemma set_control_ok body p p' b : psp_ok p b → set_control body p = Ok p' → psp_ok p' b ∧ rows p' = rows p.
Proof.
  unfold set_control. intros Hp [_ [= <-]]%raise_if_Ok. split; [|done]. eapply psp_hooks_ok; [exact Hp|done|apply Hp|by eauto].
Qed.

Lemma psp_empty_ok b : psp_ok psp_empty b.
Proof. split; try done; apply dict_nil_ok. Qed.
End charges.

(** ** The books, the provider and the receiver *)

(** The event of a finished operation. *)
Definition event_of (op : string) (o : Op) : Event := mk_event ("terminal_" +:+ op) op (op_merchant o) (op_status o) (op_amount o).
Definition event_ok (e : Event) (b : Books) : Prop :=
  ∃ o, dget (ev_operation e) (operations b) = Some o ∧ terminal (op_status o) = true ∧ e = event_of (ev_operation e) o.

Definition payload_ok (id : string) (p : Payload) (b : Books) : Prop :=
  match p with
  | Execute op => id = execute_id op ∧ is_Some (dget op (operations b))
  | Notify e => id = notify_id (ev_operation e) ∧ event_ok e b
  | Reconcile run => id = reconcile_id run
  end.

(** A job that may run has failed at most four times. *)
Definition retries_ok (j : Job) : Prop := jb_status j = pending ∨ jb_status j = inflight → jb_failures j <= 4.

Record jobs_ok (b : Books) : Prop := mk_jobs_ok {
  jo_dict : dict_ok (jobs b);
  jo_named : ∀ id j, dget id (jobs b) = Some j → payload_ok id (jb_payload j) b ∧ retries_ok j;
}.
(** Every operation has its job, and every finished one its notification. *)
Definition told (b : Books) : Prop := ∀ op o, dget op (operations b) = Some o →
  is_Some (dget (execute_id op) (jobs b)) ∧ (terminal (op_status o) = true → is_Some (dget (notify_id op) (jobs b))).
Definition jobs_stay (b b' : Books) : Prop := ∀ id j, dget id (jobs b) = Some j → ∃ j', dget id (jobs b') = Some j' ∧ jb_payload j' = jb_payload j.

(** What the books know of an operation is a version of it that the provider issued. *)
Definition view_ok (p : PSP) (id : string) (o : Op) : Prop :=
  (op_revision o = 0 ∧ op_provider o = None ∧ op_checkout o = None ∧ (op_status o = CREATED ∨ op_status o = UNKNOWN)) ∨
  ∃ r, issued p r ∧ r_id r = id ∧ r_revision r = op_revision o ∧ op_provider o = Some (r_provider r) ∧ op_checkout o = r_checkout r ∧
    (op_status o = r_status r ∨ op_status o = UNKNOWN ∧ r_status r = PENDING).

#[export] Instance jobs_stay_preorder : PreOrder jobs_stay.
Proof.
  split; [intros b id j Hj; by exists j|]. intros b1 b2 b3 H1 H2 id j Hj. destruct (H1 id j Hj) as (j2 & Hj2 & E). destruct (H2 id j2 Hj2) as (j3 & Hj3 & E').
  exists j3. split; [done|congruence].
Qed.

Lemma same_jobs_stay b b' : jobs b' = jobs b → jobs_stay b b'.
Proof. intros E id j Hj. exists j. by rewrite E. Qed.

Lemma event_ok_grows e b b' : grows b b' → event_ok e b → event_ok e b'.
Proof.
  intros [Hg _] (o & Ho & Ht & He). destruct (Hg _ _ Ho) as (o' & Ho' & _ & Hsame). exists o'. rewrite (Hsame Ht) in *. done.
Qed.
Lemma payload_ok_grows id p b b' : grows b b' → payload_ok id p b → payload_ok id p b'.
Proof.
  intros Hg. destruct p; simpl; [|intros [-> He]; split; [done|by eapply event_ok_grows]|done].
  intros [-> [o Ho]]. split; [done|]. destruct (gr_ops _ _ Hg _ _ Ho) as (o' & Ho' & _). by exists o'.
Qed.

Lemma execute_id_inj x y : execute_id x = execute_id y → x = y.
Proof. unfold execute_id. by intros [= H]. Qed.
Lemma notify_id_inj x y : notify_id x = notify_id y → x = y.
Proof. unfold notify_id. by intros [= H]. Qed.

Section world.
Context (dg : Digests) (jd : JobDigests) (digest_intent : Intent → string) (digest_event : Event → string) (provider_url : string).
Context (checkout_local : ∀ token, identifier token = true → local_checkout dg (provider_url +:+ "/checkout/" +:+ token) = true).
Notation psp_ok := (psp_ok digest_intent provider_url).

Record views_ok (p : PSP) (b : Books) : Prop := mk_views_ok {
  vo_ops : ∀ id o, dget id (operations b) = Some o → view_ok p id o;
  vo_versions : ∀ id n h, dget (id, n) (versions b) = Some h → ∃ r, issued p r ∧ r_id r = id ∧ r_revision r = n ∧ h = digest_receipt dg r;
  vo_inbox : ∀ e h a, dget e (inbox b) = Some (h, a) → ∃ r, issued p r ∧ e = event_id r ∧ h = digest_receipt dg r ∧ ap_review a = None;
}.

Record local_ok (p : PSP) (b : Books) : Prop := mk_local_ok {
  lo_books : books_ok b;
  lo_psp : psp_ok p b;
  lo_views : views_ok p b;
  lo_jobs : jobs_ok b;
  lo_told : told b;
}.
(** A step of the books that keeps all this. *)
Definition passes (p : PSP) (b b' : Books) : Prop := local_ok p b → local_ok p b' ∧ grows b b' ∧ jobs_stay b b'.

#[export] Instance passes_preorder p : PreOrder (passes p).
Proof.
  split; [intros b Hb; by split|]. intros b1 b2 b3 H1 H2 Hb. destruct (H1 Hb) as (Hb2 & Hg & Hj). destruct (H2 Hb2) as (Hb3 & Hg' & Hj').
  split; [done|]. split; by etrans.
Qed.

Lemma view_grows p p' id o : psp_grows p p' → view_ok p id o → view_ok p' id o.
Proof. intros Hg [H|(r & Hi & H)]; [by left|]. right. exists r. split; [by eapply issued_grows|done]. Qed.
Lemma views_grow p p' b : psp_grows p p' → views_ok p b → views_ok p' b.
Proof.
  intros Hg [H1 H2 H3]. split.
  - intros id o Ho. eapply view_grows; [exact Hg|by apply H1].
  - intros id n h Hh. destruct (H2 id n h Hh) as (r & Hi & H). exists r. split; [by eapply issued_grows|done].
  - intros e h a Ha. destruct (H3 e h a Ha) as (r & Hi & H). exists r. split; [by eapply issued_grows|done].
Qed.

Lemma told_same b b' : operations b' = operations b → jobs_stay b b' → told b → told b'.
Proof.
  intros Eo Hj Ht op o. rewrite Eo. intros Ho. destruct (Ht op o Ho) as [[j Hx] Hn].
  split; [destruct (Hj _ _ Hx) as (j' & -> & _); by eexists|]. intros [x Hterm]%Hn. destruct (Hj _ _ Hterm) as (j' & -> & _). by eexists.
Qed.

(** ** Steps of the jobs *)

Lemma passes_core p b b' : same_core b b' → (jobs_ok b → jobs_ok b') → jobs_stay b b' → passes p b b'.
Proof.
  intros (Hm & Ev & Ei) Hj Hs [H1 H2 [V1 V2 V3] H4 H5]. pose proof (same_money_grows _ _ Hm) as Hg. destruct (Hm) as (_ & Eo & _).
  split; [|done]. split; [by eapply same_money_ok|by eapply psp_grows_books|split; by rewrite ?Eo, ?Ev, ?Ei|auto|by eapply told_same].
Qed.

Lemma jobs_ok_same b b' : operations b' = operations b → jobs b' = jobs b → jobs_ok b → jobs_ok b'.
Proof.
  intros Eo Ej [H1 H2]. split; [by rewrite Ej|]. intros id j. rewrite Ej. intros Hj. destruct (H2 id j Hj) as [Hp Hr]. split; [|done].
  destruct (jb_payload j); simpl in *; unfold event_ok in *; by rewrite ?Eo.
Qed.

Lemma passes_idle p b b' : same_core b b' → jobs b' = jobs b → passes p b b'.
Proof. intros Hc Ej. apply passes_core; [done|apply jobs_ok_same; [apply Hc|done]|by apply same_jobs_stay]. Qed.

Lemma passes_review p op reason d now b : passes p b (review dg op reason d now b).1.
Proof. apply passes_idle; [apply same_review|]. unfold review. by case_match. Qed.
Lemma passes_set_run p run st res b : passes p b (set_run run st res b).
Proof. apply passes_idle; [apply same_set_run|]. unfold set_run. by case_match. Qed.
Lemma passes_log p job a d now b : passes p b (log_execution job a d now b).
Proof. by apply passes_idle. Qed.

Lemma update_job_jobs id f b :
  (∀ j, jb_payload (f j) = jb_payload j) → (∀ j, dget id (jobs b) = Some j → retries_ok j → retries_ok (f j)) →
  (jobs_ok b → jobs_ok (update_job id f b)) ∧ jobs_stay b (update_job id f b).
Proof.
  intros Hp Hf. unfold update_job. destruct (dget id (jobs b)) as [j|] eqn:Hj; [|done]. split.
  - intros [H1 H2]. split; [by apply dset_ok|]. intros i x. simpl. rewrite dget_dset. case_decide as Hi.
    + intros [= <-]. subst i. destruct (H2 id j Hj) as [Hpay Hr]. split; [|by apply Hf]. by rewrite Hp.
    + intros Hx. by apply H2.
  - intros i x Hx. simpl. rewrite dget_dset. case_decide as Hi; [|by exists x]. subst i. rewrite Hj in Hx. injection Hx as <-. by exists (f j).
Qed.

Lemma passes_update p id f b :
  (∀ j, jb_payload (f j) = jb_payload j) → (∀ j, dget id (jobs b) = Some j → retries_ok j → retries_ok (f j)) → passes p b (update_job id f b).
Proof. intros Hp Hf. destruct (update_job_jobs id f b Hp Hf). by apply passes_core; [apply same_update_job|..]. Qed.

Lemma enqueue_jobs id x now b : payload_ok id x b → (jobs_ok b → jobs_ok (enqueue id x now b)) ∧ jobs_stay b (enqueue id x now b) ∧ is_Some (dget id (jobs (enqueue id x now b))).
Proof.
  intros Hx. unfold enqueue. destruct (dmem id (jobs b)) eqn:Hd.
  { split; [done|]. split; [done|]. by apply dmem_true. }
  apply dmem_false in Hd. split; [|split].
  - intros [H1 H2]. split; [by apply dset_ok|]. intros i j. simpl. rewrite dget_dset. case_decide as Hi; [|apply H2].
    intros [= <-]. subst i. split; [done|]. intros _. simpl. lia.
  - intros i j Hj. simpl. exists j. split; [|done]. rewrite dget_dset_ne; [done|]. congruence.
  - simpl. rewrite dget_dset, decide_True by done. by eexists.
Qed.

Lemma passes_enqueue p id x now b : payload_ok id x b → passes p b (enqueue id x now b).
Proof. intros Hx. destruct (enqueue_jobs id x now b Hx) as (H1 & H2 & _). by apply passes_core; [apply same_enqueue|..]. Qed.

Lemma jobs_ok_grows b b' : grows b b' → jobs b' = jobs b → jobs_ok b → jobs_ok b'.
Proof.
  intros Hg Ej [H1 H2]. split; [by rewrite Ej|]. intros id j. rewrite Ej. intros Hj. destruct (H2 id j Hj) as [Hp Hr]. split; [|done].
  by eapply payload_ok_grows.
Qed.

(** ** Steps of the operations *)

Lemma passes_new p op o ws es now b : created op o b (with_new op o ws es b) → op_revision o = 0 → op_provider o = None → op_checkout o = None → op_status o = CREATED →
  passes p b (enqueue (execute_id op) (Execute op) now (with_new op o ws es b)).
Proof.
  intros Hc Hrev Hpr Hch Hst Hl. pose proof Hl as [H1 H2 [V1 V2 V3] H4 H5]. set (b1 := with_new op o ws es b) in *.
  pose proof (created_ok _ _ _ _ H1 Hc) as Hb1. pose proof (created_grows _ _ _ _ H1 Hc) as Hg1.
  pose proof (same_enqueue (execute_id op) (Execute op) now b1) as Hcore. pose proof (core_money _ _ Hcore) as Hm.
  destruct (enqueue_jobs (execute_id op) (Execute op) now b1) as (Hj & Hs & Hex). { split; [done|]. simpl. rewrite dget_dset, decide_True by done. by eexists. }
  assert (grows b (enqueue (execute_id op) (Execute op) now b1)) as Hg by (etrans; [exact Hg1|by apply same_money_grows]).
  assert (∀ i x, dget i (operations b1) = Some x → i = op ∧ x = o ∨ dget i (operations b) = Some x) as Hget by (intros i x; simpl; rewrite dget_dset; case_decide; naive_solver).
  destruct Hcore as ((_ & Eo & _) & Ev & Ei). split; [|split; [done|etrans; [by apply (same_jobs_stay b b1)|exact Hs]]].
  split; [by eapply same_money_ok|by eapply psp_grows_books| |apply Hj; by eapply jobs_ok_grows|].
  - split; rewrite ?Eo, ?Ev, ?Ei; [|done|done]. intros i x [[-> ->]|Hx]%Hget; [|by apply V1]. left. auto.
  - intros i x. rewrite Eo. intros [[-> ->]|Hx]%Hget; [split; [done|by rewrite Hst]|].
    destruct (H5 i x Hx) as [[j Hi] Hn]. assert (∀ id, is_Some (dget id (jobs b)) → is_Some (dget id (jobs (enqueue (execute_id op) (Execute op) now b1)))) as Hmono.
    { intros id [y Hy]. destruct (Hs id y Hy) as (y' & -> & _). by eexists. }
    split; [by apply Hmono; eexists|auto].
Qed.

Lemma passes_doubt p x b : passes p b (doubt x b).
Proof.
  intros Hl. pose proof Hl as [H1 H2 [V1 V2 V3] H4 H5]. destruct (doubt_kept x b H1) as [Hb Hg]. unfold doubt in *.
  destruct x as [op| |]; [|by split..]. destruct (dget op (operations b)) as [o|] eqn:Ho; [|by split]. destruct (terminal (op_status o)) eqn:Ht; [by split|].
  split; [|split; [done|by apply same_jobs_stay]]. split; [done|by eapply psp_grows_books| |by apply (jobs_ok_grows b)|].
  - split; [|done|done]. intros i y. simpl. rewrite dget_dset. case_decide; [|apply V1]. intros [= <-]. subst i.
    destruct (V1 op o Ho) as [(E1 & E2 & E3 & _)|(r & Hi & E1 & E2 & E3 & E4 & Hs)]; [left; simpl; auto|]. right. exists r. simpl.
    do 5 (split; [done|]). right. split; [done|]. destruct Hs as [E|[_ E]]; [|done].
    destruct (issued_order _ _ _ _ _ H2 Hi) as (_ & _ & _ & [|Hterm]); [done|]. congruence.
  - intros i y. simpl. rewrite dget_dset. case_decide as Hi; [|apply H5]. intros [= <-]. subst i. split; [apply (H5 op o Ho)|done].
Qed.

(** ** Receipts that the provider issued *)

Lemma issued_same_row p b r r' : psp_ok p b → issued p r → issued p r' → r_id r = r_id r' →
  r_provider r = r_provider r' ∧ r_checkout r = r_checkout r' ∧ (terminal (r_status r') = true → r_revision r <= r_revision r' ∧ (r_revision r = r_revision r' → r = r')).
Proof.
  intros Hp Hi Hi' Hid. split; [|split].
  1,2: destruct Hi as (row & Hrow & Hr), Hi' as (row' & Hrow' & Hr'); rewrite <- Hid, Hrow in Hrow'; injection Hrow' as <-;
    destruct Hr as [->|[_ ->]], Hr' as [->|[_ ->]]; done.
  intros Ht. split; [|by intros E; eapply issued_unique].
  destruct (issued_row _ _ _ _ _ Hp Hi) as (row & o & Hrow & _ & Hok & Hr). destruct Hi' as (row' & Hrow' & Hr'). rewrite <- Hid, Hrow in Hrow'. injection Hrow' as <-.
  destruct Hr' as [->|[_ ->]]; [|done]. destruct Hr as [->|[E ->]]; [lia|]. rewrite E. simpl. lia.
Qed.

(** The branches of [judge] once the receipt is of the operation and known. *)
Definition judge_version op (o : Op) (r : Receipt) now b : result (Books * Applied) :=
  if r_revision r <? op_revision o then Ok (ignored "older revision" b)
  else if terminal (op_status o) then
    if bool_decide (r_status r ≠ op_status o) then Ok (reviewed (review dg op "TERMINAL_CONFLICT" (OfReceipt r) now b)) else Ok (ignored "already terminal" b)
  else if (r_revision r =? op_revision o) && bool_decide (op_status o ≠ UNKNOWN ∧ op_status o ≠ CREATED) then
    if bool_decide (r_status r ≠ op_status o ∨ r_checkout r ≠ op_checkout o) then Ok (reviewed (review dg op "REVISION_CONFLICT" (OfReceipt r) now b))
    else Ok (ignored "already applied revision" b)
  else let* b := advance op o r now b in Ok (b, mk_applied true false None None).

Lemma judge_known p b r o now :
  local_ok p b → issued p r → dget (r_id r) (operations b) = Some o → judge dg (r_id r) o r now b = judge_version (r_id r) o r now b.
Proof.
  intros [Hb Hp [V1 V2 V3] _ _] Hi Ho. unfold judge.
  destruct (issued_order _ _ _ _ _ Hp Hi) as (o' & Ho' & Hord & _). rewrite Ho in Ho'. injection Ho' as <-. rewrite Hord. simpl.
  assert (match op_provider o with Some p' => bool_decide (p' ≠ r_provider r) | None => false end = false) as Epr.
  { destruct (V1 _ _ Ho) as [(_ & -> & _)|(r' & Hi' & Hid & _ & -> & _)]; [done|]. apply bool_decide_eq_false. intros Hne. apply Hne.
    by apply (issued_same_row p b r' r). }
  rewrite Epr. assert (provider_reused (r_id r) (r_provider r) b = false) as Ere.
  { apply existsb_false. intros [i x] Hin. apply bool_decide_eq_false. simpl. intros [Hx Hne]. apply dget_Some in Hin; [|apply Hb].
    destruct (V1 _ _ Hin) as [(_ & E & _)|(r' & Hi' & Hid & _ & E & _)]; [congruence|]. rewrite Hx in E. injection E as E.
    destruct (issued_row _ _ _ _ _ Hp Hi) as (row & o1 & Hrow & _ & _ & Hr). destruct (issued_row _ _ _ _ _ Hp Hi') as (row' & o2 & Hrow' & _ & _ & Hr').
    rewrite Hid in Hrow'. apply Hne. eapply (pk_providers _ _ _ _ Hp); [exact Hrow'|exact Hrow|].
    assert (r_provider (row_receipt row) = r_provider r) as -> by (destruct Hr as [->|[_ ->]]; done). rewrite E. destruct Hr' as [->|[_ ->]]; done. }
  rewrite Ere.
  assert (match dget (r_id r, r_revision r) (versions b) with Some h => bool_decide (h ≠ digest_receipt dg r) | None => false end = false) as Ever.
  { destruct (dget (r_id r, r_revision r) (versions b)) as [h|] eqn:Ev; [|done]. apply bool_decide_eq_false. intros Hne. apply Hne.
    destruct (V2 _ _ _ Ev) as (r' & Hi' & Hid & Hrev & ->). f_equal. by eapply (issued_unique _ _ p b r' r). }
  rewrite Ever. reflexivity.
Qed.

(** The branch of [apply] for an issued receipt: no review. *)
Lemma judge_issued p b r o now b' a :
  local_ok p b → issued p r → dget (r_id r) (operations b) = Some o → judge dg (r_id r) o r now b = Ok (b', a) → ap_review a = None.
Proof.
  intros Hl Hi Ho H. rewrite (judge_known p) in H by done. unfold judge_version, reviewed, ignored in H. destruct Hl as [Hb Hp [V1 V2 V3] _ _].
  destruct (r_revision r <? op_revision o) eqn:Hold; [by injection H as _ <-|]. apply Z.ltb_ge in Hold.
  destruct (terminal (op_status o)) eqn:Ht.
  - assert (r_status r = op_status o) as Es.
    { destruct (V1 _ _ Ho) as [(_ & _ & _ & [E|E])|(r' & Hi' & Hid & Hrev & _ & _ & [E|[E _]])]; try (by rewrite E in Ht).
      rewrite E in Ht. destruct (issued_same_row p b r r' Hp Hi Hi') as (_ & _ & Hterm); [done|]. destruct (Hterm Ht) as [Hle Heq].
      rewrite Heq by lia. congruence. }
    rewrite bool_decide_eq_false_2 in H by naive_solver. by injection H as _ <-.
  - destruct ((r_revision r =? op_revision o) && bool_decide (op_status o ≠ UNKNOWN ∧ op_status o ≠ CREATED)) eqn:Heq.
    + apply andb_prop in Heq as [Hrev%Z.eqb_eq [Hn1 Hn2]%bool_decide_eq_true].
      destruct (V1 _ _ Ho) as [(_ & _ & _ & [E|E])|(r' & Hi' & Hid & Hrev' & _ & Ech & [E|[E _]])]; try done.
      assert (r = r') as <- by (eapply issued_unique; eauto; congruence).
      rewrite bool_decide_eq_false_2 in H by naive_solver. by injection H as _ <-.
    + destruct (advance (r_id r) o r now b); [|done]. by injection H as _ <-.
Qed.

Lemma passes_outcome p b r o ws es now :
  issued p r → dget (r_id r) (operations b) = Some o → terminal (op_status o) = false →
  restated (r_id r) o (with_receipt r o) b (with_outcome (r_id r) o r now (with_money ws es b)) →
  passes p b (with_outcome (r_id r) o r now (with_money ws es b)).
Proof.
  intros Hi Ho Ht Hr Hl. pose proof Hl as [H1 H2 [V1 V2 V3] H4 H5].
  destruct (restated_kept _ _ _ _ _ H1 Ho Ht (with_receipt_fields r o) Hr) as [Hb Hg].
  set (op := r_id r) in *. set (b1 := with_operations (dset op (with_receipt r o) (operations b)) (with_money ws es b)).
  pose proof (with_outcome_same op o r now (with_money ws es b)) as Hm. change (with_operations _ (with_money ws es b)) with b1 in Hm.
  assert (grows b b1) as Hg1 by (etrans; [exact Hg|]; destruct Hm as (E1 & E2 & E3); by apply same_money_grows).
  assert (jobs_ok b1) as Hj1 by (by apply (jobs_ok_grows b)).
  assert (same_core b1 (with_outcome op o r now (with_money ws es b)) ∧ jobs_ok (with_outcome op o r now (with_money ws es b)) ∧
    jobs_stay b1 (with_outcome op o r now (with_money ws es b)) ∧ (terminal (r_status r) = true → is_Some (dget (notify_id op) (jobs (with_outcome op o r now (with_money ws es b)))))) as (Hc & Hj & Hs & Hn).
  { unfold with_outcome. change (with_operations _ (with_money ws es b)) with b1. case_bool_decide as Hst; [split; [done|]; split; [done|]; split; [done|]; by rewrite Hst|].
    destruct (update_job_jobs (execute_id op) done_job b1) as [U1 U2]; [done|by intros j _ _ [[=]|[=]]|].
    destruct (enqueue_jobs (notify_id op) (Notify (mk_event ("terminal_" +:+ op) op (op_merchant o) (r_status r) (op_amount o))) now (update_job (execute_id op) done_job b1)) as (E1 & E2 & E3).
    { split; [done|]. exists (with_receipt r o). destruct (same_update_job (execute_id op) done_job b1) as ((_ & -> & _) & _). simpl. rewrite dget_dset, decide_True by done.
      split; [done|]. split; [|done]. destruct (issued_order _ _ _ _ _ H2 Hi) as (_ & _ & _ & [|]); [done|done]. }
    split; [etrans; [apply same_update_job|apply same_enqueue]|]. split; [auto|]. split; [by etrans|done]. }
  destruct Hc as (_ & Ev & Ei). split; [|split; [done|etrans; [by apply (same_jobs_stay b b1)|done]]].
  destruct Hr as [Eo _ _ _ _]. split; [done|by eapply psp_grows_books| |done|].
  - split; rewrite ?Eo, ?Ev, ?Ei; [|done|done]. intros i x. rewrite dget_dset. case_decide; [|by apply V1]. intros [= <-]. subst i.
    right. exists r. simpl. auto 10.
  - intros i x. rewrite Eo, dget_dset. assert (∀ id, is_Some (dget id (jobs b)) → is_Some (dget id (jobs (with_outcome op o r now (with_money ws es b))))) as Hmono.
    { intros id [y Hy]. destruct (Hs id y Hy) as (y' & -> & _). by eexists. }
    case_decide as Hi'; [|intros Hx; destruct (H5 i x Hx); auto]. intros [= <-]. subst i. destruct (H5 op o Ho). auto.
Qed.

Lemma passes_version p b r : issued p r → passes p b (add_version dg (r_id r) r b).
Proof.
  intros Hi [H1 H2 [V1 V2 V3] H4 H5]. pose proof (same_version dg (r_id r) r b) as Hm. unfold add_version in *. destruct (dmem _ _) eqn:Hd; [by split|].
  pose proof (same_money_grows _ _ Hm) as Hg. split; [|split; [done|by apply same_jobs_stay]]. split; [by eapply same_money_ok|by eapply psp_grows_books| |by apply (jobs_ok_grows b)|done].
  split; [done| |done]. intros id n h. simpl. rewrite dget_dset. case_decide as Hk; [|apply V2]. intros [= <-]. injection Hk as <- <-. by exists r.
Qed.

Lemma passes_inbox p b r a : issued p r → ap_review a = None → passes p b (with_inbox (dset (event_id r) (digest_receipt dg r, a) (inbox b)) b).
Proof.
  intros Hi Ha [H1 H2 [V1 V2 V3] H4 H5].
  split; [|split; [by apply same_money_grows|by apply same_jobs_stay]]. split; [by apply (same_money_ok b)|by eapply psp_grows_books; [exact H2|apply same_money_grows]| |by apply (jobs_ok_same b)|done].
  split; [done|done|]. intros e h a'. simpl. rewrite dget_dset. case_decide as Hk; [|apply V3]. intros [= <- <-]. subst e. by exists r.
Qed.

(** A receipt that the provider issued, by the answer of a call or by a callback. *)
Lemma passes_apply p b r event clock b' a :
  issued p r → event = None ∨ event = Some (event_id r) → apply dg r event clock b = Ok (b', a) → passes p b b' ∧ (local_ok p b → ap_review a = None).
Proof.
  intros Hi Hev H. assert (local_ok p b → (local_ok p b' ∧ grows b b' ∧ jobs_stay b b') ∧ ap_review a = None) as Hall; [|by split; intros Hl; apply Hall].
  intros Hl. apply (apply_inv dg) in H as [_ [(e & h & old & -> & Hin & -> & ->)|(_ & b1 & Hcase & ->)]]; [..|apply Hl].
  - split; [by split|]. simpl. destruct Hl as [_ _ [_ _ V3] _ _]. by destruct (V3 _ _ _ Hin) as (_ & _ & _ & _ & ?).
  - destruct (issued_order _ _ _ _ _ (lo_psp _ _ Hl) Hi) as (o & Ho & _). destruct Hcase as [[Hn _]|(o' & b0 & Ho' & Hj & Hjd & ->)]; [congruence|].
    rewrite Ho in Ho'. injection Ho' as <-. pose proof (judge_issued _ _ _ _ _ _ _ Hl Hi Ho Hj) as Hrev. split; [|done]. rewrite Hrev.
    assert (passes p b b0) as H0 by (destruct Hjd; [by apply passes_review|done|by apply passes_outcome]).
    assert (passes p b (add_version dg (r_id r) r b0)) as H2 by (etrans; [exact H0|by apply passes_version]).
    destruct Hev as [-> | ->]; [by apply H2|]. revert Hl. change (passes p b (with_inbox (dset (event_id r) (digest_receipt dg r, a) (inbox (add_version dg (r_id r) r b0))) (add_version dg (r_id r) r b0))).
    etrans; [exact H2|]. by apply passes_inbox.
Qed.

(** ** The operations *)

Lemma passes_create_row p m k body op now b b' x :
  check_create m k body = Ok () → drawn op = true → create_row dg m k body op now b = Ok (b', x) → passes p b b'.
Proof.
  intros Hc Hid H. destruct x as [id o]. intros Hl. revert H. intros H.
  apply create_row_inv in H as [(_ & _ & ->)|(_ & -> & _ & _ & ws & es & Hcr & ->)]; [by split| |apply Hl|done|done].
  revert Hl. by apply passes_new.
Qed.

Lemma passes_create p m k body op clock b b' x : drawn op = true → PayBooks.create dg m k body op clock b = Ok (b', x) → passes p b b'.
Proof.
  unfold PayBooks.create. intros Hid H. destruct (check_create m k body) as [[]|] eqn:Ec; [|done]. simpl in H.
  destruct (timestamp clock) as [now|]; [|done]. simpl in H. by eapply passes_create_row.
Qed.

Lemma passes_create_orders p id i orders fresh_id now b b' ids :
  (∀ i, drawn (fresh_id i) = true) → create_orders dg jd id i orders fresh_id now b = Ok (b', ids) → passes p b b'.
Proof.
  intros Hid. revert i b ids. induction orders as [|o orders IH]; intros i b ids H; simpl in H; [by injection H as <- _|].
  destruct (check_create _ _ _) as [[]|] eqn:Ec; [|done]. simpl in H. destruct (create_row _ _ _ _ _ _ _) as [[b1 x]|] eqn:E1; [|done]. simpl in H.
  destruct (create_orders _ _ _ _ _ _ _ _) as [[b2 y]|] eqn:E2; [|done]. injection H as <- _.
  etrans; [by eapply passes_create_row|by eapply IH].
Qed.

Lemma passes_checkout p id orders fresh_id clock b b' x :
  (∀ i, drawn (fresh_id i) = true) → create_checkout dg jd id orders fresh_id clock b = Ok (b', x) → passes p b b'.
Proof.
  unfold create_checkout. intros Hid H. destruct (check_checkout _ _) as [u|]; [|done]. simpl in H. destruct (timestamp clock) as [now|]; [|done]. simpl in H.
  destruct (dget id (checkouts b)) as [[[hash ids] t]|].
  - destruct (bool_decide _); [done|]. simpl in H. destruct (mapR _ ids); [|done]. by injection H as <- _.
  - destruct (create_orders _ _ _ _ _ _ _ _) as [[b1 ids]|] eqn:E; [|done]. simpl in H. destruct (mapR _ ids); [|done]. injection H as <- _.
    etrans; [by eapply passes_create_orders|by apply passes_idle].
Qed.

Lemma next_job_in now b id j : dict_ok (jobs b) → next_job now b = Some (id, j) → dget id (jobs b) = Some j ∧ (jb_status j = pending ∨ jb_status j = inflight).
Proof.
  unfold next_job. intros Hd H. apply head_Some_elem_of in H. rewrite elem_of_sort_by in H. apply list_elem_of_filter in H as [Hr Hin].
  split; [by apply dget_Some|]. unfold ready in Hr. simpl in Hr. apply orb_prop in Hr as [[]%bool_decide_eq_true|[]%bool_decide_eq_true]; auto.
Qed.

(** A claimed ticket is of a job in the table. *)
Definition ticket_ok (t : Ticket) (b : Books) : Prop := ∃ j, dget (t_id t) (jobs b) = Some j ∧ jb_payload j = t_payload t.
Lemma ticket_stays t b b' : jobs_stay b b' → ticket_ok t b → ticket_ok t b'.
Proof. intros Hs (j & Hj & E). destruct (Hs _ _ Hj) as (j' & Hj' & E'). exists j'. split; [done|congruence]. Qed.

Lemma passes_claim p lease token clock b b' t :
  claim lease token clock b = Ok (b', t) → passes p b b' ∧ (local_ok p b → match t with Some t => ticket_ok t b' | None => True end).
Proof.
  unfold claim. intros H. apply raise_if_Ok in H as [_ H]. destruct (timestamp clock) as [now|]; [|done]. simpl in H.
  destruct (next_job now b) as [[id j]|] eqn:En; injection H as <- <-; [|done].
  assert (passes p b (update_job id (lease_job (now + 1000 * lease) token) b)) as Hp.
  { intros Hl. destruct (next_job_in _ _ _ _ (jo_dict _ (lo_jobs _ _ Hl)) En) as [Hj Hst]. revert Hl. apply passes_update; [done|].
    intros x Hx Hr _. rewrite Hj in Hx. injection Hx as <-. by apply Hr. }
  split; [etrans; [exact Hp|apply passes_log]|]. intros Hl. destruct (next_job_in _ _ _ _ (jo_dict _ (lo_jobs _ _ Hl)) En) as [Hj _].
  eexists. simpl. unfold update_job. rewrite Hj. simpl. rewrite dget_dset, decide_True by done. by split.
Qed.

Lemma passes_finish p t is_pending error clock b b' x : finish_job dg t is_pending error clock b = Ok (b', x) → passes p b b'.
Proof.
  unfold finish_job. intros H. destruct (job_identity t); [|done]. simpl in H. apply raise_if_Ok in H as [_ H].
  destruct (timestamp clock) as [now|]; [|done]. simpl in H. destruct (held_job t now b) as [j|]; [|by injection H as <- _].
  injection H as <- _. etrans; [|apply passes_log]. etrans; [|apply passes_update; [done|]].
  - transitivity (match error with Some _ => doubt (jb_payload j) b | None => b end); [destruct error; [apply passes_doubt|done]|].
    destruct (5 <=? _); [|done]. unfold exhaust. destruct (jb_payload j); try apply passes_review. etrans; [apply passes_review|apply passes_set_run].
  - intros y _ _ Hst. simpl in *. destruct (5 <=? _) eqn:E; [naive_solver|]. lia.
Qed.

Lemma passes_retry p op clock b b' : retry op clock b = Ok b' → passes p b b'.
Proof.
  unfold retry. intros H. destruct (timestamp clock) as [now|]; [|done]. simpl in H. destruct (operation op None b) as [o|]; [|done]. simpl in H.
  apply raise_if_Ok in H as [_ [= <-]]. apply passes_update; [done|]. intros y _ _ _. simpl. lia.
Qed.

Lemma passes_retry_job p id clock b b' : retry_job id clock b = Ok b' → passes p b b'.
Proof.
  unfold retry_job. intros H. destruct (timestamp clock) as [now|]; [|done]. simpl in H. destruct (dget id (jobs b)) as [j|]; [|done].
  apply raise_if_Ok in H as [_ [= <-]]. assert (passes p b (update_job id (set_lease pending 0 now "") b)) as Hp by (apply passes_update; [done|]; intros y _ _ _; simpl; lia).
  destruct (jb_payload j); [done|done|]. etrans; [exact Hp|apply passes_set_run].
Qed.

Lemma passes_schedule p run clock b b' : schedule_reconcile run clock b = Ok b' → passes p b b'.
Proof.
  unfold schedule_reconcile. intros H. destruct (timestamp clock) as [now|]; [|done]. simpl in H. apply raise_if_Ok in H as [_ [= <-]].
  etrans; [|by apply passes_enqueue]. by apply passes_idle.
Qed.

Lemma fold_passes {A X} p (f : Books * X → A → Books * X) l x :
  (∀ x a, passes p x.1 (f x a).1) → passes p x.1 (foldl f x l).1.
Proof. intros Hf. revert x. induction l as [|a l IH]; intros x; [done|]. simpl. etrans; [apply Hf|apply IH]. Qed.

Lemma passes_reconcile p run s job clock b b' x : reconcile dg jd run s job clock b = Ok (b', x) → passes p b b'.
Proof.
  unfold reconcile. intros H. destruct (check_identifier run); [|done]. simpl in H. destruct (statement_copy dg jd s) as [s'|]; [|done]. simpl in H.
  destruct (timestamp clock) as [now|]; [|done]. simpl in H. destruct (dget run (runs b)) as [r|]; [|done].
  assert (passes p b (compare dg (st_operations s') now b).1.1) as Hc.
  { unfold compare. assert (∀ l y, passes p y.1.1 (foldl (reconcile_operation dg now) y l).1.1) as H1.
    { induction l as [|kv l IH]; intros y; [done|]. simpl. etrans; [|apply IH]. unfold reconcile_operation. destruct (mismatch _ _ _ _); [|done]. apply passes_review. }
    specialize (H1 (sort_by fst (operations b)) (b, [], foldl (λ d r, dset (r_id r) r d) [] (st_operations s'))).
    destruct (foldl (reconcile_operation dg now) _ _) as [[b1 ds] rest]. simpl in H1. etrans; [exact H1|]. cbn [fst].
    etrans; [apply (fold_passes p (orphan dg now) rest (b1, ds)); intros; apply passes_review|]. apply fold_passes. intros; apply passes_review. }
  destruct (compare dg (st_operations s') now b) as [[b1 ds] au]. cbn [fst] in Hc.
  assert (∀ (m : result unit) y, (let* _ := m in Ok (set_run run run_done (Some y) b1, y)) = Ok (b', x) → passes p b b') as Hrun.
  { intros [u|] y Hy; [|done]. injection Hy as <- _. etrans; [exact Hc|apply passes_set_run]. }
  destruct (rn_status r); [by eapply Hrun|destruct (rn_result r); [by injection H as <- _|done]|by eapply Hrun].
Qed.

Lemma passes_serve p r clock b b' : drawn_ok r → serve dg jd r clock b = Ok b' → passes p b b'.
Proof.
  destruct r; simpl; intros Hd H.
  - destruct (PayBooks.create _ _ _ _ _ _ _) as [[b2 y]|] eqn:E; [|done]. injection H as <-. by eapply passes_create.
  - destruct (create_checkout _ _ _ _ _ _ _) as [[b2 y]|] eqn:E; [|done]. injection H as <-. by eapply passes_checkout.
  - by eapply passes_retry.
  - by eapply passes_retry_job.
  - by eapply passes_schedule.
Qed.

(** ** The receiver *)

Definition received_ok (v : Receiver) (b : Books) : Prop := ∀ i x, dget i (received v) = Some x →
  i = ev_id (re_event x) ∧ re_hash x = digest_event (re_event x) ∧ event_ok (re_event x) b.

Lemma event_ok_same e e' b : event_ok e b → event_ok e' b → ev_id e = ev_id e' → e = e'.
Proof.
  intros (o & Ho & _ & E) (o' & Ho' & _ & E') H.
  assert (ev_operation e = ev_operation e') as Hop.
  { apply (f_equal ev_id) in E, E'. rewrite E, E' in H. unfold event_of in H. simpl in H. by injection H. }
  rewrite E, E'. rewrite Hop in *. congruence.
Qed.

Lemma identifier_prefix (s t : string) : identifier t = true → forallb id_char (String.list_ascii_of_string s) = true → (String.length s + String.length t <= 80)%nat → identifier (s +:+ t) = true.
Proof.
  unfold identifier. intros [[Hl _]%andb_prop Ht]%andb_prop Hs Hn.
  rewrite string_app_length.
  assert (forallb id_char (String.list_ascii_of_string (s +:+ t)) = true) as ->.
  { clear Hn Hl. induction s as [|c s IH]; [done|]. simpl in *. apply andb_prop in Hs as [-> Hs]. by apply IH. }
  apply Nat.leb_le in Hl. rewrite andb_true_r, (proj2 (Nat.leb_le _ _)) by lia. by apply Nat.leb_le.
Qed.

Lemma drawn_prefix s id : drawn id = true → forallb id_char (String.list_ascii_of_string s) = true → (String.length s <= 48)%nat → identifier (s +:+ id) = true.
Proof. unfold drawn. intros [Hi Hl%bool_decide_eq_true]%andb_prop Hs Hn. apply identifier_prefix; [done|done|lia]. Qed.

(** The receiver takes the event of any finished operation, once. *)
Lemma receive_total e v b : books_ok b → received_ok v b → event_ok e b → ∃ v', receive_commit digest_event e v = Ok (v', ev_id e) ∧ received_ok v' b ∧
  ∃ x, dget (ev_id e) (received v') = Some x ∧ re_event x = e.
Proof.
  intros Hb Hv He. pose proof He as (o & Ho & Ht & Ee). destruct (bo_op _ Hb _ _ Ho) as [[Hid Hm] _ Ham _ _].
  assert (check_event e = Ok ()) as Hc.
  { unfold check_event, check_identifier, money. rewrite Ee. simpl. pose proof (drawn_prefix "terminal_" _ Hid eq_refl ltac:(simpl; lia)) as Hterm. simpl in Hterm. rewrite Hterm.
    apply andb_prop in Hid as [-> _]. rewrite Hm, Ht. simpl. by rewrite (proj2 (integer_spec _ _ _)). }
  unfold receive_commit. rewrite Hc. simpl. destruct (dget (ev_id e) (received v)) as [x|] eqn:Ex.
  - destruct (Hv _ _ Ex) as (Hi & Hh & Hev). pose proof (event_ok_same _ _ _ He Hev Hi) as Heq. rewrite bool_decide_eq_false_2 by congruence. simpl.
    eexists. split; [done|]. split; [|eexists; simpl; rewrite dget_dset, decide_True by done; done]. intros i y. cbn [received]. rewrite dget_dset. destruct (decide (ev_id e = i)) as [<-|]; [|apply Hv]. by intros [= <-].
  - simpl. eexists. split; [done|]. split; [|eexists; simpl; rewrite dget_dset, decide_True by done; done]. intros i y. cbn [received]. rewrite dget_dset. destruct (decide (ev_id e = i)) as [<-|]; [|apply Hv]. by intros [= <-].
Qed.

(** ** The invariant of the world *)

Record world_ok (w : World) : Prop := mk_world_ok {
  wo_local : local_ok (w_psp w) (w_books w);
  wo_received : received_ok (w_receiver w) (w_books w);
  wo_tickets : ∀ t, t ∈ w_tickets w → ticket_ok t (w_books w);
  wo_sent : ∀ r, r ∈ w_sent w → issued (w_psp w) r;
}.

Lemma world_books w b : world_ok w → passes (w_psp w) (w_books w) b → world_ok (on_books b w).
Proof.
  intros [H1 H2 H3 H4] Hp. destruct (Hp H1) as (Hl & Hg & Hj). split; [done| | |done].
  - intros i x Hx. destruct (H2 i x Hx) as (E1 & E2 & E3). split; [done|]. split; [done|]. by eapply event_ok_grows.
  - intros t Ht. eapply ticket_stays; [exact Hj|by apply H3].
Qed.

Lemma world_psp w p : world_ok w → psp_ok p (w_books w) → psp_grows (w_psp w) p → world_ok (on_psp p w).
Proof.
  intros [[H1 H2 H3 H4 H5] Hv Ht Hs] Hp Hg. split; [|done|done|].
  - split; [done|done|by eapply views_grow|done|done].
  - intros r Hr. eapply issued_grows; [exact Hg|by apply Hs].
Qed.

Lemma world_sends w r : world_ok w → issued (w_psp w) r → world_ok (sends r w).
Proof. intros [H1 H2 H3 H4] Hr. split; [done|done|done|]. intros x [->|Hx]%elem_of_cons; [done|by apply H4]. Qed.

Lemma world_ticket w t : world_ok w → ticket_ok t (w_books w) → world_ok (got_ticket t w).
Proof. intros [H1 H2 H3 H4] Ht. split; [done|done| |done]. intros x [->|Hx]%elem_of_cons; [done|by apply H3]. Qed.

Lemma world_receiver w v : world_ok w → received_ok v (w_books w) → world_ok (on_receiver v w).
Proof. intros [H1 H2 H3 H4] Hv. by split. Qed.

Lemma ticket_event w t e : world_ok w → ticket_ok t (w_books w) → t_payload t = Notify e → event_ok e (w_books w).
Proof.
  intros Hw (j & Hj & E) Ep. destruct (jo_named _ (lo_jobs _ _ (wo_local _ Hw)) _ _ Hj) as [Hp _]. rewrite E, Ep in Hp. apply Hp.
Qed.

Notation moves_to := (move dg jd digest_intent digest_event provider_url).

Lemma pay_move_ok w w' : world_ok w → moves_to w w' → world_ok w'.
Proof.
  intros Hw Hm. revert Hw. pose proof (λ w, λ Hw : world_ok w, lo_psp _ _ (wo_local w Hw)) as Hpsp.
  destruct Hm as [w r clock b Hd H|w l tok clock b t H|w l tok clock b t H|w t pe er clock b x _ H|w run s job clock b x H|w r clock b a Hin H|w e h clock b a Hh H
    |w op o pr tok clock p r Ho Hf H|w op o pr tok clock p r Ho Hf H|w id clock p r H|w tok ch clock p r H|w body p H|w tok clock p x H|w e h tok er clock p H|w t e v x Hin He H|w lose]; intros Hw.
  - apply world_books; [done|by eapply passes_serve].
  - apply world_books; [done|by eapply passes_claim].
  - destruct (passes_claim (w_psp w) _ _ _ _ _ _ H) as [Hp Ht]. apply world_ticket; [by apply world_books|apply Ht, Hw].
  - apply world_books; [done|by eapply passes_finish].
  - apply world_books; [done|by eapply passes_reconcile].
  - apply world_books; [done|]. eapply passes_apply; [by apply (wo_sent _ Hw)|by left|exact H].
  - destruct (pk_hooks _ _ _ _ (Hpsp _ Hw) _ _ Hh) as [-> Hi]. apply world_books; [done|]. eapply passes_apply; [exact Hi|by right|exact H].
  - destruct (create_commit_ok _ _ op o pr tok clock _ _ _ _ (lo_books _ _ (wo_local _ Hw)) (Hpsp _ Hw) Ho Hf H) as (Hp & Hg & _). by apply world_psp.
  - destruct (create_commit_ok _ _ op o pr tok clock _ _ _ _ (lo_books _ _ (wo_local _ Hw)) (Hpsp _ Hw) Ho Hf H) as (Hp & Hg & Hi & _).
    apply world_sends; [by apply world_psp|done].
  - destruct (pay_get_ok _ _ _ _ _ _ _ _ (Hpsp _ Hw) H) as (Hp & Hg & Hi & _). apply world_sends; [by apply world_psp|done].
  - destruct (checkout_ok _ _ _ _ _ _ _ _ _ (Hpsp _ Hw) H) as (Hp & Hg & _). by apply world_psp.
  - destruct (set_control_ok _ _ _ _ _ _ (Hpsp _ Hw) H) as [Hp E]. apply world_psp; [done|done|by apply same_rows_grows].
  - destruct (claim_hook_ok _ _ _ _ _ _ _ _ (Hpsp _ Hw) H) as [[Hp E] _]. apply world_psp; [done|done|by apply same_rows_grows].
  - destruct (finish_hook_ok _ _ _ _ _ _ _ _ _ _ (Hpsp _ Hw) H) as [Hp E]. apply world_psp; [done|done|by apply same_rows_grows].
  - destruct (receive_total e (w_receiver w) (w_books w)) as (v' & Hr & Hv & _); [apply Hw|apply Hw|by eapply ticket_event; [|apply (wo_tickets _ Hw)|]|].
    rewrite Hr in H. injection H as <- _. by apply world_receiver.
  - apply world_receiver; [done|]. apply Hw.
Qed.

Lemma pay_world_start_ok ms b : new_books ms = Ok b → world_ok (world_start b).
Proof.
  intros Hn. destruct (new_books_ok _ _ Hn) as (Hb & (Eo & Ee) & Ej & Ev & Ei). split; [|done|by intros t ?%elem_of_nil|by intros r ?%elem_of_nil].
  split; [done|apply psp_empty_ok| | |].
  - split; [intros id o; simpl; rewrite Eo|intros id n h; simpl; rewrite Ev|intros e h a; simpl; rewrite Ei]; done.
  - split; [simpl; rewrite Ej; apply dict_nil_ok|intros id j; simpl; by rewrite Ej].
  - intros op o. simpl. by rewrite Eo.
Qed.

Lemma pay_moves_ok w w' : rtc moves_to w w' → world_ok w → world_ok w'.
Proof. induction 1; [done|]. intros Hw. by eapply IHrtc, pay_move_ok. Qed.

Lemma pay_reachable_ok w : reachable dg jd digest_intent digest_event provider_url w → world_ok w.
Proof. intros (ms & b0 & Hn & Hs). by eapply pay_moves_ok, pay_world_start_ok. Qed.
End world.
