(* ===== verification/PayRound.v ===== *)
(** * Rounds of work and reconciliations

    A finished operation has the status of its row at the provider, the provider accepts
    every operation of the books, and a round of a worker that nothing disturbs brings its
    operation to what the provider says.  Against the current statement of the provider,
    with no simulated error in it, a reconciliation reports exactly the operations whose
    status the books have not caught up with, and the audit adds nothing.  Whatever is lost
    of the calls of a worker or of a callback, a round makes only moves of the world of
    PayWork.v, so the invariant holds after every call of any number of workers. *)
From S2P Require Import Prelude PyList PyDict Checks Effects PayBooks PayJobs PayProvider PayWork PayInv PaySteps PayWorld.
Local Open Scope Z_scope.

Section round.
Context (dg : Digests) (jd : JobDigests) (digest_intent : Intent → string) (digest_event : Event → string) (provider_url : string).
Context (checkout_local : ∀ token, identifier token = true → local_checkout dg (provider_url +:+ "/checkout/" +:+ token) = true).
Notation psp_ok := (psp_ok digest_intent provider_url).
Notation local_ok := (local_ok dg digest_intent provider_url).

(** A finished operation is finished at the provider, with the same status. *)
Lemma terminal_agrees p b op o :
  local_ok p b → dget op (operations b) = Some o → terminal (op_status o) = true →
  ∃ row, dget op (rows p) = Some row ∧ r_status (row_receipt row) = op_status o ∧ op_revision o = r_revision (row_receipt row).
Proof.
  intros [_ Hp [V1 _ _] _ _] Ho Ht. destruct (V1 _ _ Ho) as [(_ & _ & _ & [E|E])|(r & Hi & <- & Hrev & _ & _ & [E|[E _]])]; try (by rewrite E in Ht).
  destruct Hi as (row & Hrow & [-> |[_ ->]]); [|by rewrite E in Ht]. exists row. auto.
Qed.

(** The order of an operation and of its row. *)
Lemma row_order p b op row : psp_ok p b → dget op (rows p) = Some row →
  ∃ o, dget op (operations b) = Some o ∧ op_merchant o = r_merchant (row_receipt row) ∧ op_kind o = r_kind (row_receipt row) ∧
    op_parent o = r_parent (row_receipt row) ∧ op_amount o = r_amount (row_receipt row).
Proof.
  intros Hp Hrow. destruct (pk_row _ _ _ _ Hp _ _ Hrow) as (o & Ho & Hr). exists o. split; [done|].
  pose proof (ro_order _ _ _ _ _ Hr) as H. apply bool_decide_eq_true in H. naive_solver.
Qed.

(** ** The provider accepts every operation *)

Lemma zsum_le_at {A} (f g : A → Z) d y l : (∀ x, x ∈ l → f x <= g x) → y ∈ l → f y + d <= g y → zsum f l + d <= zsum g l.
Proof.
  induction l as [|x l IH]; intros Hle Hy Hd; [by apply elem_of_nil in Hy|]. simpl.
  assert (zsum f l <= zsum g l) as Hl.
  { clear IH Hy. induction l as [|z l IH]; [done|]. simpl. pose proof (Hle z ltac:(set_solver)).
    assert (zsum f l <= zsum g l); [|lia]. apply IH. intros u Hu. apply Hle. set_solver. }
  apply elem_of_cons in Hy as [->|Hy]; [lia|]. pose proof (Hle x ltac:(left)).
  assert (zsum f l + d <= zsum g l); [|lia]. apply IH; [intros u Hu; apply Hle; by right|done|done].
Qed.

Lemma rows_in_books p b : psp_ok p b → dkeys (rows p) ⊆ dkeys (operations b).
Proof. intros Hp id Hid. destruct (dget_key id _ Hid) as [row Hrow]. destruct (pk_row _ _ _ _ Hp _ _ Hrow) as (o & Ho & _). by eapply dget_in_key. Qed.

Lemma refunded_le p b op o parent :
  local_ok p b → dget op (operations b) = Some o → dget op (rows p) = None → op_parent o = Some parent → op_status o ≠ FAILED →
  refunded parent p + op_amount o <= refunds_of parent (operations b).
Proof.
  intros Hl Ho Hnew Hpar Hst. pose proof Hl as [Hb Hp _ _ _]. unfold refunded, refunds_of.
  rewrite (zsum_over _ (rows p) (dkeys (operations b))), (zsum_over _ (operations b) (dkeys (operations b))); [|apply Hb|apply Hb|done|apply Hp|apply Hb|by apply rows_in_books].
  apply (zsum_le_at _ _ _ op); [|by eapply dget_in_key|].
  - intros i Hi. destruct (dget_key i _ Hi) as [x Hx]. rewrite Hx.
    assert (0 <= when (bool_decide (op_parent x = Some parent ∧ op_status x ≠ FAILED)) (op_amount x)) as Hpos.
    { destruct (ok_amount _ _ _ (bo_op _ Hb _ _ Hx)). unfold when. case_match; lia. }
    destruct (dget i (rows p)) as [row|] eqn:Hrow; [|done]. destruct (row_order _ _ _ _ Hp Hrow) as (x' & Hx' & _ & _ & Epar & Eam).
    rewrite Hx in Hx'. injection Hx' as <-. rewrite <- Epar, <- Eam.
    destruct (decide (op_parent x = Some parent ∧ r_status (row_receipt row) = SUCCEEDED)) as [[Hc1 Hc2]|Hc]; [|by rewrite (bool_decide_eq_false_2 (_ ∧ _ = SUCCEEDED))].
    rewrite !bool_decide_eq_true_2; [done| |done]. split; [done|]. intros Hf.
    destruct (terminal_agrees p b i x Hl Hx) as (row' & Hrow' & Hs & _); [by rewrite Hf|]. congruence.
  - rewrite Ho, Hnew, bool_decide_eq_true_2 by done. simpl. lia.
Qed.

Lemma refund_allowed p b op o parent :
  local_ok p b → dget op (operations b) = Some o → dget op (rows p) = None → op_kind o = refund → op_parent o = Some parent →
  refundable (intent_of op o) parent p = true.
Proof.
  intros Hl Ho Hnew Hk Hpar. pose proof Hl as [Hb Hp _ _ _]. pose proof (ok_parent _ _ _ (bo_op _ Hb _ _ Ho)) as Hok. rewrite Hk, Hpar in Hok.
  destruct Hok as (po & Hpo & Pk & Ps & Pm). destruct (terminal_agrees p b parent po Hl Hpo) as (row & Hrow & Hst & _); [by rewrite Ps|].
  destruct (row_order _ _ _ _ Hp Hrow) as (po' & Hpo' & Em & Ek & _ & Ea). rewrite Hpo in Hpo'. injection Hpo' as <-.
  assert (op_status o ≠ FAILED) as Hnf. { intros Hf. destruct (terminal_agrees p b op o Hl Ho) as (row' & Hrow' & _); [by rewrite Hf|]. congruence. }
  pose proof (refunded_le p b op o parent Hl Ho Hnew Hpar Hnf). pose proof (bo_refunds _ Hb parent) as Hle. unfold amount_of in Hle. rewrite Hpo in Hle.
  unfold refundable. rewrite Hrow. simpl. rewrite bool_decide_eq_true_2 by (rewrite <- Em, <- Ek, Hst; done). simpl. lia.
Qed.

Lemma intent_checked b op o : books_ok b → dget op (operations b) = Some o → check_intent (intent_of op o) = Ok ().
Proof.
  intros Hb Ho. destruct (bo_op _ Hb _ _ Ho) as [[[Hid _]%andb_prop Hm] _ Ham Hd Hpar]. unfold check_intent, check_identifier, money. simpl.
  rewrite Hid, Hm. simpl. rewrite (proj2 (integer_spec _ _ _)) by done. simpl. rewrite Hd. simpl.
  destruct (op_kind o), (op_parent o) as [par|]; try done. destruct Hpar as (po & Hpo & _). destruct (bo_op _ Hb _ _ Hpo) as [[[-> _]%andb_prop _] _ _ _ _]. done.
Qed.

(** Whatever the books hold, the provider takes or has. *)
Lemma create_commit_total p b op o provider token clock :
  local_ok p b → dget op (operations b) = Some o → existsb (λ r, bool_decide (row_token r = token)) (dvalues (rows p)) = false → 0 <= clock →
  ∃ p' row, create_commit digest_intent provider_url (intent_of op o) provider token clock p = Ok (p', row_receipt row) ∧
    dget op (rows p') = Some row ∧ control p' = control p.
Proof.
  intros Hl Ho Htok Hc. pose proof Hl as [Hb Hp _ _ _]. unfold create_commit. rewrite (intent_checked b) by done. simpl.
  unfold timestamp. rewrite (proj2 (Z.ltb_ge _ _)) by done. simpl. destruct (dget op (rows p)) as [row|] eqn:Hrow.
  - destruct (pk_row _ _ _ _ Hp _ _ Hrow) as (o' & Ho' & Hr). rewrite Ho in Ho'. injection Ho' as <-.
    rewrite bool_decide_eq_false_2 by (intros Hn; apply Hn, Hr). simpl. by exists p, row.
  - assert (Z.of_nat (length (rows p)) < 10000) as Hcap.
    { pose proof (bo_cap _ Hb). assert (length (dkeys (set_row op (mk_row "" (mk_receipt "" "" payin None 0 "" "" PENDING 0 None) "" 0) p).(rows)) ≤ length (dkeys (operations b)))%nat as Hle.
      { apply submseteq_length, NoDup_submseteq; [by apply dset_ok, Hp|]. intros i Hi%elem_of_dkeys_dset. destruct Hi as [->|Hi]; [by eapply dget_in_key|by eapply rows_in_books]. }
      unfold dkeys in Hle. rewrite !length_fmap in Hle. simpl in Hle. rewrite dset_length in Hle. unfold dmem in Hle. rewrite Hrow in Hle. lia. }
    rewrite (proj2 (Z.leb_gt _ _)) by done. simpl.
    assert (match op_kind o, op_parent o with refund, Some parent => negb (refundable (intent_of op o) parent p) | _, _ => false end = false) as ->.
    { destruct (op_kind o) eqn:Ek; try done. destruct (op_parent o) as [par|] eqn:Epar; [|done]. by rewrite (refund_allowed p b). }
    simpl. rewrite Htok. simpl. eexists _, (new_row digest_intent provider_url (intent_of op o) provider token clock). split; [done|].
    rewrite queue_event_rows. simpl. rewrite dget_dset, decide_True by done. split; [done|]. unfold queue_event. by destruct (dmem _ _).
Qed.

(** ** Undisturbed calls *)

Lemma get_total p b op row clock :
  psp_ok p b → dget op (rows p) = Some row → identifier op = true → query_down (control p) = false → 0 <= clock →
  ∃ p' row', get op clock p = Ok (p', row_receipt row') ∧ dget op (rows p') = Some row' ∧ control p' = control p.
Proof.
  intros Hp Hrow Hid Hq Hc. unfold get, check_identifier. rewrite Hid, Hq. simpl. unfold timestamp. rewrite (proj2 (Z.ltb_ge _ _)) by done. simpl. rewrite Hrow.
  destruct (expire_ok _ _ op row clock p b Hp Hrow) as (_ & _ & Hrow'). eexists _, _. split; [done|]. split; [exact Hrow'|].
  unfold expire, decide_row, queue_event. repeat case_match; done.
Qed.

Lemma add_version_same r x op : operations (add_version dg op r x) = operations x ∧ jobs (add_version dg op r x) = jobs x.
Proof. unfold add_version. by case_match. Qed.

(** The books know at most the current version of a row. *)
Lemma view_behind p b op o row :
  local_ok p b → dget op (operations b) = Some o → dget op (rows p) = Some row →
  op_revision o <= r_revision (row_receipt row) ∧
  (op_revision o = r_revision (row_receipt row) → op_status o = r_status (row_receipt row) ∨ op_status o = UNKNOWN).
Proof.
  intros [Hb Hp [V1 _ _] _ _] Ho Hrow. pose proof (row_issued _ _ _ _ _ _ Hp Hrow) as Hi.
  assert (r_id (row_receipt row) = op) as Hid by (destruct (pk_row _ _ _ _ Hp _ _ Hrow) as (x & _ & Hr); apply Hr).
  destruct (V1 _ _ Ho) as [(Er & _ & _ & _)|(r' & Hi' & Hid' & Hrev' & _ & _ & Est)].
  - destruct (issued_revision _ _ _ _ _ Hp Hi) as [E|E]; rewrite Er, E; split; [lia|intros [=]|lia|intros [=]].
  - destruct Hi' as (row' & Hrow' & Hr'). rewrite Hid', Hrow in Hrow'. injection Hrow' as <-.
    destruct Hr' as [->|[E2 ->]]; simpl in *; [split; [lia|intros _; naive_solver]|]. rewrite <- Hrev', E2. split; [lia|intros [=]].
Qed.

Lemma with_outcome_jobs op o r now b :
  jobs (with_outcome op o r now b) = jobs b ∧ r_status r = PENDING ∨
  r_status r ≠ PENDING ∧ ∀ j, dget (execute_id op) (jobs b) = Some j → dget (execute_id op) (jobs (with_outcome op o r now b)) = Some (done_job j).
Proof.
  unfold with_outcome. case_bool_decide as Hs; [by left|]. right. split; [done|]. intros j Hj. unfold enqueue, update_job. simpl. rewrite Hj. simpl.
  destruct (dmem _ _); simpl; [by rewrite dget_dset, decide_True|].
  rewrite dget_dset_ne by (unfold notify_id, execute_id; intros [=]). by rewrite dget_dset, decide_True.
Qed.

(** A current receipt brings the operation to its status. *)
Lemma apply_current p b op o row clock :
  local_ok p b → dget op (operations b) = Some o → terminal (op_status o) = false → dget op (rows p) = Some row → 0 <= clock →
  let r := row_receipt row in
  ∃ b' a, apply dg r None clock b = Ok (b', a) ∧ ap_review a = None ∧ (∃ o', dget op (operations b') = Some o' ∧ op_status o' = r_status r) ∧
    (r_status r = PENDING ∧ jobs b' = jobs b ∨
     terminal (r_status r) = true ∧ ∀ j, dget (execute_id op) (jobs b) = Some j → dget (execute_id op) (jobs b') = Some (done_job j)).
Proof.
  intros Hl Ho Ht Hrow Hc r. pose proof Hl as [Hb Hp _ _ _].
  pose proof (row_issued _ _ _ _ _ _ Hp Hrow) as Hi. fold r in Hi.
  assert (r_id r = op) as Hid by (destruct (pk_row _ _ _ _ Hp _ _ Hrow) as (x & _ & Hr); apply Hr).
  assert (welcome dg r None clock b) as Hw by (split; [by eapply issued_copy|done]).
  destruct (apply_total dg r None clock b Hb Hw) as (b' & a & E).
  destruct (passes_apply dg digest_intent provider_url p b r None clock b' a Hi ltac:(by left) E) as [_ Hrev]. specialize (Hrev Hl).
  exists b', a. split; [done|]. split; [done|]. apply (apply_inv dg) in E as [_ [(e & _ & _ & He & _)|(_ & b1 & Hcase & Eb)]]; [done| |done]. simpl in Eb. subst b'.
  rewrite Hid in Hcase. destruct Hcase as [[Hn _]|(o1 & b0 & Ho1 & Hj & _ & ->)]; [congruence|]. rewrite Ho in Ho1. injection Ho1 as <-. rewrite Hrev.
  destruct (add_version_same r b0 op) as [-> ->]. destruct (issued_order _ _ _ _ _ Hp Hi) as (_ & _ & _ & Hst).
  rewrite <- Hid, (judge_known _ _ _ p) in Hj by (rewrite ?Hid; done). rewrite Hid in Hj. unfold judge_version, ignored, reviewed in Hj.
  destruct (view_behind p b op o row Hl Ho Hrow) as [Hle Heq]. fold r in Hle, Heq. rewrite (proj2 (Z.ltb_ge _ _)), Ht in Hj by done.
  destruct ((r_revision r =? op_revision o) && bool_decide (op_status o ≠ UNKNOWN ∧ op_status o ≠ CREATED)) eqn:Hsame.
  - apply andb_prop in Hsame as [He [Hn1 Hn2]%bool_decide_eq_true]. apply Z.eqb_eq in He. destruct (Heq (eq_sym He)) as [Es|Es]; [|done].
    destruct (bool_decide _); injection Hj as <- <-; [done|]. split; [by exists o|]. left. destruct Hst as [|Hst]; [done|]. rewrite Es in Ht. congruence.
  - destruct (advance_total b op o r clock Hb Ho Ht) as (ws & es & Ea & Hr). { unfold terminal in Hst. rewrite bool_decide_eq_true in Hst. tauto. }
    rewrite Ea in Hj. injection Hj as <- _. split; [exists (with_receipt r o); split; [|done]; rewrite (rs_ops _ _ _ _ _ Hr), dget_dset; by rewrite decide_True|].
    destruct (with_outcome_jobs op o r clock (with_money ws es b)) as [[H1 H2]|[H1 H2]]; [by left|]. right. split; [|done]. by destruct Hst.
Qed.

(** ** A round that nothing disturbs *)

(** Every call is answered, at the time [T]. *)
Definition calm (T : Z) (token provider checkout : string) : Round :=
  mk_round answered answered answered answered answered answered answered T T T T T T token provider checkout "".

Lemma job_name_execute op : drawn op = true → job_name (execute_id op) = true.
Proof.
  unfold drawn, job_name, identifier. intros [[_ Hall]%andb_prop Hlen%bool_decide_eq_true]%andb_prop.
  assert (String.length (execute_id op) = 40%nat) as -> by (change (String.length (execute_id op)) with (8 + String.length op)%nat; by rewrite Hlen).
  unfold execute_id. simpl. rewrite forallb_elem in Hall |- *. intros c Hc. by rewrite (Hall c Hc).
Qed.

(** The row that [finish_job] leaves. *)
Lemma pay_finish_held t j is_pending T b :
  job_name (t_id t) = true → identifier (t_token t) = true → 0 <= T → held_job t T b = Some j → jb_failures j <= 4 →
  ∃ b' j', finish_job dg t is_pending None T b = Ok (b', true) ∧ operations b' = operations b ∧
    dget (t_id t) (jobs b') = Some j' ∧ jb_status j' = if is_pending then pending else finished.
Proof.
  intros Hn Htok HT Hj Hf. unfold finish_job, job_identity, check_identifier. rewrite Hn, Htok. simpl. unfold timestamp. rewrite (proj2 (Z.ltb_ge _ _)) by done. simpl.
  rewrite Hj. simpl. rewrite (proj2 (Z.leb_gt 5 _)) by lia. simpl. unfold held_job in Hj. destruct (dget (t_id t) (jobs b)) as [x|] eqn:Hx; [|done].
  unfold update_job. rewrite Hx. eexists _, _. split; [done|]. simpl. rewrite dget_dset, decide_True by done. split; [done|]. split; [done|].
  by destruct is_pending.
Qed.

Lemma finish_idle t j is_pending T b :
  job_name (t_id t) = true → identifier (t_token t) = true → 0 <= T → dget (t_id t) (jobs b) = Some j → jb_status j = finished →
  finish_job dg t is_pending None T b = Ok (b, false).
Proof.
  intros Hn Htok HT Hj Hf. unfold finish_job, job_identity, check_identifier. rewrite Hn, Htok. simpl. unfold timestamp. rewrite (proj2 (Z.ltb_ge _ _)) by done. simpl.
  unfold held_job. rewrite Hj, bool_decide_eq_false_2; [done|]. rewrite Hf. naive_solver.
Qed.

(** What the provider answers to a worker, new or old. *)
Lemma receipt_reached p b op o T token pid ctok :
  local_ok p b → dget op (operations b) = Some o → query_down (control p) = false → lose_response (control p) = false →
  charge_fresh pid ctok p → existsb (λ r, bool_decide (row_token r = ctok)) (dvalues (rows p)) = false → 0 <= T →
  ∀ w, w_psp w = p → ∃ p' row, query_or_submit dg digest_intent provider_url (calm T token pid ctok) op o w = (sends (row_receipt row) (on_psp p' w), Ok (row_receipt row)) ∧
    dget op (rows p') = Some row ∧ psp_ok p' b ∧ psp_grows p p'.
Proof.
  intros Hl Ho Hq Hlose Hfresh Htok HT w Ew. pose proof Hl as [Hb Hp _ _ _]. destruct (bo_op _ Hb _ _ Ho) as [[[Hid _]%andb_prop _] _ _ _ _].
  destruct (dget op (rows p)) as [row|] eqn:Hrow.
  - destruct (get_total p b op row T Hp Hrow Hid Hq HT) as (p' & row' & Hg & Hrow' & _). destruct (pay_get_ok _ _ _ _ _ _ _ _ Hp Hg) as (Hp' & Hgr & Hi & _).
    exists p', row'. split; [|done]. unfold query_or_submit, query, check_identifier. rewrite Hid. unfold mbind, mlift. simpl. unfold ask. simpl. rewrite Ew, Hg. simpl.
    by rewrite (issued_copy dg digest_intent provider_url checkout_local p' b).
  - destruct (create_commit_total p b op o pid ctok T Hl Ho Htok HT) as (p' & row' & Hcr & Hrow' & _).
    destruct (create_commit_ok _ _ op o pid ctok T p p' b _ Hb Hp Ho Hfresh Hcr) as (Hp' & Hgr & Hi & _).
    exists p', row'. split; [|done]. unfold query_or_submit, query, submit, check_identifier. rewrite Hid. unfold mbind, mlift. simpl. unfold ask. simpl.
    assert (get op T p = Raise (StatusError 404)) as Hget.
    { unfold get, check_identifier, timestamp. rewrite Hid, Hq. simpl. rewrite (proj2 (Z.ltb_ge _ _)) by done. simpl. by rewrite Hrow. }
    rewrite Ew, Hget. simpl. unfold create. rewrite Hcr, Hlose. simpl. by rewrite (issued_copy dg digest_intent provider_url checkout_local p' b).
Qed.

Lemma claim_held token T b b1 t :
  jobs_ok b → claim LEASE_SECONDS token T b = Ok (b1, Some t) →
  operations b1 = operations b ∧ t_token t = token ∧ ∃ j, held_job t T b1 = Some j ∧ dget (t_id t) (jobs b1) = Some j ∧ jb_failures j <= 4 ∧ jb_payload j = t_payload t.
Proof.
  intros Hj H. pose proof (claim_same _ _ _ _ _ _ H) as ((_ & Eo & _) & _). split; [done|].
  unfold claim in H. simpl in H. unfold timestamp in H. destruct (T <? 0); [done|]. simpl in H.
  destruct (next_job T b) as [[id j]|] eqn:En; [|done]. injection H as <- <-. destruct (next_job_in _ _ _ _ (jo_dict _ Hj) En) as [Hx Hst].
  split; [done|]. exists (lease_job (T + 1000 * LEASE_SECONDS) token j). unfold held_job, update_job. simpl. rewrite Hx. simpl. rewrite dget_dset, decide_True by done. simpl.
  rewrite bool_decide_eq_true_2 by (unfold LEASE_SECONDS; split; [done|]; split; [done|lia]). split; [done|]. split; [done|]. split; [|done].
  by apply (jo_named _ Hj _ _ Hx).
Qed.

Lemma held_frame t T b b' : jobs b' = jobs b → held_job t T b' = held_job t T b.
Proof. unfold held_job. by intros ->. Qed.

(** A round that claims an execution brings its operation to what the provider says, and
    leaves its job finished or due again. *)
Lemma calm_round T token pid ctok w b1 t op :
  world_ok dg digest_intent digest_event provider_url w → 0 <= T → identifier token = true →
  query_down (control (w_psp w)) = false → lose_response (control (w_psp w)) = false →
  charge_fresh pid ctok (w_psp w) → existsb (λ r, bool_decide (row_token r = ctok)) (dvalues (rows (w_psp w))) = false →
  claim LEASE_SECONDS token T (w_books w) = Ok (b1, Some t) → t_payload t = Execute op →
  ∃ w' o row j, work_once dg jd digest_intent digest_event provider_url (calm T token pid ctok) w = (w', Ok true) ∧
    dget op (operations (w_books w')) = Some o ∧ dget op (rows (w_psp w')) = Some row ∧ op_status o = r_status (row_receipt row) ∧
    dget (execute_id op) (jobs (w_books w')) = Some j ∧ jb_status j = if terminal (op_status o) then finished else pending.
Proof.
  intros Hw HT Htok Hq Hlose Hfresh Hct Hcl Hpay. pose proof (wo_local _ _ _ _ _ Hw) as Hl.
  destruct (passes_claim dg digest_intent provider_url (w_psp w) _ _ _ _ _ _ Hcl) as [Hpass _]. destruct (Hpass Hl) as (Hl1 & _ & _).
  destruct (claim_held _ _ _ _ _ (lo_jobs _ _ _ _ _ Hl) Hcl) as (Eo & Ett & j & Hheld & Hj & Hf & Hjp).
  destruct (jo_named _ (lo_jobs _ _ _ _ _ Hl1) _ _ Hj) as [Hnamed _]. rewrite Hjp, Hpay in Hnamed. destruct Hnamed as [Hid [o Ho]].
  pose proof Hl1 as [Hb1 Hp1 _ _ _]. destruct (bo_op _ Hb1 _ _ Ho) as [[Hdrawn _] _ _ _ _].
  assert (job_name (t_id t) = true) as Hname by (rewrite Hid; by apply job_name_execute).
  assert (identifier (t_token t) = true) as Htt by (by rewrite Ett).
  unfold work_once, call. simpl. rewrite Hcl. simpl. unfold run_job. rewrite Hpay. unfold run_execute, mbind, read, call, operation. simpl. rewrite Ho. simpl.
  destruct (terminal (op_status o)) eqn:Ht.
  - destruct (terminal_agrees _ _ op o Hl1 Ho Ht) as (row & Hrow & Hst & _).
    destruct (pay_finish_held t j false T b1 Hname Htt HT Hheld Hf) as (b2 & j2 & Hfin & Eo2 & Hj2 & Hs2).
    unfold finish, mbind, call. simpl. rewrite Hfin. simpl. eexists _, o, row, j2. split; [done|]. simpl. rewrite Eo2, <- Hid, Ht. auto.
  - destruct (receipt_reached (w_psp w) b1 op o T token pid ctok Hl1 Ho Hq Hlose Hfresh Hct HT (on_books b1 (got_ticket t (on_books b1 w))) eq_refl) as (p' & row & -> & Hrow & Hp' & Hg).
    assert (local_ok p' b1) as Hl2 by (split; [done|done|eapply views_grow; [exact Hg|apply Hl1]|apply Hl1|apply Hl1]).
    destruct (pk_row _ _ _ _ Hp' _ _ Hrow) as (o' & Ho' & Hr). rewrite Ho in Ho'. injection Ho' as <-.
    assert (same_intent op o (row_receipt row) = true) as -> by (unfold same_intent; rewrite (ro_order _ _ _ _ _ Hr), bool_decide_eq_true_2 by apply Hr; done).
    destruct (apply_current p' b1 op o row T Hl2 Ho Ht Hrow HT) as (b2 & a & Hap & Hrev & (o2 & Ho2 & Hs2) & Hjobs). simpl. rewrite Hap. simpl. rewrite Hrev. simpl.
    destruct Hjobs as [[Hpend Ej]|[Hterm Hdone]].
    + rewrite bool_decide_eq_true_2 by done. rewrite <- (held_frame t T b1 b2 Ej) in Hheld.
      destruct (pay_finish_held t j true T b2 Hname Htt HT Hheld Hf) as (b3 & j3 & Hfin & Eo3 & Hj3 & Hs3).
      unfold finish, mbind, call. simpl. rewrite Hfin. simpl. eexists _, o2, row, j3. split; [done|]. simpl. rewrite Eo3, <- Hid, Hs2, Hpend. auto.
    + rewrite bool_decide_eq_false_2 by (intros E; by rewrite E in Hterm). rewrite Hid in Hj. specialize (Hdone _ Hj). rewrite <- Hid in Hdone.
      unfold finish, mbind, call. simpl. rewrite (finish_idle t (done_job j) false T b2) by done. simpl.
      eexists _, o2, row, (done_job j). split; [done|]. simpl. rewrite <- Hid, Hs2, Hterm. auto.
Qed.
End round.

(** ** What a reconciliation reports *)

(** The books lag behind the provider. *)
Definition lagging (p : PSP) (op : string) (o : Op) : bool :=
  match dget op (rows p) with Some row => bool_decide (op_status o ≠ r_status (row_receipt row)) | None => false end.
Definition lag_report (p : PSP) (l : list (string * Op)) : list (option string * string) :=
  omap (λ kv, if lagging p kv.1 kv.2 then Some (Some kv.1, "PROVIDER_AHEAD_OR_STATUS_MISMATCH") else None) l.
Definition differences_of (ds : list Difference) : list (option string * string) := map (λ d, (df_operation d, df_reason d)) ds.

Lemma foldl_map_dset {V X} (f : X → V) (g : X → string) (l : list X) (d : dict string V) :
  dict_ok d → NoDup (map g l) → dict_ok (foldl (λ d x, dset (g x) (f x) d) d l) ∧
  (∀ x, x ∈ l → dget (g x) (foldl (λ d x, dset (g x) (f x) d) d l) = Some (f x)) ∧
  (∀ k, k ∉ map g l → dget k (foldl (λ d x, dset (g x) (f x) d) d l) = dget k d).
Proof.
  revert d. induction l as [|x l IH]; intros d Hd Hnd; simpl; [split; [done|]; split; [by intros x ?%elem_of_nil|done]|].
  apply NoDup_cons in Hnd as [Hx Hnd]. destruct (IH (dset (g x) (f x) d) ltac:(by apply dset_ok) Hnd) as (H1 & H2 & H3). split; [done|]. split.
  - intros y [->|Hy]%elem_of_cons; [|by apply H2]. rewrite H3 by done. by rewrite dget_dset, decide_True.
  - intros k Hk. apply not_elem_of_cons in Hk as [Hk1 Hk2]. rewrite H3 by done. by rewrite dget_dset_ne.
Qed.

Section report.
Context (dg : Digests) (jd : JobDigests) (digest_intent : Intent → string) (digest_event : Event → string) (provider_url : string).
Context (checkout_local : ∀ token, identifier token = true → local_checkout dg (provider_url +:+ "/checkout/" +:+ token) = true).
Notation psp_ok := (psp_ok digest_intent provider_url).
Notation local_ok := (local_ok dg digest_intent provider_url).

Lemma settled_spec b op o : books_ok b → dget op (operations b) = Some o → settled op b = bool_decide (op_status o = SUCCEEDED).
Proof.
  intros Hb Ho. apply Bool.eq_iff_eq_true. unfold settled. rewrite existsb_elem, bool_decide_eq_true. split.
  - intros (e & [eid He]%elem_dvalues & (H1 & H2 & _)%bool_decide_eq_true); [|apply Hb].
    destruct (bo_entry _ Hb _ _ He) as (_ & x & Hx & Hd). rewrite H1 in Hx. rewrite H2 in Hd. unfold due in Hd. apply bool_decide_eq_true in Hd. congruence.
  - intros Hs. destruct (bo_due _ Hb op o settle Ho) as [e He]; [by apply bool_decide_eq_true|]. exists e. split; [apply elem_dvalues; [apply Hb|by eexists]|].
    destruct (bo_entry _ Hb _ _ He) as ([Ek Eop]%entry_id_inj & _). destruct (mo_posted _ (bo_money _ Hb) _ _ He) as [Hp _]. by apply bool_decide_eq_true.
Qed.

Lemma settled_frame b b' op : entries b' = entries b → settled op b' = settled op b.
Proof. unfold settled. by intros ->. Qed.

(** The only reason a reconciliation can find. *)
Lemma mismatch_lag p b b' op o :
  local_ok p b → dget op (operations b) = Some o → entries b' = entries b →
  mismatch op o (row_receipt <$> dget op (rows p)) b' = if lagging p op o then Some "PROVIDER_AHEAD_OR_STATUS_MISMATCH" else None.
Proof.
  intros Hl Ho He. pose proof Hl as [Hb Hp [V1 _ _] _ _]. unfold mismatch, lagging. rewrite (settled_frame b b') by done. rewrite (settled_spec b op o) by done.
  rewrite Bool.eqb_reflx. simpl. destruct (dget op (rows p)) as [row|] eqn:Hrow; simpl.
  - destruct (pk_row _ _ _ _ Hp _ _ Hrow) as (o' & Ho' & Hr). rewrite Ho in Ho'. injection Ho' as <-. rewrite (ro_order _ _ _ _ _ Hr). simpl.
    case_bool_decide; [done|]. destruct (V1 _ _ Ho) as [(_ & -> & _)|(r & Hi & Hid & _ & -> & _)]; [done|].
    rewrite bool_decide_eq_false_2; [done|]. intros Hne. apply Hne.
    pose proof (row_issued _ _ _ _ _ _ Hp Hrow) as Hi'. eapply issued_same_row; [exact Hp|exact Hi|exact Hi'|]. by rewrite (ro_id _ _ _ _ _ Hr).
  - rewrite bool_decide_eq_false_2; [done|]. intros Hs. destruct (terminal_agrees _ _ _ _ _ op o Hl Ho) as (row & Hrow' & _); [by rewrite Hs|congruence].
Qed.

Lemma report_entries op reason d now x : entries (report dg op reason d now x).1 = entries x.1.
Proof. unfold report. cbn [fst]. apply (same_review dg op reason d now x.1). Qed.

Lemma reconcile_fold p b now l x :
  local_ok p b → (∀ kv, kv ∈ l → dget kv.1 (operations b) = Some kv.2) → NoDup l.*1 → entries x.1.1 = entries b → dict_ok x.2 →
  (∀ id, id ∈ l.*1 → dget id x.2 = row_receipt <$> dget id (rows p)) →
  let y := foldl (reconcile_operation dg now) x l in
  differences_of y.1.2 = differences_of x.1.2 ++ lag_report p l ∧ (∀ id, dget id y.2 = if decide (id ∈ l.*1) then None else dget id x.2) ∧ dict_ok y.2.
Proof.
  intros Hl. revert x. induction l as [|[id o] l IH]; intros x Hin Hnd He Hd Hx; cbv zeta; cbn [foldl].
  - rewrite app_nil_r. split; [done|]. split; [|done]. intros i. by rewrite decide_False by apply not_elem_of_nil.
  - rewrite fmap_cons in *. cbn [fst] in *. apply NoDup_cons in Hnd as [Hid Hnd].
    assert (reconcile_operation dg now x (id, o) = (if lagging p id o then report dg id "PROVIDER_AHEAD_OR_STATUS_MISMATCH" (OfStatement (op_status o) (dget id x.2)) now x.1 else x.1, ddel id x.2)) as ->.
    { unfold reconcile_operation. simpl. rewrite (Hx id) at 1 by left. rewrite (mismatch_lag p b) by (try done; apply (Hin (id, o)); left). by destruct (lagging p id o). }
    destruct (IH (if lagging p id o then report dg id "PROVIDER_AHEAD_OR_STATUS_MISMATCH" (OfStatement (op_status o) (dget id x.2)) now x.1 else x.1, ddel id x.2)) as (H1 & H2 & H3).
    + intros kv Hkv. apply Hin. by right.
    + done.
    + cbn [fst]. destruct (lagging p id o); [by rewrite report_entries|done].
    + by apply ddel_ok.
    + intros i Hi. simpl. rewrite dget_ddel by done. rewrite decide_False by (intros ->; by apply Hid). apply Hx. by right.
    + split; [|split; [|done]].
      * rewrite H1. unfold lag_report at 2. simpl. destruct (lagging p id o); [|done]. simpl. unfold differences_of. rewrite map_app. by rewrite <- app_assoc.
      * intros i. rewrite H2. cbn [snd]. rewrite dget_ddel by done. repeat case_decide; set_solver.
Qed.

(** The current statement passes its checks. *)
Lemma statement_passes p b : local_ok p b → statement_delta (control p) = 0 → statement_copy dg jd (statements jd p) = Ok (statements jd p).
Proof.
  intros [Hb Hp _ _ _] Hz. unfold statement_copy, statements. rewrite (bool_decide_eq_true_2 (_ = 0)) by done. simpl.
  set (l := map (λ kv : string * Row, row_receipt kv.2) (sort_by fst (rows p))).
  assert (∀ kv, kv ∈ sort_by fst (rows p) → dget kv.1 (rows p) = Some kv.2) as Hin.
  { intros [id row] Hkv. apply elem_of_sort_by in Hkv. by apply dget_Some; [apply Hp|]. }
  assert (NoDup (sort_by fst (rows p)).*1) as Hkeys by (rewrite sort_by_perm; apply Hp).
  assert (Z.of_nat (length l) <= 10000) as Hlen.
  { unfold l. rewrite length_map, sort_by_length. pose proof (bo_cap _ Hb). assert (length (dkeys (rows p)) ≤ length (dkeys (operations b)))%nat as Hle.
    { apply submseteq_length, NoDup_submseteq; [apply Hp|by apply (rows_in_books digest_intent provider_url)]. }
    unfold dkeys in Hle. rewrite !length_fmap in Hle. lia. }
  rewrite (proj2 (Z.ltb_ge _ _)) by done. simpl. rewrite bool_decide_eq_false_2 by naive_solver. simpl.
  rewrite (mapR_total _ id).
  - rewrite list_fmap_id. simpl. rewrite bool_decide_eq_true_2; [done|]. unfold l. split; rewrite map_map.
    + erewrite map_ext_in; [exact Hkeys|]. intros [id row] Hkv. simpl. apply list_elem_of_In, Hin in Hkv.
      destruct (pk_row _ _ _ _ Hp _ _ Hkv) as (o & _ & Hr). apply Hr.
    + apply NoDup_fmap_2_strong; [|rewrite sort_by_perm; eapply NoDup_fmap_1; apply Hp].
      intros [i x] [i' x'] Hi Hi' E. simpl in E. apply Hin in Hi, Hi'. simpl in *. assert (i = i') as <- by (by eapply (pk_providers _ _ _ _ Hp)). congruence.
  - intros r Hr. unfold l in Hr. apply list_elem_of_fmap in Hr as ([id row] & -> & Hkv). apply Hin in Hkv. simpl.
    by eapply (issued_copy dg digest_intent provider_url checkout_local p b); [| |eapply row_issued].
Qed.

Lemma compare_current p b now :
  local_ok p b → statement_delta (control p) = 0 →
  let x := compare dg (st_operations (statements jd p)) now b in
  differences_of x.1.2 = lag_report p (sort_by fst (operations b)) ∧ au_errors x.2 = [] ∧ au_cash x.2 = au_liability x.2.
Proof.
  intros Hl Hz. pose proof Hl as [Hb Hp _ _ _].
  assert (st_operations (statements jd p) = map (λ kv : string * Row, row_receipt kv.2) (sort_by fst (rows p))) as -> by (unfold statements; by rewrite bool_decide_eq_true_2).
  unfold compare. set (l := map _ (sort_by fst (rows p))). set (d := foldl (λ d r, dset (r_id r) r d) [] l).
  assert (∀ kv, kv ∈ sort_by fst (rows p) → dget kv.1 (rows p) = Some kv.2 ∧ r_id (row_receipt kv.2) = kv.1) as Hin.
  { intros [id row] Hkv. apply elem_of_sort_by in Hkv. assert (dget id (rows p) = Some row) as Hrow by (by apply dget_Some; [apply Hp|]). split; [done|].
    destruct (pk_row _ _ _ _ Hp _ _ Hrow) as (o & _ & Hr). apply Hr. }
  assert (map r_id l = (sort_by fst (rows p)).*1) as Hids.
  { unfold l. rewrite map_map. apply map_ext_in. intros kv Hkv. by apply Hin, list_elem_of_In. }
  destruct (foldl_map_dset (λ r, r) r_id l [] dict_nil_ok) as (Hd1 & Hd2 & Hd3). { rewrite Hids, sort_by_perm. apply Hp. } fold d in Hd1, Hd2, Hd3.
  assert (∀ id, dget id d = row_receipt <$> dget id (rows p)) as Hd.
  { intros id. destruct (dget id (rows p)) as [row|] eqn:Hrow; simpl.
    - assert ((id, row) ∈ sort_by fst (rows p)) as Hkv by (apply elem_of_sort_by; by apply dget_Some_elem). destruct (Hin _ Hkv) as [_ Hid]. simpl in Hid.
      specialize (Hd2 (row_receipt row)). rewrite Hid in Hd2. apply Hd2. unfold l. apply list_elem_of_fmap. by exists (id, row).
    - rewrite Hd3; [done|]. rewrite Hids, sort_by_perm. by apply dget_None. }
  destruct (reconcile_fold p b now (sort_by fst (operations b)) (b, [], d) Hl) as (H1 & H2 & _); [|rewrite sort_by_perm; apply Hb|done|done|intros id _; apply Hd|].
  { intros [id o] Hkv. apply elem_of_sort_by in Hkv. by apply dget_Some; [apply Hb|]. }
  pose proof (reconcile_fold_same dg now (sort_by fst (operations b)) (b, [], d)) as Hsame.
  destruct (foldl (reconcile_operation dg now) (b, [], d) (sort_by fst (operations b))) as [[b1 ds] rest]. cbn [fst snd] in *.
  assert (rest = []) as ->.
  { destruct rest as [|[id r] rest]; [done|]. specialize (H2 id). simpl in H2. rewrite decide_True in H2 by done. case_decide as Hk; [done|]. exfalso. apply Hk.
    rewrite Hd in H2. destruct (dget id (rows p)) as [row|] eqn:Hrow; [|done]. rewrite sort_by_perm. apply (rows_in_books _ _ _ _ Hp). by eapply dget_in_key. }
  cbn [foldl fst snd]. assert (books_ok b1) as Hb1 by (eapply same_money_ok; [apply core_money, Hsame|done]).
  destruct (money_audit b1 (bo_money _ Hb1)) as (_ & Herr & Hcash). rewrite Herr. cbn [foldl fst snd]. auto.
Qed.
End report.

(** ** A round is a sequence of moves *)

Section moves.
Context (dg : Digests) (jd : JobDigests) (digest_intent : Intent → string) (digest_event : Event → string) (provider_url : string).
Notation move := (move dg jd digest_intent digest_event provider_url).
Notation moves := (rtc move).

(** The moves of a computation, which may only add to what was sent and claimed. *)
Definition extends (w w' : World) : Prop := moves w w' ∧ (∀ t, t ∈ w_tickets w → t ∈ w_tickets w') ∧ ∀ r, r ∈ w_sent w → r ∈ w_sent w'.
#[local] Instance extends_preorder : PreOrder extends.
Proof.
  split; [by intros w|]. intros w1 w2 w3 (H1 & H2 & H3) (H4 & H5 & H6). split; [by etrans|]. split; auto.
Qed.

Lemma extends_books w b : move w (on_books b w) → extends w (on_books b w).
Proof. intros H. split; [by apply rtc_once|done]. Qed.

Lemma call_extends {A} f (op : Books → result (Books * A)) w :
  (∀ b a, op (w_books w) = Ok (b, a) → move w (on_books b w)) → extends w (call f op w).1.
Proof.
  intros Hop. unfold call. destruct f; [..|done]; destruct (op (w_books w)) as [[b a]|] eqn:E; try done; apply extends_books; by eapply Hop.
Qed.

Lemma call_result {A} f (op : Books → result (Books * A)) w w' a :
  call f op w = (w', Ok a) → ∃ b, op (w_books w) = Ok (b, a) ∧ w' = on_books b w.
Proof.
  unfold call. destruct f; [| |done]; destruct (op (w_books w)) as [[s x]|]; intros [= <- H]; subst; by eexists.
Qed.

Lemma bind_extends {A B} (m : M World A) (f : A → M World B) w :
  extends w (m w).1 → (∀ w' a, m w = (w', Ok a) → extends w' (f a w').1) → extends w (mbind m f w).1.
Proof. intros Hm Hf. unfold mbind. destruct (m w) as [w' [a|e]] eqn:E; [|done]. etrans; [exact Hm|by apply Hf]. Qed.

Lemma lift_extends {A} (x : result A) w : extends w (mlift x w).1.
Proof. done. Qed.

(** The end of a round. *)
Lemma finish_extends k t p w : t ∈ w_tickets w → extends w (finish dg k t p w).1.
Proof.
  intros Ht. unfold finish. apply bind_extends; [|done]. apply call_extends. intros b x H. by eapply move_finish.
Qed.

Definition fresh_round (k : Round) (w : World) : Prop := charge_fresh (k_provider k) (k_checkout k) (w_psp w).

Lemma receipt_copy_error r e : receipt_copy dg r = Raise e → e = ValueError.
Proof.
  unfold receipt_copy, check_identifier, money. intros H. do 4 (destruct (negb _); [by injection H|]; simpl in H). destruct (negb _); [by injection H|]. simpl in H.
  destruct (bool_decide _); [by injection H|]. simpl in H.
  destruct (r_kind r), (r_parent r); simpl in H; try (by injection H); try (destruct (negb _); [by injection H|]; simpl in H);
    destruct (r_checkout r); try done; try (by injection H); destruct (negb _); [by injection H|done].
Qed.

Lemma query_extends k op w : extends w (query dg k op w).1 ∧ ((query dg k op w).2 = Raise (StatusError 404) → (query dg k op w).1 = w) ∧
  (∀ r, (query dg k op w).2 = Ok r → r ∈ w_sent (query dg k op w).1) ∧ w_books (query dg k op w).1 = w_books w.
Proof.
  unfold query, mbind, mlift, check_identifier. destruct (identifier op); [|by split]. simpl. unfold ask.
  destruct (f_query k); [..|by split].
  - destruct (get op (k_query k) (w_psp w)) as [[p r]|e] eqn:Eg; simpl; [|split; [by destruct w|split; [by destruct w|done]]].
    assert (extends w (sends r (on_psp p w))) as He.
    { split; [by eapply rtc_once, move_get|]. split; [done|]. intros x Hx. by right. }
    split; [done|]. split; [by intros ?%receipt_copy_error|]. split; [|done]. intros r' [-> _]%receipt_copy_Ok. left.
  - destruct (get op (k_query k) (w_psp w)) as [[p r]|e] eqn:Eg; simpl; [|split; [by destruct w|split; [by destruct w|done]]].
    split; [|by split]. split; [by eapply rtc_once, move_get|]. split; [done|]. intros x Hx. by right.
Qed.

Lemma submit_extends k op o w :
  dget op (operations (w_books w)) = Some o → fresh_round k w → extends w (submit dg digest_intent provider_url k op o w).1 ∧
  (∀ r, (submit dg digest_intent provider_url k op o w).2 = Ok r → r ∈ w_sent (submit dg digest_intent provider_url k op o w).1) ∧
  w_books (submit dg digest_intent provider_url k op o w).1 = w_books w.
Proof.
  intros Ho Hf. unfold submit, mbind, mlift, ask. destruct (f_create k) eqn:Ef; [..|by split]; unfold create;
    destruct (create_commit _ _ _ _ _ _ (w_psp w)) as [[p r]|e] eqn:Ec; simpl; try (split; [by destruct w|by destruct w]).
  - assert (extends w (on_psp p w)) as Hlost by (split; [by eapply rtc_once, move_submit|done]).
    destruct (lose_response (control (w_psp w))); simpl; [by split|].
    split; [split; [by eapply rtc_once, move_submitted|split; [done|intros x Hx; by right]]|]. split; [|done]. intros r' [-> _]%receipt_copy_Ok. left.
  - assert (extends w (on_psp p w)) as Hlost by (split; [by eapply rtc_once, move_submit|done]).
    destruct (lose_response (control (w_psp w))); simpl; [by split|].
    split; [split; [by eapply rtc_once, move_submitted|split; [done|intros x Hx; by right]]|]. by split.
Qed.

Lemma query_or_submit_extends k op o w :
  dget op (operations (w_books w)) = Some o → fresh_round k w →
  extends w (query_or_submit dg digest_intent provider_url k op o w).1 ∧
  (∀ r, (query_or_submit dg digest_intent provider_url k op o w).2 = Ok r → r ∈ w_sent (query_or_submit dg digest_intent provider_url k op o w).1).
Proof.
  intros Ho Hf. unfold query_or_submit. destruct (query_extends k op w) as (H1 & H2 & H3 & _). destruct (query dg k op w) as [w1 [r|e]]; simpl in *; [by split|].
  case_bool_decide as He; [|by split]. rewrite H2 by congruence. destruct (submit_extends k op o w Ho Hf) as (? & ? & _). by split.
Qed.

Lemma run_job_extends k t w : t ∈ w_tickets w → fresh_round k w → extends w (run_job dg jd digest_intent digest_event provider_url k t w).1.
Proof.
  intros Ht Hf. unfold run_job. destruct (t_payload t) as [op|e|run] eqn:Ep.
  - unfold run_execute. unfold mbind at 1. destruct (read (f_read k) (operation op None) w) as [w1 [o|e]] eqn:Er.
    2: { unfold read, call in Er. destruct (f_read k); [..|by injection Er as <- _]; destruct (operation op None (w_books w)); simpl in Er; by injection Er as <- _; destruct w. }
    apply call_result in Er as (b & Hb & ->). unfold operation in Hb. destruct (dget op (operations (w_books w))) as [x|] eqn:Ho; [|done]. injection Hb as <- ->.
    assert (on_books (w_books w) w = w) as -> by (by destruct w). destruct (terminal (op_status o)); [by apply finish_extends|].
    destruct (query_or_submit_extends k op o w Ho Hf) as [H1 H2]. apply bind_extends; [done|]. intros w2 r E. rewrite E in H1, H2. simpl in *.
    destruct (negb _); [done|]. apply bind_extends.
    + apply call_extends. intros b a Ha. eapply move_apply; [by apply H2|exact Ha].
    + intros w3 a Ha. apply call_result in Ha as (b & _ & ->). case_bool_decide; [|done]. apply finish_extends. simpl. by apply H1.
  - unfold run_notify, mbind at 1. unfold tell, receive. assert (∀ v x, receive_commit digest_event e (w_receiver w) = Ok (v, x) → extends w (on_receiver v w)) as Hr.
    { intros v x H. split; [by eapply rtc_once, move_receive|done]. }
    destruct (f_create k); [..|done]; destruct (receive_commit digest_event e (w_receiver w)) as [[v x]|] eqn:Ec; simpl; try (by destruct w).
    + specialize (Hr _ _ eq_refl). destruct (lose_ack (w_receiver w)); simpl; [done|]. case_bool_decide; [|done]. etrans; [exact Hr|]. by apply finish_extends.
    + specialize (Hr _ _ eq_refl). by destruct (lose_ack (w_receiver w)).
  - unfold run_reconcile. destruct (f_query k); try done. apply bind_extends.
    + apply call_extends. intros b x H. by eapply move_reconcile.
    + intros w' x H. apply call_result in H as (b & _ & ->). by apply finish_extends.
Qed.

Lemma work_once_extends k w : fresh_round k w → extends w (work_once dg jd digest_intent digest_event provider_url k w).1.
Proof.
  intros Hf. unfold work_once. destruct (call (f_claim k) _ w) as [w1 x] eqn:Ec.
  assert (extends w w1) as H1.
  { pose proof (call_extends (f_claim k) (claim LEASE_SECONDS (k_token k) (k_claim k)) w) as H. rewrite Ec in H. apply H. intros b t Hb. by eapply move_claim. }
  destruct x as [[t|]|]; [|done|done]. apply call_result in Ec as (b & Hb & ->).
  assert (extends w (got_ticket t (on_books b w))) as H2.
  { split; [by eapply rtc_once, move_claimed|]. split; [intros u Hu; by right|done]. }
  pose proof (run_job_extends k t (got_ticket t (on_books b w)) ltac:(left) Hf) as H3.
  destruct (run_job _ _ _ _ _ k t (got_ticket t (on_books b w))) as [w2 [y|e]]; simpl in *; [by etrans|]. etrans; [exact H2|]. etrans; [exact H3|].
  apply call_extends. intros b2 z Hz. eapply move_finish; [|exact Hz]. apply H3. left.
Qed.

Lemma dispatch_once_extends k w : dict_ok (hooks (w_psp w)) → extends w (dispatch_once dg k w).1.
Proof.
  intros Hd. unfold dispatch_once. destruct (claim_hook (k_token k) (k_claim k) (w_psp w)) as [[p x]|] eqn:Ec; [|done].
  destruct x as [[e h]|]; [|simpl].
  2: { unfold claim_hook in Ec. done. }
  assert (dget e (hooks p) = Some (mk_hook (hk_payload h) inflight (hk_attempts h + 1) (hk_due h) (hk_error h) (k_claim k + 15000) (k_token k))) as Hh.
  { unfold claim_hook, timestamp in Ec. destruct (k_claim k <? 0); [done|]. simpl in Ec. destruct (webhooks_down _); [done|]. destruct (next_hook _ _) as [[e' h']|]; [|done].
    injection Ec as <- -> ->. simpl. by rewrite dget_dset, decide_True. }
  assert (extends w (on_psp p w)) as H1 by (split; [by eapply rtc_once, move_claim_hook|done]).
  pose proof (call_extends (f_apply k) (apply dg (hk_payload h) (Some e) (k_apply k)) (on_psp p w)) as H2.
  destruct (call (f_apply k) _ (on_psp p w)) as [w2 y] eqn:E2. simpl in H2 |- *.
  assert (extends w w2) as H3. { etrans; [exact H1|]. apply H2. intros b a Ha. eapply (move_callback _ _ _ _ _ (on_psp p w)); [exact Hh|exact Ha]. }
  destruct (finish_hook _ _ _ _ _ _) as [p'|] eqn:Ef; simpl; [|done]. etrans; [exact H3|]. split; [by eapply rtc_once, move_finish_hook|done].
Qed.
End moves.
