(* ===== verification/PayProps.v ===== *)
(** * What the payment system promises

    The theorems on the books of PayBooks.v, whatever receipts reach them, and on the world
    of PayWork.v, with the simulated provider, its callbacks and any number of workers. *)
From stdpp Require Import pretty.
From S2P Require Import Prelude PyList PyDict Checks Effects PayBooks PayJobs PayProvider PayWork PayInv PaySteps PayWorld PayRound.
Local Open Scope Z_scope.

Section books.
Context (dg : Digests) (jd : JobDigests).

(** C5: the books balance, whatever receipts anyone sends: after any requests, receipts,
    job steps and reconciliations the audit finds nothing, the cash of clearing is what the
    merchants are owed, no balance is negative, a merchant's held money is exactly that of
    the unfinished payouts and refunds, and the refunds of a pay-in that did not fail never
    exceed it. *)
Theorem payments_balance b :
  books_reachable dg jd b →
  audit_matches (audit b) = true ∧ au_cash (audit b) = au_liability (audit b) ∧
  (∀ m w, wallet m b = Ok w → 0 <= available w ∧ 0 <= held w ∧ held w = zsum (outstanding m) (dvalues (operations b))) ∧
  (∀ p o, dget p (operations b) = Some o → refunds_of p (operations b) <= op_amount o).
Proof.
  intros Hr. pose proof (books_reachable_ok dg jd b Hr) as Hb. destruct (money_audit b (bo_money _ Hb)) as (H1 & _ & H2).
  split; [done|]. split; [done|]. split.
  - intros m w. unfold wallet. destruct (dget m (wallets b)) as [x|] eqn:Hm; [|done]. intros [= <-].
    destruct (wk_get _ _ _ (mo_wallets _ (bo_money _ Hb)) _ _ Hm) as ((_ & ?) & Hh & ?). rewrite <- (bo_held _ Hb m). auto.
  - intros p o Ho. pose proof (bo_refunds _ Hb p) as H. unfold amount_of in H. by rewrite Ho in H.
Qed.

(** C6: an operation ends once: whatever happens after it succeeded or failed, receipts
    that contradict it included, its row never changes again, it keeps exactly the postings
    of its outcome (a success is settled once, a failure is released, and never both), and
    no posted entry is changed or lost. *)
Theorem payment_final b b' id o :
  books_reachable dg jd b → rtc (books_step dg jd) b b' → dget id (operations b) = Some o → terminal (op_status o) = true →
  operation id None b' = Ok o ∧ (∀ k, is_Some (dget (entry_id k id) (entries b')) ↔ due k o = true) ∧
  (∀ eid e, dget eid (entries b') = Some e → en_operation e = id → eid = entry_id (en_kind e) id ∧ en_posted e = true) ∧
  (∀ eid e, dget eid (entries b) = Some e → dget eid (entries b') = Some e).
Proof.
  intros Hr Hs Ho Ht. pose proof (books_reachable_ok dg jd b Hr) as Hb. destruct (steps_kept dg jd b b' Hb Hs) as [Hb' [Hg He]].
  destruct (Hg id o Ho) as (o' & Ho' & _ & Hsame). rewrite (Hsame Ht) in Ho'. clear Hsame.
  split; [unfold operation; by rewrite Ho'|]. split; [|split; [|done]].
  - intros k. split; [|by apply (bo_due _ Hb')]. intros [e Hen]. destruct (bo_entry _ Hb' _ _ Hen) as ([Ek Eo]%entry_id_inj & x & Hx & Hd). congruence.
  - intros eid e Hen <-. split; [apply (bo_entry _ Hb' _ _ Hen)|apply (mo_posted _ (bo_money _ Hb') _ _ Hen)].
Qed.

(** C7: a receipt is refused exactly when it is malformed, the clock is negative or its
    event has come with another content: the funds for an outcome are always there, and a
    receipt that applies brings an unfinished operation to its status. *)
Theorem receipt_accepted_iff r event clock b :
  books_reachable dg jd b →
  (is_ok (apply dg r event clock b) = true ↔ welcome dg r event clock b) ∧
  (∀ b' a, apply dg r event clock b = Ok (b', a) → ap_applied a = true → ap_duplicate a = false →
    ∃ o o', operation (r_id r) None b = Ok o ∧ terminal (op_status o) = false ∧ operation (r_id r) None b' = Ok o' ∧ op_status o' = r_status r).
Proof.
  intros Hr. pose proof (books_reachable_ok dg jd b Hr) as Hb. split; [split|].
  - destruct (apply dg r event clock b) as [[b' a]|] eqn:E; [intros _|done]. by apply (apply_inv dg) in E as [H _].
  - intros Hw. destruct (apply_total dg r event clock b Hb Hw) as (b' & a & ->). done.
  - intros b' a H Ha Hd. apply (apply_inv dg) in H as [_ [(e & h & old & _ & _ & _ & ->)|(_ & b1 & Hcase & ->)]]; [done| |done].
    destruct Hcase as [[_ [= -> ->]]|(o & b0 & Ho & _ & Hj & ->)]; [done|]. destruct Hj as [reason|why|ws es Ht _ Hre]; [done|done|].
    exists o, (with_receipt r o). unfold operation. rewrite Ho. split; [done|]. split; [done|]. split; [|done]. simpl ap_review. cbv iota.
    assert (dget (r_id r) (operations (add_version dg (r_id r) r (with_outcome (r_id r) o r clock (with_money ws es b)))) = Some (with_receipt r o)) as Hget.
    { rewrite (proj1 (proj2 (same_version dg (r_id r) r _))), (rs_ops _ _ _ _ _ Hre), dget_dset. by rewrite decide_True. }
    destruct event; cbn [operations with_inbox]; by rewrite Hget.
Qed.

(** C8: a request makes one operation: after any further steps the same request, whenever
    it is repeated, answers with that operation as it now is and changes nothing, and a
    request of another content under its key is refused. *)
Theorem payment_idempotent m k body op clock b b1 id o b2 clock' :
  books_reachable dg jd b → drawn op = true → PayBooks.create dg m k body op clock b = Ok (b1, (id, o)) → rtc (books_step dg jd) b1 b2 → 0 <= clock' →
  ∃ o2, operation id (Some m) b2 = Ok o2 ∧ same_fields o o2 ∧
    (∀ op', PayBooks.create dg m k body op' clock' b2 = Ok (b2, (id, o2))) ∧
    (∀ k' body' op', cb_request_key body' = cb_request_key body → check_create m k' body' = Ok () → digest_request dg k' body' ≠ digest_request dg k body →
      PayBooks.create dg m k' body' op' clock' b2 = Raise (StatusError 409)).
Proof.
  intros Hr Hop H Hs Hc. pose proof (books_reachable_ok dg jd b Hr) as Hb.
  unfold PayBooks.create in H. destruct (check_create m k body) as [[]|] eqn:Ec; [|done]. simpl in H. destruct (timestamp clock) as [now|] eqn:Et; [|done]. simpl in H.
  destruct (create_row_kept dg _ _ _ _ _ _ _ _ Hb Ec Hop H) as [Hb1 _].
  assert (dget id (operations b1) = Some o ∧ op_merchant o = m ∧ op_key o = cb_request_key body ∧ op_hash o = digest_request dg k body) as (Ho & Hm & Hk & Hh).
  { apply (create_row_inv dg) in H as [(Hf & Hh & ->)|(-> & -> & _ & _ & ws & es & Hcr & ->)]; [| |done..].
    - destruct (find_key_Some _ _ _ _ _ (bo_ops _ Hb) Hf) as (? & ? & ?). auto.
    - split; [|done]. rewrite (proj1 (proj2 (core_money _ _ (same_enqueue _ _ _ _)))), (cr_ops _ _ _ _ Hcr), dget_dset. by rewrite decide_True. }
  destruct (steps_kept dg jd b1 b2 Hb1 Hs) as [Hb2 [Hg _]]. destruct (Hg id o Ho) as (o2 & Ho2 & Hsame & _). exists o2.
  pose proof Hsame as (S1 & _ & _ & _ & _ & S6 & S7 & _).
  assert (operation id (Some m) b2 = Ok o2) as Hget by (unfold operation; rewrite Ho2, bool_decide_eq_false_2; [done|naive_solver congruence]).
  assert (find_key m (cb_request_key body) b2 = Some (id, o2)) as Hfind.
  { destruct (find_key m (cb_request_key body) b2) as [[i x]|] eqn:Hf.
    - destruct (find_key_Some _ _ _ _ _ (bo_ops _ Hb2) Hf) as (Hx & Hxm & Hxk). assert (i = id) as -> by (apply (bo_keys _ Hb2 i id x o2); congruence). congruence.
    - exfalso. eapply find_key_None; [exact Hf|exact Ho2|congruence|congruence]. }
  assert (timestamp clock' = Ok clock') as Et' by (unfold timestamp; by rewrite (proj2 (Z.ltb_ge _ _))).
  split; [done|]. split; [done|]. split.
  - intros op'. unfold PayBooks.create. rewrite Ec, Et'. simpl. unfold create_row. rewrite Hfind, bool_decide_eq_false_2 by (rewrite S7; naive_solver). simpl. by rewrite Hget.
  - intros k' body' op' Ekey Ec' Hne. unfold PayBooks.create. rewrite Ec', Et'. simpl. unfold create_row. rewrite Ekey, Hfind, bool_decide_eq_true_2 by (rewrite S7; congruence). done.
Qed.
End books.

Section world.
Context (dg : Digests) (jd : JobDigests) (digest_intent : Intent → string) (digest_event : Event → string) (provider_url : string).
Context (checkout_local : ∀ token, identifier token = true → local_checkout dg (provider_url +:+ "/checkout/" +:+ token) = true).
Notation reachable := (reachable dg jd digest_intent digest_event provider_url).

Lemma issued_accepted p b r event clock :
  local_ok dg digest_intent provider_url p b → issued p r → event = None ∨ event = Some (event_id r) → 0 <= clock → match event with Some e => identifier e = true | None => True end →
  ∃ b' a, apply dg r event clock b = Ok (b', a) ∧ ap_review a = None.
Proof.
  intros Hl Hi Hev Hc Hid. pose proof Hl as [Hb Hp [_ _ V3] _ _].
  destruct (apply_total dg r event clock b Hb) as (b' & a & E).
  - split; [by eapply (issued_copy dg digest_intent provider_url checkout_local p b)|]. split; [done|]. destruct event as [e|]; [|done]. split; [done|].
    intros h a He. destruct Hev as [|[= ->]]; [done|]. destruct (V3 _ _ _ He) as (r' & Hi' & Eid & -> & _).
    apply event_id_inj in Eid as [E1 E2]; [|by eapply (issued_revision digest_intent provider_url)|by eapply (issued_revision digest_intent provider_url)].
    f_equal. symmetry. by eapply (issued_unique digest_intent provider_url p b).
  - exists b', a. split; [done|]. by apply (passes_apply dg digest_intent provider_url p b r event clock b' a).
Qed.

Lemma event_identifier op r : drawn op = true → r_id r = op → r_revision r = 1 ∨ r_revision r = 2 → identifier (event_id r) = true.
Proof.
  unfold drawn. intros [Hid Hlen%bool_decide_eq_true]%andb_prop Eid Hrev.
  assert (∃ d, pretty (r_revision r) = d ∧ (d = "1" ∨ d = "2")) as (d & Ed & Hd) by (destruct Hrev as [-> | ->]; eexists; (split; [reflexivity|]); auto).
  unfold event_id. rewrite Eid, Ed.
  assert (identifier ("_" +:+ d) = true ∧ String.length ("_" +:+ d) = 2%nat) as [Hsuf Hl] by (destruct Hd as [-> | ->]; done).
  assert (identifier (op +:+ ("_" +:+ d)) = true) as Hrest.
  { apply identifier_prefix; [done| |rewrite Hlen, Hl; lia]. unfold identifier in Hid. by apply andb_prop in Hid as [_ Hid]. }
  apply identifier_prefix; [exact Hrest|done|]. rewrite string_app_length, Hlen, Hl. simpl. lia.
Qed.

(** C9: the books and the provider agree, however late, lost or repeated their messages
    are: a finished operation has at the provider the row of its merchant and amount with
    its very status; every receipt that was sent and every callback is taken whenever it
    comes and none goes under review; the receiver takes every notification, and what it
    holds are the outcomes of finished operations. *)
Theorem provider_agrees w :
  reachable w →
  (∀ op o, operation op None (w_books w) = Ok o → terminal (op_status o) = true → ∃ row, dget op (rows (w_psp w)) = Some row ∧
    r_status (row_receipt row) = op_status o ∧ r_merchant (row_receipt row) = op_merchant o ∧ r_amount (row_receipt row) = op_amount o) ∧
  (∀ r clock, r ∈ w_sent w → 0 <= clock → ∃ b a, apply dg r None clock (w_books w) = Ok (b, a) ∧ ap_review a = None) ∧
  (∀ e h clock, dget e (hooks (w_psp w)) = Some h → 0 <= clock → ∃ b a, apply dg (hk_payload h) (Some e) clock (w_books w) = Ok (b, a) ∧ ap_review a = None) ∧
  (∀ t e, t ∈ w_tickets w → t_payload t = Notify e → ∃ v, receive_commit digest_event e (w_receiver w) = Ok (v, ev_id e)) ∧
  (∀ i x, dget i (received (w_receiver w)) = Some x → ∃ op o, operation op None (w_books w) = Ok o ∧ terminal (op_status o) = true ∧
    i = "terminal_" +:+ op ∧ re_event x = event_of op o).
Proof.
  intros Hr. pose proof (pay_reachable_ok dg jd digest_intent digest_event provider_url w Hr) as [Hl Hv Ht Hs]. pose proof Hl as [Hb Hp _ _ _].
  split; [|split; [|split; [|split]]].
  - intros op o Ho Hterm. unfold operation in Ho. destruct (dget op (operations (w_books w))) as [x|] eqn:Hx; [|done]. injection Ho as ->.
    destruct (terminal_agrees dg digest_intent provider_url _ _ op o Hl Hx Hterm) as (row & Hrow & Est & _). exists row. split; [done|]. split; [done|].
    destruct (row_order digest_intent provider_url _ _ op row Hp Hrow) as (o' & Ho' & Em & _ & _ & Ea). rewrite Hx in Ho'. injection Ho' as <-. auto.
  - intros r clock Hin Hc. eapply issued_accepted; [exact Hl|by apply Hs|by left|done|done].
  - intros e h clock He Hc. destruct (pk_hooks _ _ _ _ Hp _ _ He) as [-> Hi].
    eapply issued_accepted; [exact Hl|exact Hi|by right|done|]. destruct (issued_order _ _ _ _ _ Hp Hi) as (o & Ho & _).
    eapply event_identifier; [|reflexivity|by eapply issued_revision]. apply (bo_op _ Hb _ _ Ho).
  - intros t e Hin He. destruct (receive_total digest_event e (w_receiver w) (w_books w) Hb Hv) as (v & H & _); [|by exists v].
    eapply (ticket_event dg digest_intent digest_event provider_url w t); [done|by apply Ht|done].
  - intros i x Hx. destruct (Hv i x Hx) as (-> & _ & (o & Ho & Hterm & E)). exists (ev_operation (re_event x)), o. unfold operation. rewrite Ho.
    split; [done|]. split; [done|]. split; [|done]. by rewrite E at 1.
Qed.

(** C10: work ends: from any reachable world, a round that claims an execution and that
    nothing disturbs brings its operation to the status that the provider has for it, and
    so ends every payout and refund, with the outcome of its destination; the job is
    finished, or, while a buyer has not decided, due again. *)
Theorem payment_round_settles w T token pid ctok b1 t op :
  reachable w → 0 <= T → identifier token = true → query_down (control (w_psp w)) = false → lose_response (control (w_psp w)) = false →
  charge_fresh pid ctok (w_psp w) → existsb (λ r, bool_decide (row_token r = ctok)) (dvalues (rows (w_psp w))) = false →
  claim LEASE_SECONDS token T (w_books w) = Ok (b1, Some t) → t_payload t = Execute op →
  let w' := (work_once dg jd digest_intent digest_event provider_url (calm T token pid ctok) w).1 in
  ∃ o row j, operation op None (w_books w') = Ok o ∧ dget op (rows (w_psp w')) = Some row ∧ op_status o = r_status (row_receipt row) ∧
    (op_kind o ≠ payin → op_status o = final_status (op_destination o)) ∧
    dget (execute_id op) (jobs (w_books w')) = Some j ∧ jb_status j = if terminal (op_status o) then finished else pending.
Proof.
  intros Hr HT Htok Hq Hlose Hfresh Hct Hcl Hpay w'. pose proof (pay_reachable_ok dg jd digest_intent digest_event provider_url w Hr) as Hw.
  destruct (calm_round dg jd digest_intent digest_event provider_url checkout_local T token pid ctok w b1 t op) as (w2 & o & row & j & E & Ho & Hrow & Hs & Hj & Hjs); try done.
  subst w'. rewrite E. exists o, row, j. unfold operation. simpl. rewrite Ho. do 3 (split; [done|]). split; [|done]. intros Hk.
  assert (world_ok dg digest_intent digest_event provider_url w2) as Hw2.
  { pose proof (work_once_extends dg jd digest_intent digest_event provider_url (calm T token pid ctok) w Hfresh) as [Hm _]. rewrite E in Hm.
    by eapply pay_moves_ok. }
  destruct (pk_row _ _ _ _ (lo_psp _ _ _ _ _ (wo_local _ _ _ _ _ Hw2)) _ _ Hrow) as (o' & Ho' & Hro). rewrite Ho in Ho'. injection Ho' as <-.
  pose proof (ro_state _ _ _ _ _ Hro) as H. simpl in H. rewrite Hs. destruct (op_kind o); [done|apply H|apply H].
Qed.

(** C11: a reconciliation reports what is true: against the current statement, with no
    simulated error in it, a run ends with exactly the operations that the books have not
    caught up with, in the order of their identifiers, and with a clean audit; nothing is
    missing, orphaned, of another amount or settled wrongly. *)
Theorem reconcile_exact w run job r clock :
  reachable w → statement_delta (control (w_psp w)) = 0 → identifier run = true → dget run (runs (w_books w)) = Some r → rn_status r ≠ run_done → 0 <= clock →
  match job with Some t => is_ok (job_identity t) = true ∧ owns_run t run clock (w_books w) = true | None => True end →
  ∃ b ds a, reconcile dg jd run (statements jd (w_psp w)) job clock (w_books w) = Ok (b, Matched ds a (st_snapshot (statements jd (w_psp w)))) ∧
    differences_of ds = lag_report (w_psp w) (sort_by fst (operations (w_books w))) ∧ audit_matches a = true.
Proof.
  intros Hr Hz Hid Hrun Hst Hc Hjob. pose proof (pay_reachable_ok dg jd digest_intent digest_event provider_url w Hr) as [Hl _ _ _].
  pose proof (statement_passes dg jd digest_intent provider_url checkout_local _ (w_books w) Hl Hz) as Hsp.
  pose proof (compare_current dg jd digest_intent provider_url checkout_local (w_psp w) (w_books w) clock Hl Hz) as (H1 & H2 & _).
  set (st := statements jd (w_psp w)) in *. clearbody st.
  unfold reconcile, check_identifier, timestamp. rewrite Hid. simpl. rewrite Hsp. simpl. rewrite (proj2 (Z.ltb_ge _ _)) by done. simpl. rewrite Hrun.
  destruct (compare dg (st_operations st) clock (w_books w)) as [[b ds] a]. simpl in H1, H2.
  assert (∀ y, (let* _ := match job with Some t => let* _ := job_identity t in raise_if (negb (owns_run t run clock (w_books w))) (StatusError 409) (Ok ()) | None => Ok () end in
    Ok (set_run run run_done (Some y) b, y)) = Ok (set_run run run_done (Some y) b, y)) as Hgo.
  { intros y. destruct job as [t|]; [|done]. destruct Hjob as [Hj1 Hj2]. destruct (job_identity t); [|done]. simpl. by rewrite Hj2. }
  exists (set_run run run_done (Some (Matched ds a (st_snapshot st))) b), ds, a.
  split; [|split; [done|]]; [|unfold audit_matches; by rewrite H2]. destruct (rn_status r); [apply Hgo|done|apply Hgo].
Qed.

(** A round of a worker, and the delivery of a callback, make only moves of the world,
    whichever of their calls are lost before or after they take effect and whenever they
    are served. *)
Theorem payment_worker_refines k w :
  reachable w → charge_fresh (k_provider k) (k_checkout k) (w_psp w) →
  rtc (move dg jd digest_intent digest_event provider_url) w (work_once dg jd digest_intent digest_event provider_url k w).1 ∧
  rtc (move dg jd digest_intent digest_event provider_url) w (dispatch_once dg k w).1.
Proof.
  intros Hr Hf. split; [by apply work_once_extends|]. apply dispatch_once_extends.
  apply (pk_keys _ _ _ _ (lo_psp _ _ _ _ _ (wo_local _ _ _ _ _ (pay_reachable_ok dg jd digest_intent digest_event provider_url w Hr)))).
Qed.
End world.

(** ** A shop with one seller *)

Module PayDemo.
Definition kind_text (k : Kind) : string := match k with payin => "payin" | payout => "payout" | refund => "refund" end.
Definition dg : Digests := mk_digests
  (λ k b, kind_text k +:+ "/" +:+ cb_request_key b +:+ "/" +:+ pretty (cb_amount b) +:+ "/" +:+ cb_field b)
  (λ r, r_id r +:+ "/" +:+ pretty (r_revision r) +:+ "/" +:+ r_provider r)
  (λ op reason _, op +:+ "/" +:+ reason)
  (λ u, path ← strip_prefix "http://127.0.0.1:8093" u; Some (mk_target "http" "127.0.0.1" "" "" path "" ""))
  (λ host, bool_decide (host = "127.0.0.1")).
Definition jd : JobDigests := mk_job_digests (λ l, pretty (zsum r_amount l)) (λ id _, id) (λ id n, id +:+ "_" +:+ pretty n).
Definition url : string := "http://127.0.0.1:8093".
Definition sale : string := "aaaaaaaaaaaaaaaaaaaaaaaaaaaaaaa1".
Definition cashing : string := "aaaaaaaaaaaaaaaaaaaaaaaaaaaaaaa2".
Definition sell : Request := Create "seller" payin (mk_create "k1" 500 "USD" "order1") sale.
Definition cash_out : Request := Create "seller" payout (mk_create "k2" 200 "USD" "test-bank-ok") cashing.
Definition receipt (op : string) (k : Kind) (amount : Z) (st : Status) (n : Z) : Receipt := mk_receipt op "seller" k None amount "USD" ("mock_" +:+ op) st n None.

Lemma local : ∀ token, identifier token = true → local_checkout dg (url +:+ "/checkout/" +:+ token) = true.
Proof. intros token Ht. exact Ht. Qed.

(** *** Books *)

Definition shop : Books := match new_books ["seller"] with Ok b => b | Raise _ => mk_books [] [] [] [] [] [] [] [] [] [] end.
Definition request (r : Request) (clock : Z) (b : Books) : Books := match serve dg jd r clock b with Ok b => b | Raise _ => b end.
Definition take_receipt (r : Receipt) (event : option string) (clock : Z) (b : Books) : Books := match apply dg r event clock b with Ok x => x.1 | Raise _ => b end.

Lemma request_steps r clock b : drawn_ok r → rtc (books_step dg jd) b (request r clock b).
Proof. intros Hd. unfold request. destruct (serve _ _ _ _ _) eqn:E; [|done]. apply rtc_once. by eapply step_serve. Qed.
Lemma receipt_steps r event clock b : rtc (books_step dg jd) b (take_receipt r event clock b).
Proof. unfold take_receipt. destruct (apply _ _ _ _ _) as [[b' a]|] eqn:E; [|done]. apply rtc_once. by eapply step_apply. Qed.
Lemma shop_reachable : books_reachable dg jd shop.
Proof. by exists ["seller"], shop. Qed.
Lemma reach_steps b b' : books_reachable dg jd b → rtc (books_step dg jd) b b' → books_reachable dg jd b'.
Proof. intros (ms & b0 & Hn & Hs) H. exists ms, b0. split; [done|by etrans]. Qed.

(** A sale is paid, and the seller cashes a part of it. *)
Definition sold : Books := take_receipt (receipt sale payin 500 SUCCEEDED 2) (Some "event1") 2000 (request sell 1000 shop).
Definition paying : Books := request cash_out 3000 sold.
(** A receipt that contradicts the sale. *)
Definition disputed : Books := take_receipt (receipt sale payin 500 FAILED 3) None 4000 paying.

Lemma sold_reachable : books_reachable dg jd sold.
Proof. eapply reach_steps; [|apply receipt_steps]. eapply reach_steps; [apply shop_reachable|]. by apply request_steps. Qed.
Lemma pay_paying_reachable : books_reachable dg jd paying.
Proof. eapply reach_steps; [apply sold_reachable|]. by apply request_steps. Qed.

(** *** The world *)

Notation go := (rtc (move dg jd in_id ev_id url)).
Definition ask_shop (r : Request) (clock : Z) (w : World) : World := on_books (request r clock (w_books w)) w.
Definition work (k : Round) (w : World) : World := (work_once dg jd in_id ev_id url k w).1.
Definition buyer (token : string) (clock : Z) (w : World) : World :=
  match checkout_commit token (Some "test-success") clock (w_psp w) with Ok x => on_psp x.1 w | Raise _ => w end.

Lemma ask_moves r clock w : drawn_ok r → go w (ask_shop r clock w).
Proof.
  intros Hd. unfold ask_shop, request. destruct (serve _ _ _ _ _) eqn:E; [apply rtc_once; by eapply move_serve|]. by destruct w.
Qed.
Lemma buyer_moves token clock w : go w (buyer token clock w).
Proof. unfold buyer. destruct (checkout_commit _ _ _ _) as [[p r]|] eqn:E; [|done]. apply rtc_once. by eapply move_choose. Qed.
Definition unused (provider : string) (p : PSP) : bool := negb (existsb (λ kv : string * Row, bool_decide (r_provider (row_receipt kv.2) = provider)) (rows p)).
Lemma unused_fresh provider token p : identifier provider = true → identifier token = true → unused provider p = true → charge_fresh provider token p.
Proof.
  intros H1 H2 Hu%negb_true_iff. split; [done|]. split; [done|]. intros id r Hr E. unfold unused in Hu. rewrite existsb_false in Hu.
  specialize (Hu (id, r) (dget_Some_elem _ _ _ Hr)). simpl in Hu. by rewrite bool_decide_eq_true_2 in Hu.
Qed.
Lemma pay_work_moves T token provider checkout w : identifier provider = true → identifier checkout = true → unused provider (w_psp w) = true → go w (work (calm T token provider checkout) w).
Proof. intros H1 H2 Hu. apply work_once_extends. by apply unused_fresh. Qed.

Definition start : World := world_start shop.
Definition ordered : World := ask_shop sell 1000 start.
Definition asked : World := work (calm 1500 "tok1" "mock_1" "page1") ordered.
Definition chosen : World := buyer "page1" 2000 asked.
(** The buyer paid: the books lag. *)
Definition lagged : World := ask_shop (ScheduleReconcile "run1") 2500 chosen.
(** Rounds of work: the sale, then its notification; then the seller cashes. *)
Definition caught_up : World := work (calm 3000 "tok2" "mock_2" "page2") chosen.
Definition told : World := work (calm 4000 "tok3" "mock_3" "page3") caught_up.
Definition cashed : World := ask_shop cash_out 5000 told.

Lemma reach_moves w w' : reachable dg jd in_id ev_id url w → go w w' → reachable dg jd in_id ev_id url w'.
Proof. intros (ms & b0 & Hn & Hs) H. exists ms, b0. split; [done|by etrans]. Qed.
Lemma ordered_reachable : reachable dg jd in_id ev_id url ordered.
Proof. exists ["seller"], shop. split; [reflexivity|]. apply (ask_moves sell 1000 start). reflexivity. Qed.
Lemma asked_reachable : reachable dg jd in_id ev_id url asked.
Proof. apply (reach_moves ordered); [apply ordered_reachable|]. apply pay_work_moves; vm_compute; reflexivity. Qed.
Lemma chosen_reachable : reachable dg jd in_id ev_id url chosen.
Proof. apply (reach_moves asked); [apply asked_reachable|apply buyer_moves]. Qed.
Lemma lagged_reachable : reachable dg jd in_id ev_id url lagged.
Proof. apply (reach_moves chosen); [apply chosen_reachable|]. by apply ask_moves. Qed.
Lemma caught_up_reachable : reachable dg jd in_id ev_id url caught_up.
Proof. apply (reach_moves chosen); [apply chosen_reachable|]. apply pay_work_moves; vm_compute; reflexivity. Qed.
Lemma told_reachable : reachable dg jd in_id ev_id url told.
Proof. apply (reach_moves caught_up); [apply caught_up_reachable|]. apply pay_work_moves; vm_compute; reflexivity. Qed.
Lemma cashed_reachable : reachable dg jd in_id ev_id url cashed.
Proof. apply (reach_moves told); [apply told_reachable|]. apply ask_moves. reflexivity. Qed.
End PayDemo.

Lemma payments_balance_witness :
  audit_matches (audit PayDemo.paying) = true ∧ au_cash (audit PayDemo.paying) = 500 ∧
  ∃ w, wallet "seller" PayDemo.paying = Ok w ∧ available w = 300 ∧ held w = zsum (outstanding "seller") (dvalues (operations PayDemo.paying)) ∧ held w = 200.
Proof.
  destruct (payments_balance PayDemo.dg PayDemo.jd PayDemo.paying PayDemo.pay_paying_reachable) as (H1 & H2 & H3 & _). split; [exact H1|]. split; [vm_compute; reflexivity|].
  destruct (wallet "seller" PayDemo.paying) as [w|] eqn:E; [|vm_compute in E; discriminate E]. exists w. split; [reflexivity|].
  destruct (H3 "seller" w E) as (_ & _ & H). vm_compute in E. injection E as <-. split; [reflexivity|]. split; [exact H|reflexivity].
Defined.

Lemma payment_final_witness :
  ∃ o, operation PayDemo.sale None PayDemo.paying = Ok o ∧ op_status o = SUCCEEDED ∧ operation PayDemo.sale None PayDemo.disputed = Ok o ∧
    is_Some (dget (entry_id settle PayDemo.sale) (entries PayDemo.disputed)) ∧ length (reviews PayDemo.disputed) = 1%nat.
Proof.
  destruct (dget PayDemo.sale (operations PayDemo.paying)) as [o|] eqn:E; [|vm_compute in E; discriminate E].
  assert (op_status o = SUCCEEDED) as Hs by (vm_compute in E; injection E as <-; reflexivity).
  destruct (payment_final PayDemo.dg PayDemo.jd PayDemo.paying PayDemo.disputed PayDemo.sale o PayDemo.pay_paying_reachable (PayDemo.receipt_steps _ _ _ _) E) as (H1 & H2 & _).
  { rewrite Hs. reflexivity. }
  exists o. split; [unfold operation; rewrite E; reflexivity|]. split; [exact Hs|]. split; [exact H1|]. split; [apply H2; unfold due; rewrite Hs; reflexivity|vm_compute; reflexivity].
Defined.

Lemma receipt_accepted_iff_witness :
  is_ok (apply PayDemo.dg (PayDemo.receipt PayDemo.cashing payout 200 SUCCEEDED 1) (Some "event2") 5000 PayDemo.paying) = true ∧
  is_ok (apply PayDemo.dg (PayDemo.receipt PayDemo.cashing payout 200 SUCCEEDED 1) (Some "event1") 5000 PayDemo.paying) = false.
Proof.
  split.
  - apply (receipt_accepted_iff PayDemo.dg PayDemo.jd _ _ _ _ PayDemo.pay_paying_reachable). split; [vm_compute; reflexivity|]. split; [lia|]. split; [reflexivity|].
    intros h a H. vm_compute in H. discriminate H.
  - vm_compute. reflexivity.
Defined.

Lemma payment_idempotent_witness :
  ∃ b1 o, PayBooks.create PayDemo.dg "seller" payin (mk_create "k1" 500 "USD" "order1") PayDemo.sale 1000 PayDemo.shop = Ok (b1, (PayDemo.sale, o)) ∧
    let b2 := PayDemo.take_receipt (PayDemo.receipt PayDemo.sale payin 500 SUCCEEDED 2) None 2000 b1 in
    (∃ o2, PayBooks.create PayDemo.dg "seller" payin (mk_create "k1" 500 "USD" "order1") PayDemo.cashing 9000 b2 = Ok (b2, (PayDemo.sale, o2)) ∧ same_fields o o2) ∧
    PayBooks.create PayDemo.dg "seller" payin (mk_create "k1" 600 "USD" "order1") PayDemo.cashing 9000 b2 = Raise (StatusError 409).
Proof.
  destruct (PayBooks.create PayDemo.dg "seller" payin (mk_create "k1" 500 "USD" "order1") PayDemo.sale 1000 PayDemo.shop) as [[b1 [id o]]|] eqn:E; [|vm_compute in E; discriminate E].
  assert (id = PayDemo.sale) as -> by (vm_compute in E; by injection E). exists b1, o. split; [reflexivity|]. cbv zeta.
  destruct (payment_idempotent PayDemo.dg PayDemo.jd "seller" payin (mk_create "k1" 500 "USD" "order1") PayDemo.sale 1000 PayDemo.shop b1 PayDemo.sale o
    (PayDemo.take_receipt (PayDemo.receipt PayDemo.sale payin 500 SUCCEEDED 2) None 2000 b1) 9000 PayDemo.shop_reachable eq_refl E (PayDemo.receipt_steps _ _ _ _) ltac:(lia)) as (o2 & _ & Hs & H1 & H2).
  split; [exists o2; split; [apply H1|exact Hs]|]. apply H2; [reflexivity|vm_compute; reflexivity|vm_compute; discriminate].
Defined.

Lemma provider_agrees_witness :
  (∃ r b a, r ∈ w_sent PayDemo.told ∧ apply PayDemo.dg r None 9000 (w_books PayDemo.told) = Ok (b, a) ∧ ap_review a = None) ∧
  (∃ o row, operation PayDemo.sale None (w_books PayDemo.told) = Ok o ∧ op_status o = SUCCEEDED ∧
    dget PayDemo.sale (rows (w_psp PayDemo.told)) = Some row ∧ r_status (row_receipt row) = op_status o) ∧
  length (received (w_receiver PayDemo.told)) = 1%nat.
Proof.
  destruct (provider_agrees PayDemo.dg PayDemo.jd in_id ev_id PayDemo.url PayDemo.local PayDemo.told PayDemo.told_reachable) as (H1 & H2 & _). split; [|split].
  - destruct (w_sent PayDemo.told) as [|r l] eqn:E; [vm_compute in E; discriminate E|]. destruct (H2 r 9000 ltac:(left) ltac:(lia)) as (b & a & H). exists r, b, a. split; [left|exact H].
  - destruct (operation PayDemo.sale None (w_books PayDemo.told)) as [o|] eqn:E; [|vm_compute in E; discriminate E].
    assert (op_status o = SUCCEEDED) as Hs by (vm_compute in E; by injection E as <-).
    destruct (H1 PayDemo.sale o E) as (row & Hrow & Est & _); [rewrite Hs; reflexivity|]. exists o, row. split; [reflexivity|]. split; [exact Hs|]. split; [exact Hrow|exact Est].
  - vm_compute. reflexivity.
Defined.

Lemma payment_round_settles_witness :
  ∃ o, operation PayDemo.cashing None (w_books (PayDemo.work (calm 6000 "tok4" "mock_4" "page4") PayDemo.cashed)) = Ok o ∧ op_status o = SUCCEEDED.
Proof.
  destruct (claim LEASE_SECONDS "tok4" 6000 (w_books PayDemo.cashed)) as [[b1 [t|]]|] eqn:E; [|vm_compute in E; discriminate E..].
  assert (t_payload t = Execute PayDemo.cashing) as Hp by (vm_compute in E; by injection E as _ <-).
  destruct (payment_round_settles PayDemo.dg PayDemo.jd in_id ev_id PayDemo.url PayDemo.local PayDemo.cashed 6000 "tok4" "mock_4" "page4" b1 t PayDemo.cashing
    PayDemo.cashed_reachable ltac:(lia) eq_refl ltac:(vm_compute; reflexivity) ltac:(vm_compute; reflexivity)
    (PayDemo.unused_fresh "mock_4" "page4" (w_psp PayDemo.cashed) eq_refl eq_refl ltac:(vm_compute; reflexivity)) ltac:(vm_compute; reflexivity) E Hp) as (o & row & j & Ho & _ & _ & Hout & _).
  exists o. split; [exact Ho|]. vm_compute in Ho. injection Ho as <-. rewrite Hout; [reflexivity|discriminate].
Defined.

Lemma reconcile_exact_witness :
  ∃ b ds a s, reconcile PayDemo.dg PayDemo.jd "run1" (statements PayDemo.jd (w_psp PayDemo.lagged)) None 3000 (w_books PayDemo.lagged) = Ok (b, Matched ds a s) ∧
    differences_of ds = [(Some PayDemo.sale, "PROVIDER_AHEAD_OR_STATUS_MISMATCH")] ∧ audit_matches a = true.
Proof.
  destruct (dget "run1" (runs (w_books PayDemo.lagged))) as [r|] eqn:E; [|vm_compute in E; discriminate E].
  destruct (reconcile_exact PayDemo.dg PayDemo.jd in_id ev_id PayDemo.url PayDemo.local PayDemo.lagged "run1" None r 3000 PayDemo.lagged_reachable) as (b & ds & a & H1 & H2 & H3).
  - vm_compute. reflexivity.
  - reflexivity.
  - exact E.
  - vm_compute in E. injection E as <-. discriminate.
  - lia.
  - exact I.
  - exists b, ds, a. eexists. split; [exact H1|]. split; [rewrite H2; vm_compute; reflexivity|exact H3].
Defined.

Lemma payment_worker_refines_witness :
  ∃ w, rtc (move PayDemo.dg PayDemo.jd in_id ev_id PayDemo.url) PayDemo.cashed w ∧
    (∃ o, operation PayDemo.cashing None (w_books w) = Ok o ∧ op_status o = UNKNOWN).
Proof.
  pose (k := mk_round answered answered answered unanswered lost lost answered 6000 6000 6000 6000 6000 7000 "tok4" "mock_4" "page4" "timed out").
  exists (PayDemo.work k PayDemo.cashed). split; [|eexists; split; vm_compute; reflexivity].
  apply (payment_worker_refines PayDemo.dg PayDemo.jd in_id ev_id PayDemo.url k PayDemo.cashed PayDemo.cashed_reachable).
  apply PayDemo.unused_fresh; [reflexivity|reflexivity|vm_compute; reflexivity].
Defined.
